(* ===== verification/_CoqProject ===== *)
-Q . S2P
Prelude.v
Usage.v
GoStrings.v
Money.v
Pricing.v
Receipt.v
Credential.v
Ledger.v
Fair.v
Fairness.v
Registry.v
RegistryFacts.v
RegistryProps.v
Execution.v
Health.v
Judgement.v
Stats.v
Mutation.v
Scheduler.v
SchedulerProps.v
Quota.v
Redis.v
Lua.v
QuotaStore.v
QuotaStoreProps.v
QuotaStoreInv.v
HealthStore.v
HealthStoreProps.v
HealthAgree.v
Concurrency.v
ConcurrencyProps.v
RateWindow.v
RateWindowProps.v
Lockout.v
LockoutProps.v
Leases.v
Ownership.v
OwnershipProps.v
Lifecycle.v
Boundary.v
Attempts.v
AttemptsProps.v
Sse.v
SseProps.v
Contracts.v
Headers.v
HeadersProps.v
Forward.v
ForwardProps.v
Stream.v
StreamProps.v
Settings.v
SettingsProps.v
Channel.v
ChannelModules.v
ChannelProps.v
Proxy.v
Overrides.v
AutoModel.v
ClientModels.v
Redact.v
RedactProps.v
Tokens.v
TokenStream.v
TokensProps.v
TokenStreamProps.v
Snapshot.v
SnapshotProps.v
LogEvent.v
LogMapper.v
LogStore.v
UsageReport.v
LogStoreProps.v
LogMapperProps.v
LogHistory.v
UsageReportProps.v
RequestLog.v
RequestLogProps.v
