(* ===== verification/Prelude.v ===== *)
(** * GPT-Load gateway: a verification development

    The repository is an AI gateway: clients send requests in several provider
    protocols, the gateway picks an upstream credential, forwards the request,
    judges the outcome, retries where that is safe, and accounts tokens and cost.
    This library models the decision-making core of that program and proves what
    makes it correct.  Source paths below are relative to [src/internal].

    ** How the parts interact

    A request is routed by the _scheduler_ ([scheduler]), which reads an immutable
    configuration snapshot ([state/snapshot.go]) and asks the _credential
    registry_ ([state/registry.go]) for available credentials.  It selects one by
    _weighted fair allocation_ over the _scheduling ledger_
    ([state/scheduling.go], [scheduler/fair.go]) and rotates over upstream models
    ([state/model_rotation.go]).  The outcome of the attempt is judged by the
    _health_ package ([health/execution_judge.go]), whose decision (retry,
    cooldown, blacklist, skip group) is applied to the registry under the striped
    _mutation lock_ and counted by the _statistics window_ ([health/mutation.go],
    [health/stats.go]).  The token _usage_ of the response ([usage]) is accumulated,
    priced by the _price table_ ([pricing]) and frozen in a _receipt_
    ([pricing/receipt.go], [usagecost]).  Before all that, the _cost limits_ of the
    client's access key decide whether the request may start ([accessquota]).

    Several gateway instances share one Redis.  The _cluster_ package ([cluster])
    keeps there the usage of cost limits, the health of credentials, the slots of
    concurrency limits, request-rate windows, failed sign-ins, leases, soft
    preferences and the owners of stored responses, and changes them with Lua
    scripts and single commands.

    ** Files

    - [Prelude]: machine integers, results, error combinators, tactics.
    - [Usage]: Module [Usage], package [usage] - token vectors, diagnostics and the
      accumulator state machine ([ReplaceSnapshot], [MergePatch], [Finalize]).
    - [GoStrings]: the parts of [strings] and [strconv] the sources use.
    - [Money]: Module [Money] - nano-USD amounts, component quotes, multipliers,
      display currencies ([pricing/nanousd.go], [price_multiplier.go], [currency.go]).
    - [Pricing]: Module [Pricing] - price rules, tables, tiers and quotes
      ([pricing/types.go], [compile.go], [quote.go]).
    - [Receipt]: Module [Receipt] - receipt re-validation and the cost matrix
      ([pricing/receipt.go], [usagecost/validate.go]).
    - [Credential]: Module [Credential] - credential entries, views, validation
      ([state/registry.go], [state/runtime_view.go]).
    - [Ledger]: Module [Ledger] - 128-bit progress, members, synchronisation, model
      cursors ([state/scheduling.go], [weight.go], [model_rotation.go]).
    - [Fair], [Fairness]: one allocation ([scheduler/fair.go]) pass by pass, the
      ledger invariant, and the fairness theorems.
    - [Registry], [RegistryFacts], [RegistryProps]: every operation of the credential
      registry, its invariant, and its theorems ([state/registry.go],
      [model_cooldown.go], [shared_health.go], [runtime_view.go]).
    - [Execution]: Module [Execution] - operations, routes, dispatch states, failure
      evidence ([execution], [protocol]).
    - [Health], [Judgement]: decisions, rate-limit headers, [JudgeExecution]
      ([health/decision.go], [ratelimit.go], [execution_judge.go]) and what the
      gateway may rely on.
    - [Stats]: the sliding statistics window ([health/stats.go]).
    - [Mutation]: the striped lock as a step relation ([health/mutation.go]).
    - [Scheduler], [SchedulerProps]: target evaluation, the request iterator and the
      inspection ([scheduler]), written against the class [CredentialSource]; the
      laws of that interface ([SourceLaws]) are discharged by the registry.
    - [Quota]: Module [Quota] - cost-limit rules of access keys, their validation,
      decisions and views ([accessquota/runtime.go]).
    - [Redis]: the store as an interface, the class [RedisStore] of commands and the
      class [RedisOk] of their laws; [DB] is a store that satisfies it.
    - [Lua]: scripts as a state and error monad, and Lua's numbers.
    - [QuotaStore], [QuotaStoreProps], [QuotaStoreInv]: the shared usage of cost
      limits ([cluster/access_quota.go], [access_quota_scripts.go]), its theorems,
      and its type invariant.
    - [HealthStore], [HealthStoreProps], [HealthAgree]: the shared credential health
      ([cluster/credential_health.go], [credential_health_scripts.go]), what each
      script operation does, and the simulation of the registry's own operations, with
      the two branches of the gateway ([gateway/handler.go]).
    - [Concurrency], [ConcurrencyProps]: slots and permits ([cluster/concurrency.go]).
    - [RateWindow], [RateWindowProps]: request-rate limits and statistics
      ([cluster/access_key_rpm.go], [rpm_stats.go], [ratelimit]).
    - [Lockout], [LockoutProps]: failed sign-ins ([control/auth_limiter.go],
      [cluster/auth_failures.go]).
    - [Leases]: refresh leases and job claims ([cluster/refresh_lease.go],
      [job_lease.go]).
    - [Ownership], [OwnershipProps]: affinity keys and preferences, response owners
      ([affinity], [cluster/affinity.go], [response_bindings.go],
      [state/response_bindings.go]).
    - [Lifecycle]: the shutdown coordinator as a step relation ([httplifecycle]).
    - [Boundary]: the judgement of upstream results and stream ends, and the reasons
      clients are given ([gateway/execution_boundary.go], [stream_observation.go],
      [reason.go]).
    - [Attempts], [AttemptsProps]: the loop that carries a request from one credential
      to the next ([executeAttempts] of [gateway/handler.go]) with the scheduler's
      iterator and the judge, for an arbitrary environment.
    - [Sse], [SseProps]: framing of event streams, cut into arbitrary chunks
      ([gateway/stream_rewrite.go], [gateway/stream.go]).
    - [Contracts]: the records executors exchange with the gateway and their validation
      ([execution/contracts.go], [validation.go], [count_tokens.go]).
    - [Headers], [HeadersProps]: which header fields pass in either direction, framing of
      buffered responses ([platform/httpheader], [gateway/forward.go],
      [response_framing.go], [response_representation.go]).
    - [Forward], [ForwardProps]: attempt specifications and the translation of execution
      results ([gateway/execution_forward.go], [responses_store.go]).
    - [Stream], [StreamProps]: [ForwardStream] of [gateway/execution_forward.go] - the sink
      of an executor, observation, usage capture, the empty-response window, the writes to
      the client, and the result.
    - [Settings], [SettingsProps]: runtime and group settings, cross-origin policies and
      header rules, parsed from untyped values ([state/runtime_settings.go], [cors.go]).
    - [Channel], [ChannelModules], [ChannelProps]: the channel registry - module
      definitions, their compiler and checks, parameters, credentials, targets and frozen
      targets ([channel/compiler.go], [registry.go], [spec]) - and the 36 built-in modules
      one by one ([channel/modules]).
    - [Proxy]: outbound proxies and their precedence ([outboundproxy/proxy.go]).
    - [Overrides]: the compiler of parameter override rules ([parameteroverride/rules.go]).
    - [AutoModel]: automatic models, the decision connection and guardrail rules
      ([automodel/config.go], [jev/config.go], [requestaudit/audit.go]).
    - [ClientModels]: profiles of models shown to clients ([catalog/client_model.go]).
    - [Redact], [RedactProps]: redaction rules and the rewriting of a text
      ([requestredact/redact.go]).
    - [Tokens], [TokensProps]: the tokens redacted text is replaced by and their
      restoration ([platform/encryption/redaction.go]).
    - [TokenStream], [TokenStreamProps]: the restoration of a text that arrives in pieces
      ([gateway/redaction_restore_token_stream.go]).
    - [Snapshot], [SnapshotProps]: the compiler of a configuration into the snapshot that
      routing, scheduling and authentication read ([state/snapshot.go]), built from the
      components above, and its publication ([state/manager.go]).
    - [LogEvent]: epoch milliseconds, the events the gateway emits and the rows they are
      stored as ([platform/epochms], [telemetry], [storage/models/request.go]).
    - [LogMapper], [LogMapperProps]: redaction of credentials and the mapping of an event to
      a row, with its checks ([platform/redact], [requestlog/mapper.go]).
    - [LogStore], [LogStoreProps]: the tables with their constraints, the aggregates of a
      batch, the transaction that writes it, and the sweeps ([requestlog/worker.go],
      [auto_decision_usage.go], [retention.go]).
    - [LogHistory]: the log as a step relation of batches and sweeps, and the invariant that
      ties the aggregates to everything ever stored.
    - [UsageReport], [UsageReportProps]: usage reports, pages of groups, totals of access
      keys and windows of credentials ([requestlog/usage_query.go] and its neighbours).
    - [RequestLog], [RequestLogProps]: the service that queues events, its worker,
      checkpoints of cost limits and the shutdown, as a step relation
      ([requestlog/service.go], [worker.go]).

    ** How code is modelled

    State is a record and an operation is a function from the old state and its
    arguments to the new state and its results; a mutex serialises operations, so
    each locked section is one function.  Errors are values of [result] or
    [option].  Integers are [Z]; where the source computes at a fixed width the
    wrap-around is written out ([wrap_u64], [wrap_i64]).  Go maps are [gmap]
    (or association lists and functions when read-only), iteration over a map is
    iteration over its elements, and order independence is proved where the result
    depends on it.  Times are nanoseconds with 0 for the zero time, and the clock is
    an argument.  Sources of randomness and textual time parsers are arguments
    with their documented behaviour as hypotheses.  String enumerations have one
    constructor per named constant and one for any other text.

    A script runs atomically, so it is one function on the store; what other
    instances and time do between two commands of a call is an argument of the call
    or a step of a relation, and every call is delivered, not delivered, or applied
    with its reply lost.  The clients are proved against the laws of [RedisOk] only.

    ** What the theorems show

    - Usage: the accumulator refines an abstract ledger of optional counters;
      published totals never overflow; publication happens once.
    - Money and pricing: component costs are exact with half-up rounding; decimal
      texts, multipliers and currencies round-trip; tiers are selected by the
      documented thresholds; every issued receipt passes re-validation; quotes
      satisfy the usage/cost matrix.
    - Fair allocation: the ledger invariant; allocations in proportion to weights
      within one share, and one more when the first pass draws random offsets;
      independence of candidate order; admission at the front;
      progress arithmetic; model rotation without starvation.
    - Registry: the structural invariant over all operations; exact candidates;
      convergence of reconciliation, of mirrored health and of cooldown reports;
      rejection of stale recoveries; exact snapshot and restore; no panic.
    - Health: decisions validate on every branch; retries are replay safe; effects
      of committed responses rest on trusted evidence; cooldowns are bounded; header
      parsing is order independent.
    - Statistics and locking: the ring counts exactly the recent events; the run of
      problems is exact; the striped lock is exclusive, deadlock free and finite.
    - Scheduler: selections are admissible, respect priorities, never repeat a
      credential, and happen whenever possible; the inspection agrees with it.
    - Cost limits: definitions are accepted exactly when valid, whatever the map
      order; a decision denies exactly when a rule blocks and announces the first
      instant at which none does; views and decisions agree.
    - Shared cost limits: the admission script takes the decision the Go rules take;
      settlement charges exactly the current windows; stored states stay legal under
      every interleaving; a change is remembered until it is checkpointed.
    - Shared health: every script operation simulates the registry's operation on whole
      milliseconds, but for two refusals by the version of the stored auth state; peers
      adopt a change from its event, and the shared and the local branch of the gateway
      agree.
    - Shared limits: slots never exceed a limit, survive until they are released or
      expire, and are given back by rejected requests; windows of a minute, less the
      skew of the clocks, admit at most the limit and the retry hint suffices; both
      forms of the sign-in lockout take the same decisions; leases exclude each other.
    - Ownership: affinity keys separate tenants and namespaces; the first live
      preference and the first owner of a response win.
    - Requests: the attempt loop ends, with bounded forwards to distinct captured
      credentials; every repeated forward was safe; slots are returned and the cost
      limits are consulted once.
    - Event streams: the observer sees exactly the messages of the format, however the bytes
      are cut; a committed stream delivers the forwarded text in order and completely
      unless an error is reported; before the commit the client sees nothing.
    - Headers: what an attempt sends upstream carries no client credential, what a client
      receives carries no secret and no origin field, and buffered responses declare the
      length they have.
    - Configuration: settings are accepted exactly when every entry is, in any order, and
      stay within their bounds; channel targets offer exactly the declared routes, the
      built-in channels compile, and a recorded target resolves to itself; a snapshot's
      candidates are exactly the routes its groups offer, the scheduler never meets a group
      that is missing, keys are found exactly when active, and no subscriber misses a
      publication.
    - Redaction: a byte of a text is replaced exactly when a rule matches it outside the
      authentic tokens, all of which are found, and every other byte is copied; what was
      encrypted is restored, forged tokens stay as they are, and a streamed text is restored like a whole one
      however it is cut.
    - Request log: a mapped row is accepted by the tables; the aggregates are the sum of
      everything ever stored, whatever batches were repeated, failed or raced; reports over
      hours and cut hours are exact where no sweep has been, and a page of groups that
      declares its data complete is; sweeping ends and leaves the rows that have not expired.
      Every event is accounted for in order, a changed cost limit is checkpointed without
      traffic, and a cancelled shutdown ends.
    - Shutdown: no handler starts after it, every running one is cancelled, and the wait
      ends with the last of them.

    ** Fuel and bounds

    The recursions with fuel are decimal rendering ([render], the bit length of
    the number suffices), trimming ([trim_fuel], the length of the text suffices),
    the search for the shortest display price ([priceLoop], ten rounds for the nine
    steps from 10^9 to 10) and binary search ([binarySearchLoop], the length of the
    list suffices); each is proved to compute what its unbounded counterpart would.
    Completeness of the scheduler and proportional allocation assume that the 64-bit
    selection sequence and the 128-bit coordinates have not reached the end of their
    range.  [ReadHealth] has the number of credentials as fuel, one batch each being
    enough.  [executeAttempts] needs twice the number of usable credentials plus one
    iterations, which [requests_end] shows to be enough.  The framing loops of [Sse] take one
    more round than there are pending bytes, the text scanners of [Contracts], [Headers] and
    [Forward] (runes, fields, replacements, occurrences) one per byte of the text, and the
    token scan of [Redact] one per byte and one more ([tokenLoop_fuel]), [restoreLoop] of
    [Tokens] likewise, and [pieceLoop] of [TokenStream] twice the length plus one.  [to_valid_fuel] of [LogMapper] takes one per
    byte, and a sweep takes one round more than there are rows ([deleteExpiredRequestLogs_exact]).  Lua computes with doubles:
    [dbl] rounds as they do, and theorems about instants and revisions assume values up
    to 2^53, amounts being compared as texts.  The rate window is proved for instants within a
    bound of the server's clock, by which its interval shrinks on both sides, the lockout
    for instances whose clocks agree with the server's; slots and leases need no such
    assumption.

    ** Not modelled

    SQL storage apart from the request log, HTTP handlers, provider SDK adapters, the administrative API, OAuth flows
    and provider catalogs are input/output, and the conversions between provider protocols
    rewrite JSON documents through third-party scanners whose results would be arguments
    of every step.  JSON codecs, [net/url], regular expressions, ciphers and digests are
    class parameters of the components that use them.
    Of the cluster package the catalog cache, guardrail verdicts and configuration
    events are single commands around opaque payloads.  Of the gateway's attempt loop the
    preparation of bodies, the guardrail and the exchange with the upstream are
    arguments, and what it records for the request log is left out.  Of the request log the
    listing and detail queries, the home page, credential activity, the history of
    subscription quotas and the process log are not modelled, nor are the locks rows are
    updated under: a transaction is one step.  Of a forwarded stream the dialect's
    classifiers, the usage extractor and the restorer are arguments.
    Of parameter overrides and redaction the rules, the rewriting of plain texts and the
    restoration of plain texts, whole and in pieces, are modelled; the walk over JSON
    documents and the restoration inside them and inside signed thinking blocks is not.  [Manager.Matches] compares snapshots
    with [reflect.DeepEqual], which has no counterpart for the functions they hold. *)

From Stdlib Require Import ZArith Lia Bool String Ascii List Permutation.
From stdpp Require Import base gmap sets list strings sorting.

#[global] Set Warnings "-notation-overridden".

Local Open Scope Z_scope.

(** ** Machine integers

    Go integers are unbounded [Z] values together with the width they are kept
    in.  Arithmetic the source performs at a fixed width is written with an
    explicit wrap-around; arithmetic the source guards is written plainly and
    the guard is part of the definition. *)

Definition max_int64 : Z := 9223372036854775807.
Definition min_int64 : Z := -9223372036854775808.
Definition max_uint64 : Z := 18446744073709551615.
Definition two64 : Z := 18446744073709551616.

Definition is_int64 (z : Z) : bool := (min_int64 <=? z) && (z <=? max_int64).
Definition in_int64 (z : Z) : Prop := min_int64 <= z <= max_int64.
Definition in_uint64 (z : Z) : Prop := 0 <= z < two64.

(** Wrap-around of unsigned 64-bit arithmetic. *)
Definition wrap_u64 (z : Z) : Z := z mod two64.
(** Wrap-around of signed 64-bit arithmetic. *)
Definition wrap_i64 (z : Z) : Z := (z + 9223372036854775808) mod two64 - 9223372036854775808.

(** ** Fallible computations

    A Go function returning [(T, error)] is a [result E T]; the error type [E]
    enumerates the error values the function can return. *)

Inductive result (E A : Type) : Type :=
| Ok (a : A)
| Err (e : E).
Arguments Ok {E A} a.
Arguments Err {E A} e.

Declare Scope go_scope.
Delimit Scope go_scope with go.

Notation "'let?' x ':=' e1 'in' e2" :=
  (match e1 with Ok x => e2 | Err e => Err e end)
  (at level 10, x pattern, e1 at level 200, e2 at level 200) : go_scope.

(** A validator returning a Go [error] is an [option E]; [None] is [nil].
    [a ;;! b] runs [b] only when [a] found no error, so the first error wins. *)
Definition err_if {E} (b : bool) (e : E) : option E := if b then Some e else None.

Definition first_error {E} (a b : option E) : option E :=
  match a with Some e => Some e | None => b end.
Notation "a ;;! b" := (first_error a b) (at level 80, right associativity) : go_scope.

(** ** Tactics *)

(** Turn boolean tests in the context and the goal into arithmetic facts. *)
Ltac zbool :=
  repeat match goal with
  | H : (_ && _) = true |- _ => apply andb_true_iff in H; destruct H
  | H : (_ || _) = false |- _ => apply orb_false_iff in H; destruct H
  | H : negb _ = true |- _ => apply negb_true_iff in H
  | H : negb _ = false |- _ => apply negb_false_iff in H
  | H : (_ <? _) = true |- _ => apply Z.ltb_lt in H
  | H : (_ <? _) = false |- _ => apply Z.ltb_ge in H
  | H : (_ <=? _) = true |- _ => apply Z.leb_le in H
  | H : (_ <=? _) = false |- _ => apply Z.leb_gt in H
  | H : (_ >=? _) = _ |- _ => rewrite Z.geb_leb in H
  | H : (_ >? _) = _ |- _ => rewrite Z.gtb_ltb in H
  | H : (_ =? _) = true |- _ => apply Z.eqb_eq in H
  | H : (_ =? _) = false |- _ => apply Z.eqb_neq in H
  end.

(** Case analysis on the first conditional of the goal. *)
Ltac case_if :=
  match goal with
  | |- context [if ?b then _ else _] => let E := fresh "E" in destruct b eqn:E
  end.

(** Case analysis on the first conditional of a hypothesis. *)
Ltac case_if_in H :=
  match type of H with
  | context [if ?b then _ else _] => let E := fresh "E" in destruct b eqn:E
  end.

Create HintDb gateway.

(** ** Generic lemmas *)

Lemma is_int64_spec z : is_int64 z = true <-> in_int64 z.
Proof. unfold is_int64, in_int64. rewrite andb_true_iff, !Z.leb_le. lia. Qed.

Lemma err_if_None {E} b (e : E) : err_if b e = None <-> b = false.
Proof. destruct b; simpl; split; congruence. Qed.

Lemma first_error_None {E} (a b : option E) : first_error a b = None <-> a = None /\ b = None.
Proof. destruct a; simpl; intuition congruence. Qed.

(** Split "no error" facts about validators into their guards. *)
Ltac no_error :=
  repeat match goal with
  | H : first_error _ _ = None |- _ => apply first_error_None in H; destruct H
  | H : err_if _ _ = None |- _ => apply err_if_None in H
  | |- first_error _ _ = None => apply first_error_None; split
  | |- err_if _ _ = None => apply err_if_None
  end.

Lemma wrap_u64_range z : in_uint64 (wrap_u64 z).
Proof. unfold in_uint64, wrap_u64. apply Z.mod_pos_bound. reflexivity. Qed.

Lemma wrap_u64_id z : in_uint64 z -> wrap_u64 z = z.
Proof. intros. unfold wrap_u64. apply Z.mod_small. exact H. Qed.

(** One increment always changes a 64-bit generation counter. *)
Lemma wrap_u64_succ_neq z : in_uint64 z -> wrap_u64 (z + 1) <> z.
Proof.
  intros [H1 H2] Heq. unfold wrap_u64, two64 in *.
  destruct (Z.eq_dec (z + 1) 18446744073709551616) as [E|E].
  - rewrite E in Heq. rewrite Z.mod_same in Heq; lia.
  - rewrite Z.mod_small in Heq; lia.
Qed.

Lemma wrap_i64_small z : in_int64 z -> wrap_i64 z = z.
Proof. unfold in_int64, wrap_i64, min_int64, max_int64, two64. intros. rewrite Z.mod_small; lia. Qed.

(** Elements with distinct keys are determined by their key. *)
Lemma NoDup_map_inj {A B} (f : A -> B) l x y : NoDup (map f l) -> In x l -> In y l -> f x = f y -> x = y.
Proof.
  induction l as [|a l IH]; cbn; [easy|]. rewrite NoDup_cons, list_elem_of_In, in_map_iff.
  intros [Hn Hnd] [<-|Hx] [<-|Hy] Hf; auto; destruct Hn; eauto.
Qed.

#[export] Hint Resolve wrap_u64_range wrap_u64_id : gateway.
