(* ===== verification/Usage.v ===== *)
(** * Token usage accounting ([internal/usage])

    The provider-neutral token counts, their overflow-checked sums, the
    diagnostics bit set, and the accumulator that collects one usage result
    from the events of a provider stream. *)

From Stdlib Require Import ZArith Lia Bool String List.
From stdpp Require Import base list strings.
From S2P Require Import Prelude.

Local Open Scope Z_scope.

Module Usage.

(** ** Data ([types.go]) *)

Record Tokens := mkTokens {
  UncachedInput : Z;
  CacheRead : Z;
  CacheWrite5M : Z;
  CacheWrite1H : Z;
  CacheWriteUnknown : Z;
  Output : Z
}.

(** A Go string type with named constants: one constructor per constant and
    one for every other string (the zero value is [StateOther ""]). *)
Inductive State :=
| StateComplete
| StatePartial
| StateMissing
| StateNotApplicable
| StateOther (raw : string).

#[export] Instance State_eq_dec : EqDecision State.
Proof. solve_decision. Defined.

Inductive DiagnosticCode :=
| DiagnosticUnsupportedBillableDetail
| DiagnosticCacheWriteDefaulted5M
| DiagnosticNegativeValue
| DiagnosticInvalidNumber
| DiagnosticMissingRequiredField
| DiagnosticInconsistentTotal
| DiagnosticInvalidPayload
| DiagnosticInvalidEventSequence
| DiagnosticOther (raw : string).

#[export] Instance DiagnosticCode_eq_dec : EqDecision DiagnosticCode.
Proof. solve_decision. Defined.

(** The [uint16] flag of a supported code: [1 << iota]. *)
Definition diagnosticFlag (code : DiagnosticCode) : option Z :=
  match code with
  | DiagnosticUnsupportedBillableDetail => Some (Z.shiftl 1 0)
  | DiagnosticCacheWriteDefaulted5M => Some (Z.shiftl 1 1)
  | DiagnosticNegativeValue => Some (Z.shiftl 1 2)
  | DiagnosticInvalidNumber => Some (Z.shiftl 1 3)
  | DiagnosticMissingRequiredField => Some (Z.shiftl 1 4)
  | DiagnosticInconsistentTotal => Some (Z.shiftl 1 5)
  | DiagnosticInvalidPayload => Some (Z.shiftl 1 6)
  | DiagnosticInvalidEventSequence => Some (Z.shiftl 1 7)
  | DiagnosticOther _ => None
  end.

Record Diagnostics := mkDiagnostics {
  flags : Z;
  totalDelta : Z;
  deltaPresent : bool
}.

Definition noDiagnostics : Diagnostics := mkDiagnostics 0 0 false.

Definition Add (d : Diagnostics) (code : DiagnosticCode) : Diagnostics :=
  match diagnosticFlag code with
  | Some bit => mkDiagnostics (Z.lor d.(flags) bit) d.(totalDelta) d.(deltaPresent)
  | None => d
  end.

Definition Has (d : Diagnostics) (code : DiagnosticCode) : bool :=
  match diagnosticFlag code with
  | Some bit => negb (Z.land d.(flags) bit =? 0)
  | None => false
  end.

Definition SetTotalDelta (d : Diagnostics) (delta : Z) : Diagnostics :=
  let d := Add d DiagnosticInconsistentTotal in
  mkDiagnostics d.(flags) delta true.

Definition TotalDelta (d : Diagnostics) : Z * bool := (d.(totalDelta), d.(deltaPresent)).

Definition Merge (d other : Diagnostics) : Diagnostics :=
  let merged := Z.lor d.(flags) other.(flags) in
  if other.(deltaPresent)
  then mkDiagnostics merged other.(totalDelta) true
  else mkDiagnostics merged d.(totalDelta) d.(deltaPresent).

Record Result := mkResult {
  ResTokens : Tokens;
  ResState : State;
  ResDiagnostics : Diagnostics
}.

(** A [*int64] field of a patch is an [option Z]. *)
Record Patch := mkPatch {
  PUncachedInput : option Z;
  PCacheRead : option Z;
  PCacheWrite5M : option Z;
  PCacheWrite1H : option Z;
  PCacheWriteUnknown : option Z;
  POutput : option Z;
  PFinal : bool;
  PDiagnostics : Diagnostics
}.

Definition zeroTokens : Tokens := mkTokens 0 0 0 0 0 0.
(** The Go zero value [Result{}]. *)
Definition zeroResult : Result := mkResult zeroTokens (StateOther EmptyString) noDiagnostics.

(** ** Checked arithmetic ([arithmetic.go]) *)

Definition SubtractCached (inclusive cached : Z) : option Z :=
  if (inclusive <? 0) || (cached <? 0) || (cached >? inclusive) then None
  else Some (inclusive - cached).

Definition CheckedAdd (left right : Z) : option Z :=
  if (left <? 0) || (right <? 0) || (left >? max_int64 - right) then None
  else Some (left + right).

(** The accumulation loop shared by [CheckedTotal] and the pricing package's
    [checkedInputTokens]: it stops at the first rejected addition. *)
Fixpoint checkedLoop (total : Z) (values : list Z) : option Z :=
  match values with
  | [] => Some total
  | value :: rest =>
      match CheckedAdd total value with
      | Some total => checkedLoop total rest
      | None => None
      end
  end.

Definition tokenList (tokens : Tokens) : list Z :=
  [tokens.(UncachedInput); tokens.(CacheRead); tokens.(CacheWrite5M);
   tokens.(CacheWrite1H); tokens.(CacheWriteUnknown); tokens.(Output)].

Definition CheckedTotal (tokens : Tokens) : option Z := checkedLoop 0 (tokenList tokens).

(** ** Accumulator ([accumulator.go]) *)

Inductive UsageError := ErrFinalized | ErrNegativePatch | ErrTokenOverflow.

Record Accumulator := mkAccumulator {
  tokens : Tokens;
  presence : Z;
  diagnostics : Diagnostics;
  final : bool;
  finalized : bool
}.

Definition zeroAccumulator : Accumulator :=
  mkAccumulator zeroTokens 0 noDiagnostics false false.

Definition presenceUncachedInput : Z := Z.shiftl 1 0.
Definition presenceCacheRead : Z := Z.shiftl 1 1.
Definition presenceCacheWrite5M : Z := Z.shiftl 1 2.
Definition presenceCacheWrite1H : Z := Z.shiftl 1 3.
Definition presenceCacheWriteUnknown : Z := Z.shiftl 1 4.
Definition presenceOutput : Z := Z.shiftl 1 5.

Definition patchList (patch : Patch) : list (option Z) :=
  [patch.(PUncachedInput); patch.(PCacheRead); patch.(PCacheWrite5M);
   patch.(PCacheWrite1H); patch.(PCacheWriteUnknown); patch.(POutput)].

Definition validPatch (patch : Patch) : bool :=
  forallb (fun value => match value with Some v => negb (v <? 0) | None => true end)
          (patchList patch).

(** One [if patch.F != nil] block of [apply]: the new value and presence mask. *)
Definition applyField (value : option Z) (bit : Z) (current mask : Z) : Z * Z :=
  match value with
  | Some v => (v, Z.lor mask bit)
  | None => (current, mask)
  end.

Definition apply (a : Accumulator) (patch : Patch) : Accumulator :=
  let t := a.(tokens) in
  let '(v0, m) := applyField patch.(PUncachedInput) presenceUncachedInput t.(UncachedInput) a.(presence) in
  let '(v1, m) := applyField patch.(PCacheRead) presenceCacheRead t.(CacheRead) m in
  let '(v2, m) := applyField patch.(PCacheWrite5M) presenceCacheWrite5M t.(CacheWrite5M) m in
  let '(v3, m) := applyField patch.(PCacheWrite1H) presenceCacheWrite1H t.(CacheWrite1H) m in
  let '(v4, m) := applyField patch.(PCacheWriteUnknown) presenceCacheWriteUnknown t.(CacheWriteUnknown) m in
  let '(v5, m) := applyField patch.(POutput) presenceOutput t.(Output) m in
  mkAccumulator (mkTokens v0 v1 v2 v3 v4 v5) m a.(diagnostics) a.(final) a.(finalized).

(** The fields both writers publish from their candidate. *)
Definition publish (a candidate : Accumulator) : Accumulator :=
  mkAccumulator candidate.(tokens) candidate.(presence) candidate.(diagnostics)
                candidate.(final) a.(finalized).

Definition ReplaceSnapshot (a : Accumulator) (patch : Patch) : Accumulator * option UsageError :=
  if a.(finalized) then (a, Some ErrFinalized)
  else if negb (validPatch patch) then (a, Some ErrNegativePatch)
  else
    let candidate := mkAccumulator zeroTokens 0 patch.(PDiagnostics) patch.(PFinal) false in
    let candidate := apply candidate patch in
    match CheckedTotal candidate.(tokens) with
    | None => (a, Some ErrTokenOverflow)
    | Some _ => (publish a candidate, None)
    end.

Definition MergePatch (a : Accumulator) (patch : Patch) : Accumulator * option UsageError :=
  if a.(finalized) then (a, Some ErrFinalized)
  else if negb (validPatch patch) then (a, Some ErrNegativePatch)
  else
    let candidate := apply a patch in
    let candidate := mkAccumulator candidate.(tokens) candidate.(presence)
      (Merge candidate.(diagnostics) patch.(PDiagnostics))
      (candidate.(final) || patch.(PFinal)) candidate.(finalized) in
    match CheckedTotal candidate.(tokens) with
    | None => (a, Some ErrTokenOverflow)
    | Some _ => (publish a candidate, None)
    end.

Definition Finalize (a : Accumulator) (applicable : bool) : Accumulator * (Result * bool) :=
  if a.(finalized) then (a, (zeroResult, false))
  else
    let a' := mkAccumulator a.(tokens) a.(presence) a.(diagnostics) a.(final) true in
    if negb applicable
    then (a', (mkResult zeroTokens StateNotApplicable noDiagnostics, true))
    else
      let state := if a.(presence) =? 0 then StateMissing
                   else if a.(final) then StateComplete else StatePartial in
      (a', (mkResult a.(tokens) state a.(diagnostics), true)).

(** ** Checked sums *)

Lemma CheckedAdd_Some l r n :
  CheckedAdd l r = Some n <-> 0 <= l /\ 0 <= r /\ l + r <= max_int64 /\ n = l + r.
Proof.
  unfold CheckedAdd. split.
  - intros H. case_if_in H; [discriminate|]. injection H as <-. zbool. lia.
  - intros (? & ? & ? & ->). case_if; [|reflexivity].
    rewrite !orb_true_iff in E. rewrite Z.gtb_ltb, !Z.ltb_lt in E. lia.
Qed.

Lemma checkedLoop_Some values : forall total n,
  0 <= total <= max_int64 ->
  checkedLoop total values = Some n <->
  Forall (fun v => 0 <= v) values /\ n = total + foldr Z.add 0 values /\ n <= max_int64.
Proof.
  induction values as [|v rest IH]; intros total n Ht; cbn [checkedLoop foldr].
  - split; [intros [= <-]|intros (_ & -> & _)]; repeat split; auto; try lia; f_equal; lia.
  - split.
    + destruct (CheckedAdd total v) eqn:E; [|discriminate].
      apply CheckedAdd_Some in E as (? & ? & ? & ->). intros HL.
      apply IH in HL as (HF & -> & ?); [|lia]. repeat split; auto; lia.
    + intros (HF & -> & Hn). inversion HF as [|? ? Hv HF']; subst.
      assert (0 <= foldr Z.add 0 rest).
      { clear -HF'. induction HF'; simpl; lia. }
      assert (E : CheckedAdd total v = Some (total + v)) by (apply CheckedAdd_Some; lia).
      rewrite E. apply IH; [lia|]. repeat split; auto; lia.
Qed.

Lemma CheckedTotal_range t n : CheckedTotal t = Some n -> 0 <= n <= max_int64.
Proof.
  intros E. apply checkedLoop_Some in E as (HF & -> & ?); [|unfold max_int64; lia].
  split; [|assumption]. clear -HF. induction HF; simpl; lia.
Qed.

(** ** The abstract accumulator

    What the accumulator promises its callers: a partial assignment of token
    fields in which the last accepted write of a field wins, and a result that
    is published once. *)

Inductive field := FUncachedInput | FCacheRead | FCacheWrite5M | FCacheWrite1H
                 | FCacheWriteUnknown | FOutput.

Definition fields : list field :=
  [FUncachedInput; FCacheRead; FCacheWrite5M; FCacheWrite1H; FCacheWriteUnknown; FOutput].

Definition tok (t : Tokens) (f : field) : Z :=
  match f with
  | FUncachedInput => t.(UncachedInput) | FCacheRead => t.(CacheRead)
  | FCacheWrite5M => t.(CacheWrite5M) | FCacheWrite1H => t.(CacheWrite1H)
  | FCacheWriteUnknown => t.(CacheWriteUnknown) | FOutput => t.(Output)
  end.

Definition pat (p : Patch) (f : field) : option Z :=
  match f with
  | FUncachedInput => p.(PUncachedInput) | FCacheRead => p.(PCacheRead)
  | FCacheWrite5M => p.(PCacheWrite5M) | FCacheWrite1H => p.(PCacheWrite1H)
  | FCacheWriteUnknown => p.(PCacheWriteUnknown) | FOutput => p.(POutput)
  end.

Definition position (f : field) : Z :=
  match f with
  | FUncachedInput => 0 | FCacheRead => 1 | FCacheWrite5M => 2
  | FCacheWrite1H => 3 | FCacheWriteUnknown => 4 | FOutput => 5
  end.

Record Spec := mkSpec {
  assigned : field -> option Z;
  specDiagnostics : Diagnostics;
  specFinal : bool;
  published : bool
}.

Definition emptySpec : Spec := mkSpec (fun _ => None) noDiagnostics false false.

Definition specTokens (g : field -> option Z) : Tokens :=
  let v f := default 0 (g f) in
  mkTokens (v FUncachedInput) (v FCacheRead) (v FCacheWrite5M) (v FCacheWrite1H)
           (v FCacheWriteUnknown) (v FOutput).

Definition specTotal (g : field -> option Z) : Z :=
  foldr Z.add 0 (map (fun f => default 0 (g f)) fields).

Inductive op := OpReplace (p : Patch) | OpMerge (p : Patch) | OpFinalize (applicable : bool).
Inductive out := OutError (e : option UsageError) | OutResult (r : Result) (ok : bool).

Definition specWrite (s : Spec) (p : Patch) (g : field -> option Z) (d : Diagnostics) (fin : bool)
  : Spec * out :=
  if s.(published) then (s, OutError (Some ErrFinalized))
  else if existsb (fun f => match pat p f with Some v => v <? 0 | None => false end) fields
  then (s, OutError (Some ErrNegativePatch))
  else if specTotal g <=? max_int64 then (mkSpec g d fin false, OutError None)
  else (s, OutError (Some ErrTokenOverflow)).

Definition specStep (s : Spec) (o : op) : Spec * out :=
  match o with
  | OpReplace p => specWrite s p (pat p) p.(PDiagnostics) p.(PFinal)
  | OpMerge p =>
      specWrite s p (fun f => match pat p f with Some v => Some v | None => s.(assigned) f end)
        (Merge s.(specDiagnostics) p.(PDiagnostics)) (s.(specFinal) || p.(PFinal))
  | OpFinalize applicable =>
      if s.(published) then (s, OutResult zeroResult false)
      else (mkSpec s.(assigned) s.(specDiagnostics) s.(specFinal) true,
            if applicable then
              OutResult (mkResult (specTokens s.(assigned))
                (if forallb (fun f => negb (bool_decide (is_Some (s.(assigned) f)))) fields
                 then StateMissing else if s.(specFinal) then StateComplete else StatePartial)
                s.(specDiagnostics)) true
            else OutResult (mkResult zeroTokens StateNotApplicable noDiagnostics) true)
  end.

Definition step (a : Accumulator) (o : op) : Accumulator * out :=
  match o with
  | OpReplace p => let '(a, e) := ReplaceSnapshot a p in (a, OutError e)
  | OpMerge p => let '(a, e) := MergePatch a p in (a, OutError e)
  | OpFinalize b => let '(a, (r, ok)) := Finalize a b in (a, OutResult r ok)
  end.

(** Outputs of a sequence of calls on one object. *)
Fixpoint trace {S} (next : S -> op -> S * out) (s : S) (ops : list op) : list out :=
  match ops with
  | [] => []
  | o :: rest => let '(s, r) := next s o in r :: trace next s rest
  end.

(** The accumulator's fields as a partial assignment. *)
Definition abs (a : Accumulator) (f : field) : option Z :=
  if Z.testbit a.(presence) (position f) then Some (tok a.(tokens) f) else None.

(** Representation invariant: the mask fits its six bits, an absent field is
    zero, and the stored counts have a checked total. *)
Record wf (a : Accumulator) : Prop := {
  wf_mask : 0 <= a.(presence) < 64;
  wf_absent : forall f, Z.testbit a.(presence) (position f) = false -> tok a.(tokens) f = 0;
  wf_total : CheckedTotal a.(tokens) <> None
}.

Record refines (a : Accumulator) (s : Spec) : Prop := {
  ref_wf : wf a;
  ref_fields : forall f, abs a f = s.(assigned) f;
  ref_diag : a.(diagnostics) = s.(specDiagnostics);
  ref_final : a.(final) = s.(specFinal);
  ref_done : a.(finalized) = s.(published)
}.

(** *** The mask arithmetic of [apply] *)

Lemma applyField_testbit v k current mask i :
  0 <= k -> 0 <= i ->
  Z.testbit (snd (applyField v (Z.shiftl 1 k) current mask)) i =
  Z.testbit mask i || (bool_decide (is_Some v) && (i =? k)).
Proof.
  intros Hk Hi. destruct v; cbn [applyField snd].
  - rewrite Z.lor_spec, Z.shiftl_1_l, Z.pow2_bits_eqb by lia.
    rewrite bool_decide_true by eauto. simpl. f_equal. apply Z.eqb_sym.
  - rewrite bool_decide_false by (intros [? ?]; discriminate). simpl.
    now rewrite orb_false_r.
Qed.

Lemma applyField_bound v k current mask :
  0 <= k < 6 -> 0 <= mask < 64 ->
  0 <= snd (applyField v (Z.shiftl 1 k) current mask) < 64.
Proof.
  intros Hk Hm. destruct v; cbn [applyField snd]; [|lia].
  assert (H64 : 64 = 2 ^ 6) by reflexivity.
  assert (Hb : 0 <= Z.shiftl 1 k) by (apply Z.shiftl_nonneg; lia).
  assert (Hl : 0 <= Z.lor mask (Z.shiftl 1 k)) by (apply Z.lor_nonneg; lia).
  split; [exact Hl|].
  destruct (Z.eq_dec (Z.lor mask (Z.shiftl 1 k)) 0) as [->|]; [lia|].
  rewrite H64. apply Z.log2_lt_pow2; [lia|].
  rewrite Z.log2_lor, Z.log2_shiftl, Z.log2_1 by lia.
  destruct (Z.eq_dec mask 0) as [->|]; [rewrite Z.log2_nonpos; lia|].
  assert (Z.log2 mask < 6) by (apply Z.log2_lt_pow2; lia). lia.
Qed.

Lemma apply_abs a p f :
  abs (apply a p) f = match pat p f with Some v => Some v | None => abs a f end.
Proof.
  unfold abs, apply.
  destruct a as [[t0 t1 t2 t3 t4 t5] m d fi fz], p as [p0 p1 p2 p3 p4 p5 pf pd]; cbn -[Z.testbit applyField].
  destruct p0, p1, p2, p3, p4, p5, f; cbn -[Z.testbit Z.lor Z.shiftl];
    unfold presenceUncachedInput, presenceCacheRead, presenceCacheWrite5M,
      presenceCacheWrite1H, presenceCacheWriteUnknown, presenceOutput;
    rewrite ?Z.lor_spec, ?Z.shiftl_1_l, ?Z.pow2_bits_eqb by lia;
    cbn; rewrite ?orb_true_r, ?orb_false_r; reflexivity.
Qed.

Lemma apply_mask a p : 0 <= a.(presence) < 64 -> 0 <= (apply a p).(presence) < 64.
Proof.
  intros H. unfold apply.
  repeat match goal with
  | |- context [applyField ?v ?b ?c ?m] =>
      let Hb := fresh in
      assert (Hb : 0 <= snd (applyField v b c m) < 64)
        by (apply applyField_bound; [lia|assumption]);
      destruct (applyField v b c m); cbn [snd] in Hb
  end. assumption.
Qed.

(** Absent fields of a patch keep their token, present ones take its value. *)
Lemma apply_tok a p f : tok (apply a p).(tokens) f = default (tok a.(tokens) f) (pat p f).
Proof.
  destruct a as [[t0 t1 t2 t3 t4 t5] m d fi fz], p as [p0 p1 p2 p3 p4 p5 pf pd].
  destruct p0, p1, p2, p3, p4, p5, f; reflexivity.
Qed.

Lemma apply_rest a p :
  (apply a p).(diagnostics) = a.(diagnostics) /\ (apply a p).(final) = a.(final).
Proof.
  unfold apply.
  repeat match goal with |- context [applyField ?v ?b ?c ?m] => destruct (applyField v b c m) end.
  split; reflexivity.
Qed.

Lemma abs_tokens a : wf a -> a.(tokens) = specTokens (abs a).
Proof.
  intros [_ H _]. unfold specTokens, abs.
  assert (forall f, default 0 (if Z.testbit (presence a) (position f)
                               then Some (tok (tokens a) f) else None) = tok (tokens a) f) as E.
  { intros f. specialize (H f). destruct (Z.testbit _ _); [reflexivity|]. now rewrite H. }
  rewrite !E. now destruct (tokens a).
Qed.

Lemma specTokens_total g :
  Forall (fun v => 0 <= v) (map (fun f => default 0 (g f)) fields) ->
  CheckedTotal (specTokens g) = if specTotal g <=? max_int64 then Some (specTotal g) else None.
Proof.
  intros HF. unfold CheckedTotal.
  change (tokenList (specTokens g)) with (map (fun f => default 0 (g f)) fields).
  case_if.
  - apply checkedLoop_Some; [unfold max_int64; lia|]. zbool. repeat split; auto.
  - destruct (checkedLoop _ _) eqn:E2; [|reflexivity].
    apply checkedLoop_Some in E2; [|unfold max_int64; lia].
    destruct E2 as (_ & -> & E2). zbool. unfold specTotal in E. lia.
Qed.

Lemma validPatch_spec p :
  validPatch p =
  negb (existsb (fun f => match pat p f with Some v => v <? 0 | None => false end) fields).
Proof.
  destruct p as [p0 p1 p2 p3 p4 p5 pf pd].
  destruct p0, p1, p2, p3, p4, p5; cbn;
    rewrite ?negb_orb, ?andb_true_r; reflexivity.
Qed.

Lemma pat_nonneg p f v :
  existsb (fun f => match pat p f with Some v => v <? 0 | None => false end) fields = false ->
  pat p f = Some v -> 0 <= v.
Proof.
  intros H Hp. destruct (Z.ltb_spec v 0); [|lia]. exfalso.
  assert (Ht : existsb (fun f => match pat p f with Some v => v <? 0 | None => false end) fields = true).
  { apply existsb_exists. exists f. rewrite Hp. split; [destruct f; cbn; tauto|]. now apply Z.ltb_lt. }
  congruence.
Qed.

(** Stored counts are non-negative. *)
Lemma wf_nonneg a f : wf a -> 0 <= tok a.(tokens) f.
Proof.
  intros [_ _ Ht]. unfold CheckedTotal in Ht.
  destruct (checkedLoop _ _) eqn:E; [|easy].
  apply checkedLoop_Some in E as (HF & _ & _); [|unfold max_int64; lia].
  rewrite Forall_forall in HF. apply HF. apply list_elem_of_In. destruct f; cbn; tauto.
Qed.

(** Whether a write is accepted depends on the assignment alone. *)
Lemma write_refines a s p c g d fin :
  refines a s ->
  (forall f, abs c f = g f) -> (forall f, g f = None -> tok c.(tokens) f = 0) ->
  0 <= c.(presence) < 64 ->
  c.(diagnostics) = d -> c.(final) = fin ->
  (existsb (fun f => match pat p f with Some v => v <? 0 | None => false end) fields = false ->
   forall f v, g f = Some v -> 0 <= v) ->
  let r := if a.(finalized) then (a, Some ErrFinalized)
           else if negb (validPatch p) then (a, Some ErrNegativePatch)
           else match CheckedTotal c.(tokens) with
                | None => (a, Some ErrTokenOverflow)
                | Some _ => (publish a c, None) end in
  refines (fst r) (fst (specWrite s p g d fin)) /\ OutError (snd r) = snd (specWrite s p g d fin).
Proof.
  intros HR Hg H0 Hm Hcd Hcf Hnn r. pose proof HR as [Hwf Hf Hd Hfi Hdone]. unfold r, specWrite.
  rewrite Hdone, validPatch_spec, negb_involutive.
  destruct (published s) eqn:Ep; [split; [exact HR|reflexivity]|].
  case_if; [split; [exact HR|reflexivity]|].
  assert (Hc : c.(tokens) = specTokens g).
  { unfold specTokens. destruct c as [[t0 t1 t2 t3 t4 t5] m cd cf cz]; cbn in *.
    assert (forall f, default 0 (g f) = tok (mkTokens t0 t1 t2 t3 t4 t5) f) as Hx.
    { intros f. rewrite <- Hg. unfold abs; cbn. specialize (H0 f). rewrite <- Hg in H0.
      unfold abs in H0; cbn in H0. destruct (Z.testbit m (position f)); [reflexivity|].
      symmetry. now apply H0. }
    rewrite !Hx. reflexivity. }
  assert (Ht : CheckedTotal c.(tokens) = if specTotal g <=? max_int64 then Some (specTotal g) else None).
  { rewrite Hc. apply specTokens_total. apply Forall_forall. intros v Hv.
    apply list_elem_of_fmap in Hv as (f & -> & _). destruct (g f) eqn:Eg; cbn; [eauto|lia]. }
  rewrite Ht. destruct (specTotal g <=? max_int64); (split; [|reflexivity]); [|exact HR].
  constructor; [constructor| | | |]; cbn [fst tokens presence diagnostics final finalized publish]; auto.
  - intros f Hb. apply H0. rewrite <- Hg. unfold abs. now rewrite Hb.
  - rewrite Ht. discriminate.
Qed.

Lemma replace_refines a s p : refines a s ->
  refines (fst (step a (OpReplace p))) (fst (specStep s (OpReplace p))) /\
  snd (step a (OpReplace p)) = snd (specStep s (OpReplace p)).
Proof.
  intros HR.
  pose (c := apply (mkAccumulator zeroTokens 0 p.(PDiagnostics) p.(PFinal) false) p).
  assert (Hc : forall f, abs c f = pat p f).
  { intros f. unfold c. rewrite apply_abs. destruct (pat p f); [reflexivity|].
    unfold abs; cbn. now rewrite Z.testbit_0_l. }
  destruct (write_refines a s p c (pat p) p.(PDiagnostics) p.(PFinal) HR) as [H1 H2]; auto.
  - intros f Hf. unfold c. rewrite apply_tok, Hf. now destruct f.
  - unfold c. apply apply_mask. cbn. lia.
  - apply apply_rest.
  - apply apply_rest.
  - intros He f v Hv. eapply pat_nonneg; eauto.
  - cbn [step specStep]. unfold ReplaceSnapshot. fold c.
    destruct (finalized a), (negb (validPatch p)), (CheckedTotal (tokens c)); cbn in *; auto.
Qed.

Lemma merge_refines a s p : refines a s ->
  refines (fst (step a (OpMerge p))) (fst (specStep s (OpMerge p))) /\
  snd (step a (OpMerge p)) = snd (specStep s (OpMerge p)).
Proof.
  intros HR. pose proof HR as [Hwf Hf Hd Hfi Hdone].
  pose (b := apply a p).
  pose (c := mkAccumulator b.(tokens) b.(presence) (Merge b.(diagnostics) p.(PDiagnostics))
               (b.(final) || p.(PFinal)) b.(finalized)).
  assert (Hb : b.(diagnostics) = a.(diagnostics) /\ b.(final) = a.(final)).
  { split; apply apply_rest. }
  destruct (write_refines a s p c
     (fun f => match pat p f with Some v => Some v | None => s.(assigned) f end)
     (Merge s.(specDiagnostics) p.(PDiagnostics)) (s.(specFinal) || p.(PFinal)) HR) as [H1 H2].
  - intros f. change (abs c f) with (abs b f). unfold b. rewrite apply_abs, Hf. reflexivity.
  - intros f Hg. change (tok b.(tokens) f = 0). unfold b. rewrite apply_tok.
    destruct (pat p f); [discriminate|]. cbn.
    destruct Hwf as [_ Ha _]. apply Ha. rewrite <- Hf in Hg. unfold abs in Hg.
    now destruct (Z.testbit _ _).
  - apply apply_mask. apply Hwf.
  - cbn. destruct Hb as [-> _]. now rewrite Hd.
  - cbn. destruct Hb as [_ ->]. now rewrite Hfi.
  - intros He f v Hg. destruct (pat p f) eqn:Ep.
    + injection Hg as ->. eapply pat_nonneg; eauto.
    + rewrite <- Hf in Hg. unfold abs in Hg. destruct (Z.testbit _ _); [|discriminate].
      injection Hg as <-. now apply wf_nonneg.
  - cbn [step specStep]. unfold MergePatch. fold b. fold c.
    destruct (finalized a), (negb (validPatch p)), (CheckedTotal (tokens c)); cbn in *; auto.
Qed.

Lemma presence_zero a : wf a ->
  (a.(presence) =? 0) = forallb (fun f => negb (bool_decide (is_Some (abs a f)))) fields.
Proof.
  intros [Hm _ _]. unfold abs. apply eq_true_iff_eq. rewrite Z.eqb_eq, forallb_forall. split.
  - intros -> f _. rewrite Z.testbit_0_l. reflexivity.
  - intros H. apply Z.bits_inj_0. intros n.
    destruct (Z_lt_le_dec n 0); [now apply Z.testbit_neg_r|].
    destruct (Z_lt_le_dec n 6).
    + assert (exists f, position f = n /\ In f fields) as (f & <- & Hin).
      { assert (n = 0 \/ n = 1 \/ n = 2 \/ n = 3 \/ n = 4 \/ n = 5) as Hn by lia.
        destruct Hn as [->|[->|[->|[->|[->| ->]]]]];
          [exists FUncachedInput|exists FCacheRead|exists FCacheWrite5M|exists FCacheWrite1H
          |exists FCacheWriteUnknown|exists FOutput]; cbn; tauto. }
      specialize (H f Hin). destruct (Z.testbit (presence a) (position f)); [|reflexivity].
      rewrite bool_decide_true in H by eauto. discriminate.
    + rewrite <- (Z.mod_small (presence a) (2 ^ 6)) by (cbn; lia).
      apply Z.mod_pow2_bits_high. lia.
Qed.

Lemma finalize_refines a s b : refines a s ->
  refines (fst (step a (OpFinalize b))) (fst (specStep s (OpFinalize b))) /\
  snd (step a (OpFinalize b)) = snd (specStep s (OpFinalize b)).
Proof.
  intros HR. pose proof HR as [Hwf Hf Hd Hfi Hdone].
  cbn [step specStep]. unfold Finalize. rewrite Hdone.
  destruct (published s) eqn:Ep; [now split|].
  assert (Hz : (presence a =? 0) =
               forallb (fun f => negb (bool_decide (is_Some (assigned s f)))) fields).
  { rewrite presence_zero by exact Hwf. cbn. now rewrite !Hf. }
  assert (Ht : a.(tokens) = specTokens s.(assigned)).
  { rewrite (abs_tokens a Hwf). unfold specTokens. now rewrite !Hf. }
  destruct b; cbn [negb].
  - split; [constructor; cbn; auto; destruct Hwf; constructor; auto|].
    cbn. now rewrite Hd, Hfi, Ht, Hz.
  - split; [|reflexivity]. constructor; cbn; auto; destruct Hwf; constructor; auto.
Qed.

Lemma step_refines a s o : refines a s ->
  refines (fst (step a o)) (fst (specStep s o)) /\ snd (step a o) = snd (specStep s o).
Proof. destruct o; auto using replace_refines, merge_refines, finalize_refines. Qed.

Lemma zero_refines : refines zeroAccumulator emptySpec.
Proof.
  assert (Hbit : forall f, Z.testbit 0 (position f) = false) by (intros f; apply Z.testbit_0_l).
  constructor; auto; cbn.
  - constructor; cbn; [lia|intros []; reflexivity|discriminate].
  - intros f. unfold abs. cbn. now rewrite Hbit.
Qed.

(** [C1] Refinement of the usage accumulator.  For every sequence of
    [ReplaceSnapshot], [MergePatch] and [Finalize] calls on a fresh
    accumulator, the errors and results returned are exactly those of the
    abstract accumulator: per field the last accepted write wins, a rejected
    write (negative count, overflowing total, already finalized) changes
    nothing, and the published state is missing, partial or complete according
    to which fields were written and whether a final patch was accepted. *)
Theorem accumulator_refines_spec (ops : list op) :
  trace step zeroAccumulator ops = trace specStep emptySpec ops.
Proof.
  assert (H : forall a s, refines a s -> trace step a ops = trace specStep s ops).
  { induction ops as [|o rest IH]; intros a s HR; [reflexivity|].
    destruct (step_refines a s o HR) as [H1 H2]. cbn [trace].
    destruct (step a o), (specStep s o). cbn in *. subst. f_equal. now apply IH. }
  apply H, zero_refines.
Qed.

Lemma refines_trace_valid ops : forall a s, refines a s ->
  Forall (fun o => match o with
    | OutResult r true => exists n, CheckedTotal r.(ResTokens) = Some n /\ 0 <= n <= max_int64
    | _ => True end) (trace step a ops).
Proof.
  induction ops as [|o rest IH]; intros a s HR; [constructor|].
  destruct (step_refines a s o HR) as [H1 _]. cbn [trace].
  destruct (step a o) as [a' r] eqn:Es. cbn in H1. constructor; [|eapply IH; eauto].
  destruct r as [|r []]; auto. destruct o as [p|p|b]; cbn in Es.
  { destruct (ReplaceSnapshot a p); discriminate. }
  { destruct (MergePatch a p); discriminate. }
  unfold Finalize in Es. destruct (finalized a); [discriminate|].
  destruct b; cbn in Es; injection Es as <- <-; cbn; [|exists 0; split; [reflexivity|unfold max_int64; lia]].
  destruct HR as [[_ _ Ht] _ _ _ _]. destruct (CheckedTotal (tokens a)) eqn:E; [|easy].
  exists z. split; [exact E|]. now apply CheckedTotal_range in E.
Qed.

(** Bounds.  Whatever a provider streams, every result the accumulator
    publishes has non-negative counts whose checked total exists and fits in
    [int64], so pricing never sees an overflowing usage. *)
Theorem published_total_in_range (ops : list op) (r : Result) :
  In (OutResult r true) (trace step zeroAccumulator ops) ->
  exists n, CheckedTotal r.(ResTokens) = Some n /\ 0 <= n <= max_int64.
Proof.
  intros H. pose proof (refines_trace_valid ops _ _ zero_refines) as HF.
  rewrite List.Forall_forall in HF. exact (HF _ H).
Qed.

Lemma finalized_trace ops : forall a, a.(finalized) = true ->
  Forall (fun o => o = OutError (Some ErrFinalized) \/ o = OutResult zeroResult false) (trace step a ops).
Proof.
  induction ops as [|o rest IH]; intros a Ha; [constructor|]. cbn [trace].
  destruct o; cbn [step]; unfold ReplaceSnapshot, MergePatch, Finalize; rewrite Ha;
    constructor; auto.
Qed.

(** A result is published at most once: after the first [Finalize], every
    later call returns [ErrFinalized] or the zero result with [false]. *)
Theorem finalize_publishes_once (a : Accumulator) (applicable : bool) (ops : list op) :
  Forall (fun o => o = OutError (Some ErrFinalized) \/ o = OutResult zeroResult false)
         (trace step (fst (Finalize a applicable)) ops).
Proof.
  apply finalized_trace. unfold Finalize.
  destruct (finalized a) eqn:E; [exact E|]. now destruct applicable.
Qed.

Lemma published_total_in_range_witness :
  exists n, CheckedTotal (mkTokens 5 0 0 0 0 7) = Some n /\ 0 <= n <= max_int64.
Proof.
  apply (published_total_in_range
    [OpMerge (mkPatch (Some 5) None None None None None false noDiagnostics);
     OpMerge (mkPatch None None None None None (Some 7) true noDiagnostics);
     OpFinalize true]
    (mkResult (mkTokens 5 0 0 0 0 7) StateComplete noDiagnostics)).
  vm_compute. auto.
Defined.

End Usage.
