(* ===== verification/GoStrings.v ===== *)
(** * Go strings

    Go strings are byte sequences; a model string is a [string] whose
    characters are those bytes.  This file models the standard-library
    functions the gateway's validators and number codecs use.  Functions that
    decode UTF-8 in Go are written on the byte encodings they recognise. *)

From Stdlib Require Import ZArith Lia Bool String Ascii List.
From stdpp Require Import base list strings.
From S2P Require Import Prelude.

Local Open Scope Z_scope.

Abbreviation bytes := String.list_ascii_of_string (only parsing).
Abbreviation text := String.string_of_list_ascii (only parsing).

Definition byte_of (n : nat) : ascii := ascii_of_nat n.
Definition byte_val (c : ascii) : Z := Z.of_nat (nat_of_ascii c).

(** ** Digits *)

Definition is_digit (c : ascii) : bool := (48 <=? byte_val c) && (byte_val c <=? 57).
Definition digit_val (c : ascii) : Z := byte_val c - 48.
Definition digit_char (d : Z) : ascii := ascii_of_nat (Z.to_nat (48 + d)).

(** [decimalDigits]: every byte is an ASCII digit (true for the empty string). *)
Definition all_digits (l : list ascii) : bool := forallb is_digit l.

(** The number a digit sequence denotes (base 10, most significant first). *)
Definition digits_value (l : list ascii) : Z :=
  fold_left (fun acc c => acc * 10 + digit_val c) l 0.

(** Base-10 rendering of a non-negative integer ([strconv.FormatInt],
    [big.Int.String]).  One division by ten per digit; [S (log2 n)] divisions
    are enough because each at least halves the number. *)
Fixpoint render_fuel (fuel : nat) (n : Z) (acc : list ascii) : list ascii :=
  match fuel with
  | O => acc
  | S fuel =>
      let acc := digit_char (n mod 10) :: acc in
      if n <? 10 then acc else render_fuel fuel (n / 10) acc
  end.

Definition render (n : Z) : list ascii := render_fuel (S (Z.to_nat (Z.log2 n))) n [].

(** [strconv.FormatInt(n, 10)]. *)
Definition format_int (n : Z) : list ascii :=
  if n <? 0 then "-"%char :: render (- n) else render n.

(** [strconv.ParseInt(s, 10, 64)]: an optional sign and at least one digit. *)
Definition parse_int64 (l : list ascii) : option Z :=
  let '(neg, body) :=
    match l with
    | "-"%char :: rest => (true, rest)
    | "+"%char :: rest => (false, rest)
    | _ => (false, l)
    end in
  match body with
  | [] => None
  | _ => if all_digits body then
           let v := if neg : bool then - digits_value body else digits_value body in
           if is_int64 v then Some v else None
         else None
  end.

(** [strconv.ParseUint(s, 10, 64)]: no sign, at least one digit. *)
Definition parse_uint64 (l : list ascii) : option Z :=
  match l with
  | [] => None
  | _ => if all_digits l then
           let v := digits_value l in if v <=? max_uint64 then Some v else None
         else None
  end.

(** ** Cutting and trimming *)

(** [strings.Cut(s, sep)] for a one-byte separator: before, after, found. *)
Fixpoint cut (sep : ascii) (l : list ascii) : list ascii * list ascii * bool :=
  match l with
  | [] => ([], [], false)
  | c :: rest =>
      if (c =? sep)%char then ([], rest, true)
      else let '(before, after, found) := cut sep rest in (c :: before, after, found)
  end.

(** [strings.TrimLeft(s, "0")] and [strings.TrimRight(s, "0")]. *)
Fixpoint trim_left_zero (l : list ascii) : list ascii :=
  match l with
  | c :: rest => if (c =? "0")%char then trim_left_zero rest else l
  | [] => []
  end.

Definition trim_right_zero (l : list ascii) : list ascii := rev (trim_left_zero (rev l)).

Fixpoint strip_prefix (p l : list ascii) : option (list ascii) :=
  match p, l with
  | [], _ => Some l
  | c :: p, d :: l => if (c =? d)%char then strip_prefix p l else None
  | _ :: _, [] => None
  end.

(** [strings.CutPrefix]. *)
Definition cut_prefix (p l : list ascii) : option (list ascii) := strip_prefix p l.

(** UTF-8 encodings of the code points [unicode.IsSpace] accepts. *)
Definition space_encodings : list (list ascii) :=
  map (fun n => [byte_of n]) [9; 10; 11; 12; 13; 32]%nat ++
  [[byte_of 194; byte_of 133]; [byte_of 194; byte_of 160];
   [byte_of 225; byte_of 154; byte_of 128]] ++
  map (fun n => [byte_of 226; byte_of 128; byte_of n])
      [128; 129; 130; 131; 132; 133; 134; 135; 136; 137; 138; 168; 169; 175]%nat ++
  [[byte_of 226; byte_of 129; byte_of 159]; [byte_of 227; byte_of 128; byte_of 128]].

Fixpoint strip_any (ps : list (list ascii)) (l : list ascii) : option (list ascii) :=
  match ps with
  | [] => None
  | p :: ps => match strip_prefix p l with Some rest => Some rest | None => strip_any ps l end
  end.

(** Repeatedly strip one of [ps]; each round shortens the list, so its length
    is enough fuel. *)
Fixpoint trim_fuel (fuel : nat) (ps : list (list ascii)) (l : list ascii) : list ascii :=
  match fuel with
  | O => l
  | S fuel => match strip_any ps l with Some rest => trim_fuel fuel ps rest | None => l end
  end.

(** [strings.TrimSpace]: drop leading, then trailing, Unicode white space. *)
Definition trim_space (l : list ascii) : list ascii :=
  let l := trim_fuel (length l) space_encodings l in
  rev (trim_fuel (length l) (map (@rev ascii) space_encodings) (rev l)).

(** [strings.TrimSpace(s) == s]. *)
Definition trimmed (l : list ascii) : bool := bool_decide (trim_space l = l).

(** Some rune of the string is a control character ([unicode.IsControl]):
    U+0000-U+001F, U+007F and U+0080-U+009F (encoded C2 80 to C2 9F). *)
Fixpoint has_control (l : list ascii) : bool :=
  match l with
  | [] => false
  | c :: rest =>
      (byte_val c <? 32) || (byte_val c =? 127) ||
      ((byte_val c =? 194) &&
       match rest with d :: _ => (128 <=? byte_val d) && (byte_val d <=? 159) | [] => false end) ||
      has_control rest
  end.

(** ** Digit lemmas *)

Lemma digit_char_val d : 0 <= d < 10 -> digit_val (digit_char d) = d.
Proof.
  intros H. unfold digit_val, digit_char, byte_val.
  rewrite nat_ascii_embedding by lia. lia.
Qed.

Lemma digit_char_digit d : 0 <= d < 10 -> is_digit (digit_char d) = true.
Proof.
  intros H. unfold is_digit, digit_char, byte_val.
  rewrite nat_ascii_embedding by lia. apply andb_true_iff. rewrite !Z.leb_le. lia.
Qed.

Lemma is_digit_range c : is_digit c = true -> 0 <= digit_val c < 10.
Proof. unfold is_digit, digit_val. intros. zbool. lia. Qed.

Lemma fold_digits l acc :
  fold_left (fun acc c => acc * 10 + digit_val c) l acc =
  acc * 10 ^ Z.of_nat (length l) + digits_value l.
Proof.
  unfold digits_value. revert acc. induction l as [|c l IH]; intros acc.
  - cbn. lia.
  - cbn [fold_left length]. rewrite IH, (IH (0 * 10 + digit_val c)).
    rewrite Nat2Z.inj_succ, Z.pow_succ_r by lia. lia.
Qed.

Lemma digits_value_app l1 l2 :
  digits_value (l1 ++ l2) = digits_value l1 * 10 ^ Z.of_nat (length l2) + digits_value l2.
Proof. unfold digits_value at 1. rewrite fold_left_app. apply fold_digits. Qed.

Lemma digits_value_cons c l :
  digits_value (c :: l) = digit_val c * 10 ^ Z.of_nat (length l) + digits_value l.
Proof. change (c :: l) with ([c] ++ l). rewrite digits_value_app. unfold digits_value at 1. cbn. lia. Qed.

Lemma digits_value_range l :
  all_digits l = true -> 0 <= digits_value l < 10 ^ Z.of_nat (length l).
Proof.
  induction l as [|c l IH]; intros H; [cbn; lia|].
  cbn in H. apply andb_true_iff in H as [Hc Hl]. specialize (IH Hl).
  apply is_digit_range in Hc. rewrite digits_value_cons. cbn [length].
  rewrite Nat2Z.inj_succ, Z.pow_succ_r by lia. nia.
Qed.

Lemma digits_value_zeros n : digits_value (repeat "0"%char n) = 0.
Proof. induction n as [|n IH]; [reflexivity|]. cbn [repeat]. rewrite digits_value_cons, IH. reflexivity. Qed.

Lemma all_digits_cons c l : all_digits (c :: l) = is_digit c && all_digits l.
Proof. reflexivity. Qed.

Lemma all_digits_app l1 l2 : all_digits (l1 ++ l2) = all_digits l1 && all_digits l2.
Proof. apply forallb_app. Qed.

Lemma all_digits_zeros n : all_digits (repeat "0"%char n) = true.
Proof. induction n; auto. Qed.

(** Rendering and reading back are inverse. *)
Lemma render_fuel_spec fuel : forall n acc,
  0 <= n < 2 ^ Z.of_nat fuel -> all_digits acc = true ->
  (fuel <> 0%nat) ->
  all_digits (render_fuel fuel n acc) = true /\
  digits_value (render_fuel fuel n acc) = n * 10 ^ Z.of_nat (length acc) + digits_value acc /\
  (length acc < length (render_fuel fuel n acc))%nat.
Proof.
  induction fuel as [|fuel IH]; intros n acc Hn Ha Hf; [easy|].
  cbn [render_fuel].
  assert (Hd : 0 <= n mod 10 < 10) by (apply Z.mod_pos_bound; lia).
  assert (Ha' : all_digits (digit_char (n mod 10) :: acc) = true)
    by (rewrite all_digits_cons, digit_char_digit, Ha by assumption; reflexivity).
  case_if; zbool.
  - split; [exact Ha'|]. split; [|cbn; lia].
    rewrite digits_value_cons, digit_char_val, Z.mod_small by lia. reflexivity.
  - rewrite Nat2Z.inj_succ, Z.pow_succ_r in Hn by lia.
    assert (Hq : 0 <= n / 10 < 2 ^ Z.of_nat fuel).
    { split; [apply Z.div_pos; lia|]. apply Z.div_lt_upper_bound; lia. }
    assert (Hf' : fuel <> 0%nat).
    { intros ->. assert (1 <= n / 10) by (apply Z.div_le_lower_bound; lia). cbn in Hq. lia. }
    destruct (IH (n / 10) (digit_char (n mod 10) :: acc) Hq Ha' Hf') as (H1 & H2 & H3).
    split; [exact H1|]. split; [|cbn [length] in H3; lia].
    rewrite H2, digits_value_cons, digit_char_val by assumption. cbn [length].
    rewrite Nat2Z.inj_succ, Z.pow_succ_r by lia.
    pose proof (Z.div_mod n 10 ltac:(lia)). nia.
Qed.

Lemma render_spec n : 0 <= n ->
  all_digits (render n) = true /\ digits_value (render n) = n /\ render n <> [].
Proof.
  intros Hn. unfold render.
  assert (Hb : 0 <= n < 2 ^ Z.of_nat (S (Z.to_nat (Z.log2 n)))).
  { split; [lia|]. rewrite Nat2Z.inj_succ, Z2Nat.id by apply Z.log2_nonneg.
    destruct (Z.eq_dec n 0) as [->|]; [cbn; lia|]. apply Z.log2_spec. lia. }
  destruct (render_fuel_spec _ n [] Hb eq_refl ltac:(lia)) as (H1 & H2 & H3).
  repeat split; auto.
  - rewrite H2. unfold digits_value; cbn. lia.
  - intros E. rewrite E in H3. cbn in H3. lia.
Qed.

(** A number below [10^k] is rendered with at most [k] digits. *)
Lemma render_fuel_length fuel : forall n acc k,
  0 <= n < 10 ^ Z.of_nat k -> (1 <= k)%nat ->
  (length (render_fuel fuel n acc) <= k + length acc)%nat.
Proof.
  induction fuel as [|fuel IH]; intros n acc k Hn Hk; cbn [render_fuel]; [lia|].
  case_if; zbool; [cbn; lia|].
  destruct k as [|[|k]]; [lia|cbn in Hn; lia|].
  specialize (IH (n / 10) (digit_char (n mod 10) :: acc) (S k)).
  cbn [length] in IH. etransitivity; [apply IH|]; try lia.
  rewrite Nat2Z.inj_succ, Z.pow_succ_r in Hn by lia.
  split; [apply Z.div_pos; lia|]. apply Z.div_lt_upper_bound; lia.
Qed.

Lemma render_length n k : 0 <= n < 10 ^ Z.of_nat k -> (1 <= k)%nat -> (length (render n) <= k)%nat.
Proof.
  intros. unfold render.
  pose proof (render_fuel_length (S (Z.to_nat (Z.log2 n))) n [] k). cbn [length] in *. lia.
Qed.

(** ** Trimming lemmas *)

(** No encoding of [ps] starts with an ASCII digit. *)
Definition digit_free_heads (ps : list (list ascii)) : bool :=
  forallb (fun p => match p with d :: _ => negb (is_digit d) | [] => false end) ps.

Lemma strip_any_digit ps c l :
  digit_free_heads ps = true -> is_digit c = true -> strip_any ps (c :: l) = None.
Proof.
  intros Hps Hc. induction ps as [|p ps IH]; [reflexivity|].
  cbn in Hps. apply andb_true_iff in Hps as [Hp Hps].
  destruct p as [|d p]; [discriminate|]. cbn.
  destruct (Ascii.eqb_spec d c) as [->|]; [rewrite Hc in Hp; discriminate|]. now apply IH.
Qed.

Lemma trim_fuel_digit fuel ps c l :
  digit_free_heads ps = true -> is_digit c = true -> trim_fuel fuel ps (c :: l) = c :: l.
Proof. intros Hps Hc. destruct fuel; [reflexivity|]. cbn [trim_fuel]. now rewrite strip_any_digit. Qed.

(** A string that starts and ends with a digit has no surrounding space. *)
Lemma trim_space_digits c l d m :
  is_digit c = true -> is_digit d = true -> c :: l = m ++ [d] -> trimmed (c :: l) = true.
Proof.
  intros Hc Hd E. unfold trimmed. apply bool_decide_eq_true_2. unfold trim_space.
  rewrite trim_fuel_digit by (vm_compute; reflexivity || assumption).
  rewrite E, rev_app_distr. cbn [rev app].
  rewrite trim_fuel_digit by (vm_compute; reflexivity || assumption).
  cbn [rev]. now rewrite rev_involutive.
Qed.

Lemma trim_left_zero_spec l : exists n, l = repeat "0"%char n ++ trim_left_zero l.
Proof.
  induction l as [|c l [n IH]]; [exists 0%nat; reflexivity|]. cbn.
  destruct (Ascii.eqb_spec c "0"%char) as [->|]; [|exists 0%nat; reflexivity].
  exists (S n). cbn. now rewrite <- IH.
Qed.

Lemma trim_right_zero_spec l : exists n, l = trim_right_zero l ++ repeat "0"%char n.
Proof.
  destruct (trim_left_zero_spec (rev l)) as [n H]. exists n. unfold trim_right_zero.
  rewrite <- (rev_involutive l) at 1. rewrite H at 1.
  rewrite rev_app_distr. f_equal.
  clear. induction n; [reflexivity|]. cbn [repeat rev]. rewrite IHn.
  clear. induction n; [reflexivity|]. cbn. now rewrite IHn.
Qed.

Lemma cut_digits l rest : all_digits l = true -> cut "."%char (l ++ "."%char :: rest) = (l, rest, true).
Proof.
  induction l as [|c l IH]; intros H; cbn in *; [reflexivity|].
  apply andb_true_iff in H as [Hc Hl].
  destruct (Ascii.eqb_spec c "."%char) as [->|]; [vm_compute in Hc; discriminate|]. now rewrite IH.
Qed.

Lemma cut_digits_only l : all_digits l = true -> cut "."%char l = (l, [], false).
Proof.
  induction l as [|c l IH]; intros H; cbn in *; [reflexivity|].
  apply andb_true_iff in H as [Hc Hl].
  destruct (Ascii.eqb_spec c "."%char) as [->|]; [vm_compute in Hc; discriminate|]. now rewrite IH.
Qed.

Lemma cut_false sep l : forall b a, cut sep l = (b, a, false) -> l = b /\ a = [].
Proof.
  induction l as [|c l IH]; intros b a; cbn; [intros [= <- <-]; auto|].
  destruct (c =? sep)%char; [discriminate|].
  destruct (cut sep l) as [[b' a'] f']. intros [= <- <- ->].
  destruct (IH b' a' eq_refl) as [-> ->]. auto.
Qed.

Lemma cut_true sep l : forall b a, cut sep l = (b, a, true) -> l = b ++ sep :: a.
Proof.
  induction l as [|c l IH]; intros b a; cbn; [discriminate|].
  destruct (Ascii.eqb_spec c sep) as [->|]; [intros [= <- <-]; reflexivity|].
  destruct (cut sep l) as [[b' a'] f']. intros [= <- <- ->].
  now rewrite (IH b' a' eq_refl).
Qed.
