(* ===== verification/Money.v ===== *)
(** * Money ([internal/pricing]: nanousd.go, price_multiplier.go, currency.go)

    Fixed-point amounts: nano-USD prices and costs, price multipliers in
    millionths, settlement currencies, and their decimal text forms. *)

From Stdlib Require Import ZArith Lia Bool String Ascii List.
From stdpp Require Import base list strings.
From S2P Require Import Prelude GoStrings.

Local Open Scope Z_scope.

Module Money.

(** ** Decimal text *)

Inductive DecimalError :=
| MustBeNonEmptyDecimal
| TooManyDecimalPlaces
| MustBeNonNegativeDecimal
| ExceedsInt64Range.

Definition AmountDecimalPlaces : nat := 9.
Definition ExchangeRateDecimalPlaces : nat := 6.

Definition isEmpty (l : list ascii) : bool := match l with [] => true | _ => false end.

Definition parseScaledDecimal (value : string) (places : nat) : result DecimalError Z :=
  let v := bytes value in
  if isEmpty v || negb (trimmed v) then Err MustBeNonEmptyDecimal
  else
    let '(integer, fraction, hasFraction) := cut "."%char v in
    if isEmpty integer || (hasFraction && isEmpty fraction) ||
       existsb (fun c => (c =? ".")%char) fraction || (places <? length fraction)%nat
    then Err TooManyDecimalPlaces
    else if negb (all_digits integer) || (hasFraction && negb (all_digits fraction))
    then Err MustBeNonNegativeDecimal
    else
      let amount := digits_value
        (integer ++ fraction ++ repeat "0"%char (places - length fraction)) in
      if is_int64 amount then Ok amount else Err ExceedsInt64Range.

Definition formatScaledDecimal (value : Z) (places : nat) : string :=
  let negative := value <? 0 in
  let amount := Z.abs value in
  let scale := 10 ^ Z.of_nat places in
  let whole := Z.quot amount scale in
  let fraction := Z.rem amount scale in
  let prefix := if negative then ["-"%char] else [] in
  if fraction =? 0 then text (prefix ++ render whole)
  else
    let fractionText := render fraction in
    let fractionText := repeat "0"%char (places - length fractionText) ++ fractionText in
    text (prefix ++ render whole ++ ["."%char] ++ trim_right_zero fractionText).

Definition ParseUSD (value : string) : result DecimalError Z :=
  parseScaledDecimal value AmountDecimalPlaces.
Definition FormatUSD (value : Z) : string := formatScaledDecimal value AmountDecimalPlaces.
Definition ParseAmount (value : string) : result DecimalError Z :=
  parseScaledDecimal value AmountDecimalPlaces.
Definition FormatAmount (value : Z) : string := formatScaledDecimal value AmountDecimalPlaces.

(** ** Rounding *)

(** [QuoRem], [Lsh] and [Cmp] on [big.Int]: the quotient rounded half up. *)
Definition roundHalfUp (numerator denominator : Z) : Z :=
  let quotient := Z.quot numerator denominator in
  let remainder := Z.shiftl (Z.rem numerator denominator) 1 in
  if remainder >=? denominator then quotient + 1 else quotient.

Record Multiplier := mkMultiplier { Numerator : Z; Denominator : Z }.

Definition tokensPerMillion : Z := 1000000.

Definition QuoteComponent (tokens price : Z) (multiplier : Multiplier) : option Z :=
  if (tokens <? 0) || (price <? 0) || (multiplier.(Numerator) <=? 0) ||
     (multiplier.(Denominator) <=? 0)
  then None
  else
    let quotient := roundHalfUp (tokens * price * multiplier.(Numerator))
                                (tokensPerMillion * multiplier.(Denominator)) in
    if (quotient <? 0) || negb (is_int64 quotient) then None else Some quotient.

Definition CheckedAddNanoUSD (left right : Z) : option Z :=
  if (left <? 0) || (right <? 0) || (left >? max_int64 - right) then None
  else Some (left + right).

(** ** Price multipliers *)

Definition DefaultPriceMultiplier : Z := 1000000.

Record PriceMultipliers := mkPriceMultipliers { Group : Z; AccessKey : Z }.

Definition MultiplierValid (value : Z) : bool := (value >=? 0) && (value <=? 1000000000).

Inductive MultiplierError :=
| MultiplierNotDecimal
| MultiplierOutOfRange
| MultiplierInvalidDecimals.

Definition ParsePriceMultiplier (value : string) : result MultiplierError Z :=
  let '(integer, fraction, hasFraction) := cut "."%char (bytes value) in
  if isEmpty integer || negb (all_digits integer) || (6 <? length fraction)%nat ||
     (hasFraction && (isEmpty fraction || negb (all_digits fraction)))
  then Err MultiplierNotDecimal
  else
    let wholeText := trim_left_zero integer in
    let wholeText := if isEmpty wholeText then ["0"%char] else wholeText in
    match parse_int64 wholeText with
    | None => Err MultiplierOutOfRange
    | Some whole =>
        if whole >? 1000 then Err MultiplierOutOfRange
        else
          match parse_int64 (fraction ++ repeat "0"%char (6 - length fraction)) with
          | None => Err MultiplierInvalidDecimals
          | Some decimals =>
              let parsed := wrap_i64 (whole * DefaultPriceMultiplier + decimals) in
              if MultiplierValid parsed then Ok parsed else Err MultiplierOutOfRange
          end
    end.

Definition FormatPriceMultiplier (value : Z) : string :=
  let whole := format_int (Z.quot value DefaultPriceMultiplier) in
  let fraction := Z.rem value DefaultPriceMultiplier in
  if fraction =? 0 then text whole
  else
    let '(fraction, whole) :=
      if fraction <? 0
      then (- fraction, if bool_decide (whole = ["0"%char]) then ["-"%char; "0"%char] else whole)
      else (fraction, whole) in
    let fractionText := format_int fraction in
    text (whole ++ ["."%char] ++
          trim_right_zero (repeat "0"%char (6 - length fractionText) ++ fractionText)).

Definition applyPriceMultipliers (amount : Z) (multipliers : PriceMultipliers) : option Z :=
  if (amount <? 0) || negb (MultiplierValid multipliers.(Group)) ||
     negb (MultiplierValid multipliers.(AccessKey))
  then None
  else
    let quotient := roundHalfUp (amount * multipliers.(Group) * multipliers.(AccessKey))
                                (DefaultPriceMultiplier * DefaultPriceMultiplier) in
    if negb (is_int64 quotient) then None else Some quotient.

Definition quoteComponentWithPriceMultipliers (tokens price : Z) (multiplier : Multiplier)
    (priceMultipliers : PriceMultipliers) : option Z :=
  if (tokens <? 0) || (price <? 0) || (multiplier.(Numerator) <=? 0) ||
     (multiplier.(Denominator) <=? 0)
  then None
  else if negb (MultiplierValid priceMultipliers.(Group)) ||
          negb (MultiplierValid priceMultipliers.(AccessKey))
  then None
  else
    let quotient := roundHalfUp
      (tokens * price * multiplier.(Numerator) * priceMultipliers.(Group) * priceMultipliers.(AccessKey))
      (tokensPerMillion * multiplier.(Denominator) * DefaultPriceMultiplier * DefaultPriceMultiplier) in
    if (quotient <? 0) || negb (is_int64 quotient) then None else Some quotient.

(** ** Settlement currencies *)

Definition CurrencyUSD : string := "USD".
Definition CurrencyCNY : string := "CNY".
Definition SupportedCurrencyCodes : list string := [CurrencyUSD; CurrencyCNY].
Definition ExchangeRateScale : Z := 1000000.

Record Currency := mkCurrency { Code : string; RateMicros : Z }.

Definition USDCurrency : Currency := mkCurrency CurrencyUSD ExchangeRateScale.

Inductive CurrencyError := UnsupportedCurrency | RateNotPositive | USDRateMustBeOne.

Definition ParseCurrencyCode (value : string) : result CurrencyError string :=
  match find (fun code => bool_decide (code = value)) SupportedCurrencyCodes with
  | Some code => Ok code
  | None => Err UnsupportedCurrency
  end.

Definition NewCurrency (code : string) (rateMicros : Z) : result CurrencyError Currency :=
  match ParseCurrencyCode code with
  | Err e => Err e
  | Ok _ =>
      if rateMicros <=? 0 then Err RateNotPositive
      else if bool_decide (code = CurrencyUSD) && negb (rateMicros =? ExchangeRateScale)
      then Err USDRateMustBeOne
      else Ok (mkCurrency code rateMicros)
  end.

Definition CurrencyValid (currency : Currency) : bool :=
  match NewCurrency currency.(Code) currency.(RateMicros) with Ok _ => true | Err _ => false end.

Definition scaleRoundHalfUp (value numerator denominator : Z) : option Z :=
  if (value <? 0) || (numerator <=? 0) || (denominator <=? 0) then None
  else
    let quotient := roundHalfUp (value * numerator) denominator in
    if negb (is_int64 quotient) then None else Some quotient.

Definition FromNanoUSD (currency : Currency) (value : Z) : option Z :=
  scaleRoundHalfUp value currency.(RateMicros) ExchangeRateScale.

Definition ToNanoUSD (currency : Currency) (value : Z) : option Z :=
  scaleRoundHalfUp value ExchangeRateScale currency.(RateMicros).

Definition Settle (currency : Currency) (nanoUSD : Z) : Z :=
  match FromNanoUSD currency nanoUSD with Some converted => converted | None => max_int64 end.

(** The two candidates of one step: the multiples of [step] around [exact].
    [floor + step] is an [int64] addition; a wrapped sum is skipped. *)
Definition priceCandidate (currency : Currency) (value exact step : Z) : option Z :=
  let floor := Z.quot exact step * step in
  find (fun candidate =>
          negb (candidate <? floor) &&
          bool_decide (ToNanoUSD currency candidate = Some value))
       [floor; wrap_i64 (floor + step)].

(** [for step := 1e9; step > 1; step /= 10]: nine rounds, so ten is enough fuel. *)
Fixpoint priceLoop (fuel : nat) (currency : Currency) (value exact step : Z) : Z :=
  match fuel with
  | O => exact
  | S fuel =>
      if step >? 1 then
        match priceCandidate currency value exact step with
        | Some candidate => candidate
        | None => priceLoop fuel currency value exact (Z.quot step 10)
        end
      else exact
  end.

Definition PriceFromNanoUSD (currency : Currency) (value : Z) : option Z :=
  match FromNanoUSD currency value with
  | None => None
  | Some exact => Some (priceLoop 10 currency value exact 1000000000)
  end.

Inductive RateError := RateDecimal (e : DecimalError) | RateMustBePositive.

Definition ParseExchangeRate (value : string) : result RateError Z :=
  match parseScaledDecimal value ExchangeRateDecimalPlaces with
  | Err e => Err (RateDecimal e)
  | Ok rate => if rate <=? 0 then Err RateMustBePositive else Ok rate
  end.

Definition FormatExchangeRate (rateMicros : Z) : string :=
  formatScaledDecimal rateMicros ExchangeRateDecimalPlaces.

(** ** Rounding lemmas *)

Lemma roundHalfUp_spec n d : 0 <= n -> 0 < d -> roundHalfUp n d = (2 * n + d) / (2 * d).
Proof.
  intros Hn Hd. unfold roundHalfUp.
  rewrite Z.quot_div_nonneg, Z.rem_mod_nonneg, Z.shiftl_mul_pow2 by lia.
  change (2 ^ 1) with 2. rewrite Z.geb_leb.
  pose proof (Z.div_mod n d ltac:(lia)). pose proof (Z.mod_pos_bound n d Hd).
  case_if; zbool; apply Z.div_unique with
    (r := 2 * (n mod d) + d - (if d <=? n mod d * 2 then 2 * d else 0)).
  all: rewrite ?(proj2 (Z.leb_le _ _)) by lia; rewrite ?(proj2 (Z.leb_gt _ _)) by lia; lia.
Qed.

(** The rounded quotient is the nearest integer, ties going up. *)
Lemma roundHalfUp_nearest n d q : 0 <= n -> 0 < d ->
  roundHalfUp n d = q <-> 2 * d * q <= 2 * n + d < 2 * d * (q + 1).
Proof.
  intros Hn Hd. rewrite roundHalfUp_spec by assumption.
  pose proof (Z.div_mod (2 * n + d) (2 * d) ltac:(lia)).
  pose proof (Z.mod_pos_bound (2 * n + d) (2 * d) ltac:(lia)).
  split; [intros <-; lia|]. intros. nia.
Qed.

Lemma roundHalfUp_nonneg n d : 0 <= n -> 0 < d -> 0 <= roundHalfUp n d.
Proof. intros. rewrite roundHalfUp_spec by assumption. apply Z.div_pos; lia. Qed.

Lemma roundHalfUp_mono n m d : 0 <= n <= m -> 0 < d -> roundHalfUp n d <= roundHalfUp m d.
Proof. intros. rewrite !roundHalfUp_spec by lia. apply Z.div_le_mono; lia. Qed.

(** ** Decimal text lemmas *)

Lemma digits_last l : l <> [] -> all_digits l = true ->
  exists m d, l = m ++ [d] /\ is_digit d = true.
Proof.
  intros Hne Hd. destruct (exists_last Hne) as (m & d & ->). exists m, d. split; [reflexivity|].
  rewrite all_digits_app in Hd. apply andb_true_iff in Hd as [_ Hd]. cbn in Hd.
  now rewrite andb_true_r in Hd.
Qed.

(** Digits, or digits after a digit-led prefix, have no surrounding space. *)
Lemma trimmed_digits pre l : all_digits l = true -> l <> [] ->
  match pre with c :: _ => is_digit c = true | [] => True end -> trimmed (pre ++ l) = true.
Proof.
  intros Hl Hne Hp. destruct (digits_last l Hne Hl) as (m & d & -> & Hd).
  destruct pre as [|c pre]; cbn [app].
  - destruct m as [|c m]; cbn [app].
    + apply (trim_space_digits d [] d []); auto.
    + apply (trim_space_digits c (m ++ [d]) d (c :: m)); auto.
      rewrite all_digits_app in Hl. apply andb_true_iff in Hl as [Hl _]. cbn in Hl. now zbool.
  - apply (trim_space_digits c (pre ++ m ++ [d]) d (c :: pre ++ m)); auto.
    cbn. now rewrite app_assoc.
Qed.

Lemma digits_no_dot l : all_digits l = true -> existsb (fun c => (c =? ".")%char) l = false.
Proof.
  induction l as [|c l IH]; [reflexivity|]. rewrite all_digits_cons. intros. zbool.
  cbn. rewrite IH by assumption. rewrite orb_false_r.
  destruct (Ascii.eqb_spec c "."%char) as [->|]; [vm_compute in H; discriminate|reflexivity].
Qed.

Lemma isEmpty_false l : l <> [] -> isEmpty l = false.
Proof. now destruct l. Qed.

Lemma render_head n : 0 <= n -> exists c l, render n = c :: l /\ is_digit c = true.
Proof.
  intros Hn. destruct (render_spec n Hn) as (Hd & _ & Hne).
  destruct (render n) as [|c l]; [easy|]. exists c, l. split; [reflexivity|].
  rewrite all_digits_cons in Hd. now zbool.
Qed.

(** The zero-padded fraction text of [formatScaledDecimal], trimmed. *)
Lemma fraction_text f p : 0 < f < 10 ^ Z.of_nat p ->
  let ft := repeat "0"%char (p - length (render f)) ++ render f in
  let tr := trim_right_zero ft in
  tr <> [] /\ all_digits tr = true /\ (length tr <= p)%nat /\
  digits_value (tr ++ repeat "0"%char (p - length tr)) = f.
Proof.
  intros Hf ft tr.
  assert (Hp : (1 <= p)%nat) by (destruct p; [cbn in Hf; lia|lia]).
  destruct (render_spec f ltac:(lia)) as (Hd & Hv & Hne).
  pose proof (render_length f p ltac:(lia) Hp) as Hl.
  assert (Hft : length ft = p) by (unfold ft; rewrite length_app, repeat_length; lia).
  assert (Hfv : digits_value ft = f)
    by (unfold ft; rewrite digits_value_app, digits_value_zeros, Hv; lia).
  assert (Hfd : all_digits ft = true)
    by (unfold ft; rewrite all_digits_app, all_digits_zeros, Hd; reflexivity).
  destruct (trim_right_zero_spec ft) as [n Hn]. fold tr in Hn.
  assert (Htl : (length tr + n = p)%nat) by (rewrite <- Hft, Hn, length_app, repeat_length; lia).
  repeat split.
  - intros E. rewrite E in Hn. rewrite Hn in Hfv. cbn [app] in Hfv.
    rewrite digits_value_zeros in Hfv. lia.
  - rewrite Hn, all_digits_app in Hfd. now zbool.
  - lia.
  - replace (p - length tr)%nat with n by lia. now rewrite <- Hn.
Qed.

Lemma split_scale v s : 0 < s -> v = v / s * s + v mod s /\ 0 <= v mod s < s.
Proof. intros. pose proof (Z.div_mod v s). pose proof (Z.mod_pos_bound v s). lia. Qed.

(** Round trip of the fixed-point codec.  Every non-negative [int64]
    amount, formatted with any number of decimal places, parses back to the
    same amount; in particular [ParseUSD (FormatUSD v) = v], and likewise for
    amounts and exchange rates. *)
Theorem parse_format_roundtrip (v : Z) (places : nat) (Hv : 0 <= v <= max_int64) :
  parseScaledDecimal (formatScaledDecimal v places) places = Ok v.
Proof.
  unfold formatScaledDecimal. rewrite (proj2 (Z.ltb_ge v 0)) by lia.
  rewrite Z.abs_eq by lia.
  assert (Hs : 0 < 10 ^ Z.of_nat places) by (apply Z.pow_pos_nonneg; lia).
  rewrite Z.quot_div_nonneg, Z.rem_mod_nonneg by lia.
  destruct (split_scale v _ Hs) as [Ev Hf]. set (w := v / _) in *. set (f := v mod _) in *.
  assert (Hw : 0 <= w) by (apply Z.div_pos; lia).
  destruct (render_spec w Hw) as (Hwd & Hwv & Hwne).
  destruct (render_head w Hw) as (c & l & Hwc & Hc).
  unfold parseScaledDecimal. destruct (f =? 0) eqn:E; zbool; rewrite list_ascii_of_string_of_list_ascii; cbn [app].
  - rewrite isEmpty_false by exact Hwne. change (trimmed (render w)) with (trimmed ([] ++ render w)).
    rewrite trimmed_digits by auto.
    cbn [orb negb]. rewrite cut_digits_only by exact Hwd. rewrite isEmpty_false by exact Hwne.
    cbn [orb andb existsb length app]. rewrite (proj2 (Nat.ltb_ge places 0)) by lia.
    rewrite Hwd. cbn [orb andb negb]. rewrite Nat.sub_0_r, digits_value_app, Hwv, digits_value_zeros, repeat_length.
    replace (w * _ + 0) with v by lia.
    rewrite (proj2 (is_int64_spec v)) by (unfold in_int64, min_int64; lia). reflexivity.
  - destruct (fraction_text f places ltac:(lia)) as (Hne & Hd & Hl & Hval).
    set (tr := trim_right_zero _) in *.
    rewrite (isEmpty_false (render w ++ _)) by (rewrite Hwc; discriminate).
    replace (render w ++ "."%char :: tr) with ((render w ++ ["."%char]) ++ tr)
      by (rewrite <- app_assoc; reflexivity).
    rewrite (trimmed_digits (render w ++ ["."%char]) tr) by (auto; rewrite Hwc; exact Hc).
    rewrite <- app_assoc. cbn [app orb negb].
    rewrite cut_digits by exact Hwd. rewrite !isEmpty_false by assumption.
    rewrite digits_no_dot by exact Hd. rewrite (proj2 (Nat.ltb_ge places _)) by exact Hl.
    cbn [orb andb]. rewrite Hwd, Hd. cbn [orb andb negb]. rewrite digits_value_app, Hwv, Hval, length_app, repeat_length.
    replace (length tr + (places - length tr))%nat with places by lia.
    replace (w * _ + f) with v by lia.
    rewrite (proj2 (is_int64_spec v)) by (unfold in_int64, min_int64; lia). reflexivity.
Qed.

Lemma parse_format_roundtrip_witness :
  0 <= 1234567890 <= max_int64 /\
  parseScaledDecimal (formatScaledDecimal 1234567890 9) 9 = Ok 1234567890.
Proof. split; [vm_compute; split; discriminate|]. apply parse_format_roundtrip. vm_compute; split; discriminate. Defined.

(** Soundness of the decimal parser.  An accepted text is a digit
    sequence, optionally followed by a point and one to [places] further
    digits, and the parsed amount is its exact value scaled by [10^places];
    the amount is non-negative and fits in [int64]. *)
Theorem parse_sound (value : string) (places : nat) (v : Z) :
  parseScaledDecimal value places = Ok v ->
  exists integer fraction,
    integer <> [] /\ all_digits integer = true /\ all_digits fraction = true /\
    (length fraction <= places)%nat /\
    (bytes value = integer /\ fraction = [] \/
     bytes value = integer ++ "."%char :: fraction /\ fraction <> []) /\
    v = digits_value integer * 10 ^ Z.of_nat places +
        digits_value fraction * 10 ^ Z.of_nat (places - length fraction) /\
    0 <= v <= max_int64.
Proof.
  unfold parseScaledDecimal. intros H.
  destruct (isEmpty (bytes value) || negb (trimmed (bytes value))); [discriminate|].
  destruct (cut "."%char (bytes value)) as [[integer fraction] has] eqn:Ec.
  case_if_in H; [discriminate|]. case_if_in H; [discriminate|]. case_if_in H; [|discriminate].
  injection H as <-. apply is_int64_spec in E1.
  apply orb_false_iff in E as [E Hlen]. apply orb_false_iff in E as [E _].
  apply orb_false_iff in E as [Hine Hfne]. apply Nat.ltb_ge in Hlen.
  apply orb_false_iff in E0 as [Hid Hfd0]. apply negb_false_iff in Hid.
  assert (Hfd : all_digits fraction = true).
  { destruct has; cbn [andb] in Hfd0; [now apply negb_false_iff|]. apply cut_false in Ec as [_ ->]. reflexivity. }
  exists integer, fraction. repeat split; auto.
  - now destruct integer.
  - destruct has; [right|left; now apply cut_false in Ec].
    split; [now apply cut_true in Ec|]. now destruct fraction.
  - rewrite digits_value_app, digits_value_app, digits_value_zeros, length_app, !repeat_length.
    replace (length fraction + (places - length fraction))%nat with places by lia. lia.
  - apply digits_value_range. now rewrite !all_digits_app, all_digits_zeros, Hfd, Hid.
  - apply E1.
Qed.

Lemma parse_sound_witness :
  exists integer fraction,
    integer <> [] /\ all_digits integer = true /\ all_digits fraction = true /\
    (length fraction <= 9)%nat /\
    (bytes "2.50" = integer /\ fraction = [] \/
     bytes "2.50" = integer ++ "."%char :: fraction /\ fraction <> []) /\
    2500000000 = digits_value integer * 10 ^ Z.of_nat 9 +
        digits_value fraction * 10 ^ Z.of_nat (9 - length fraction) /\
    0 <= 2500000000 <= max_int64.
Proof. apply (parse_sound "2.50" 9 2500000000). vm_compute. reflexivity. Defined.

(** ** Multiplier text *)

Lemma parse_int64_digits l : l <> [] -> all_digits l = true -> digits_value l <= max_int64 ->
  parse_int64 l = Some (digits_value l).
Proof.
  intros Hne Hd Hm. pose proof (digits_value_range l Hd) as Hr.
  assert (Hi : is_int64 (digits_value l) = true)
    by (apply is_int64_spec; unfold in_int64, min_int64; lia).
  destruct l as [|c l]; [easy|]. unfold parse_int64.
  assert (Hc : is_digit c = true) by (rewrite all_digits_cons in Hd; now zbool).
  assert (forall n, (nat_of_ascii c = n)%nat -> (48 <= n <= 57)%nat) as Hn.
  { intros n <-. unfold is_digit, byte_val in Hc. zbool. lia. }
  specialize (Hn _ eq_refl).
  destruct c as [[] [] [] [] [] [] [] []]; vm_compute in Hn; try lia;
    cbn [andb]; rewrite Hd, Hi; reflexivity.
Qed.

Lemma trim_left_zero_value l : all_digits l = true ->
  all_digits (trim_left_zero l) = true /\ digits_value (trim_left_zero l) = digits_value l.
Proof.
  intros Hd. destruct (trim_left_zero_spec l) as [n Hn]. rewrite Hn, all_digits_app in Hd.
  zbool. split; [assumption|]. rewrite Hn at 2. rewrite digits_value_app, digits_value_zeros. lia.
Qed.

Lemma whole_text l : all_digits l = true -> digits_value l <= max_int64 ->
  parse_int64 (if isEmpty (trim_left_zero l) then ["0"%char] else trim_left_zero l) =
  Some (digits_value l).
Proof.
  intros Hd Hm. destruct (trim_left_zero_value l Hd) as [Ht Hv].
  destruct (trim_left_zero l) as [|c r] eqn:E; cbn [isEmpty].
  - rewrite <- Hv. reflexivity.
  - rewrite <- Hv. apply parse_int64_digits; [discriminate|exact Ht|rewrite Hv; exact Hm].
Qed.

(** Round trip of price multipliers.  Every valid multiplier (0 to 1000
    in millionths) is formatted to a text that parses back to it. *)
Theorem multiplier_roundtrip (v : Z) (Hv : MultiplierValid v = true) :
  ParsePriceMultiplier (FormatPriceMultiplier v) = Ok v.
Proof.
  pose proof Hv as Hr. unfold MultiplierValid in Hr. zbool.
  unfold FormatPriceMultiplier, DefaultPriceMultiplier.
  rewrite Z.quot_div_nonneg, Z.rem_mod_nonneg by lia.
  destruct (split_scale v 1000000 ltac:(lia)) as [Ev Hf].
  set (w := v / 1000000) in *. set (f := v mod 1000000) in *.
  assert (Hw : 0 <= w <= 1000) by lia.
  destruct (render_spec w ltac:(lia)) as (Hwd & Hwv & Hwne).
  unfold format_int. rewrite (proj2 (Z.ltb_ge w 0)), (proj2 (Z.ltb_ge f 0)) by lia.
  cbv beta iota zeta. rewrite ?(proj2 (Z.ltb_ge f 0)) by lia.
  assert (Hwrap : forall x, 0 <= x <= 1000000000 -> wrap_i64 x = x).
  { intros x Hx. unfold wrap_i64, two64. rewrite Z.mod_small; lia. }
  assert (Hpw : parse_int64 (if isEmpty (trim_left_zero (render w)) then ["0"%char]
                             else trim_left_zero (render w)) = Some w).
  { rewrite whole_text by (try assumption; unfold max_int64; lia). now rewrite Hwv. }
  unfold ParsePriceMultiplier. destruct (f =? 0) eqn:Ef; zbool;
    rewrite list_ascii_of_string_of_list_ascii.
  - rewrite cut_digits_only by exact Hwd. rewrite isEmpty_false by exact Hwne. rewrite Hwd.
    cbn [orb andb negb length Nat.ltb Nat.leb app]. rewrite Hpw.
    rewrite Z.gtb_ltb, (proj2 (Z.ltb_ge 1000 w)) by lia.
    cbn [Nat.sub]. change (parse_int64 (repeat "0"%char 6)) with (Some 0). cbv beta iota.
    rewrite Hwrap by (unfold DefaultPriceMultiplier; lia). unfold DefaultPriceMultiplier.
    replace (w * 1000000 + 0) with v by lia. now rewrite Hv.
  - destruct (fraction_text f 6 ltac:(lia)) as (Hne & Hd & Hl & Hval).
    set (tr := trim_right_zero _) in *. cbn [app].
    rewrite cut_digits by exact Hwd. rewrite !isEmpty_false by assumption. rewrite Hwd, Hd.
    rewrite (proj2 (Nat.ltb_ge 6 _)) by exact Hl. cbn [orb andb negb]. rewrite Hpw.
    rewrite Z.gtb_ltb, (proj2 (Z.ltb_ge 1000 w)) by lia.
    rewrite parse_int64_digits; rewrite ?Hval.
    + rewrite Hwrap by (unfold DefaultPriceMultiplier; lia). unfold DefaultPriceMultiplier.
      replace (w * 1000000 + f) with v by lia. now rewrite Hv.
    + now destruct tr.
    + now rewrite all_digits_app, Hd, all_digits_zeros.
    + unfold max_int64; lia.
Qed.

(** ** Component costs *)

(** Exactness of component pricing.  For valid inputs the cost of one
    usage component is the exact rational [tokens * price * multiplier / 10^6]
    rounded to the nearest nano-USD, ties up; the quote is refused exactly when
    that rounded value does not fit in [int64], never silently wrapped. *)
Theorem QuoteComponent_exact (t p : Z) (m : Multiplier)
    (Ht : 0 <= t) (Hp : 0 <= p) (Hn : 0 < m.(Numerator)) (Hd : 0 < m.(Denominator)) :
  let N := t * p * m.(Numerator) in
  let D := tokensPerMillion * m.(Denominator) in
  match QuoteComponent t p m with
  | Some c => 0 <= c <= max_int64 /\ 2 * D * c <= 2 * N + D < 2 * D * (c + 1)
  | None => max_int64 < (2 * N + D) / (2 * D)
  end.
Proof.
  intros N D. unfold QuoteComponent. fold N D.
  assert (HN : 0 <= N) by (unfold N; nia).
  assert (HD : 0 < D) by (unfold D, tokensPerMillion; lia).
  rewrite (proj2 (Z.ltb_ge t 0)), (proj2 (Z.ltb_ge p 0)), (proj2 (Z.leb_gt (Numerator m) 0)),
    (proj2 (Z.leb_gt (Denominator m) 0)) by lia. cbn [orb].
  pose proof (roundHalfUp_nonneg N D HN HD) as Hq.
  rewrite (proj2 (Z.ltb_ge _ 0)) by exact Hq. cbn [orb].
  destruct (is_int64 (roundHalfUp N D)) eqn:E; cbn [negb].
  - apply is_int64_spec in E. unfold in_int64 in E. split; [lia|].
    now apply roundHalfUp_nearest.
  - rewrite <- roundHalfUp_spec by assumption.
    destruct (Z_lt_le_dec max_int64 (roundHalfUp N D)); [assumption|].
    assert (is_int64 (roundHalfUp N D) = true)
      by (apply is_int64_spec; unfold in_int64, min_int64; lia). congruence.
Qed.

Lemma QuoteComponent_exact_witness :
  match QuoteComponent 1500 2500000000 (mkMultiplier 8 5) with
  | Some c => 0 <= c <= max_int64 /\
      2 * (tokensPerMillion * 5) * c <= 2 * (1500 * 2500000000 * 8) + tokensPerMillion * 5
        < 2 * (tokensPerMillion * 5) * (c + 1)
  | None => max_int64 < (2 * (1500 * 2500000000 * 8) + tokensPerMillion * 5) / (2 * (tokensPerMillion * 5))
  end.
Proof. apply (QuoteComponent_exact 1500 2500000000 (mkMultiplier 8 5)); cbn; lia. Defined.

Lemma QuoteComponent_range t p m c : QuoteComponent t p m = Some c -> 0 <= c <= max_int64.
Proof.
  unfold QuoteComponent. intros H. case_if_in H; [discriminate|]. case_if_in H; [discriminate|].
  injection H as <-. zbool. apply is_int64_spec in H0. unfold in_int64 in H0. lia.
Qed.

Lemma CheckedAddNanoUSD_Some l r n :
  CheckedAddNanoUSD l r = Some n <-> 0 <= l /\ 0 <= r /\ l + r <= max_int64 /\ n = l + r.
Proof.
  unfold CheckedAddNanoUSD. split.
  - intros H. case_if_in H; [discriminate|]. injection H as <-. zbool. lia.
  - intros (? & ? & ? & ->). case_if; [|reflexivity].
    rewrite !orb_true_iff in E. rewrite Z.gtb_ltb, !Z.ltb_lt in E. lia.
Qed.

(** Default multipliers leave an [int64] amount unchanged. *)
Lemma applyPriceMultipliers_default amount : 0 <= amount <= max_int64 ->
  applyPriceMultipliers amount (mkPriceMultipliers DefaultPriceMultiplier DefaultPriceMultiplier)
  = Some amount.
Proof.
  intros H. unfold applyPriceMultipliers. cbn [Group AccessKey].
  rewrite (proj2 (Z.ltb_ge amount 0)) by lia. cbn [orb negb MultiplierValid].
  change (MultiplierValid DefaultPriceMultiplier) with true. cbn [negb].
  assert (E : roundHalfUp (amount * DefaultPriceMultiplier * DefaultPriceMultiplier)
            (DefaultPriceMultiplier * DefaultPriceMultiplier) = amount).
  { apply roundHalfUp_nearest; unfold DefaultPriceMultiplier; lia. }
  rewrite E, (proj2 (is_int64_spec amount)) by (unfold in_int64, min_int64; lia). reflexivity.
Qed.

(** ** Currency conversion *)

Lemma scaleRoundHalfUp_Some v n d x :
  scaleRoundHalfUp v n d = Some x <->
  0 <= v /\ 0 < n /\ 0 < d /\ x = roundHalfUp (v * n) d /\ x <= max_int64.
Proof.
  unfold scaleRoundHalfUp. split.
  - intros H. case_if_in H; [discriminate|]. case_if_in H; [discriminate|].
    injection H as <-. zbool. apply is_int64_spec in E0. unfold in_int64 in E0. lia.
  - intros (Hv & Hn & Hd & -> & Hx).
    rewrite (proj2 (Z.ltb_ge v 0)), (proj2 (Z.leb_gt n 0)), (proj2 (Z.leb_gt d 0)) by lia.
    cbn [orb]. pose proof (roundHalfUp_nonneg (v * n) d ltac:(nia) Hd).
    rewrite (proj2 (is_int64_spec _)) by (unfold in_int64, min_int64; lia). reflexivity.
Qed.

(** A rate of at least one loses nothing: the rounding error of the first
    conversion is below half a nano USD on the way back. *)
Lemma FromNano_ToNano c v x :
  v <= max_int64 -> ExchangeRateScale <= c.(RateMicros) ->
  FromNanoUSD c v = Some x -> ToNanoUSD c x = Some v.
Proof.
  intros Hv Hrate Hx.
  unfold FromNanoUSD, ToNanoUSD, ExchangeRateScale in *.
  apply scaleRoundHalfUp_Some in Hx as (Hv0 & Hr & _ & Hx & Hm).
  pose proof (roundHalfUp_nonneg (v * RateMicros c) 1000000 ltac:(nia) ltac:(lia)) as H0.
  symmetry in Hx. apply roundHalfUp_nearest in Hx; [|nia|lia].
  apply scaleRoundHalfUp_Some. repeat split; try lia.
  symmetry. apply roundHalfUp_nearest; [lia|lia|]. nia.
Qed.

(** Amounts that convert to the same nano USD form an interval. *)
Lemma ToNanoUSD_convex c v a x b :
  a <= x <= b -> ToNanoUSD c a = Some v -> ToNanoUSD c b = Some v -> ToNanoUSD c x = Some v.
Proof.
  unfold ToNanoUSD, ExchangeRateScale. intros Hx Ha Hb.
  apply scaleRoundHalfUp_Some in Ha as (Ha0 & _ & Hr & Ea & Hm).
  apply scaleRoundHalfUp_Some in Hb as (Hb0 & _ & _ & Eb & _).
  pose proof (roundHalfUp_mono (a * 1000000) (x * 1000000) (RateMicros c)).
  pose proof (roundHalfUp_mono (x * 1000000) (b * 1000000) (RateMicros c)).
  apply scaleRoundHalfUp_Some. repeat split; lia.
Qed.

Lemma wrap_i64_over z : max_int64 < z <= 2 * max_int64 -> wrap_i64 z < 0.
Proof.
  unfold max_int64, wrap_i64, two64. intros H.
  replace (z + 9223372036854775808)
    with ((z - 9223372036854775808) + 1 * 18446744073709551616) by lia.
  rewrite Z.mod_add, Z.mod_small by lia. lia.
Qed.

(** One round of the search: a hit is a multiple of [step] that converts back,
    a miss means that no [int64] multiple of [step] does. *)
Lemma priceCandidate_spec c v exact step :
  0 <= exact <= max_int64 -> 0 < step <= 1000000000 -> ToNanoUSD c exact = Some v ->
  match priceCandidate c v exact step with
  | Some r => (step | r) /\ ToNanoUSD c r = Some v
  | None => forall m, 0 <= m <= max_int64 -> (step | m) -> ToNanoUSD c m <> Some v
  end.
Proof.
  intros He Hs Hc. unfold priceCandidate. rewrite Z.quot_div_nonneg by lia.
  pose proof (split_scale exact step ltac:(lia)) as [Ee Hr].
  set (fl := exact / step * step) in *.
  assert (Hfl : (step | fl)) by (exists (exact / step); reflexivity).
  assert (Hq : 0 <= fl) by (pose proof (Z.div_pos exact step); unfold fl; nia).
  cbn [find]. rewrite (Z.ltb_irrefl fl). cbn [negb andb].
  case_bool_decide as Hf; [split; assumption|].
  destruct (wrap_i64 (fl + step) <? fl) eqn:Ew; cbn [negb andb].
  - intros m Hm [k Hk] Hmv. destruct (Z_le_gt_dec m exact).
    + apply Hf. apply (ToNanoUSD_convex c v m fl exact); auto.
      assert (k <= exact / step) by (apply Z.div_le_lower_bound; lia). unfold fl in *. nia.
    + zbool. rewrite wrap_i64_small in Ew; [lia|]. unfold in_int64, min_int64.
      assert (exact / step < k) by (apply Z.div_lt_upper_bound; lia). unfold fl in *. nia.
  - zbool. assert (Hsum : fl + step <= max_int64).
    { destruct (Z_le_gt_dec (fl + step) max_int64); [assumption|].
      pose proof (wrap_i64_over (fl + step)). unfold max_int64 in *. lia. }
    rewrite wrap_i64_small by (unfold in_int64, min_int64; lia).
    case_bool_decide as Hg.
    + split; [apply Z.divide_add_r; [assumption|apply Z.divide_refl]|assumption].
    + intros m Hm [k Hk] Hmv. destruct (Z_le_gt_dec m exact).
      * apply Hf. apply (ToNanoUSD_convex c v m fl exact); auto.
        assert (k <= exact / step) by (apply Z.div_le_lower_bound; lia). unfold fl in *. nia.
      * apply Hg. apply (ToNanoUSD_convex c v exact (fl + step) m); auto.
        assert (exact / step < k) by (apply Z.div_lt_upper_bound; lia). unfold fl in *. nia.
Qed.

Lemma priceLoop_spec c v exact : forall k fuel,
  (k < fuel)%nat -> (k <= 9)%nat -> 0 <= exact <= max_int64 -> ToNanoUSD c exact = Some v ->
  let r := priceLoop fuel c v exact (10 ^ Z.of_nat k) in
  ToNanoUSD c r = Some v /\
  forall j m, (1 <= j <= k)%nat -> 0 <= m <= max_int64 -> (10 ^ Z.of_nat j | m) ->
    ToNanoUSD c m = Some v -> (10 ^ Z.of_nat j | r).
Proof.
  induction k as [|k IH]; intros fuel Hf Hk He Hc; (destruct fuel as [|fuel]; [lia|]); cbn [priceLoop].
  - cbn. split; [assumption|]. intros. lia.
  - assert (H10 : 10 ^ Z.of_nat (S k) = 10 * 10 ^ Z.of_nat k)
      by (rewrite Nat2Z.inj_succ, Z.pow_succ_r; lia).
    assert (Hpos : 0 < 10 ^ Z.of_nat k) by (apply Z.pow_pos_nonneg; lia).
    assert (Hle : 10 ^ Z.of_nat (S k) <= 10 ^ 9) by (apply Z.pow_le_mono_r; lia).
    rewrite (proj2 (Z.gtb_lt _ 1)) by lia.
    pose proof (priceCandidate_spec c v exact (10 ^ Z.of_nat (S k)) He ltac:(lia) Hc) as Hs.
    destruct (priceCandidate _ _ _ _) as [r|].
    + destruct Hs as [Hdiv Hr]. split; [assumption|]. intros j m Hj _ _ _.
      eapply Z.divide_trans; [|exact Hdiv].
      exists (10 ^ (Z.of_nat (S k) - Z.of_nat j)). rewrite <- Z.pow_add_r by lia. f_equal. lia.
    + replace (Z.quot (10 ^ Z.of_nat (S k)) 10) with (10 ^ Z.of_nat k)
        by (rewrite H10, Z.mul_comm, Z.quot_mul; lia).
      destruct (IH fuel ltac:(lia) ltac:(lia) He Hc) as [H1 H2]. split; [exact H1|].
      intros j m Hj Hm Hd Hmv. destruct (Nat.eq_dec j (S k)) as [->|].
      * exfalso. exact (Hs m Hm Hd Hmv).
      * apply (H2 j m); auto. lia.
Qed.

(** The displayed price is lossless and shortest.  With a rate of at least
    one, [PriceFromNanoUSD] returns an amount that converts back to the stored
    price, and if any [int64] amount with at most [9 - j] decimal places (a
    multiple of [10^j] nano units) converts back to that price, so does the
    returned one with no more decimal places. *)
Theorem display_price_shortest (c : Currency) (v r : Z)
    (Hv : v <= max_int64) (Hrate : ExchangeRateScale <= c.(RateMicros))
    (Hr : PriceFromNanoUSD c v = Some r) :
  ToNanoUSD c r = Some v /\
  forall (j : nat) (m : Z), (1 <= j <= 9)%nat -> 0 <= m <= max_int64 ->
    (10 ^ Z.of_nat j | m) -> ToNanoUSD c m = Some v -> (10 ^ Z.of_nat j | r).
Proof.
  unfold PriceFromNanoUSD in Hr. destruct (FromNanoUSD c v) as [exact|] eqn:E; [|discriminate].
  injection Hr as <-.
  assert (Hc : ToNanoUSD c exact = Some v) by now apply FromNano_ToNano.
  apply scaleRoundHalfUp_Some in E as (Hv0 & Hrp & _ & Hx & Hm).
  pose proof (roundHalfUp_nonneg (v * RateMicros c) ExchangeRateScale ltac:(nia) ltac:(unfold ExchangeRateScale; lia)).
  apply (priceLoop_spec c v exact 9 10); auto; lia.
Qed.

Lemma display_price_shortest_witness :
  ToNanoUSD (mkCurrency CurrencyCNY 7200000) 18000000000 = Some 2500000000 /\
  forall (j : nat) (m : Z), (1 <= j <= 9)%nat -> 0 <= m <= max_int64 ->
    (10 ^ Z.of_nat j | m) -> ToNanoUSD (mkCurrency CurrencyCNY 7200000) m = Some 2500000000 ->
    (10 ^ Z.of_nat j | 18000000000).
Proof. apply display_price_shortest; vm_compute; try discriminate; reflexivity. Defined.
End Money.
