(* ===== verification/Pricing.v ===== *)
(** * Price tables and quotes ([internal/pricing]: types.go, compile.go, quote.go)

    The validated price table of upstream rules and client-model rules, the
    selection of a schedule and context tier, and the quote of one usage
    result together with the receipt that freezes its calculation. *)

From Stdlib Require Import ZArith Lia Bool String Ascii List Sorted.
From stdpp Require Import base gmap list strings.
From S2P Require Import Prelude GoStrings Usage Money.

Import Usage Money.
Local Open Scope Z_scope.
Local Open Scope go_scope.

Module Pricing.

(** ** Data ([types.go]) *)

(** [Mode] is a Go string type whose values are open-ended: a model string. *)
Definition ModeStandard : string := "standard".
Definition ModeFast : string := "fast".

Record Price := mkPrice { NanoUSDPerMillion : Z; IsSet : bool }.

Record Prices := mkPrices {
  InputPrice : Price;
  OutputPrice : Price;
  CacheReadPrice : Price;
  CacheWritePrice : Price
}.

Record Identity := mkIdentity { ChannelID : string; ModelID : string }.

#[export] Instance Identity_eq_dec : EqDecision Identity.
Proof. solve_decision. Defined.
#[export] Instance Identity_countable : Countable Identity.
Proof.
  refine (inj_countable' (fun i => (i.(ChannelID), i.(ModelID)))
                         (fun p => mkIdentity p.1 p.2) _).
  now intros [].
Defined.

Record ReceiptRule := mkReceiptRule {
  RRScopeKey : string;
  RRChannelID : string;
  RRModelID : string;
  RRClientModel : string
}.

Record ContextTier := mkContextTier { InputThresholdTokens : Z; TierPrices : Prices }.

Record Schedule := mkSchedule { SchedulePrices : Prices; ScheduleTiers : list ContextTier }.

Record Rule := mkRule {
  RuleIdentity : Identity;
  RulePrices : Prices;
  RuleTiers : list ContextTier;
  RuleModes : gmap string Schedule;
  IsManual : bool
}.

Record ClientRule := mkClientRule {
  ClientModel : string;
  ClientPrices : Prices;
  ClientTiers : list ContextTier;
  ClientModes : gmap string Schedule
}.

Inductive CostState := CostStatePriced | CostStateUnpriced | CostStateNotApplicable
                     | CostStateOther (raw : string).
#[export] Instance CostState_eq_dec : EqDecision CostState.
Proof. solve_decision. Defined.

Inductive Completeness := CompletenessComplete | CompletenessPartial
                        | CompletenessUnavailable | CompletenessNotApplicable
                        | CompletenessOther (raw : string).
#[export] Instance Completeness_eq_dec : EqDecision Completeness.
Proof. solve_decision. Defined.

Record Quote := mkQuote {
  QuoteState : CostState;
  QuoteCompleteness : Completeness;
  EstimatedCostNanoUSD : Z
}.

Definition UpstreamReceiptSchemaVersion : Z := 6.
Definition ClientModelReceiptSchemaVersion : Z := 7.
Definition ReceiptMethodUnitRateSum : string := "unit_rate_sum".

Inductive ReceiptLineState := ReceiptLinePriced | ReceiptLineUnpriced
                            | ReceiptLineOther (raw : string).

Record ReceiptLine := mkReceiptLine {
  LineCode : string;
  Quantity : Z;
  RateNanoUSDPerMillion : option Z;
  LineMultiplier : Multiplier;
  LineState : ReceiptLineState;
  AmountNanoUSD : option Z
}.

Record Receipt := mkReceipt {
  SchemaVersion : Z;
  Method : string;
  MethodVersion : Z;
  ReceiptCurrency : string;
  PricingMode : string;
  ReceiptMultipliers : option PriceMultipliers;
  BaseTotalNanoUSD : option Z;
  ReceiptRuleOf : ReceiptRule;
  ContextThresholdTokens : option Z;
  LineItems : list ReceiptLine;
  TotalNanoUSD : Z
}.

Record Table := mkTable {
  rules : gmap Identity Rule;
  clientRules : gmap string ClientRule
}.

(** ** Validation ([compile.go]) *)

Definition maxProviderIDBytes : nat := 246.
Definition maxChannelIDBytes : nat := 64.
Definition maxModelIDBytes : nat := 255.
Definition maxModeBytes : nat := 64.

Definition is_lower (c : ascii) : bool := (97 <=? byte_val c) && (byte_val c <=? 122).

(** The byte loop of [Mode.Valid], [index] counting from the start of [mode]. *)
Fixpoint modeBytesValid (len index : nat) (l : list ascii) : bool :=
  match l with
  | [] => true
  | character :: rest =>
      (is_lower character || is_digit character ||
       ((0 <? index)%nat && (index <? len - 1)%nat &&
        ((character =? "-")%char || (character =? "_")%char)))
      && modeBytesValid len (S index) rest
  end.

Definition ModeValid (mode : string) : bool :=
  let l := bytes mode in
  if (length l =? 0)%nat || (maxModeBytes <? length l)%nat then false
  else modeBytesValid (length l) 0 l.

Inductive PricingError :=
| ProviderIDLength | ProviderIDEmptySegment | ProviderIDCharacter
| GroupIDNotPositive
| ChannelIDLength | ChannelIDSpace | ChannelIDControl
| ModelIDLength | ModelIDSpace | ModelIDControl
| PriceNegative
| ModeInvalid | ModeWithoutPrice | FastModeHasTiers
| TierNegative | TierNotIncreasing | TierWithoutPrice
| DuplicateClientModel | DuplicateIdentity
| ClientReceiptExtraFields | UpstreamReceiptHasClientModel
| LegacyReceiptHasChannel | LegacyReceiptNoScope | InvalidScopeKey
| GlobalReceiptHasScope | GlobalReceiptHasChannel | ChannelReceiptHasScope
| UnsupportedRuleVersion.

(** The segment scan of [ProviderScopeKey]; [separator] is true when a segment
    must start here. *)
Fixpoint providerSegments (separator : bool) (l : list ascii) : option PricingError :=
  match l with
  | [] => err_if separator ProviderIDEmptySegment
  | character :: rest =>
      if is_lower character || is_digit character then providerSegments false rest
      else if (character =? ".")%char || (character =? "-")%char then
        if separator then Some ProviderIDEmptySegment else providerSegments true rest
      else Some ProviderIDCharacter
  end.

Definition ProviderScopeKey (providerID : string) : result PricingError string :=
  let l := bytes providerID in
  if (length l =? 0)%nat || (maxProviderIDBytes <? length l)%nat then Err ProviderIDLength
  else match providerSegments true l with
       | Some e => Err e
       | None => Ok ("provider:" +:+ providerID)
       end.

Definition GroupScopeKey (groupID : Z) : result PricingError string :=
  if groupID =? 0 then Err GroupIDNotPositive
  else Ok ("group:" +:+ text (format_int groupID)).

Definition validateChannelID (channelID : string) : option PricingError :=
  let l := bytes channelID in
  err_if ((length l =? 0)%nat || (maxChannelIDBytes <? length l)%nat) ChannelIDLength ;;!
  err_if (negb (trimmed l)) ChannelIDSpace ;;!
  err_if (has_control l) ChannelIDControl.

Definition validateModelID (modelID : string) : option PricingError :=
  let l := bytes modelID in
  err_if ((length l =? 0)%nat || (maxModelIDBytes <? length l)%nat) ModelIDLength ;;!
  err_if (negb (trimmed l)) ModelIDSpace ;;!
  err_if (has_control l) ModelIDControl.

Definition validateIdentity (identity : Identity) : option PricingError :=
  validateChannelID identity.(ChannelID) ;;! validateModelID identity.(ModelID).

Definition pricesList (prices : Prices) : list Price :=
  [prices.(InputPrice); prices.(OutputPrice); prices.(CacheReadPrice); prices.(CacheWritePrice)].

Definition validatePrices (prices : Prices) : option PricingError :=
  err_if (existsb (fun price => price.(NanoUSDPerMillion) <? 0) (pricesList prices)) PriceNegative.

Definition hasSetPrice (prices : Prices) : bool :=
  prices.(InputPrice).(IsSet) || prices.(OutputPrice).(IsSet) ||
  prices.(CacheReadPrice).(IsSet) || prices.(CacheWritePrice).(IsSet).

Fixpoint contextTiersLoop (previousThreshold : Z) (tiers : list ContextTier) : option PricingError :=
  match tiers with
  | [] => None
  | tier :: rest =>
      err_if (tier.(InputThresholdTokens) <? 0) TierNegative ;;!
      err_if (tier.(InputThresholdTokens) <=? previousThreshold) TierNotIncreasing ;;!
      validatePrices tier.(TierPrices) ;;!
      err_if (negb (hasSetPrice tier.(TierPrices))) TierWithoutPrice ;;!
      contextTiersLoop tier.(InputThresholdTokens) rest
  end.

Definition validateContextTiers (tiers : list ContextTier) : option PricingError :=
  contextTiersLoop (-1) tiers.

(** One entry of the [modeSchedules] loop. *)
Definition validateModeSchedule (mode : string) (schedule : Schedule) : option PricingError :=
  err_if (negb (ModeValid mode) || bool_decide (mode = ModeStandard)) ModeInvalid ;;!
  validatePrices schedule.(SchedulePrices) ;;!
  err_if (negb (hasSetPrice schedule.(SchedulePrices))) ModeWithoutPrice ;;!
  err_if (bool_decide (mode = ModeFast) && (0 <? length schedule.(ScheduleTiers))%nat) FastModeHasTiers ;;!
  validateContextTiers schedule.(ScheduleTiers).

(** Go iterates the map in an unspecified order; which of several errors is
    returned is unspecified too, whether one is returned is not. *)
Definition validateSchedules (prices : Prices) (contextTiers : list ContextTier)
    (modeSchedules : gmap string Schedule) : option PricingError :=
  validatePrices prices ;;!
  validateContextTiers contextTiers ;;!
  foldr (fun entry err => validateModeSchedule entry.1 entry.2 ;;! err) None
        (map_to_list modeSchedules).

Definition validateRule (rule : Rule) : option PricingError :=
  validateIdentity rule.(RuleIdentity) ;;!
  validateSchedules rule.(RulePrices) rule.(RuleTiers) rule.(RuleModes).

Fixpoint addClientRules (table : gmap string ClientRule) (clientRules : list ClientRule)
  : result PricingError (gmap string ClientRule) :=
  match clientRules with
  | [] => Ok table
  | rule :: rest =>
      match validateModelID rule.(ClientModel) ;;!
            validateSchedules rule.(ClientPrices) rule.(ClientTiers) rule.(ClientModes) ;;!
            err_if (bool_decide (is_Some (table !! rule.(ClientModel)))) DuplicateClientModel with
      | Some e => Err e
      | None => addClientRules (<[rule.(ClientModel) := rule]> table) rest
      end
  end.

Fixpoint addRules (table : gmap Identity Rule) (rules : list Rule)
  : result PricingError (gmap Identity Rule) :=
  match rules with
  | [] => Ok table
  | rule :: rest =>
      match validateRule rule ;;!
            err_if (bool_decide (is_Some (table !! rule.(RuleIdentity)))) DuplicateIdentity with
      | Some e => Err e
      | None => addRules (<[rule.(RuleIdentity) := rule]> table) rest
      end
  end.

Definition NewTableWithClientRules (rules : list Rule) (clientRules : list ClientRule)
  : result PricingError Table :=
  let? clients := addClientRules ∅ clientRules in
  let? upstream := addRules ∅ rules in
  Ok (mkTable upstream clients).

Definition NewTable (rules : list Rule) : result PricingError Table :=
  NewTableWithClientRules rules [].

(** A nil [*Table] is [None]. *)
Definition Lookup (table : option Table) (identity : Identity) : option Rule :=
  match table with
  | None => None
  | Some t => t.(rules) !! identity
  end.

Definition validateScopeKey (scopeKey : string) : option PricingError :=
  match cut_prefix (bytes "provider:") (bytes scopeKey) with
  | Some providerID =>
      match ProviderScopeKey (text providerID) with
      | Err _ => Some InvalidScopeKey
      | Ok canonical => err_if (negb (bool_decide (canonical = scopeKey))) InvalidScopeKey
      end
  | None =>
      match cut_prefix (bytes "group:") (bytes scopeKey) with
      | Some groupText =>
          match parse_uint64 groupText with
          | None => Some InvalidScopeKey
          | Some parsed =>
              match GroupScopeKey parsed with
              | Err _ => Some InvalidScopeKey
              | Ok canonical => err_if (negb (bool_decide (canonical = scopeKey))) InvalidScopeKey
              end
          end
      | None => Some InvalidScopeKey
      end
  end.

Definition nonEmpty (s : string) : bool := negb (bool_decide (s = EmptyString)).

Definition validateReceiptRule (rule : ReceiptRule) (schemaVersion : Z) : option PricingError :=
  if schemaVersion =? ClientModelReceiptSchemaVersion then
    err_if (nonEmpty rule.(RRScopeKey) || nonEmpty rule.(RRChannelID) || nonEmpty rule.(RRModelID))
           ClientReceiptExtraFields ;;!
    validateModelID rule.(RRClientModel)
  else if nonEmpty rule.(RRClientModel) then Some UpstreamReceiptHasClientModel
  else if schemaVersion =? 1 then
    validateModelID rule.(RRModelID) ;;!
    err_if (nonEmpty rule.(RRChannelID)) LegacyReceiptHasChannel ;;!
    err_if (negb (nonEmpty rule.(RRScopeKey))) LegacyReceiptNoScope ;;!
    validateScopeKey rule.(RRScopeKey)
  else if schemaVersion =? 2 then
    validateModelID rule.(RRModelID) ;;!
    err_if (nonEmpty rule.(RRScopeKey)) GlobalReceiptHasScope ;;!
    err_if (nonEmpty rule.(RRChannelID)) GlobalReceiptHasChannel
  else if (schemaVersion =? 3) || (schemaVersion =? 4) || (schemaVersion =? 5) || (schemaVersion =? 6) then
    err_if (nonEmpty rule.(RRScopeKey)) ChannelReceiptHasScope ;;!
    validateIdentity (mkIdentity rule.(RRChannelID) rule.(RRModelID))
  else Some UnsupportedRuleVersion.

(** ** Quotes ([quote.go]) *)

Definition directPriceMultiplier : Multiplier := mkMultiplier 1 1.
Definition cacheWriteOneHourMultiplier : Multiplier := mkMultiplier 8 5.

Definition unavailableQuote : Quote := mkQuote CostStateUnpriced CompletenessUnavailable 0.

Definition checkedInputTokens (t : Tokens) : option Z :=
  checkedLoop 0 [t.(UncachedInput); t.(CacheRead); t.(CacheWrite5M);
                 t.(CacheWrite1H); t.(CacheWriteUnknown)].

Fixpoint selectTier (prices : Prices) (threshold : option Z) (tiers : list ContextTier)
    (inputTokens : Z) : Prices * option Z :=
  match tiers with
  | [] => (prices, threshold)
  | tier :: rest =>
      if inputTokens <? tier.(InputThresholdTokens) then (prices, threshold)
      else selectTier tier.(TierPrices) (Some tier.(InputThresholdTokens)) rest inputTokens
  end.

Definition selectSchedulePrices (base : Prices) (tiers : list ContextTier) (inputTokens : Z)
  : Prices * option Z := selectTier base None tiers inputTokens.

(** The schedule choice inside [quoteSchedules]: a reached standard context tier
    wins, then the requested mode's schedule, then the standard base prices. *)
Definition selectMode (basePrices : Prices) (contextTiers : list ContextTier)
    (modeSchedules : gmap string Schedule) (mode : string) (inputTokens : Z)
  : string * Prices * option Z :=
  let '(prices, selectedThreshold) := selectSchedulePrices basePrices contextTiers inputTokens in
  match selectedThreshold with
  | None =>
      if nonEmpty mode && negb (bool_decide (mode = ModeStandard)) then
        match modeSchedules !! mode with
        | Some schedule =>
            let '(p, th) := selectSchedulePrices schedule.(SchedulePrices)
                              schedule.(ScheduleTiers) inputTokens in
            (mode, p, th)
        | None => (ModeStandard, prices, selectedThreshold)
        end
      else (ModeStandard, prices, selectedThreshold)
  | Some _ => (ModeStandard, prices, selectedThreshold)
  end.

Record component := mkComponent {
  code : string;
  quantity : Z;
  price : Price;
  multiplier : Multiplier
}.

Definition components (t : Tokens) (prices : Prices) : list component :=
  [mkComponent "input" t.(UncachedInput) prices.(InputPrice) directPriceMultiplier;
   mkComponent "cache_read" t.(CacheRead) prices.(CacheReadPrice) directPriceMultiplier;
   mkComponent "cache_write_5m" t.(CacheWrite5M) prices.(CacheWritePrice) directPriceMultiplier;
   mkComponent "cache_write_1h" t.(CacheWrite1H) prices.(CacheWritePrice) cacheWriteOneHourMultiplier;
   mkComponent "output" t.(Output) prices.(OutputPrice) directPriceMultiplier].

(** The loop variables of [quoteSchedules]. *)
Record loopState := mkLoopState {
  positiveBillable : bool;
  pricedPositive : bool;
  partial : bool;
  cost : Z;
  lineItems : list ReceiptLine
}.

(** [None]: a component cost or the running sum does not fit, so the whole
    quote is unavailable. *)
Fixpoint quoteLoop (st : loopState) (cs : list component) : option loopState :=
  match cs with
  | [] => Some st
  | c :: rest =>
      if c.(quantity) =? 0 then quoteLoop st rest
      else if negb c.(price).(IsSet) then
        quoteLoop (mkLoopState true st.(pricedPositive) true st.(cost)
          (st.(lineItems) ++ [mkReceiptLine c.(code) c.(quantity) None c.(multiplier)
                                            ReceiptLineUnpriced None])) rest
      else
        match QuoteComponent c.(quantity) c.(price).(NanoUSDPerMillion) c.(multiplier) with
        | None => None
        | Some componentCost =>
            match CheckedAddNanoUSD st.(cost) componentCost with
            | None => None
            | Some total =>
                quoteLoop (mkLoopState true true st.(partial) total
                  (st.(lineItems) ++ [mkReceiptLine c.(code) c.(quantity)
                     (Some c.(price).(NanoUSDPerMillion)) c.(multiplier)
                     ReceiptLinePriced (Some componentCost)])) rest
            end
        end
  end.

Definition quoteSchedules (basePrices : Prices) (contextTiers : list ContextTier)
    (modeSchedules : gmap string Schedule) (found : bool) (receiptRule : ReceiptRule)
    (result : Result) (mode : string) : Quote * option Receipt :=
  let t := result.(ResTokens) in
  match result.(ResState) with
  | StateNotApplicable => (mkQuote CostStateNotApplicable CompletenessNotApplicable 0, None)
  | StateMissing | StateOther _ => (unavailableQuote, None)
  | StateComplete | StatePartial =>
      if negb found then (unavailableQuote, None)
      else match CheckedTotal t with
      | None => (unavailableQuote, None)
      | Some _ =>
      match checkedInputTokens t with
      | None => (unavailableQuote, None)
      | Some inputTokens =>
          let '(selectedMode, prices, selectedThreshold) :=
            selectMode basePrices contextTiers modeSchedules mode inputTokens in
          let unknown := t.(CacheWriteUnknown) >? 0 in
          let start := mkLoopState unknown false
            (bool_decide (result.(ResState) = StatePartial) || unknown) 0 [] in
          match quoteLoop start (components t prices) with
          | None => (unavailableQuote, None)
          | Some st =>
              let lines := if unknown
                then st.(lineItems) ++ [mkReceiptLine "cache_write" t.(CacheWriteUnknown) None
                                          directPriceMultiplier ReceiptLineUnpriced None]
                else st.(lineItems) in
              let receipt := mkReceipt 4 ReceiptMethodUnitRateSum 1 "USD" selectedMode None None
                               receiptRule selectedThreshold lines st.(cost) in
              if st.(positiveBillable) && negb st.(pricedPositive)
              then (unavailableQuote, Some receipt)
              else (mkQuote CostStatePriced
                      (if st.(partial) then CompletenessPartial else CompletenessComplete) st.(cost),
                    Some receipt)
          end
      end end
  end.

Definition zeroPrices : Prices :=
  let p := mkPrice 0 false in mkPrices p p p p.

Definition QuoteForModeWithReceipt (table : option Table) (identity : Identity) (result : Result)
    (mode : string) : Quote * option Receipt :=
  let receiptRule := mkReceiptRule "" identity.(ChannelID) identity.(ModelID) "" in
  match Lookup table identity with
  | Some rule => quoteSchedules rule.(RulePrices) rule.(RuleTiers) rule.(RuleModes) true
                                receiptRule result mode
  | None => quoteSchedules zeroPrices [] ∅ false receiptRule result mode
  end.

Definition applyQuoteMultipliers (quote : Quote) (receipt : option Receipt)
    (multipliers : PriceMultipliers) (schemaVersion : Z) : Quote * option Receipt :=
  if negb (MultiplierValid multipliers.(Group)) || negb (MultiplierValid multipliers.(AccessKey))
  then (unavailableQuote, None)
  else match receipt with
  | None => (quote, None)
  | Some r =>
      let baseTotal := r.(TotalNanoUSD) in
      let finish q total :=
        (q, Some (mkReceipt schemaVersion r.(Method) r.(MethodVersion) r.(ReceiptCurrency)
               r.(PricingMode) (Some multipliers) (Some baseTotal) r.(ReceiptRuleOf)
               r.(ContextThresholdTokens) r.(LineItems) total)) in
      if bool_decide (quote.(QuoteState) = CostStatePriced) then
        match applyPriceMultipliers quote.(EstimatedCostNanoUSD) multipliers with
        | None => (unavailableQuote, None)
        | Some adjusted =>
            finish (mkQuote quote.(QuoteState) quote.(QuoteCompleteness) adjusted) adjusted
        end
      else finish quote baseTotal
  end.

Definition QuoteForModeWithMultipliers (table : option Table) (identity : Identity)
    (result : Result) (mode : string) (multipliers : PriceMultipliers) : Quote * option Receipt :=
  let '(quote, receipt) := QuoteForModeWithReceipt table identity result mode in
  applyQuoteMultipliers quote receipt multipliers UpstreamReceiptSchemaVersion.

Definition QuoteClientModel (table : option Table) (clientModel : string) (result : Result)
    (mode : string) (accessKey : Z) : Quote * option Receipt :=
  let receiptRule := mkReceiptRule "" "" "" clientModel in
  let '(quote, receipt) :=
    match (match table with Some t => t.(clientRules) !! clientModel | None => None end) with
    | Some rule => quoteSchedules rule.(ClientPrices) rule.(ClientTiers) rule.(ClientModes) true
                                  receiptRule result mode
    | None => quoteSchedules zeroPrices [] ∅ false receiptRule result mode
    end in
  applyQuoteMultipliers quote receipt (mkPriceMultipliers DefaultPriceMultiplier accessKey)
                        ClientModelReceiptSchemaVersion.

Definition QuoteOf (table : option Table) (identity : Identity) (result : Result) : Quote :=
  fst (QuoteForModeWithReceipt table identity result ModeStandard).

Definition QuoteForMode (table : option Table) (identity : Identity) (result : Result)
    (mode : string) : Quote := fst (QuoteForModeWithReceipt table identity result mode).

Definition QuoteWithReceipt (table : option Table) (identity : Identity) (result : Result)
  : Quote * option Receipt := QuoteForModeWithReceipt table identity result ModeStandard.

(** ** Lemmas on validated tables *)

Lemma addRules_valid rs : forall t t',
  (forall id rule, t !! id = Some rule -> rule.(RuleIdentity) = id /\ validateRule rule = None) ->
  addRules t rs = Ok t' ->
  forall id rule, t' !! id = Some rule -> rule.(RuleIdentity) = id /\ validateRule rule = None.
Proof.
  induction rs as [|r rs IH]; intros t t' Ht H; cbn in H; [now injection H as <-|].
  destruct (validateRule r ;;! _) eqn:E; [discriminate|]. no_error.
  revert H. apply IH. intros id rule.
  destruct (decide (RuleIdentity r = id)) as [<-|].
  - rewrite lookup_insert_eq. intros [= <-]. auto.
  - rewrite lookup_insert_ne by assumption. apply Ht.
Qed.

Lemma addClientRules_valid rs : forall t t',
  (forall m rule, t !! m = Some rule -> rule.(ClientModel) = m /\ validateModelID m = None /\
     validateSchedules rule.(ClientPrices) rule.(ClientTiers) rule.(ClientModes) = None) ->
  addClientRules t rs = Ok t' ->
  forall m rule, t' !! m = Some rule -> rule.(ClientModel) = m /\ validateModelID m = None /\
     validateSchedules rule.(ClientPrices) rule.(ClientTiers) rule.(ClientModes) = None.
Proof.
  induction rs as [|r rs IH]; intros t t' Ht H; cbn in H; [now injection H as <-|].
  destruct (validateModelID _ ;;! _) eqn:E; [discriminate|]. no_error.
  revert H. apply IH. intros m rule.
  destruct (decide (ClientModel r = m)) as [<-|].
  - rewrite lookup_insert_eq. intros [= <-]. auto.
  - rewrite lookup_insert_ne by assumption. apply Ht.
Qed.

(** The well-formedness every constructed table has. *)
Record table_ok (t : Table) : Prop := {
  table_rules_ok : forall id rule, t.(rules) !! id = Some rule ->
    rule.(RuleIdentity) = id /\ validateRule rule = None;
  table_clients_ok : forall m rule, t.(clientRules) !! m = Some rule ->
    rule.(ClientModel) = m /\ validateModelID m = None /\
    validateSchedules rule.(ClientPrices) rule.(ClientTiers) rule.(ClientModes) = None
}.

Lemma NewTable_ok rs cs t : NewTableWithClientRules rs cs = Ok t -> table_ok t.
Proof.
  unfold NewTableWithClientRules. intros H.
  destruct (addClientRules ∅ cs) eqn:E1; [|discriminate].
  destruct (addRules ∅ rs) eqn:E2; [|discriminate]. injection H as <-.
  split; cbn.
  - eapply addRules_valid; [|exact E2]. intros ? ?. now rewrite lookup_empty.
  - eapply addClientRules_valid; [|exact E1]. intros ? ?. now rewrite lookup_empty.
Qed.

Lemma validateSchedules_mode p ts ms m sch :
  validateSchedules p ts ms = None -> ms !! m = Some sch -> validateModeSchedule m sch = None.
Proof.
  intros H Hm. unfold validateSchedules in H. no_error.
  apply elem_of_map_to_list in Hm. revert Hm H1. induction (map_to_list ms) as [|e l IH].
  - intros Hm. inversion Hm.
  - intros Hm HF. cbn in HF. no_error. apply elem_of_cons in Hm as [<-|Hm]; auto.
Qed.

(** Validated tiers have non-negative, strictly increasing thresholds. *)
Lemma contextTiersLoop_thresholds ts : forall prev,
  contextTiersLoop prev ts = None ->
  Forall (fun t => 0 <= t.(InputThresholdTokens) /\ prev < t.(InputThresholdTokens)) ts /\
  StronglySorted (fun a b => a.(InputThresholdTokens) < b.(InputThresholdTokens)) ts.
Proof.
  induction ts as [|t ts IH]; intros prev H; cbn in H; [split; constructor|].
  no_error. zbool. match goal with HL : contextTiersLoop _ _ = None |- _ => apply IH in HL as [HF HS] end. split.
  - constructor; [lia|]. eapply Forall_impl; [exact HF|]. cbn. intros. lia.
  - constructor; [assumption|]. eapply Forall_impl; [exact HF|]. cbn. intros. lia.
Qed.

Lemma selectTier_threshold ts input : forall p th p' th',
  (forall x, th = Some x -> 0 <= x) ->
  Forall (fun t => 0 <= t.(InputThresholdTokens)) ts ->
  selectTier p th ts input = (p', th') -> forall x, th' = Some x -> 0 <= x.
Proof.
  induction ts as [|t ts IH]; intros p th p' th' Hth HF H; cbn in H; [now injection H as <- <-|].
  inversion HF; subst. case_if_in H; [now injection H as <- <-|].
  eapply IH; [|eassumption|exact H]. intros x [= <-]. assumption.
Qed.

(** The declarative reading of tier selection: the last tier reached. *)
Definition reached (input : Z) (t : ContextTier) : bool := t.(InputThresholdTokens) <=? input.

Lemma filter_unreached ts input :
  Forall (fun t => input < t.(InputThresholdTokens)) ts -> List.filter (reached input) ts = [].
Proof.
  induction 1 as [|t ts Ht _ IH]; [reflexivity|]. cbn. unfold reached at 1.
  now rewrite (proj2 (Z.leb_gt _ _)).
Qed.

Lemma selectTier_last ts input : forall p th,
  StronglySorted (fun a b => a.(InputThresholdTokens) < b.(InputThresholdTokens)) ts ->
  selectTier p th ts input =
  match last (List.filter (reached input) ts) with
  | Some t => (t.(TierPrices), Some t.(InputThresholdTokens))
  | None => (p, th)
  end.
Proof.
  induction ts as [|t ts IH]; intros p th HS; [reflexivity|]. inversion HS; subst.
  cbn [selectTier List.filter]. unfold reached at 1. case_if; zbool.
  - rewrite (proj2 (Z.leb_gt _ _)) by lia. rewrite filter_unreached; [reflexivity|].
    eapply Forall_impl; [eassumption|]. cbn. intros. lia.
  - rewrite (proj2 (Z.leb_le _ _)) by lia. rewrite IH by assumption.
    destruct (List.filter (reached input) ts) as [|u l]; [reflexivity|].
    change (last (t :: u :: l)) with (last (u :: l)).
    destruct (last (u :: l)) eqn:El; [reflexivity|]. apply last_None in El. discriminate.
Qed.

(** Context tiers.  On a validated schedule the prices used are those of
    the last tier whose threshold the input tokens have reached (thresholds are
    inclusive), and the base prices when none is reached. *)
Theorem tier_selection (base : Prices) (tiers : list ContextTier) (input : Z)
    (Hok : validateContextTiers tiers = None) :
  selectSchedulePrices base tiers input =
  match last (List.filter (reached input) tiers) with
  | Some t => (t.(TierPrices), Some t.(InputThresholdTokens))
  | None => (base, None)
  end.
Proof. apply selectTier_last. now apply contextTiersLoop_thresholds in Hok. Qed.

Definition sampleTiers : list ContextTier :=
  let p := mkPrice 3000000000 true in
  [mkContextTier 1000 (mkPrices p p p p); mkContextTier 200000 (mkPrices p p p p)].

Lemma tier_selection_witness :
  selectSchedulePrices zeroPrices sampleTiers 200000 =
  match last (List.filter (reached 200000) sampleTiers) with
  | Some t => (t.(TierPrices), Some t.(InputThresholdTokens))
  | None => (zeroPrices, None)
  end.
Proof. apply tier_selection. vm_compute. reflexivity. Defined.
End Pricing.
