(* ===== verification/Receipt.v ===== *)
(** * Cost receipts ([internal/pricing/receipt.go], [internal/usagecost])

    The validator of persisted receipts and of the usage/cost state matrix,
    and the proof that every receipt and quote the pricing package issues
    passes them. *)

From Stdlib Require Import ZArith Lia Bool String List.
From stdpp Require Import base gmap sets list strings.
From S2P Require Import Prelude GoStrings Usage Money Pricing.

Import Usage Money Pricing.
Local Open Scope Z_scope.
Local Open Scope go_scope.

Module Receipt.

(** ** Validation *)

Inductive ReceiptError :=
| UnsupportedContract
| HistoricalHasMultipliers | InvalidMultipliers
| HistoricalHasBaseTotal | InvalidBaseTotal
| HistoricalHasMode | InvalidMode
| InvalidRule (e : PricingError)
| InvalidThreshold | InvalidTotal
| InvalidLineCode | DuplicateLineCode | InvalidLineQuantity
| InvalidPricedLine | LineAmountMismatch | TotalOverflows
| InvalidUnpricedLine | InvalidLineState
| BaseTotalMismatch | AdjustedTotalMismatch | TotalMismatch.

Definition allowedCodes : list string :=
  ["input"; "cache_read"; "cache_write_5m"; "cache_write_1h"; "cache_write"; "output"].

(** One line of the loop: the new running total. *)
Definition validateLine (schemaVersion : Z) (pm : PriceMultipliers) (seen : gset string)
    (total : Z) (line : ReceiptLine) : result ReceiptError Z :=
  if negb (existsb (fun c => bool_decide (c = line.(LineCode))) allowedCodes) then Err InvalidLineCode
  else if bool_decide (line.(LineCode) ∈ seen) then Err DuplicateLineCode
  else if (line.(Quantity) <=? 0) || (line.(LineMultiplier).(Numerator) <=? 0) ||
          (line.(LineMultiplier).(Denominator) <=? 0)
  then Err InvalidLineQuantity
  else match line.(LineState) with
  | ReceiptLinePriced =>
      match line.(RateNanoUSDPerMillion), line.(AmountNanoUSD) with
      | Some rate, Some amount =>
          if (rate <? 0) || (amount <? 0) then Err InvalidPricedLine
          else
            let computed :=
              if schemaVersion =? 5
              then quoteComponentWithPriceMultipliers line.(Quantity) rate line.(LineMultiplier) pm
              else QuoteComponent line.(Quantity) rate line.(LineMultiplier) in
            match computed with
            | None => Err LineAmountMismatch
            | Some c =>
                if negb (c =? amount) then Err LineAmountMismatch
                else match CheckedAddNanoUSD total c with
                     | None => Err TotalOverflows
                     | Some total => Ok total
                     end
            end
      | _, _ => Err InvalidPricedLine
      end
  | ReceiptLineUnpriced =>
      match line.(RateNanoUSDPerMillion), line.(AmountNanoUSD) with
      | None, None => Ok total
      | _, _ => Err InvalidUnpricedLine
      end
  | ReceiptLineOther _ => Err InvalidLineState
  end.

Fixpoint validateLines (schemaVersion : Z) (pm : PriceMultipliers) (seen : gset string)
    (total : Z) (lines : list ReceiptLine) : result ReceiptError Z :=
  match lines with
  | [] => Ok total
  | line :: rest =>
      let? total := validateLine schemaVersion pm seen total line in
      validateLines schemaVersion pm ({[line.(LineCode)]} ∪ seen) total rest
  end.

Definition multipliersOk (pm : PriceMultipliers) : bool :=
  MultiplierValid pm.(Group) && MultiplierValid pm.(AccessKey).

(** The header checks before the line loop, in source order. *)
Definition validateHeader (r : Receipt) : option ReceiptError :=
  let v := r.(SchemaVersion) in
  err_if (negb ((v =? 1) || (v =? 2) || (v =? 3) || (v =? 4) || (v =? 5) ||
                (v =? UpstreamReceiptSchemaVersion) || (v =? ClientModelReceiptSchemaVersion)) ||
          negb (bool_decide (r.(Method) = ReceiptMethodUnitRateSum)) ||
          negb (r.(MethodVersion) =? 1) || negb (bool_decide (r.(ReceiptCurrency) = "USD")))
         UnsupportedContract ;;!
  (if v <? 5 then err_if (bool_decide (is_Some r.(ReceiptMultipliers))) HistoricalHasMultipliers
   else err_if (match r.(ReceiptMultipliers) with
                | None => true
                | Some pm => negb (multipliersOk pm)
                end) InvalidMultipliers) ;;!
  (if v <? 6 then err_if (bool_decide (is_Some r.(BaseTotalNanoUSD))) HistoricalHasBaseTotal
   else err_if (match r.(BaseTotalNanoUSD) with None => true | Some b => b <? 0 end) InvalidBaseTotal) ;;!
  (if v <? 4 then err_if (nonEmpty r.(PricingMode)) HistoricalHasMode
   else err_if (negb (ModeValid r.(PricingMode))) InvalidMode) ;;!
  (match validateReceiptRule r.(ReceiptRuleOf) v with Some e => Some (InvalidRule e) | None => None end) ;;!
  err_if (match r.(ContextThresholdTokens) with Some th => th <? 0 | None => false end) InvalidThreshold ;;!
  err_if (r.(TotalNanoUSD) <? 0) InvalidTotal.

(** The multipliers the checks use: neutral before schema 5. *)
Definition effectiveMultipliers (r : Receipt) : PriceMultipliers :=
  let neutral := mkPriceMultipliers DefaultPriceMultiplier DefaultPriceMultiplier in
  if r.(SchemaVersion) <? 5 then neutral else default neutral r.(ReceiptMultipliers).

Definition ValidateReceipt (r : Receipt) : option ReceiptError :=
  let v := r.(SchemaVersion) in
  let pm := effectiveMultipliers r in
  validateHeader r ;;!
  match validateLines v pm ∅ 0 r.(LineItems) with
  | Err e => Some e
  | Ok total =>
      if v >=? 6 then
        err_if (negb (bool_decide (r.(BaseTotalNanoUSD) = Some total))) BaseTotalMismatch ;;!
        match applyPriceMultipliers total pm with
        | None => Some AdjustedTotalMismatch
        | Some adjusted => err_if (negb (adjusted =? r.(TotalNanoUSD))) AdjustedTotalMismatch
        end
      else err_if (negb (total =? r.(TotalNanoUSD))) TotalMismatch
  end.

(** [usagecost.Validate]. *)
Inductive CostError := InvalidEstimatedCost | InvalidCombination | UnpricedCostNotZero.

Definition ValidateCost (usageState : State) (costState : CostState) (estimatedCostNanoUSD : Z)
  : option CostError :=
  let validCombination :=
    match usageState with
    | StateComplete | StatePartial =>
        bool_decide (costState = CostStatePriced) || bool_decide (costState = CostStateUnpriced)
    | StateMissing => bool_decide (costState = CostStateUnpriced)
    | StateNotApplicable => bool_decide (costState = CostStateNotApplicable)
    | StateOther _ => false
    end in
  err_if (estimatedCostNanoUSD <? 0) InvalidEstimatedCost ;;!
  err_if (negb validCombination) InvalidCombination ;;!
  err_if (negb (bool_decide (costState = CostStatePriced)) && negb (estimatedCostNanoUSD =? 0))
         UnpricedCostNotZero.

(** ** Lines issued by the quote loop *)

Definition codes (lines : list ReceiptLine) : gset string := list_to_set (map LineCode lines).

Lemma validateLines_snoc v pm : forall lines seen total t line t',
  validateLines v pm seen total lines = Ok t ->
  validateLine v pm (codes lines ∪ seen) t line = Ok t' ->
  validateLines v pm seen total (lines ++ [line]) = Ok t'.
Proof.
  induction lines as [|l lines IH]; intros seen total t line t' H1 H2; cbn [validateLines app] in *.
  - injection H1 as ->. unfold codes in H2. cbn in H2. rewrite (left_id_L ∅ _) in H2. now rewrite H2.
  - destruct (validateLine v pm seen total l) as [t0|] eqn:E; [|discriminate].
    apply (IH _ _ t _ _ H1). revert H2.
    replace (codes (l :: lines) ∪ seen) with (codes lines ∪ ({[LineCode l]} ∪ seen)); [auto|].
    unfold codes. cbn. set_solver.
Qed.

(** A priceable component: non-negative count, positive multiplier, known code. *)
Definition componentOk (c : component) : Prop :=
  0 <= c.(quantity) /\ 0 < c.(multiplier).(Numerator) /\ 0 < c.(multiplier).(Denominator) /\
  In c.(code) allowedCodes.

Lemma allowed_true s : In s allowedCodes -> existsb (fun c => bool_decide (c = s)) allowedCodes = true.
Proof. intros H. apply existsb_exists. exists s. split; [exact H|]. now apply bool_decide_eq_true_2. Qed.

Lemma validateLine_unpriced v pm seen t c :
  componentOk c -> c.(quantity) <> 0 -> c.(code) ∉ seen ->
  validateLine v pm seen t (mkReceiptLine c.(code) c.(quantity) None c.(multiplier) ReceiptLineUnpriced None)
  = Ok t.
Proof.
  intros (Hq & Hn & Hd & Hc) Hne Hs. unfold validateLine. cbn [LineCode Quantity LineMultiplier LineState RateNanoUSDPerMillion AmountNanoUSD].
  rewrite allowed_true, bool_decide_eq_false_2 by assumption. cbn [negb].
  rewrite !(proj2 (Z.leb_gt _ _)) by lia. reflexivity.
Qed.

Lemma validateLine_priced v pm seen t c cost' total :
  v <> 5 -> componentOk c -> c.(quantity) <> 0 -> c.(code) ∉ seen ->
  QuoteComponent c.(quantity) c.(price).(NanoUSDPerMillion) c.(multiplier) = Some cost' ->
  CheckedAddNanoUSD t cost' = Some total ->
  validateLine v pm seen t (mkReceiptLine c.(code) c.(quantity) (Some c.(price).(NanoUSDPerMillion))
    c.(multiplier) ReceiptLinePriced (Some cost')) = Ok total.
Proof.
  intros Hv (Hq & Hn & Hd & Hc) Hne Hs HQ HA. unfold validateLine.
  cbn [LineCode Quantity LineMultiplier LineState RateNanoUSDPerMillion AmountNanoUSD].
  rewrite allowed_true, bool_decide_eq_false_2 by assumption. cbn [negb].
  rewrite !(proj2 (Z.leb_gt _ _)) by lia. cbn [orb].
  pose proof (QuoteComponent_range _ _ _ _ HQ).
  assert (Hp : 0 <= NanoUSDPerMillion (price c)).
  { unfold QuoteComponent in HQ. case_if_in HQ; [discriminate|]. zbool. lia. }
  rewrite !(proj2 (Z.ltb_ge _ 0)) by lia. cbn [orb].
  rewrite (proj2 (Z.eqb_neq v 5)) by assumption. rewrite HQ, Z.eqb_refl, HA. reflexivity.
Qed.

(** What the loop guarantees about its result. *)
Record loopOk (v : Z) (pm : PriceMultipliers) (st : loopState) : Prop := {
  loop_lines : validateLines v pm ∅ 0 st.(lineItems) = Ok st.(cost);
  loop_cost : 0 <= st.(cost) <= max_int64;
  loop_zero : st.(pricedPositive) = false -> st.(cost) = 0
}.

Lemma codes_snoc lines l : codes (lines ++ [l]) = {[LineCode l]} ∪ codes lines.
Proof. unfold codes. rewrite map_app, list_to_set_app_L. cbn. set_solver. Qed.

Lemma quoteLoop_ok v pm (Hv : v <> 5) : forall cs st st',
  Forall componentOk cs -> NoDup (map code cs) ->
  (forall c, In c cs -> c.(code) ∉ codes st.(lineItems)) ->
  loopOk v pm st -> quoteLoop st cs = Some st' ->
  loopOk v pm st' /\
  (codes st'.(lineItems) ⊆ codes st.(lineItems) ∪ list_to_set (map code cs)).
Proof.
  induction cs as [|c cs IH]; intros st st' HF HN Hs Hok H; cbn [quoteLoop] in H.
  - injection H as <-. split; [exact Hok|]. clear. set_solver.
  - inversion HF as [|? ? Hc HF']; subst. cbn [map] in HN. apply NoDup_cons in HN as [Hnc HN].
    pose proof Hok as [HL HC HZ].
    assert (Hcs : code c ∉ codes (lineItems st) ∪ ∅) 
      by (apply not_elem_of_union; split; [exact (Hs c (or_introl eq_refl))|apply not_elem_of_empty]).
    assert (Hrest : forall st1 l, lineItems st1 = lineItems st ++ [l] -> LineCode l = code c ->
              forall c', In c' cs -> code c' ∉ codes (lineItems st1)).
    { intros st1 l E1 E2 c' Hin. rewrite E1, codes_snoc, E2.
      assert (code c' ∈ map code cs) by (apply list_elem_of_In, in_map; exact Hin).
      apply not_elem_of_union. split; [|exact (Hs c' (or_intror Hin))].
      apply not_elem_of_singleton. congruence. }
    case_if_in H; zbool.
    { destruct (IH st st' HF' HN) as [H1 H2]; auto.
      { intros c' Hin. apply Hs. now right. } split; [exact H1|].
      etransitivity; [exact H2|]. cbn. clear. set_solver. }
    destruct (IsSet (price c)) eqn:Eset; cbn [negb] in H.
    + destruct (QuoteComponent _ _ _) as [cc|] eqn:EQ; [|discriminate].
      destruct (CheckedAddNanoUSD _ _) as [tot|] eqn:EA; [|discriminate].
      apply IH in H as [H1 H2]; auto.
      * split; [exact H1|]. cbn [lineItems] in H2. rewrite codes_snoc in H2.
        etransitivity; [exact H2|]. cbn. clear. set_solver.
      * eapply Hrest; reflexivity.
      * apply CheckedAddNanoUSD_Some in EA as EA'.
        constructor; cbn [lineItems cost pricedPositive]; [|lia|discriminate].
        eapply validateLines_snoc; [exact HL|]. now apply validateLine_priced.
    + apply IH in H as [H1 H2]; auto.
      * split; [exact H1|]. cbn [lineItems] in H2. rewrite codes_snoc in H2.
        etransitivity; [exact H2|]. cbn. clear. set_solver.
      * eapply Hrest; reflexivity.
      * constructor; cbn [lineItems cost pricedPositive]; auto.
        eapply validateLines_snoc; [exact HL|]. now apply validateLine_unpriced.
Qed.

(** ** Receipts of [quoteSchedules] *)

Record issuedOk (rr : ReceiptRule) (q : Quote) (r : Receipt) : Prop := {
  iss_version : r.(SchemaVersion) = 4;
  iss_method : r.(Method) = ReceiptMethodUnitRateSum /\ r.(MethodVersion) = 1 /\ r.(ReceiptCurrency) = "USD";
  iss_mode : ModeValid r.(PricingMode) = true;
  iss_plain : r.(ReceiptMultipliers) = None /\ r.(BaseTotalNanoUSD) = None;
  iss_rule : r.(ReceiptRuleOf) = rr;
  iss_threshold : forall x, r.(ContextThresholdTokens) = Some x -> 0 <= x;
  iss_total : 0 <= r.(TotalNanoUSD) <= max_int64;
  iss_lines : forall v pm, v <> 5 -> validateLines v pm ∅ 0 r.(LineItems) = Ok r.(TotalNanoUSD);
  iss_quote : q.(QuoteState) = CostStatePriced /\ q.(EstimatedCostNanoUSD) = r.(TotalNanoUSD) \/
              q = unavailableQuote /\ r.(TotalNanoUSD) = 0
}.

Lemma components_ok t n prices : CheckedTotal t = Some n -> Forall componentOk (components t prices).
Proof.
  intros H. apply checkedLoop_Some in H as (HF & _ & _); [|unfold max_int64; lia].
  unfold tokenList in HF. rewrite !Forall_cons in HF.
  destruct HF as (? & ? & ? & ? & ? & ? & _).
  unfold components, componentOk, allowedCodes, directPriceMultiplier, cacheWriteOneHourMultiplier.
  repeat constructor; cbn; auto 10; lia.
Qed.

(** The final lines: the loop's, then the unknown cache-write line if any. *)
Lemma quote_lines_ok t n prices st part :
  CheckedTotal t = Some n ->
  quoteLoop (mkLoopState (t.(CacheWriteUnknown) >? 0) false part 0 []) (components t prices) = Some st ->
  let lines := if t.(CacheWriteUnknown) >? 0
    then st.(lineItems) ++ [mkReceiptLine "cache_write" t.(CacheWriteUnknown) None
                              directPriceMultiplier ReceiptLineUnpriced None]
    else st.(lineItems) in
  0 <= st.(cost) <= max_int64 /\ (st.(pricedPositive) = false -> st.(cost) = 0) /\
  forall v pm, v <> 5 -> validateLines v pm ∅ 0 lines = Ok st.(cost).
Proof.
  intros HT HQ lines.
  assert (Hgen : forall v pm, v <> 5 -> loopOk v pm st /\
            (codes st.(lineItems) ⊆ codes [] ∪ list_to_set (map code (components t prices)))).
  { intros v pm Hv. refine (quoteLoop_ok v pm Hv _ _ st _ _ _ _ HQ).
    - eapply components_ok, HT.
    - cbn. apply (bool_decide_unpack _). vm_compute. exact I.
    - cbn. intros c _. apply not_elem_of_empty.
    - constructor; cbn; [reflexivity|unfold max_int64; lia|reflexivity]. }
  destruct (Hgen 4 (mkPriceMultipliers 0 0) ltac:(lia)) as [[_ HC HZ] _].
  split; [exact HC|]. split; [exact HZ|]. intros v pm Hv.
  destruct (Hgen v pm Hv) as [[HL _ _] Hsub]. unfold lines.
  destruct (CacheWriteUnknown t >? 0) eqn:E; [|exact HL]. zbool.
  eapply validateLines_snoc; [exact HL|].
  pose (c := mkComponent "cache_write" t.(CacheWriteUnknown) (mkPrice 0 false) directPriceMultiplier).
  apply (validateLine_unpriced v pm _ st.(cost) c).
  - unfold componentOk, c, directPriceMultiplier. cbn. repeat split; try lia. auto 10.
  - cbn. lia.
  - intros Hin. apply elem_of_union in Hin as [Hin|Hin]; [|now apply not_elem_of_empty in Hin].
    apply Hsub in Hin. cbn [code c] in Hin.
    assert (Hnot : "cache_write" ∉ ((codes [] ∪ list_to_set (map code (components t prices))) : gset string))
      by (apply (bool_decide_unpack _); vm_compute; exact I).
    exact (Hnot Hin).
Qed.

Lemma selectSchedule_threshold base tiers input p th x :
  validateContextTiers tiers = None -> selectSchedulePrices base tiers input = (p, th) ->
  th = Some x -> 0 <= x.
Proof.
  intros HV HS. eapply selectTier_threshold; [| |exact HS]; [discriminate|].
  apply contextTiersLoop_thresholds in HV as [HF _].
  eapply Forall_impl; [exact HF|]. cbn. lia.
Qed.

Lemma selectMode_ok base tiers modes mode input m p th :
  validateSchedules base tiers modes = None ->
  selectMode base tiers modes mode input = (m, p, th) ->
  ModeValid m = true /\ forall x, th = Some x -> 0 <= x.
Proof.
  intros HV H. unfold selectMode in H.
  assert (Htiers : validateContextTiers tiers = None) by (unfold validateSchedules in HV; now no_error).
  destruct (selectSchedulePrices base tiers input) as [p0 th0] eqn:ES.
  assert (Hstd : (ModeStandard, p0, th0) = (m, p, th) ->
                 ModeValid m = true /\ forall x, th = Some x -> 0 <= x).
  { intros [= <- <- <-]. split; [vm_compute; reflexivity|].
    intros x. eapply selectSchedule_threshold; eassumption. }
  destruct th0; [auto|]. destruct (nonEmpty mode && _); [|auto].
  destruct (modes !! mode) as [sch|] eqn:Em; [|auto].
  pose proof (validateSchedules_mode _ _ _ _ _ HV Em) as Hm. unfold validateModeSchedule in Hm.
  no_error. zbool.
  destruct (selectSchedulePrices (SchedulePrices sch) (ScheduleTiers sch) input) as [p1 th1] eqn:ES1.
  injection H as <- <- <-. split; [assumption|].
  intros x. eapply selectSchedule_threshold; eassumption.
Qed.

Lemma quoteSchedules_issued base tiers modes found rr res mode q r :
  validateSchedules base tiers modes = None ->
  quoteSchedules base tiers modes found rr res mode = (q, Some r) -> issuedOk rr q r.
Proof.
  intros HV H. unfold quoteSchedules in H.
  destruct (ResState res); try discriminate.
  all: destruct found; cbn [negb] in H; [|discriminate].
  all: destruct (CheckedTotal (ResTokens res)) as [n|] eqn:HT; [|discriminate].
  all: destruct (checkedInputTokens (ResTokens res)) as [input|]; [|discriminate].
  all: destruct (selectMode base tiers modes mode input) as [[m p] th] eqn:ES.
  all: destruct (selectMode_ok _ _ _ _ _ _ _ _ HV ES) as [Hm Hth].
  all: destruct (quoteLoop _ _) as [st|] eqn:EQ; [|discriminate].
  all: destruct (quote_lines_ok _ n _ _ _ HT EQ) as (HC & HZ & HL).
  all: destruct (positiveBillable st && negb (pricedPositive st)) eqn:EP; injection H as <- <-.
  all: constructor; cbn; auto.
  all: apply andb_true_iff in EP as [_ EP]; apply negb_true_iff in EP; auto.
Qed.

Lemma applyPriceMultipliers_nonneg a pm x : applyPriceMultipliers a pm = Some x -> 0 <= x.
Proof.
  unfold applyPriceMultipliers, MultiplierValid. intros H. case_if_in H; [discriminate|].
  case_if_in H; [discriminate|]. injection H as <-. zbool.
  apply roundHalfUp_nonneg; [|unfold DefaultPriceMultiplier]; nia.
Qed.

Lemma applyPriceMultipliers_zero pm : multipliersOk pm = true -> applyPriceMultipliers 0 pm = Some 0.
Proof.
  unfold multipliersOk, applyPriceMultipliers. intros H. zbool. rewrite H, H0. reflexivity.
Qed.

(** A plain (schema 4) receipt validates under a valid channel identity. *)
Lemma plain_validates rr q r :
  issuedOk rr q r -> validateReceiptRule rr 4 = None -> ValidateReceipt r = None.
Proof.
  intros [Hv (HM & HMV & HC) Hmode [Hpm Hbase] Hrule Hth Htot Hlines _] Hrr.
  unfold ValidateReceipt, validateHeader. rewrite Hv, Hpm, Hbase, HM, HMV, HC, Hrule, Hmode, Hrr.
  rewrite Hlines by lia. rewrite !Z.eqb_refl. rewrite (proj2 (Z.ltb_ge _ 0)) by lia.
  assert (Ht : match ContextThresholdTokens r with Some th => th <? 0 | None => false end = false).
  { destruct (ContextThresholdTokens r) as [x|]; [|reflexivity]. apply Z.ltb_ge. now apply Hth. }
  rewrite Ht. reflexivity.
Qed.

(** An adjusted (schema 6 or 7) receipt validates. *)
Lemma adjusted_validates rr q r pm v q' r' :
  issuedOk rr q r -> (v = 6 \/ v = 7) -> validateReceiptRule rr v = None ->
  applyQuoteMultipliers q (Some r) pm v = (q', Some r') -> ValidateReceipt r' = None.
Proof.
  intros [_ (HM & HMV & HC) Hmode _ Hrule Hth Htot Hlines Hq] Hv Hrr H.
  unfold applyQuoteMultipliers in H.
  destruct (negb _ || negb _) eqn:Epm; [discriminate|]. apply orb_false_iff in Epm as [Eg Ek].
  apply negb_false_iff in Eg, Ek.
  assert (Hok : multipliersOk pm = true) by (unfold multipliersOk; now rewrite Eg, Ek).
  assert (Ht : match ContextThresholdTokens r with Some th => th <? 0 | None => false end = false).
  { destruct (ContextThresholdTokens r) as [x|]; [|reflexivity]. apply Z.ltb_ge. now apply Hth. }
  assert (Hadj : exists adj, applyPriceMultipliers r.(TotalNanoUSD) pm = Some adj /\ 0 <= adj /\
     r' = mkReceipt v r.(Method) r.(MethodVersion) r.(ReceiptCurrency) r.(PricingMode) (Some pm)
            (Some r.(TotalNanoUSD)) r.(ReceiptRuleOf) r.(ContextThresholdTokens) r.(LineItems) adj).
  { destruct Hq as [[Hs He]|[-> Hz]].
    - rewrite bool_decide_eq_true_2 in H by exact Hs. rewrite He in H.
      destruct (applyPriceMultipliers _ pm) as [adj|] eqn:EA; [|discriminate].
      injection H as _ <-. exists adj. split; [reflexivity|]. split; [|reflexivity].
      now apply applyPriceMultipliers_nonneg in EA.
    - cbn in H. injection H as _ <-. exists 0. rewrite Hz, applyPriceMultipliers_zero by exact Hok.
      repeat split; lia. }
  destruct Hadj as (adj & Ha & Ha0 & ->).
  unfold ValidateReceipt, validateHeader.
  match goal with |- context [effectiveMultipliers ?x] =>
    replace (effectiveMultipliers x) with pm by (now destruct Hv as [-> | ->]) end.
  cbn [SchemaVersion Method MethodVersion ReceiptCurrency PricingMode ReceiptMultipliers BaseTotalNanoUSD
       ReceiptRuleOf ContextThresholdTokens LineItems TotalNanoUSD].
  rewrite HM, HMV, HC, Hrule, Hmode, Hrr, Hok, Ht. rewrite Hlines by (destruct Hv; lia).
  rewrite Ha, !Z.eqb_refl, !(proj2 (Z.ltb_ge _ 0)) by lia.
  rewrite (bool_decide_eq_true_2 (Some (TotalNanoUSD r) = _)) by reflexivity.
  destruct Hv as [-> | ->]; reflexivity.
Qed.

(** ** Receipts of a constructed table *)

Inductive issued (t : Table) : Receipt -> Prop :=
| issued_standard id res mode q r :
    QuoteForModeWithReceipt (Some t) id res mode = (q, Some r) -> issued t r
| issued_upstream id res mode pm q r :
    QuoteForModeWithMultipliers (Some t) id res mode pm = (q, Some r) -> issued t r
| issued_client model res mode key q r :
    QuoteClientModel (Some t) model res mode key = (q, Some r) -> issued t r.

Lemma not_found_none base tiers modes rr res mode :
  snd (quoteSchedules base tiers modes false rr res mode) = None.
Proof. unfold quoteSchedules. now destruct (ResState res). Qed.

Lemma upstream_issued t id res mode q r : table_ok t ->
  QuoteForModeWithReceipt (Some t) id res mode = (q, Some r) ->
  let rr := mkReceiptRule "" id.(ChannelID) id.(ModelID) "" in
  issuedOk rr q r /\ validateReceiptRule rr 4 = None /\ validateReceiptRule rr 6 = None.
Proof.
  intros [Hrules _] H rr. unfold QuoteForModeWithReceipt, Lookup in H.
  destruct (rules t !! id) as [rule|] eqn:El.
  - destruct (Hrules _ _ El) as [Hid Hok]. unfold validateRule in Hok. no_error.
    split; [eapply quoteSchedules_issued; eassumption|].
    rewrite Hid in H0. destruct id as [ch mo]. cbn in *.
    unfold validateReceiptRule. cbn. now rewrite H0.
  - pose proof (not_found_none zeroPrices [] ∅ (mkReceiptRule "" (ChannelID id) (ModelID id) "") res mode) as Hn.
    rewrite H in Hn. discriminate.
Qed.

(** [C26] Issued receipts validate.  Every receipt a validated price table
    issues - for a plain quote, for an upstream cost with price multipliers, or
    for a client-model charge - passes [ValidateReceipt]: its lines recompute,
    their checked sum is the base total, and the total is that sum with all
    multipliers applied once. *)
Theorem issued_receipts_validate (rs : list Rule) (cs : list ClientRule) (t : Table) (r : Receipt)
    (Ht : NewTableWithClientRules rs cs = Ok t) (Hr : issued t r) : ValidateReceipt r = None.
Proof.
  apply NewTable_ok in Ht. destruct Hr as [id res mode q r H|id res mode pm q r H|model res mode key q r H].
  - destruct (upstream_issued _ _ _ _ _ _ Ht H) as (H1 & H2 & _). eapply plain_validates; eassumption.
  - unfold QuoteForModeWithMultipliers in H.
    destruct (QuoteForModeWithReceipt (Some t) id res mode) as [q0 [r0|]] eqn:E.
    + destruct (upstream_issued _ _ _ _ _ _ Ht E) as (H1 & _ & H2).
      eapply adjusted_validates; [exact H1|left; reflexivity|exact H2|exact H].
    + unfold applyQuoteMultipliers in H. destruct (negb _ || negb _); discriminate.
  - unfold QuoteClientModel in H. destruct Ht as [_ Hc].
    destruct (clientRules t !! model) as [rule|] eqn:El.
    + destruct (Hc _ _ El) as (_ & Hm & Hs).
      destruct (quoteSchedules _ _ _ _ _ _ _) as [q0 [r0|]] eqn:E.
      * eapply adjusted_validates; [eapply quoteSchedules_issued; eassumption|right; reflexivity| |exact H].
        unfold validateReceiptRule. cbn. now rewrite Hm.
      * unfold applyQuoteMultipliers in H. destruct (negb _ || negb _); discriminate.
    + pose proof (not_found_none zeroPrices [] ∅ (mkReceiptRule "" "" "" model) res mode) as Hn.
      destruct (quoteSchedules _ _ _ _ _ _ _) as [q0 r0]. cbn in Hn. subst r0.
      unfold applyQuoteMultipliers in H. destruct (negb _ || negb _); discriminate.
Qed.

Definition sampleRule : Rule :=
  mkRule (mkIdentity "openai" "gpt-5")
    (mkPrices (mkPrice 1250000000 true) (mkPrice 10000000000 true) (mkPrice 125000000 true) (mkPrice 0 false))
    [] {[ "fast" := mkSchedule (mkPrices (mkPrice 2500000000 true) (mkPrice 20000000000 true)
                                  (mkPrice 250000000 true) (mkPrice 0 false)) [] ]} false.

Definition sampleResult : Result :=
  mkResult (mkTokens 1234 567 0 0 0 891) StateComplete noDiagnostics.

Definition sampleTable : Table := mkTable {[ mkIdentity "openai" "gpt-5" := sampleRule ]} ∅.

Definition sampleReceipt : Receipt :=
  default (mkReceipt 0 "" 0 "" "" None None (mkReceiptRule "" "" "" "") None [] 0)
    (snd (QuoteForModeWithMultipliers (Some sampleTable) (mkIdentity "openai" "gpt-5") sampleResult "fast"
            (mkPriceMultipliers 1100000 900000))).

Lemma issued_receipts_validate_witness :
  TotalNanoUSD sampleReceipt = 20836283 /\ ValidateReceipt sampleReceipt = None.
Proof.
  split; [vm_compute; reflexivity|].
  apply (issued_receipts_validate [sampleRule] [] sampleTable); [vm_compute; reflexivity|].
  apply (issued_upstream sampleTable (mkIdentity "openai" "gpt-5") sampleResult "fast"
           (mkPriceMultipliers 1100000 900000)
           (fst (QuoteForModeWithMultipliers (Some sampleTable) (mkIdentity "openai" "gpt-5") sampleResult "fast"
                   (mkPriceMultipliers 1100000 900000)))).
  vm_compute. reflexivity.
Defined.

(** ** The persisted usage/cost matrix *)

Lemma quoteSchedules_cost base tiers modes found rr res mode :
  (forall raw, res.(ResState) <> StateOther raw) ->
  let '(q, r) := quoteSchedules base tiers modes found rr res mode in
  ValidateCost res.(ResState) q.(QuoteState) q.(EstimatedCostNanoUSD) = None /\
  (forall x, r = Some x -> res.(ResState) = StateComplete \/ res.(ResState) = StatePartial) /\
  (r = None -> q.(QuoteState) <> CostStatePriced).
Proof.
  intros Hs. unfold quoteSchedules. destruct (ResState res) eqn:Es; try (repeat split; cbn; congruence).
  all: destruct found; cbn [negb]; [|repeat split; cbn; congruence].
  all: destruct (CheckedTotal (ResTokens res)) as [n|] eqn:HT; [|repeat split; cbn; congruence].
  all: destruct (checkedInputTokens (ResTokens res)) as [input|]; [|repeat split; cbn; congruence].
  all: destruct (selectMode base tiers modes mode input) as [[m p] th].
  all: destruct (quoteLoop _ _) as [st|] eqn:EQ; [|repeat split; cbn; congruence].
  all: destruct (quote_lines_ok _ n _ _ _ HT EQ) as (HC & _ & _).
  all: destruct (positiveBillable st && negb (pricedPositive st)).
  all: split; [|split; [auto|intros; discriminate]].
  all: unfold ValidateCost, unavailableQuote; cbn [QuoteState EstimatedCostNanoUSD];
    rewrite ?(proj2 (Z.ltb_ge _ 0)) by lia; reflexivity.
Qed.

Lemma applyMultipliers_cost s q r pm v :
  multipliersOk pm = true ->
  ValidateCost s q.(QuoteState) q.(EstimatedCostNanoUSD) = None ->
  (forall x, r = Some x -> s = StateComplete \/ s = StatePartial) ->
  (r = None -> q.(QuoteState) <> CostStatePriced) ->
  let q' := fst (applyQuoteMultipliers q r pm v) in
  ValidateCost s q'.(QuoteState) q'.(EstimatedCostNanoUSD) = None.
Proof.
  intros Hok HV Hr Hn. unfold applyQuoteMultipliers. unfold multipliersOk in Hok. zbool.
  rewrite H, H0. cbn [negb orb]. destruct r as [x|]; [|exact HV].
  specialize (Hr x eq_refl).
  destruct (bool_decide (QuoteState q = CostStatePriced)) eqn:Eb; [|exact HV].
  apply bool_decide_eq_true_1 in Eb.
  destruct (applyPriceMultipliers _ pm) as [adj|] eqn:EA; cbn [fst QuoteState EstimatedCostNanoUSD].
  - apply applyPriceMultipliers_nonneg in EA. rewrite Eb. unfold ValidateCost.
    rewrite (proj2 (Z.ltb_ge _ 0)) by lia. now destruct Hr as [-> | ->].
  - now destruct Hr as [-> | ->].
Qed.

(** Every quote is a legal persisted cost.  For a usage result in one of
    the four declared states and valid multipliers, the quoted cost state and
    amount satisfy [usagecost.Validate]: the amount is non-negative, it is zero
    unless priced, and the state pair is allowed - also on every error path
    (missing rule, overflow). *)
Theorem quotes_satisfy_cost_matrix (table : option Table) (id : Identity) (res : Result)
    (mode : string) (pm : PriceMultipliers)
    (Hs : forall raw, res.(ResState) <> StateOther raw) (Hpm : multipliersOk pm = true) :
  let q := fst (QuoteForModeWithMultipliers table id res mode pm) in
  ValidateCost res.(ResState) q.(QuoteState) q.(EstimatedCostNanoUSD) = None.
Proof.
  unfold QuoteForModeWithMultipliers, QuoteForModeWithReceipt.
  destruct (Lookup table id) as [rule|].
  - pose proof (quoteSchedules_cost (RulePrices rule) (RuleTiers rule) (RuleModes rule) true
      (mkReceiptRule "" (ChannelID id) (ModelID id) "") res mode Hs) as H.
    destruct (quoteSchedules _ _ _ _ _ _ _) as [q r]. destruct H as (H1 & H2 & H3).
    now apply applyMultipliers_cost.
  - pose proof (quoteSchedules_cost zeroPrices [] ∅ false
      (mkReceiptRule "" (ChannelID id) (ModelID id) "") res mode Hs) as H.
    destruct (quoteSchedules _ _ _ _ _ _ _) as [q r]. destruct H as (H1 & H2 & H3).
    now apply applyMultipliers_cost.
Qed.

Lemma quotes_satisfy_cost_matrix_witness :
  let q := fst (QuoteForModeWithMultipliers (Some sampleTable) (mkIdentity "openai" "gpt-5") sampleResult
                  "standard" (mkPriceMultipliers 1000000 500000)) in
  ValidateCost StateComplete q.(QuoteState) q.(EstimatedCostNanoUSD) = None.
Proof.
  apply (quotes_satisfy_cost_matrix (Some sampleTable) (mkIdentity "openai" "gpt-5") sampleResult);
    [discriminate|reflexivity].
Defined.

End Receipt.
