(* ===== verification/Credential.v ===== *)
(** * Credential data

    The credential records of [internal/state]: the registry entry, the detached
    views handed to the scheduler and to management callers, the runtime
    classification, and the validation and copy helpers.

    A [time.Time] is a [Z] (nanoseconds on the time line, with the zero time at
    [0]); [uint] and [uint64] values are non-negative [Z].  A Go pointer to an
    optional scalar is an [option].  Deep-copy helpers of the source
    ([cloneWeight], [cloneFloat], [cloneModelCooldowns]) are the identity on
    values, because every entry owns its maps and pointers exclusively. *)

From Stdlib Require Import ZArith QArith Lia Bool String Ascii List.
From stdpp Require Import base gmap sets list strings.
From coqutil Require Import Datatypes.RecordSettersUsingExistingGetters.
From S2P Require Import Prelude GoStrings.

Local Open Scope Z_scope.
Local Open Scope go_scope.

(** Record updates reduce under [cbn]. *)
#[global] Arguments RecordSettersUsingExistingGetters.const {E} newValue _ /.

Module Credential.

(** ** Enumerations *)

Inductive CredentialStatus :=
| CredentialStatusActive | CredentialStatusDisabled | CredentialStatusOther (raw : string).

Inductive CredentialAuthState :=
| CredentialAuthStateReady | CredentialAuthStateRefreshing
| CredentialAuthStateReauthorizationRequired | CredentialAuthStateOutcomeUnknown
| CredentialAuthStateOther (raw : string).

#[export] Instance CredentialStatus_eq_dec : EqDecision CredentialStatus.
Proof. solve_decision. Defined.
#[export] Instance CredentialAuthState_eq_dec : EqDecision CredentialAuthState.
Proof. solve_decision. Defined.

(** The empty string, the unset auth state of a Go zero value. *)
Definition authStateUnset : CredentialAuthState := CredentialAuthStateOther "".

Definition normalize (state : CredentialAuthState) : CredentialAuthState :=
  if bool_decide (state = authStateUnset) then CredentialAuthStateReady else state.

Definition authStateValid (state : CredentialAuthState) : bool :=
  match normalize state with
  | CredentialAuthStateReady | CredentialAuthStateRefreshing
  | CredentialAuthStateReauthorizationRequired | CredentialAuthStateOutcomeUnknown => true
  | CredentialAuthStateOther _ => false
  end.

Definition statusValid (status : CredentialStatus) : bool :=
  match status with
  | CredentialStatusActive | CredentialStatusDisabled => true
  | CredentialStatusOther _ => false
  end.

(** A [float64] as far as the registry inspects it. *)
Inductive float64 := FNaN | FInf (negative : bool) | FFin (q : Q).

(** ** Entries and detached views *)

Record CredentialEntry := mkEntry {
  Name : string;
  ID : Z;
  GroupID : Z;
  Version : Z;
  IdentityGeneration : Z;
  Fingerprint : string;
  WeightManual : option Z;
  ConcurrencyLimit : Z;
  Status : CredentialStatus;
  AuthState : CredentialAuthState;
  CooldownUntil : Z;
  ModelCooldowns : gmap string Z;
  ModelCooldownGeneration : Z;
  Blacklisted : bool;
  FailureCount : Z;
  FailureGeneration : Z;
  EncryptedValue : string;
  EncryptedProxy : string;
  ProxyFingerprint : string;
  quotaRemaining : option float64;
  quotaResetAt : Z;
  sharedEpoch : string;
  sharedVersion : Z;
}.

Record CredentialMeta := mkMeta {
  meta_ID : Z;
  meta_GroupID : Z;
  meta_Version : Z;
  meta_IdentityGeneration : Z;
  meta_WeightManual : option Z;
  meta_ModelCooldowns : gmap string Z;
}.

Record CredentialRef := mkRef {
  ref_Name : string;
  ref_ID : Z;
  ref_GroupID : Z;
  ref_Version : Z;
  ref_IdentityGeneration : Z;
  ref_Fingerprint : string;
  ref_EncryptedValue : string;
  ref_EncryptedProxy : string;
  ref_ProxyFingerprint : string;
  ref_FailureGeneration : Z;
  ref_ModelCooldownGeneration : Z;
  ref_ConcurrencyLimit : Z;
}.

Record CredentialRuntimeView := mkView {
  view_ID : Z;
  view_GroupID : Z;
  view_Version : Z;
  view_IdentityGeneration : Z;
  view_ProxyFingerprint : string;
  view_WeightManual : option Z;
  view_ConcurrencyLimit : Z;
  view_Status : CredentialStatus;
  view_AuthState : CredentialAuthState;
  view_CooldownUntil : Z;
  view_ModelCooldowns : gmap string Z;
  view_Blacklisted : bool;
  view_FailureCount : Z;
  view_QuotaRemaining : option float64;
  view_QuotaResetAt : Z;
}.

Inductive CredentialRuntimeState :=
| CredentialRuntimeAvailable | CredentialRuntimeDisabled
| CredentialRuntimeBlacklisted | CredentialRuntimeCooldown.

#[export] Instance CredentialRuntimeState_eq_dec : EqDecision CredentialRuntimeState.
Proof. solve_decision. Defined.

Definition AuthReady (view : CredentialRuntimeView) : bool :=
  bool_decide (normalize view.(view_AuthState) = CredentialAuthStateReady).

Definition RuntimeState (view : CredentialRuntimeView) (now : Z) : CredentialRuntimeState :=
  if bool_decide (view.(view_Status) <> CredentialStatusActive) then CredentialRuntimeDisabled
  else if view.(view_Blacklisted) then CredentialRuntimeBlacklisted
  else if view.(view_CooldownUntil) >? now then CredentialRuntimeCooldown
  else CredentialRuntimeAvailable.

Definition runtimeView (entry : CredentialEntry) : CredentialRuntimeView :=
  mkView entry.(ID) entry.(GroupID) entry.(Version) entry.(IdentityGeneration)
    entry.(ProxyFingerprint) entry.(WeightManual) entry.(ConcurrencyLimit) entry.(Status)
    (normalize entry.(AuthState)) entry.(CooldownUntil) entry.(ModelCooldowns)
    entry.(Blacklisted) entry.(FailureCount) entry.(quotaRemaining) entry.(quotaResetAt).

Definition credentialRef (entry : CredentialEntry) : CredentialRef :=
  mkRef entry.(Name) entry.(ID) entry.(GroupID) entry.(Version) entry.(IdentityGeneration)
    entry.(Fingerprint) entry.(EncryptedValue) entry.(EncryptedProxy) entry.(ProxyFingerprint)
    entry.(FailureGeneration) entry.(ModelCooldownGeneration) entry.(ConcurrencyLimit).

Definition sameCredentialIdentity (entry : CredentialEntry) (ref : CredentialRef) : bool :=
  (entry.(GroupID) =? ref.(ref_GroupID)) && (entry.(Version) =? ref.(ref_Version)) &&
  (entry.(IdentityGeneration) =? ref.(ref_IdentityGeneration)) &&
  String.eqb entry.(Fingerprint) ref.(ref_Fingerprint) &&
  String.eqb entry.(EncryptedValue) ref.(ref_EncryptedValue) &&
  String.eqb entry.(EncryptedProxy) ref.(ref_EncryptedProxy) &&
  String.eqb entry.(ProxyFingerprint) ref.(ref_ProxyFingerprint).

(** ** Manual weights *)

Definition DefaultWeight : Z := 50.
Definition MaxWeight : Z := 100.
Definition MaxCredentialConcurrencyLimit : Z := 10000.

(** [validateManualWeight]; [true] when the weight is rejected. *)
Definition manualWeightInvalid (weight : option Z) : bool :=
  match weight with Some w => (w <? 0) || (w >? MaxWeight) | None => false end.

Definition ConfiguredWeight (weight : option Z) : Z := default DefaultWeight weight.

(** ** Validation *)

Inductive RegistryError :=
| CredentialIDRequired | GroupIDRequired (id : Z) | InvalidStatus (status : CredentialStatus)
| InvalidAuthState (id : Z) | InvalidManualWeight (id : Z) | InvalidConcurrencyLimit (id : Z)
| EncryptedValueRequired (id : Z) | ProxyIdentityIncomplete (id : Z) | VersionRequired (id : Z)
| IdentityGenerationRequired (id : Z) | FingerprintRequired (id : Z) | DuplicateCredential (id : Z)
| EntriesRequired | WrongGroup (id actual want : Z) | CredentialNotFound (id : Z)
| NilDereference.

Definition stringEmpty (s : string) : bool := String.eqb s "".

Definition validateEntry (seen : gset Z) (entry : CredentialEntry) : option RegistryError :=
  let id := entry.(ID) in
  err_if (id =? 0) CredentialIDRequired ;;!
  err_if (entry.(GroupID) =? 0) (GroupIDRequired id) ;;!
  err_if (negb (statusValid entry.(Status))) (InvalidStatus entry.(Status)) ;;!
  err_if (negb (authStateValid entry.(AuthState))) (InvalidAuthState id) ;;!
  err_if (manualWeightInvalid entry.(WeightManual)) (InvalidManualWeight id) ;;!
  err_if ((entry.(ConcurrencyLimit) <? 0) || (entry.(ConcurrencyLimit) >? MaxCredentialConcurrencyLimit))
    (InvalidConcurrencyLimit id) ;;!
  err_if (stringEmpty entry.(EncryptedValue)) (EncryptedValueRequired id) ;;!
  err_if (negb (Bool.eqb (stringEmpty entry.(EncryptedProxy)) (stringEmpty entry.(ProxyFingerprint))))
    (ProxyIdentityIncomplete id) ;;!
  err_if (entry.(Version) =? 0) (VersionRequired id) ;;!
  err_if (entry.(IdentityGeneration) =? 0) (IdentityGenerationRequired id) ;;!
  err_if (bool_decide (trim_space (bytes entry.(Fingerprint)) = [])) (FingerprintRequired id) ;;!
  err_if (bool_decide (id ∈ seen)) (DuplicateCredential id).

Fixpoint validateEntries (seen : gset Z) (entries : list CredentialEntry) : option RegistryError :=
  match entries with
  | [] => None
  | entry :: rest => validateEntry seen entry ;;! validateEntries ({[ entry.(ID) ]} ∪ seen) rest
  end.

Definition ValidateCredentialEntries (entries : list CredentialEntry) : option RegistryError :=
  validateEntries ∅ entries.

(** ** Copies and configuration replacement *)

(** Configuration replacement resets the failure generation of the copy. *)
Definition cloneCredentialEntry (entry : CredentialEntry) : CredentialEntry :=
  entry <| FailureGeneration := 0 |>.

Definition detachCredentialEntryExact (entry : CredentialEntry) : CredentialEntry := entry.

Definition samePersistedCredentialConfig (left right : CredentialEntry) : bool :=
  (left.(ID) =? right.(ID)) && (left.(GroupID) =? right.(GroupID)) &&
  (left.(Version) =? right.(Version)) &&
  (left.(IdentityGeneration) =? right.(IdentityGeneration)) &&
  String.eqb left.(Fingerprint) right.(Fingerprint) &&
  bool_decide (left.(Status) = right.(Status)) &&
  String.eqb left.(EncryptedValue) right.(EncryptedValue) &&
  String.eqb left.(EncryptedProxy) right.(EncryptedProxy) &&
  String.eqb left.(ProxyFingerprint) right.(ProxyFingerprint) &&
  (left.(ConcurrencyLimit) =? right.(ConcurrencyLimit)) &&
  match left.(WeightManual), right.(WeightManual) with
  | Some l, Some r => l =? r
  | None, None => true
  | _, _ => false
  end.

Definition preserveSharedHealth (next : CredentialEntry) (previous : option CredentialEntry)
    : CredentialEntry :=
  match previous with
  | Some p =>
    if negb (next.(ID) =? p.(ID)) || negb (next.(GroupID) =? p.(GroupID)) ||
       negb (next.(IdentityGeneration) =? p.(IdentityGeneration))
    then next <| ModelCooldowns := ∅ |> <| ModelCooldownGeneration := 0 |> <| FailureGeneration := 0 |>
    else
      let kept :=
        next <| CooldownUntil := p.(CooldownUntil) |> <| Blacklisted := p.(Blacklisted) |>
             <| FailureCount := p.(FailureCount) |> <| FailureGeneration := p.(FailureGeneration) |>
             <| ModelCooldowns := p.(ModelCooldowns) |>
             <| ModelCooldownGeneration := p.(ModelCooldownGeneration) |>
             <| sharedEpoch := p.(sharedEpoch) |> <| sharedVersion := p.(sharedVersion) |> in
      if next.(Version) =? p.(Version) then kept <| AuthState := p.(AuthState) |> else kept
  | None => next <| ModelCooldowns := ∅ |> <| ModelCooldownGeneration := 0 |> <| FailureGeneration := 0 |>
  end.

Definition setEntryAuthState (entry : CredentialEntry) (authState : CredentialAuthState)
    : CredentialEntry :=
  let entry := entry <| AuthState := normalize authState |> in
  if bool_decide (entry.(AuthState) <> CredentialAuthStateReady)
  then entry <| quotaRemaining := None |> <| quotaResetAt := 0 |> else entry.

(** Expired and unnamed model cooldowns are dropped. *)
Definition pruneModelCooldowns (limits : gmap string Z) (now : Z) : gmap string Z :=
  filter (fun kv => kv.1 <> ""%string /\ kv.2 > now) limits.

(** ** Facts used by the registry *)

Lemma normalize_idem state : normalize (normalize state) = normalize state.
Proof.
  unfold normalize, authStateUnset.
  destruct (bool_decide (state = _)) eqn:E; [reflexivity|]. now rewrite E.
Qed.

Lemma samePersisted_spec l r :
  samePersistedCredentialConfig l r = true <->
  ID l = ID r /\ GroupID l = GroupID r /\ Version l = Version r /\
  IdentityGeneration l = IdentityGeneration r /\ Fingerprint l = Fingerprint r /\
  Status l = Status r /\ EncryptedValue l = EncryptedValue r /\
  EncryptedProxy l = EncryptedProxy r /\ ProxyFingerprint l = ProxyFingerprint r /\
  ConcurrencyLimit l = ConcurrencyLimit r /\ WeightManual l = WeightManual r.
Proof.
  unfold samePersistedCredentialConfig.
  rewrite !andb_true_iff, !Z.eqb_eq, !String.eqb_eq, bool_decide_eq_true.
  destruct (WeightManual l), (WeightManual r); rewrite ?Z.eqb_eq; intuition congruence.
Qed.

Lemma clone_same_config e : samePersistedCredentialConfig (cloneCredentialEntry e) e = true.
Proof. apply samePersisted_spec. cbn. tauto. Qed.

(** Replacing the configuration keeps every persisted field and the name. *)
Lemma preserve_same_config e p : samePersistedCredentialConfig (preserveSharedHealth e p) e = true.
Proof.
  apply samePersisted_spec. unfold preserveSharedHealth.
  destruct p as [p|]; [|cbn; tauto]. destruct (_ || _ || _); [cbn; tauto|].
  destruct (Version e =? Version p); cbn; tauto.
Qed.

Lemma preserve_name e p : Name (preserveSharedHealth e p) = Name e.
Proof.
  unfold preserveSharedHealth. destruct p as [p|]; [|reflexivity].
  destruct (_ || _ || _); [reflexivity|]. now destruct (Version e =? Version p).
Qed.

Lemma same_config_trans a b c :
  samePersistedCredentialConfig a b = true -> samePersistedCredentialConfig b c = true ->
  samePersistedCredentialConfig a c = true.
Proof. rewrite !samePersisted_spec. intuition congruence. Qed.

End Credential.
