(* ===== verification/Ledger.v ===== *)
(** * Scheduling ledger

    The allocation ledger of [internal/state/scheduling.go] and the model
    rotation of [model_rotation.go]: 128-bit progress coordinates, ledger
    members and their admission, synchronisation with credentials and groups,
    and the per-group round-robin cursors over the upstream models of one
    external name.

    The mutex serialises every operation, so each operation is one function on
    the ledger.  The wall clock read by [syncCredentialLocked] and the random
    source [jitter] are arguments: [jitter] is a stream of draws indexed by the
    number of draws made so far ([draws]). *)

From Stdlib Require Import ZArith Lia Bool String Ascii List Permutation Sorted.
From stdpp Require Import base gmap sets list strings sorting.
From coqutil Require Import Datatypes.RecordSettersUsingExistingGetters.
From S2P Require Import Prelude GoStrings Credential.
Import Credential.

Local Open Scope Z_scope.

Module Ledger.

(** ** Progress coordinates *)

Record SchedulingProgress := mkProgress { Whole : Z; Fraction : Z }.

#[export] Instance SchedulingProgress_eq_dec : EqDecision SchedulingProgress.
Proof. solve_decision. Defined.

Definition zeroProgress : SchedulingProgress := mkProgress 0 0.

Definition Compare (p other : SchedulingProgress) : comparison :=
  match Z.compare p.(Whole) other.(Whole) with
  | Eq => Z.compare p.(Fraction) other.(Fraction)
  | order => order
  end.

(** [bits.Add64] with no carry in: the wrapped sum and the carry out. *)
Definition add64 (x y : Z) : Z * Z := (wrap_u64 (x + y), if x + y >=? two64 then 1 else 0).

(** [bits.Div64(1, 0, weight)] for [weight > 1]: the quotient of [2^64]. *)
Definition div64 (weight : Z) : Z := two64 / weight.

Definition Advance (p : SchedulingProgress) (weight : Z) : SchedulingProgress * bool :=
  if weight =? 0 then (p, false)
  else
    let '(fraction, carry) :=
      if weight =? 1 then (p.(Fraction), 1) else add64 p.(Fraction) (div64 weight) in
    let '(whole, carry) := add64 p.(Whole) carry in
    (mkProgress whole fraction, carry =? 0).

(** ** Members and the ledger *)

Record SchedulingMember := mkMember {
  member_ID : Z;
  member_GroupID : Z;
  member_IdentityGeneration : Z;
  Progress : SchedulingProgress;
  LastSelected : Z;
  Pending : bool;
  suspended : bool;
  staggered : bool;
  cooldownUntil : Z;
}.

Definition Admit (m : SchedulingMember) (baseline : SchedulingProgress) : SchedulingMember :=
  let m := match Compare m.(Progress) baseline with
           | Lt => m <| Progress := baseline |>
           | _ => m
           end in
  m <| Pending := false |> <| suspended := false |> <| staggered := true |>.

Record GroupModelKey := mkModelKey { key_GroupID : Z; ExternalModel : string }.

#[export] Instance GroupModelKey_eq_dec : EqDecision GroupModelKey.
Proof. solve_decision. Defined.
#[export] Program Instance GroupModelKey_countable : Countable GroupModelKey :=
  inj_countable' (fun k => (key_GroupID k, ExternalModel k)) (fun p => mkModelKey p.1 p.2) _.
Next Obligation. now intros []. Qed.

Record SchedulingLedger := mkLedger {
  Members : gmap Z SchedulingMember;
  ModelCursors : gmap GroupModelKey (list string);
  Groups : gmap Z bool;
  GroupPriorities : gmap Z Z;
  GroupRevision : Z;
  GroupsKnown : bool;
  Started : bool;
  Watermark : SchedulingProgress;
  Sequence : Z;
  LastMember : Z;
  Consecutive : Z;
  jitter : option (nat -> Z -> Z);
  draws : nat;
}.

(** [NewSchedulingState]: a deterministic ledger. *)
Definition NewSchedulingState : SchedulingLedger :=
  mkLedger ∅ ∅ ∅ ∅ 0 false false zeroProgress 0 0 0 None 0.

(** [NewStaggeredSchedulingState]: the production ledger, with a random source. *)
Definition NewStaggeredSchedulingState (random : nat -> Z -> Z) : SchedulingLedger :=
  NewSchedulingState <| jitter := Some random |>.

(** Documented behaviour of [rand.Uint64N]: a draw lies in [[0, n)]. *)
Definition jitterLawful (random : nat -> Z -> Z) : Prop :=
  forall k n, 0 < n -> 0 <= random k n < n.

Definition groupEnabled (d : SchedulingLedger) (groupID : Z) : bool :=
  default false (d.(Groups) !! groupID).

(** [Stagger]: the member it leaves and the ledger with the draw consumed. *)
Definition Stagger (d : SchedulingLedger) (member : SchedulingMember) (weight : Z)
    : SchedulingLedger * SchedulingMember :=
  match d.(jitter) with
  | None => (d, member)
  | Some random =>
    if member.(staggered) || member.(Pending) || (weight =? 0) then (d, member)
    else
      let step := if weight >? 1 then div64 weight else max_uint64 in
      let '(fraction, carry) := add64 member.(Progress).(Fraction) (random d.(draws) step) in
      let whole := wrap_u64 (member.(Progress).(Whole) + carry) in
      (d <| draws := S d.(draws) |>,
       member <| Progress := mkProgress whole fraction |> <| staggered := true |>)
  end.

(** ** Credential synchronisation *)

Definition removeLocked (d : SchedulingLedger) (id : Z) : SchedulingLedger :=
  let d := d <| Members := delete id d.(Members) |> in
  if d.(LastMember) =? id then d <| LastMember := 0 |> <| Consecutive := 0 |> else d.

Definition Remove := removeLocked.

(** A new member for a view; an allocating ledger, or a group known to be
    paused, makes it wait for admission. *)
Definition freshMember (d : SchedulingLedger) (view : CredentialRuntimeView)
    : SchedulingLedger * SchedulingMember :=
  let m := mkMember view.(view_ID) view.(view_GroupID) view.(view_IdentityGeneration)
             zeroProgress 0
             (d.(Started) || d.(GroupsKnown) && negb (groupEnabled d view.(view_GroupID)))
             false false 0 in
  let d := d <| Members := <[ view.(view_ID) := m ]> d.(Members) |> in
  (if d.(LastMember) =? view.(view_ID) then d <| LastMember := 0 |> <| Consecutive := 0 |> else d, m).

(** The member a credential view is accounted under: the existing one while the
    identity is unchanged, a fresh one otherwise. *)
Definition memberFor (d : SchedulingLedger) (view : CredentialRuntimeView)
    : SchedulingLedger * SchedulingMember :=
  match d.(Members) !! view.(view_ID) with
  | Some m =>
    if negb (m.(member_GroupID) =? view.(view_GroupID)) ||
       negb (m.(member_IdentityGeneration) =? view.(view_IdentityGeneration))
    then freshMember d view else (d, m)
  | None => freshMember d view
  end.

Definition authUnavailable (state : CredentialAuthState) : bool :=
  bool_decide (state <> CredentialAuthStateReady) && bool_decide (state <> authStateUnset) &&
  bool_decide (state <> CredentialAuthStateRefreshing).

Definition viewSuspended (view : CredentialRuntimeView) (now : Z) : bool :=
  bool_decide (view.(view_Status) <> CredentialStatusActive) || view.(view_Blacklisted) ||
  authUnavailable view.(view_AuthState) ||
  match view.(view_WeightManual) with Some w => w <=? 0 | None => false end ||
  (view.(view_CooldownUntil) >? now).

Definition syncCredentialLocked (now : Z) (d : SchedulingLedger) (view : CredentialRuntimeView)
    : SchedulingLedger :=
  let '(d, m) := memberFor d view in
  let isSuspended := viewSuspended view now in
  let m :=
    if isSuspended || m.(suspended) ||
       negb (view.(view_CooldownUntil) =? 0) && negb (view.(view_CooldownUntil) =? m.(cooldownUntil))
    then m <| Pending := true |> else m in
  let m := m <| suspended := isSuspended |> <| cooldownUntil := view.(view_CooldownUntil) |> in
  d <| Members := <[ view.(view_ID) := m ]> d.(Members) |>.

Definition SyncCredential := syncCredentialLocked.

(** Members of the scope ([groupID = 0] is every group) that no view names. *)
Definition staleMembers (d : SchedulingLedger) (groupID : Z) (seen : gset Z) : list Z :=
  map fst (List.filter (fun im =>
    ((groupID =? 0) || (im.2.(member_GroupID) =? groupID)) && negb (bool_decide (im.1 ∈ seen)))
    (map_to_list d.(Members))).

Definition SyncCredentials (now : Z) (d : SchedulingLedger) (groupID : Z)
    (views : list CredentialRuntimeView) : SchedulingLedger :=
  let d := foldl (syncCredentialLocked now) d views in
  foldl removeLocked d (staleMembers d groupID (list_to_set (map view_ID views))).

(** ** Model rotation *)

(** Byte-wise string order, the order of [slices.Sort] on strings. *)
Definition string_le (a b : string) : Prop := String.leb a b = true.
#[export] Instance string_le_dec a b : Decision (string_le a b).
Proof. unfold string_le. apply _. Defined.

(** [slices.BinarySearch]: the loop keeps the first insertion point in [i, j). *)
Fixpoint binarySearchLoop (fuel : nat) (l : list string) (target : string) (i j : nat) : nat :=
  match fuel with
  | O => i
  | S fuel =>
    if (i <? j)%nat then
      let h := ((i + j) / 2)%nat in
      match String.compare (nth h l ""%string) target with
      | Lt => binarySearchLoop fuel l target (S h) j
      | _ => binarySearchLoop fuel l target i h
      end
    else i
  end.

Definition BinarySearch (l : list string) (target : string) : bool :=
  let i := binarySearchLoop (S (length l)) l target 0 (length l) in
  match l !! i with Some x => String.eqb x target | None => false end.

(** The first model of the cursor that is available moves to the back. *)
Fixpoint rotate (models order passed : list string) : option (string * list string) :=
  match order with
  | [] => None
  | model :: rest =>
    if BinarySearch models model then Some (model, rev passed ++ rest ++ [model])
    else rotate models rest (model :: passed)
  end.

Definition SelectModel (d : SchedulingLedger) (groupID : Z) (externalModel : string)
    (models : list string) : SchedulingLedger * string :=
  match models with
  | [] => (d, ""%string)
  | fallback :: _ =>
    let key := mkModelKey groupID externalModel in
    match rotate models (default [] (d.(ModelCursors) !! key)) [] with
    | Some (model, order) => (d <| ModelCursors := <[ key := order ]> d.(ModelCursors) |>, model)
    | None => (d, fallback)
    end
  end.

(** The models of [candidates] still in [remaining], each taken once. *)
Fixpoint takeRemaining (remaining : gset string) (candidates : list string)
    : list string * gset string :=
  match candidates with
  | [] => ([], remaining)
  | model :: rest =>
    if bool_decide (model ∈ remaining) then
      let '(order, remaining) := takeRemaining (remaining ∖ {[ model ]}) rest in
      (model :: order, remaining)
    else takeRemaining remaining rest
  end.

Definition reconcileModelOrder (previous configured : list string) : list string :=
  let '(kept, remaining) := takeRemaining (list_to_set configured) previous in
  let '(added, _) := takeRemaining remaining configured in
  kept ++ added.

Definition staggerModelOrder (d : SchedulingLedger) (order : list string)
    : SchedulingLedger * list string :=
  match d.(jitter) with
  | None => (d, order)
  | Some random =>
    if (length order <? 2)%nat then (d, order)
    else
      let offset := Z.to_nat (random d.(draws) (Z.of_nat (length order))) in
      (d <| draws := S d.(draws) |>, drop offset order ++ take offset order)
  end.

(** ** Group synchronisation *)

Record ModelConfig := mkModelConfig { model_ID : string; Alias : string }.

Definition trimString (s : string) : string := text (trim_space (bytes s)).

Definition externalModelName (model : ModelConfig) : string :=
  let alias := trimString model.(Alias) in
  if stringEmpty alias then trimString model.(model_ID) else alias.

(** The parts of [GroupCatalogView] and [ConfigSnapshot] scheduling reads. *)
Record GroupCatalogView := mkCatalogView {
  catalog_ID : Z;
  catalog_Name : string;
  catalog_Priority : Z;
  catalog_Enabled : bool;
  catalog_WeightManual : option Z;
}.

Record ConfigSnapshot := mkSnapshot {
  Revision : Z;
  GroupCatalog : gmap Z GroupCatalogView;
  GroupModels : gmap Z (list ModelConfig);
}.

(** [modelsByName]: upstream model ids under each external name, in order. *)
Definition modelsByName (models : list ModelConfig) : gmap string (list string) :=
  foldl (fun acc model =>
    let name := externalModelName model in
    <[ name := default [] (acc !! name) ++ [trimString model.(model_ID)] ]> acc) ∅ models.

(** One cursor: several models under one name rotate, a single one needs none. *)
Definition syncModelCursor (previous : gmap GroupModelKey (list string)) (groupID : Z)
    (acc : SchedulingLedger * gmap GroupModelKey (list string)) (nm : string * list string)
    : SchedulingLedger * gmap GroupModelKey (list string) :=
  let '(d, cursors) := acc in
  let '(name, models) := nm in
  if (1 <? length models)%nat then
    let sorted := merge_sort string_le models in
    let key := mkModelKey groupID name in
    let order := reconcileModelOrder (default [] (previous !! key)) sorted in
    let '(d, order) :=
      match previous !! key with Some _ => (d, order) | None => staggerModelOrder d order end in
    (d, <[ key := order ]> cursors)
  else (d, cursors).

(** A cursor of a group that is known but switched off is kept as it is. *)
Definition groupPaused (snapshot : ConfigSnapshot) (groupID : Z) : bool :=
  match snapshot.(GroupCatalog) !! groupID with
  | Some group => negb group.(catalog_Enabled)
  | None => false
  end.

Definition syncModelCursorsLocked (d : SchedulingLedger) (snapshot : ConfigSnapshot)
    : SchedulingLedger :=
  let previous := d.(ModelCursors) in
  let paused : gmap GroupModelKey (list string) :=
    filter (fun ko => groupPaused snapshot ko.1.(key_GroupID) = true) previous in
  let '(d, cursors) :=
    foldl (fun acc gm =>
      foldl (syncModelCursor previous gm.1) acc (map_to_list (modelsByName gm.2)))
      (d, paused) (map_to_list snapshot.(GroupModels)) in
  d <| ModelCursors := cursors |>.

Definition groupRoutable (snapshot : ConfigSnapshot) (id : Z) (group : GroupCatalogView) : bool :=
  group.(catalog_Enabled) &&
  match snapshot.(GroupModels) !! id with Some (_ :: _) => true | _ => false end &&
  match group.(catalog_WeightManual) with Some w => w >? 0 | None => true end.

Definition priorityChanged (d : SchedulingLedger) (snapshot : ConfigSnapshot) : bool :=
  existsb (fun ig => match d.(GroupPriorities) !! ig.1 with
                     | Some previous => negb (previous =? ig.2.(catalog_Priority))
                     | None => false
                     end) (map_to_list snapshot.(GroupCatalog)).

Definition SyncGroups (d : SchedulingLedger) (snapshot : option ConfigSnapshot) : SchedulingLedger :=
  match snapshot with
  | None => d
  | Some snapshot =>
    if d.(GroupsKnown) && (snapshot.(Revision) <=? d.(GroupRevision)) then d
    else
      let groups := map_imap (fun id group => Some (groupRoutable snapshot id group))
                      snapshot.(GroupCatalog) in
      let changed := priorityChanged d snapshot in
      let members := (fun m => if changed || negb (default false (groups !! m.(member_GroupID)))
                               then m <| Pending := true |> else m) <$> d.(Members) in
      let d := d <| Members := members |> <| Groups := groups |>
                 <| GroupRevision := snapshot.(Revision) |> <| GroupsKnown := true |>
                 <| GroupPriorities := catalog_Priority <$> snapshot.(GroupCatalog) |> in
      syncModelCursorsLocked d snapshot
  end.

(** ** Progress arithmetic *)

(** The coordinate as one 128-bit number, and the share of one allocation. *)
Definition value (p : SchedulingProgress) : Z := p.(Whole) * two64 + p.(Fraction).
Definition progress_wf (p : SchedulingProgress) : Prop := in_uint64 p.(Whole) /\ in_uint64 p.(Fraction).
Definition stepOf (weight : Z) : Z := if weight =? 1 then two64 else div64 weight.

Lemma zero_progress_wf : progress_wf zeroProgress.
Proof. split; split; cbn; unfold two64; lia. Qed.

Lemma value_inj p q : progress_wf p -> progress_wf q -> value p = value q -> p = q.
Proof.
  destruct p as [a b], q as [c d]. unfold progress_wf, value, in_uint64, two64. cbn. intros.
  assert (a = c) by lia. subst. f_equal. lia.
Qed.

Lemma Compare_spec p q : progress_wf p -> progress_wf q -> Compare p q = Z.compare (value p) (value q).
Proof.
  unfold progress_wf, Compare, value, in_uint64, two64. intros [] [].
  destruct (Z.compare_spec (Whole p) (Whole q)) as [E|E|E].
  - rewrite E. destruct (Z.compare_spec (Fraction p) (Fraction q)) as [F|F|F]; symmetry;
      rewrite ?Z.compare_eq_iff, ?Z.compare_lt_iff, ?Z.compare_gt_iff; lia.
  - symmetry. apply Z.compare_lt_iff. lia.
  - symmetry. apply Z.compare_gt_iff. lia.
Qed.

Lemma add64_exact x y : in_uint64 x -> in_uint64 y ->
  let '(s, c) := add64 x y in in_uint64 s /\ (c = 0 \/ c = 1) /\ x + y = c * two64 + s.
Proof.
  unfold add64, in_uint64, wrap_u64, two64. intros.
  destruct (Z.geb_spec (x + y) 18446744073709551616) as [E|E].
  - rewrite (Z.mod_eq (x + y) 18446744073709551616) by lia.
    replace ((x + y) / 18446744073709551616) with 1; [lia|].
    apply Z.div_unique with (r := x + y - 18446744073709551616); lia.
  - rewrite Z.mod_small; lia.
Qed.

Lemma div64_range w : 1 < w < two64 -> 1 <= div64 w < two64.
Proof.
  unfold div64. intros [H1 H2]. split; [apply Z.div_le_lower_bound; lia|].
  apply Z.div_lt; lia.
Qed.

Lemma stepOf_pos w : 1 <= w < two64 -> 1 <= stepOf w.
Proof.
  intros H. unfold stepOf. destruct (Z.eqb_spec w 1); [cbn; unfold two64; lia|].
  apply div64_range. lia.
Qed.

(** [Advance] is exact 128-bit addition of one share. *)
Lemma Advance_exact p w : progress_wf p -> 1 <= w < two64 ->
  let '(q, ok) := Advance p w in
  progress_wf q /\ (ok = true <-> value p + stepOf w < two64 * two64) /\
  (ok = true -> value q = value p + stepOf w).
Proof.
  intros [Hw Hf] Hr. unfold Advance, stepOf. rewrite (proj2 (Z.eqb_neq w 0)) by lia.
  assert (H01 : in_uint64 1) by (split; unfold two64; lia).
  destruct (Z.eqb_spec w 1) as [->|Hne].
  - pose proof (add64_exact (Whole p) 1 Hw H01) as H. destruct (add64 (Whole p) 1) as [s c].
    destruct H as (Hs & Hc & E). unfold progress_wf, value, in_uint64, two64 in *. cbn.
    destruct Hc as [-> | ->]; cbn; repeat split; try lia; intros; try discriminate; lia.
  - pose proof (div64_range w ltac:(lia)) as Hd.
    pose proof (add64_exact (Fraction p) (div64 w) Hf ltac:(split; lia)) as H.
    destruct (add64 (Fraction p) (div64 w)) as [s c]. destruct H as (Hs & Hc & E).
    assert (Hcr : in_uint64 c) by (destruct Hc as [-> | ->]; split; unfold two64; lia).
    pose proof (add64_exact (Whole p) c Hw Hcr) as H. destruct (add64 (Whole p) c) as [s2 c2].
    destruct H as (Hs2 & Hc2 & E2). unfold progress_wf, value, in_uint64, two64 in *. cbn.
    destruct Hc2 as [-> | ->]; cbn; repeat split; try lia; intros; try discriminate; lia.
Qed.

(** ** Binary search over sorted model ids *)

Lemma string_lt_trans a b c :
  String.compare a b = Lt -> String.compare b c = Lt -> String.compare a c = Lt.
Proof.
  revert b c. induction a as [|x a IH]; intros [|y b] [|z c]; cbn; try congruence.
  unfold Ascii.compare. intros H1 H2.
  destruct (N.compare_spec (N_of_ascii x) (N_of_ascii y)) as [E1|E1|E1]; try discriminate;
  destruct (N.compare_spec (N_of_ascii y) (N_of_ascii z)) as [E2|E2|E2]; try discriminate.
  - rewrite E1, E2, N.compare_refl. eauto.
  - rewrite E1. now rewrite (proj2 (N.compare_lt_iff _ _) E2).
  - rewrite <- E2. now rewrite (proj2 (N.compare_lt_iff _ _) E1).
  - now rewrite (proj2 (N.compare_lt_iff _ _) (N.lt_trans _ _ _ E1 E2)).
Qed.

Lemma string_compare_refl a : String.compare a a = Eq.
Proof. induction a as [|x a IH]; [reflexivity|]. cbn. unfold Ascii.compare. now rewrite N.compare_refl. Qed.

Lemma string_le_cases a b : string_le a b <-> String.compare a b = Lt \/ a = b.
Proof.
  unfold string_le, String.leb. split.
  - destruct (String.compare a b) eqn:E; intros H; try discriminate; auto.
    right. now apply String.compare_eq_iff.
  - intros [-> | ->]; [reflexivity|]. now rewrite string_compare_refl.
Qed.

#[export] Instance string_le_trans : Transitive string_le.
Proof.
  intros a b c. rewrite !string_le_cases. intros [H1| ->] [H2| ->]; eauto using string_lt_trans.
Qed.

#[export] Instance string_le_total : Total string_le.
Proof. intros a b. apply String.leb_total. Qed.

Lemma string_lt_le_trans a b c :
  String.compare a b = Lt -> string_le b c -> String.compare a c = Lt.
Proof. rewrite string_le_cases. intros H [H2| ->]; eauto using string_lt_trans. Qed.

Lemma sorted_nth l i j : StronglySorted string_le l -> (i <= j < length l)%nat ->
  string_le (nth i l ""%string) (nth j l ""%string).
Proof.
  intros H. revert i j. induction H as [|x l Hs IH HF]; intros i j Hij; cbn in *; [lia|].
  destruct i as [|i], j as [|j]; try lia.
  - apply string_le_cases. auto.
  - rewrite List.Forall_forall in HF. apply HF, nth_In. lia.
  - apply IH. lia.
Qed.

(** The loop stops at the first index whose element is not below the target. *)
Lemma binarySearchLoop_spec l x : StronglySorted string_le l ->
  forall fuel i j, (i <= j <= length l)%nat -> (j - i < fuel)%nat ->
  (forall k, (k < i)%nat -> String.compare (nth k l ""%string) x = Lt) ->
  (forall k, (j <= k < length l)%nat -> String.compare (nth k l ""%string) x <> Lt) ->
  let r := binarySearchLoop fuel l x i j in
  (i <= r <= j)%nat /\
  (forall k, (k < r)%nat -> String.compare (nth k l ""%string) x = Lt) /\
  (forall k, (r <= k < length l)%nat -> String.compare (nth k l ""%string) x <> Lt).
Proof.
  intros Hs. induction fuel as [|fuel IH]; intros i j Hij Hf Hlo Hhi; [lia|]. cbn [binarySearchLoop].
  destruct (Nat.ltb_spec i j) as [Hlt|Hge].
  2:{ assert (j = i) by lia. subst. cbn. repeat split; try lia; assumption. }
  assert (Hh : (i <= (i + j) / 2 < j)%nat).
  { split; [apply Nat.div_le_lower_bound; lia|apply Nat.Div0.div_lt_upper_bound; lia]. }
  set (h := ((i + j) / 2)%nat) in *.
  assert (Hup : String.compare (nth h l ""%string) x <> Lt ->
    forall k, (h <= k < length l)%nat -> String.compare (nth k l ""%string) x <> Lt).
  { intros Hn k Hk HL. apply Hn. pose proof (sorted_nth l h k Hs ltac:(lia)) as Hle.
    apply string_le_cases in Hle as [Hle|Hle]; [exact (string_lt_trans _ _ _ Hle HL)|rewrite Hle; exact HL]. }
  destruct (String.compare (nth h l ""%string) x) eqn:EC.
  - destruct (IH i h ltac:(lia) ltac:(lia) Hlo ltac:(apply Hup; congruence)) as (H1 & H2 & H3).
    repeat split; try lia; assumption.
  - assert (Hlo' : forall k, (k < S h)%nat -> String.compare (nth k l ""%string) x = Lt).
    { intros k Hk. pose proof (sorted_nth l k h Hs ltac:(lia)) as Hle.
      apply string_le_cases in Hle as [Hle|Hle]; [exact (string_lt_trans _ _ _ Hle EC)|rewrite Hle; exact EC]. }
    destruct (IH (S h) j ltac:(lia) ltac:(lia) Hlo' Hhi) as (H1 & H2 & H3).
    repeat split; try lia; assumption.
  - destruct (IH i h ltac:(lia) ltac:(lia) Hlo ltac:(apply Hup; congruence)) as (H1 & H2 & H3).
    repeat split; try lia; assumption.
Qed.

(** On a sorted slice binary search decides membership. *)
Lemma BinarySearch_spec l x : StronglySorted string_le l -> BinarySearch l x = true <-> In x l.
Proof.
  intros Hs. unfold BinarySearch.
  destruct (binarySearchLoop_spec l x Hs (S (length l)) 0 (length l)) as (H1 & H2 & H3);
    try lia. cbv zeta in *.
  set (i := binarySearchLoop _ _ _ _ _) in *. split.
  - destruct (l !! i) as [y|] eqn:El; [|discriminate]. intros E%String.eqb_eq. subst y.
    apply list_elem_of_In. eapply list_elem_of_lookup_2; exact El.
  - intros Hin. apply (In_nth _ _ ""%string) in Hin as (k & Hk & Ek).
    assert (Hik : (i <= k)%nat).
    { destruct (Nat.lt_ge_cases k i) as [Hl|Hl]; [|exact Hl]. specialize (H2 k Hl).
      rewrite Ek, string_compare_refl in H2. discriminate. }
    pose proof (sorted_nth l i k Hs ltac:(lia)) as Hle. rewrite Ek in Hle.
    apply string_le_cases in Hle as [Hle|Hle]; [now destruct (H3 i ltac:(lia))|].
    rewrite nth_lookup in Hle. destruct (l !! i) as [y|] eqn:El.
    + cbn in Hle. subst y. apply String.eqb_refl.
    + apply lookup_ge_None_1 in El. lia.
Qed.

(** ** Rotation *)

Lemma rotate_spec models order passed :
  match rotate models order passed with
  | Some (m, order') => exists pre post, order = pre ++ m :: post /\
      order' = rev passed ++ pre ++ post ++ [m] /\ BinarySearch models m = true /\
      Forall (fun x => BinarySearch models x = false) pre
  | None => Forall (fun x => BinarySearch models x = false) order
  end.
Proof.
  revert passed. induction order as [|x order IH]; intros passed; cbn [rotate]; [constructor|].
  destruct (BinarySearch models x) eqn:E.
  - exists [], order. repeat split; auto.
  - specialize (IH (x :: passed)). destruct (rotate models order (x :: passed)) as [[m o]|].
    + destruct IH as (pre & post & -> & -> & H1 & H2). exists (x :: pre), post.
      repeat split; auto. cbn [rev]. now rewrite <- !app_assoc.
    + now constructor.
Qed.

Definition cursor (d : SchedulingLedger) (groupID : Z) (external : string) : list string :=
  default [] (d.(ModelCursors) !! mkModelKey groupID external).

Lemma SelectModel_cases d g e models : models <> [] ->
  let '(d', m) := SelectModel d g e models in
  (exists pre post, cursor d g e = pre ++ m :: post /\ cursor d' g e = pre ++ post ++ [m] /\
     BinarySearch models m = true /\ Forall (fun x => BinarySearch models x = false) pre) \/
  (d' = d /\ In m models /\ Forall (fun x => BinarySearch models x = false) (cursor d g e)).
Proof.
  intros Hne. unfold SelectModel. destruct models as [|f models]; [contradiction|].
  fold (cursor d g e). pose proof (rotate_spec (f :: models) (cursor d g e) []) as H.
  destruct (rotate (f :: models) (cursor d g e) []) as [[m o]|].
  - left. destruct H as (pre & post & H1 & -> & H2 & H3). exists pre, post.
    repeat split; try assumption. unfold cursor. cbn. now rewrite lookup_insert_eq.
  - right. repeat split; auto. now left.
Qed.

(** A run of calls for one external name; each call sees its own available models. *)
Fixpoint selectModels (d : SchedulingLedger) (g : Z) (e : string) (calls : list (list string))
    : list string :=
  match calls with
  | [] => []
  | models :: rest => let '(d', m) := SelectModel d g e models in m :: selectModels d' g e rest
  end.

Lemma app_cons_cases {A} (l1 l2 r1 r2 : list A) x y :
  l1 ++ x :: l2 = r1 ++ y :: r2 ->
  (exists m, l1 = r1 ++ y :: m /\ r2 = m ++ x :: l2) \/ (l1 = r1 /\ x = y /\ l2 = r2) \/
  (exists m, r1 = l1 ++ x :: m /\ l2 = m ++ y :: r2).
Proof.
  revert r1. induction l1 as [|a l1 IH]; intros [|b r1] H; cbn in *; injection H as -> H.
  - auto.
  - right. right. exists r1. now rewrite H.
  - left. exists l1. now rewrite H.
  - destruct (IH r1 H) as [(m & -> & ->)|[(-> & -> & ->)|(m & -> & ->)]]; eauto 10.
Qed.

Lemma served_within k : forall d g e calls m pre post,
  length pre = k -> cursor d g e = pre ++ m :: post -> (k < length calls)%nat ->
  Forall (fun models => StronglySorted string_le models /\ In m models) calls ->
  In m (firstn (S k) (selectModels d g e calls)).
Proof.
  induction k as [k IH] using lt_wf_ind. intros d g e calls m pre post Hk Hc Hlen Hall.
  destruct calls as [|models calls]; [cbn in Hlen; lia|].
  apply List.Forall_cons_iff in Hall as [[Hs Hin] Hall]. cbn [selectModels length] in *.
  assert (Hne : models <> []) by (intros ->; contradiction).
  pose proof (SelectModel_cases d g e models Hne) as H.
  destruct (SelectModel d g e models) as [d' x].
  apply (BinarySearch_spec models m Hs) in Hin.
  destruct H as [(p & q & H1 & H2 & H3 & H4)|(_ & _ & HF)].
  2:{ rewrite Hc in HF. apply Forall_app in HF as [_ HF]. inversion HF. congruence. }
  rewrite Hc in H1. destruct (app_cons_cases _ _ _ _ _ _ H1) as [(t & E1 & E2)|[(E1 & E2 & E3)|(t & E1 & E2)]].
  - subst pre q. rewrite length_app in Hk. cbn in Hk. cbn [firstn]. right.
    destruct k as [|k]; [lia|]. apply (IH k ltac:(lia) d' g e calls m (p ++ t) (post ++ [x]));
      [rewrite length_app; lia| |lia|exact Hall].
    rewrite H2, <- !app_assoc. reflexivity.
  - subst. now left.
  - subst p. apply Forall_app in H4 as [_ H4]. inversion H4. congruence.
Qed.

(** ** Reconciliation of a cursor with the configured models *)

Lemma takeRemaining_spec rem cands order rem' :
  takeRemaining rem cands = (order, rem') ->
  NoDup order /\ rem' = rem ∖ list_to_set order /\
  (forall x, x ∈ order <-> x ∈ rem /\ x ∈ cands).
Proof.
  revert rem order rem'. induction cands as [|c cands IH]; intros rem order rem' H; cbn in H.
  - injection H as <- <-. split; [constructor|]. split; [set_solver|]. set_solver.
  - destruct (bool_decide (c ∈ rem)) eqn:Ed.
    + apply bool_decide_eq_true_1 in Ed.
      destruct (takeRemaining (rem ∖ {[c]}) cands) as [o r] eqn:Et. injection H as <- <-.
      destruct (IH _ _ _ Et) as (H1 & -> & H3). repeat split.
      * constructor; [|exact H1]. rewrite H3. set_solver.
      * set_solver.
      * set_solver.
      * set_solver.
      * intros [Hx Hy]. apply elem_of_cons. destruct (decide (x = c)) as [->|Hne]; [now left|].
        right. apply H3. set_solver.
    + apply bool_decide_eq_false_1 in Ed. destruct (IH _ _ _ H) as (H1 & H2 & H3).
      repeat split; auto; set_solver.
Qed.

Lemma reconcile_spec previous configured :
  NoDup (reconcileModelOrder previous configured) /\
  forall x, x ∈ reconcileModelOrder previous configured <-> x ∈ configured.
Proof.
  unfold reconcileModelOrder.
  destruct (takeRemaining (list_to_set configured) previous) as [kept rem] eqn:E1.
  destruct (takeRemaining rem configured) as [added rem2] eqn:E2.
  destruct (takeRemaining_spec _ _ _ _ E1) as (K1 & -> & K3).
  destruct (takeRemaining_spec _ _ _ _ E2) as (A1 & _ & A3). split.
  - apply NoDup_app. repeat split; auto. intros x Hx Ha. apply A3 in Ha. set_solver.
  - intros x. rewrite elem_of_app, K3, A3. clear E1 E2 A1 K1.
    destruct (decide (x ∈ kept)) as [Hk|Hk]; [apply K3 in Hk|]; set_solver.
Qed.

Lemma takeRemaining_filter rem cands : NoDup cands ->
  fst (takeRemaining rem cands) = List.filter (fun x => bool_decide (x ∈ rem)) cands.
Proof.
  intros Hnd. revert rem. induction Hnd as [|c cands Hc Hnd IH]; intros rem; [reflexivity|].
  cbn [takeRemaining List.filter]. destruct (bool_decide (c ∈ rem)) eqn:Ed; [|apply IH].
  specialize (IH (rem ∖ {[c]})). destruct (takeRemaining (rem ∖ {[c]}) cands) as [o r]. cbn in *.
  f_equal. rewrite IH. apply List.filter_ext_in. intros x Hx. apply list_elem_of_In in Hx.
  apply bool_decide_ext. assert (x <> c) by (intros ->; contradiction). set_solver.
Qed.

(** ** Ledger invariant *)

(** Longest recorded streak: beyond every legal alternation threshold. *)
Definition maxConsecutive : Z := 99 + MaxWeight * MaxWeight.

Record member_ok (d : SchedulingLedger) (id : Z) (m : SchedulingMember) : Prop := {
  mok_id : m.(member_ID) = id;
  mok_nonzero : id <> 0;
  mok_wf : progress_wf m.(Progress);
  mok_seq : 0 <= m.(LastSelected) <= d.(Sequence);
  mok_water : d.(jitter) = None -> value m.(Progress) <= value d.(Watermark);
}.

Record ledger_ok (d : SchedulingLedger) : Prop := {
  lok_members : map_Forall (member_ok d) d.(Members);
  lok_water : progress_wf d.(Watermark);
  lok_last : (d.(LastMember) = 0 /\ d.(Consecutive) = 0) \/
             (is_Some (d.(Members) !! d.(LastMember)) /\ 1 <= d.(Consecutive) <= maxConsecutive);
  lok_seq : 0 <= d.(Sequence) <= max_uint64;
  lok_cursors : map_Forall (fun _ order => NoDup order) d.(ModelCursors);
  lok_jitter : forall random, d.(jitter) = Some random -> jitterLawful random;
}.

(** A member is judged only by its coordinates and the ledger's clocks. *)
Lemma member_ok_transfer d d' id m m' :
  member_ok d id m -> Sequence d' = Sequence d -> jitter d' = jitter d -> Watermark d' = Watermark d ->
  member_ID m' = member_ID m -> Progress m' = Progress m -> LastSelected m' = LastSelected m ->
  member_ok d' id m'.
Proof. intros [] E1 E2 E3 E4 E5 E6. constructor; rewrite ?E1, ?E2, ?E3, ?E4, ?E5, ?E6; auto. Qed.

Lemma fresh_ledger_ok : ledger_ok NewSchedulingState.
Proof.
  constructor; cbn; try apply map_Forall_empty; try apply zero_progress_wf; auto; try discriminate.
  unfold max_uint64. lia.
Qed.

Lemma removeLocked_ok d id : ledger_ok d -> ledger_ok (removeLocked d id).
Proof.
  intros [Hm Hw Hl Hs Hc Hj]. unfold removeLocked. cbn [LastMember set const].
  assert (HD : map_Forall (member_ok d) (delete id (Members d))) by now apply map_Forall_delete.
  destruct (Z.eqb_spec (LastMember d) id) as [E|E]; constructor; cbn; auto.
  - eapply map_Forall_impl; [exact HD|]. intros. eapply member_ok_transfer; eauto.
  - eapply map_Forall_impl; [exact HD|]. intros. eapply member_ok_transfer; eauto.
  - destruct Hl as [Hl|[Hl1 Hl2]]; [now left|right]. split; [|exact Hl2].
    now rewrite lookup_delete_ne by congruence.
Qed.

Lemma insert_member_ok d id m : ledger_ok d -> member_ok d id m ->
  ledger_ok (d <| Members := <[ id := m ]> d.(Members) |>).
Proof.
  intros [Hm Hw Hl Hs Hc Hj] Hok. constructor; cbn; auto.
  - apply map_Forall_insert_2; [eapply member_ok_transfer; eauto|].
    eapply map_Forall_impl; [exact Hm|]. intros. eapply member_ok_transfer; eauto.
  - destruct Hl as [Hl|[Hl1 Hl2]]; [now left|right]. split; [|exact Hl2].
    destruct (decide (id = LastMember d)) as [->|Hne]; [rewrite lookup_insert_eq; eauto|].
    now rewrite lookup_insert_ne.
Qed.

Lemma clear_last_ok d : ledger_ok d -> ledger_ok (d <| LastMember := 0 |> <| Consecutive := 0 |>).
Proof.
  intros [Hm Hw Hl Hs Hc Hj]. constructor; cbn; auto.
  eapply map_Forall_impl; [exact Hm|]. intros. eapply member_ok_transfer; eauto.
Qed.

Lemma fresh_member_ok d view pending : ledger_ok d -> view_ID view <> 0 ->
  member_ok d (view_ID view)
    (mkMember (view_ID view) (view_GroupID view) (view_IdentityGeneration view) zeroProgress 0
       pending false false 0).
Proof.
  intros [Hm Hw Hl Hs Hc Hj] Hid. constructor; cbn; auto using zero_progress_wf; [lia|].
  intros _. destruct Hw as [[Hw1 _] [Hw2 _]]. unfold value. cbn. unfold two64 in *. lia.
Qed.

Lemma freshMember_ok d view : ledger_ok d -> view_ID view <> 0 ->
  let '(d', m) := freshMember d view in ledger_ok d' /\ member_ok d' (view_ID view) m.
Proof.
  intros H Hid. unfold freshMember.
  pose proof (fresh_member_ok d view (Started d || GroupsKnown d && negb (groupEnabled d (view_GroupID view)))
                H Hid) as Hf.
  pose proof (insert_member_ok d _ _ H Hf) as Hi.
  destruct (_ =? view_ID view); split; auto using clear_last_ok; eapply member_ok_transfer; eauto.
Qed.

Lemma memberFor_ok d view : ledger_ok d -> view_ID view <> 0 ->
  let '(d', m) := memberFor d view in ledger_ok d' /\ member_ok d' (view_ID view) m.
Proof.
  intros H Hid. unfold memberFor. pose proof (freshMember_ok d view H Hid) as Hf.
  destruct (Members d !! view_ID view) as [m|] eqn:Em; [|exact Hf].
  destruct (_ || _); [exact Hf|]. split; [exact H|]. exact (lok_members d H _ _ Em).
Qed.

Lemma syncCredential_ok now d view : ledger_ok d -> view_ID view <> 0 ->
  ledger_ok (syncCredentialLocked now d view).
Proof.
  intros H Hid. unfold syncCredentialLocked. pose proof (memberFor_ok d view H Hid) as Hm.
  destruct (memberFor d view) as [d' m]. destruct Hm as [H1 H2]. apply insert_member_ok; [exact H1|].
  eapply member_ok_transfer; eauto; now destruct (_ || _ || _).
Qed.

Lemma SyncCredentials_ok now d groupID views : ledger_ok d ->
  Forall (fun view => view_ID view <> 0) views -> ledger_ok (SyncCredentials now d groupID views).
Proof.
  intros H HF. unfold SyncCredentials.
  assert (H1 : ledger_ok (foldl (syncCredentialLocked now) d views)).
  { revert d H. induction HF as [|v views Hv HF IH]; intros d H; cbn; [exact H|].
    apply IH. now apply syncCredential_ok. }
  remember (staleMembers _ _ _) as stale. clear Heqstale. revert H1.
  generalize (foldl (syncCredentialLocked now) d views). induction stale as [|id stale IH];
    intros d' H1; cbn; [exact H1|]. apply IH. now apply removeLocked_ok.
Qed.

Lemma set_cursors_ok d cursors n : ledger_ok d -> map_Forall (fun _ order => NoDup order) cursors ->
  ledger_ok (d <| draws := n |> <| ModelCursors := cursors |>).
Proof.
  intros [Hm Hw Hl Hs Hc Hj] HC. constructor; cbn; auto.
  eapply map_Forall_impl; [exact Hm|]. intros. eapply member_ok_transfer; eauto.
Qed.

Lemma SelectModel_ok d g e models : ledger_ok d -> ledger_ok (fst (SelectModel d g e models)).
Proof.
  intros H. unfold SelectModel. destruct models as [|f models]; [exact H|].
  pose proof (rotate_spec (f :: models) (default [] (ModelCursors d !! mkModelKey g e)) []) as Hr.
  destruct (rotate _ _ _) as [[m o]|]; [|exact H]. cbn [fst].
  destruct Hr as (pre & post & E & -> & _). cbn [rev app].
  apply (set_cursors_ok d _ (draws d) H). apply map_Forall_insert_2; [|apply H].
  destruct (ModelCursors d !! mkModelKey g e) as [o|] eqn:Eo; cbn in E; [|now destruct pre].
  pose proof (lok_cursors d H _ _ Eo) as Hnd. cbn in Hnd. subst o.
  eapply (NoDup_Permutation_proper); [|exact Hnd].
  apply Permutation_app_head. now rewrite Permutation_app_comm.
Qed.

(** Cursor synchronisation touches only the cursors and the draw counter. *)
Definition cursorsOnly (d : SchedulingLedger)
    (acc : SchedulingLedger * gmap GroupModelKey (list string)) : Prop :=
  (exists n, acc.1 = d <| draws := n |>) /\ map_Forall (fun _ order => NoDup order) acc.2.

Lemma stagger_cursor d n order : exists n' k,
  staggerModelOrder (d <| draws := n |>) order = (d <| draws := n' |>, drop k order ++ take k order).
Proof.
  unfold staggerModelOrder. destruct (length order <? 2)%nat; cbn; destruct (jitter d) as [random|];
    try (exists n, 0%nat; cbn; now rewrite drop_0, app_nil_r).
  eauto.
Qed.

Lemma NoDup_rotation {A} k (l : list A) : NoDup l -> NoDup (drop k l ++ take k l).
Proof.
  intros H. eapply NoDup_Permutation_proper; [|exact H].
  rewrite Permutation_app_comm. now rewrite take_drop.
Qed.

Lemma syncModelCursor_only d previous g acc nm :
  cursorsOnly d acc -> cursorsOnly d (syncModelCursor previous g acc nm).
Proof.
  destruct acc as [d' cursors], nm as [name models]. intros [[n Hn] HC]. cbn in Hn, HC. subst d'.
  unfold syncModelCursor. destruct (1 <? length models)%nat; [|split; eauto].
  set (order := reconcileModelOrder _ _).
  assert (Ho : NoDup order) by apply reconcile_spec.
  destruct (previous !! _).
  - split; cbn; [eauto|]. now apply map_Forall_insert_2.
  - destruct (stagger_cursor d n order) as (n' & k & ->). split; cbn; [eauto|].
    apply map_Forall_insert_2; [now apply NoDup_rotation|exact HC].
Qed.

Lemma foldl_inv {A B} (P : A -> Prop) (f : A -> B -> A) l :
  (forall a b, P a -> P (f a b)) -> forall a, P a -> P (foldl f a l).
Proof. intros H. induction l as [|b l IH]; intros a Ha; cbn; auto. Qed.

Lemma draws_eta d : d = d <| draws := draws d |>.
Proof. now destruct d. Qed.

Lemma syncModelCursors_ok d snapshot : ledger_ok d -> ledger_ok (syncModelCursorsLocked d snapshot).
Proof.
  intros H. unfold syncModelCursorsLocked.
  match goal with |- context [foldl ?f ?a ?l] => assert (HI : cursorsOnly d (foldl f a l)) end.
  { apply foldl_inv.
    - intros acc gm Hacc. apply foldl_inv; [|exact Hacc]. intros; now apply syncModelCursor_only.
    - split; cbn; [exists (draws d); apply draws_eta|]. intros key order [Ho _]%map_lookup_filter_Some.
      exact (lok_cursors d H _ _ Ho). }
  destruct (foldl _ _ _) as [d' cursors]. destruct HI as [[n Hn] HC]. cbn in Hn, HC. subst d'.
  now apply set_cursors_ok.
Qed.

Lemma SyncGroups_ok d snapshot : ledger_ok d -> ledger_ok (SyncGroups d snapshot).
Proof.
  intros H. unfold SyncGroups. destruct snapshot as [snapshot|]; [|exact H].
  destruct (_ && _); [exact H|]. apply syncModelCursors_ok.
  destruct H as [Hm Hw Hl Hs Hc Hj]. constructor; cbn; auto.
  - apply map_Forall_fmap. eapply map_Forall_impl; [exact Hm|]. intros id m Hok.
    eapply member_ok_transfer; eauto; now destruct (_ || _).
  - destruct Hl as [Hl|[Hl1 Hl2]]; [now left|right]. split; [|exact Hl2].
    rewrite lookup_fmap. destruct Hl1 as [m ->]. cbn. eauto.
Qed.

(** ** Properties *)

(** No model starves.  Let a model stand at position [k] of a rotation
    cursor.  If it is available in each of the following calls - whatever other
    models are available to the individual credentials - it is selected at the
    latest by call [k + 1]. *)
Theorem model_rotation_no_starvation (d : SchedulingLedger) (g : Z) (e : string)
    (calls : list (list string)) (k : nat) (m : string)
    (Hpos : cursor d g e !! k = Some m) (Hlen : (k < length calls)%nat)
    (Havail : Forall (fun models => StronglySorted string_le models /\ In m models) calls) :
  In m (firstn (S k) (selectModels d g e calls)).
Proof.
  apply (served_within k d g e calls m (take k (cursor d g e)) (drop (S k) (cursor d g e))).
  - rewrite length_take. apply lookup_lt_Some in Hpos. lia.
  - symmetry. now apply take_drop_middle.
  - exact Hlen.
  - exact Havail.
Qed.

Definition sampleRotation : SchedulingLedger :=
  NewSchedulingState <| ModelCursors := {[ mkModelKey 1 "gpt" := ["a"; "b"; "c"]%string ]} |>.

Lemma model_rotation_no_starvation_witness :
  selectModels sampleRotation 1 "gpt" [["a"; "c"]; ["b"; "c"]; ["c"]]%string = ["a"; "b"; "c"]%string /\
  In "c"%string (firstn 3 (selectModels sampleRotation 1 "gpt" [["a"; "c"]; ["b"; "c"]; ["c"]]%string)).
Proof.
  split; [vm_compute; reflexivity|].
  apply model_rotation_no_starvation; [vm_compute; reflexivity|cbn; lia|].
  repeat (apply List.Forall_cons; [split; [repeat constructor|cbn; tauto]|]). constructor.
Defined.

(** Cursor reconciliation.  Publishing a configuration keeps the surviving
    models of a cursor in their rotation order and appends the new ones in
    configured order; the result lists every configured model exactly once. *)
Theorem reconcile_keeps_rotation (previous configured : list string)
    (Hp : NoDup previous) (Hc : NoDup configured) :
  reconcileModelOrder previous configured =
    List.filter (fun x => bool_decide (x ∈ configured)) previous ++
    List.filter (fun x => bool_decide (x ∉ previous)) configured /\
  Permutation (reconcileModelOrder previous configured) configured.
Proof.
  destruct (reconcile_spec previous configured) as [Hnd Hin]. split.
  - unfold reconcileModelOrder. pose proof (takeRemaining_filter (list_to_set configured) previous Hp) as E1.
    destruct (takeRemaining (list_to_set configured) previous) as [kept rem] eqn:T1. cbn in E1.
    destruct (takeRemaining_spec _ _ _ _ T1) as (_ & -> & K3).
    pose proof (takeRemaining_filter (list_to_set configured ∖ list_to_set kept) configured Hc) as E2.
    destruct (takeRemaining _ configured) as [added rem']. cbn in E2. f_equal.
    + rewrite E1. apply List.filter_ext. intros x. apply bool_decide_ext. now rewrite elem_of_list_to_set.
    + rewrite E2. apply List.filter_ext_in. intros x Hx%list_elem_of_In. apply bool_decide_ext.
      rewrite elem_of_difference, !elem_of_list_to_set, K3, elem_of_list_to_set. tauto.
  - apply NoDup_Permutation; auto.
Qed.

Lemma reconcile_keeps_rotation_witness :
  reconcileModelOrder ["c"; "a"; "x"]%string ["a"; "b"; "c"]%string = ["c"; "a"; "b"]%string /\
  Permutation (reconcileModelOrder ["c"; "a"; "x"]%string ["a"; "b"; "c"]%string) ["a"; "b"; "c"]%string.
Proof.
  split; [vm_compute; reflexivity|].
  apply reconcile_keeps_rotation; apply (bool_decide_eq_true_1 _); vm_compute; reflexivity.
Defined.

End Ledger.
