(* ===== verification/Fair.v ===== *)
(** * Weighted fair selection

    [internal/scheduler/fair.go]: one allocation among the eligible candidates.
    Every credential advances a coordinate by its share [2^64 / weight] per
    allocation and the least advanced one is chosen (stride scheduling), with
    admission of waiting members at the leading coordinate, a preferred
    credential, and a bound on consecutive allocations.

    The definitions follow [selectCredential] pass by pass; the iterator's
    snapshot enters only through its revision ([None] is a nil snapshot). *)

From Stdlib Require Import ZArith Lia Bool String Ascii List Permutation.
From stdpp Require Import base gmap sets list strings.
From coqutil Require Import Datatypes.RecordSettersUsingExistingGetters.
From S2P Require Import Prelude Credential Ledger.
Import Credential Ledger.

Local Open Scope Z_scope.

Module Fair.

Record weightedCredential := mkWeighted { meta : CredentialMeta; weight : Z }.

Definition cid (c : weightedCredential) : Z := c.(meta).(meta_ID).

Definition effectiveWeight (groupManual credentialManual : option Z) : Z :=
  let groupWeight := ConfiguredWeight groupManual in
  let credentialWeight := ConfiguredWeight credentialManual in
  if (groupWeight <=? 0) || (credentialWeight <=? 0) then 0 else groupWeight * credentialWeight.

(** ** The passes of [selectCredential] *)

(** A candidate counts only under the identity the ledger accounts. *)
Definition memberMatches (m : SchedulingMember) (c : weightedCredential) : bool :=
  (m.(member_GroupID) =? c.(meta).(meta_GroupID)) &&
  (m.(member_IdentityGeneration) =? c.(meta).(meta_IdentityGeneration)).

Record pass := mkPass {
  pass_ledger : SchedulingLedger;
  eligible : list weightedCredential;
  baseline : SchedulingProgress;
  hasBaseline : bool;
}.

Definition progressAhead (p q : SchedulingProgress) : bool :=
  match Compare p q with Gt => true | _ => false end.

Definition eligibleStep (acc : pass) (candidate : weightedCredential) : pass :=
  let d := acc.(pass_ledger) in
  match d.(Members) !! cid candidate with
  | Some member =>
    if negb (memberMatches member candidate) then acc
    else
      let '(d, member) := Stagger d member candidate.(weight) in
      let d := d <| Members := <[ cid candidate := member ]> d.(Members) |> in
      let kept := acc.(eligible) ++ [candidate] in
      if negb member.(Pending) &&
         (negb acc.(hasBaseline) || progressAhead member.(Progress) acc.(baseline))
      then mkPass d kept member.(Progress) true
      else mkPass d kept acc.(baseline) acc.(hasBaseline)
  | None => acc
  end.

Definition collectEligible (d : SchedulingLedger) (candidates : list weightedCredential) : pass :=
  foldl eligibleStep (mkPass d [] d.(Watermark) false) candidates.

(** A waiting member enters only for an enabled group and a current snapshot. *)
Definition mayAdmit (revision : option Z) (d : SchedulingLedger) (member : SchedulingMember) : bool :=
  member.(Pending) && (negb d.(GroupsKnown) || groupEnabled d member.(member_GroupID)) &&
  match revision with Some r => r >=? d.(GroupRevision) | None => false end.

Definition admitStep (revision : option Z) (base : SchedulingProgress) (d : SchedulingLedger)
    (candidate : weightedCredential) : SchedulingLedger :=
  match d.(Members) !! cid candidate with
  | Some member =>
    if mayAdmit revision d member
    then d <| Members := <[ cid candidate := Admit member base ]> d.(Members) |> else d
  | None => d
  end.

Definition admitPending (revision : option Z) (base : SchedulingProgress) (d : SchedulingLedger)
    (candidates : list weightedCredential) : SchedulingLedger :=
  foldl (admitStep revision base) d candidates.

Definition memberLess (a b : SchedulingMember) : bool :=
  match Compare a.(Progress) b.(Progress) with
  | Lt => true
  | Gt => false
  | Eq => if negb (a.(LastSelected) =? b.(LastSelected)) then a.(LastSelected) <? b.(LastSelected)
          else a.(member_ID) <? b.(member_ID)
  end.

Definition less (d : SchedulingLedger) (left right : weightedCredential) : bool :=
  match d.(Members) !! cid left, d.(Members) !! cid right with
  | Some a, Some b => memberLess a b
  | _, _ => false
  end.

Definition leastOf (d : SchedulingLedger) (first : weightedCredential)
    (rest : list weightedCredential) : weightedCredential :=
  foldl (fun first candidate => if less d candidate first then candidate else first) first rest.

Definition findPreferred (preferred : Z) (candidates : list weightedCredential)
    : option weightedCredential :=
  List.find (fun c => cid c =? preferred) candidates.

(** The least advanced candidate other than [first]; [None] is the zero value. *)
Definition alternativeStep (d : SchedulingLedger) (first : weightedCredential)
    (alternative : option weightedCredential) (candidate : weightedCredential)
    : option weightedCredential :=
  if negb (cid candidate =? cid first) &&
     match alternative with Some a => (cid a =? 0) || less d candidate a | None => true end
  then Some candidate else alternative.

Definition alternativeOf (d : SchedulingLedger) (first : weightedCredential)
    (candidates : list weightedCredential) : option weightedCredential :=
  foldl (alternativeStep d first) None candidates.

Definition alternationLimit (first alternative : Z) : Z :=
  99 + (first + alternative - 1) `quot` alternative.

(** After 100 consecutive allocations a longer streak must be warranted by the
    weights.  Ids of eligible candidates are distinct, so an alternative exists
    whenever there are two of them. *)
Definition limitStreak (d : SchedulingLedger) (first : weightedCredential)
    (candidates : list weightedCredential) : weightedCredential :=
  if (d.(LastMember) =? cid first) && (1 <? length candidates)%nat && (d.(Consecutive) >=? 100) then
    match alternativeOf d first candidates with
    | Some alternative =>
      if d.(Consecutive) >=? alternationLimit first.(weight) alternative.(weight)
      then alternative else first
    | None => first
    end
  else first.

(** Record one allocation; [None] when the coordinate range is exhausted. *)
Definition charge (d : SchedulingLedger) (first : weightedCredential) : option SchedulingLedger :=
  match d.(Members) !! cid first with
  | None => None
  | Some member =>
    let '(next, ok) := Advance member.(Progress) first.(weight) in
    if negb ok then None
    else
      let sequence := d.(Sequence) + 1 in
      let member := member <| Progress := next |> <| LastSelected := sequence |> in
      let d := d <| Members := <[ cid first := member ]> d.(Members) |>
                 <| Sequence := sequence |> <| Started := true |>
                 <| Watermark := if progressAhead next d.(Watermark) then next else d.(Watermark) |> in
      Some (if negb (d.(LastMember) =? member.(member_ID))
            then d <| LastMember := member.(member_ID) |> <| Consecutive := 1 |>
            else if d.(Consecutive) <? 99 + MaxWeight * MaxWeight
            then d <| Consecutive := d.(Consecutive) + 1 |>
            else d)
  end.

(** The candidate an allocation goes to, after admission. *)
Definition pick (d : SchedulingLedger) (first : weightedCredential)
    (rest : list weightedCredential) (preferred : Z) : weightedCredential :=
  match findPreferred preferred (first :: rest) with
  | Some candidate => candidate
  | None => limitStreak d (leastOf d first rest) (first :: rest)
  end.

Definition selectCredential (revision : option Z) (d : SchedulingLedger)
    (candidates : list weightedCredential) (preferred : Z)
    : SchedulingLedger * option CredentialMeta :=
  let collected := collectEligible d candidates in
  let d := collected.(pass_ledger) in
  match collected.(eligible) with
  | [] => (d, None)
  | first :: rest =>
    if d.(Sequence) =? max_uint64 then (d, None)
    else
      let d := admitPending revision collected.(baseline) d (first :: rest) in
      let chosen := pick d first rest preferred in
      match charge d chosen with
      | Some d => (d, Some chosen.(meta))
      | None => (d, None)
      end
  end.

(** ** The ledger invariant is preserved *)

Definition weights_ok (cs : list weightedCredential) : Prop :=
  Forall (fun c => 1 <= c.(weight) <= MaxWeight * MaxWeight) cs.

Lemma weight_u64 w : 1 <= w <= MaxWeight * MaxWeight -> 1 <= w < two64.
Proof. unfold MaxWeight, two64. lia. Qed.

Lemma progressAhead_spec p q : progress_wf p -> progress_wf q ->
  progressAhead p q = (value q <? value p).
Proof.
  intros Hp Hq. unfold progressAhead. rewrite Compare_spec by assumption.
  destruct (Z.compare_spec (value p) (value q)); symmetry; [apply Z.ltb_ge|apply Z.ltb_ge|apply Z.ltb_lt]; lia.
Qed.

Lemma Stagger_ok d id m w : ledger_ok d -> member_ok d id m -> 1 <= w < two64 ->
  let '(d', m') := Stagger d m w in
  ledger_ok d' /\ member_ok d' id m' /\ Members d' = Members d.
Proof.
  intros Hd Hm Hw. unfold Stagger. destruct (jitter d) as [random|] eqn:Ej; [|auto].
  destruct (staggered m || Pending m || (w =? 0)); [auto|].
  pose proof (lok_jitter d Hd random Ej (draws d)) as Hr.
  set (step := if w >? 1 then div64 w else max_uint64) in *.
  assert (Hs : 0 < step < two64).
  { subst step. destruct (Z.gtb_spec w 1); [pose proof (div64_range w); lia|unfold max_uint64, two64; lia]. }
  specialize (Hr step ltac:(lia)). destruct Hm as [H1 H2 H3 H4 H5].
  pose proof (add64_exact (Fraction (Progress m)) (random (draws d) step) (proj2 H3) ltac:(split; lia)) as Ha.
  destruct (add64 _ _) as [f c]. destruct Ha as (Hf & _ & _). split; [|split; [|reflexivity]].
  - apply (set_cursors_ok d _ (S (draws d)) Hd). apply Hd.
  - constructor; cbn; auto.
    + split; cbn; [apply wrap_u64_range|exact Hf].
    + congruence.
Qed.

Lemma set_members_eta d : d <| Members := Members d |> = d.
Proof. now destruct d. Qed.

Record pass_ok (acc : pass) : Prop := {
  pok_ledger : ledger_ok acc.(pass_ledger);
  pok_wf : progress_wf acc.(baseline);
  pok_water : acc.(pass_ledger).(jitter) = None ->
              value acc.(baseline) <= value acc.(pass_ledger).(Watermark);
}.

Lemma eligibleStep_ok acc c : pass_ok acc -> 1 <= weight c < two64 -> pass_ok (eligibleStep acc c).
Proof.
  intros [Hd Hb Hw] Hc. unfold eligibleStep. destruct (Members _ !! cid c) as [m|] eqn:Em; [|now split].
  destruct (negb (memberMatches m c)); [now split|].
  pose proof (Stagger_ok _ _ _ _ Hd (lok_members _ Hd _ _ Em) Hc) as Hs.
  destruct (Stagger (pass_ledger acc) m (weight c)) as [d' m'] eqn:Es. destruct Hs as (H1 & H2 & H3).
  pose proof (insert_member_ok d' (cid c) m' H1 H2) as H4.
  assert (Hj : jitter d' = jitter (pass_ledger acc) /\ Watermark d' = Watermark (pass_ledger acc)).
  { clear -Es. unfold Stagger in Es. destruct (jitter (pass_ledger acc)) eqn:E; [|now injection Es as <- _].
    destruct (_ || _ || _); [now injection Es as <- _|]. destruct (add64 _ _). now injection Es as <- _. }
  destruct Hj as [Hj1 Hj2]. destruct (_ && _); constructor; cbn; auto.
  - apply H2.
  - intros HN. rewrite Hj1 in HN. apply H2. congruence.
  - rewrite Hj1, Hj2. exact Hw.
Qed.

Lemma collectEligible_ok d cs : ledger_ok d -> weights_ok cs -> pass_ok (collectEligible d cs).
Proof.
  intros Hd HW. unfold collectEligible.
  assert (H0 : pass_ok (mkPass d [] (Watermark d) false)) by (split; cbn; auto; [apply Hd|lia]).
  revert H0. generalize (mkPass d [] (Watermark d) false). clear Hd.
  induction HW as [|c cs Hc HW IH]; intros acc H0; cbn; [exact H0|].
  apply IH, eligibleStep_ok; auto using weight_u64.
Qed.

Lemma Admit_ok d id m base : member_ok d id m -> progress_wf base ->
  (jitter d = None -> value base <= value (Watermark d)) -> member_ok d id (Admit m base).
Proof.
  intros [H1 H2 H3 H4 H5] Hb Hw. unfold Admit. destruct (Compare _ _); constructor; cbn; auto.
Qed.

Lemma admitPending_ok rev base cs : forall d, ledger_ok d -> progress_wf base ->
  (jitter d = None -> value base <= value (Watermark d)) -> ledger_ok (admitPending rev base d cs).
Proof.
  unfold admitPending. induction cs as [|c cs IH]; intros d Hd Hb Hw; cbn; [exact Hd|].
  unfold admitStep at 2. destruct (Members d !! cid c) as [m|] eqn:Em; [|now apply IH].
  destruct (mayAdmit rev d m); [|now apply IH]. apply IH; cbn; auto.
  apply insert_member_ok; [exact Hd|]. apply Admit_ok; auto. exact (lok_members d Hd _ _ Em).
Qed.

Lemma charge_ok d c d' : ledger_ok d -> Sequence d <> max_uint64 -> 1 <= weight c < two64 ->
  charge d c = Some d' -> ledger_ok d'.
Proof.
  intros Hd Hseq Hw H. unfold charge in H. destruct (Members d !! cid c) as [m|] eqn:Em; [|discriminate].
  destruct Hd as [Hm Hwt Hl Hs Hc Hj]. pose proof (Hm _ _ Em) as [M1 M2 M3 M4 M5].
  pose proof (Advance_exact (Progress m) (weight c) M3 Hw) as HA.
  destruct (Advance (Progress m) (weight c)) as [next ok]. destruct HA as (Hn & _ & Hv).
  destruct ok; cbn [negb] in H; [|discriminate]. specialize (Hv eq_refl).
  rewrite progressAhead_spec in H by assumption.
  set (wm := if value (Watermark d) <? value next then next else Watermark d) in *.
  assert (Hwm : progress_wf wm /\ value next <= value wm /\ value (Watermark d) <= value wm).
  { subst wm. destruct (Z.ltb_spec (value (Watermark d)) (value next)); repeat split;
      try apply Hn; try apply Hwt; lia. }
  destruct Hwm as (W1 & W2 & W3). cbn [LastMember Consecutive member_ID set const] in H.
  assert (HM : forall d'', Sequence d'' = Sequence d + 1 -> jitter d'' = jitter d -> Watermark d'' = wm ->
    map_Forall (member_ok d'')
      (<[cid c := m <| Progress := next |> <| LastSelected := Sequence d + 1 |>]> (Members d))).
  { intros d'' E1 E2 E3. apply map_Forall_insert_2.
    - constructor; cbn; rewrite ?E1, ?E2, ?E3; auto; lia.
    - eapply map_Forall_impl; [exact Hm|]. intros id x [X1 X2 X3 X4 X5].
      constructor; rewrite ?E1, ?E2, ?E3; auto; [lia|]. intros HN. specialize (X5 HN). lia. }
  assert (Hlast : forall k, 1 <= k <= maxConsecutive ->
    is_Some (<[cid c := m <| Progress := next |> <| LastSelected := Sequence d + 1 |>]> (Members d)
               !! member_ID m) /\ 1 <= k <= maxConsecutive).
  { intros k Hk. rewrite M1, lookup_insert_eq. eauto. }
  destruct (Z.eqb_spec (LastMember d) (member_ID m)) as [El|El]; cbn [negb] in H.
  - destruct (Consecutive d <? 99 + MaxWeight * MaxWeight) eqn:Ek; injection H as <-.
    + apply Z.ltb_lt in Ek. constructor; cbn; auto; [right|lia]. rewrite El. apply Hlast.
      destruct Hl as [[? ?]|[? ?]]; unfold maxConsecutive in *; lia.
    + constructor; cbn; auto; [right|lia]. rewrite El. apply Hlast.
      destruct Hl as [[? ?]|[? ?]]; [|assumption]. congruence.
  - injection H as <-. constructor; cbn; auto; [right|lia]. apply Hlast.
    unfold maxConsecutive, MaxWeight. lia.
Qed.

(** ** The choice comes from the eligible candidates *)

Lemma leastOf_in d first rest : In (leastOf d first rest) (first :: rest).
Proof.
  revert first. induction rest as [|c rest IH]; intros first; [now left|].
  cbn [leastOf foldl]. specialize (IH (if less d c first then c else first)).
  unfold leastOf in IH. destruct IH as [IH|IH]; [|now right; right].
  destruct (less d c first); [right; left|left]; exact IH.
Qed.

Lemma alternativeOf_in d first cs acc a :
  (forall x, acc = Some x -> In x cs /\ cid x <> cid first) ->
  forall rest, incl rest cs -> foldl (alternativeStep d first) acc rest = Some a ->
  In a cs /\ cid a <> cid first.
Proof.
  intros Hacc rest. revert acc Hacc. induction rest as [|c rest IH]; intros acc Hacc Hin H; [now apply Hacc|].
  cbn [foldl] in H. apply IH in H; [exact H| |now intros x Hx; apply Hin; right].
  intros x. unfold alternativeStep. destruct (_ && _) eqn:E; [|apply Hacc].
  intros [= <-]. apply andb_true_iff in E as [E _]. apply negb_true_iff, Z.eqb_neq in E.
  split; [apply Hin; now left|exact E].
Qed.

Lemma limitStreak_in d first cs : In first cs -> In (limitStreak d first cs) cs.
Proof.
  intros H. unfold limitStreak. destruct (_ && _ && _); [|exact H].
  destruct (alternativeOf d first cs) as [a|] eqn:E; [|exact H]. destruct (_ >=? _); [|exact H].
  eapply (alternativeOf_in d first cs None); [discriminate|apply incl_refl|exact E].
Qed.

Lemma pick_in d first rest preferred : In (pick d first rest preferred) (first :: rest).
Proof.
  unfold pick. destruct (findPreferred preferred (first :: rest)) as [c|] eqn:E.
  - unfold findPreferred in E. now apply List.find_some in E.
  - apply limitStreak_in, leastOf_in.
Qed.

Lemma eligible_incl d cs : incl (eligible (collectEligible d cs)) cs.
Proof.
  unfold collectEligible. set (acc := mkPass d [] (Watermark d) false).
  assert (Ha : incl (eligible acc) cs) by (intros x []). revert Ha. generalize acc. clear acc.
  assert (Hcs : incl cs cs) by apply incl_refl. revert Hcs.
  generalize cs at 1 4 as rest. induction rest as [|c rest IH]; intros Hin acc Ha; cbn; [exact Ha|].
  apply IH; [now intros x Hx; apply Hin; right|]. unfold eligibleStep.
  assert (Happ : incl (eligible acc ++ [c]) cs).
  { intros x [Hx|[->|[]]]%List.in_app_or; [now apply Ha|apply Hin; now left]. }
  destruct (Members _ !! _); [|exact Ha]. destruct (negb _); [exact Ha|].
  destruct (Stagger _ _ _). now destruct (_ && _).
Qed.

Lemma weights_ok_in cs c : weights_ok cs -> In c cs -> 1 <= weight c < two64.
Proof. intros H Hc. apply weight_u64. unfold weights_ok in H. rewrite List.Forall_forall in H. auto. Qed.

Lemma selectCredential_ok rev d cs pref : ledger_ok d -> weights_ok cs ->
  ledger_ok (fst (selectCredential rev d cs pref)).
Proof.
  intros Hd HW. unfold selectCredential. pose proof (collectEligible_ok d cs Hd HW) as [P1 P2 P3].
  pose proof (eligible_incl d cs) as Hin.
  destruct (eligible (collectEligible d cs)) as [|first rest]; [exact P1|].
  destruct (Z.eqb_spec (Sequence (pass_ledger (collectEligible d cs))) max_uint64) as [E|E]; [exact P1|].
  pose proof (admitPending_ok rev _ (first :: rest) _ P1 P2 P3) as HA.
  set (d1 := admitPending _ _ _ _) in *.
  assert (Es : Sequence d1 = Sequence (pass_ledger (collectEligible d cs))).
  { subst d1. unfold admitPending. generalize (pass_ledger (collectEligible d cs)). clear.
    generalize (first :: rest). intros l. induction l as [|c l IH]; intros d0; cbn; [reflexivity|].
    rewrite IH. unfold admitStep. destruct (Members d0 !! cid c); [|reflexivity].
    now destruct (mayAdmit _ _ _). }
  destruct (charge d1 (pick d1 first rest pref)) as [d2|] eqn:Ec; [|exact HA].
  cbn. eapply charge_ok; [exact HA|congruence| |exact Ec].
  eapply weights_ok_in; [exact HW|]. apply Hin, pick_in.
Qed.

(** ** Reachable ledgers *)

(** Every operation the gateway performs on the shared ledger. *)
Inductive ledgerStep : SchedulingLedger -> SchedulingLedger -> Prop :=
| step_sync now d view : view_ID view <> 0 -> ledgerStep d (SyncCredential now d view)
| step_sync_all now d g views : Forall (fun v => view_ID v <> 0) views ->
    ledgerStep d (SyncCredentials now d g views)
| step_remove d id : ledgerStep d (Remove d id)
| step_groups d snapshot : ledgerStep d (SyncGroups d snapshot)
| step_model d g e models : ledgerStep d (fst (SelectModel d g e models))
| step_select rev d cs pref : weights_ok cs -> ledgerStep d (fst (selectCredential rev d cs pref)).

Lemma staggered_ledger_ok random : jitterLawful random -> ledger_ok (NewStaggeredSchedulingState random).
Proof.
  intros Hr. destruct fresh_ledger_ok as [_ Hw Hl Hs Hc _]. constructor; auto; [apply map_Forall_empty|].
  intros f Hf. injection Hf as <-. exact Hr.
Qed.

Inductive reachable : SchedulingLedger -> Prop :=
| reach_new : reachable NewSchedulingState
| reach_staggered random : jitterLawful random -> reachable (NewStaggeredSchedulingState random)
| reach_step d d' : reachable d -> ledgerStep d d' -> reachable d'.

(** The ledger invariant.  In every ledger reachable by credential, group,
    model-rotation and selection operations: each member is stored under its
    non-zero id with a well-formed 128-bit coordinate and a selection stamp not
    beyond the sequence counter; without random staggering no coordinate exceeds
    the watermark; the last member of a streak is a live member with a streak
    length within its cap, or the streak is empty; rotation cursors hold no
    duplicates. *)
Theorem ledger_invariant (d : SchedulingLedger) (H : reachable d) : ledger_ok d.
Proof.
  induction H as [|random Hr|d d' H IH Hs].
  - apply fresh_ledger_ok.
  - now apply staggered_ledger_ok.
  - destruct Hs; auto using syncCredential_ok, SyncCredentials_ok, removeLocked_ok, SyncGroups_ok,
      SelectModel_ok, selectCredential_ok.
Qed.

Definition sampleView (id group generation : Z) : CredentialRuntimeView :=
  mkView id group 1 generation "" None 0 CredentialStatusActive CredentialAuthStateReady 0 ∅ false 0 None 0.

Definition sampleCandidate (id group generation w : Z) : weightedCredential :=
  mkWeighted (mkMeta id group 1 generation None ∅) w.

Definition sampleLedger : SchedulingLedger :=
  SyncCredentials 1000 NewSchedulingState 0 [sampleView 1 9 1; sampleView 2 9 1].

Lemma ledger_invariant_witness :
  ledger_ok (fst (selectCredential (Some 0) sampleLedger [sampleCandidate 1 9 1 2500; sampleCandidate 2 9 1 100] 0)).
Proof.
  apply ledger_invariant. eapply reach_step; [|apply step_select].
  - eapply reach_step; [apply reach_new|]. apply step_sync_all. repeat constructor; discriminate.
  - repeat constructor; cbn; unfold MaxWeight; lia.
Defined.

(** ** Closed forms of the passes once nothing is left to draw *)

Definition accounted (d : SchedulingLedger) (c : weightedCredential) : bool :=
  match d.(Members) !! cid c with Some m => memberMatches m c | None => false end.

(** The coordinate a candidate holds in the ledger. *)
Definition coord (d : SchedulingLedger) (c : weightedCredential) : Z :=
  match d.(Members) !! cid c with Some m => value m.(Progress) | None => 0 end.
Definition waiting (d : SchedulingLedger) (c : weightedCredential) : bool :=
  match d.(Members) !! cid c with Some m => m.(Pending) | None => false end.

(** A candidate with nothing left to draw: the pass does not move it. *)
Definition settled (d : SchedulingLedger) (c : weightedCredential) : Prop :=
  forall m, d.(Members) !! cid c = Some m ->
    d.(jitter) = None \/ m.(staggered) = true \/ m.(Pending) = true.

Lemma no_jitter_settled d c : jitter d = None -> settled d c.
Proof. intros Hj m _. now left. Qed.

Lemma Stagger_settled d m w : jitter d = None \/ staggered m = true \/ Pending m = true ->
  Stagger d m w = (d, m).
Proof.
  unfold Stagger. destruct (jitter d); [|reflexivity].
  intros [?|[->| ->]]; [discriminate|reflexivity|]. now rewrite orb_true_r.
Qed.

(** What the baseline of a finished pass is: the leading coordinate among the
    admitted candidates seen, or the watermark when there is none. *)
Record baselineOf (d : SchedulingLedger) (seen : list weightedCredential) (acc : pass) : Prop := {
  bl_ledger : acc.(pass_ledger) = d;
  bl_eligible : acc.(eligible) = seen;
  bl_wf : progress_wf acc.(baseline);
  bl_max : forall c, In c seen -> waiting d c = false ->
           acc.(hasBaseline) = true /\ coord d c <= value acc.(baseline);
  bl_attained : acc.(hasBaseline) = true ->
           exists c, In c seen /\ waiting d c = false /\ coord d c = value acc.(baseline);
  bl_none : acc.(hasBaseline) = false -> acc.(baseline) = d.(Watermark);
}.

Lemma eligibleStep_det d seen acc c : ledger_ok d -> settled d c -> baselineOf d seen acc ->
  baselineOf d (seen ++ if accounted d c then [c] else []) (eligibleStep acc c).
Proof.
  intros Hd Hj [B1 B2 B3 B4 B5 B6]. unfold eligibleStep, accounted. rewrite B1.
  destruct (Members d !! cid c) as [m|] eqn:Em; [|rewrite app_nil_r; now constructor].
  destruct (memberMatches m c); cbn [negb]; [|rewrite app_nil_r; now constructor].
  rewrite (Stagger_settled d m _ (Hj m Em)), insert_id, set_members_eta by exact Em. rewrite B2.
  pose proof (lok_members d Hd _ _ Em) as [M1 M2 M3 M4 M5].
  rewrite progressAhead_spec by assumption.
  assert (Hc : coord d c = value (Progress m)) by (unfold coord; now rewrite Em).
  assert (Hp : waiting d c = Pending m) by (unfold waiting; now rewrite Em).
  destruct (Pending m); cbn [negb andb].
  - constructor; cbn; auto.
    + intros x [Hx|[->|[]]]%List.in_app_or; [auto|congruence].
    + intros Hb. destruct (B5 Hb) as (x & Hx & Hy). exists x. split; [apply in_or_app; now left|exact Hy].
  - destruct (hasBaseline acc) eqn:Eh; cbn [negb orb].
    + destruct (Z.ltb_spec (value (baseline acc)) (value (Progress m))) as [Hlt|Hge];
        constructor; cbn; auto; try discriminate.
      * intros x [Hx|[->|[]]]%List.in_app_or Hw; split; auto; [|lia]. destruct (B4 x Hx Hw). lia.
      * intros _. exists c. split; [apply in_or_app; now right; left|auto].
      * intros x [Hx|[->|[]]]%List.in_app_or Hw; auto. split; [auto|lia].
      * intros _. destruct (B5 eq_refl) as (x & Hx & Hy). exists x. split; [apply in_or_app; now left|exact Hy].
    + constructor; cbn; auto; try discriminate.
      * intros x [Hx|[->|[]]]%List.in_app_or Hw; [destruct (B4 x Hx Hw); congruence|]. split; [auto|lia].
      * intros _. exists c. split; [apply in_or_app; now right; left|auto].
Qed.

Lemma collectEligible_det d cs : ledger_ok d -> (forall c, In c cs -> settled d c) ->
  baselineOf d (List.filter (accounted d) cs) (collectEligible d cs).
Proof.
  intros Hd Hj. unfold collectEligible.
  assert (H0 : baselineOf d [] (mkPass d [] (Watermark d) false)).
  { constructor; cbn; auto; try discriminate; [apply Hd|contradiction]. }
  change (List.filter (accounted d) cs) with ([] ++ List.filter (accounted d) cs).
  revert H0. generalize (@nil weightedCredential) at 1 3. generalize (mkPass d [] (Watermark d) false).
  induction cs as [|c cs IH]; intros acc seen H0; cbn; [now rewrite app_nil_r|].
  pose proof (eligibleStep_det d seen acc c Hd (Hj c (or_introl eq_refl)) H0) as H1.
  specialize (IH (fun x Hx => Hj x (or_intror Hx)) _ _ H1).
  rewrite <- app_assoc in IH. now destruct (accounted d c).
Qed.

Definition admittedMembers (rev : option Z) (base : SchedulingProgress) (d : SchedulingLedger)
    (ids : list Z) : gmap Z SchedulingMember :=
  map_imap (fun id m => Some (if bool_decide (id ∈ ids) && mayAdmit rev d m then Admit m base else m))
    d.(Members).

Lemma Admit_not_pending rev base d m : mayAdmit rev d (Admit m base) = false.
Proof. unfold mayAdmit, Admit. now destruct (Compare _ _). Qed.

Lemma set_members_ext d m1 m2 : m1 = m2 -> d <| Members := m1 |> = d <| Members := m2 |>.
Proof. now intros ->. Qed.

Lemma mayAdmit_set rev d ms m : mayAdmit rev (d <| Members := ms |>) m = mayAdmit rev d m.
Proof. reflexivity. Qed.

Lemma elem_cons_ne (x y : Z) l : x <> y -> bool_decide (x ∈ y :: l) = bool_decide (x ∈ l).
Proof. intros H. apply bool_decide_ext. rewrite elem_of_cons. tauto. Qed.

Lemma admitPending_closed rev base cs : forall d,
  admitPending rev base d cs = d <| Members := admittedMembers rev base d (map cid cs) |>.
Proof.
  unfold admitPending. induction cs as [|c cs IH]; intros d; cbn [foldl map].
  - rewrite <- (set_members_eta d) at 1. apply set_members_ext, map_eq. intros id.
    unfold admittedMembers. rewrite map_lookup_imap. now destruct (Members d !! id).
  - rewrite IH. unfold admitStep. destruct (Members d !! cid c) as [m|] eqn:Em.
    1: destruct (mayAdmit rev d m) eqn:Ea.
    + transitivity (d <| Members := admittedMembers rev base
        (d <| Members := <[cid c := Admit m base]> (Members d) |>) (map cid cs) |>); [reflexivity|].
      apply set_members_ext, map_eq. intros id. unfold admittedMembers. rewrite !map_lookup_imap.
      change (Members (d <| Members := ?x |>)) with x. destruct (decide (id = cid c)) as [->|Hn].
      * rewrite lookup_insert_eq, Em. cbn [mbind option_bind].
        rewrite mayAdmit_set, Admit_not_pending, Ea, andb_false_r.
        now rewrite (bool_decide_eq_true_2 (_ ∈ cid c :: _)) by now left.
      * rewrite lookup_insert_ne by congruence. destruct (Members d !! id); [|reflexivity].
        cbn [mbind option_bind]. now rewrite mayAdmit_set, elem_cons_ne.
    + apply set_members_ext, map_eq. intros id. unfold admittedMembers. rewrite !map_lookup_imap.
      destruct (Members d !! id) as [x|] eqn:Ex; [|reflexivity]. cbn.
      destruct (decide (id = cid c)) as [->|Hn]; [|now rewrite elem_cons_ne].
      rewrite Em in Ex. injection Ex as <-. now rewrite Ea, !andb_false_r.
    + apply set_members_ext, map_eq. intros id. unfold admittedMembers. rewrite !map_lookup_imap.
      destruct (Members d !! id) as [x|] eqn:Ex; [|reflexivity]. cbn.
      rewrite elem_cons_ne; [reflexivity|congruence].
Qed.

End Fair.
