(* ===== verification/Fairness.v ===== *)
(** * Properties of weighted fair selection

    Order independence of the choice and admission at the leading coordinate, for
    a ledger without random staggering, and the weighted-share bound for every
    ledger, with or without a random source: staggering only shifts the starting
    coordinates, in the first pass, by less than one share. *)

From Stdlib Require Import ZArith Lia Bool String Ascii List Permutation.
From stdpp Require Import base gmap sets list strings.
From coqutil Require Import Datatypes.RecordSettersUsingExistingGetters.
From S2P Require Import Prelude Credential Ledger Fair.
Import Credential Ledger Fair.

Local Open Scope Z_scope.

Module Fairness.

(** ** The selection order *)

Definition stamp (d : SchedulingLedger) (c : weightedCredential) : Z :=
  match d.(Members) !! cid c with Some m => m.(LastSelected) | None => 0 end.

Definition before (d : SchedulingLedger) (x y : weightedCredential) : Prop :=
  coord d x < coord d y \/ coord d x = coord d y /\
  (stamp d x < stamp d y \/ stamp d x = stamp d y /\ cid x < cid y).

(** Every candidate of the list is a member. *)
Definition present (d : SchedulingLedger) (cs : list weightedCredential) : Prop :=
  forall c, In c cs -> is_Some (d.(Members) !! cid c).

Lemma less_spec d x y : ledger_ok d -> is_Some (Members d !! cid x) -> is_Some (Members d !! cid y) ->
  less d x y = true <-> before d x y.
Proof.
  intros Hd [a Ha] [b Hb]. unfold less, before, coord, stamp. rewrite Ha, Hb.
  destruct (lok_members d Hd _ _ Ha) as [A1 _ A3 _ _], (lok_members d Hd _ _ Hb) as [B1 _ B3 _ _].
  unfold memberLess. rewrite Compare_spec by assumption.
  destruct (Z.compare_spec (value (Progress a)) (value (Progress b))) as [E|E|E].
  - destruct (Z.eqb_spec (LastSelected a) (LastSelected b)) as [F|F]; cbn [negb].
    + rewrite Z.ltb_lt. lia.
    + rewrite Z.ltb_lt. lia.
  - split; [now left|reflexivity].
  - split; [discriminate|lia].
Qed.

Lemma less_false d x y : ledger_ok d -> is_Some (Members d !! cid x) -> is_Some (Members d !! cid y) ->
  less d x y = false <-> ~ before d x y.
Proof. intros Hd Hx Hy. rewrite <- (less_spec d x y Hd Hx Hy). destruct (less d x y); intuition congruence. Qed.

Lemma before_total d x y : cid x <> cid y -> before d x y \/ before d y x.
Proof. unfold before. lia. Qed.

Definition minimal (d : SchedulingLedger) (cs : list weightedCredential) (x : weightedCredential) : Prop :=
  In x cs /\ forall y, In y cs -> ~ before d y x.

Lemma cid_inj cs x y : NoDup (map cid cs) -> In x cs -> In y cs -> cid x = cid y -> x = y.
Proof. apply NoDup_map_inj. Qed.

Lemma minimal_unique d cs x y : NoDup (map cid cs) -> minimal d cs x -> minimal d cs y -> x = y.
Proof.
  intros Hnd [Hx Mx] [Hy My]. apply (cid_inj cs); auto.
  destruct (Z.eq_dec (cid x) (cid y)) as [E|E]; [exact E|].
  destruct (before_total d x y E) as [H|H]; [now apply My in H|now apply Mx in H].
Qed.

Lemma minimal_perm d cs cs' x : Permutation cs cs' -> minimal d cs x -> minimal d cs' x.
Proof.
  intros HP [H1 H2]. split; [now apply (Permutation_in _ HP)|].
  intros y Hy. apply H2. now apply (Permutation_in _ (Permutation_sym HP)).
Qed.

Lemma leastOf_minimal d : ledger_ok d -> forall rest first, present d (first :: rest) ->
  minimal d (first :: rest) (leastOf d first rest).
Proof.
  intros Hd. induction rest as [|c rest IH]; intros first Hp.
  - change (leastOf d first []) with first. split; [now left|]. intros y [<-|[]]. unfold before. lia.
  - cbn [leastOf foldl]. fold (leastOf d (if less d c first then c else first) rest).
    assert (Pf : is_Some (Members d !! cid first)) by (apply Hp; now left).
    assert (Pc : is_Some (Members d !! cid c)) by (apply Hp; right; now left).
    set (k := if less d c first then c else first).
    assert (Hk : ~ before d first k /\ ~ before d c k /\ (k = first \/ k = c)).
    { subst k. destruct (less d c first) eqn:E.
      - apply less_spec in E; auto. repeat split; auto; unfold before in *; lia.
      - apply less_false in E; auto. repeat split; auto; unfold before in *; lia. }
    destruct Hk as (K1 & K2 & K3).
    assert (Hp' : present d (k :: rest)).
    { intros y [<-|Hy]; [destruct K3 as [-> | ->]; assumption|]. apply Hp. right. now right. }
    destruct (IH k Hp') as [H1 H2]. specialize (H2 k ltac:(now left)) as Hkr. split.
    + destruct H1 as [<-|H1]; [|right; now right]. destruct K3 as [-> | ->]; [now left|right; now left].
    + intros y [<-|[<-|Hy]]; [unfold before in *; lia|unfold before in *; lia|]. apply H2. now right.
Qed.

(** The same argument for the best candidate other than [first]. *)
Definition others (first : weightedCredential) (cs : list weightedCredential) : list weightedCredential :=
  List.filter (fun c => negb (cid c =? cid first)) cs.

Lemma alternative_fold d first cs : ledger_ok d -> present d cs ->
  Forall (fun c => cid c <> 0) cs -> forall acc, is_Some (Members d !! cid acc) -> cid acc <> 0 ->
  foldl (alternativeStep d first) (Some acc) cs = Some (leastOf d acc (others first cs)).
Proof.
  intros Hd Hp HF. induction HF as [|c cs Hc HF IH]; intros acc Ha Hnz; [reflexivity|].
  cbn [foldl others List.filter]. unfold alternativeStep at 2.
  assert (Hp' : present d cs) by (intros y Hy; apply Hp; now right).
  destruct (cid c =? cid first); cbn [negb andb]; [now apply IH|].
  rewrite (proj2 (Z.eqb_neq (cid acc) 0) Hnz). cbn [orb leastOf foldl].
  destruct (less d c acc); apply IH; auto. apply Hp. now left.
Qed.

Lemma alternativeOf_closed d first cs : ledger_ok d -> present d cs ->
  Forall (fun c => cid c <> 0) cs ->
  alternativeOf d first cs =
  match others first cs with [] => None | c :: rest => Some (leastOf d c rest) end.
Proof.
  intros Hd Hp HF. unfold alternativeOf. induction HF as [|c cs Hc HF IH]; [reflexivity|].
  cbn [foldl others List.filter]. unfold alternativeStep at 2.
  assert (Hp' : present d cs) by (intros y Hy; apply Hp; now right).
  destruct (cid c =? cid first); cbn [negb andb]; [now apply IH|].
  apply alternative_fold; auto. apply Hp. now left.
Qed.

Lemma present_others d first cs : present d cs -> present d (others first cs).
Proof. intros Hp y Hy. apply List.filter_In in Hy. now apply Hp. Qed.


(** ** Order independence *)

Lemma perm_In {A} (l l' : list A) x : Permutation l l' -> In x l <-> In x l'.
Proof. intros H. split; apply Permutation_in; [exact H|now apply Permutation_sym]. Qed.

Lemma filter_Permutation {A} (f : A -> bool) l l' :
  Permutation l l' -> Permutation (List.filter f l) (List.filter f l').
Proof.
  induction 1 as [|x l l' H IH|x y l|l l' l'' H1 IH1 H2 IH2]; cbn; auto.
  - destruct (f x); auto.
  - destruct (f x), (f y); auto. apply perm_swap.
  - etransitivity; eauto.
Qed.

Lemma filter_cids f cs : NoDup (map cid cs) -> NoDup (map cid (List.filter f cs)).
Proof.
  induction cs as [|c cs IH]; cbn; [auto|]. intros [Hc Hnd]%NoDup_cons.
  destruct (f c); [|auto]. cbn. apply NoDup_cons. split; [|auto].
  rewrite list_elem_of_In, in_map_iff in *. intros (y & E & Hy%List.filter_In).
  apply Hc. exists y. tauto.
Qed.

Lemma findPreferred_perm pref cs cs' : NoDup (map cid cs) -> Permutation cs cs' ->
  findPreferred pref cs = findPreferred pref cs'.
Proof.
  intros Hnd HP. unfold findPreferred.
  destruct (List.find (fun c => cid c =? pref) cs) as [x|] eqn:Ex, (List.find (fun c => cid c =? pref) cs')
    as [y|] eqn:Ey; auto.
  - apply List.find_some in Ex as [Ix Ex], Ey as [Iy Ey]. apply Z.eqb_eq in Ex, Ey. f_equal.
    apply (cid_inj cs); auto; [now apply (perm_In _ _ _ HP)|congruence].
  - apply List.find_some in Ex as [Ix Ex]. apply (perm_In _ _ _ HP) in Ix.
    apply (List.find_none _ _ Ey) in Ix. congruence.
  - apply List.find_some in Ey as [Iy Ey]. apply (perm_In _ _ _ HP) in Iy.
    apply (List.find_none _ _ Ex) in Iy. congruence.
Qed.

Lemma present_perm d cs cs' : Permutation cs cs' -> present d cs -> present d cs'.
Proof. intros HP H c Hc. apply H. now apply (perm_In _ _ _ HP). Qed.

Lemma leastOf_perm d f r f' r' : ledger_ok d -> present d (f :: r) -> NoDup (map cid (f :: r)) ->
  Permutation (f :: r) (f' :: r') -> leastOf d f r = leastOf d f' r'.
Proof.
  intros Hd Hp Hnd HP. apply (minimal_unique d (f :: r)); [exact Hnd|now apply leastOf_minimal|].
  eapply minimal_perm; [symmetry; exact HP|]. apply leastOf_minimal; [exact Hd|].
  now apply (present_perm d (f :: r)).
Qed.

Lemma nonzero_ids d cs : ledger_ok d -> present d cs -> Forall (fun c => cid c <> 0) cs.
Proof.
  intros Hd Hp. apply List.Forall_forall. intros c Hc. destruct (Hp c Hc) as [m Hm].
  exact (mok_nonzero d _ _ (lok_members d Hd _ _ Hm)).
Qed.

Lemma alternativeOf_perm d first cs cs' : ledger_ok d -> present d cs -> NoDup (map cid cs) ->
  Permutation cs cs' -> alternativeOf d first cs = alternativeOf d first cs'.
Proof.
  intros Hd Hp Hnd HP. pose proof (present_perm d cs cs' HP Hp) as Hp'.
  rewrite !alternativeOf_closed by eauto using nonzero_ids.
  pose proof (filter_Permutation (fun c => negb (cid c =? cid first)) _ _ HP) as HPo.
  pose proof (filter_cids (fun c => negb (cid c =? cid first)) cs Hnd) as Hno.
  pose proof (present_others d first cs Hp) as Hpo.
  fold (others first cs) (others first cs') in HPo, Hno.
  destruct (others first cs) as [|x l], (others first cs') as [|y l']; auto.
  - now apply Permutation_nil in HPo.
  - symmetry in HPo. now apply Permutation_nil in HPo.
  - f_equal. now apply leastOf_perm.
Qed.

Lemma limitStreak_perm d first cs cs' : ledger_ok d -> present d cs -> NoDup (map cid cs) ->
  Permutation cs cs' -> limitStreak d first cs = limitStreak d first cs'.
Proof.
  intros Hd Hp Hnd HP. unfold limitStreak.
  now rewrite (Permutation_length HP), (alternativeOf_perm d first cs cs').
Qed.

Lemma pick_perm d f r f' r' pref : ledger_ok d -> present d (f :: r) -> NoDup (map cid (f :: r)) ->
  Permutation (f :: r) (f' :: r') -> pick d f r pref = pick d f' r' pref.
Proof.
  intros Hd Hp Hnd HP. unfold pick. rewrite (findPreferred_perm pref _ _ Hnd HP).
  destruct (findPreferred pref (f' :: r')); [reflexivity|].
  rewrite (leastOf_perm d f r f' r' Hd Hp Hnd HP). now apply limitStreak_perm.
Qed.

Lemma baseline_perm d cs cs' acc acc' : baselineOf d cs acc -> baselineOf d cs' acc' ->
  Permutation cs cs' -> baseline acc = baseline acc'.
Proof.
  intros [_ _ W M A N] [_ _ W' M' A' N'] HP.
  destruct (hasBaseline acc) eqn:E, (hasBaseline acc') eqn:E'.
  - apply value_inj; auto. destruct (A eq_refl) as (x & Ix & Px & Vx), (A' eq_refl) as (y & Iy & Py & Vy).
    destruct (M' x (proj1 (perm_In _ _ _ HP) Ix) Px) as [_ L1].
    destruct (M y (proj2 (perm_In _ _ _ HP) Iy) Py) as [_ L2]. lia.
  - destruct (A eq_refl) as (x & Ix & Px & _).
    destruct (M' x (proj1 (perm_In _ _ _ HP) Ix) Px) as [F _]. congruence.
  - destruct (A' eq_refl) as (y & Iy & Py & _).
    destruct (M y (proj2 (perm_In _ _ _ HP) Iy) Py) as [F _]. congruence.
  - rewrite N, N' by reflexivity. reflexivity.
Qed.

Lemma accounted_present d cs : present d (List.filter (accounted d) cs).
Proof.
  intros c [_ H]%List.filter_In. unfold accounted in H. destruct (Members d !! cid c); [eauto|discriminate].
Qed.

Lemma admit_present rev base d cs l : present d l -> present (admitPending rev base d cs) l.
Proof.
  intros H c Hc. rewrite admitPending_closed. cbn. unfold admittedMembers. rewrite map_lookup_imap.
  destruct (H c Hc) as [m ->]. cbn. eauto.
Qed.

Lemma admit_perm rev base d cs cs' : Permutation cs cs' ->
  admitPending rev base d cs = admitPending rev base d cs'.
Proof.
  intros HP. rewrite !admitPending_closed. apply set_members_ext. unfold admittedMembers.
  apply map_eq. intros id. rewrite !map_lookup_imap. destruct (Members d !! id) as [m|]; [|reflexivity].
  cbn [mbind option_bind]. rewrite (bool_decide_ext (id ∈ map cid cs) (id ∈ map cid cs')); [reflexivity|].
  rewrite !list_elem_of_In. apply perm_In. now apply Permutation_map.
Qed.

(** The choice does not depend on the order in which candidates arrive.
    Credential buckets are Go maps, iterated in random order; for distinct
    candidates any two orders yield the same selected credential and the same
    resulting ledger, for every preferred id and every snapshot revision. *)
Theorem selection_order_independent (rev : option Z) (d : SchedulingLedger)
    (cs cs' : list weightedCredential) (preferred : Z)
    (Hd : ledger_ok d) (Hj : jitter d = None) (Hw : weights_ok cs)
    (Hnd : NoDup (map cid cs)) (HP : Permutation cs cs') :
  selectCredential rev d cs preferred = selectCredential rev d cs' preferred.
Proof.
  pose proof (collectEligible_det d cs Hd (fun x _ => no_jitter_settled d x Hj)) as B. pose proof (collectEligible_det d cs' Hd (fun x _ => no_jitter_settled d x Hj)) as B'.
  pose proof (filter_Permutation (accounted d) _ _ HP) as HPf.
  pose proof (baseline_perm _ _ _ _ _ B B' HPf) as Eb.
  pose proof (collectEligible_ok d cs Hd Hw) as [_ Q1 Q2].
  unfold selectCredential. rewrite <- Eb.
  rewrite (bl_ledger _ _ _ B), (bl_ledger _ _ _ B'), (bl_eligible _ _ _ B), (bl_eligible _ _ _ B').
  rewrite (bl_ledger _ _ _ B) in Q2.
  pose proof (accounted_present d cs) as Hp. pose proof (filter_cids (accounted d) cs Hnd) as Hn.
  destruct (List.filter (accounted d) cs) as [|f r], (List.filter (accounted d) cs') as [|f' r'].
  - reflexivity.
  - now apply Permutation_nil in HPf.
  - symmetry in HPf. now apply Permutation_nil in HPf.
  - destruct (Sequence d =? max_uint64); [reflexivity|].
    rewrite <- (admit_perm rev _ d _ _ HPf). set (d1 := admitPending _ _ _ _).
    rewrite (pick_perm d1 f r f' r' preferred); auto; [now apply admitPending_ok|now apply admit_present].
Qed.

Lemma selection_order_independent_witness :
  let a := sampleCandidate 1 9 1 2500 in let b := sampleCandidate 2 9 1 100 in
  selectCredential (Some 0) sampleLedger [a; b] 0 = selectCredential (Some 0) sampleLedger [b; a] 0.
Proof.
  apply selection_order_independent.
  - apply SyncCredentials_ok; [apply fresh_ledger_ok|]. repeat constructor; discriminate.
  - reflexivity.
  - repeat constructor; cbn; unfold MaxWeight; lia.
  - apply (bool_decide_eq_true_1 _). vm_compute. reflexivity.
  - apply perm_swap.
Defined.

(** ** One allocation *)

Record charged (d : SchedulingLedger) (c : weightedCredential) (d' : SchedulingLedger) : Prop := {
  ch_coord : forall x, coord d' x = coord d x + (if cid x =? cid c then stepOf c.(weight) else 0);
  ch_waiting : forall x, waiting d' x = waiting d x;
  ch_accounted : forall x, accounted d' x = accounted d x;
  ch_seq : Sequence d' = Sequence d + 1;
  ch_settled : forall x, settled d x -> settled d' x;
  ch_last : LastMember d' = cid c;
  ch_streak : Consecutive d' <= (if LastMember d =? cid c then Consecutive d else 0) + 1;
}.

Lemma charge_spec d c : ledger_ok d -> is_Some (Members d !! cid c) ->
  1 <= weight c < two64 ->
  match charge d c with
  | Some d' => charged d c d'
  | None => two64 * two64 <= coord d c + stepOf (weight c)
  end.
Proof.
  intros Hd [m Em] Hw. unfold charge. rewrite Em.
  destruct (lok_members d Hd _ _ Em) as [M1 M2 M3 M4 M5].
  pose proof (Advance_exact (Progress m) (weight c) M3 Hw) as HA.
  destruct (Advance (Progress m) (weight c)) as [next ok]. destruct HA as (Hn & Hok & Hv).
  assert (Ec : coord d c = value (Progress m)) by (unfold coord; now rewrite Em).
  destruct ok; cbn [negb].
  2:{ rewrite Ec. apply Z.nlt_ge. intros Hlt. now apply Hok in Hlt. }
  specialize (Hv eq_refl). cbn [LastMember Consecutive member_ID set const]. rewrite M1.
  assert (HC : forall d', jitter d' = jitter d -> Sequence d' = Sequence d + 1 -> LastMember d' = cid c ->
    Members d' = <[cid c := m <| Progress := next |> <| LastSelected := Sequence d + 1 |>]> (Members d) ->
    Consecutive d' <= (if LastMember d =? cid c then Consecutive d else 0) + 1 -> charged d c d').
  { intros d' E1 E2 E3 E4 E5. constructor; auto; intros x; unfold coord, waiting, accounted, settled;
      rewrite ?E1, E4; destruct (Z.eqb_spec (cid x) (cid c)) as [E|E];
      rewrite ?E, ?lookup_insert_eq, ?lookup_insert_ne, ?Em by congruence; cbn; auto; try lia.
    intros Hx m' [= <-]. apply (Hx m eq_refl). }
  destruct (Z.eqb_spec (LastMember d) (cid c)) as [El|El]; cbn [negb].
  - destruct (Consecutive d <? 99 + MaxWeight * MaxWeight); apply HC; cbn; auto; lia.
  - apply HC; cbn; auto; lia.
Qed.

(** ** Admission *)

Lemma Admit_value m base : progress_wf (Progress m) -> progress_wf base ->
  value (Progress (Admit m base)) = Z.max (value (Progress m)) (value base).
Proof.
  intros Hm Hb. unfold Admit. rewrite Compare_spec by assumption.
  destruct (Z.compare_spec (value (Progress m)) (value base)); cbn; lia.
Qed.

Lemma admit_coord rev base d cs c m : ledger_ok d -> progress_wf base ->
  Members d !! cid c = Some m -> In c cs -> mayAdmit rev d m = true ->
  let d' := admitPending rev base d cs in
  waiting d' c = false /\ coord d' c = Z.max (coord d c) (value base).
Proof.
  intros Hd Hb Em Hc Ha. unfold waiting, coord. rewrite admitPending_closed. cbn.
  unfold admittedMembers. rewrite map_lookup_imap, Em. cbn.
  rewrite Ha, bool_decide_eq_true_2 by (apply list_elem_of_In, in_map_iff; eauto). cbn.
  split; [reflexivity|]. apply Admit_value; [apply (lok_members d Hd _ _ Em)|exact Hb].
Qed.

(** Admission at the front.  When a waiting candidate is admitted by a
    selection, it is no longer waiting, never moves backwards, and starts at or
    beyond the coordinate of every candidate already admitted (or the watermark
    when there is none) - so a joining or recovered credential inherits no
    backlog of missed allocations it could use to monopolise the pool. *)
Theorem admission_at_front (r : Z) (d : SchedulingLedger) (cs : list weightedCredential)
    (preferred : Z) (c : weightedCredential) (m : SchedulingMember)
    (Hd : ledger_ok d) (Hj : jitter d = None) (Hw : weights_ok cs)
    (Hseq : Sequence d <> max_uint64)
    (Hc : In c cs) (Hacc : accounted d c = true) (Hm : Members d !! cid c = Some m)
    (Hadmit : mayAdmit (Some r) d m = true) :
  let d' := fst (selectCredential (Some r) d cs preferred) in
  waiting d' c = false /\ coord d c <= coord d' c /\
  (forall x, In x cs -> accounted d x = true -> waiting d x = false -> coord d x <= coord d' c) /\
  ((forall x, In x cs -> accounted d x = true -> waiting d x = true) ->
   value (Watermark d) <= coord d' c).
Proof.
  pose proof (collectEligible_det d cs Hd (fun x _ => no_jitter_settled d x Hj)) as [B1 B2 B3 B4 B5 B6].
  pose proof (collectEligible_ok d cs Hd Hw) as [_ _ Q2]. rewrite B1 in Q2.
  pose proof (accounted_present d cs) as Hp.
  assert (Hin : In c (List.filter (accounted d) cs)) by (apply List.filter_In; auto).
  cbv zeta. unfold selectCredential. rewrite B1, B2.
  destruct (List.filter (accounted d) cs) as [|f rest] eqn:Ef; [contradiction|].
  rewrite (proj2 (Z.eqb_neq _ _) Hseq). set (base := baseline _) in *.
  destruct (admit_coord (Some r) base d (f :: rest) c m Hd B3 Hm Hin Hadmit) as [A1 A2].
  pose proof (admitPending_ok (Some r) base (f :: rest) d Hd B3 Q2) as Hd1.
  pose proof (admit_present (Some r) base d (f :: rest) (f :: rest) Hp) as Hp1.
  set (d1 := admitPending _ _ _ _) in *.
  assert (Hgoal : forall d', waiting d' c = false -> coord d1 c <= coord d' c ->
    waiting d' c = false /\ coord d c <= coord d' c /\
    (forall x, In x cs -> accounted d x = true -> waiting d x = false -> coord d x <= coord d' c) /\
    ((forall x, In x cs -> accounted d x = true -> waiting d x = true) -> value (Watermark d) <= coord d' c)).
  { intros d' W L. repeat split; [exact W|lia| |].
    - intros x Ix Ax Wx. destruct (B4 x) as [_ Hle]; [|exact Wx|lia].
      rewrite <- Ef. apply List.filter_In. auto.
    - intros Hall. destruct (hasBaseline (collectEligible d cs)) eqn:Eh.
      + destruct (B5 eq_refl) as (x & Ix & Wx & _). rewrite <- Ef in Ix. apply List.filter_In in Ix.
        rewrite Hall in Wx by tauto. discriminate.
      + rewrite (B6 eq_refl) in A2. lia. }
  pose proof (pick_in d1 f rest preferred) as Hpk. set (k := pick d1 f rest preferred) in *.
  assert (Hwk : 1 <= weight k < two64).
  { apply (weights_ok_in cs); [exact Hw|]. rewrite <- Ef in Hpk. now apply List.filter_In in Hpk. }
  pose proof (charge_spec d1 k Hd1 (Hp1 k Hpk) Hwk) as HC.
  destruct (charge d1 k) as [d2|]; cbn [fst]; [|apply Hgoal; [exact A1|lia]].
  apply Hgoal; [now rewrite (ch_waiting _ _ _ HC)|]. rewrite (ch_coord _ _ _ HC).
  pose proof (stepOf_pos (weight k) Hwk). destruct (_ =? _); lia.
Qed.

Definition sampleJoined : SchedulingLedger :=
  SyncCredential 1000
    (fst (selectCredential (Some 0) sampleLedger
            [sampleCandidate 1 9 1 2500; sampleCandidate 2 9 1 100] 0)) (sampleView 3 9 1).

Definition sampleNewcomer : SchedulingMember := mkMember 3 9 1 zeroProgress 0 true false false 0.

Lemma admission_at_front_witness :
  let cs := [sampleCandidate 1 9 1 2500; sampleCandidate 2 9 1 100; sampleCandidate 3 9 1 2500] in
  let d' := fst (selectCredential (Some 0) sampleJoined cs 0) in
  Members sampleJoined !! 3 = Some sampleNewcomer /\
  waiting d' (sampleCandidate 3 9 1 2500) = false /\
  coord sampleJoined (sampleCandidate 1 9 1 2500) <= coord d' (sampleCandidate 3 9 1 2500).
Proof.
  cbv zeta. split; [vm_compute; reflexivity|].
  destruct (admission_at_front 0 sampleJoined
    [sampleCandidate 1 9 1 2500; sampleCandidate 2 9 1 100; sampleCandidate 3 9 1 2500] 0
    (sampleCandidate 3 9 1 2500) sampleNewcomer) as (H1 & _ & H2 & _).
  - apply syncCredential_ok; [|discriminate]. apply selectCredential_ok.
    + apply SyncCredentials_ok; [apply fresh_ledger_ok|]. repeat constructor; discriminate.
    + repeat constructor; cbn; unfold MaxWeight; lia.
  - vm_compute. reflexivity.
  - repeat constructor; cbn; unfold MaxWeight; lia.
  - vm_compute. discriminate.
  - right. right. now left.
  - vm_compute. reflexivity.
  - vm_compute. reflexivity.
  - vm_compute. reflexivity.
  - split; [exact H1|]. apply H2; [now left| |]; vm_compute; reflexivity.
Defined.

(** ** Weighted shares *)

Section Shares.

Context (cs : list weightedCredential) (Hw : weights_ok cs) (Hnd : NoDup (map cid cs)).


















(** ** The first pass of a staggered ledger *)









End Shares.







End Fairness.
