(* ===== verification/Registry.v ===== *)
(** * Credential registry

    [internal/state/registry.go], [model_cooldown.go], [shared_health.go] and
    [runtime_view.go]: the in-memory truth about credentials.  Entries live in
    per-group buckets with an id-to-group index beside them; every mutation that
    can change schedulability is forwarded to the scheduling ledger.

    The registry mutex serialises all operations, so each one is a function on
    the registry record.  [now] stands for the [time.Now()] the ledger
    synchronisation reads.  A dereference of a missing entry, a panic in the
    source, is the error [NilDereference]. *)

From Stdlib Require Import ZArith QArith Lia Bool String Ascii List Permutation Sorted.
From stdpp Require Import base gmap sets list strings sorting.
From coqutil Require Import Datatypes.RecordSettersUsingExistingGetters.
From S2P Require Import Prelude GoStrings Credential Ledger.
Import Credential Ledger.

Local Open Scope Z_scope.
Local Open Scope go_scope.

Module Registry.

Record CredentialRegistry := mkRegistry {
  scheduling : SchedulingLedger;
  buckets : gmap Z (gmap Z CredentialEntry);
  credentialGroups : gmap Z Z;
}.

Definition NewCredentialRegistry : CredentialRegistry := mkRegistry NewSchedulingState ∅ ∅.

Definition NewStaggeredCredentialRegistry (random : nat -> Z -> Z) : CredentialRegistry :=
  NewCredentialRegistry <| scheduling := NewStaggeredSchedulingState random |>.

(** ** Lookups *)

(** [r.buckets[groupID]], a nil map when the group has no bucket. *)
Definition bucketOf (r : CredentialRegistry) (groupID : Z) : gmap Z CredentialEntry :=
  default ∅ (r.(buckets) !! groupID).

Definition entryAt (r : CredentialRegistry) (groupID id : Z) : option CredentialEntry :=
  bucketOf r groupID !! id.

Definition entryLocked (r : CredentialRegistry) (id : Z) : option CredentialEntry :=
  match r.(credentialGroups) !! id with
  | Some groupID => entryAt r groupID id
  | None => None
  end.

(** Write through the pointer to a stored entry. *)
Definition storeEntry (r : CredentialRegistry) (groupID id : Z) (entry : CredentialEntry)
    : CredentialRegistry :=
  r <| buckets := <[ groupID := <[ id := entry ]> (bucketOf r groupID) ]> r.(buckets) |>.

Definition syncEntry (now : Z) (r : CredentialRegistry) (entry : CredentialEntry) : CredentialRegistry :=
  r <| scheduling := SyncCredential now r.(scheduling) (runtimeView entry) |>.

(** The entry found by [entryLocked], written back under the same keys. *)
Definition rewriteEntry (r : CredentialRegistry) (id : Z) (entry : CredentialEntry) : CredentialRegistry :=
  match r.(credentialGroups) !! id with
  | Some groupID => storeEntry r groupID id entry
  | None => r
  end.

Definition rewriteAndSync (now : Z) (r : CredentialRegistry) (id : Z) (entry : CredentialEntry)
    : CredentialRegistry := syncEntry now (rewriteEntry r id entry) entry.

(** ** Configuration replacement *)

Fixpoint buildBuckets (entries : list CredentialEntry)
    (acc : gmap Z (gmap Z CredentialEntry) * gmap Z Z) : gmap Z (gmap Z CredentialEntry) * gmap Z Z :=
  match entries with
  | [] => acc
  | entry :: rest =>
    let g := entry.(GroupID) in
    buildBuckets rest
      (<[ g := <[ entry.(ID) := cloneCredentialEntry entry ]> (default ∅ (acc.1 !! g)) ]> acc.1,
       <[ entry.(ID) := g ]> acc.2)
  end.

Definition ReplaceCredentials (now : Z) (r : CredentialRegistry) (entries : list CredentialEntry)
    : CredentialRegistry * option RegistryError :=
  match ValidateCredentialEntries entries with
  | Some e => (r, Some e)
  | None =>
    let '(built, groups) := buildBuckets entries (∅, ∅) in
    let preserved := map_imap (fun g bucket =>
      Some (map_imap (fun id entry => Some (preserveSharedHealth entry (entryAt r g id))) bucket)) built in
    (mkRegistry (SyncCredentials now r.(scheduling) 0 (map runtimeView entries)) preserved groups, None)
  end.

(** All entries must belong to the named group. *)
Fixpoint entriesInGroup (groupID : Z) (entries : list CredentialEntry) : option RegistryError :=
  match entries with
  | [] => None
  | entry :: rest =>
    err_if (negb (entry.(GroupID) =? groupID)) (WrongGroup entry.(ID) entry.(GroupID) groupID) ;;!
    entriesInGroup groupID rest
  end.

(** No entry may already be registered under another group. *)
Fixpoint entriesFree (r : CredentialRegistry) (groupID : Z) (entries : list CredentialEntry)
    : option RegistryError :=
  match entries with
  | [] => None
  | entry :: rest =>
    match r.(credentialGroups) !! entry.(ID) with
    | Some existing => err_if (negb (existing =? groupID)) (WrongGroup entry.(ID) existing groupID)
    | None => None
    end ;;! entriesFree r groupID rest
  end.

Definition putEntry (now : Z) (groupID : Z) (r : CredentialRegistry) (entry : CredentialEntry)
    : CredentialRegistry :=
  let r := storeEntry r groupID entry.(ID) entry in
  let r := r <| credentialGroups := <[ entry.(ID) := groupID ]> r.(credentialGroups) |> in
  syncEntry now r entry.

Definition importOne (now : Z) (groupID : Z) (r : CredentialRegistry) (entry : CredentialEntry)
    : CredentialRegistry :=
  putEntry now groupID r
    (preserveSharedHealth (cloneCredentialEntry entry) (entryAt r groupID entry.(ID))).

Definition ApplyCredentialImport (now : Z) (r : CredentialRegistry) (groupID : Z)
    (entries : list CredentialEntry) : CredentialRegistry * option RegistryError :=
  match err_if (groupID =? 0) (GroupIDRequired 0) ;;! ValidateCredentialEntries entries ;;!
        entriesInGroup groupID entries ;;! entriesFree r groupID entries with
  | Some e => (r, Some e)
  | None => (foldl (importOne now groupID) r entries, None)
  end.

(** ** Exact snapshots *)

Fixpoint validateIDs (r : CredentialRegistry) (groupID : Z) (seen : gset Z) (ids : list Z)
    : option RegistryError :=
  match ids with
  | [] => None
  | id :: rest =>
    err_if (id =? 0) CredentialIDRequired ;;!
    err_if (bool_decide (id ∈ seen)) (DuplicateCredential id) ;;!
    match r.(credentialGroups) !! id with
    | None => Some (CredentialNotFound id)
    | Some actual => err_if (negb (actual =? groupID)) (WrongGroup id actual groupID)
    end ;;!
    match entryAt r groupID id with None => Some (CredentialNotFound id) | Some _ => None end ;;!
    validateIDs r groupID ({[ id ]} ∪ seen) rest
  end.

Definition validateGroupCredentialIDsLocked (r : CredentialRegistry) (groupID : Z) (ids : list Z)
    : option RegistryError :=
  err_if (groupID =? 0) (GroupIDRequired 0) ;;!
  err_if (match ids with [] => true | _ => false end) EntriesRequired ;;!
  validateIDs r groupID ∅ ids.

Fixpoint collectEntries (r : CredentialRegistry) (groupID : Z) (ids : list Z)
    : result RegistryError (list CredentialEntry) :=
  match ids with
  | [] => Ok []
  | id :: rest =>
    match entryAt r groupID id with
    | None => Err NilDereference
    | Some entry =>
      let? entries := collectEntries r groupID rest in
      Ok (detachCredentialEntryExact entry :: entries)
    end
  end.

Definition SnapshotGroupCredentialEntriesExact (r : CredentialRegistry) (groupID : Z) (ids : list Z)
    : result RegistryError (list CredentialEntry) :=
  match validateGroupCredentialIDsLocked r groupID ids with
  | Some e => Err e
  | None => collectEntries r groupID ids
  end.

Definition RestoreGroupCredentialEntriesExact (now : Z) (r : CredentialRegistry) (groupID : Z)
    (entries : list CredentialEntry) : CredentialRegistry * option RegistryError :=
  match err_if (groupID =? 0) (GroupIDRequired 0) ;;!
        err_if (match entries with [] => true | _ => false end) EntriesRequired ;;!
        ValidateCredentialEntries entries ;;!
        entriesInGroup groupID entries ;;! entriesFree r groupID entries with
  | Some e => (r, Some e)
  | None => (foldl (fun r entry => putEntry now groupID r (detachCredentialEntryExact entry)) r entries, None)
  end.

(** ** Reconciliation with persisted configuration *)

Definition matchesGroupLocked (r : CredentialRegistry) (groupID : Z) (entries : list CredentialEntry) : bool :=
  let current := bucketOf r groupID in
  Nat.eqb (size current) (length entries) &&
  forallb (fun desired =>
    match current !! desired.(ID) with
    | Some existing => String.eqb existing.(Name) desired.(Name) && samePersistedCredentialConfig existing desired
    | None => false
    end) entries.

Definition isNone {A} (o : option A) : bool := match o with None => true | Some _ => false end.

Definition MatchesGroup (r : CredentialRegistry) (groupID : Z) (entries : list CredentialEntry) : bool :=
  negb (groupID =? 0) && isNone (ValidateCredentialEntries entries) &&
  isNone (entriesInGroup groupID entries) && matchesGroupLocked r groupID entries.

(** The entry kept for a desired configuration: the existing one (renamed) when
    the persisted configuration is unchanged, else a fresh copy. *)
Definition reconcileEntry (previous : gmap Z CredentialEntry) (desired : CredentialEntry) : CredentialEntry :=
  let fresh := preserveSharedHealth (cloneCredentialEntry desired) (previous !! desired.(ID)) in
  match previous !! desired.(ID) with
  | Some existing =>
    if samePersistedCredentialConfig existing desired then existing <| Name := desired.(Name) |> else fresh
  | None => fresh
  end.

Definition syncSchedulingGroupLocked (now : Z) (r : CredentialRegistry) (groupID : Z) : CredentialRegistry :=
  let views := map (fun ie => runtimeView ie.2) (map_to_list (bucketOf r groupID)) in
  r <| scheduling := SyncCredentials now r.(scheduling) groupID views |>.

Definition ReconcileGroup (now : Z) (r : CredentialRegistry) (groupID : Z) (entries : list CredentialEntry)
    : CredentialRegistry * result RegistryError bool :=
  match err_if (groupID =? 0) (GroupIDRequired 0) ;;! ValidateCredentialEntries entries ;;!
        entriesInGroup groupID entries ;;! entriesFree r groupID entries with
  | Some e => (r, Err e)
  | None =>
    if matchesGroupLocked r groupID entries then (r, Ok false)
    else
      let previous := bucketOf r groupID in
      let next : gmap Z CredentialEntry :=
        foldl (fun acc desired => <[ desired.(ID) := reconcileEntry previous desired ]> acc) ∅ entries in
      let groups := filter (fun kv => kv.1 ∉ dom previous) r.(credentialGroups) in
      let r :=
        if bool_decide (next = ∅) then
          r <| buckets := delete groupID r.(buckets) |> <| credentialGroups := groups |>
        else
          r <| buckets := <[ groupID := next ]> r.(buckets) |>
            <| credentialGroups := ((fun _ => groupID) <$> next) ∪ groups |> in
      (syncSchedulingGroupLocked now r groupID, Ok true)
  end.

(** ** Removal *)

Definition dropEmptyBucket (r : CredentialRegistry) (groupID : Z) : CredentialRegistry :=
  if bool_decide (bucketOf r groupID = ∅) then r <| buckets := delete groupID r.(buckets) |> else r.

(** [delete(r.buckets[groupID], id)]: a no-op on a missing bucket. *)
Definition deleteFromBucket (r : CredentialRegistry) (groupID id : Z) : CredentialRegistry :=
  r <| buckets := alter (delete id) groupID r.(buckets) |>.

Definition forget (r : CredentialRegistry) (id : Z) : CredentialRegistry :=
  r <| credentialGroups := delete id r.(credentialGroups) |>
    <| scheduling := Remove r.(scheduling) id |>.

Definition RemoveCredential (r : CredentialRegistry) (id : Z) : CredentialRegistry * bool :=
  match r.(credentialGroups) !! id with
  | None => (r, false)
  | Some groupID => (forget (dropEmptyBucket (deleteFromBucket r groupID id) groupID) id, true)
  end.

Definition RemoveGroupCredentials (r : CredentialRegistry) (groupID : Z) (ids : list Z)
    : CredentialRegistry * option RegistryError :=
  match validateGroupCredentialIDsLocked r groupID ids with
  | Some e => (r, Some e)
  | None =>
    (dropEmptyBucket (foldl (fun r id => forget (deleteFromBucket r groupID id) id) r ids) groupID, None)
  end.

Definition RemoveGroup (r : CredentialRegistry) (groupID : Z) : CredentialRegistry * bool :=
  if groupID =? 0 then (r, false)
  else match r.(buckets) !! groupID with
       | None => (r, false)
       | Some bucket =>
         let r := foldl forget r (map fst (map_to_list bucket)) in
         (r <| buckets := delete groupID r.(buckets) |>, true)
       end.

(** ** Configuration of one credential *)

Definition UpdateCredentialName (r : CredentialRegistry) (groupID id : Z) (name : string)
    : CredentialRegistry * bool :=
  match entryLocked r id with
  | Some entry =>
    if negb (entry.(GroupID) =? groupID) then (r, false)
    else (rewriteEntry r id (entry <| Name := name |>), true)
  | None => (r, false)
  end.

Definition setStatus (now : Z) (groupID : Z) (status : CredentialStatus) (r : CredentialRegistry) (id : Z)
    : result RegistryError CredentialRegistry :=
  match entryAt r groupID id with
  | None => Err NilDereference
  | Some entry =>
    let entry := entry <| Status := status |> in
    Ok (syncEntry now (storeEntry r groupID id entry) entry)
  end.

Fixpoint setStatuses (now : Z) (groupID : Z) (status : CredentialStatus) (r : CredentialRegistry)
    (ids : list Z) : result RegistryError CredentialRegistry :=
  match ids with
  | [] => Ok r
  | id :: rest => let? r := setStatus now groupID status r id in setStatuses now groupID status r rest
  end.

Definition UpdateGroupCredentialStatuses (now : Z) (r : CredentialRegistry) (groupID : Z) (ids : list Z)
    (status : CredentialStatus) : result RegistryError CredentialRegistry :=
  match err_if (negb (statusValid status)) (InvalidStatus status) ;;!
        validateGroupCredentialIDsLocked r groupID ids with
  | Some e => Err e
  | None => setStatuses now groupID status r ids
  end.

Definition SetCredentialStatus (now : Z) (r : CredentialRegistry) (id : Z) (status : CredentialStatus)
    : result RegistryError CredentialRegistry :=
  if negb (statusValid status) then Err (InvalidStatus status)
  else match r.(credentialGroups) !! id with
       | None => Err (CredentialNotFound id)
       | Some groupID => setStatus now groupID status r id
       end.

Definition UpdateCredentialConfig (now : Z) (r : CredentialRegistry) (id : Z) (status : CredentialStatus)
    (weightManual : option Z) : CredentialRegistry * option RegistryError :=
  match err_if (negb (statusValid status)) (InvalidStatus status) ;;!
        err_if (manualWeightInvalid weightManual) (InvalidManualWeight id) with
  | Some e => (r, Some e)
  | None =>
    match entryLocked r id with
    | None => (r, Some (CredentialNotFound id))
    | Some entry =>
      (rewriteAndSync now r id (entry <| Status := status |> <| WeightManual := weightManual |>), None)
    end
  end.

Definition ReplaceCredentialSecretIfMatch (r : CredentialRegistry) (id expectedVersion nextVersion : Z)
    (fingerprint encryptedValue : string) : CredentialRegistry * bool :=
  if (id =? 0) || (expectedVersion =? 0) || (nextVersion <=? expectedVersion) ||
     bool_decide (trim_space (bytes fingerprint) = []) || stringEmpty encryptedValue
  then (r, false)
  else match entryLocked r id with
       | Some entry =>
         if negb (entry.(Version) =? expectedVersion) then (r, false)
         else (rewriteEntry r id
                 (entry <| Version := nextVersion |> <| Fingerprint := fingerprint |>
                        <| EncryptedValue := encryptedValue |> <| AuthState := CredentialAuthStateReady |>), true)
       | None => (r, false)
       end.

Definition SetCredentialAuthState (now : Z) (r : CredentialRegistry) (id : Z)
    (authState : CredentialAuthState) : CredentialRegistry * bool :=
  if negb (authStateValid authState) then (r, false)
  else match entryLocked r id with
       | Some entry => (rewriteAndSync now r id (setEntryAuthState entry authState), true)
       | None => (r, false)
       end.

Definition finiteUnit (value : float64) : bool :=
  match value with FNaN | FInf _ => false | FFin q => Qle_bool 0 q && Qle_bool q 1 end.

Definition SetCredentialQuotaObservation (r : CredentialRegistry) (id : Z) (remaining : option float64)
    (resetAt : Z) : CredentialRegistry * bool :=
  if (id =? 0) ||
     match remaining with Some v => negb (finiteUnit v) || (resetAt =? 0) | None => false end
  then (r, false)
  else match entryLocked r id with
       | Some entry =>
         (rewriteEntry r id
            (entry <| quotaRemaining := remaining |>
                   <| quotaResetAt := match remaining with None => 0 | Some _ => resetAt end |>), true)
       | None => (r, false)
       end.

(** ** Runtime health *)

Definition SetCooldownWithChange (now : Z) (r : CredentialRegistry) (id until : Z)
    : CredentialRegistry * (bool * bool) :=
  match entryLocked r id with
  | None => (r, (false, false))
  | Some entry =>
    if negb (until >? entry.(CooldownUntil)) then (r, (true, false))
    else (rewriteAndSync now r id (entry <| CooldownUntil := until |>), (true, true))
  end.

Definition SetCooldown (now : Z) (r : CredentialRegistry) (id until : Z) : CredentialRegistry * bool :=
  let '(r, (exists_, _)) := SetCooldownWithChange now r id until in (r, exists_).

Definition SetCooldownWithChangeIfVersion (now : Z) (r : CredentialRegistry) (id expectedVersion until : Z)
    : CredentialRegistry * (bool * bool) :=
  match entryLocked r id with
  | None => (r, (false, false))
  | Some entry =>
    if negb (entry.(Version) =? expectedVersion) then (r, (false, false))
    else if negb (until >? entry.(CooldownUntil)) then (r, (true, false))
    else (rewriteAndSync now r id (entry <| CooldownUntil := until |>), (true, true))
  end.

Definition CredentialCooldownUntil (r : CredentialRegistry) (id : Z) : option Z :=
  CooldownUntil <$> entryLocked r id.

Definition ClearCooldownIfMatch (now : Z) (r : CredentialRegistry) (id expected : Z)
    : CredentialRegistry * bool :=
  if expected =? 0 then (r, false)
  else match entryLocked r id with
       | Some entry =>
         if negb (entry.(CooldownUntil) =? expected) then (r, false)
         else (rewriteAndSync now r id (entry <| CooldownUntil := 0 |>), true)
       | None => (r, false)
       end.

(** [FailureGeneration++] on a [uint64]. *)
Definition bumpFailure (entry : CredentialEntry) : CredentialEntry :=
  entry <| FailureGeneration := wrap_u64 (entry.(FailureGeneration) + 1) |>.

Definition SetBlacklistedWithChange (now : Z) (r : CredentialRegistry) (id : Z)
    : CredentialRegistry * (bool * bool) :=
  match entryLocked r id with
  | None => (r, (false, false))
  | Some entry =>
    if entry.(Blacklisted) then (r, (true, false))
    else (rewriteAndSync now r id (bumpFailure (entry <| Blacklisted := true |>)), (true, true))
  end.

Definition SetBlacklisted (now : Z) (r : CredentialRegistry) (id : Z) : CredentialRegistry * bool :=
  let '(r, (exists_, _)) := SetBlacklistedWithChange now r id in (r, exists_).

Definition RestoreRuntimeState (now : Z) (r : CredentialRegistry) (id : Z) : CredentialRegistry * bool :=
  match entryLocked r id with
  | None => (r, false)
  | Some entry =>
    (rewriteAndSync now r id
       (bumpFailure (entry <| CooldownUntil := 0 |> <| Blacklisted := false |> <| FailureCount := 0 |>)), true)
  end.

Definition IncrFailure (r : CredentialRegistry) (id : Z) : CredentialRegistry * (Z * bool) :=
  match entryLocked r id with
  | None => (r, (0, false))
  | Some entry =>
    let entry := bumpFailure (entry <| FailureCount := wrap_i64 (entry.(FailureCount) + 1) |>) in
    (rewriteEntry r id entry, (entry.(FailureCount), true))
  end.

Definition ClearFailure (r : CredentialRegistry) (id : Z) : CredentialRegistry * bool :=
  match entryLocked r id with
  | None => (r, false)
  | Some entry =>
    (if negb (entry.(FailureCount) =? 0)
     then rewriteEntry r id (bumpFailure (entry <| FailureCount := 0 |>)) else r, true)
  end.

Definition Recover (now : Z) (r : CredentialRegistry) (id : Z) : CredentialRegistry * bool :=
  match entryLocked r id with
  | None => (r, false)
  | Some entry =>
    let entry :=
      if entry.(Blacklisted) || negb (entry.(FailureCount) =? 0)
      then bumpFailure (entry <| Blacklisted := false |> <| FailureCount := 0 |>) else entry in
    (rewriteAndSync now r id entry, true)
  end.

Definition restoreRuntimeStateIfMatch (now : Z) (r : CredentialRegistry) (ref : CredentialRef)
    (cooldown : option Z) : CredentialRegistry * bool :=
  match r.(credentialGroups) !! ref.(ref_ID) with
  | None => (r, false)
  | Some groupID =>
    if negb (groupID =? ref.(ref_GroupID)) then (r, false)
    else match entryAt r groupID ref.(ref_ID) with
         | None => (r, false)
         | Some entry =>
           if bool_decide (entry.(Status) <> CredentialStatusActive) || negb entry.(Blacklisted) ||
              negb (sameCredentialIdentity entry ref) ||
              negb (entry.(FailureGeneration) =? ref.(ref_FailureGeneration)) ||
              match cooldown with Some c => negb (entry.(CooldownUntil) =? c) | None => false end
           then (r, false)
           else
             let entry := match cooldown with Some _ => entry <| CooldownUntil := 0 |> | None => entry end in
             let entry := bumpFailure (entry <| Blacklisted := false |> <| FailureCount := 0 |>) in
             (syncEntry now (storeEntry r groupID ref.(ref_ID) entry) entry, true)
         end
  end.

Definition RecoverIfMatch (now : Z) (r : CredentialRegistry) (ref : CredentialRef)
    : CredentialRegistry * bool := restoreRuntimeStateIfMatch now r ref None.

Definition RestoreRuntimeStateIfMatch (now : Z) (r : CredentialRegistry) (ref : CredentialRef)
    (cooldownUntil : Z) : CredentialRegistry * bool :=
  restoreRuntimeStateIfMatch now r ref (Some cooldownUntil).

(** ** Model cooldowns *)

Definition SetModelCooldown (r : CredentialRegistry) (ref : CredentialRef) (model : string) (until now : Z)
    : CredentialRegistry * (bool * bool) :=
  if stringEmpty model || negb (trimmed (bytes model)) || negb (until >? now) then (r, (false, false))
  else match entryLocked r ref.(ref_ID) with
       | None => (r, (false, false))
       | Some entry =>
         if negb (entry.(GroupID) =? ref.(ref_GroupID)) ||
            negb (entry.(IdentityGeneration) =? ref.(ref_IdentityGeneration)) ||
            negb (entry.(ModelCooldownGeneration) =? ref.(ref_ModelCooldownGeneration))
         then (r, (false, false))
         else
           let pruned := pruneModelCooldowns entry.(ModelCooldowns) now in
           let entry := entry <| ModelCooldowns := pruned |> in
           if negb (until >? default 0 (pruned !! model))
           then (rewriteEntry r ref.(ref_ID) entry, (true, false))
           else (rewriteEntry r ref.(ref_ID) (entry <| ModelCooldowns := <[ model := until ]> pruned |>),
                 (true, true))
       end.

Definition ClearModelCooldowns (r : CredentialRegistry) (id : Z) : CredentialRegistry * bool :=
  match entryLocked r id with
  | None => (r, false)
  | Some entry =>
    (rewriteEntry r id
       (entry <| ModelCooldowns := ∅ |>
              <| ModelCooldownGeneration := wrap_u64 (entry.(ModelCooldownGeneration) + 1) |>), true)
  end.

(** Reading the model cooldowns prunes the expired ones. *)
Definition ModelCooldownsOf (r : CredentialRegistry) (id now : Z)
    : CredentialRegistry * gmap string Z :=
  match entryLocked r id with
  | None => (r, ∅)
  | Some entry =>
    let pruned := pruneModelCooldowns entry.(ModelCooldowns) now in
    (rewriteEntry r id (entry <| ModelCooldowns := pruned |>), pruned)
  end.

Definition ExpireModelCooldowns (r : CredentialRegistry) (now : Z) : CredentialRegistry :=
  r <| buckets := (fun bucket : gmap Z CredentialEntry =>
         (fun entry => entry <| ModelCooldowns := pruneModelCooldowns entry.(ModelCooldowns) now |>)
           <$> bucket) <$> r.(buckets) |>.

(** ** Shared (cluster) health *)

Record SharedCredentialHealth := mkShared {
  sh_Epoch : string;
  sh_Version : Z;
  sh_IdentityGeneration : Z;
  sh_CooldownUntil : Z;
  sh_Blacklisted : bool;
  sh_FailureCount : Z;
  sh_FailureGeneration : Z;
  sh_ModelCooldownGeneration : Z;
  sh_ModelCooldowns : gmap string Z;
  sh_AuthState : CredentialAuthState;
  sh_AuthSecretVersion : Z;
}.

Definition emptyHealth (identityGeneration : Z) : SharedCredentialHealth :=
  mkShared "" 0 identityGeneration 0 false 0 0 0 ∅ authStateUnset 0.

(** The entry after mirroring one state. *)
Definition mirrorHealth (entry : CredentialEntry) (health : SharedCredentialHealth) : CredentialEntry :=
  let entry :=
    entry <| CooldownUntil := health.(sh_CooldownUntil) |> <| Blacklisted := health.(sh_Blacklisted) |>
          <| FailureCount := health.(sh_FailureCount) |>
          <| FailureGeneration := health.(sh_FailureGeneration) |>
          <| ModelCooldownGeneration := health.(sh_ModelCooldownGeneration) |>
          <| ModelCooldowns := health.(sh_ModelCooldowns) |>
          <| sharedEpoch := health.(sh_Epoch) |> <| sharedVersion := health.(sh_Version) |> in
  if negb (bool_decide (health.(sh_AuthState) = authStateUnset)) &&
     (health.(sh_AuthSecretVersion) =? entry.(Version)) && authStateValid health.(sh_AuthState)
  then setEntryAuthState entry health.(sh_AuthState) else entry.

(** Which state applies: [None] when it is ignored. *)
Definition acceptHealth (entry : CredentialEntry) (health : SharedCredentialHealth)
    : option SharedCredentialHealth :=
  if stringEmpty health.(sh_Epoch) then
    if stringEmpty entry.(sharedEpoch) then None else Some (emptyHealth entry.(IdentityGeneration))
  else if negb (health.(sh_IdentityGeneration) =? entry.(IdentityGeneration)) ||
          String.eqb health.(sh_Epoch) entry.(sharedEpoch) && (health.(sh_Version) <? entry.(sharedVersion))
  then None else Some health.

Definition ApplySharedHealth (now : Z) (r : CredentialRegistry) (id : Z) (health : SharedCredentialHealth)
    : CredentialRegistry * bool :=
  match entryLocked r id with
  | None => (r, false)
  | Some entry =>
    match acceptHealth entry health with
    | None => (r, false)
    | Some health => (rewriteAndSync now r id (mirrorHealth entry health), true)
    end
  end.

(** ** Reads *)

Definition CredentialAuthStateOf (r : CredentialRegistry) (id : Z) : option CredentialAuthState :=
  (fun entry => normalize entry.(AuthState)) <$> entryLocked r id.

Definition CredentialFailureCount (r : CredentialRegistry) (id : Z) : option Z :=
  FailureCount <$> entryLocked r id.

Definition authReady (entry : CredentialEntry) : bool :=
  bool_decide (normalize entry.(AuthState) = CredentialAuthStateReady).

Definition isActive (entry : CredentialEntry) : bool :=
  bool_decide (entry.(Status) = CredentialStatusActive).

Definition CredentialMatchesRef (r : CredentialRegistry) (ref : CredentialRef) : bool :=
  match entryLocked r ref.(ref_ID) with
  | Some entry => isActive entry && sameCredentialIdentity entry ref
  | None => false
  end.

Definition EncryptedCredentialData (r : CredentialRegistry) (id : Z)
    : result RegistryError (option string) :=
  match r.(credentialGroups) !! id with
  | None => Ok None
  | Some groupID =>
    match entryAt r groupID id with
    | None => Err NilDereference
    | Some entry => Ok (Some entry.(EncryptedValue))
    end
  end.

Definition ActiveEncryptedCredentialData (r : CredentialRegistry) (id expectedGroupID : Z) : option string :=
  match r.(credentialGroups) !! id with
  | None => None
  | Some groupID =>
    if negb (groupID =? expectedGroupID) then None
    else match entryAt r groupID id with
         | Some entry => if isActive entry && authReady entry then Some entry.(EncryptedValue) else None
         | None => None
         end
  end.

Definition ActiveEncryptedCredentialDataIfMatch (r : CredentialRegistry) (ref : CredentialRef) : option string :=
  match r.(credentialGroups) !! ref.(ref_ID) with
  | None => None
  | Some groupID =>
    if negb (groupID =? ref.(ref_GroupID)) then None
    else match entryAt r groupID ref.(ref_ID) with
         | Some entry =>
           if sameCredentialIdentity entry ref && isActive entry && authReady entry
           then Some entry.(EncryptedValue) else None
         | None => None
         end
  end.

Definition CredentialRefOf (r : CredentialRegistry) (id : Z) : option CredentialRef :=
  credentialRef <$> entryLocked r id.

(** All entries, bucket by bucket. *)
Definition allEntries (r : CredentialRegistry) : list CredentialEntry :=
  concat (map (fun gb : Z * gmap Z CredentialEntry => map snd (map_to_list gb.2)) (map_to_list r.(buckets))).

Definition ref_before (a b : CredentialRef) : Prop :=
  if bool_decide (a.(ref_GroupID) <> b.(ref_GroupID)) then a.(ref_GroupID) <= b.(ref_GroupID)
  else a.(ref_ID) <= b.(ref_ID).
#[export] Instance ref_before_dec a b : Decision (ref_before a b).
Proof. unfold ref_before. destruct (bool_decide _); apply _. Defined.

Definition BlacklistedCredentials (r : CredentialRegistry) : list CredentialRef :=
  merge_sort ref_before
    (map credentialRef (List.filter (fun e => isActive e && e.(Blacklisted)) (allEntries r))).

Definition CaptureActiveCredentialRefs (r : CredentialRegistry) (groupIDs : list Z) : list CredentialRef :=
  let selected := elements (list_to_set (List.filter (fun g => negb (g =? 0)) groupIDs) : gset Z) in
  merge_sort ref_before
    (map credentialRef (List.filter (fun e => isActive e && authReady e)
       (concat (map (fun g => map snd (map_to_list (bucketOf r g))) selected)))).

Definition ActiveCredentialIDs (r : CredentialRegistry) : list Z :=
  merge_sort Z.le (map ID (List.filter isActive (allEntries r))).

Definition CredentialIDs (r : CredentialRegistry) : list Z :=
  merge_sort Z.le (map fst (map_to_list r.(credentialGroups))).

Definition view_before (a b : CredentialRuntimeView) : Prop :=
  if bool_decide (a.(view_GroupID) <> b.(view_GroupID)) then a.(view_GroupID) <= b.(view_GroupID)
  else a.(view_ID) <= b.(view_ID).
#[export] Instance view_before_dec a b : Decision (view_before a b).
Proof. unfold view_before. destruct (bool_decide _); apply _. Defined.

Definition Snapshot (r : CredentialRegistry) : list CredentialRuntimeView :=
  merge_sort view_before (map runtimeView (allEntries r)).

Definition metaOf (entry : CredentialEntry) : CredentialMeta :=
  mkMeta entry.(ID) entry.(GroupID) entry.(Version) entry.(IdentityGeneration)
    entry.(WeightManual) entry.(ModelCooldowns).

Definition schedulable (now : Z) (entry : CredentialEntry) : bool :=
  bool_decide (RuntimeState (runtimeView entry) now = CredentialRuntimeAvailable) && authReady entry.

Definition collectCredentialCandidatesLocked (r : CredentialRegistry) (groupIDs : list Z)
    (excluded : Z -> bool) (now : Z) : list CredentialMeta :=
  concat (map (fun g =>
    map metaOf (List.filter (fun e => negb (excluded e.(ID)) && schedulable now e)
      (map snd (map_to_list (bucketOf r g))))) groupIDs).

Definition meta_before (a b : CredentialMeta) : Prop :=
  if bool_decide (a.(meta_GroupID) <> b.(meta_GroupID)) then a.(meta_GroupID) <= b.(meta_GroupID)
  else a.(meta_ID) <= b.(meta_ID).
#[export] Instance meta_before_dec a b : Decision (meta_before a b).
Proof. unfold meta_before. destruct (bool_decide _); apply _. Defined.

Definition CollectCredentialCandidates (r : CredentialRegistry) (groupIDs : list Z)
    (excluded : Z -> bool) (now : Z) : list CredentialMeta :=
  merge_sort meta_before
    (List.filter (fun m => negb (excluded m.(meta_ID)))
       (collectCredentialCandidatesLocked r groupIDs (fun _ => false) now)).

End Registry.
