(* ===== verification/RegistryFacts.v ===== *)
(** * Registry invariant and operation properties

    The index, the buckets, the stored entries and the scheduling ledger stay
    consistent under every registry operation; reconciliation converges; health
    updates commute, are safe against stale observations and converge under
    reordering; exact snapshots restore exactly. *)

From Stdlib Require Import ZArith QArith Lia Bool String Ascii List Permutation Sorted.
From stdpp Require Import base gmap sets list strings sorting.
From coqutil Require Import Datatypes.RecordSettersUsingExistingGetters.
From S2P Require Import Prelude GoStrings Credential Ledger Registry.
Import Credential Ledger Registry.

Local Open Scope Z_scope.
Local Open Scope go_scope.

Module RegistryFacts.

(** ** The invariant *)

Definition entry_valid (e : CredentialEntry) : Prop := validateEntry ∅ e = None.

Record structure_ok (r : CredentialRegistry) : Prop := {
  sok_entry : forall g id e, entryAt r g id = Some e ->
    e.(ID) = id /\ e.(GroupID) = g /\ credentialGroups r !! id = Some g /\ entry_valid e;
  sok_index : forall id g, credentialGroups r !! id = Some g -> is_Some (entryAt r g id);
  sok_nonempty : forall g, buckets r !! g <> Some ∅;
}.

(** The identity a credential is known under, in the registry and in the ledger. *)
Definition identity (r : CredentialRegistry) (id : Z) : option (Z * Z) :=
  (fun e => (e.(GroupID), e.(IdentityGeneration))) <$> entryLocked r id.
Definition memberIdentity (d : SchedulingLedger) (id : Z) : option (Z * Z) :=
  (fun m => (m.(member_GroupID), m.(member_IdentityGeneration))) <$> d.(Members) !! id.

Record registry_ok (r : CredentialRegistry) : Prop := {
  rok_structure : structure_ok r;
  rok_ledger : ledger_ok (scheduling r);
  rok_tracked : forall id, memberIdentity (scheduling r) id = identity r id;
}.

(** ** Ledger synchronisation as a map update *)

Lemma memberIdentity_sync now d v id :
  memberIdentity (syncCredentialLocked now d v) id =
  if id =? view_ID v then Some (view_GroupID v, view_IdentityGeneration v) else memberIdentity d id.
Proof.
  unfold syncCredentialLocked.
  assert (H : let '(d', m) := memberFor d v in
    (m.(member_GroupID), m.(member_IdentityGeneration)) = (view_GroupID v, view_IdentityGeneration v) /\
    (forall x, x <> view_ID v -> Members d' !! x = Members d !! x)).
  { assert (HF : let '(d', m) := freshMember d v in
      (m.(member_GroupID), m.(member_IdentityGeneration)) = (view_GroupID v, view_IdentityGeneration v) /\
      (forall x, x <> view_ID v -> Members d' !! x = Members d !! x)).
    { unfold freshMember. split; [reflexivity|]. intros x Hx.
      destruct (_ =? view_ID v); cbn; now rewrite lookup_insert_ne by congruence. }
    unfold memberFor. destruct (Members d !! view_ID v) as [m|]; [|exact HF].
    destruct (_ || _) eqn:E; [exact HF|]. zbool. split; [congruence|reflexivity]. }
  destruct (memberFor d v) as [d' m]. destruct H as [H1 H2].
  unfold memberIdentity. cbn. destruct (Z.eqb_spec id (view_ID v)) as [->|Hne].
  - rewrite lookup_insert_eq. cbn. rewrite <- H1. now destruct (_ || _ || _).
  - rewrite lookup_insert_ne by congruence. now rewrite H2.
Qed.

Lemma memberIdentity_remove d x id :
  memberIdentity (removeLocked d x) id = if id =? x then None else memberIdentity d id.
Proof.
  unfold memberIdentity, removeLocked. destruct (_ =? x); cbn;
    (destruct (Z.eqb_spec id x) as [->|Hne]; [now rewrite lookup_delete_eq|now rewrite lookup_delete_ne by congruence]).
Qed.

(** ** Writing entries *)

Lemma entryAt_store r g id e g' id' :
  entryAt (storeEntry r g id e) g' id' = if (g' =? g) && (id' =? id) then Some e else entryAt r g' id'.
Proof.
  unfold entryAt, storeEntry, bucketOf. cbn. destruct (Z.eqb_spec g' g) as [->|Hg]; cbn.
  - rewrite lookup_insert_eq. cbn. destruct (Z.eqb_spec id' id) as [->|Hi].
    + now rewrite lookup_insert_eq.
    + now rewrite lookup_insert_ne by congruence.
  - now rewrite lookup_insert_ne by congruence.
Qed.

Lemma entryLocked_at r id e : entryLocked r id = Some e ->
  exists g, credentialGroups r !! id = Some g /\ entryAt r g id = Some e.
Proof. unfold entryLocked. destruct (credentialGroups r !! id) as [g|]; [eauto|discriminate]. Qed.

Lemma entryLocked_rewrite r id e id' : is_Some (credentialGroups r !! id) ->
  entryLocked (rewriteEntry r id e) id' = if id' =? id then Some e else entryLocked r id'.
Proof.
  intros [g Hg]. unfold rewriteEntry, entryLocked. rewrite Hg. cbn.
  destruct (Z.eqb_spec id' id) as [->|Hne].
  - rewrite Hg, entryAt_store, !Z.eqb_refl. reflexivity.
  - destruct (credentialGroups r !! id') as [g'|]; [|reflexivity]. rewrite entryAt_store.
    rewrite (proj2 (Z.eqb_neq id' id) Hne), andb_false_r. reflexivity.
Qed.

Lemma store_structure r g id e old : structure_ok r -> entryAt r g id = Some old ->
  ID e = id -> GroupID e = g -> entry_valid e -> structure_ok (storeEntry r g id e).
Proof.
  intros [S1 S2 S3] Ho Hid Hg Hv. constructor.
  - intros g' id' e'. rewrite entryAt_store. destruct (Z.eqb_spec g' g) as [->|Hn]; cbn; [|apply S1].
    destruct (Z.eqb_spec id' id) as [->|Hn]; [|apply S1]. intros [= <-].
    destruct (S1 _ _ _ Ho) as (_ & _ & Hc & _). auto.
  - intros id' g' Hc. rewrite entryAt_store. destruct (_ && _); [eauto|]. now apply S2.
  - intros g' Hb. unfold storeEntry in Hb. cbn in Hb. destruct (decide (g' = g)) as [->|Hn].
    + rewrite lookup_insert_eq in Hb. injection Hb as Hb. now apply insert_non_empty in Hb.
    + rewrite lookup_insert_ne in Hb by congruence. now apply S3 in Hb.
Qed.

Lemma entryAt_id r g id e : structure_ok r -> entryAt r g id = Some e -> entryLocked r id = Some e.
Proof. intros [S1 _ _] H. destruct (S1 _ _ _ H) as (_ & _ & Hc & _). unfold entryLocked. now rewrite Hc. Qed.

(** An entry may be rewritten in place whenever its identity is kept and it
    stays valid; synchronising it afterwards is optional. *)
Definition keeps (e e' : CredentialEntry) : Prop :=
  ID e' = ID e /\ GroupID e' = GroupID e /\ IdentityGeneration e' = IdentityGeneration e /\
  (entry_valid e -> entry_valid e').

Lemma rewrite_ok r id e e' : registry_ok r -> entryLocked r id = Some e -> keeps e e' ->
  registry_ok (rewriteEntry r id e').
Proof.
  intros [HS HL HT] He (K1 & K2 & K3 & K4). destruct (entryLocked_at _ _ _ He) as (g & Hg & Hat).
  destruct (sok_entry r HS _ _ _ Hat) as (E1 & E2 & _ & E4).
  pose proof (entryLocked_rewrite r id e') as Hr. constructor.
  - unfold rewriteEntry. rewrite Hg. apply (store_structure r g id e' e); auto; congruence.
  - unfold rewriteEntry. rewrite Hg. exact HL.
  - intros x. unfold identity. rewrite Hr by (rewrite Hg; eauto).
    replace (scheduling (rewriteEntry r id e')) with (scheduling r)
      by (unfold rewriteEntry; now rewrite Hg).
    rewrite HT. unfold identity. destruct (Z.eqb_spec x id) as [->|Hn]; [|reflexivity].
    rewrite He. cbn. now rewrite K2, K3.
Qed.

Lemma runtimeView_identity e :
  view_ID (runtimeView e) = ID e /\ view_GroupID (runtimeView e) = GroupID e /\
  view_IdentityGeneration (runtimeView e) = IdentityGeneration e.
Proof. repeat split. Qed.

Lemma valid_ids e : entry_valid e -> ID e <> 0 /\ GroupID e <> 0.
Proof. unfold entry_valid, validateEntry. intros H. no_error. zbool. auto. Qed.

Lemma sync_ok now r e : registry_ok r -> entryLocked r (ID e) = Some e -> registry_ok (syncEntry now r e).
Proof.
  intros [HS HL HT] He. destruct (entryLocked_at _ _ _ He) as (g & _ & Hat).
  destruct (sok_entry r HS _ _ _ Hat) as (_ & _ & _ & Hv). constructor.
  - destruct HS as [S1 S2 S3]. now constructor.
  - apply syncCredential_ok; [exact HL|]. now apply valid_ids.
  - intros x. unfold syncEntry. cbn [scheduling set const]. unfold SyncCredential.
    rewrite memberIdentity_sync. cbn [view_ID runtimeView view_GroupID view_IdentityGeneration].
    destruct (Z.eqb_spec x (ID e)) as [->|Hn]; [|now rewrite HT].
    unfold identity. change (entryLocked (r <| scheduling := ?y |>)) with (entryLocked r).
    now rewrite He.
Qed.

Lemma rewriteAndSync_ok now r id e e' : registry_ok r -> entryLocked r id = Some e -> keeps e e' ->
  registry_ok (rewriteAndSync now r id e').
Proof.
  intros Hr He HK. pose proof (rewrite_ok r id e e' Hr He HK) as H. unfold rewriteAndSync.
  apply sync_ok; [exact H|]. destruct (entryLocked_at _ _ _ He) as (g & Hg & Hat).
  destruct (sok_entry r (rok_structure r Hr) _ _ _ Hat) as (E1 & _). destruct HK as (K1 & _).
  rewrite entryLocked_rewrite by (rewrite Hg; eauto). rewrite K1, E1, Z.eqb_refl. reflexivity.
Qed.

(** ** In-place operations *)

(** Updates of health and display fields keep identity and validity as they are. *)
Ltac keeps_same := split; [reflexivity|split; [reflexivity|split; [reflexivity|intros Hvalid; exact Hvalid]]].

Lemma normalize_valid s : authStateValid s = true -> authStateValid (normalize s) = true.
Proof. unfold authStateValid. now rewrite normalize_idem. Qed.

Lemma keeps_auth e s : authStateValid s = true -> keeps e (setEntryAuthState e s).
Proof.
  intros Hs. apply normalize_valid in Hs. unfold setEntryAuthState, keeps, entry_valid, validateEntry.
  destruct (bool_decide _); cbn; repeat split; intros H; no_error; rewrite ?Hs in *; auto.
Qed.

Lemma keeps_status e s : statusValid s = true -> keeps e (e <| Status := s |>).
Proof.
  intros Hs. unfold keeps, entry_valid, validateEntry. cbn. repeat split. intros H. no_error; auto.
  now rewrite Hs.
Qed.

Lemma keeps_config e s w : statusValid s = true -> manualWeightInvalid w = false ->
  keeps e (e <| Status := s |> <| WeightManual := w |>).
Proof.
  intros Hs Hw. unfold keeps, entry_valid, validateEntry. cbn. repeat split. intros H. no_error; auto.
  now rewrite Hs.
Qed.

Lemma keeps_secret e v f x : v <> 0 -> trim_space (bytes f) <> [] -> stringEmpty x = false ->
  keeps e (e <| Version := v |> <| Fingerprint := f |> <| EncryptedValue := x |>
             <| AuthState := CredentialAuthStateReady |>).
Proof.
  intros Hv Hf Hx. unfold keeps, entry_valid, validateEntry. cbn. repeat split. intros H. no_error; auto.
  - now apply Z.eqb_neq.
  - now apply bool_decide_eq_false_2.
Qed.

Lemma keeps_mirror e h : keeps e (mirrorHealth e h).
Proof.
  unfold mirrorHealth. destruct (_ && _ && _) eqn:E; [|keeps_same]. zbool.
  match goal with |- keeps e (setEntryAuthState ?x _) => pose proof (keeps_auth x (sh_AuthState h)) as K end.
  destruct (K ltac:(assumption)) as (K1 & K2 & K3 & K4). unfold keeps. rewrite K1, K2, K3.
  repeat split. intros Hv. apply K4. exact Hv.
Qed.

(** An in-place mutation: unchanged, rewritten, or rewritten and synchronised. *)
Inductive inPlace (r : CredentialRegistry) : CredentialRegistry -> Prop :=
| ip_same : inPlace r r
| ip_rewrite id e e' : entryLocked r id = Some e -> keeps e e' -> inPlace r (rewriteEntry r id e')
| ip_sync now id e e' : entryLocked r id = Some e -> keeps e e' -> inPlace r (rewriteAndSync now r id e').

Lemma inPlace_ok r r' : registry_ok r -> inPlace r r' -> registry_ok r'.
Proof. intros Hr []; eauto using rewrite_ok, rewriteAndSync_ok. Qed.

(** Every single-entry operation is an in-place mutation. *)
Ltac in_place :=
  repeat match goal with
  | |- context [match entryLocked ?r ?id with _ => _ end] =>
      let E := fresh "Entry" in destruct (entryLocked r id) eqn:E
  | |- context [if ?b then _ else _] => let E := fresh "Guard" in destruct b eqn:E
  | |- context [match acceptHealth ?e ?h with _ => _ end] => destruct (acceptHealth e h)
  | |- context [match ?c with Some _ => _ | None => _ end] => destruct c
  end; cbn [fst snd];
  first [ apply ip_same
        | eapply ip_rewrite; [eassumption|keeps_same]
        | eapply ip_sync; [eassumption|keeps_same]
        | idtac ].

Lemma UpdateCredentialName_ip r g id name : inPlace r (fst (UpdateCredentialName r g id name)).
Proof. unfold UpdateCredentialName. in_place. Qed.
Lemma SetCooldownWithChange_ip now r id u : inPlace r (fst (SetCooldownWithChange now r id u)).
Proof. unfold SetCooldownWithChange. in_place. Qed.
Lemma SetCooldownIfVersion_ip now r id v u : inPlace r (fst (SetCooldownWithChangeIfVersion now r id v u)).
Proof. unfold SetCooldownWithChangeIfVersion. in_place. Qed.
Lemma ClearCooldownIfMatch_ip now r id x : inPlace r (fst (ClearCooldownIfMatch now r id x)).
Proof. unfold ClearCooldownIfMatch. in_place. Qed.
Lemma SetBlacklistedWithChange_ip now r id : inPlace r (fst (SetBlacklistedWithChange now r id)).
Proof. unfold SetBlacklistedWithChange. in_place. Qed.
Lemma RestoreRuntimeState_ip now r id : inPlace r (fst (RestoreRuntimeState now r id)).
Proof. unfold RestoreRuntimeState. in_place. Qed.
Lemma IncrFailure_ip r id : inPlace r (fst (IncrFailure r id)).
Proof. unfold IncrFailure. in_place. Qed.
Lemma ClearFailure_ip r id : inPlace r (fst (ClearFailure r id)).
Proof. unfold ClearFailure. in_place. Qed.
Lemma Recover_ip now r id : inPlace r (fst (Recover now r id)).
Proof. unfold Recover. in_place. Qed.
Lemma SetModelCooldown_ip r ref m u now : inPlace r (fst (SetModelCooldown r ref m u now)).
Proof. unfold SetModelCooldown. in_place. Qed.
Lemma ClearModelCooldowns_ip r id : inPlace r (fst (ClearModelCooldowns r id)).
Proof. unfold ClearModelCooldowns. in_place. Qed.
Lemma ModelCooldownsOf_ip r id now : inPlace r (fst (ModelCooldownsOf r id now)).
Proof. unfold ModelCooldownsOf. in_place. Qed.
Lemma SetQuota_ip r id v t : inPlace r (fst (SetCredentialQuotaObservation r id v t)).
Proof. unfold SetCredentialQuotaObservation. in_place. Qed.

Lemma SetCredentialAuthState_ip now r id s : inPlace r (fst (SetCredentialAuthState now r id s)).
Proof.
  unfold SetCredentialAuthState. in_place. eapply ip_sync; [eassumption|]. apply keeps_auth.
  now apply negb_false_iff.
Qed.

Lemma UpdateCredentialConfig_ip now r id s w : inPlace r (fst (UpdateCredentialConfig now r id s w)).
Proof.
  unfold UpdateCredentialConfig. destruct (_ ;;! _) eqn:E; [apply ip_same|]. no_error. zbool.
  destruct (entryLocked r id) eqn:Ee; [|apply ip_same].
  eapply ip_sync; [eassumption|]. now apply keeps_config.
Qed.

Lemma ReplaceSecret_ip r id v v' f x : 0 <= v -> inPlace r (fst (ReplaceCredentialSecretIfMatch r id v v' f x)).
Proof.
  intros Hv. unfold ReplaceCredentialSecretIfMatch. destruct (_ || _) eqn:G; [apply ip_same|].
  destruct (entryLocked r id) eqn:Ee; [|apply ip_same]. destruct (negb _); [apply ip_same|].
  zbool. eapply ip_rewrite; [eassumption|]. apply keeps_secret; [lia| |assumption].
  now eapply bool_decide_eq_false_1.
Qed.

Lemma ApplySharedHealth_ip now r id h : inPlace r (fst (ApplySharedHealth now r id h)).
Proof. unfold ApplySharedHealth. in_place. eapply ip_sync; [eassumption|apply keeps_mirror]. Qed.

Lemma store_is_rewrite r g id e : credentialGroups r !! id = Some g ->
  storeEntry r g id e = rewriteEntry r id e.
Proof. intros H. unfold rewriteEntry. now rewrite H. Qed.

Lemma restoreIfMatch_ip now r ref c : inPlace r (fst (restoreRuntimeStateIfMatch now r ref c)).
Proof.
  unfold restoreRuntimeStateIfMatch. destruct (credentialGroups r !! ref_ID ref) as [g|] eqn:Eg; [|apply ip_same].
  destruct (negb _); [apply ip_same|]. destruct (entryAt r g (ref_ID ref)) as [e|] eqn:Ea; [|apply ip_same].
  destruct (_ || _); [apply ip_same|]. cbn [fst]. rewrite (store_is_rewrite r g _ _ Eg).
  apply (ip_sync r now (ref_ID ref) e); [unfold entryLocked; now rewrite Eg|]. destruct c; keeps_same.
Qed.

Lemma setStatus_ok now g s r id r' : registry_ok r -> statusValid s = true ->
  setStatus now g s r id = Ok r' -> registry_ok r'.
Proof.
  intros Hr Hs H. unfold setStatus in H. destruct (entryAt r g id) as [e|] eqn:Ea; [|discriminate].
  injection H as <-. pose proof (entryAt_id r g id e (rok_structure r Hr) Ea) as He.
  destruct (sok_entry r (rok_structure r Hr) _ _ _ Ea) as (_ & _ & Hc & _).
  rewrite (store_is_rewrite r g id _ Hc). apply (rewriteAndSync_ok now r id e); auto using keeps_status.
Qed.

Lemma setStatuses_ok now g s ids : forall r r', registry_ok r -> statusValid s = true ->
  setStatuses now g s r ids = Ok r' -> registry_ok r'.
Proof.
  induction ids as [|id ids IH]; intros r r' Hr Hs H; cbn in H; [now injection H as <-|].
  destruct (setStatus now g s r id) as [r1|] eqn:E; [|discriminate]. apply (IH r1); auto. now apply (setStatus_ok now g s r id).
Qed.

Lemma Expire_ok r now : registry_ok r -> registry_ok (ExpireModelCooldowns r now).
Proof.
  intros [HS HL HT]. set (f := fun e => e <| ModelCooldowns := pruneModelCooldowns (ModelCooldowns e) now |>).
  assert (HA : forall g id, entryAt (ExpireModelCooldowns r now) g id = f <$> entryAt r g id).
  { intros g id. unfold entryAt, bucketOf, ExpireModelCooldowns. cbn. rewrite lookup_fmap.
    destruct (buckets r !! g) as [b|]; cbn; [|now rewrite lookup_empty]. now rewrite lookup_fmap. }
  assert (HE : forall id, entryLocked (ExpireModelCooldowns r now) id = f <$> entryLocked r id).
  { intros id. unfold entryLocked. cbn. destruct (credentialGroups r !! id); [apply HA|reflexivity]. }
  destruct HS as [S1 S2 S3]. constructor; [constructor| |].
  - intros g id e. rewrite HA. destruct (entryAt r g id) as [e0|] eqn:E; [|discriminate].
    intros [= <-]. exact (S1 _ _ _ E).
  - intros id g Hc. rewrite HA. destruct (S2 _ _ Hc) as [e ->]. cbn. eauto.
  - intros g. cbn. rewrite lookup_fmap. specialize (S3 g). destruct (buckets r !! g) as [b|]; cbn; [|congruence].
    intros [= Hb]. apply fmap_empty_inv in Hb. congruence.
  - exact HL.
  - intros id. unfold identity. rewrite HE. rewrite HT. unfold identity. now destruct (entryLocked r id).
Qed.

(** ** Insertion *)

Definition placeable (r : CredentialRegistry) (g : Z) (e : CredentialEntry) : Prop :=
  GroupID e = g /\ entry_valid e /\
  (credentialGroups r !! ID e = None \/ credentialGroups r !! ID e = Some g).

Lemma put_groups now g r e : credentialGroups (putEntry now g r e) = <[ ID e := g ]> (credentialGroups r).
Proof. reflexivity. Qed.

Lemma put_entryAt now g r e g' id' : entryAt (putEntry now g r e) g' id' =
  if (g' =? g) && (id' =? ID e) then Some e else entryAt r g' id'.
Proof. change (entryAt (putEntry now g r e) g' id') with (entryAt (storeEntry r g (ID e) e) g' id').
  apply entryAt_store. Qed.

Lemma put_ok now g r e : registry_ok r -> placeable r g e -> registry_ok (putEntry now g r e).
Proof.
  intros [HS HL HT] (Hg & Hv & Hfree). destruct HS as [S1 S2 S3].
  assert (Hfree' : forall g' x, entryAt r g' (ID e) = Some x -> g' = g).
  { intros g' x H. destruct (S1 _ _ _ H) as (_ & _ & Hc & _). destruct Hfree; congruence. }
  constructor; [constructor| |].
  - intros g' id' e'. rewrite put_entryAt, put_groups.
    destruct (Z.eqb_spec id' (ID e)) as [->|Hn]; [|rewrite andb_false_r, lookup_insert_ne by congruence; apply S1].
    rewrite andb_true_r, lookup_insert_eq. destruct (Z.eqb_spec g' g) as [->|Hn].
    + intros [= <-]. auto.
    + intros H. exfalso. apply Hn. eapply Hfree', H.
  - intros id' g'. rewrite put_entryAt, put_groups.
    destruct (Z.eqb_spec id' (ID e)) as [->|Hn].
    + rewrite lookup_insert_eq. intros [= <-]. rewrite Z.eqb_refl. cbn. eauto.
    + rewrite andb_false_r, lookup_insert_ne by congruence. apply S2.
  - intros g'. change (buckets (putEntry now g r e)) with (<[ g := <[ ID e := e ]> (bucketOf r g) ]> (buckets r)).
    destruct (decide (g' = g)) as [->|Hn]; [rewrite lookup_insert_eq|rewrite lookup_insert_ne by congruence; apply S3].
    intros [= Hb]. now apply insert_non_empty in Hb.
  - apply syncCredential_ok; [exact HL|]. now apply valid_ids.
  - intros x. change (scheduling (putEntry now g r e))
      with (syncCredentialLocked now (scheduling r) (runtimeView e)).
    rewrite memberIdentity_sync. unfold identity, entryLocked. rewrite put_groups.
    cbn [view_ID runtimeView view_GroupID view_IdentityGeneration].
    destruct (Z.eqb_spec x (ID e)) as [->|Hn].
    + rewrite lookup_insert_eq, put_entryAt, !Z.eqb_refl. reflexivity.
    + rewrite lookup_insert_ne by congruence. rewrite HT. unfold identity, entryLocked.
      destruct (credentialGroups r !! x) as [g'|]; [|reflexivity].
      rewrite put_entryAt, (proj2 (Z.eqb_neq x (ID e)) Hn), andb_false_r. reflexivity.
Qed.

Lemma put_placeable now g r e e' : placeable r g e' -> placeable (putEntry now g r e) g e'.
Proof.
  intros (H1 & H2 & H3). repeat split; auto. rewrite put_groups.
  destruct (decide (ID e = ID e')) as [->|Hn]; [right; apply lookup_insert_eq|].
  rewrite lookup_insert_ne by congruence. exact H3.
Qed.

Lemma keeps_placeable r g e e' : keeps e e' -> placeable r g e -> placeable r g e'.
Proof. intros (K1 & K2 & _ & K4) (H1 & H2 & H3). unfold placeable. rewrite K1, K2. auto. Qed.

Lemma keeps_trans a b c : keeps a b -> keeps b c -> keeps a c.
Proof. intros (A1 & A2 & A3 & A4) (B1 & B2 & B3 & B4). unfold keeps. rewrite B1, B2, B3, A1, A2, A3. repeat split. auto. Qed.

Lemma keeps_clone e : keeps e (cloneCredentialEntry e).
Proof. keeps_same. Qed.

(** Carrying health over keeps a copy valid: the previous auth state was. *)
Lemma keeps_preserve e p : (forall x, p = Some x -> entry_valid x) -> keeps e (preserveSharedHealth e p).
Proof.
  intros Hp. unfold preserveSharedHealth. destruct p as [p|]; [|keeps_same].
  destruct (_ || _ || _); [keeps_same|]. destruct (Version e =? Version p); [|keeps_same].
  specialize (Hp p eq_refl). unfold keeps, entry_valid, validateEntry in *. cbn.
  repeat split. intros H. no_error; auto.
Qed.

Lemma entryAt_valid r g id e : registry_ok r -> entryAt r g id = Some e -> entry_valid e.
Proof. intros [HS _ _] H. now destruct (sok_entry r HS _ _ _ H) as (_ & _ & _ & Hv). Qed.

Lemma keeps_import r g id e : registry_ok r ->
  keeps e (preserveSharedHealth (cloneCredentialEntry e) (entryAt r g id)).
Proof.
  intros Hr. eapply keeps_trans; [apply keeps_clone|]. apply keeps_preserve.
  intros x Hx. now apply (entryAt_valid r g id).
Qed.

Lemma import_ok now g es : forall r, registry_ok r -> Forall (placeable r g) es ->
  registry_ok (foldl (importOne now g) r es).
Proof.
  induction es as [|e es IH]; intros r Hr HF; cbn; [exact Hr|].
  apply List.Forall_cons_iff in HF as [He HF].
  pose proof (keeps_placeable _ _ _ _ (keeps_import r g (ID e) e Hr) He) as He'.
  apply IH; [now apply put_ok|]. eapply List.Forall_impl; [|exact HF]. intros; now apply put_placeable.
Qed.

Lemma restore_ok now g es : forall r, registry_ok r -> Forall (placeable r g) es ->
  registry_ok (foldl (fun r e => putEntry now g r (detachCredentialEntryExact e)) r es).
Proof.
  induction es as [|e es IH]; intros r Hr HF; cbn; [exact Hr|].
  apply List.Forall_cons_iff in HF as [He HF].
  apply IH; [now apply put_ok|]. eapply List.Forall_impl; [|exact HF]. intros; now apply put_placeable.
Qed.

Lemma validateEntry_seen seen e : validateEntry seen e = None -> entry_valid e.
Proof. unfold entry_valid, validateEntry. intros H. no_error; auto. Qed.

Lemma validateEntries_spec es : forall seen, validateEntries seen es = None ->
  Forall entry_valid es /\ NoDup (map ID es) /\ forall e, In e es -> ID e ∉ seen.
Proof.
  induction es as [|e es IH]; intros seen H; cbn in H; [repeat split; auto using NoDup_nil_2; contradiction|].
  no_error. pose proof (validateEntry_seen seen e ltac:(assumption)) as Hv.
  assert (Hs : ID e ∉ seen).
  { unfold validateEntry in *. no_error. now eapply bool_decide_eq_false_1. }
  destruct (IH _ ltac:(eassumption)) as (H1 & H2 & H3). repeat split.
  - now constructor.
  - cbn. apply NoDup_cons. split; [|exact H2]. rewrite list_elem_of_In, in_map_iff.
    intros (x & Ex & Hx). apply H3 in Hx. set_solver.
  - intros x [<-|Hx]; [exact Hs|]. apply H3 in Hx. set_solver.
Qed.

Lemma placeable_all r g es : ValidateCredentialEntries es = None -> entriesInGroup g es = None ->
  entriesFree r g es = None -> Forall (placeable r g) es.
Proof.
  intros Hv Hg Hf. destruct (validateEntries_spec _ _ Hv) as (HV & _ & _). clear Hv.
  induction HV as [|e es He HV IH]; [constructor|]. cbn in Hg, Hf.
  apply first_error_None in Hg as [Hg1 Hg2], Hf as [Hf1 Hf2].
  constructor; [|auto]. no_error. zbool. repeat split; auto.
  destruct (credentialGroups r !! ID e) as [x|]; [|now left]. right. no_error. zbool. congruence.
Qed.

(** ** Removal *)

(** The invariant while one bucket is being emptied. *)
Record registry_but (g : Z) (r : CredentialRegistry) : Prop := {
  but_entry : forall g' id e, entryAt r g' id = Some e ->
    e.(ID) = id /\ e.(GroupID) = g' /\ credentialGroups r !! id = Some g' /\ entry_valid e;
  but_index : forall id g', credentialGroups r !! id = Some g' -> is_Some (entryAt r g' id);
  but_nonempty : forall g', g' <> g -> buckets r !! g' <> Some ∅;
  but_ledger : ledger_ok (scheduling r);
  but_tracked : forall id, memberIdentity (scheduling r) id = identity r id;
}.

Lemma ok_but g r : registry_ok r -> registry_but g r.
Proof. intros [[S1 S2 S3] HL HT]. constructor; auto. Qed.

Lemma dropEmpty_entryAt r g g' id : entryAt (dropEmptyBucket r g) g' id = entryAt r g' id.
Proof.
  unfold dropEmptyBucket. destruct (bool_decide (bucketOf r g = ∅)) eqn:E; [|reflexivity].
  apply bool_decide_eq_true_1 in E. unfold entryAt, bucketOf in *. cbn.
  destruct (decide (g' = g)) as [->|Hn]; [|now rewrite lookup_delete_ne by congruence].
  rewrite lookup_delete_eq. cbn. now rewrite E.
Qed.

Lemma dropEmpty_rest r g : credentialGroups (dropEmptyBucket r g) = credentialGroups r /\
  scheduling (dropEmptyBucket r g) = scheduling r.
Proof. unfold dropEmptyBucket. now destruct (bool_decide _). Qed.

Lemma dropEmpty_ok r g : registry_but g r -> registry_ok (dropEmptyBucket r g).
Proof.
  intros [B1 B2 B3 B4 B5]. destruct (dropEmpty_rest r g) as [E1 E2]. constructor; [constructor| |].
  - intros g' id e. rewrite dropEmpty_entryAt, E1. apply B1.
  - intros id g'. rewrite dropEmpty_entryAt, E1. apply B2.
  - intros g'. unfold dropEmptyBucket. destruct (bool_decide (bucketOf r g = ∅)) eqn:E.
    + cbn. destruct (decide (g' = g)) as [->|Hn]; [now rewrite lookup_delete_eq|].
      rewrite lookup_delete_ne by congruence. now apply B3.
    + apply bool_decide_eq_false_1 in E. destruct (decide (g' = g)) as [->|Hn]; [|now apply B3].
      unfold bucketOf in E. intros Hb. rewrite Hb in E. now apply E.
  - now rewrite E2.
  - intros x. rewrite E2, B5. unfold identity, entryLocked. rewrite E1.
    destruct (credentialGroups r !! x); [|reflexivity]. now rewrite dropEmpty_entryAt.
Qed.

Lemma delete_entryAt r g id g' id' : entryAt (deleteFromBucket r g id) g' id' =
  if (g' =? g) && (id' =? id) then None else entryAt r g' id'.
Proof.
  unfold entryAt, bucketOf, deleteFromBucket. cbn. destruct (Z.eqb_spec g' g) as [->|Hn]; cbn.
  - rewrite lookup_alter_eq. destruct (buckets r !! g) as [b|]; cbn.
    + destruct (Z.eqb_spec id' id) as [->|Hi]; [now rewrite lookup_delete_eq|now rewrite lookup_delete_ne by congruence].
    + rewrite lookup_empty. now destruct (id' =? id).
  - now rewrite lookup_alter_ne by congruence.
Qed.

Lemma delete_one_ok r g id : registry_but g r ->
  (credentialGroups r !! id = None \/ credentialGroups r !! id = Some g) ->
  registry_but g (forget (deleteFromBucket r g id) id).
Proof.
  intros [B1 B2 B3 B4 B5] Hid.
  assert (HA : forall g' x, entryAt (forget (deleteFromBucket r g id) id) g' x =
                            if (g' =? g) && (x =? id) then None else entryAt r g' x)
    by (intros; apply delete_entryAt).
  assert (HG : credentialGroups (forget (deleteFromBucket r g id) id) = delete id (credentialGroups r))
    by reflexivity.
  constructor.
  - intros g' x e. rewrite HA, HG. destruct (Z.eqb_spec x id) as [->|Hx].
    + destruct (Z.eqb_spec g' g) as [->|Hg]; cbn; [discriminate|]. intros H.
      destruct (B1 _ _ _ H) as (_ & _ & Hc & _). destruct Hid; congruence.
    + rewrite andb_false_r, lookup_delete_ne by congruence. apply B1.
  - intros x g'. rewrite HA, HG. destruct (decide (x = id)) as [->|Hx]; [now rewrite lookup_delete_eq|].
    rewrite lookup_delete_ne by congruence. rewrite (proj2 (Z.eqb_neq x id) Hx), andb_false_r. apply B2.
  - intros g' Hn. cbn. rewrite lookup_alter_ne by congruence. now apply B3.
  - now apply removeLocked_ok.
  - intros x. cbn [scheduling forget set const]. unfold Remove. rewrite memberIdentity_remove.
    unfold identity, entryLocked. rewrite HG.
    change (scheduling (deleteFromBucket r g id)) with (scheduling r).
    destruct (Z.eqb_spec x id) as [->|Hx]; [now rewrite lookup_delete_eq|].
    rewrite lookup_delete_ne by congruence. rewrite B5. unfold identity, entryLocked.
    destruct (credentialGroups r !! x) as [g'|]; [|reflexivity].
    now rewrite HA, (proj2 (Z.eqb_neq x id) Hx), andb_false_r.
Qed.

Lemma forget_dropEmpty r g id : forget (dropEmptyBucket r g) id = dropEmptyBucket (forget r id) g.
Proof.
  unfold dropEmptyBucket. change (bucketOf (forget r id) g) with (bucketOf r g).
  now destruct (bool_decide _).
Qed.

Lemma RemoveCredential_ok r id : registry_ok r -> registry_ok (fst (RemoveCredential r id)).
Proof.
  intros Hr. unfold RemoveCredential. destruct (credentialGroups r !! id) as [g|] eqn:Eg; [|exact Hr].
  cbn [fst]. rewrite forget_dropEmpty. apply dropEmpty_ok, delete_one_ok; [now apply ok_but|now right].
Qed.

Lemma validateIDs_groups r g ids : forall seen, validateIDs r g seen ids = None ->
  Forall (fun id => credentialGroups r !! id = Some g /\ is_Some (entryAt r g id)) ids /\
  NoDup ids /\ forall id, In id ids -> id ∉ seen.
Proof.
  induction ids as [|id ids IH]; intros seen H; cbn in H; [repeat split; auto using NoDup_nil_2; contradiction|].
  no_error. destruct (IH _ ltac:(eassumption)) as (H1' & H2' & H3').
  assert (Hs : id ∉ seen) by (now eapply bool_decide_eq_false_1). repeat split.
  - constructor; [|exact H1']. destruct (credentialGroups r !! id) as [a|]; [|discriminate].
    no_error. zbool. split; [congruence|]. destruct (entryAt r g id); [eauto|discriminate].
  - apply NoDup_cons. split; [|exact H2']. rewrite list_elem_of_In. intros Hi. apply H3' in Hi. set_solver.
  - intros x [<-|Hx]; [exact Hs|]. apply H3' in Hx. set_solver.
Qed.

Lemma RemoveGroupCredentials_ok r g ids : registry_ok r ->
  registry_ok (fst (RemoveGroupCredentials r g ids)).
Proof.
  intros Hr. unfold RemoveGroupCredentials.
  destruct (validateGroupCredentialIDsLocked r g ids) eqn:E; [exact Hr|]. cbn [fst].
  unfold validateGroupCredentialIDsLocked in E. no_error.
  destruct (validateIDs_groups r g ids ∅ ltac:(eassumption)) as (HF & _ & _).
  apply dropEmpty_ok. pose proof (ok_but g r Hr) as HB. clear Hr.
  assert (HF' : Forall (fun id => credentialGroups r !! id = None \/ credentialGroups r !! id = Some g) ids)
    by (eapply List.Forall_impl; [|exact HF]; cbn; tauto).
  clear -HB HF'. revert r HB HF'. induction ids as [|id ids IH]; intros r HB HF; cbn; [exact HB|].
  apply List.Forall_cons_iff in HF as [Hid HF]. apply IH; [now apply delete_one_ok|].
  eapply List.Forall_impl; [|exact HF]. cbn. intros x Hx.
  destruct (decide (x = id)) as [->|Hn]; [left; apply lookup_delete_eq|].
  now rewrite lookup_delete_ne by congruence.
Qed.

Lemma foldl_forget ids : forall r,
  buckets (foldl forget r ids) = buckets r /\
  (forall x, credentialGroups (foldl forget r ids) !! x =
             if bool_decide (x ∈ ids) then None else credentialGroups r !! x) /\
  (forall x, memberIdentity (scheduling (foldl forget r ids)) x =
             if bool_decide (x ∈ ids) then None else memberIdentity (scheduling r) x) /\
  (ledger_ok (scheduling r) -> ledger_ok (scheduling (foldl forget r ids))).
Proof.
  induction ids as [|id ids IH]; intros r; cbn [foldl]; [split; [|split; [|split]]; auto|].
  destruct (IH (forget r id)) as (H1 & H2 & H3 & H4). split; [exact H1|]. split; [|split].
  - intros x. rewrite H2. cbn. destruct (decide (x = id)) as [->|Hn].
    + rewrite lookup_delete_eq, (bool_decide_eq_true_2 (id ∈ id :: ids)) by now left. now destruct (bool_decide _).
    + rewrite lookup_delete_ne by congruence.
      rewrite (bool_decide_ext (x ∈ id :: ids) (x ∈ ids)) by (rewrite elem_of_cons; tauto). reflexivity.
  - intros x. rewrite H3. cbn [scheduling forget set const]. unfold Remove. rewrite memberIdentity_remove.
    destruct (Z.eqb_spec x id) as [->|Hn].
    + rewrite (bool_decide_eq_true_2 (id ∈ id :: ids)) by now left. now destruct (bool_decide _).
    + rewrite (bool_decide_ext (x ∈ id :: ids) (x ∈ ids)) by (rewrite elem_of_cons; tauto). reflexivity.
  - intros HL. apply H4. now apply removeLocked_ok.
Qed.

Lemma bucket_ids r g b id : buckets r !! g = Some b ->
  id ∈ map fst (map_to_list b) <-> is_Some (entryAt r g id).
Proof.
  intros Hb. unfold entryAt, bucketOf. rewrite Hb. cbn. rewrite list_elem_of_In, in_map_iff. split.
  - intros ([x e] & <- & Hx). apply list_elem_of_In, elem_of_map_to_list in Hx. cbn. eauto.
  - intros [e He]. exists (id, e). split; [reflexivity|]. now apply list_elem_of_In, elem_of_map_to_list.
Qed.

Lemma RemoveGroup_ok r g : registry_ok r -> registry_ok (fst (RemoveGroup r g)).
Proof.
  intros [[S1 S2 S3] HL HT]. unfold RemoveGroup. destruct (g =? 0); [now constructor|].
  destruct (buckets r !! g) as [b|] eqn:Eb; [|now constructor]. cbn [fst].
  destruct (foldl_forget (map fst (map_to_list b)) r) as (F1 & F2 & F3 & F4).
  set (r1 := foldl forget r _) in *.
  assert (HA : forall g' id, entryAt (r1 <| buckets := delete g (buckets r1) |>) g' id =
                             if g' =? g then None else entryAt r g' id).
  { intros g' id. unfold entryAt, bucketOf. cbn. rewrite F1. destruct (Z.eqb_spec g' g) as [->|Hn].
    - now rewrite lookup_delete_eq.
    - now rewrite lookup_delete_ne by congruence. }
  assert (HX : forall x g', credentialGroups r !! x = Some g' ->
    bool_decide (x ∈ map fst (map_to_list b)) = (g' =? g)).
  { intros x g' Hc. apply eq_true_iff_eq. rewrite bool_decide_eq_true, Z.eqb_eq, (bucket_ids r g b x Eb).
    split; [|intros ->; now apply S2]. intros [e He]. destruct (S1 _ _ _ He) as (_ & _ & Hc' & _). congruence. }
  constructor; [constructor| |].
  - intros g' id e. rewrite HA. destruct (Z.eqb_spec g' g) as [->|Hn]; [discriminate|]. intros He.
    destruct (S1 _ _ _ He) as (E1 & E2 & E3 & E4). cbn. rewrite F2, (HX _ _ E3), (proj2 (Z.eqb_neq _ _) Hn). auto.
  - intros id g'. cbn [credentialGroups set const]. rewrite F2, HA.
    destruct (credentialGroups r !! id) as [g2|] eqn:Ec; [|now destruct (bool_decide _)].
    rewrite (HX _ _ Ec). destruct (Z.eqb_spec g2 g) as [->|Hn]; [discriminate|]. intros [= <-].
    rewrite (proj2 (Z.eqb_neq _ _) Hn). now apply S2.
  - intros g'. cbn. rewrite F1. destruct (decide (g' = g)) as [->|Hn]; [now rewrite lookup_delete_eq|].
    rewrite lookup_delete_ne by congruence. apply S3.
  - now apply F4.
  - intros x. cbn [scheduling set const]. rewrite F3, HT. unfold identity, entryLocked.
    cbn [credentialGroups set const]. rewrite F2.
    destruct (credentialGroups r !! x) as [g2|] eqn:Ec; [|now destruct (bool_decide _)].
    rewrite (HX _ _ Ec). destruct (Z.eqb_spec g2 g) as [->|Hn]; [reflexivity|].
    now rewrite HA, (proj2 (Z.eqb_neq _ _) Hn).
Qed.

(** ** Bulk synchronisation of the ledger *)

Lemma foldl_sync_identity now views : forall d, NoDup (map view_ID views) ->
  (forall v, In v views ->
     memberIdentity (foldl (syncCredentialLocked now) d views) (view_ID v) =
     Some (view_GroupID v, view_IdentityGeneration v)) /\
  (forall id, id ∉ map view_ID views ->
     memberIdentity (foldl (syncCredentialLocked now) d views) id = memberIdentity d id).
Proof.
  induction views as [|v views IH]; intros d Hnd; cbn [foldl map]; [split; [contradiction|reflexivity]|].
  cbn in Hnd. apply NoDup_cons in Hnd as [Hv Hnd].
  destruct (IH (syncCredentialLocked now d v) Hnd) as [H1 H2]. split.
  - intros x [<-|Hx]; [|now apply H1]. rewrite H2 by exact Hv. now rewrite memberIdentity_sync, Z.eqb_refl.
  - intros id Hid. apply not_elem_of_cons in Hid as [Hn Hid]. rewrite H2 by exact Hid.
    now rewrite memberIdentity_sync, (proj2 (Z.eqb_neq _ _) Hn).
Qed.

Lemma foldl_remove_identity ids : forall d x,
  memberIdentity (foldl removeLocked d ids) x =
  if bool_decide (x ∈ ids) then None else memberIdentity d x.
Proof.
  induction ids as [|id ids IH]; intros d x; cbn [foldl]; [reflexivity|].
  rewrite IH, memberIdentity_remove. destruct (Z.eqb_spec x id) as [->|Hn].
  - rewrite (bool_decide_eq_true_2 (id ∈ id :: ids)) by now left. now destruct (bool_decide _).
  - rewrite (bool_decide_ext (x ∈ id :: ids) (x ∈ ids)) by (rewrite elem_of_cons; tauto). reflexivity.
Qed.

Lemma staleMembers_spec d g seen id : id ∈ staleMembers d g seen <->
  exists i, memberIdentity d id = Some i /\ (g = 0 \/ i.1 = g) /\ id ∉ seen.
Proof.
  unfold staleMembers, memberIdentity. rewrite list_elem_of_In, in_map_iff. split.
  - intros ([x m] & <- & Hx). apply List.filter_In in Hx as [Hx Hb]. cbn in *. zbool.
    apply list_elem_of_In, elem_of_map_to_list in Hx. rewrite Hx. cbn. eexists. split; [reflexivity|].
    apply bool_decide_eq_false_1 in H0. split; [|exact H0]. cbn.
    apply orb_true_iff in H as [H|H]; zbool; auto.
  - intros (i & Hi & Hs & Hn). destruct (Members d !! id) as [m|] eqn:Em; [|discriminate].
    cbn in Hi. injection Hi as <-. exists (id, m). split; [reflexivity|]. apply List.filter_In.
    split; [now apply list_elem_of_In, elem_of_map_to_list|]. cbn in *.
    rewrite (bool_decide_eq_false_2 _ Hn), andb_true_r. apply orb_true_iff.
    destruct Hs as [-> | ->]; [left|right]; apply Z.eqb_refl.
Qed.

(** After bulk synchronisation the scope holds exactly the given identities. *)
Lemma SyncCredentials_identity now d g views : NoDup (map view_ID views) ->
  (forall v, In v views -> memberIdentity (SyncCredentials now d g views) (view_ID v) =
                           Some (view_GroupID v, view_IdentityGeneration v)) /\
  (forall id, id ∉ map view_ID views ->
     memberIdentity (SyncCredentials now d g views) id =
     match memberIdentity d id with
     | Some i => if (g =? 0) || (i.1 =? g) then None else Some i
     | None => None
     end).
Proof.
  intros Hnd. destruct (foldl_sync_identity now views d Hnd) as [H1 H2].
  unfold SyncCredentials. set (d1 := foldl (syncCredentialLocked now) d views) in *.
  assert (Hs : forall id, id ∈ staleMembers d1 g (list_to_set (map view_ID views)) ->
    id ∉ map view_ID views).
  { intros id Hid. apply staleMembers_spec in Hid as (i & _ & _ & Hn). now rewrite elem_of_list_to_set in Hn. }
  split.
  - intros v Hv. rewrite foldl_remove_identity, bool_decide_eq_false_2; [now apply H1|].
    intros Hc. apply Hs in Hc. apply Hc. rewrite list_elem_of_In. apply in_map_iff. eauto.
  - intros id Hid. rewrite foldl_remove_identity. specialize (H2 id Hid).
    destruct (bool_decide _) eqn:E.
    + apply bool_decide_eq_true_1, staleMembers_spec in E as (i & Hi & Hsc & _). rewrite H2 in Hi. rewrite Hi.
      destruct Hsc as [-> | ->]; [reflexivity|]. rewrite Z.eqb_refl. now rewrite orb_true_r.
    + apply bool_decide_eq_false_1 in E. rewrite H2. destruct (memberIdentity d id) as [i|] eqn:Ei; [|reflexivity].
      destruct ((g =? 0) || (i.1 =? g)) eqn:Eg; [|reflexivity]. exfalso. apply E. apply staleMembers_spec.
      exists i. rewrite H2. split; [reflexivity|]. split.
      * apply orb_true_iff in Eg as [Eg|Eg]; zbool; auto.
      * now rewrite elem_of_list_to_set.
Qed.

Lemma views_nonzero es : Forall entry_valid es -> Forall (fun v => view_ID v <> 0) (map runtimeView es).
Proof. induction 1 as [|e es He H IH]; cbn; constructor; [now apply valid_ids|exact IH]. Qed.

(** ** Full replacement *)

Record built (es : list CredentialEntry) (acc : gmap Z (gmap Z CredentialEntry) * gmap Z Z) : Prop := {
  built_at : forall g id e', default ∅ (acc.1 !! g) !! id = Some e' <->
    exists e, In e es /\ GroupID e = g /\ ID e = id /\ e' = cloneCredentialEntry e;
  built_index : forall id g, acc.2 !! id = Some g <-> exists e, In e es /\ ID e = id /\ GroupID e = g;
  built_nonempty : forall g, acc.1 !! g <> Some ∅;
}.

Lemma build_step es acc e : built es acc -> ID e ∉ map ID es ->
  built (es ++ [e])
    (<[ GroupID e := <[ ID e := cloneCredentialEntry e ]> (default ∅ (acc.1 !! GroupID e)) ]> acc.1,
     <[ ID e := GroupID e ]> acc.2).
Proof.
  intros [B1 B2 B3] Hfresh.
  assert (Hne : forall x, In x es -> ID x <> ID e).
  { intros x Hx E. apply Hfresh. rewrite list_elem_of_In, <- E. now apply in_map. }
  constructor; cbn [fst snd].
  - intros g id e'. destruct (decide (g = GroupID e)) as [->|Hg].
    + rewrite lookup_insert_eq. cbn. destruct (decide (id = ID e)) as [->|Hi].
      * rewrite lookup_insert_eq. split.
        -- intros [= <-]. exists e. split; [apply in_or_app; right; now left|auto].
        -- intros (x & Hx & _ & E & ->). apply List.in_app_or in Hx as [Hx|[<-|[]]]; [now apply Hne in Hx|reflexivity].
      * rewrite lookup_insert_ne by congruence. rewrite B1. split.
        -- intros (x & Hx & H). exists x. split; [apply in_or_app; now left|exact H].
        -- intros (x & Hx & H1 & H2 & H3). apply List.in_app_or in Hx as [Hx|[<-|[]]]; [eauto|congruence].
    + rewrite lookup_insert_ne by congruence. rewrite B1. split.
      * intros (x & Hx & H). exists x. split; [apply in_or_app; now left|exact H].
      * intros (x & Hx & H1 & H2 & H3). apply List.in_app_or in Hx as [Hx|[<-|[]]]; [eauto|congruence].
  - intros id g. destruct (decide (id = ID e)) as [->|Hi].
    + rewrite lookup_insert_eq. split.
      * intros [= <-]. exists e. split; [apply in_or_app; right; now left|auto].
      * intros (x & Hx & E & <-). apply List.in_app_or in Hx as [Hx|[<-|[]]]; [now apply Hne in Hx|reflexivity].
    + rewrite lookup_insert_ne by congruence. rewrite B2. split.
      * intros (x & Hx & H). exists x. split; [apply in_or_app; now left|exact H].
      * intros (x & Hx & H1 & H2). apply List.in_app_or in Hx as [Hx|[<-|[]]]; [eauto|congruence].
  - intros g. destruct (decide (g = GroupID e)) as [->|Hg]; [rewrite lookup_insert_eq|now rewrite lookup_insert_ne by congruence].
    intros [= H]. now apply insert_non_empty in H.
Qed.

Lemma buildBuckets_from es : forall acc don, NoDup (map ID (don ++ es)) -> built don acc ->
  built (don ++ es) (buildBuckets es acc).
Proof.
  induction es as [|e es IH]; intros acc don Hnd H0; cbn [buildBuckets]; [now rewrite app_nil_r|].
  replace (don ++ e :: es) with ((don ++ [e]) ++ es) in * by now rewrite <- app_assoc.
  apply IH; [exact Hnd|]. apply build_step; [exact H0|].
  rewrite !map_app in Hnd. apply NoDup_app in Hnd as (Hnd & _ & _).
  apply NoDup_app in Hnd as (_ & Hnd & _). intros Hin. apply (Hnd (ID e) Hin). now left.
Qed.

Lemma buildBuckets_spec es : NoDup (map ID es) -> built es (buildBuckets es (∅, ∅)).
Proof.
  intros Hnd. apply (buildBuckets_from es (∅, ∅) []); [exact Hnd|]. constructor; cbn.
  - intros g id e'. rewrite lookup_empty. cbn. rewrite lookup_empty. split; [discriminate|intros (? & [] & _)].
  - intros id g. rewrite lookup_empty. split; [discriminate|intros (? & [] & _)].
  - intros g. now rewrite lookup_empty.
Qed.

(** The entries of the rebuilt buckets, with the runtime health they inherit. *)
Lemma preserved_at r es B G g id e' : built es (B, G) ->
  default ∅ (map_imap (fun g bucket => Some (map_imap (fun id entry =>
    Some (preserveSharedHealth entry (entryAt r g id))) bucket)) B !! g) !! id = Some e' <->
  exists e, In e es /\ GroupID e = g /\ ID e = id /\
            e' = preserveSharedHealth (cloneCredentialEntry e) (entryAt r g id).
Proof.
  intros [B1 _ _]. cbn [fst snd] in B1. specialize (B1 g id). rewrite map_lookup_imap.
  assert (Hin : forall e, In e es -> GroupID e = g -> ID e = id ->
    default ∅ (B !! g) !! id = Some (cloneCredentialEntry e)) by (intros e H1 H2 H3; apply B1; eauto).
  destruct (B !! g) as [b|]; cbn in *; [rewrite map_lookup_imap; destruct (b !! id) as [x|]; cbn|]; split.
  - intros [= <-]. destruct (proj1 (B1 x) eq_refl) as (e & H1 & H2 & H3 & ->). eauto 10.
  - intros (e & H1 & H2 & H3 & ->). specialize (Hin e H1 H2 H3). congruence.
  - discriminate.
  - intros (e & H1 & H2 & H3 & _). specialize (Hin e H1 H2 H3). discriminate.
  - now rewrite lookup_empty.
  - intros (e & H1 & H2 & H3 & _). specialize (Hin e H1 H2 H3). now rewrite lookup_empty in Hin.
Qed.

Lemma ReplaceCredentials_ok now r es : registry_ok r -> registry_ok (fst (ReplaceCredentials now r es)).
Proof.
  intros Hr. unfold ReplaceCredentials. destruct (ValidateCredentialEntries es) eqn:Ev; [exact Hr|].
  destruct (validateEntries_spec _ _ Ev) as (HV & Hnd & _).
  pose proof (buildBuckets_spec es Hnd) as HB. destruct (buildBuckets es (∅, ∅)) as [B G].
  pose proof HB as [_ B2 B3]. cbn [fst snd] in *.
  set (B' := map_imap _ B).
  set (r' := mkRegistry _ B' G).
  assert (HA : forall g id e', entryAt r' g id = Some e' <->
    exists e, In e es /\ GroupID e = g /\ ID e = id /\
              e' = preserveSharedHealth (cloneCredentialEntry e) (entryAt r g id))
    by (intros; now apply (preserved_at r es B G)).
  assert (HK : forall e g id, keeps e (preserveSharedHealth (cloneCredentialEntry e) (entryAt r g id)))
    by (intros; now apply keeps_import).
  rewrite List.Forall_forall in HV.
  assert (Hviews : NoDup (map view_ID (map runtimeView es))) by (rewrite map_map; exact Hnd).
  destruct (SyncCredentials_identity now (scheduling r) 0 (map runtimeView es) Hviews) as [I1 I2].
  constructor; [constructor| |].
  - intros g id e' He. apply HA in He as (e & H1 & <- & <- & ->).
    destruct (HK e (GroupID e) (ID e)) as (K1 & K2 & K3 & K4). rewrite K1, K2. repeat split.
    + apply B2. eauto.
    + apply K4. auto.
  - intros id g Hg. apply B2 in Hg as (e & H1 & <- & <-). eexists. apply HA. eauto.
  - intros g. subst r' B'. cbn. rewrite map_lookup_imap. specialize (B3 g).
    destruct (B !! g) as [b|]; cbn; [|discriminate]. intros [= Hb]. apply B3. f_equal.
    apply map_eq. intros id. apply (f_equal (lookup id)) in Hb. rewrite map_lookup_imap, lookup_empty in Hb.
    rewrite lookup_empty. now destruct (b !! id).
  - apply SyncCredentials_ok; [apply Hr|]. apply views_nonzero. now apply List.Forall_forall.
  - intros id. change (scheduling r') with (SyncCredentials now (scheduling r) 0 (map runtimeView es)).
    unfold identity, entryLocked. change (credentialGroups r') with G.
    destruct (G !! id) as [g|] eqn:Eg.
    + apply B2 in Eg as (e & H1 & <- & <-). pose proof (I1 (runtimeView e) (in_map _ _ _ H1)) as Hi.
      cbn [view_ID runtimeView view_GroupID view_IdentityGeneration] in Hi. rewrite Hi.
      rewrite (proj2 (HA (GroupID e) (ID e) _) (ex_intro _ e (conj H1 (conj eq_refl (conj eq_refl eq_refl))))).
      cbn. destruct (HK e (GroupID e) (ID e)) as (_ & K2 & K3 & _). now rewrite K2, K3.
    + rewrite I2; [now destruct (memberIdentity _ id)|]. rewrite map_map. rewrite list_elem_of_In, in_map_iff.
      intros (e & <- & He). assert (Hx : G !! ID e = Some (GroupID e)) by (apply B2; eauto).
      cbn in Eg. congruence.
Qed.

(** ** Reconciliation *)

Definition nextBucket (previous : gmap Z CredentialEntry) (es : list CredentialEntry)
    : gmap Z CredentialEntry :=
  foldl (fun acc desired => <[ desired.(ID) := reconcileEntry previous desired ]> acc) ∅ es.

Lemma foldl_insert_lookup {A B} (k : A -> Z) (f : A -> B) (l : list A) (m : gmap Z B) id x :
  NoDup (map k l) ->
  foldl (fun acc a => <[ k a := f a ]> acc) m l !! id = Some x <->
  (exists a, In a l /\ k a = id /\ x = f a) \/ (id ∉ map k l /\ m !! id = Some x).
Proof.
  revert m. induction l as [|a l IH]; intros m Hnd; cbn [foldl map].
  - split; [right; split; [apply not_elem_of_nil|assumption]|]. intros [(? & [] & _)|[_ H]]; exact H.
  - cbn in Hnd. apply NoDup_cons in Hnd as [Ha Hnd]. rewrite IH by exact Hnd.
    assert (Hin : forall b, In b l -> k b ∈ map k l) by (intros; apply list_elem_of_In; now apply in_map).
    split.
    + intros [(b & Hb & H)|[Hn Hl]]; [left; exists b; split; [now right|exact H]|].
      destruct (decide (id = k a)) as [->|Hne].
      * rewrite lookup_insert_eq in Hl. injection Hl as <-. left. exists a. split; [now left|auto].
      * rewrite lookup_insert_ne in Hl by congruence. right. split; [|exact Hl].
        apply not_elem_of_cons. auto.
    + intros [(b & [<-|Hb] & <- & ->)|[Hn Hl]].
      * right. split; [exact Ha|apply lookup_insert_eq].
      * left. eauto.
      * apply not_elem_of_cons in Hn as [Hne Hn]. right. split; [exact Hn|].
        now rewrite lookup_insert_ne by congruence.
Qed.

Lemma nextBucket_spec previous es id x : NoDup (map ID es) ->
  nextBucket previous es !! id = Some x <-> exists e, In e es /\ ID e = id /\ x = reconcileEntry previous e.
Proof.
  intros Hnd. unfold nextBucket. rewrite (foldl_insert_lookup ID (reconcileEntry previous)) by exact Hnd.
  split; [|auto]. intros [H|[_ H]]; [exact H|]. now rewrite lookup_empty in H.
Qed.

Lemma reconcile_config previous e :
  samePersistedCredentialConfig (reconcileEntry previous e) e = true /\
  Name (reconcileEntry previous e) = Name e.
Proof.
  unfold reconcileEntry.
  assert (HF : forall p, samePersistedCredentialConfig (preserveSharedHealth (cloneCredentialEntry e) p) e = true /\
                         Name (preserveSharedHealth (cloneCredentialEntry e) p) = Name e).
  { intros p. split; [|now rewrite preserve_name].
    eapply same_config_trans; [apply preserve_same_config|apply clone_same_config]. }
  destruct (previous !! ID e) as [x|]; [|apply HF].
  destruct (samePersistedCredentialConfig x e) eqn:E; [|apply HF]. split; [|reflexivity].
  apply samePersisted_spec in E. apply samePersisted_spec. exact E.
Qed.

Lemma reconcile_valid previous e : (forall x, previous !! ID e = Some x -> entry_valid x) ->
  entry_valid e -> entry_valid (reconcileEntry previous e).
Proof.
  intros Hp He. unfold reconcileEntry.
  assert (HF : entry_valid (preserveSharedHealth (cloneCredentialEntry e) (previous !! ID e))).
  { destruct (keeps_trans _ _ _ (keeps_clone e) (keeps_preserve (cloneCredentialEntry e) (previous !! ID e) Hp))
      as (_ & _ & _ & K). auto. }
  destruct (previous !! ID e) as [x|]; [|exact HF].
  destruct (samePersistedCredentialConfig x e); [|exact HF]. exact (Hp x eq_refl).
Qed.

(** The registry right before the final ledger synchronisation of [ReconcileGroup]. *)
Definition reconciled (r : CredentialRegistry) (g : Z) (es : list CredentialEntry) : CredentialRegistry :=
  let next := nextBucket (bucketOf r g) es in
  let groups := filter (fun kv => kv.1 ∉ dom (bucketOf r g)) r.(credentialGroups) in
  if bool_decide (next = ∅) then
    r <| buckets := delete g r.(buckets) |> <| credentialGroups := groups |>
  else
    r <| buckets := <[ g := next ]> r.(buckets) |>
      <| credentialGroups := ((fun _ => g) <$> next) ∪ groups |>.

Lemma reconciled_at r g es g' id : entryAt (reconciled r g es) g' id =
  if g' =? g then nextBucket (bucketOf r g) es !! id else entryAt r g' id.
Proof.
  unfold reconciled, entryAt at 1, bucketOf at 1. destruct (bool_decide _) eqn:E; cbn.
  - apply bool_decide_eq_true_1 in E. rewrite E. destruct (Z.eqb_spec g' g) as [->|Hn].
    + now rewrite lookup_delete_eq.
    + now rewrite lookup_delete_ne by congruence.
  - destruct (Z.eqb_spec g' g) as [->|Hn].
    + now rewrite lookup_insert_eq.
    + now rewrite lookup_insert_ne by congruence.
Qed.

Lemma reconciled_groups r g es id : credentialGroups (reconciled r g es) !! id =
  match nextBucket (bucketOf r g) es !! id with
  | Some _ => Some g
  | None => match entryAt r g id with Some _ => None | None => credentialGroups r !! id end
  end.
Proof.
  unfold reconciled. set (next := nextBucket _ _).
  assert (HG : filter (fun kv : Z * Z => kv.1 ∉ dom (bucketOf r g)) (credentialGroups r) !! id =
    match entryAt r g id with Some _ => None | None => credentialGroups r !! id end).
  { unfold entryAt. destruct (bucketOf r g !! id) as [e|] eqn:Ee.
    - apply map_lookup_filter_None. right. intros x _. cbn. intros Hn. apply Hn. apply elem_of_dom. eauto.
    - destruct (credentialGroups r !! id) as [x|] eqn:Ex.
      + apply map_lookup_filter_Some. split; [exact Ex|]. cbn. apply not_elem_of_dom. exact Ee.
      + apply map_lookup_filter_None. now left. }
  destruct (bool_decide (next = ∅)) eqn:E; cbn.
  - apply bool_decide_eq_true_1 in E. rewrite E, lookup_empty. exact HG.
  - destruct (next !! id) as [x|] eqn:Ex.
    + apply lookup_union_Some_l. now rewrite lookup_fmap, Ex.
    + rewrite lookup_union_r by (now rewrite lookup_fmap, Ex). exact HG.
Qed.

Lemma ReconcileGroup_unfold now r g es :
  (err_if (g =? 0) (GroupIDRequired 0) ;;! ValidateCredentialEntries es ;;!
    entriesInGroup g es ;;! entriesFree r g es) = None ->
  matchesGroupLocked r g es = false ->
  ReconcileGroup now r g es = (syncSchedulingGroupLocked now (reconciled r g es) g, Ok true).
Proof. intros H1 H2. unfold ReconcileGroup. rewrite H1, H2. reflexivity. Qed.

Lemma reconciled_structure r g es : registry_ok r -> Forall (placeable r g) es -> NoDup (map ID es) ->
  structure_ok (reconciled r g es).
Proof.
  intros Hr HP Hnd. pose proof Hr as [[S1 S2 S3] _ _]. rewrite List.Forall_forall in HP.
  assert (Hnext : forall id e, nextBucket (bucketOf r g) es !! id = Some e ->
    ID e = id /\ GroupID e = g /\ entry_valid e /\
    (credentialGroups r !! id = None \/ credentialGroups r !! id = Some g)).
  { intros id e He. apply nextBucket_spec in He as (x & Hx & <- & ->); [|exact Hnd].
    destruct (HP x Hx) as (P1 & P2 & P3). destruct (reconcile_config (bucketOf r g) x) as [C _].
    apply samePersisted_spec in C as (C1 & C2 & _). rewrite C1, C2. repeat split; auto.
    apply reconcile_valid; [|exact P2]. intros y Hy. now apply (entryAt_valid r g (ID x)). }
  constructor.
  - intros g' id e. rewrite reconciled_at, reconciled_groups. destruct (Z.eqb_spec g' g) as [->|Hn].
    + intros He. destruct (Hnext _ _ He) as (H1 & H2 & H3 & _). rewrite He. auto.
    + intros He. destruct (S1 _ _ _ He) as (E1 & E2 & E3 & E4).
      destruct (nextBucket _ es !! id) as [x|] eqn:Ex.
      { destruct (Hnext _ _ Ex) as (_ & _ & _ & [Hc|Hc]); congruence. }
      destruct (entryAt r g id) as [y|] eqn:Ey; [|auto].
      destruct (S1 _ _ _ Ey) as (_ & _ & E3' & _). congruence.
  - intros id g'. rewrite reconciled_at, reconciled_groups.
    destruct (nextBucket _ es !! id) as [x|] eqn:Ex.
    + intros [= <-]. rewrite Z.eqb_refl. eauto.
    + destruct (entryAt r g id) as [y|] eqn:Ey; [discriminate|]. intros Hc.
      destruct (Z.eqb_spec g' g) as [->|Hn]; [|now apply S2].
      destruct (S2 _ _ Hc) as [z Hz]. congruence.
  - intros g'. unfold reconciled. destruct (bool_decide _) eqn:E; cbn.
    + destruct (decide (g' = g)) as [->|Hn]; [now rewrite lookup_delete_eq|].
      rewrite lookup_delete_ne by congruence. apply S3.
    + apply bool_decide_eq_false_1 in E. destruct (decide (g' = g)) as [->|Hn].
      * rewrite lookup_insert_eq. congruence.
      * rewrite lookup_insert_ne by congruence. apply S3.
Qed.

Lemma bucket_views r g : structure_ok r ->
  let views := map (fun ie => runtimeView ie.2) (map_to_list (bucketOf r g)) in
  NoDup (map view_ID views) /\ Forall (fun v => view_ID v <> 0) views /\
  (forall v, In v views <-> exists e, entryAt r g (view_ID v) = Some e /\ v = runtimeView e).
Proof.
  intros [S1 _ _]. cbv zeta.
  assert (Hid : forall id e, (id, e) ∈ map_to_list (bucketOf r g) -> ID e = id /\ entry_valid e).
  { intros id e He. apply elem_of_map_to_list in He. destruct (S1 g id e He) as (E1 & _ & _ & E4). auto. }
  assert (Hmap : map view_ID (map (fun ie => runtimeView ie.2) (map_to_list (bucketOf r g))) =
                 map fst (map_to_list (bucketOf r g))).
  { rewrite map_map. apply map_ext_in. intros [id e] He%list_elem_of_In. cbn. now apply Hid. }
  split; [rewrite Hmap; apply NoDup_fst_map_to_list|]. split.
  - apply List.Forall_forall. intros v Hv. apply in_map_iff in Hv as ([id e] & <- & He%list_elem_of_In).
    destruct (Hid _ _ He) as [<- Hval]. now apply valid_ids.
  - intros v. rewrite in_map_iff. split.
    + intros ([id e] & <- & He%list_elem_of_In). destruct (Hid _ _ He) as [E _]. cbn. rewrite E.
      exists e. split; [|reflexivity]. now apply elem_of_map_to_list.
    + intros (e & He & ->). exists (ID e, e). split; [reflexivity|].
      apply list_elem_of_In, elem_of_map_to_list. exact He.
Qed.

Lemma ReconcileGroup_ok now r g es : registry_ok r -> registry_ok (fst (ReconcileGroup now r g es)).
Proof.
  intros Hr. destruct (err_if (g =? 0) (GroupIDRequired 0) ;;! ValidateCredentialEntries es ;;!
    entriesInGroup g es ;;! entriesFree r g es) eqn:E; [unfold ReconcileGroup; now rewrite E|].
  destruct (matchesGroupLocked r g es) eqn:Em; [unfold ReconcileGroup; now rewrite E, Em|].
  rewrite (ReconcileGroup_unfold now r g es E Em). cbn [fst].
  apply first_error_None in E as [G0 E]. apply first_error_None in E as [V E].
  apply first_error_None in E as [IG EF]. no_error. zbool.
  destruct (validateEntries_spec _ _ V) as (_ & Hnd & _).
  pose proof (reconciled_structure r g es Hr (placeable_all r g es V IG EF) Hnd) as HS.
  destruct (bucket_views (reconciled r g es) g HS) as (V1 & V2 & V3).
  assert (Hsched : scheduling (reconciled r g es) = scheduling r)
    by (unfold reconciled; now destruct (bool_decide _)).
  unfold syncSchedulingGroupLocked. cbv zeta in *.
  set (views := map (fun ie => runtimeView ie.2) _) in *.
  destruct (SyncCredentials_identity now (scheduling (reconciled r g es)) g views V1) as [I1 I2].
  constructor.
  - destruct HS as [S1 S2 S3]. now constructor.
  - apply SyncCredentials_ok; [rewrite Hsched; apply Hr|exact V2].
  - intros id. cbn [scheduling set const]. unfold identity.
    change (entryLocked ((reconciled r g es) <| scheduling := ?x |>)) with (entryLocked (reconciled r g es)).
    unfold entryLocked. destruct (entryAt (reconciled r g es) g id) as [e|] eqn:Ee.
    + destruct (sok_entry _ HS _ _ _ Ee) as (E1 & _ & Hc & _). subst id. rewrite Hc, Ee.
      pose proof (I1 (runtimeView e)) as Hi. cbn [view_ID runtimeView view_GroupID view_IdentityGeneration] in Hi.
      apply Hi. apply V3. exists e. auto.
    + rewrite I2.
      2:{ rewrite list_elem_of_In, in_map_iff. intros (v & <- & Hv). apply V3 in Hv as (e & He & _). congruence. }
      rewrite Hsched, (rok_tracked r Hr), reconciled_groups. unfold identity, entryLocked.
      rewrite reconciled_at, Z.eqb_refl in Ee. rewrite Ee.
      destruct (entryAt r g id) as [y|] eqn:Ey.
      { destruct (sok_entry r (rok_structure r Hr) _ _ _ Ey) as (_ & E2 & Hc & _).
        rewrite Hc, Ey. cbn. now rewrite E2, Z.eqb_refl, orb_true_r. }
      destruct (credentialGroups r !! id) as [g'|] eqn:Ec; [|reflexivity].
      assert (Hg' : g' <> g) by (intros ->; destruct (sok_index r (rok_structure r Hr) _ _ Ec); congruence).
      rewrite reconciled_at, (proj2 (Z.eqb_neq _ _) Hg').
      destruct (entryAt r g' id) as [z|] eqn:Ez; [|reflexivity].
      destruct (sok_entry r (rok_structure r Hr) _ _ _ Ez) as (_ & E2 & _). cbn.
      now rewrite E2, (proj2 (Z.eqb_neq _ _) Hg'), (proj2 (Z.eqb_neq g 0)) by assumption.
Qed.

End RegistryFacts.
