(* ===== verification/RegistryProps.v ===== *)
(** * Properties of the credential registry

    The reachable registries with the scheduling operations that share their
    ledger, and the theorems about reconciliation, runtime health, stale
    observations, mirrored cluster health and exact snapshots. *)

From Stdlib Require Import ZArith QArith Lia Bool String Ascii List Permutation Sorted.
From stdpp Require Import base gmap sets list strings sorting.
From coqutil Require Import Datatypes.RecordSettersUsingExistingGetters.
From S2P Require Import Prelude GoStrings Credential Ledger Fair Registry RegistryFacts.
Import Credential Ledger Fair Registry RegistryFacts.

Local Open Scope Z_scope.
Local Open Scope go_scope.

Module RegistryProps.

(** ** Scheduling keeps identities *)

Lemma identity_insert d id m m' x : Members d !! id = Some m ->
  member_GroupID m' = member_GroupID m -> member_IdentityGeneration m' = member_IdentityGeneration m ->
  memberIdentity (d <| Members := <[ id := m' ]> (Members d) |>) x = memberIdentity d x.
Proof.
  intros Hm E1 E2. unfold memberIdentity. cbn. destruct (decide (x = id)) as [->|Hn].
  - rewrite lookup_insert_eq, Hm. cbn. now rewrite E1, E2.
  - now rewrite lookup_insert_ne by congruence.
Qed.

Lemma Stagger_identity d m w : let '(d', m') := Stagger d m w in
  Members d' = Members d /\ member_GroupID m' = member_GroupID m /\
  member_IdentityGeneration m' = member_IdentityGeneration m.
Proof.
  unfold Stagger. destruct (jitter d); [|auto]. destruct (_ || _ || _); [auto|].
  destruct (add64 _ _). auto.
Qed.

Lemma collect_identity cs x : forall acc,
  memberIdentity (pass_ledger (foldl eligibleStep acc cs)) x = memberIdentity (pass_ledger acc) x.
Proof.
  induction cs as [|c cs IH]; intros acc; cbn [foldl]; [reflexivity|]. rewrite IH. unfold eligibleStep.
  destruct (Members _ !! cid c) as [m|] eqn:Em; [|reflexivity]. destruct (negb _); [reflexivity|].
  pose proof (Stagger_identity (pass_ledger acc) m (weight c)) as H.
  destruct (Stagger _ _ _) as [d' m']. destruct H as (H1 & H2 & H3).
  assert (Hm : memberIdentity (d' <| Members := <[ cid c := m' ]> (Members d') |>) x = memberIdentity d' x)
    by (apply (identity_insert d' (cid c) m m'); congruence).
  assert (Hd : memberIdentity d' x = memberIdentity (pass_ledger acc) x)
    by (unfold memberIdentity; now rewrite H1).
  destruct (_ && _); cbn [pass_ledger]; congruence.
Qed.

Lemma admit_identity rev base cs x : forall d,
  memberIdentity (admitPending rev base d cs) x = memberIdentity d x.
Proof.
  unfold admitPending. induction cs as [|c cs IH]; intros d; cbn [foldl]; [reflexivity|]. rewrite IH.
  unfold admitStep. destruct (Members d !! cid c) as [m|] eqn:Em; [|reflexivity].
  destruct (mayAdmit rev d m); [|reflexivity]. apply (identity_insert d _ m); auto;
    unfold Admit; now destruct (Compare _ _).
Qed.

Lemma charge_identity d c d' x : charge d c = Some d' -> memberIdentity d' x = memberIdentity d x.
Proof.
  unfold charge. destruct (Members d !! cid c) as [m|] eqn:Em; [|discriminate].
  destruct (Advance _ _) as [next ok]. destruct (negb ok); [discriminate|].
  intros H. assert (HM : exists m', Members d' = <[ cid c := m' ]> (Members d) /\
    member_GroupID m' = member_GroupID m /\ member_IdentityGeneration m' = member_IdentityGeneration m).
  { destruct (negb _); [|destruct (_ <? _)]; injection H as <-; eexists; repeat split; reflexivity. }
  destruct HM as (m' & HM & E1 & E2). unfold memberIdentity. rewrite HM.
  destruct (decide (x = cid c)) as [->|Hn]; [|now rewrite lookup_insert_ne by congruence].
  rewrite lookup_insert_eq, Em. cbn. now rewrite E1, E2.
Qed.

Lemma select_identity rev d cs pref x :
  memberIdentity (fst (selectCredential rev d cs pref)) x = memberIdentity d x.
Proof.
  unfold selectCredential. pose proof (collect_identity cs x (mkPass d [] (Watermark d) false)) as HC.
  change (foldl eligibleStep _ cs) with (collectEligible d cs) in HC. cbn [pass_ledger] in HC.
  destruct (eligible _) as [|f r]; [exact HC|]. destruct (_ =? max_uint64); [exact HC|].
  destruct (charge _ _) as [d'|] eqn:E; cbn [fst].
  - rewrite (charge_identity _ _ _ x E), admit_identity. exact HC.
  - now rewrite admit_identity.
Qed.

Lemma SelectModel_identity d g e models x :
  memberIdentity (fst (SelectModel d g e models)) x = memberIdentity d x.
Proof.
  unfold SelectModel. destruct models; [reflexivity|]. now destruct (rotate _ _ _) as [[? ?]|].
Qed.

Lemma cursors_members d snapshot : Members (syncModelCursorsLocked d snapshot) = Members d.
Proof.
  unfold syncModelCursorsLocked.
  match goal with |- context [foldl ?f ?a ?l] => assert (HI : Members (foldl f a l).1 = Members d) end.
  { apply (foldl_inv (fun acc : SchedulingLedger * _ => Members acc.1 = Members d)); [|reflexivity].
    intros acc gm Hacc. apply (foldl_inv (fun acc : SchedulingLedger * _ => Members acc.1 = Members d)); [|exact Hacc].
    intros [d' cur] [name models] H. unfold syncModelCursor. destruct (1 <? length models)%nat; [|exact H].
    cbn in H. destruct (ModelCursors d !! _); [exact H|]. unfold staggerModelOrder.
    destruct (jitter d'); [|exact H]. now destruct (_ <? 2)%nat. }
  destruct (foldl _ _ _) as [d' cursors]. exact HI.
Qed.

Lemma SyncGroups_identity d snapshot x : memberIdentity (SyncGroups d snapshot) x = memberIdentity d x.
Proof.
  unfold SyncGroups. destruct snapshot as [s|]; [|reflexivity]. destruct (_ && _); [reflexivity|].
  unfold memberIdentity. rewrite cursors_members. cbn. rewrite lookup_fmap.
  destruct (Members d !! x) as [m|]; cbn; [|reflexivity]. now destruct (_ || _).
Qed.

Lemma scheduling_ok r d : registry_ok r -> ledger_ok d ->
  (forall x, memberIdentity d x = memberIdentity (scheduling r) x) ->
  registry_ok (r <| scheduling := d |>).
Proof.
  intros [[S1 S2 S3] HL HT] Hd Hi. constructor; [now constructor|exact Hd|].
  intros x. cbn [scheduling set const]. rewrite Hi, HT. reflexivity.
Qed.

(** ** Reachable registries *)

Inductive registryStep : CredentialRegistry -> CredentialRegistry -> Prop :=
| rs_replace now r es : registryStep r (fst (ReplaceCredentials now r es))
| rs_import now r g es : registryStep r (fst (ApplyCredentialImport now r g es))
| rs_restore now r g es : registryStep r (fst (RestoreGroupCredentialEntriesExact now r g es))
| rs_reconcile now r g es : registryStep r (fst (ReconcileGroup now r g es))
| rs_name r g id name : registryStep r (fst (UpdateCredentialName r g id name))
| rs_remove r id : registryStep r (fst (RemoveCredential r id))
| rs_remove_some r g ids : registryStep r (fst (RemoveGroupCredentials r g ids))
| rs_remove_group r g : registryStep r (fst (RemoveGroup r g))
| rs_statuses now r g ids s r' : UpdateGroupCredentialStatuses now r g ids s = Ok r' -> registryStep r r'
| rs_status now r id s r' : SetCredentialStatus now r id s = Ok r' -> registryStep r r'
| rs_config now r id s w : registryStep r (fst (UpdateCredentialConfig now r id s w))
| rs_secret r id v v' f x : 0 <= v -> registryStep r (fst (ReplaceCredentialSecretIfMatch r id v v' f x))
| rs_auth now r id s : registryStep r (fst (SetCredentialAuthState now r id s))
| rs_quota r id v t : registryStep r (fst (SetCredentialQuotaObservation r id v t))
| rs_cooldown now r id u : registryStep r (fst (SetCooldownWithChange now r id u))
| rs_cooldown_version now r id v u : registryStep r (fst (SetCooldownWithChangeIfVersion now r id v u))
| rs_clear_cooldown now r id x : registryStep r (fst (ClearCooldownIfMatch now r id x))
| rs_blacklist now r id : registryStep r (fst (SetBlacklistedWithChange now r id))
| rs_restore_runtime now r id : registryStep r (fst (RestoreRuntimeState now r id))
| rs_incr r id : registryStep r (fst (IncrFailure r id))
| rs_clear_failure r id : registryStep r (fst (ClearFailure r id))
| rs_recover now r id : registryStep r (fst (Recover now r id))
| rs_recover_match now r ref c : registryStep r (fst (restoreRuntimeStateIfMatch now r ref c))
| rs_model r ref m u now : registryStep r (fst (SetModelCooldown r ref m u now))
| rs_clear_models r id : registryStep r (fst (ClearModelCooldowns r id))
| rs_read_models r id now : registryStep r (fst (ModelCooldownsOf r id now))
| rs_expire r now : registryStep r (ExpireModelCooldowns r now)
| rs_shared now r id h : registryStep r (fst (ApplySharedHealth now r id h))
| rs_groups r snapshot : registryStep r (r <| scheduling := SyncGroups (scheduling r) snapshot |>)
| rs_rotate r g e ms : registryStep r (r <| scheduling := fst (SelectModel (scheduling r) g e ms) |>)
| rs_select r rev cs pref : weights_ok cs ->
    registryStep r (r <| scheduling := fst (selectCredential rev (scheduling r) cs pref) |>).

Inductive registryReachable : CredentialRegistry -> Prop :=
| rr_new : registryReachable NewCredentialRegistry
| rr_staggered random : jitterLawful random -> registryReachable (NewStaggeredCredentialRegistry random)
| rr_step r r' : registryReachable r -> registryStep r r' -> registryReachable r'.

Lemma empty_registry_ok d : ledger_ok d -> Members d = ∅ -> registry_ok (mkRegistry d ∅ ∅).
Proof.
  intros Hd HM. constructor; [constructor|exact Hd|].
  - intros g id e. unfold entryAt, bucketOf. cbn [buckets]. rewrite lookup_empty. cbn [default].
    now rewrite lookup_empty.
  - intros id g. cbn [credentialGroups]. now rewrite lookup_empty.
  - intros g. cbn [buckets]. now rewrite lookup_empty.
  - intros id. unfold memberIdentity, identity, entryLocked. cbn [scheduling credentialGroups].
    now rewrite HM, !lookup_empty.
Qed.

Lemma import_step_ok now r g es : registry_ok r -> registry_ok (fst (ApplyCredentialImport now r g es)).
Proof.
  intros Hr. unfold ApplyCredentialImport. destruct (_ ;;! _) eqn:E; [exact Hr|]. cbn [fst]. no_error.
  apply import_ok; [exact Hr|]. now apply placeable_all.
Qed.

Lemma restore_step_ok now r g es : registry_ok r ->
  registry_ok (fst (RestoreGroupCredentialEntriesExact now r g es)).
Proof.
  intros Hr. unfold RestoreGroupCredentialEntriesExact. destruct (_ ;;! _) eqn:E; [exact Hr|]. cbn [fst].
  no_error. apply restore_ok; [exact Hr|]. now apply placeable_all.
Qed.

Lemma statuses_step_ok now r g ids s r' : registry_ok r ->
  UpdateGroupCredentialStatuses now r g ids s = Ok r' -> registry_ok r'.
Proof.
  intros Hr H. unfold UpdateGroupCredentialStatuses in H. destruct (_ ;;! _) eqn:E; [discriminate|].
  apply first_error_None in E as [E _]. no_error. apply negb_false_iff in E.
  now apply (setStatuses_ok now g s ids r).
Qed.

Lemma status_step_ok now r id s r' : registry_ok r -> SetCredentialStatus now r id s = Ok r' -> registry_ok r'.
Proof.
  intros Hr H. unfold SetCredentialStatus in H. destruct (negb _) eqn:E; [discriminate|].
  apply negb_false_iff in E. destruct (credentialGroups r !! id) as [g|]; [|discriminate].
  now apply (setStatus_ok now g s r id).
Qed.

Lemma step_ok r r' : registry_ok r -> registryStep r r' -> registry_ok r'.
Proof.
  intros Hr Hs. destruct Hs;
    try (eapply inPlace_ok; [exact Hr|]; first
      [ apply UpdateCredentialName_ip | apply UpdateCredentialConfig_ip | apply ReplaceSecret_ip; assumption
      | apply SetCredentialAuthState_ip | apply SetQuota_ip | apply SetCooldownWithChange_ip
      | apply SetCooldownIfVersion_ip | apply ClearCooldownIfMatch_ip | apply SetBlacklistedWithChange_ip
      | apply RestoreRuntimeState_ip | apply IncrFailure_ip | apply ClearFailure_ip | apply Recover_ip
      | apply restoreIfMatch_ip | apply SetModelCooldown_ip | apply ClearModelCooldowns_ip
      | apply ModelCooldownsOf_ip | apply ApplySharedHealth_ip ]);
    try (apply scheduling_ok; [exact Hr| |];
      [ first [apply SyncGroups_ok | apply SelectModel_ok | apply selectCredential_ok]; try apply Hr; assumption
      | intros x; auto using SyncGroups_identity, SelectModel_identity, select_identity ]);
    eauto using ReplaceCredentials_ok, import_step_ok, restore_step_ok, ReconcileGroup_ok, RemoveCredential_ok,
      RemoveGroupCredentials_ok, RemoveGroup_ok, statuses_step_ok, status_step_ok, Expire_ok.
Qed.

Lemma reachable_ok r : registryReachable r -> registry_ok r.
Proof.
  induction 1 as [|random Hr|r r' H IH Hs].
  - apply empty_registry_ok; [apply fresh_ledger_ok|reflexivity].
  - apply empty_registry_ok; [now apply staggered_ledger_ok|reflexivity].
  - now apply (step_ok r).
Qed.

(** [C27] Registry consistency.  In every registry reachable by configuration,
    health, cooldown, removal, cluster-mirror and scheduling operations: buckets
    and index agree, each stored entry is valid under its own id and group, no
    bucket is empty, the ledger is well formed, and the ledger accounts exactly
    the registered credentials, each under its current group and identity
    generation. *)
Theorem registry_invariant (r : CredentialRegistry) (H : registryReachable r) : registry_ok r.
Proof. now apply reachable_ok. Qed.

(** A small configured registry used in examples. *)
Definition sampleEntry (id group : Z) : CredentialEntry :=
  mkEntry "key" id group 1 1 "fp" None 0 CredentialStatusActive CredentialAuthStateReady 0 ∅ 0 false 0 0
    "sealed" "" "" None 0 "" 0.

Definition sampleRegistry : CredentialRegistry :=
  fst (ReplaceCredentials 1000 NewCredentialRegistry [sampleEntry 1 9; sampleEntry 2 9; sampleEntry 3 8]).

Lemma sample_reachable : registryReachable sampleRegistry.
Proof. eapply rr_step; [apply rr_new|apply rs_replace]. Defined.

Lemma registry_invariant_witness : registry_ok (fst (RemoveCredential sampleRegistry 2)).
Proof. apply registry_invariant. eapply rr_step; [apply sample_reachable|apply rs_remove]. Defined.

(** ** No nil dereference *)

Lemma setStatus_total now g s r id : registry_ok r -> credentialGroups r !! id = Some g ->
  exists r', setStatus now g s r id = Ok r' /\ credentialGroups r' = credentialGroups r /\
    (forall x, is_Some (entryAt r g x) -> is_Some (entryAt r' g x)).
Proof.
  intros [HS _ _] Hg. unfold setStatus. destruct (sok_index r HS _ _ Hg) as [e He]. rewrite He.
  eexists. split; [reflexivity|]. split; [reflexivity|]. intros x Hx.
  change (entryAt (syncEntry ?n ?a ?c) ?g ?x) with (entryAt a g x). rewrite entryAt_store.
  destruct (_ && _); [eauto|exact Hx].
Qed.

Lemma setStatuses_total now g s ids : forall r, Forall (fun id => is_Some (entryAt r g id)) ids ->
  exists r', setStatuses now g s r ids = Ok r'.
Proof.
  induction ids as [|id ids IH]; intros r HF; cbn; [eauto|]. apply List.Forall_cons_iff in HF as [[e He] HF].
  unfold setStatus. rewrite He. apply IH. eapply List.Forall_impl; [|exact HF]. intros x Hx. cbn beta.
  change (entryAt (syncEntry ?n ?a ?c) ?g ?x) with (entryAt a g x). rewrite entryAt_store.
  destruct (_ && _); [eauto|exact Hx].
Qed.

Lemma collectEntries_total r g ids : Forall (fun id => is_Some (entryAt r g id)) ids ->
  exists es, collectEntries r g ids = Ok es /\ Forall2 (fun id e => entryAt r g id = Some e) ids es.
Proof.
  induction 1 as [|id ids [e He] H IH]; cbn; [eauto|]. rewrite He. destruct IH as (es & -> & HF).
  eexists. split; [reflexivity|]. now constructor.
Qed.

Lemma validated_present r g ids : validateGroupCredentialIDsLocked r g ids = None ->
  Forall (fun id => is_Some (entryAt r g id)) ids.
Proof.
  intros H. unfold validateGroupCredentialIDsLocked in H. no_error.
  destruct (validateIDs_groups r g ids ∅ ltac:(eassumption)) as (HF & _ & _).
  eapply List.Forall_impl; [|exact HF]. cbn. tauto.
Qed.

(** No nil dereference.  The operations that index a bucket without a
    presence check (status changes, secret reads, exact snapshots) never hit a
    missing entry in a reachable registry. *)
Theorem registry_never_panics (r : CredentialRegistry) (Hr : registryReachable r)
    (now g id : Z) (ids : list Z) (s : CredentialStatus) :
  SetCredentialStatus now r id s <> Err NilDereference /\
  EncryptedCredentialData r id <> Err NilDereference /\
  UpdateGroupCredentialStatuses now r g ids s <> Err NilDereference /\
  SnapshotGroupCredentialEntriesExact r g ids <> Err NilDereference.
Proof.
  apply reachable_ok in Hr. pose proof Hr as [HS _ _].
  assert (HV : validateGroupCredentialIDsLocked r g ids <> Some NilDereference).
  { unfold validateGroupCredentialIDsLocked. destruct (err_if (g =? 0) _) eqn:E1; cbn.
    - unfold err_if in E1. destruct (g =? 0); congruence.
    - destruct (err_if _ EntriesRequired) eqn:E2; cbn.
      + unfold err_if in E2. destruct ids; congruence.
      + clear E1 E2. generalize (∅ : gset Z). induction ids as [|x ids IH]; intros seen; cbn; [discriminate|].
        unfold err_if. destruct (x =? 0); cbn; [discriminate|]. destruct (bool_decide _); cbn; [discriminate|].
        destruct (credentialGroups r !! x); cbn; [|discriminate]. destruct (negb _); cbn; [discriminate|].
        destruct (entryAt r g x); cbn; [apply IH|discriminate]. }
  split; [|split; [|split]].
  - unfold SetCredentialStatus. destruct (negb _); [discriminate|].
    destruct (credentialGroups r !! id) as [g'|] eqn:Eg; [|discriminate].
    destruct (setStatus_total now g' s r id Hr Eg) as (r' & -> & _). discriminate.
  - unfold EncryptedCredentialData. destruct (credentialGroups r !! id) as [g'|] eqn:Eg; [|discriminate].
    destruct (sok_index r HS _ _ Eg) as [e ->]. discriminate.
  - unfold UpdateGroupCredentialStatuses, err_if. destruct (negb _); cbn; [discriminate|].
    destruct (validateGroupCredentialIDsLocked r g ids) as [e|] eqn:Ev; [congruence|].
    destruct (setStatuses_total now g s ids r (validated_present r g ids Ev)) as [r' ->]. discriminate.
  - unfold SnapshotGroupCredentialEntriesExact.
    destruct (validateGroupCredentialIDsLocked r g ids) as [e|] eqn:Ev; [congruence|].
    destruct (collectEntries_total r g ids (validated_present r g ids Ev)) as (es & -> & _). discriminate.
Qed.

Lemma registry_never_panics_witness :
  EncryptedCredentialData sampleRegistry 3 = Ok (Some "sealed"%string) /\
  EncryptedCredentialData sampleRegistry 3 <> Err NilDereference.
Proof.
  split; [vm_compute; reflexivity|].
  exact (proj1 (proj2 (registry_never_panics sampleRegistry sample_reachable 0 9 3 [] CredentialStatusActive))).
Defined.

(** ** Candidates *)

Lemma candidate_spec r gs excluded now m :
  In m (collectCredentialCandidatesLocked r gs excluded now) <->
  exists g id e, In g gs /\ entryAt r g id = Some e /\ excluded (ID e) = false /\
                 schedulable now e = true /\ m = metaOf e.
Proof.
  unfold collectCredentialCandidatesLocked. rewrite in_concat. split.
  - intros (l & Hl & Hm). apply in_map_iff in Hl as (g & <- & Hg). apply in_map_iff in Hm as (e & <- & He).
    apply List.filter_In in He as [He Hf]. apply in_map_iff in He as ([id x] & E & Hx%list_elem_of_In).
    apply elem_of_map_to_list in Hx. cbn in E. subst x. apply andb_true_iff in Hf as [H1 H2].
    apply negb_true_iff in H1. exists g, id, e. auto.
  - intros (g & id & e & Hg & He & H1 & H2 & ->). eexists. split; [apply in_map; exact Hg|].
    apply in_map, List.filter_In. split; [|now rewrite H1, H2].
    apply in_map_iff. exists (id, e). split; [reflexivity|]. now apply list_elem_of_In, elem_of_map_to_list.
Qed.

Lemma schedulable_spec now e : schedulable now e = true <->
  Status e = CredentialStatusActive /\ Blacklisted e = false /\ CooldownUntil e <= now /\
  normalize (AuthState e) = CredentialAuthStateReady.
Proof.
  unfold schedulable, authReady, RuntimeState, runtimeView. cbn.
  rewrite andb_true_iff, !bool_decide_eq_true.
  destruct (bool_decide (Status e <> CredentialStatusActive)) eqn:E1.
  - apply bool_decide_eq_true_1 in E1. split; [intros [H _]; discriminate|tauto].
  - apply bool_decide_eq_false_1, dec_stable in E1.
    destruct (Blacklisted e); [split; [intros [H _]; discriminate|intros (_ & H & _); discriminate]|].
    destruct (Z.gtb_spec (CooldownUntil e) now); split; intros H'; try tauto.
    + destruct H'; discriminate.
    + lia.
Qed.

(** The ledger of a consistent registry accounts for every candidate. *)
Lemma candidate_accounted r gs excluded now m w : registry_ok r ->
  In m (collectCredentialCandidatesLocked r gs excluded now) ->
  accounted (scheduling r) (mkWeighted m w) = true.
Proof.
  intros [HS _ HT] Hm. apply candidate_spec in Hm as (g & id & e & _ & He & _ & _ & ->).
  pose proof (entryAt_id r g id e HS He) as Hl. destruct (sok_entry r HS _ _ _ He) as (<- & _).
  specialize (HT (ID e)). unfold identity, memberIdentity in HT. rewrite Hl in HT.
  unfold accounted. cbn. destruct (Members (scheduling r) !! ID e) as [x|]; cbn in HT; [|discriminate].
  injection HT as E1 E2. unfold memberMatches. cbn. now rewrite E1, E2, !Z.eqb_refl.
Qed.

(** Candidates are exactly the schedulable credentials, and the ledger
    accounts each of them.  In a reachable registry the collected candidates are
    the active, not blacklisted, not cooling, auth-ready, not excluded entries
    of the requested groups; every one of them is accounted by the ledger under
    the same identity, so selection never drops a collected candidate. *)
Theorem candidates_exact_and_accounted (r : CredentialRegistry) (Hr : registryReachable r)
    (gs : list Z) (excluded : Z -> bool) (now : Z) (m : CredentialMeta) (w : Z) :
  (In m (collectCredentialCandidatesLocked r gs excluded now) <->
   exists e, entryLocked r (ID e) = Some e /\ In (GroupID e) gs /\ excluded (ID e) = false /\
     Status e = CredentialStatusActive /\ Blacklisted e = false /\ CooldownUntil e <= now /\
     normalize (AuthState e) = CredentialAuthStateReady /\ m = metaOf e) /\
  (In m (collectCredentialCandidatesLocked r gs excluded now) ->
   accounted (scheduling r) (mkWeighted m w) = true).
Proof.
  apply reachable_ok in Hr. pose proof Hr as [HS _ _]. pose proof (schedulable_spec now) as Hsch.
  split.
  - rewrite candidate_spec. split.
    + intros (g & id & e & Hg & He & H1 & H2 & ->). destruct (sok_entry r HS _ _ _ He) as (<- & <- & _).
      exists e. apply Hsch in H2. repeat split; try tauto. now apply (entryAt_id r (GroupID e)).
    + intros (e & He & Hg & H1 & H2 & H3 & H4 & H5 & ->).
      destruct (entryLocked_at _ _ _ He) as (g & Hc & Hat). destruct (sok_entry r HS _ _ _ Hat) as (_ & <- & _).
      exists (GroupID e), (ID e), e. repeat split; auto. apply Hsch. tauto.
  - apply candidate_accounted, Hr.
Qed.

Lemma candidates_exact_and_accounted_witness :
  accounted (scheduling sampleRegistry) (mkWeighted (metaOf (sampleEntry 1 9)) 2500) = true.
Proof.
  apply (candidates_exact_and_accounted sampleRegistry sample_reachable [9] (fun _ => false) 0 _ 2500).
  vm_compute. tauto.
Defined.

(** ** Reconciliation converges *)

Lemma nextBucket_size previous es : NoDup (map ID es) -> size (nextBucket previous es) = length es.
Proof.
  intros Hnd. rewrite <- size_dom. replace (dom (nextBucket previous es)) with (list_to_set (map ID es) : gset Z).
  - rewrite size_list_to_set by exact Hnd. apply length_map.
  - apply set_eq. intros id. rewrite elem_of_list_to_set, elem_of_dom, list_elem_of_In, in_map_iff. split.
    + intros (e & <- & He). eexists. apply nextBucket_spec; eauto.
    + intros [x Hx]. apply nextBucket_spec in Hx as (e & He & E & _); eauto.
Qed.

Lemma reconciled_bucket r g es : bucketOf (reconciled r g es) g = nextBucket (bucketOf r g) es.
Proof.
  apply map_eq. intros id. pose proof (reconciled_at r g es g id) as H. rewrite Z.eqb_refl in H. exact H.
Qed.

Lemma matches_next r g es p : NoDup (map ID es) -> bucketOf r g = nextBucket p es ->
  matchesGroupLocked r g es = true.
Proof.
  intros Hnd Hp. unfold matchesGroupLocked. rewrite Hp, nextBucket_size, Nat.eqb_refl by exact Hnd. cbn.
  apply forallb_forall. intros e He.
  rewrite (proj2 (nextBucket_spec p es (ID e) (reconcileEntry p e) Hnd)) by eauto.
  destruct (reconcile_config p e) as [-> ->]. now rewrite String.eqb_refl.
Qed.

Lemma entriesFree_after r g es : (forall e, In e es -> credentialGroups r !! ID e = Some g) ->
  entriesFree r g es = None.
Proof.
  induction es as [|e es IH]; intros H; cbn; [reflexivity|]. rewrite (H e) by now left.
  rewrite Z.eqb_refl. cbn. apply IH. intros x Hx. apply H. now right.
Qed.

Lemma name_eta e n : Name e = n -> e <| Name := n |> = e.
Proof. destruct e. now intros <-. Qed.

(** Reconciliation converges.  A successful [ReconcileGroup] leaves the
    group matching the persisted entries, a second run changes nothing, entries
    whose persisted configuration was already equal keep their runtime health
    (only the display name is refreshed), and other groups are untouched. *)
Theorem reconcile_converges (now : Z) (r r' : CredentialRegistry) (g : Z) (es : list CredentialEntry)
    (changed : bool) (H : ReconcileGroup now r g es = (r', Ok changed)) :
  MatchesGroup r' g es = true /\
  (forall now', ReconcileGroup now' r' g es = (r', Ok false)) /\
  (forall e x, In e es -> entryAt r g (ID e) = Some x -> samePersistedCredentialConfig x e = true ->
     entryAt r' g (ID e) = Some (x <| Name := Name e |>)) /\
  (forall g' id, g' <> g -> entryAt r' g' id = entryAt r g' id).
Proof.
  destruct (err_if (g =? 0) (GroupIDRequired 0) ;;! ValidateCredentialEntries es ;;!
    entriesInGroup g es ;;! entriesFree r g es) eqn:E; [unfold ReconcileGroup in H; rewrite E in H; discriminate|].
  pose proof E as Ecopy. apply first_error_None in E as [G0 E]. apply first_error_None in E as [V E].
  apply first_error_None in E as [IG EF]. destruct (validateEntries_spec _ _ V) as (_ & Hnd & _).
  assert (Hg : (g =? 0) = false) by (unfold err_if in G0; now destruct (g =? 0)).
  assert (HM : forall r0, matchesGroupLocked r0 g es = true -> MatchesGroup r0 g es = true).
  { intros r0 Hm. unfold MatchesGroup. now rewrite Hg, V, IG, Hm. }
  destruct (matchesGroupLocked r g es) eqn:Em.
  - unfold ReconcileGroup in H. rewrite Ecopy, Em in H. injection H as <- <-. split; [auto|]. split; [|split; auto].
    + intros now'. unfold ReconcileGroup. now rewrite Ecopy, Em.
    + intros e x He Hx _. unfold matchesGroupLocked in Em. apply andb_true_iff in Em as [_ Em].
      rewrite forallb_forall in Em. specialize (Em e He). unfold entryAt in Hx |- *. rewrite Hx in *.
      apply andb_true_iff in Em as [Em _]. apply String.eqb_eq in Em. now rewrite name_eta.
  - rewrite (ReconcileGroup_unfold now r g es Ecopy Em) in H. injection H as <- <-.
    set (r1 := reconciled r g es).
    assert (Hm1 : matchesGroupLocked (syncSchedulingGroupLocked now r1 g) g es = true).
    { apply (matches_next _ g es (bucketOf r g)); [exact Hnd|]. apply reconciled_bucket. }
    assert (HA : forall g' id, entryAt (syncSchedulingGroupLocked now r1 g) g' id = entryAt r1 g' id) by reflexivity.
    split; [auto|]. split; [|split].
    + intros now'. unfold ReconcileGroup. rewrite Hg, V, IG. cbn [err_if first_error].
      rewrite entriesFree_after.
      * now rewrite Hm1.
      * intros e He. change (credentialGroups (syncSchedulingGroupLocked now r1 g)) with (credentialGroups r1).
        unfold r1. rewrite reconciled_groups.
        now rewrite (proj2 (nextBucket_spec _ es (ID e) (reconcileEntry (bucketOf r g) e) Hnd)) by eauto.
    + intros e x He Hx Hsame. rewrite HA. unfold r1. rewrite reconciled_at, Z.eqb_refl.
      rewrite (proj2 (nextBucket_spec _ es (ID e) (reconcileEntry (bucketOf r g) e) Hnd)) by eauto.
      f_equal. unfold reconcileEntry. unfold entryAt in Hx. now rewrite Hx, Hsame.
    + intros g' id Hn. rewrite HA. unfold r1. now rewrite reconciled_at, (proj2 (Z.eqb_neq _ _) Hn).
Qed.

Lemma reconcile_converges_witness :
  MatchesGroup (fst (ReconcileGroup 1000 sampleRegistry 9 [sampleEntry 2 9; sampleEntry 4 9])) 9
    [sampleEntry 2 9; sampleEntry 4 9] = true.
Proof.
  apply (reconcile_converges 1000 sampleRegistry
    (fst (ReconcileGroup 1000 sampleRegistry 9 [sampleEntry 2 9; sampleEntry 4 9])) 9
    [sampleEntry 2 9; sampleEntry 4 9] true).
  vm_compute. reflexivity.
Defined.

(** ** Cooldown deadlines *)

Lemma entryLocked_sync now r e x : entryLocked (syncEntry now r e) x = entryLocked r x.
Proof. reflexivity. Qed.

Lemma entryLocked_index r id e : entryLocked r id = Some e -> is_Some (credentialGroups r !! id).
Proof. intros H. destruct (entryLocked_at _ _ _ H) as (g & -> & _). eauto. Qed.

Lemma entryLocked_rewriteAndSync now r id e e' x : entryLocked r id = Some e ->
  entryLocked (rewriteAndSync now r id e') x = if x =? id then Some e' else entryLocked r x.
Proof.
  intros H. unfold rewriteAndSync. rewrite entryLocked_sync. apply entryLocked_rewrite.
  eapply entryLocked_index, H.
Qed.

(** Reports of cooldown deadlines, each with the time it is processed. *)
Definition reportCooldowns (r : CredentialRegistry) (id : Z) (reports : list (Z * Z)) : CredentialRegistry :=
  foldl (fun r report => fst (SetCooldownWithChange report.1 r id report.2)) r reports.

Lemma cooldown_max reports : forall r id e, entryLocked r id = Some e ->
  CredentialCooldownUntil (reportCooldowns r id reports) id =
    Some (foldr Z.max (CooldownUntil e) (map snd reports)) /\
  (forall x, x <> id -> entryLocked (reportCooldowns r id reports) x = entryLocked r x).
Proof.
  induction reports as [|[now u] reports IH]; intros r id e He; cbn [reportCooldowns foldl map foldr fst snd].
  - unfold CredentialCooldownUntil. rewrite He. auto.
  - fold (reportCooldowns (fst (SetCooldownWithChange now r id u)) id reports).
    unfold SetCooldownWithChange. rewrite He. destruct (Z.gtb_spec u (CooldownUntil e)) as [Hgt|Hle]; cbn [negb fst].
    + pose proof (entryLocked_rewriteAndSync now r id e (e <| CooldownUntil := u |>)) as HR.
      destruct (IH (rewriteAndSync now r id (e <| CooldownUntil := u |>)) id (e <| CooldownUntil := u |>))
        as [H1 H2]; [rewrite HR, Z.eqb_refl by exact He; reflexivity|]. split.
      * rewrite H1. f_equal. cbn. clear -Hgt. induction (map snd reports) as [|y l IHl]; cbn; lia.
      * intros x Hx. rewrite H2 by exact Hx. rewrite HR by exact He. now rewrite (proj2 (Z.eqb_neq _ _) Hx).
    + destruct (IH r id e He) as [H1 H2]. split; [|exact H2]. rewrite H1. f_equal.
      clear -Hle. induction (map snd reports) as [|y l IHl]; cbn; lia.
Qed.

(** Cooldown deadlines only move forward and converge.  Whatever the order
    in which concurrent requests report deadlines for a credential, it ends up
    cooling until the latest one (or its previous deadline if that is later);
    no other credential is affected. *)
Theorem cooldown_reports_converge (r : CredentialRegistry) (id : Z) (e : CredentialEntry)
    (reports reports' : list (Z * Z)) (He : entryLocked r id = Some e)
    (HP : Permutation (map snd reports) (map snd reports')) :
  CredentialCooldownUntil (reportCooldowns r id reports) id =
    Some (foldr Z.max (CooldownUntil e) (map snd reports)) /\
  CredentialCooldownUntil (reportCooldowns r id reports') id =
    CredentialCooldownUntil (reportCooldowns r id reports) id /\
  (forall x, x <> id -> entryLocked (reportCooldowns r id reports) x = entryLocked r x).
Proof.
  destruct (cooldown_max reports r id e He) as [H1 H2]. destruct (cooldown_max reports' r id e He) as [H3 _].
  split; [exact H1|]. split; [|exact H2]. rewrite H1, H3. f_equal. symmetry.
  clear -HP. induction HP; cbn; lia.
Qed.

Lemma cooldown_reports_converge_witness :
  CredentialCooldownUntil (reportCooldowns sampleRegistry 1 [(1, 500); (2, 900); (3, 700)]) 1 = Some 900.
Proof.
  destruct (cooldown_reports_converge sampleRegistry 1 (sampleEntry 1 9)
    [(1, 500); (2, 900); (3, 700)] [(1, 900); (2, 700); (3, 500)]) as [H _].
  - vm_compute. reflexivity.
  - cbn. apply (Permutation_cons_append [900; 700] 500).
  - exact H.
Defined.

(** ** Stale observations *)

(** The health operations that run concurrently with a recovery probe. *)
Inductive healthOp :=
| HBlacklist (now id : Z) | HIncr (id : Z) | HClear (id : Z) | HRecover (now id : Z)
| HRestore (now id : Z) | HCooldown (now id until : Z) | HClearCooldown (now id expected : Z).

Definition runHealth (r : CredentialRegistry) (op : healthOp) : CredentialRegistry :=
  match op with
  | HBlacklist now id => fst (SetBlacklistedWithChange now r id)
  | HIncr id => fst (IncrFailure r id)
  | HClear id => fst (ClearFailure r id)
  | HRecover now id => fst (Recover now r id)
  | HRestore now id => fst (RestoreRuntimeState now r id)
  | HCooldown now id until => fst (SetCooldownWithChange now r id until)
  | HClearCooldown now id expected => fst (ClearCooldownIfMatch now r id expected)
  end.

(** Each operation either keeps the failure facts of an entry or advances its
    failure generation by one. *)
Definition advanced (e e' : CredentialEntry) : Prop :=
  (FailureGeneration e' = FailureGeneration e /\ FailureCount e' = FailureCount e /\
   Blacklisted e' = Blacklisted e) \/
  FailureGeneration e' = wrap_u64 (FailureGeneration e + 1).

Ltac health_case He :=
  match goal with
  | |- exists e', entryLocked (rewriteAndSync ?now ?r ?x ?y) ?id = Some e' /\ _ =>
      match type of He with entryLocked _ x = Some _ =>
        rewrite (entryLocked_rewriteAndSync now r x _ y id He) end
  | |- exists e', entryLocked (rewriteEntry ?r ?x ?y) ?id = Some e' /\ _ =>
      rewrite (entryLocked_rewrite r x y id (entryLocked_index _ _ _ He))
  | _ => idtac
  end.

Lemma runHealth_step r op id e : entryLocked r id = Some e ->
  exists e', entryLocked (runHealth r op) id = Some e' /\ advanced e e'.
Proof.
  intros He. assert (Hkeep : exists e', entryLocked r id = Some e' /\ advanced e e')
    by (exists e; split; [exact He|left; auto]).
  destruct op as [now x|x|x|now x|now x|now x u|now x u]; cbn [runHealth];
    unfold SetBlacklistedWithChange, IncrFailure, ClearFailure, Recover, RestoreRuntimeState,
      SetCooldownWithChange, ClearCooldownIfMatch;
    try (destruct (u =? 0); [exact Hkeep|]);
    (destruct (entryLocked r x) as [y|] eqn:Hx; [|exact Hkeep]);
    repeat match goal with |- context [if ?b then _ else _] => destruct b eqn:? end; cbn [fst];
    try exact Hkeep; health_case Hx;
    (destruct (Z.eqb_spec id x) as [->|Hn]; [|exact Hkeep]);
    rewrite Hx in He; injection He as ->; eexists; (split; [reflexivity|]);
    first [right; reflexivity | left; repeat split; reflexivity].
Qed.

Lemma runHealth_count ops : forall r id e, entryLocked r id = Some e -> in_uint64 (FailureGeneration e) ->
  exists e' j, entryLocked (foldl runHealth r ops) id = Some e' /\ (j <= length ops)%nat /\
    FailureGeneration e' = wrap_u64 (FailureGeneration e + Z.of_nat j) /\
    (j = 0%nat -> FailureCount e' = FailureCount e /\ Blacklisted e' = Blacklisted e).
Proof.
  induction ops as [|op ops IH]; intros r id e He Hg; cbn [foldl length].
  - exists e, 0%nat. split; [exact He|]. split; [lia|]. split; [|auto]. now rewrite Z.add_0_r, wrap_u64_id.
  - destruct (runHealth_step r op id e He) as (e1 & H1 & HA).
    assert (Hg1 : in_uint64 (FailureGeneration e1)).
    { destruct HA as [(-> & _)| ->]; [exact Hg|apply wrap_u64_range]. }
    destruct (IH (runHealth r op) id e1 H1 Hg1) as (e' & j & H2 & H3 & H4 & H5).
    destruct HA as [(G & C & B)|G].
    + exists e', j. split; [exact H2|]. split; [lia|]. split; [congruence|].
      intros Hj. destruct (H5 Hj). split; congruence.
    + exists e', (S j). split; [exact H2|]. split; [lia|]. split; [|discriminate].
      rewrite H4, G. unfold wrap_u64. rewrite Zplus_mod_idemp_l. f_equal. lia.
Qed.

(** A recovery probe never lifts a newer blacklist.  A probe captures a
    reference, and up to [2^64 - 1] health operations on any credentials happen
    before it reports success.  If the recovery is accepted, the failure count
    and blacklist flag of the credential are still those the probe observed: any
    intermediate failure, blacklisting or clearing invalidates the probe. *)
Theorem stale_recovery_rejected (r : CredentialRegistry) (id : Z) (e : CredentialEntry)
    (ops : list healthOp) (now : Z)
    (He : entryLocked r id = Some e) (Hid : ID e = id) (Hg : in_uint64 (FailureGeneration e))
    (Hlen : Z.of_nat (length ops) < two64)
    (Hacc : snd (RecoverIfMatch now (foldl runHealth r ops) (credentialRef e)) = true) :
  exists e', entryLocked (foldl runHealth r ops) id = Some e' /\
    FailureCount e' = FailureCount e /\ Blacklisted e' = Blacklisted e /\ Blacklisted e = true.
Proof.
  destruct (runHealth_count ops r id e He Hg) as (e' & j & H1 & H2 & H3 & H4).
  exists e'. split; [exact H1|]. destruct (entryLocked_at _ _ _ H1) as (g & Hgr & Hat).
  unfold RecoverIfMatch, restoreRuntimeStateIfMatch in Hacc. cbn [credentialRef ref_ID ref_GroupID] in Hacc.
  rewrite Hid, Hgr in Hacc. destruct (negb _); [discriminate|]. rewrite Hat in Hacc.
  destruct (_ || _) eqn:G; [discriminate|]. zbool. cbn [credentialRef ref_FailureGeneration] in *.
  assert (j = 0%nat).
  { rewrite H3 in *. unfold wrap_u64, in_uint64 in *.
    destruct (Z.eq_dec (Z.of_nat j) 0) as [E|E]; [lia|exfalso].
    destruct (Z.lt_ge_cases (FailureGeneration e + Z.of_nat j) two64) as [L|L].
    - rewrite Z.mod_small in * by lia. lia.
    - rewrite <- (Z.mod_unique (FailureGeneration e + Z.of_nat j) two64 1
        (FailureGeneration e + Z.of_nat j - two64)) in * by lia. lia. }
  destruct (H4 ltac:(assumption)) as [C B]. repeat split; auto. congruence.
Qed.

Lemma stale_recovery_rejected_witness :
  let r := fst (SetBlacklistedWithChange 5 sampleRegistry 1) in
  let e := default (sampleEntry 1 9) (entryLocked r 1) in
  snd (RecoverIfMatch 9 (runHealth r (HIncr 1)) (credentialRef e)) = false /\
  exists e', entryLocked (foldl runHealth r [HIncr 2; HCooldown 6 1 700]) 1 = Some e' /\
    FailureCount e' = FailureCount e /\ Blacklisted e' = Blacklisted e /\ Blacklisted e = true.
Proof.
  cbv zeta. split; [vm_compute; reflexivity|].
  apply (stale_recovery_rejected _ 1 _ [HIncr 2; HCooldown 6 1 700] 9); try (vm_compute; reflexivity).
  split; vm_compute; congruence.
Defined.

(** ** Mirrored cluster health *)

(** The fields [ApplySharedHealth] mirrors unconditionally. *)
Definition mirrors (e : CredentialEntry) (h : SharedCredentialHealth) : Prop :=
  CooldownUntil e = sh_CooldownUntil h /\ Blacklisted e = sh_Blacklisted h /\
  FailureCount e = sh_FailureCount h /\ FailureGeneration e = sh_FailureGeneration h /\
  ModelCooldownGeneration e = sh_ModelCooldownGeneration h /\ ModelCooldowns e = sh_ModelCooldowns h /\
  sharedEpoch e = sh_Epoch h /\ sharedVersion e = sh_Version h.

Lemma mirrorHealth_mirrors e h : mirrors (mirrorHealth e h) h /\
  IdentityGeneration (mirrorHealth e h) = IdentityGeneration e.
Proof.
  unfold mirrorHealth, setEntryAuthState. destruct (_ && _ && _); [destruct (bool_decide _)|];
    repeat split; reflexivity.
Qed.

Definition deliver (r : CredentialRegistry) (id : Z) (events : list (Z * SharedCredentialHealth))
    : CredentialRegistry :=
  foldl (fun r ev => fst (ApplySharedHealth ev.1 r id ev.2)) r events.

(** One stream of store states: one epoch, one identity, and the version
    determines the content. *)
Definition sameStream (epoch : string) (identityGeneration : Z) (hs : list SharedCredentialHealth) : Prop :=
  epoch <> ""%string /\
  (forall h, In h hs -> sh_Epoch h = epoch /\ sh_IdentityGeneration h = identityGeneration) /\
  (forall h h', In h hs -> In h' hs -> sh_Version h = sh_Version h' -> h = h').

Lemma deliver_newest epoch events : forall r id e seen,
  sameStream epoch (IdentityGeneration e) (seen ++ map snd events) ->
  entryLocked r id = Some e ->
  (seen = [] /\ sharedEpoch e <> epoch \/
   exists h, In h seen /\ mirrors e h /\ forall h', In h' seen -> sh_Version h' <= sh_Version h) ->
  exists e', entryLocked (deliver r id events) id = Some e' /\
    (seen ++ map snd events = [] \/
     exists h, In h (seen ++ map snd events) /\ mirrors e' h /\
       forall h', In h' (seen ++ map snd events) -> sh_Version h' <= sh_Version h).
Proof.
  induction events as [|[now h] events IH]; intros r id e seen HS He Hst.
  - cbn. exists e. split; [exact He|]. rewrite app_nil_r.
    destruct Hst as [[-> _]|Hst]; [now left|now right].
  - cbn [deliver foldl map fst snd] in *. fold (deliver (fst (ApplySharedHealth now r id h)) id events).
    replace (seen ++ h :: map snd events) with ((seen ++ [h]) ++ map snd events) in *
      by now rewrite <- app_assoc.
    destruct HS as (Hep & Hall & Huniq).
    assert (Hh : In h ((seen ++ [h]) ++ map snd events)) by (apply in_or_app; left; apply in_or_app; right; now left).
    destruct (Hall h Hh) as [E1 E2]. unfold ApplySharedHealth. rewrite He. unfold acceptHealth, stringEmpty.
    rewrite E1, (proj2 (String.eqb_neq epoch "") Hep), E2, Z.eqb_refl. cbn [negb orb].
    destruct (String.eqb epoch (sharedEpoch e) && (sh_Version h <? sharedVersion e)) eqn:Eold; cbn [fst].
    + (* an older version is ignored *)
      zbool. apply String.eqb_eq in H. destruct Hst as [[_ Hne]|(h0 & Hin & Hm & Hmax)]; [congruence|].
      apply (IH r id e (seen ++ [h])); [exact (conj Hep (conj Hall Huniq))|exact He|]. right. exists h0.
      split; [apply in_or_app; now left|]. split; [exact Hm|].
      intros h' [Hh'|[<-|[]]]%List.in_app_or; [now apply Hmax|].
      destruct Hm as (_ & _ & _ & _ & _ & _ & _ & Hv). lia.
    + (* a current or newer version replaces the mirror *)
      destruct (mirrorHealth_mirrors e h) as [Hm Hi].
      assert (Hnew : forall h', In h' (seen ++ [h]) -> sh_Version h' <= sh_Version h).
      { intros h' [Hh'|[<-|[]]]%List.in_app_or; [|lia].
        destruct Hst as [[-> _]|(h0 & Hin & Hm0 & Hmax)]; [contradiction|]. specialize (Hmax h' Hh').
        destruct Hm0 as (_ & _ & _ & _ & _ & _ & Hep0 & Hv).
        destruct (Hall h0) as [E3 _]; [apply in_or_app; left; apply in_or_app; now left|].
        assert (Heq : String.eqb epoch (sharedEpoch e) = true) by (apply String.eqb_eq; congruence).
        rewrite Heq in Eold. cbn in Eold. apply Z.ltb_ge in Eold. lia. }
      apply (IH _ id (mirrorHealth e h) (seen ++ [h])).
      * rewrite Hi. exact (conj Hep (conj Hall Huniq)).
      * rewrite (entryLocked_rewriteAndSync now r id e _ id He), Z.eqb_refl. reflexivity.
      * right. exists h. split; [apply in_or_app; right; now left|]. auto.
Qed.

(** Mirrored health converges.  However the states of one store epoch are
    reordered or duplicated in delivery, after they have all arrived the entry
    mirrors the newest one; so replicas that received the same states agree. *)
Theorem mirrored_health_converges (r : CredentialRegistry) (id : Z) (e : CredentialEntry) (epoch : string)
    (events : list (Z * SharedCredentialHealth))
    (He : entryLocked r id = Some e) (Hne : events <> []) (Hfresh : sharedEpoch e <> epoch)
    (HS : sameStream epoch (IdentityGeneration e) (map snd events)) :
  exists e' h, entryLocked (deliver r id events) id = Some e' /\ In h (map snd events) /\ mirrors e' h /\
    forall h', In h' (map snd events) -> sh_Version h' <= sh_Version h.
Proof.
  destruct (deliver_newest epoch events r id e [] HS He (or_introl (conj eq_refl Hfresh)))
    as (e' & H1 & [H2|(h & H2 & H3 & H4)]); [destruct events; [contradiction|discriminate]|eauto 10].
Qed.

Definition sampleHealth (version : Z) (blacklisted : bool) : SharedCredentialHealth :=
  mkShared "epoch-a" version 1 (100 * version) blacklisted version version 0 ∅ authStateUnset 0.

Lemma mirrored_health_converges_witness :
  exists e' h,
    entryLocked (deliver sampleRegistry 1 [(1, sampleHealth 3 true); (2, sampleHealth 1 false)]) 1 = Some e' /\
    In h [sampleHealth 3 true; sampleHealth 1 false] /\ mirrors e' h /\
    forall h', In h' [sampleHealth 3 true; sampleHealth 1 false] -> sh_Version h' <= sh_Version h.
Proof.
  apply (mirrored_health_converges sampleRegistry 1 (sampleEntry 1 9) "epoch-a"
    [(1, sampleHealth 3 true); (2, sampleHealth 1 false)]).
  - vm_compute. reflexivity.
  - discriminate.
  - discriminate.
  - split; [discriminate|]. split.
    + intros h [<-|[<-|[]]]; split; reflexivity.
    + intros h h' [<-|[<-|[]]] [<-|[<-|[]]]; cbn; congruence.
Defined.

(** ** Exact snapshots *)

Lemma restore_fold now g es : forall r,
  NoDup (map ID es) ->
  let r' := foldl (fun r entry => putEntry now g r (detachCredentialEntryExact entry)) r es in
  (forall e, In e es -> entryAt r' g (ID e) = Some e) /\
  (forall g' id, g' <> g \/ id ∉ map ID es -> entryAt r' g' id = entryAt r g' id).
Proof.
  induction es as [|e es IH]; intros r Hnd; cbn [foldl map]; [split; [contradiction|reflexivity]|].
  cbn in Hnd. apply NoDup_cons in Hnd as [Hne Hnd]. unfold detachCredentialEntryExact at 2 4.
  destruct (IH (putEntry now g r e) Hnd) as [H1 H2]. split.
  - intros x [<-|Hx]; [|now apply H1]. rewrite H2 by now right. rewrite put_entryAt, !Z.eqb_refl. reflexivity.
  - intros g' id Hd. rewrite H2.
    + rewrite put_entryAt. destruct (Z.eqb_spec g' g) as [->|Hg]; [|reflexivity]. cbn.
      destruct (Z.eqb_spec id (ID e)) as [->|Hi]; [|reflexivity].
      destruct Hd as [Hd|Hd]; [contradiction|]. apply not_elem_of_cons in Hd. tauto.
    + destruct Hd as [Hd|Hd]; [now left|right]. apply not_elem_of_cons in Hd. tauto.
Qed.

Lemma snapshot_entries r g ids es : registry_ok r -> SnapshotGroupCredentialEntriesExact r g ids = Ok es ->
  g <> 0 /\ ids <> [] /\ map ID es = ids /\ NoDup ids /\
  Forall2 (fun id e => entryAt r g id = Some e) ids es.
Proof.
  intros Hr H. unfold SnapshotGroupCredentialEntriesExact in H.
  destruct (validateGroupCredentialIDsLocked r g ids) as [x|] eqn:Ev; [discriminate|].
  destruct (collectEntries_total r g ids (validated_present r g ids Ev)) as (es' & Hes & HF).
  rewrite Hes in H. injection H as <-. unfold validateGroupCredentialIDsLocked in Ev. no_error. zbool.
  destruct (validateIDs_groups r g ids ∅ ltac:(eassumption)) as (_ & Hnd & _).
  repeat split; auto; [destruct ids; discriminate|]. clear -HF Hr.
  induction HF as [|id e ids es He HF IH]; cbn; [reflexivity|]. f_equal; [|exact IH].
  now destruct (sok_entry r (rok_structure r Hr) _ _ _ He) as (E & _).
Qed.

Lemma validate_snapshot r g ids es : registry_ok r -> NoDup ids -> map ID es = ids ->
  Forall2 (fun id e => entryAt r g id = Some e) ids es ->
  ValidateCredentialEntries es = None /\ entriesInGroup g es = None.
Proof.
  intros Hr Hnd <- HF. assert (HV : Forall (fun e => entry_valid e /\ GroupID e = g) es).
  { clear Hnd. remember (map ID es) as ids. clear Heqids. induction HF as [|id e ids es He HF IH]; constructor; auto.
    destruct (sok_entry r (rok_structure r Hr) _ _ _ He) as (_ & E & _ & V). auto. }
  clear HF. unfold ValidateCredentialEntries. split.
  - assert (Hs : forall e, In e es -> ID e ∉ (∅ : gset Z)) by (intros; apply not_elem_of_empty).
    revert Hs. generalize (∅ : gset Z). induction HV as [|e es [He _] HV IH]; intros seen Hs; cbn; [reflexivity|].
    cbn in Hnd. apply NoDup_cons in Hnd as [Hn Hnd]. apply first_error_None. split.
    + unfold entry_valid, validateEntry in *. no_error; auto. apply bool_decide_eq_false_2, Hs. now left.
    + apply IH; [exact Hnd|]. intros x Hx. apply not_elem_of_union. split; [|apply Hs; now right].
      apply not_elem_of_singleton. intros E. apply Hn. rewrite list_elem_of_In, <- E. now apply in_map.
  - induction HV as [|e es [_ He] HV IH]; cbn; [reflexivity|]. cbn in Hnd. apply NoDup_cons in Hnd as [_ Hnd].
    rewrite He, Z.eqb_refl. cbn. now apply IH.
Qed.

(** Exact snapshots restore exactly.  Entries captured from a reachable
    registry can be restored into any later consistent registry in which none of
    them moved to another group: the restore succeeds, the selected entries are
    exactly the captured ones (failure and model-cooldown generations included),
    and all other entries are untouched. *)
Theorem snapshot_restore_exact (now : Z) (r later : CredentialRegistry) (g : Z) (ids : list Z)
    (es : list CredentialEntry)
    (Hr : registryReachable r) (Hsnap : SnapshotGroupCredentialEntriesExact r g ids = Ok es)
    (Hstay : forall id, In id ids -> credentialGroups later !! id = None \/ credentialGroups later !! id = Some g) :
  let '(restored, err) := RestoreGroupCredentialEntriesExact now later g es in
  err = None /\
  (forall id, In id ids -> entryAt restored g id = entryAt r g id) /\
  (forall g' id, g' <> g \/ ~ In id ids -> entryAt restored g' id = entryAt later g' id).
Proof.
  apply reachable_ok in Hr. destruct (snapshot_entries r g ids es Hr Hsnap) as (Hg & Hne & Hids & Hnd & HF).
  destruct (validate_snapshot r g ids es Hr Hnd Hids HF) as [HV HG].
  unfold RestoreGroupCredentialEntriesExact. rewrite (proj2 (Z.eqb_neq g 0) Hg), HV, HG. cbn [err_if first_error].
  assert (Ees : match es with [] => true | _ :: _ => false end = false) by (subst ids; now destruct es).
  rewrite Ees. cbn [err_if first_error].
  assert (EF : entriesFree later g es = None).
  { clear -Hstay Hids. subst ids. induction es as [|e es IH]; cbn; [reflexivity|].
    destruct (Hstay (ID e)) as [-> | ->]; [now left| |rewrite Z.eqb_refl]; cbn; apply IH; intros; apply Hstay; now right. }
  rewrite EF. split; [reflexivity|]. rewrite <- Hids in Hnd.
  destruct (restore_fold now g es later Hnd) as [H1 H2]. split.
  - intros id Hid. rewrite <- Hids in Hid. apply in_map_iff in Hid as (e & <- & He). rewrite H1 by exact He.
    symmetry. clear -HF He Hr Hids. subst ids. remember (map ID es) as ids eqn:E. revert E.
    induction HF as [|id x ids es Hx HF IH]; intros E; [contradiction|]. cbn in E. injection E as -> E.
    destruct He as [->|He]; [exact Hx|now apply IH].
  - intros g' id Hd. apply H2. destruct Hd as [Hd|Hd]; [now left|right]. now rewrite Hids, list_elem_of_In.
Qed.

Lemma snapshot_restore_exact_witness :
  let later := fst (IncrFailure sampleRegistry 1) in
  let '(restored, err) := RestoreGroupCredentialEntriesExact 7 later 9 [sampleEntry 1 9] in
  err = None /\
  (forall id, In id [1] -> entryAt restored 9 id = entryAt sampleRegistry 9 id) /\
  (forall g' id, g' <> 9 \/ ~ In id [1] -> entryAt restored g' id = entryAt later g' id).
Proof.
  apply (snapshot_restore_exact 7 sampleRegistry (fst (IncrFailure sampleRegistry 1)) 9 [1] [sampleEntry 1 9]).
  - apply sample_reachable.
  - vm_compute. reflexivity.
  - intros id [<-|[]]. right. vm_compute. reflexivity.
Defined.

End RegistryProps.
