(* ===== verification/Execution.v ===== *)
(** * Execution contracts

    The provider-neutral vocabulary of [internal/execution] and
    [internal/protocol]: operations, route and replay policies, dispatch states,
    and the evidence of a failed attempt.  String enumerations are inductive
    types with one extra constructor for unrecognised text. *)

From Stdlib Require Import ZArith Lia Bool String Ascii List.
From stdpp Require Import base gmap sets list strings.
From S2P Require Import Prelude GoStrings.

Local Open Scope Z_scope.

(** ** Case folding against ASCII constants

    [strings.ToLower] as far as comparisons with ASCII text can observe it: ASCII
    capitals are lowered, and the two other runes whose lower case is an ASCII
    letter (U+0130 and the Kelvin sign U+212A) become that letter.  All remaining
    bytes belong to runes that stay outside ASCII and are kept. *)

Definition byte (n : nat) : ascii := ascii_of_nat n.

Definition lower_byte (c : ascii) : ascii :=
  if (65 <=? byte_val c) && (byte_val c <=? 90) then ascii_of_nat (nat_of_ascii c + 32) else c.

Fixpoint to_lower (l : list ascii) : list ascii :=
  match l with
  | a :: ((b :: rest1) as tail) =>
    if (byte_val a =? 196) && (byte_val b =? 176) then "i"%char :: to_lower rest1
    else match rest1 with
         | c :: rest2 =>
           if (byte_val a =? 226) && (byte_val b =? 132) && (byte_val c =? 170)
           then "k"%char :: to_lower rest2 else lower_byte a :: to_lower tail
         | [] => lower_byte a :: to_lower tail
         end
  | a :: [] => [lower_byte a]
  | [] => []
  end.

(** [strings.EqualFold] with an ASCII right-hand side: simple folding relates
    ASCII letters of either case, U+017F with "s" and U+212A with "k". *)
Fixpoint equal_fold (s t : list ascii) : bool :=
  match t with
  | [] => match s with [] => true | _ => false end
  | y :: t' =>
    match s with
    | a :: s' =>
      if Ascii.eqb (lower_byte a) (lower_byte y) then equal_fold s' t'
      else match s' with
           | b :: s2 =>
             if (byte_val a =? 197) && (byte_val b =? 191) && Ascii.eqb (lower_byte y) "s"%char
             then equal_fold s2 t'
             else match s2 with
                  | c :: s3 =>
                    (byte_val a =? 226) && (byte_val b =? 132) && (byte_val c =? 170) &&
                    Ascii.eqb (lower_byte y) "k"%char && equal_fold s3 t'
                  | [] => false
                  end
           | [] => false
           end
    | [] => false
    end
  end.

Fixpoint has_prefix (p l : list ascii) : bool :=
  match p, l with
  | [], _ => true
  | a :: p, b :: l => Ascii.eqb a b && has_prefix p l
  | _ :: _, [] => false
  end.

Definition has_suffix (p l : list ascii) : bool := has_prefix (rev p) (rev l).

Fixpoint contains (marker l : list ascii) : bool :=
  has_prefix marker l || match l with [] => false | _ :: l => contains marker l end.

Definition same_text (l : list ascii) (s : string) : bool := bool_decide (l = bytes s).

Module Execution.

(** ** Protocols and operations *)

Inductive Protocol :=
| OpenAICompletions | OpenAIResponses | OpenAIImages | OpenAIEmbeddings | Rerank | Decisions
| Anthropic | Gemini | GeminiEmbeddings | ProtocolOther (raw : string).

#[export] Instance Protocol_eq_dec : EqDecision Protocol.
Proof. solve_decision. Defined.

Definition protocolValid (p : Protocol) : bool :=
  match p with ProtocolOther _ => false | _ => true end.

Inductive Operation :=
| OperationChatCompletion | OperationResponsesCreate | OperationResponsesRetrieve
| OperationResponsesDelete | OperationResponsesCancel | OperationResponsesInputItems
| OperationResponsesCompact | OperationResponsesInputTokens | OperationCountTokens
| OperationResponsesPassthrough | OperationWebSearch | OperationImagesGenerate
| OperationImagesEdit | OperationEmbeddingsCreate | OperationRerank | OperationDecisionsCreate
| OperationListModels | OperationProbe | OperationOther (raw : string).

#[export] Instance Operation_eq_dec : EqDecision Operation.
Proof. solve_decision. Defined.

Definition operationValid (o : Operation) : bool :=
  match o with OperationOther _ => false | _ => true end.

Inductive ReplayPolicy := ReplayPolicyLegacy | ReplayPolicyRequireRejectedBeforeProcessing.

Definition replayPolicy (o : Operation) : ReplayPolicy :=
  match o with
  | OperationImagesGenerate | OperationImagesEdit | OperationEmbeddingsCreate | OperationRerank
  | OperationDecisionsCreate => ReplayPolicyRequireRejectedBeforeProcessing
  | _ => ReplayPolicyLegacy
  end.

Definition UsesModelCooldown (o : Operation) : bool :=
  match o with
  | OperationChatCompletion | OperationResponsesCreate | OperationResponsesCompact
  | OperationImagesGenerate | OperationImagesEdit | OperationEmbeddingsCreate | OperationRerank
  | OperationDecisionsCreate => true
  | _ => false
  end.

(** ** Routes *)

Inductive RouteMode := RouteNative | RouteConverted | RouteModeOther (raw : string).

#[export] Instance RouteMode_eq_dec : EqDecision RouteMode.
Proof. solve_decision. Defined.

Definition routeModeValid (m : RouteMode) : bool :=
  match m with RouteModeOther _ => false | _ => true end.

Inductive RouteRequirement :=
| RouteRequirementAny | RouteRequirementNative | RouteRequirementOther (raw : string).

#[export] Instance RouteRequirement_eq_dec : EqDecision RouteRequirement.
Proof. solve_decision. Defined.

Definition normalizeRequirement (r : RouteRequirement) : RouteRequirement :=
  if bool_decide (r = RouteRequirementOther "") then RouteRequirementAny else r.

Definition requirementValid (r : RouteRequirement) : bool :=
  match normalizeRequirement r with RouteRequirementOther _ => false | _ => true end.

Definition Allows (r : RouteRequirement) (mode : RouteMode) : bool :=
  if negb (routeModeValid mode) || negb (requirementValid r) then false
  else bool_decide (normalizeRequirement r = RouteRequirementAny) || bool_decide (mode = RouteNative).

Inductive ResponsesStorePreference :=
| ResponsesStorePreferenceNone | ResponsesStorePreferencePreferStored
| ResponsesStorePreferenceRequireStored | ResponsesStorePreferenceOther (raw : string).

#[export] Instance ResponsesStorePreference_eq_dec : EqDecision ResponsesStorePreference.
Proof. solve_decision. Defined.

Definition storePreferenceValid (p : ResponsesStorePreference) : bool :=
  match p with ResponsesStorePreferenceOther _ => false | _ => true end.

Record WebsocketCapabilities := mkWebsocket {
  ws_Native : bool; Continuation : bool; StoredResponses : bool; Prewarm : bool; Multiplex : bool;
}.

Definition Supports (c required : WebsocketCapabilities) : bool :=
  c.(ws_Native) && (negb required.(Continuation) || c.(Continuation)) &&
  (negb required.(StoredResponses) || c.(StoredResponses)) &&
  (negb required.(Prewarm) || c.(Prewarm)) && (negb required.(Multiplex) || c.(Multiplex)).

(** ** Failure evidence *)

Inductive DispatchState := DispatchNotSent | DispatchMaybeSent | DispatchLocal
| DispatchOther (raw : string).

Inductive ErrorOrigin := ErrorOriginNone | ErrorOriginClient | ErrorOriginUpstream
| ErrorOriginDownstream | ErrorOriginInternal | ErrorOriginOther (raw : string).

Inductive ErrorScope := ErrorScopeNone | ErrorScopeRequest | ErrorScopeModel
| ErrorScopeCredential | ErrorScopeGroup | ErrorScopeOther (raw : string).

Inductive ErrorKind := ErrorKindTransport | ErrorKindTimeout | ErrorKindCanceled | ErrorKindHTTP
| ErrorKindProvider | ErrorKindInvalidRequest | ErrorKindConversionUnsupported | ErrorKindInternal
| ErrorKindOther (raw : string).

Inductive FailureHint := FailureHintNone | FailureHintInvalidCredential | FailureHintRefreshRequired
| FailureHintRefreshUnavailable | FailureHintReauthorizationRequired | FailureHintRateLimited
| FailureHintRequestRejected | FailureHintCandidateUnavailable | FailureHintModelUnavailable
| FailureHintHostError | FailureHintOther (raw : string).

Inductive ReplaySafety := ReplaySafetyNone | ReplaySafetyUnknown
| ReplaySafetyRejectedBeforeProcessing | ReplaySafetyOther (raw : string).

#[export] Instance DispatchState_eq_dec : EqDecision DispatchState.
Proof. solve_decision. Defined.
#[export] Instance ErrorOrigin_eq_dec : EqDecision ErrorOrigin.
Proof. solve_decision. Defined.
#[export] Instance ErrorScope_eq_dec : EqDecision ErrorScope.
Proof. solve_decision. Defined.
#[export] Instance ErrorKind_eq_dec : EqDecision ErrorKind.
Proof. solve_decision. Defined.
#[export] Instance FailureHint_eq_dec : EqDecision FailureHint.
Proof. solve_decision. Defined.
#[export] Instance ReplaySafety_eq_dec : EqDecision ReplaySafety.
Proof. solve_decision. Defined.

Definition dispatchValid (s : DispatchState) : bool :=
  match s with DispatchOther _ => false | _ => true end.
Definition originValid (o : ErrorOrigin) : bool :=
  match o with ErrorOriginOther _ => false | _ => true end.
Definition scopeValid (s : ErrorScope) : bool :=
  match s with ErrorScopeOther _ => false | _ => true end.

(** [http.Header]: names with their values; iteration order is unspecified. *)
Abbreviation Header := (list (string * list string)).

Record ErrorEvidence := mkEvidence {
  Kind : ErrorKind;
  Hint : FailureHint;
  OriginHint : ErrorOrigin;
  ScopeHint : ErrorScope;
  ev_StatusCode : Z;
  Type_ : string;
  Code : string;
  Summary : string;
  RequestID : string;
  RetryAfter : Z;
  ReplaySafetyOf : ReplaySafety;
  ev_Header : Header;
}.

Definition lowered (s : string) : list ascii := to_lower (trim_space (bytes s)).

Definition rejectionCode (s : string) : bool :=
  same_text (lowered s) "context_length_exceeded" || same_text (lowered s) "invalid_parameter" ||
  same_text (lowered s) "content_policy_violation".

(** [strings.TrimSuffix(message, ".")]. *)
Definition trim_dot (l : list ascii) : list ascii :=
  match rev l with "."%char :: rest => rev rest | _ => l end.

Definition ExplicitRequestRejection (typeValue codeValue message : string) : bool :=
  if rejectionCode typeValue || rejectionCode codeValue then true
  else if negb (equal_fold (trim_space (bytes typeValue)) (bytes "invalid_request_error")) ||
          negb (bool_decide (trim_space (bytes codeValue) = []))
  then false
  else
    let message := lowered message in
    same_text (trim_dot message) "prompt is too long" || has_prefix (bytes "prompt is too long:") message.

End Execution.
