(* ===== verification/Health.v ===== *)
(** * Health judgement

    [internal/health]: the decision vocabulary with its validator, the rate-limit
    header parsers, and [JudgeExecution], which turns the evidence of one attempt
    into a retry directive and a single runtime effect.

    Times are nanoseconds since year 1, so that the zero [time.Time] is 0. *)

From Stdlib Require Import ZArith Lia Bool String Ascii List Permutation.
From stdpp Require Import base gmap sets list strings.
From coqutil Require Import Datatypes.RecordSettersUsingExistingGetters.
From S2P Require Import Prelude GoStrings Credential Execution.

Local Open Scope Z_scope.
Local Open Scope go_scope.

Module Health.
Import Execution.

Definition second : Z := 1000000000.
Definition minute : Z := 60 * second.
Definition hour : Z := 60 * minute.
(** Unix time 0 in nanoseconds since year 1. *)
Definition unix_epoch : Z := 62135596800 * second.

(** ** Decisions *)

Inductive FailureCategory :=
| FailureCategoryAmbiguous | FailureCategoryOK | FailureCategoryRateLimited
| FailureCategoryModelUnavailable | FailureCategoryInvalidKey | FailureCategoryUpstreamHostError
| FailureCategoryClientError | FailureCategoryConversionUnsupported
| FailureCategoryDownstreamCancel | FailureCategoryAuthenticationRequired
| FailureCategoryOther (raw : Z).

Inductive RetryDirective := RetryNone | RetryRefreshCredential | RetryNextCandidate
| RetryOther (raw : string).

Inductive Effect := EffectNone | EffectCooldownCredential | EffectCooldownModel
| EffectRecordCredentialFailure | EffectSkipGroup | EffectOther (raw : string).

#[export] Instance FailureCategory_eq_dec : EqDecision FailureCategory.
Proof. solve_decision. Defined.
#[export] Instance RetryDirective_eq_dec : EqDecision RetryDirective.
Proof. solve_decision. Defined.
#[export] Instance Effect_eq_dec : EqDecision Effect.
Proof. solve_decision. Defined.

Definition categoryValid (c : FailureCategory) : bool :=
  match c with FailureCategoryOther _ => false | _ => true end.
Definition directiveValid (d : RetryDirective) : bool :=
  match d with RetryOther _ => false | _ => true end.
Definition effectValid (e : Effect) : bool :=
  match e with EffectOther _ => false | _ => true end.

Inductive Action := ActionTerminate | ActionRetry | ActionCooldownCredential | ActionFailCredential
| ActionSkipGroup.

Record DecisionContext := mkContext {
  DefaultRateLimitCooldown : Z;
  CredentialRefreshable : bool;
  Method : string;
  ctx_Operation : Operation;
}.

Record Decision := mkDecision {
  d_Category : FailureCategory;
  d_Origin : ErrorOrigin;
  d_Scope : ErrorScope;
  d_Retry : RetryDirective;
  d_Effect : Effect;
  d_CooldownUntil : Z;
  d_RuleID : string;
}.

Definition ShouldRetry (d : Decision) : bool :=
  bool_decide (d.(d_Retry) = RetryRefreshCredential) || bool_decide (d.(d_Retry) = RetryNextCandidate).

Definition LegacyAction (d : Decision) : Action :=
  match d.(d_Effect) with
  | EffectCooldownCredential => ActionCooldownCredential
  | EffectRecordCredentialFailure => ActionFailCredential
  | EffectSkipGroup => ActionSkipGroup
  | _ => if ShouldRetry d then ActionRetry else ActionTerminate
  end.

Inductive DecisionError :=
| CategoryInvalid | OriginInvalid | ScopeInvalid | RetryInvalid | EffectInvalid
| RuleIDRequired | RuleIDTooLong | RuleIDCharacter | DeadlineRequired | DeadlineUnexpected.

Definition rule_char (c : ascii) : bool :=
  let v := byte_val c in
  ((97 <=? v) && (v <=? 122)) || ((48 <=? v) && (v <=? 57)) || (v =? 46) || (v =? 95) || (v =? 45).

Definition cooldownEffect (e : Effect) : bool :=
  bool_decide (e = EffectCooldownCredential) || bool_decide (e = EffectCooldownModel).

Definition Validate (d : Decision) : option DecisionError :=
  err_if (negb (categoryValid d.(d_Category))) CategoryInvalid ;;!
  err_if (negb (originValid d.(d_Origin))) OriginInvalid ;;!
  err_if (negb (scopeValid d.(d_Scope))) ScopeInvalid ;;!
  err_if (negb (directiveValid d.(d_Retry))) RetryInvalid ;;!
  err_if (negb (effectValid d.(d_Effect))) EffectInvalid ;;!
  err_if (bool_decide (trim_space (bytes d.(d_RuleID)) = [])) RuleIDRequired ;;!
  err_if (128 <? Z.of_nat (length (bytes d.(d_RuleID)))) RuleIDTooLong ;;!
  err_if (negb (forallb rule_char (bytes d.(d_RuleID)))) RuleIDCharacter ;;!
  err_if (cooldownEffect d.(d_Effect) && (d.(d_CooldownUntil) =? 0)) DeadlineRequired ;;!
  err_if (negb (cooldownEffect d.(d_Effect)) && negb (d.(d_CooldownUntil) =? 0)) DeadlineUnexpected.

(** ** Rate-limit headers *)

(** Textual time formats of the standard library that are only called, not
    reproduced: [http.ParseTime], [time.Parse(time.RFC3339, _)] and
    [time.ParseDuration].  Every result about the headers holds for all of them. *)
Class TimeParsers := {
  http_ParseTime : list ascii -> option Z;
  parse_RFC3339 : list ascii -> option Z;
  ParseDuration : list ascii -> option Z;
}.

Section Headers.
Context `{TimeParsers}.

Definition maxRateLimitResetDelay : Z := hour.

Definition matchingHeaderValues (header : Header) (matches : list ascii -> bool) : list string :=
  concat (map snd (List.filter (fun entry => matches (to_lower (bytes entry.1))) header)).

Definition isRetryAfter (name : list ascii) : bool := same_text name "retry-after".
Definition isAnthropicReset (name : list ascii) : bool :=
  has_prefix (bytes "anthropic-ratelimit-") name && has_suffix (bytes "-reset") name.
Definition isRateLimitReset (name : list ascii) : bool :=
  same_text name "x-ratelimit-reset" || has_prefix (bytes "x-ratelimit-reset-") name.

Definition explicitRetryAfter (value : string) (now : Z) : option Z :=
  let value := trim_space (bytes value) in
  match parse_int64 value with
  | Some seconds =>
    if (seconds <=? 0) || (seconds >? max_int64 / second) then None else Some (now + seconds * second)
  | None => http_ParseTime value
  end.

Definition keepExplicit (now latest : Z) (value : string) : Z :=
  match explicitRetryAfter value now with
  | Some until => if (until >? now) && (until >? latest) then until else latest
  | None => latest
  end.

Definition ParseExplicitRetryAfter (header : Header) (now : Z) : option Z :=
  let latest := fold_left (keepExplicit now) (matchingHeaderValues header isRetryAfter) 0 in
  if latest =? 0 then None else Some latest.

Definition parseRetryAfter (value : string) (now : Z) : option Z :=
  let trimmed := trim_space (bytes value) in
  match parse_int64 trimmed with
  | Some seconds =>
    if (seconds <=? 0) || (seconds >? maxRateLimitResetDelay / second) then None
    else Some (now + seconds * second)
  | None => http_ParseTime trimmed
  end.

Definition parseResetValue (value : string) (now : Z) : option Z :=
  let trimmed := trim_space (bytes value) in
  match parse_RFC3339 trimmed with
  | Some reset => Some reset
  | None =>
    match ParseDuration trimmed with
    | Some duration =>
      if (duration <=? 0) || (duration >? maxRateLimitResetDelay) then None else Some (now + duration)
    | None =>
      match parse_int64 trimmed with
      | None => None
      | Some numeric =>
        if numeric >=? 1000000000000 then Some (unix_epoch + numeric * 1000000)
        else if numeric >=? 1000000000 then Some (unix_epoch + numeric * second)
        else if (numeric >? 0) && (numeric <=? maxRateLimitResetDelay / second)
        then Some (now + numeric * second) else None
      end
    end
  end.

Definition keepReset (now : Z) (retryAfter : bool) (latest : Z) (value : string) : Z :=
  match (if retryAfter then parseRetryAfter value now else parseResetValue value now) with
  | Some reset =>
    if negb (reset >? now) || (reset >? now + maxRateLimitResetDelay) then latest
    else if (latest =? 0) || (reset >? latest) then reset else latest
  | None => latest
  end.

Definition latestValidReset (values : list string) (now : Z) (retryAfter : bool) : option Z :=
  let latest := fold_left (keepReset now retryAfter) values 0 in
  if latest =? 0 then None else Some latest.

Definition resetHeaderFamilies (header : Header) : list (list string * bool) :=
  [ (matchingHeaderValues header isRetryAfter, true);
    (matchingHeaderValues header isAnthropicReset, false);
    (matchingHeaderValues header isRateLimitReset, false) ].

Fixpoint firstReset (families : list (list string * bool)) (now : Z) : option Z :=
  match families with
  | [] => None
  | (values, retryAfter) :: families =>
    match latestValidReset values now retryAfter with
    | Some reset => Some reset
    | None => firstReset families now
    end
  end.

Definition ParseRateLimitReset (header : Header) (now : Z) : option Z :=
  firstReset (resetHeaderFamilies header) now.

End Headers.

(** ** Judging one attempt *)

(** What [errors.Is] can tell about the downstream error. *)
Inductive DownstreamError := NoDownstreamError | ContextCanceled | ContextDeadlineExceeded
| OtherDownstreamError.

Record ExecutionAttempt := mkAttempt {
  a_DispatchState : DispatchState;
  a_StatusCode : Z;
  a_Header : Header;
  a_Evidence : option ErrorEvidence;
  DownstreamCommitted : bool;
  DownstreamErr : DownstreamError;
  Now : Z;
}.

Definition EmptyResponseCode : string := "upstream_empty_response".

Definition decision (category : FailureCategory) (origin : ErrorOrigin) (scope : ErrorScope)
    (retry : RetryDirective) (effect : Effect) (ruleID : string) : Decision :=
  mkDecision category origin scope retry effect 0 ruleID.

Definition normalizeDecisionContext (value : DecisionContext) : DecisionContext :=
  if value.(DefaultRateLimitCooldown) <=? 0
  then mkContext minute value.(CredentialRefreshable) value.(Method) value.(ctx_Operation)
  else value.

Definition isSuccessStatus (statusCode : Z) : bool := (statusCode >=? 200) && (statusCode <? 300).

Definition ResponseStarted (attempt : ExecutionAttempt) : bool :=
  negb (attempt.(a_StatusCode) =? 0) ||
  match attempt.(a_Evidence) with
  | Some evidence => negb (evidence.(ev_StatusCode) =? 0)
  | None => false
  end.

Definition originForEvidence (evidence : ErrorEvidence) : ErrorOrigin :=
  match evidence.(OriginHint) with
  | ErrorOriginNone =>
    match evidence.(Kind) with
    | ErrorKindTransport | ErrorKindTimeout | ErrorKindHTTP | ErrorKindProvider => ErrorOriginUpstream
    | ErrorKindCanceled => ErrorOriginDownstream
    | ErrorKindConversionUnsupported | ErrorKindInternal => ErrorOriginInternal
    | ErrorKindInvalidRequest => ErrorOriginClient
    | ErrorKindOther _ => ErrorOriginNone
    end
  | hint => hint
  end.

Definition originForDispatch (dispatch : DispatchState) : ErrorOrigin :=
  match dispatch with
  | DispatchLocal => ErrorOriginInternal
  | DispatchMaybeSent | DispatchNotSent => ErrorOriginUpstream
  | DispatchOther _ => ErrorOriginNone
  end.

Definition scopeOrDefault (value fallback : ErrorScope) : ErrorScope :=
  match value with ErrorScopeNone => fallback | _ => value end.

Definition containsAny (value : list ascii) (markers : list string) : bool :=
  existsb (fun marker => contains (bytes marker) value) markers.

Definition retryUnlessExplicitlyUnknown (evidence : ErrorEvidence) : RetryDirective :=
  if bool_decide (evidence.(ReplaySafetyOf) = ReplaySafetyUnknown) then RetryNone
  else RetryNextCandidate.

Definition requestMayReplayAfterResponse (value : DecisionContext) : bool :=
  if equal_fold (bytes value.(Method)) (bytes "GET") || equal_fold (bytes value.(Method)) (bytes "HEAD")
  then true
  else match value.(ctx_Operation) with
       | OperationChatCompletion | OperationResponsesCreate | OperationResponsesCompact
       | OperationResponsesRetrieve | OperationResponsesInputItems | OperationResponsesInputTokens
       | OperationCountTokens | OperationListModels => true
       | _ => false
       end.

(** The HTTP status of the attempt, falling back to the evidence's. *)
Definition effectiveStatus (attempt : ExecutionAttempt) (evidence : ErrorEvidence) : Z :=
  if attempt.(a_StatusCode) =? 0 then evidence.(ev_StatusCode) else attempt.(a_StatusCode).

(** [strings.ToLower(strings.Join([]string{Type, Code, Summary}, " "))]. *)
Definition markersOf (evidence : ErrorEvidence) : list ascii :=
  to_lower (bytes evidence.(Type_) ++ " "%char :: bytes evidence.(Code) ++ " "%char ::
            bytes evidence.(Summary)).

Definition classifyByMarkers (statusCode : Z) (evidence : ErrorEvidence) : FailureCategory :=
  let markers := markersOf evidence in
  if (statusCode =? 429) ||
     containsAny markers ["rate_limit"; "rate limit"; "too_many_requests"; "quota_exceeded";
                          "resource_exhausted"; "throttl"]
  then FailureCategoryRateLimited
  else if statusCode =? 401 then FailureCategoryInvalidKey
  else if containsAny markers ["model_not_found"; "model not found"; "model_not_available";
                               "model unavailable"; "deployment_not_found"; "unsupported_model"]
  then FailureCategoryModelUnavailable
  else if containsAny markers ["invalid_api_key"; "api_key_invalid"; "authentication_error";
                               "authentication failed"; "invalid credential"; "api key not valid"]
  then FailureCategoryInvalidKey
  else if (statusCode >=? 500) && (statusCode <=? 599) then FailureCategoryUpstreamHostError
  else if bool_decide (evidence.(Kind) = ErrorKindInvalidRequest) then FailureCategoryClientError
  else FailureCategoryAmbiguous.

(** [evidence] is [*attempt.Evidence]: the caller has already met the nil case. *)
Definition classifyExecutionEvidence (attempt : ExecutionAttempt) (evidence : ErrorEvidence)
    : FailureCategory :=
  let statusCode := effectiveStatus attempt evidence in
  if (statusCode =? 401) && bool_decide (evidence.(ReplaySafetyOf) = ReplaySafetyUnknown) &&
     bool_decide (evidence.(Hint) = FailureHintNone)
  then FailureCategoryAmbiguous
  else
    match evidence.(Hint) with
    | FailureHintInvalidCredential => FailureCategoryInvalidKey
    | FailureHintRefreshRequired | FailureHintReauthorizationRequired =>
      FailureCategoryAuthenticationRequired
    | FailureHintRateLimited => FailureCategoryRateLimited
    | FailureHintRequestRejected => FailureCategoryClientError
    | FailureHintCandidateUnavailable | FailureHintModelUnavailable => FailureCategoryModelUnavailable
    | FailureHintHostError => FailureCategoryUpstreamHostError
    | FailureHintNone | FailureHintRefreshUnavailable | FailureHintOther _ =>
      if ExplicitRequestRejection evidence.(Type_) evidence.(Code) evidence.(Summary)
      then FailureCategoryClientError else classifyByMarkers statusCode evidence
    end.

Definition retryableUpstreamResponse (attempt : ExecutionAttempt) (evidence : ErrorEvidence) : bool :=
  if negb (bool_decide (originForEvidence evidence = ErrorOriginUpstream)) ||
     bool_decide (evidence.(ReplaySafetyOf) = ReplaySafetyUnknown)
  then false
  else
    match evidence.(Kind) with
    | ErrorKindHTTP =>
      let status := effectiveStatus attempt evidence in
      isSuccessStatus status || (status >=? 400) && (status <=? 599)
    | ErrorKindProvider =>
      if bool_decide (evidence.(Code) = "upstream_protocol_error"%string) ||
         bool_decide (evidence.(Code) = "upstream_response_incomplete"%string)
      then false else ResponseStarted attempt
    | _ => false
    end.

Definition wireFailure (evidence : ErrorEvidence) : bool :=
  bool_decide (evidence.(Kind) = ErrorKindHTTP) || bool_decide (evidence.(Kind) = ErrorKindProvider).

Definition transientCapacityDecision (attempt : ExecutionAttempt) (evidence : ErrorEvidence)
    : option Decision :=
  if negb (bool_decide (attempt.(a_DispatchState) = DispatchMaybeSent)) ||
     negb (bool_decide (evidence.(ReplaySafetyOf) = ReplaySafetyRejectedBeforeProcessing)) ||
     negb (bool_decide (originForEvidence evidence = ErrorOriginUpstream)) ||
     negb (wireFailure evidence)
  then None
  else
    let overloaded := same_text (lowered evidence.(Code)) "server_is_overloaded" in
    let rateLimited := same_text (lowered evidence.(Code)) "rate_limit_exceeded" in
    if Bool.eqb overloaded rateLimited then None
    else Some (decision
      (if rateLimited then FailureCategoryRateLimited else FailureCategoryUpstreamHostError)
      ErrorOriginUpstream evidence.(ScopeHint) RetryNextCandidate EffectNone
      "candidate.transient_capacity").

Definition ambiguousRuleID (evidence : ErrorEvidence) : string :=
  if bool_decide (evidence.(Code) = "upstream_sse_error") then "stream.provider_error"
  else if bool_decide (evidence.(Code) = "upstream_stream_terminated") then "stream.upstream_terminated"
  else if bool_decide (evidence.(Code) = "upstream_protocol_error") then "stream.protocol_error"
  else if bool_decide (evidence.(Code) = "upstream_stream_idle_timeout") then "stream.idle_timeout"
  else if bool_decide (evidence.(Code) = "upstream_response_incomplete") then "stream.provider_incomplete"
  else "fallback.ambiguous".

Definition authenticationDecision (attempt : ExecutionAttempt) (evidence : ErrorEvidence)
    (decisionContext : DecisionContext) : Decision :=
  let auth retry rule :=
    decision FailureCategoryAuthenticationRequired ErrorOriginUpstream ErrorScopeCredential
      retry EffectNone rule in
  if bool_decide (attempt.(a_DispatchState) = DispatchMaybeSent) &&
     negb (bool_decide (evidence.(ReplaySafetyOf) = ReplaySafetyRejectedBeforeProcessing))
  then auth RetryNone "auth.replay_unsafe"%string
  else if bool_decide (evidence.(Hint) = FailureHintRefreshRequired)
  then if decisionContext.(CredentialRefreshable) &&
          bool_decide (evidence.(ReplaySafetyOf) = ReplaySafetyRejectedBeforeProcessing)
       then auth RetryRefreshCredential "auth.refresh_required"%string
       else auth RetryNextCandidate "auth.refresh_unavailable"%string
  else auth RetryNextCandidate "auth.reauthorization_required"%string.

Section Judge.
Context `{TimeParsers}.

Definition rateLimitDecision (attempt : ExecutionAttempt) (evidence : ErrorEvidence)
    (decisionContext : DecisionContext) : Decision :=
  let scope := evidence.(ScopeHint) in
  let operation := decisionContext.(ctx_Operation) in
  let retry := retryUnlessExplicitlyUnknown evidence in
  let modelScoped := UsesModelCooldown operation &&
    (bool_decide (scope = ErrorScopeNone) || bool_decide (scope = ErrorScopeModel)) in
  if bool_decide (scope = ErrorScopeNone) && operationValid operation && negb (UsesModelCooldown operation)
  then decision FailureCategoryRateLimited (originForEvidence evidence) ErrorScopeRequest
         retry EffectNone "rate_limit.operation_no_cooldown"
  else if bool_decide (scope = ErrorScopeRequest) ||
          bool_decide (scope = ErrorScopeModel) && negb modelScoped
  then decision FailureCategoryRateLimited (originForEvidence evidence) scope
         RetryNone EffectNone "rate_limit.scoped"
  else
    let effect := if modelScoped then EffectCooldownModel else EffectCooldownCredential in
    let ruleID :=
      if modelScoped then "rate_limit.model.default_cooldown"%string
      else if bool_decide (scope = ErrorScopeCredential)
      then "rate_limit.credential.default_cooldown"%string
      else "legacy.http_429_credential_cooldown"%string in
    let scope := if modelScoped then ErrorScopeModel else scope in
    let result until ruleID :=
      mkDecision FailureCategoryRateLimited (originForEvidence evidence) scope retry effect until ruleID in
    if evidence.(RetryAfter) >? 0
    then result (attempt.(Now) + evidence.(RetryAfter)) "rate_limit.retry_after"%string
    else
      let header := match attempt.(a_Header) with [] => evidence.(ev_Header) | header => header end in
      if modelScoped
      then match ParseExplicitRetryAfter header attempt.(Now) with
           | Some until => result until "rate_limit.retry_after"%string
           | None => result (attempt.(Now) + decisionContext.(DefaultRateLimitCooldown)) ruleID
           end
      else match ParseRateLimitReset header attempt.(Now) with
           | Some until => result until "rate_limit.reset_header"%string
           | None => result (attempt.(Now) + decisionContext.(DefaultRateLimitCooldown)) ruleID
           end.

Definition resourceOperation (operation : Operation) : bool :=
  match operation with
  | OperationResponsesRetrieve | OperationResponsesDelete | OperationResponsesCancel
  | OperationResponsesInputItems | OperationResponsesPassthrough => true
  | _ => false
  end.

Definition unavailableRuleID (operation : Operation) : string :=
  match replayPolicy operation with
  | ReplayPolicyRequireRejectedBeforeProcessing =>
    match operation with
    | OperationEmbeddingsCreate => "embeddings.model_unavailable"
    | OperationRerank => "rerank.model_unavailable"
    | OperationDecisionsCreate => "decisions.model_unavailable"
    | _ => "images.model_unavailable"
    end
  | ReplayPolicyLegacy => "model.unavailable"
  end.

Definition hostErrorDecision (attempt : ExecutionAttempt) (evidence : ErrorEvidence)
    (decisionContext : DecisionContext) : Decision :=
  let result retry ruleID :=
    decision FailureCategoryUpstreamHostError (originForEvidence evidence)
      (scopeOrDefault evidence.(ScopeHint) ErrorScopeGroup) retry EffectSkipGroup ruleID in
  if bool_decide (evidence.(ReplaySafetyOf) = ReplaySafetyRejectedBeforeProcessing)
  then result RetryNextCandidate "upstream.host_error.rejected_before_processing"%string
  else if retryableUpstreamResponse attempt evidence && requestMayReplayAfterResponse decisionContext
  then result RetryNextCandidate "upstream.host_error.response_retry"%string
  else result RetryNone "upstream.host_error.replay_unsafe"%string.

Definition ambiguousDecision (category : FailureCategory) (attempt : ExecutionAttempt)
    (evidence : ErrorEvidence) (decisionContext : DecisionContext) : Decision :=
  let result retry ruleID :=
    decision category (originForEvidence evidence) evidence.(ScopeHint) retry EffectNone ruleID in
  let ruleID := ambiguousRuleID evidence in
  if retryableUpstreamResponse attempt evidence
  then if negb (requestMayReplayAfterResponse decisionContext) &&
          negb (bool_decide (evidence.(ReplaySafetyOf) = ReplaySafetyRejectedBeforeProcessing))
       then result RetryNone "safety.operation_replay_unsafe"%string
       else result RetryNextCandidate
              (if bool_decide (ruleID = "fallback.ambiguous"%string)
               then "fallback.upstream_response"%string else ruleID)
  else result RetryNone ruleID.

Definition decisionForExecutionCategory (category : FailureCategory) (attempt : ExecutionAttempt)
    (evidence : ErrorEvidence) (decisionContext : DecisionContext) : Decision :=
  match transientCapacityDecision attempt evidence with
  | Some transientCapacity => transientCapacity
  | None =>
    let origin := originForEvidence evidence in
    let scope := evidence.(ScopeHint) in
    if bool_decide (category = FailureCategoryModelUnavailable) &&
       resourceOperation decisionContext.(ctx_Operation)
    then decision category origin scope RetryNone EffectNone "model.resource_unavailable"
    else if bool_decide (evidence.(Hint) = FailureHintCandidateUnavailable)
    then if bool_decide (evidence.(ReplaySafetyOf) = ReplaySafetyUnknown)
         then decision category origin scope RetryNone EffectNone "safety.replay_unknown"
         else decision category origin (scopeOrDefault scope ErrorScopeModel)
                RetryNextCandidate EffectNone "candidate.unavailable"
    else
      match category with
      | FailureCategoryRateLimited => rateLimitDecision attempt evidence decisionContext
      | FailureCategoryModelUnavailable =>
        decision category origin (scopeOrDefault scope ErrorScopeModel)
          (retryUnlessExplicitlyUnknown evidence) EffectNone
          (unavailableRuleID decisionContext.(ctx_Operation))
      | FailureCategoryInvalidKey =>
        decision category origin (scopeOrDefault scope ErrorScopeCredential)
          (retryUnlessExplicitlyUnknown evidence) EffectRecordCredentialFailure
          "auth.invalid_credential"
      | FailureCategoryAuthenticationRequired => authenticationDecision attempt evidence decisionContext
      | FailureCategoryUpstreamHostError => hostErrorDecision attempt evidence decisionContext
      | FailureCategoryConversionUnsupported =>
        decision category ErrorOriginInternal (scopeOrDefault scope ErrorScopeGroup)
          RetryNone EffectSkipGroup "conversion.unsupported"
      | FailureCategoryClientError =>
        decision category origin (scopeOrDefault scope ErrorScopeRequest)
          RetryNone EffectNone "fallback.http_client_error"
      | FailureCategoryOK => decision category origin scope RetryNone EffectNone "success.upstream_response"
      | FailureCategoryAmbiguous | FailureCategoryDownstreamCancel | FailureCategoryOther _ =>
        ambiguousDecision category attempt evidence decisionContext
      end
  end.

Definition constrainOperationReplay (result : Decision) (attempt : ExecutionAttempt)
    (evidence : ErrorEvidence) (decisionContext : DecisionContext) : Decision :=
  if bool_decide (result.(d_Retry) = RetryNone) ||
     negb (bool_decide (attempt.(a_DispatchState) = DispatchMaybeSent)) ||
     match replayPolicy decisionContext.(ctx_Operation) with
     | ReplayPolicyRequireRejectedBeforeProcessing => false
     | ReplayPolicyLegacy => true
     end
  then result
  else if bool_decide (evidence.(ReplaySafetyOf) = ReplaySafetyRejectedBeforeProcessing) then result
  else result <| d_Retry := RetryNone |> <| d_RuleID := "safety.operation_replay_unsafe"%string |>.

Definition trustedCommittedCredentialEffect (result : Decision) (evidence : ErrorEvidence) : bool :=
  if negb (bool_decide (result.(d_Scope) = ErrorScopeCredential)) then false
  else if bool_decide (evidence.(ScopeHint) = ErrorScopeCredential) then true
  else bool_decide (result.(d_Effect) = EffectRecordCredentialFailure) &&
       bool_decide (evidence.(Hint) = FailureHintInvalidCredential).

(** The part of the effect that survives a committed response. *)
Definition committedEffectKept (result : Decision) (evidence : ErrorEvidence) : bool :=
  match result.(d_Effect) with
  | EffectCooldownModel =>
    bool_decide (evidence.(Hint) = FailureHintRateLimited) &&
    negb (bool_decide (evidence.(OriginHint) = ErrorOriginInternal)) &&
    negb (bool_decide (evidence.(OriginHint) = ErrorOriginDownstream))
  | EffectCooldownCredential | EffectRecordCredentialFailure =>
    trustedCommittedCredentialEffect result evidence
  | _ => false
  end.

Definition constrainCommittedDecision (result : Decision) (attempt : ExecutionAttempt)
    (evidence : ErrorEvidence) : Decision :=
  if negb attempt.(DownstreamCommitted) then result
  else
    let constrained :=
      if committedEffectKept result evidence then result <| d_Retry := RetryNone |>
      else result <| d_Retry := RetryNone |> <| d_Effect := EffectNone |> <| d_CooldownUntil := 0 |> in
    if bool_decide (constrained.(d_Category) = FailureCategoryRateLimited) &&
       bool_decide (constrained.(d_Effect) = EffectCooldownCredential)
    then constrained <| d_RuleID := "rate_limit.credential.committed"%string |>
    else if negb (bool_decide (result.(d_Retry) = constrained.(d_Retry))) ||
            negb (bool_decide (result.(d_Effect) = constrained.(d_Effect)))
    then constrained <| d_RuleID := "safety.committed"%string |>
    else constrained.

Definition canceledModelCooldown (attempt : ExecutionAttempt) (decisionContext : DecisionContext)
    : option Decision :=
  match attempt.(a_Evidence) with
  | None => None
  | Some evidence =>
    if negb (bool_decide (attempt.(a_DispatchState) = DispatchMaybeSent)) ||
       negb (UsesModelCooldown decisionContext.(ctx_Operation)) ||
       negb (bool_decide (evidence.(Hint) = FailureHintRateLimited)) ||
       negb (wireFailure evidence) ||
       (negb (bool_decide (evidence.(ScopeHint) = ErrorScopeNone)) &&
        negb (bool_decide (evidence.(ScopeHint) = ErrorScopeModel))) ||
       (negb (bool_decide (evidence.(OriginHint) = ErrorOriginNone)) &&
        negb (bool_decide (evidence.(OriginHint) = ErrorOriginUpstream)))
    then None
    else
      let result := (decisionForExecutionCategory FailureCategoryRateLimited attempt evidence
                       decisionContext) <| d_Retry := RetryNone |> in
      if bool_decide (result.(d_Effect) = EffectCooldownModel) then Some result else None
  end.

Definition refreshTemporarilyUnavailableDecision (attempt : ExecutionAttempt)
    (evidence : ErrorEvidence) (decisionContext : DecisionContext) : Decision :=
  let limited := evidence.(ev_StatusCode) =? 429 in
  let fallback := if decisionContext.(DefaultRateLimitCooldown) <=? 0 then minute
                  else decisionContext.(DefaultRateLimitCooldown) in
  let cooldown := if evidence.(RetryAfter) >? 0 then evidence.(RetryAfter) else fallback in
  mkDecision (if limited then FailureCategoryRateLimited else FailureCategoryUpstreamHostError)
    ErrorOriginUpstream ErrorScopeCredential RetryNextCandidate EffectCooldownCredential
    (attempt.(Now) + cooldown)
    (if limited then "auth.refresh_rate_limited"%string else "auth.refresh_temporarily_unavailable"%string).

Definition candidatePreparationDecision (evidence : ErrorEvidence) : option Decision :=
  let result effect :=
    decision FailureCategoryAmbiguous ErrorOriginInternal evidence.(ScopeHint) RetryNextCandidate effect
      ("candidate." +:+ evidence.(Code)) in
  if negb (bool_decide (evidence.(OriginHint) = ErrorOriginInternal)) then None
  else if bool_decide (evidence.(Code) = "credential_decrypt_failed"%string) ||
          bool_decide (evidence.(Code) = "credential_normalization_failed"%string) ||
          bool_decide (evidence.(Code) = "credential_proxy_prepare_failed"%string)
  then if bool_decide (evidence.(ScopeHint) = ErrorScopeCredential) then Some (result EffectNone) else None
  else if bool_decide (evidence.(Code) = "group_proxy_prepare_failed"%string)
  then if bool_decide (evidence.(ScopeHint) = ErrorScopeGroup) then Some (result EffectSkipGroup) else None
  else None.

(** A handshake rejected with an HTTP error before the request was sent. *)
Definition handshakeRejection (attempt : ExecutionAttempt) (evidence : ErrorEvidence)
    (decisionContext : DecisionContext) : Decision :=
  let evidence := evidence <| ReplaySafetyOf := ReplaySafetyRejectedBeforeProcessing |> in
  let attempt := attempt <| a_Evidence := Some evidence |> in
  let category := classifyExecutionEvidence attempt evidence in
  constrainCommittedDecision
    (decisionForExecutionCategory category attempt evidence decisionContext) attempt evidence.

Definition notSentByKind (attempt : ExecutionAttempt) (evidence : ErrorEvidence)
    (decisionContext : DecisionContext) : Decision :=
  let notSent :=
    decision FailureCategoryAmbiguous (originForEvidence evidence) evidence.(ScopeHint)
      RetryNone EffectNone "fallback.not_sent" in
  match evidence.(Kind) with
  | ErrorKindHTTP =>
    if bool_decide (originForEvidence evidence = ErrorOriginUpstream) &&
       ((evidence.(ev_StatusCode) >=? 400) && (evidence.(ev_StatusCode) <=? 599))
    then handshakeRejection attempt evidence decisionContext
    else notSent
  | ErrorKindTransport | ErrorKindTimeout =>
    decision FailureCategoryUpstreamHostError ErrorOriginUpstream ErrorScopeGroup
      RetryNextCandidate EffectSkipGroup "transport.not_sent"
  | ErrorKindConversionUnsupported =>
    decision FailureCategoryConversionUnsupported ErrorOriginInternal ErrorScopeGroup
      RetryNextCandidate EffectSkipGroup "conversion.not_sent"
  | ErrorKindInvalidRequest =>
    decision FailureCategoryClientError (originForEvidence evidence)
      (scopeOrDefault evidence.(ScopeHint) ErrorScopeRequest)
      RetryNone EffectNone "request.invalid_before_dispatch"
  | _ => notSent
  end.

(** The [DispatchNotSent] branch: nothing of the request reached the upstream. *)
Definition judgeNotSent (attempt : ExecutionAttempt) (evidence : ErrorEvidence)
    (decisionContext : DecisionContext) : Decision :=
  match candidatePreparationDecision evidence with
  | Some result => result
  | None =>
    match evidence.(Hint) with
    | FailureHintRefreshRequired => authenticationDecision attempt evidence decisionContext
    | FailureHintRefreshUnavailable =>
      refreshTemporarilyUnavailableDecision attempt evidence decisionContext
    | FailureHintReauthorizationRequired =>
      decision FailureCategoryAuthenticationRequired ErrorOriginUpstream ErrorScopeCredential
        RetryNextCandidate EffectNone "auth.reauthorization_required"
    | _ => notSentByKind attempt evidence decisionContext
    end
  end.

(** The [DispatchMaybeSent] branch: the upstream may have processed the request. *)
Definition judgeMaybeSent (attempt : ExecutionAttempt) (evidence : ErrorEvidence)
    (decisionContext : DecisionContext) : Decision :=
  if negb (ResponseStarted attempt) &&
     (bool_decide (evidence.(Kind) = ErrorKindTransport) ||
      bool_decide (evidence.(Kind) = ErrorKindTimeout))
  then decision FailureCategoryAmbiguous ErrorOriginUpstream evidence.(ScopeHint)
         RetryNone EffectNone "transport.outcome_unknown"
  else if (attempt.(a_StatusCode) >=? 100) && (attempt.(a_StatusCode) <? 200)
  then decision FailureCategoryAmbiguous ErrorOriginUpstream ErrorScopeRequest
         RetryNone EffectNone "safety.final_informational_response"
  else
    let category := classifyExecutionEvidence attempt evidence in
    let result := decisionForExecutionCategory category attempt evidence decisionContext in
    let result :=
      if bool_decide (evidence.(ReplaySafetyOf) = ReplaySafetyUnknown) &&
         bool_decide (result.(d_RuleID) = "fallback.ambiguous"%string)
      then result <| d_RuleID := "safety.replay_unknown"%string |> else result in
    constrainCommittedDecision (constrainOperationReplay result attempt evidence decisionContext)
      attempt evidence.

Definition judgeEvidence (attempt : ExecutionAttempt) (evidence : ErrorEvidence)
    (decisionContext : DecisionContext) : Decision :=
  if bool_decide (evidence.(Kind) = ErrorKindCanceled)
  then decision FailureCategoryDownstreamCancel ErrorOriginDownstream ErrorScopeRequest
         RetryNone EffectNone "safety.execution_canceled"
  else if bool_decide (evidence.(Code) = EmptyResponseCode)
  then constrainCommittedDecision
         (decision FailureCategoryAmbiguous ErrorOriginUpstream ErrorScopeRequest
            RetryNextCandidate EffectNone "content.empty_response") attempt evidence
  else match attempt.(a_DispatchState) with
       | DispatchNotSent => judgeNotSent attempt evidence decisionContext
       | DispatchMaybeSent => judgeMaybeSent attempt evidence decisionContext
       | _ => decision FailureCategoryAmbiguous (originForEvidence evidence) evidence.(ScopeHint)
                RetryNone EffectNone "fallback.invalid_dispatch_state"
       end.

Definition JudgeExecution (attempt : ExecutionAttempt) (decisionContext : DecisionContext) : Decision :=
  let decisionContext := normalizeDecisionContext decisionContext in
  match attempt.(DownstreamErr) with
  | ContextCanceled | ContextDeadlineExceeded =>
    match canceledModelCooldown attempt decisionContext with
    | Some result => result
    | None => decision FailureCategoryDownstreamCancel ErrorOriginDownstream ErrorScopeRequest
                RetryNone EffectNone "safety.downstream_cancel"
    end
  | OtherDownstreamError =>
    match canceledModelCooldown attempt decisionContext with
    | Some result => result
    | None => decision FailureCategoryAmbiguous ErrorOriginDownstream ErrorScopeRequest
                RetryNone EffectNone "safety.downstream_write_failed"
    end
  | NoDownstreamError =>
    match attempt.(a_Evidence) with
    | None =>
      if attempt.(DownstreamCommitted) && isSuccessStatus attempt.(a_StatusCode)
      then decision FailureCategoryOK ErrorOriginUpstream ErrorScopeNone
             RetryNone EffectNone "success.committed_stream"
      else if dispatchValid attempt.(a_DispatchState) && isSuccessStatus attempt.(a_StatusCode)
      then decision FailureCategoryOK ErrorOriginUpstream ErrorScopeNone
             RetryNone EffectNone "success.upstream_response"
      else decision FailureCategoryAmbiguous (originForDispatch attempt.(a_DispatchState))
             ErrorScopeNone RetryNone EffectNone "fallback.missing_evidence"
    | Some evidence => judgeEvidence attempt evidence decisionContext
    end
  end.

End Judge.

(** ** Rate-limit headers: bounds and order independence *)

Section HeaderFacts.
Context `{TimeParsers}.

(** The reset a single value contributes, or 0 when it is rejected. *)
Definition resetCandidate (now : Z) (retryAfter : bool) (value : string) : Z :=
  match (if retryAfter then parseRetryAfter value now else parseResetValue value now) with
  | Some reset => if (now <? reset) && (reset <=? now + maxRateLimitResetDelay) then reset else 0
  | None => 0
  end.

Definition explicitCandidate (now : Z) (value : string) : Z :=
  match explicitRetryAfter value now with
  | Some until => if now <? until then until else 0
  | None => 0
  end.

Lemma keepReset_max now r latest v : 0 <= now -> 0 <= latest ->
  keepReset now r latest v = Z.max latest (resetCandidate now r v).
Proof.
  intros. unfold keepReset, resetCandidate.
  destruct (if r then _ else _) as [t|]; [|lia].
  rewrite !Z.gtb_ltb. repeat case_if; zbool; try lia.
  all: rewrite ?orb_true_iff, ?orb_false_iff, ?andb_true_iff, ?andb_false_iff, ?negb_true_iff,
    ?negb_false_iff, ?Z.ltb_lt, ?Z.ltb_ge, ?Z.leb_le, ?Z.leb_gt, ?Z.eqb_eq, ?Z.eqb_neq in *; lia.
Qed.

Lemma keepExplicit_max now latest v : 0 <= now -> 0 <= latest ->
  keepExplicit now latest v = Z.max latest (explicitCandidate now v).
Proof.
  intros. unfold keepExplicit, explicitCandidate.
  destruct (explicitRetryAfter v now) as [t|]; [|lia].
  rewrite !Z.gtb_ltb. repeat case_if; zbool; try lia.
  all: rewrite ?andb_false_iff, ?Z.ltb_ge in *; lia.
Qed.

(** A running maximum over non-negative candidates. *)
Lemma fold_max {A} (step : Z -> A -> Z) (c : A -> Z) (values : list A) :
  (forall latest v, 0 <= latest -> step latest v = Z.max latest (c v)) ->
  forall latest, 0 <= latest ->
  fold_left step values latest = fold_right (fun v m => Z.max (c v) m) latest values.
Proof.
  intros Hstep. induction values as [|v values IH]; intros latest Hl; [easy|]. simpl.
  rewrite Hstep by exact Hl. rewrite IH by lia. clear IH.
  induction values as [|w values IHv]; simpl; lia.
Qed.

Lemma max_perm {A} (c : A -> Z) l l' (z : Z) : l ≡ₚ l' ->
  fold_right (fun v m => Z.max (c v) m) z l = fold_right (fun v m => Z.max (c v) m) z l'.
Proof. induction 1; simpl; lia. Qed.

Lemma max_bounded {A} (c : A -> Z) (P : Z -> Prop) l :
  (forall v, c v = 0 \/ P (c v)) -> (forall a b, P a -> P b -> P (Z.max a b)) ->
  (forall v, 0 <= c v) ->
  let m := fold_right (fun v m => Z.max (c v) m) 0 l in m = 0 \/ P m.
Proof.
  intros Hc Hm Hp. induction l as [|v l IH]; simpl in *; [left; reflexivity|].
  set (m := fold_right _ 0 l) in *.
  assert (0 <= m) by (unfold m; clear; induction l; simpl; lia).
  destruct (Hc v) as [E|E], IH as [E'|E'].
  - left. lia.
  - right. rewrite Z.max_r by lia. exact E'.
  - right. rewrite Z.max_l by (specialize (Hp v); lia). exact E.
  - right. auto.
Qed.

Lemma matchingHeaderValues_perm header header' matches : header ≡ₚ header' ->
  matchingHeaderValues header matches ≡ₚ matchingHeaderValues header' matches.
Proof.
  unfold matchingHeaderValues. induction 1 as [|x l l' _ IH|x y l|l1 l2 l3 _ IH1 _ IH2]; simpl.
  - reflexivity.
  - destruct (matches _); simpl; [apply Permutation_app_head|]; exact IH.
  - destruct (matches _), (matches _); simpl; rewrite ?app_assoc; try reflexivity.
    apply Permutation_app_tail, Permutation_app_comm.
  - etransitivity; eassumption.
Qed.

Lemma latestValidReset_perm values values' now r : 0 <= now -> values ≡ₚ values' ->
  latestValidReset values now r = latestValidReset values' now r.
Proof.
  intros Hn Hp. unfold latestValidReset.
  rewrite !(fold_max _ (resetCandidate now r)) by (auto using keepReset_max; lia).
  rewrite (max_perm _ _ _ _ Hp). reflexivity.
Qed.

Lemma resetCandidate_bounds now r v : 0 <= now ->
  resetCandidate now r v = 0 \/ now < resetCandidate now r v <= now + maxRateLimitResetDelay.
Proof.
  intros. unfold resetCandidate. destruct (if r then _ else _); [|auto].
  case_if; [right|left; reflexivity]. zbool. lia.
Qed.

Lemma latestValidReset_bounds values now r t : 0 <= now ->
  latestValidReset values now r = Some t -> now < t <= now + maxRateLimitResetDelay.
Proof.
  intros Hn. unfold latestValidReset.
  rewrite (fold_max _ (resetCandidate now r)) by (auto using keepReset_max; lia).
  destruct (max_bounded (resetCandidate now r)
    (fun t => now < t <= now + maxRateLimitResetDelay) values) as [E|E].
  - intros v. apply resetCandidate_bounds. exact Hn.
  - lia.
  - intros v. destruct (resetCandidate_bounds now r v Hn); lia.
  - rewrite E. discriminate.
  - case_if; [discriminate|]. intros [= <-]. exact E.
Qed.

Lemma ParseRateLimitReset_bounds header now t : 0 <= now ->
  ParseRateLimitReset header now = Some t -> now < t <= now + maxRateLimitResetDelay.
Proof.
  intros Hn. unfold ParseRateLimitReset.
  induction (resetHeaderFamilies header) as [|[values r] families IH]; simpl; [discriminate|].
  destruct (latestValidReset values now r) eqn:E; [|exact IH].
  intros [= <-]. eapply latestValidReset_bounds; eassumption.
Qed.

Lemma ParseExplicitRetryAfter_after header now t : 0 <= now ->
  ParseExplicitRetryAfter header now = Some t -> now < t.
Proof.
  intros Hn. unfold ParseExplicitRetryAfter.
  rewrite (fold_max _ (explicitCandidate now)) by (auto using keepExplicit_max; lia).
  assert (Hc : forall v, explicitCandidate now v = 0 \/ now < explicitCandidate now v).
  { intros v. unfold explicitCandidate. destruct (explicitRetryAfter v now); [|auto].
    case_if; zbool; auto. }
  destruct (max_bounded (explicitCandidate now) (fun t => now < t)
    (matchingHeaderValues header isRetryAfter)) as [E|E].
  - exact Hc.
  - lia.
  - intros v. destruct (Hc v); lia.
  - rewrite E. discriminate.
  - case_if; [discriminate|]. intros [= <-]. exact E.
Qed.

(** The reset time read from rate-limit headers is strictly in the future
    and at most one hour away, an explicit [Retry-After] is strictly in the
    future, and neither depends on the iteration order of the header map,
    whatever the textual time parsers accept. *)
Theorem resets_bounded_and_order_independent header header' now : 0 <= now -> header ≡ₚ header' ->
  (forall t, ParseRateLimitReset header now = Some t -> now < t <= now + maxRateLimitResetDelay) /\
  (forall t, ParseExplicitRetryAfter header now = Some t -> now < t) /\
  ParseRateLimitReset header now = ParseRateLimitReset header' now /\
  ParseExplicitRetryAfter header now = ParseExplicitRetryAfter header' now.
Proof.
  intros Hn Hp. split; [|split; [|split]].
  - intros t. apply ParseRateLimitReset_bounds. exact Hn.
  - intros t. apply ParseExplicitRetryAfter_after. exact Hn.
  - unfold ParseRateLimitReset, resetHeaderFamilies. simpl.
    rewrite !(latestValidReset_perm (matchingHeaderValues header _) (matchingHeaderValues header' _))
      by (exact Hn || apply matchingHeaderValues_perm; exact Hp).
    reflexivity.
  - unfold ParseExplicitRetryAfter.
    rewrite !(fold_max _ (explicitCandidate now)) by (auto using keepExplicit_max; lia).
    rewrite (max_perm _ _ _ _ (matchingHeaderValues_perm _ _ isRetryAfter Hp)). reflexivity.
Qed.

End HeaderFacts.

(** Parsers that accept no textual time: only integer seconds are understood. *)
Definition integerOnlyParsers : TimeParsers :=
  {| http_ParseTime := fun _ => None; parse_RFC3339 := fun _ => None; ParseDuration := fun _ => None |}.

Lemma resets_bounded_and_order_independent_witness :
  let h := [("Retry-After", ["30"; "7"]); ("X-Ratelimit-Reset-Tokens", ["12"])] in
  let h' := [("X-Ratelimit-Reset-Tokens", ["12"]); ("Retry-After", ["30"; "7"])] in
  @ParseRateLimitReset integerOnlyParsers h 5 = Some (5 + 30 * second) /\
  @ParseRateLimitReset integerOnlyParsers h 5 = @ParseRateLimitReset integerOnlyParsers h' 5.
Proof.
  intros h h'. split; [vm_compute; reflexivity|].
  apply (@resets_bounded_and_order_independent integerOnlyParsers h h' 5); [lia|].
  apply Permutation_swap.
Defined.

End Health.
