(* ===== verification/Judgement.v ===== *)
(** * Properties of the health judgement

    What the gateway may rely on after [JudgeExecution]: the decision passes its
    own validator, no retry is requested when the request may already have been
    processed or answered, and the side effects that survive a committed response
    are backed by trusted evidence. *)

From Stdlib Require Import ZArith Lia Bool String Ascii List.
From stdpp Require Import base gmap sets list strings.
From coqutil Require Import Datatypes.RecordSettersUsingExistingGetters.
From S2P Require Import Prelude GoStrings Credential Execution Health.

Local Open Scope Z_scope.
Local Open Scope go_scope.

Module Judgement.
Import Execution Health.

Section Facts.
Context `{TimeParsers}.

(** ** Well-formed decisions *)

Definition rule_ok (rule : string) : bool :=
  negb (bool_decide (trim_space (bytes rule) = [])) &&
  (Z.of_nat (length (bytes rule)) <=? 128) && forallb rule_char (bytes rule).

Definition decision_ok (d : Decision) : Prop :=
  categoryValid d.(d_Category) = true /\ originValid d.(d_Origin) = true /\
  scopeValid d.(d_Scope) = true /\ directiveValid d.(d_Retry) = true /\
  effectValid d.(d_Effect) = true /\ rule_ok d.(d_RuleID) = true /\
  (cooldownEffect d.(d_Effect) = true <-> d.(d_CooldownUntil) <> 0).

Definition evidence_ok (evidence : ErrorEvidence) : Prop :=
  originValid evidence.(OriginHint) = true /\ scopeValid evidence.(ScopeHint) = true.

Lemma decision_ok_Validate d : decision_ok d <-> Validate d = None.
Proof.
  unfold decision_ok, Validate, rule_ok. rewrite !first_error_None, !err_if_None.
  rewrite !negb_false_iff, !andb_true_iff, !andb_false_iff, !negb_true_iff, !negb_false_iff.
  rewrite Z.leb_le, Z.ltb_ge, Z.eqb_neq, Z.eqb_eq.
  destruct (cooldownEffect _), (Z.eq_dec (d_CooldownUntil d) 0); intuition congruence.
Qed.

Lemma originForEvidence_valid e : evidence_ok e -> originValid (originForEvidence e) = true.
Proof. intros [Ho _]. unfold originForEvidence. destruct (OriginHint e), (Kind e); easy. Qed.

Lemma scopeOrDefault_valid a b : scopeValid a = true -> scopeValid b = true ->
  scopeValid (scopeOrDefault a b) = true.
Proof. destruct a; easy. Qed.

(** A decision without a deadline is well formed when its parts are. *)
Lemma plain_ok c o s r e rule : categoryValid c = true -> originValid o = true ->
  scopeValid s = true -> directiveValid r = true -> effectValid e = true ->
  cooldownEffect e = false -> rule_ok rule = true -> decision_ok (decision c o s r e rule).
Proof.
  intros. unfold decision_ok, decision; cbn. rewrite H5. intuition congruence.
Qed.

Lemma timed_ok c o s r e until rule : categoryValid c = true -> originValid o = true ->
  scopeValid s = true -> directiveValid r = true -> effectValid e = true ->
  cooldownEffect e = true -> until <> 0 -> rule_ok rule = true ->
  decision_ok (mkDecision c o s r e until rule).
Proof. intros. unfold decision_ok; cbn. intuition congruence. Qed.

Lemma retryUnless_valid e : directiveValid (retryUnlessExplicitlyUnknown e) = true.
Proof. unfold retryUnlessExplicitlyUnknown. case_if; reflexivity. Qed.

End Facts.

(** Discharge the parts of a decision: literals compute, hints come from the evidence. *)
Ltac parts :=
  first [ reflexivity
        | apply originForEvidence_valid; assumption
        | apply retryUnless_valid
        | apply scopeOrDefault_valid; parts
        | match goal with
          | Hok : evidence_ok ?e |- scopeValid (ScopeHint ?e) = true => apply Hok
          | |- _ <> 0 => lia
          end ].
Ltac verdict := first [apply plain_ok | apply timed_ok]; try parts.

Section Wellformed.
Context `{TimeParsers}.

Lemma transientCapacity_ok attempt e d : evidence_ok e ->
  transientCapacityDecision attempt e = Some d -> decision_ok d.
Proof.
  intros Hok. unfold transientCapacityDecision. case_if; [discriminate|].
  case_if; [discriminate|]. intros [= <-]. apply plain_ok; try parts. case_if; reflexivity.
Qed.

Lemma authentication_ok attempt e ctx : decision_ok (authenticationDecision attempt e ctx).
Proof. unfold authenticationDecision. repeat case_if; verdict. Qed.

Lemma rateLimit_ok attempt e ctx : evidence_ok e -> 0 <= attempt.(Now) ->
  0 < ctx.(DefaultRateLimitCooldown) -> decision_ok (rateLimitDecision attempt e ctx).
Proof.
  intros Hok Hn Hd. unfold rateLimitDecision.
  case_if; [verdict|]. case_if; [verdict|].
  assert (Hs : forall m, scopeValid (if m : bool then ErrorScopeModel else ScopeHint e) = true)
    by (intros []; parts).
  assert (He : forall m, let f := if m : bool then EffectCooldownModel else EffectCooldownCredential in
    effectValid f = true /\ cooldownEffect f = true) by (intros []; easy).
  set (m := UsesModelCooldown _ && _) in *. specialize (Hs m). specialize (He m).
  assert (Hr : forall b : bool, rule_ok (if m then "rate_limit.model.default_cooldown"
      else if b then "rate_limit.credential.default_cooldown"
      else "legacy.http_429_credential_cooldown") = true) by (intros []; destruct m; reflexivity).
  destruct He.
  assert (Ho : originValid (originForEvidence e) = true) by parts.
  pose proof (retryUnless_valid e).
  case_if.
  { zbool. apply timed_ok; auto; lia. }
  destruct m; [destruct (ParseExplicitRetryAfter _ _) eqn:Ep | destruct (ParseRateLimitReset _ _) eqn:Ep];
    apply timed_ok; auto; try lia.
  - apply ParseExplicitRetryAfter_after in Ep; lia.
  - apply ParseRateLimitReset_bounds in Ep; lia.
Qed.

Lemma ambiguousRule_ok e : rule_ok (ambiguousRuleID e) = true.
Proof. unfold ambiguousRuleID. repeat case_if; reflexivity. Qed.

Lemma unavailableRule_ok op : rule_ok (unavailableRuleID op) = true.
Proof. destruct op; reflexivity. Qed.

Lemma ambiguous_ok c attempt e ctx : evidence_ok e -> categoryValid c = true ->
  decision_ok (ambiguousDecision c attempt e ctx).
Proof.
  intros Hok Hc. unfold ambiguousDecision. repeat case_if; apply plain_ok; try assumption; try parts;
  apply ambiguousRule_ok.
Qed.

Lemma hostError_ok attempt e ctx : evidence_ok e -> decision_ok (hostErrorDecision attempt e ctx).
Proof. intros Hok. unfold hostErrorDecision. repeat case_if; verdict. Qed.

Lemma category_ok c attempt e ctx : evidence_ok e -> 0 <= attempt.(Now) ->
  0 < ctx.(DefaultRateLimitCooldown) -> categoryValid c = true ->
  decision_ok (decisionForExecutionCategory c attempt e ctx).
Proof.
  intros Hok Hn Hd Hc. unfold decisionForExecutionCategory.
  destruct (transientCapacityDecision attempt e) eqn:Et; [eapply transientCapacity_ok; eassumption|].
  case_if; [apply plain_ok; try assumption; parts|].
  case_if; [case_if; apply plain_ok; try assumption; parts|].
  destruct c; try discriminate;
    auto using rateLimit_ok, authentication_ok, hostError_ok, ambiguous_ok;
    apply plain_ok; try parts. apply unavailableRule_ok.
Qed.

Lemma operationReplay_ok d attempt e ctx : decision_ok d ->
  decision_ok (constrainOperationReplay d attempt e ctx).
Proof.
  intros Hd. unfold constrainOperationReplay. repeat case_if; try exact Hd.
  unfold decision_ok in *; cbn [set d_Category d_Origin d_Scope d_Retry d_Effect d_RuleID d_CooldownUntil
    RecordSettersUsingExistingGetters.const].
  intuition.
Qed.

Lemma committed_ok d attempt e : decision_ok d ->
  decision_ok (constrainCommittedDecision d attempt e).
Proof.
  intros Hd. unfold constrainCommittedDecision. case_if; [exact Hd|].
  destruct d as [c o s r f u rule]. unfold decision_ok in *. cbn in *.
  destruct (committedEffectKept _ _); cbn in *; repeat case_if; cbn in *;
    intuition (try reflexivity; try discriminate; try congruence).
Qed.

Lemma classify_valid attempt e : categoryValid (classifyExecutionEvidence attempt e) = true.
Proof.
  unfold classifyExecutionEvidence, classifyByMarkers. case_if; [reflexivity|].
  destruct (Hint e); try reflexivity; repeat case_if; reflexivity.
Qed.

Lemma preparation_ok e d : evidence_ok e -> candidatePreparationDecision e = Some d -> decision_ok d.
Proof.
  intros Hok. unfold candidatePreparationDecision.
  case_if; [discriminate|]. case_if.
  - case_if; [|discriminate]. intros [= <-]. apply plain_ok; try parts.
    apply orb_true_iff in E0 as [E0|E0]; [apply orb_true_iff in E0 as [E0|E0]|];
      apply bool_decide_eq_true in E0; rewrite E0; reflexivity.
  - case_if; [|discriminate]. case_if; [|discriminate]. intros [= <-]. apply plain_ok; try parts.
    apply bool_decide_eq_true in E1. rewrite E1. reflexivity.
Qed.

Lemma refresh_ok attempt e ctx : 0 <= attempt.(Now) -> 0 < ctx.(DefaultRateLimitCooldown) ->
  decision_ok (refreshTemporarilyUnavailableDecision attempt e ctx).
Proof.
  intros Hn Hd. unfold refreshTemporarilyUnavailableDecision.
  assert (0 < (if RetryAfter e >? 0 then RetryAfter e
    else if DefaultRateLimitCooldown ctx <=? 0 then minute else DefaultRateLimitCooldown ctx)).
  { case_if; zbool; [lia|]. case_if; [reflexivity|lia]. }
  destruct (ev_StatusCode e =? 429); apply timed_ok; try parts; reflexivity.
Qed.

Lemma canceled_ok attempt ctx d : (forall e, attempt.(a_Evidence) = Some e -> evidence_ok e) ->
  0 <= attempt.(Now) -> 0 < ctx.(DefaultRateLimitCooldown) ->
  canceledModelCooldown attempt ctx = Some d -> decision_ok d.
Proof.
  intros Hok Hn Hd. unfold canceledModelCooldown. destruct (a_Evidence attempt) as [e|]; [|discriminate].
  case_if; [discriminate|]. case_if; [|discriminate]. intros [= <-].
  pose proof (category_ok FailureCategoryRateLimited attempt e ctx (Hok e eq_refl) Hn Hd eq_refl) as Hc.
  unfold decision_ok in *. cbn. intuition.
Qed.

Lemma notSent_ok attempt e ctx : evidence_ok e -> 0 <= attempt.(Now) ->
  0 < ctx.(DefaultRateLimitCooldown) -> decision_ok (judgeNotSent attempt e ctx).
Proof.
  intros Hok Hn Hd. unfold judgeNotSent.
  destruct (candidatePreparationDecision e) eqn:Ep; [eapply preparation_ok; eassumption|].
  assert (decision_ok (notSentByKind attempt e ctx)).
  { unfold notSentByKind. destruct (Kind e); try solve [verdict].
    case_if; [|verdict].
    unfold handshakeRejection. apply committed_ok, category_ok; auto using classify_valid. }
  destruct (Hint e); auto using authentication_ok, refresh_ok. verdict.
Qed.

Lemma maybeSent_ok attempt e ctx : evidence_ok e -> 0 <= attempt.(Now) ->
  0 < ctx.(DefaultRateLimitCooldown) -> decision_ok (judgeMaybeSent attempt e ctx).
Proof.
  intros Hok Hn Hd. unfold judgeMaybeSent. case_if; [verdict|]. case_if; [verdict|].
  apply committed_ok, operationReplay_ok.
  pose proof (category_ok _ attempt e ctx Hok Hn Hd (classify_valid attempt e)) as Hc.
  case_if; [|exact Hc]. unfold decision_ok in *. cbn. intuition.
Qed.

Lemma normalize_positive ctx : 0 < (normalizeDecisionContext ctx).(DefaultRateLimitCooldown).
Proof. unfold normalizeDecisionContext. case_if; zbool; [reflexivity|assumption]. Qed.

Lemma evidence_judged_ok attempt e ctx : evidence_ok e -> 0 <= attempt.(Now) ->
  0 < ctx.(DefaultRateLimitCooldown) -> decision_ok (judgeEvidence attempt e ctx).
Proof.
  intros Hok Hn Hd. unfold judgeEvidence. case_if; [verdict|]. case_if; [apply committed_ok; verdict|].
  destruct (a_DispatchState attempt); auto using notSent_ok, maybeSent_ok; verdict.
Qed.

Lemma judged_ok attempt ctx : (forall e, attempt.(a_Evidence) = Some e -> evidence_ok e) ->
  0 <= attempt.(Now) -> decision_ok (JudgeExecution attempt ctx).
Proof.
  intros Hok Hn. pose proof (normalize_positive ctx) as Hd. unfold JudgeExecution.
  set (ctx' := normalizeDecisionContext ctx) in *.
  destruct (DownstreamErr attempt).
  - destruct (a_Evidence attempt) as [e|]; [apply evidence_judged_ok; auto|].
    repeat case_if; verdict. destruct (a_DispatchState attempt); reflexivity.
  - destruct (canceledModelCooldown attempt ctx') eqn:Ec; [eapply canceled_ok; eassumption|verdict].
  - destruct (canceledModelCooldown attempt ctx') eqn:Ec; [eapply canceled_ok; eassumption|verdict].
  - destruct (canceledModelCooldown attempt ctx') eqn:Ec; [eapply canceled_ok; eassumption|verdict].
Qed.

(** Every judgement satisfies the decision contract shared by the judge and
    the gateway: for evidence with recognised origin and scope hints and a clock
    past the zero time, [JudgeExecution] returns a decision that
    [Decision.Validate] accepts, on every branch. *)
Theorem judgements_validate attempt ctx :
  (forall e, attempt.(a_Evidence) = Some e ->
    originValid e.(OriginHint) = true /\ scopeValid e.(ScopeHint) = true) ->
  0 <= attempt.(Now) -> Validate (JudgeExecution attempt ctx) = None.
Proof. intros Hok Hn. apply decision_ok_Validate, judged_ok; assumption. Qed.

End Wellformed.

Lemma judgements_validate_witness :
  let e := mkEvidence ErrorKindHTTP FailureHintNone ErrorOriginNone ErrorScopeNone 429 "" "" "slow down" ""
             0 ReplaySafetyNone [] in
  let a := mkAttempt DispatchMaybeSent 429 [] (Some e) false NoDownstreamError 1 in
  @JudgeExecution integerOnlyParsers a (mkContext 0 false "POST" OperationChatCompletion) =
    mkDecision FailureCategoryRateLimited ErrorOriginUpstream ErrorScopeModel RetryNextCandidate
      EffectCooldownModel (1 + minute) "rate_limit.model.default_cooldown" /\
  Validate (@JudgeExecution integerOnlyParsers a (mkContext 0 false "POST" OperationChatCompletion)) = None.
Proof.
  split; [vm_compute; reflexivity|].
  apply (@judgements_validate integerOnlyParsers); [|cbn; lia].
  intros e [= <-]. split; reflexivity.
Defined.

(** ** Replay safety *)

Section Replay.
Context `{TimeParsers}.

Lemma ShouldRetry_not_none d : ShouldRetry d = true -> d.(d_Retry) <> RetryNone.
Proof. unfold ShouldRetry. intros Hs E. rewrite E in Hs. discriminate. Qed.

Lemma not_none_unknown e : retryUnlessExplicitlyUnknown e <> RetryNone ->
  e.(ReplaySafetyOf) <> ReplaySafetyUnknown.
Proof. unfold retryUnlessExplicitlyUnknown. case_bool_decide; easy. Qed.

Lemma retryable_not_unknown attempt e : retryableUpstreamResponse attempt e = true ->
  e.(ReplaySafetyOf) <> ReplaySafetyUnknown.
Proof.
  unfold retryableUpstreamResponse. case_if; [discriminate|].
  apply orb_false_iff in E as [_ E]. apply bool_decide_eq_false in E. auto.
Qed.

Lemma rateLimit_retry attempt e ctx : (rateLimitDecision attempt e ctx).(d_Retry) <> RetryNone ->
  e.(ReplaySafetyOf) <> ReplaySafetyUnknown.
Proof.
  unfold rateLimitDecision. intros Hr. apply not_none_unknown. intros E. apply Hr. clear Hr.
  rewrite E.
  case_if; [reflexivity|]. case_if; [reflexivity|]. case_if; [reflexivity|].
  destruct (UsesModelCooldown _ && _);
    [destruct (ParseExplicitRetryAfter _ _) | destruct (ParseRateLimitReset _ _)]; reflexivity.
Qed.

(** A request that may have been sent is only retried when its outcome is not
    explicitly unknown. *)
Lemma category_retry c attempt e ctx : attempt.(a_DispatchState) = DispatchMaybeSent ->
  (decisionForExecutionCategory c attempt e ctx).(d_Retry) <> RetryNone ->
  e.(ReplaySafetyOf) <> ReplaySafetyUnknown.
Proof.
  intros Hs. unfold decisionForExecutionCategory.
  destruct (transientCapacityDecision attempt e) eqn:Et.
  { intros _. unfold transientCapacityDecision in Et. case_if_in Et; [discriminate|].
    rewrite !orb_false_iff, !negb_false_iff in E. destruct E as [[[_ E] _] _].
    apply bool_decide_eq_true in E. rewrite E. discriminate. }
  case_if; [easy|]. case_if.
  { case_if; [easy|]. intros _. apply bool_decide_eq_false in E1. exact E1. }
  destruct c; try easy; cbn [decision d_Retry].
  - unfold ambiguousDecision. case_if; [|easy]. intros _. eapply retryable_not_unknown; eassumption.
  - apply rateLimit_retry.
  - apply not_none_unknown.
  - apply not_none_unknown.
  - unfold hostErrorDecision. case_if.
    { intros _. apply bool_decide_eq_true in E1. rewrite E1. discriminate. }
    case_if; [|easy]. intros _. apply andb_true_iff in E2 as [E2 _].
    eapply retryable_not_unknown; eassumption.
  - unfold ambiguousDecision. case_if; [|easy]. intros _. eapply retryable_not_unknown; eassumption.
  - unfold authenticationDecision. rewrite Hs. rewrite bool_decide_eq_true_2 by reflexivity. simpl.
    destruct (bool_decide (ReplaySafetyOf e = _)) eqn:Er; simpl; [|easy].
    intros _. apply bool_decide_eq_true in Er. rewrite Er. discriminate.
  - unfold ambiguousDecision. case_if; [|easy]. intros _. eapply retryable_not_unknown; eassumption.
Qed.

Lemma operationReplay_retry d attempt e ctx : attempt.(a_DispatchState) = DispatchMaybeSent ->
  (constrainOperationReplay d attempt e ctx).(d_Retry) <> RetryNone ->
  d.(d_Retry) <> RetryNone /\
  (replayPolicy ctx.(ctx_Operation) = ReplayPolicyRequireRejectedBeforeProcessing ->
   e.(ReplaySafetyOf) = ReplaySafetyRejectedBeforeProcessing).
Proof.
  intros Hs. unfold constrainOperationReplay. rewrite Hs.
  rewrite (bool_decide_eq_true_2 (DispatchMaybeSent = DispatchMaybeSent)) by reflexivity.
  rewrite orb_false_r. case_bool_decide as E1; simpl; [congruence|].
  destruct (replayPolicy _); [split; [assumption|discriminate]|].
  case_bool_decide as E2; cbn; [auto|easy].
Qed.

Lemma committed_retry d attempt e :
  (constrainCommittedDecision d attempt e).(d_Retry) <> RetryNone ->
  attempt.(DownstreamCommitted) = false /\ constrainCommittedDecision d attempt e = d.
Proof.
  unfold constrainCommittedDecision. destruct (DownstreamCommitted attempt); simpl; [|auto].
  intros Hr. exfalso. apply Hr. repeat case_if; reflexivity.
Qed.

Lemma maybeSent_retry attempt e ctx : attempt.(a_DispatchState) = DispatchMaybeSent ->
  (judgeMaybeSent attempt e ctx).(d_Retry) <> RetryNone ->
  attempt.(DownstreamCommitted) = false /\ e.(ReplaySafetyOf) <> ReplaySafetyUnknown /\
  (replayPolicy ctx.(ctx_Operation) = ReplayPolicyRequireRejectedBeforeProcessing ->
   e.(ReplaySafetyOf) = ReplaySafetyRejectedBeforeProcessing) /\
  (e.(Kind) = ErrorKindTransport \/ e.(Kind) = ErrorKindTimeout -> ResponseStarted attempt = true).
Proof.
  intros Hs. unfold judgeMaybeSent. case_if; [easy|]. case_if; [easy|]. intros Hr.
  apply committed_retry in Hr as Hc. destruct Hc as [Hc Heq]. rewrite Heq in Hr.
  apply operationReplay_retry in Hr as [Hr Hp]; [|exact Hs].
  split; [exact Hc|]. split; [|split; [exact Hp|]].
  - apply (category_retry (classifyExecutionEvidence attempt e) attempt e ctx Hs).
    revert Hr. case_if; auto.
  - intros Hk. destruct (ResponseStarted attempt); [reflexivity|]. simpl in E.
    apply orb_false_iff in E as [E1 E2]. apply bool_decide_eq_false in E1, E2. destruct Hk; contradiction.
Qed.

(** The conditions under which the credential itself is refreshed and retried. *)
Definition refreshable (e : ErrorEvidence) (ctx : DecisionContext) : Prop :=
  e.(Hint) = FailureHintRefreshRequired /\ ctx.(CredentialRefreshable) = true /\
  e.(ReplaySafetyOf) = ReplaySafetyRejectedBeforeProcessing.

Lemma authentication_refresh attempt e ctx :
  (authenticationDecision attempt e ctx).(d_Retry) = RetryRefreshCredential -> refreshable e ctx.
Proof.
  unfold authenticationDecision. case_if; [easy|]. case_if; [|easy]. case_if; [|easy]. intros _.
  apply andb_true_iff in E1 as [E1 E2]. apply bool_decide_eq_true in E0, E2. split; auto.
Qed.

Lemma retryUnless_refresh e : retryUnlessExplicitlyUnknown e <> RetryRefreshCredential.
Proof. unfold retryUnlessExplicitlyUnknown. case_if; discriminate. Qed.

Lemma rateLimit_refresh attempt e ctx :
  (rateLimitDecision attempt e ctx).(d_Retry) <> RetryRefreshCredential.
Proof.
  pose proof (retryUnless_refresh e). unfold rateLimitDecision.
  case_if; [assumption|]. case_if; [discriminate|]. case_if; [assumption|].
  destruct (UsesModelCooldown _ && _);
    [destruct (ParseExplicitRetryAfter _ _) | destruct (ParseRateLimitReset _ _)]; assumption.
Qed.

Lemma category_refresh c attempt e ctx :
  (decisionForExecutionCategory c attempt e ctx).(d_Retry) = RetryRefreshCredential ->
  refreshable e ctx.
Proof.
  unfold decisionForExecutionCategory. destruct (transientCapacityDecision attempt e) eqn:Et.
  { unfold transientCapacityDecision in Et. repeat case_if_in Et; try discriminate;
      injection Et as <-; discriminate. }
  case_if; [easy|]. case_if; [case_if; easy|].
  assert (Ha : forall c', (ambiguousDecision c' attempt e ctx).(d_Retry) <> RetryRefreshCredential)
    by (intros c'; unfold ambiguousDecision; repeat case_if; discriminate).
  destruct c; try easy; intros Hr; try (destruct (Ha _ Hr)).
  - destruct (rateLimit_refresh _ _ _ Hr).
  - destruct (retryUnless_refresh _ Hr).
  - destruct (retryUnless_refresh _ Hr).
  - revert Hr. unfold hostErrorDecision. repeat case_if; discriminate.
  - eapply authentication_refresh, Hr.
Qed.

Lemma notSent_refresh attempt e ctx :
  (judgeNotSent attempt e ctx).(d_Retry) = RetryRefreshCredential -> refreshable e ctx.
Proof.
  unfold judgeNotSent. destruct (candidatePreparationDecision e) eqn:Ep.
  { unfold candidatePreparationDecision in Ep. repeat case_if_in Ep; try discriminate;
      injection Ep as <-; discriminate. }
  assert (Hk : (notSentByKind attempt e ctx).(d_Retry) = RetryRefreshCredential ->
    e.(Hint) = FailureHintRefreshRequired).
  { unfold notSentByKind. destruct (Kind e); try easy. case_if; [|easy].
    unfold handshakeRejection. intros Hr.
    assert (Hn := Hr). rewrite (proj2 (committed_retry _ _ _ ltac:(rewrite Hr; discriminate))) in Hn.
    apply category_refresh in Hn as [Hn _]. exact Hn. }
  destruct (Hint e) eqn:Eh; try (intros Hr; discriminate (Hk Hr)); try easy.
  apply authentication_refresh.
Qed.

Lemma maybeSent_refresh attempt e ctx : attempt.(a_DispatchState) = DispatchMaybeSent ->
  (judgeMaybeSent attempt e ctx).(d_Retry) = RetryRefreshCredential -> refreshable e ctx.
Proof.
  intros Hs. unfold judgeMaybeSent. case_if; [easy|]. case_if; [easy|].
  set (d := decisionForExecutionCategory _ _ _ _).
  match goal with |- context [constrainOperationReplay ?x] => set (d' := x) end.
  intros Hr. assert (Hn : d_Retry (constrainOperationReplay d' attempt e ctx) = RetryRefreshCredential).
  { rewrite <- Hr. f_equal. symmetry. apply committed_retry. rewrite Hr. discriminate. }
  apply (category_refresh (classifyExecutionEvidence attempt e) attempt e ctx). fold d.
  assert (d_Retry d' = d_Retry d) as <- by (unfold d'; case_if; reflexivity).
  revert Hn. unfold constrainOperationReplay. case_if; [auto|]. case_if; [auto|easy].
Qed.

(** When a request may be sent again after [attempt], which ended with [retry]. *)
Definition replay_safe (attempt : ExecutionAttempt) (ctx : DecisionContext) (retry : RetryDirective) : Prop :=
  attempt.(DownstreamErr) = NoDownstreamError /\
  exists e, attempt.(a_Evidence) = Some e /\ e.(Kind) <> ErrorKindCanceled /\
    (attempt.(a_DispatchState) = DispatchNotSent \/
     attempt.(DownstreamCommitted) = false /\
     (e.(Code) = EmptyResponseCode /\ retry = RetryNextCandidate \/
      attempt.(a_DispatchState) = DispatchMaybeSent /\
      e.(ReplaySafetyOf) <> ReplaySafetyUnknown /\
      (replayPolicy ctx.(ctx_Operation) = ReplayPolicyRequireRejectedBeforeProcessing ->
       e.(ReplaySafetyOf) = ReplaySafetyRejectedBeforeProcessing) /\
      (e.(Kind) = ErrorKindTransport \/ e.(Kind) = ErrorKindTimeout ->
       ResponseStarted attempt = true))) /\
    (retry = RetryRefreshCredential ->
     e.(Hint) = FailureHintRefreshRequired /\ ctx.(CredentialRefreshable) = true /\
     e.(ReplaySafetyOf) = ReplaySafetyRejectedBeforeProcessing).

Lemma retry_replay_safe attempt ctx : (JudgeExecution attempt ctx).(d_Retry) <> RetryNone ->
  replay_safe attempt ctx (JudgeExecution attempt ctx).(d_Retry).
Proof.
  unfold replay_safe, JudgeExecution. intros Hr.
  assert (Hop : ctx_Operation (normalizeDecisionContext ctx) = ctx_Operation ctx /\
    CredentialRefreshable (normalizeDecisionContext ctx) = CredentialRefreshable ctx)
    by (unfold normalizeDecisionContext; case_if; auto).
  destruct Hop as [<- <-]. set (ctx' := normalizeDecisionContext ctx) in *.
  assert (Hcan : match canceledModelCooldown attempt ctx' with
    | Some d => d_Retry d = RetryNone | None => True end).
  { unfold canceledModelCooldown. destruct (a_Evidence attempt); [|easy]. repeat case_if; easy. }
  destruct (DownstreamErr attempt);
    try (destruct (canceledModelCooldown attempt ctx'); exfalso; apply Hr; easy).
  split; [reflexivity|]. destruct (a_Evidence attempt) as [e|];
    [|exfalso; apply Hr; repeat case_if; reflexivity].
  exists e. split; [reflexivity|]. unfold judgeEvidence in *.
  case_bool_decide as Ek; [easy|]. split; [exact Ek|].
  case_bool_decide as Ec.
  { apply committed_retry in Hr as [Hc Heq]. rewrite Heq. split; [auto 6|easy]. }
  destruct (a_DispatchState attempt) eqn:Hs; try easy.
  - split; [auto|]. apply notSent_refresh.
  - split; [|apply maybeSent_refresh; exact Hs].
    destruct (maybeSent_retry _ _ _ Hs Hr) as (? & ? & ? & ?). auto 10.
Qed.

(** [C18] When a retry is requested.  The downstream peer is still there and the
    attempt was not cancelled, and one of three things holds: nothing was sent; or
    nothing was committed downstream and the upstream completed with an empty
    response, in which case the request goes to the next candidate whatever the
    operation and the replay safety recorded; or nothing was committed and the
    failure is one whose outcome is not marked unknown, which for billable one-shot
    operations means the upstream explicitly rejected the request before processing,
    and which for transport errors and timeouts means a response had started.  A
    credential refresh is requested only for a refreshable credential and an explicit
    rejection. *)
Theorem retries_are_replay_safe attempt ctx :
  let d := JudgeExecution attempt ctx in
  ShouldRetry d = true ->
  attempt.(DownstreamErr) = NoDownstreamError /\
  exists e, attempt.(a_Evidence) = Some e /\ e.(Kind) <> ErrorKindCanceled /\
    (attempt.(a_DispatchState) = DispatchNotSent \/
     attempt.(DownstreamCommitted) = false /\
     (e.(Code) = EmptyResponseCode /\ d.(d_Retry) = RetryNextCandidate \/
      attempt.(a_DispatchState) = DispatchMaybeSent /\
      e.(ReplaySafetyOf) <> ReplaySafetyUnknown /\
      (replayPolicy ctx.(ctx_Operation) = ReplayPolicyRequireRejectedBeforeProcessing ->
       e.(ReplaySafetyOf) = ReplaySafetyRejectedBeforeProcessing) /\
      (e.(Kind) = ErrorKindTransport \/ e.(Kind) = ErrorKindTimeout ->
       ResponseStarted attempt = true))) /\
    (d.(d_Retry) = RetryRefreshCredential ->
     e.(Hint) = FailureHintRefreshRequired /\ ctx.(CredentialRefreshable) = true /\
     e.(ReplaySafetyOf) = ReplaySafetyRejectedBeforeProcessing).
Proof. intros d Hr. apply (retry_replay_safe attempt ctx), ShouldRetry_not_none, Hr. Qed.

(** ** Effects of committed responses *)

(** The evidence a surviving effect of a committed response must rest on. *)
Definition trusted (d : Decision) (evidence : option ErrorEvidence) : Prop :=
  match d.(d_Effect), evidence with
  | EffectNone, _ => True
  | EffectCooldownModel, Some e =>
    e.(Hint) = FailureHintRateLimited /\ e.(OriginHint) <> ErrorOriginInternal /\
    e.(OriginHint) <> ErrorOriginDownstream
  | EffectCooldownCredential, Some e =>
    d.(d_Scope) = ErrorScopeCredential /\ e.(ScopeHint) = ErrorScopeCredential
  | EffectRecordCredentialFailure, Some e =>
    d.(d_Scope) = ErrorScopeCredential /\
    (e.(ScopeHint) = ErrorScopeCredential \/ e.(Hint) = FailureHintInvalidCredential)
  | _, _ => False
  end.

Lemma committed_trusted d attempt e : attempt.(DownstreamCommitted) = true ->
  let d' := constrainCommittedDecision d attempt e in
  d'.(d_Retry) = RetryNone /\ trusted d' (Some e).
Proof.
  intros Hc. unfold constrainCommittedDecision. rewrite Hc. simpl.
  destruct d as [c o s r f u rule].
  destruct (committedEffectKept _ e) eqn:Ek; cbn; repeat case_if; cbn; try easy;
    (split; [reflexivity|]); unfold committedEffectKept, trustedCommittedCredentialEffect in Ek; cbn in *;
    unfold trusted; cbn; destruct f; try easy; repeat case_if_in Ek; try discriminate;
    rewrite ?andb_true_iff, ?negb_true_iff, ?negb_false_iff, ?bool_decide_eq_true, ?bool_decide_eq_false in *;
    intuition congruence.
Qed.

Lemma canceled_trusted attempt ctx d : canceledModelCooldown attempt ctx = Some d ->
  d.(d_Retry) = RetryNone /\ trusted d attempt.(a_Evidence).
Proof.
  unfold canceledModelCooldown. destruct (a_Evidence attempt) as [e|]; [|discriminate].
  case_if; [discriminate|]. case_if; [|discriminate]. intros [= <-]. split; [reflexivity|].
  apply bool_decide_eq_true in E0. unfold trusted. rewrite E0.
  rewrite !orb_false_iff, !andb_false_iff, !negb_false_iff, !bool_decide_eq_true in E.
  intuition congruence.
Qed.

(** Once a response is committed downstream, no retry is requested for a
    request that may have been sent, and the only side effects left are a model
    cooldown reported as rate limiting by the upstream, a credential cooldown
    whose evidence names the credential, and a credential failure whose evidence
    names the credential or says it is invalid.  Groups are never skipped. *)
Theorem committed_effects_are_trusted attempt ctx :
  attempt.(DownstreamCommitted) = true -> attempt.(a_DispatchState) <> DispatchNotSent ->
  let d := JudgeExecution attempt ctx in
  d.(d_Retry) = RetryNone /\ trusted d attempt.(a_Evidence).
Proof.
  intros Hc Hs d. unfold d, JudgeExecution. clear d. set (ctx' := normalizeDecisionContext ctx).
  destruct (DownstreamErr attempt);
    try (destruct (canceledModelCooldown attempt ctx') eqn:E;
         [exact (canceled_trusted _ _ _ E)|split; [reflexivity|exact I]]).
  destruct (a_Evidence attempt) as [e|]; [|repeat case_if; split; reflexivity || exact I].
  unfold judgeEvidence. case_if; [split; [reflexivity|exact I]|].
  case_if; [apply committed_trusted, Hc|].
  destruct (a_DispatchState attempt); try easy; try (split; [reflexivity|exact I]).
  unfold judgeMaybeSent. case_if; [split; [reflexivity|exact I]|].
  case_if; [split; [reflexivity|exact I]|]. apply committed_trusted, Hc.
Qed.

End Replay.

Lemma retries_are_replay_safe_witness :
  let e := mkEvidence ErrorKindHTTP FailureHintNone ErrorOriginNone ErrorScopeNone 503 "" "" "busy" ""
             0 ReplaySafetyRejectedBeforeProcessing [] in
  let a := mkAttempt DispatchMaybeSent 503 [] (Some e) false NoDownstreamError 1 in
  let ctx := mkContext 0 false "POST" OperationImagesGenerate in
  ShouldRetry (@JudgeExecution integerOnlyParsers a ctx) = true /\
  DownstreamErr a = NoDownstreamError.
Proof.
  intros e a ctx.
  assert (Hr : ShouldRetry (@JudgeExecution integerOnlyParsers a ctx) = true) by (vm_compute; reflexivity).
  split; [exact Hr|]. apply (@retries_are_replay_safe integerOnlyParsers a ctx Hr).
Defined.

Lemma committed_effects_are_trusted_witness :
  let e := mkEvidence ErrorKindProvider FailureHintRateLimited ErrorOriginNone ErrorScopeNone 200 "" "" "busy"
             "" 0 ReplaySafetyUnknown [] in
  let a := mkAttempt DispatchMaybeSent 200 [] (Some e) true NoDownstreamError 1 in
  let ctx := mkContext 0 false "POST" OperationChatCompletion in
  d_Effect (@JudgeExecution integerOnlyParsers a ctx) = EffectCooldownModel /\
  trusted (@JudgeExecution integerOnlyParsers a ctx) (Some e).
Proof.
  intros e a ctx. split; [vm_compute; reflexivity|].
  apply (@committed_effects_are_trusted integerOnlyParsers a ctx); [reflexivity|discriminate].
Defined.

(** ** Cooldown deadlines *)

Section Deadlines.
Context `{TimeParsers}.

(** A cooldown ends after the attempt, and a credential cooldown is bounded. *)
Definition deadline (attempt : ExecutionAttempt) (e : ErrorEvidence) (ctx : DecisionContext)
    (d : Decision) : Prop :=
  cooldownEffect d.(d_Effect) = true ->
  attempt.(Now) < d.(d_CooldownUntil) /\
  (d.(d_Effect) = EffectCooldownCredential ->
   d.(d_CooldownUntil) <=
     attempt.(Now) + Z.max e.(RetryAfter) (Z.max maxRateLimitResetDelay ctx.(DefaultRateLimitCooldown))).

Lemma plain_deadline attempt e ctx c o s r f rule : cooldownEffect f = false ->
  deadline attempt e ctx (decision c o s r f rule).
Proof. intros Hf Hc. cbn in Hc. congruence. Qed.

(** Changing the retry or the rule keeps a deadline. *)
Lemma same_deadline attempt e ctx d d' : d'.(d_Effect) = d.(d_Effect) ->
  d'.(d_CooldownUntil) = d.(d_CooldownUntil) -> deadline attempt e ctx d -> deadline attempt e ctx d'.
Proof. unfold deadline. intros -> ->. auto. Qed.

Lemma rateLimit_deadline attempt e ctx : 0 <= attempt.(Now) -> 0 < ctx.(DefaultRateLimitCooldown) ->
  deadline attempt e ctx (rateLimitDecision attempt e ctx).
Proof.
  intros Hn Hd. unfold rateLimitDecision.
  case_if; [apply plain_deadline; reflexivity|]. case_if; [apply plain_deadline; reflexivity|].
  case_if; [intros _; cbn; zbool; split; [lia|intros _; lia]|].
  destruct (UsesModelCooldown _ && _);
    [destruct (ParseExplicitRetryAfter _ _) eqn:Ep | destruct (ParseRateLimitReset _ _) eqn:Ep];
    intros _; cbn; (split; [|intros Hx; try discriminate Hx]); try lia.
  - apply ParseExplicitRetryAfter_after in Ep; lia.
  - apply ParseRateLimitReset_bounds in Ep; lia.
  - apply ParseRateLimitReset_bounds in Ep; lia.
Qed.

Lemma category_deadline c attempt e ctx : 0 <= attempt.(Now) -> 0 < ctx.(DefaultRateLimitCooldown) ->
  deadline attempt e ctx (decisionForExecutionCategory c attempt e ctx).
Proof.
  intros Hn Hd. unfold decisionForExecutionCategory.
  destruct (transientCapacityDecision attempt e) as [d|] eqn:Et.
  { unfold transientCapacityDecision in Et. repeat case_if_in Et; try discriminate;
      injection Et as <-; apply plain_deadline; reflexivity. }
  case_if; [apply plain_deadline; reflexivity|].
  case_if; [case_if; apply plain_deadline; reflexivity|].
  destruct c; try (apply plain_deadline; reflexivity);
    unfold ambiguousDecision, hostErrorDecision, authenticationDecision;
    try (repeat case_if; apply plain_deadline; reflexivity).
  apply rateLimit_deadline; assumption.
Qed.

Lemma committed_deadline attempt' attempt e ctx e' d : deadline attempt e ctx d ->
  deadline attempt e ctx (constrainCommittedDecision d attempt' e').
Proof.
  intros Hd. unfold constrainCommittedDecision. case_if; [exact Hd|].
  destruct (committedEffectKept d e'); repeat case_if; try (intros Hc; discriminate Hc);
    apply (same_deadline _ _ _ d); auto.
Qed.

Lemma notSent_deadline attempt e ctx : 0 <= attempt.(Now) -> 0 < ctx.(DefaultRateLimitCooldown) ->
  deadline attempt e ctx (judgeNotSent attempt e ctx).
Proof.
  intros Hn Hd. unfold judgeNotSent. destruct (candidatePreparationDecision e) as [d|] eqn:Ep.
  { unfold candidatePreparationDecision in Ep. repeat case_if_in Ep; try discriminate;
      injection Ep as <-; apply plain_deadline; reflexivity. }
  assert (Hk : deadline attempt e ctx (notSentByKind attempt e ctx)).
  { unfold notSentByKind. destruct (Kind e); try (apply plain_deadline; reflexivity).
    case_if; [|apply plain_deadline; reflexivity].
    unfold handshakeRejection. apply committed_deadline. intros Hc.
    refine (category_deadline _ _ _ _ _ _ Hc); assumption. }
  destruct (Hint e); try exact Hk; try (apply plain_deadline; reflexivity).
  - unfold authenticationDecision. repeat case_if; apply plain_deadline; reflexivity.
  - intros _. unfold refreshTemporarilyUnavailableDecision. cbn.
    repeat case_if; zbool; split; try intros _; lia.
Qed.

Lemma maybeSent_deadline attempt e ctx : 0 <= attempt.(Now) -> 0 < ctx.(DefaultRateLimitCooldown) ->
  deadline attempt e ctx (judgeMaybeSent attempt e ctx).
Proof.
  intros Hn Hd. unfold judgeMaybeSent.
  case_if; [apply plain_deadline; reflexivity|]. case_if; [apply plain_deadline; reflexivity|].
  apply committed_deadline.
  apply (same_deadline _ _ _
    (decisionForExecutionCategory (classifyExecutionEvidence attempt e) attempt e ctx));
    [| |apply category_deadline; assumption].
  all: unfold constrainOperationReplay; repeat case_if; reflexivity.
Qed.

(** A cooldown decided for an attempt ends strictly after the attempt, and a
    credential cooldown lasts no longer than the evidence's own retry delay, the
    configured default or one hour, whichever is largest, whatever dates the
    rate-limit headers carry. *)
Theorem cooldown_deadlines_bounded attempt e ctx :
  0 <= attempt.(Now) -> attempt.(a_Evidence) = Some e ->
  let d := JudgeExecution attempt ctx in
  cooldownEffect d.(d_Effect) = true ->
  attempt.(Now) < d.(d_CooldownUntil) /\
  (d.(d_Effect) = EffectCooldownCredential ->
   d.(d_CooldownUntil) <= attempt.(Now) + Z.max e.(RetryAfter)
     (Z.max maxRateLimitResetDelay (normalizeDecisionContext ctx).(DefaultRateLimitCooldown))).
Proof.
  intros Hn He. change (deadline attempt e (normalizeDecisionContext ctx) (JudgeExecution attempt ctx)).
  pose proof (normalize_positive ctx) as Hd. unfold JudgeExecution.
  set (ctx' := normalizeDecisionContext ctx) in *.
  assert (Hcan : forall d, canceledModelCooldown attempt ctx' = Some d -> deadline attempt e ctx' d).
  { intros d. unfold canceledModelCooldown. rewrite He. repeat case_if; try discriminate. intros [= <-].
    apply (same_deadline _ _ _ (decisionForExecutionCategory FailureCategoryRateLimited attempt e ctx'));
      [reflexivity|reflexivity|]. apply category_deadline; assumption. }
  destruct (DownstreamErr attempt);
    try (destruct (canceledModelCooldown attempt ctx'); [auto|apply plain_deadline; reflexivity]).
  rewrite He. unfold judgeEvidence. case_if; [apply plain_deadline; reflexivity|].
  case_if; [apply committed_deadline, plain_deadline; reflexivity|].
  destruct (a_DispatchState attempt);
    auto using notSent_deadline, maybeSent_deadline; apply plain_deadline; reflexivity.
Qed.

End Deadlines.

Lemma cooldown_deadlines_bounded_witness :
  let e := mkEvidence ErrorKindHTTP FailureHintNone ErrorOriginNone ErrorScopeCredential 429 "" "" "busy" ""
             0 ReplaySafetyNone [] in
  let a := mkAttempt DispatchMaybeSent 429 [("retry-after", ["120"; "90000"])] (Some e) false
             NoDownstreamError 1 in
  let ctx := mkContext 0 false "POST" OperationChatCompletion in
  d_CooldownUntil (@JudgeExecution integerOnlyParsers a ctx) = 1 + 120 * second /\
  Now a < d_CooldownUntil (@JudgeExecution integerOnlyParsers a ctx).
Proof.
  intros e a ctx. split; [vm_compute; reflexivity|].
  apply (@cooldown_deadlines_bounded integerOnlyParsers a e ctx);
    [cbn; lia|reflexivity|vm_compute; reflexivity].
Defined.

End Judgement.
