(* ===== verification/Stats.v ===== *)
(** * Credential statistics

    [internal/health/stats.go]: a five-slot ring of one-minute buckets per
    credential, with the run of consecutive problems.  Times are Unix
    nanoseconds; the [uint64] counters wrap. *)

From Stdlib Require Import ZArith Lia Bool List Permutation Sorted.
From stdpp Require Import base gmap sets list.
From coqutil Require Import Datatypes.RecordSettersUsingExistingGetters.
From S2P Require Import Prelude Credential Health.

Local Open Scope Z_scope.

Module Stats.
Import Health.

Definition statsBucketCount : Z := 5.
Definition statsBucketWidth : Z := minute.

Record CredentialStats := mkStats {
  Success : Z;
  Failure : Z;
  Problem : Z;
  ConsecutiveFailure : Z;
  ConsecutiveProblem : Z;
  LastFailureCategory : FailureCategory;
  LastStatusCode : Z;
}.

Record statsBucket := mkBucket {
  b_minute : Z;
  valid : bool;
  success : Z;
  failure : Z;
  problem : Z;
}.

Record credentialStatsWindow := mkWindow {
  buckets : list statsBucket;
  consecutiveFailure : Z;
  consecutiveProblem : Z;
  lastEventAt : Z;
  lastEventRecorded : bool;
  lastFailureCategory : FailureCategory;
  lastStatusCode : Z;
}.

Abbreviation StatsStore := (gmap Z credentialStatsWindow).

Inductive statsEvent := statsEventSuccess | statsEventFailure | statsEventProblem.

#[export] Instance statsEvent_eq_dec : EqDecision statsEvent.
Proof. solve_decision. Defined.

Definition NewStatsStore : StatsStore := ∅.

Definition zeroBucket : statsBucket := mkBucket 0 false 0 0 0.
Definition zeroWindow : credentialStatsWindow :=
  mkWindow (repeat zeroBucket 5) 0 0 0 false FailureCategoryAmbiguous 0.
Definition zeroStats : CredentialStats := mkStats 0 0 0 0 0 FailureCategoryAmbiguous 0.

Definition statsBucketSlot (m : Z) : nat :=
  let slot := Z.rem m statsBucketCount in
  Z.to_nat (if slot <? 0 then slot + statsBucketCount else slot).

(** [at.UnixNano() / int64(statsBucketWidth)] truncates toward zero. *)
Definition minuteOf (at_ : Z) : Z := Z.quot at_ statsBucketWidth.

Definition incr (n : Z) : Z := wrap_u64 (n + 1).

Definition countEvent (event : statsEvent) (b : statsBucket) : statsBucket :=
  match event with
  | statsEventSuccess => b <| success := incr b.(success) |>
  | statsEventFailure => b <| problem := incr b.(problem) |> <| failure := incr b.(failure) |>
  | statsEventProblem => b <| problem := incr b.(problem) |>
  end.

(** The bucket that counts an event of minute [m], or [None] when the slot
    already holds a later minute and the event is dropped. *)
Definition currentBucket (m : Z) (b : statsBucket) : option statsBucket :=
  if negb b.(valid) || (m >? b.(b_minute)) then Some (mkBucket m true 0 0 0)
  else if m <? b.(b_minute) then None else Some b.

Definition noteLast (event : statsEvent) (category : FailureCategory) (statusCode at_ : Z)
    (w : credentialStatsWindow) : credentialStatsWindow :=
  if w.(lastEventRecorded) && (at_ <? w.(lastEventAt)) then w
  else
    let w := w <| lastEventAt := at_ |> <| lastEventRecorded := true |> in
    match event with
    | statsEventSuccess =>
      w <| consecutiveFailure := 0 |> <| consecutiveProblem := 0 |>
        <| lastFailureCategory := FailureCategoryAmbiguous |> <| lastStatusCode := 0 |>
    | _ =>
      w <| consecutiveFailure :=
             match event with
             | statsEventFailure => incr w.(consecutiveFailure) | _ => w.(consecutiveFailure)
             end |>
        <| consecutiveProblem := incr w.(consecutiveProblem) |>
        <| lastFailureCategory := category |> <| lastStatusCode := statusCode |>
    end.

Definition recordWindow (event : statsEvent) (category : FailureCategory) (statusCode at_ : Z)
    (w : credentialStatsWindow) : credentialStatsWindow :=
  let slot := statsBucketSlot (minuteOf at_) in
  match currentBucket (minuteOf at_) (nth slot w.(buckets) zeroBucket) with
  | None => w
  | Some bucket =>
    noteLast event category statusCode at_ (w <| buckets := <[slot := countEvent event bucket]> w.(buckets) |>)
  end.

Definition record (store : StatsStore) (credentialID : Z) (event : statsEvent)
    (category : FailureCategory) (statusCode at_ : Z) : StatsStore :=
  if credentialID =? 0 then store
  else
    let window := default zeroWindow (store !! credentialID) in
    <[credentialID := recordWindow event category statusCode at_ window]> store.

Definition RecordSuccess (store : StatsStore) (credentialID at_ : Z) : StatsStore :=
  record store credentialID statsEventSuccess FailureCategoryOK 0 at_.
Definition RecordFailure (store : StatsStore) (credentialID : Z) (category : FailureCategory)
    (statusCode at_ : Z) : StatsStore :=
  record store credentialID statsEventFailure category statusCode at_.
Definition RecordProblem (store : StatsStore) (credentialID : Z) (category : FailureCategory)
    (statusCode at_ : Z) : StatsStore :=
  record store credentialID statsEventProblem category statusCode at_.

Definition Reset (store : StatsStore) (credentialID : Z) : StatsStore :=
  if credentialID =? 0 then store else delete credentialID store.

Definition ClearProblemState (store : StatsStore) (credentialID : Z) : StatsStore :=
  if credentialID =? 0 then store
  else match store !! credentialID with
       | None => store
       | Some w =>
         <[credentialID := w <| consecutiveFailure := 0 |> <| consecutiveProblem := 0 |>
             <| lastFailureCategory := FailureCategoryAmbiguous |> <| lastStatusCode := 0 |>]> store
       end.

Definition addBucket (firstMinute currentMinute : Z) (stats : CredentialStats) (b : statsBucket)
    : CredentialStats :=
  if negb b.(valid) || (b.(b_minute) <? firstMinute) || (b.(b_minute) >? currentMinute) then stats
  else stats <| Success := wrap_u64 (stats.(Success) + b.(success)) |>
             <| Failure := wrap_u64 (stats.(Failure) + b.(failure)) |>
             <| Problem := wrap_u64 (stats.(Problem) + b.(problem)) |>.

Definition Snapshot (store : StatsStore) (credentialID now : Z) : CredentialStats :=
  if credentialID =? 0 then zeroStats
  else match store !! credentialID with
       | None => zeroStats
       | Some w =>
         let currentMinute := minuteOf now in
         fold_left (addBucket (currentMinute - (statsBucketCount - 1)) currentMinute) w.(buckets)
           (mkStats 0 0 0 w.(consecutiveFailure) w.(consecutiveProblem)
                    w.(lastFailureCategory) w.(lastStatusCode))
       end.

(** ** Reference semantics: the plain history of a credential *)

Record Event := mkEvent { e_kind : statsEvent; e_category : FailureCategory; e_status : Z; e_at : Z }.

Inductive Op :=
| OpRecord (credentialID : Z) (e : Event)
| OpReset (credentialID : Z)
| OpClear (credentialID : Z).

Definition apply (store : StatsStore) (op : Op) : StatsStore :=
  match op with
  | OpRecord id e => record store id e.(e_kind) e.(e_category) e.(e_status) e.(e_at)
  | OpReset id => Reset store id
  | OpClear id => ClearProblemState store id
  end.

(** Operation sequences are listed with the latest operation first. *)
Definition run (ops : list Op) : StatsStore := fold_right (fun op store => apply store op) NewStatsStore ops.

(** The events of a credential since its last reset, latest first. *)
Fixpoint history (id : Z) (ops : list Op) : list Event :=
  match ops with
  | [] => []
  | OpRecord id' e :: ops => if id' =? id then e :: history id ops else history id ops
  | OpReset id' :: ops => if id' =? id then [] else history id ops
  | OpClear _ :: ops => history id ops
  end.

(** The problems since the last success, reset or manual clearing, latest first. *)
Fixpoint streak (id : Z) (ops : list Op) : list Event :=
  match ops with
  | [] => []
  | OpRecord id' e :: ops =>
    if id' =? id then match e.(e_kind) with statsEventSuccess => [] | _ => e :: streak id ops end
    else streak id ops
  | OpReset id' :: ops | OpClear id' :: ops => if id' =? id then [] else streak id ops
  end.

(** The three counters: a problem is any event that is not a success. *)
Definition counted (k e : statsEvent) : bool :=
  match k, e with
  | statsEventSuccess, statsEventSuccess => true
  | statsEventFailure, statsEventFailure => true
  | statsEventProblem, (statsEventFailure | statsEventProblem) => true
  | _, _ => false
  end.

Definition counter (k : statsEvent) (b : statsBucket) : Z :=
  match k with
  | statsEventSuccess => b.(success) | statsEventFailure => b.(failure) | statsEventProblem => b.(problem)
  end.

Definition total (k : statsEvent) (s : CredentialStats) : Z :=
  match k with
  | statsEventSuccess => s.(Success) | statsEventFailure => s.(Failure) | statsEventProblem => s.(Problem)
  end.

(** Number of events of a history counted by [k] whose minute satisfies [P]. *)
Definition tally (k : statsEvent) (P : Z -> bool) (h : list Event) : Z :=
  Z.of_nat (length (List.filter (fun e => counted k e.(e_kind) && P (minuteOf e.(e_at))) h)).

Lemma tally_cons k P e h : tally k P (e :: h) =
  tally k P h + (if counted k e.(e_kind) && P (minuteOf e.(e_at)) then 1 else 0).
Proof. unfold tally. cbn [List.filter]. case_if; cbn [length]; lia. Qed.

Lemma tally_ext k P Q h : (forall e, e ∈ h -> P (minuteOf e.(e_at)) = Q (minuteOf e.(e_at))) ->
  tally k P h = tally k Q h.
Proof.
  induction h as [|e h IH]; intros Hpq; [reflexivity|]. rewrite !tally_cons, IH.
  - rewrite Hpq by apply list_elem_of_here. reflexivity.
  - intros x Hx. apply Hpq. apply list_elem_of_further. exact Hx.
Qed.

Lemma tally_none k P h : (forall e, e ∈ h -> P (minuteOf e.(e_at)) = false) -> tally k P h = 0.
Proof.
  intros Hp. rewrite (tally_ext k P (fun _ => false)) by exact Hp.
  clear. induction h; [reflexivity|]. rewrite tally_cons, IHh, andb_false_r. reflexivity.
Qed.

(** ** Arithmetic of the ring *)

Lemma slot_mod m : statsBucketSlot m = Z.to_nat (m mod 5).
Proof.
  unfold statsBucketSlot, statsBucketCount. f_equal.
  pose proof (Z.quot_rem' m 5). pose proof (Z.div_mod m 5 ltac:(lia)).
  pose proof (Z.mod_pos_bound m 5 ltac:(lia)). pose proof (Z.rem_bound_abs m 5 ltac:(lia)).
  case_if; zbool; lia.
Qed.

(** The minute of the window ending at [cur] that lives in slot [i]. *)
Definition windowMinute (cur i : Z) : Z :=
  if i <=? cur mod 5 then 5 * (cur / 5) + i else 5 * (cur / 5) - 5 + i.

Lemma windowMinute_spec cur m i : 0 <= i < 5 -> m mod 5 = i -> m <= cur ->
  (cur - 4 <= m <-> m = windowMinute cur i).
Proof.
  intros Hi Hm Hc. unfold windowMinute.
  pose proof (Z.div_mod m 5 ltac:(lia)). pose proof (Z.div_mod cur 5 ltac:(lia)).
  pose proof (Z.mod_pos_bound cur 5 ltac:(lia)). case_if; zbool; lia.
Qed.

Lemma windowMinute_mod cur i : 0 <= i < 5 -> windowMinute cur i mod 5 = i.
Proof.
  intros Hi. unfold windowMinute. case_if.
  - rewrite Z.mul_comm, Z.add_comm, Z_mod_plus_full. apply Z.mod_small. lia.
  - replace (5 * (cur / 5) - 5 + i) with (i + (cur / 5 - 1) * 5) by lia.
    rewrite Z_mod_plus_full. apply Z.mod_small. lia.
Qed.

Lemma window_indicator cur m : m <= cur ->
  (if (cur - 4 <=? m) && (m <=? cur) then 1 else 0) =
  (if windowMinute cur 0 =? m then 1 else 0) + (if windowMinute cur 1 =? m then 1 else 0) +
  (if windowMinute cur 2 =? m then 1 else 0) + (if windowMinute cur 3 =? m then 1 else 0) +
  (if windowMinute cur 4 =? m then 1 else 0).
Proof.
  intros Hc. unfold windowMinute.
  pose proof (Z.div_mod cur 5 ltac:(lia)). pose proof (Z.mod_pos_bound cur 5 ltac:(lia)).
  set (q := cur / 5) in *. set (r := cur mod 5) in *. clearbody q r.
  destruct (Z.leb_spec m cur); [|lia]. rewrite andb_true_r.
  destruct (Z.leb_spec (cur - 4) m), (Z.leb_spec 0 r), (Z.leb_spec 1 r), (Z.leb_spec 2 r),
    (Z.leb_spec 3 r), (Z.leb_spec 4 r); try lia;
  repeat match goal with |- context [?a =? m] => destruct (Z.eqb_spec a m) end; lia.
Qed.

Lemma tally_window k cur h : (forall e, e ∈ h -> minuteOf e.(e_at) <= cur) ->
  tally k (fun m => (cur - 4 <=? m) && (m <=? cur)) h =
  tally k (Z.eqb (windowMinute cur 0)) h + tally k (Z.eqb (windowMinute cur 1)) h +
  tally k (Z.eqb (windowMinute cur 2)) h + tally k (Z.eqb (windowMinute cur 3)) h +
  tally k (Z.eqb (windowMinute cur 4)) h.
Proof.
  induction h as [|e h IH]; intros Hc; [reflexivity|]. rewrite !tally_cons, IH.
  2: { intros x Hx. apply Hc, list_elem_of_further, Hx. }
  pose proof (window_indicator cur _ (Hc e (list_elem_of_here _ _))).
  destruct (counted k (e_kind e)); cbn [andb]; lia.
Qed.

(** ** The ring refines the history *)

Definition bucketMatches (h : list Event) (i : nat) (b : statsBucket) : Prop :=
  if b.(valid)
  then statsBucketSlot b.(b_minute) = i /\
       (exists e, e ∈ h /\ minuteOf e.(e_at) = b.(b_minute)) /\
       (forall e, e ∈ h -> statsBucketSlot (minuteOf e.(e_at)) = i -> minuteOf e.(e_at) <= b.(b_minute)) /\
       (forall k, counter k b = wrap_u64 (tally k (Z.eqb b.(b_minute)) h))
  else forall e, e ∈ h -> statsBucketSlot (minuteOf e.(e_at)) <> i.

Definition ringMatches (h : list Event) (bs : list statsBucket) : Prop :=
  length bs = 5%nat /\ forall i, (i < 5)%nat -> bucketMatches h i (nth i bs zeroBucket).

Lemma incr_wrap n : incr (wrap_u64 n) = wrap_u64 (n + 1).
Proof. unfold incr, wrap_u64. rewrite Zplus_mod_idemp_l. reflexivity. Qed.

Lemma countEvent_counter k e b :
  counter k (countEvent e b) = if counted k e then incr (counter k b) else counter k b.
Proof. destruct k, e; reflexivity. Qed.

Lemma countEvent_minute e b : b_minute (countEvent e b) = b_minute b /\ valid (countEvent e b) = valid b.
Proof. destruct e; split; reflexivity. Qed.

Lemma slot_lt m : (statsBucketSlot m < 5)%nat.
Proof. rewrite slot_mod. pose proof (Z.mod_pos_bound m 5 ltac:(lia)). lia. Qed.

(** Counting an accepted event in its slot. *)
Lemma bucket_count h e b b' : let m := minuteOf e.(e_at) in
  bucketMatches h (statsBucketSlot m) b -> currentBucket m b = Some b' ->
  bucketMatches (e :: h) (statsBucketSlot m) (countEvent e.(e_kind) b').
Proof.
  intros m Hb Hcur. unfold bucketMatches. destruct (countEvent_minute (e_kind e) b') as [-> ->].
  assert (Hk : forall k c, counter k b' = wrap_u64 c ->
    counter k (countEvent (e_kind e) b') = wrap_u64 (c + if counted k (e_kind e) then 1 else 0)).
  { intros k c Hc. rewrite countEvent_counter, Hc. case_if; [apply incr_wrap|f_equal; lia]. }
  unfold currentBucket in Hcur. unfold bucketMatches in Hb. destruct (valid b) eqn:Ev; simpl in Hcur.
  - destruct Hb as (Hs & (x & Hx & Hxm) & Hmax & Hcnt). rewrite Z.gtb_ltb in Hcur.
    case_if_in Hcur; zbool; [|case_if_in Hcur; [discriminate|]]; injection Hcur as <-; zbool; simpl.
    + split; [reflexivity|]. split; [exists e; split; [apply list_elem_of_here|reflexivity]|].
      split.
      * intros y Hy Hsy. apply elem_of_cons in Hy as [->|Hy]; [lia|]. specialize (Hmax y Hy Hsy). lia.
      * intros k. rewrite tally_cons, (tally_none k).
        { fold m. rewrite Z.eqb_refl, andb_true_r. apply Hk. destruct k; reflexivity. }
        intros y Hy. apply Z.eqb_neq. intros Hy'. specialize (Hmax y Hy ltac:(rewrite <- Hy'; reflexivity)). lia.
    + assert (b_minute b = m) as Hm by lia. rewrite Ev, Hm in *. split; [reflexivity|].
      split; [exists e; split; [apply list_elem_of_here|reflexivity]|]. split.
      * intros y Hy Hsy. apply elem_of_cons in Hy as [->|Hy]; [fold m; lia|]. apply Hmax; assumption.
      * intros k. rewrite tally_cons. fold m. rewrite Z.eqb_refl, andb_true_r. apply Hk, Hcnt.
  - injection Hcur as <-. simpl. split; [reflexivity|].
    split; [exists e; split; [apply list_elem_of_here|reflexivity]|]. split.
    + intros y Hy Hsy. apply elem_of_cons in Hy as [->|Hy]; [fold m; lia|]. destruct (Hb y Hy Hsy).
    + intros k. rewrite tally_cons, (tally_none k).
      { fold m. rewrite Z.eqb_refl, andb_true_r. apply Hk. destruct k; reflexivity. }
      intros y Hy. apply Z.eqb_neq. intros Hy'. apply (Hb y Hy). rewrite <- Hy'. reflexivity.
Qed.

(** An event dropped by a slot that already holds a later minute. *)
Lemma bucket_drop h e b : let m := minuteOf e.(e_at) in
  bucketMatches h (statsBucketSlot m) b -> currentBucket m b = None ->
  bucketMatches (e :: h) (statsBucketSlot m) b.
Proof.
  intros m Hb Hcur. unfold currentBucket in Hcur. unfold bucketMatches in *.
  destruct (valid b); simpl in Hcur; [|discriminate]. rewrite Z.gtb_ltb in Hcur.
  case_if_in Hcur; [discriminate|]. case_if_in Hcur; [|discriminate]. zbool.
  destruct Hb as (Hs & (x & Hx & Hxm) & Hmax & Hcnt). split; [exact Hs|].
  split; [exists x; split; [apply list_elem_of_further|]; assumption|]. split.
  - intros y Hy Hsy. apply elem_of_cons in Hy as [->|Hy]; [fold m; lia|auto].
  - intros k. rewrite tally_cons, Hcnt. fold m.
    destruct (Z.eqb_spec (b_minute b) m); [lia|]. rewrite andb_false_r. f_equal. lia.
Qed.

(** An event does not disturb the other slots. *)
Lemma bucket_other h e b i : i <> statsBucketSlot (minuteOf e.(e_at)) ->
  bucketMatches h i b -> bucketMatches (e :: h) i b.
Proof.
  intros Hi Hb. unfold bucketMatches in *. destruct (valid b).
  - destruct Hb as (Hs & (x & Hx & Hxm) & Hmax & Hcnt). split; [exact Hs|].
    split; [exists x; split; [apply list_elem_of_further|]; assumption|]. split.
    + intros y Hy Hsy. apply elem_of_cons in Hy as [->|Hy]; [congruence|auto].
    + intros k. rewrite tally_cons, Hcnt.
      destruct (Z.eqb_spec (b_minute b) (minuteOf (e_at e))); [congruence|].
      rewrite andb_false_r. f_equal. lia.
  - intros y Hy. apply elem_of_cons in Hy as [->|Hy]; auto.
Qed.

Lemma nth_insert {A} (l : list A) i j (x d : A) : (i < length l)%nat ->
  nth j (<[i := x]> l) d = if decide (i = j) then x else nth j l d.
Proof.
  intros Hl. rewrite !nth_lookup. destruct (decide (i = j)) as [->|Hn].
  - rewrite list_lookup_insert_eq by exact Hl. reflexivity.
  - rewrite list_lookup_insert_ne by exact Hn. reflexivity.
Qed.

Lemma noteLast_buckets ev c st at_ w : buckets (noteLast ev c st at_ w) = buckets w.
Proof. unfold noteLast. case_if; [reflexivity|]. destruct ev; reflexivity. Qed.

Lemma ring_record h e w : ringMatches h w.(buckets) ->
  ringMatches (e :: h) (recordWindow e.(e_kind) e.(e_category) e.(e_status) e.(e_at) w).(buckets).
Proof.
  intros [Hl Hb]. unfold recordWindow. set (i := statsBucketSlot (minuteOf (e_at e))).
  pose proof (slot_lt (minuteOf (e_at e))) as Hi. fold i in Hi.
  destruct (currentBucket _ _) as [b|] eqn:Ec.
  - rewrite noteLast_buckets. cbn [buckets set const]. split; [rewrite length_insert; exact Hl|].
    intros j Hj. rewrite nth_insert by lia. destruct (decide (i = j)) as [<-|Hn].
    + eapply bucket_count; [apply Hb, Hi|exact Ec].
    + apply bucket_other; [intros ->; apply Hn; reflexivity|auto].
  - split; [exact Hl|]. intros j Hj. destruct (decide (i = j)) as [<-|Hn].
    + apply bucket_drop; [apply Hb, Hi|exact Ec].
    + apply bucket_other; [intros ->; apply Hn; reflexivity|auto].
Qed.

Lemma ring_empty : ringMatches [] (repeat zeroBucket 5).
Proof.
  split; [reflexivity|]. intros i Hi.
  assert (nth i (repeat zeroBucket 5) zeroBucket = zeroBucket) as ->
    by (do 5 (destruct i as [|i]; [reflexivity|]); lia).
  intros e He. apply elem_of_nil in He. destruct He.
Qed.

(** Every stored window matches the history of its credential. *)
Lemma store_matches ops id : id <> 0 ->
  match run ops !! id with
  | Some w => ringMatches (history id ops) w.(buckets)
  | None => history id ops = []
  end.
Proof.
  intros Hid. induction ops as [|op ops IH]; [reflexivity|].
  change (run (op :: ops)) with (apply (run ops) op).
  destruct op as [id' e|id'|id']; cbn [apply history].
  - unfold record. destruct (Z.eqb_spec id' 0); [destruct (Z.eqb_spec id' id); [congruence|exact IH]|].
    destruct (Z.eqb_spec id' id) as [->|Hn].
    + rewrite lookup_insert_eq. destruct (run ops !! id) as [w|]; simpl; apply ring_record; [exact IH|].
      rewrite IH. apply ring_empty.
    + rewrite lookup_insert_ne by exact Hn. exact IH.
  - unfold Reset. destruct (Z.eqb_spec id' 0); [destruct (Z.eqb_spec id' id); [congruence|exact IH]|].
    destruct (Z.eqb_spec id' id) as [->|Hn].
    + rewrite lookup_delete_eq. reflexivity.
    + rewrite lookup_delete_ne by exact Hn. exact IH.
  - unfold ClearProblemState. destruct (Z.eqb_spec id' 0); [exact IH|].
    destruct (run ops !! id') as [w|] eqn:Ew; [|exact IH].
    destruct (Z.eq_dec id' id) as [->|Hn].
    + rewrite lookup_insert_eq. rewrite Ew in IH. exact IH.
    + rewrite lookup_insert_ne by exact Hn. exact IH.
Qed.

(** What a bucket adds to the snapshot. *)
Definition contribution (k : statsEvent) (cur : Z) (b : statsBucket) : Z :=
  if negb b.(valid) || (b.(b_minute) <? cur - 4) || (b.(b_minute) >? cur) then 0 else counter k b.

Lemma addBucket_total k cur s b :
  wrap_u64 (total k (addBucket (cur - 4) cur s b)) = wrap_u64 (total k s + contribution k cur b).
Proof.
  unfold addBucket, contribution. case_if; [f_equal; lia|].
  destruct k; cbn; unfold wrap_u64; rewrite Zmod_mod; reflexivity.
Qed.

Lemma addBucket_range k cur s b : in_uint64 (total k s) -> in_uint64 (total k (addBucket (cur - 4) cur s b)).
Proof. intros Hs. unfold addBucket. case_if; [exact Hs|]. destruct k; apply wrap_u64_range. Qed.

Lemma contribution_spec k cur h i b : (i < 5)%nat -> bucketMatches h i b ->
  (forall e, e ∈ h -> minuteOf e.(e_at) <= cur) ->
  wrap_u64 (contribution k cur b) = wrap_u64 (tally k (Z.eqb (windowMinute cur (Z.of_nat i))) h).
Proof.
  intros Hi Hb Hc. unfold contribution. unfold bucketMatches in Hb. destruct (valid b) eqn:Ev.
  - destruct Hb as (Hs & (x & Hx & Hxm) & Hmax & Hcnt). rewrite slot_mod in Hs.
    pose proof (Z.mod_pos_bound (b_minute b) 5 ltac:(lia)).
    assert (b_minute b <= cur) by (rewrite <- Hxm; auto).
    pose proof (windowMinute_spec cur (b_minute b) (Z.of_nat i) ltac:(lia) ltac:(lia) ltac:(lia)) as Hw.
    rewrite Z.gtb_ltb. destruct (Z.ltb_spec (b_minute b) (cur - 4)), (Z.ltb_spec cur (b_minute b)); simpl; try lia.
    + rewrite tally_none; [reflexivity|]. intros y Hy. apply Z.eqb_neq. intros Hy'.
      pose proof (Z.mod_pos_bound (minuteOf (e_at y)) 5 ltac:(lia)).
      pose proof (windowMinute_mod cur (Z.of_nat i) ltac:(lia)) as Hm5.
      assert (statsBucketSlot (minuteOf (e_at y)) = i) as Hys by (rewrite slot_mod, <- Hy', Hm5; lia).
      specialize (Hmax y Hy Hys). specialize (Hc y Hy).
      destruct (windowMinute_spec cur (minuteOf (e_at y)) (Z.of_nat i) ltac:(lia)
        ltac:(rewrite <- Hy'; exact Hm5) Hc) as [_ Hyw]. specialize (Hyw (eq_sym Hy')). lia.
    + rewrite Hcnt. replace (windowMinute cur (Z.of_nat i)) with (b_minute b) by (apply Hw; lia).
      unfold wrap_u64. rewrite Zmod_mod. reflexivity.
  - simpl. rewrite tally_none; [reflexivity|]. intros y Hy. apply Z.eqb_neq. intros Hy'.
    apply (Hb y Hy). rewrite slot_mod, <- Hy'.
    rewrite windowMinute_mod; lia.
Qed.

Lemma wrap_add_l a b c : wrap_u64 a = wrap_u64 b -> wrap_u64 (a + c) = wrap_u64 (b + c).
Proof.
  unfold wrap_u64. intros He. rewrite <- (Zplus_mod_idemp_l a), He, Zplus_mod_idemp_l. reflexivity.
Qed.

Lemma wrap_add a a' b b' : wrap_u64 a = wrap_u64 a' -> wrap_u64 b = wrap_u64 b' ->
  wrap_u64 (a + b) = wrap_u64 (a' + b').
Proof.
  intros Ha Hb. rewrite (wrap_add_l _ _ _ Ha), !(Z.add_comm a'). apply wrap_add_l. exact Hb.
Qed.

Lemma fold_total k cur bs : forall s, in_uint64 (total k s) ->
  total k (fold_left (addBucket (cur - 4) cur) bs s) =
  wrap_u64 (fold_left (fun acc b => acc + contribution k cur b) bs (total k s)).
Proof.
  induction bs as [|b bs IH]; intros s Hs; cbn [fold_left]; [symmetry; apply wrap_u64_id, Hs|].
  rewrite IH by (apply addBucket_range, Hs).
  assert (Hf : forall (l : list statsBucket) x y, wrap_u64 x = wrap_u64 y ->
    wrap_u64 (fold_left (fun acc b => acc + contribution k cur b) l x) =
    wrap_u64 (fold_left (fun acc b => acc + contribution k cur b) l y)).
  { induction l as [|c l IHl]; intros x y Hxy; [exact Hxy|]. apply IHl, wrap_add_l, Hxy. }
  apply Hf, addBucket_total.
Qed.

(** [C32] The five-slot ring is exact.  After any sequence of records, resets and
    clearings, in any order of event times, the successes, failures and problems
    a snapshot reports are the numbers (modulo 2^64) of such events of that
    credential since its last reset whose minute is one of the five up to now,
    as long as no event of it lies after the current minute. *)
Theorem stats_window_exact ops id now k : id <> 0 ->
  (forall e, e ∈ history id ops -> minuteOf e.(e_at) <= minuteOf now) ->
  total k (Snapshot (run ops) id now) =
  wrap_u64 (tally k (fun m => (minuteOf now - 4 <=? m) && (m <=? minuteOf now)) (history id ops)).
Proof.
  intros Hid Hc. pose proof (store_matches ops id Hid) as Hm. unfold Snapshot.
  destruct (Z.eqb_spec id 0) as [|_]; [contradiction|].
  destruct (run ops !! id) as [w|]; [|rewrite Hm; destruct k; reflexivity].
  set (cur := minuteOf now) in *. destruct Hm as [Hl Hb].
  change (statsBucketCount - 1) with 4. rewrite fold_total by (destruct k; split; reflexivity || discriminate).
  rewrite tally_window by exact Hc.
  destruct (buckets w) as [|b0 [|b1 [|b2 [|b3 [|b4 [|]]]]]]; try discriminate Hl.
  cbn [fold_left]. replace (total k _) with 0 by (destruct k; reflexivity). rewrite Z.add_0_l.
  pose proof (fun i Hi => contribution_spec k cur _ i _ Hi (Hb i Hi) Hc) as Hk.
  repeat apply wrap_add; [apply (Hk 0%nat)|apply (Hk 1%nat)|apply (Hk 2%nat)|apply (Hk 3%nat)|apply (Hk 4%nat)];
    lia.
Qed.

Definition sampleOps : list Op :=
  [ OpRecord 7 (mkEvent statsEventFailure FailureCategoryInvalidKey 401 (8 * minute));
    OpRecord 7 (mkEvent statsEventSuccess FailureCategoryOK 0 (2 * minute));
    OpClear 7;
    OpRecord 7 (mkEvent statsEventProblem FailureCategoryRateLimited 429 (6 * minute));
    OpRecord 9 (mkEvent statsEventSuccess FailureCategoryOK 0 (7 * minute)) ].

Lemma stats_window_exact_witness :
  Problem (Snapshot (run sampleOps) 7 (9 * minute)) = 2 /\
  total statsEventProblem (Snapshot (run sampleOps) 7 (9 * minute)) =
  wrap_u64 (tally statsEventProblem (fun m => (minuteOf (9 * minute) - 4 <=? m) && (m <=? minuteOf (9 * minute)))
    (history 7 sampleOps)).
Proof.
  split; [vm_compute; reflexivity|]. apply stats_window_exact; [discriminate|].
  intros e He. vm_compute in He.
  repeat (apply elem_of_cons in He as [->|He]; [vm_compute; discriminate|]).
  apply elem_of_nil in He. destruct He.
Defined.

(** ** Consecutive problems *)

(** Events arrived in the order of their times, latest first. *)
Definition inOrder (h : list Event) : Prop := StronglySorted (fun later e => e.(e_at) <= later.(e_at)) h.

Definition failures (s : list Event) : Z :=
  Z.of_nat (length (List.filter (fun e => counted statsEventFailure e.(e_kind)) s)).

Lemma failures_cons e s :
  failures (e :: s) = failures s + (if counted statsEventFailure e.(e_kind) then 1 else 0).
Proof. unfold failures. cbn [List.filter]. case_if; cbn [length]; lia. Qed.

Definition streakMatches (h s : list Event) (w : credentialStatsWindow) : Prop :=
  w.(lastEventRecorded) = negb (bool_decide (h = [])) /\
  (forall e, head h = Some e -> w.(lastEventAt) = e.(e_at)) /\
  w.(consecutiveFailure) = wrap_u64 (failures s) /\
  w.(consecutiveProblem) = wrap_u64 (Z.of_nat (length s)) /\
  w.(lastFailureCategory) = match s with [] => FailureCategoryAmbiguous | e :: _ => e.(e_category) end /\
  w.(lastStatusCode) = match s with [] => 0 | e :: _ => e.(e_status) end.

Lemma minuteOf_mono a b : a <= b -> minuteOf a <= minuteOf b.
Proof. intros. unfold minuteOf. apply Z.quot_le_mono; [reflexivity|assumption]. Qed.

(** An event no earlier than its history is never dropped. *)
Lemma in_order_accepted h e b : inOrder (e :: h) ->
  bucketMatches h (statsBucketSlot (minuteOf e.(e_at))) b ->
  exists b', currentBucket (minuteOf e.(e_at)) b = Some b'.
Proof.
  intros Ho Hb. inversion Ho as [|? ? _ Hall]; subst. unfold currentBucket, bucketMatches in *.
  destruct (valid b); simpl; [|eauto]. destruct Hb as (_ & (x & Hx & Hxm) & _).
  rewrite Z.gtb_ltb. case_if; [eauto|]. case_if; [|eauto]. zbool.
  rewrite Forall_forall in Hall. specialize (Hall x Hx).
  apply minuteOf_mono in Hall. lia.
Qed.

Lemma streak_record h s e w : inOrder (e :: h) -> ringMatches h w.(buckets) -> streakMatches h s w ->
  streakMatches (e :: h) (match e.(e_kind) with statsEventSuccess => [] | _ => e :: s end)
    (recordWindow e.(e_kind) e.(e_category) e.(e_status) e.(e_at) w).
Proof.
  intros Ho [_ Hb] (Hrec & Hat & Hf & Hp & Hcat & Hst).
  unfold recordWindow. specialize (Hb _ (slot_lt (minuteOf (e_at e)))).
  destruct (in_order_accepted h e _ Ho Hb) as [b' ->]. unfold noteLast.
  cbn [lastEventRecorded lastEventAt set const].
  assert (Hkeep : w.(lastEventRecorded) && (e.(e_at) <? w.(lastEventAt)) = false).
  { inversion Ho as [|? ? _ Hall]; subst. destruct h as [|x h].
    - rewrite Hrec. reflexivity.
    - rewrite (Hat x eq_refl). inversion Hall; subst. apply andb_false_iff. right. apply Z.ltb_ge. assumption. }
  rewrite Hkeep. unfold streakMatches.
  destruct (e_kind e) eqn:Ek; cbn -[failures]; rewrite ?failures_cons, ?Ek, ?Hf, ?Hp, ?incr_wrap;
    cbn [counted]; repeat split; try congruence; f_equal; lia.
Qed.

Lemma store_streaks ops id : id <> 0 -> inOrder (history id ops) ->
  match run ops !! id with
  | Some w => streakMatches (history id ops) (streak id ops) w
  | None => streak id ops = []
  end.
Proof.
  intros Hid. induction ops as [|op ops IH]; intros Ho; [reflexivity|].
  change (run (op :: ops)) with (apply (run ops) op).
  destruct op as [id' e|id'|id']; cbn [apply history streak] in *.
  - unfold record. destruct (Z.eqb_spec id' id) as [->|Hn].
    + destruct (Z.eqb_spec id 0); [contradiction|]. rewrite lookup_insert_eq.
      assert (Ho' : inOrder (history id ops)) by (inversion Ho; assumption).
      specialize (IH Ho'). pose proof (store_matches ops id Hid) as Hm.
      apply streak_record; [exact Ho| |]; destruct (run ops !! id) as [w|]; simpl; auto.
      * rewrite Hm. apply ring_empty.
      * rewrite Hm, IH. repeat split. discriminate.
    + destruct (Z.eqb_spec id' 0); [exact (IH Ho)|]. rewrite lookup_insert_ne by exact Hn. exact (IH Ho).
  - unfold Reset. destruct (Z.eqb_spec id' id) as [->|Hn].
    + destruct (Z.eqb_spec id 0); [contradiction|]. rewrite lookup_delete_eq. reflexivity.
    + destruct (Z.eqb_spec id' 0); [exact (IH Ho)|]. rewrite lookup_delete_ne by exact Hn. exact (IH Ho).
  - unfold ClearProblemState. destruct (Z.eqb_spec id' 0) as [->|Hz].
    { destruct (Z.eqb_spec 0 id); [congruence|exact (IH Ho)]. }
    specialize (IH Ho). destruct (Z.eqb_spec id' id) as [->|Hn].
    + destruct (run ops !! id) as [w|] eqn:Ew; [|rewrite Ew; reflexivity].
      rewrite lookup_insert_eq. destruct IH as (Hr & Ha & _). repeat split; assumption.
    + destruct (run ops !! id') as [w|]; [|exact IH]. rewrite lookup_insert_ne by exact Hn. exact IH.
Qed.

(** When the events of a credential arrive in the order of their times, the
    consecutive counters of a snapshot are the lengths (modulo 2^64) of the run
    of problems and of failures since the last success, reset or manual clearing,
    and the last category and status are those of the latest problem of the run. *)
Theorem stats_streak_exact ops id now : id <> 0 -> inOrder (history id ops) ->
  let s := Snapshot (run ops) id now in
  s.(ConsecutiveFailure) = wrap_u64 (failures (streak id ops)) /\
  s.(ConsecutiveProblem) = wrap_u64 (Z.of_nat (length (streak id ops))) /\
  s.(LastFailureCategory) =
    match streak id ops with [] => FailureCategoryAmbiguous | e :: _ => e.(e_category) end /\
  s.(LastStatusCode) = match streak id ops with [] => 0 | e :: _ => e.(e_status) end.
Proof.
  intros Hid Ho s. unfold s, Snapshot. clear s. pose proof (store_streaks ops id Hid Ho) as Hs.
  destruct (Z.eqb_spec id 0) as [|_]; [contradiction|].
  destruct (run ops !! id) as [w|]; [|rewrite Hs; repeat split].
  assert (Hk : forall f c bs s, let s' := fold_left (addBucket f c) bs s in
    ConsecutiveFailure s' = ConsecutiveFailure s /\ ConsecutiveProblem s' = ConsecutiveProblem s /\
    LastFailureCategory s' = LastFailureCategory s /\ LastStatusCode s' = LastStatusCode s).
  { intros f c bs. induction bs as [|b bs IH]; intros s; cbn [fold_left]; [auto|].
    destruct (IH (addBucket f c s b)) as (-> & -> & -> & ->). unfold addBucket. case_if; auto. }
  edestruct Hk as (-> & -> & -> & ->). cbn.
  destruct Hs as (_ & _ & Hf & Hp & Hcat & Hst). auto.
Qed.

Lemma stats_streak_exact_witness :
  let ops := [ OpRecord 7 (mkEvent statsEventFailure FailureCategoryInvalidKey 401 (8 * minute));
               OpRecord 7 (mkEvent statsEventProblem FailureCategoryRateLimited 429 (6 * minute));
               OpRecord 7 (mkEvent statsEventSuccess FailureCategoryOK 0 (2 * minute)) ] in
  ConsecutiveProblem (Snapshot (run ops) 7 (9 * minute)) = 2 /\
  ConsecutiveFailure (Snapshot (run ops) 7 (9 * minute)) = wrap_u64 (failures (streak 7 ops)).
Proof.
  intros ops. split; [vm_compute; reflexivity|]. apply stats_streak_exact; [discriminate|].
  unfold inOrder. repeat constructor; vm_compute; discriminate.
Defined.
End Stats.
