(* ===== verification/Mutation.v ===== *)
(** * Mutation coordinator

    [internal/health/mutation.go]: credential mutations are serialised by 64
    striped mutexes.  [Do] locks the stripe of one credential; [DoMany] locks the
    distinct stripes of several credentials in ascending order and unlocks them
    in reverse.  Concurrent callers are a step relation on their thread states;
    the callback is a critical section that does not re-enter the coordinator. *)

From Stdlib Require Import ZArith Lia Bool List Sorted Permutation.
From stdpp Require Import base gmap sets list sorting.
From S2P Require Import Prelude.

Local Open Scope Z_scope.

Module Mutation.

Definition mutationStripeCount : Z := 64.

Definition stripeOf (credentialID : Z) : Z := credentialID mod mutationStripeCount.

(** The loop of [DoMany]: distinct stripes in order of first occurrence. *)
Fixpoint collectIndexes (selected : gset Z) (credentialIDs : list Z) : list Z :=
  match credentialIDs with
  | [] => []
  | credentialID :: rest =>
    let index := stripeOf credentialID in
    if decide (index ∈ selected) then collectIndexes selected rest
    else index :: collectIndexes ({[index]} ∪ selected) rest
  end.

(** The stripes [DoMany] locks, in locking order. *)
Definition lockPlan (credentialIDs : list Z) : list Z :=
  merge_sort (≤)%Z (collectIndexes ∅ credentialIDs).

(** A caller: acquiring its remaining stripes, in the critical section, or
    releasing the stripes it still holds. *)
Inductive Thread :=
| Locking (held rest : list Z)
| Running (held : list Z)
| Unlocking (held : list Z)
| Finished.

#[export] Instance Thread_eq_dec : EqDecision Thread.
Proof. solve_decision. Defined.

Definition holds (t : Thread) : list Z :=
  match t with
  | Locking held _ | Running held | Unlocking held => held
  | Finished => []
  end.

Definition DoMany (credentialIDs : list Z) : Thread := Locking [] (lockPlan credentialIDs).
Definition Do (credentialID : Z) : Thread := Locking [] [stripeOf credentialID].

(** A mutex is free when no caller holds it. *)
Definition free (threads : list Thread) (s : Z) : Prop := forall i t, threads !! i = Some t -> s ∉ holds t.

Inductive step (threads : list Thread) : list Thread -> Prop :=
| step_lock i held s rest : threads !! i = Some (Locking held (s :: rest)) -> free threads s ->
    step threads (<[i := Locking (held ++ [s]) rest]> threads)
| step_enter i held : threads !! i = Some (Locking held []) ->
    step threads (<[i := Running held]> threads)
| step_leave i held : threads !! i = Some (Running held) ->
    step threads (<[i := Unlocking (rev held)]> threads)
| step_unlock i s held : threads !! i = Some (Unlocking (s :: held)) ->
    step threads (<[i := Unlocking held]> threads)
| step_finish i : threads !! i = Some (Unlocking []) ->
    step threads (<[i := Finished]> threads).

(** ** The lock plan *)

Lemma collect_spec ids : forall selected,
  NoDup (collectIndexes selected ids) /\
  (forall s, s ∈ collectIndexes selected ids <-> s ∉ selected /\ exists id, id ∈ ids /\ s = stripeOf id).
Proof.
  induction ids as [|id ids IH]; intros selected; simpl.
  - split; [constructor|]. intros s. split; [intros Hs; inversion Hs|].
    intros (_ & id & Hid & _). inversion Hid.
  - destruct (decide (stripeOf id ∈ selected)) as [Hin|Hin].
    + destruct (IH selected) as [Hn Hs]. split; [exact Hn|]. intros s. rewrite Hs. split.
      * intros (H1 & x & Hx & ->). split; [exact H1|]. exists x. split; [apply list_elem_of_further, Hx|reflexivity].
      * intros (H1 & x & Hx & ->). split; [exact H1|].
        apply elem_of_cons in Hx as [->|Hx]; [contradiction|]. exists x. auto.
    + destruct (IH ({[stripeOf id]} ∪ selected)) as [Hn Hs]. split.
      * constructor; [|exact Hn]. rewrite Hs. intros [H1 _]. apply H1.
        apply elem_of_union_l, elem_of_singleton. reflexivity.
      * intros s. rewrite elem_of_cons, Hs, not_elem_of_union, not_elem_of_singleton. split.
        -- intros [->|([H1 H2] & x & Hx & ->)].
           { split; [exact Hin|]. exists id. split; [apply list_elem_of_here|reflexivity]. }
           split; [exact H2|]. exists x. split; [apply list_elem_of_further, Hx|reflexivity].
        -- intros (H1 & x & Hx & ->). destruct (decide (stripeOf x = stripeOf id)) as [E|E]; [left; exact E|].
           right. apply elem_of_cons in Hx as [->|Hx]; [contradiction|]. split; [auto|]. exists x. auto.
Qed.

Lemma lockPlan_elem ids s : s ∈ lockPlan ids <-> exists id, id ∈ ids /\ s = stripeOf id.
Proof.
  unfold lockPlan. rewrite (merge_sort_Permutation (≤)%Z (collectIndexes ∅ ids)).
  destruct (collect_spec ids ∅) as [_ Hs]. rewrite Hs. split; [intros [_ Hx]; exact Hx|].
  intros Hx. split; [apply not_elem_of_empty|exact Hx].
Qed.

Lemma strict_of_sorted l : StronglySorted Z.le l -> NoDup l -> StronglySorted Z.lt l.
Proof.
  induction 1 as [|x l Hs IH Hall]; intros Hn; [constructor|].
  apply NoDup_cons in Hn as [Hx Hn]. constructor; [auto|].
  rewrite Forall_forall in *. intros y Hy. specialize (Hall y Hy).
  assert (x <> y) by (intros ->; contradiction). lia.
Qed.

Lemma lockPlan_sorted ids : StronglySorted Z.lt (lockPlan ids).
Proof.
  apply strict_of_sorted.
  - apply StronglySorted_merge_sort; [intros a b c; lia|intros a b; lia].
  - unfold lockPlan. rewrite (merge_sort_Permutation (≤)%Z). apply collect_spec.
Qed.

Lemma stripe_range id : 0 <= stripeOf id < 64.
Proof. apply Z.mod_pos_bound. reflexivity. Qed.

Lemma single_plan id : lockPlan [id] = [stripeOf id].
Proof. reflexivity. Qed.

(** ** Invariant of reachable states *)

(** How far a caller with a given plan has come. *)
Definition progress (plan : list Z) (t : Thread) : Prop :=
  match t with
  | Locking held rest => held ++ rest = plan
  | Running held => held = plan
  | Unlocking held => exists released, rev plan = released ++ held
  | Finished => True
  end.

Record ok (requests : list (list Z)) (threads : list Thread) : Prop := {
  ok_length : length threads = length requests;
  ok_progress : forall i t ids, threads !! i = Some t -> requests !! i = Some ids ->
    progress (lockPlan ids) t;
  ok_exclusive : forall i j ti tj s, threads !! i = Some ti -> threads !! j = Some tj ->
    s ∈ holds ti -> s ∈ holds tj -> i = j;
}.

Definition init (requests : list (list Z)) : list Thread := map DoMany requests.
Definition reachable (requests : list (list Z)) (threads : list Thread) : Prop :=
  rtc step (init requests) threads.

Lemma ok_init requests : ok requests (init requests).
Proof.
  split.
  - apply length_map.
  - intros i t ids Ht Hr. unfold init in Ht. rewrite list_lookup_fmap, Hr in Ht.
    injection Ht as <-. reflexivity.
  - intros i j ti tj s Hi _ Hs. unfold init in Hi. rewrite list_lookup_fmap in Hi.
    destruct (requests !! i); [|discriminate]. injection Hi as <-. inversion Hs.
Qed.

(** Replacing one caller's state keeps the invariant when it advances along its
    plan and holds only what it held or what nobody holds. *)
Lemma ok_update requests threads i t t' : ok requests threads -> threads !! i = Some t ->
  (forall plan, progress plan t -> progress plan t') ->
  (forall s, s ∈ holds t' -> s ∈ holds t \/ free threads s) ->
  ok requests (<[i := t']> threads).
Proof.
  intros [Hl Hp Hx] Hi Hadv Hh.
  assert (Hlook : forall j u, <[i := t']> threads !! j = Some u ->
    (j = i /\ u = t') \/ threads !! j = Some u).
  { intros j u Hj. apply list_lookup_insert_Some in Hj as [(-> & -> & _)|[_ Hj]]; auto. }
  assert (Hheld : forall j u s, <[i := t']> threads !! j = Some u -> s ∈ holds u ->
    (exists u0, threads !! j = Some u0 /\ s ∈ holds u0) \/ (j = i /\ free threads s)).
  { intros j u s Hj Hs. destruct (Hlook j u Hj) as [[-> ->]|Hj']; [|eauto].
    destruct (Hh s Hs); eauto. }
  split.
  - rewrite length_insert. exact Hl.
  - intros j u ids Hj Hr. destruct (Hlook j u Hj) as [[-> ->]|Hj']; [|eauto]. eauto.
  - intros j k tj tk s Hj Hk Hsj Hsk.
    destruct (Hheld j tj s Hj Hsj) as [(uj & Huj & Hsuj)|[-> Hf]],
             (Hheld k tk s Hk Hsk) as [(uk & Huk & Hsuk)|[-> Hf']]; auto.
    + eapply Hx; eassumption.
    + exfalso. exact (Hf' _ _ Huj Hsuj).
    + exfalso. exact (Hf _ _ Huk Hsuk).
Qed.

Lemma ok_step requests threads threads' : ok requests threads -> step threads threads' -> ok requests threads'.
Proof.
  intros Hok [i held s rest Hi Hf|i held Hi|i held Hi|i s held Hi|i Hi];
    apply (ok_update _ _ _ _ _ Hok Hi); cbn.
  - intros plan <-. rewrite <- app_assoc. reflexivity.
  - intros x Hx. apply elem_of_app in Hx as [Hx|Hx]; [auto|]. apply list_elem_of_singleton in Hx as ->. auto.
  - intros plan <-. rewrite app_nil_r. reflexivity.
  - auto.
  - intros plan ->. exists []. reflexivity.
  - intros x Hx. left. apply list_elem_of_In, in_rev, list_elem_of_In, Hx.
  - intros plan [released Hp]. exists (released ++ [s]). rewrite <- app_assoc. exact Hp.
  - intros x Hx. left. apply list_elem_of_further, Hx.
  - auto.
  - auto.
Qed.

Lemma ok_reachable requests threads : reachable requests threads -> ok requests threads.
Proof.
  assert (Hsteps : forall a b, rtc step a b -> ok requests a -> ok requests b)
    by (induction 1; eauto using ok_step).
  intros Hr. exact (Hsteps _ _ Hr (ok_init requests)).
Qed.

(** ** No deadlock, no endless run *)

Definition weight (t : Thread) : nat :=
  match t with
  | Locking held rest => 3 + 2 * length rest + length held
  | Running held => 2 + length held
  | Unlocking held => 1 + length held
  | Finished => 0
  end.

Definition remaining (threads : list Thread) : nat := list_sum (map weight threads).

Lemma remaining_insert threads i t t' : threads !! i = Some t -> (weight t' < weight t)%nat ->
  (remaining (<[i := t']> threads) < remaining threads)%nat.
Proof.
  unfold remaining. revert i. induction threads as [|u threads IH]; intros [|i] Hi Hw; try discriminate; simpl.
  - injection Hi as ->. lia.
  - specialize (IH i Hi Hw). lia.
Qed.

Lemma step_decreases threads threads' : step threads threads' -> (remaining threads' < remaining threads)%nat.
Proof.
  intros [i held s rest Hi Hf|i held Hi|i held Hi|i s held Hi|i Hi];
    apply (remaining_insert _ _ _ _ Hi); simpl; rewrite ?length_app, ?length_rev; simpl; lia.
Qed.

Lemma sorted_suffix held x rest : StronglySorted Z.lt (held ++ x :: rest) -> forall s, s ∈ held -> s < x.
Proof.
  induction held as [|a held IH]; intros Hs s Hin; [inversion Hin|]. simpl in Hs.
  inversion Hs as [|? ? Hs' Hall]; subst. apply elem_of_cons in Hin as [->|Hin]; [|eauto].
  rewrite Forall_forall in Hall. apply Hall, elem_of_app. right. apply list_elem_of_here.
Qed.

(** A caller waiting for a stripe either gets it, or some caller can move: the
    holder of the stripe is past locking or waits for a higher stripe. *)
Lemma waiting_progress requests threads : ok requests threads ->
  forall fuel i held s rest, (Z.to_nat (64 - s) <= fuel)%nat ->
  threads !! i = Some (Locking held (s :: rest)) -> exists threads', step threads threads'.
Proof.
  intros Hok fuel. induction fuel as [|fuel IH]; intros i held s rest Hf Hi.
  all: assert (Hs : 0 <= s < 64).
  1,3: assert (Hlt := lookup_lt_Some _ _ _ Hi); rewrite (ok_length _ _ Hok) in Hlt;
    apply lookup_lt_is_Some_2 in Hlt as [ids Hids];
    pose proof (ok_progress _ _ Hok _ _ _ Hi Hids) as Hp; cbn in Hp;
    assert (Hin : s ∈ lockPlan ids) by (rewrite <- Hp; apply elem_of_app; right; apply list_elem_of_here);
    apply lockPlan_elem in Hin as (id & _ & ->); apply stripe_range.
  { lia. }
  destruct (decide (Exists (fun t => s ∈ holds t) threads)) as [Hex|Hno].
  - apply Exists_exists in Hex as (t & Ht & Hst). apply list_elem_of_lookup in Ht as [j Hj].
    destruct t as [held' [|s' rest']|held'|held'|]; cbn in Hst.
    + eexists. eapply step_enter, Hj.
    + apply (IH j held' s' rest'); [|exact Hj].
      assert (Hlt := lookup_lt_Some _ _ _ Hj). rewrite (ok_length _ _ Hok) in Hlt.
      apply lookup_lt_is_Some_2 in Hlt as [ids Hids].
      pose proof (ok_progress _ _ Hok _ _ _ Hj Hids) as Hp. cbn in Hp.
      pose proof (lockPlan_sorted ids) as Hsort. rewrite <- Hp in Hsort.
      pose proof (sorted_suffix _ _ _ Hsort s Hst). lia.
    + eexists. eapply step_leave, Hj.
    + destruct held' as [|x held']; [inversion Hst|]. eexists. eapply step_unlock, Hj.
    + inversion Hst.
  - eexists. eapply step_lock; [exact Hi|]. intros j t Hj Hst. apply Hno, Exists_exists.
    exists t. split; [eapply list_elem_of_lookup_2, Hj|exact Hst].
Qed.

(** [C35] The striped lock is safe and live.  In every state reachable by
    concurrent callers, two callers in their critical sections never share a
    credential; unless every caller has returned, some caller can move, so there
    is no deadlock; and every step brings the callers closer to the end, so every
    execution finishes within [remaining] steps. *)
Theorem striped_locking_safe_and_live requests threads : reachable requests threads ->
  (forall i j hi hj idsi idsj id, threads !! i = Some (Running hi) -> threads !! j = Some (Running hj) ->
     requests !! i = Some idsi -> requests !! j = Some idsj -> id ∈ idsi -> id ∈ idsj -> i = j) /\
  ((forall i t, threads !! i = Some t -> t = Finished) \/ exists threads', step threads threads') /\
  (forall threads', step threads threads' -> (remaining threads' < remaining threads)%nat).
Proof.
  intros Hr. pose proof (ok_reachable _ _ Hr) as Hok. split; [|split].
  - intros i j hi hj idsi idsj id Hi Hj Hri Hrj Hidi Hidj.
    pose proof (ok_progress _ _ Hok _ _ _ Hi Hri) as Hpi. pose proof (ok_progress _ _ Hok _ _ _ Hj Hrj) as Hpj.
    cbn in Hpi, Hpj. subst.
    eapply (ok_exclusive _ _ Hok _ _ _ _ (stripeOf id) Hi Hj); apply lockPlan_elem; eauto.
  - destruct (decide (Exists (fun t => t <> Finished) threads)) as [Hex|Hno].
    + right. apply Exists_exists in Hex as (t & Ht & Hu). apply list_elem_of_lookup in Ht as [i Hi].
      destruct t as [held [|s rest]|held|[|s held]|]; [| | | | |congruence].
      * eexists. eapply step_enter, Hi.
      * eapply waiting_progress; [exact Hok|reflexivity|exact Hi].
      * eexists. eapply step_leave, Hi.
      * eexists. eapply step_finish, Hi.
      * eexists. eapply step_unlock, Hi.
    + left. intros i t Hi. destruct (decide (t = Finished)) as [E|E]; [exact E|]. exfalso. apply Hno, Exists_exists.
      exists t. split; [eapply list_elem_of_lookup_2, Hi|exact E].
  - apply step_decreases.
Qed.

(** Two batches whose credential lists overlap in opposite orders. *)
Lemma striped_locking_safe_and_live_witness :
  let requests := [[70; 5; 6]; [6; 70]; [6]] in
  lockPlan [70; 5; 6] = [5; 6] /\ exists threads', step (init requests) threads'.
Proof.
  intros requests. split; [vm_compute; reflexivity|].
  destruct (striped_locking_safe_and_live requests (init requests) (rtc_refl _ _)) as (_ & [Hall|Hs] & _).
  - specialize (Hall 0%nat _ eq_refl). discriminate.
  - exact Hs.
Defined.
End Mutation.
