(* ===== verification/Scheduler.v ===== *)
(** * The scheduler

    [internal/scheduler]: evaluation of the configured route targets for a
    query, the candidate pools, the request iterator with its priority tiers and
    route-mode tiers, replay charging, and the read-only inspection.  The
    iterator is written against [CredentialSource], the interface the credential
    registry implements.  The clock is an argument of every operation that reads
    it; read-only configuration maps are association lists or functions. *)

From Stdlib Require Import ZArith Lia Bool String Ascii List Permutation.
From stdpp Require Import base gmap sets list strings sorting.
From coqutil Require Import Datatypes.RecordSettersUsingExistingGetters.
From S2P Require Import Prelude GoStrings Credential Ledger Fair Registry Execution.

Local Open Scope Z_scope.
Local Open Scope go_scope.

Module Scheduler.
Import Credential Ledger Fair Execution.

(** ** Channel targets *)

Inductive ResponsesStoreHandling := ResponsesStoreHandlingNone | ResponsesStoreHandlingUpstreamManaged
| ResponsesStoreHandlingStateless | ResponsesStoreHandlingOther (raw : string).

#[export] Instance ResponsesStoreHandling_eq_dec : EqDecision ResponsesStoreHandling.
Proof. solve_decision. Defined.

Record ResolvedTarget := mkResolved {
  rt_ResponsesWebsocket : WebsocketCapabilities;
  rt_ChannelID : string;
  TargetConfig : string;
  modes : Protocol -> Operation -> option RouteMode;
  responsesStoreHandlings : Protocol -> Operation -> ResponsesStoreHandling;
}.

Definition Mode (t : ResolvedTarget) (clientProtocol : Protocol) (operation : Operation)
    : option RouteMode := t.(modes) clientProtocol operation.

Definition ResponsesStoreHandlingOf (t : ResolvedTarget) (clientProtocol : Protocol)
    (operation : Operation) : ResponsesStoreHandling := t.(responsesStoreHandlings) clientProtocol operation.

Definition SupportsResponsesLifecycle (t : ResolvedTarget) : bool :=
  forallb (fun operation => bool_decide (Mode t OpenAIResponses operation = Some RouteNative))
    [OperationResponsesRetrieve; OperationResponsesDelete; OperationResponsesCancel;
     OperationResponsesInputItems].

(** ** Configuration *)

Record RouteTarget := mkRoute {
  route_GroupID : Z;
  UpstreamModelID : string;
  route_Mode : RouteMode;
  route_Resolved : ResolvedTarget;
}.

Definition ExecutionCandidateIndex :=
  list (Protocol * list (Operation * list (string * list RouteTarget))).

Definition NoModelRouteKey : string := "".

Fixpoint assoc {K V} `{EqDecision K} (k : K) (l : list (K * V)) : option V :=
  match l with
  | [] => None
  | (k', v) :: l => if decide (k' = k) then Some v else assoc k l
  end.

Record GroupView := mkGroup {
  gv_Priority : Z;
  gv_Models : list ModelConfig;
  ResponsesWebsocketEnabled : bool;
  gv_WeightManual : option Z;
}.

Definition zeroGroup : GroupView := mkGroup 0 [] false None.

Inductive RouteStrategy := RouteStrategyWeightedMix | RouteStrategyOther (raw : string).

Record Config := mkConfig {
  cfg_Revision : Z;
  cfg_RouteStrategy : RouteStrategy;
  ExecutionCandidates : ExecutionCandidateIndex;
  ExecutionRouteCatalog : ExecutionCandidateIndex;
  cfg_Groups : gmap Z GroupView;
  cfg_GroupCatalog : gmap Z GroupCatalogView;
}.

(** What the fairness ledger reads of a configuration. *)
Definition ledgerSnapshot (c : Config) : ConfigSnapshot :=
  mkSnapshot c.(cfg_Revision) c.(cfg_GroupCatalog) (gv_Models <$> c.(cfg_Groups)).

Inductive AccessKeyStatus := AccessKeyStatusActive | AccessKeyStatusDisabled
| AccessKeyStatusOther (raw : string).

#[export] Instance AccessKeyStatus_eq_dec : EqDecision AccessKeyStatus.
Proof. solve_decision. Defined.

Record FilterSet := mkFilters {
  filter_Groups : gset Z;
  filter_Protocols : list Protocol;
  filter_Models : gset string;
}.

Record AccessKeyView := mkAccessKey { ak_Status : AccessKeyStatus; Filters : FilterSet }.

Record Query := mkQuery {
  ClientProtocol : Protocol;
  q_Operation : Operation;
  q_RouteRequirement : RouteRequirement;
  q_ResponsesStorePreference : ResponsesStorePreference;
  ExternalModelOf : option string;
  AccessKey : AccessKeyView;
  AllowedCredentialIDs : option (gset Z);
  PreferredCredentialID : Z;
  AllowedCredentialRefs : option (gmap Z CredentialRef);
  q_ResponsesWebsocket : option WebsocketCapabilities;
}.

Definition normalizeOperation (query : Query) : Operation :=
  match query.(q_Operation) with
  | OperationOther ""%string =>
    match query.(ClientProtocol) with
    | OpenAIImages => OperationOther ""
    | OpenAIResponses =>
      match query.(ExternalModelOf) with
      | None => OperationResponsesRetrieve
      | Some _ => OperationResponsesCreate
      end
    | _ => OperationChatCompletion
    end
  | operation => operation
  end.

(** [normalizeQuery] changes the operation and the route requirement and copies the rest. *)
Definition normalizeQuery (query : Query) : Query :=
  query <| q_Operation := normalizeOperation query |>
        <| q_RouteRequirement := normalizeRequirement query.(q_RouteRequirement) |>.

Inductive ReasonCode :=
| ReasonNone | ReasonAccessKeyDisabled | ReasonAccessKeyExpired | ReasonProtocolFiltered
| ReasonModelFiltered | ReasonModelRequiredByFilter | ReasonOperationUnsupported
| ReasonNativeRouteRequired | ReasonNoRouteTarget | ReasonGroupDisabled | ReasonWebsocketDisabled
| ReasonGroupFiltered | ReasonNoAvailableGroup | ReasonNoCredentials | ReasonGroupWeightZero
| ReasonCredentialDisabled | ReasonCredentialAuthUnavailable | ReasonCredentialBlacklisted
| ReasonCredentialCooldown | ReasonModelCooldown | ReasonCredentialWeightZero
| ReasonCredentialNotAllowed | ReasonNoAvailableCredential.

#[export] Instance ReasonCode_eq_dec : EqDecision ReasonCode.
Proof. solve_decision. Defined.

(** ** Target evaluation *)

Record targetDecision := mkTargetDecision {
  td_target : RouteTarget;
  td_group : GroupCatalogView;
  requirementOK : bool;
  td_responsesStoreDowngraded : bool;
  included : bool;
  td_reason : ReasonCode;
}.

Inductive SchedulerError := ErrNilSnapshot | ErrMissingGroup (groupID : Z).

(** Satisfied, store-downgraded, reason. *)
Definition routeRequirementSatisfied (query : Query) (route : RouteTarget) : bool * bool * ReasonCode :=
  let native := bool_decide (route.(route_Mode) = RouteNative) in
  let handling := ResponsesStoreHandlingOf route.(route_Resolved) OpenAIResponses OperationResponsesCreate in
  let refused := (false, false, ReasonNativeRouteRequired) in
  let satisfied := (true, false, ReasonNone) in
  if negb (Allows query.(q_RouteRequirement) route.(route_Mode)) then refused
  else
    match query.(q_ResponsesWebsocket) with
    | Some required =>
      if bool_decide (query.(ClientProtocol) = OpenAIResponses) &&
         bool_decide (query.(q_Operation) = OperationResponsesCreate) && native &&
         Supports route.(route_Resolved).(rt_ResponsesWebsocket) required
      then satisfied else refused
    | None =>
      if negb (bool_decide (query.(q_Operation) = OperationResponsesCreate)) then satisfied
      else if bool_decide (query.(q_ResponsesStorePreference) = ResponsesStorePreferenceRequireStored)
      then if native && bool_decide (handling = ResponsesStoreHandlingUpstreamManaged)
           then satisfied else refused
      else if bool_decide (normalizeRequirement query.(q_RouteRequirement) = RouteRequirementNative)
      then if SupportsResponsesLifecycle route.(route_Resolved) then satisfied else refused
      else if negb (bool_decide (query.(q_ResponsesStorePreference) = ResponsesStorePreferencePreferStored))
      then satisfied
      else match handling with
           | ResponsesStoreHandlingUpstreamManaged => satisfied
           | ResponsesStoreHandlingStateless => (true, true, ReasonNone)
           | _ => (false, false, ReasonOperationUnsupported)
           end
    end.

(** [len(filter) > 0] and the group is not in it. *)
Definition groupFiltered (query : Query) (groupID : Z) : bool :=
  let groups := query.(AccessKey).(Filters).(filter_Groups) in
  negb (bool_decide (groups = ∅)) && negb (bool_decide (groupID ∈ groups)).

Definition websocketEnabled (snapshot : Config) (groupID : Z) : bool :=
  (default zeroGroup (snapshot.(cfg_Groups) !! groupID)).(ResponsesWebsocketEnabled).

Definition evaluateRoute (snapshot : Config) (query : Query) (group : GroupCatalogView)
    (route : RouteTarget) : targetDecision :=
  let '(requirementOK, storeDowngraded, requirementReason) := routeRequirementSatisfied query route in
  let exclude reason := mkTargetDecision route group requirementOK storeDowngraded false reason in
  if negb requirementOK then exclude requirementReason
  else if negb group.(catalog_Enabled) then exclude ReasonGroupDisabled
  else if groupFiltered query route.(route_GroupID) then exclude ReasonGroupFiltered
  else if match query.(q_ResponsesWebsocket) with
          | Some _ => negb (websocketEnabled snapshot route.(route_GroupID))
          | None => false
          end
  then exclude ReasonWebsocketDisabled
  else mkTargetDecision route group requirementOK storeDowngraded true ReasonNone.

Fixpoint evaluateRoutes (snapshot : Config) (query : Query) (routes : list RouteTarget)
    : result SchedulerError (list targetDecision) :=
  match routes with
  | [] => Ok []
  | route :: routes =>
    match snapshot.(cfg_GroupCatalog) !! route.(route_GroupID) with
    | None => Err (ErrMissingGroup route.(route_GroupID))
    | Some group =>
      let? decisions := evaluateRoutes snapshot query routes in
      Ok (evaluateRoute snapshot query group route :: decisions)
    end
  end.

(** The reason reported when no decision is included: the common one, if any. *)
Definition staticReasonOf (decisions : list targetDecision) : ReasonCode :=
  if existsb included decisions then ReasonNone
  else match decisions with
       | [] => ReasonNone
       | first :: rest =>
         if forallb (fun d => bool_decide (d.(td_reason) = first.(td_reason))) rest
         then first.(td_reason) else ReasonNoAvailableGroup
       end.

Definition evaluateTargets (snapshot : option Config) (index : Config -> ExecutionCandidateIndex)
    (query : Query) : result SchedulerError (list targetDecision * ReasonCode) :=
  match snapshot with
  | None => Err ErrNilSnapshot
  | Some snapshot =>
    let filters := query.(AccessKey).(Filters) in
    let modelKey := default NoModelRouteKey query.(ExternalModelOf) in
    if bool_decide (query.(AccessKey).(ak_Status) = AccessKeyStatusDisabled)
    then Ok ([], ReasonAccessKeyDisabled)
    else if negb (bool_decide (filters.(filter_Protocols) = [])) &&
            negb (bool_decide (query.(ClientProtocol) ∈ filters.(filter_Protocols)))
    then Ok ([], ReasonProtocolFiltered)
    else if negb (bool_decide (filters.(filter_Models) = ∅)) &&
            bool_decide (query.(ExternalModelOf) = None)
    then Ok ([], ReasonModelRequiredByFilter)
    else if negb (bool_decide (filters.(filter_Models) = ∅)) &&
            negb (bool_decide (modelKey ∈ filters.(filter_Models)))
    then Ok ([], ReasonModelFiltered)
    else if negb (protocolValid query.(ClientProtocol)) || negb (operationValid query.(q_Operation)) ||
            negb (requirementValid query.(q_RouteRequirement)) ||
            negb (storePreferenceValid query.(q_ResponsesStorePreference))
    then Ok ([], ReasonOperationUnsupported)
    else
      let byOperation := default [] (assoc query.(ClientProtocol) (index snapshot)) in
      match byOperation with
      | [] => Ok ([], ReasonNoRouteTarget)
      | _ =>
        match assoc query.(q_Operation) byOperation with
        | None => Ok ([], ReasonOperationUnsupported)
        | Some byModel =>
          match default [] (assoc modelKey byModel) with
          | [] => Ok ([], ReasonNoRouteTarget)
          | routes =>
            let? decisions := evaluateRoutes snapshot query routes in
            Ok (decisions, staticReasonOf decisions)
          end
        end
      end
  end.

(** ** Candidate pools *)

Record candidateTarget := mkCandidate {
  target : RouteTarget;
  group : GroupView;
  responsesStoreDowngraded : bool;
}.

Record candidatePool := mkPool {
  targetsByGroup : gmap Z (list candidateTarget);
  groupIDsByMode : list (RouteMode * list Z);
  priorityLimit : option Z;
  lowerPriority : bool;
}.

Definition newCandidatePool : candidatePool := mkPool ∅ [] None false.

(** The credential source: its ledger, and the available credentials of some
    groups.  [WithCredentialCandidates] runs its callback under the registry's
    read lock, so one operation sees one state of the source. *)
Class CredentialSource (R : Type) := {
  SchedulingState : R -> SchedulingLedger;
  withScheduling : R -> SchedulingLedger -> R;
  credentialCandidates : R -> list Z -> (Z -> bool) -> Z -> list CredentialMeta;
  sourceViews : R -> list CredentialRuntimeView;
}.

#[export] Instance registrySource : CredentialSource Registry.CredentialRegistry := {
  SchedulingState := Registry.scheduling;
  withScheduling r d := r <| Registry.scheduling := d |>;
  credentialCandidates := Registry.collectCredentialCandidatesLocked;
  sourceViews := Registry.Snapshot;
}.

Record Iterator := mkIterator {
  it_snapshot : option Config;
  it_query : Query;
  it_operation : Operation;
  regular : candidatePool;
  storeDowngraded : candidatePool;
  routeModeTiers : list (list RouteMode);
  it_allowedCredentialIDs : option (gset Z);
  it_preferredCredentialID : Z;
  tried : gset Z;
  skippedGroups : gset Z;
  it_allowedCredentialRefs : option (gmap Z (Z * Z));
  staticReason : ReasonCode;
}.

Record Selection := mkSelection {
  CredentialID : Z;
  sel_GroupID : Z;
  sel_ChannelID : string;
  sel_ResolvedTarget : ResolvedTarget;
  sel_RouteMode : RouteMode;
  sel_UpstreamModelID : option string;
  sel_Group : GroupView;
  sel_ResponsesStoreDowngraded : bool;
}.

(** Identity of a captured credential: group and identity generation. *)
Definition cloneCredentialIdentities (refs : option (gmap Z CredentialRef)) : option (gmap Z (Z * Z)) :=
  match refs with
  | None => None
  | Some refs => Some ((fun ref => (ref.(ref_GroupID), ref.(ref_IdentityGeneration))) <$> refs)
  end.

Definition toCandidate (snapshot : Config) (d : targetDecision) : option candidateTarget :=
  if negb d.(included) then None
  else match snapshot.(cfg_Groups) !! d.(td_target).(route_GroupID) with
       | None => None
       | Some group => Some (mkCandidate d.(td_target) group d.(td_responsesStoreDowngraded))
       end.

Definition filterTargetsWithReason (snapshot : option Config) (query : Query)
    : list candidateTarget * ReasonCode :=
  match snapshot with
  | None => ([], ReasonNone)
  | Some config =>
    match evaluateTargets snapshot ExecutionCandidates (normalizeQuery query) with
    | Err _ => ([], ReasonNone)
    | Ok (decisions, staticReason) => (omap (toCandidate config) decisions, staticReason)
    end
  end.

(** First occurrences only. *)
Fixpoint distinct (seen : gset Z) (l : list Z) : list Z :=
  match l with
  | [] => []
  | x :: l => if decide (x ∈ seen) then distinct seen l else x :: distinct ({[x]} ∪ seen) l
  end.

Definition CandidateGroupIDsForQuery (snapshot : option Config) (query : Query) : list Z :=
  match evaluateTargets snapshot ExecutionCandidates (normalizeQuery query) with
  | Err _ => []
  | Ok (decisions, _) =>
    distinct ∅ (map (fun d => d.(td_target).(route_GroupID)) (List.filter included decisions))
  end.

Fixpoint addGroupMode (mode : RouteMode) (groupID : Z) (l : list (RouteMode * list Z))
    : list (RouteMode * list Z) :=
  match l with
  | [] => [(mode, [groupID])]
  | (m, ids) :: l =>
    if decide (m = mode)
    then (m, if decide (groupID ∈ ids) then ids else ids ++ [groupID]) :: l
    else (m, ids) :: addGroupMode mode groupID l
  end.

Definition addTarget (pool : candidatePool) (t : candidateTarget) : candidatePool :=
  let groupID := t.(target).(route_GroupID) in
  pool <| targetsByGroup := <[groupID := default [] (pool.(targetsByGroup) !! groupID) ++ [t]]>
                              pool.(targetsByGroup) |>
       <| groupIDsByMode := addGroupMode t.(target).(route_Mode) groupID pool.(groupIDsByMode) |>.

(** Order of [slices.SortFunc] by upstream model.  Equal models keep their order,
    which the unstable source sort does not promise. *)
Definition target_le (a b : candidateTarget) : Prop :=
  string_le a.(target).(UpstreamModelID) b.(target).(UpstreamModelID).
#[export] Instance target_le_dec a b : Decision (target_le a b).
Proof. unfold target_le, string_le. apply _. Defined.

Definition sortPool (pool : candidatePool) : candidatePool :=
  pool <| targetsByGroup := merge_sort target_le <$> pool.(targetsByGroup) |>.

Definition buildPool (targets : list candidateTarget) : candidatePool :=
  sortPool (foldl addTarget newCandidatePool targets).

(** [newWithClock]: the iterator, and the source whose ledger has been told about
    the configuration. *)
Definition newIterator (snapshot : option Config) (query : Query) : Iterator :=
  let '(targets, reason) := filterTargetsWithReason snapshot query in
  let tiers :=
    match snapshot with
    | Some {| cfg_RouteStrategy := RouteStrategyWeightedMix |} => [[RouteNative; RouteConverted]]
    | _ => [[RouteNative]; [RouteConverted]]
    end in
  mkIterator snapshot query (normalizeOperation query)
    (buildPool (List.filter (fun t => negb t.(responsesStoreDowngraded)) targets))
    (buildPool (List.filter responsesStoreDowngraded targets))
    tiers query.(AllowedCredentialIDs) query.(PreferredCredentialID) ∅ ∅
    (cloneCredentialIdentities query.(AllowedCredentialRefs)) reason.

Definition New {R} `{CredentialSource R} (source : R) (snapshot : option Config) (query : Query)
    : R * Iterator :=
  (withScheduling source (SyncGroups (SchedulingState source) (ledgerSnapshot <$> snapshot)),
   newIterator snapshot query).

Definition SkipGroup (it : Iterator) (groupID : Z) : Iterator :=
  if groupID =? 0 then it else it <| skippedGroups := {[groupID]} ∪ it.(skippedGroups) |>.

Definition lowerPool (priority : Z) (pool : candidatePool) : candidatePool :=
  pool <| priorityLimit := Some priority |> <| lowerPriority := true |>.

Definition AdvancePriority (it : Iterator) (selection : Selection) : Iterator :=
  let priority := selection.(sel_Group).(gv_Priority) in
  if selection.(sel_ResponsesStoreDowngraded)
  then it <| storeDowngraded := lowerPool priority it.(storeDowngraded) |>
  else it <| regular := lowerPool priority it.(regular) |>.

(** ** Selection *)

Definition modelCooldownUntil (limits : gmap string Z) (model : string) (operation : Operation) (now : Z)
    : Z :=
  let limit := default 0 (limits !! model) in
  if negb (UsesModelCooldown operation) || bool_decide (model = ""%string) || negb (limit >? now) then 0
  else limit.

Definition targetAvailable (it : Iterator) (t : candidateTarget) (credential : CredentialMeta)
    (modes : list RouteMode) (now : Z) : bool :=
  bool_decide (t.(target).(route_Mode) ∈ modes) &&
  negb (modelCooldownUntil credential.(meta_ModelCooldowns) t.(target).(UpstreamModelID)
          it.(it_operation) now >? now).

(** The guards of [withWeightedPool] on one credential. *)
Definition credentialAllowed (it : Iterator) (credential : CredentialMeta) : bool :=
  match it.(it_allowedCredentialIDs) with
  | Some ids => bool_decide (credential.(meta_ID) ∈ ids)
  | None => true
  end &&
  match it.(it_allowedCredentialRefs) with
  | Some refs =>
    bool_decide (refs !! credential.(meta_ID) =
                 Some (credential.(meta_GroupID), credential.(meta_IdentityGeneration)))
  | None => true
  end &&
  negb (bool_decide (credential.(meta_GroupID) ∈ it.(skippedGroups))).

Definition targetsOf (pool : candidatePool) (groupID : Z) : list candidateTarget :=
  default [] (pool.(targetsByGroup) !! groupID).

Definition weighCredential (it : Iterator) (pool : candidatePool) (modes : list RouteMode) (now : Z)
    (credential : CredentialMeta) : option weightedCredential :=
  if negb (credentialAllowed it credential) then None
  else match find (fun t => targetAvailable it t credential modes now)
               (targetsOf pool credential.(meta_GroupID)) with
       | None => None
       | Some t =>
         let weight := effectiveWeight t.(group).(gv_WeightManual) credential.(meta_WeightManual) in
         if weight >? 0 then Some (mkWeighted credential weight) else None
       end.

Definition poolGroups (pool : candidatePool) (modes : list RouteMode) : list Z :=
  distinct ∅ (concat (map (fun mode => default [] (assoc mode pool.(groupIDsByMode))) modes)).

Definition withWeightedPool {R} `{CredentialSource R} (source : R) (it : Iterator) (pool : candidatePool)
    (modes : list RouteMode) (now : Z) : list weightedCredential :=
  omap (weighCredential it pool modes now)
    (credentialCandidates source (poolGroups pool modes) (fun id => bool_decide (id ∈ it.(tried))) now).

Definition priorityOf (it : Iterator) (candidate : weightedCredential) : Z :=
  match it.(it_snapshot) with
  | Some snapshot =>
    (default zeroGroup (snapshot.(cfg_Groups) !! candidate.(meta).(meta_GroupID))).(gv_Priority)
  | None => 0
  end.

(** The scan of [priorityCandidates]: the best priority within the limit and the
    best one strictly below it. *)
Definition scanPriority (it : Iterator) (pool : candidatePool) (acc : option Z * option Z)
    (candidate : weightedCredential) : option Z * option Z :=
  let '(best, lower) := acc in
  let value := priorityOf it candidate in
  let above current := match current with Some p => value >? p | None => true end in
  if match pool.(priorityLimit) with Some limit => value >? limit | None => false end then acc
  else
    (if above best then Some value else best,
     if pool.(lowerPriority) && match pool.(priorityLimit) with Some limit => value <? limit | None => false end
        && above lower
     then Some value else lower).

Definition priorityCandidates (it : Iterator) (pool : candidatePool) (candidates : list weightedCredential)
    : list weightedCredential :=
  match foldl (scanPriority it pool) (None, None) candidates with
  | (None, _) => []
  | (Some priority, lower) =>
    List.filter (fun c => priorityOf it c =? default priority lower) candidates
  end.

(** [selectTarget]; [None] is the out-of-range access [models[0]]. *)
Definition selectTarget (d : SchedulingLedger) (it : Iterator) (pool : candidatePool)
    (modes : list RouteMode) (credential : CredentialMeta) (now : Z)
    : SchedulingLedger * option candidateTarget :=
  let targets := targetsOf pool credential.(meta_GroupID) in
  let models := map (fun t => t.(target).(UpstreamModelID))
                  (List.filter (fun t => targetAvailable it t credential modes now) targets) in
  match models with
  | [] => (d, None)
  | first :: _ =>
    let '(d, model) :=
      match it.(it_query).(ExternalModelOf) with
      | Some external => SelectModel d credential.(meta_GroupID) external models
      | None => (d, first)
      end in
    match find (fun t => bool_decide (t.(target).(UpstreamModelID) = model)) targets with
    | Some t => (d, Some t)
    | None => (d, head targets)
    end
  end.

Inductive outcome := Exhausted | Panicked | Selected (credential : CredentialMeta) (t : candidateTarget).

(** The callback of [Next] on one pool: route-mode tiers in order. *)
Fixpoint selectTiers (d : SchedulingLedger) (it : Iterator) (pool : candidatePool)
    (weighted : list weightedCredential) (now : Z) (tiers : list (list RouteMode))
    : SchedulingLedger * outcome :=
  match tiers with
  | [] => (d, Exhausted)
  | modes :: tiers =>
    let eligible :=
      List.filter (fun c => existsb (fun t => targetAvailable it t c.(meta) modes now)
                              (targetsOf pool c.(meta).(meta_GroupID))) weighted in
    match selectCredential (cfg_Revision <$> it.(it_snapshot)) d eligible it.(it_preferredCredentialID) with
    | (d, None) => selectTiers d it pool weighted now tiers
    | (d, Some selected) =>
      match selectTarget d it pool modes selected now with
      | (d, Some t) => (d, Selected selected t)
      | (d, None) => (d, Panicked)
      end
    end
  end.

Definition allModes : list RouteMode := [RouteNative; RouteConverted].

Definition selectPool {R} `{CredentialSource R} (source : R) (it : Iterator) (pool : candidatePool) (now : Z)
    : R * outcome :=
  let weighted := priorityCandidates it pool (withWeightedPool source it pool allModes now) in
  let '(d, result) := selectTiers (SchedulingState source) it pool weighted now it.(routeModeTiers) in
  (withScheduling source d, result).

Definition optionalModel (value : string) : option string :=
  if bool_decide (value = ""%string) then None else Some value.

Definition newSelection (credential : CredentialMeta) (t : candidateTarget) : Selection :=
  mkSelection credential.(meta_ID) credential.(meta_GroupID)
    t.(target).(route_Resolved).(rt_ChannelID) t.(target).(route_Resolved) t.(target).(route_Mode)
    (optionalModel t.(target).(UpstreamModelID)) t.(group) t.(responsesStoreDowngraded).

Definition settlePool (t : candidateTarget) (pool : candidatePool) : candidatePool :=
  match pool.(priorityLimit) with
  | None => pool
  | Some _ => pool <| priorityLimit := Some t.(group).(gv_Priority) |> <| lowerPriority := false |>
  end.

(** [Next] reads the clock once for each pool it visits. *)
Definition Next {R} `{CredentialSource R} (source : R) (it : Iterator) (now now' : Z)
    : R * Iterator * outcome :=
  match selectPool source it it.(regular) now with
  | (source, Selected c t) =>
    (source, it <| tried := {[c.(meta_ID)]} ∪ it.(tried) |> <| regular := settlePool t it.(regular) |>,
     Selected c t)
  | (source, Panicked) => (source, it, Panicked)
  | (source, Exhausted) =>
    match selectPool source it it.(storeDowngraded) now' with
    | (source, Selected c t) =>
      (source, it <| tried := {[c.(meta_ID)]} ∪ it.(tried) |>
                  <| storeDowngraded := settlePool t it.(storeDowngraded) |>, Selected c t)
    | (source, result) => (source, it, result)
    end
  end.

(** [ChargeReplay]: another allocation for the same credential. *)
Definition replayStep (it : Iterator) (selection : Selection) (ref : CredentialRef) (now : Z)
    (acc : SchedulingLedger * bool) (m : CredentialMeta) : SchedulingLedger * bool :=
  let '(d, charged) := acc in
  if negb (m.(meta_ID) =? ref.(ref_ID)) ||
     negb (m.(meta_IdentityGeneration) =? ref.(ref_IdentityGeneration)) then acc
  else if match selection.(sel_UpstreamModelID) with
          | Some model => modelCooldownUntil m.(meta_ModelCooldowns) model it.(it_operation) now >? now
          | None => false
          end then acc
  else
    let weight := effectiveWeight selection.(sel_Group).(gv_WeightManual) m.(meta_WeightManual) in
    if weight >? 0
    then match selectCredential (cfg_Revision <$> it.(it_snapshot)) d [mkWeighted m weight] ref.(ref_ID) with
         | (d, Some _) => (d, true)
         | (d, None) => (d, false)
         end
    else acc.

Definition ChargeReplay {R} `{CredentialSource R} (source : R) (it : Iterator) (selection : Selection)
    (ref : CredentialRef) (now : Z) : R * bool :=
  if negb (ref.(ref_ID) =? selection.(CredentialID)) || negb (ref.(ref_GroupID) =? selection.(sel_GroupID))
  then (source, false)
  else
    let metas := credentialCandidates source [ref.(ref_GroupID)] (fun _ => false) now in
    let '(d, charged) := foldl (replayStep it selection ref now) (SchedulingState source, false) metas in
    (withScheduling source d, charged).

(** ** Inspection *)

Record CredentialInspection := mkCredentialInspection {
  ci_CredentialID : Z;
  Available : bool;
  ci_Reason : ReasonCode;
  ci_WeightManual : option Z;
  EffectiveWeight : Z;
  ci_CooldownUntil : Z;
}.

Record GroupInspection := mkGroupInspection {
  gi_Priority : Z;
  gi_GroupID : Z;
  GroupName : string;
  gi_ChannelID : string;
  gi_RouteMode : RouteMode;
  RouteRequirementSatisfied : bool;
  gi_UpstreamModelID : option string;
  gi_WeightManual : option Z;
  Included : bool;
  gi_Routable : bool;
  gi_Reason : ReasonCode;
  gi_Credentials : list CredentialInspection;
}.

Record Inspection := mkInspection {
  in_ClientProtocol : Protocol;
  in_Operation : Operation;
  in_RouteRequirement : RouteRequirement;
  in_ExternalModel : option string;
  Routable : bool;
  in_Reason : ReasonCode;
  in_Groups : list GroupInspection;
}.

Definition weightZero (weight : option Z) : bool :=
  match weight with Some w => w =? 0 | None => false end.

Definition inspectCredential (group : GroupCatalogView) (credential : CredentialRuntimeView)
    (allowedCredentialIDs : option (gset Z)) (now : Z) (model : string) (operation : Operation)
    : CredentialInspection :=
  let result available reason weight until :=
    mkCredentialInspection credential.(view_ID) available reason credential.(view_WeightManual) weight until in
  let refused reason := result false reason 0 0 in
  let modelUntil := modelCooldownUntil credential.(view_ModelCooldowns) model operation now in
  if weightZero group.(catalog_WeightManual) then refused ReasonGroupWeightZero
  else if match allowedCredentialIDs with
          | Some ids => negb (bool_decide (credential.(view_ID) ∈ ids))
          | None => false
          end then refused ReasonCredentialNotAllowed
  else if bool_decide (credential.(view_Status) <> CredentialStatusActive) then refused ReasonCredentialDisabled
  else if negb (AuthReady credential) then refused ReasonCredentialAuthUnavailable
  else if weightZero credential.(view_WeightManual) then refused ReasonCredentialWeightZero
  else match RuntimeState credential now with
       | CredentialRuntimeBlacklisted => refused ReasonCredentialBlacklisted
       | CredentialRuntimeCooldown =>
         result false ReasonCredentialCooldown 0 (Z.max credential.(view_CooldownUntil) modelUntil)
       | CredentialRuntimeAvailable | CredentialRuntimeDisabled =>
         if modelUntil >? now then result false ReasonModelCooldown 0 modelUntil
         else result true ReasonNone
                (effectiveWeight group.(catalog_WeightManual) credential.(view_WeightManual)) 0
       end.

(** Credentials of a group in ascending id order. *)
Definition view_id_le (a b : CredentialRuntimeView) : Prop := a.(view_ID) <= b.(view_ID).
#[export] Instance view_id_le_dec a b : Decision (view_id_le a b).
Proof. unfold view_id_le. apply _. Defined.

Definition credentialsOfGroup (credentials : list CredentialRuntimeView) (groupID : Z)
    : list CredentialRuntimeView :=
  merge_sort view_id_le (List.filter (fun c => c.(view_GroupID) =? groupID) credentials).

Definition inspectGroup (credentials : list CredentialRuntimeView) (query : Query) (now : Z)
    (d : targetDecision) : GroupInspection :=
  let result routable reason inspected :=
    mkGroupInspection d.(td_group).(catalog_Priority) d.(td_group).(catalog_ID) d.(td_group).(catalog_Name)
      d.(td_target).(route_Resolved).(rt_ChannelID) d.(td_target).(route_Mode) d.(requirementOK)
      (optionalModel d.(td_target).(UpstreamModelID)) d.(td_group).(catalog_WeightManual)
      d.(included) routable reason inspected in
  if negb d.(included) then result false d.(td_reason) []
  else
    let groupCredentials := credentialsOfGroup credentials d.(td_group).(catalog_ID) in
    let inspected :=
      map (fun c => inspectCredential d.(td_group) c query.(AllowedCredentialIDs) now
                      d.(td_target).(UpstreamModelID) query.(q_Operation)) groupCredentials in
    let routable := existsb (fun c => c.(Available) && (c.(EffectiveWeight) >? 0)) inspected in
    let reason :=
      if weightZero d.(td_group).(catalog_WeightManual) then ReasonGroupWeightZero
      else match groupCredentials with
           | [] => ReasonNoCredentials
           | _ => if negb routable then ReasonNoAvailableCredential else d.(td_reason)
           end in
    result routable reason inspected.

Definition Inspect (snapshot : option Config) (credentials : list CredentialRuntimeView) (query : Query)
    (now : Z) : result SchedulerError Inspection :=
  let normalized := normalizeQuery query in
  let report routable reason groups :=
    mkInspection normalized.(ClientProtocol) normalized.(q_Operation) normalized.(q_RouteRequirement)
      normalized.(ExternalModelOf) routable reason groups in
  match snapshot with
  | None => Err ErrNilSnapshot
  | Some config =>
    if bool_decide (normalized.(AccessKey).(ak_Status) = AccessKeyStatusDisabled)
    then Ok (report false ReasonAccessKeyDisabled [])
    else
      match find (fun c => bool_decide (config.(cfg_GroupCatalog) !! c.(view_GroupID) = None)) credentials with
      | Some orphan => Err (ErrMissingGroup orphan.(view_GroupID))
      | None =>
        let? evaluated := evaluateTargets snapshot ExecutionRouteCatalog normalized in
        let '(decisions, staticReason) := evaluated in
        let groups := map (inspectGroup credentials normalized now) decisions in
        let routable := existsb gi_Routable groups in
        Ok (report routable
              (if routable then ReasonNone
               else if bool_decide (staticReason = ReasonNone) then ReasonNoAvailableCredential
               else staticReason) groups)
      end
  end.

(** The earliest cooldown that explains an exhausted iterator; 0 when none does. *)
Definition earlier (earliest : Z) (c : CredentialInspection) : Z :=
  if negb (bool_decide (c.(ci_Reason) = ReasonCredentialCooldown)) &&
     negb (bool_decide (c.(ci_Reason) = ReasonModelCooldown)) then earliest
  else if (earliest =? 0) || (c.(ci_CooldownUntil) <? earliest) then c.(ci_CooldownUntil) else earliest.

Definition CooldownUntil {R} `{CredentialSource R} (source : R) (it : Iterator) (now : Z) : option Z :=
  match Inspect it.(it_snapshot) (sourceViews source) it.(it_query) now with
  | Err _ => None
  | Ok inspection =>
    if inspection.(Routable) then None
    else
      let earliest :=
        foldl earlier 0 (concat (map gi_Credentials (List.filter Included inspection.(in_Groups)))) in
      if earliest =? 0 then None else Some earliest
  end.

End Scheduler.
