(* ===== verification/SchedulerProps.v ===== *)
(** * Properties of the scheduler

    The contract a credential source offers the scheduler ([SourceLaws], which
    the credential registry satisfies), and what every selection of an iterator
    guarantees: admissibility, priority order, no credential tried twice, and a
    selection whenever an admissible credential exists. *)

From Stdlib Require Import ZArith Lia Bool String Ascii List Permutation.
From stdpp Require Import base gmap sets list strings sorting.
From coqutil Require Import Datatypes.RecordSettersUsingExistingGetters.
From S2P Require Import Prelude GoStrings Credential Ledger Fair Fairness Registry.
From S2P Require Import RegistryFacts RegistryProps Execution Scheduler.

Local Open Scope Z_scope.
Local Open Scope go_scope.

Module SchedulerProps.
Import Credential Ledger Fair Execution Scheduler.

(** ** The interface of a credential source *)

Class SourceLaws (R : Type) `{CredentialSource R} := {
  source_ok : R -> Prop;
  source_tracked : R -> Prop;
  source_progress : forall r d, SchedulingState (withScheduling r d) = d;
  source_stable : forall r d gs ex now,
    credentialCandidates (withScheduling r d) gs ex now = credentialCandidates r gs ex now;
  source_ok_with : forall r d, source_ok r -> source_ok (withScheduling r d);
  source_sound : forall r gs ex now m, source_ok r -> In m (credentialCandidates r gs ex now) ->
    In m.(meta_GroupID) gs /\ ex m.(meta_ID) = false;
  source_local : forall r gs gs' ex now m, source_ok r -> In m (credentialCandidates r gs ex now) ->
    In m.(meta_GroupID) gs' -> In m (credentialCandidates r gs' ex now);
  source_weights : forall r gs ex now m, source_ok r -> In m (credentialCandidates r gs ex now) ->
    manualWeightInvalid m.(meta_WeightManual) = false;
  source_accounted : forall r gs ex now m w, source_tracked r -> In m (credentialCandidates r gs ex now) ->
    accounted (SchedulingState r) (mkWeighted m w) = true;
}.

(** ** Elementary facts *)

Lemma find_Some_In {A} (f : A -> bool) l x : List.find f l = Some x -> In x l /\ f x = true.
Proof. apply find_some. Qed.

Lemma omap_In {A B} (f : A -> option B) l y : In y (omap f l) <-> exists x, In x l /\ f x = Some y.
Proof.
  rewrite <- list_elem_of_In, list_elem_of_omap. split; intros (x & Hx & E); exists x;
    (split; [apply list_elem_of_In in Hx || apply list_elem_of_In; exact Hx|exact E]).
Qed.

Lemma selectCredential_in rev d cs pref d' m :
  selectCredential rev d cs pref = (d', Some m) -> exists w, In (mkWeighted m w) cs.
Proof.
  unfold selectCredential. destruct (eligible (collectEligible d cs)) as [|f r] eqn:E; [discriminate|].
  case_if; [discriminate|]. destruct (charge _ _); [|discriminate]. intros [= _ <-].
  assert (Hin : forall x, In x (f :: r) -> exists w, In (mkWeighted x.(meta) w) cs).
  { intros x Hx. rewrite <- E in Hx. apply eligible_incl in Hx. exists x.(weight). destruct x. exact Hx. }
  apply Hin, pick_in.
Qed.

Lemma BinarySearch_in l x : BinarySearch l x = true -> In x l.
Proof.
  unfold BinarySearch. destruct (l !! _) eqn:E; [|discriminate]. intros ->%String.eqb_eq.
  apply list_elem_of_In. eapply list_elem_of_lookup_2, E.
Qed.

Lemma SelectModel_in d g e models : models <> [] -> In (snd (SelectModel d g e models)) models.
Proof.
  intros Hne. pose proof (SelectModel_cases d g e models Hne) as Hc.
  destruct (SelectModel d g e models) as [d' m]. destruct Hc as [(_ & _ & _ & _ & Hb & _)|(_ & Hin & _)];
    [apply BinarySearch_in, Hb|exact Hin].
Qed.

Lemma distinct_In l : forall seen x, In x (distinct seen l) <-> In x l /\ x ∉ seen.
Proof.
  induction l as [|a l IH]; intros seen x; simpl; [tauto|].
  destruct (decide (a ∈ seen)) as [Ha|Ha].
  - rewrite IH. split; [tauto|]. intros [[->|Hx] Hn]; [contradiction|tauto].
  - simpl. rewrite IH, not_elem_of_union, not_elem_of_singleton. split.
    + intros [->|[H1 [H2 H3]]]; tauto.
    + intros [[->|Hx] Hn]; [tauto|]. destruct (decide (x = a)) as [->|]; tauto.
Qed.

(** ** Targets of a pool *)

(** Every target of the pool is stored under its group. *)
Definition pool_ok (targets : list candidateTarget) (pool : candidatePool) : Prop :=
  (forall g t, In t (targetsOf pool g) <-> In t targets /\ t.(target).(route_GroupID) = g) /\
  (forall t, In t targets -> In t.(target).(route_GroupID)
     (default [] (assoc t.(target).(route_Mode) pool.(groupIDsByMode)))).

Lemma assoc_addGroupMode mode g l m :
  (forall x, In x (default [] (assoc m l)) -> In x (default [] (assoc m (addGroupMode mode g l)))) /\
  In g (default [] (assoc mode (addGroupMode mode g l))).
Proof.
  induction l as [|[m' ids] l [IH1 IH2]]; simpl.
  - split; [intros x []|]. destruct (decide (mode = mode)); [left; reflexivity|congruence].
  - destruct (decide (m' = mode)) as [->|Hn]; simpl; split.
    + intros x. destruct (decide (mode = m)); [|auto]. simpl.
      destruct (decide (g ∈ ids)); [auto|]. intros Hx. apply in_or_app. left. exact Hx.
    + destruct (decide (mode = mode)); [|congruence]. simpl.
      destruct (decide (g ∈ ids)) as [Hg|Hg]; [apply list_elem_of_In, Hg|].
      apply in_or_app. right. left. reflexivity.
    + intros x. destruct (decide (m' = m)); [auto|apply IH1].
    + destruct (decide (m' = mode)); [congruence|exact IH2].
Qed.

Lemma addTarget_ok targets pool t : pool_ok targets pool -> pool_ok (targets ++ [t]) (addTarget pool t).
Proof.
  intros [H1 H2]. split.
  - intros g x. unfold addTarget, targetsOf. cbn [targetsByGroup set const].
    specialize (H1 g x). unfold targetsOf in H1.
    destruct (Z.eq_dec (route_GroupID (target t)) g) as [<-|Hn].
    + rewrite lookup_insert_eq. cbn. rewrite !in_app_iff, H1. simpl. intuition congruence.
    + rewrite lookup_insert_ne by exact Hn. rewrite H1, in_app_iff. simpl. intuition congruence.
  - intros x Hx. unfold addTarget. cbn [groupIDsByMode set const].
    destruct (assoc_addGroupMode (route_Mode (target t)) (route_GroupID (target t))
      (groupIDsByMode pool) (route_Mode (target x))) as [Hk Hg].
    apply in_app_iff in Hx as [Hx|[<-|[]]]; [apply Hk, H2, Hx|exact Hg].
Qed.

Lemma sortPool_ok targets pool : pool_ok targets pool -> pool_ok targets (sortPool pool).
Proof.
  intros [H1 H2]. split; [|exact H2]. intros g x. rewrite <- H1. unfold targetsOf, sortPool.
  cbn [targetsByGroup set const]. rewrite lookup_fmap.
  destruct (targetsByGroup pool !! g) as [l|]; cbn; [|tauto].
  rewrite <- !list_elem_of_In, (merge_sort_Permutation target_le l). tauto.
Qed.

Lemma buildPool_ok targets : pool_ok targets (buildPool targets).
Proof.
  apply sortPool_ok. assert (Hgen : forall l done pool, pool_ok done pool ->
    pool_ok (done ++ l) (foldl addTarget pool l)).
  { induction l as [|t l IH]; intros done pool Hp; simpl; [rewrite app_nil_r; exact Hp|].
    replace (done ++ t :: l) with ((done ++ [t]) ++ l) by (rewrite <- app_assoc; reflexivity).
    apply IH, addTarget_ok, Hp. }
  apply (Hgen targets [] newCandidatePool). split; [|intros t []].
  intros g t. unfold targetsOf. cbn. rewrite lookup_empty. simpl. tauto.
Qed.

(** ** One selection *)

Definition upstream (t : candidateTarget) : string := t.(target).(UpstreamModelID).

(** A target of the credential's group whose upstream model is available in one
    of the given modes. *)
Definition servable (it : Iterator) (pool : candidatePool) (modes : list RouteMode) (c : CredentialMeta)
    (now : Z) (t : candidateTarget) : Prop :=
  In t (targetsOf pool c.(meta_GroupID)) /\
  exists t0, In t0 (targetsOf pool c.(meta_GroupID)) /\ targetAvailable it t0 c modes now = true /\
    upstream t = upstream t0.

Lemma selectTarget_spec d it pool modes c now t0 : In t0 (targetsOf pool c.(meta_GroupID)) ->
  targetAvailable it t0 c modes now = true ->
  exists d' t, selectTarget d it pool modes c now = (d', Some t) /\ servable it pool modes c now t.
Proof.
  intros Hin Hav. unfold selectTarget, servable.
  set (targets := targetsOf pool (meta_GroupID c)) in *.
  set (models := map _ _).
  assert (Hm : forall m, In m models -> exists t1, In t1 targets /\
    targetAvailable it t1 c modes now = true /\ upstream t1 = m).
  { intros m Hm. unfold models in Hm. apply in_map_iff in Hm as (t1 & <- & Ht1). apply filter_In in Ht1. exists t1.
    tauto. }
  assert (Hne : models <> []).
  { unfold models. intros E. apply map_eq_nil in E.
    assert (Hx : In t0 (List.filter (fun t => targetAvailable it t c modes now) targets))
      by (apply filter_In; auto). rewrite E in Hx. destruct Hx. }
  destruct models as [|first rest] eqn:Em; [contradiction|].
  set (choice := match ExternalModelOf (it_query it) with Some external => _ | None => _ end).
  assert (Hc : In (snd choice) (first :: rest)).
  { unfold choice. destruct (ExternalModelOf (it_query it)); [apply SelectModel_in; discriminate|left; reflexivity]. }
  destruct choice as [d' model]. cbn [snd] in Hc. destruct (Hm model Hc) as (t1 & Ht1 & Hav1 & Hup).
  destruct (List.find _ targets) as [t|] eqn:Ef.
  - apply find_some in Ef as [Ht Hup']. apply bool_decide_eq_true in Hup'.
    exists d', t. split; [reflexivity|]. split; [exact Ht|]. exists t1. unfold upstream in *. split; [exact Ht1|].
    split; [exact Hav1|]. congruence.
  - exfalso. pose proof (find_none _ _ Ef t1 Ht1) as Hn. apply bool_decide_eq_false in Hn. exact (Hn Hup).
Qed.

(** The tier loop selects a weighted credential that is servable in the tier, or nothing. *)
Lemma selectTiers_spec it pool weighted now tiers : forall d,
  match snd (selectTiers d it pool weighted now tiers) with
  | Exhausted => True
  | Panicked => False
  | Selected c t => (exists w, In (mkWeighted c w) weighted) /\
      exists modes, In modes tiers /\ servable it pool modes c now t
  end.
Proof.
  induction tiers as [|modes tiers IH]; intros d; [exact I|]. cbn [selectTiers].
  destruct (selectCredential _ d _ _) as [d1 [c|]] eqn:Es.
  - apply selectCredential_in in Es as [w Hw]. apply filter_In in Hw as [Hw Hex].
    apply existsb_exists in Hex as (t0 & Ht0 & Hav). cbn in Ht0, Hav.
    destruct (selectTarget_spec d1 it pool modes c now t0 Ht0 Hav) as (d2 & t & -> & Hserv). cbn [snd].
    split; [exists w; exact Hw|]. exists modes. split; [left; reflexivity|exact Hserv].
  - specialize (IH d1). destruct (snd (selectTiers _ _ _ _ _ _)); [exact I|exact IH|].
    destruct IH as [Hw (ms & Hms & Hs)]. split; [exact Hw|]. exists ms. split; [right; exact Hms|exact Hs].
Qed.

Lemma weighCredential_spec it pool modes now m c : weighCredential it pool modes now m = Some c ->
  c.(meta) = m /\ credentialAllowed it m = true /\ 0 < c.(weight) /\
  exists t, In t (targetsOf pool m.(meta_GroupID)) /\ targetAvailable it t m modes now = true /\
    c.(weight) = effectiveWeight t.(group).(gv_WeightManual) m.(meta_WeightManual).
Proof.
  unfold weighCredential. case_if; [discriminate|]. destruct (List.find _ _) as [t|] eqn:Ef; [|discriminate].
  apply find_some in Ef as [Ht Hav]. case_if; [|discriminate]. intros [= <-]. cbn. zbool.
  split; [reflexivity|]. split; [exact E|]. split; [exact E0|]. exists t. auto.
Qed.

Lemma priorityCandidates_incl it pool cs c : In c (priorityCandidates it pool cs) -> In c cs.
Proof.
  unfold priorityCandidates. destruct (foldl _ _ _) as [[p|] lower]; [|intros []].
  intros Hc. apply filter_In in Hc. tauto.
Qed.

Section Source.
Context {R : Type} `{SourceLaws R}.

Lemma selectPool_spec (source : R) it pool now :
  match snd (selectPool source it pool now) with
  | Exhausted => True
  | Panicked => False
  | Selected c t =>
      (exists w, In (mkWeighted c w)
         (priorityCandidates it pool (withWeightedPool source it pool allModes now))) /\
      exists modes, In modes it.(routeModeTiers) /\ servable it pool modes c now t
  end.
Proof.
  unfold selectPool.
  pose proof (selectTiers_spec it pool
    (priorityCandidates it pool (withWeightedPool source it pool allModes now)) now (routeModeTiers it)
    (SchedulingState source)) as Hs.
  destruct (selectTiers _ _ _ _ _ _) as [d r]. exact Hs.
Qed.

Lemma weighted_spec (source : R) it pool modes now c : source_ok source ->
  In c (withWeightedPool source it pool modes now) ->
  c.(meta).(meta_ID) ∉ it.(tried) /\ credentialAllowed it c.(meta) = true /\ 0 < c.(weight) /\
  In c.(meta) (credentialCandidates source (poolGroups pool modes)
                 (fun id => bool_decide (id ∈ it.(tried))) now) /\
  exists t, In t (targetsOf pool c.(meta).(meta_GroupID)) /\ targetAvailable it t c.(meta) modes now = true /\
    c.(weight) = effectiveWeight t.(group).(gv_WeightManual) c.(meta).(meta_WeightManual).
Proof.
  intros Hok Hc. unfold withWeightedPool in Hc. apply omap_In in Hc as (m & Hm & Hw).
  apply weighCredential_spec in Hw as (<- & Ha & Hpos & t & Ht). 
  destruct (source_sound _ _ _ _ _ Hok Hm) as [_ Htried]. apply bool_decide_eq_false in Htried.
  split; [exact Htried|]. split; [exact Ha|]. split; [exact Hpos|]. split; [exact Hm|]. exists t. exact Ht.
Qed.

End Source.

(** ** Admitted targets *)

(** What the configuration and the access key demand of a route target. *)
Record admitted (config : Config) (query : Query) (route : RouteTarget) : Prop := {
  adm_key : query.(AccessKey).(ak_Status) <> AccessKeyStatusDisabled;
  adm_protocol : query.(AccessKey).(Filters).(filter_Protocols) = [] \/
    query.(ClientProtocol) ∈ query.(AccessKey).(Filters).(filter_Protocols);
  adm_model : query.(AccessKey).(Filters).(filter_Models) = ∅ \/
    exists m, query.(ExternalModelOf) = Some m /\ m ∈ query.(AccessKey).(Filters).(filter_Models);
  adm_group : query.(AccessKey).(Filters).(filter_Groups) = ∅ \/
    route.(route_GroupID) ∈ query.(AccessKey).(Filters).(filter_Groups);
  adm_enabled : exists view, config.(cfg_GroupCatalog) !! route.(route_GroupID) = Some view /\
    view.(catalog_Enabled) = true;
  adm_mode : Allows query.(q_RouteRequirement) route.(route_Mode) = true;
  adm_websocket : forall required, query.(q_ResponsesWebsocket) = Some required ->
    route.(route_Mode) = RouteNative /\
    Supports route.(route_Resolved).(rt_ResponsesWebsocket) required = true /\
    websocketEnabled config route.(route_GroupID) = true;
  adm_indexed : exists byOperation byModel routes,
    assoc query.(ClientProtocol) config.(ExecutionCandidates) = Some byOperation /\
    assoc query.(q_Operation) byOperation = Some byModel /\
    assoc (default NoModelRouteKey query.(ExternalModelOf)) byModel = Some routes /\ In route routes;
}.

Lemma requirement_allows query route :
  (routeRequirementSatisfied query route).1.1 = true ->
  Allows query.(q_RouteRequirement) route.(route_Mode) = true /\
  (forall required, query.(q_ResponsesWebsocket) = Some required ->
   route.(route_Mode) = RouteNative /\
   Supports route.(route_Resolved).(rt_ResponsesWebsocket) required = true).
Proof.
  unfold routeRequirementSatisfied. destruct (Allows _ _); [|discriminate]. cbn [negb].
  destruct (q_ResponsesWebsocket query) as [w|]; [|intros _; split; [reflexivity|discriminate]].
  case_if; [|discriminate]. intros _. split; [reflexivity|]. intros required [= <-].
  rewrite !andb_true_iff in E. destruct E as [[_ E1] E2]. apply bool_decide_eq_true in E1. auto.
Qed.

Lemma evaluateRoute_included config query view route :
  (evaluateRoute config query view route).(included) = true ->
  (evaluateRoute config query view route).(td_target) = route /\
  (routeRequirementSatisfied query route).1.1 = true /\ view.(catalog_Enabled) = true /\
  groupFiltered query route.(route_GroupID) = false /\
  (forall required, query.(q_ResponsesWebsocket) = Some required ->
   websocketEnabled config route.(route_GroupID) = true).
Proof.
  unfold evaluateRoute. destruct (routeRequirementSatisfied query route) as [[ok down] reason]. cbn [fst].
  destruct ok; cbn [negb]; [|discriminate].
  destruct (catalog_Enabled view); cbn [negb]; [|discriminate].
  destruct (groupFiltered query _); [discriminate|].
  case_if; [discriminate|]. intros _. repeat split. intros required Hr. rewrite Hr in E.
  apply negb_false_iff in E. exact E.
Qed.

Lemma evaluateRoutes_In config query routes decisions d :
  evaluateRoutes config query routes = Ok decisions -> In d decisions ->
  exists route view, In route routes /\ config.(cfg_GroupCatalog) !! route.(route_GroupID) = Some view /\
    d = evaluateRoute config query view route.
Proof.
  revert decisions. induction routes as [|route routes IH]; intros decisions; simpl; [intros [= <-] []|].
  destruct (_ !! _) as [view|] eqn:Ev; [|discriminate].
  destruct (evaluateRoutes config query routes) as [ds|]; [|discriminate]. intros [= <-] [<-|Hd].
  - exists route, view. auto.
  - destruct (IH ds eq_refl Hd) as (r & v & Hr & Hv & He). exists r, v. auto.
Qed.

Lemma evaluateTargets_admitted config query decisions reason d :
  evaluateTargets (Some config) ExecutionCandidates query = Ok (decisions, reason) ->
  In d decisions -> d.(included) = true -> admitted config query d.(td_target).
Proof.
  unfold evaluateTargets. intros He Hd Hi. revert He.
  assert (Hempty : forall r, @Ok SchedulerError _ ([], r) <> Ok (decisions, reason))
    by (intros r [= <- _]; destruct Hd).
  case_bool_decide as Hkey; [intros He; destruct (Hempty _ He)|].
  case_if; [intros He; destruct (Hempty _ He)|]. rename E into Ep.
  case_if; [intros He; destruct (Hempty _ He)|]. rename E into Em.
  case_if; [intros He; destruct (Hempty _ He)|]. rename E into Em2.
  case_if; [intros He; destruct (Hempty _ He)|].
  destruct (assoc (ClientProtocol query) _) as [byOperation|] eqn:E1; [|intros He; destruct (Hempty _ He)].
  change (default [] (Some byOperation)) with byOperation.
  destruct byOperation as [|b0 bs] eqn:Eb; [intros He; destruct (Hempty _ He)|]. rewrite <- Eb in *.
  destruct (assoc (q_Operation query) byOperation) as [byModel|] eqn:E2; [|intros He; destruct (Hempty _ He)].
  destruct (assoc _ byModel) as [routes|] eqn:E3; [|intros He; destruct (Hempty _ He)].
  change (default [] (Some routes)) with routes.
  destruct routes as [|r0 rs] eqn:Er; [intros He; destruct (Hempty _ He)|]. rewrite <- Er in *.
  destruct (evaluateRoutes config query routes) as [ds|] eqn:Ed; [|discriminate].
  intros [= <- _].
  destruct (evaluateRoutes_In _ _ _ _ _ Ed Hd) as (route & view & Hroute & Hview & ->).
  apply evaluateRoute_included in Hi as (Ht & Hreq & Hen & Hgf & Hws). rewrite Ht.
  destruct (requirement_allows _ _ Hreq) as [Hallow Hsup].
  rewrite andb_false_iff, !negb_false_iff, !bool_decide_eq_true in Ep, Em2.
  rewrite andb_false_iff, negb_false_iff, bool_decide_eq_true, bool_decide_eq_false in Em.
  unfold groupFiltered in Hgf. rewrite andb_false_iff, !negb_false_iff, !bool_decide_eq_true in Hgf.
  split; auto.
  - destruct Em as [Em|Em]; [auto|]. destruct Em2 as [Em2|Em2]; [auto|]. right.
    destruct (ExternalModelOf query) as [m|]; [|congruence]. exists m. auto.
  - exists view. auto.
  - intros required Hr. destruct (Hsup required Hr) as [Hn Hs]. split; [exact Hn|]. split; [exact Hs|].
    exact (Hws required Hr).
  - exists byOperation, byModel, routes. auto.
Qed.

Lemma filterTargets_admitted snapshot query t :
  In t (fst (filterTargetsWithReason snapshot query)) ->
  exists config, snapshot = Some config /\ admitted config (normalizeQuery query) t.(target) /\
    config.(cfg_Groups) !! t.(target).(route_GroupID) = Some t.(group).
Proof.
  unfold filterTargetsWithReason. destruct snapshot as [config|]; [|intros []].
  destruct (evaluateTargets _ _ _) as [[decisions reason]|] eqn:Ee; [|intros []].
  cbn [fst]. intros Ht. apply omap_In in Ht as (d & Hd & Hc). unfold toCandidate in Hc.
  destruct (included d) eqn:Ei; [|discriminate]. cbn [negb] in Hc.
  destruct (cfg_Groups config !! _) as [g|] eqn:Eg; [|discriminate]. injection Hc as <-.
  exists config. split; [reflexivity|]. split; [|exact Eg].
  eapply evaluateTargets_admitted; eassumption.
Qed.

(** ** Iterators of a request *)

(** The states an iterator goes through: created for a query, then advanced by
    selections against any state of its source, group skips and priority drops. *)
Inductive derived (R : Type) `{CredentialSource R} (snapshot : option Config) (query : Query)
    : Iterator -> Prop :=
| derived_new : derived R snapshot query (newIterator snapshot query)
| derived_next (source : R) it now now' : derived R snapshot query it ->
    derived R snapshot query (Next source it now now').1.2
| derived_skip it g : derived R snapshot query it -> derived R snapshot query (SkipGroup it g)
| derived_advance it sel : derived R snapshot query it ->
    derived R snapshot query (AdvancePriority it sel).

(** The parts of an iterator fixed at creation. *)
Record iterator_ok (snapshot : option Config) (query : Query) (it : Iterator) : Prop := {
  iok_snapshot : it.(it_snapshot) = snapshot;
  iok_query : it.(it_query) = query;
  iok_operation : it.(it_operation) = normalizeOperation query;
  iok_ids : it.(it_allowedCredentialIDs) = query.(AllowedCredentialIDs);
  iok_refs : it.(it_allowedCredentialRefs) = cloneCredentialIdentities query.(AllowedCredentialRefs);
  iok_tiers : it.(routeModeTiers) = [[RouteNative; RouteConverted]] \/
              it.(routeModeTiers) = [[RouteNative]; [RouteConverted]];
  iok_regular : pool_ok (List.filter (fun t => negb t.(responsesStoreDowngraded))
                           (filterTargetsWithReason snapshot query).1) it.(regular);
  iok_downgraded : pool_ok (List.filter responsesStoreDowngraded
                              (filterTargetsWithReason snapshot query).1) it.(storeDowngraded);
}.

Lemma newIterator_ok snapshot query : iterator_ok snapshot query (newIterator snapshot query).
Proof.
  unfold newIterator. destruct (filterTargetsWithReason snapshot query) as [targets reason] eqn:E.
  split; try reflexivity; cbn [regular storeDowngraded routeModeTiers]; rewrite ?E; try apply buildPool_ok.
  destruct snapshot as [[rev strategy x y z w]|]; [|right; reflexivity].
  destruct strategy; [left|right]; reflexivity.
Qed.

(** Changing priority limits does not change the targets of a pool. *)
Lemma pool_ok_same targets pool pool' : targetsByGroup pool' = targetsByGroup pool ->
  groupIDsByMode pool' = groupIDsByMode pool -> pool_ok targets pool -> pool_ok targets pool'.
Proof. unfold pool_ok, targetsOf. intros -> ->. auto. Qed.

Lemma settlePool_same t pool : targetsByGroup (settlePool t pool) = targetsByGroup pool /\
  groupIDsByMode (settlePool t pool) = groupIDsByMode pool.
Proof. unfold settlePool. destruct (priorityLimit pool); split; reflexivity. Qed.

Lemma Next_ok {R} `{CredentialSource R} (source : R) snapshot query it now now' :
  iterator_ok snapshot query it -> iterator_ok snapshot query (Next source it now now').1.2.
Proof.
  intros Hok. unfold Next.
  destruct (selectPool source it (regular it) now) as [s1 [| |c t]]; [|exact Hok|].
  - destruct (selectPool s1 it (storeDowngraded it) now') as [s2 [| |c t]]; [exact Hok|exact Hok|].
    destruct (settlePool_same t (storeDowngraded it)) as [E1 E2].
    destruct Hok. split; try assumption. exact (pool_ok_same _ _ _ E1 E2 iok_downgraded0).
  - destruct (settlePool_same t (regular it)) as [E1 E2].
    destruct Hok. split; try assumption. exact (pool_ok_same _ _ _ E1 E2 iok_regular0).
Qed.

Lemma derived_ok (R : Type) `{CredentialSource R} snapshot query it :
  derived R snapshot query it -> iterator_ok snapshot query it.
Proof.
  induction 1 as [|source it now now' _ IH|it g _ IH|it sel _ IH].
  - apply newIterator_ok.
  - apply Next_ok, IH.
  - unfold SkipGroup. case_if; [exact IH|]. destruct IH. split; assumption.
  - unfold AdvancePriority. case_if; destruct IH; split; assumption.
Qed.

(** ** Admissible selections *)

Section Selections.
Context {R : Type} `{SourceLaws R}.

(** Everything a selected credential and its target must satisfy at time [now]. *)
Record admissible (source : R) (config : Config) (query : Query) (it : Iterator) (now : Z)
    (c : CredentialMeta) (t : candidateTarget) : Prop := {
  sel_available : exists gs, In c (credentialCandidates source gs (fun id => bool_decide (id ∈ it.(tried))) now);
  sel_fresh : c.(meta_ID) ∉ it.(tried);
  sel_unskipped : c.(meta_GroupID) ∉ it.(skippedGroups);
  sel_id_allowed : forall ids, query.(AllowedCredentialIDs) = Some ids -> c.(meta_ID) ∈ ids;
  sel_ref_allowed : forall refs, query.(AllowedCredentialRefs) = Some refs ->
    exists ref, refs !! c.(meta_ID) = Some ref /\ ref.(ref_GroupID) = c.(meta_GroupID) /\
      ref.(ref_IdentityGeneration) = c.(meta_IdentityGeneration);
  sel_group : t.(target).(route_GroupID) = c.(meta_GroupID);
  sel_group_view : config.(cfg_Groups) !! c.(meta_GroupID) = Some t.(group);
  sel_admitted : admitted config (normalizeQuery query) t.(target);
  sel_weight : 0 < effectiveWeight t.(group).(gv_WeightManual) c.(meta_WeightManual);
  sel_model_ready :
    modelCooldownUntil c.(meta_ModelCooldowns) (upstream t) (normalizeOperation query) now <= now;
}.

Lemma allowed_spec it c : credentialAllowed it c = true ->
  (forall ids, it.(it_allowedCredentialIDs) = Some ids -> c.(meta_ID) ∈ ids) /\
  (forall refs, it.(it_allowedCredentialRefs) = Some refs ->
     refs !! c.(meta_ID) = Some (c.(meta_GroupID), c.(meta_IdentityGeneration))) /\
  c.(meta_GroupID) ∉ it.(skippedGroups).
Proof.
  unfold credentialAllowed. rewrite !andb_true_iff. intros [[H1 H2] H3].
  apply negb_true_iff, bool_decide_eq_false in H3. split; [|split; [|exact H3]].
  - intros ids E. rewrite E in H1. apply bool_decide_eq_true in H1. exact H1.
  - intros refs E. rewrite E in H2. apply bool_decide_eq_true in H2. exact H2.
Qed.

Lemma selected_admissible (source : R) snapshot query it pool targets now c t :
  iterator_ok snapshot query it -> source_ok source -> pool_ok targets pool ->
  incl targets (filterTargetsWithReason snapshot query).1 ->
  snd (selectPool source it pool now) = Selected c t ->
  exists config, snapshot = Some config /\ admissible source config query it now c t.
Proof.
  intros Hit Hok [Hpool _] Hincl Hsel. pose proof (selectPool_spec source it pool now) as Hs.
  rewrite Hsel in Hs. destruct Hs as [[w Hw] (modes & Hmodes & Ht & t0 & Ht0 & Hav & Hup)].
  apply priorityCandidates_incl, weighted_spec in Hw as (Htried & Hallow & Hpos & Hcand & t1 & Ht1 & _ & Hweight);
    [|exact Hok]. cbn [meta weight] in *.
  apply Hpool in Ht as [Ht Hgroup]. apply Hpool in Ht1 as [Ht1 Hgroup1].
  destruct (filterTargets_admitted snapshot query t (Hincl t Ht)) as (config & Hsnap & Hadm & Hview).
  destruct (filterTargets_admitted snapshot query t1 (Hincl t1 Ht1)) as (config1 & Hsnap1 & _ & Hview1).
  assert (config1 = config) as -> by congruence. exists config. split; [exact Hsnap|].
  apply allowed_spec in Hallow as (Hids & Hrefs & Hskip).
  rewrite (iok_ids _ _ _ Hit) in Hids. rewrite (iok_refs _ _ _ Hit) in Hrefs.
  rewrite Hgroup in Hview. rewrite Hgroup1 in Hview1.
  split; try assumption.
  - exists (poolGroups pool allModes). exact Hcand.
  - intros refs E. rewrite E in Hrefs. specialize (Hrefs _ eq_refl). rewrite lookup_fmap in Hrefs.
    destruct (refs !! meta_ID c) as [ref|]; [|discriminate]. cbn in Hrefs. injection Hrefs as E1 E2.
    exists ref. auto.
  - assert (group t1 = group t) as <- by congruence. lia.
  - unfold targetAvailable in Hav. apply andb_true_iff in Hav as [_ Hav].
    rewrite (iok_operation _ _ _ Hit) in Hav. unfold upstream in *. rewrite Hup.
    rewrite Z.gtb_ltb in Hav. apply negb_true_iff, Z.ltb_ge in Hav. exact Hav.
Qed.

Lemma selectPool_source (source : R) it pool now :
  exists d, fst (selectPool source it pool now) = withScheduling source d.
Proof. unfold selectPool. destruct (selectTiers _ _ _ _ _ _) as [d r]. exists d. reflexivity. Qed.

(** [C21] Every selection is admissible, and selecting never fails otherwise.  On
    any iterator state of a request and any consistent source, [Next] does not
    panic; a selected credential is available at the source now, was not tried
    before, is not in a skipped group and is within the allowed ids and captured
    identities; its target belongs to its group, satisfies the access key's
    filters, the enabled group catalog and the route requirement, has positive
    weight, and its upstream model is not cooling down; and the credential is
    then marked as tried. *)
Theorem selections_admissible (source source' : R) snapshot query it it' now now' result :
  derived R snapshot query it -> source_ok source ->
  Next source it now now' = (source', it', result) ->
  match result with
  | Panicked => False
  | Exhausted => it' = it
  | Selected c t =>
      it'.(tried) = {[c.(meta_ID)]} ∪ it.(tried) /\
      exists config at_, snapshot = Some config /\ (at_ = now \/ at_ = now') /\
        admissible source config query it at_ c t
  end.
Proof.
  intros Hd Hok. apply derived_ok in Hd as Hit. unfold Next.
  pose proof (selectPool_spec source it (regular it) now) as Hs1.
  pose proof (selected_admissible source snapshot query it (regular it)) as Ha1.
  destruct (selectPool_source source it (regular it) now) as [d Hsrc].
  destruct (selectPool source it (regular it) now) as [s1 [| |c t]] eqn:E1; cbn [fst snd] in *;
    [|destruct Hs1|].
  - subst s1. pose proof (selectPool_spec (withScheduling source d) it (storeDowngraded it) now') as Hs2.
    pose proof (selected_admissible (withScheduling source d) snapshot query it (storeDowngraded it)) as Ha2.
    destruct (selectPool _ it (storeDowngraded it) now') as [s2 [| |c t]] eqn:E2; cbn [fst snd] in *;
      intros [= <- <- <-]; [reflexivity|destruct Hs2|].
    split; [reflexivity|].
    edestruct Ha2 as (config & Hsnap & Hadm);
      [exact Hit|apply source_ok_with, Hok|exact (iok_downgraded _ _ _ Hit)|apply incl_filter|rewrite E2; reflexivity|].
    exists config, now'. split; [exact Hsnap|]. split; [right; reflexivity|].
    destruct Hadm as [[gs Hgs]]. rewrite source_stable in Hgs. split; try assumption. exists gs. exact Hgs.
  - intros [= <- <- <-]. split; [reflexivity|].
    edestruct Ha1 as (config & Hsnap & Hadm);
      [exact Hit|exact Hok|exact (iok_regular _ _ _ Hit)|apply incl_filter|rewrite E1; reflexivity|].
    exists config, now. auto.
Qed.

End Selections.

(** ** Priority tiers *)

Definition within (pool : candidatePool) (p : Z) : Prop :=
  match pool.(priorityLimit) with Some limit => p <= limit | None => True end.

(** Strictly below the limit, when a failure asked for a lower tier. *)
Definition below (pool : candidatePool) (p : Z) : Prop :=
  pool.(lowerPriority) = true /\ match pool.(priorityLimit) with Some limit => p < limit | None => False end.

(** [p] is the priority tier to serve among the priorities [ps]: the highest one
    below the limit if a lower tier was asked for and exists, and otherwise the
    highest one within the limit. *)
Definition servedTier (pool : candidatePool) (ps : list Z) (p : Z) : Prop :=
  In p ps /\ within pool p /\
  ((exists q, In q ps /\ below pool q) -> below pool p) /\
  (forall q, In q ps -> within pool q -> ((exists q', In q' ps /\ below pool q') -> below pool q) -> q <= p).

Definition bestOf (P : Z -> Prop) (ps : list Z) (best : option Z) : Prop :=
  match best with
  | None => forall q, In q ps -> ~ P q
  | Some p => In p ps /\ P p /\ forall q, In q ps -> P q -> q <= p
  end.

Lemma bestOf_snoc_skip P ps best v : ~ P v -> bestOf P ps best -> bestOf P (ps ++ [v]) best.
Proof.
  intros Hv. unfold bestOf. destruct best as [p|].
  - intros (H1 & H2 & H3). split; [apply in_or_app; auto|]. split; [exact H2|].
    intros q Hq Hp. apply in_app_iff in Hq as [Hq|[<-|[]]]; [auto|contradiction].
  - intros Hn q Hq. apply in_app_iff in Hq as [Hq|[<-|[]]]; auto.
Qed.

Lemma bestOf_snoc_take P ps best v : P v -> bestOf P ps best ->
  bestOf P (ps ++ [v]) (if match best with Some p => v >? p | None => true end then Some v else best).
Proof.
  intros Hv Hb. destruct best as [p|]; simpl in *.
  - destruct Hb as (H1 & H2 & H3). destruct (Z.gtb_spec v p) as [Hlt|Hle]; simpl.
    + split; [apply in_or_app; right; left; reflexivity|]. split; [exact Hv|].
      intros q Hq Hp. apply in_app_iff in Hq as [Hq|[<-|[]]]; [specialize (H3 q Hq Hp); lia|lia].
    + split; [apply in_or_app; auto|]. split; [exact H2|].
      intros q Hq Hp. apply in_app_iff in Hq as [Hq|[<-|[]]]; [auto|lia].
  - split; [apply in_or_app; right; left; reflexivity|]. split; [exact Hv|].
    intros q Hq Hp. apply in_app_iff in Hq as [Hq|[<-|[]]]; [destruct (Hb q Hq Hp)|lia].
Qed.

Lemma scan_step it pool ps acc c : bestOf (within pool) ps acc.1 -> bestOf (below pool) ps acc.2 ->
  let acc' := scanPriority it pool acc c in
  bestOf (within pool) (ps ++ [priorityOf it c]) acc'.1 /\
  bestOf (below pool) (ps ++ [priorityOf it c]) acc'.2.
Proof.
  destruct acc as [best lower]. cbn [fst snd]. intros Hb Hl. unfold scanPriority.
  set (v := priorityOf it c).
  destruct (priorityLimit pool) as [limit|] eqn:El.
  - destruct (Z.gtb_spec v limit) as [Hgt|Hle]; cbn [fst snd].
    { split; apply bestOf_snoc_skip; auto; unfold within, below; rewrite El; lia. }
    split; [apply bestOf_snoc_take; auto; unfold within; rewrite El; lia|].
    destruct (lowerPriority pool) eqn:Ep, (Z.ltb_spec v limit) as [Hlt|Hge]; cbn [andb];
      try (apply bestOf_snoc_skip; auto; unfold below; rewrite El, ?Ep; intuition (lia || discriminate)).
    apply bestOf_snoc_take; auto. unfold below. rewrite El. auto.
  - cbn [fst snd]. split; [apply bestOf_snoc_take; auto; unfold within; rewrite El; exact I|].
    rewrite andb_false_r. cbn [andb]. apply bestOf_snoc_skip; auto. unfold below. rewrite El. tauto.
Qed.

Lemma scan_spec it pool cs :
  let acc := foldl (scanPriority it pool) (None, None) cs in
  bestOf (within pool) (map (priorityOf it) cs) acc.1 /\
  bestOf (below pool) (map (priorityOf it) cs) acc.2.
Proof.
  assert (Hgen : forall l done acc, bestOf (within pool) done acc.1 -> bestOf (below pool) done acc.2 ->
    let acc' := foldl (scanPriority it pool) acc l in
    bestOf (within pool) (done ++ map (priorityOf it) l) acc'.1 /\
    bestOf (below pool) (done ++ map (priorityOf it) l) acc'.2).
  { induction l as [|c l IH]; intros done acc Hb Hl; [cbn; rewrite app_nil_r; auto|].
    destruct (scan_step it pool done acc c Hb Hl) as [H1 H2]. specialize (IH _ _ H1 H2). cbn in *.
    rewrite <- app_assoc in IH. exact IH. }
  apply (Hgen cs [] (None, None)); intros q [].
Qed.

(** The candidates kept are exactly those of the served tier. *)
Lemma priorityCandidates_spec it pool cs c : In c (priorityCandidates it pool cs) <->
  In c cs /\ servedTier pool (map (priorityOf it) cs) (priorityOf it c).
Proof.
  unfold priorityCandidates, servedTier. destruct (scan_spec it pool cs) as [Hb Hl].
  destruct (foldl (scanPriority it pool) (None, None) cs) as [[p|] lower]; cbn [fst snd] in *.
  - rewrite filter_In, Z.eqb_eq. destruct Hb as (Hp & Hpw & Hpm). destruct lower as [l|]; cbn.
    + destruct Hl as (Hlin & Hlb & Hlm).
      assert (Hex : exists q, In q (map (priorityOf it) cs) /\ below pool q) by eauto.
      assert (Hbw : forall q, below pool q -> within pool q)
        by (unfold below, within; intros q [_ Hq]; destruct (priorityLimit pool); [lia|exact I]).
      split.
      * intros [Hc E]. split; [exact Hc|]. unfold default, id in E. rewrite E. auto 7.
      * intros (Hc & Hin & Hw & Hb & Hmax). split; [exact Hc|]. apply Z.le_antisymm; [apply Hlm; auto|].
        apply Hmax; auto.
    + cbn in Hl. assert (Hno : ~ exists q, In q (map (priorityOf it) cs) /\ below pool q)
        by (intros (q & Hq & Hqb); exact (Hl q Hq Hqb)).
      split.
      * intros [Hc E]. split; [exact Hc|]. unfold default in E. rewrite E.
        split; [exact Hp|]. split; [exact Hpw|]. split; [intros Hx; destruct (Hno Hx)|auto].
      * intros (Hc & Hin & Hw & _ & Hmax). split; [exact Hc|]. apply Z.le_antisymm; [auto|].
        apply Hmax; auto. intros Hx. destruct (Hno Hx).
  - split; [intros []|]. intros (_ & Hin & Hw & _). exact (Hb _ Hin Hw).
Qed.

Section Order.
Context {R : Type} `{SourceLaws R}.

(** The pool a selection was made from. *)
Definition poolOf (it : Iterator) (t : candidateTarget) : candidatePool :=
  if t.(responsesStoreDowngraded) then it.(storeDowngraded) else it.(regular).

Lemma withWeightedPool_stable (source : R) d it pool modes now :
  withWeightedPool (withScheduling source d) it pool modes now = withWeightedPool source it pool modes now.
Proof. unfold withWeightedPool. rewrite source_stable. reflexivity. Qed.

(** How a selection of [Next] arises from its pools. *)
Lemma Next_pool (source source' : R) snapshot query it it' now now' c t :
  iterator_ok snapshot query it -> Next source it now now' = (source', it', Selected c t) ->
  exists d, let at_ := if t.(responsesStoreDowngraded) then now' else now in
    snd (selectPool (withScheduling source d) it (poolOf it t) at_) = Selected c t \/
    (t.(responsesStoreDowngraded) = false /\ snd (selectPool source it (poolOf it t) at_) = Selected c t).
Proof.
  intros Hit. unfold Next, poolOf.
  destruct (selectPool_source source it (regular it) now) as [d Hsrc].
  assert (Hdown : forall s pool targets at_, pool_ok targets pool -> snd (selectPool s it pool at_) = Selected c t ->
    In t targets).
  { intros s pool targets at_ [Hp _] Hsel. pose proof (selectPool_spec s it pool at_) as Hs.
    rewrite Hsel in Hs. destruct Hs as [_ (modes & _ & Ht & _)]. apply Hp in Ht. tauto. }
  destruct (selectPool source it (regular it) now) as [s1 [| |c1 t1]] eqn:E1; cbn [fst] in Hsrc.
  - subst s1. destruct (selectPool _ it (storeDowngraded it) now') as [s2 [| |c2 t2]] eqn:E2;
      intros [= _ _]; try discriminate. subst c2 t2. exists d.
    assert (Ht : In t (List.filter responsesStoreDowngraded (filterTargetsWithReason snapshot query).1))
      by (eapply Hdown; [apply (iok_downgraded _ _ _ Hit)|rewrite E2; reflexivity]).
    apply filter_In in Ht as [_ ->]. left. rewrite E2. reflexivity.
  - discriminate.
  - intros [= _ _ -> ->].
    assert (Ht : In t (List.filter (fun t => negb t.(responsesStoreDowngraded)) (filterTargetsWithReason snapshot query).1))
      by (eapply Hdown; [apply (iok_regular _ _ _ Hit)|rewrite E1; reflexivity]).
    apply filter_In in Ht as [_ Ht]. apply negb_true_iff in Ht. rewrite Ht.
    exists d. right. split; [reflexivity|]. rewrite E1. reflexivity.
Qed.

(** Selections respect priorities.  The group of a selection has the highest
    priority among all credentials that could be selected from the same pool,
    native and converted routes alike, within the limit left by earlier failures;
    after a failure that asked for a lower tier it has the highest priority
    strictly below the limit, if any credential is there. *)
Theorem selections_respect_priority (source source' : R) snapshot query it it' now now' c t :
  derived R snapshot query it -> source_ok source ->
  Next source it now now' = (source', it', Selected c t) ->
  let at_ := if t.(responsesStoreDowngraded) then now' else now in
  servedTier (poolOf it t)
    (map (priorityOf it) (withWeightedPool source it (poolOf it t) allModes at_))
    t.(group).(gv_Priority).
Proof.
  intros Hd Hok Hnext at_. apply derived_ok in Hd as Hit.
  assert (Hsel : exists s d, (s = source \/ s = withScheduling source d) /\
    snd (selectPool s it (poolOf it t) at_) = Selected c t).
  { destruct (Next_pool _ _ _ _ _ _ _ _ _ _ Hit Hnext) as [d [Hs|[_ Hs]]];
      [exists (withScheduling source d), d|exists source, d]; auto. }
  destruct Hsel as (s & d & Hsource & Hsel).
  assert (Hsok : source_ok s) by (destruct Hsource as [->| ->]; auto using source_ok_with).
  assert (Hw : withWeightedPool s it (poolOf it t) allModes at_ =
               withWeightedPool source it (poolOf it t) allModes at_)
    by (destruct Hsource as [->| ->]; auto using withWeightedPool_stable).
  pose proof (selectPool_spec s it (poolOf it t) at_) as Hs. rewrite Hsel, Hw in Hs.
  destruct Hs as [[w Hc] _]. apply priorityCandidates_spec in Hc as [_ Htier].
  enough (priorityOf it (mkWeighted c w) = gv_Priority (group t)) as <- by exact Htier.
  assert (Hadm : exists config, snapshot = Some config /\ admissible s config query it at_ c t).
  { unfold poolOf in Hsel. destruct (responsesStoreDowngraded t);
      (eapply selected_admissible; [exact Hit|exact Hsok| | |exact Hsel]);
      [exact (iok_downgraded _ _ _ Hit)|apply incl_filter|exact (iok_regular _ _ _ Hit)|apply incl_filter]. }
  destruct Hadm as (config & Hsnap & Hadm). unfold priorityOf. rewrite (iok_snapshot _ _ _ Hit), Hsnap. cbn [meta].
  rewrite (sel_group_view _ _ _ _ _ _ _ Hadm). reflexivity.
Qed.

(** ** A request never tries a credential twice *)

(** A request: selections and other iterator moves, against changing sources. *)
Inductive attempts : Iterator -> list Z -> Iterator -> Prop :=
| attempts_none it : attempts it [] it
| attempts_select it ids it' (source source' : R) it'' now now' c t :
    attempts it ids it' -> source_ok source ->
    Next source it' now now' = (source', it'', Selected c t) -> attempts it (ids ++ [c.(meta_ID)]) it''
| attempts_skip it ids it' g : attempts it ids it' -> attempts it ids (SkipGroup it' g)
| attempts_advance it ids it' sel : attempts it ids it' -> attempts it ids (AdvancePriority it' sel).

Lemma Next_tried (source source' : R) it it' now now' c t :
  Next source it now now' = (source', it', Selected c t) -> it'.(tried) = {[c.(meta_ID)]} ∪ it.(tried).
Proof.
  unfold Next. destruct (selectPool source it (regular it) now) as [s1 [| |c1 t1]].
  - destruct (selectPool s1 it (storeDowngraded it) now') as [s2 [| |c2 t2]]; try discriminate.
    intros [= _ <- <- _]. reflexivity.
  - discriminate.
  - intros [= _ <- <- _]. reflexivity.
Qed.

Lemma Next_selected (source source' : R) it it' now now' c t : source_ok source ->
  Next source it now now' = (source', it', Selected c t) -> c.(meta_ID) ∉ it.(tried) /\ credentialAllowed it c = true.
Proof.
  intros Hok. unfold Next. destruct (selectPool_source source it (regular it) now) as [d Hd].
  assert (Hfresh : forall s pool at_, source_ok s -> snd (selectPool s it pool at_) = Selected c t ->
    c.(meta_ID) ∉ it.(tried) /\ credentialAllowed it c = true).
  { intros s pool at_ Hs Hsel. pose proof (selectPool_spec s it pool at_) as Hp. rewrite Hsel in Hp.
    destruct Hp as [[w Hw] _]. apply priorityCandidates_incl, weighted_spec in Hw; [|exact Hs].
    split; apply Hw. }
  destruct (selectPool source it (regular it) now) as [s1 [| |c1 t1]] eqn:E1; cbn [fst] in Hd.
  - destruct (selectPool s1 it (storeDowngraded it) now') as [s2 [| |c2 t2]] eqn:E2; try discriminate.
    intros [= _ _ -> ->]. eapply Hfresh; [|rewrite E2; reflexivity]. subst s1. apply source_ok_with, Hok.
  - discriminate.
  - intros [= _ _ -> ->]. eapply Hfresh; [exact Hok|rewrite E1; reflexivity].
Qed.

Lemma Next_fresh (source source' : R) it it' now now' c t : source_ok source ->
  Next source it now now' = (source', it', Selected c t) -> c.(meta_ID) ∉ it.(tried).
Proof. intros Hok Hn. apply (Next_selected _ _ _ _ _ _ _ _ Hok Hn). Qed.

(** [Next] never runs into the panic of an inconsistent target table, and leaves the
    tried credentials alone when it selects none. *)
Lemma Next_no_panic (source : R) it now now' : (Next source it now now').2 <> Panicked.
Proof.
  unfold Next. pose proof (selectPool_spec source it (regular it) now) as H1.
  destruct (selectPool source it (regular it) now) as [s1 [| |c t]]; try easy.
  pose proof (selectPool_spec s1 it (storeDowngraded it) now') as H2.
  destruct (selectPool s1 it (storeDowngraded it) now') as [s2 [| |c t]]; easy.
Qed.

Lemma Next_exhausted (source source' : R) it it' now now' :
  Next source it now now' = (source', it', Exhausted) -> it' = it.
Proof.
  unfold Next. destruct (selectPool source it (regular it) now) as [s1 [| |c t]]; try discriminate.
  destruct (selectPool s1 it (storeDowngraded it) now') as [s2 [| |c t]]; congruence.
Qed.

Lemma attempts_tried it ids it' : attempts it ids it' ->
  NoDup ids /\ (forall id, id ∈ ids -> id ∉ it.(tried)) /\ it'.(tried) = list_to_set ids ∪ it.(tried).
Proof.
  induction 1 as [it|it ids it' source source' it'' now now' c t _ (Hnd & Hfr & Ht) Hok Hn
                 |it ids it' g _ IH|it ids it' sel _ IH].
  - split; [constructor|]. split; [intros id Hid; inversion Hid|]. set_solver.
  - pose proof (Next_tried _ _ _ _ _ _ _ _ Hn) as Ht'. pose proof (Next_fresh _ _ _ _ _ _ _ _ Hok Hn) as Hf.
    rewrite Ht in Hf. split; [|split].
    + apply NoDup_app. split; [exact Hnd|]. split; [|apply NoDup_singleton].
      intros x Hx Hc. apply list_elem_of_singleton in Hc as ->. apply Hf, elem_of_union_l, elem_of_list_to_set, Hx.
    + intros id Hid. apply elem_of_app in Hid as [Hid|Hid]; [auto|].
      apply list_elem_of_singleton in Hid as ->. intros Hx. apply Hf, elem_of_union_r, Hx.
    + rewrite Ht', Ht, list_to_set_app_L. cbn. set_solver.
  - unfold SkipGroup. case_if; exact IH.
  - unfold AdvancePriority. case_if; exact IH.
Qed.

(** A request never tries a credential twice, whatever happens to the source
    between its attempts, so with credentials drawn from a finite set it makes at
    most as many attempts as there are credentials in the set. *)
Theorem attempts_distinct_and_bounded it ids it' (universe : gset Z) :
  attempts it ids it' -> (forall id, id ∈ ids -> id ∈ universe) ->
  NoDup ids /\ (forall id, id ∈ ids -> id ∉ it.(tried)) /\ (length ids <= size universe)%nat.
Proof.
  intros Ha Hu. destruct (attempts_tried _ _ _ Ha) as (Hnd & Hfr & _). split; [exact Hnd|]. split; [exact Hfr|].
  rewrite <- (size_list_to_set (C := gset Z) ids Hnd). apply subseteq_size.
  intros id Hid. apply Hu. apply elem_of_list_to_set in Hid. exact Hid.
Qed.

End Order.

(** ** A selection is made whenever one is possible *)

(** Coordinates far enough from the end of the 128-bit range for one allocation. *)
Definition rangeEnd : Z := two64 * two64.
Definition roomy (d : SchedulingLedger) : Prop :=
  d.(Sequence) <> max_uint64 /\ value d.(Watermark) < rangeEnd - 2 * two64 /\
  forall id m, d.(Members) !! id = Some m -> value m.(Progress) < rangeEnd - 2 * two64.

Lemma two64_pos : 0 < two64.
Proof. reflexivity. Qed.

(** During the first pass a member may be staggered once, by less than one unit. *)
Record passRoom (d : SchedulingLedger) (seen : list weightedCredential) (acc : pass) : Prop := {
  pr_ok : pass_ok acc;
  pr_sequence : acc.(pass_ledger).(Sequence) = d.(Sequence);
  pr_members : forall id m, acc.(pass_ledger).(Members) !! id = Some m ->
    value m.(Progress) < rangeEnd - two64 /\
    (m.(staggered) = false -> value m.(Progress) < rangeEnd - 2 * two64);
  pr_baseline : value acc.(baseline) < rangeEnd - two64;
  pr_accounted : forall x, accounted acc.(pass_ledger) x = accounted d x;
  pr_eligible : acc.(eligible) = List.filter (accounted d) seen;
}.

Lemma Stagger_room d m w : progress_wf m.(Progress) -> 1 <= w < two64 ->
  (forall random, jitter d = Some random -> jitterLawful random) ->
  value m.(Progress) < rangeEnd - two64 ->
  (m.(staggered) = false -> value m.(Progress) < rangeEnd - 2 * two64) ->
  let '(d', m') := Stagger d m w in
  Sequence d' = Sequence d /\ Members d' = Members d /\
  value m'.(Progress) < rangeEnd - two64 /\
  (m'.(staggered) = false -> value m'.(Progress) < rangeEnd - 2 * two64) /\
  member_GroupID m' = member_GroupID m /\ member_IdentityGeneration m' = member_IdentityGeneration m.
Proof.
  intros [Hwh Hfr] Hw Hj Hm1 Hm2. unfold Stagger. destruct (jitter d) as [random|]; [|auto 7].
  destruct (staggered m) eqn:Est; cbn [orb]; [rewrite <- Est in *; auto 7|].
  destruct (Pending m || (w =? 0)); [rewrite Est; auto 7|].
  specialize (Hj random eq_refl (draws d)). specialize (Hm2 eq_refl).
  set (step := if w >? 1 then div64 w else max_uint64) in *.
  assert (Hs : 0 < step < two64).
  { subst step. destruct (Z.gtb_spec w 1); [pose proof (div64_range w); lia|unfold max_uint64, two64; lia]. }
  specialize (Hj step ltac:(lia)).
  pose proof (add64_exact (Fraction (Progress m)) (random (draws d) step) Hfr ltac:(split; lia)) as Ha.
  destruct (add64 _ _) as [f c]. destruct Ha as (Hf & Hc & Hsum). cbn.
  split; [reflexivity|]. split; [reflexivity|]. unfold value in *. cbn.
  assert (Hwrap : wrap_u64 (Whole (Progress m) + c) = Whole (Progress m) + c).
  { apply wrap_u64_id. unfold in_uint64, rangeEnd, two64 in *. destruct Hwh, Hf. lia. }
  rewrite Hwrap. split; [|split; [discriminate|auto]]. unfold rangeEnd, two64 in *. lia.
Qed.

Lemma accounted_insert d x id m m' : Members d !! id = Some m ->
  member_GroupID m' = member_GroupID m -> member_IdentityGeneration m' = member_IdentityGeneration m ->
  forall d', Members d' = <[id := m']> (Members d) -> accounted d' x = accounted d x.
Proof.
  intros Hm Hg Hi d' Hd'. unfold accounted. rewrite Hd'. destruct (Z.eq_dec id (cid x)) as [<-|Hn].
  - rewrite lookup_insert_eq, Hm. unfold memberMatches. rewrite Hg, Hi. reflexivity.
  - rewrite lookup_insert_ne by exact Hn. reflexivity.
Qed.

Lemma eligibleStep_room d seen acc c : passRoom d seen acc -> 1 <= c.(weight) < two64 ->
  passRoom d (seen ++ [c]) (eligibleStep acc c).
Proof.
  intros [Hok Hseq Hmem Hbase Hacc Hel] Hw. pose proof (eligibleStep_ok acc c Hok Hw) as Hok'.
  assert (Hfilter : List.filter (accounted d) (seen ++ [c]) =
    List.filter (accounted d) seen ++ (if accounted d c then [c] else [])).
  { rewrite List.filter_app. reflexivity. }
  assert (Hac : match Members (pass_ledger acc) !! cid c with
    | Some m => memberMatches m c | None => false end = accounted d c) by (rewrite <- Hacc; reflexivity).
  revert Hok'. unfold eligibleStep.
  destruct (Members (pass_ledger acc) !! cid c) as [m|] eqn:Em;
    [|intros Hok'; rewrite <- Hac, app_nil_r in Hfilter; split; auto; congruence].
  destruct (memberMatches m c) eqn:Emm; cbn [negb];
    [|intros Hok'; rewrite <- Hac, app_nil_r in Hfilter; split; auto; congruence].
  rewrite <- Hac in Hfilter.
  destruct (Hmem _ _ Em) as [Hm1 Hm2].
  pose proof (Stagger_room (pass_ledger acc) m (weight c)
    (mok_wf _ _ _ (lok_members _ (pok_ledger _ Hok) _ _ Em)) Hw
    (lok_jitter _ (pok_ledger _ Hok)) Hm1 Hm2) as Hst.
  destruct (Stagger (pass_ledger acc) m (weight c)) as [d1 m1].
  destruct Hst as (S1 & S2 & S3 & S4 & S5 & S6).
  assert (Hmem' : forall id x, <[cid c := m1]> (Members d1) !! id = Some x ->
    value (Progress x) < rangeEnd - two64 /\ (staggered x = false -> value (Progress x) < rangeEnd - 2 * two64)).
  { intros id x Hx. rewrite S2 in Hx. apply lookup_insert_Some in Hx as [[_ <-]|[_ Hx]]; eauto. }
  assert (Hacc' : forall x, accounted (d1 <| Members := <[cid c := m1]> (Members d1) |>) x = accounted d x).
  { intros x. rewrite <- Hacc. apply (accounted_insert _ x (cid c) m m1 Em S5 S6). cbn. rewrite S2. reflexivity. }
  destruct (negb (Pending m1) && _); intros Hok'; split; cbn; auto; congruence.
Qed.

Lemma collect_room d cs : ledger_ok d -> roomy d -> weights_ok cs -> passRoom d cs (collectEligible d cs).
Proof.
  intros Hd (Hseq & Hwm & Hmem) Hw. unfold collectEligible.
  assert (H0 : passRoom d [] (mkPass d [] (Watermark d) false)).
  { constructor.
    - split; cbn; auto; [apply Hd|lia].
    - reflexivity.
    - intros id m Hm. specialize (Hmem id m Hm). pose proof two64_pos. split; [lia|intros _; exact Hmem].
    - pose proof two64_pos. change (value (Watermark d) < rangeEnd - two64). lia.
    - reflexivity.
    - reflexivity. }
  change cs with ([] ++ cs) at 1. revert H0. generalize (@nil weightedCredential) at 1 3.
  generalize (mkPass d [] (Watermark d) false). 
  induction Hw as [|c cs Hc Hw IH]; intros acc seen H0; cbn; [rewrite app_nil_r; exact H0|].
  replace (seen ++ c :: cs) with ((seen ++ [c]) ++ cs) by (rewrite <- app_assoc; reflexivity).
  apply IH, eligibleStep_room; auto using weight_u64.
Qed.

(** With room in the ledger a selection among accounted candidates succeeds. *)
Lemma select_succeeds rev d cs pref c : ledger_ok d -> roomy d -> weights_ok cs ->
  In c cs -> accounted d c = true ->
  exists d' m, selectCredential rev d cs pref = (d', Some m).
Proof.
  intros Hd Hroom Hw Hc Ha. pose proof (collect_room d cs Hd Hroom Hw) as [Hok Hseq Hmem Hbase Hacc Hel].
  unfold selectCredential. set (acc := collectEligible d cs) in *.
  destruct (eligible acc) as [|f r] eqn:Ee.
  { exfalso. assert (Hin : In c (List.filter (accounted d) cs)) by (apply filter_In; auto).
    rewrite <- Hel in Hin. destruct Hin. }
  destruct (Z.eqb_spec (Sequence (pass_ledger acc)) max_uint64) as [E|_];
    [exfalso; apply (proj1 Hroom); congruence|].
  set (d1 := admitPending rev (baseline acc) (pass_ledger acc) (f :: r)).
  set (x := pick d1 f r pref).
  assert (Hx : In x (List.filter (accounted d) cs)) by (rewrite <- Hel; apply pick_in).
  apply filter_In in Hx as [Hxcs Hxa]. pose proof (weights_ok_in cs x Hw Hxcs) as Hxw.
  assert (Hpok : progress_wf (baseline acc)) by apply Hok.
  assert (Hm : exists m, Members d1 !! cid x = Some m /\ progress_wf (Progress m) /\
    value (Progress m) < rangeEnd - two64).
  { rewrite <- Hacc in Hxa. unfold accounted in Hxa.
    destruct (Members (pass_ledger acc) !! cid x) as [m0|] eqn:Em0; [|discriminate].
    unfold d1. rewrite admitPending_closed. cbn. unfold admittedMembers. rewrite map_lookup_imap, Em0. cbn.
    destruct (Hmem _ _ Em0) as [Hv _].
    pose proof (mok_wf _ _ _ (lok_members _ (pok_ledger _ Hok) _ _ Em0)) as Hwf.
    eexists. split; [reflexivity|]. destruct (bool_decide _ && mayAdmit _ _ _); [|auto].
    split; [|rewrite Fairness.Admit_value by assumption; lia].
    unfold Admit. destruct (Compare _ _); cbn; assumption. }
  destruct Hm as (m & Em & Hwf & Hv). change (charge d1 (pick d1 f r pref)) with (charge d1 x).
  unfold charge. rewrite Em. pose proof (Advance_exact (Progress m) (weight x) Hwf Hxw) as HA.
  destruct (Advance (Progress m) (weight x)) as [next ok]. destruct HA as (_ & Hok2 & _).
  destruct ok; cbn [negb]; [eauto|]. exfalso.
  assert (stepOf (weight x) <= two64).
  { unfold stepOf. destruct (Z.eqb_spec (weight x) 1); [lia|]. pose proof (div64_range (weight x)). lia. }
  assert (Hlt : value (Progress m) + stepOf (weight x) < two64 * two64) by (unfold rangeEnd in *; lia).
  apply Hok2 in Hlt. discriminate.
Qed.

Lemma select_empty rev d pref : selectCredential rev d [] pref = (d, None).
Proof. reflexivity. Qed.

(** The tier loop finds a credential when some weighted one is servable in a tier. *)
Lemma selectTiers_succeeds d it pool weighted now tiers c modes t : ledger_ok d -> roomy d ->
  weights_ok weighted -> (forall x, In x weighted -> accounted d x = true) ->
  In c weighted -> In modes tiers -> In t (targetsOf pool c.(meta).(meta_GroupID)) ->
  targetAvailable it t c.(meta) modes now = true ->
  exists c' t', snd (selectTiers d it pool weighted now tiers) = Selected c' t'.
Proof.
  intros Hd Hroom Hw Hacc Hc Hmodes Ht Hav. induction tiers as [|ms tiers IH]; [destruct Hmodes|].
  pose proof (selectTiers_spec it pool weighted now (ms :: tiers) d) as Hspec.
  cbn [selectTiers] in *. set (el := List.filter _ weighted) in *.
  destruct el as [|f r] eqn:Eel.
  - rewrite select_empty in *. apply IH. destruct Hmodes as [->|Hm]; [exfalso|exact Hm].
    assert (Hin : In c el).
    { apply filter_In. split; [exact Hc|]. apply existsb_exists. eauto. }
    rewrite Eel in Hin. destruct Hin.
  - assert (Hsub : forall x, In x (f :: r) -> In x weighted).
    { intros x Hx. rewrite <- Eel in Hx. apply filter_In in Hx. tauto. }
    assert (Hw' : weights_ok (f :: r)).
    { apply List.Forall_forall. intros x Hx. unfold weights_ok in Hw. rewrite List.Forall_forall in Hw. auto. }
    destruct (select_succeeds (cfg_Revision <$> it_snapshot it) d (f :: r) (it_preferredCredentialID it) f
      Hd Hroom Hw' (or_introl eq_refl) (Hacc f (Hsub f (or_introl eq_refl)))) as (d' & m & Es).
    rewrite Es in *. destruct (selectTarget d' it pool ms m now) as [d2 [t'|]]; cbn [snd] in *; [eauto|destruct Hspec].
Qed.

(** Some candidate is kept when one lies within the limit. *)
Lemma served_nonempty it pool cs x : In x cs -> within pool (priorityOf it x) ->
  exists c, In c (priorityCandidates it pool cs).
Proof.
  intros Hx Hwithin. unfold priorityCandidates. destruct (scan_spec it pool cs) as [Hb Hlow].
  destruct (foldl _ _ cs) as [[p|] lower]; cbn [fst snd] in *.
  - destruct Hb as (Hp & _ & _). destruct lower as [l|]; [destruct Hlow as (Hp' & _ & _)|];
      [apply in_map_iff in Hp' as (c & Hc1 & Hc2)|apply in_map_iff in Hp as (c & Hc1 & Hc2)];
      exists c; apply filter_In; (split; [exact Hc2|]); apply Z.eqb_eq; exact Hc1.
  - exfalso. apply (Hb (priorityOf it x)); [apply in_map, Hx|exact Hwithin].
Qed.

(** A target available in some mode is available in the modes of some tier. *)
Lemma tier_serves snapshot query it t m now : iterator_ok snapshot query it ->
  targetAvailable it t m allModes now = true ->
  exists modes, In modes (routeModeTiers it) /\ targetAvailable it t m modes now = true.
Proof.
  intros Hit Hav. unfold targetAvailable in *. apply andb_true_iff in Hav as [Hmem ->].
  apply bool_decide_eq_true in Hmem. destruct (iok_tiers _ _ _ Hit) as [->| ->].
  - exists [RouteNative; RouteConverted]. split; [left; reflexivity|].
    rewrite bool_decide_eq_true_2 by exact Hmem. reflexivity.
  - unfold allModes in Hmem. apply elem_of_cons in Hmem as [->|Hmem].
    + exists [RouteNative]. split; [left; reflexivity|].
      rewrite bool_decide_eq_true_2 by apply list_elem_of_here. reflexivity.
    + exists [RouteConverted]. split; [right; left; reflexivity|].
      rewrite bool_decide_eq_true_2 by exact Hmem. reflexivity.
Qed.

Section Complete.
Context {R : Type} `{SourceLaws R}.

Lemma effectiveWeight_bounds g w : manualWeightInvalid g = false -> manualWeightInvalid w = false ->
  0 <= effectiveWeight g w <= MaxWeight * MaxWeight.
Proof.
  unfold effectiveWeight, ConfiguredWeight, manualWeightInvalid, DefaultWeight, MaxWeight.
  destruct g, w; cbn; rewrite ?orb_false_iff, ?Z.ltb_ge, ?Z.gtb_ltb, ?Z.ltb_ge;
    intros; try case_if; zbool; try nia.
Qed.

(** Weights of a pool built from a valid configuration are within bounds. *)
Lemma weighted_weights_ok (source : R) snapshot query it pool targets modes now :
  source_ok source -> pool_ok targets pool -> incl targets (filterTargetsWithReason snapshot query).1 ->
  (forall config g v, snapshot = Some config -> config.(cfg_Groups) !! g = Some v ->
     manualWeightInvalid v.(gv_WeightManual) = false) ->
  weights_ok (withWeightedPool source it pool modes now).
Proof.
  intros Hok [Hpool _] Hincl Hvalid. apply List.Forall_forall. intros c Hc.
  apply weighted_spec in Hc as (_ & _ & Hpos & Hcand & t & Ht & _ & Hweight); [|exact Hok].
  apply Hpool in Ht as [Ht Hg].
  destruct (filterTargets_admitted snapshot query t (Hincl t Ht)) as (config & Hsnap & _ & Hview).
  pose proof (effectiveWeight_bounds _ _ (Hvalid _ _ _ Hsnap Hview) (source_weights _ _ _ _ _ Hok Hcand)).
  lia.
Qed.

(** A credential and a target of its group that satisfy every condition are weighed. *)
Lemma weighed (source : R) snapshot query it pool targets now m t gs :
  source_ok source -> pool_ok targets pool -> incl targets (filterTargetsWithReason snapshot query).1 ->
  In m (credentialCandidates source gs (fun id => bool_decide (id ∈ it.(tried))) now) ->
  credentialAllowed it m = true -> In t targets -> t.(target).(route_GroupID) = m.(meta_GroupID) ->
  targetAvailable it t m allModes now = true ->
  0 < effectiveWeight t.(group).(gv_WeightManual) m.(meta_WeightManual) ->
  exists w, In (mkWeighted m w) (withWeightedPool source it pool allModes now).
Proof.
  intros Hok [Hpool Hmode] Hincl Hm Ha Ht Hg Hav Hw.
  assert (Hgroup : In m.(meta_GroupID) (poolGroups pool allModes)).
  { unfold poolGroups. apply distinct_In. split; [|apply not_elem_of_empty]. apply in_concat.
    exists (default [] (assoc t.(target).(route_Mode) pool.(groupIDsByMode))). split.
    - apply in_map_iff. eexists. split; [reflexivity|]. unfold targetAvailable in Hav.
      apply andb_true_iff in Hav as [Hav _]. apply bool_decide_eq_true, list_elem_of_In in Hav. exact Hav.
    - rewrite <- Hg. apply Hmode, Ht. }
  assert (Hin : In t (targetsOf pool m.(meta_GroupID))) by (apply Hpool; auto).
  unfold withWeightedPool, weighCredential.
  destruct (List.find (fun t => targetAvailable it t m allModes now) (targetsOf pool (meta_GroupID m)))
    as [t1|] eqn:Ef.
  2: { pose proof (find_none _ _ Ef t Hin) as Hn. cbn in Hn. congruence. }
  apply find_some in Ef as Ef'. destruct Ef' as [Ht1 _]. apply Hpool in Ht1 as [Ht1 Hg1].
  destruct (filterTargets_admitted snapshot query t (Hincl t Ht)) as (config & Hsnap & _ & Hview).
  destruct (filterTargets_admitted snapshot query t1 (Hincl t1 Ht1)) as (config1 & Hsnap1 & _ & Hview1).
  assert (group t1 = group t) as Hgv by congruence.
  eexists. apply omap_In. exists m. split; [eapply source_local; eassumption|].
  rewrite Ha. cbn [negb]. rewrite Ef, Hgv. rewrite Z.gtb_ltb. apply Z.ltb_lt in Hw. rewrite Hw. reflexivity.
Qed.

(** What the pools of an iterator are made of. *)
Definition poolTargets (snapshot : option Config) (query : Query) (downgraded : bool) : list candidateTarget :=
  List.filter (fun t => if downgraded then t.(responsesStoreDowngraded) else negb t.(responsesStoreDowngraded))
    (filterTargetsWithReason snapshot query).1.

Section Ready.
Context (source : R) (snapshot : option Config) (query : Query) (it : Iterator).
Context (Hit : iterator_ok snapshot query it) (Hok : source_ok source) (Htr : source_tracked source).
Context (Hl : ledger_ok (SchedulingState source)) (Hroom : roomy (SchedulingState source)).
Context (Hvalid : forall config g v, snapshot = Some config -> config.(cfg_Groups) !! g = Some v ->
  manualWeightInvalid v.(gv_WeightManual) = false).

(** The credentials a pool weighs, in the tier it serves. *)
Definition weighedIn (pool : candidatePool) (at_ : Z) : list weightedCredential :=
  priorityCandidates it pool (withWeightedPool source it pool allModes at_).

Lemma weighedIn_ready pool down at_ : pool_ok (poolTargets snapshot query down) pool ->
  weights_ok (weighedIn pool at_) /\
  forall x, In x (weighedIn pool at_) -> accounted (SchedulingState source) x = true.
Proof.
  intros Hpool. assert (Hincl : incl (poolTargets snapshot query down) (filterTargetsWithReason snapshot query).1)
    by apply incl_filter.
  assert (Hws : weights_ok (withWeightedPool source it pool allModes at_)) by (eapply weighted_weights_ok; eassumption).
  split.
  - apply List.Forall_forall. intros x Hx. unfold weights_ok in Hws. rewrite List.Forall_forall in Hws.
    apply Hws. eapply priorityCandidates_incl; exact Hx.
  - intros [xm xw] Hx. apply priorityCandidates_incl, weighted_spec in Hx as (_ & _ & _ & Hcand & _); [|exact Hok].
    exact (source_accounted _ _ _ _ _ xw Htr Hcand).
Qed.

(** A tier loop that finds nobody has charged nobody. *)
Lemma selectTiers_exhausted pool weighted at_ tiers d : ledger_ok d -> roomy d -> weights_ok weighted ->
  (forall x, In x weighted -> accounted d x = true) ->
  snd (selectTiers d it pool weighted at_ tiers) = Exhausted ->
  fst (selectTiers d it pool weighted at_ tiers) = d.
Proof.
  intros Hd Hr Hw Hacc. induction tiers as [|modes tiers IH]; [reflexivity|]. cbn [selectTiers].
  set (el := List.filter _ weighted). destruct el as [|f r] eqn:Eel; [rewrite select_empty; exact IH|].
  assert (Hsub : forall x, In x (f :: r) -> In x weighted).
  { intros x Hx. rewrite <- Eel in Hx. apply filter_In in Hx. tauto. }
  assert (Hw' : weights_ok (f :: r)).
  { apply List.Forall_forall. intros x Hx. unfold weights_ok in Hw. rewrite List.Forall_forall in Hw. auto. }
  destruct (select_succeeds (cfg_Revision <$> it_snapshot it) d (f :: r) (it_preferredCredentialID it) f
    Hd Hr Hw' (or_introl eq_refl) (Hacc f (Hsub f (or_introl eq_refl)))) as (d' & m & Es).
  rewrite Es. destruct (selectTarget d' it pool modes m at_) as [d2 [t|]]; discriminate.
Qed.

Lemma selectPool_exhausted pool down at_ s : pool_ok (poolTargets snapshot query down) pool ->
  selectPool source it pool at_ = (s, Exhausted) -> s = withScheduling source (SchedulingState source).
Proof.
  intros Hpool. destruct (weighedIn_ready pool down at_ Hpool) as [Hw Hacc]. unfold selectPool, weighedIn in *.
  pose proof (selectTiers_exhausted pool _ at_ (routeModeTiers it) _ Hl Hroom Hw Hacc) as He.
  destruct (selectTiers _ _ _ _ _ _) as [d r]. cbn [fst snd] in He. intros [= <- ->]. now rewrite He.
Qed.

(** A pool with a servable target within its limit selects, before and after the
    ledger has been written back unchanged. *)
Lemma selectPool_complete pool down at_ gs m t s : pool_ok (poolTargets snapshot query down) pool ->
  s = source \/ s = withScheduling source (SchedulingState source) ->
  In m (credentialCandidates source gs (fun id => bool_decide (id ∈ it.(tried))) at_) ->
  credentialAllowed it m = true -> In t (poolTargets snapshot query down) ->
  t.(target).(route_GroupID) = m.(meta_GroupID) -> targetAvailable it t m allModes at_ = true ->
  0 < effectiveWeight t.(group).(gv_WeightManual) m.(meta_WeightManual) ->
  within pool t.(group).(gv_Priority) ->
  exists c t', snd (selectPool s it pool at_) = Selected c t'.
Proof.
  intros Hpool Hs Hm Ha Htt Hg Hav Hw Hwithin.
  assert (Hincl : incl (poolTargets snapshot query down) (filterTargetsWithReason snapshot query).1)
    by apply incl_filter.
  destruct (weighed source snapshot query it pool _ at_ m t gs Hok Hpool Hincl Hm Ha Htt Hg Hav Hw) as [w Hin].
  assert (Hprio : priorityOf it (mkWeighted m w) = gv_Priority (group t)).
  { destruct (filterTargets_admitted snapshot query t (Hincl t Htt)) as (config & Hsnap & _ & Hview).
    unfold priorityOf. rewrite (iok_snapshot _ _ _ Hit), Hsnap. cbn [meta]. rewrite <- Hg, Hview. reflexivity. }
  destruct (served_nonempty it pool _ (mkWeighted m w) Hin ltac:(rewrite Hprio; exact Hwithin)) as [c Hc].
  destruct (weighedIn_ready pool down at_ Hpool) as [Hpw Hacc]. unfold weighedIn in *.
  destruct (weighted_spec source it pool allModes at_ c Hok (priorityCandidates_incl _ _ _ _ Hc))
    as (_ & _ & _ & _ & t1 & Ht1 & Hav1 & _).
  destruct (tier_serves snapshot query it t1 (meta c) at_ Hit Hav1) as (modes & Hmodes & Hav2).
  destruct (selectTiers_succeeds _ it pool _ at_ (routeModeTiers it) c modes t1 Hl Hroom Hpw Hacc Hc
    Hmodes Ht1 Hav2) as (c' & t' & Hsel).
  exists c', t'. unfold selectPool.
  assert (Ew : withWeightedPool s it pool allModes at_ = withWeightedPool source it pool allModes at_)
    by (destruct Hs as [->| ->]; auto using withWeightedPool_stable).
  assert (Es : SchedulingState s = SchedulingState source) by (destruct Hs as [->| ->]; auto using source_progress).
  rewrite Ew, Es. destruct (selectTiers _ it pool _ at_ (routeModeTiers it)) as [d' r]. exact Hsel.
Qed.

End Ready.

(** [C29] The scheduler is complete.  Take a credential that is available, untried
    and allowed, and a target of the query in its group - one the regular pool
    holds, or one of the pool of targets that would downgrade a stored response,
    which [Next] visits second - whose model is not cooling down, such that the
    combined weight is positive and the group's priority is within the limit
    earlier failures have left in that pool.  Then [Next] selects a credential, as
    long as the fairness counters have not reached the end of their range.  Each
    pool is judged at the clock reading [Next] takes for it. *)
Theorem next_complete (source : R) snapshot query it now now' gs m t :
  derived R snapshot query it -> source_ok source -> source_tracked source ->
  ledger_ok (SchedulingState source) -> roomy (SchedulingState source) ->
  (forall config g v, snapshot = Some config -> config.(cfg_Groups) !! g = Some v ->
     manualWeightInvalid v.(gv_WeightManual) = false) ->
  let at_ := if t.(responsesStoreDowngraded) then now' else now in
  In m (credentialCandidates source gs (fun id => bool_decide (id ∈ it.(tried))) at_) ->
  credentialAllowed it m = true ->
  In t (filterTargetsWithReason snapshot query).1 ->
  t.(target).(route_GroupID) = m.(meta_GroupID) ->
  targetAvailable it t m allModes at_ = true ->
  0 < effectiveWeight t.(group).(gv_WeightManual) m.(meta_WeightManual) ->
  within (poolOf it t) t.(group).(gv_Priority) ->
  exists c t', (Next source it now now').2 = Selected c t'.
Proof.
  intros Hd Hok Htr Hl Hroom Hvalid at_ Hm Ha Ht Hg Hav Hw Hwithin. apply derived_ok in Hd as Hit.
  pose proof (iok_regular _ _ _ Hit : pool_ok (poolTargets snapshot query false) _) as Hpr.
  pose proof (iok_downgraded _ _ _ Hit : pool_ok (poolTargets snapshot query true) _) as Hpd.
  pose proof (selectPool_spec source it (regular it) now) as Hspec.
  pose proof (selectPool_exhausted source snapshot query it Hok Htr Hl Hroom Hvalid (regular it) false now) as Hex.
  pose proof (fun pool down => selectPool_complete source snapshot query it Hit Hok Htr Hl Hroom Hvalid
    pool down at_ gs m t) as Hc.
  assert (Htt : In t (poolTargets snapshot query (responsesStoreDowngraded t))).
  { apply filter_In. split; [exact Ht|]. now destruct (responsesStoreDowngraded t) eqn:E; rewrite ?E. }
  unfold poolOf, Next in *. subst at_. destruct (responsesStoreDowngraded t).
  - destruct (selectPool source it (regular it) now) as [s1 [| |c1 t1]]; [|destruct Hspec|eauto].
    destruct (Hc (storeDowngraded it) true s1 Hpd (or_intror (Hex s1 Hpr eq_refl)) Hm Ha Htt Hg Hav Hw Hwithin)
      as (c & t' & Hsel).
    destruct (selectPool s1 it (storeDowngraded it) now') as [s2 r]. cbn [snd] in Hsel. rewrite Hsel. eauto.
  - destruct (Hc (regular it) false source Hpr (or_introl eq_refl) Hm Ha Htt Hg Hav Hw Hwithin) as (c & t' & Hsel).
    destruct (selectPool source it (regular it) now) as [s1 r]. cbn [snd] in Hsel. rewrite Hsel. eauto.
Qed.

End Complete.

(** ** The credential registry is a lawful source *)

Import Registry RegistryFacts RegistryProps.

#[export] Program Instance registry_laws : SourceLaws CredentialRegistry := {
  source_ok := structure_ok;
  source_tracked := registry_ok;
}.
Next Obligation. reflexivity. Qed.
Next Obligation. reflexivity. Qed.
Next Obligation. intros r d [H1 H2 H3]. split; assumption. Qed.
Next Obligation.
  intros r gs ex now m HS Hm. apply candidate_spec in Hm as (g & id & e & Hg & He & Hx & _ & ->).
  destruct (sok_entry r HS _ _ _ He) as (_ & <- & _). auto.
Qed.
Next Obligation.
  intros r gs gs' ex now m HS Hm Hin. apply candidate_spec in Hm as (g & id & e & Hg & He & Hx & Hs & ->).
  destruct (sok_entry r HS _ _ _ He) as (_ & <- & _). apply candidate_spec. eauto 10.
Qed.
Next Obligation.
  intros r gs ex now m HS Hm. apply candidate_spec in Hm as (g & id & e & _ & He & _ & _ & ->).
  destruct (sok_entry r HS _ _ _ He) as (_ & _ & _ & Hv). unfold entry_valid, validateEntry in Hv.
  no_error. assumption.
Qed.
Next Obligation. intros r gs ex now m w Hr. apply candidate_accounted, Hr. Qed.

(** ** Inspection agrees with scheduling *)

Lemma weightZero_configured w : manualWeightInvalid w = false -> weightZero w = false ->
  0 < ConfiguredWeight w.
Proof.
  unfold manualWeightInvalid, weightZero, ConfiguredWeight, DefaultWeight. destruct w; cbn; [|lia].
  rewrite orb_false_iff. intros [H1 _] H2. zbool. lia.
Qed.

Lemma effectiveWeight_positive g w : manualWeightInvalid g = false -> manualWeightInvalid w = false ->
  (0 < effectiveWeight g w <-> weightZero g = false /\ weightZero w = false).
Proof.
  intros Hg Hw. unfold effectiveWeight. split.
  - case_if; [lia|]. intros _. zbool. unfold ConfiguredWeight, weightZero in *.
    destruct g, w; cbn in *; rewrite ?Z.eqb_neq; repeat split; lia.
  - intros [Zg Zw]. pose proof (weightZero_configured g Hg Zg). pose proof (weightZero_configured w Hw Zw).
    case_if; [|nia]. apply orb_true_iff in E as [E|E]; zbool; lia.
Qed.

(** The inspection shown to operators agrees with scheduling: a credential is
    reported available with positive weight exactly when the registry would offer
    it to the scheduler now, it is among the allowed credentials, the weight used
    for selection is positive and its model is not cooling down, and then the
    reported weight is the one used for selection. *)
Theorem inspection_agrees_with_scheduling view e allowed now model operation :
  manualWeightInvalid view.(catalog_WeightManual) = false -> manualWeightInvalid e.(WeightManual) = false ->
  let c := inspectCredential view (runtimeView e) allowed now model operation in
  let weight := effectiveWeight view.(catalog_WeightManual) e.(WeightManual) in
  (c.(Available) = true /\ 0 < c.(EffectiveWeight) <->
   schedulable now e = true /\ (forall ids, allowed = Some ids -> ID e ∈ ids) /\ 0 < weight /\
   modelCooldownUntil e.(ModelCooldowns) model operation now <= now) /\
  (c.(Available) = true -> c.(EffectiveWeight) = weight).
Proof.
  intros Hg Hw c weight. pose proof (effectiveWeight_positive _ _ Hg Hw) as Hpos. fold weight in Hpos.
  unfold c, inspectCredential. clear c.
  assert (Hallow : (forall ids, allowed = Some ids -> ID e ∈ ids) <->
    match allowed with Some ids => negb (bool_decide (ID e ∈ ids)) | None => false end = false).
  { destruct allowed as [ids|]; [|split; [reflexivity|discriminate]].
    rewrite negb_false_iff, bool_decide_eq_true. split; [auto|]. intros Hx x [= <-]. exact Hx. }
  rewrite Hallow, schedulable_spec, Hpos. clear Hallow Hpos.
  cbn [view_ID view_Status view_WeightManual view_CooldownUntil view_ModelCooldowns runtimeView].
  destruct (weightZero (catalog_WeightManual view)) eqn:Zg; [cbn; intuition discriminate|].
  destruct (match allowed with Some ids => _ | None => _ end); [cbn; intuition discriminate|].
  unfold AuthReady, RuntimeState. cbn [view_Status view_AuthState view_Blacklisted view_CooldownUntil runtimeView].
  assert (Hnn : normalize (normalize (AuthState e)) = normalize (AuthState e)).
  { unfold normalize. repeat case_if; try reflexivity; congruence. }
  rewrite Hnn. case_bool_decide as Hst; [cbn; intuition discriminate|].
  case_bool_decide as Hau; cbn [negb]; [|cbn; intuition (discriminate || contradiction)].
  destruct (weightZero (WeightManual e)) eqn:Zw; [cbn; intuition discriminate|].
  destruct (Blacklisted e); [cbn; intuition discriminate|].
  destruct (Z.gtb_spec (Credential.CooldownUntil e) now); [cbn; intuition (discriminate || lia)|].
  rewrite Z.gtb_ltb. destruct (Z.ltb_spec now (modelCooldownUntil (ModelCooldowns e) model operation now));
    cbn [Available EffectiveWeight]; [intuition (discriminate || lia)|].
  assert (0 < weight).
  { apply (effectiveWeight_positive _ _ Hg Hw). auto. }
  unfold weight in *. tauto.
Qed.

(** ** An example: two groups of different priority serving one model *)

Definition sampleResolved : ResolvedTarget :=
  mkResolved (mkWebsocket false false false false false) "openai" "" (fun _ _ => Some RouteNative)
    (fun _ _ => ResponsesStoreHandlingNone).

Definition sampleConfig : Config :=
  mkConfig 1 (RouteStrategyOther "native_first")
    [(OpenAICompletions, [(OperationChatCompletion,
       [("gpt", [mkRoute 8 "gpt-up" RouteNative sampleResolved;
                 mkRoute 9 "gpt-up" RouteConverted sampleResolved])])])]
    [] (<[8 := mkGroup 1 [mkModelConfig "gpt-up" "gpt"] false None]>
         {[9 := mkGroup 5 [mkModelConfig "gpt-up" "gpt"] false (Some 10)]})
    (<[8 := mkCatalogView 8 "low" 1 true None]> {[9 := mkCatalogView 9 "high" 5 true (Some 10)]}).

Definition sampleQuery : Query :=
  mkQuery OpenAICompletions OperationChatCompletion RouteRequirementAny ResponsesStorePreferenceNone
    (Some "gpt") (mkAccessKey AccessKeyStatusActive (mkFilters ∅ [] ∅)) None 0 None None.

Definition sampleIterator : Iterator := newIterator (Some sampleConfig) sampleQuery.
Definition sampleSource : CredentialRegistry := fst (New sampleRegistry (Some sampleConfig) sampleQuery).

Lemma sample_source_ok : registry_ok sampleSource.
Proof.
  apply reachable_ok. eapply rr_step; [apply sample_reachable|].
  apply (rs_groups sampleRegistry (Some (ledgerSnapshot sampleConfig))).
Qed.

(** The higher priority wins although its route is a converted one. *)
Definition samplePick : CredentialRegistry * Iterator * outcome := Next sampleSource sampleIterator 2000 2000.
Definition sampleChosen : candidateTarget :=
  mkCandidate (mkRoute 9 "gpt-up" RouteConverted sampleResolved)
    (mkGroup 5 [mkModelConfig "gpt-up" "gpt"] false (Some 10)) false.

Lemma sample_next : samplePick = (samplePick.1.1, samplePick.1.2, Selected (metaOf (sampleEntry 1 9)) sampleChosen).
Proof. vm_compute. reflexivity. Qed.

Lemma selections_admissible_witness :
  samplePick.1.2.(tried) = {[1]} ∪ ∅ /\
  exists config at_, Some sampleConfig = Some config /\ (at_ = 2000 \/ at_ = 2000) /\
    admissible sampleSource config sampleQuery sampleIterator at_ (metaOf (sampleEntry 1 9)) sampleChosen.
Proof.
  exact (selections_admissible sampleSource samplePick.1.1 (Some sampleConfig) sampleQuery sampleIterator
    samplePick.1.2 2000 2000 (Selected (metaOf (sampleEntry 1 9)) sampleChosen)
    (derived_new CredentialRegistry (Some sampleConfig) sampleQuery)
    (rok_structure _ sample_source_ok) sample_next).
Defined.

Lemma selections_respect_priority_witness :
  servedTier (poolOf sampleIterator sampleChosen)
    (map (priorityOf sampleIterator)
       (withWeightedPool sampleSource sampleIterator (poolOf sampleIterator sampleChosen) allModes 2000)) 5.
Proof.
  exact (selections_respect_priority sampleSource samplePick.1.1 (Some sampleConfig) sampleQuery sampleIterator
    samplePick.1.2 2000 2000 (metaOf (sampleEntry 1 9)) sampleChosen
    (derived_new CredentialRegistry (Some sampleConfig) sampleQuery)
    (rok_structure _ sample_source_ok) sample_next).
Defined.

Lemma attempts_distinct_and_bounded_witness :
  attempts (R := CredentialRegistry) sampleIterator [1] samplePick.1.2 /\ (1 <= size ({[1%Z; 2%Z; 3%Z]} : gset Z))%nat.
Proof.
  assert (Ha : attempts (R := CredentialRegistry) sampleIterator ([] ++ [1]) samplePick.1.2).
  { exact (attempts_select sampleIterator [] sampleIterator sampleSource samplePick.1.1 samplePick.1.2 2000 2000
      (metaOf (sampleEntry 1 9)) sampleChosen (attempts_none sampleIterator)
      (rok_structure _ sample_source_ok) sample_next). }
  split; [exact Ha|].
  apply (attempts_distinct_and_bounded sampleIterator [1] samplePick.1.2 {[1; 2; 3]} Ha).
  intros id Hid. apply list_elem_of_singleton in Hid as ->. vm_compute. reflexivity.
Defined.

Lemma sample_room : roomy (SchedulingState sampleSource).
Proof.
  split; [vm_compute; discriminate|]. split; [vm_compute; reflexivity|].
  assert (Hall : map_Forall (fun _ m => value (Progress m) < rangeEnd - 2 * two64)
    (Members (SchedulingState sampleSource))) by (apply (bool_decide_unpack _); vm_compute; exact I).
  exact Hall.
Qed.

(** A query that prefers a stored response, served by stateless channels only:
    every target is in the second pool. *)
Definition sampleStateless : ResolvedTarget :=
  mkResolved (mkWebsocket false false false false false) "openai" "" (fun _ _ => Some RouteNative)
    (fun _ _ => ResponsesStoreHandlingStateless).

Definition sampleStoreConfig : Config :=
  mkConfig 1 (RouteStrategyOther "native_first")
    [(OpenAIResponses, [(OperationResponsesCreate,
       [("gpt", [mkRoute 8 "gpt-up" RouteNative sampleStateless;
                 mkRoute 9 "gpt-up" RouteConverted sampleStateless])])])]
    [] sampleConfig.(cfg_Groups) sampleConfig.(cfg_GroupCatalog).

Definition sampleStoreQuery : Query :=
  mkQuery OpenAIResponses OperationResponsesCreate RouteRequirementAny ResponsesStorePreferencePreferStored
    (Some "gpt") (mkAccessKey AccessKeyStatusActive (mkFilters ∅ [] ∅)) None 0 None None.

Definition sampleStoreIterator : Iterator := newIterator (Some sampleStoreConfig) sampleStoreQuery.
Definition sampleStoreTarget : candidateTarget :=
  mkCandidate (mkRoute 9 "gpt-up" RouteConverted sampleStateless)
    (mkGroup 5 [mkModelConfig "gpt-up" "gpt"] false (Some 10)) true.

Lemma sample_weights config g v : Some sampleStoreConfig = Some config -> cfg_Groups config !! g = Some v ->
  manualWeightInvalid (gv_WeightManual v) = false.
Proof.
  intros [= <-] Hv.
  assert (Hall : map_Forall (fun _ v => manualWeightInvalid (gv_WeightManual v) = false) (cfg_Groups sampleConfig)).
  { apply map_Forall_insert_2; [reflexivity|]. apply map_Forall_singleton. reflexivity. }
  exact (Hall g v Hv).
Qed.

Lemma next_complete_witness :
  responsesStoreDowngraded sampleStoreTarget = true /\
  exists c t, (Next sampleSource sampleStoreIterator 2000 2001).2 = Selected c t.
Proof.
  split; [reflexivity|].
  apply (next_complete sampleSource (Some sampleStoreConfig) sampleStoreQuery sampleStoreIterator 2000 2001 [9]
    (metaOf (sampleEntry 1 9)) sampleStoreTarget).
  - apply derived_new.
  - apply sample_source_ok.
  - apply sample_source_ok.
  - apply sample_source_ok.
  - apply sample_room.
  - exact sample_weights.
  - vm_compute. right. left. reflexivity.
  - reflexivity.
  - vm_compute. right. left. reflexivity.
  - reflexivity.
  - reflexivity.
  - reflexivity.
  - exact I.
Defined.

Lemma inspection_agrees_with_scheduling_witness :
  let c := inspectCredential (mkCatalogView 9 "high" 5 true (Some 10)) (runtimeView (sampleEntry 1 9)) None 2000
             "gpt-up" OperationChatCompletion in
  c.(Available) = true /\ c.(EffectiveWeight) = 500.
Proof.
  intros c. split; [reflexivity|].
  apply (inspection_agrees_with_scheduling (mkCatalogView 9 "high" 5 true (Some 10)) (sampleEntry 1 9) None 2000
    "gpt-up" OperationChatCompletion); reflexivity.
Defined.
End SchedulerProps.
