(* ===== verification/Quota.v ===== *)
(** * Access-key cost limits

    [internal/accessquota/runtime.go]: the rules that limit the estimated cost of
    an access key, the validation of rule definitions and of checkpointed states,
    and the decisions and views derived from externally owned rule state.  A
    [*int64] is an [option Z]; times are Unix milliseconds; a [Kind] is the string
    the configuration carries.  [sort.Slice] is a merge sort: its order is strict
    on validated rules, where every sort gives the same list. *)

From Stdlib Require Import ZArith Lia Bool String List Permutation Sorted.
From stdpp Require Import base gmap sets list strings sorting.
From coqutil Require Import Datatypes.RecordSettersUsingExistingGetters.
From S2P Require Import Prelude.

Local Open Scope Z_scope.
Local Open Scope go_scope.

Module Quota.

Definition MinPeriodSeconds : Z := 60.
Definition MaxPeriodSeconds : Z := 365 * 24 * 60 * 60.
Definition MaxPeriodicRules : Z := 10.

Definition KindTotal : string := "total".
Definition KindPeriodic : string := "periodic".

Record Rule := mkRule {
  ID : Z;
  Revision : Z;
  Kind : string;
  Currency : string;
  LimitNano : Z;
  PeriodSeconds : Z;
}.

Record RestoredState := mkRestored {
  AccessKeyID : Z;
  RuleID : Z;
  RuleRevision : Z;
  UsedNano : Z;
  WindowStartedAtMS : option Z;
  WindowEndsAtMS : option Z;
  WindowGeneration : Z;
  SnapshotVersion : Z;
}.

Inductive RuleStatus := RuleStatusAvailable | RuleStatusInactive | RuleStatusExhausted.

#[export] Instance RuleStatus_eq_dec : EqDecision RuleStatus.
Proof. solve_decision. Defined.

Record RuleView := mkRuleView {
  view_Rule : Rule;
  view_UsedNano : Z;
  view_RemainingNano : Z;
  view_Status : RuleStatus;
  view_WindowStartedAtMS : option Z;
  view_WindowEndsAtMS : option Z;
  view_WindowGeneration : Z;
}.

Record Decision := mkDecision {
  Allowed : bool;
  Recoverable : bool;
  NextAvailableAtMS : option Z;
  BlockingRules : list RuleView;
}.

Record View := mkView {
  ObservedAtMS : Z;
  view_Allowed : bool;
  view_Recoverable : bool;
  view_NextAvailableAtMS : option Z;
  Rules : list RuleView;
}.

Record runtimeRule := mkRuntimeRule {
  definition : Rule;
  usedNano : Z;
  windowStartedAtMS : option Z;
  windowEndsAtMS : option Z;
  windowGeneration : Z;
}.

Record accessKeyEntry := mkEntry { rules : list runtimeRule }.

(** The errors, one per message of the source. *)
Inductive QuotaError :=
| AccessKeyIDRequired
| InvalidRule
| DuplicateRule (rule owner key : Z)
| TotalPeriodNotZero (rule : Z)
| PeriodOutOfRange (rule : Z)
| DuplicatePeriod (rule : Z)
| InvalidKind (rule : Z)
| RuleCountExceeded (key : Z)
| InvalidPersistedState (rule : Z)
| IncompleteWindow (rule : Z)
| InvalidWindow (rule : Z)
| StateMismatch (rule : Z)
| TotalHasWindow (rule : Z)
| InactiveHasUsage (rule : Z)
| ActiveHasNoGeneration (rule : Z)
| WindowDurationMismatch (rule : Z).

Definition isKind (kind : string) (rule : Rule) : bool := bool_decide (rule.(Kind) = kind).

(** ** Validation of definitions *)

(** The locals of [validateRules]; [globalRuleIDs] is the map it shares with its
    caller. *)
Record ruleCheck := mkCheck {
  totalCount : Z;
  periodicCount : Z;
  periods : gset Z;
  globalRuleIDs : gmap Z Z;
}.

(** One iteration of the loop of [validateRules]. *)
Definition validateRule (accessKeyID : Z) (st : ruleCheck) (rule : Rule) : result QuotaError ruleCheck :=
  if (rule.(ID) =? 0) || (rule.(Revision) =? 0) || (rule.(LimitNano) <=? 0) then Err InvalidRule
  else match st.(globalRuleIDs) !! rule.(ID) with
  | Some owner => Err (DuplicateRule rule.(ID) owner accessKeyID)
  | None =>
    let st := st <| globalRuleIDs := <[rule.(ID) := accessKeyID]> st.(globalRuleIDs) |> in
    if isKind KindTotal rule then
      let st := st <| totalCount := st.(totalCount) + 1 |> in
      if negb (rule.(PeriodSeconds) =? 0) then Err (TotalPeriodNotZero rule.(ID)) else Ok st
    else if isKind KindPeriodic rule then
      let st := st <| periodicCount := st.(periodicCount) + 1 |> in
      if (rule.(PeriodSeconds) <? MinPeriodSeconds) || (rule.(PeriodSeconds) >? MaxPeriodSeconds)
      then Err (PeriodOutOfRange rule.(ID))
      else if bool_decide (rule.(PeriodSeconds) ∈ st.(periods)) then Err (DuplicatePeriod rule.(ID))
      else Ok (st <| periods := {[rule.(PeriodSeconds)]} ∪ st.(periods) |>)
    else Err (InvalidKind rule.(ID))
  end.

Fixpoint validateLoop (accessKeyID : Z) (st : ruleCheck) (rs : list Rule) : result QuotaError ruleCheck :=
  match rs with
  | [] => Ok st
  | rule :: rs =>
    let? st := validateRule accessKeyID st rule in
    validateLoop accessKeyID st rs
  end.

(** Returns the rule identities registered so far, which the source updates in
    place. *)
Definition validateRules (accessKeyID : Z) (rs : list Rule) (ids : gmap Z Z) : result QuotaError (gmap Z Z) :=
  let? st := validateLoop accessKeyID (mkCheck 0 0 ∅ ids) rs in
  if (st.(totalCount) >? 1) || (st.(periodicCount) >? MaxPeriodicRules)
  then Err (RuleCountExceeded accessKeyID)
  else Ok st.(globalRuleIDs).

Definition ruleLess (left right : Rule) : bool :=
  if negb (bool_decide (left.(Kind) = right.(Kind))) then isKind KindTotal left
  else if negb (left.(PeriodSeconds) =? right.(PeriodSeconds))
  then left.(PeriodSeconds) <? right.(PeriodSeconds)
  else left.(ID) <? right.(ID).

Definition ruleOrder (left right : Rule) : Prop := ruleLess right left = false.

#[export] Instance ruleOrder_dec : RelDecision ruleOrder.
Proof. intros l r. unfold ruleOrder. apply _. Defined.

Definition sortRules (rs : list Rule) : list Rule := merge_sort ruleOrder rs.

(** The loop of [normalizeDefinitions] over the entries of the definitions map, in
    the order the runtime iterates them. *)
Fixpoint normalizeLoop (normalized : gmap Z (list Rule)) (ids : gmap Z Z) (entries : list (Z * list Rule))
    : result QuotaError (gmap Z (list Rule)) :=
  match entries with
  | [] => Ok normalized
  | (accessKeyID, source) :: entries =>
    if accessKeyID =? 0 then Err AccessKeyIDRequired
    else match source with
    | [] => normalizeLoop normalized ids entries
    | _ =>
      let? ids := validateRules accessKeyID source ids in
      normalizeLoop (<[accessKeyID := sortRules source]> normalized) ids entries
    end
  end.

Definition normalizeDefinitions (definitions : list (Z * list Rule)) : result QuotaError (gmap Z (list Rule)) :=
  normalizeLoop ∅ ∅ definitions.

Definition ValidateDefinitions (definitions : list (Z * list Rule)) : option QuotaError :=
  match normalizeDefinitions definitions with Ok _ => None | Err e => Some e end.

(** ** Restored state *)

Definition validateRestoredState (state : RestoredState) : option QuotaError :=
  err_if ((state.(AccessKeyID) =? 0) || (state.(RuleID) =? 0) || (state.(RuleRevision) =? 0) ||
          (state.(UsedNano) <? 0) || (state.(SnapshotVersion) =? 0)) (InvalidPersistedState state.(RuleID)) ;;!
  match state.(WindowStartedAtMS), state.(WindowEndsAtMS) with
  | None, None => None
  | Some started, Some ends =>
    err_if ((started <? 0) || (ends <=? started)) (InvalidWindow state.(RuleID))
  | _, _ => Some (IncompleteWindow state.(RuleID))
  end.

(** The four assignments [applyRestoredState] and [entryFromStates] share. *)
Definition loadState (rule : runtimeRule) (state : RestoredState) : runtimeRule :=
  rule <| usedNano := state.(UsedNano) |>
       <| windowStartedAtMS := state.(WindowStartedAtMS) |>
       <| windowEndsAtMS := state.(WindowEndsAtMS) |>
       <| windowGeneration := state.(WindowGeneration) |>.

(** Dereferencing a nil pointer does not occur: validated states have both window
    bounds or neither; [default 0] stands for the dereference. *)
Definition applyRestoredState (rule : runtimeRule) (state : RestoredState) : result QuotaError runtimeRule :=
  let id := rule.(definition).(ID) in
  let failure :=
    if isKind KindTotal rule.(definition) then
      err_if (negb (bool_decide (state.(WindowStartedAtMS) = None)) ||
              negb (bool_decide (state.(WindowEndsAtMS) = None)) ||
              negb (state.(WindowGeneration) =? 0)) (TotalHasWindow id)
    else match state.(WindowStartedAtMS) with
    | None => err_if (negb (state.(UsedNano) =? 0) || negb (state.(WindowGeneration) =? 0)) (InactiveHasUsage id)
    | Some started =>
      err_if (state.(WindowGeneration) =? 0) (ActiveHasNoGeneration id) ;;!
      (let windowDurationMS := wrap_i64 (default 0 state.(WindowEndsAtMS) - started) in
       err_if (negb (windowDurationMS =? wrap_i64 (rule.(definition).(PeriodSeconds) * 1000)))
              (WindowDurationMismatch id))
    end in
  match failure with
  | Some e => Err e
  | None => Ok (loadState rule state)
  end.

Definition newRuntimeRule (rule : Rule) : runtimeRule := mkRuntimeRule rule 0 None None 0.

Definition ValidateRestoredState (rule : Rule) (state : RestoredState) : option QuotaError :=
  validateRestoredState state ;;!
  (err_if (negb (state.(RuleID) =? rule.(ID)) || negb (state.(RuleRevision) =? rule.(Revision)))
          (StateMismatch rule.(ID)) ;;!
   match applyRestoredState (newRuntimeRule rule) state with
   | Ok _ => None
   | Err e => Some e
   end).

Definition newAccessKeyEntry (rs : list Rule) : accessKeyEntry := mkEntry (map newRuntimeRule rs).

Definition entryFromStates (rs : list Rule) (states : gmap Z RestoredState) : accessKeyEntry :=
  let entry := newAccessKeyEntry (sortRules rs) in
  mkEntry (map (fun rule =>
    match states !! rule.(definition).(ID) with
    | None => rule
    | Some state => loadState rule state
    end) entry.(rules)).

(** ** Decisions and views *)

Definition periodicInactive (rule : runtimeRule) (nowMS : Z) : bool :=
  match rule.(windowStartedAtMS), rule.(windowEndsAtMS) with
  | Some _, Some ends => nowMS >=? ends
  | _, _ => true
  end.

Definition remaining (limit used : Z) : Z :=
  if used >=? limit then 0 else wrap_i64 (limit - used).

Definition ruleViewOf (rule : runtimeRule) (nowMS : Z) : RuleView :=
  let view := mkRuleView rule.(definition) 0 rule.(definition).(LimitNano) RuleStatusAvailable None None
                rule.(windowGeneration) in
  if isKind KindPeriodic rule.(definition) && periodicInactive rule nowMS
  then view <| view_Status := RuleStatusInactive |>
  else
    let view := view <| view_UsedNano := rule.(usedNano) |>
                     <| view_RemainingNano := remaining rule.(definition).(LimitNano) rule.(usedNano) |>
                     <| view_WindowStartedAtMS := rule.(windowStartedAtMS) |>
                     <| view_WindowEndsAtMS := rule.(windowEndsAtMS) |> in
    if rule.(usedNano) >=? rule.(definition).(LimitNano)
    then view <| view_Status := RuleStatusExhausted |> else view.

Definition allowedDecision : Decision := mkDecision true true None [].

(** One iteration of [decisionOf]; the second component is its local [next]. *)
Definition decisionStep (nowMS : Z) (st : Decision * Z) (rule : runtimeRule) : Decision * Z :=
  let '(decision, next) := st in
  let view := ruleViewOf rule nowMS in
  if negb (bool_decide (view.(view_Status) = RuleStatusExhausted)) then (decision, next)
  else
    let decision := decision <| Allowed := false |>
                             <| BlockingRules := decision.(BlockingRules) ++ [view] |> in
    if isKind KindTotal rule.(definition)
    then (decision <| Recoverable := false |> <| NextAvailableAtMS := None |>, next)
    else match view.(view_WindowEndsAtMS) with
    | Some ends => (decision, if decision.(Recoverable) && (ends >? next) then ends else next)
    | None => (decision, next)
    end.

Definition decisionOf (entry : accessKeyEntry) (nowMS : Z) : Decision :=
  let '(decision, next) := foldl (decisionStep nowMS) (allowedDecision, 0) entry.(rules) in
  if negb decision.(Allowed) && decision.(Recoverable) && (next >? 0)
  then decision <| NextAvailableAtMS := Some next |>
  else decision.

Definition viewOf (entry : option accessKeyEntry) (nowMS : Z) : View :=
  let empty := mkView nowMS true true None [] in
  match entry with
  | None => empty
  | Some entry =>
    if bool_decide (entry.(rules) = []) then empty
    else
      let decision := decisionOf entry nowMS in
      mkView nowMS decision.(Allowed) decision.(Recoverable) decision.(NextAvailableAtMS)
        (map (fun rule => ruleViewOf rule nowMS) entry.(rules))
  end.

Definition DecisionFor (rs : list Rule) (states : gmap Z RestoredState) (nowMS : Z) : Decision :=
  decisionOf (entryFromStates rs states) nowMS.

Definition ViewFor (rs : list Rule) (states : gmap Z RestoredState) (nowMS : Z) : View :=
  viewOf (Some (entryFromStates rs states)) nowMS.


(** ** What blocks an access key *)

(** A rule blocks at [now] when its usage reached its limit and, for a periodic
    rule, its window is still open. *)
Definition blocks (now : Z) (rule : runtimeRule) : bool :=
  (rule.(definition).(LimitNano) <=? rule.(usedNano)) &&
  negb (isKind KindPeriodic rule.(definition) && periodicInactive rule now).

Definition windowEnd (rule : runtimeRule) : Z := default 0 rule.(windowEndsAtMS).

Lemma exhausted_blocks now rule :
  bool_decide ((ruleViewOf rule now).(view_Status) = RuleStatusExhausted) = blocks now rule.
Proof.
  unfold ruleViewOf, blocks. case_if; cbn; [now rewrite andb_false_r|].
  rewrite andb_true_r, Z.geb_leb. case_if; cbn; reflexivity.
Qed.

(** The state of the loop of [decisionOf] after a list of rules. *)
Lemma decision_loop now l d n : NextAvailableAtMS d = None -> 0 <= n ->
  let '(d', n') := foldl (decisionStep now) (d, n) l in
  Allowed d' = Allowed d && forallb (fun r => negb (blocks now r)) l /\
  Recoverable d' = Recoverable d && forallb (fun r => negb (blocks now r && isKind KindTotal r.(definition))) l /\
  BlockingRules d' = BlockingRules d ++ map (fun r => ruleViewOf r now) (List.filter (blocks now) l) /\
  NextAvailableAtMS d' = None /\
  (Recoverable d' = true -> n' = fold_left Z.max (map windowEnd (List.filter (blocks now) l)) n).
Proof.
  revert d n. induction l as [|r l IH]; intros d n Hd Hn; cbn [foldl].
  { cbn. rewrite !andb_true_r, app_nil_r. auto. }
  unfold decisionStep at 2. rewrite exhausted_blocks. cbn [forallb List.filter].
  destruct (blocks now r) eqn:Eb; cbn [negb andb].
  2: { now apply IH. }
  set (v := ruleViewOf r now). rewrite andb_false_r.
  destruct (isKind KindTotal (definition r)) eqn:Ek; cbn [andb negb].
  - match goal with |- context [foldl _ (?d1, ?n1) l] =>
      specialize (IH d1 n1 eq_refl Hn); destruct (foldl _ (d1, n1) l) as [d' n'] end.
    destruct IH as (I1 & I2 & I3 & I4 & _). cbn in I1, I2, I3. unfold const in I3. rewrite I1, I2, I3, <- app_assoc, andb_false_r.
    repeat split; [assumption | discriminate].
  - assert (Hv : view_WindowEndsAtMS v = windowEndsAtMS r).
    { subst v. unfold ruleViewOf. unfold blocks in Eb. apply andb_true_iff in Eb as [_ Eb%negb_true_iff].
      rewrite Eb. now case_if. }
    rewrite Hv. set (e := windowEnd r).
    match goal with |- context [foldl _ ?s l] => set (st := s) end.
    assert (Hst : exists n1, st = (d <| Allowed := false |> <| BlockingRules := BlockingRules d ++ [v] |>, n1) /\
      0 <= n1 /\ (Recoverable d = true -> n1 = Z.max n e)).
    { subst st e. unfold windowEnd. destruct (windowEndsAtMS r) as [x|]; cbn [Recoverable set const default];
        eexists; (split; [reflexivity|]); [|split; lia].
      destruct (Recoverable d); cbn; [|now split].
      rewrite Z.gtb_ltb. destruct (Z.ltb_spec n x); split; lia. }
    clearbody st. destruct Hst as (n1 & -> & Hn1 & Hmax).
    match goal with |- context [foldl _ (?d1, n1) l] =>
      specialize (IH d1 n1 Hd Hn1); destruct (foldl _ (d1, n1) l) as [d' n'] end.
    destruct IH as (I1 & I2 & I3 & I4 & I5). cbn in I1, I2, I3. unfold const in I3.
    rewrite I1, I3, <- app_assoc. repeat split; try assumption.
    intros HR. rewrite I5 by assumption. rewrite I2 in HR. apply andb_true_iff in HR as [HR _].
    cbn. now rewrite Hmax.
Qed.

(** ** Validated rules *)

Record rule_ok (rule : Rule) : Prop := {
  rule_identity : ID rule <> 0 /\ Revision rule <> 0;
  rule_limit : 0 < LimitNano rule;
  rule_kind : (Kind rule = KindTotal /\ PeriodSeconds rule = 0) \/
              (Kind rule = KindPeriodic /\ MinPeriodSeconds <= PeriodSeconds rule <= MaxPeriodSeconds);
}.

Definition periodsOf (rs : list Rule) : list Z := map PeriodSeconds (List.filter (isKind KindPeriodic) rs).
Definition countKind (kind : string) (rs : list Rule) : Z := Z.of_nat (length (List.filter (isKind kind) rs)).

(** The state of the validation after an accepted rule. *)
Definition registered (key : Z) (st : ruleCheck) (rule : Rule) : ruleCheck :=
  mkCheck (totalCount st + if isKind KindTotal rule then 1 else 0)
    (periodicCount st + if isKind KindPeriodic rule then 1 else 0)
    (if isKind KindPeriodic rule then {[PeriodSeconds rule]} ∪ periods st else periods st)
    (<[ID rule := key]> (globalRuleIDs st)).

Lemma kinds_differ rule : isKind KindTotal rule = true -> isKind KindPeriodic rule = false.
Proof. unfold isKind. rewrite bool_decide_eq_true, bool_decide_eq_false. now intros ->. Qed.

Lemma validateRule_spec key st rule st' : validateRule key st rule = Ok st' <->
  rule_ok rule /\ globalRuleIDs st !! ID rule = None /\
  (Kind rule = KindPeriodic -> PeriodSeconds rule ∉ periods st) /\ st' = registered key st rule.
Proof.
  unfold validateRule, registered. pose proof (kinds_differ rule) as Hk. split.
  - case_if; [discriminate|]. destruct (globalRuleIDs st !! ID rule) eqn:Eg; [discriminate|].
    destruct (isKind KindTotal rule) eqn:Et; [rewrite Hk in * by reflexivity|
      destruct (isKind KindPeriodic rule) eqn:Ep; [|discriminate]]; unfold isKind in *.
    + case_if; [discriminate|]. intros [= <-]. apply bool_decide_eq_true in Et. zbool.
      repeat split; try (rewrite Et; discriminate); try assumption; try lia; [left; now split|].
      now rewrite Z.add_0_r.
    + case_if; [discriminate|]. case_if; [discriminate|]. intros [= <-].
      apply bool_decide_eq_true in Ep. zbool. apply bool_decide_eq_false in E1.
      repeat split; try assumption; try lia; [right; split; [assumption|lia]|auto|]. now rewrite Z.add_0_r.
  - intros ([[H1 H2] H3 H4] & Hid & Hp & ->).
    rewrite (proj2 (Z.eqb_neq _ _) H1), (proj2 (Z.eqb_neq _ _) H2), (proj2 (Z.leb_gt _ _) H3), Hid. cbn.
    destruct H4 as [[Ek Hz]|[Ek [Hlo Hhi]]].
    + assert (Et : isKind KindTotal rule = true) by now apply bool_decide_eq_true.
      rewrite Et, (Hk Et), Hz, Z.add_0_r. reflexivity.
    + assert (Ep : isKind KindPeriodic rule = true) by now apply bool_decide_eq_true.
      assert (Et : isKind KindTotal rule = false) by (apply bool_decide_eq_false; rewrite Ek; discriminate).
      rewrite Et, Ep, (proj2 (Z.ltb_ge _ _) Hlo), Z.gtb_ltb, (proj2 (Z.ltb_ge _ _) Hhi), Z.add_0_r. cbn.
      rewrite bool_decide_eq_false_2 by auto. reflexivity.
Qed.

Lemma periodsOf_cons rule rs : periodsOf (rule :: rs) =
  if isKind KindPeriodic rule then PeriodSeconds rule :: periodsOf rs else periodsOf rs.
Proof. unfold periodsOf. cbn. now destruct (isKind KindPeriodic rule). Qed.

(** What makes the loop accept a list of rules from a given state. *)
Record acceptable (st : ruleCheck) (rs : list Rule) : Prop := {
  acc_rules : Forall rule_ok rs;
  acc_ids : NoDup (map ID rs);
  acc_fresh : forall r, In r rs -> globalRuleIDs st !! ID r = None;
  acc_periods : NoDup (periodsOf rs);
  acc_new : forall p, p ∈ periodsOf rs -> p ∉ periods st;
}.

Lemma registered_periods key st r p : p ∈ periods (registered key st r) <->
  (isKind KindPeriodic r = true /\ p = PeriodSeconds r) \/ p ∈ periods st.
Proof. cbn. destruct (isKind KindPeriodic r); set_solver. Qed.

Lemma registered_ids key st r i : globalRuleIDs (registered key st r) !! i = None <->
  i <> ID r /\ globalRuleIDs st !! i = None.
Proof. cbn. rewrite lookup_insert_None. naive_solver. Qed.

Lemma periodsOf_in rule rs p : p ∈ periodsOf (rule :: rs) <->
  (isKind KindPeriodic rule = true /\ p = PeriodSeconds rule) \/ p ∈ periodsOf rs.
Proof. rewrite periodsOf_cons. destruct (isKind KindPeriodic rule); rewrite ?elem_of_cons; naive_solver. Qed.

Lemma periodsOf_nodup rule rs : NoDup (periodsOf (rule :: rs)) <->
  (isKind KindPeriodic rule = true -> PeriodSeconds rule ∉ periodsOf rs) /\ NoDup (periodsOf rs).
Proof. rewrite periodsOf_cons. destruct (isKind KindPeriodic rule); rewrite ?NoDup_cons; naive_solver. Qed.

Lemma acceptable_cons key st r rs : acceptable st (r :: rs) <->
  (rule_ok r /\ globalRuleIDs st !! ID r = None /\ (Kind r = KindPeriodic -> PeriodSeconds r ∉ periods st)) /\
  acceptable (registered key st r) rs.
Proof.
  assert (Hk : Kind r = KindPeriodic <-> isKind KindPeriodic r = true) by (symmetry; apply bool_decide_eq_true).
  rewrite Hk. split.
  - intros [A1 A2 A3 A4 A5]. apply Forall_cons in A1 as [A1 B1]. apply NoDup_cons in A2 as [A2 B2].
    apply periodsOf_nodup in A4 as [A4 B4]. setoid_rewrite periodsOf_in in A5.
    split_and!; [assumption | apply A3; now left | intros; apply A5; auto |].
    constructor; try assumption.
    + intros x Hx. apply registered_ids. split; [|apply A3; now right].
      intros Heq. apply A2. rewrite <- Heq, list_elem_of_In. now apply in_map.
    + intros p Hp. rewrite registered_periods. intros [[Hr ->]|Hx]; [now apply A4|]. apply (A5 p); auto.
  - intros ((Hok & Hid & Hp) & [A1 A2 A3 A4 A5]). setoid_rewrite registered_ids in A3.
    setoid_rewrite registered_periods in A5. constructor.
    + now constructor.
    + cbn. apply NoDup_cons. split; [|assumption]. rewrite list_elem_of_In, in_map_iff.
      intros (x & Hx & Hin). now apply (A3 x Hin).
    + intros x [<-|Hx]; [assumption|now apply A3].
    + apply periodsOf_nodup. split; [|assumption]. intros Hr Hx. apply (A5 _ Hx). auto.
    + intros p. rewrite periodsOf_in. intros [[Hr ->]|Hx]; [auto|]. intros Hy. apply (A5 p Hx). auto.
Qed.

Lemma validateLoop_spec key st rs st' : validateLoop key st rs = Ok st' <->
  acceptable st rs /\ st' = foldl (registered key) st rs.
Proof.
  revert st. induction rs as [|r rs IH]; intros st; cbn [validateLoop foldl].
  { split; [intros [= <-] | intros [_ ->]; reflexivity]. split; [|reflexivity].
    constructor; [constructor|constructor|intros r []|constructor|intros p Hp; now apply elem_of_nil in Hp]. }
  rewrite (acceptable_cons key). split.
  - destruct (validateRule key st r) as [st1|e] eqn:E1; [|discriminate].
    apply validateRule_spec in E1 as (Hok & Hid & Hp & ->). rewrite IH. naive_solver.
  - intros [[(Hok & Hid & Hp) Hacc] ->].
    rewrite (proj2 (validateRule_spec key st r _) (conj Hok (conj Hid (conj Hp eq_refl)))).
    now apply IH.
Qed.

Lemma registered_fold key st rs :
  let st' := foldl (registered key) st rs in
  totalCount st' = totalCount st + countKind KindTotal rs /\
  periodicCount st' = periodicCount st + countKind KindPeriodic rs /\
  (forall i, globalRuleIDs st' !! i = None <-> ~ In i (map ID rs) /\ globalRuleIDs st !! i = None).
Proof.
  revert st. induction rs as [|r rs IH]; intros st; cbn [foldl].
  { unfold countKind. cbn. split_and!; [lia|lia|naive_solver]. }
  destruct (IH (registered key st r)) as (I1 & I2 & I3). rewrite I1, I2. unfold countKind. cbn [List.filter].
  split_and!; [| |intros i; rewrite I3, registered_ids; cbn; naive_solver];
    cbn [registered totalCount periodicCount]; destruct (isKind _ r); cbn [length]; lia.
Qed.

(** The rules of one key, on their own. *)
Record rules_ok (rs : list Rule) : Prop := {
  rules_each : Forall rule_ok rs;
  rules_ids : NoDup (map ID rs);
  rules_periods : NoDup (periodsOf rs);
  rules_total : countKind KindTotal rs <= 1;
  rules_periodic : countKind KindPeriodic rs <= MaxPeriodicRules;
}.

Lemma validateRules_spec key rs ids ids' : validateRules key rs ids = Ok ids' <->
  rules_ok rs /\ (forall r, In r rs -> ids !! ID r = None) /\
  ids' = globalRuleIDs (foldl (registered key) (mkCheck 0 0 ∅ ids) rs).
Proof.
  unfold validateRules. pose proof (registered_fold key (mkCheck 0 0 ∅ ids) rs) as (F1 & F2 & _).
  cbn in F1, F2. split.
  - destruct (validateLoop key _ rs) as [st|e] eqn:E; [|discriminate].
    apply validateLoop_spec in E as [[A1 A2 A3 A4 _] ->]. case_if; [discriminate|]. intros [= <-].
    zbool. split_and!; [constructor; auto; lia|assumption|reflexivity].
  - intros ([R1 R2 R3 R4 R5] & Hf & ->).
    assert (Hacc : acceptable (mkCheck 0 0 ∅ ids) rs) by (constructor; auto; cbn; intros; set_solver).
    rewrite (proj2 (validateLoop_spec key _ rs _) (conj Hacc eq_refl)).
    rewrite !Z.gtb_ltb, F1, F2, (proj2 (Z.ltb_ge _ _)), (proj2 (Z.ltb_ge _ _)) by lia. reflexivity.
Qed.

(** ** Validated definitions *)

Definition allIDs (defs : list (Z * list Rule)) : list Z := concat (map (fun '(_, rs) => map ID rs) defs).

(** The contract of a set of definitions: no anonymous key, each key's rules valid,
    and no rule identity used twice anywhere. *)
Record definitions_ok (defs : list (Z * list Rule)) : Prop := {
  defs_keys : Forall (fun '(key, rs) => key <> 0 /\ rules_ok rs) defs;
  defs_ids : NoDup (allIDs defs);
}.

Lemma rules_ok_nil : rules_ok [].
Proof. constructor; [constructor|constructor|constructor|discriminate|discriminate]. Qed.

Lemma definitions_cons key rs defs (ids : gmap Z Z) :
  definitions_ok ((key, rs) :: defs) /\ (forall i, In i (allIDs ((key, rs) :: defs)) -> ids !! i = None) <->
  key <> 0 /\ (rules_ok rs /\ (forall r, In r rs -> ids !! ID r = None)) /\ definitions_ok defs /\
  (forall i, In i (allIDs defs) -> ~ In i (map ID rs) /\ ids !! i = None).
Proof.
  split.
  - intros [[D N] F]. unfold allIDs in N, F. cbn [map concat] in N, F.
    apply Forall_cons in D as [[K R] D]. apply NoDup_app in N as (_ & N1 & N2). split_and!; auto.
    + intros r Hr. apply F, in_or_app. left. now apply in_map.
    + now constructor.
    + intros i Hi. split; [|apply F, in_or_app; now right].
      intros Hx. apply (N1 i); now apply list_elem_of_In.
  - intros (K & (R & Fr) & [D N] & F). unfold allIDs. cbn [map concat]. split.
    + constructor; [now constructor|]. cbn [map concat]. apply NoDup_app. split_and!; [apply R| |exact N].
      intros i H1%list_elem_of_In H2%list_elem_of_In. now apply (F i).
    + intros i [Hi|Hi]%in_app_or; [|now apply F]. apply in_map_iff in Hi as (r & <- & Hr). auto.
Qed.

Lemma normalizeLoop_accepts normalized ids defs :
  (exists n, normalizeLoop normalized ids defs = Ok n) <->
  definitions_ok defs /\ (forall i, In i (allIDs defs) -> ids !! i = None).
Proof.
  revert normalized ids. induction defs as [|[key rs] defs IH]; intros normalized ids; cbn [normalizeLoop].
  { split; [intros _|eauto]. split; [constructor; constructor|intros i []]. }
  rewrite definitions_cons. destruct (Z.eqb_spec key 0) as [->|Hkey].
  { split; [intros [n Hn]; discriminate | naive_solver]. }
  destruct rs as [|r rs'].
  { rewrite IH. cbn. pose proof rules_ok_nil. naive_solver. }
  set (rs := r :: rs'). clearbody rs. destruct (validateRules key rs ids) as [ids'|e] eqn:E.
  - rewrite IH. apply validateRules_spec in E as (R & F & ->).
    destruct (registered_fold key (mkCheck 0 0 ∅ ids) rs) as (_ & _ & Hg). cbn in Hg.
    setoid_rewrite Hg. naive_solver.
  - split; [intros [n Hn]; discriminate|]. intros (_ & [R F] & _).
    rewrite (proj2 (validateRules_spec key rs ids _) (conj R (conj F eq_refl))) in E. discriminate.
Qed.

Lemma normalizeLoop_result normalized ids defs n : normalizeLoop normalized ids defs = Ok n ->
  NoDup (map fst defs) -> (forall key, In key (map fst defs) -> normalized !! key = None) ->
  forall key l, n !! key = Some l <->
    normalized !! key = Some l \/ exists rs, In (key, rs) defs /\ rs <> [] /\ l = sortRules rs.
Proof.
  revert normalized ids. induction defs as [|[key0 rs0] defs IH]; intros normalized ids; cbn [normalizeLoop].
  { intros [= <-] _ _ key l. split; [auto|]. now intros [?|(rs & [] & _)]. }
  destruct (Z.eqb key0 0); [discriminate|]. cbn [map fst]. intros H Hnd Hf.
  apply NoDup_cons in Hnd as [Hnin Hnd]. rewrite list_elem_of_In in Hnin.
  assert (Hn : forall rs, ~ In (key0, rs) defs) by (intros rs Hin; now apply (in_map fst) in Hin).
  destruct rs0 as [|r rs'].
  { intros key l. rewrite (IH _ _ H Hnd) by (intros; apply Hf; now right). cbn. naive_solver. }
  set (rs0 := r :: rs') in *. assert (Hne : rs0 <> []) by discriminate. clearbody rs0.
  destruct (validateRules key0 rs0 ids) as [ids'|e]; [|discriminate]. intros key l. rewrite (IH _ _ H Hnd).
  - rewrite lookup_insert_Some. pose proof (Hf key0 (or_introl eq_refl)) as Hf0. cbn.
    destruct (decide (key0 = key)) as [<-|]; [|naive_solver]. rewrite Hf0. split.
    + intros [[[_ <-]|[? _]]|(rs & Hin & _)]; [eauto 10|congruence|now destruct (Hn rs)].
    + intros [?|(rs & [[= <-]|Hin] & _ & ->)]; [congruence|auto|now destruct (Hn rs)].
  - intros key' Hk. rewrite lookup_insert_None. split; [apply Hf; now right|]. intros <-. contradiction.
Qed.

Lemma definitions_ok_perm defs defs' : Permutation defs defs' -> definitions_ok defs -> definitions_ok defs'.
Proof.
  intros HP [D N]. constructor; [now rewrite <- HP|]. revert N. unfold allIDs.
  rewrite <- !flat_map_concat_map. apply NoDup_Permutation_proper. symmetry. now apply Permutation_flat_map.
Qed.

(** A set of rule definitions is accepted exactly when every key is named, every
    rule is valid for its kind, no rule identity is used twice across all keys, and
    each key has at most one total rule and ten periodic rules of distinct periods.
    The result holds the sorted rules of each key that has any, and neither
    acceptance nor the result depends on the order in which the map is iterated. *)
Theorem definitions_accepted_exactly defs : NoDup (map fst defs) ->
  (ValidateDefinitions defs = None <-> definitions_ok defs) /\
  (forall n, normalizeDefinitions defs = Ok n -> forall key l, n !! key = Some l <->
     exists rs, In (key, rs) defs /\ rs <> [] /\ l = sortRules rs) /\
  (forall defs' n, Permutation defs defs' -> normalizeDefinitions defs = Ok n ->
     normalizeDefinitions defs' = Ok n).
Proof.
  intros Hnd. unfold ValidateDefinitions, normalizeDefinitions.
  assert (Hres : forall ds n, NoDup (map fst ds) -> normalizeLoop ∅ ∅ ds = Ok n -> forall key l,
    n !! key = Some l <-> exists rs, In (key, rs) ds /\ rs <> [] /\ l = sortRules rs).
  { intros ds n Hds Hn key l. rewrite (normalizeLoop_result _ _ _ _ Hn Hds) by (intros; apply lookup_empty).
    rewrite lookup_empty. naive_solver. }
  assert (Hacc : forall ds, (exists n, normalizeLoop ∅ ∅ ds = Ok n) <-> definitions_ok ds).
  { intros ds. rewrite normalizeLoop_accepts. split; [tauto|]. split; [assumption|intros; apply lookup_empty]. }
  split_and!; [| intros n Hn; exact (Hres defs n Hnd Hn) |].
  - rewrite <- Hacc. destruct (normalizeLoop ∅ ∅ defs); split; [eauto|auto|discriminate|now intros [? ?]].
  - intros defs' n HP Hn. destruct (proj2 (Hacc defs')) as [n' Hn'].
    { apply (definitions_ok_perm defs); [assumption|]. apply Hacc. eauto. }
    rewrite Hn'. f_equal. apply map_eq. intros key. apply option_eq. intros l.
    rewrite (Hres defs n) by assumption. rewrite (Hres defs' n') by (try assumption; now rewrite <- HP).
    split; intros (rs & Hin & Hrest); exists rs; (split; [|assumption]); eapply Permutation_in; try exact Hin;
      [now symmetry|assumption].
Qed.

Definition sampleTotal : Rule := mkRule 1 1 KindTotal "USD" 100 0.
Definition sampleHourly : Rule := mkRule 2 1 KindPeriodic "USD" 10 3600.
Definition sampleDaily : Rule := mkRule 3 1 KindPeriodic "USD" 50 86400.

Lemma definitions_accepted_exactly_witness :
  ValidateDefinitions [(7, [sampleHourly; sampleTotal]); (8, [sampleDaily])] = None /\
  definitions_ok [(7, [sampleHourly; sampleTotal]); (8, [sampleDaily])].
Proof.
  split; [reflexivity|].
  apply (definitions_accepted_exactly [(7, [sampleHourly; sampleTotal]); (8, [sampleDaily])]);
    [apply (bool_decide_unpack _); vm_compute; exact I | reflexivity].
Defined.

(** ** Rule state behind a decision *)

(** The persisted states are legal states of the rules they belong to. *)
Definition states_ok (rs : list Rule) (states : gmap Z RestoredState) : Prop :=
  forall rule state, In rule rs -> states !! ID rule = Some state -> ValidateRestoredState rule state = None.

(** A rule blocks the key at [now]: its usage reached the limit and, unless the
    limit is a total, the window of that usage ends after [now]. *)
Definition blockedAt (states : gmap Z RestoredState) (now : Z) (rule : Rule) : Prop :=
  exists state, states !! ID rule = Some state /\ LimitNano rule <= UsedNano state /\
    (Kind rule = KindTotal \/ exists ends, WindowEndsAtMS state = Some ends /\ now < ends).

Definition runtimeOf (states : gmap Z RestoredState) (rule : Rule) : runtimeRule :=
  match states !! ID rule with
  | None => newRuntimeRule rule
  | Some state => loadState (newRuntimeRule rule) state
  end.

Lemma entry_rules rs states : rules (entryFromStates rs states) = map (runtimeOf states) (sortRules rs).
Proof. unfold entryFromStates. cbn. rewrite map_map. reflexivity. Qed.

Lemma entry_In rs states x : In x (rules (entryFromStates rs states)) <->
  exists rule, In rule rs /\ x = runtimeOf states rule.
Proof.
  rewrite entry_rules, in_map_iff. unfold sortRules. setoid_rewrite (Permutation_in' eq_refl (merge_sort_Permutation ruleOrder rs)).
  split; intros (r & H1 & H2); eauto.
Qed.

Lemma runtimeOf_definition states rule : definition (runtimeOf states rule) = rule.
Proof. unfold runtimeOf. now destruct (states !! ID rule). Qed.

(** A window that a validated state has runs from a nonnegative start. *)
Lemma window_ok rule state : ValidateRestoredState rule state = None ->
  match WindowStartedAtMS state, WindowEndsAtMS state with
  | None, None => True
  | Some started, Some ends => 0 <= started < ends
  | _, _ => False
  end.
Proof.
  intros H. unfold ValidateRestoredState, validateRestoredState in H. no_error.
  destruct (WindowStartedAtMS state), (WindowEndsAtMS state); try discriminate; [|exact I].
  no_error. zbool. lia.
Qed.

Lemma blocks_spec states now rule : rule_ok rule ->
  (forall state, states !! ID rule = Some state -> ValidateRestoredState rule state = None) ->
  blocks now (runtimeOf states rule) = true <-> blockedAt states now rule.
Proof.
  intros [_ Hl Hk] Hv. unfold blocks, blockedAt, runtimeOf.
  destruct (states !! ID rule) as [s|]; cbn.
  2: { rewrite (proj2 (Z.leb_gt _ _)) by lia. split; [discriminate|]. now intros (s & ? & _). }
  pose proof (window_ok rule s (Hv s eq_refl)) as Hw.
  unfold periodicInactive, isKind. cbn. rewrite andb_true_iff, Z.leb_le, negb_true_iff.
  unfold const. destruct Hk as [[Hk _]|[Hk _]]; rewrite Hk;
    [rewrite bool_decide_eq_false_2 by discriminate|rewrite bool_decide_eq_true_2 by reflexivity]; cbn [andb].
  - split; [intros [H _]; eauto 10|]. intros (s' & [= <-] & H & _). auto.
  - destruct (WindowStartedAtMS s), (WindowEndsAtMS s) as [e|] eqn:Ee; try contradiction;
      rewrite ?Z.geb_leb, ?Z.leb_gt.
    + split; [intros [H1 H2]; eauto 10|]. intros (s' & Hs & H & [Hx|(e' & He & Hlt)]); [discriminate Hx|].
      injection Hs as <-. split; [assumption|congruence].
    + split; [now intros [_ H]|]. intros (s' & Hs & H & [Hx|(e & He & Hlt)]); [discriminate Hx|congruence].
Qed.

Lemma fold_max_le l n t : fold_left Z.max l n <= t <-> n <= t /\ forall x, In x l -> x <= t.
Proof.
  revert n. induction l as [|x l IH]; intros n; cbn; [naive_solver|]. rewrite IH.
  split; [intros [H1 H2]|intros [H1 H2]]; (split; [|intros]); try (destruct H as [<-|H]); auto; try lia.
  specialize (H2 x (or_introl eq_refl)). lia.
Qed.

Lemma decisionOf_spec entry now :
  let d := decisionOf entry now in
  let blocking := List.filter (blocks now) entry.(rules) in
  let next := fold_left Z.max (map windowEnd blocking) 0 in
  Allowed d = forallb (fun r => negb (blocks now r)) entry.(rules) /\
  Recoverable d = forallb (fun r => negb (blocks now r && isKind KindTotal r.(definition))) entry.(rules) /\
  BlockingRules d = map (fun r => ruleViewOf r now) blocking /\
  NextAvailableAtMS d =
    (if negb (Allowed d) && Recoverable d && (next >? 0) then Some next else None).
Proof.
  cbn zeta. unfold decisionOf. pose proof (decision_loop now entry.(rules) allowedDecision 0 eq_refl ltac:(lia)) as H.
  destruct (foldl _ _ _) as [d n]. destruct H as (H1 & H2 & H3 & H4 & H5). cbn in H1, H2, H3.
  destruct (negb (Allowed d) && Recoverable d) eqn:E; cbn [andb].
  - apply andb_true_iff in E as [E1 E2]. rewrite <- (H5 E2).
    destruct (n >? 0); cbn; split_and!; auto; now rewrite E1, E2.
  - cbn. split_and!; auto. now rewrite E.
Qed.

Lemma forallb_negb {A} (f : A -> bool) l :
  forallb (fun x => negb (f x)) l = false <-> exists x, In x l /\ f x = true.
Proof.
  rewrite <- existsb_exists. induction l as [|x l IH]; cbn; [split; discriminate|].
  destruct (f x); cbn; [tauto|exact IH].
Qed.

Lemma denied_spec rs states now : Forall rule_ok rs -> states_ok rs states ->
  Allowed (DecisionFor rs states now) = false <-> exists rule, In rule rs /\ blockedAt states now rule.
Proof.
  intros Hr Hs. rewrite List.Forall_forall in Hr. unfold DecisionFor.
  rewrite (proj1 (decisionOf_spec (entryFromStates rs states) now)), (forallb_negb (blocks now)).
  setoid_rewrite entry_In. split.
  - intros (x & (rule & Hin & ->) & Hb). exists rule. split; [assumption|]. apply blocks_spec in Hb; eauto.
  - intros (rule & Hin & Hb). eexists. split; [eauto|]. apply blocks_spec; eauto.
Qed.

Lemma unrecoverable_spec rs states now : Forall rule_ok rs -> states_ok rs states ->
  Recoverable (DecisionFor rs states now) = false <->
  exists rule, In rule rs /\ blockedAt states now rule /\ Kind rule = KindTotal.
Proof.
  intros Hr Hs. rewrite List.Forall_forall in Hr. unfold DecisionFor.
  rewrite (proj1 (proj2 (decisionOf_spec (entryFromStates rs states) now))),
    (forallb_negb (fun r => blocks now r && isKind KindTotal r.(definition))).
  setoid_rewrite entry_In. split.
  - intros (x & (rule & Hin & ->) & [Hb Hk]%andb_true_iff). rewrite runtimeOf_definition in Hk.
    apply bool_decide_eq_true in Hk. exists rule. split_and!; [assumption| |assumption]. apply blocks_spec in Hb; eauto.
  - intros (rule & Hin & Hb & Hk). eexists. split; [eauto|]. apply andb_true_iff. rewrite runtimeOf_definition.
    split; [apply blocks_spec; eauto|now apply bool_decide_eq_true].
Qed.

(** The latest window end among the blocking rules decides when they all lapse. *)
Lemma next_spec rs states now later : Forall rule_ok rs -> states_ok rs states ->
  let next := fold_left Z.max (map windowEnd (List.filter (blocks now) (rules (entryFromStates rs states)))) 0 in
  next <= later <-> 0 <= later /\ forall rule state ends, In rule rs -> blockedAt states now rule ->
    states !! ID rule = Some state -> WindowEndsAtMS state = Some ends -> ends <= later.
Proof.
  intros Hr Hs. rewrite List.Forall_forall in Hr. cbn zeta. rewrite fold_max_le. setoid_rewrite in_map_iff.
  setoid_rewrite filter_In. setoid_rewrite entry_In. split; intros [H0 H]; (split; [assumption|]).
  - intros rule s e Hin Hb Hst He. apply H. exists (runtimeOf states rule). unfold windowEnd, runtimeOf at 1.
    rewrite Hst. cbn. rewrite He. split; [reflexivity|]. split; [eauto|]. apply blocks_spec; eauto.
  - intros x (y & <- & (rule & Hin & ->) & Hb). apply blocks_spec in Hb; eauto.
    unfold windowEnd, runtimeOf. destruct (states !! ID rule) as [s|] eqn:Es; cbn; [|lia].
    destruct (WindowEndsAtMS s) as [e|] eqn:Ee; cbn; [|lia]. eauto.
Qed.

Lemma blockedAt_before states now later rule : now <= later -> blockedAt states later rule -> blockedAt states now rule.
Proof.
  intros Hl (s & H1 & H2 & H3). exists s. split_and!; auto.
  destruct H3 as [?|(e & ? & ?)]; [auto|]. right. exists e. split; [assumption|lia].
Qed.

(** While only periodic limits block, the latest window end is ahead of [now] and is
    the first instant at which none of them blocks. *)
Lemma lapse_time rs states now next : Forall rule_ok rs -> states_ok rs states ->
  (forall later, next <= later <-> 0 <= later /\ forall rule state ends, In rule rs -> blockedAt states now rule ->
     states !! ID rule = Some state -> WindowEndsAtMS state = Some ends -> ends <= later) ->
  (exists rule, In rule rs /\ blockedAt states now rule) ->
  (forall rule, In rule rs -> blockedAt states now rule -> Kind rule <> KindTotal) ->
  0 < next /\ now < next /\ forall later, now <= later ->
    next <= later <-> ~ exists rule, In rule rs /\ blockedAt states later rule.
Proof.
  intros Hr Hs Hn (rule & Hin & Hb) Hk.
  assert (Hend : forall rule, In rule rs -> blockedAt states now rule ->
    exists s e, states !! ID rule = Some s /\ WindowEndsAtMS s = Some e /\ 0 < e /\ now < e).
  { intros x Hx Hbx. destruct (Hbx) as (s & H1 & H2 & [H3|(e & He & Hlt)]); [now destruct (Hk x Hx Hbx)|].
    exists s, e. split_and!; auto. pose proof (window_ok x s (Hs x s Hx H1)) as Hw. rewrite He in Hw.
    destruct (WindowStartedAtMS s); [lia|contradiction]. }
  assert (Hle : forall rule s e, In rule rs -> blockedAt states now rule -> states !! ID rule = Some s ->
    WindowEndsAtMS s = Some e -> e <= next) by (apply (proj1 (Hn next)); lia).
  destruct (Hend rule Hin Hb) as (s & e & H1 & H2 & H3 & H4). pose proof (Hle rule s e Hin Hb H1 H2).
  split_and!; [lia|lia|]. intros later Hl. split.
  - intros Hnl (x & Hx & Hbx). pose proof (blockedAt_before states now later x Hl Hbx) as Hbn.
    destruct (Hbx) as (s' & G1 & G2 & [G3|(e' & He' & Hlt)]); [now destruct (Hk x Hx Hbn)|].
    pose proof (Hle x s' e' Hx Hbn G1 He'). lia.
  - intros Hno. assert (Hlapsed : forall x s' e', In x rs -> blockedAt states now x ->
      states !! ID x = Some s' -> WindowEndsAtMS s' = Some e' -> e' <= later).
    { intros x s' e' Hx (s0 & G1 & G2 & _) G3 G4. assert (s0 = s') as -> by congruence.
      destruct (Z.le_gt_cases e' later); [assumption|]. destruct Hno. exists x. split; [assumption|].
      exists s'. split_and!; eauto. }
    apply Hn. pose proof (Hlapsed rule s e Hin Hb H1 H2). split; [lia|exact Hlapsed].
Qed.

(** A decision denies a request exactly when some rule blocks the key; it is
    unrecoverable exactly when a total limit blocks; the announced time is the
    first instant from which the same usage is allowed, and an unrecoverable key
    stays denied at every time. *)
Theorem quota_decisions_exact key rs ids ids' states now :
  validateRules key rs ids = Ok ids' -> states_ok rs states ->
  let d := DecisionFor rs states now in
  (Allowed d = false <-> exists rule, In rule rs /\ blockedAt states now rule) /\
  (Recoverable d = false <-> exists rule, In rule rs /\ blockedAt states now rule /\ Kind rule = KindTotal) /\
  (NextAvailableAtMS d = None <-> Allowed d = true \/ Recoverable d = false) /\
  (forall t, NextAvailableAtMS d = Some t -> now < t /\ forall later, now <= later ->
     Allowed (DecisionFor rs states later) = true <-> t <= later) /\
  (Recoverable d = false -> forall later, Allowed (DecisionFor rs states later) = false).
Proof.
  intros Hv Hs. apply validateRules_spec in Hv as ([Hr _ _ _ _] & _). cbn zeta.
  pose proof (fun t => denied_spec rs states t Hr Hs) as HA.
  pose proof (unrecoverable_spec rs states now Hr Hs) as HR.
  destruct (decisionOf_spec (entryFromStates rs states) now) as (_ & _ & _ & HN).
  pose proof (fun t => next_spec rs states now t Hr Hs) as Hnext. cbn zeta in Hnext, HN.
  fold (DecisionFor rs states now) in HN. set (next := fold_left _ _ _) in *.
  assert (Hlapse : Allowed (DecisionFor rs states now) = false -> Recoverable (DecisionFor rs states now) = true ->
    0 < next /\ now < next /\ forall later, now <= later ->
      Allowed (DecisionFor rs states later) = true <-> next <= later).
  { intros H1 H2. destruct (lapse_time rs states now next Hr Hs Hnext) as (L1 & L2 & L3).
    - now apply HA.
    - intros rule Hin Hb Hk. apply not_false_iff_true in H2. apply H2, HR. eauto.
    - split_and!; auto. intros later Hl. rewrite L3, <- HA by assumption. symmetry. apply not_false_iff_true. }
  split_and!; [apply HA|exact HR| | |].
  - rewrite HN. destruct (Allowed (DecisionFor rs states now)); cbn; [split; auto|].
    destruct (Recoverable (DecisionFor rs states now)); cbn; [|split; auto].
    rewrite (proj2 (Z.gtb_lt _ _)) by now apply Hlapse. split; [discriminate|now intros [?|?]].
  - intros t Ht. rewrite HN in Ht. case_if_in Ht; [|discriminate]. injection Ht as <-. zbool.
    now destruct Hlapse as (_ & L2 & L3).
  - intros (rule & Hin & (s & H1 & H2 & _) & Hk)%HR later. apply HA. exists rule. split; [assumption|].
    exists s. auto.
Qed.

Definition sampleStates : gmap Z RestoredState :=
  <[2 := mkRestored 7 2 1 10 (Some 1000) (Some 3601000) 1 4]> {[1 := mkRestored 7 1 1 60 None None 0 9]}.

Lemma sample_states_ok : states_ok [sampleHourly; sampleTotal] sampleStates.
Proof. intros r s [<-|[<-|[]]] Hs; vm_compute in Hs; injection Hs as <-; reflexivity. Qed.

Lemma quota_decisions_exact_witness :
  NextAvailableAtMS (DecisionFor [sampleHourly; sampleTotal] sampleStates 2000) = Some 3601000 /\
  (Allowed (DecisionFor [sampleHourly; sampleTotal] sampleStates 3601000) = true <-> 3601000 <= 3601000).
Proof.
  split; [reflexivity|].
  eapply (quota_decisions_exact 7 [sampleHourly; sampleTotal] ∅ _ sampleStates 2000);
    [vm_compute; reflexivity | exact sample_states_ok | vm_compute; reflexivity | lia].
Defined.

(** ** The order of rules *)

(** On validated rules the order is the period, zero for a total, then the identity. *)
Lemma ruleOrder_spec l r : rule_ok l -> rule_ok r ->
  ruleOrder l r <-> PeriodSeconds l < PeriodSeconds r \/ (PeriodSeconds l = PeriodSeconds r /\ ID l <= ID r).
Proof.
  intros [_ _ Hl] [_ _ Hr]. unfold ruleOrder, ruleLess, isKind, MinPeriodSeconds in *.
  destruct Hl as [[Kl Pl]|[Kl Pl]], Hr as [[Kr Pr]|[Kr Pr]]; rewrite Kl, Kr;
    rewrite ?(bool_decide_eq_true_2 (KindTotal = KindTotal)), ?(bool_decide_eq_true_2 (KindPeriodic = KindPeriodic)) by reflexivity;
    cbn [negb];
    try (destruct (Z.eqb_spec (PeriodSeconds r) (PeriodSeconds l)); cbn [negb]; rewrite Z.ltb_ge; lia);
    rewrite bool_decide_eq_false_2 by discriminate; cbn; (split; [|lia || discriminate]); intros; lia || discriminate.
Qed.

#[export] Instance ruleOrder_total : Total ruleOrder.
Proof.
  intros l r. unfold ruleOrder, ruleLess, isKind. rewrite (bool_decide_ext (Kind r = Kind l) (Kind l = Kind r)) by (split; congruence).
  destruct (bool_decide_reflect (Kind l = Kind r)) as [E|E]; cbn [negb].
  - rewrite (Z.eqb_sym (PeriodSeconds r)). case_if; rewrite !Z.ltb_ge; lia.
  - rewrite !bool_decide_eq_false. destruct (decide (Kind l = KindTotal)); [left|right]; congruence.
Qed.

Lemma strongly_sorted_on {A} (R : A -> A -> Prop) l : Sorted R l ->
  (forall x y z, In x l -> In y l -> In z l -> R x y -> R y z -> R x z) -> StronglySorted R l.
Proof.
  induction 1 as [|x l Hs IH Hd]; intros HT; [constructor|].
  assert (Hl : StronglySorted R l) by (apply IH; intros a y z Ha Hy Hz; apply (HT a y z); cbn; auto).
  constructor; [assumption|]. destruct Hd as [|y l Hxy]; [constructor|].
  apply StronglySorted_inv in Hl as [_ Hy]. constructor; [assumption|].
  rewrite List.Forall_forall in *. intros z Hz. apply (HT x y z); cbn; auto.
Qed.

Lemma sortRules_perm rs rs' : rules_ok rs -> Permutation rs rs' -> sortRules rs = sortRules rs'.
Proof.
  intros [Hr Hid _ _ _] HP. rewrite List.Forall_forall in Hr. unfold sortRules.
  pose proof (merge_sort_Permutation ruleOrder rs) as P1. pose proof (merge_sort_Permutation ruleOrder rs') as P2.
  assert (I1 : forall x, In x (merge_sort ruleOrder rs) -> In x rs) by (intros x; now rewrite P1).
  assert (I2 : forall x, In x (merge_sort ruleOrder rs') -> In x rs) by (intros x; now rewrite P2, HP).
  assert (HT : forall x y z, In x rs -> In y rs -> In z rs -> ruleOrder x y -> ruleOrder y z -> ruleOrder x z).
  { intros x y z Hx Hy Hz. rewrite !ruleOrder_spec by auto. lia. }
  apply (StronglySorted_unique_strong ruleOrder).
  - intros x y Hx%list_elem_of_In%I1 Hy%list_elem_of_In%I2. rewrite !ruleOrder_spec by auto. intros H1 H2.
    apply (NoDup_map_inj ID rs); [exact Hid|assumption|assumption|lia].
  - apply strongly_sorted_on; [apply (Sorted_merge_sort ruleOrder)|intros x y z ? ? ?; apply (HT x y z); auto].
  - apply strongly_sorted_on; [apply (Sorted_merge_sort ruleOrder)|intros x y z ? ? ?; apply (HT x y z); auto].
  - now rewrite P1, P2.
Qed.

(** ** Views *)

(** What a rule view reports: usage and remainder are nonnegative and add up to the
    limit until it is exhausted. *)
Record view_ok (v : RuleView) : Prop := {
  view_bounds : 0 <= view_UsedNano v /\ 0 <= view_RemainingNano v <= LimitNano (view_Rule v);
  view_exhausted : view_Status v = RuleStatusExhausted <-> view_RemainingNano v = 0;
  view_sum : view_Status v <> RuleStatusExhausted ->
    view_UsedNano v + view_RemainingNano v = LimitNano (view_Rule v);
}.

Lemma ruleViewOf_ok rule now : 0 < LimitNano (definition rule) <= max_int64 -> 0 <= usedNano rule ->
  view_ok (ruleViewOf rule now).
Proof.
  intros Hl Hu. unfold ruleViewOf, remaining. case_if; [constructor; cbn; intuition (discriminate || lia)|].
  rewrite Z.geb_leb. case_if; zbool; constructor; cbn; unfold const;
    rewrite ?wrap_i64_small by (unfold in_int64, min_int64; lia); intuition (discriminate || congruence || lia).
Qed.

Lemma runtimeOf_used rs states rule : states_ok rs states -> In rule rs -> 0 <= usedNano (runtimeOf states rule).
Proof.
  intros Hs Hin. unfold runtimeOf. destruct (states !! ID rule) as [s|] eqn:E; cbn; [|lia].
  pose proof (Hs rule s Hin E) as H. unfold ValidateRestoredState, validateRestoredState in H. no_error. zbool.
  assumption.
Qed.

Lemma ruleViewOf_rule rule now : view_Rule (ruleViewOf rule now) = definition rule.
Proof. unfold ruleViewOf. case_if; [reflexivity|]. now case_if. Qed.

Lemma ViewFor_spec rs states now :
  ViewFor rs states now =
  let d := DecisionFor rs states now in
  mkView now (Allowed d) (Recoverable d) (NextAvailableAtMS d)
    (map (fun r => ruleViewOf (runtimeOf states r) now) (sortRules rs)).
Proof.
  unfold ViewFor, DecisionFor, viewOf. cbn zeta. case_if.
  - apply bool_decide_eq_true in E. rewrite entry_rules in E. apply map_eq_nil in E.
    unfold decisionOf. rewrite entry_rules, E. reflexivity.
  - rewrite entry_rules, map_map. reflexivity.
Qed.

(** The view an administrator sees and the decision a request gets agree: same
    verdict and time, the blocking rules are exactly the exhausted ones of the view,
    every configured rule appears once, usage and remainder add up to the limit
    without overflow, and nothing depends on the order of the definitions. *)
Theorem quota_views_agree key rs rs' ids ids' states now :
  validateRules key rs ids = Ok ids' -> states_ok rs states ->
  Forall (fun r => LimitNano r <= max_int64) rs -> Permutation rs rs' ->
  let d := DecisionFor rs states now in
  let v := ViewFor rs states now in
  (view_Allowed v, view_Recoverable v, view_NextAvailableAtMS v) = (Allowed d, Recoverable d, NextAvailableAtMS d) /\
  BlockingRules d = List.filter (fun x => bool_decide (view_Status x = RuleStatusExhausted)) (Rules v) /\
  Permutation (map view_Rule (Rules v)) rs /\ Forall view_ok (Rules v) /\
  DecisionFor rs' states now = d /\ ViewFor rs' states now = v.
Proof.
  intros Hv Hs Hlim HP. apply validateRules_spec in Hv as (Hok & _). cbn zeta.
  assert (HD : DecisionFor rs' states now = DecisionFor rs states now).
  { unfold DecisionFor, entryFromStates. now rewrite (sortRules_perm rs rs'). }
  rewrite !ViewFor_spec, HD, (sortRules_perm rs rs') by assumption. cbn. split_and!; try reflexivity.
  - unfold DecisionFor. rewrite (proj1 (proj2 (proj2 (decisionOf_spec (entryFromStates rs states) now)))).
    rewrite entry_rules, (sortRules_perm rs rs') by assumption. induction (sortRules rs') as [|r l IH]; [reflexivity|].
    cbn. rewrite exhausted_blocks. destruct (blocks now (runtimeOf states r)); cbn; now rewrite IH.
  - rewrite map_map. rewrite (map_ext _ id) by (intros r; now rewrite ruleViewOf_rule, runtimeOf_definition).
    rewrite map_id, HP. apply merge_sort_Permutation.
  - destruct Hok as [Hr _ _ _ _]. rewrite List.Forall_forall in *. intros x (r & <- & Hin)%in_map_iff.
    assert (Hrs : In r rs) by (rewrite HP; now rewrite <- (merge_sort_Permutation ruleOrder rs')).
    apply ruleViewOf_ok; rewrite ?runtimeOf_definition; [|now apply (runtimeOf_used rs)].
    split; [apply Hr|apply Hlim]; assumption.
Qed.

Lemma quota_views_agree_witness :
  map view_Status (Rules (ViewFor [sampleHourly; sampleTotal] sampleStates 2000)) =
    [RuleStatusAvailable; RuleStatusExhausted] /\
  ViewFor [sampleTotal; sampleHourly] sampleStates 2000 = ViewFor [sampleHourly; sampleTotal] sampleStates 2000.
Proof.
  split; [reflexivity|].
  eapply (quota_views_agree 7 [sampleHourly; sampleTotal] [sampleTotal; sampleHourly] ∅ _ sampleStates 2000);
    [vm_compute; reflexivity | exact sample_states_ok | repeat constructor; cbn; unfold max_int64; lia
    | apply perm_swap].
Defined.

End Quota.
