(* ===== verification/Redis.v ===== *)
(** * The shared store

    The cluster package keeps its shared state in Redis, which is not part of the
    repository.  [RedisStore] is the interface the sources use: one operation per
    command, and [RedisOk] states the documented behaviour the scripts rely on.
    Every component of the cluster is written and proved against this interface;
    [DB] is a small store that satisfies it, on which examples evaluate.

    A key holds one type for its whole life (the program never reuses a key for
    another type), so each type has its own observation: [hashOf] and [zsetOf] for
    the content of a Hash and of a sorted set, [GET] for a string.  Scores are the
    millisecond timestamps the scripts store.  [DEADLINE] is the expiry of a key on
    the server clock, and [ELAPSE] lets the server clock advance, which is when
    keys expire. *)

From Stdlib Require Import ZArith Lia Bool String Ascii List Permutation Sorted.
From stdpp Require Import base gmap sets list strings sorting.
From coqutil Require Import Datatypes.RecordSettersUsingExistingGetters.
From S2P Require Import Prelude GoStrings.

Local Open Scope Z_scope.

(** Decimal texts: [strconv.FormatInt], [strconv.ParseInt], [strconv.ParseUint]. *)
Definition decimal (n : Z) : string := text (format_int n).
Definition parseInt (s : string) : option Z := parse_int64 (bytes s).
Definition parseUint (s : string) : option Z := parse_uint64 (bytes s).

(** [strings.Split] on one byte. *)
Fixpoint split_on (c : ascii) (l : list ascii) : list (list ascii) :=
  match l with
  | [] => [[]]
  | a :: l =>
    match split_on c l with
    | part :: parts => if Ascii.eqb a c then [] :: part :: parts else (a :: part) :: parts
    | [] => [[a]]
    end
  end.

Lemma decimal_bytes n : bytes (decimal n) = format_int n.
Proof. apply list_ascii_of_string_of_list_ascii. Qed.

Lemma digit_no_sign c : is_digit c = true -> c <> "-"%char /\ c <> "+"%char.
Proof. intros H. split; intros ->; discriminate. Qed.

Lemma decimal_parse n : in_int64 n -> parseInt (decimal n) = Some n.
Proof.
  intros Hn. unfold parseInt. rewrite decimal_bytes. unfold format_int.
  assert (Hi : is_int64 n = true) by now apply is_int64_spec.
  destruct (Z.ltb_spec n 0) as [Hneg|Hpos].
  - destruct (render_spec (- n) ltac:(lia)) as (Hd & Hv & Hne). unfold parse_int64.
    destruct (render (- n)) as [|c l]; [congruence|]. rewrite Hd, Hv, Z.opp_involutive, Hi. reflexivity.
  - destruct (render_spec n ltac:(lia)) as (Hd & Hv & Hne). unfold parse_int64.
    destruct (render n) as [|c l] eqn:E; [congruence|].
    assert (Hc : is_digit c = true) by (rewrite all_digits_cons in Hd; now apply andb_true_iff in Hd).
    pose proof (digit_no_sign c Hc) as [H1 H2].
    destruct c as [b0 b1 b2 b3 b4 b5 b6 b7].
    destruct b0, b1, b2, b3, b4, b5, b6, b7; try congruence; rewrite Hd, Hv, Hi; reflexivity.
Qed.

Lemma decimal_parseUint n : 0 <= n <= max_uint64 -> parseUint (decimal n) = Some n.
Proof.
  intros Hn. unfold parseUint. rewrite decimal_bytes. unfold format_int. rewrite (proj2 (Z.ltb_ge n 0)) by lia.
  destruct (render_spec n ltac:(lia)) as (Hd & Hv & Hne). unfold parse_uint64.
  destruct (render n) as [|c l]; [congruence|]. rewrite Hd, Hv, (proj2 (Z.leb_le _ _)) by lia. reflexivity.
Qed.

Module Redis.

Class RedisStore (St : Type) := {
  (** Observations. *)
  CLOCK : St -> Z;
  hashOf : St -> string -> gmap string string;
  zsetOf : St -> string -> gmap string Z;
  GET : St -> string -> option string;
  DEADLINE : St -> string -> option Z;
  (** Hashes. *)
  HGET : St -> string -> string -> option string;
  HGETALL : St -> string -> list (string * string);
  HSET : St -> string -> string -> string -> St;
  HSETNX : St -> string -> string -> string -> St * bool;
  HDEL : St -> string -> string -> St;
  HINCRBY : St -> string -> string -> Z -> St * option Z;
  (** Sorted sets; [ZREMRANGEBYSCORE] from minus infinity. *)
  ZSCORE : St -> string -> string -> option Z;
  ZRANGE : St -> string -> list (string * Z);
  ZCARD : St -> string -> Z;
  ZADD : St -> string -> Z -> string -> St;
  ZREM : St -> string -> string -> St;
  ZREMRANGEBYSCORE : St -> string -> Z -> St;
  (** Strings and keys. *)
  SETPX : St -> string -> string -> Z -> St;
  SETNX : St -> string -> string -> Z -> St * bool;
  DEL : St -> string -> St;
  PTTL : St -> string -> Z;
  PEXPIRE : St -> string -> Z -> St * bool;
  (** The passage of time. *)
  ELAPSE : St -> Z -> St;
}.

(** A key exists. *)
Definition exists_key {St} {R : RedisStore St} (s : St) (k : string) : Prop :=
  hashOf s k <> ∅ \/ zsetOf s k <> ∅ \/ GET s k <> None.

(** Nothing but the key [k] differs, and the clock stands still. *)
Record only_key {St} {R : RedisStore St} (k : string) (s s' : St) : Prop := {
  ok_clock : CLOCK s' = CLOCK s;
  ok_hash : forall k', k' <> k -> hashOf s' k' = hashOf s k';
  ok_zset : forall k', k' <> k -> zsetOf s' k' = zsetOf s k';
  ok_get : forall k', k' <> k -> GET s' k' = GET s k';
  ok_deadline : forall k', k' <> k -> DEADLINE s' k' = DEADLINE s k';
}.

(** A write other than an expiry keeps the deadline of the key, or drops it when the
    key became empty. *)
Definition deadline_kept {St} {R : RedisStore St} (k : string) (s s' : St) : Prop :=
  DEADLINE s' k = DEADLINE s k \/ DEADLINE s' k = None.

(** The content of a key after time passed: unchanged, or gone if its deadline was
    reached. *)
Definition key_same {St} {R : RedisStore St} (k : string) (s s' : St) : Prop :=
  hashOf s' k = hashOf s k /\ zsetOf s' k = zsetOf s k /\ GET s' k = GET s k /\ DEADLINE s' k = DEADLINE s k.
Definition key_gone {St} {R : RedisStore St} (k : string) (s : St) : Prop :=
  hashOf s k = ∅ /\ zsetOf s k = ∅ /\ GET s k = None /\ DEADLINE s k = None.

Class RedisOk (St : Type) {R : RedisStore St} : Prop := {
  absent_ok : forall s k, hashOf s k = ∅ -> zsetOf s k = ∅ -> GET s k = None -> DEADLINE s k = None;
  HGET_ok : forall s k f, HGET s k f = hashOf s k !! f;
  HGETALL_ok : forall s k, Permutation (HGETALL s k) (map_to_list (hashOf s k));
  HSET_only : forall s k f v, only_key k s (HSET s k f v);
  HSET_ok : forall s k f v, hashOf (HSET s k f v) k = <[f := v]> (hashOf s k);
  HSET_deadline : forall s k f v, deadline_kept k s (HSET s k f v);
  HSETNX_ok : forall s k f v,
    HSETNX s k f v = match hashOf s k !! f with None => (HSET s k f v, true) | Some _ => (s, false) end;
  HDEL_only : forall s k f, only_key k s (HDEL s k f);
  HDEL_ok : forall s k f, hashOf (HDEL s k f) k = delete f (hashOf s k);
  HDEL_deadline : forall s k f, deadline_kept k s (HDEL s k f);
  HINCRBY_only : forall s k f n, only_key k s (fst (HINCRBY s k f n));
  (** An absent field counts as 0; a sum outside [int64] is an error without effect. *)
  HINCRBY_ok : forall s k f n v,
    (hashOf s k !! f = None /\ v = 0) \/ (hashOf s k !! f = Some (decimal v) /\ in_int64 v) ->
    HINCRBY s k f n =
      if is_int64 (v + n) then (HSET s k f (decimal (v + n)), Some (v + n)) else (s, None);
  ZSCORE_ok : forall s k m, ZSCORE s k m = zsetOf s k !! m;
  ZRANGE_ok : forall s k, Permutation (ZRANGE s k) (map_to_list (zsetOf s k));
  ZRANGE_sorted : forall s k, StronglySorted Z.le (map snd (ZRANGE s k));
  ZCARD_ok : forall s k, ZCARD s k = Z.of_nat (size (zsetOf s k));
  ZADD_only : forall s k score m, only_key k s (ZADD s k score m);
  ZADD_ok : forall s k score m, zsetOf (ZADD s k score m) k = <[m := score]> (zsetOf s k);
  ZADD_deadline : forall s k score m, deadline_kept k s (ZADD s k score m);
  ZREM_only : forall s k m, only_key k s (ZREM s k m);
  ZREM_ok : forall s k m, zsetOf (ZREM s k m) k = delete m (zsetOf s k);
  ZREM_deadline : forall s k m, deadline_kept k s (ZREM s k m);
  ZREMRANGEBYSCORE_only : forall s k max, only_key k s (ZREMRANGEBYSCORE s k max);
  ZREMRANGEBYSCORE_ok : forall s k max,
    zsetOf (ZREMRANGEBYSCORE s k max) k = filter (fun '(_, score) => max < score) (zsetOf s k);
  ZREMRANGEBYSCORE_deadline : forall s k max, deadline_kept k s (ZREMRANGEBYSCORE s k max);
  SETPX_only : forall s k v px, only_key k s (SETPX s k v px);
  SETPX_ok : forall s k v px, GET (SETPX s k v px) k = Some v;
  SETPX_plain : forall s k v px, hashOf (SETPX s k v px) k = ∅ /\ zsetOf (SETPX s k v px) k = ∅;
  SETPX_deadline : forall s k v px, DEADLINE (SETPX s k v px) k = Some (CLOCK s + px);
  SETNX_ok : forall s k v px,
    SETNX s k v px = match GET s k with None => (SETPX s k v px, true) | Some _ => (s, false) end;
  DEL_only : forall s k, only_key k s (DEL s k);
  DEL_ok : forall s k, key_gone k (DEL s k);
  PTTL_ok : forall s k, exists_key s k -> PTTL s k =
    match DEADLINE s k with Some d => d - CLOCK s | None => -1 end;
  PTTL_none : forall s k, key_gone k s -> PTTL s k = -2;
  PEXPIRE_only : forall s k px, only_key k s (fst (PEXPIRE s k px));
  PEXPIRE_ok : forall s k px, 0 < px -> exists_key s k ->
    snd (PEXPIRE s k px) = true /\ DEADLINE (fst (PEXPIRE s k px)) k = Some (CLOCK s + px) /\
    hashOf (fst (PEXPIRE s k px)) k = hashOf s k /\ zsetOf (fst (PEXPIRE s k px)) k = zsetOf s k /\
    GET (fst (PEXPIRE s k px)) k = GET s k;
  PEXPIRE_absent : forall s k px, key_gone k s ->
    snd (PEXPIRE s k px) = false /\ key_gone k (fst (PEXPIRE s k px));
  ELAPSE_clock : forall s t, CLOCK s <= t -> CLOCK (ELAPSE s t) = t;
  ELAPSE_key : forall s t k, CLOCK s <= t -> key_same k s (ELAPSE s t) \/ key_gone k (ELAPSE s t);
  (** A key without a deadline, or before it, does not expire. *)
  ELAPSE_live : forall s t k, CLOCK s <= t ->
    match DEADLINE s k with None => True | Some d => t < d end -> key_same k s (ELAPSE s t);
  (** One whose deadline has passed is gone. *)
  ELAPSE_dead : forall s t k d, CLOCK s <= t -> DEADLINE s k = Some d -> d <= t -> key_gone k (ELAPSE s t);
}.

(** ** A store that satisfies the interface *)

Record Entry := mkEntry {
  e_hash : gmap string string;
  e_zset : gmap string Z;
  e_str : option string;
  e_deadline : option Z;
}.

Record DB := mkDB { db_clock : Z; db_keys : gmap string Entry }.

Definition noEntry : Entry := mkEntry ∅ ∅ None None.

(** An entry without content is no entry. *)
Definition normal (e : Entry) : Entry :=
  if bool_decide (e.(e_hash) = ∅ /\ e.(e_zset) = ∅ /\ e.(e_str) = None) then noEntry else e.

Definition entryOf (s : DB) (k : string) : Entry := normal (default noEntry (s.(db_keys) !! k)).

Definition update (s : DB) (k : string) (f : Entry -> Entry) : DB :=
  s <| db_keys := <[k := f (entryOf s k)]> s.(db_keys) |>.

Definition byScore (l r : string * Z) : Prop := l.2 <= r.2.
#[export] Instance byScore_dec : RelDecision byScore.
Proof. intros l r. unfold byScore. apply _. Defined.

(** The deadline of an entry is after [t]. *)
Definition alive (t : Z) (e : Entry) : bool :=
  match (normal e).(e_deadline) with None => true | Some d => t <? d end.

Definition elapse (s : DB) (t : Z) : DB :=
  mkDB t (filter (fun '(_, e) => alive t e = true) s.(db_keys)).

#[export] Instance DB_store : RedisStore DB := {|
  CLOCK := db_clock;
  hashOf := fun s k => (entryOf s k).(e_hash);
  zsetOf := fun s k => (entryOf s k).(e_zset);
  GET := fun s k => (entryOf s k).(e_str);
  DEADLINE := fun s k => (entryOf s k).(e_deadline);
  HGET := fun s k f => (entryOf s k).(e_hash) !! f;
  HGETALL := fun s k => map_to_list (entryOf s k).(e_hash);
  HSET := fun s k f v => update s k (fun e => e <| e_hash := <[f := v]> e.(e_hash) |>);
  HSETNX := fun s k f v =>
    match (entryOf s k).(e_hash) !! f with
    | None => (update s k (fun e => e <| e_hash := <[f := v]> e.(e_hash) |>), true)
    | Some _ => (s, false)
    end;
  HDEL := fun s k f => update s k (fun e => e <| e_hash := delete f e.(e_hash) |>);
  HINCRBY := fun s k f n =>
    match match (entryOf s k).(e_hash) !! f with None => Some 0 | Some t => parseInt t end with
    | Some v => if is_int64 (v + n)
                then (update s k (fun e => e <| e_hash := <[f := decimal (v + n)]> e.(e_hash) |>), Some (v + n))
                else (s, None)
    | None => (s, None)
    end;
  ZSCORE := fun s k m => (entryOf s k).(e_zset) !! m;
  ZRANGE := fun s k => merge_sort byScore (map_to_list (entryOf s k).(e_zset));
  ZCARD := fun s k => Z.of_nat (size (entryOf s k).(e_zset));
  ZADD := fun s k score m => update s k (fun e => e <| e_zset := <[m := score]> e.(e_zset) |>);
  ZREM := fun s k m => update s k (fun e => e <| e_zset := delete m e.(e_zset) |>);
  ZREMRANGEBYSCORE := fun s k max =>
    update s k (fun e => e <| e_zset := filter (fun '(_, score) => max < score) e.(e_zset) |>);
  SETPX := fun s k v px => update s k (fun _ => mkEntry ∅ ∅ (Some v) (Some (s.(db_clock) + px)));
  SETNX := fun s k v px =>
    match (entryOf s k).(e_str) with
    | None => (update s k (fun _ => mkEntry ∅ ∅ (Some v) (Some (s.(db_clock) + px))), true)
    | Some _ => (s, false)
    end;
  DEL := fun s k => update s k (fun _ => noEntry);
  PTTL := fun s k =>
    if bool_decide ((entryOf s k).(e_hash) = ∅ /\ (entryOf s k).(e_zset) = ∅ /\ (entryOf s k).(e_str) = None) then -2
    else match (entryOf s k).(e_deadline) with Some d => d - s.(db_clock) | None => -1 end;
  PEXPIRE := fun s k px =>
    (update s k (fun e => e <| e_deadline := Some (s.(db_clock) + px) |>),
     negb (bool_decide ((entryOf s k).(e_hash) = ∅ /\ (entryOf s k).(e_zset) = ∅ /\ (entryOf s k).(e_str) = None)));
  ELAPSE := elapse;
|}.

Lemma normal_idem e : normal (normal e) = normal e.
Proof. unfold normal. repeat case_bool_decide; naive_solver. Qed.

Lemma normal_hash e : e_hash (normal e) = e_hash e.
Proof. unfold normal. case_bool_decide; naive_solver. Qed.
Lemma normal_zset e : e_zset (normal e) = e_zset e.
Proof. unfold normal. case_bool_decide; naive_solver. Qed.
Lemma normal_str e : e_str (normal e) = e_str e.
Proof. unfold normal. case_bool_decide; naive_solver. Qed.

Lemma normal_deadline e : e_deadline (normal e) = e_deadline e \/ e_deadline (normal e) = None.
Proof. unfold normal. case_bool_decide; auto. Qed.

Lemma entryOf_update s k f : entryOf (update s k f) k = normal (f (entryOf s k)).
Proof. unfold entryOf at 1, update. cbn. unfold const. now rewrite lookup_insert_eq. Qed.

Lemma entryOf_update_ne s k k' f : k' <> k -> entryOf (update s k f) k' = entryOf s k'.
Proof. intros. unfold entryOf at 1, update. cbn. unfold const. now rewrite lookup_insert_ne by congruence. Qed.

Lemma update_only s k f : only_key k s (update s k f).
Proof. constructor; [reflexivity|..]; intros k' Hk; cbn; now rewrite entryOf_update_ne. Qed.

Lemma entryOf_normal s k : normal (entryOf s k) = entryOf s k.
Proof. apply normal_idem. Qed.

Lemma entryOf_elapse s t k :
  entryOf (elapse s t) k = if alive t (entryOf s k) then entryOf s k else noEntry.
Proof.
  unfold entryOf at 1. cbn.
  destruct (filter _ (db_keys s) !! k) as [e|] eqn:E; cbn.
  - apply map_lookup_filter_Some in E as [E H]. unfold entryOf. rewrite E. cbn.
    unfold alive in *. rewrite normal_idem. now rewrite H.
  - unfold entryOf. apply map_lookup_filter_None in E as [E|E].
    + rewrite E. cbn. reflexivity.
    + destruct (db_keys s !! k) as [e|]; cbn; [|reflexivity]. specialize (E e eq_refl).
      unfold alive in *. rewrite normal_idem. now destruct (match e_deadline (normal e) with _ => _ end).
Qed.

Lemma deadline_update s k f : e_deadline (f (entryOf s k)) = e_deadline (entryOf s k) ->
  deadline_kept k s (update s k f).
Proof.
  intros Hf. unfold deadline_kept. cbn. rewrite entryOf_update.
  destruct (normal_deadline (f (entryOf s k))) as [->| ->]; auto.
Qed.

Lemma normal_deadline_live e d :
  ~ (e_hash e = ∅ /\ e_zset e = ∅ /\ e_str e = None) -> e_deadline e = d -> e_deadline (normal e) = d.
Proof. intros Hn <-. unfold normal. now rewrite bool_decide_eq_false_2. Qed.

Lemma exists_entry s k : exists_key s k ->
  ~ (e_hash (entryOf s k) = ∅ /\ e_zset (entryOf s k) = ∅ /\ e_str (entryOf s k) = None).
Proof. unfold exists_key. cbn. tauto. Qed.

Lemma merge_by_score l : StronglySorted Z.le (map snd (merge_sort byScore l)).
Proof.
  assert (H : StronglySorted byScore (merge_sort byScore l)).
  { assert (Transitive byScore) by (intros ? ? ?; unfold byScore; lia).
    assert (Total byScore) by (intros ? ?; unfold byScore; lia). now apply StronglySorted_merge_sort. }
  induction H as [|x l' Hs IH Hx]; cbn; constructor; [assumption|].
  rewrite Forall_map. exact Hx.
Qed.

#[export] Instance DB_ok : RedisOk DB.
Proof.
  constructor; cbn; intros; unfold key_gone, key_same; cbn;
    rewrite ?entryOf_update, ?normal_hash, ?normal_zset, ?normal_str; try reflexivity;
    try apply update_only; try (apply deadline_update; reflexivity).
  - rewrite <- entryOf_normal. unfold normal. now rewrite bool_decide_eq_true_2.
  - destruct (match e_hash (entryOf s k) !! f with Some t => parseInt t | None => Some 0 end) as [v|];
      [destruct (is_int64 (v + n))|]; cbn [fst]; try apply update_only; constructor; reflexivity.
  - destruct H as [[H ->]|[H Hv]]; rewrite H; [reflexivity|]. now rewrite decimal_parse.
  - apply merge_sort_Permutation.
  - apply merge_by_score.
  - auto.
  - auto.
  - rewrite bool_decide_eq_false_2; [reflexivity|]. now apply exists_entry.
  - destruct H as (H1 & H2 & H3 & _). now rewrite bool_decide_eq_true_2.
  - pose proof (exists_entry _ _ H0) as Hx. rewrite bool_decide_eq_false_2 by assumption.
    split_and!; try reflexivity. now apply normal_deadline_live.
  - destruct H as (H1 & H2 & H3 & H4). cbn in *. rewrite bool_decide_eq_true_2 by auto.
    split_and!; try assumption; [reflexivity|]. unfold normal. cbn. now rewrite bool_decide_eq_true_2.
  - rewrite !entryOf_elapse. destruct (alive t (entryOf s k)); [left|right]; auto.
  - rewrite !entryOf_elapse. unfold alive. rewrite entryOf_normal.
    destruct (e_deadline (entryOf s k)) as [d|] eqn:E; [|rewrite E; auto].
    rewrite (proj2 (Z.ltb_lt t d)) by lia. auto.
  - rewrite !entryOf_elapse. unfold alive. rewrite entryOf_normal, H0, (proj2 (Z.ltb_ge t d)) by lia. auto.
Qed.

End Redis.
