(* ===== verification/Lua.v ===== *)
(** * Redis scripts

    The cluster package changes shared state with Lua scripts, which Redis runs
    atomically.  A script is a function from the store to the store and a reply or
    an error; writes made before an error stay.  Lua numbers are doubles: the
    scripts only use integers, and [dbl] is the double nearest to an integer, so
    arithmetic beyond [2^53] rounds here exactly where it rounds there.  [cmp] is
    the comparison of decimal texts the quota scripts define for amounts beyond
    that range. *)

From Stdlib Require Import ZArith Lia Bool String Ascii List.
From stdpp Require Import base gmap list strings.
From S2P Require Import Prelude GoStrings Redis.

Local Open Scope Z_scope.

Module Lua.
Import Redis.

(** ** Scripts *)

(** A run-time error of Lua (arithmetic or comparison on [nil]), an error reply of
    a command, or an error reply of the script itself. *)
Inductive ScriptError := LuaError | CommandError | ErrorReply (message : string).

Definition Script (St A : Type) : Type := St -> St * result ScriptError A.

Definition ret {St A} (a : A) : Script St A := fun s => (s, Ok a).
Definition raise {St A} (e : ScriptError) : Script St A := fun s => (s, Err e).
Definition bind {St A B} (m : Script St A) (k : A -> Script St B) : Script St B := fun s =>
  let '(s, r) := m s in match r with Ok a => k a s | Err e => (s, Err e) end.
(** A command without effect, and one without reply. *)
Definition read {St A} (f : St -> A) : Script St A := fun s => (s, Ok (f s)).
Definition write {St} (f : St -> St) : Script St unit := fun s => (f s, Ok tt).
(** A command whose error aborts the script. *)
Definition call {St A} (f : St -> St * option A) : Script St A := fun s =>
  let '(s, r) := f s in match r with Some a => (s, Ok a) | None => (s, Err CommandError) end.

End Lua.

Notation "'let!' x ':=' m 'in' k" := (Lua.bind m (fun x => k))
  (at level 10, x pattern, m at level 200, k at level 200) : go_scope.
Notation "'do!' m 'in' k" := (Lua.bind m (fun _ => k))
  (at level 10, m at level 200, k at level 200) : go_scope.
Local Open Scope go_scope.

Module LuaNumbers.
Import Redis Lua.

(** ** Numbers *)

(** The double nearest to an integer, ties to even. *)
Definition dbl (z : Z) : Z :=
  let a := Z.abs z in
  if a <=? 2 ^ 53 then z
  else
    let e := Z.log2 a - 52 in
    let q := a / 2 ^ e in
    let r := a mod 2 ^ e in
    let q := if (2 * r >? 2 ^ e) || ((2 * r =? 2 ^ e) && Z.odd q) then q + 1 else q in
    Z.sgn z * (q * 2 ^ e).

(** [tonumber] on a decimal integer text, the only numerals the scripts receive. *)
Definition tonumber (t : string) : option Z :=
  let '(negative, body) :=
    match bytes t with
    | "-"%char :: rest => (true, rest)
    | l => (false, l)
    end in
  match body with
  | [] => None
  | _ => if all_digits body
         then Some (dbl (if negative : bool then - digits_value body else digits_value body))
         else None
  end.

(** [tostring] on an integer: ["%.14g"], exact up to 14 digits, otherwise 14
    significant digits in exponent form, trailing zeros dropped. *)
Definition scientific (a : Z) : list ascii :=
  let k := Z.of_nat (length (render a)) in
  let p := 10 ^ (k - 14) in
  let q := a / p in
  let r := a mod p in
  let m := if (2 * r >? p) || ((2 * r =? p) && Z.odd q) then q + 1 else q in
  let '(m, k) := if m =? 10 ^ 14 then (10 ^ 13, k + 1) else (m, k) in
  let mantissa :=
    match trim_right_zero (render m) with
    | [] => ["0"%char]
    | [c] => [c]
    | c :: rest => c :: "."%char :: rest
    end in
  let e := render (k - 1) in
  mantissa ++ ["e"%char; "+"%char] ++ repeat "0"%char (2 - length e) ++ e.

Definition tostring (z : Z) : string :=
  if Z.abs z <? 10 ^ 14 then decimal z
  else text ((if z <? 0 then ["-"%char] else []) ++ scientific (Z.abs z)).

(** Using [nil] where a number or a string is needed is an error. *)
Definition number {St} (t : option string) : Script St Z :=
  match t with
  | Some t => match tonumber t with Some z => ret z | None => raise LuaError end
  | None => raise LuaError
  end.
Definition needString {St} (t : option string) : Script St string :=
  match t with Some t => ret t | None => raise LuaError end.

(** The local function [cmp] of [quotaScript] and [completeScript]. *)
Definition cmp (a b : string) : Z :=
  if negb (String.length a =? String.length b)%nat then
    if (String.length a <? String.length b)%nat then -1 else 1
  else if bool_decide (a = b) then 0
  else if String.ltb a b then -1 else 1.

(** ** Lemmas *)

Lemma dbl_small z : Z.abs z <= 2 ^ 53 -> dbl z = z.
Proof. intros H. unfold dbl. now rewrite (proj2 (Z.leb_le _ _) H). Qed.

Lemma tonumber_decimal n : tonumber (decimal n) = Some (dbl n).
Proof.
  unfold tonumber. rewrite decimal_bytes. unfold format_int. destruct (Z.ltb_spec n 0).
  - destruct (render_spec (- n) ltac:(lia)) as (Hd & Hv & Hne).
    destruct (render (- n)) as [|c l]; [congruence|]. now rewrite Hd, Hv, Z.opp_involutive.
  - destruct (render_spec n ltac:(lia)) as (Hd & Hv & Hne). destruct (render n) as [|c l]; [congruence|].
    assert (Hc : is_digit c = true) by (rewrite all_digits_cons in Hd; now apply andb_true_iff in Hd).
    pose proof (digit_no_sign c Hc) as [H1 _]. destruct c as [b0 b1 b2 b3 b4 b5 b6 b7].
    destruct b0, b1, b2, b3, b4, b5, b6, b7; try congruence; now rewrite Hd, Hv.
Qed.

Lemma tonumber_small n : Z.abs n <= 2 ^ 53 -> tonumber (decimal n) = Some n.
Proof. intros H. now rewrite tonumber_decimal, dbl_small. Qed.

Lemma decimal_inj a b : decimal a = decimal b -> a = b.
Proof.
  intros H%(f_equal list_ascii_of_string). rewrite !decimal_bytes in H. unfold format_int in H.
  destruct (Z.ltb_spec a 0), (Z.ltb_spec b 0).
  - injection H as H%(f_equal digits_value).
    rewrite (proj1 (proj2 (render_spec (- a) ltac:(lia)))), (proj1 (proj2 (render_spec (- b) ltac:(lia)))) in H. lia.
  - destruct (render_spec b ltac:(lia)) as (Hd & _). rewrite <- H in Hd. discriminate.
  - destruct (render_spec a ltac:(lia)) as (Hd & _). rewrite H in Hd. discriminate.
  - apply (f_equal digits_value) in H.
    now rewrite (proj1 (proj2 (render_spec a ltac:(lia)))), (proj1 (proj2 (render_spec b ltac:(lia)))) in H.
Qed.

Lemma decimal_nonempty n : decimal n <> "".
Proof.
  intros H%(f_equal list_ascii_of_string). rewrite decimal_bytes in H. cbn in H. unfold format_int in H.
  destruct (Z.ltb_spec n 0); [discriminate|]. now destruct (render_spec n ltac:(lia)) as (_ & _ & Hne).
Qed.

Lemma string_length l : String.length (text l) = length l.
Proof. induction l; cbn; auto. Qed.

Lemma digit_compare c d : Ascii.compare c d = (digit_val c ?= digit_val d).
Proof.
  unfold Ascii.compare, digit_val, byte_val, nat_of_ascii. rewrite !N_nat_Z, <- N2Z.inj_compare.
  unfold Z.sub. now rewrite !(Z.add_comm _ (- 48)), Z.add_compare_mono_l.
Qed.

(** Digit texts of equal length are ordered as the numbers they denote. *)
Lemma digits_compare l m : length l = length m -> all_digits l = true -> all_digits m = true ->
  String.compare (text l) (text m) = (digits_value l ?= digits_value m).
Proof.
  revert m. induction l as [|c l IH]; intros [|d m] Hlen Hl Hm; try discriminate; [reflexivity|].
  cbn in Hlen. injection Hlen as Hlen. rewrite all_digits_cons in Hl, Hm.
  apply andb_true_iff in Hl as [Hc Hl]. apply andb_true_iff in Hm as [Hd Hm].
  cbn [string_of_list_ascii String.compare]. rewrite digit_compare, (IH m Hlen Hl Hm), !digits_value_cons, Hlen.
  pose proof (digits_value_range l Hl) as R1. pose proof (digits_value_range m Hm) as R2. rewrite Hlen in R1.
  set (p := 10 ^ Z.of_nat (length m)) in *.
  destruct (Z.compare_spec (digit_val c) (digit_val d)) as [E|E|E]; symmetry.
  - rewrite E. apply Z.add_compare_mono_l.
  - apply Z.compare_lt_iff. nia.
  - apply Z.compare_gt_iff. nia.
Qed.

Lemma render_longer a b : 0 <= a -> 0 <= b -> (length (render a) < length (render b))%nat -> a < b.
Proof.
  intros Ha Hb H. destruct (Z.lt_ge_cases a b) as [|Hge]; [assumption|]. exfalso.
  destruct (render_spec a Ha) as (Da & Va & Na). pose proof (digits_value_range _ Da) as R. rewrite Va in R.
  assert (length (render b) <= length (render a))%nat; [|lia]. apply render_length; [lia|].
  destruct (render a); [congruence|cbn; lia].
Qed.

(** On amounts, [cmp] is numeric comparison, whatever their size. *)
Lemma cmp_decimal a b : 0 <= a -> 0 <= b ->
  cmp (decimal a) (decimal b) = match a ?= b with Lt => -1 | Eq => 0 | Gt => 1 end.
Proof.
  intros Ha Hb. unfold cmp, decimal, format_int.
  rewrite (proj2 (Z.ltb_ge a 0)), (proj2 (Z.ltb_ge b 0)) by lia. rewrite !string_length.
  destruct (Nat.eqb_spec (length (render a)) (length (render b))) as [El|El]; cbn [negb].
  - destruct (render_spec a Ha) as (Da & Va & _). destruct (render_spec b Hb) as (Db & Vb & _).
    pose proof (digits_compare _ _ El Da Db) as Hc. rewrite Va, Vb in Hc. unfold String.ltb.
    case_bool_decide as E.
    + apply (f_equal list_ascii_of_string) in E. rewrite !list_ascii_of_string_of_list_ascii in E.
      replace b with a by congruence. now rewrite Z.compare_refl.
    + rewrite Hc. destruct (Z.compare_spec a b) as [->|H|H]; [congruence|reflexivity|reflexivity].
  - destruct (Nat.ltb_spec (length (render a)) (length (render b))) as [H|H].
    + now rewrite (proj2 (Z.compare_lt_iff _ _) (render_longer a b Ha Hb H)).
    + now rewrite (proj2 (Z.compare_gt_iff _ _) (render_longer b a Hb Ha ltac:(lia))).
Qed.

Lemma cmp_ge a b : 0 <= a -> 0 <= b -> (cmp (decimal a) (decimal b) >=? 0) = (b <=? a).
Proof. intros. rewrite cmp_decimal by assumption. destruct (Z.compare_spec a b); symmetry; apply Z.leb_le || apply Z.leb_gt; lia. Qed.

Lemma cmp_gt a b : 0 <= a -> 0 <= b -> (cmp (decimal a) (decimal b) >? 0) = (b <? a).
Proof. intros. rewrite cmp_decimal by assumption. destruct (Z.compare_spec a b); symmetry; apply Z.ltb_lt || apply Z.ltb_ge; lia. Qed.

End LuaNumbers.
