(* ===== verification/QuotaStore.v ===== *)
(** * Shared cost limits

    [internal/cluster/access_quota.go] and [access_quota_scripts.go]: every instance
    admits and settles requests against one Hash per cost-limit rule.  The three
    Lua scripts are written line by line over the store interface; the Go methods
    run them through [runStrings], where a call may fail before the script runs,
    after it ran, or not at all, and where other instances may act between two
    calls of this one.  The fields of a reply are texts, as on the wire. *)

From Stdlib Require Import ZArith Lia Bool String Ascii List.
From stdpp Require Import base gmap sets list strings sorting.
From coqutil Require Import Datatypes.RecordSettersUsingExistingGetters.
From S2P Require Import Prelude GoStrings Quota Redis Lua.

Local Open Scope Z_scope.
Local Open Scope go_scope.

Module QuotaStore.
Import Redis Lua LuaNumbers Quota.

Section Store.
Context {St : Type} {R : RedisStore St}.

(** ** Keys *)

(** [Client.Key]: the parts joined under the configured prefix. *)
Definition Key (keyPrefix : string) (parts : list string) : string :=
  (keyPrefix +:+ ":" +:+ String.concat ":" parts)%string.

Definition accessKeyHashTag (accessKeyID : Z) : string := ("{ak:" +:+ decimal accessKeyID +:+ "}")%string.

Definition ruleKey (keyPrefix : string) (accessKeyID ruleID : Z) : string :=
  Key keyPrefix [accessKeyHashTag accessKeyID; "quota"; decimal ruleID]%string.

(** ** Scripts *)

(** The reply of [HMGET key rev used ws we gen ver]; an absent field is [nil]. *)
Record row := mkRow {
  row_rev : option string;
  row_used : option string;
  row_ws : option string;
  row_we : option string;
  row_gen : option string;
  row_ver : option string;
}.

Definition HMGET (s : St) (k : string) : row :=
  mkRow (HGET s k "rev") (HGET s k "used") (HGET s k "ws") (HGET s k "we") (HGET s k "gen") (HGET s k "ver").

(** The key and the four arguments of one rule of [quotaScript]. *)
Record ruleArg := mkRuleArg {
  arg_key : string;
  arg_rev : string;
  arg_kind : string;
  arg_limit : string;
  arg_end : string;
}.

(** The first loop: rows, whether some stored revision is newer, and the indexes of
    missing or older rules. *)
Fixpoint quotaScan (i : Z) (rules : list ruleArg) : Script St (bool * list Z * list row) :=
  match rules with
  | [] => ret (false, [], [])
  | rule :: rules =>
    let! row := read (fun s => HMGET s rule.(arg_key)) in
    let! (newer, older) :=
      match row.(row_rev) with
      | None => ret (false, true)
      | Some _ =>
        let! stored := number row.(row_rev) in
        let! rev := number (Some rule.(arg_rev)) in
        ret (stored >? rev, stored <? rev)
      end in
    let! (stale, missing, rows) := quotaScan (i + 1) rules in
    ret (newer || stale, if older && negb newer then i :: missing else missing, row :: rows)
  end.

Definition isEmptyText (t : option string) : bool := bool_decide (t = Some ""%string).

(** The second loop: which periodic windows are not open, and whether every limit
    leaves room. *)
Fixpoint quotaJudge (now : Z) (pairs : list (ruleArg * row)) : Script St (bool * list bool) :=
  match pairs with
  | [] => ret (true, [])
  | (rule, row) :: pairs =>
    let periodic := bool_decide (rule.(arg_kind) = "periodic"%string) in
    let! inactive :=
      (if periodic then
         if isEmptyText row.(row_ws) || isEmptyText row.(row_we) then ret true
         else let! ends := number row.(row_we) in ret (now >=? ends)
       else ret false) in
    let! exhausted :=
      (if inactive : bool then ret false
       else let! used := needString row.(row_used) in ret (cmp used rule.(arg_limit) >=? 0)) in
    let! (allowed, rest) := quotaJudge now pairs in
    ret (negb exhausted && allowed, inactive :: rest)
  end.

Definition HSETwindow (k : string) (ws we : string) : Script St unit :=
  write (fun s => HSET (HSET (HSET s k "used" "0") k "ws" ws) k "we" we).

(** [tostring(redis.call('HINCRBY', key, field, n))]. *)
Definition increment (k f : string) (n : Z) : Script St string :=
  let! v := call (fun s => HINCRBY s k f n) in ret (tostring (dbl v)).

Definition PEXPIREs (k : string) (px : Z) : Script St unit := write (fun s => fst (PEXPIRE s k px)).

(** The third loop: open windows in admitting mode, renew the lifetime, reply. *)
Fixpoint quotaReply (admitting allowed : bool) (nowText : string) (ttl : Z)
    (items : list (ruleArg * row * bool)) : Script St (list (option string)) :=
  match items with
  | [] => ret []
  | (rule, row, inactive) :: items =>
    let k := rule.(arg_key) in
    let! (row, opened) :=
      (if admitting && allowed && inactive then
         do! HSETwindow k nowText rule.(arg_end) in
         let! gen := increment k "gen" 1 in
         let! ver := increment k "ver" 1 in
         ret (mkRow row.(row_rev) (Some "0") (Some nowText) (Some rule.(arg_end)) (Some gen) (Some ver), "1")%string
       else ret (row, "0"%string)) in
    do! PEXPIREs k ttl in
    let! rest := quotaReply admitting allowed nowText ttl items in
    ret ([row.(row_used); row.(row_ws); row.(row_we); row.(row_gen); row.(row_ver); Some opened] ++ rest)
  end.

Definition quotaScript (admitting : bool) (nowText : string) (ttl : Z) (rules : list ruleArg)
    : Script St (list (option string)) :=
  let! (stale, missing, rows) := quotaScan 1 rules in
  if stale : bool then ret [Some "STALE"%string]
  else if negb (bool_decide (missing = []))
  then ret (Some "NEED_INIT"%string :: map (fun i => Some (tostring i)) missing)
  else
    let! now := number (Some nowText) in
    let! (allowed, inactive) := quotaJudge now (zip rules rows) in
    let! fields := quotaReply admitting allowed nowText ttl (zip (zip rules rows) inactive) in
    ret (Some "OK"%string :: Some (if allowed : bool then "1" else "0")%string :: fields).

(** One rule of [initScript]. *)
Record initArg := mkInitArg {
  init_key : string;
  init_rev : string;
  init_used : string;
  init_ws : string;
  init_we : string;
  init_gen : string;
  init_ver : string;
}.

Definition writeRow (a : initArg) (s : St) : St :=
  let k := a.(init_key) in
  HSET (HSET (HSET (HSET (HSET (HSET s k "rev" a.(init_rev)) k "used" a.(init_used)) k "ws" a.(init_ws))
    k "we" a.(init_we)) k "gen" a.(init_gen)) k "ver" a.(init_ver).

Fixpoint initScript (ttl : Z) (rules : list initArg) : Script St (list (option string)) :=
  match rules with
  | [] => ret [Some "OK"%string]
  | rule :: rules =>
    let! stored := read (fun s => HGET s rule.(init_key) "rev") in
    let! older :=
      match stored with
      | None => ret true
      | Some _ =>
        let! stored := number stored in
        let! rev := number (Some rule.(init_rev)) in
        ret (stored <? rev)
      end in
    do! (if older : bool then write (writeRow rule) else ret tt) in
    do! PEXPIREs rule.(init_key) ttl in
    initScript ttl rules
  end.

(** One rule of [completeScript]. *)
Record completeArg := mkCompleteArg { complete_key : string; complete_rev : string; complete_gen : string }.

Definition maxUsed : string := "9223372036854775807".

(** The guard of one iteration: same revision (as numbers) and same generation (as
    texts). *)
Definition ticketMatches (rule : completeArg) : Script St (option string * option string * bool) :=
  let! rev := read (fun s => HGET s rule.(complete_key) "rev") in
  let! gen := read (fun s => HGET s rule.(complete_key) "gen") in
  let! used := read (fun s => HGET s rule.(complete_key) "used") in
  let matches :=
    match rev with
    | None => false
    | Some stored => bool_decide (tonumber stored = tonumber rule.(complete_rev)) &&
                     bool_decide (gen = Some rule.(complete_gen))
    end in
  ret (rev, used, matches).

(** The write of one matching rule: whether the usage changed, and the new fault. *)
Definition settleRule (k cost headroom : string) (costValue : Z) (fault : string) (used : option string)
    : Script St (bool * string) :=
  let negative := match bytes cost with "-"%char :: _ => true | _ => false end in
  let! over := (if negative then ret true
                else let! used := needString used in ret (cmp used headroom >? 0)) in
  if over : bool then
    let fault := if negative then "negative_estimate"%string
                 else if bool_decide (fault = ""%string) then "overflow"%string else fault in
    do! write (fun s => HSET s k "used" maxUsed) in
    ret (negb (bool_decide (used = Some maxUsed)), fault)
  else
    do! call (fun s => HINCRBY s k "used" costValue) in
    ret (true, fault).

Fixpoint completeLoop (i : Z) (cost headroom : string) (costValue ttl : Z) (fault : string)
    (rules : list completeArg) : Script St (list (option string) * string) :=
  match rules with
  | [] => ret ([], fault)
  | rule :: rules =>
    let k := rule.(complete_key) in
    let! (rev, used, matches) := ticketMatches rule in
    let! (changed, fault) :=
      (if matches : bool then
         let! (updated, fault) := settleRule k cost headroom costValue fault used in
         let! changed :=
           (if updated : bool then let! ver := increment k "ver" 1 in ret [Some (tostring i); rev; Some ver]
            else ret []) in
         do! PEXPIREs k ttl in
         ret (changed, fault)
       else ret ([], fault)) in
    let! (rest, fault) := completeLoop (i + 1) cost headroom costValue ttl fault rules in
    ret (changed ++ rest, fault)
  end.

(** [costValue] is the number the text [cost] denotes, which [HINCRBY] reads. *)
Definition completeScript (cost headroom : string) (costValue ttl : Z) (rules : list completeArg)
    : Script St (list (option string)) :=
  let! (changed, fault) := completeLoop 1 cost headroom costValue ttl "" rules in
  ret (Some fault :: changed).

(** ** Calls *)

(** What the network does to a call: the script runs and its reply arrives, the call
    never reaches the server, or the script runs and the reply is lost. *)
Inductive Delivery := Delivered | NotDelivered | ReplyLost.

(** The store as this instance meets it: before its [i]-th command of a call, other
    instances and the clock may change the store. *)
Record World := mkWorld {
  store : St;
  calls : list ((nat -> St -> St) * Delivery);
}.

Inductive QuotaStoreError :=
| Unavailable
| ScriptFailed (e : ScriptError)
| NotAString
| Malformed
| ErrStaleRules
| StillMissing
| NoCheckpointReader
| CheckpointRead
| CheckpointBehind
| CheckpointForeign
| CheckpointInvalid (e : QuotaError)
| IncompleteHash
| DecodeError.

Fixpoint allStrings (values : list (option string)) : option (list string) :=
  match values with
  | [] => Some []
  | Some t :: values => option_map (cons t) (allStrings values)
  | None :: _ => None
  end.

Definition runStrings (script : Script St (list (option string))) (w : World)
    : World * result QuotaStoreError (list string) :=
  match w.(calls) with
  | [] => (w, Err Unavailable)
  | (others, delivery) :: rest =>
    let s := others O w.(store) in
    match delivery with
    | NotDelivered => (mkWorld s rest, Err Unavailable)
    | _ =>
      let '(s, reply) := script s in
      (mkWorld s rest,
       match delivery, reply with
       | ReplyLost, _ => Err Unavailable
       | _, Err e => Err (ScriptFailed e)
       | _, Ok values => match allStrings values with Some l => Ok l | None => Err NotAString end
       end)
    end
  end.

(** A pipeline of reads: each command sees the store at its own instant. *)
Fixpoint readAll (i : nat) (others : nat -> St -> St) (s : St) (keys : list string) : St * list row :=
  match keys with
  | [] => (s, [])
  | k :: keys =>
    let s := others i s in
    let '(s', rows) := readAll (S i) others s keys in
    (s', HMGET s k :: rows)
  end.

Definition pipelineReads (keys : list string) (w : World) : World * result QuotaStoreError (list row) :=
  match w.(calls) with
  | [] => (w, Err Unavailable)
  | (others, delivery) :: rest =>
    let '(s, rows) := readAll O others w.(store) keys in
    (mkWorld s rest, match delivery with Delivered => Ok rows | _ => Err Unavailable end)
  end.

(** ** Decoding *)

Definition formatOptionalMS (value : option Z) : string :=
  match value with None => "" | Some v => decimal v end.

Definition parseOptionalMS (value : string) : result QuotaStoreError (option Z) :=
  if bool_decide (value = ""%string) then Ok None
  else match parseInt value with Some v => Ok (Some v) | None => Err DecodeError end.

(** [used], [ws], [we], [gen], [ver]. *)
Definition parseRuleState (accessKeyID ruleID revision : Z) (fields : list string)
    : result QuotaStoreError RestoredState :=
  match fields with
  | [usedText; wsText; weText; genText; verText] =>
    match parseInt usedText, parseOptionalMS wsText, parseOptionalMS weText, parseUint genText, parseUint verText with
    | Some used, Ok started, Ok ends, Some generation, Some version =>
      Ok (mkRestored accessKeyID ruleID revision used started ends generation version)
    | _, _, _, _, _ => Err DecodeError
    end
  | _ => Err DecodeError
  end.

Record quotaEvaluation := mkEvaluation {
  allowed : bool;
  states : gmap Z RestoredState;
  opened : list bool;
}.

(** One rule of the reply after another; the length is checked first. *)
Fixpoint parseRows (accessKeyID : Z) (rs : list Rule) (fields : list string)
    : result QuotaStoreError (gmap Z RestoredState * list bool) :=
  match rs with
  | [] => Ok (∅, [])
  | rule :: rs =>
    let? ruleState := parseRuleState accessKeyID rule.(ID) rule.(Revision) (take 5 fields) in
    let? (others, opened) := parseRows accessKeyID rs (drop 6 fields) in
    Ok (match others !! rule.(ID) with Some _ => others | None => <[rule.(ID) := ruleState]> others end,
        bool_decide (fields !! 5%nat = Some "1"%string) :: opened)
  end.

Definition parseEvaluation (accessKeyID : Z) (rs : list Rule) (fields : list string)
    : result QuotaStoreError quotaEvaluation :=
  if negb (Nat.eqb (length fields) (1 + length rs * 6)) then Err Malformed
  else
    let? (states, opened) := parseRows accessKeyID rs (tail fields) in
    Ok (mkEvaluation (bool_decide (head fields = Some "1"%string)) states opened).

(** [optionalStrings] on one [HMGET] reply. *)
Definition optionalStrings (r : row) : result QuotaStoreError (option (list string)) :=
  match r.(row_rev) with
  | None => Ok None
  | Some rev =>
    match allStrings [r.(row_used); r.(row_ws); r.(row_we); r.(row_gen); r.(row_ver)] with
    | Some fields => Ok (Some (rev :: fields))
    | None => Err IncompleteHash
    end
  end.

(** ** Local dirty rules *)

Record dirtyRule := mkDirty {
  accessKeyID : Z;
  revision : Z;
  version : Z;
}.

#[export] Instance dirtyRule_eq_dec : EqDecision dirtyRule.
Proof. solve_decision. Defined.

Definition coveredBy (rule : dirtyRule) (rev ver : Z) : bool :=
  (rev >? rule.(revision)) || ((rev =? rule.(revision)) && (ver >=? rule.(version))).

(** [notifier] tells whether a wake-up is installed; [wakeups] counts its calls. *)
Record AccessQuota := mkQuota {
  keyPrefix : string;
  dirty : gmap Z dirtyRule;
  notifier : bool;
  wakeups : Z;
}.

Definition NewAccessQuota (prefix : string) : AccessQuota := mkQuota prefix ∅ false 0.
Definition SetDirtyNotifier (q : AccessQuota) (installed : bool) : AccessQuota := q <| notifier := installed |>.
Definition HasDirty (q : AccessQuota) : bool := negb (bool_decide (q.(dirty) = ∅)).

Definition Ack (q : AccessQuota) (key rule rev ver : Z) : AccessQuota :=
  match q.(dirty) !! rule with
  | Some d => if (d.(accessKeyID) =? key) && coveredBy d rev ver
              then q <| dirty := delete rule q.(dirty) |> else q
  | None => q
  end.

Definition dropDirty (q : AccessQuota) (rule : Z) (observed : dirtyRule) : AccessQuota :=
  if bool_decide (q.(dirty) !! rule = Some observed) then q <| dirty := delete rule q.(dirty) |> else q.

Definition markDirty (q : AccessQuota) (key rule rev ver : Z) : AccessQuota :=
  let next := mkDirty key rev ver in
  match q.(dirty) !! rule with
  | Some current => if coveredBy next current.(revision) current.(version) then q
                    else q <| dirty := <[rule := next]> q.(dirty) |>
  | None => q <| dirty := <[rule := next]> q.(dirty) |>
  end.

Definition notifyDirty (q : AccessQuota) : AccessQuota :=
  if q.(notifier) then q <| wakeups := q.(wakeups) + 1 |> else q.

(** ** Operations *)

Definition quotaStateTTL : Z := 7 * 24 * 3600 * 1000.

(** The arguments [evaluate] passes to [quotaScript]. *)
Definition quotaArgs (q : AccessQuota) (key nowMS : Z) (rs : list Rule) : list ruleArg :=
  map (fun rule =>
    mkRuleArg (ruleKey q.(keyPrefix) key rule.(ID)) (decimal rule.(Revision)) rule.(Kind)
      (decimal rule.(LimitNano)) (decimal (wrap_i64 (nowMS + wrap_i64 (rule.(PeriodSeconds) * 1000))))) rs.

(** The rules at the one-based indexes of a [NEED_INIT] reply. *)
Fixpoint hydrateTargets (rs : list Rule) (indexes : list string) : result QuotaStoreError (list Rule) :=
  match indexes with
  | [] => Ok []
  | text :: indexes =>
    match parseInt text with
    | None => Err Malformed
    | Some index =>
      if (index <? 1) || (index >? Z.of_nat (length rs)) then Err Malformed
      else match rs !! Z.to_nat (index - 1) with
      | None => Err Malformed
      | Some rule => let? targets := hydrateTargets rs indexes in Ok (rule :: targets)
      end
    end
  end.

Definition initArgOf (q : AccessQuota) (key : Z) (rule : Rule) (checkpoint : RestoredState) : initArg :=
  mkInitArg (ruleKey q.(keyPrefix) key rule.(ID)) (decimal checkpoint.(RuleRevision)) (decimal checkpoint.(UsedNano))
    (formatOptionalMS checkpoint.(WindowStartedAtMS)) (formatOptionalMS checkpoint.(WindowEndsAtMS))
    (decimal checkpoint.(WindowGeneration)) (decimal checkpoint.(SnapshotVersion)).

(** The checkpoint loop of [hydrate]. *)
Fixpoint hydrateArgs (q : AccessQuota) (key : Z) (byRule : gmap Z RestoredState) (targets : list Rule)
    : result QuotaStoreError (list initArg) :=
  match targets with
  | [] => Ok []
  | rule :: targets =>
    match byRule !! rule.(ID) with
    | None => Err ErrStaleRules
    | Some checkpoint =>
      if checkpoint.(RuleRevision) >? rule.(Revision) then Err ErrStaleRules
      else if checkpoint.(RuleRevision) <? rule.(Revision) then Err CheckpointBehind
      else if negb (checkpoint.(AccessKeyID) =? key) then Err CheckpointForeign
      else match ValidateRestoredState rule checkpoint with
      | Some e => Err (CheckpointInvalid e)
      | None => let? args := hydrateArgs q key byRule targets in Ok (initArgOf q key rule checkpoint :: args)
      end
    end
  end.

(** [ReadAccessQuotaStates] of the database. *)
Abbreviation StateReader := (list Z -> result QuotaStoreError (list RestoredState)).

Definition hydrate (q : AccessQuota) (reader : option StateReader) (key : Z) (rs : list Rule)
    (indexes : list string) (w : World) : World * result QuotaStoreError unit :=
  match hydrateTargets rs indexes with
  | Err e => (w, Err e)
  | Ok targets =>
    match reader with
    | None => (w, Err NoCheckpointReader)
    | Some ReadAccessQuotaStates =>
      match ReadAccessQuotaStates (map ID targets) with
      | Err e => (w, Err e)
      | Ok persisted =>
        let byRule := foldl (fun m c => <[c.(RuleID) := c]> m) (∅ : gmap Z RestoredState) persisted in
        match hydrateArgs q key byRule targets with
        | Err e => (w, Err e)
        | Ok args =>
          let '(w, reply) := runStrings (initScript quotaStateTTL args) w in
          (w, match reply with Err e => Err e | Ok _ => Ok tt end)
        end
      end
    end
  end.

(** One attempt of the loop of [evaluate]; [retry] continues after [NEED_INIT]. *)
Definition evaluateAttempt (q : AccessQuota) (admitting : bool) (key : Z) (rs : list Rule) (nowMS : Z)
    (retry : list string -> World -> World * result QuotaStoreError quotaEvaluation) (w : World)
    : World * result QuotaStoreError quotaEvaluation :=
  let '(w, reply) :=
    runStrings (quotaScript admitting (decimal nowMS) quotaStateTTL (quotaArgs q key nowMS rs)) w in
  match reply with
  | Err e => (w, Err e)
  | Ok [] => (w, Err Malformed)
  | Ok (tag :: fields) =>
    if bool_decide (tag = "STALE"%string) then (w, Err ErrStaleRules)
    else if bool_decide (tag = "NEED_INIT"%string) then retry fields w
    else if bool_decide (tag = "OK"%string) then (w, parseEvaluation key rs fields)
    else (w, Err Malformed)
  end.

Definition evaluate (q : AccessQuota) (reader : option StateReader) (admitting : bool) (key : Z) (rs : list Rule)
    (nowMS : Z) (w : World) : World * result QuotaStoreError quotaEvaluation :=
  evaluateAttempt q admitting key rs nowMS
    (fun indexes w =>
       let '(w, done) := hydrate q reader key rs indexes w in
       match done with
       | Err e => (w, Err e)
       | Ok _ => evaluateAttempt q admitting key rs nowMS (fun _ w => (w, Err StillMissing)) w
       end) w.

(** [allowedDecision] of the cluster package: [DecisionFor(nil, nil, 0)]. *)
Definition noRulesDecision : Decision := DecisionFor [] ∅ 0.

Definition Check (q : AccessQuota) (reader : option StateReader) (costLimitRules : Z -> list Rule)
    (key nowMS : Z) (w : World) : World * result QuotaStoreError Decision :=
  match costLimitRules key with
  | [] => (w, Ok noRulesDecision)
  | rs =>
    let '(w, evaluation) := evaluate q reader false key rs nowMS w in
    (w, match evaluation with
        | Err e => Err e
        | Ok evaluation => Ok (DecisionFor rs evaluation.(states) nowMS)
        end)
  end.

Record TicketRule := mkTicketRule { tr_RuleID : Z; tr_RuleRevision : Z; tr_WindowGeneration : Z }.
Record Ticket := mkTicket { tk_AccessKeyID : Z; tk_Rules : list TicketRule }.

(** The ticket loop of [Admit]; an opened window marks its rule dirty. *)
Fixpoint issueTicket (q : AccessQuota) (key : Z) (sts : gmap Z RestoredState) (rs : list (Rule * bool))
    : AccessQuota * list TicketRule :=
  match rs with
  | [] => (q, [])
  | (rule, opened) :: rs =>
    let current := default (mkRestored 0 0 0 0 None None 0 0) (sts !! rule.(ID)) in
    let q := if opened : bool then markDirty q key rule.(ID) rule.(Revision) current.(SnapshotVersion) else q in
    let '(q, rest) := issueTicket q key sts rs in
    (q, mkTicketRule rule.(ID) rule.(Revision) current.(WindowGeneration) :: rest)
  end.

Definition Admit (q : AccessQuota) (reader : option StateReader) (costLimitRules : Z -> list Rule)
    (key nowMS : Z) (w : World) : AccessQuota * World * result QuotaStoreError (Ticket * Decision) :=
  match costLimitRules key with
  | [] => (q, w, Ok (mkTicket key [], noRulesDecision))
  | rs =>
    let '(w, evaluation) := evaluate q reader true key rs nowMS w in
    match evaluation with
    | Err e => (q, w, Err e)
    | Ok evaluation =>
      if negb evaluation.(allowed)
      then (q, w, Ok (mkTicket key [], DecisionFor rs evaluation.(states) nowMS))
      else
        let '(q, ticket) := issueTicket q key evaluation.(states) (zip rs evaluation.(opened)) in
        let q := if existsb id evaluation.(opened) then notifyDirty q else q in
        (q, w, Ok (mkTicket key ticket, noRulesDecision))
    end
  end.

(** The reply loop of [Complete]. *)
Fixpoint settleReply (q : AccessQuota) (ticket : Ticket) (fields : list string)
    : AccessQuota * option QuotaStoreError :=
  match fields with
  | indexText :: revText :: verText :: fields =>
    match parseInt indexText, parseUint revText, parseUint verText with
    | Some index, Some rev, Some ver =>
      if (index <? 1) || (index >? Z.of_nat (length ticket.(tk_Rules))) then (q, Some Malformed)
      else match ticket.(tk_Rules) !! Z.to_nat (index - 1) with
      | None => (q, Some Malformed)
      | Some rule => settleReply (markDirty q ticket.(tk_AccessKeyID) rule.(tr_RuleID) rev ver) ticket fields
      end
    | _, _, _ => (q, Some Malformed)
    end
  | _ => (q, None)
  end.

Definition completeArgs (q : AccessQuota) (ticket : Ticket) : list completeArg :=
  map (fun rule =>
    mkCompleteArg (ruleKey q.(keyPrefix) ticket.(tk_AccessKeyID) rule.(tr_RuleID))
      (decimal rule.(tr_RuleRevision)) (decimal rule.(tr_WindowGeneration))) ticket.(tk_Rules).

Definition headroomOf (costNano : Z) : Z := if costNano >? 0 then max_int64 - costNano else max_int64.

(** The completion fault, and an error after which the fault still stands. *)
Definition Complete (q : AccessQuota) (ticket : Ticket) (costNano : Z) (w : World)
    : AccessQuota * World * (string * option QuotaStoreError) :=
  if (ticket.(tk_AccessKeyID) =? 0) || bool_decide (length ticket.(tk_Rules) = O) || (costNano =? 0)
  then (q, w, (""%string, None))
  else
    let '(w, reply) :=
      runStrings (completeScript (decimal costNano) (decimal (headroomOf costNano)) costNano quotaStateTTL
                    (completeArgs q ticket)) w in
    match reply with
    | Err e => (q, w, (""%string, Some e))
    | Ok [] => (q, w, (""%string, Some Malformed))
    | Ok (fault :: fields) =>
      if negb (Nat.eqb (length fields mod 3) 0) then (q, w, (""%string, Some Malformed))
      else
        let '(q, failure) := settleReply q ticket fields in
        match failure with
        | Some e => (q, w, (fault, Some e))
        | None => (if bool_decide (fields = []) then q else notifyDirty q, w, (fault, None))
        end
    end.

Definition ViewOf (q : AccessQuota) (reader : option StateReader) (costLimitRules : Z -> list Rule)
    (key nowMS : Z) (w : World) : World * result QuotaStoreError View :=
  match costLimitRules key with
  | [] => (w, Ok (ViewFor [] ∅ nowMS))
  | rs =>
    let '(w, evaluation) := evaluate q reader false key rs nowMS w in
    (w, match evaluation with
        | Err e => Err e
        | Ok evaluation => Ok (ViewFor rs evaluation.(states) nowMS)
        end)
  end.

(** ** Checkpointing *)

Definition byRuleID (l r : Z * dirtyRule) : Prop := l.1 <= r.1.
#[export] Instance byRuleID_dec : RelDecision byRuleID.
Proof. intros l r. unfold byRuleID. apply _. Defined.

(** The candidates of [DirtySnapshots]: sorted by rule, at most [limit] of them. *)
Definition dirtyCandidates (q : AccessQuota) (limit : Z) : list (Z * dirtyRule) :=
  let candidates := merge_sort byRuleID (map_to_list q.(dirty)) in
  if (limit >? 0) && (Z.of_nat (length candidates) >? limit) then take (Z.to_nat limit) candidates else candidates.

(** One reply of the pipeline: a vanished or regressed rule is dropped. *)
Fixpoint collectSnapshots (q : AccessQuota) (items : list (Z * dirtyRule * row))
    : AccessQuota * result QuotaStoreError (list RestoredState) :=
  match items with
  | [] => (q, Ok [])
  | (ruleID, item, r) :: items =>
    match optionalStrings r with
    | Err e => (q, Err e)
    | Ok None => collectSnapshots (dropDirty q ruleID item) items
    | Ok (Some []) => (q, Err DecodeError)
    | Ok (Some (revText :: fields)) =>
      match parseUint revText with
      | None => (q, Err DecodeError)
      | Some rev =>
        match parseRuleState item.(accessKeyID) ruleID rev fields with
        | Err e => (q, Err e)
        | Ok snapshot =>
          if negb (coveredBy item snapshot.(RuleRevision) snapshot.(SnapshotVersion))
          then collectSnapshots (dropDirty q ruleID item) items
          else
            let '(q, rest) := collectSnapshots q items in
            (q, match rest with Ok snapshots => Ok (snapshot :: snapshots) | Err e => Err e end)
        end
      end
    end
  end.

Definition DirtySnapshots (q : AccessQuota) (limit : Z) (w : World)
    : AccessQuota * World * result QuotaStoreError (list RestoredState) :=
  match dirtyCandidates q limit with
  | [] => (q, w, Ok [])
  | candidates =>
    let '(w, replies) :=
      pipelineReads (map (fun '(rule, d) => ruleKey q.(keyPrefix) d.(accessKeyID) rule) candidates) w in
    match replies with
    | Err e => (q, w, Err e)
    | Ok rows =>
      let '(q, snapshots) := collectSnapshots q (zip candidates rows) in (q, w, snapshots)
    end
  end.

End Store.
End QuotaStore.
