(* ===== verification/QuotaStoreProps.v ===== *)
(** * Properties of the shared cost limits

    What a stored rule looks like, that every script keeps it legal whatever the
    interleaving of instances, that the script which admits requests and the Go
    code which explains its decisions agree, and that a settled cost is charged
    exactly once to each window it was admitted to. *)

From Stdlib Require Import ZArith Lia Bool String Ascii List.
From stdpp Require Import base gmap sets list strings sorting.
From coqutil Require Import Datatypes.RecordSettersUsingExistingGetters.
From S2P Require Import Prelude GoStrings Quota Redis Lua QuotaStore.

Local Open Scope Z_scope.
Local Open Scope go_scope.

Module QuotaStoreProps.
Import Redis Lua LuaNumbers Quota QuotaStore.

(** ** Keys are distinct *)

Lemma append_cons c (a b : string) : (String c a +:+ b)%string = String c (a +:+ b).
Proof. reflexivity. Qed.

Lemma append_nil (a : string) : ("" +:+ a)%string = a.
Proof. reflexivity. Qed.

Lemma append_assoc (a b c : string) : ((a +:+ b) +:+ c = a +:+ (b +:+ c))%string.
Proof. induction a as [|x a IH]; [reflexivity|]. now rewrite !append_cons, IH. Qed.

Lemma append_inv_head (a b c : string) : (a +:+ b = a +:+ c)%string -> b = c.
Proof. induction a as [|x a IH]; [auto|]. rewrite !append_cons. intros [= H]. auto. Qed.

Definition startsWithDigit (x : string) : bool :=
  match x with String c _ => is_digit c | EmptyString => false end.

Lemma digits_prefix l m (x y : string) : all_digits l = true -> all_digits m = true ->
  startsWithDigit x = false -> startsWithDigit y = false ->
  (text l +:+ x = text m +:+ y)%string -> l = m /\ x = y.
Proof.
  revert m. induction l as [|c l IH]; intros [|d m] Hl Hm Hx Hy Heq;
    cbn [string_of_list_ascii] in Heq; rewrite ?append_cons, ?append_nil in Heq.
  - auto.
  - rewrite Heq in Hx. rewrite all_digits_cons in Hm. apply andb_true_iff in Hm as [Hd _]. cbn in Hx. congruence.
  - rewrite <- Heq in Hy. rewrite all_digits_cons in Hl. apply andb_true_iff in Hl as [Hd _]. cbn in Hy. congruence.
  - injection Heq as -> Heq. rewrite all_digits_cons in Hl, Hm. apply andb_true_iff in Hl as [_ Hl].
    apply andb_true_iff in Hm as [_ Hm]. destruct (IH m Hl Hm Hx Hy Heq) as [-> ->]. auto.
Qed.

(** A number followed by a text that does not start with a digit is read back. *)
Lemma decimal_prefix a b (x y : string) : 0 <= a -> 0 <= b ->
  startsWithDigit x = false -> startsWithDigit y = false ->
  (decimal a +:+ x = decimal b +:+ y)%string -> a = b /\ x = y.
Proof.
  intros Ha Hb Hx Hy H. unfold decimal, format_int in H.
  rewrite (proj2 (Z.ltb_ge a 0)), (proj2 (Z.ltb_ge b 0)) in H by lia.
  destruct (render_spec a Ha) as (Da & Va & _). destruct (render_spec b Hb) as (Db & Vb & _).
  destruct (digits_prefix _ _ _ _ Da Db Hx Hy H) as [E ->]. split; [|reflexivity]. congruence.
Qed.

Lemma ruleKey_inj p a b r t : 0 <= a -> 0 <= b -> ruleKey p a r = ruleKey p b t -> a = b /\ r = t.
Proof.
  intros Ha Hb H. unfold ruleKey, Key, accessKeyHashTag in H.
  apply append_inv_head, append_inv_head in H. cbn [String.concat] in H.
  rewrite !append_assoc in H. apply append_inv_head, decimal_prefix in H as [-> H]; auto.
  split; [reflexivity|]. rewrite ?append_assoc in H. repeat apply append_inv_head in H. now apply decimal_inj.
Qed.

(** ** Stored rules *)

(** The Hash of a rule holds exactly one state, field by field. *)
Record encodes (h : gmap string string) (st : RestoredState) : Prop := {
  enc_rev : h !! "rev"%string = Some (decimal st.(RuleRevision));
  enc_used : h !! "used"%string = Some (decimal st.(UsedNano));
  enc_ws : h !! "ws"%string = Some (formatOptionalMS st.(WindowStartedAtMS));
  enc_we : h !! "we"%string = Some (formatOptionalMS st.(WindowEndsAtMS));
  enc_gen : h !! "gen"%string = Some (decimal st.(WindowGeneration));
  enc_ver : h !! "ver"%string = Some (decimal st.(SnapshotVersion));
}.

(** A legal state of a rule whose numbers Redis and Lua handle exactly: revisions
    and timestamps below [2^53], amounts and counters in [int64]. *)
Record state_ok (rule : Rule) (st : RestoredState) : Prop := {
  st_rule : rule_ok rule;
  st_valid : ValidateRestoredState rule st = None;
  st_rev : 0 < st.(RuleRevision) <= 2 ^ 53;
  st_used : st.(UsedNano) <= max_int64;
  st_end : match st.(WindowEndsAtMS) with Some e => e <= 2 ^ 53 | None => True end;
  st_gen : 0 <= st.(WindowGeneration) <= max_int64;
  st_ver : 0 <= st.(SnapshotVersion) <= max_int64;
}.

(** What [ValidateRestoredState] accepts, field by field. *)
Definition window_legal (rule : Rule) (st : RestoredState) : Prop :=
  match st.(WindowStartedAtMS), st.(WindowEndsAtMS) with
  | None, None => st.(WindowGeneration) = 0 /\ (isKind KindTotal rule = false -> st.(UsedNano) = 0)
  | Some started, Some ends =>
      isKind KindTotal rule = false /\ 0 <= started < ends /\ st.(WindowGeneration) <> 0 /\
      wrap_i64 (ends - started) = wrap_i64 (rule.(PeriodSeconds) * 1000)
  | _, _ => False
  end.

Lemma failure_of {E A} (f : option E) (x : A) :
  match (match f with Some e => Err e | None => Ok x end) with Ok _ => None | Err e => Some e end = f.
Proof. now destruct f. Qed.

Lemma ValidateRestoredState_spec rule st : ValidateRestoredState rule st = None <->
  st.(AccessKeyID) <> 0 /\ st.(RuleID) <> 0 /\ st.(RuleRevision) <> 0 /\ 0 <= st.(UsedNano) /\
  st.(SnapshotVersion) <> 0 /\ st.(RuleID) = rule.(ID) /\ st.(RuleRevision) = rule.(Revision) /\
  window_legal rule st.
Proof.
  unfold ValidateRestoredState, validateRestoredState, applyRestoredState, window_legal, newRuntimeRule.
  cbn [definition]. rewrite failure_of. rewrite !first_error_None, !err_if_None, !orb_false_iff, !negb_false_iff.
  rewrite !Z.eqb_neq, Z.ltb_ge, !Z.eqb_eq.
  destruct (isKind KindTotal rule); destruct (WindowStartedAtMS st) as [ws|], (WindowEndsAtMS st) as [we|]; cbn;
    rewrite ?first_error_None, ?err_if_None, ?orb_false_iff, ?negb_false_iff, ?Z.eqb_neq, ?Z.eqb_eq, ?Z.ltb_ge, ?Z.leb_gt;
    intuition (discriminate || lia || auto).
Qed.

Definition openWindow (now ends : Z) (st : RestoredState) : RestoredState :=
  st <| UsedNano := 0 |> <| WindowStartedAtMS := Some now |> <| WindowEndsAtMS := Some ends |>
     <| WindowGeneration := st.(WindowGeneration) + 1 |> <| SnapshotVersion := st.(SnapshotVersion) + 1 |>.

Definition rowOf (st : RestoredState) : row :=
  mkRow (Some (decimal st.(RuleRevision))) (Some (decimal st.(UsedNano)))
    (Some (formatOptionalMS st.(WindowStartedAtMS))) (Some (formatOptionalMS st.(WindowEndsAtMS)))
    (Some (decimal st.(WindowGeneration))) (Some (decimal st.(SnapshotVersion))).

(** Lookup of a field through writes of other fields. *)
Ltac fields := rewrite ?lookup_insert_eq; repeat rewrite lookup_insert_ne by discriminate; rewrite ?lookup_insert_eq.

Lemma encodes_open h st now ends : encodes h st ->
  encodes (<["ver" := decimal (SnapshotVersion st + 1)]> (<["gen" := decimal (WindowGeneration st + 1)]>
    (<["we" := decimal ends]> (<["ws" := decimal now]> (<["used" := "0"]> h)))))%string (openWindow now ends st).
Proof. intros []. constructor; cbn; unfold const; fields; auto. Qed.

Lemma encodes_used h st u : encodes h st -> encodes (<["used" := decimal u]> h)%string (st <| UsedNano := u |>).
Proof. intros []. constructor; cbn; unfold const; fields; auto. Qed.

Lemma encodes_ver h st v : encodes h st -> encodes (<["ver" := decimal v]> h)%string (st <| SnapshotVersion := v |>).
Proof. intros []. constructor; cbn; unfold const; fields; auto. Qed.

Section Store.
Context {St : Type} {R : RedisStore St} {ROk : RedisOk St}.
Implicit Types (s : St) (k : string).

(** ** Commands *)

Lemma PEXPIRE_hash s k px k' : 0 < px -> hashOf (fst (PEXPIRE s k px)) k' = hashOf s k'.
Proof.
  intros Hpx. destruct (decide (k' = k)) as [->|Hne]; [|now apply PEXPIRE_only].
  destruct (decide (hashOf s k = ∅ /\ zsetOf s k = ∅ /\ GET s k = None)) as [(H1 & H2 & H3)|Hx].
  - destruct (PEXPIRE_absent s k px) as [_ (G & _)]; [|congruence].
    split_and!; auto. now apply absent_ok.
  - apply PEXPIRE_ok; [assumption|]. unfold exists_key.
    destruct (decide (hashOf s k = ∅)); [|auto]. destruct (decide (zsetOf s k = ∅)); [|auto].
    destruct (decide (GET s k = None)); [|auto]. tauto.
Qed.

Lemma HSET_other s k f v k' : k' <> k -> hashOf (HSET s k f v) k' = hashOf s k'.
Proof. intros. now apply HSET_only. Qed.

Lemma HMGET_encodes s k st : encodes (hashOf s k) st -> HMGET s k = rowOf st.
Proof. intros []. unfold HMGET, rowOf. rewrite !HGET_ok. congruence. Qed.

(** [HINCRBY] on a counter below its maximum. *)
Lemma HINCRBY_decimal s k f n v : hashOf s k !! f = Some (decimal v) -> in_int64 v -> in_int64 (v + n) ->
  HINCRBY s k f n = (HSET s k f (decimal (v + n)), Some (v + n)).
Proof.
  intros Hf Hv Hn. rewrite (HINCRBY_ok s k f n v) by auto. now rewrite (proj2 (is_int64_spec _) Hn).
Qed.

(** ** The quota script on stored rules *)

Variable prefix : string.
Variable key : Z.

(** A rule together with the state its key holds. *)
Abbreviation item := (Rule * RestoredState)%type.

Definition keyOf (it : item) : string := ruleKey prefix key it.1.(ID).

Record stored s (it : item) : Prop := {
  stored_hash : encodes (hashOf s (keyOf it)) it.2;
  stored_key : it.2.(AccessKeyID) = key;
  stored_ok : state_ok it.1 it.2;
}.

Definition inactiveAt (now : Z) (it : item) : bool :=
  isKind KindPeriodic it.1 &&
  match it.2.(WindowStartedAtMS), it.2.(WindowEndsAtMS) with
  | Some _, Some ends => now >=? ends
  | _, _ => true
  end.
Definition exhaustedAt (now : Z) (it : item) : bool :=
  negb (inactiveAt now it) && (it.1.(LimitNano) <=? it.2.(UsedNano)).

Definition windowEndAt (now : Z) (rule : Rule) : Z := wrap_i64 (now + wrap_i64 (rule.(PeriodSeconds) * 1000)).

Definition argOf (now : Z) (it : item) : ruleArg :=
  mkRuleArg (keyOf it) (decimal it.1.(Revision)) it.1.(Kind) (decimal it.1.(LimitNano))
    (decimal (windowEndAt now it.1)).

Lemma stored_revision s it : stored s it -> RuleRevision it.2 = Revision it.1.
Proof. intros [_ _ [_ Hv _ _ _ _ _]]. now apply ValidateRestoredState_spec in Hv. Qed.

Lemma stored_used s it : stored s it -> 0 <= UsedNano it.2 <= max_int64.
Proof. intros [_ _ [_ Hv _ Hu _ _ _]]. apply ValidateRestoredState_spec in Hv. lia. Qed.

Lemma number_small n s : Z.abs n <= 2 ^ 53 -> number (Some (decimal n)) s = (s, Ok n).
Proof. intros H. unfold number. now rewrite tonumber_small. Qed.

Lemma quotaScan_stored now items s i : Forall (stored s) items ->
  quotaScan i (map (argOf now) items) s = (s, Ok (false, [], map (fun it => rowOf it.2) items)).
Proof.
  intros H. revert i. induction H as [|it items Hit _ IH]; intros i; [reflexivity|].
  cbn [map quotaScan]. unfold bind, read. cbn [arg_key argOf].
  rewrite (HMGET_encodes s (keyOf it) it.2) by apply Hit. cbn [row_rev rowOf].
  pose proof (st_rev _ _ (stored_ok _ _ Hit)) as Hr. pose proof (stored_revision _ _ Hit) as E.
  unfold number at 1. rewrite tonumber_small by lia. cbn [ret arg_rev argOf].
  rewrite <- E, number_small by lia. cbn. rewrite Z.gtb_ltb, Z.ltb_irrefl. cbn. rewrite IH. reflexivity.
Qed.

Lemma isEmptyText_ms v : isEmptyText (Some (formatOptionalMS v)) = match v with None => true | Some _ => false end.
Proof.
  unfold isEmptyText. destruct v as [v|]; cbn; [|reflexivity]. apply bool_decide_eq_false_2.
  intros [= H]. now apply decimal_nonempty in H.
Qed.

Lemma quotaJudge_stored now items s : Forall (stored s) items ->
  Forall (fun it => it.1.(LimitNano) <= max_int64) items ->
  quotaJudge now (map (fun it => (argOf now it, rowOf it.2)) items) s =
    (s, Ok (forallb (fun it => negb (exhaustedAt now it)) items, map (inactiveAt now) items)).
Proof.
  intros H Hl. induction H as [|it items Hit _ IH]; [reflexivity|]. apply Forall_cons in Hl as [Hl1 Hl].
  specialize (IH Hl). cbn [map quotaJudge forallb]. unfold bind.
  assert (Hin : (if bool_decide (arg_kind (argOf now it) = "periodic"%string) then
        if isEmptyText (row_ws (rowOf it.2)) || isEmptyText (row_we (rowOf it.2)) then ret true
        else let! ends := number (row_we (rowOf it.2)) in ret (now >=? ends)
      else ret false) s = (s, Ok (inactiveAt now it))).
  { cbn [arg_kind argOf row_ws row_we rowOf]. rewrite !isEmptyText_ms. unfold inactiveAt, isKind.
    destruct (bool_decide (Kind it.1 = KindPeriodic)) eqn:Ek; cbn [andb].
    2: { change "periodic"%string with KindPeriodic. now rewrite Ek. }
    change "periodic"%string with KindPeriodic. rewrite Ek.
    destruct Hit as [_ _ [_ Hv _ _ He _ _]]. apply ValidateRestoredState_spec in Hv as (_ & _ & _ & _ & _ & _ & _ & Hw).
    unfold window_legal in Hw.
    destruct (WindowStartedAtMS it.2) as [ws|], (WindowEndsAtMS it.2) as [we|]; try contradiction; cbn; [|reflexivity].
    rewrite tonumber_small by lia. reflexivity. }
  unfold bind in Hin. rewrite Hin. unfold exhaustedAt. pose proof (stored_used _ _ Hit) as Hu.
  pose proof (rule_limit _ (st_rule _ _ (stored_ok _ _ Hit))) as Hlim.
  destruct (inactiveAt now it); cbn [negb andb]; [|cbn; rewrite cmp_ge by lia]; cbn; rewrite IH; reflexivity.
Qed.

(** The state after the third loop. *)
Definition after (opening : bool) (now : Z) (it : item) : RestoredState :=
  if opening && inactiveAt now it then openWindow now (windowEndAt now it.1) it.2 else it.2.

Definition flag (b : bool) : string := if b then "1" else "0".

Definition fieldsOf (opening : bool) (now : Z) (it : item) : list string :=
  let st := after opening now it in
  [decimal st.(UsedNano); formatOptionalMS st.(WindowStartedAtMS); formatOptionalMS st.(WindowEndsAtMS);
   decimal st.(WindowGeneration); decimal st.(SnapshotVersion); flag (opening && inactiveAt now it)].

(** Counters that one more increment keeps within the integers Lua prints exactly. *)
Definition counters_small (it : item) : Prop :=
  it.2.(WindowGeneration) + 1 < 10 ^ 14 /\ it.2.(SnapshotVersion) + 1 < 10 ^ 14.

Lemma increment_small s k f v : hashOf s k !! f = Some (decimal v) -> 0 <= v -> v + 1 < 10 ^ 14 ->
  increment k f 1 s = (HSET s k f (decimal (v + 1)), Ok (decimal (v + 1))).
Proof.
  intros Hf Hv Hb. unfold increment, bind, call.
  rewrite (HINCRBY_decimal s k f 1 v Hf) by (unfold in_int64, min_int64, max_int64; lia).
  unfold ret, tostring. rewrite dbl_small, (proj2 (Z.ltb_lt _ _)) by lia. reflexivity.
Qed.

(** One iteration of the third loop. *)
Lemma quotaReply_step admitting ok now ttl it s items : 0 < ttl -> stored s it -> counters_small it ->
  let opening := admitting && ok in
  exists s', encodes (hashOf s' (keyOf it)) (after opening now it) /\
    (forall k, k <> keyOf it -> hashOf s' k = hashOf s k) /\
    quotaReply admitting ok (decimal now) ttl ((argOf now it, rowOf it.2, inactiveAt now it) :: items) s =
      let '(s'', rest) := quotaReply admitting ok (decimal now) ttl items s' in
      (s'', match rest with Ok rest => Ok (map Some (fieldsOf opening now it) ++ rest) | Err e => Err e end).
Proof.
  intros Httl [He _ Hok] [Hg Hv]. cbn zeta. cbn [quotaReply]. unfold bind, fieldsOf, after.
  pose proof (st_gen _ _ Hok) as Hg0. pose proof (st_ver _ _ Hok) as Hv0.
  destruct (admitting && ok && inactiveAt now it) eqn:Eo.
  - unfold HSETwindow, write. cbn [arg_key arg_end argOf].
    set (k := keyOf it) in *. set (we := decimal (windowEndAt now it.1)).
    set (s1 := HSET (HSET (HSET s k "used" "0") k "ws" (decimal now)) k "we" we).
    assert (E1 : hashOf s1 k = <["we" := we]> (<["ws" := decimal now]> (<["used" := "0"]> (hashOf s k)))%string)
      by (subst s1; now rewrite !HSET_ok).
    rewrite (increment_small s1 k "gen" (WindowGeneration it.2)); [|rewrite E1; fields; apply He|lia|lia].
    set (s2 := HSET s1 k "gen" _).
    assert (E2 : hashOf s2 k = <["gen" := decimal (WindowGeneration it.2 + 1)]> (hashOf s1 k)%string)
      by (subst s2; now rewrite HSET_ok).
    rewrite (increment_small s2 k "ver" (SnapshotVersion it.2)); [|rewrite E2, E1; fields; apply He|lia|lia].
    set (s3 := HSET s2 k "ver" _). cbn [ret].
    exists (fst (PEXPIRE s3 k ttl)). rewrite !PEXPIRE_hash by assumption. split_and!.
    + subst s3. rewrite HSET_ok, E2, E1. now apply encodes_open.
    + intros k' Hk. rewrite PEXPIRE_hash by assumption. subst s3 s2 s1. now rewrite !HSET_other.
    + unfold PEXPIREs, write. cbn [row_used row_ws row_we row_gen row_ver].
      destruct (quotaReply admitting ok (decimal now) ttl items (fst (PEXPIRE s3 k ttl))) as [s'' [rest|e]]; reflexivity.
  - cbn [ret]. exists (fst (PEXPIRE s (keyOf it) ttl)). rewrite !PEXPIRE_hash by assumption.
    split_and!; [assumption| |].
    + intros k' Hk. now rewrite PEXPIRE_hash.
    + unfold PEXPIREs, write. cbn [arg_key argOf].
      destruct (quotaReply admitting ok (decimal now) ttl items _) as [s'' [rest|e]]; reflexivity.
Qed.

Definition item_keys (items : list item) : list string := map keyOf items.

Lemma keys_distinct items : 0 <= key -> NoDup (map (fun it : item => it.1.(ID)) items) -> NoDup (item_keys items).
Proof.
  intros Hk Hnd. unfold item_keys. induction items as [|it items IH]; cbn [map] in *; [constructor|].
  apply NoDup_cons in Hnd as [Hn Hnd]. apply NoDup_cons. split; [|auto].
  rewrite list_elem_of_In, in_map_iff. intros (it' & Heq & Hin). apply Hn.
  apply ruleKey_inj in Heq as [_ Heq]; try assumption. rewrite list_elem_of_In, in_map_iff. eauto.
Qed.

Lemma stored_transfer s s' it : hashOf s' (keyOf it) = hashOf s (keyOf it) -> stored s it -> stored s' it.
Proof. intros E [H1 H2 H3]. constructor; [now rewrite E|assumption|assumption]. Qed.

Lemma quotaReply_stored admitting ok now ttl items : 0 < ttl -> forall s,
  NoDup (item_keys items) -> Forall (stored s) items -> Forall counters_small items ->
  let opening := admitting && ok in
  exists s',
    quotaReply admitting ok (decimal now) ttl
      (map (fun it => (argOf now it, rowOf it.2, inactiveAt now it)) items) s =
      (s', Ok (map Some (concat (map (fieldsOf opening now) items)))) /\
    Forall (fun it => encodes (hashOf s' (keyOf it)) (after opening now it)) items /\
    (forall k, ~ In k (item_keys items) -> hashOf s' k = hashOf s k).
Proof.
  intros Httl. cbn zeta. induction items as [|it items IH]; intros s Hnd Hst Hc.
  { exists s. cbn. auto. }
  unfold item_keys in Hnd. cbn [map] in Hnd. apply NoDup_cons in Hnd as [Hn Hnd]. rewrite list_elem_of_In in Hn.
  apply Forall_cons in Hst as [Hit Hst]. apply Forall_cons in Hc as [Hc1 Hc].
  cbn [map]. destruct (quotaReply_step admitting ok now ttl it s
    (map (fun it => (argOf now it, rowOf it.2, inactiveAt now it)) items) Httl Hit Hc1) as (s1 & E1 & F1 & ->).
  assert (Hst1 : Forall (stored s1) items).
  { rewrite Forall_forall in Hst |- *. intros x Hx. apply (stored_transfer s); [|auto]. apply F1.
    intros E. apply Hn. rewrite <- E. apply in_map. now apply list_elem_of_In. }
  destruct (IH s1 Hnd Hst1 Hc) as (s' & -> & E' & F'). exists s'. split_and!.
  - cbn [concat]. now rewrite map_app.
  - constructor; [now rewrite F'|assumption].
  - intros k Hk. unfold item_keys in Hk. cbn [map In] in Hk. rewrite F' by tauto. apply F1. intros ->. tauto.
Qed.

Lemma zip_items now items :
  zip (zip (map (argOf now) items) (map (fun it : item => rowOf it.2) items)) (map (inactiveAt now) items) =
  map (fun it => (argOf now it, rowOf it.2, inactiveAt now it)) items.
Proof. induction items as [|it items IH]; cbn; [reflexivity|]. now rewrite IH. Qed.

Lemma zip_rows now items : zip (map (argOf now) items) (map (fun it : item => rowOf it.2) items) =
  map (fun it => (argOf now it, rowOf it.2)) items.
Proof. induction items as [|it items IH]; cbn; [reflexivity|]. now rewrite IH. Qed.

Definition roomAt (now : Z) (items : list item) : bool := forallb (fun it => negb (exhaustedAt now it)) items.

(** The hypotheses under which the scripts read a key's rules: legal states at the
    caller's revisions, distinct rules, and exact numbers. *)
Record ready s (now : Z) (items : list item) : Prop := {
  rd_key : 0 <= key;
  rd_now : 0 <= now <= 2 ^ 52;
  rd_ids : NoDup (map (fun it : item => it.1.(ID)) items);
  rd_stored : Forall (stored s) items;
  rd_limits : Forall (fun it : item => it.1.(LimitNano) <= max_int64) items;
  rd_counters : Forall counters_small items;
}.

(** The whole script on stored rules: reply and effect. *)
Lemma quotaScript_ready admitting now ttl items s : 0 < ttl -> ready s now items ->
  let opening := admitting && roomAt now items in
  exists s',
    quotaScript admitting (decimal now) ttl (map (argOf now) items) s =
      (s', Ok (map Some ("OK"%string :: flag (roomAt now items) :: concat (map (fieldsOf opening now) items)))) /\
    Forall (fun it => encodes (hashOf s' (keyOf it)) (after opening now it)) items /\
    (forall k, ~ In k (item_keys items) -> hashOf s' k = hashOf s k).
Proof.
  intros Httl [Hk Hnow Hids Hst Hlim Hc]. cbn zeta. unfold quotaScript, bind.
  rewrite quotaScan_stored by assumption. rewrite bool_decide_eq_true_2 by reflexivity. cbn [negb].
  rewrite number_small by lia. rewrite zip_rows, quotaJudge_stored by assumption.
  fold (roomAt now items). rewrite <- zip_rows, zip_items.
  destruct (quotaReply_stored admitting (roomAt now items) now ttl items Httl s
    (keys_distinct items Hk Hids) Hst Hc) as (s' & E & E' & F'). exists s'. rewrite E. split_and!; auto.
Qed.

(** ** Decoding the reply *)

Lemma allStrings_Some l : allStrings (map Some l) = Some l.
Proof. induction l as [|x l IH]; cbn; [reflexivity|]. now rewrite IH. Qed.

Lemma parseOptionalMS_format v : match v with Some z => in_int64 z | None => True end ->
  parseOptionalMS (formatOptionalMS v) = Ok v.
Proof.
  intros Hv. unfold parseOptionalMS, formatOptionalMS. destruct v as [z|]; [|reflexivity].
  rewrite bool_decide_eq_false_2 by apply decimal_nonempty. now rewrite decimal_parse.
Qed.

(** Every field of a state survives the trip through the reply. *)
Lemma parseRuleState_fields st : in_int64 (UsedNano st) ->
  match WindowStartedAtMS st with Some z => in_int64 z | None => True end ->
  match WindowEndsAtMS st with Some z => in_int64 z | None => True end ->
  0 <= WindowGeneration st <= max_uint64 -> 0 <= SnapshotVersion st <= max_uint64 ->
  parseRuleState (AccessKeyID st) (RuleID st) (RuleRevision st)
    [decimal (UsedNano st); formatOptionalMS (WindowStartedAtMS st); formatOptionalMS (WindowEndsAtMS st);
     decimal (WindowGeneration st); decimal (SnapshotVersion st)] = Ok st.
Proof.
  intros H1 H2 H3 H4 H5. unfold parseRuleState.
  rewrite decimal_parse, !parseOptionalMS_format, !decimal_parseUint by assumption. now destruct st.
Qed.

Lemma wrap_i64_range z : in_int64 (wrap_i64 z).
Proof.
  unfold in_int64, wrap_i64, min_int64, max_int64, two64.
  pose proof (Z.mod_pos_bound (z + 9223372036854775808) 18446744073709551616). lia.
Qed.

Lemma window_in_range rule st : state_ok rule st ->
  match WindowStartedAtMS st with Some z => in_int64 z | None => True end /\
  match WindowEndsAtMS st with Some z => in_int64 z | None => True end.
Proof.
  intros [_ Hv _ _ He _ _]. apply ValidateRestoredState_spec in Hv as (_ & _ & _ & _ & _ & _ & _ & Hw).
  unfold window_legal in Hw. unfold in_int64, min_int64, max_int64.
  destruct (WindowStartedAtMS st), (WindowEndsAtMS st); try contradiction; split; auto; lia.
Qed.

Lemma parse_after opening now s it : 0 <= now <= 2 ^ 52 -> stored s it -> counters_small it ->
  parseRuleState key it.1.(ID) it.1.(Revision) (take 5 (fieldsOf opening now it)) = Ok (after opening now it).
Proof.
  intros Hnow Hit [Hg Hv]. pose proof (stored_used s it Hit) as Hu. pose proof (stored_revision s it Hit) as Er.
  destruct Hit as [_ Ek Hok]. pose proof (window_in_range _ _ Hok) as [W1 W2].
  pose proof (st_gen _ _ Hok) as G. pose proof (st_ver _ _ Hok) as V.
  pose proof (st_valid _ _ Hok) as Hval. apply ValidateRestoredState_spec in Hval as (_ & _ & _ & _ & _ & Ei & _).
  unfold fieldsOf. cbn [take]. rewrite <- Ek, <- Ei, <- Er.
  assert (max_int64 <= max_uint64) by (vm_compute; discriminate). unfold in_int64, min_int64, max_int64 in *.
  unfold after. destruct (opening && inactiveAt now it); [|apply parseRuleState_fields; auto; unfold in_int64, min_int64, max_int64; lia].
  pose proof (parseRuleState_fields (openWindow now (windowEndAt now it.1) it.2)) as HP. cbn in HP. unfold const in HP.
  apply HP; try (unfold max_uint64, in_int64, min_int64, max_int64; lia). apply wrap_i64_range.
Qed.

Definition statesOf (f : item -> RestoredState) (items : list item) : gmap Z RestoredState :=
  foldr (fun it m => <[it.1.(ID) := f it]> m) ∅ items.

Lemma statesOf_other f items id : ~ In id (map (fun it : item => it.1.(ID)) items) -> statesOf f items !! id = None.
Proof.
  induction items as [|it items IH]; cbn [statesOf foldr map In]; [reflexivity|]. intros H.
  rewrite lookup_insert_ne by tauto. apply IH. tauto.
Qed.

Lemma statesOf_lookup f items it : NoDup (map (fun it : item => it.1.(ID)) items) -> In it items ->
  statesOf f items !! it.1.(ID) = Some (f it).
Proof.
  induction items as [|x items IH]; [intros _ []|]. cbn [map].
  intros Hnd [->|Hin]; apply NoDup_cons in Hnd as [Hn Hnd]; cbn.
  - apply lookup_insert_eq.
  - rewrite lookup_insert_ne; [now apply IH|]. intros E. apply Hn. rewrite list_elem_of_In, E.
    now apply (in_map (fun it : item => it.1.(ID))).
Qed.

Lemma parseRows_reply opening now s items : 0 <= now <= 2 ^ 52 ->
  NoDup (map (fun it : item => it.1.(ID)) items) -> Forall (stored s) items -> Forall counters_small items ->
  parseRows key (map fst items) (concat (map (fieldsOf opening now) items)) =
    Ok (statesOf (after opening now) items, map (fun it => opening && inactiveAt now it) items).
Proof.
  intros Hnow. induction items as [|it items IH]; intros Hnd Hst Hc; [reflexivity|].
  cbn [map] in Hnd. apply NoDup_cons in Hnd as [Hn Hnd]. rewrite list_elem_of_In in Hn.
  apply Forall_cons in Hst as [Hit Hst]. apply Forall_cons in Hc as [Hc1 Hc].
  cbn [map parseRows concat]. rewrite take_app_le, (parse_after opening now s) by (auto; cbn; lia).
  assert (Hd : drop 6 (fieldsOf opening now it ++ concat (map (fieldsOf opening now) items)) =
    concat (map (fieldsOf opening now) items)) by reflexivity.
  rewrite Hd, IH by assumption. rewrite statesOf_other by assumption.
  assert (Hf : bool_decide ((fieldsOf opening now it ++ concat (map (fieldsOf opening now) items)) !! 5%nat =
    Some "1"%string) = opening && inactiveAt now it).
  { cbn. unfold flag. destruct (opening && inactiveAt now it); reflexivity. }
  now rewrite Hf.
Qed.

Lemma fields_length opening now items : length (concat (map (fieldsOf opening now) items)) = (length items * 6)%nat.
Proof. induction items as [|it items IH]; cbn [map concat]; [reflexivity|]. rewrite length_app, IH. cbn. lia. Qed.

Lemma parseEvaluation_reply opening now s items (room : bool) : 0 <= now <= 2 ^ 52 ->
  NoDup (map (fun it : item => it.1.(ID)) items) -> Forall (stored s) items -> Forall counters_small items ->
  parseEvaluation key (map fst items) (flag room :: concat (map (fieldsOf opening now) items)) =
    Ok (mkEvaluation room (statesOf (after opening now) items) (map (fun it => opening && inactiveAt now it) items)).
Proof.
  intros Hnow Hnd Hst Hc. unfold parseEvaluation. cbn [length tail head].
  rewrite fields_length, length_map, Nat.eqb_refl. cbn [negb]. rewrite (parseRows_reply opening now s) by assumption.
  destruct room; reflexivity.
Qed.

(** ** The script and the Go decision agree *)

Lemma stored_states_ok items f : NoDup (map (fun it : item => it.1.(ID)) items) ->
  (forall it, In it items -> state_ok it.1 (f it)) -> states_ok (map fst items) (statesOf f items).
Proof.
  intros Hnd Hf rule st Hin Hl. apply in_map_iff in Hin as (it & <- & Hin).
  rewrite (statesOf_lookup f items it Hnd Hin) in Hl. injection Hl as <-. now apply Hf.
Qed.

Lemma exhausted_blocked s now items it : NoDup (map (fun it : item => it.1.(ID)) items) ->
  stored s it -> In it items ->
  exhaustedAt now it = true <-> blockedAt (statesOf snd items) now it.1.
Proof.
  intros Hnd Hit Hin. unfold blockedAt. rewrite (statesOf_lookup snd items it Hnd Hin).
  unfold exhaustedAt, inactiveAt. destruct Hit as [_ _ [[_ _ Hk] Hv _ _ _ _ _]].
  apply ValidateRestoredState_spec in Hv as (_ & _ & _ & _ & _ & _ & _ & Hw). unfold window_legal in Hw.
  rewrite andb_true_iff, negb_true_iff, Z.leb_le. unfold isKind in *.
  destruct Hk as [[Hk _]|[Hk _]]; rewrite Hk in *.
  - rewrite bool_decide_eq_false_2 by discriminate. cbn. split; [intros [_ H]; eauto 10|].
    intros (st & [= <-] & H & _). auto.
  - rewrite bool_decide_eq_true_2 by reflexivity. cbn [andb].
    destruct (WindowStartedAtMS it.2) as [ws|] eqn:E1, (WindowEndsAtMS it.2) as [we|] eqn:E2; try contradiction.
    + rewrite Z.geb_leb, Z.leb_gt. split; [intros [H1 H2]; eauto 10|].
      intros (st & Hst & H & [Hx|(e & He & Hlt)]); [discriminate Hx|]. injection Hst as <-.
      split; [congruence|assumption].
    + split; [now intros [? _]|]. intros (st & Hst & H & [Hx|(e & He & Hlt)]); [discriminate Hx|congruence].
Qed.

Lemma room_allowed s now items : NoDup (map (fun it : item => it.1.(ID)) items) -> Forall (stored s) items ->
  Allowed (DecisionFor (map fst items) (statesOf snd items) now) = roomAt now items.
Proof.
  intros Hnd Hst. rewrite Forall_forall in Hst. setoid_rewrite list_elem_of_In in Hst.
  assert (Hr : Forall rule_ok (map fst items)).
  { rewrite List.Forall_forall. intros r (it & <- & Hin)%in_map_iff. apply (stored_ok _ _ (Hst it Hin)). }
  assert (Hs : states_ok (map fst items) (statesOf snd items)).
  { apply stored_states_ok; [assumption|]. intros it Hin. apply (Hst it Hin). }
  apply eq_true_iff_eq. rewrite <- !not_false_iff_true. apply not_iff_compat.
  rewrite denied_spec by assumption. unfold roomAt. rewrite forallb_negb. split.
  - intros (r & Hin & Hb). apply in_map_iff in Hin as (it & <- & Hin). exists it. split; [assumption|].
    apply (exhausted_blocked s now items); auto.
  - intros (it & Hin & He). exists it.1. split; [now apply in_map|]. apply (exhausted_blocked s now items); auto.
Qed.

(** An opened window is a legal state of its rule, and it is open. *)
Lemma windowEnd_exact now rule : 0 <= now <= 2 ^ 52 -> rule_ok rule ->
  windowEndAt now rule = now + rule.(PeriodSeconds) * 1000.
Proof.
  intros Hnow [_ _ Hk]. unfold windowEndAt, MinPeriodSeconds, MaxPeriodSeconds in *.
  rewrite !wrap_i64_small; unfold in_int64, min_int64, max_int64; try reflexivity;
    rewrite ?wrap_i64_small; unfold in_int64, min_int64, max_int64; lia.
Qed.

Lemma after_ok opening now s it : 0 <= now <= 2 ^ 52 -> stored s it -> counters_small it ->
  state_ok it.1 (after opening now it).
Proof.
  intros Hnow Hit [Hg Hv]. destruct Hit as [_ _ Hok]. unfold after.
  destruct (opening && inactiveAt now it) eqn:E; [|assumption]. apply andb_true_iff in E as [_ E].
  unfold inactiveAt in E. apply andb_true_iff in E as [Ek%bool_decide_eq_true _].
  pose proof (windowEnd_exact now it.1 Hnow (st_rule _ _ Hok)) as We.
  destruct Hok as [Hr Hval Hrev Hu He G V]. pose proof Hr as [_ _ Hk].
  apply ValidateRestoredState_spec in Hval as (V1 & V2 & V3 & V4 & V5 & V6 & V7 & _).
  destruct Hk as [[Hk _]|[_ [P1 P2]]]; [rewrite Ek in Hk; discriminate Hk|].
  unfold MinPeriodSeconds, MaxPeriodSeconds in *.
  constructor; cbn; unfold const; try assumption; try (unfold max_int64 in *; lia).
  apply ValidateRestoredState_spec. cbn. unfold const, window_legal. cbn. unfold const.
  split_and!; try assumption; try lia.
  - unfold isKind. apply bool_decide_eq_false_2. rewrite Ek. discriminate.
  - rewrite We. f_equal. lia.
Qed.

Lemma after_active now it : 0 <= now <= 2 ^ 52 -> rule_ok it.1 -> inactiveAt now (it.1, after true now it) = false.
Proof.
  intros Hnow Hr. unfold after. cbn [andb]. destruct (inactiveAt now it) eqn:E.
  - pose proof E as E'. unfold inactiveAt in E'. apply andb_true_iff in E' as [Ek _].
    unfold inactiveAt. cbn. unfold const. rewrite Ek. cbn. rewrite windowEnd_exact by assumption.
    destruct Hr as [_ _ [[Hk _]|[_ [P1 P2]]]].
    + apply bool_decide_eq_true in Ek. rewrite Ek in Hk. discriminate Hk.
    + unfold MinPeriodSeconds in P1. rewrite Z.geb_leb. apply Z.leb_gt. lia.
  - unfold inactiveAt in *. exact E.
Qed.

Definition ticketOf (now : Z) (it : item) : TicketRule :=
  mkTicketRule it.1.(ID) it.1.(Revision) (after true now it).(WindowGeneration).

Lemma issueTicket_rules q now (sts : gmap Z RestoredState) items :
  (forall it, In it items -> sts !! it.1.(ID) = Some (after true now it)) ->
  snd (issueTicket q key sts (zip (map fst items) (map (fun it => true && inactiveAt now it) items))) =
    map (ticketOf now) items.
Proof.
  revert q. induction items as [|it items IH]; intros q H; [reflexivity|].
  cbn [map zip zip_with issueTicket]. rewrite (H it) by now left. cbn [default from_option id andb].
  destruct (inactiveAt now it).
  all: match goal with |- context [issueTicket ?q0 _ _ _] => specialize (IH q0 (fun x Hx => H x (or_intror Hx)));
    destruct (issueTicket q0 _ _ _) end; cbn in *; now rewrite IH.
Qed.

Definition same_hashes s s' : Prop := forall k, hashOf s' k = hashOf s k.

Lemma quotaArgs_items q now items : keyPrefix q = prefix ->
  quotaArgs q key now (map fst items) = map (argOf now) items.
Proof. intros Hp. unfold quotaArgs. rewrite map_map, Hp. reflexivity. Qed.

(** A delivered evaluation of stored rules. *)
Lemma evaluate_ready q reader admitting now items w others rest : keyPrefix q = prefix ->
  calls w = (others, Delivered) :: rest -> ready (others O (store w)) now items ->
  let opening := admitting && roomAt now items in
  exists s', evaluate q reader admitting key (map fst items) now w =
    (mkWorld s' rest, Ok (mkEvaluation (roomAt now items) (statesOf (after opening now) items)
                           (map (fun it => opening && inactiveAt now it) items))) /\
    Forall (fun it => encodes (hashOf s' (keyOf it)) (after opening now it)) items /\
    (forall k, ~ In k (item_keys items) -> hashOf s' k = hashOf (others O (store w)) k).
Proof.
  intros Hp Hc Hready. cbn zeta. unfold evaluate, evaluateAttempt, runStrings. rewrite Hc.
  rewrite (quotaArgs_items q now items Hp).
  destruct (quotaScript_ready admitting now quotaStateTTL items _ ltac:(reflexivity) Hready) as (s' & E & E' & F').
  exists s'. rewrite E, allStrings_Some. split_and!; [|assumption|assumption].
  rewrite bool_decide_eq_false_2, bool_decide_eq_false_2, bool_decide_eq_true_2 by (discriminate || reflexivity).
  destruct Hready as [_ Hnow Hids Hst _ Hcs]. now rewrite (parseEvaluation_reply _ now (others O (store w))).
Qed.

(** [C20] Admission and explanation agree.  When the call is delivered, [Check] returns
    exactly the decision the Go rules derive from the stored states; [Admit] issues
    a ticket exactly when that decision allows, with every rule's window open and
    its current generation, and otherwise returns that decision with an empty
    ticket and leaves every stored state as it was. *)
Theorem admission_matches_decision q reader limits now items w others rest :
  keyPrefix q = prefix -> limits key = map fst items -> items <> [] ->
  calls w = (others, Delivered) :: rest -> ready (others O (store w)) now items ->
  let d := DecisionFor (map fst items) (statesOf snd items) now in
  let holds s' it st := encodes (hashOf s' (keyOf it)) st /\ state_ok it.1 st in
  (exists s', Check q reader limits key now w = (mkWorld s' rest, Ok d) /\
     Forall (fun it => holds s' it it.2) items) /\
  (exists q' s', Admit q reader limits key now w =
     (q', mkWorld s' rest,
      Ok (if Allowed d then (mkTicket key (map (ticketOf now) items), noRulesDecision) else (mkTicket key [], d))) /\
     Forall (fun it => if Allowed d
                       then holds s' it (after true now it) /\ inactiveAt now (it.1, after true now it) = false
                       else holds s' it it.2) items /\
     (forall k, ~ In k (item_keys items) -> hashOf s' k = hashOf (others O (store w)) k)).
Proof.
  intros Hp Hlim Hne Hc Hready. cbn zeta. pose proof Hready as [_ Hnow Hids Hst _ Hcs].
  rewrite (room_allowed (others O (store w))) by assumption.
  assert (Hok : forall opening it, In it items -> state_ok it.1 (after opening now it)).
  { intros opening it Hin. rewrite Forall_forall in Hst, Hcs. setoid_rewrite list_elem_of_In in Hst.
    setoid_rewrite list_elem_of_In in Hcs. eapply after_ok; eauto. }
  assert (Hnil : map fst items <> []) by (now destruct items).
  rewrite Forall_forall in Hst. setoid_rewrite list_elem_of_In in Hst.
  split.
  - destruct (evaluate_ready q reader false now items w others rest Hp Hc Hready) as (s' & E & E' & _).
    exists s'. unfold Check. rewrite Hlim. destruct (map fst items) as [|r rs] eqn:Er; [congruence|]. rewrite <- Er in *.
    rewrite E. cbn [andb] in *. split; [reflexivity|]. rewrite Forall_forall in E' |- *. intros it Hin.
    split; [now apply E'|]. apply (Hok false). now apply list_elem_of_In.
  - destruct (evaluate_ready q reader true now items w others rest Hp Hc Hready) as (s' & E & E' & F').
    unfold Admit. rewrite Hlim. destruct (map fst items) as [|r rs] eqn:Er; [congruence|]. rewrite <- Er in *.
    rewrite E. cbn [andb allowed states opened] in *. destruct (roomAt now items) eqn:Eroom; cbn [negb].
    + pose proof (issueTicket_rules q now (statesOf (after true now) items) items
        (fun it Hin => statesOf_lookup (after true now) items it Hids Hin)) as Ht. cbn [andb] in Ht.
      destruct (issueTicket q key _ _) as [q1 ticket]. cbn in Ht. subst ticket.
      exists (if existsb id (map (fun it => inactiveAt now it) items) then notifyDirty q1 else q1), s'.
      split; [reflexivity|]. split; [|assumption]. rewrite Forall_forall in E' |- *. intros it Hin.
      assert (Hin' : In it items) by now apply list_elem_of_In.
      split; [split; [now apply E'|now apply Hok]|]. apply after_active; [assumption|]. apply (stored_ok _ _ (Hst it Hin')).
    + exists q, s'. split; [reflexivity|]. split; [|assumption]. rewrite Forall_forall in E' |- *. intros it Hin.
      split; [now apply E'|]. apply (Hok false). now apply list_elem_of_In.
Qed.

(** ** Settlement *)

(** A ticket rule together with the state its key holds. *)
Abbreviation charge_item := (TicketRule * RestoredState)%type.

Definition chargeKey (it : charge_item) : string := ruleKey prefix key it.1.(tr_RuleID).

Definition current (it : charge_item) : bool :=
  (it.2.(RuleRevision) =? it.1.(tr_RuleRevision)) && (it.2.(WindowGeneration) =? it.1.(tr_WindowGeneration)).

(** Usage after a cost: added, saturated at the maximum, or saturated at once by a
    negative estimate. *)
Definition chargedUse (cost used : Z) : Z :=
  if cost <? 0 then max_int64 else Z.min max_int64 (used + cost).

Definition saturates (cost : Z) (it : charge_item) : bool :=
  current it && ((cost <? 0) || (max_int64 <? it.2.(UsedNano) + cost)).

Definition charged (cost : Z) (it : charge_item) : RestoredState :=
  let st := it.2 in
  if current it then
    let used := chargedUse cost st.(UsedNano) in
    if used =? st.(UsedNano) then st
    else st <| UsedNano := used |> <| SnapshotVersion := st.(SnapshotVersion) + 1 |>
  else st.

Record chargeable s (it : charge_item) : Prop := {
  ch_hash : encodes (hashOf s (chargeKey it)) it.2;
  ch_rev : 0 <= it.2.(RuleRevision) <= 2 ^ 53 /\ 0 <= it.1.(tr_RuleRevision) <= 2 ^ 53;
  ch_used : 0 <= it.2.(UsedNano) <= max_int64;
  ch_ver : 0 <= it.2.(SnapshotVersion) /\ it.2.(SnapshotVersion) + 1 < 10 ^ 14;
}.

Definition chargeArg (it : charge_item) : completeArg :=
  mkCompleteArg (chargeKey it) (decimal it.1.(tr_RuleRevision)) (decimal it.1.(tr_WindowGeneration)).

Lemma decimal_sign n : match bytes (decimal n) with "-"%char :: _ => true | _ => false end = (n <? 0).
Proof.
  rewrite decimal_bytes. unfold format_int. destruct (Z.ltb_spec n 0); [reflexivity|].
  destruct (render_spec n ltac:(lia)) as (Hd & _ & Hne). destruct (render n) as [|c l]; [congruence|].
  rewrite all_digits_cons in Hd. apply andb_true_iff in Hd as [Hc _]. pose proof (digit_no_sign c Hc) as [H1 _].
  destruct c as [b0 b1 b2 b3 b4 b5 b6 b7]. destruct b0, b1, b2, b3, b4, b5, b6, b7; congruence.
Qed.

Definition nextFault (cost : Z) (fault : string) (it : charge_item) : string :=
  if saturates cost it then
    if cost <? 0 then "negative_estimate"
    else if bool_decide (fault = ""%string) then "overflow" else fault
  else fault.

Lemma settleRule_spec s cost fault it : encodes (hashOf s (chargeKey it)) it.2 -> 0 <= it.2.(UsedNano) <= max_int64 ->
  cost <> 0 -> in_int64 cost -> current it = true ->
  exists s', settleRule (chargeKey it) (decimal cost) (decimal (headroomOf cost)) cost fault
               (Some (decimal it.2.(UsedNano))) s =
      (s', Ok (negb (chargedUse cost it.2.(UsedNano) =? it.2.(UsedNano)), nextFault cost fault it)) /\
    hashOf s' (chargeKey it) =
      <["used" := decimal (chargedUse cost it.2.(UsedNano))]>%string (hashOf s (chargeKey it)) /\
    (forall k, k <> chargeKey it -> hashOf s' k = hashOf s k).
Proof.
  intros He Hu Hz Hc Hcur. unfold settleRule, bind. rewrite decimal_sign.
  unfold nextFault, saturates, chargedUse, headroomOf. rewrite Hcur. cbn [andb].
  unfold in_int64, min_int64 in Hc. set (k := chargeKey it) in *. set (used := UsedNano it.2) in *.
  assert (Hmax : forall u, bool_decide (Some (decimal u) = Some maxUsed) = (max_int64 =? u)).
  { intros u. change maxUsed with (decimal max_int64). destruct (Z.eqb_spec max_int64 u) as [<-|Hne].
    - now apply bool_decide_eq_true_2.
    - apply bool_decide_eq_false_2. intros [= H]. apply decimal_inj in H. congruence. }
  destruct (Z.ltb_spec cost 0) as [Hneg|Hpos]; cbn [orb ret].
  - exists (HSET s k "used" maxUsed). rewrite Hmax. split_and!; [reflexivity|now rewrite HSET_ok|].
    intros k' Hk. now apply HSET_other.
  - rewrite Z.gtb_ltb, (proj2 (Z.ltb_lt 0 cost)) by lia. cbn [needString ret]. rewrite cmp_gt by lia.
    destruct (Z.ltb_spec (max_int64 - cost) used) as [Hov|Hin].
    + rewrite (proj2 (Z.ltb_lt max_int64 (used + cost))) by lia. rewrite Z.min_l by lia.
      exists (HSET s k "used" maxUsed). rewrite Hmax. split_and!; [reflexivity|now rewrite HSET_ok|].
      intros k' Hk. now apply HSET_other.
    + rewrite (proj2 (Z.ltb_ge max_int64 (used + cost))) by lia. rewrite Z.min_r by lia. unfold call.
      rewrite (HINCRBY_decimal s k "used" cost used);
        [|apply He|unfold in_int64, min_int64; lia|unfold in_int64, min_int64; lia].
      exists (HSET s k "used" (decimal (used + cost))). split_and!; [|now rewrite HSET_ok|].
      * rewrite (proj2 (Z.eqb_neq (used + cost) used)) by lia. reflexivity.
      * intros k' Hk. now apply HSET_other.
Qed.

Definition moved (cost : Z) (it : charge_item) : bool :=
  current it && negb (chargedUse cost it.2.(UsedNano) =? it.2.(UsedNano)).

Definition changeOf (i cost : Z) (it : charge_item) : list string :=
  if moved cost it
  then [tostring i; decimal it.2.(RuleRevision); decimal (it.2.(SnapshotVersion) + 1)] else [].

Fixpoint changesOf (i cost : Z) (items : list charge_item) : list string :=
  match items with [] => [] | it :: items => changeOf i cost it ++ changesOf (i + 1) cost items end.

Lemma ticketMatches_spec s it : encodes (hashOf s (chargeKey it)) it.2 ->
  0 <= it.2.(RuleRevision) <= 2 ^ 53 -> 0 <= it.1.(tr_RuleRevision) <= 2 ^ 53 ->
  ticketMatches (chargeArg it) s =
    (s, Ok (Some (decimal it.2.(RuleRevision)), Some (decimal it.2.(UsedNano)), current it)).
Proof.
  intros He Hr1 Hr2. unfold ticketMatches, bind, read, ret. cbn [complete_key chargeArg complete_rev complete_gen].
  rewrite !HGET_ok, (enc_rev _ _ He), (enc_used _ _ He), (enc_gen _ _ He), !tonumber_small by lia.
  do 3 f_equal. unfold current. f_equal.
  - apply eq_true_iff_eq. rewrite bool_decide_eq_true, Z.eqb_eq. split; congruence.
  - apply eq_true_iff_eq. rewrite bool_decide_eq_true, Z.eqb_eq. split; [|congruence].
    intros [= H]. now apply decimal_inj.
Qed.

(** One iteration of the settlement loop. *)
Lemma completeLoop_step i cost ttl fault it s args : 0 < ttl -> cost <> 0 -> in_int64 cost -> chargeable s it ->
  exists s', encodes (hashOf s' (chargeKey it)) (charged cost it) /\
    (forall k, k <> chargeKey it -> hashOf s' k = hashOf s k) /\
    completeLoop i (decimal cost) (decimal (headroomOf cost)) cost ttl fault (chargeArg it :: args) s =
      let '(s'', r) := completeLoop (i + 1) (decimal cost) (decimal (headroomOf cost)) cost ttl
                         (nextFault cost fault it) args s' in
      (s'', match r with Ok (rest, f) => Ok (map Some (changeOf i cost it) ++ rest, f) | Err e => Err e end).
Proof.
  intros Httl Hz Hc Hit. cbn [completeLoop]. unfold bind. rewrite (ticketMatches_spec s it) by apply Hit.
  unfold charged, changeOf, moved. destruct (current it) eqn:Ecur; cbn [andb].
  2: { exists s. assert (Hnf : nextFault cost fault it = fault) by (unfold nextFault, saturates; now rewrite Ecur).
       rewrite Hnf. cbn [ret]. split_and!; [apply Hit|auto|].
       destruct (completeLoop (i + 1) _ _ _ _ _ _ _) as [s'' [[rest f]|e]]; reflexivity. }
  destruct (settleRule_spec s cost fault it (ch_hash _ _ Hit) (ch_used _ _ Hit) Hz Hc Ecur) as (s1 & E1 & H1 & F1).
  cbn [complete_key chargeArg]. rewrite E1. set (used := chargedUse cost (UsedNano it.2)) in *.
  pose proof Hit as [He _ _ [Hv Hv']]. set (k := chargeKey it) in *.
  assert (Hexp : forall s2, (forall k', k' <> k -> hashOf s2 k' = hashOf s k') ->
    forall k', k' <> k -> hashOf (fst (PEXPIRE s2 k ttl)) k' = hashOf s k').
  { intros s2 H k' Hk. rewrite PEXPIRE_hash by assumption. auto. }
  destruct (Z.eqb_spec used (UsedNano it.2)) as [Eu|Eu]; cbn [negb].
  - exists (fst (PEXPIRE s1 k ttl)). rewrite PEXPIRE_hash by assumption. split_and!; [|now apply Hexp|].
    + rewrite H1, Eu, insert_id; [apply He|]. apply He.
    + unfold ret, PEXPIREs, write.
      destruct (completeLoop (i + 1) _ _ _ _ _ _ _) as [s'' [[rest f]|e]]; reflexivity.
  - rewrite (increment_small s1 k "ver" (SnapshotVersion it.2)); [|rewrite H1; fields; apply He|lia|lia].
    set (s2 := HSET s1 k "ver" _). exists (fst (PEXPIRE s2 k ttl)).
    rewrite PEXPIRE_hash by assumption. split_and!; [|apply Hexp; subst s2; intros k' Hk; rewrite HSET_other; auto|].
    + subst s2. rewrite HSET_ok, H1. apply (encodes_ver _ (it.2 <| UsedNano := used |>)). now apply encodes_used.
    + unfold ret, PEXPIREs, write.
      destruct (completeLoop (i + 1) _ _ _ _ _ _ _) as [s'' [[rest f]|e]]; reflexivity.
Qed.

Lemma completeLoop_spec cost ttl items : 0 < ttl -> cost <> 0 -> in_int64 cost -> forall i fault s,
  NoDup (map chargeKey items) -> Forall (chargeable s) items ->
  exists s',
    completeLoop i (decimal cost) (decimal (headroomOf cost)) cost ttl fault (map chargeArg items) s =
      (s', Ok (map Some (changesOf i cost items), foldl (nextFault cost) fault items)) /\
    Forall (fun it => encodes (hashOf s' (chargeKey it)) (charged cost it)) items /\
    (forall k, ~ In k (map chargeKey items) -> hashOf s' k = hashOf s k).
Proof.
  intros Httl Hz Hc. induction items as [|it items IH]; intros i fault s Hnd Hch.
  { exists s. cbn. auto. }
  cbn [map] in Hnd. apply NoDup_cons in Hnd as [Hn Hnd]. rewrite list_elem_of_In in Hn.
  apply Forall_cons in Hch as [Hit Hch]. cbn [map].
  destruct (completeLoop_step i cost ttl fault it s (map chargeArg items) Httl Hz Hc Hit) as (s1 & E1 & F1 & ->).
  assert (Hch1 : Forall (chargeable s1) items).
  { rewrite Forall_forall in Hch |- *. intros x Hx. destruct (Hch x Hx) as [C1 C2 C3 C4]. constructor; auto.
    rewrite F1; [assumption|]. intros E. apply Hn. rewrite <- E. apply in_map. now apply list_elem_of_In. }
  destruct (IH (i + 1) (nextFault cost fault it) s1 Hnd Hch1) as (s' & -> & E' & F'). exists s'. split_and!.
  - cbn [changesOf foldl]. now rewrite map_app.
  - constructor; [now rewrite F'|assumption].
  - intros k Hk. cbn [map In] in Hk. rewrite F' by tauto. apply F1. intros ->. tauto.
Qed.

(** ** Dirty rules *)

(** The instance still remembers a change at least as new as [(rev, ver)]. *)
Definition remembers (q : AccessQuota) (rule rev ver : Z) : Prop :=
  exists d, dirty q !! rule = Some d /\ coveredBy (mkDirty 0 rev ver) d.(revision) d.(version) = true.

Lemma coveredBy_spec d rev ver : coveredBy d rev ver = true <->
  revision d < rev \/ (revision d = rev /\ version d <= ver).
Proof. unfold coveredBy. rewrite orb_true_iff, andb_true_iff, Z.gtb_ltb, Z.geb_leb, Z.ltb_lt, Z.eqb_eq, Z.leb_le. lia. Qed.

Lemma markDirty_remembers q a rule rev ver : remembers (markDirty q a rule rev ver) rule rev ver.
Proof.
  unfold markDirty, remembers. destruct (dirty q !! rule) as [d|] eqn:E.
  - destruct (coveredBy (mkDirty a rev ver) (revision d) (version d)) eqn:Ec.
    + exists d. split; [assumption|]. apply coveredBy_spec in Ec. apply coveredBy_spec. exact Ec.
    + exists (mkDirty a rev ver). cbn. unfold const. rewrite lookup_insert_eq. split; [reflexivity|].
      apply coveredBy_spec. cbn. lia.
  - exists (mkDirty a rev ver). cbn. unfold const. rewrite lookup_insert_eq. split; [reflexivity|].
    apply coveredBy_spec. cbn. lia.
Qed.

Lemma markDirty_keeps q a rule' rev' ver' rule rev ver : remembers q rule rev ver ->
  remembers (markDirty q a rule' rev' ver') rule rev ver.
Proof.
  intros (d & Hd & Hc). destruct (decide (rule' = rule)) as [->|Hne].
  - destruct (markDirty_remembers q a rule rev' ver') as (d' & Hd' & Hc'). unfold markDirty, remembers in *.
    rewrite Hd in *. destruct (coveredBy (mkDirty a rev' ver') (revision d) (version d)) eqn:Ec; [eauto|].
    exists d'. split; [assumption|]. cbn in Hd'. unfold const in Hd'. rewrite lookup_insert_eq in Hd'.
    injection Hd' as <-. apply not_true_iff_false in Ec. rewrite coveredBy_spec in *. cbn in *. lia.
  - exists d. split; [|assumption]. unfold markDirty. destruct (dirty q !! rule') as [d0|].
    + case_if; [assumption|]. cbn. unfold const. now rewrite lookup_insert_ne.
    + cbn. unfold const. now rewrite lookup_insert_ne.
Qed.

Definition markChanges (cost : Z) (q : AccessQuota) (items : list charge_item) : AccessQuota :=
  foldl (fun q it => if moved cost it
    then markDirty q key it.1.(tr_RuleID) it.2.(RuleRevision) (it.2.(SnapshotVersion) + 1) else q) q items.

Lemma markChanges_keeps cost items : forall q rule rev ver, remembers q rule rev ver ->
  remembers (markChanges cost q items) rule rev ver.
Proof.
  induction items as [|it items IH]; intros q rule rev ver H; cbn; [assumption|]. apply IH.
  destruct (moved cost it); [now apply markDirty_keeps|assumption].
Qed.

Lemma markChanges_remembers cost items it : In it items -> moved cost it = true -> forall q,
  remembers (markChanges cost q items) it.1.(tr_RuleID) it.2.(RuleRevision) (it.2.(SnapshotVersion) + 1).
Proof.
  intros Hin Hm. induction items as [|x items IH]; [destruct Hin|]. intros q. destruct Hin as [->|Hin]; cbn.
  - rewrite Hm. apply markChanges_keeps, markDirty_remembers.
  - now apply IH.
Qed.

Lemma tostring_small i : Z.abs i < 10 ^ 14 -> tostring i = decimal i.
Proof. intros H. unfold tostring. now rewrite (proj2 (Z.ltb_lt _ _)). Qed.

Lemma settleReply_spec cost ticket items : tk_AccessKeyID ticket = key -> forall i pre q,
  tk_Rules ticket = pre ++ map fst items -> i = Z.of_nat (length pre) + 1 ->
  Z.of_nat (length (tk_Rules ticket)) < 10 ^ 14 ->
  Forall (fun it : charge_item => 0 <= it.2.(RuleRevision) <= 2 ^ 53 /\ 0 <= it.2.(SnapshotVersion) + 1 < 10 ^ 14) items ->
  settleReply q ticket (changesOf i cost items) = (markChanges cost q items, None).
Proof.
  intros Hk. induction items as [|it items IH]; intros i pre q Ht Hi Hlen Hb; [reflexivity|].
  apply Forall_cons in Hb as [[Hb1 Hb2] Hb]. cbn [changesOf markChanges foldl].
  assert (Hnext : tk_Rules ticket = (pre ++ [it.1]) ++ map fst items) by (rewrite Ht, <- app_assoc; reflexivity).
  assert (Hi' : i + 1 = Z.of_nat (length (pre ++ [it.1])) + 1) by (rewrite length_app; cbn; lia).
  unfold changeOf. destruct (moved cost it) eqn:Em; [|now apply (IH (i + 1) (pre ++ [it.1]))].
  cbn [app settleReply].
  assert (Hrange : i <= Z.of_nat (length (tk_Rules ticket))) by (rewrite Ht, length_app; cbn; lia).
  rewrite tostring_small, decimal_parse by (unfold in_int64, min_int64, max_int64; lia).
  rewrite !decimal_parseUint by (unfold max_uint64; lia).
  rewrite (proj2 (Z.ltb_ge i 1)), Z.gtb_ltb, (proj2 (Z.ltb_ge _ _)) by lia. cbn [orb].
  replace (Z.to_nat (i - 1)) with (length pre) by lia.
  rewrite Ht, lookup_app_r, Nat.sub_diag by lia. cbn [map lookup list_lookup]. rewrite Hk.
  now apply (IH (i + 1) (pre ++ [it.1])).
Qed.

Lemma changes_length i cost items : exists n, length (changesOf i cost items) = (n * 3)%nat.
Proof.
  revert i. induction items as [|it items IH]; intros i; cbn [changesOf]; [now exists O|].
  destruct (IH (i + 1)) as [n Hn]. rewrite length_app, Hn. unfold changeOf.
  destruct (moved cost it); [exists (S n)|exists n]; cbn; lia.
Qed.

(** [C28] Settlement is exact.  A delivered [Complete] adds the cost to every ticket
    rule whose revision and window are still current, saturating at the largest
    amount, leaves every other rule and key alone, reports a fault exactly when
    some rule saturated, and remembers each changed rule until it is checkpointed. *)
Theorem settlement_exact q items cost w others rest :
  let s := others O (store w) in
  keyPrefix q = prefix -> 0 < key -> items <> [] -> cost <> 0 -> in_int64 cost ->
  calls w = (others, Delivered) :: rest ->
  NoDup (map (fun it : charge_item => it.1.(tr_RuleID)) items) -> Z.of_nat (length items) < 10 ^ 14 ->
  Forall (chargeable s) items ->
  exists q' s', Complete q (mkTicket key (map fst items)) cost w =
      (q', mkWorld s' rest, (foldl (nextFault cost) "" items, None)) /\
    Forall (fun it => encodes (hashOf s' (chargeKey it)) (charged cost it)) items /\
    (forall k, ~ In k (map chargeKey items) -> hashOf s' k = hashOf s k) /\
    (forall it, In it items -> moved cost it = true ->
       remembers q' it.1.(tr_RuleID) it.2.(RuleRevision) (it.2.(SnapshotVersion) + 1)).
Proof.
  intros s Hp Hkey Hne Hz Hc Hcalls Hids Hlen Hch. unfold Complete. cbn [tk_AccessKeyID tk_Rules].
  rewrite (proj2 (Z.eqb_neq key 0)), (proj2 (Z.eqb_neq cost 0)) by lia.
  rewrite bool_decide_eq_false_2 by (rewrite length_map; now destruct items). cbn [orb]. unfold runStrings. rewrite Hcalls.
  assert (Hargs : completeArgs q (mkTicket key (map fst items)) = map chargeArg items).
  { unfold completeArgs. cbn. rewrite map_map, Hp. reflexivity. }
  assert (Hnd : NoDup (map chargeKey items)).
  { clear - Hids Hkey. induction items as [|it items IH]; cbn [map] in *; [constructor|].
    apply NoDup_cons in Hids as [Hn Hids]. apply NoDup_cons. split; [|auto].
    rewrite list_elem_of_In, in_map_iff. intros (x & Heq & Hin). apply Hn.
    apply ruleKey_inj in Heq as [_ Heq]; try lia. rewrite list_elem_of_In, in_map_iff. eauto. }
  rewrite Hargs. fold s. unfold completeScript, bind.
  destruct (completeLoop_spec cost quotaStateTTL items ltac:(reflexivity) Hz Hc 1 "" s Hnd Hch) as (s' & E & E' & F').
  rewrite E. unfold ret. change (Some ?a :: map Some ?l) with (map Some (a :: l)).
  rewrite allStrings_Some. destruct (changes_length 1 cost items) as [n Hn]. rewrite Hn, Nat.Div0.mod_mul. cbn [Nat.eqb negb].
  rewrite (settleReply_spec cost (mkTicket key (map fst items)) items eq_refl 1 []);
    [|reflexivity|reflexivity|cbn; now rewrite length_map|].
  2: { eapply Forall_impl; [exact Hch|]. intros it [_ [H1 _] _ [H2 H3]]. split; [assumption|lia]. }
  eexists _, s'. split; [reflexivity|]. split_and!; auto. intros it Hin Hm.
  pose proof (markChanges_remembers cost items it Hin Hm q) as Hrem.
  destruct (bool_decide _); [assumption|]. unfold notifyDirty. now destruct (notifier _).
Qed.

(** What happens to the local memory of changes. *)
Inductive DirtyOp :=
| OpMark (accessKey rule rev ver : Z)
| OpAck (accessKey rule rev ver : Z)
| OpDrop (rule : Z) (observed : dirtyRule).

Definition applyDirty (q : AccessQuota) (op : DirtyOp) : AccessQuota :=
  match op with
  | OpMark a r v n => markDirty q a r v n
  | OpAck a r v n => Ack q a r v n
  | OpDrop r d => dropDirty q r d
  end.

(** The operation proves that [(rev, ver)] of [rule] is durable, or that the store
    itself no longer has it. *)
Definition releases (rule rev ver : Z) (op : DirtyOp) : bool :=
  match op with
  | OpMark _ _ _ _ => false
  | OpAck _ r v n => (r =? rule) && coveredBy (mkDirty 0 rev ver) v n
  | OpDrop r d => (r =? rule) && coveredBy (mkDirty 0 rev ver) d.(revision) d.(version)
  end.

(** A change made by this instance is forgotten only once a checkpoint at or
    beyond it is durable, or the store was seen to have lost it: no interleaving of
    settlements, acknowledgements of older checkpoints and stale drops loses it. *)
Theorem dirty_until_checkpointed q rule rev ver ops :
  remembers q rule rev ver -> Forall (fun op => releases rule rev ver op = false) ops ->
  remembers (foldl applyDirty q ops) rule rev ver.
Proof.
  intros H Hops. revert q H. induction Hops as [|op ops Hop _ IH]; intros q H; cbn; [assumption|]. apply IH.
  destruct op as [a r v n|a r v n|r d0]; cbn in *; [now apply markDirty_keeps|..]; destruct H as (d & Hd & Hc).
  - unfold Ack. destruct (dirty q !! r) as [d1|] eqn:E1; [|exists d; auto].
    destruct ((accessKeyID d1 =? a) && coveredBy d1 v n) eqn:E2; [|exists d; auto].
    exists d. split; [|assumption]. cbn. unfold const. rewrite lookup_delete_ne; [assumption|]. intros ->.
    rewrite Z.eqb_refl in Hop. cbn in Hop. assert (d1 = d) as -> by congruence.
    apply andb_true_iff in E2 as [_ E2]. apply not_true_iff_false in Hop. rewrite coveredBy_spec in *. cbn in *. lia.
  - unfold dropDirty. case_bool_decide as E1; [|exists d; auto].
    exists d. split; [|assumption]. cbn. unfold const. rewrite lookup_delete_ne; [assumption|]. intros ->.
    rewrite Z.eqb_refl in Hop. cbn in Hop. assert (d0 = d) as -> by congruence. congruence.
Qed.

End Store.

(** ** Witnesses *)

Definition sampleRule : Rule := mkRule 3 2 KindPeriodic "usd" 100 3600.
Definition sampleState : RestoredState := mkRestored 7 3 2 40 (Some 1000) (Some 3601000) 1 5.
Definition sampleDB : DB :=
  writeRow (mkInitArg (ruleKey "gw" 7 3) "2" "40" "1000" "3601000" "1" "5") (mkDB 0 ∅).
Definition sampleWorld : World := mkWorld sampleDB [((fun _ s => s), Delivered)].

Lemma sample_encodes : encodes (hashOf sampleDB (ruleKey "gw" 7 3)) sampleState.
Proof. constructor; vm_compute; reflexivity. Qed.

Lemma sample_rule_ok : rule_ok sampleRule.
Proof. constructor; cbn; unfold MinPeriodSeconds, MaxPeriodSeconds; [lia|lia|]. right. split; [reflexivity|lia]. Qed.

Lemma sample_ok : state_ok sampleRule sampleState.
Proof. constructor; cbn; unfold max_int64; try lia; [apply sample_rule_ok|vm_compute; reflexivity]. Qed.

Lemma admission_matches_decision_witness : exists q' s',
  Admit (NewAccessQuota "gw") None (fun _ => [sampleRule]) 7 2000 sampleWorld =
    (q', mkWorld s' [], Ok (mkTicket 7 [mkTicketRule 3 2 1], noRulesDecision)).
Proof.
  destruct (admission_matches_decision "gw" 7 (NewAccessQuota "gw") None (fun _ => [sampleRule]) 2000
    [(sampleRule, sampleState)] sampleWorld (fun _ s => s) []) as [_ (q' & s' & E & _)]; try reflexivity; [discriminate| |].
  - constructor; cbn [map]; [lia|lia|apply NoDup_singleton|..]; apply Forall_singleton.
    + constructor; [apply sample_encodes|reflexivity|apply sample_ok].
    + cbn. unfold max_int64. lia.
    + unfold counters_small. cbn. lia.
  - exists q', s'. rewrite E. vm_compute. reflexivity.
Defined.

Lemma settlement_exact_witness : exists q' s',
  Complete (NewAccessQuota "gw") (mkTicket 7 [mkTicketRule 3 2 1]) 25 sampleWorld = (q', mkWorld s' [], ("", None)%string) /\
  HGET s' (ruleKey "gw" 7 3) "used" = Some "65"%string.
Proof.
  destruct (settlement_exact "gw" 7 (NewAccessQuota "gw") [(mkTicketRule 3 2 1, sampleState)] 25 sampleWorld (fun _ s => s) [])
    as (q' & s' & E & He & _).
  1, 6: reflexivity.
  1, 3: lia.
  1: discriminate.
  - unfold in_int64, min_int64, max_int64. lia.
  - cbn [map]. apply NoDup_singleton.
  - cbn. lia.
  - apply Forall_singleton. constructor; cbn; unfold max_int64; try lia. apply sample_encodes.
  - cbn [map fst] in E. exists q', s'. rewrite E. split; [reflexivity|]. apply Forall_inv in He. rewrite HGET_ok. exact (enc_used _ _ He).
Defined.

Lemma dirty_until_checkpointed_witness :
  remembers (foldl applyDirty (markDirty (NewAccessQuota "gw") 7 3 2 6) [OpAck 7 3 2 5; OpMark 7 3 2 4; OpDrop 3 (mkDirty 7 2 5)])
    3 2 6.
Proof.
  apply dirty_until_checkpointed; [apply markDirty_remembers|]. repeat constructor.
Defined.

End QuotaStoreProps.
