(* ===== verification/QuotaStoreInv.v ===== *)
(** * Legal shared cost limits

    Every instance runs the three quota scripts against the same keys, in any order
    and interleaved with expiry.  Whatever they do, a stored rule is always a state
    [ValidateRestoredState] accepts for the rule of its revision: the invariant is
    proved for each script on every branch, error replies included. *)

From Stdlib Require Import ZArith Lia Bool String Ascii List.
From stdpp Require Import base gmap sets list strings sorting.
From coqutil Require Import Datatypes.RecordSettersUsingExistingGetters.
From S2P Require Import Prelude GoStrings Quota Redis Lua QuotaStore QuotaStoreProps.

Local Open Scope Z_scope.
Local Open Scope go_scope.

Module QuotaStoreInv.
Import Redis Lua LuaNumbers Quota QuotaStore QuotaStoreProps.

Section Invariant.
Context {St : Type} {R : RedisStore St} {ROk : RedisOk St}.
Implicit Types (s : St).
Variable prefix : string.

(** The rule definitions ever published: key, rule and revision determine the rule. *)
Variable defs : Z -> Z -> Z -> option Rule.

Record published (key id rev : Z) (r : Rule) : Prop := {
  pub_def : defs key id rev = Some r;
  pub_id : r.(ID) = id;
  pub_rev : r.(Revision) = rev;
}.

(** The Hash of a rule is absent, or a legal state of a published definition. *)
Definition legal (key id : Z) (h : gmap string string) : Prop :=
  h = ∅ \/ exists r st, published key id st.(RuleRevision) r /\ encodes h st /\ state_ok r st /\ st.(AccessKeyID) = key.

Definition quota_ok s : Prop := forall key id, 0 <= key -> legal key id (hashOf s (ruleKey prefix key id)).

(** ** Sequencing *)

Lemma fst_bind {A B} (P : St -> Prop) (m : Script St A) (k : A -> Script St B) s :
  P (fst (m s)) -> (forall a, snd (m s) = Ok a -> P (fst (k a (fst (m s))))) -> P (fst (bind m k s)).
Proof. unfold bind. destruct (m s) as [s' [a|e]]; cbn; intros H1 H2; [now apply H2|assumption]. Qed.

(** A step that only changes one rule's Hash. *)
Lemma quota_ok_update s s' key id : 0 <= key -> quota_ok s ->
  (forall k, k <> ruleKey prefix key id -> hashOf s' k = hashOf s k) ->
  legal key id (hashOf s' (ruleKey prefix key id)) -> quota_ok s'.
Proof.
  intros Hk Hok Hf Hl key' id' Hk'. destruct (decide (ruleKey prefix key' id' = ruleKey prefix key id)) as [E|E].
  - apply ruleKey_inj in E as [-> ->]; assumption.
  - rewrite Hf by assumption. now apply Hok.
Qed.

Lemma quota_ok_same s s' : quota_ok s -> (forall k, hashOf s' k = hashOf s k) -> quota_ok s'.
Proof. intros H E key id Hk. rewrite E. now apply H. Qed.

Lemma expire_ok s k ttl : 0 < ttl -> quota_ok s -> quota_ok (fst (PEXPIREs k ttl s)).
Proof. intros Ht H. apply (quota_ok_same s); [assumption|]. intros k'. now apply PEXPIRE_hash. Qed.

(** ** One write after another *)

(** An increment either writes the next number or leaves the store as it was. *)
Lemma increment_effect s k f v : hashOf s k !! f = Some (decimal v) -> 0 <= v <= max_int64 ->
  (v < max_int64 /\ fst (increment k f 1 s) = HSET s k f (decimal (v + 1))) \/
  (v = max_int64 /\ fst (increment k f 1 s) = s /\ snd (increment k f 1 s) = Err CommandError).
Proof.
  intros Hf Hv. unfold increment, bind, call. rewrite (HINCRBY_ok s k f 1 v).
  2: { right. split; [assumption|]. unfold in_int64, min_int64, max_int64 in *. lia. }
  destruct (is_int64 (v + 1)) eqn:E.
  - left. apply is_int64_spec in E. unfold in_int64 in E. cbn. split; [lia|reflexivity].
  - right. split; [|auto]. apply not_true_iff_false in E. rewrite is_int64_spec in E.
    unfold in_int64, min_int64, max_int64 in *. lia.
Qed.

(** The key of [rule] holds a legal state at the rule's own revision. *)
Definition current_at s (key : Z) (rule : Rule) : Prop :=
  exists st, encodes (hashOf s (ruleKey prefix key rule.(ID))) st /\ state_ok rule st /\ st.(AccessKeyID) = key.

(** Only the key of [rule] changed, and it still holds a legal state of [rule]. *)
Record moves (key : Z) (rule : Rule) (s s' : St) : Prop := {
  mv_other : forall k, k <> ruleKey prefix key rule.(ID) -> hashOf s' k = hashOf s k;
  mv_here : current_at s' key rule;
}.

Lemma current_same s s' key rule : (forall k, hashOf s' k = hashOf s k) -> current_at s key rule -> current_at s' key rule.
Proof. intros E (st & H). exists st. now rewrite E. Qed.

Lemma moves_trans key rule s1 s2 s3 : moves key rule s1 s2 -> moves key rule s2 s3 -> moves key rule s1 s3.
Proof. intros [F1 _] [F2 H2]. constructor; [|assumption]. intros k Hk. now rewrite F2, F1. Qed.

Lemma moves_refl key rule s : current_at s key rule -> moves key rule s s.
Proof. now constructor. Qed.

Lemma expire_moves key rule s ttl : 0 < ttl -> current_at s key rule ->
  moves key rule s (fst (PEXPIREs (ruleKey prefix key rule.(ID)) ttl s)).
Proof.
  intros Ht H. constructor; cbn; intros; [now apply PEXPIRE_hash|].
  apply (current_same s); [|assumption]. intros k. now apply PEXPIRE_hash.
Qed.

Lemma moves_ok key rule s s' : 0 <= key -> published key rule.(ID) rule.(Revision) rule ->
  quota_ok s -> moves key rule s s' -> quota_ok s'.
Proof.
  intros Hk Hp Hok [F (st & He & Hst & Ha)]. apply (quota_ok_update s s' key rule.(ID)); auto.
  right. exists rule, st. split_and!; auto. pose proof (st_valid _ _ Hst) as Hv.
  apply ValidateRestoredState_spec in Hv as (_ & _ & _ & _ & _ & _ & -> & _). assumption.
Qed.

(** Two rules of a key that share an identity and hold the same Hash are the same. *)
Lemma current_unique s key r1 r2 : r1.(ID) = r2.(ID) ->
  published key r1.(ID) r1.(Revision) r1 -> published key r2.(ID) r2.(Revision) r2 ->
  current_at s key r1 -> current_at s key r2 -> r1 = r2.
Proof.
  intros E [D1 _ _] [D2 _ _] (s1 & [H1 _ _ _ _ _] & K1 & _) (s2 & [H2 _ _ _ _ _] & K2 & _).
  rewrite E, H2 in H1. injection H1 as H1%decimal_inj.
  pose proof (st_valid _ _ K1) as V1. pose proof (st_valid _ _ K2) as V2.
  apply ValidateRestoredState_spec in V1 as (_ & _ & _ & _ & _ & _ & V1 & _).
  apply ValidateRestoredState_spec in V2 as (_ & _ & _ & _ & _ & _ & V2 & _). congruence.
Qed.

Lemma moves_keeps key rule s s' r2 : 0 <= key ->
  published key rule.(ID) rule.(Revision) rule -> published key r2.(ID) r2.(Revision) r2 ->
  current_at s key rule -> moves key rule s s' -> current_at s key r2 -> current_at s' key r2.
Proof.
  intros Hk P1 P2 C1 [F H] C2. destruct (decide (r2.(ID) = rule.(ID))) as [E|E].
  - now rewrite (current_unique s key r2 rule).
  - destruct C2 as (st & He & Hst). exists st. rewrite F; [auto|]. intros Heq.
    apply ruleKey_inj in Heq as [_ Heq]; auto.
Qed.

Lemma bump_version key rule s : current_at s key rule ->
  moves key rule s (fst (increment (ruleKey prefix key rule.(ID)) "ver" 1 s)).
Proof.
  intros (st & He & Hst & Ha). set (k := ruleKey prefix key rule.(ID)) in *.
  destruct (increment_effect s k "ver" (SnapshotVersion st) (enc_ver _ _ He) (st_ver _ _ Hst)) as [[Hlt ->]|[_ [-> _]]].
  - constructor; [intros k' Hk; now apply HSET_other|]. exists (st <| SnapshotVersion := SnapshotVersion st + 1 |>).
    split_and!; [rewrite HSET_ok; now apply encodes_ver| |assumption].
    destruct Hst as [Hr Hv Hrev Hu Hend Hg Hver]. constructor; cbn; unfold const; auto; [|lia].
    apply ValidateRestoredState_spec in Hv. apply ValidateRestoredState_spec.
    unfold window_legal in *. cbn in *. unfold const in *. intuition lia.
  - apply moves_refl. exists st. auto.
Qed.

(** Opening a window together with the bump of its generation. *)
Lemma open_moves key rule s now : 0 <= now <= 2 ^ 52 -> isKind KindPeriodic rule = true -> current_at s key rule ->
  let k := ruleKey prefix key rule.(ID) in
  moves key rule s (fst (bind (HSETwindow k (decimal now) (decimal (windowEndAt now rule)))
                           (fun _ => increment k "gen" 1) s)).
Proof.
  intros Hnow Hk (st & He & Hst & Ha). cbn zeta. set (k := ruleKey prefix key rule.(ID)) in *.
  unfold bind, HSETwindow, write. set (we := decimal (windowEndAt now rule)).
  set (s1 := HSET (HSET (HSET s k "used" "0") k "ws" (decimal now)) k "we" we).
  assert (E1 : hashOf s1 k = <["we" := we]> (<["ws" := decimal now]> (<["used" := "0"]> (hashOf s k)))%string)
    by (subst s1; now rewrite !HSET_ok).
  assert (F1 : forall k', k' <> k -> hashOf s1 k' = hashOf s k') by (intros k' Hk'; subst s1; now rewrite !HSET_other).
  assert (G1 : hashOf s1 k !! "gen"%string = Some (decimal (WindowGeneration st))) by (rewrite E1; fields; apply He).
  pose proof (windowEnd_exact now rule Hnow (st_rule _ _ Hst)) as We.
  destruct Hst as [Hr Hv Hrev Hu Hend Hg Hver]. pose proof Hr as [_ _ Hkind].
  apply bool_decide_eq_true in Hk. destruct Hkind as [[Hx _]|[_ [P1 P2]]]; [rewrite Hk in Hx; discriminate Hx|].
  unfold MinPeriodSeconds, MaxPeriodSeconds in *.
  set (gen' := if WindowGeneration st <? max_int64 then WindowGeneration st + 1 else WindowGeneration st).
  set (st' := st <| UsedNano := 0 |> <| WindowStartedAtMS := Some now |>
                 <| WindowEndsAtMS := Some (windowEndAt now rule) |> <| WindowGeneration := gen' |>).
  assert (Hst' : state_ok rule st').
  { subst st' gen'. constructor; cbn; unfold const; auto; try (unfold max_int64 in *; lia).
    2: destruct (Z.ltb_spec (WindowGeneration st) max_int64); lia.
    apply ValidateRestoredState_spec in Hv. apply ValidateRestoredState_spec. cbn. unfold const, window_legal. cbn.
    unfold const. destruct Hv as (V1 & V2 & V3 & V4 & V5 & V6 & V7 & _). split_and!; auto; try lia.
    - apply bool_decide_eq_false_2. rewrite Hk. discriminate.
    - unfold max_int64 in *. destruct (Z.ltb_spec (WindowGeneration st) 9223372036854775807); lia.
    - rewrite We. f_equal. lia. }
  destruct (increment_effect s1 k "gen" _ G1 Hg) as [[Hlt ->]|[Hmax [-> _]]].
  - constructor; [intros k' Hk'; rewrite HSET_other by assumption; now apply F1|]. exists st'.
    split_and!; [|assumption|assumption]. fold k. rewrite HSET_ok, E1. subst st' gen'.
    rewrite (proj2 (Z.ltb_lt _ _) Hlt). destruct He. constructor; cbn; unfold const; fields; auto.
  - constructor; [exact F1|]. exists st'. split_and!; [|assumption|assumption]. fold k. rewrite E1. subst st' gen'.
    rewrite (proj2 (Z.ltb_ge _ _)) by lia. destruct He. constructor; cbn; unfold const; fields; auto.
Qed.

(** ** The quota script *)

Definition readonly {A} (m : Script St A) : Prop := forall s, fst (m s) = s.

Lemma readonly_bind {A B} (m : Script St A) (k : A -> Script St B) :
  readonly m -> (forall a, readonly (k a)) -> readonly (bind m k).
Proof. intros Hm Hk s. apply (fst_bind (fun s' => s' = s)); [apply Hm|]. intros a _. now rewrite Hk. Qed.

Lemma readonly_ret {A} (a : A) : readonly (ret a).
Proof. intros s. reflexivity. Qed.

Lemma readonly_number (t : option string) : readonly (number t).
Proof. intros s. unfold number. destruct t as [t|]; [destruct (tonumber t)|]; reflexivity. Qed.

Lemma readonly_needString (t : option string) : readonly (needString t).
Proof. intros s. now destruct t. Qed.

Lemma readonly_read {A} (f : St -> A) : readonly (read f).
Proof. intros s. reflexivity. Qed.

Create HintDb scripts.
Hint Resolve readonly_ret readonly_number readonly_needString readonly_read : scripts.

(** Read-only by structure. *)
Ltac readonly_tac :=
  repeat first
    [ progress auto with scripts
    | apply readonly_bind
    | match goal with
      | |- readonly (match ?x with _ => _ end) => destruct x
      | |- forall _, _ => intro
      end ].

Lemma quotaScan_store rules : forall i, readonly (quotaScan i rules).
Proof. induction rules as [|a rules IH]; intros i; cbn [quotaScan]; readonly_tac. Qed.

Definition scriptArg (key now : Z) (rule : Rule) : ruleArg :=
  mkRuleArg (ruleKey prefix key rule.(ID)) (decimal rule.(Revision)) rule.(Kind) (decimal rule.(LimitNano))
    (decimal (windowEndAt now rule)).

Definition usable (key : Z) (rule : Rule) : Prop :=
  rule_ok rule /\ published key rule.(ID) rule.(Revision) rule /\ 0 <= rule.(Revision) <= 2 ^ 53.

(** When the scan finds nothing stale or missing, every rule is stored at the
    caller's revision. *)
Lemma quotaScan_current key now rs : 0 <= key -> Forall (usable key) rs -> forall i s rows, quota_ok s ->
  snd (quotaScan i (map (scriptArg key now) rs) s) = Ok (false, [], rows) -> Forall (current_at s key) rs.
Proof.
  intros Hk Hu. induction Hu as [|rule rs [Hr [Hp Hrev]] _ IH]; intros i s rows Hok H; [constructor|].
  cbn [map quotaScan] in H. unfold bind, read in H. cbn [arg_key scriptArg arg_rev] in H.
  unfold HMGET in H. cbn [row_rev] in H. rewrite !HGET_ok in H.
  destruct (Hok key (ID rule) Hk) as [E|(r & st & [D1 D2 D3] & He & Hst & Ha)].
  - rewrite E, !lookup_empty in H. unfold ret in H. cbn [fst snd] in H.
    destruct (quotaScan (i + 1) _ s) as [s' [[[stale missing] rows']|e]]; cbn in H; [|discriminate].
    destruct stale; discriminate.
  - rewrite (enc_rev _ _ He) in H. pose proof (st_rev _ _ Hst) as B.
    rewrite number_small in H by lia. cbn [snd] in H. rewrite number_small in H by lia. unfold ret in H. cbn in H.
    pose proof (quotaScan_store (map (scriptArg key now) rs) (i + 1) s) as Hs.
    destruct (quotaScan (i + 1) _ s) as [s' [[[stale missing] rows']|e]] eqn:Es; cbn in H, Hs; [|discriminate].
    subst s'. rewrite Z.gtb_ltb in H. injection H as H1 H2 H3. apply orb_false_iff in H1 as [H1 ->].
    rewrite H1 in H2. cbn in H2. apply Z.ltb_ge in H1.
    destruct (Z.ltb_spec (RuleRevision st) (Revision rule)); cbn in H2; [discriminate|]. subst missing.
    assert (Er : RuleRevision st = Revision rule) by lia. destruct Hp as [Dp _ _].
    assert (r = rule) as -> by congruence. constructor; [exists st; auto|].
    apply (IH (i + 1) s rows' Hok). now rewrite Es.
Qed.

Lemma quotaJudge_store now pairs : readonly (quotaJudge now pairs).
Proof. induction pairs as [|[a r] pairs IH]; cbn [quotaJudge]; readonly_tac. Qed.

(** Only a periodic rule can be inactive. *)
Lemma quotaJudge_periodic now pairs : forall s ok inactive, snd (quotaJudge now pairs s) = Ok (ok, inactive) ->
  Forall2 (fun p (b : bool) => b = true -> arg_kind p.1 = KindPeriodic) pairs inactive.
Proof.
  induction pairs as [|[a r] pairs IH]; intros s ok inactive H; cbn [quotaJudge] in H.
  { injection H as <- <-. constructor. }
  unfold bind in H.
  match type of H with context [match ?x with _ => _ end] => destruct x as [s1 [b|e]] eqn:E1 end; [|discriminate].
  match type of H with context [match ?x with _ => _ end] => destruct x as [s2 [ex|e]] eqn:E2 end; [|discriminate].
  destruct (quotaJudge now pairs s2) as [s3 [[ok' rest]|e]] eqn:E3; [|discriminate]. cbn in H. injection H as <- <-.
  constructor; [|apply (IH s2 ok' rest); now rewrite E3]. intros ->. cbn.
  case_bool_decide as Ek; [exact Ek|]. cbn in E1. unfold ret in E1. congruence.
Qed.

Lemma bind_assoc {A B C} (m : Script St A) (k : A -> Script St B) (f : B -> Script St C) s :
  bind m (fun a => bind (k a) f) s = bind (bind m k) f s.
Proof. unfold bind. destruct (m s) as [s' [a|e]]; reflexivity. Qed.

Lemma moves_bind {A B} key rule s (m : Script St A) (k : A -> Script St B) :
  moves key rule s (fst (m s)) ->
  (forall a s', moves key rule s s' -> moves key rule s (fst (k a s'))) -> moves key rule s (fst (bind m k s)).
Proof. intros Hm Hk. apply fst_bind; [assumption|]. intros a _. now apply Hk. Qed.

(** The writes of an opening, with the reply they produce. *)
Lemma opening_moves {B} key rule s now (reply : string -> string -> B) :
  0 <= now <= 2 ^ 52 -> isKind KindPeriodic rule = true -> current_at s key rule ->
  let k := ruleKey prefix key rule.(ID) in
  moves key rule s (fst ((do! HSETwindow k (decimal now) (decimal (windowEndAt now rule)) in
    let! gen := increment k "gen" 1 in let! ver := increment k "ver" 1 in ret (reply gen ver)) s)).
Proof.
  intros Hnow Hk Hc. cbn zeta. rewrite bind_assoc. apply moves_bind; [now apply open_moves|].
  intros gen s' Hm. apply (fst_bind (moves key rule s)).
  - eapply moves_trans; [exact Hm|]. apply bump_version, Hm.
  - intros ver _. cbn. eapply moves_trans; [exact Hm|]. apply bump_version, Hm.
Qed.

(** The items of the third loop come from the rules, and only periodic ones open. *)
Definition from_rules (key now : Z) (rs : list Rule) (it : ruleArg * row * bool) : Prop :=
  exists rule, In rule rs /\ it.1.1 = scriptArg key now rule /\ (it.2 = true -> isKind KindPeriodic rule = true).

Definition loop_ok (key : Z) (rs : list Rule) s : Prop := quota_ok s /\ Forall (current_at s key) rs.

Lemma loop_ok_moves key rs rule s s' : 0 <= key -> Forall (usable key) rs -> In rule rs ->
  loop_ok key rs s -> moves key rule s s' -> loop_ok key rs s'.
Proof.
  intros Hk Hu Hin [Hok Hcur] Hm. rewrite List.Forall_forall in Hu, Hcur. destruct (Hu rule Hin) as (_ & Hp & _).
  split; [now apply (moves_ok key rule s)|]. rewrite List.Forall_forall. intros r2 H2.
  apply (moves_keeps key rule s); auto. now destruct (Hu r2 H2) as (_ & ? & _).
Qed.

Lemma loop_step {A B} key rs rule s (m : Script St A) (k : A -> Script St B) : 0 <= key -> Forall (usable key) rs ->
  In rule rs -> loop_ok key rs s -> moves key rule s (fst (m s)) ->
  (forall a s', loop_ok key rs s' -> quota_ok (fst (k a s'))) -> quota_ok (fst (bind m k s)).
Proof.
  intros Hk Hu Hin Hl Hm Hc. pose proof (loop_ok_moves key rs rule s _ Hk Hu Hin Hl Hm) as Hl1.
  apply fst_bind; [apply Hl1|]. intros a _. now apply Hc.
Qed.

Lemma loop_current key rs s rule : loop_ok key rs s -> In rule rs -> current_at s key rule.
Proof. intros [_ H] Hin. rewrite List.Forall_forall in H. auto. Qed.

Lemma quotaReply_ok key now admitting ok ttl rs : 0 <= key -> 0 < ttl -> 0 <= now <= 2 ^ 52 -> Forall (usable key) rs ->
  forall items s, Forall (from_rules key now rs) items -> loop_ok key rs s ->
  quota_ok (fst (quotaReply admitting ok (decimal now) ttl items s)).
Proof.
  intros Hk Httl Hnow Hu. induction items as [|[[a r] b] items IH]; intros s Hit Hl; [apply Hl|].
  apply Forall_cons in Hit as [(rule & Hin & Ea & Hb) Hit]. cbn in Ea, Hb. subst a. cbn [quotaReply].
  change (arg_key (scriptArg key now rule)) with (ruleKey prefix key (ID rule)).
  apply (loop_step key rs rule); auto.
  { pose proof (loop_current _ _ _ _ Hl Hin) as Hcur.
    destruct (admitting && ok && b) eqn:Eo; [|now apply moves_refl]. apply andb_true_iff in Eo as [_ Eo].
    now apply (opening_moves key rule s now (fun gen ver =>
      (mkRow (row_rev r) (Some "0") (Some (decimal now)) (Some (decimal (windowEndAt now rule))) (Some gen) (Some ver), "1")%string));
      auto. }
  intros [row' op] s1 Hl1. apply (loop_step key rs rule); auto.
  { apply expire_moves; [assumption|]. now apply (loop_current key rs). }
  intros _ s2 Hl2. apply fst_bind; [now apply IH|]. intros rest _. now apply IH.
Qed.

Lemma from_rules_zip key now rs : forall rows inactive,
  Forall2 (fun p (b : bool) => b = true -> arg_kind p.1 = KindPeriodic) (zip (map (scriptArg key now) rs) rows) inactive ->
  Forall (from_rules key now rs) (zip (zip (map (scriptArg key now) rs) rows) inactive).
Proof.
  intros rows inactive H. assert (G : forall rs', incl rs' rs ->
    forall rows inactive, Forall2 (fun p (b : bool) => b = true -> arg_kind p.1 = KindPeriodic)
      (zip (map (scriptArg key now) rs') rows) inactive ->
    Forall (from_rules key now rs) (zip (zip (map (scriptArg key now) rs') rows) inactive)).
  { induction rs' as [|r rs' IH]; intros Hi rows' inact; [constructor|]. destruct rows' as [|row rows']; [constructor|].
    cbn [map zip_with]. intros Hf. inversion_clear Hf as [|? b ? bs Hb Hf']. cbn [zip_with]. constructor.
    - exists r. split_and!; [apply Hi; now left|reflexivity|]. intros E. apply bool_decide_eq_true_2. now apply Hb.
    - apply IH; [|assumption]. intros x Hx. apply Hi. now right. }
  apply G; [apply incl_refl|assumption].
Qed.

Lemma readonly_step {A B} (P : St -> Prop) (m : Script St A) (k : A -> Script St B) s : readonly m -> P s ->
  (forall a, snd (m s) = Ok a -> P (fst (k a s))) -> P (fst (bind m k s)).
Proof. intros Hm Hs Hk. apply fst_bind; [now rewrite Hm|]. intros a E. rewrite Hm. now apply Hk. Qed.

(** Checking and admitting keep every stored rule legal, whatever the reply. *)
Lemma quotaScript_ok key now admitting ttl rs s : 0 <= key -> 0 < ttl -> 0 <= now <= 2 ^ 52 -> Forall (usable key) rs ->
  quota_ok s -> quota_ok (fst (quotaScript admitting (decimal now) ttl (map (scriptArg key now) rs) s)).
Proof.
  intros Hk Httl Hnow Hu Hok. unfold quotaScript. apply readonly_step; [apply quotaScan_store|assumption|].
  intros [[stale missing] rows] Escan. destruct stale; [assumption|].
  case_bool_decide as Em; [|assumption]. subst missing. cbn [negb].
  pose proof (quotaScan_current key now rs Hk Hu 1 s rows Hok Escan) as Hcur.
  apply readonly_step; [apply readonly_number|assumption|]. intros nowv _.
  apply readonly_step; [apply quotaJudge_store|assumption|]. intros [ok inactive] Ej.
  assert (H : quota_ok (fst (quotaReply admitting ok (decimal now) ttl (zip (zip (map (scriptArg key now) rs) rows) inactive) s))).
  { apply (quotaReply_ok key now admitting ok ttl rs); auto; [|now split].
    apply from_rules_zip. now apply (quotaJudge_periodic nowv _ s ok). }
  apply fst_bind; [assumption|]. intros fields _. exact H.
Qed.

(** ** The checkpoint script *)

Definition initOf (key : Z) (p : Rule * RestoredState) : initArg :=
  mkInitArg (ruleKey prefix key p.1.(ID)) (decimal p.2.(RuleRevision)) (decimal p.2.(UsedNano))
    (formatOptionalMS p.2.(WindowStartedAtMS)) (formatOptionalMS p.2.(WindowEndsAtMS))
    (decimal p.2.(WindowGeneration)) (decimal p.2.(SnapshotVersion)).

Definition checkpoint_ok (key : Z) (p : Rule * RestoredState) : Prop :=
  published key p.1.(ID) p.1.(Revision) p.1 /\ state_ok p.1 p.2 /\ p.2.(AccessKeyID) = key.

Lemma writeRow_moves key p s : checkpoint_ok key p -> moves key p.1 s (writeRow (initOf key p) s).
Proof.
  intros (Hp & Hst & Ha). unfold writeRow. cbn [init_key initOf init_rev init_used init_ws init_we init_gen init_ver].
  constructor; [intros k Hk; now rewrite !HSET_other|]. exists p.2. split_and!; [|assumption..].
  rewrite !HSET_ok. constructor; fields; reflexivity.
Qed.

(** Writing checkpoints keeps every stored rule legal. *)
Lemma initScript_ok key ttl ps : 0 <= key -> 0 < ttl -> Forall (checkpoint_ok key) ps -> forall s, quota_ok s ->
  quota_ok (fst (initScript ttl (map (initOf key) ps) s)).
Proof.
  intros Hk Httl. induction 1 as [|p ps Hp _ IH]; intros s Hok; [assumption|]. cbn [map initScript].
  apply readonly_step; [readonly_tac|assumption|]. intros stored _.
  apply readonly_step; [readonly_tac|assumption|]. intros older _.
  assert (Hw : quota_ok (fst ((if older then write (writeRow (initOf key p)) else ret tt) s))).
  { destruct older; [|assumption]. cbn. apply (moves_ok key p.1 s); auto; [apply Hp|now apply writeRow_moves]. }
  apply fst_bind; [assumption|]. intros _ _.
  apply fst_bind; [now apply expire_ok|]. intros _ _. apply IH. now apply expire_ok.
Qed.

(** The numbers of a database row are in the range the columns have. *)
Record row_ranged (st : RestoredState) : Prop := {
  rr_used : st.(UsedNano) <= max_int64;
  rr_end : match st.(WindowEndsAtMS) with Some e => e <= 2 ^ 53 | None => True end;
  rr_gen : 0 <= st.(WindowGeneration) <= max_int64;
  rr_ver : 0 <= st.(SnapshotVersion) <= max_int64;
}.

(** What [hydrate] passes to the script are legal checkpoints of the targets. *)
Lemma hydrateArgs_ok q key byRule targets args : keyPrefix q = prefix -> Forall (usable key) targets ->
  (forall id st, byRule !! id = Some st -> row_ranged st) ->
  hydrateArgs q key byRule targets = Ok args ->
  exists ps, args = map (initOf key) ps /\ Forall (checkpoint_ok key) ps.
Proof.
  intros Hq Hu Hr. revert args. induction Hu as [|rule targets (Hok & Hp & Hrev) _ IH]; intros args H; cbn in H.
  { injection H as <-. now exists []. }
  destruct (byRule !! ID rule) as [st|] eqn:E; [|discriminate].
  destruct (RuleRevision st >? Revision rule) eqn:E1; [discriminate|].
  destruct (RuleRevision st <? Revision rule) eqn:E2; [discriminate|].
  destruct (AccessKeyID st =? key) eqn:E3; [|discriminate]. cbn in H. apply Z.eqb_eq in E3.
  destruct (ValidateRestoredState rule st) eqn:E4; [discriminate|].
  destruct (hydrateArgs q key byRule targets) as [rest|e]; [|discriminate]. cbn in H. injection H as <-.
  destruct (IH rest eq_refl) as (ps & -> & Hps). exists ((rule, st) :: ps). split.
  { cbn [map]. f_equal. unfold initArgOf, initOf. cbn. now rewrite Hq. }
  constructor; [|assumption]. split_and!; [exact Hp| |exact E3]. cbn.
  pose proof (proj1 (ValidateRestoredState_spec _ _) E4) as (_ & _ & Hz & _ & _ & _ & Hrr & _).
  destruct (Hr _ _ E) as [R1 R2 R3 R4]. constructor; auto. lia.
Qed.

(** ** The settlement script *)

(** A ticket of a periodic rule carries the generation of an open window. *)
Definition ticket_ok (key : Z) (t : TicketRule) : Prop :=
  (0 <= t.(tr_RuleRevision) <= 2 ^ 53) /\
  (forall r, published key t.(tr_RuleID) t.(tr_RuleRevision) r ->
     isKind KindTotal r = false -> t.(tr_WindowGeneration) <> 0).

Lemma spend_ok rule st u : state_ok rule st -> 0 <= u <= max_int64 ->
  (isKind KindTotal rule = false -> st.(WindowGeneration) <> 0) -> state_ok rule (st <| UsedNano := u |>).
Proof.
  intros [Hr Hv Hrev Hu Hend Hg Hver] H0 Hper. constructor; cbn; unfold const; auto; [|lia].
  apply ValidateRestoredState_spec in Hv. apply ValidateRestoredState_spec. unfold window_legal in *.
  cbn in *. unfold const in *. destruct Hv as (V1 & V2 & V3 & V4 & V5 & V6 & V7 & V8). split_and!; auto; [lia|].
  destruct (WindowStartedAtMS st), (WindowEndsAtMS st); auto. destruct V8 as [V8 _]. split; [assumption|].
  intros Hk. now destruct (Hper Hk).
Qed.

Lemma chargedUse_range cost u : 0 <= u <= max_int64 -> 0 <= chargedUse cost u <= max_int64.
Proof. unfold chargedUse, max_int64. destruct (Z.ltb_spec cost 0); lia. Qed.

Lemma settle_moves key rule t st s cost fault : cost <> 0 -> in_int64 cost ->
  let it := (t, st) in t.(tr_RuleID) = rule.(ID) -> current it = true ->
  encodes (hashOf s (chargeKey prefix key it)) st -> state_ok rule st -> st.(AccessKeyID) = key ->
  (isKind KindTotal rule = false -> st.(WindowGeneration) <> 0) ->
  moves key rule s (fst (settleRule (chargeKey prefix key it) (decimal cost) (decimal (headroomOf cost)) cost fault
                            (Some (decimal (UsedNano st))) s)).
Proof.
  intros Hz Hc it Hid Hcur He Hst Ha Hper. pose proof (st_valid _ _ Hst) as Hv.
  apply ValidateRestoredState_spec in Hv as (_ & _ & _ & Hu & _).
  destruct (settleRule_spec prefix key s cost fault it He (conj Hu (st_used _ _ Hst)) Hz Hc Hcur) as (s' & E & H & F).
  cbn [it fst snd] in E. rewrite E. cbn [fst]. unfold chargeKey in H, F. cbn [it fst snd] in H, F. rewrite Hid in H, F.
  constructor; [exact F|]. exists (st <| UsedNano := chargedUse cost (UsedNano st) |>).
  split_and!; [rewrite H; apply encodes_used|apply spend_ok|]; auto.
  - unfold chargeKey in He. cbn [it fst] in He. now rewrite <- Hid.
  - apply chargedUse_range. split; [assumption|apply Hst].
Qed.

(** One iteration of the loop, up to the recursive call. *)
Lemma completeStep_ok key cost ttl fault i t s : 0 <= key -> 0 < ttl -> cost <> 0 -> in_int64 cost -> ticket_ok key t ->
  quota_ok s -> forall rev used matches,
  let k := ruleKey prefix key t.(tr_RuleID) in
  snd (ticketMatches (mkCompleteArg k (decimal t.(tr_RuleRevision)) (decimal t.(tr_WindowGeneration))) s) =
    Ok (rev, used, matches) ->
  quota_ok (fst ((if matches : bool then
         let! (updated, fault) := settleRule k (decimal cost) (decimal (headroomOf cost)) cost fault used in
         let! changed :=
           (if updated : bool then let! ver := increment k "ver" 1 in ret [Some (tostring i); rev; Some ver]
            else ret []) in
         do! PEXPIREs k ttl in
         ret (changed, fault)
       else ret ([], fault)) s)).
Proof.
  intros Hk Httl Hz Hc [Htr Htp] Hok rev used matches k E. destruct matches; [|assumption].
  destruct (Hok key (tr_RuleID t) Hk) as [E0|(r & st & Hp & He & Hst & Ha)].
  { unfold ticketMatches, bind, read, ret in E. cbn in E. fold k in E0. rewrite !HGET_ok, E0 in E. discriminate. }
  pose proof (st_rev _ _ Hst) as Hrev.
  pose proof (ticketMatches_spec prefix key s (t, st) He ltac:(cbn; lia) Htr) as M.
  unfold chargeArg, chargeKey in M. cbn [fst snd] in M. fold k in M. rewrite M in E. cbn in E. injection E as <- <- Hcur.
  destruct (andb_prop _ _ Hcur) as [C1%Z.eqb_eq C2%Z.eqb_eq]. cbn in C1, C2.
  pose proof (pub_id _ _ _ _ Hp) as Hid.
  assert (Hpub : published key (ID r) (Revision r) r).
  { pose proof (pub_rev _ _ _ _ Hp) as Hr2. now rewrite Hid, Hr2. }
  assert (Hfin : forall s', moves key r s s' -> quota_ok s').
  { intros s' Hm. now apply (moves_ok key r s). }
  assert (Hper : isKind KindTotal r = false -> WindowGeneration st <> 0).
  { intros Hkind. rewrite C2. apply (Htp r); [|assumption]. now rewrite <- C1. }
  apply Hfin. subst k. apply moves_bind; [now apply (settle_moves key r t st)|].
  intros [updated f] s1 H1. apply (fst_bind (moves key r s)); [|intros changed _;
    apply (fst_bind (moves key r s)); [|intros _ _; cbn [ret fst]]].
  all: rewrite <- Hid.
  all: assert (Hb : moves key r s (fst ((if updated : bool then
      let! ver := increment (ruleKey prefix key (ID r)) "ver" 1 in ret [Some (tostring i); Some (decimal (RuleRevision st)); Some ver]
      else ret []) s1))).
  1,3,5: destruct updated; [|exact H1]; apply (fst_bind (moves key r s));
    [|intros ver _; cbn [ret fst]]; (eapply moves_trans; [exact H1|apply bump_version, H1]).
  - exact Hb.
  - eapply moves_trans; [exact Hb|]. apply expire_moves; [assumption|apply Hb].
  - eapply moves_trans; [exact Hb|]. apply expire_moves; [assumption|apply Hb].
Qed.

Lemma readonly_ticketMatches a : readonly (ticketMatches a).
Proof. unfold ticketMatches. readonly_tac. Qed.

Definition ticketArg (key : Z) (t : TicketRule) : completeArg :=
  mkCompleteArg (ruleKey prefix key t.(tr_RuleID)) (decimal t.(tr_RuleRevision)) (decimal t.(tr_WindowGeneration)).

(** Settling a ticket keeps every stored rule legal, on every branch and error. *)
Lemma completeLoop_ok key cost ttl ts : 0 <= key -> 0 < ttl -> cost <> 0 -> in_int64 cost -> Forall (ticket_ok key) ts ->
  forall i fault s, quota_ok s ->
  quota_ok (fst (completeLoop i (decimal cost) (decimal (headroomOf cost)) cost ttl fault (map (ticketArg key) ts) s)).
Proof.
  intros Hk Httl Hz Hc. induction 1 as [|t ts Ht _ IH]; intros i fault s Hok; [assumption|]. cbn [map completeLoop].
  apply readonly_step; [apply readonly_ticketMatches|assumption|]. intros [[rev used] matches] E.
  pose proof (completeStep_ok key cost ttl fault i t s Hk Httl Hz Hc Ht Hok rev used matches E) as H.
  apply fst_bind; [exact H|]. intros [changed f] _. apply fst_bind; [now apply IH|].
  intros [rest f'] _. now apply IH.
Qed.

(** ** Every interleaving *)

(** What the instances of one deployment and the clock can do to the store.  [StepOther]
    is any command on keys outside the quota family. *)
Inductive quota_step : St -> St -> Prop :=
| StepEvaluate q key now admitting rs s : keyPrefix q = prefix -> 0 <= key -> 0 <= now <= 2 ^ 52 -> Forall (usable key) rs ->
    quota_step s (fst (quotaScript admitting (decimal now) quotaStateTTL (quotaArgs q key now rs) s))
| StepHydrate q key byRule targets args s : keyPrefix q = prefix -> 0 <= key -> Forall (usable key) targets ->
    (forall id st, byRule !! id = Some st -> row_ranged st) -> hydrateArgs q key byRule targets = Ok args ->
    quota_step s (fst (initScript quotaStateTTL args s))
| StepComplete q t cost s : keyPrefix q = prefix -> 0 <= t.(tk_AccessKeyID) -> cost <> 0 -> in_int64 cost ->
    Forall (ticket_ok t.(tk_AccessKeyID)) t.(tk_Rules) ->
    quota_step s (fst (completeScript (decimal cost) (decimal (headroomOf cost)) cost quotaStateTTL (completeArgs q t) s))
| StepElapse t s : CLOCK s <= t -> quota_step s (ELAPSE s t)
| StepOther s s' : (forall key id, hashOf s' (ruleKey prefix key id) = hashOf s (ruleKey prefix key id)) -> quota_step s s'.

Lemma quota_step_ok s s' : quota_step s s' -> quota_ok s -> quota_ok s'.
Proof.
  destruct 1 as [q key now admitting rs s Hq Hk Hnow Hu|q key byRule targets args s Hq Hk Hu Hr E|q t cost s Hq Hk Hz Hc Ht|t s Ht|s s' E];
    intros Hok.
  - unfold quotaArgs. rewrite Hq. now apply quotaScript_ok.
  - destruct (hydrateArgs_ok q key byRule targets args Hq Hu Hr E) as (ps & -> & Hps). now apply initScript_ok.
  - unfold completeArgs. rewrite Hq. unfold completeScript.
    pose proof (completeLoop_ok _ cost quotaStateTTL _ Hk ltac:(reflexivity) Hz Hc Ht 1 ""%string s Hok) as H.
    apply fst_bind; [exact H|]. intros [changed fault] _. exact H.
  - intros key id Hk. destruct (ELAPSE_key s t (ruleKey prefix key id) Ht) as [(-> & _)|(-> & _)]; [now apply Hok|now left].
  - intros key id Hk. rewrite E. now apply Hok.
Qed.

(** [C39] Type invariant of the shared store.  Starting without stored rules, after any
    interleaving of checks, admissions, hydrations, settlements, expiries and foreign
    commands by any number of instances, every stored rule decodes to a state that
    [ValidateRestoredState] accepts for the published rule of its revision. *)
Theorem stored_quota_states_legal s0 s : (forall key id, hashOf s0 (ruleKey prefix key id) = ∅) ->
  rtc quota_step s0 s -> quota_ok s.
Proof.
  intros H0 Hs. assert (H : quota_ok s0) by (intros key id _; left; apply H0).
  clear H0. induction Hs as [|s1 s2 s3 H12 _ IH]; [assumption|]. apply IH. now apply (quota_step_ok s1).
Qed.

End Invariant.
(** ** Witness *)

Definition sampleDefs (key id rev : Z) : option Rule :=
  if (key =? 7) && (id =? 3) && (rev =? 2) then Some sampleRule else None.

Lemma sample_usable : usable sampleDefs 7 sampleRule.
Proof. split_and!; [apply sample_rule_ok|constructor; reflexivity|cbn; lia..]. Qed.

(** A hydration followed by an admission and a settlement. *)
Lemma stored_quota_states_legal_witness : exists s,
  HGET s (ruleKey "gw" 7 3) "used" = Some "65"%string /\ quota_ok "gw" sampleDefs s.
Proof.
  pose (q := NewAccessQuota "gw").
  pose (s1 := fst (initScript quotaStateTTL [initArgOf q 7 sampleRule sampleState] (mkDB 0 ∅))).
  pose (s2 := fst (quotaScript true (decimal 2000) quotaStateTTL (quotaArgs q 7 2000 [sampleRule]) s1)).
  pose (t := mkTicket 7 [mkTicketRule 3 2 1]).
  exists (fst (completeScript (decimal 25) (decimal (headroomOf 25)) 25 quotaStateTTL (completeArgs q t) s2)).
  split; [vm_compute; reflexivity|]. apply (stored_quota_states_legal "gw" sampleDefs (mkDB 0 ∅)).
  { intros key id. reflexivity. }
  apply (rtc_l _ _ s1); [|apply (rtc_l _ _ s2); [|apply rtc_once]].
  - apply (StepHydrate _ _ q 7 {[3 := sampleState]} [sampleRule]); try reflexivity; [lia|apply Forall_singleton, sample_usable|].
    intros id st [<- <-]%lookup_singleton_Some. constructor; cbn; unfold max_int64; lia.
  - apply StepEvaluate; try reflexivity; [lia|lia|apply Forall_singleton, sample_usable].
  - apply StepComplete; [reflexivity|cbn; lia|lia|unfold in_int64, min_int64, max_int64; lia|].
    apply Forall_singleton. split; cbn; [lia|]. intros; lia.
Defined.

End QuotaStoreInv.
