(* ===== verification/HealthStore.v ===== *)
(** * Shared credential health

    [internal/cluster/credential_health.go] and [credential_health_scripts.go]: one
    Hash per credential holds its health; every mutation runs the Lua script of
    [credentialHealthScript], mirrors the resulting record into the local registry
    and publishes it to the peers.

    Deadlines cross the store as Unix milliseconds.  As everywhere, a [time.Time] is
    a [Z] with the zero time at [0]; other instants count nanoseconds since 1970, so
    [UnixMilli] is the floor of the division by [10^6].  A published event is the
    decoded value of its JSON payload. *)

From Stdlib Require Import ZArith Lia Bool String Ascii List.
From stdpp Require Import base gmap sets list strings sorting.
From coqutil Require Import Datatypes.RecordSettersUsingExistingGetters.
From S2P Require Import Prelude GoStrings Credential Ledger Registry Redis Lua QuotaStore.

Local Open Scope Z_scope.
Local Open Scope go_scope.

Module HealthStore.
Import Redis Lua LuaNumbers Credential Ledger Registry.

(** ** Texts *)

Definition authText (state : CredentialAuthState) : string :=
  match state with
  | CredentialAuthStateReady => "ready"
  | CredentialAuthStateRefreshing => "refreshing"
  | CredentialAuthStateReauthorizationRequired => "reauthorization_required"
  | CredentialAuthStateOutcomeUnknown => "outcome_unknown"
  | CredentialAuthStateOther raw => raw
  end.

Definition authOf (raw : string) : CredentialAuthState :=
  if String.eqb raw "ready" then CredentialAuthStateReady
  else if String.eqb raw "refreshing" then CredentialAuthStateRefreshing
  else if String.eqb raw "reauthorization_required" then CredentialAuthStateReauthorizationRequired
  else if String.eqb raw "outcome_unknown" then CredentialAuthStateOutcomeUnknown
  else CredentialAuthStateOther raw.

Definition millisecond : Z := 1000000.

Definition formatHealthMS (value : Z) : string := if value =? 0 then "0" else decimal (value / millisecond).
Definition parseHealthMS (value : Z) : Z := if value =? 0 then 0 else value * millisecond.
Definition formatFlag (value : bool) : string := if value then "1" else "0".

(** [strings.CutPrefix(field, "m:")]; the scripts test the same two bytes. *)
Definition cutModel (field : string) : option string :=
  match field with
  | String a (String b model) => if Ascii.eqb a "m" && Ascii.eqb b ":" then Some model else None
  | _ => None
  end.
Definition modelField (model : string) : string := String "m" (String ":" model).

(** ** Decoding a record *)

Inductive HealthError :=
| StoreUnavailable
| StoreScriptFailed (e : ScriptError)
| MalformedReply
| NoEpoch
| UndecodableField
| HealthCredentialIDRequired.

(** The closures [parseUint] and [parseMS]: an absent field is zero; [None] stands
    for an error appended to [errs]. *)
Definition parseUintField (fields : gmap string string) (field : string) : option Z :=
  match fields !! field with None => Some 0 | Some value => parseUint value end.
Definition parseMSField (fields : gmap string string) (field : string) : option Z :=
  match fields !! field with None => Some 0 | Some value => parseHealthMS <$> parseInt value end.

(** The loop over the fields with a model prefix. *)
Fixpoint parseModels (fields : gmap string string) (names : list string) : option (gmap string Z) :=
  match names with
  | [] => Some ∅
  | field :: names =>
    match cutModel field, parseModels fields names with
    | None, rest => rest
    | Some model, Some rest =>
      match parseMSField fields field with Some deadline => Some (<[model := deadline]> rest) | None => None end
    | Some _, None => None
    end
  end.

Definition zeroHealth : SharedCredentialHealth := mkShared "" 0 0 0 false 0 0 0 ∅ authStateUnset 0.

Definition decodeCredentialHealth (fields : gmap string string) : result HealthError SharedCredentialHealth :=
  if bool_decide (fields = ∅) then Ok zeroHealth
  else if stringEmpty (default ""%string (fields !! "ep"%string)) then Err NoEpoch
  else
    match parseUintField fields "ver", parseUintField fields "idg", parseMSField fields "cd",
          parseUintField fields "fc", parseUintField fields "fg", parseUintField fields "mg",
          parseUintField fields "asv", parseModels fields (map fst (map_to_list fields)) with
    | Some ver, Some idg, Some cd, Some fc, Some fg, Some mg, Some asv, Some models =>
      Ok (mkShared (default ""%string (fields !! "ep"%string)) ver idg cd
            (bool_decide (fields !! "bl"%string = Some "1"%string)) (wrap_i64 fc) fg mg models
            (authOf (default ""%string (fields !! "auth"%string))) asv)
    | _, _, _, _, _, _, _, _ => Err UndecodableField
    end.

(** ** The script *)

(** [healthOp]: the name and its arguments. *)
Inductive healthOp :=
| opCooldown (until expected : string)
| opFail (threshold : string)
| opClearFailure
| opModelCooldown (model until now generation : string)
| opRestore (runtime modelCooldowns : string)
| opRecoverIfMatch (generation cooldown : string)
| opClearCooldownIfMatch (expected : string)
| opAuth (authState secretVersion epoch observedVersion : string)
| opUnknown (name : string).

(** A published event, and the reply of the script. *)
Record credentialHealthEvent := mkEvent {
  ev_Origin : string;
  ev_ID : Z;
  ev_State : gmap string string;
}.

Record healthReply := mkReply {
  accepted : bool;
  changed : bool;
  became : bool;
  fields : list (string * string);
  event : option credentialHealthEvent;
}.

Section Store.
Context {St : Type} {R : RedisStore St}.

Definition num (k field : string) : Script St (option Z) :=
  let! value := read (fun s => HGET s k field) in ret (tonumber (default "0"%string value)).

(** Ordering two numbers, either of which may be [nil]. *)
Definition greater (a b : option Z) : Script St bool :=
  match a, b with Some a, Some b => ret (a >? b) | _, _ => raise LuaError end.

Definition HDELs (k : string) (names : list string) : Script St unit :=
  write (fun s => foldl (fun s f => HDEL s k f) s names).

Definition isModelField (field : string) : bool := match cutModel field with Some _ => true | None => false end.

Definition clear_model_cooldowns (k : string) : Script St unit :=
  let! names := read (fun s => map fst (HGETALL s k)) in
  HDELs k (List.filter isModelField names).

(** The prologue: a missing record is created, one of another identity reset. *)
Definition healthPrologue (k idg epoch : string) : Script St bool :=
  let! created := call (fun s => let '(s, b) := HSETNX s k "ep" epoch in (s, Some b)) in
  if created : bool then
    do! write (fun s => HSET (HSET (HSET (HSET s k "ver" "0") k "idg" idg) k "fg" "0") k "mg" "0") in
    ret true
  else
    let! stored := read (fun s => HGET s k "idg") in
    if negb (bool_decide (stored = Some idg)) then
      do! clear_model_cooldowns k in
      do! HDELs k ["cd"; "bl"; "fc"; "auth"; "asv"]%string in
      do! write (fun s => HSET (HSET (HSET s k "idg" idg) k "fg" "0") k "mg" "0") in
      ret true
    else ret false.

(** The pruning loop of [model_cooldown]. *)
Fixpoint pruneFields (k : string) (now : option Z) (all : list (string * string)) : Script St bool :=
  match all with
  | [] => ret false
  | (field, value) :: all =>
    let! expired :=
      (if isModelField field then let! later := greater (tonumber value) now in ret (negb later) else ret false) in
    do! (if expired : bool then HDELs k [field] else ret tt) in
    let! rest := pruneFields k now all in
    ret (expired || rest)
  end.

Definition bump (k f : string) : Script St Z := call (fun s => HINCRBY s k f 1).

(** The dispatch on the operation: accepted, changed, became, and whether a write
    other than the operation's own happened. *)
Definition healthOperation (k : string) (op : healthOp) : Script St (bool * bool * bool * bool) :=
  match op with
  | opCooldown until expected =>
    let! asv := read (fun s => HGET s k "asv") in
    if negb (stringEmpty expected) &&
       match asv with Some v => negb (bool_decide (v = expected)) | None => false end
    then ret (false, false, false, false)
    else
      let! cd := num k "cd" in
      let! later := greater (tonumber until) cd in
      if later : bool then do! write (fun s => HSET s k "cd" until) in ret (true, true, false, false)
      else ret (true, false, false, false)
  | opFail threshold =>
    let! count := bump k "fc" in
    do! bump k "fg" in
    let! limit := number (Some threshold) in
    let! blacklisted := read (fun s => HGET s k "bl") in
    if (limit >? 0) && (dbl count >=? limit) && negb (bool_decide (blacklisted = Some "1"%string)) then
      do! write (fun s => HSET s k "bl" "1") in
      do! bump k "fg" in
      ret (true, true, true, false)
    else ret (true, true, false, false)
  | opClearFailure =>
    let! count := num k "fc" in
    if negb (bool_decide (count = Some 0)) then
      do! HDELs k ["fc"]%string in
      do! bump k "fg" in
      ret (true, true, false, false)
    else ret (true, false, false, false)
  | opModelCooldown model until now generation =>
    let! mg := read (fun s => HGET s k "mg") in
    if negb (bool_decide (mg = Some generation)) then ret (false, false, false, false)
    else
      let! all := read (fun s => HGETALL s k) in
      let! pruned := pruneFields k (tonumber now) all in
      let! current := num k (modelField model) in
      let! later := greater (tonumber until) current in
      if later : bool
      then do! write (fun s => HSET s k (modelField model) until) in ret (true, true, false, pruned)
      else ret (true, false, false, pruned)
  | opRestore runtime modelCooldowns =>
    do! (if String.eqb runtime "1"
         then do! HDELs k ["cd"; "bl"; "fc"]%string in do! bump k "fg" in ret tt else ret tt) in
    do! (if String.eqb modelCooldowns "1"
         then do! clear_model_cooldowns k in do! bump k "mg" in ret tt else ret tt) in
    ret (true, true, false, false)
  | opRecoverIfMatch generation cooldown =>
    let! bl := read (fun s => HGET s k "bl") in
    let! fg := read (fun s => HGET s k "fg") in
    let! moved :=
      (if negb (stringEmpty cooldown)
       then let! cd := num k "cd" in ret (negb (bool_decide (cd = tonumber cooldown))) else ret false) in
    if negb (bool_decide (bl = Some "1"%string)) || negb (bool_decide (fg = Some generation)) || moved
    then ret (false, false, false, false)
    else
      do! (if negb (stringEmpty cooldown) then HDELs k ["cd"]%string else ret tt) in
      do! HDELs k ["bl"; "fc"]%string in
      do! bump k "fg" in
      ret (true, true, false, false)
  | opClearCooldownIfMatch expected =>
    let! cd := num k "cd" in
    if negb (bool_decide (cd = tonumber expected)) then ret (false, false, false, false)
    else do! HDELs k ["cd"]%string in ret (true, true, false, false)
  | opAuth authState secretVersion epoch observedVersion =>
    let! stored := read (fun s => HGET s k "asv") in
    let! ep := read (fun s => HGET s k "ep") in
    let! ver := read (fun s => HGET s k "ver") in
    if negb (stringEmpty epoch) &&
       (negb (bool_decide (ep = Some epoch)) || negb (bool_decide (ver = Some observedVersion)))
    then ret (false, false, false, false)
    else
      let! newer :=
        match stored with
        | None => ret false
        | Some _ =>
          greater (tonumber (default ""%string stored)) (tonumber secretVersion)
        end in
      if newer : bool then ret (false, false, false, false)
      else
        let! auth := read (fun s => HGET s k "auth") in
        if negb (bool_decide (auth = Some authState)) || negb (bool_decide (stored = Some secretVersion))
        then do! write (fun s => HSET (HSET s k "auth" authState) k "asv" secretVersion) in
             ret (true, true, false, true)
        else ret (true, false, false, true)
  | opUnknown name => raise (ErrorReply ("unknown credential health op " +:+ name)%string)
  end.

(** [credentialHealthScript]. *)
Definition credentialHealthScript (k : string) (op : healthOp) (origin : string) (id : Z) (idg epoch : string) (ttl : Z)
    : Script St healthReply :=
  let! reset := healthPrologue k idg epoch in
  let! (accepted, changed, became, mutated) := healthOperation k op in
  let moved := changed || (reset || mutated) in
  do! (if moved : bool then do! bump k "ver" in ret tt else ret tt) in
  do! write (fun s => fst (PEXPIRE s k ttl)) in
  let! all := read (fun s => HGETALL s k) in
  ret (mkReply accepted changed became all
         (if moved then Some (mkEvent origin (dbl id) (list_to_map all)) else None)).

(** ** The store of one instance *)

Record CredentialHealth := mkHealth {
  healthPrefix : string;
  origin : string;
  registry : CredentialRegistry;
}.

Definition credentialHashTag (credentialID : Z) : string := ("{cred:" +:+ decimal credentialID +:+ "}")%string.
Definition healthKey (health : CredentialHealth) (credentialID : Z) : string :=
  QuotaStore.Key health.(healthPrefix) [credentialHashTag credentialID; "health"]%string.

Record SharedHealthResult := mkResult {
  Accepted : bool;
  Changed : bool;
  res_FailureCount : Z;
  BecameBlacklisted : bool;
}.

Definition noResult : SharedHealthResult := mkResult false false 0 false.

Definition credentialHealthTTL : Z := 30 * 24 * 3600 * 1000.

(** What one call did: the instance, the store, the result and the event published. *)
Record Outcome := mkOutcome {
  out_health : CredentialHealth;
  out_store : St;
  out_result : result HealthError SharedHealthResult;
  out_event : option credentialHealthEvent;
}.

(** [apply]; [now] is the instant at which the mirror is synchronised and [epoch] the
    random token.  [delivery] says whether the call and its reply arrive. *)
Definition apply (health : CredentialHealth) (ref : CredentialRef) (op : healthOp) (now : Z) (epoch : string)
    (delivery : QuotaStore.Delivery) (s : St) : Outcome :=
  if ref.(ref_ID) =? 0 then mkOutcome health s (Err HealthCredentialIDRequired) None
  else match delivery with
  | QuotaStore.NotDelivered => mkOutcome health s (Err StoreUnavailable) None
  | _ =>
    let '(s, reply) :=
      credentialHealthScript (healthKey health ref.(ref_ID)) op health.(origin) ref.(ref_ID)
        (decimal ref.(ref_IdentityGeneration)) epoch credentialHealthTTL s in
    match reply, delivery with
    | Err e, QuotaStore.Delivered => mkOutcome health s (Err (StoreScriptFailed e)) None
    | Err _, _ => mkOutcome health s (Err StoreUnavailable) None
    | Ok reply, QuotaStore.Delivered =>
      match decodeCredentialHealth (list_to_map reply.(fields)) with
      | Err e => mkOutcome health s (Err e) reply.(event)
      | Ok record =>
        mkOutcome (health <| registry := fst (ApplySharedHealth now health.(registry) ref.(ref_ID) record) |>) s
          (Ok (mkResult reply.(accepted) reply.(changed) record.(sh_FailureCount) reply.(became))) reply.(event)
      end
    | Ok reply, _ => mkOutcome health s (Err StoreUnavailable) reply.(event)
    end
  end.

Section Operations.
Variables (health : CredentialHealth) (now : Z) (epoch : string) (delivery : QuotaStore.Delivery).

Definition refuse (s : St) : Outcome := mkOutcome health s (Ok noResult) None.

Definition CooldownCredential (ref : CredentialRef) (until expectedVersion : Z) (s : St) : Outcome :=
  if negb (expectedVersion =? 0) &&
     match CredentialRefOf health.(registry) ref.(ref_ID) with
     | Some current => negb (current.(ref_Version) =? expectedVersion)
     | None => true
     end
  then refuse s
  else apply health ref
         (opCooldown (formatHealthMS until) (if expectedVersion =? 0 then ""%string else decimal expectedVersion))
         now epoch delivery s.

Definition CooldownModel (ref : CredentialRef) (model : string) (until attemptNow : Z) (s : St) : Outcome :=
  if stringEmpty model || negb (trimmed (bytes model)) || negb (until >? attemptNow) then refuse s
  else apply health ref
         (opModelCooldown model (formatHealthMS until) (formatHealthMS attemptNow)
            (decimal ref.(ref_ModelCooldownGeneration))) now epoch delivery s.

Definition RecordFailure (ref : CredentialRef) (threshold : Z) (s : St) : Outcome :=
  apply health ref (opFail (decimal threshold)) now epoch delivery s.

Definition ClearFailureShared (ref : CredentialRef) (s : St) : Outcome :=
  apply health ref opClearFailure now epoch delivery s.

Definition Restore (ref : CredentialRef) (runtime modelCooldowns : bool) (s : St) : Outcome :=
  apply health ref (opRestore (formatFlag runtime) (formatFlag modelCooldowns)) now epoch delivery s.

Definition RecoverIfMatchShared (ref : CredentialRef) (cooldownUntil : option Z) (s : St) : Outcome :=
  if negb (CredentialMatchesRef health.(registry) ref) then refuse s
  else apply health ref
         (opRecoverIfMatch (decimal ref.(ref_FailureGeneration))
            (match cooldownUntil with Some until => formatHealthMS until | None => ""%string end)) now epoch delivery s.

Definition ClearCooldownIfMatchShared (ref : CredentialRef) (expected : Z) (s : St) : Outcome :=
  if expected =? 0 then refuse s
  else apply health ref (opClearCooldownIfMatch (formatHealthMS expected)) now epoch delivery s.

Definition authOp (authState : CredentialAuthState) (secretVersion : Z) (ep : string) (version : Z) : healthOp :=
  let authState := if bool_decide (authState = authStateUnset) then CredentialAuthStateReady else authState in
  opAuth (authText authState) (decimal secretVersion) ep (if stringEmpty ep then ""%string else decimal version).

Definition SetAuthState (ref : CredentialRef) (authState : CredentialAuthState) (secretVersion : Z) (s : St) : Outcome :=
  apply health ref (authOp authState secretVersion "" 0) now epoch delivery s.

Definition ReplaceAuthState (ref : CredentialRef) (authState : CredentialAuthState) (secretVersion : Z)
    (observed : SharedCredentialHealth) (s : St) : Outcome :=
  if stringEmpty observed.(sh_Epoch) then refuse s
  else apply health ref (authOp authState secretVersion observed.(sh_Epoch) observed.(sh_Version)) now epoch delivery s.

End Operations.

(** ** Mirroring *)

(** [handle] on a decoded event; a malformed payload is [None]. *)
Definition handle (health : CredentialHealth) (now : Z) (payload : option credentialHealthEvent) : CredentialHealth :=
  match payload with
  | None => health
  | Some ev =>
    if ev.(ev_ID) =? 0 then health
    else if String.eqb ev.(ev_Origin) health.(origin) then health
    else match decodeCredentialHealth ev.(ev_State) with
    | Err _ => health
    | Ok record => health <| registry := fst (ApplySharedHealth now health.(registry) ev.(ev_ID) record) |>
    end
  end.

(** The records of a batch; undecodable ones are left out.  The store may change
    between two reads of the pipeline. *)
Fixpoint readBatch (health : CredentialHealth) (others : nat -> St -> St) (i : nat) (ids : list Z) (s : St)
    : St * list (Z * SharedCredentialHealth) :=
  match ids with
  | [] => (s, [])
  | id :: ids =>
    let s := others i s in
    let '(s', rest) := readBatch health others (S i) ids s in
    (s', match decodeCredentialHealth (list_to_map (HGETALL s (healthKey health id))) with
         | Ok record => (id, record) :: rest
         | Err _ => rest
         end)
  end.

Definition credentialHealthHydrateBatch : nat := 500.

(** The batches of [ReadHealth], each one call; [fuel] bounds their number. *)
Fixpoint ReadHealth (fuel : nat) (health : CredentialHealth) (calls : list ((nat -> St -> St) * bool)) (ids : list Z) (s : St)
    : St * result HealthError (list (Z * SharedCredentialHealth)) :=
  match fuel, ids with
  | _, [] => (s, Ok [])
  | S fuel, _ =>
    match calls with
    | (others, true) :: calls =>
      let '(s, records) := readBatch health others O (take credentialHealthHydrateBatch ids) s in
      let '(s, rest) := ReadHealth fuel health calls (drop credentialHealthHydrateBatch ids) s in
      (s, match rest with Ok rest => Ok (records ++ rest) | Err e => Err e end)
    | _ => (s, Err StoreUnavailable)
    end
  | O, _ => (s, Err StoreUnavailable)
  end.

(** [Hydrate]: mirror the record of every registered credential. *)
Definition Hydrate (health : CredentialHealth) (now : Z) (calls : list ((nat -> St -> St) * bool)) (s : St)
    : CredentialHealth * St * option HealthError :=
  let ids := CredentialIDs health.(registry) in
  match ReadHealth (length ids) health calls ids s with
  | (s, Err e) => (health, s, Some e)
  | (s, Ok records) =>
    (health <| registry := foldl (fun r p => fst (ApplySharedHealth now r p.1 p.2)) health.(registry) records |>, s, None)
  end.

End Store.
End HealthStore.
