(* ===== verification/HealthStoreProps.v ===== *)
(** * Shared and local credential health agree

    [credentialHealthScript] "must stay behaviorally identical" to the operations of
    [CredentialRegistry].  This file proves it as a simulation: a stored Hash that
    holds an entry's health ([holds]) is taken by every operation to a Hash that
    holds the health the local operation produces, with the same verdicts, and the
    record every peer receives leads it to the same entry.

    [triple] is a small program logic for scripts that work on one key. *)

From Stdlib Require Import ZArith Lia Bool String Ascii List Permutation.
From stdpp Require Import base gmap sets list strings sorting.
From coqutil Require Import Datatypes.RecordSettersUsingExistingGetters.
From S2P Require Import Prelude GoStrings Credential Ledger Registry RegistryFacts Redis Lua QuotaStore QuotaStoreProps HealthStore.

Local Open Scope Z_scope.
Local Open Scope go_scope.

Module HealthStoreProps.
Import Redis Lua LuaNumbers Credential Ledger Registry HealthStore.

(** ** A program logic for one key *)

Section Logic.
Context {St : Type} {R : RedisStore St} {ROk : RedisOk St}.
Implicit Types (s : St) (h : gmap string string) (k f : string).

(** From a Hash [h] at [k] the script succeeds, its reply and the Hash it leaves
    satisfy [Q], and no other Hash changes. *)
Definition triple {A} k h (m : Script St A) (Q : A -> gmap string string -> Prop) : Prop :=
  forall s, hashOf s k = h -> exists s' a, m s = (s', Ok a) /\ Q a (hashOf s' k) /\
    (forall k', k' <> k -> hashOf s' k' = hashOf s k').

Lemma t_ret {A} k h (a : A) (Q : A -> gmap string string -> Prop) : Q a h -> triple k h (ret a) Q.
Proof. intros H s <-. exists s, a. auto. Qed.

Lemma t_bind {A B} k h (m : Script St A) (g : A -> Script St B) Q1 Q :
  triple k h m Q1 -> (forall a h1, Q1 a h1 -> triple k h1 (g a) Q) -> triple k h (bind m g) Q.
Proof.
  intros Hm Hg s Hs. destruct (Hm s Hs) as (s1 & a & E1 & Q1a & F1).
  destruct (Hg a (hashOf s1 k) Q1a s1 eq_refl) as (s2 & b & E2 & Q2 & F2).
  exists s2, b. unfold bind. rewrite E1. split_and!; auto. intros k' Hk. now rewrite F2, F1.
Qed.

Lemma t_weaken {A} k h (m : Script St A) (Q1 Q : A -> gmap string string -> Prop) :
  triple k h m Q1 -> (forall a h1, Q1 a h1 -> Q a h1) -> triple k h m Q.
Proof. intros Hm HQ s Hs. destruct (Hm s Hs) as (s1 & a & E & H & F). eauto 6. Qed.

Lemma t_get {B} k h f (g : option string -> Script St B) Q :
  triple k h (g (h !! f)) Q -> triple k h (let! v := read (fun s => HGET s k f) in g v) Q.
Proof. intros H s Hs. destruct (H s Hs) as (s' & b & E & HQ). exists s', b. unfold bind, read. now rewrite HGET_ok, Hs. Qed.

Lemma t_getall {B} k h (g : list (string * string) -> Script St B) Q :
  (forall l, Permutation l (map_to_list h) -> triple k h (g l) Q) ->
  triple k h (let! v := read (fun s => HGETALL s k) in g v) Q.
Proof.
  intros H s Hs. destruct (H (HGETALL s k) ltac:(rewrite <- Hs; apply HGETALL_ok) s Hs) as (s' & b & E & HQ).
  exists s', b. unfold bind, read. auto.
Qed.

Lemma t_set k h f v Q : Q tt (<[f := v]> h) -> triple k h (write (fun s => HSET s k f v)) Q.
Proof.
  intros H s <-. exists (HSET s k f v), tt. rewrite HSET_ok. split_and!; auto. intros k' Hk. now apply HSET_only.
Qed.

Lemma t_number {B} k h n (g : Z -> Script St B) Q : Z.abs n <= 2 ^ 53 -> triple k h (g n) Q ->
  triple k h (let! v := number (Some (decimal n)) in g v) Q.
Proof.
  intros Hn H s Hs. destruct (H s Hs) as (s' & b & E & HQ). exists s', b. unfold bind, number.
  now rewrite tonumber_small.
Qed.

Definition dels (names : list string) h : gmap string string := foldl (fun h f => delete f h) h names.

Lemma dels_lookup names f : forall h, dels names h !! f = if decide (f ∈ names) then None else h !! f.
Proof.
  induction names as [|n names IH]; intros h; cbn [dels foldl].
  - rewrite decide_False by (now rewrite elem_of_nil). reflexivity.
  - change (foldl (fun h f => delete f h) ?a names) with (dels names a). rewrite IH.
    destruct (decide (f ∈ names)); [now rewrite decide_True by (now right)|].
    destruct (decide (f = n)) as [->|]; [rewrite lookup_delete_eq, decide_True by (now left); reflexivity|].
    rewrite lookup_delete_ne, decide_False by (congruence || (rewrite elem_of_cons; tauto)). reflexivity.
Qed.

Lemma HDELs_hash names k : forall s, hashOf (foldl (fun s f => HDEL s k f) s names) k = dels names (hashOf s k) /\
  (forall k', k' <> k -> hashOf (foldl (fun s f => HDEL s k f) s names) k' = hashOf s k').
Proof.
  induction names as [|f names IH]; intros s; cbn [foldl]; [auto|]. destruct (IH (HDEL s k f)) as [E F].
  rewrite E, HDEL_ok. split; [reflexivity|]. intros k' Hk. rewrite F by assumption. now apply HDEL_only.
Qed.

Lemma t_dels k h names Q : Q tt (dels names h) -> triple k h (HDELs k names) Q.
Proof. intros H s <-. destruct (HDELs_hash names k s) as [E F]. eexists _, tt. split; [reflexivity|]. rewrite E. auto. Qed.

Lemma t_bump k h f v Q : (h !! f = None /\ v = 0) \/ (h !! f = Some (decimal v) /\ in_int64 v) -> in_int64 (v + 1) ->
  Q (v + 1) (<[f := decimal (v + 1)]> h) -> triple k h (bump k f) Q.
Proof.
  intros Hv Hn H s Hs. exists (HSET s k f (decimal (v + 1))), (v + 1). unfold bump, call.
  rewrite (HINCRBY_ok s k f 1 v) by (rewrite Hs; assumption). rewrite (proj2 (is_int64_spec _) Hn).
  rewrite HSET_ok, Hs. split_and!; auto. intros k' Hk. now apply HSET_only.
Qed.

Lemma t_expire k h px Q : 0 < px -> Q tt h -> triple k h (write (fun s => fst (PEXPIRE s k px))) Q.
Proof.
  intros Hp H s Hs. exists (fst (PEXPIRE s k px)), tt. rewrite QuotaStoreProps.PEXPIRE_hash by assumption.
  rewrite Hs. split_and!; auto. intros k' Hk. now apply QuotaStoreProps.PEXPIRE_hash.
Qed.

Lemma t_num {B} k h f n (g : option Z -> Script St B) Q : tonumber (default "0"%string (h !! f)) = Some n ->
  triple k h (g (Some n)) Q -> triple k h (let! v := num k f in g v) Q.
Proof.
  intros E H. apply (t_bind k h (num k f) g (fun v h1 => v = Some n /\ h1 = h)); [|intros v h1 [-> ->]; assumption].
  unfold num. apply t_get, t_ret. now rewrite E.
Qed.

End Logic.

(** ** Stored records *)

(** The auth state stored in a record, with the secret version it belongs to. *)
Abbreviation stored_auth := (option (CredentialAuthState * Z)).

Definition nonzero (v : Z) (t : string) : option string := if v =? 0 then None else Some t.
Definition msText (v : Z) : string := decimal (v / millisecond).

(** The Hash of an entry's health, field by field. *)
Definition encode (e : CredentialEntry) (au : stored_auth) (f : string) : option string :=
  if decide (f = "ep"%string) then Some e.(sharedEpoch)
  else if decide (f = "ver"%string) then Some (decimal e.(sharedVersion))
  else if decide (f = "idg"%string) then Some (decimal e.(IdentityGeneration))
  else if decide (f = "cd"%string) then nonzero e.(CooldownUntil) (msText e.(CooldownUntil))
  else if decide (f = "bl"%string) then if e.(Blacklisted) then Some "1"%string else None
  else if decide (f = "fc"%string) then nonzero e.(FailureCount) (decimal e.(FailureCount))
  else if decide (f = "fg"%string) then Some (decimal e.(FailureGeneration))
  else if decide (f = "mg"%string) then Some (decimal e.(ModelCooldownGeneration))
  else if decide (f = "auth"%string) then (fun p => authText p.1) <$> au
  else if decide (f = "asv"%string) then (fun p => decimal p.2) <$> au
  else match cutModel f with
       | Some m => msText <$> e.(ModelCooldowns) !! m
       | None => None
       end.

(** A deadline on a millisecond, in the range Lua handles exactly. *)
Definition deadline (v : Z) : Prop := exists u, v = u * millisecond /\ 0 <= u <= 2 ^ 53.

Record healthy (e : CredentialEntry) (au : stored_auth) : Prop := {
  he_epoch : e.(sharedEpoch) <> ""%string;
  he_version : 0 <= e.(sharedVersion) <= max_int64;
  he_identity : 0 <= e.(IdentityGeneration) <= max_uint64;
  he_cooldown : deadline e.(CooldownUntil);
  he_count : 0 <= e.(FailureCount) <= 2 ^ 53;
  he_fg : 0 <= e.(FailureGeneration) <= max_int64;
  he_mg : 0 <= e.(ModelCooldownGeneration) <= max_int64;
  he_models : forall m v, e.(ModelCooldowns) !! m = Some v -> deadline v /\ m <> ""%string;
  he_auth : match au with
            | Some (a, v) => authStateValid a = true /\ a <> authStateUnset /\ 0 <= v <= 2 ^ 53 /\
                             (v = e.(Version) -> e.(AuthState) = a)
            | None => True
            end;
}.

Definition holds (h : gmap string string) (e : CredentialEntry) (au : stored_auth) : Prop :=
  (forall f, h !! f = encode e au f) /\ healthy e au.

Lemma cutModel_spec f m : cutModel f = Some m <-> f = modelField m.
Proof.
  unfold modelField. split; [|intros ->; reflexivity]. destruct f as [|a [|b f]]; cbn; try discriminate.
  destruct (Ascii.eqb_spec a "m"), (Ascii.eqb_spec b ":"); cbn; try discriminate. now intros [= ->]; subst.
Qed.

Lemma encode_model e au m : encode e au (modelField m) = msText <$> e.(ModelCooldowns) !! m.
Proof. reflexivity. Qed.

Lemma ms_of u : u * millisecond / millisecond = u.
Proof. apply Z.div_mul. discriminate. Qed.

Lemma deadline_ms v : deadline v -> v = v / millisecond * millisecond /\ 0 <= v / millisecond <= 2 ^ 53.
Proof. intros (u & -> & Hu). rewrite ms_of. auto. Qed.

Lemma formatHealthMS_text v : formatHealthMS v = msText v.
Proof. unfold formatHealthMS, msText. destruct (Z.eqb_spec v 0) as [->|]; reflexivity. Qed.

Lemma authOf_text a : authStateValid a = true -> a <> authStateUnset -> authOf (authText a) = a.
Proof.
  unfold authStateValid, normalize. destruct a as [| | | |raw]; try reflexivity. intros Hv Hn. cbn in Hv.
  rewrite bool_decide_eq_false_2 in Hv by exact Hn. discriminate.
Qed.

Lemma default_nonzero v t z : tonumber t = Some v -> z = 0 \/ z <> 0 -> (z = 0 -> v = 0) ->
  tonumber (default "0"%string (nonzero z t)) = Some v.
Proof. intros H1 _ H2. unfold nonzero. destruct (Z.eqb_spec z 0) as [E|E]; cbn; [|assumption]. now rewrite (H2 E). Qed.

Lemma cd_number h e au : holds h e au ->
  tonumber (default "0"%string (h !! "cd"%string)) = Some (CooldownUntil e / millisecond).
Proof.
  intros [Hh He]. destruct (deadline_ms _ (he_cooldown _ _ He)) as [_ B]. rewrite Hh. cbn. apply default_nonzero; [|lia|].
  - unfold msText. apply tonumber_small. lia.
  - now intros ->.
Qed.

Lemma fc_number h e au : holds h e au -> tonumber (default "0"%string (h !! "fc"%string)) = Some (FailureCount e).
Proof.
  intros [Hh He]. pose proof (he_count _ _ He). rewrite Hh. cbn. apply default_nonzero; [|lia|auto]. apply tonumber_small. lia.
Qed.

Lemma fc_counter h e au : holds h e au ->
  (h !! "fc"%string = None /\ FailureCount e = 0) \/
  (h !! "fc"%string = Some (decimal (FailureCount e)) /\ in_int64 (FailureCount e)).
Proof.
  intros [Hh He]. pose proof (he_count _ _ He) as B. rewrite Hh.
  change (encode e au "fc") with (nonzero (FailureCount e) (decimal (FailureCount e))). unfold nonzero.
  destruct (Z.eqb_spec (FailureCount e) 0); [left; auto|right]. split; [reflexivity|].
  unfold in_int64, min_int64, max_int64. lia.
Qed.

(** Comparing an unknown field name with the names of the record. *)
Ltac enc_at f :=
  repeat match goal with
  | |- context [(<[?a := _]> _) !! f] => destruct (decide (f = a)) as [->|];
      [rewrite lookup_insert_eq; try reflexivity|rewrite lookup_insert_ne by congruence]
  | |- context [delete ?a _ !! f] => destruct (decide (f = a)) as [->|];
      [rewrite lookup_delete_eq; try reflexivity|rewrite lookup_delete_ne by congruence]
  end;
  try match goal with H : forall f, ?h !! f = _ |- ?h !! _ = _ => rewrite H end;
  try (unfold encode; cbn; unfold const; repeat case_decide; congruence).
Ltac enc := let f := fresh "f" in intros f; enc_at f.

Lemma nonzero_pos v t : 0 < v -> nonzero v t = Some t.
Proof. intros. unfold nonzero. now rewrite (proj2 (Z.eqb_neq v 0)) by lia. Qed.

(** ** Decoding *)

Definition sharedOf (e : CredentialEntry) (au : stored_auth) : SharedCredentialHealth :=
  mkShared e.(sharedEpoch) e.(sharedVersion) e.(IdentityGeneration) e.(CooldownUntil) e.(Blacklisted) e.(FailureCount)
    e.(FailureGeneration) e.(ModelCooldownGeneration) e.(ModelCooldowns)
    (match au with Some (a, _) => a | None => authStateUnset end) (match au with Some (_, v) => v | None => 0 end).

Lemma parseHealthMS_mul u : parseHealthMS u = u * millisecond.
Proof. unfold parseHealthMS. destruct (Z.eqb_spec u 0) as [->|]; reflexivity. Qed.

Lemma parse_ms v : deadline v -> parseHealthMS <$> parseInt (msText v) = Some v.
Proof.
  intros (u & -> & Hu). unfold msText. rewrite ms_of, decimal_parse.
  - cbn. f_equal. apply parseHealthMS_mul.
  - unfold in_int64, min_int64, max_int64. lia.
Qed.

Lemma parseModels_spec h e au names : holds h e au -> NoDup names -> (forall f, f ∈ names -> is_Some (h !! f)) ->
  exists ms, parseModels h names = Some ms /\
    forall m, ms !! m = if decide (modelField m ∈ names) then ModelCooldowns e !! m else None.
Proof.
  intros Hh. induction names as [|f names IH]; intros Hnd Hin; cbn [parseModels].
  { exists ∅. split; [reflexivity|]. intros m. rewrite lookup_empty. now case_decide. }
  apply NoDup_cons in Hnd as [Hf Hnd]. destruct (IH Hnd) as (ms & E & Hms); [intros; apply Hin; now right|].
  rewrite E. destruct (cutModel f) as [m|] eqn:Ec.
  - apply cutModel_spec in Ec as ->. destruct (Hin (modelField m) ltac:(now left)) as [t Ht].
    destruct Hh as [Hh He]. unfold parseMSField. pose proof Ht as Ht'. rewrite Hh, encode_model in Ht'.
    destruct (ModelCooldowns e !! m) as [v|] eqn:Ev; cbn in Ht'; [|discriminate]. injection Ht' as <-.
    rewrite Ht, parse_ms by (eapply he_models; eauto). exists (<[m := v]> ms). split; [reflexivity|]. intros m'.
    destruct (decide (m' = m)) as [->|Hne]; [rewrite lookup_insert_eq, decide_True by (now left); congruence|].
    rewrite lookup_insert_ne, Hms by congruence. apply decide_ext. rewrite elem_of_cons. unfold modelField. naive_solver.
  - exists ms. split; [reflexivity|]. intros m. rewrite Hms. apply decide_ext. rewrite elem_of_cons.
    split; [now right|]. intros [<-|H]; [discriminate|assumption].
Qed.

Lemma parse_counter h f v : (h !! f = None /\ v = 0) \/ h !! f = Some (decimal v) -> 0 <= v <= max_uint64 ->
  parseUintField h f = Some v.
Proof. intros [[E ->]|E] Hv; unfold parseUintField; rewrite E; [reflexivity|]. now apply decimal_parseUint. Qed.

(** A record that holds an entry's health decodes to it. *)
Lemma decode_holds h e au : holds h e au -> decodeCredentialHealth h = Ok (sharedOf e au).
Proof.
  intros Hh. pose proof Hh as [Hl He]. destruct He as [E1 E2 E3 E4 E5 E6 E7 E8 E9].
  destruct (parseModels_spec h e au (map fst (map_to_list h)) Hh) as (ms & Em & Hms).
  { apply NoDup_fst_map_to_list. }
  { intros f Hf. apply list_elem_of_fmap in Hf as ([f' t] & -> & Hf). apply elem_of_map_to_list in Hf. eauto. }
  assert (ms = ModelCooldowns e) as ->.
  { apply map_eq. intros m. rewrite Hms. case_decide as Hin; [reflexivity|].
    destruct (ModelCooldowns e !! m) as [v|] eqn:Ev; [|reflexivity]. exfalso. apply Hin.
    apply list_elem_of_fmap. exists (modelField m, msText v). split; [reflexivity|].
    apply elem_of_map_to_list. now rewrite Hl, encode_model, Ev. }
  assert (Hep : h !! "ep"%string = Some (sharedEpoch e)) by now rewrite Hl.
  unfold decodeCredentialHealth. rewrite bool_decide_eq_false_2 by (intros ->; discriminate Hep).
  rewrite Hep, Em. cbn [default from_option id]. unfold stringEmpty, id. rewrite (proj2 (String.eqb_neq _ _) E1).
  unfold max_int64, max_uint64 in *.
  rewrite (parse_counter h "ver" (sharedVersion e)), (parse_counter h "idg" (IdentityGeneration e)),
    (parse_counter h "fc" (FailureCount e)), (parse_counter h "fg" (FailureGeneration e)),
    (parse_counter h "mg" (ModelCooldownGeneration e)),
    (parse_counter h "asv" (match au with Some (_, v) => v | None => 0 end));
    try (unfold max_uint64; lia); try (right; rewrite Hl; reflexivity).
  - replace (parseMSField h "cd") with (Some (CooldownUntil e)).
    + unfold sharedOf. rewrite (wrap_i64_small (FailureCount e)) by (unfold in_int64, min_int64, max_int64; lia).
      do 2 f_equal.
      * rewrite Hl. change (encode e au "bl") with (if Blacklisted e then Some "1"%string else None).
        now destruct (Blacklisted e).
      * rewrite Hl. change (encode e au "auth") with ((fun p => authText p.1) <$> au).
        destruct au as [[a v]|]; cbn; [|reflexivity]. apply authOf_text; apply E9.
    + unfold parseMSField. rewrite Hl.
      change (encode e au "cd") with (nonzero (CooldownUntil e) (msText (CooldownUntil e))). unfold nonzero.
      destruct (Z.eqb_spec (CooldownUntil e) 0) as [->|]; [reflexivity|]. symmetry. now apply parse_ms.
  - rewrite Hl. change (encode e au "asv") with ((fun p => decimal p.2) <$> au). destruct au as [[a v]|]; cbn; auto.
  - destruct au as [[a v]|]; unfold max_uint64; lia.
  - destruct (fc_counter h e au Hh) as [?|[? _]]; auto.
Qed.

(** ** The local operations on one entry *)

Definition extendCooldown (until : Z) (e : CredentialEntry) : CredentialEntry :=
  if until >? e.(CooldownUntil) then e <| CooldownUntil := until |> else e.

Definition reachesLimit (threshold : Z) (e : CredentialEntry) : bool :=
  (threshold >? 0) && (e.(FailureCount) + 1 >=? threshold) && negb e.(Blacklisted).

Definition failed (threshold : Z) (e : CredentialEntry) : CredentialEntry :=
  let e1 := bumpFailure (e <| FailureCount := e.(FailureCount) + 1 |>) in
  if reachesLimit threshold e then bumpFailure (e1 <| Blacklisted := true |>) else e1.

Definition cleared (e : CredentialEntry) : CredentialEntry :=
  if e.(FailureCount) =? 0 then e else bumpFailure (e <| FailureCount := 0 |>).

Definition restored (runtime models : bool) (e : CredentialEntry) : CredentialEntry :=
  let e := if runtime
           then bumpFailure (e <| CooldownUntil := 0 |> <| Blacklisted := false |> <| FailureCount := 0 |>) else e in
  if models
  then e <| ModelCooldowns := ∅ |> <| ModelCooldownGeneration := wrap_u64 (e.(ModelCooldownGeneration) + 1) |> else e.

Definition recoverable (generation : Z) (cooldown : option Z) (e : CredentialEntry) : bool :=
  e.(Blacklisted) && (e.(FailureGeneration) =? generation) &&
  match cooldown with Some c => e.(CooldownUntil) =? c | None => true end.

Definition recovered (cooldown : option Z) (e : CredentialEntry) : CredentialEntry :=
  let e := match cooldown with Some _ => e <| CooldownUntil := 0 |> | None => e end in
  bumpFailure (e <| Blacklisted := false |> <| FailureCount := 0 |>).

Definition cooledModel (generation : Z) (model : string) (until now : Z) (e : CredentialEntry) : CredentialEntry * bool * bool :=
  if e.(ModelCooldownGeneration) =? generation then
    let pruned := pruneModelCooldowns e.(ModelCooldowns) now in
    if until >? default 0 (pruned !! model) then (e <| ModelCooldowns := <[model := until]> pruned |>, true, true)
    else (e <| ModelCooldowns := pruned |>, true, false)
  else (e, false, false).

(** There is room for one more mutation in every counter. *)
Record room (e : CredentialEntry) : Prop := {
  rm_count : e.(FailureCount) < 2 ^ 53;
  rm_fg : e.(FailureGeneration) + 2 <= max_int64;
  rm_mg : e.(ModelCooldownGeneration) + 1 <= max_int64;
  rm_version : e.(sharedVersion) + 1 <= max_int64;
}.

Lemma bumpFailure_eq e au : healthy e au -> e.(FailureGeneration) + 1 <= max_int64 ->
  bumpFailure e = e <| FailureGeneration := e.(FailureGeneration) + 1 |>.
Proof.
  intros He Hr. unfold bumpFailure. pose proof (he_fg _ _ He). unfold wrap_u64. rewrite Z.mod_small; [reflexivity|].
  unfold max_int64, max_uint64, two64 in *. lia.
Qed.

(** A changed entry stays healthy: the untouched fields carry over. *)
Ltac healthy_tac := match goal with H : healthy _ _ |- _ => destruct H; constructor; cbn; unfold const; auto end.

Lemma deadline_zero : deadline 0.
Proof. exists 0. split; [reflexivity|lia]. Qed.

Lemma deadline_nonneg v : deadline v -> 0 <= v.
Proof. intros (u & -> & Hu). unfold millisecond. lia. Qed.

Lemma deadline_order a b : deadline a -> deadline b -> (a / millisecond >? b / millisecond) = (a >? b).
Proof.
  intros (u & -> & Hu) (v & -> & Hv). rewrite !ms_of, !Z.gtb_ltb. apply eq_true_iff_eq. rewrite !Z.ltb_lt.
  unfold millisecond. lia.
Qed.

Lemma deadline_eq a b : deadline a -> deadline b -> a / millisecond = b / millisecond -> a = b.
Proof. intros (u & -> & Hu) (v & -> & Hv). rewrite !ms_of. now intros ->. Qed.

Lemma ms_number v : deadline v -> tonumber (msText v) = Some (v / millisecond).
Proof. intros H. destruct (deadline_ms _ H) as [_ B]. apply tonumber_small. lia. Qed.

Section Operations.
Context {St : Type} {R : RedisStore St} {ROk : RedisOk St}.
Variables (k : string) (h : gmap string string) (e : CredentialEntry) (au : stored_auth).
Hypothesis Hh : holds h e au.

Lemma holds_lookup f : h !! f = encode e au f.
Proof. apply Hh. Qed.

Lemma holds_healthy : healthy e au.
Proof. apply Hh. Qed.

Lemma op_cooldown until expected : deadline until ->
  (expected = ""%string \/ match au with Some (_, v) => decimal v = expected | None => True end) ->
  triple (St := St) k h (healthOperation k (opCooldown (msText until) expected)) (fun fl h' =>
    fl = (true, until >? e.(CooldownUntil), false, false) /\ holds h' (extendCooldown until e) au /\
    ((until >? e.(CooldownUntil)) = false -> h' = h)).
Proof.
  intros Hu Hx. pose proof holds_healthy as He. cbn [healthOperation]. apply t_get. rewrite holds_lookup.
  change (encode e au "asv") with ((fun p => decimal p.2) <$> au).
  assert (Hg : negb (stringEmpty expected) && match (fun p : CredentialAuthState * Z => decimal p.2) <$> au with
    | Some v => negb (bool_decide (v = expected)) | None => false end = false).
  { unfold stringEmpty. destruct Hx as [->|Hx]; [reflexivity|]. destruct au as [[a v]|]; cbn; [|apply andb_false_r].
    rewrite bool_decide_eq_true_2 by assumption. apply andb_false_r. }
  rewrite Hg. eapply t_num; [apply (cd_number h e au Hh)|]. rewrite ms_number by assumption. cbn [greater].
  apply (t_bind k h _ _ (fun b h1 => b = (until >? CooldownUntil e) /\ h1 = h)).
  { apply t_ret. split; [|reflexivity]. apply deadline_order; [assumption|apply He]. }
  intros b h1 [-> ->]. unfold extendCooldown. destruct (until >? CooldownUntil e) eqn:El.
  - eapply t_bind; [apply (t_set k h "cd" (msText until) (fun _ h1 => h1 = <["cd" := msText until]>%string h)); reflexivity|].
    intros _ h1 ->. apply t_ret. split_and!; [reflexivity| |discriminate]. destruct Hh as [Hl _]. split; [enc|healthy_tac].
    symmetry. apply nonzero_pos. cbn. unfold const. apply Z.gtb_lt in El.
    pose proof (deadline_nonneg _ (he_cooldown _ _ He)). lia.
  - apply t_ret. split_and!; auto.
Qed.

Lemma fg_counter : h !! "fg"%string = Some (decimal (FailureGeneration e)) /\ in_int64 (FailureGeneration e).
Proof.
  rewrite holds_lookup. split; [reflexivity|]. pose proof (he_fg _ _ holds_healthy).
  unfold in_int64, min_int64, max_int64 in *. lia.
Qed.

Lemma in_int64_nonneg v : 0 <= v <= max_int64 -> in_int64 v.
Proof. unfold in_int64, min_int64, max_int64. lia. Qed.

Lemma op_fail threshold : Z.abs threshold <= 2 ^ 53 -> room e ->
  triple (St := St) k h (healthOperation k (opFail (decimal threshold))) (fun fl h' =>
    fl = (true, true, reachesLimit threshold e, false) /\ holds h' (failed threshold e) au).
Proof.
  intros Ht [R1 R2 R3 R4]. pose proof holds_healthy as He. pose proof (he_count _ _ He) as B1. pose proof (he_fg _ _ He) as B2.
  destruct fg_counter as [G1 G2]. destruct Hh as [Hl _]. cbn [healthOperation].
  eapply t_bind; [eapply t_bump with (Q := fun v h1 => v = FailureCount e + 1 /\ h1 = <["fc" := decimal v]>%string h);
    [apply (fc_counter h e au Hh)|apply in_int64_nonneg; unfold max_int64; lia|auto]|].
  intros count h1 [-> ->].
  eapply t_bind; [eapply t_bump with (v := FailureGeneration e) (Q := fun v h1 => h1 =
      <["fg" := decimal (FailureGeneration e + 1)]> (<["fc" := decimal (FailureCount e + 1)]> h)%string);
    [right; split; [now rewrite lookup_insert_ne by discriminate|assumption]|apply in_int64_nonneg; lia|auto]|].
  intros _ h1 ->. apply t_number; [assumption|]. apply t_get. do 2 rewrite lookup_insert_ne by discriminate. rewrite Hl.
  change (encode e au "bl") with (if Blacklisted e then Some "1"%string else None). rewrite dbl_small by lia.
  assert (Eb : bool_decide ((if Blacklisted e then Some "1"%string else None) = Some "1"%string) = Blacklisted e)
    by (now destruct (Blacklisted e)).
  rewrite Eb. unfold failed. fold (reachesLimit threshold e).
  rewrite (bumpFailure_eq (e <| FailureCount := FailureCount e + 1 |>) au) by (healthy_tac || cbn; unfold const; lia).
  cbn [FailureGeneration set]. unfold const. destruct (reachesLimit threshold e) eqn:El.
  - eapply t_bind; [apply t_set with (Q := fun _ h1 => h1 = <["bl" := "1"]>
      (<["fg" := decimal (FailureGeneration e + 1)]> (<["fc" := decimal (FailureCount e + 1)]> h))%string); reflexivity|].
    intros _ h1 ->. eapply t_bind; [eapply t_bump with (v := FailureGeneration e + 1) (Q := fun v h1 => h1 =
      <["fg" := decimal (FailureGeneration e + 1 + 1)]> (<["bl" := "1"]> (<["fg" := decimal (FailureGeneration e + 1)]>
        (<["fc" := decimal (FailureCount e + 1)]> h)))%string); [right|apply in_int64_nonneg; lia|auto]|].
    { split; [rewrite lookup_insert_ne by discriminate; apply lookup_insert_eq|apply in_int64_nonneg; lia]. }
    intros _ h1 ->. apply t_ret. split; [reflexivity|].
    rewrite (bumpFailure_eq _ au) by (healthy_tac || cbn; unfold const; lia). split; [enc|healthy_tac; lia].
    symmetry. apply nonzero_pos. cbn. unfold const. lia.
  - apply t_ret. split; [reflexivity|]. split; [enc|healthy_tac; lia]. symmetry. apply nonzero_pos. cbn. unfold const. lia.
Qed.

(** One more failure generation, after other writes. *)
Lemma t_bump_fg {B} h1 (g : Z -> Script St B) Q : room e -> h1 !! "fg"%string = Some (decimal (FailureGeneration e)) ->
  triple k (<["fg" := decimal (FailureGeneration e + 1)]>%string h1) (g (FailureGeneration e + 1)) Q ->
  triple k h1 (let! v := bump k "fg" in g v) Q.
Proof.
  intros Hr Hf Hg. pose proof (he_fg _ _ holds_healthy) as B2. pose proof (rm_fg _ Hr) as R2.
  eapply t_bind; [eapply t_bump with (v := FailureGeneration e) (Q := fun v h2 => v = FailureGeneration e + 1 /\
    h2 = <["fg" := decimal (FailureGeneration e + 1)]>%string h1);
    [right; split; [assumption|apply in_int64_nonneg; lia]|apply in_int64_nonneg; lia|auto]|].
  now intros v h2 [-> ->].
Qed.

Lemma t_dels_then {B} h1 names (g : Script St B) Q : triple k (dels names h1) g Q -> triple k h1 (do! HDELs k names in g) Q.
Proof. intros H. eapply t_bind; [apply t_dels with (Q := fun _ h2 => h2 = dels names h1); reflexivity|]. now intros _ h2 ->. Qed.

Lemma op_clear : room e ->
  triple (St := St) k h (healthOperation k opClearFailure) (fun fl h' =>
    fl = (true, negb (FailureCount e =? 0), false, false) /\ holds h' (cleared e) au /\ (FailureCount e = 0 -> h' = h)).
Proof.
  intros Hr. pose proof holds_healthy as He. pose proof Hh as [Hl _]. cbn [healthOperation].
  eapply t_num; [apply (fc_number h e au Hh)|]. unfold cleared. destruct (Z.eqb_spec (FailureCount e) 0) as [E|E].
  - rewrite bool_decide_eq_true_2 by congruence. cbn [negb]. apply t_ret. auto.
  - rewrite bool_decide_eq_false_2 by congruence. cbn [negb]. apply t_dels_then, t_bump_fg; auto.
    { cbn. rewrite lookup_delete_ne, Hl by discriminate. reflexivity. }
    apply t_ret. split_and!; [reflexivity| |congruence].
    rewrite (bumpFailure_eq _ au) by (healthy_tac || (cbn; unfold const; pose proof (rm_fg _ Hr)); lia).
    pose proof (rm_fg _ Hr). cbn [dels foldl]. split; [enc|healthy_tac; lia].
Qed.

Lemma op_clear_cooldown expected : deadline expected ->
  triple (St := St) k h (healthOperation k (opClearCooldownIfMatch (msText expected))) (fun fl h' =>
    fl = (e.(CooldownUntil) =? expected, e.(CooldownUntil) =? expected, false, false) /\
    holds h' (if e.(CooldownUntil) =? expected then e <| CooldownUntil := 0 |> else e) au /\
    ((e.(CooldownUntil) =? expected) = false -> h' = h)).
Proof.
  intros Hx. pose proof holds_healthy as He. pose proof Hh as [Hl _]. cbn [healthOperation].
  eapply t_num; [apply (cd_number h e au Hh)|]. rewrite ms_number by assumption.
  destruct (Z.eqb_spec (CooldownUntil e) expected) as [E|E].
  - rewrite bool_decide_eq_true_2 by congruence. cbn [negb]. apply t_dels_then, t_ret. split_and!; [reflexivity| |discriminate].
    cbn [dels foldl]. split; [enc|healthy_tac]. apply deadline_zero.
  - rewrite bool_decide_eq_false_2; [apply t_ret; auto|]. intros [= H]. apply deadline_eq in H; auto. apply He.
Qed.

Lemma op_recover generation cooldown : room e -> 0 <= generation -> match cooldown with Some c => deadline c | None => True end ->
  triple (St := St) k h (healthOperation k (opRecoverIfMatch (decimal generation)
      (match cooldown with Some c => msText c | None => ""%string end))) (fun fl h' =>
    let ok := recoverable generation cooldown e in
    fl = (ok, ok, false, false) /\ holds h' (if ok then recovered cooldown e else e) au /\ (ok = false -> h' = h)).
Proof.
  intros Hr Hg Hx. pose proof holds_healthy as He. pose proof Hh as [Hl _]. cbn [healthOperation]. apply t_get, t_get.
  set (ct := match cooldown with Some c => msText c | None => ""%string end).
  apply (t_bind k h _ _ (fun b h1 => b = match cooldown with Some c => negb (CooldownUntil e =? c) | None => false end /\ h1 = h)).
  { subst ct. destruct cooldown as [c|]; [|now apply t_ret]. unfold stringEmpty.
    rewrite (proj2 (String.eqb_neq _ _)) by apply decimal_nonempty. cbn [negb].
    eapply t_num; [apply (cd_number h e au Hh)|]. apply t_ret. split; [|reflexivity]. f_equal. rewrite ms_number by assumption.
    apply eq_true_iff_eq. rewrite bool_decide_eq_true, Z.eqb_eq. split; [|congruence]. intros [= H].
    apply deadline_eq in H; auto. apply He. }
  intros b h1 [-> ->]. rewrite !Hl.
  change (encode e au "bl") with (if Blacklisted e then Some "1"%string else None).
  change (encode e au "fg") with (Some (decimal (FailureGeneration e))).
  assert (Eg : negb (bool_decide ((if Blacklisted e then Some "1"%string else None) = Some "1"%string)) ||
    negb (bool_decide (Some (decimal (FailureGeneration e)) = Some (decimal generation))) ||
    match cooldown with Some c => negb (CooldownUntil e =? c) | None => false end = negb (recoverable generation cooldown e)).
  { unfold recoverable. rewrite !negb_andb. f_equal; [f_equal|].
    - now destruct (Blacklisted e).
    - f_equal. apply eq_true_iff_eq. rewrite bool_decide_eq_true, Z.eqb_eq. split; [|congruence].
      intros [= H]. now apply decimal_inj.
    - now destruct cooldown. }
  rewrite Eg. cbn zeta. destruct (recoverable generation cooldown e) eqn:Eok; cbn [negb]; [|apply t_ret; auto].
  eapply t_bind; [instantiate (1 := fun _ h2 => h2 = match cooldown with Some _ => delete "cd"%string h | None => h end)|].
  { subst ct. destruct cooldown as [c|]; [|now apply t_ret]. unfold stringEmpty.
    rewrite (proj2 (String.eqb_neq _ _)) by apply decimal_nonempty. cbn [negb]. now apply t_dels. }
  intros _ h2 ->. apply t_dels_then, t_bump_fg; auto.
  { cbn [dels foldl]. rewrite !lookup_delete_ne by discriminate. destruct cooldown; rewrite ?lookup_delete_ne by discriminate; apply Hl. }
  apply t_ret. split_and!; [reflexivity| |discriminate]. unfold recovered. pose proof (rm_fg _ Hr).
  rewrite (bumpFailure_eq _ au); [|destruct cooldown; healthy_tac; try lia; apply deadline_zero|destruct cooldown; cbn; unfold const; lia].
  cbn [dels foldl]. destruct cooldown; (split; [enc|healthy_tac; try lia; apply deadline_zero]).
Qed.

Lemma op_auth a v : authStateValid a = true -> a <> authStateUnset -> 0 <= v <= 2 ^ 53 -> v = Version e ->
  match au with Some (_, v0) => v0 <= v | None => True end ->
  triple (St := St) k h (healthOperation k (opAuth (authText a) (decimal v) "" "")) (fun fl h' =>
    (exists chg, fl = (true, chg, false, true)) /\ holds h' (setEntryAuthState e a) (Some (a, v))).
Proof.
  intros Ha Hn Hv Hver Hold. pose proof holds_healthy as He. pose proof Hh as [Hl _]. cbn [healthOperation].
  apply t_get, t_get, t_get. cbn [stringEmpty String.eqb negb andb]. rewrite !Hl.
  change (encode e au "asv") with ((fun p => decimal p.2) <$> au).
  assert (Ea : normalize a = a) by (unfold normalize; now rewrite bool_decide_eq_false_2).
  assert (Hs : forall h', (forall f, h' !! f = encode e (Some (a, v)) f) -> holds h' (setEntryAuthState e a) (Some (a, v))).
  { intros h' H. unfold setEntryAuthState. cbn. unfold const. split.
    - intros f. rewrite H. case_bool_decide; reflexivity.
    - case_bool_decide; healthy_tac; cbn; split_and!; auto; lia. }
  eapply t_bind; [instantiate (1 := fun b h1 => b = false /\ h1 = h)|].
  { destruct au as [[a0 v0]|]; cbn; [|now apply t_ret]. pose proof (he_auth _ _ He) as (_ & _ & B & _).
    rewrite !tonumber_small by lia. apply t_ret. split; [|reflexivity]. rewrite Z.gtb_ltb. apply Z.ltb_ge. lia. }
  intros b h1 [-> ->]. apply t_get. rewrite Hl. change (encode e au "auth") with ((fun p => authText p.1) <$> au).
  match goal with |- triple _ _ (if ?c then _ else _) _ => destruct c eqn:Ec end.
  - eapply t_bind; [instantiate (1 := fun _ h1 => h1 = <["asv" := decimal v]> (<["auth" := authText a]> h)%string)|].
    { intros s0 Hs0. eexists _, tt. split; [reflexivity|]. rewrite !HSET_ok, Hs0. split; [reflexivity|].
      intros k' Hk. now rewrite !QuotaStoreProps.HSET_other. }
    intros _ h1 ->. apply t_ret. split; [eauto|]. apply Hs. enc.
  - apply t_ret. split; [eauto|]. apply Hs. intros f. rewrite Hl.
    apply orb_false_iff in Ec as [E1%negb_false_iff%bool_decide_eq_true E2%negb_false_iff%bool_decide_eq_true].
    destruct au as [[a0 v0]|]; cbn in E1, E2; [|discriminate]. injection E2 as E2%decimal_inj. subst v0.
    injection E1 as E1. pose proof (he_auth _ _ He) as (V1 & V2 & _).
    assert (a0 = a) as -> by (rewrite <- (authOf_text a0), <- (authOf_text a) by assumption; congruence). reflexivity.
Qed.

(** The script refuses a cooldown guarded by another secret version than the stored auth
    state has, and an auth state older than the stored one; the record stays as it is. *)
Lemma op_cooldown_refused until expected a v : au = Some (a, v) -> expected <> ""%string -> decimal v <> expected ->
  triple (St := St) k h (healthOperation k (opCooldown until expected)) (fun fl h' =>
    fl = (false, false, false, false) /\ h' = h).
Proof.
  intros Ha Hx Hv. cbn [healthOperation]. apply t_get. rewrite holds_lookup.
  change (encode e au "asv") with ((fun p => decimal p.2) <$> au). rewrite Ha. cbn.
  unfold stringEmpty. rewrite (proj2 (String.eqb_neq _ _) Hx), bool_decide_eq_false_2 by assumption. now apply t_ret.
Qed.

Lemma op_auth_refused t v a v0 : au = Some (a, v0) -> 0 <= v <= 2 ^ 53 -> v < v0 ->
  triple (St := St) k h (healthOperation k (opAuth t (decimal v) "" "")) (fun fl h' =>
    fl = (false, false, false, false) /\ h' = h).
Proof.
  intros Ha Hv Hlt. pose proof (he_auth _ _ holds_healthy) as B. rewrite Ha in B. destruct B as (_ & _ & B & _).
  cbn [healthOperation]. apply t_get, t_get, t_get. cbn [stringEmpty String.eqb negb andb]. rewrite !holds_lookup.
  change (encode e au "asv") with ((fun p => decimal p.2) <$> au). rewrite Ha. cbn.
  eapply t_bind; [instantiate (1 := fun b h1 => b = true /\ h1 = h)|].
  { rewrite !tonumber_small by lia. apply t_ret. split; [|reflexivity]. rewrite Z.gtb_ltb. apply Z.ltb_lt. lia. }
  intros b h1 [-> ->]. now apply t_ret.
Qed.

Lemma isModelField_spec f : isModelField f = true <-> exists m, f = modelField m.
Proof.
  unfold isModelField. destruct (cutModel f) as [m|] eqn:E.
  - apply cutModel_spec in E. split; eauto.
  - split; [discriminate|]. intros [m ->]. discriminate.
Qed.

Lemma t_clear_models {B} h1 (g : Script St B) Q :
  (forall h2, (forall f, h2 !! f = if isModelField f then None else h1 !! f) -> triple k h2 g Q) ->
  triple k h1 (do! clear_model_cooldowns k in g) Q.
Proof.
  intros H. eapply t_bind with (Q1 := fun _ h2 => forall f, h2 !! f = if isModelField f then None else h1 !! f); [|intros; now apply H].
  unfold clear_model_cooldowns. intros s Hs.
  destruct (HDELs_hash (List.filter isModelField (map fst (HGETALL s k))) k s) as [E F].
  eexists _, tt. split; [reflexivity|]. split; [|assumption]. intros f. rewrite E, dels_lookup, Hs.
  assert (Hin : f ∈ List.filter isModelField (map fst (HGETALL s k)) <-> isModelField f = true /\ is_Some (h1 !! f)).
  { rewrite list_elem_of_In, filter_In, in_map_iff. split.
    - intros [([f' v] & Ef & Hin) Hm]. split; [assumption|]. cbn in Ef. subst f'.
      apply list_elem_of_In in Hin. rewrite (HGETALL_ok s k), Hs in Hin. apply elem_of_map_to_list in Hin. eauto.
    - intros [Hm [v Hv]]. split; [|assumption]. exists (f, v). split; [reflexivity|]. apply list_elem_of_In.
      rewrite (HGETALL_ok s k), Hs. now apply elem_of_map_to_list. }
  case_decide as Hd; destruct (isModelField f) eqn:Em; auto; [now apply Hin in Hd|].
  destruct (h1 !! f) eqn:Eh; [|reflexivity]. exfalso. apply Hd, Hin. eauto.
Qed.

Lemma encode_no_models e1 au1 f :
  (if isModelField f then None else encode e1 au1 f) = encode (e1 <| ModelCooldowns := ∅ |>) au1 f.
Proof.
  destruct (isModelField f) eqn:E.
  - apply isModelField_spec in E as [m ->]. rewrite encode_model. cbn. unfold const. now rewrite lookup_empty.
  - unfold encode, isModelField in *. cbn. unfold const. destruct (cutModel f); [discriminate|]. reflexivity.
Qed.

Lemma op_restore runtime models : room e ->
  triple (St := St) k h (healthOperation k (opRestore (formatFlag runtime) (formatFlag models))) (fun fl h' =>
    fl = (true, true, false, false) /\ holds h' (restored runtime models e) au).
Proof.
  intros Hr. pose proof holds_healthy as He. pose proof Hh as [Hl _]. cbn [healthOperation].
  pose proof (rm_fg _ Hr) as R2. pose proof (rm_mg _ Hr) as R3.
  set (e1 := if runtime then bumpFailure (e <| CooldownUntil := 0 |> <| Blacklisted := false |> <| FailureCount := 0 |>) else e).
  eapply t_bind with (Q1 := fun _ h1 => holds h1 e1 au /\ ModelCooldownGeneration e1 = ModelCooldownGeneration e).
  { subst e1. destruct runtime; cbn [formatFlag String.eqb]; [|now apply t_ret].
    apply t_dels_then, t_bump_fg; auto.
    { cbn [dels foldl]. rewrite !lookup_delete_ne by discriminate. apply Hl. }
    apply t_ret. split; [|reflexivity].
    rewrite (bumpFailure_eq _ au); [|healthy_tac; try lia; apply deadline_zero|cbn; unfold const; lia].
    cbn [dels foldl]. split; [enc|healthy_tac; try lia; apply deadline_zero]. }
  intros _ h1 [[Hl1 He1] Emg]. unfold restored. fold e1.
  destruct models; cbn [formatFlag String.eqb]; [|eapply t_bind; [apply t_ret with (Q := fun _ h2 => h2 = h1); reflexivity|];
    intros _ h2 ->; now apply t_ret].
  pose proof (he_mg _ _ He) as B3. rewrite Emg. unfold wrap_u64. rewrite Z.mod_small by (unfold max_int64, two64 in *; lia).
  set (e2 := e1 <| ModelCooldowns := ∅ |> <| ModelCooldownGeneration := ModelCooldownGeneration e + 1 |>).
  apply (t_bind k h1 _ _ (fun _ h3 => forall f, h3 !! f = encode e2 au f)).
  - apply t_clear_models. intros h2 H2.
    assert (Hl2 : forall f, h2 !! f = encode (e1 <| ModelCooldowns := ∅ |>) au f)
      by (intros f; rewrite H2, Hl1; apply encode_no_models).
    eapply t_bind; [eapply t_bump with (v := ModelCooldownGeneration e) (Q := fun _ h3 => h3 =
      <["mg" := decimal (ModelCooldownGeneration e + 1)]>%string h2); [right|apply in_int64_nonneg; lia|auto]|].
    { rewrite Hl2, <- Emg. split; [reflexivity|apply in_int64_nonneg; lia]. }
    intros _ h3 ->. apply t_ret. subst e2. clear Hl Hl1. enc.
  - intros _ h3 H3. apply t_ret. split; [reflexivity|]. split; [exact H3|]. subst e2. healthy_tac; [lia|].
    intros m v. now rewrite lookup_empty.
Qed.

Definition expired (n : Z) (p : string * string) : bool :=
  isModelField p.1 && negb (match tonumber p.2 with Some d => d >? n | None => false end).

Lemma t_prune n l : forall h1,
  (forall f t, In (f, t) l -> isModelField f = true -> exists v, deadline v /\ t = msText v) ->
  triple (St := St) k h1 (pruneFields k (Some n) l) (fun b h2 =>
    h2 = dels (map fst (List.filter (expired n) l)) h1 /\ b = existsb (expired n) l).
Proof.
  induction l as [|[f t] l IH]; intros h1 Hd; cbn [pruneFields]; [now apply t_ret|].
  apply (t_bind k h1 _ _ (fun b h2 => b = expired n (f, t) /\ h2 = h1)).
  { unfold expired. cbn [fst snd]. destruct (isModelField f) eqn:Em; [|now apply t_ret].
    destruct (Hd f t ltac:(now left) Em) as (v & Hv & ->). rewrite ms_number by assumption. cbn [greater].
    apply (t_bind k h1 _ _ (fun b h2 => b = (v / millisecond >? n) /\ h2 = h1)); [now apply t_ret|].
    intros b h2 [-> ->]. now apply t_ret. }
  intros b h2 [-> ->]. apply (t_bind k h1 _ _ (fun _ h2 => h2 = if expired n (f, t) then delete f h1 else h1)).
  { destruct (expired n (f, t)); [now apply t_dels|now apply t_ret]. }
  intros _ h2 ->. eapply t_bind; [apply IH; intros f' t' Hin; apply Hd; now right|]. intros rest h3 [-> ->]. apply t_ret.
  cbn [List.filter existsb]. split; [|reflexivity]. now destruct (expired n (f, t)).
Qed.

Lemma encode_prune now f l : Permutation l (map_to_list h) -> 0 <= now ->
  dels (map fst (List.filter (expired (now / millisecond)) l)) h !! f =
    encode (e <| ModelCooldowns := pruneModelCooldowns e.(ModelCooldowns) now |>) au f.
Proof.
  intros Hp Hn. rewrite dels_lookup. pose proof holds_healthy as He.
  assert (Hin : f ∈ map fst (List.filter (expired (now / millisecond)) l) <->
    exists m v, f = modelField m /\ ModelCooldowns e !! m = Some v /\ ~ v > now).
  { rewrite list_elem_of_In, in_map_iff. setoid_rewrite filter_In. unfold expired. split.
    - intros ([f' t] & <- & Hin & Hx). cbn [fst snd] in *. apply andb_true_iff in Hx as [[m ->]%isModelField_spec Hx].
      apply list_elem_of_In in Hin. rewrite Hp in Hin. apply elem_of_map_to_list in Hin.
      rewrite holds_lookup, encode_model in Hin. destruct (ModelCooldowns e !! m) as [v|] eqn:Ev; [|discriminate].
      injection Hin as <-. exists m, v. split_and!; auto. destruct (he_models _ _ He m v Ev) as [Hd _].
      rewrite ms_number in Hx by assumption. destruct Hd as (u & -> & Hu). rewrite ms_of in Hx.
      apply negb_true_iff in Hx. rewrite Z.gtb_ltb, Z.ltb_ge in Hx. pose proof (Z.mul_div_le now millisecond ltac:(reflexivity)).
      unfold millisecond in *. lia.
    - intros (m & v & -> & Ev & Hx). exists (modelField m, msText v). destruct (he_models _ _ He m v Ev) as [Hd _].
      split_and!; [reflexivity| |].
      + apply list_elem_of_In. rewrite Hp. apply elem_of_map_to_list. now rewrite holds_lookup, encode_model, Ev.
      + cbn [fst snd]. change (isModelField (modelField m)) with true. rewrite ms_number by assumption. cbn [andb].
        apply negb_true_iff. rewrite Z.gtb_ltb. apply Z.ltb_ge. apply Z.div_le_mono; [reflexivity|lia]. }
  destruct (isModelField f) eqn:Em.
  - apply isModelField_spec in Em as [m ->]. rewrite encode_model. cbn [ModelCooldowns set]. unfold const, pruneModelCooldowns.
    destruct (ModelCooldowns e !! m) as [v|] eqn:Ev.
    + destruct (he_models _ _ He m v Ev) as [Hd Hne]. case_decide as Hx.
      * apply Hin in Hx as (m' & v' & [= <-] & Ev' & Hx). rewrite Ev in Ev'. injection Ev' as <-.
        rewrite (proj2 (map_lookup_filter_None _ _ _)); [reflexivity|]. right. intros v0 E0 [_ H0]. cbn in H0. congruence.
      * rewrite holds_lookup, encode_model, Ev. rewrite (proj2 (map_lookup_filter_Some _ _ m v)); [reflexivity|].
        split; [exact Ev|]. cbn. split; [assumption|]. destruct (Z_gt_dec v now); [assumption|]. destruct Hx. apply Hin. eauto.
    + rewrite (proj2 (map_lookup_filter_None _ _ _)) by (now left). cbn. case_decide; [reflexivity|].
      now rewrite holds_lookup, encode_model, Ev.
  - rewrite decide_False.
    + rewrite holds_lookup. unfold encode, isModelField in *. cbn. unfold const. destruct (cutModel f); [discriminate|reflexivity].
    + intros Hx. apply Hin in Hx as (m & v & -> & _). discriminate Em.
Qed.

Lemma prune_healthy now : healthy (e <| ModelCooldowns := pruneModelCooldowns e.(ModelCooldowns) now |>) au.
Proof.
  pose proof holds_healthy as He. healthy_tac. intros m v Hv. apply map_lookup_filter_Some in Hv as [Hv _]. auto.
Qed.

Lemma op_model generation model until now : deadline until -> 0 <= now <= 2 ^ 53 * millisecond -> model <> ""%string ->
  triple (St := St) k h (healthOperation k (opModelCooldown model (msText until) (msText now) (decimal generation))) (fun fl h' =>
    let '(e', acc, chg) := cooledModel generation model until now e in
    exists mut, fl = (acc, chg, false, mut) /\ holds h' e' au /\ (chg || mut = false -> h' = h)).
Proof.
  intros Hu Hn Hm. pose proof holds_healthy as He. cbn [healthOperation]. apply t_get. rewrite holds_lookup.
  change (encode e au "mg") with (Some (decimal (ModelCooldownGeneration e))). unfold cooledModel.
  destruct (Z.eqb_spec (ModelCooldownGeneration e) generation) as [Eg|Eg].
  2: { rewrite bool_decide_eq_false_2 by (intros [= H]; apply decimal_inj in H; congruence). apply t_ret. eauto. }
  rewrite bool_decide_eq_true_2 by congruence. cbn [negb]. apply t_getall. intros l Hp.
  assert (Hnow : tonumber (msText now) = Some (now / millisecond)).
  { apply tonumber_small. unfold millisecond in *. pose proof (Z.div_le_upper_bound now 1000000 (2 ^ 53) ltac:(lia) ltac:(lia)).
    pose proof (Z.div_pos now 1000000 ltac:(lia) ltac:(lia)). lia. }
  rewrite Hnow. eapply t_bind; [apply t_prune|].
  { intros f t Hin [m ->]%isModelField_spec. apply list_elem_of_In in Hin. rewrite Hp in Hin. apply elem_of_map_to_list in Hin.
    rewrite holds_lookup, encode_model in Hin. destruct (ModelCooldowns e !! m) as [v|] eqn:Ev; [|discriminate].
    injection Hin as <-. exists v. split; [now apply (he_models _ _ He m)|reflexivity]. }
  intros mut h2 [-> ->]. set (h2 := dels _ h). set (pruned := pruneModelCooldowns (ModelCooldowns e) now).
  assert (Hl2 : forall f, h2 !! f = encode (e <| ModelCooldowns := pruned |>) au f) by (intros f; apply encode_prune; [assumption|lia]).
  pose proof (prune_healthy now) as He2. fold pruned in He2.
  assert (Hcur : deadline (default 0 (pruned !! model)) /\
    tonumber (default "0"%string (h2 !! modelField model)) = Some (default 0 (pruned !! model) / millisecond)).
  { rewrite Hl2, encode_model. cbn [ModelCooldowns set]. unfold const. destruct (pruned !! model) as [v|] eqn:Ev; cbn.
    - assert (Hd : deadline v) by (apply (he_models _ _ He2 model); exact Ev). split; [assumption|now apply ms_number].
    - split; [apply deadline_zero|reflexivity]. }
  destruct Hcur as [Hdl Hcur]. eapply t_num; [exact Hcur|]. rewrite ms_number by assumption. cbn [greater].
  apply (t_bind k h2 _ _ (fun b h3 => b = (until >? default 0 (pruned !! model)) /\ h3 = h2)).
  { apply t_ret. split; [|reflexivity]. now apply deadline_order. }
  intros b h3 [-> ->]. destruct (until >? default 0 (pruned !! model)).
  - eapply t_bind; [apply t_set with (Q := fun _ h3 => h3 = <[modelField model := msText until]> h2); reflexivity|].
    intros _ h3 ->. apply t_ret. eexists. split_and!; [reflexivity| |discriminate]. split.
    + intros f. destruct (decide (f = modelField model)) as [->|Hne].
      * rewrite lookup_insert_eq, encode_model. cbn [ModelCooldowns set]. unfold const. now rewrite lookup_insert_eq.
      * rewrite lookup_insert_ne, Hl2 by congruence. unfold encode. cbn. unfold const.
        destruct (cutModel f) as [m|] eqn:Ec; [|reflexivity]. apply cutModel_spec in Ec as ->.
        rewrite lookup_insert_ne by congruence. reflexivity.
    + clear He. healthy_tac. intros m v [[<- <-]|[_ Hv]]%lookup_insert_Some; [auto|]. now apply he_models0.
  - apply t_ret. eexists. split_and!; [reflexivity|split; assumption|]. cbn [orb]. intros Hx. subst h2.
    replace (List.filter (expired (now / millisecond)) l) with (@nil (string * string)); [reflexivity|].
    clear - Hx. induction l as [|p l IH]; [reflexivity|]. cbn in *. apply orb_false_iff in Hx as [-> Hx]. auto.
Qed.

End Operations.

(** ** The whole script *)

(** Nothing recorded and nothing mirrored. *)
Record pristine (e : CredentialEntry) : Prop := {
  pr_epoch : e.(sharedEpoch) = ""%string;
  pr_cooldown : e.(CooldownUntil) = 0;
  pr_blacklisted : e.(Blacklisted) = false;
  pr_count : e.(FailureCount) = 0;
  pr_fg : e.(FailureGeneration) = 0;
  pr_mg : e.(ModelCooldownGeneration) = 0;
  pr_models : e.(ModelCooldowns) = ∅;
}.

(** The record of an entry: its health, or nothing yet, or the health of an identity
    the entry had before. *)
Inductive mirrors (h : gmap string string) (e : CredentialEntry) : stored_auth -> Prop :=
| mirrors_current au : holds h e au -> mirrors h e au
| mirrors_none : h = ∅ -> pristine e -> 0 <= e.(IdentityGeneration) <= max_uint64 -> mirrors h e None
| mirrors_other eo auo : holds h eo auo -> eo.(IdentityGeneration) <> e.(IdentityGeneration) -> pristine e ->
    0 <= e.(IdentityGeneration) <= max_uint64 -> mirrors h e None.

Definition stamp (ep : string) (v : Z) (e : CredentialEntry) : CredentialEntry :=
  e <| sharedEpoch := ep |> <| sharedVersion := v |>.

Lemma stamp_same e : stamp (sharedEpoch e) (sharedVersion e) e = e.
Proof. now destruct e. Qed.

Lemma pristine_encode e ep v f : pristine e -> encode (stamp ep v e) None f =
  if decide (f = "ep"%string) then Some ep else if decide (f = "ver"%string) then Some (decimal v)
  else if decide (f = "idg"%string) then Some (decimal (IdentityGeneration e))
  else if decide (f = "fg"%string) then Some "0"%string else if decide (f = "mg"%string) then Some "0"%string else None.
Proof.
  intros [P1 P2 P3 P4 P5 P6 P7]. unfold encode, stamp. cbn. unfold const. rewrite P2, P3, P4, P5, P6, P7.
  repeat case_decide; try congruence; subst; try reflexivity. destruct (cutModel f); reflexivity.
Qed.

Lemma pristine_healthy e ep v : pristine e -> ep <> ""%string -> 0 <= v <= max_int64 ->
  0 <= e.(IdentityGeneration) <= max_uint64 -> healthy (stamp ep v e) None.
Proof.
  intros [P1 P2 P3 P4 P5 P6 P7] He Hv Hi. constructor; cbn; unfold const; rewrite ?P2, ?P4, ?P5, ?P6, ?P7; auto;
    try (unfold max_int64; lia); [apply deadline_zero|]. intros m v'. now rewrite lookup_empty.
Qed.

Section Script.
Context {St : Type} {R : RedisStore St} {ROk : RedisOk St}.
Variable k : string.

(** The version a record had, and the version after one more write. *)
Definition versionOf (h : gmap string string) : Z :=
  match h !! "ver"%string with Some t => default 0 (parseUint t) | None => 0 end.

Lemma versionOf_holds h e au : holds h e au -> versionOf h = sharedVersion e.
Proof.
  intros [Hl He]. unfold versionOf. rewrite Hl. change (encode e au "ver") with (Some (decimal (sharedVersion e))).
  cbn. rewrite decimal_parseUint; [reflexivity|]. pose proof (he_version _ _ He). unfold max_int64, max_uint64 in *. lia.
Qed.

(** Creating or keeping [ep]. *)
Lemma t_create {B} h ep (g : bool -> Script St B) Q :
  match h !! "ep"%string with
  | None => triple k (<["ep" := ep]>%string h) (g true) Q
  | Some _ => triple k h (g false) Q
  end ->
  triple k h (let! c := call (fun s => let '(s, b) := HSETNX s k "ep" ep in (s, Some b)) in g c) Q.
Proof.
  intros H s Hs. unfold bind, call. rewrite HSETNX_ok, Hs. destruct (h !! "ep"%string).
  - exact (H s Hs).
  - destruct (H (HSET s k "ep" ep)) as (s' & b & E & HQ & F); [now rewrite HSET_ok, Hs|]. exists s', b. split_and!; auto.
    intros k' Hk. rewrite F by assumption. now apply QuotaStoreProps.HSET_other.
Qed.

Definition prologue_post (h : gmap string string) (e : CredentialEntry) (epoch : string) (au : stored_auth)
    (reset : bool) (h1 : gmap string string) : Prop :=
  exists ep v, holds h1 (stamp ep v e) au /\ v = versionOf h /\ ep = default epoch (h !! "ep"%string) /\
    (reset = false -> h1 = h /\ e = stamp ep v e).

Lemma t_write_sets h (l : list (string * string)) (Q : unit -> gmap string string -> Prop) :
  Q tt (foldl (fun h p => <[p.1 := p.2]> h) h l) ->
  triple (St := St) k h (write (fun s => foldl (fun s p => HSET s k p.1 p.2) s l)) Q.
Proof.
  intros HQ s Hs. eexists _, tt. split; [reflexivity|].
  assert (G : forall s, hashOf (foldl (fun s p => HSET s k p.1 p.2) s l) k = foldl (fun h p => <[p.1 := p.2]> h) (hashOf s k) l /\
    (forall k', k' <> k -> hashOf (foldl (fun s p => HSET s k p.1 p.2) s l) k' = hashOf s k')).
  { clear - ROk. induction l as [|[f v] l IH]; intros s; cbn [foldl]; [auto|]. destruct (IH (HSET s k f v)) as [E F].
    cbn [fst snd]. rewrite E, HSET_ok. split; [reflexivity|]. intros k' Hk. rewrite F by assumption. now apply QuotaStoreProps.HSET_other. }
  destruct (G s) as [E F]. rewrite E, Hs. auto.
Qed.

Lemma t_prologue h e au epoch : mirrors h e au -> epoch <> ""%string ->
  triple (St := St) k h (healthPrologue k (decimal (IdentityGeneration e)) epoch) (prologue_post h e epoch au).
Proof.
  intros Hm Hep. unfold healthPrologue. apply t_create. destruct Hm as [au Hh| -> Hp Hi|eo auo Hh Hne Hp Hi].
  - pose proof Hh as [Hl He]. rewrite Hl. change (encode e au "ep") with (Some (sharedEpoch e)). cbn iota.
    apply t_get. rewrite Hl. change (encode e au "idg") with (Some (decimal (IdentityGeneration e))).
    rewrite bool_decide_eq_true_2 by reflexivity. apply t_ret. exists (sharedEpoch e), (sharedVersion e).
    rewrite stamp_same, (versionOf_holds h e au Hh). split_and!; auto. now rewrite Hl.
  - rewrite lookup_empty. cbn iota.
    apply (t_bind k _ _ _ (fun _ h1 => h1 = <["mg" := "0"]> (<["fg" := "0"]> (<["idg" := decimal (IdentityGeneration e)]>
      (<["ver" := "0"]> (<["ep" := epoch]> ∅))))%string)).
    { apply (t_write_sets _ [("ver", "0"); ("idg", decimal (IdentityGeneration e)); ("fg", "0"); ("mg", "0")]%string). reflexivity. }
    intros _ h1 ->. apply t_ret. exists epoch, 0. split_and!; [|reflexivity|reflexivity|discriminate].
    split; [|apply pristine_healthy; auto; unfold max_int64; lia]. intros f. rewrite pristine_encode by assumption.
    enc_at f; rewrite ?lookup_empty; repeat case_decide; congruence.
  - pose proof Hh as [Hl He]. rewrite Hl. change (encode eo auo "ep") with (Some (sharedEpoch eo)). cbn iota.
    apply t_get. rewrite Hl. change (encode eo auo "idg") with (Some (decimal (IdentityGeneration eo))).
    rewrite bool_decide_eq_false_2 by (intros [= H]; apply decimal_inj in H; congruence). cbn [negb].
    apply t_clear_models. intros h2 H2. apply t_dels_then.
    eapply t_bind; [apply (t_write_sets _ [("idg", decimal (IdentityGeneration e)); ("fg", "0"); ("mg", "0")]%string)
      with (Q := fun _ h3 => h3 = <["mg" := "0"]> (<["fg" := "0"]> (<["idg" := decimal (IdentityGeneration e)]>
        (dels ["cd"; "bl"; "fc"; "auth"; "asv"] h2)))%string); reflexivity|].
    intros _ h3 ->. apply t_ret. exists (sharedEpoch eo), (sharedVersion eo). rewrite (versionOf_holds h eo auo Hh).
    split_and!; [|reflexivity|now rewrite Hl|discriminate].
    split; [|apply pristine_healthy; auto; apply He]. intros f. rewrite pristine_encode by assumption. cbn [dels foldl].
    enc_at f.
    rewrite Hl. unfold encode, isModelField. destruct (cutModel f) as [m|] eqn:Ec.
    + apply cutModel_spec in Ec as ->. reflexivity.
    + repeat case_decide; congruence.
Qed.

End Script.

End HealthStoreProps.
