(* ===== verification/HealthAgree.v ===== *)
(** * One health, shared and local

    Each mutation of credential health exists twice: as an operation of the local
    registry and as a script on the shared record.  [runLocal] and [runShared] run the
    two, [applyLocalEffect] and [applySharedEffect] are the two branches of the
    gateway's [applyDecisionEffectWithBlacklistPolicy], and the theorems state that
    they agree: on the entry they leave, on what they report, and on what a peer that
    receives the published record ends up with, up to the whole milliseconds in which
    the store carries deadlines and the two refusals it makes by the version of its
    stored auth state. *)

From Stdlib Require Import ZArith Lia Bool String Ascii List Permutation.
From stdpp Require Import base gmap sets list strings sorting.
From coqutil Require Import Datatypes.RecordSettersUsingExistingGetters.
From S2P Require Import Prelude GoStrings Credential Ledger Registry RegistryFacts Redis Lua QuotaStore HealthStore HealthStoreProps.

Local Open Scope Z_scope.
Local Open Scope go_scope.

Module HealthAgree.
Import Redis Lua LuaNumbers Credential Ledger Registry RegistryFacts HealthStore HealthStoreProps.

Inductive Mutation :=
| MCooldown (until expectedVersion : Z)
| MModel (model : string) (until attemptNow : Z)
| MFail (threshold : Z)
| MClearFailure
| MRestore (runtime models : bool)
| MRecover (cooldown : option Z)
| MClearCooldown (expected : Z)
| MAuth (authState : CredentialAuthState).

(** What a mutation reports: accepted, changed (where the local operation says so)
    and newly blacklisted. *)
Abbreviation verdict := (bool * option bool * bool)%type.

(** ** The local operations *)

(** [IncrFailure] followed by [SetBlacklistedWithChange] at the threshold. *)
Definition recordFailureLocal (now : Z) (r : CredentialRegistry) (id threshold : Z) : CredentialRegistry * verdict :=
  let '(r, (count, ok)) := IncrFailure r id in
  if negb ok then (r, (false, None, false))
  else if (threshold >? 0) && (count >=? threshold) then
    let '(r, (exists_, became)) := SetBlacklistedWithChange now r id in
    (r, (exists_, None, exists_ && became))
  else (r, (true, None, false)).

Definition runLocal (now : Z) (r : CredentialRegistry) (ref : CredentialRef) (m : Mutation) : CredentialRegistry * verdict :=
  let id := ref.(ref_ID) in
  match m with
  | MCooldown until expected =>
    let '(r, (exists_, changed)) :=
      if expected =? 0 then SetCooldownWithChange now r id until
      else SetCooldownWithChangeIfVersion now r id expected until in
    (r, (exists_, Some changed, false))
  | MModel model until attemptNow =>
    let '(r, (accepted, changed)) := SetModelCooldown r ref model until attemptNow in (r, (accepted, Some changed, false))
  | MFail threshold => recordFailureLocal now r id threshold
  | MClearFailure => let '(r, ok) := ClearFailure r id in (r, (ok, None, false))
  | MRestore runtime models =>
    let '(r, ok1) := if runtime then RestoreRuntimeState now r id else (r, true) in
    let '(r, ok2) := if models then ClearModelCooldowns r id else (r, true) in
    (r, (ok1 && ok2, None, false))
  | MRecover None => let '(r, ok) := RecoverIfMatch now r ref in (r, (ok, None, false))
  | MRecover (Some cooldown) => let '(r, ok) := RestoreRuntimeStateIfMatch now r ref cooldown in (r, (ok, None, false))
  | MClearCooldown expected => let '(r, ok) := ClearCooldownIfMatch now r id expected in (r, (ok, None, false))
  | MAuth authState => let '(r, ok) := SetCredentialAuthState now r id authState in (r, (ok, None, false))
  end.

(** ** The shared operations *)

Section Shared.
Context {St : Type} {R : RedisStore St}.

Definition runShared (health : CredentialHealth) (now : Z) (epoch : string) (delivery : QuotaStore.Delivery)
    (ref : CredentialRef) (m : Mutation) (s : St) : Outcome (St := St) :=
  match m with
  | MCooldown until expected => CooldownCredential health now epoch delivery ref until expected s
  | MModel model until attemptNow => CooldownModel health now epoch delivery ref model until attemptNow s
  | MFail threshold => RecordFailure health now epoch delivery ref threshold s
  | MClearFailure => ClearFailureShared health now epoch delivery ref s
  | MRestore runtime models => Restore health now epoch delivery ref runtime models s
  | MRecover cooldown => RecoverIfMatchShared health now epoch delivery ref cooldown s
  | MClearCooldown expected => ClearCooldownIfMatchShared health now epoch delivery ref expected s
  | MAuth authState => SetAuthState health now epoch delivery ref authState ref.(ref_Version) s
  end.

(** ** The gateway's two branches *)

Inductive Effect :=
| EffectCooldownModel (model : string) (until : Z)
| EffectCooldownCredential (until : Z)
| EffectRecordCredentialFailure
| EffectOther.

Definition mutationOf (eff : Effect) (version attemptNow threshold : Z) : option Mutation :=
  match eff with
  | EffectCooldownModel model until => Some (MModel model until attemptNow)
  | EffectCooldownCredential until => Some (MCooldown until version)
  | EffectRecordCredentialFailure => Some (MFail threshold)
  | EffectOther => None
  end.

Definition credentialTargetCurrent (r : CredentialRegistry) (ref : CredentialRef) : bool :=
  match CredentialRefOf r ref.(ref_ID) with
  | Some current => (current.(ref_GroupID) =? ref.(ref_GroupID)) &&
                    (current.(ref_IdentityGeneration) =? ref.(ref_IdentityGeneration))
  | None => false
  end.

(** Whether the statistics record the attempt, and whether a state change is logged. *)
Record Report := mkReport { recorded : bool; logged : bool }.

Definition reportOf (m : Mutation) (v : verdict) : Report :=
  let '(accepted, changed, became) := v in
  match m with
  | MFail _ => mkReport accepted (accepted && became)
  | _ => mkReport accepted (default false changed)
  end.

Definition applyLocalEffect (now : Z) (r : CredentialRegistry) (ref : CredentialRef) (version : Z) (eff : Effect)
    (attemptNow threshold : Z) : CredentialRegistry * Report :=
  match mutationOf eff version attemptNow threshold with
  | None => (r, mkReport false false)
  | Some m => if credentialTargetCurrent r ref
              then let '(r, v) := runLocal now r ref m in (r, reportOf m v)
              else (r, mkReport false false)
  end.

(** [applySharedDecisionEffect]; [None] is the store failure after which the caller
    falls back to the local branch. *)
Definition applySharedEffect (health : CredentialHealth) (now : Z) (epoch : string) (delivery : QuotaStore.Delivery)
    (ref : CredentialRef) (version : Z) (eff : Effect) (attemptNow threshold : Z) (s : St)
    : CredentialHealth * St * option Report :=
  match mutationOf eff version attemptNow threshold with
  | None => (health, s, Some (mkReport false false))
  | Some m =>
    if negb (credentialTargetCurrent health.(registry) ref) then (health, s, Some (mkReport false false))
    else
      let o := runShared health now epoch delivery ref m s in
      (o.(out_health), o.(out_store),
       match o.(out_result) with
       | Err _ => None
       | Ok res =>
         Some (match m with
               | MFail _ => mkReport true res.(BecameBlacklisted)
               | MCooldown _ _ => mkReport res.(Accepted) (res.(Accepted) && res.(Changed))
               | _ => mkReport res.(Accepted) res.(Changed)
               end)
       end)
  end.

Definition applyDecisionEffect (health : CredentialHealth) (now : Z) (epoch : string) (delivery : QuotaStore.Delivery)
    (ref : CredentialRef) (version : Z) (eff : Effect) (attemptNow threshold : Z) (s : St)
    : CredentialHealth * St * Report :=
  match applySharedEffect health now epoch delivery ref version eff attemptNow threshold s with
  | (health, s, Some report) => (health, s, report)
  | (health, s, None) =>
    let '(r, report) := applyLocalEffect now health.(registry) ref version eff attemptNow threshold in
    (health <| registry := r |>, s, report)
  end.

End Shared.

(** ** The effect on an entry *)

(** Both sides as a function of the entry. *)
Definition effect (ref : CredentialRef) (m : Mutation) (e : CredentialEntry) : CredentialEntry * verdict :=
  match m with
  | MCooldown until expected =>
    if negb (expected =? 0) && negb (e.(Version) =? expected) then (e, (false, Some false, false))
    else (extendCooldown until e, (true, Some (until >? e.(CooldownUntil)), false))
  | MModel model until now =>
    if stringEmpty model || negb (trimmed (bytes model)) || negb (until >? now) then (e, (false, Some false, false))
    else let '(e, acc, chg) := cooledModel ref.(ref_ModelCooldownGeneration) model until now e in (e, (acc, Some chg, false))
  | MFail threshold => (failed threshold e, (true, None, reachesLimit threshold e))
  | MClearFailure => (cleared e, (true, None, false))
  | MRestore runtime models => (restored runtime models e, (true, None, false))
  | MRecover cooldown =>
    if isActive e && sameCredentialIdentity e ref && recoverable ref.(ref_FailureGeneration) cooldown e
    then (recovered cooldown e, (true, None, false)) else (e, (false, None, false))
  | MClearCooldown expected =>
    if negb (expected =? 0) && (e.(CooldownUntil) =? expected)
    then (e <| CooldownUntil := 0 |>, (true, None, false)) else (e, (false, None, false))
  | MAuth authState => (setEntryAuthState e authState, (true, None, false))
  end.

(** The entry is registered under its own group, and the caller's reference names it. *)
Record targets (r : CredentialRegistry) (ref : CredentialRef) (e : CredentialEntry) : Prop := {
  tg_entry : entryLocked r ref.(ref_ID) = Some e;
  tg_index : r.(credentialGroups) !! ref.(ref_ID) = Some e.(GroupID);
  tg_id : ref.(ref_ID) <> 0;
  tg_group : ref.(ref_GroupID) = e.(GroupID);
  tg_identity : ref.(ref_IdentityGeneration) = e.(IdentityGeneration);
  tg_version : ref.(ref_Version) = e.(Version);
}.

(** The arguments a mutation is called with, in the range the store handles exactly. *)
Definition fits (m : Mutation) (e : CredentialEntry) (ref : CredentialRef) : Prop :=
  match m with
  | MCooldown until _ => deadline until
  | MModel _ until now => deadline until /\ 0 <= now <= 2 ^ 53 * millisecond
  | MFail threshold => Z.abs threshold <= 2 ^ 53
  | MClearFailure | MRestore _ _ => True
  | MRecover cooldown => 0 <= ref.(ref_FailureGeneration) /\ match cooldown with Some c => deadline c | None => True end
  | MClearCooldown expected => deadline expected
  | MAuth a => authStateValid a = true /\ 0 <= e.(Version) <= 2 ^ 53
  end.

(** ** The local side *)

Lemma locked_rewrite r ref e e' : targets r ref e -> entryLocked (rewriteEntry r (ref_ID ref) e') (ref_ID ref) = Some e'.
Proof. intros [_ Hi _ _ _ _]. rewrite entryLocked_rewrite, Z.eqb_refl by eauto. reflexivity. Qed.

Lemma locked_sync now r ref e e' : targets r ref e ->
  entryLocked (rewriteAndSync now r (ref_ID ref) e') (ref_ID ref) = Some e'.
Proof. intros H. change (entryLocked (rewriteEntry r (ref_ID ref) e') (ref_ID ref) = Some e'). now apply (locked_rewrite r ref e). Qed.

Lemma rewrite_groups r id e : credentialGroups (rewriteEntry r id e) = credentialGroups r.
Proof. unfold rewriteEntry. now destruct (credentialGroups r !! id). Qed.

Lemma targets_rewrite r ref e e' : targets r ref e -> GroupID e' = GroupID e -> IdentityGeneration e' = IdentityGeneration e ->
  Version e' = Version e -> targets (rewriteEntry r (ref_ID ref) e') ref e'.
Proof.
  intros H G I V. pose proof H as [T1 T2 T3 T4 T5 T6]. constructor; try congruence; [now apply (locked_rewrite r ref e)|].
  rewrite rewrite_groups. congruence.
Qed.

Lemma local_recover now r ref e c : targets r ref e ->
  exists r', restoreRuntimeStateIfMatch now r ref c = (r', fst (fst (snd (effect ref (MRecover c) e)))) /\
    entryLocked r' (ref_ID ref) = Some (fst (effect ref (MRecover c) e)).
Proof.
  intros H. pose proof H as [T1 T2 T3 T4 T5 T6]. unfold restoreRuntimeStateIfMatch. rewrite T2, T4, Z.eqb_refl. cbn [negb].
  assert (Hat : entryAt r (GroupID e) (ref_ID ref) = Some e) by (unfold entryLocked in T1; now rewrite T2 in T1). rewrite Hat.
  cbn [effect]. unfold isActive, recoverable.
  assert (Eg : bool_decide (Status e <> CredentialStatusActive) || negb (Blacklisted e) ||
      negb (sameCredentialIdentity e ref) || negb (FailureGeneration e =? ref_FailureGeneration ref) ||
      match c with Some c => negb (CooldownUntil e =? c) | None => false end =
    negb (bool_decide (Status e = CredentialStatusActive) && sameCredentialIdentity e ref &&
      (Blacklisted e && (FailureGeneration e =? ref_FailureGeneration ref) &&
       match c with Some c => CooldownUntil e =? c | None => true end))).
  { rewrite bool_decide_not. destruct (bool_decide (Status e = _)), (Blacklisted e), (sameCredentialIdentity e ref),
      (FailureGeneration e =? ref_FailureGeneration ref), c as [c|]; cbn; try reflexivity; try now destruct (CooldownUntil e =? c). }
  rewrite Eg. destruct (_ && _ && _) eqn:Ec; cbn [negb]; [|exists r; auto].
  eexists. split; [reflexivity|]. cbn [fst]. unfold recovered.
  replace (syncEntry now (storeEntry r (GroupID e) (ref_ID ref) _) _) with
    (rewriteAndSync now r (ref_ID ref) (recovered c e)); [now apply (locked_sync now r ref e)|].
  unfold rewriteAndSync, rewriteEntry. rewrite T2. reflexivity.
Qed.

(** A local operation leaves the entry [effect] names and reports its verdict. *)
Lemma runLocal_effect now r ref m e au : targets r ref e -> healthy (stamp "x" 0 e) au -> room e ->
  match m with MAuth a => authStateValid a = true | _ => True end ->
  entryLocked (fst (runLocal now r ref m)) (ref_ID ref) = Some (fst (effect ref m e)) /\
  snd (runLocal now r ref m) = snd (effect ref m e).
Proof.
  intros H He Hr Ha. pose proof H as [T1 T2 T3 T4 T5 T6]. pose proof (he_count _ _ He) as B. cbn in B. unfold const in B.
  destruct m as [until x|model until att|threshold| |runtime models|c|x|a]; cbn [runLocal effect].
  - unfold SetCooldownWithChange, SetCooldownWithChangeIfVersion. rewrite T1. unfold extendCooldown.
    destruct (Z.eqb_spec x 0); cbn [negb andb].
    + destruct (until >? CooldownUntil e); cbn [negb fst snd]; [|auto]. split; [now apply (locked_sync now r ref e)|reflexivity].
    + destruct (Version e =? x); cbn [negb]; [|auto].
      destruct (until >? CooldownUntil e); cbn [negb fst snd]; [|auto]. split; [now apply (locked_sync now r ref e)|reflexivity].
  - unfold SetModelCooldown. destruct (_ || _ || _); [auto|]. rewrite T1, T4, T5, !Z.eqb_refl. cbn [negb orb]. unfold cooledModel.
    destruct (ModelCooldownGeneration e =? ref_ModelCooldownGeneration ref); cbn [negb]; [|auto].
    destruct (until >? _); cbn [negb fst snd]; (split; [now apply (locked_rewrite r ref e)|reflexivity]).
  - unfold recordFailureLocal, IncrFailure. rewrite T1. pose proof (rm_count _ Hr).
    cbn [negb fst snd]. rewrite (wrap_i64_small (FailureCount e + 1)) by (unfold in_int64, min_int64, max_int64; lia).
    set (e1 := bumpFailure (e <| FailureCount := FailureCount e + 1 |>)).
    change (FailureCount e1) with (FailureCount e + 1). unfold reachesLimit, failed.
    destruct ((threshold >? 0) && (FailureCount e + 1 >=? threshold)) eqn:El; cbn [andb].
    + assert (Ht : targets (rewriteEntry r (ref_ID ref) e1) ref e1) by now apply (targets_rewrite r ref e).
      unfold SetBlacklistedWithChange. rewrite (tg_entry _ _ _ Ht). change (Blacklisted e1) with (Blacklisted e).
      unfold reachesLimit. rewrite El. destruct (Blacklisted e); cbn [andb negb fst snd].
      * split; [apply Ht|reflexivity].
      * split; [now apply (locked_sync now _ ref e1)|reflexivity].
    + unfold reachesLimit. rewrite El. cbn [andb fst snd]. split; [now apply (locked_rewrite r ref e)|reflexivity].
  - unfold ClearFailure. rewrite T1. unfold cleared. cbn [fst snd].
    destruct (FailureCount e =? 0); cbn [negb]; (split; [|reflexivity]); [assumption|now apply (locked_rewrite r ref e)].
  - unfold RestoreRuntimeState, restored. rewrite T1. destruct runtime.
    + set (e1 := bumpFailure _). assert (Ht : targets (rewriteAndSync now r (ref_ID ref) e1) ref e1).
      { destruct (targets_rewrite r ref e e1 H eq_refl eq_refl eq_refl). now constructor. }
      destruct models; cbn [fst snd andb]; [|split; [apply Ht|reflexivity]].
      unfold ClearModelCooldowns. rewrite (tg_entry _ _ _ Ht). cbn [fst snd]. split; [now apply (locked_rewrite _ ref e1)|reflexivity].
    + destruct models; cbn [fst snd andb]; [|auto]. unfold ClearModelCooldowns. rewrite T1. cbn [fst snd].
      split; [now apply (locked_rewrite r ref e)|reflexivity].
  - destruct (local_recover now r ref e c H) as (r' & E & E'). cbn [effect] in E, E'.
    destruct c as [c|]; unfold RecoverIfMatch, RestoreRuntimeStateIfMatch; rewrite E; cbn [fst snd];
      (split; [exact E'|]); now destruct (_ && _ && _).
  - unfold ClearCooldownIfMatch. destruct (Z.eqb_spec x 0); cbn [negb andb]; [auto|]. rewrite T1.
    destruct (CooldownUntil e =? x); cbn [negb fst snd]; [|auto]. split; [now apply (locked_sync now r ref e)|reflexivity].
  - unfold SetCredentialAuthState. rewrite Ha, T1. cbn [negb fst snd]. split; [now apply (locked_sync now r ref e)|reflexivity].
Qed.

(** ** The shared side *)

(** The script operation of a mutation, and the mutations refused before any call. *)
Definition opOf (ref : CredentialRef) (m : Mutation) : healthOp :=
  match m with
  | MCooldown until expected =>
    opCooldown (formatHealthMS until) (if expected =? 0 then ""%string else decimal expected)
  | MModel model until now =>
    opModelCooldown model (formatHealthMS until) (formatHealthMS now) (decimal ref.(ref_ModelCooldownGeneration))
  | MFail threshold => opFail (decimal threshold)
  | MClearFailure => opClearFailure
  | MRestore runtime models => opRestore (formatFlag runtime) (formatFlag models)
  | MRecover cooldown =>
    opRecoverIfMatch (decimal ref.(ref_FailureGeneration))
      (match cooldown with Some until => formatHealthMS until | None => ""%string end)
  | MClearCooldown expected => opClearCooldownIfMatch (formatHealthMS expected)
  | MAuth authState => authOp authState ref.(ref_Version) "" 0
  end.

Definition refused (ref : CredentialRef) (m : Mutation) (e : CredentialEntry) : bool :=
  match m with
  | MCooldown _ expected => negb (expected =? 0) && negb (e.(Version) =? expected)
  | MModel model until now => stringEmpty model || negb (trimmed (bytes model)) || negb (until >? now)
  | MRecover _ => negb (isActive e && sameCredentialIdentity e ref)
  | MClearCooldown expected => expected =? 0
  | _ => false
  end.

Lemma refused_effect ref m e : refused ref m e = true ->
  fst (effect ref m e) = e /\ fst (fst (snd (effect ref m e))) = false /\ snd (snd (effect ref m e)) = false /\
  match snd (fst (snd (effect ref m e))) with Some c => c = false | None => True end.
Proof.
  destruct m as [until x|model until att|threshold| |runtime models|c|x|a]; cbn [refused effect]; try discriminate; intros Hr.
  - rewrite Hr. cbn. auto.
  - rewrite Hr. cbn. auto.
  - apply negb_true_iff in Hr. rewrite Hr. cbn. auto.
  - rewrite Hr. cbn. auto.
Qed.

(** The result flags say what the local verdict says. *)
Definition matches (v : verdict) (acc chg bec : bool) : Prop :=
  acc = fst (fst v) /\ bec = snd v /\ match snd (fst v) with Some c => chg = c | None => True end.

Lemma effect_stamp ref m ep v e : effect ref m (stamp ep v e) = (stamp ep v (fst (effect ref m e)), snd (effect ref m e)).
Proof.
  destruct m as [until x|model until att|threshold| |runtime models|c|x|a]; cbn [effect].
  - change (Version (stamp ep v e)) with (Version e). change (CooldownUntil (stamp ep v e)) with (CooldownUntil e).
    destruct (_ && _); [reflexivity|]. unfold extendCooldown. change (CooldownUntil (stamp ep v e)) with (CooldownUntil e).
    now destruct (until >? CooldownUntil e).
  - destruct (_ || _ || _); [reflexivity|]. unfold cooledModel.
    change (ModelCooldownGeneration (stamp ep v e)) with (ModelCooldownGeneration e).
    change (ModelCooldowns (stamp ep v e)) with (ModelCooldowns e). destruct (_ =? _); [|reflexivity].
    now destruct (until >? _).
  - unfold failed, reachesLimit. cbn. unfold const. now destruct (_ && _ && _).
  - unfold cleared. change (FailureCount (stamp ep v e)) with (FailureCount e). now destruct (FailureCount e =? 0).
  - unfold restored. now destruct runtime, models.
  - change (isActive (stamp ep v e)) with (isActive e).
    change (sameCredentialIdentity (stamp ep v e) ref) with (sameCredentialIdentity e ref).
    unfold recoverable. cbn [Blacklisted FailureGeneration CooldownUntil stamp set]. unfold const.
    destruct (_ && _ && _); [|reflexivity]. now destruct c.
  - change (CooldownUntil (stamp ep v e)) with (CooldownUntil e). now destruct (_ && _).
  - unfold setEntryAuthState. cbn. unfold const. now case_bool_decide.
Qed.

(** The two refusals only the store makes: the version its auth state was stored with
    guards a cooldown that names a version, and an auth state of an older version. *)
Definition storeRefuses (au : stored_auth) (e : CredentialEntry) (m : Mutation) : bool :=
  match au with
  | None => false
  | Some (_, stored) =>
    match m with
    | MCooldown _ expected => negb (expected =? 0) && negb (stored =? expected)
    | MAuth _ => stored >? e.(Version)
    | _ => false
    end
  end.

Definition refusal : verdict := (false, Some false, false).

Definition sharedEffect (au : stored_auth) (ref : CredentialRef) (m : Mutation) (e : CredentialEntry) : CredentialEntry * verdict :=
  if storeRefuses au e m then (e, refusal) else effect ref m e.

Lemma sharedEffect_stamp au ref m ep v e :
  sharedEffect au ref m (stamp ep v e) = (stamp ep v (fst (sharedEffect au ref m e)), snd (sharedEffect au ref m e)).
Proof.
  unfold sharedEffect. change (storeRefuses au (stamp ep v e) m) with (storeRefuses au e m).
  destruct (storeRefuses au e m); [reflexivity|apply effect_stamp].
Qed.

Section Agree.
Context {St : Type} {R : RedisStore St} {ROk : RedisOk St}.

Lemma runShared_apply (health : CredentialHealth) now epoch delivery ref m (s : St) e :
  entryLocked (registry health) (ref_ID ref) = Some e ->
  runShared health now epoch delivery ref m s =
    if refused ref m e then refuse health s else apply health ref (opOf ref m) now epoch delivery s.
Proof.
  intros He. destruct m as [until x|model until att|threshold| |runtime models|c|x|a]; cbn [runShared refused opOf];
    unfold CooldownCredential, CooldownModel, RecordFailure, ClearFailureShared, Restore, RecoverIfMatchShared,
      ClearCooldownIfMatchShared, SetAuthState, CredentialRefOf, CredentialMatchesRef; rewrite ?He; reflexivity.
Qed.

(** An operation the store does not refuse takes a record of the entry to a record of its effect. *)
Lemma operation_accepted k h e au ref m : holds h e au -> room e -> fits m e ref -> refused ref m e = false ->
  storeRefuses au e m = false ->
  ref_Version ref = Version e ->
  triple (St := St) k h (healthOperation k (opOf ref m)) (fun fl h' => exists acc chg bec mut au',
    fl = (acc, chg, bec, mut) /\ matches (snd (effect ref m e)) acc chg bec /\
    holds h' (fst (effect ref m e)) au' /\ (chg || mut = false -> h' = h) /\
    match m with MAuth _ => exists a, au' = Some (a, Version e) | _ => True end).
Proof.
  intros Hh Hr Hf Hn Ha Hv. pose proof (holds_healthy h e au Hh) as He.
  destruct m as [until x|model until att|threshold| |runtime models|c|x|a]; cbn [opOf effect refused fits storeRefuses] in *;
    rewrite ?formatHealthMS_text.
  - rewrite Hn. eapply t_weaken; [apply (op_cooldown k h e au Hh until); [assumption|]|].
    { destruct (Z.eqb_spec x 0); [now left|right]. destruct au as [[? v]|]; [|exact I].
      cbn [storeRefuses] in Ha. rewrite (proj2 (Z.eqb_neq x 0)) in Ha by assumption. cbn [negb andb] in Ha. apply negb_false_iff, Z.eqb_eq in Ha. congruence. }
    cbn beta. intros fl h' (-> & Hh' & Hs). eexists _, _, _, _, au. split; [reflexivity|]. unfold matches. cbn [fst snd].
    rewrite orb_false_r. split_and!; auto.
  - rewrite Hn. destruct Hf as [Hu Hb]. apply orb_false_iff in Hn as [[Hne _]%orb_false_iff _].
    eapply t_weaken; [apply (op_model k h e au Hh (ref_ModelCooldownGeneration ref) model until att); auto|].
    { intros ->. discriminate Hne. }
    cbn beta. intros fl h' H'. destruct (cooledModel _ model until att e) as [[e' acc] chg]. destruct H' as (mut & -> & Hh' & Hs).
    eexists _, _, _, _, au. split; [reflexivity|]. unfold matches. cbn [fst snd]. split_and!; auto.
  - eapply t_weaken; [apply (op_fail k h e au Hh threshold); auto|]. cbn beta. intros fl h' [-> Hh'].
    eexists _, _, _, _, au. split; [reflexivity|]. unfold matches. cbn [fst snd]. split_and!; auto. discriminate.
  - eapply t_weaken; [apply (op_clear k h e au Hh); auto|]. cbn beta. intros fl h' (-> & Hh' & Hs).
    eexists _, _, _, _, au. split; [reflexivity|]. unfold matches. cbn [fst snd]. split_and!; auto.
    intros E. apply Hs. rewrite orb_false_r in E. apply negb_false_iff, Z.eqb_eq in E. assumption.
  - eapply t_weaken; [apply (op_restore k h e au Hh runtime models); auto|]. cbn beta. intros fl h' [-> Hh'].
    eexists _, _, _, _, au. split; [reflexivity|]. unfold matches. cbn [fst snd]. split_and!; auto. discriminate.
  - apply negb_false_iff in Hn. rewrite Hn. cbn [andb]. destruct Hf as [Hg Hc].
    replace (match c with Some until => formatHealthMS until | None => ""%string end)
      with (match c with Some u => msText u | None => ""%string end) by (destruct c; now rewrite ?formatHealthMS_text).
    eapply t_weaken; [apply (op_recover k h e au Hh (ref_FailureGeneration ref) c); auto|]. cbn beta zeta.
    intros fl h' (-> & Hh' & Hs). eexists _, _, _, _, au. split; [reflexivity|]. rewrite orb_false_r.
    unfold matches. destruct (recoverable _ c e); cbn [fst snd]; split_and!; auto.
  - rewrite Hn. cbn [negb andb]. eapply t_weaken; [apply (op_clear_cooldown k h e au Hh x); auto|]. cbn beta.
    intros fl h' (-> & Hh' & Hs). eexists _, _, _, _, au. split; [reflexivity|]. rewrite orb_false_r.
    unfold matches. destruct (CooldownUntil e =? x); cbn [fst snd]; split_and!; auto.
  - destruct Hf as [Hok Hb]. rewrite Hv. unfold authOp. cbn [stringEmpty String.eqb].
    set (a' := if bool_decide (a = authStateUnset) then CredentialAuthStateReady else a).
    assert (Ea : setEntryAuthState e a = setEntryAuthState e a').
    { unfold setEntryAuthState. change a' with (normalize a). now rewrite normalize_idem. }
    rewrite Ea. eapply t_weaken; [apply (op_auth k h e au Hh a' (Version e)); auto|].
    + unfold authStateValid in *. change a' with (normalize a). now rewrite normalize_idem.
    + subst a'. case_bool_decide; [discriminate|assumption].
    + destruct au as [[? v]|]; [|exact I]. cbn [storeRefuses] in Ha. rewrite Z.gtb_ltb in Ha. now apply Z.ltb_ge in Ha.
    + cbn beta. intros fl h' [[chg ->] Hh']. eexists _, _, _, _, _. split; [reflexivity|]. unfold matches. cbn [fst snd].
      split_and!; eauto. now rewrite orb_true_r.
Qed.

Lemma effect_config ref m e : Version (fst (effect ref m e)) = Version e /\
  IdentityGeneration (fst (effect ref m e)) = IdentityGeneration e /\
  match m with MAuth _ => True | _ => AuthState (fst (effect ref m e)) = AuthState e end.
Proof.
  destruct m as [until x|model until att|threshold| |runtime models|c|x|a]; cbn [effect];
    unfold extendCooldown, cooledModel, failed, cleared, restored, recovered, setEntryAuthState, bumpFailure;
    repeat match goal with |- context [if ?b then _ else _] => destruct b end; try (destruct c); cbn; auto.
Qed.

Lemma operation_refused k h e au ref m : holds h e au -> fits m e ref -> storeRefuses au e m = true ->
  ref_Version ref = Version e ->
  triple (St := St) k h (healthOperation k (opOf ref m)) (fun fl h' => fl = (false, false, false, false) /\ h' = h).
Proof.
  intros Hh Hf Ha Hv. destruct au as [[a v]|] eqn:Eau; [|discriminate].
  destruct m as [until x|model until att|threshold| |runtime models|c|x|st]; try discriminate; cbn [opOf storeRefuses fits] in *.
  - apply andb_true_iff in Ha as [Hx Hne]. apply negb_true_iff in Hx, Hne. rewrite Hx. apply Z.eqb_neq in Hne.
    eapply op_cooldown_refused; [exact Hh|reflexivity|apply decimal_nonempty|]. intros E. now apply decimal_inj in E.
  - rewrite Hv. unfold authOp. cbn [stringEmpty String.eqb]. rewrite Z.gtb_ltb in Ha. apply Z.ltb_lt in Ha.
    now eapply op_auth_refused; [exact Hh|reflexivity|apply Hf|].
Qed.

(** Every operation takes a record of the entry to a record of its effect on the store. *)
Lemma operation_spec k h e au ref m : holds h e au -> room e -> fits m e ref -> refused ref m e = false ->
  ref_Version ref = Version e ->
  triple (St := St) k h (healthOperation k (opOf ref m)) (fun fl h' => exists acc chg bec mut au',
    fl = (acc, chg, bec, mut) /\ matches (snd (sharedEffect au ref m e)) acc chg bec /\
    holds h' (fst (sharedEffect au ref m e)) au' /\ (chg || mut = false -> h' = h) /\
    (AuthState (fst (sharedEffect au ref m e)) = AuthState e \/ exists a, au' = Some (a, Version e))).
Proof.
  intros Hh Hr Hf Hn Hv. unfold sharedEffect. destruct (storeRefuses au e m) eqn:Ea.
  - eapply t_weaken; [exact (operation_refused k h e au ref m Hh Hf Ea Hv)|]. cbn beta. intros fl h' [-> ->].
    eexists _, _, _, _, au. split; [reflexivity|]. unfold matches, refusal. cbn. split_and!; auto.
  - eapply t_weaken; [exact (operation_accepted k h e au ref m Hh Hr Hf Hn Ea Hv)|]. cbn beta.
    intros fl h' (acc & chg & bec & mut & au' & H1 & H2 & H3 & H4 & H5). exists acc, chg, bec, mut, au'. split_and!; auto.
    pose proof (effect_config ref m e) as (_ & _ & Hc). destruct m; auto.
Qed.

Lemma sharedEffect_config au ref m e : Version (fst (sharedEffect au ref m e)) = Version e /\
  IdentityGeneration (fst (sharedEffect au ref m e)) = IdentityGeneration e.
Proof. unfold sharedEffect. destruct (storeRefuses au e m); [auto|]. split; apply effect_config. Qed.

Definition script_post (h : gmap string string) (e : CredentialEntry) (au : stored_auth) (ref : CredentialRef) (m : Mutation) (origin epoch : string) (id : Z)
    (reply : healthReply) (h' : gmap string string) : Prop :=
  exists ep v au', holds h' (stamp ep v (fst (sharedEffect au ref m e))) au' /\
    matches (snd (sharedEffect au ref m e)) reply.(accepted) reply.(changed) reply.(became) /\
    Permutation reply.(fields) (map_to_list h') /\ ep = default epoch (h !! "ep"%string) /\
    (AuthState (fst (sharedEffect au ref m e)) = AuthState e \/ exists a, au' = Some (a, Version e)) /\
    match reply.(event) with
    | None => h' = h /\ v = versionOf h
    | Some ev => ev = mkEvent origin (dbl id) h' /\ v = versionOf h + 1
    end.

Lemma holds_bumped h ep v e au : holds h (stamp ep v e) au -> v + 1 <= max_int64 ->
  holds (<["ver" := decimal (v + 1)]>%string h) (stamp ep (v + 1) e) au.
Proof.
  intros [Hl He] Hv. split.
  - intros f. destruct (decide (f = "ver"%string)) as [->|Hne]; [now rewrite lookup_insert_eq|].
    rewrite lookup_insert_ne, Hl by congruence. unfold encode. cbn. unfold const. repeat case_decide; congruence.
  - destruct He. constructor; cbn in *; unfold const in *; auto. lia.
Qed.

Lemma map_of_fields (l : list (string * string)) (h : gmap string string) : Permutation l (map_to_list h) -> list_to_map l = h.
Proof.
  intros Hp. rewrite <- (list_to_map_to_list h). apply list_to_map_proper; [|exact Hp].
  rewrite Hp. apply NoDup_fst_map_to_list.
Qed.

(** The whole script, from any record the entry can have. *)
Lemma script_spec k h e au ref m origin id epoch ttl : mirrors h e au -> epoch <> ""%string -> room e ->
  versionOf h + 1 <= max_int64 -> fits m e ref -> refused ref m e = false -> ref_Version ref = Version e -> 0 < ttl ->
  triple (St := St) k h (credentialHealthScript k (opOf ref m) origin id (decimal (IdentityGeneration e)) epoch ttl)
    (script_post h e au ref m origin epoch id).
Proof.
  intros Hm Hep [R1 R2 R3 R4] Hver Hf Hn Hv Httl. unfold credentialHealthScript.
  eapply t_bind; [now apply (t_prologue k h e au epoch)|]. intros reset h1 (ep & v & Hh1 & Ev & Eep & Hreset).
  assert (Hr1 : room (stamp ep v e)) by (constructor; cbn; unfold const; auto; lia).
  eapply t_bind; [apply (operation_spec k h1 (stamp ep v e) au ref m Hh1 Hr1 Hf Hn Hv)|].
  intros fl h2 (acc & chg & bec & mut & au' & -> & Hmt & Hh2 & Hsame & Hau). rewrite sharedEffect_stamp in Hmt, Hh2, Hau.
  cbn [fst snd] in Hmt, Hh2, Hau.
  set (moved := chg || (reset || mut)).
  eapply t_bind with (Q1 := fun _ h3 => if moved then h3 = <["ver" := decimal (v + 1)]>%string h2 else h3 = h2).
  { destruct moved; [|now apply t_ret]. pose proof (he_version _ _ (proj2 Hh2)) as Bv. cbn in Bv. unfold const in Bv.
    eapply t_bind; [eapply t_bump with (v := v) (Q := fun _ h3 => h3 = <["ver" := decimal (v + 1)]>%string h2);
      [right; split; [now rewrite (proj1 Hh2)|apply in_int64_nonneg; lia]|apply in_int64_nonneg; lia|reflexivity]|].
    intros _ h3 ->. now apply t_ret. }
  intros _ h3 Hh3. eapply t_bind; [apply t_expire with (Q := fun _ h4 => h4 = h3); auto|]. intros _ h4 ->.
  apply t_getall. intros l Hl. apply t_ret. exists ep, (if moved then v + 1 else v), au'. cbn [accepted changed became fields event].
  rewrite (map_of_fields l h3 Hl). destruct moved eqn:Emv; subst h3.
  - split_and!; auto; [|congruence]. apply holds_bumped; [assumption|lia].
  - apply orb_false_iff in Emv as [Ec [Er Em]%orb_false_iff]. rewrite Hsame in * by (now rewrite Ec, Em).
    destruct (Hreset Er) as [-> _]. split_and!; auto.
Qed.

(** ** The mirror *)

Record same_condition (a b : CredentialEntry) : Prop := {
  sc_cooldown : a.(CooldownUntil) = b.(CooldownUntil);
  sc_blacklisted : a.(Blacklisted) = b.(Blacklisted);
  sc_count : a.(FailureCount) = b.(FailureCount);
  sc_fg : a.(FailureGeneration) = b.(FailureGeneration);
  sc_mg : a.(ModelCooldownGeneration) = b.(ModelCooldownGeneration);
  sc_models : a.(ModelCooldowns) = b.(ModelCooldowns);
}.

(** The mirror of a healthy record in any entry of its identity. *)
Lemma mirror_applies now r id p x au : entryLocked r id = Some p -> healthy x au ->
  p.(IdentityGeneration) = x.(IdentityGeneration) ->
  (p.(sharedEpoch) = x.(sharedEpoch) -> p.(sharedVersion) <= x.(sharedVersion)) ->
  entryLocked (fst (ApplySharedHealth now r id (sharedOf x au))) id = Some (mirrorHealth p (sharedOf x au)).
Proof.
  intros Hp Hx Hi Hver. unfold ApplySharedHealth. rewrite Hp. unfold acceptHealth, sharedOf at 1 2 3 4 5 6, stringEmpty.
  cbn [sh_Epoch sh_IdentityGeneration sh_Version]. rewrite (proj2 (String.eqb_neq _ _) (he_epoch _ _ Hx)), Hi, Z.eqb_refl.
  cbn [negb orb]. destruct (String.eqb_spec (sharedEpoch x) (sharedEpoch p)) as [E|E]; cbn [andb].
  - rewrite (proj2 (Z.ltb_ge _ _)) by (apply Hver; congruence). cbn [fst].
    destruct (entryLocked_at _ _ _ Hp) as (g & Hg & _).
    change (entryLocked (rewriteEntry r id (mirrorHealth p (sharedOf x au))) id = Some (mirrorHealth p (sharedOf x au))).
    rewrite entryLocked_rewrite by eauto. now rewrite Z.eqb_refl.
  - cbn [fst]. destruct (entryLocked_at _ _ _ Hp) as (g & Hg & _).
    change (entryLocked (rewriteEntry r id (mirrorHealth p (sharedOf x au))) id = Some (mirrorHealth p (sharedOf x au))).
    rewrite entryLocked_rewrite by eauto. now rewrite Z.eqb_refl.
Qed.

Lemma mirror_condition p x au : same_condition (mirrorHealth p (sharedOf x au)) x.
Proof. unfold mirrorHealth, setEntryAuthState. destruct (_ && _ && _); [case_bool_decide|]; constructor; reflexivity. Qed.

Lemma mirror_fields p x au : let e := mirrorHealth p (sharedOf x au) in
  sharedEpoch e = sharedEpoch x /\ sharedVersion e = sharedVersion x /\ IdentityGeneration e = IdentityGeneration p /\ Version e = Version p.
Proof. unfold mirrorHealth, setEntryAuthState. cbn zeta. destruct (_ && _ && _); [case_bool_decide|]; cbn; auto. Qed.

Lemma mirror_auth p x au : healthy x au -> Version x = Version p ->
  AuthState p = AuthState x \/ (exists a, au = Some (a, Version p)) -> AuthState (mirrorHealth p (sharedOf x au)) = AuthState x.
Proof.
  intros Hx Hv Ha. pose proof (he_auth _ _ Hx) as Hau. unfold mirrorHealth. cbn [sh_AuthState sh_AuthSecretVersion sharedOf].
  destruct au as [[a v]|].
  - destruct Hau as (V1 & V2 & _ & V4). rewrite (bool_decide_eq_false_2 _ V2), V1. cbn [negb andb].
    match goal with |- context [if ?b then _ else _] => change b with ((v =? Version p) && true) end. rewrite andb_true_r.
    destruct (Z.eqb_spec v (Version p)) as [E|E].
    + rewrite (V4 ltac:(congruence)). unfold setEntryAuthState. assert (En : normalize a = a) by (unfold normalize; now rewrite bool_decide_eq_false_2).
      case_bool_decide; cbn; exact En.
    + destruct Ha as [Ha|[a' [= _ Ha]]]; [exact Ha|congruence].
  - rewrite bool_decide_eq_true_2 by reflexivity. cbn [negb andb]. destruct Ha as [Ha|[a' Ha]]; [exact Ha|discriminate].
Qed.

(** A record of [x] is a record of any entry in the same condition. *)
Lemma holds_condition h x y au : holds h x au -> same_condition y x -> sharedEpoch y = sharedEpoch x ->
  sharedVersion y = sharedVersion x -> IdentityGeneration y = IdentityGeneration x -> Version y = Version x ->
  AuthState y = AuthState x -> holds h y au.
Proof.
  intros [Hl He] [C1 C2 C3 C4 C5 C6] E1 E2 E3 E4 E5. split.
  - intros f. rewrite Hl. unfold encode. now rewrite C1, C2, C3, C4, C5, C6, E1, E2, E3.
  - destruct He. constructor; rewrite ?C1, ?C2, ?C3, ?C4, ?C5, ?C6, ?E1, ?E2, ?E3, ?E4, ?E5; auto.
Qed.

Lemma mirrors_healthy h e au : mirrors h e au -> healthy (stamp "x" 0 e) au.
Proof.
  destruct 1 as [au [_ He]| _ Hp Hi|eo auo _ _ Hp Hi]; [|apply pristine_healthy; auto; unfold max_int64; lia..].
  destruct He. constructor; cbn; unfold const; auto; try (unfold max_int64; lia).
Qed.

Lemma mirrors_version h e au epoch : mirrors h e au -> epoch <> ""%string ->
  sharedEpoch e = default epoch (h !! "ep"%string) -> sharedVersion e = versionOf h.
Proof.
  destruct 1 as [au Hh| -> Hp Hi|eo auo [Hl He] Hne Hp Hi]; intros Hep H.
  - symmetry. now apply versionOf_holds with (au := au).
  - rewrite (pr_epoch _ Hp), lookup_empty in H. cbn in H. congruence.
  - rewrite (pr_epoch _ Hp), Hl in H. change (encode eo auo "ep") with (Some (sharedEpoch eo)) in H. cbn in H.
    destruct (he_epoch _ _ He). now symmetry.
Qed.

(** What a delivered call does, in one statement: mirror, record, result and event. *)
Lemma apply_spec (health : CredentialHealth) now epoch ref m (s : St) e au :
  let k := healthKey health (ref_ID ref) in
  targets (registry health) ref e -> mirrors (hashOf s k) e au -> room e -> versionOf (hashOf s k) + 1 <= max_int64 ->
  fits m e ref -> epoch <> ""%string -> refused ref m e = false ->
  let o := apply health ref (opOf ref m) now epoch QuotaStore.Delivered s in
  exists e1 au' res ep v, entryLocked (registry (out_health o)) (ref_ID ref) = Some e1 /\
    same_condition e1 (fst (sharedEffect au ref m e)) /\ AuthState e1 = AuthState (fst (sharedEffect au ref m e)) /\
    holds (hashOf (out_store o) k) e1 au' /\ holds (hashOf (out_store o) k) (stamp ep v (fst (sharedEffect au ref m e))) au' /\
    out_result o = Ok res /\
    matches (snd (sharedEffect au ref m e)) (Accepted res) (Changed res) (BecameBlacklisted res) /\
    (forall k', k' <> k -> hashOf (out_store o) k' = hashOf s k') /\
    match out_event o with
    | None => hashOf (out_store o) k = hashOf s k
    | Some ev => ev = mkEvent (origin health) (dbl (ref_ID ref)) (hashOf (out_store o) k) /\ v = versionOf (hashOf s k) + 1
    end.
Proof.
  intros k Ht Hm Hr Hver Hf Hep Hn. pose proof Ht as [T1 T2 T3 T4 T5 T6]. unfold apply. rewrite (proj2 (Z.eqb_neq _ _) T3). fold k.
  destruct (script_spec k (hashOf s k) e au ref m (origin health) (ref_ID ref) epoch credentialHealthTTL
    Hm Hep Hr Hver Hf Hn T6 ltac:(reflexivity) s eq_refl) as (s' & reply & E & (ep & v & au' & Hh & Hmt & Hp & Eep & Hau & Hev) & F).
  rewrite T5, E. rewrite (map_of_fields _ _ Hp), (decode_holds _ _ _ Hh). cbn zeta. set (x := stamp ep v (fst (sharedEffect au ref m e))) in *.
  destruct (sharedEffect_config au ref m e) as [Cv Ci].
  assert (Hacc : sharedEpoch e = sharedEpoch x -> sharedVersion e <= sharedVersion x).
  { cbn. unfold const. intros He. rewrite (mirrors_version _ _ _ epoch Hm Hep) by congruence.
    destruct (event reply); [destruct Hev as [_ ->]|destruct Hev as [_ ->]]; lia. }
  exists (mirrorHealth e (sharedOf x au')), au'. cbn [out_health out_store out_result out_event registry set]. unfold const.
  eexists _, ep, v. pose proof (mirror_fields e x au') as (M1 & M2 & M3 & M4). cbn zeta in *.
  assert (HA : AuthState (mirrorHealth e (sharedOf x au')) = AuthState x).
  { apply mirror_auth; [apply Hh|exact Cv|]. destruct Hau as [Hau|Hau]; [left; symmetry; exact Hau|now right]. }
  split_and!; try reflexivity; auto.
  - apply mirror_applies; auto; [apply Hh]. 
  - destruct (mirror_condition e x au') as [C1 C2 C3 C4 C5 C6]. now constructor.
  - apply (holds_condition _ x); auto; [apply mirror_condition|rewrite M3; symmetry; exact Ci|rewrite M4; symmetry; exact Cv].
  - destruct (event reply); [destruct Hev as [-> ->]; auto|apply Hev].
Qed.

(** The hypotheses of one call: the caller's reference names the entry, the record
    mirrors it, and the numbers are in range. *)
Record call_ok (health : CredentialHealth) (ref : CredentialRef) (m : Mutation) (s : St) (e : CredentialEntry) (au : stored_auth)
    (epoch : string) : Prop := {
  co_targets : targets (registry health) ref e;
  co_mirrors : mirrors (hashOf s (healthKey health (ref_ID ref))) e au;
  co_room : room e;
  co_version : versionOf (hashOf s (healthKey health (ref_ID ref))) + 1 <= max_int64;
  co_fits : fits m e ref;
  co_epoch : epoch <> ""%string;
}.

Lemma fits_auth m e ref : fits m e ref -> match m with MAuth a => authStateValid a = true | _ => True end.
Proof. destruct m; cbn; tauto. Qed.

(** What the store carries: deadlines in whole milliseconds. *)
Definition wholeMs (v : Z) : Z := v / millisecond * millisecond.
Definition carried (m : Mutation) : Mutation :=
  match m with
  | MCooldown until expected => MCooldown (wholeMs until) expected
  | MModel model until now => MModel model (wholeMs until) now
  | MRecover (Some cooldown) => MRecover (Some (wholeMs cooldown))
  | MClearCooldown expected => MClearCooldown (wholeMs expected)
  | _ => m
  end.

(** Dropping the fraction of a millisecond does not decide the call: a model's deadline
    that is in the future is so by its whole milliseconds, and a deadline to clear is not
    in the first millisecond of 1970. *)
Definition carriable (m : Mutation) : Prop :=
  match m with
  | MModel _ until now => until <= now \/ now < wholeMs until
  | MClearCooldown expected => expected = 0 \/ millisecond <= expected
  | _ => True
  end.

Lemma wholeMs_le v : wholeMs v <= v.
Proof. unfold wholeMs, millisecond. pose proof (Z.mul_div_le v 1000000). lia. Qed.

Lemma wholeMs_text v : formatHealthMS (wholeMs v) = formatHealthMS v.
Proof. rewrite !formatHealthMS_text. unfold msText, wholeMs. now rewrite ms_of. Qed.

Lemma runShared_carried (health : CredentialHealth) now epoch delivery ref m (s : St) : carriable m ->
  runShared health now epoch delivery ref m s = runShared health now epoch delivery ref (carried m) s.
Proof.
  intros Hc. destruct m as [until x|model until att|threshold| |runtime models|[c|]|x|a]; cbn [runShared carried carriable] in *;
    try reflexivity.
  - unfold CooldownCredential. now rewrite wholeMs_text.
  - unfold CooldownModel. rewrite wholeMs_text. pose proof (wholeMs_le until).
    assert (until >? att = (wholeMs until >? att)) as ->; [|reflexivity]. rewrite !Z.gtb_ltb.
    destruct (Z.ltb_spec att until), (Z.ltb_spec att (wholeMs until)); lia || reflexivity.
  - unfold RecoverIfMatchShared. now rewrite wholeMs_text.
  - unfold ClearCooldownIfMatchShared. rewrite wholeMs_text. assert ((x =? 0) = (wholeMs x =? 0)) as ->; [|reflexivity].
    destruct Hc as [->|Hc]; [reflexivity|]. unfold wholeMs, millisecond in *. pose proof (Z.div_le_mono 1000000 x 1000000 ltac:(lia) Hc).
    change (1000000 / 1000000) with 1 in *. destruct (Z.eqb_spec x 0), (Z.eqb_spec (x / 1000000 * 1000000) 0); lia || reflexivity.
Qed.

(** [C17] The shared script is the local registry.  A delivered mutation of a
    credential whose record mirrors its entry leaves, in the local mirror, an entry
    with exactly the cooldowns, blacklist flag, failure count, generations and auth
    state that the registry's own operation produces, reports the same verdict, and
    leaves a record that mirrors the new entry; no other key changes.  Deadlines cross
    the store in whole milliseconds, so the operation simulated is the one with the
    fraction dropped ([carried]), for a call that dropping it does not decide
    ([carriable]: a model's deadline less than a millisecond ahead is left out) and whose
    numbers the store handles exactly ([fits], [room]).  There are two exceptions ([storeRefuses]): a cooldown
    guarded by a secret version other than the one the stored auth state was written for,
    and an auth state for an older version than the stored one.  The store refuses both
    and leaves the credential's condition as it was, whatever the registry would do. *)
Theorem shared_mutation_simulates_local health now now' epoch ref m (s : St) e au :
  carriable m -> call_ok health ref (carried m) s e au epoch ->
  let k := healthKey health (ref_ID ref) in
  let o := runShared health now epoch QuotaStore.Delivered ref m s in
  let l := if storeRefuses au e m then (registry health, refusal) else runLocal now' (registry health) ref (carried m) in
  exists e1 e2 au' res, entryLocked (registry (out_health o)) (ref_ID ref) = Some e1 /\
    entryLocked (fst l) (ref_ID ref) = Some e2 /\ same_condition e1 e2 /\ AuthState e1 = AuthState e2 /\
    mirrors (hashOf (out_store o) k) e1 au' /\
    out_result o = Ok res /\ matches (snd l) (Accepted res) (Changed res) (BecameBlacklisted res) /\
    (forall k', k' <> k -> hashOf (out_store o) k' = hashOf s k').
Proof.
  intros Hcar [Ht Hm Hr Hver Hf Hep]. cbn zeta. rewrite (runShared_carried _ _ _ _ _ _ _ Hcar).
  assert (Esr : storeRefuses au e m = storeRefuses au e (carried m)) by (destruct m as [| | | | |[]| |]; reflexivity).
  rewrite Esr. clear Hcar Esr. set (m' := carried m) in *. clearbody m'.
  destruct (runLocal_effect now' (registry health) ref m' e au Ht (mirrors_healthy _ _ _ Hm) Hr (fits_auth _ _ _ Hf)) as [L1 L2].
  assert (Hl : entryLocked (fst (if storeRefuses au e m' then (registry health, refusal) else runLocal now' (registry health) ref m'))
      (ref_ID ref) = Some (fst (sharedEffect au ref m' e)) /\
    snd (if storeRefuses au e m' then (registry health, refusal) else runLocal now' (registry health) ref m') =
      snd (sharedEffect au ref m' e)).
  { unfold sharedEffect. destruct (storeRefuses au e m'); [split; [apply Ht|reflexivity]|auto]. }
  destruct Hl as [L1' L2']. rewrite L1', L2', (runShared_apply health now epoch _ ref m' s e (tg_entry _ _ _ Ht)).
  destruct (refused ref m' e) eqn:En.
  - assert (F : fst (sharedEffect au ref m' e) = e /\ matches (snd (sharedEffect au ref m' e)) false false false).
    { unfold sharedEffect. destruct (storeRefuses au e m'); [now repeat split|].
      destruct (refused_effect ref m' e En) as (F1 & F2 & F3 & F4). split; [exact F1|]. unfold matches. rewrite F2, F3.
      split_and!; auto. now destruct (snd (fst (snd (effect ref m' e)))). }
    destruct F as [F1 F2]. exists e, e, au, noResult. rewrite F1. cbn. split_and!; auto; [apply Ht|constructor; reflexivity].
  - destruct (apply_spec health now epoch ref m' s e au Ht Hm Hr Hver Hf Hep En)
      as (e1 & au' & res & ep & v & A1 & A2 & A3 & A4 & _ & A5 & A6 & A7 & _).
    exists e1, (fst (sharedEffect au ref m' e)), au', res. split_and!; auto. now constructor.
Qed.

(** Versions name contents.  A mutation that publishes nothing left the record
    as it was; one that publishes raised the version by one, and any peer of the same
    identity that is not already ahead adopts, from the event alone, exactly the
    condition the writing instance mirrors. *)
Theorem peers_adopt_change health now epoch ref m (s : St) e au :
  call_ok health ref m s e au epoch -> 0 < ref_ID ref <= 2 ^ 53 ->
  let k := healthKey health (ref_ID ref) in
  let o := runShared health now epoch QuotaStore.Delivered ref m s in
  match out_event o with
  | None => hashOf (out_store o) k = hashOf s k
  | Some ev =>
    versionOf (hashOf (out_store o) k) = versionOf (hashOf s k) + 1 /\
    forall peer now' p, origin peer <> origin health -> entryLocked (registry peer) (ref_ID ref) = Some p ->
      p.(IdentityGeneration) = e.(IdentityGeneration) ->
      (hashOf (out_store o) k !! "ep"%string = Some p.(sharedEpoch) -> p.(sharedVersion) <= versionOf (hashOf (out_store o) k)) ->
      exists e1 p1, entryLocked (registry (out_health o)) (ref_ID ref) = Some e1 /\
        entryLocked (registry (handle peer now' (Some ev))) (ref_ID ref) = Some p1 /\ same_condition p1 e1
  end.
Proof.
  intros [Ht Hm Hr Hver Hf Hep] Hid. cbn zeta.
  rewrite (runShared_apply health now epoch _ ref m s e (tg_entry _ _ _ Ht)). destruct (refused ref m e) eqn:En; [reflexivity|].
  destruct (apply_spec health now epoch ref m s e au Ht Hm Hr Hver Hf Hep En)
    as (e1 & au' & res & ep & v & A1 & A2 & _ & A4 & A4' & _ & _ & _ & Hev).
  destruct (out_event _) as [ev|]; [|exact Hev]. destruct Hev as [-> ->].
  rewrite (versionOf_holds _ _ _ A4'). split; [reflexivity|]. intros peer now' p Ho Hp Hi Hpv.
  exists e1, (mirrorHealth p (sharedOf (stamp ep (versionOf (hashOf s (healthKey health (ref_ID ref))) + 1) (fst (sharedEffect au ref m e))) au')).
  split; [exact A1|]. split.
  - unfold handle. cbn [ev_ID ev_Origin ev_State]. rewrite dbl_small by lia. rewrite (proj2 (Z.eqb_neq _ 0)) by lia.
    rewrite (proj2 (String.eqb_neq _ _)) by congruence. rewrite (decode_holds _ _ _ A4'). cbn [registry set]. unfold const.
    destruct (sharedEffect_config au ref m e) as [_ Ci].
    apply mirror_applies; [exact Hp|apply A4'|rewrite Hi; symmetry; exact Ci|]. intros E. apply Hpv. now rewrite (proj1 A4'), E.
  - pose proof (mirror_condition p (stamp ep (versionOf (hashOf s (healthKey health (ref_ID ref))) + 1) (fst (sharedEffect au ref m e))) au') as [C1 C2 C3 C4 C5 C6].
    destruct A2 as [D1 D2 D3 D4 D5 D6]. cbn in C1, C2, C3, C4, C5, C6. unfold const in *.
    constructor; etransitivity; eauto; symmetry; assumption.
Qed.

(** The gateway's two branches agree.  Whether a health effect goes through the
    shared store or through the local fallback taken when the store is unreachable,
    the attempt is recorded in the statistics, and a state change logged, in exactly
    the same cases, and the mirrored entry ends in the same condition, unless the store
    refuses the call for the version of its stored auth state. *)
Theorem gateway_branches_agree health now epoch ref version eff attemptNow threshold (s : St) e au m :
  mutationOf eff version attemptNow threshold = Some m -> call_ok health ref m s e au epoch -> storeRefuses au e m = false ->
  let '(h1, s1, r1) := applyDecisionEffect health now epoch QuotaStore.Delivered ref version eff attemptNow threshold s in
  let '(h2, s2, r2) := applyDecisionEffect health now epoch QuotaStore.NotDelivered ref version eff attemptNow threshold s in
  r1 = r2 /\ s2 = s /\
  exists e1 e2, entryLocked (registry h1) (ref_ID ref) = Some e1 /\ entryLocked (registry h2) (ref_ID ref) = Some e2 /\
    same_condition e1 e2 /\ AuthState e1 = AuthState e2.
Proof.
  intros Em [Ht Hm Hr Hver Hf Hep] Ha. pose proof Ht as [T1 T2 T3 T4 T5 T6].
  assert (Hcur : credentialTargetCurrent (registry health) ref = true).
  { unfold credentialTargetCurrent, CredentialRefOf. rewrite T1. cbn. now rewrite T4, T5, !Z.eqb_refl. }
  unfold applyDecisionEffect, applySharedEffect, applyLocalEffect. rewrite Em, Hcur. cbn [negb].
  rewrite !(runShared_apply health now epoch _ ref m s e T1).
  pose proof (runLocal_effect now (registry health) ref m e au Ht (mirrors_healthy _ _ _ Hm) Hr (fits_auth _ _ _ Hf)) as [L1 L2].
  assert (Hnd : apply health ref (opOf ref m) now epoch QuotaStore.NotDelivered s = mkOutcome health s (Err StoreUnavailable) None).
  { unfold apply. now rewrite (proj2 (Z.eqb_neq _ _) T3). }
  rewrite Hnd. destruct (refused ref m e) eqn:En.
  - cbn [out_result refuse out_health out_store]. split_and!; [reflexivity..|]. exists e, e. split_and!; auto. now constructor.
  - destruct (apply_spec health now epoch ref m s e au Ht Hm Hr Hver Hf Hep En)
      as (e1 & au' & res & ep & v & A1 & A2 & A3 & _ & _ & A5 & HB & _). rewrite A5.
    unfold sharedEffect in A2, A3, HB. rewrite Ha in A2, A3, HB. destruct HB as (B1 & B2 & B3).
    cbn [out_result out_health out_store]. destruct (runLocal now (registry health) ref m) as [rl vl]. cbn in L1, L2. subst vl.
    rewrite Hcur. cbn [registry set]. unfold const. split_and!; [|reflexivity|eauto 7].
    rewrite B1, B2. destruct eff; try discriminate Em; injection Em as <-; cbn [refused effect] in *.
    + rewrite En in *. destruct (cooledModel _ _ _ _ e) as [[e' acc] chg]. cbn in *. now rewrite B3.
    + rewrite En in *. cbn in *. now rewrite B3.
    + reflexivity.
Qed.

End Agree.

(** ** Witnesses *)

Definition sampleEntry : CredentialEntry :=
  mkEntry "primary" 7 3 1 11 "fp" None 0 CredentialStatusActive CredentialAuthStateReady 0 ∅ 0 false 0 0 "secret" "" "" None 0 "" 0.
Definition sampleRef : CredentialRef := credentialRef sampleEntry.
Definition sampleRegistry : CredentialRegistry := mkRegistry NewSchedulingState {[3 := {[7 := sampleEntry]}]} {[7 := 3]}.
Definition sampleHealth (name : string) : CredentialHealth := mkHealth "gw" name sampleRegistry.
Definition emptyDB : DB := mkDB 0 ∅.

Lemma sample_call m : fits m sampleEntry sampleRef -> call_ok (sampleHealth "a") sampleRef m emptyDB sampleEntry None "e1".
Proof.
  intros Hf. constructor; auto; try discriminate.
  - constructor; try reflexivity. discriminate.
  - apply mirrors_none; [reflexivity|constructor; reflexivity|cbn; unfold max_uint64; lia].
  - constructor; cbn; unfold max_int64; lia.
Qed.

(** A cooldown whose deadline has a fraction of a millisecond. *)
Lemma shared_mutation_simulates_local_witness :
  let o := runShared (sampleHealth "a") 5 "e1" QuotaStore.Delivered sampleRef (MCooldown 1000000005 1) emptyDB in
  exists e1, entryLocked (registry (out_health o)) 7 = Some e1 /\ CooldownUntil e1 = 1000000000.
Proof.
  destruct (shared_mutation_simulates_local (sampleHealth "a") 5 5 "e1" sampleRef (MCooldown 1000000005 1) emptyDB sampleEntry None)
    as (e1 & e2 & _ & _ & H1 & H2 & [C1 _ _ _ _ _] & _).
  - exact I.
  - apply sample_call. exists 1000. now vm_compute.
  - exists e1. split; [exact H1|]. vm_compute in H2. injection H2 as <-. rewrite C1. reflexivity.
Defined.

Lemma peers_adopt_change_witness :
  let o := runShared (sampleHealth "a") 5 "e1" QuotaStore.Delivered sampleRef (MFail 1) emptyDB in
  exists ev p, out_event o = Some ev /\ entryLocked (registry (handle (sampleHealth "b") 6 (Some ev))) 7 = Some p /\ FailureCount p = 1.
Proof.
  pose proof (peers_adopt_change (sampleHealth "a") 5 "e1" sampleRef (MFail 1) emptyDB sampleEntry None
    (sample_call (MFail 1) ltac:(cbn; lia)) ltac:(cbn; lia)) as H. cbn zeta in *.
  destruct (out_event (runShared (sampleHealth "a") 5 "e1" QuotaStore.Delivered sampleRef (MFail 1) emptyDB)) as [ev|] eqn:E;
    [|exfalso; vm_compute in H; discriminate H].
  destruct H as [_ H]. destruct (H (sampleHealth "b") 6 sampleEntry ltac:(discriminate) eq_refl eq_refl) as (e1 & p & H1 & H2 & C).
  { intros Hep. exfalso. vm_compute in Hep. discriminate Hep. }
  exists ev, p. split; [reflexivity|]. split; [exact H2|]. rewrite (sc_count _ _ C). vm_compute in H1. injection H1 as <-. reflexivity.
Defined.

Lemma gateway_branches_agree_witness :
  snd (applyDecisionEffect (sampleHealth "a") 5 "e1" QuotaStore.Delivered sampleRef 0 EffectRecordCredentialFailure 4 1 emptyDB) =
  snd (applyDecisionEffect (sampleHealth "a") 5 "e1" QuotaStore.NotDelivered sampleRef 0 EffectRecordCredentialFailure 4 1 emptyDB).
Proof.
  pose proof (gateway_branches_agree (sampleHealth "a") 5 "e1" sampleRef 0 EffectRecordCredentialFailure 4 1 emptyDB sampleEntry None
    (MFail 1) eq_refl (sample_call (MFail 1) ltac:(cbn; lia)) eq_refl) as H.
  destruct (applyDecisionEffect (sampleHealth "a") 5 "e1" QuotaStore.Delivered _ _ _ _ _ _) as [[h1 s1] r1].
  destruct (applyDecisionEffect (sampleHealth "a") 5 "e1" QuotaStore.NotDelivered _ _ _ _ _ _) as [[h2 s2] r2].
  apply H.
Defined.

(** ** Where the two differ *)

(** A record that still carries the auth state of secret version 1. *)
Definition olderAuthDB : DB :=
  foldl (fun s p => HSET s (healthKey (sampleHealth "a") 7) p.1 p.2) emptyDB
    [("ep", "e1"); ("ver", "1"); ("idg", "11"); ("fg", "0"); ("mg", "0"); ("auth", "ready"); ("asv", "1")]%string.

Definition rotatedRegistry : CredentialRegistry :=
  mkRegistry NewSchedulingState {[3 := {[7 := sampleEntry <| Version := 2 |>]}]} {[7 := 3]}.

(** While the stored auth state belongs to an older secret version, a cooldown guarded
    by the current version is accepted by the registry and rejected by the script. *)
Lemma guarded_cooldown_differs :
  let m := MCooldown (1000 * millisecond) 2 in
  snd (runLocal 5 rotatedRegistry sampleRef m) = (true, Some true, false) /\
  out_result (runShared (mkHealth "gw" "a" rotatedRegistry) 5 "e2" QuotaStore.Delivered sampleRef m olderAuthDB) =
    Ok (mkResult false false 0 false).
Proof. split; vm_compute; reflexivity. Qed.

End HealthAgree.
