(* ===== verification/Concurrency.v ===== *)
(** * Shared concurrency limits

    [internal/cluster/concurrency.go]: a scope (a credential, an access key, a group,
    the cluster) caps the work in flight with one sorted set of slots, scored by
    their expiry on the server clock.  A slot is taken without waiting, renewed while
    its work runs and removed when the work ends; the slots of a crashed instance
    expire.  The theorems speak of every interleaving of any number of instances. *)

From Stdlib Require Import ZArith Lia Bool String Ascii List Permutation.
From stdpp Require Import base gmap sets list strings sorting.
From coqutil Require Import Datatypes.RecordSettersUsingExistingGetters.
From S2P Require Import Prelude GoStrings Redis Lua QuotaStore HealthStore.

Local Open Scope Z_scope.
Local Open Scope go_scope.

Module Concurrency.
Import Redis QuotaStore.

Definition concurrencyTTL : Z := 30 * 1000.

Section Store.
Context {St : Type} {R : RedisStore St}.

(** ** Scripts *)

Definition acquireSlotScript (k : string) (limit ttl : Z) (token : string) (s : St) : St * Z :=
  let now := CLOCK s in
  let s := ZREMRANGEBYSCORE s k now in
  if ZCARD s k >=? limit then (s, 0)
  else (fst (PEXPIRE (ZADD s k (now + ttl) token) k ttl), 1).

(** The renewal loop over the tokens. *)
Fixpoint renewTokens (k : string) (deadline : Z) (tokens : list string) (s : St) : St * Z :=
  match tokens with
  | [] => (s, 0)
  | token :: tokens =>
    match ZSCORE s k token with
    | Some _ =>
      let '(s, renewed) := renewTokens k deadline tokens (ZADD s k deadline token) in (s, renewed + 1)
    | None => renewTokens k deadline tokens s
    end
  end.

Definition renewSlotsScript (k : string) (ttl : Z) (tokens : list string) (s : St) : St * Z :=
  let now := CLOCK s in
  let s := ZREMRANGEBYSCORE s k now in
  let '(s, renewed) := renewTokens k (now + ttl) tokens s in
  (if renewed >? 0 then fst (PEXPIRE s k ttl) else s, renewed).

(** [ZCOUNT (now +inf]. *)
Definition inflightScript (k : string) (s : St) : Z :=
  Z.of_nat (length (List.filter (fun p => CLOCK s <? p.2) (ZRANGE s k))).

(** ** The limiter of one instance *)

Record Limiter := mkLimiter {
  limiterPrefix : string;
  instanceID : string;
  held : gmap string (gset string);
  renewing : bool;
}.

Definition NewConcurrency (prefix instance : string) : Limiter := mkLimiter prefix instance ∅ false.

Definition inflightKey (limiter : Limiter) (tag : string) : string := Key limiter.(limiterPrefix) [tag; "inflight"]%string.
Definition credentialKey (limiter : Limiter) (id : Z) : string := inflightKey limiter (HealthStore.credentialHashTag id).
Definition accessKeyKey (limiter : Limiter) (id : Z) : string := inflightKey limiter (accessKeyHashTag id).
Definition groupKey (limiter : Limiter) (id : Z) : string :=
  inflightKey limiter ("{group:" +:+ decimal id +:+ "}")%string.
Definition globalKey (limiter : Limiter) : string := Key limiter.(limiterPrefix) ["concurrency"; "global"]%string.
Definition proxyTestKey (limiter : Limiter) : string :=
  Key limiter.(limiterPrefix) ["concurrency"; "{proxy-test}"; "inflight"]%string.

Definition heldAt (limiter : Limiter) (k : string) : gset string := default ∅ (limiter.(held) !! k).

Definition hold (limiter : Limiter) (k token : string) : Limiter :=
  limiter <| held := <[k := {[token]} ∪ heldAt limiter k]> limiter.(held) |> <| renewing := true |>.

Definition drop (limiter : Limiter) (k token : string) : Limiter :=
  let tokens := heldAt limiter k ∖ {[token]} in
  limiter <| held := if bool_decide (tokens = ∅) then delete k limiter.(held)
                     else <[k := tokens]> limiter.(held) |>.

(** What a successful acquisition returns: nothing to release, or slots. *)
Inductive Permit := Unlimited | Slot (k token : string) | Both (first second : Permit).

(** One command; [None] is an unavailable store. *)
Definition runCommand {A} (f : St -> St * A) (w : World (St := St)) : World (St := St) * option A :=
  match w.(calls) with
  | [] => (w, None)
  | (others, delivery) :: rest =>
    let s := others O w.(store) in
    match delivery with
    | NotDelivered => (mkWorld s rest, None)
    | Delivered => let '(s, a) := f s in (mkWorld s rest, Some a)
    | ReplyLost => let '(s, _) := f s in (mkWorld s rest, None)
    end
  end.

(** [None] is an error, [Some None] a full scope. *)
Definition acquire (limiter : Limiter) (k : string) (limit : Z) (random : string) (w : World (St := St))
    : Limiter * World (St := St) * option (option Permit) :=
  if limit <=? 0 then (limiter, w, Some (Some Unlimited))
  else
    let token := (limiter.(instanceID) +:+ ":" +:+ random)%string in
    let '(w, taken) := runCommand (acquireSlotScript k limit concurrencyTTL token) w in
    match taken with
    | None => (limiter, w, None)
    | Some taken => if taken =? 1 then (hold limiter k token, w, Some (Some (Slot k token)))
                    else (limiter, w, Some None)
    end.

(** The release function; a failed removal is logged and left to expire. *)
Fixpoint release (limiter : Limiter) (permit : Permit) (w : World (St := St)) : Limiter * World (St := St) :=
  match permit with
  | Unlimited => (limiter, w)
  | Slot k token => (drop limiter k token, fst (runCommand (fun s => (ZREM s k token, tt)) w))
  | Both first second => let '(limiter, w) := release limiter second w in release limiter first w
  end.

Definition Acquire (limiter : Limiter) (credentialID limit : Z) (random : string) (w : World (St := St)) :=
  acquire limiter (credentialKey limiter credentialID) limit random w.
Definition AcquireGroup (limiter : Limiter) (groupID limit : Z) (random : string) (w : World (St := St)) :=
  acquire limiter (groupKey limiter groupID) limit random w.
Definition AcquireProxyTest (limiter : Limiter) (random : string) (w : World (St := St)) :=
  acquire limiter (proxyTestKey limiter) 8 random w.

Definition AcquireRequest (limiter : Limiter) (accessKeyID globalLimit keyLimit : Z) (random1 random2 : string)
    (w : World (St := St)) : Limiter * World (St := St) * option (option Permit) :=
  match acquire limiter (globalKey limiter) globalLimit random1 w with
  | (limiter, w, Some (Some global)) =>
    match acquire limiter (accessKeyKey limiter accessKeyID) keyLimit random2 w with
    | (limiter, w, Some (Some keyPermit)) => (limiter, w, Some (Some (Both global keyPermit)))
    | (limiter, w, outcome) => let '(limiter, w) := release limiter global w in (limiter, w, outcome)
    end
  | (limiter, w, outcome) => (limiter, w, outcome)
  end.

(** ** Renewal and counts *)

(** One renewal script per held key, in one pipeline. *)
Fixpoint renewKeys (i : nat) (others : nat -> St -> St) (keys : list (string * gset string)) (s : St)
    : St * list (string * list string * Z) :=
  match keys with
  | [] => (s, [])
  | (k, tokens) :: keys =>
    let '(s, renewed) := renewSlotsScript k concurrencyTTL (elements tokens) (others i s) in
    let '(s, rest) := renewKeys (S i) others keys s in
    (s, (k, elements tokens, renewed) :: rest)
  end.

Definition stillHeld (limiter : Limiter) (k : string) (tokens : list string) : Z :=
  Z.of_nat (length (List.filter (fun t => bool_decide (t ∈ heldAt limiter k)) tokens)).

(** [renewHeld]: whether the loop goes on, and the keys reported as lost.  [later] is
    the limiter when the replies are read, releases in between included. *)
Definition renewHeld (limiter later : Limiter) (w : World (St := St)) : Limiter * World (St := St) * (bool * list string) :=
  if bool_decide (limiter.(held) = ∅) then (limiter <| renewing := false |>, w, (false, []))
  else match w.(calls) with
  | [] => (limiter, w, (true, []))
  | (others, delivery) :: rest =>
    match delivery with
    | NotDelivered => (limiter, mkWorld (others O w.(store)) rest, (true, []))
    | _ =>
      let '(s, replies) := renewKeys O others (map_to_list limiter.(held)) w.(store) in
      (limiter, mkWorld s rest,
       (true, match delivery with
              | Delivered => map (fun r => r.1.1) (List.filter (fun r => r.2 <? stillHeld later r.1.1 r.1.2) replies)
              | _ => []
              end))
    end
  end.

Fixpoint inflight (i : nat) (others : nat -> St -> St) (keys : list string) (s : St) : St * list Z :=
  match keys with
  | [] => (s, [])
  | k :: keys =>
    let s := others i s in
    let '(s', counts) := inflight (S i) others keys s in
    (s', inflightScript k s :: counts)
  end.

Definition inflightByID (limiter : Limiter) (key : Limiter -> Z -> string) (others : nat -> St -> St) (ids : list Z) (s : St)
    : St * gmap Z Z :=
  let '(s, counts) := inflight O others (map (key limiter) ids) s in
  (s, list_to_map (rev (zip ids counts))).

Definition GlobalInflight (limiter : Limiter) (s : St) : Z := inflightScript (globalKey limiter) s.
Definition AccessKeyInflight (limiter : Limiter) := inflightByID limiter accessKeyKey.
Definition GroupInflight (limiter : Limiter) := inflightByID limiter groupKey.

End Store.
End Concurrency.
