(* ===== verification/ConcurrencyProps.v ===== *)
(** * Shared concurrency limits: properties

    Over every interleaving of acquisitions, renewals, releases, expiry and foreign
    commands: a scope never has more live slots than its limit, a taken slot stays
    live for its whole lifetime whatever the others do, and a rejected request keeps
    nothing. *)

From Stdlib Require Import ZArith Lia Bool String Ascii List Permutation.
From stdpp Require Import base gmap sets list strings sorting.
From coqutil Require Import Datatypes.RecordSettersUsingExistingGetters.
From S2P Require Import Prelude GoStrings Redis Lua QuotaStore HealthStore Concurrency.

Local Open Scope Z_scope.

Module ConcurrencyProps.
Import Redis QuotaStore Concurrency.

Section Slots.
Context {St : Type} {R : RedisStore St} {ROk : RedisOk St}.
Implicit Types (s : St).
Variable k : string.

(** The slots of the scope that have not expired. *)
Definition live s : gmap string Z := filter (fun '(_, score) => CLOCK s < score) (zsetOf s k).

(** The sorted set lives at least as long as its slots, which end within one lifetime. *)
Definition timed s : Prop := forall m score, zsetOf s k !! m = Some score ->
  score <= CLOCK s + concurrencyTTL /\ match DEADLINE s k with Some d => score <= d | None => True end.

(** One step of any instance, or of time; only tokens in [may] are released, and
    limits are at most [L]. *)
Inductive slot_step (L : Z) (may : string -> Prop) : St -> St -> Prop :=
| SAcquire limit token s : limit <= L -> slot_step L may s (fst (acquireSlotScript k limit concurrencyTTL token s))
| SRenew tokens s : slot_step L may s (fst (renewSlotsScript k concurrencyTTL tokens s))
| SRelease token s : may token -> slot_step L may s (ZREM s k token)
| SElapse t s : CLOCK s <= t -> slot_step L may s (ELAPSE s t)
| SOther s s' : CLOCK s' = CLOCK s -> zsetOf s' k = zsetOf s k -> DEADLINE s' k = DEADLINE s k -> slot_step L may s s'.

(** ** Commands *)

Lemma sweep_zset s : zsetOf (ZREMRANGEBYSCORE s k (CLOCK s)) k = live s.
Proof. apply ZREMRANGEBYSCORE_ok. Qed.

Lemma live_lookup s m score : live s !! m = Some score <-> zsetOf s k !! m = Some score /\ CLOCK s < score.
Proof. unfold live. now rewrite map_lookup_filter_Some. Qed.

(** Writing to the set, then expiring it one lifetime from now. *)
Lemma expire_zset s : zsetOf s k <> ∅ -> let s' := fst (PEXPIRE s k concurrencyTTL) in
  zsetOf s' k = zsetOf s k /\ CLOCK s' = CLOCK s /\ DEADLINE s' k = Some (CLOCK s + concurrencyTTL).
Proof.
  intros H. cbn zeta. destruct (PEXPIRE_ok s k concurrencyTTL) as (_ & E1 & _ & E2 & _); [reflexivity|right; now left|].
  split_and!; auto. apply PEXPIRE_only.
Qed.

Lemma kept_bound s s' (x : Z) : deadline_kept k s s' ->
  match DEADLINE s k with Some d => x <= d | None => True end -> match DEADLINE s' k with Some d => x <= d | None => True end.
Proof. intros [->| ->]; auto. Qed.

Lemma kept_trans s1 s2 s3 : deadline_kept k s1 s2 -> deadline_kept k s2 s3 -> deadline_kept k s1 s3.
Proof. unfold deadline_kept. intuition congruence. Qed.

Lemma kept_refl s : deadline_kept k s s.
Proof. now left. Qed.

(** What the renewal loop does to the set. *)
Lemma renewTokens_spec d tokens : forall s s' n, renewTokens k d tokens s = (s', n) ->
  CLOCK s' = CLOCK s /\ deadline_kept k s s' /\ 0 <= n /\ (n = 0 -> zsetOf s' k = zsetOf s k) /\
  (forall m, zsetOf s' k !! m = (fun score => if decide (m ∈ tokens) then d else score) <$> zsetOf s k !! m).
Proof.
  induction tokens as [|t tokens IH]; intros s s' n E; cbn [renewTokens] in E.
  { injection E as <- <-. split_and!; auto; [apply kept_refl|lia|]. intros m. destruct (zsetOf s k !! m); cbn; [|reflexivity].
    now rewrite decide_False by (now rewrite elem_of_nil). }
  rewrite ZSCORE_ok in E. destruct (zsetOf s k !! t) as [score|] eqn:Et.
  - destruct (renewTokens k d tokens (ZADD s k d t)) as [s1 n1] eqn:E1. injection E as <- <-.
    destruct (IH _ _ _ E1) as (C & K & N & _ & Z). rewrite (ok_clock _ _ _ (ZADD_only s k d t)) in C. split_and!; auto; [|lia|lia|].
    + eapply kept_trans; [apply ZADD_deadline|exact K].
    + intros m. rewrite Z, ZADD_ok. destruct (decide (m = t)) as [->|Hne].
      * rewrite lookup_insert_eq, Et. cbn. rewrite (decide_True (P := t ∈ t :: tokens)) by (now left). now case_decide.
      * rewrite lookup_insert_ne by congruence. destruct (zsetOf s k !! m); cbn; [|reflexivity]. f_equal.
        apply decide_ext. rewrite elem_of_cons. tauto.
  - destruct (IH _ _ _ E) as (C & K & N & N0 & Z). split_and!; auto. intros m. rewrite Z.
    destruct (decide (m = t)) as [->|Hne]; [now rewrite Et|]. destruct (zsetOf s k !! m); cbn; [|reflexivity]. f_equal.
    apply decide_ext. rewrite elem_of_cons. tauto.
Qed.

Lemma renewTokens_some d tokens : forall s s' n, renewTokens k d tokens s = (s', n) -> 0 < n -> zsetOf s' k <> ∅.
Proof.
  induction tokens as [|t tokens IH]; intros s s' n E Hn; cbn [renewTokens] in E; [injection E as <- <-; lia|].
  rewrite ZSCORE_ok in E. destruct (zsetOf s k !! t) as [score|] eqn:Et; [|eapply IH; eauto].
  destruct (renewTokens k d tokens (ZADD s k d t)) as [s1 n1] eqn:E1. injection E as <- <-.
  destruct (renewTokens_spec _ _ _ _ _ E1) as (_ & _ & _ & _ & Z). intros He. specialize (Z t).
  rewrite He, ZADD_ok, lookup_empty, lookup_insert_eq in Z. discriminate.
Qed.

(** A script leaves a set whose members are either live slots kept or rescored, or
    the one slot just taken. *)
Lemma acquire_effect limit token s : let '(s', taken) := acquireSlotScript k limit concurrencyTTL token s in
  CLOCK s' = CLOCK s /\
  ((taken = 0 /\ zsetOf s' k = live s /\ deadline_kept k s s' /\ limit <= Z.of_nat (size (live s))) \/
   (taken = 1 /\ zsetOf s' k = <[token := CLOCK s + concurrencyTTL]> (live s) /\
    DEADLINE s' k = Some (CLOCK s + concurrencyTTL) /\ Z.of_nat (size (live s)) < limit)).
Proof.
  unfold acquireSlotScript. set (s1 := ZREMRANGEBYSCORE s k (CLOCK s)).
  assert (C1 : CLOCK s1 = CLOCK s) by apply ZREMRANGEBYSCORE_only.
  rewrite ZCARD_ok. subst s1. rewrite sweep_zset. set (s1 := ZREMRANGEBYSCORE s k (CLOCK s)) in *.
  destruct (Z.geb_spec (Z.of_nat (size (live s))) limit) as [Hl|Hl].
  - split; [assumption|]. left. split_and!; auto; [apply sweep_zset|apply ZREMRANGEBYSCORE_deadline].
  - set (s2 := ZADD s1 k (CLOCK s + concurrencyTTL) token).
    assert (C2 : CLOCK s2 = CLOCK s) by (subst s2; now rewrite (ok_clock _ _ _ (ZADD_only _ _ _ _))).
    assert (Z2 : zsetOf s2 k = <[token := CLOCK s + concurrencyTTL]> (live s)) by (subst s2; rewrite ZADD_ok; subst s1; now rewrite sweep_zset).
    destruct (expire_zset s2) as (E1 & E2 & E3); [rewrite Z2; apply insert_non_empty|].
    split; [congruence|]. right. split_and!; auto; congruence.
Qed.

Lemma renew_effect tokens s : let s' := fst (renewSlotsScript k concurrencyTTL tokens s) in
  CLOCK s' = CLOCK s /\
  (forall m, zsetOf s' k !! m =
     (fun score => if decide (m ∈ tokens) then CLOCK s + concurrencyTTL else score) <$> live s !! m) /\
  ((zsetOf s' k = live s /\ deadline_kept k s s') \/ DEADLINE s' k = Some (CLOCK s + concurrencyTTL)).
Proof.
  unfold renewSlotsScript. cbn zeta. set (s1 := ZREMRANGEBYSCORE s k (CLOCK s)).
  assert (C1 : CLOCK s1 = CLOCK s) by apply ZREMRANGEBYSCORE_only.
  assert (Z1 : zsetOf s1 k = live s) by apply sweep_zset.
  destruct (renewTokens k (CLOCK s + concurrencyTTL) tokens s1) as [s2 n] eqn:E.
  destruct (renewTokens_spec _ _ _ _ _ E) as (C2 & K2 & N & N0 & Z2). rewrite Z1 in *. cbn [fst].
  destruct (Z.gtb_spec n 0) as [Hn|Hn].
  - destruct (expire_zset s2 (renewTokens_some _ _ _ _ _ E ltac:(lia))) as (E1 & E2 & E3).
    split_and!; [congruence|intros m; now rewrite E1|right; congruence].
  - split_and!; [congruence|exact Z2|]. left. split; [apply N0; lia|].
    eapply kept_trans; [apply ZREMRANGEBYSCORE_deadline|exact K2].
Qed.

(** ** Steps *)

Lemma timed_step L may s s' : slot_step L may s s' -> timed s -> timed s'.
Proof.
  intros Hs H. assert (HL : forall m score, live s !! m = Some score ->
    score <= CLOCK s + concurrencyTTL /\ match DEADLINE s k with Some d => score <= d | None => True end)
    by (intros m score [Hm _]%live_lookup; exact (H m score Hm)).
  destruct Hs as [limit token s Hl|tokens s|token s Hm|t s Ht|s s' C Z D]; intros m score E.
  - pose proof (acquire_effect limit token s) as He. destruct (acquireSlotScript _ _ _ _ s) as [s' taken]. cbn [fst] in *.
    destruct He as (C & [(_ & Z & K & _)|(_ & Z & D & _)]); rewrite Z in E; rewrite C.
    + destruct (HL m score E). split; [assumption|]. now apply (kept_bound s).
    + rewrite D. apply lookup_insert_Some in E as [[_ <-]|[_ E]]; [lia|]. destruct (HL m score E). lia.
  - destruct (renew_effect tokens s) as (C & Z & D). rewrite Z in E. rewrite C.
    destruct (live s !! m) as [old|] eqn:Eo; [|discriminate]. cbn in E. injection E as <-. destruct (HL m old Eo) as [B1 B2].
    split; [case_decide; lia|]. destruct D as [[D K]| ->]; [|case_decide; lia].
    apply (kept_bound s); [assumption|]. specialize (Z m). rewrite D, Eo in Z. injection Z as <-. assumption.
  - rewrite ZREM_ok in E. apply lookup_delete_Some in E as [_ E]. rewrite (ok_clock _ _ _ (ZREM_only s k token)).
    destruct (H m score E). split; [assumption|]. apply (kept_bound s); [apply ZREM_deadline|assumption].
  - rewrite ELAPSE_clock by assumption. destruct (ELAPSE_key s t k Ht) as [(_ & Z & _ & D)|(_ & Z & _)]; rewrite Z in E.
    + rewrite D. destruct (H m score E). split; [lia|assumption].
    + now rewrite lookup_empty in E.
  - rewrite C, D. rewrite Z in E. exact (H m score E).
Qed.

Lemma size_le_keys (a b : gmap string Z) : (forall m, is_Some (a !! m) -> is_Some (b !! m)) -> (size a <= size b)%nat.
Proof.
  intros H. rewrite <- !size_dom. apply subseteq_size. intros m. rewrite !elem_of_dom. apply H.
Qed.

(** Live slots after a step: kept from before, or the slot just taken. *)
Lemma live_step L may s s' : slot_step L may s s' -> Z.of_nat (size (live s)) <= L -> Z.of_nat (size (live s')) <= L.
Proof.
  intros Hs H. assert (Hle : (forall m, is_Some (live s' !! m) -> is_Some (live s !! m)) -> Z.of_nat (size (live s')) <= L)
    by (intros Hk; pose proof (size_le_keys _ _ Hk); lia).
  destruct Hs as [limit token s Hl|tokens s|token s Hm|t s Ht|s s' C Z D].
  - pose proof (acquire_effect limit token s) as He. destruct (acquireSlotScript _ _ _ _ s) as [s' taken]. cbn [fst] in *.
    destruct He as (C & [(_ & Z & _)|(_ & Z & _ & Hlt)]).
    + apply Hle. intros m [score [Hm _]%live_lookup]. rewrite Z in Hm. eauto.
    + assert (size (live s') <= size (<[token := (CLOCK s + concurrencyTTL)%Z]> (live s)))%nat.
      { apply size_le_keys. intros m [score [Hm _]%live_lookup]. rewrite Z in Hm. eauto. }
      rewrite map_size_insert in *. destruct (live s !! token); cbn in *; lia.
  - destruct (renew_effect tokens s) as (C & Z & _). apply Hle. intros m [score [Hm _]%live_lookup]. rewrite Z in Hm.
    destruct (live s !! m); [eauto|discriminate].
  - apply Hle. intros m [score [Hm' Hc]%live_lookup]. rewrite ZREM_ok in Hm'. apply lookup_delete_Some in Hm' as [_ Hm'].
    rewrite (ok_clock _ _ _ (ZREM_only s k token)) in Hc. exists score. now apply live_lookup.
  - apply Hle. intros m [score [Hm Hc]%live_lookup]. rewrite ELAPSE_clock in Hc by assumption. exists score. apply live_lookup.
    destruct (ELAPSE_key s t k Ht) as [(_ & Z & _)|(_ & Z & _)]; rewrite Z in Hm; [split; [assumption|lia]|now rewrite lookup_empty in Hm].
  - apply Hle. intros m [score [Hm Hc]%live_lookup]. rewrite Z in Hm. rewrite C in Hc. exists score. now apply live_lookup.
Qed.

Lemma clock_step L may s s' : slot_step L may s s' -> CLOCK s <= CLOCK s'.
Proof.
  destruct 1 as [limit token s Hl|tokens s|token s Hm|t s Ht|s s' C Z D].
  - pose proof (acquire_effect limit token s) as He. destruct (acquireSlotScript _ _ _ _ s). cbn. destruct He as [-> _]. lia.
  - destruct (renew_effect tokens s) as (-> & _). lia.
  - rewrite (ok_clock _ _ _ (ZREM_only s k token)). lia.
  - rewrite ELAPSE_clock; assumption.
  - lia.
Qed.

(** The slot of [token] runs at least until [d]. *)
Definition runs_until (token : string) (d : Z) s : Prop := exists score, zsetOf s k !! token = Some score /\ d <= score.

Lemma survives_step L token d s s' : slot_step L (fun t => t <> token) s s' -> timed s -> CLOCK s' < d ->
  d <= CLOCK s + concurrencyTTL -> runs_until token d s -> runs_until token d s'.
Proof.
  intros Hs Ht Hc Hd (score & Hz & Hle). pose proof (clock_step _ _ _ _ Hs) as Hmono.
  assert (Hlive : live s !! token = Some score) by (apply live_lookup; split; [assumption|lia]).
  destruct Hs as [limit tk s Hl|tokens s|tk s Hm|t s Hct|s s' C Z D].
  - pose proof (acquire_effect limit tk s) as He. destruct (acquireSlotScript _ _ _ _ s) as [s' taken]. cbn [fst] in *.
    destruct He as (C & [(_ & Z & _)|(_ & Z & _)]); unfold runs_until; rewrite Z; [eauto|].
    destruct (decide (tk = token)) as [->|Hne]; [rewrite lookup_insert_eq; eauto|rewrite lookup_insert_ne; eauto].
  - destruct (renew_effect tokens s) as (C & Z & _). unfold runs_until. rewrite Z, Hlive. cbn. case_decide; eauto.
  - exists score. rewrite ZREM_ok, lookup_delete_ne by assumption. auto.
  - exists score. rewrite ELAPSE_clock in Hc by assumption. destruct (ELAPSE_live s t k Hct) as (_ & Z & _).
    + destruct (Ht _ _ Hz) as [_ B]. destruct (DEADLINE s k); [lia|exact I].
    + now rewrite Z.
  - exists score. now rewrite Z.
Qed.

Lemma inflight_live s : inflightScript k s = Z.of_nat (size (live s)).
Proof.
  unfold inflightScript, live. f_equal. rewrite map_filter_alt, map_size_list_to_map.
  - assert (G : forall l l' : list (string * Z), Permutation l l' ->
      length (List.filter (fun p => CLOCK s <? p.2) l) = length (filter (fun '(_, score) => CLOCK s < score) l')).
    { assert (F : forall l : list (string * Z), List.filter (fun p => CLOCK s <? p.2) l = filter (fun '(_, score) => CLOCK s < score) l).
      { induction l as [|[m sc] l IH]; [reflexivity|]. cbn [List.filter snd]. rewrite IH, filter_cons.
        destruct (Z.ltb_spec (CLOCK s) sc); [now rewrite decide_True|rewrite decide_False by lia; reflexivity]. }
      intros l l' Hp. rewrite F. apply Permutation_length. now apply filter_Permutation. }
    apply G, ZRANGE_ok.
  - apply (NoDup_fmap_fst (filter (fun '(_, score) => CLOCK s < score) (map_to_list (zsetOf s k)))).
    + intros m x y Hx Hy. apply list_elem_of_filter in Hx as [_ Hx]. apply list_elem_of_filter in Hy as [_ Hy].
      apply elem_of_map_to_list in Hx, Hy. congruence.
    + apply NoDup_filter, NoDup_map_to_list.
Qed.

Lemma reach_ok L may s0 s : zsetOf s0 k = ∅ -> 0 <= L -> rtc (slot_step L may) s0 s ->
  timed s /\ Z.of_nat (size (live s)) <= L.
Proof.
  intros H0 HL Hs. assert (H : timed s0 /\ Z.of_nat (size (live s0)) <= L).
  { split; [intros m score E; now rewrite H0, lookup_empty in E|]. unfold live. rewrite H0, map_filter_empty, map_size_empty. lia. }
  clear H0. induction Hs as [|s1 s2 s3 H12 _ IH]; [assumption|]. apply IH. destruct H as [H1 H2].
  split; [now apply (timed_step L may s1)|now apply (live_step L may s1)].
Qed.

(** [C25] Concurrency limits hold.  However the acquisitions, renewals, releases and
    crashes of any number of instances interleave, a scope acquired with limits of at
    most [L] never has more than [L] live slots, and the reported number of requests
    in flight is exactly the number of live slots. *)
Theorem slots_within_limit L s0 s : zsetOf s0 k = ∅ -> 0 <= L -> rtc (slot_step L (fun _ => True)) s0 s ->
  Z.of_nat (size (live s)) <= L /\ inflightScript k s = Z.of_nat (size (live s)).
Proof. intros H0 HL Hs. split; [|apply inflight_live]. now apply (reach_ok L (fun _ => True) s0). Qed.

(** A taken slot is kept.  From the moment a slot is granted until one lifetime
    later, no acquisition, renewal, expiry or release of other slots by any instance
    removes it; only its own release does. *)
Theorem taken_slot_survives L s0 s s1 s2 limit token : zsetOf s0 k = ∅ -> 0 <= L ->
  rtc (slot_step L (fun _ => True)) s0 s -> acquireSlotScript k limit concurrencyTTL token s = (s1, 1) -> limit <= L ->
  rtc (slot_step L (fun t => t <> token)) s1 s2 -> CLOCK s2 < CLOCK s + concurrencyTTL ->
  is_Some (live s2 !! token).
Proof.
  intros H0 HL Hs Ha Hl Hr Hc. destruct (reach_ok L _ s0 s H0 HL Hs) as [Ht _].
  assert (Ht1 : timed s1).
  { apply (timed_step L (fun _ => True) s); [|assumption]. replace s1 with (fst (acquireSlotScript k limit concurrencyTTL token s)) by now rewrite Ha.
    now constructor. }
  pose proof (acquire_effect limit token s) as He. rewrite Ha in He. destruct He as (C & [(E & _)|(_ & Z & _)]); [discriminate|].
  assert (Hrun : runs_until token (CLOCK s + concurrencyTTL) s1) by (exists (CLOCK s + concurrencyTTL); rewrite Z, lookup_insert_eq; split; [reflexivity|lia]).
  assert (Hd : CLOCK s + concurrencyTTL <= CLOCK s1 + concurrencyTTL) by lia.
  clear - Hr Hc Ht1 Hrun Hd ROk. set (d := CLOCK s + concurrencyTTL) in *. clearbody d.
  induction Hr as [x|x y z Hxy Hyz IH].
  - destruct Hrun as (score & Hz & Hle). exists score. apply live_lookup. split; [assumption|lia].
  - assert (Hmono : CLOCK y <= CLOCK z).
    { clear - Hyz ROk. induction Hyz as [|a b c Hab _ IH]; [lia|]. pose proof (clock_step _ _ _ _ Hab). lia. }
    apply IH; auto; [now apply (timed_step L (fun t => t <> token) x)|apply (survives_step L token d x y); auto; lia|].
    pose proof (clock_step _ _ _ _ Hxy). lia.
Qed.

End Slots.

(** ** Requests *)

Section Requests.
Context {St : Type} {R : RedisStore St} {ROk : RedisOk St}.

(** No key is listed without a token. *)
Definition held_ok (l : Limiter) : Prop := forall k X, l.(held) !! k = Some X -> X <> ∅.

Lemma drop_hold l k token : held_ok l -> token ∉ heldAt l k -> held (drop (hold l k token) k token) = held l.
Proof.
  intros Hok Hn. unfold drop, hold, heldAt. cbn. unfold const. rewrite lookup_insert_eq. cbn.
  assert (E : ({[token]} ∪ default ∅ (held l !! k)) ∖ {[token]} = default ∅ (held l !! k)) by (unfold heldAt in Hn; set_solver).
  change (default ∅ (Some ({[token]} ∪ default ∅ (held l !! k)))) with ({[token]} ∪ default ∅ (held l !! k)). rewrite E.
  rewrite delete_insert_eq, insert_insert_eq. destruct (held l !! k) as [X|] eqn:Ex; cbn.
  - rewrite bool_decide_eq_false_2 by now apply (Hok k). now apply insert_id.
  - rewrite bool_decide_eq_true_2 by reflexivity. now apply delete_id.
Qed.

(** A rejected request holds nothing.  When [AcquireRequest] returns without a
    permit, for a full scope or an unavailable store, the instance renews exactly what
    it renewed before, and a cluster-wide slot it had taken is given back. *)
Theorem rejected_request_holds_nothing (l l' : Limiter) id globalLimit keyLimit r1 r2 (w w' : World (St := St)) outcome :
  held_ok l -> (instanceID l +:+ ":" +:+ r1)%string ∉ heldAt l (globalKey l) ->
  AcquireRequest l id globalLimit keyLimit r1 r2 w = (l', w', outcome) -> (forall p, outcome <> Some (Some p)) ->
  held l' = held l /\
  forall o1 o2 d2 o3 rest, calls w = (o1, Delivered) :: (o2, d2) :: (o3, Delivered) :: rest -> 0 < globalLimit ->
    snd (acquireSlotScript (globalKey l) globalLimit concurrencyTTL (instanceID l +:+ ":" +:+ r1)%string (o1 O (store w))) = 1 ->
    zsetOf (store w') (globalKey l) !! (instanceID l +:+ ":" +:+ r1)%string = None.
Proof.
  intros Hok Hn E Hout. unfold AcquireRequest in E. set (token := (instanceID l +:+ ":" +:+ r1)%string) in *.
  unfold acquire at 1 in E. fold token in E. destruct (Z.leb_spec globalLimit 0) as [Hg|Hg].
  - split; [|lia]. cbn beta iota in E. unfold acquire in E. destruct (Z.leb_spec keyLimit 0).
    { injection E as <- <- <-. destruct (Hout _ eq_refl). }
    destruct (runCommand _ w) as [w1 [taken|]]; [destruct (taken =? 1)|]; cbn in E; injection E as <- <- <-; auto.
    destruct (Hout _ eq_refl).
  - destruct (runCommand (acquireSlotScript (globalKey l) globalLimit concurrencyTTL token) w) as [w1 [taken|]] eqn:Er.
    2: { injection E as <- <- <-. split; [reflexivity|]. intros o1 o2 d2 o3 rest Hc _ _. unfold runCommand in Er. rewrite Hc in Er.
         now destruct (acquireSlotScript _ _ _ _ _). }
    destruct (Z.eqb_spec taken 1) as [->|Hne].
    2: { injection E as <- <- <-. split; [reflexivity|]. intros o1 o2 d2 o3 rest Hc _ Ht. unfold runCommand in Er. rewrite Hc in Er.
         destruct (acquireSlotScript _ _ _ _ _) as [s1 t1]. cbn in Ht. congruence. }
    assert (Hgk : globalKey (hold l (globalKey l) token) = globalKey l) by reflexivity.
    set (l1 := hold l (globalKey l) token) in *.
    destruct (acquire l1 (accessKeyKey l1 id) keyLimit r2 w1) as [[l2 w2] out2] eqn:E2.
    assert (Hl2 : (forall p, out2 <> Some (Some p)) -> l2 = l1).
    { intros Ho. unfold acquire in E2. destruct (keyLimit <=? 0); [injection E2 as _ _ <-; destruct (Ho _ eq_refl)|].
      destruct (runCommand _ w1) as [w3 [t2|]]; [destruct (t2 =? 1)|]; injection E2 as <- <- <-; auto. destruct (Ho _ eq_refl). }
    assert (Hno : forall p, out2 <> Some (Some p)) by (intros p ->; cbn in E; injection E as <- <- <-; destruct (Hout _ eq_refl)).
    rewrite (Hl2 Hno) in *.
    assert (E' : (drop l1 (globalKey l) token, fst (runCommand (fun s => (ZREM s (globalKey l) token, tt)) w2)) = (l', w')).
    { destruct out2 as [[p|]|]; [destruct (Hno _ eq_refl)|..]; cbn in E; congruence. }
    injection E' as <- <-. split; [now apply drop_hold|]. intros o1 o2 d2 o3 rest Hc _ _.
    unfold runCommand in Er. rewrite Hc in Er. destruct (acquireSlotScript _ _ _ _ (o1 O (store w))) as [s1 t1].
    injection Er as <- ->. unfold acquire in E2. destruct (keyLimit <=? 0).
    { assert (Eo : out2 = Some (Some Unlimited)) by congruence. destruct (Hno _ Eo). }
    unfold runCommand at 1 in E2. cbn [calls store] in E2.
    assert (Hw2 : calls w2 = (o3, Delivered) :: rest).
    { destruct d2; [destruct (acquireSlotScript _ _ _ _ (o2 O s1)) as [s2 t2]; destruct (t2 =? 1)| |
        destruct (acquireSlotScript _ _ _ _ (o2 O s1)) as [s2 t2]];
      inversion E2; reflexivity. }
    unfold runCommand. rewrite Hw2. cbn [fst store]. now rewrite ZREM_ok, lookup_delete_eq.
Qed.

End Requests.

(** ** Witnesses *)

Definition sampleStore : DB := mkDB 1000 ∅.

Lemma slots_within_limit_witness :
  let s1 := fst (acquireSlotScript "k" 1 concurrencyTTL "a" sampleStore) in
  let s2 := fst (acquireSlotScript "k" 1 concurrencyTTL "b" s1) in
  inflightScript "k" s2 = 1 /\ Z.of_nat (size (live "k" s2)) <= 1.
Proof.
  cbn zeta. set (s1 := fst (acquireSlotScript "k" 1 concurrencyTTL "a" sampleStore)).
  assert (H : rtc (slot_step "k" 1 (fun _ => True)) sampleStore (fst (acquireSlotScript "k" 1 concurrencyTTL "b" s1))).
  { apply (rtc_l _ _ s1); [constructor; lia|apply rtc_once; constructor; lia]. }
  assert (H0 : zsetOf sampleStore "k" = ∅) by reflexivity.
  destruct (slots_within_limit "k" 1 sampleStore _ H0 ltac:(lia) H) as [H1 H2].
  split; [vm_compute; reflexivity|exact H1].
Defined.

Lemma taken_slot_survives_witness :
  let s1 := fst (acquireSlotScript "k" 2 concurrencyTTL "a" sampleStore) in
  let s2 := ELAPSE (fst (acquireSlotScript "k" 2 concurrencyTTL "b" s1)) 20000 in
  is_Some (live "k" s2 !! "a"%string).
Proof.
  cbn zeta. set (s1 := fst (acquireSlotScript "k" 2 concurrencyTTL "a" sampleStore)).
  apply (taken_slot_survives "k" 2 sampleStore sampleStore s1 _ 2 "a"); [reflexivity|lia|apply rtc_refl|reflexivity|lia| |].
  - apply (rtc_l _ _ (fst (acquireSlotScript "k" 2 concurrencyTTL "b" s1))); [constructor; lia|].
    apply rtc_once. constructor. vm_compute. discriminate.
  - vm_compute. reflexivity.
Defined.

(** The access key is full, so the cluster-wide slot is given back. *)
Definition busyStore : DB := fst (acquireSlotScript (accessKeyKey (NewConcurrency "gw" "i1") 7) 1 concurrencyTTL "x" sampleStore).
Definition busyWorld : World := mkWorld busyStore (repeat ((fun _ s => s), Delivered) 3).

Lemma rejected_request_holds_nothing_witness :
  let '(l', w', outcome) := AcquireRequest (NewConcurrency "gw" "i1") 7 5 1 "r1" "r2" busyWorld in
  outcome = Some None /\ held l' = ∅ /\ zsetOf (store w') (globalKey l') !! "i1:r1"%string = None.
Proof.
  destruct (AcquireRequest (NewConcurrency "gw" "i1") 7 5 1 "r1" "r2" busyWorld) as [[l' w'] outcome] eqn:E.
  assert (Ho : outcome = Some None) by (vm_compute in E; now injection E).
  assert (Hk : globalKey l' = globalKey (NewConcurrency "gw" "i1")) by (vm_compute in E; now injection E as <-).
  destruct (rejected_request_holds_nothing (NewConcurrency "gw" "i1") l' 7 5 1 "r1" "r2" busyWorld w' outcome) as [H1 H2].
  - intros k X E0. change (held (NewConcurrency "gw" "i1")) with (∅ : gmap string (gset string)) in E0. now rewrite lookup_empty in E0.
  - unfold heldAt. change (held (NewConcurrency "gw" "i1")) with (∅ : gmap string (gset string)). rewrite lookup_empty. apply not_elem_of_empty.
  - exact E.
  - rewrite Ho. discriminate.
  - split_and!; [exact Ho|exact H1|]. rewrite Hk. eapply H2; [reflexivity|lia|vm_compute; reflexivity].
Defined.

End ConcurrencyProps.
