(* ===== verification/RateWindow.v ===== *)
(** * Access-key rate limit

    [internal/cluster/access_key_rpm.go], [rpm_stats.go] and
    [internal/ratelimit/access_key_rpm.go]: a sliding window of 60 seconds shared by
    every instance, kept as a sorted set of admissions, with per-second and
    per-minute statistics in two Hashes beside it.  Instants are Unix nanoseconds,
    scores Unix milliseconds. *)

From Stdlib Require Import ZArith Lia Bool String Ascii List Permutation Sorted.
From stdpp Require Import base gmap sets list strings sorting.
From coqutil Require Import Datatypes.RecordSettersUsingExistingGetters.
From S2P Require Import Prelude GoStrings Redis Lua QuotaStore HealthStore.

Local Open Scope Z_scope.
Local Open Scope go_scope.

Module RateWindow.
Import Redis Lua LuaNumbers QuotaStore.

(** ** Retry hint *)

Definition second : Z := 1000000000.
Definition minute : Z := 60 * second.

Definition ceilToSecond (duration : Z) : Z :=
  if duration <=? 0 then duration else Z.quot (duration + second - 1) second * second.

Definition RetryAfter (target now : Z) : Z :=
  let retryAfter := ceilToSecond (target + minute - now) in
  let retryAfter := if retryAfter <? second then second else retryAfter in
  if retryAfter >? minute then minute else retryAfter.

Record LimitDecision := mkDecision { Allowed : bool; RetryAfterOf : Z }.

(** ** Statistics *)

(** A capture of [%d+], as a number. *)
Definition captured (l : list ascii) : option Z :=
  match l with [] => None | _ => if all_digits l then Some (dbl (digits_value l)) else None end.

(** [string.match(bucket, '^(%d+):(%d+):(%d+)$')]. *)
Definition matchBucket (bucket : string) : option (Z * Z * Z) :=
  match split_on ":" (bytes bucket) with
  | [q; r; p] =>
    match captured q, captured r, captured p with
    | Some q, Some r, Some p => Some (q, r, p)
    | _, _, _ => None
    end
  | _ => None
  end.

(** [string.sub(field, 1, -2)]. *)
Definition dropLast (field : string) : string := text (removelast (bytes field)).

Section Store.
Context {St : Type} {R : RedisStore St}.

(** The loop over the seconds: expired ones are deleted, the others counted. *)
Fixpoint rollSeconds (k : string) (now : Z) (all : list (string * string)) : Script St Z :=
  match all with
  | [] => ret 0
  | (field, value) :: all =>
    let counted := match tonumber field with Some _ => true | None => false end in
    let at_ := match tonumber field with Some z => Some z | None => tonumber (dropLast field) end in
    match at_ with
    | None => raise LuaError
    | Some z =>
      let! here :=
        (if z <=? now - 60 then do! write (fun s => HDEL s k field) in ret 0
         else if counted then number (Some value) else ret 0) in
      let! rest := rollSeconds k now all in
      ret (dbl (here + rest))
    end
  end.

(** The loop that deletes minutes older than an hour. *)
Fixpoint dropMinutes (k : string) (oldest : Z) (names : list string) : Script St unit :=
  match names with
  | [] => ret tt
  | field :: names =>
    let! z := number (Some field) in
    do! (if z <? oldest then write (fun s => HDEL s k field) else ret tt) in
    dropMinutes k oldest names
  end.

Definition observe (secondKey minuteKey secondText minuteText : string) (rejected : bool) : Script St unit :=
  let! now := number (Some secondText) in
  let! _x := call (fun s => HINCRBY s secondKey secondText 1) in
  do! (if rejected then let! _x := call (fun s => HINCRBY s secondKey (secondText +:+ "r")%string 1) in ret tt else ret tt) in
  let! all := read (fun s => HGETALL s secondKey) in
  let! rolling := rollSeconds secondKey now all in
  do! write (fun s => fst (PEXPIRE s secondKey 61000)) in
  let! bucket := read (fun s => HGET s minuteKey minuteText) in
  let! (requests, rejects, peak) :=
    match bucket with
    | Some bucket => match matchBucket bucket with Some b => ret b | None => raise LuaError end
    | None =>
      let! m := number (Some minuteText) in
      let! names := read (fun s => map fst (HGETALL s minuteKey)) in
      do! dropMinutes minuteKey (m - 3600000) names in
      ret (0, 0, 0)
    end in
  let requests := dbl (requests + 1) in
  let rejects := if rejected then dbl (rejects + 1) else rejects in
  let peak := if rolling >? peak then rolling else peak in
  do! write (fun s => HSET s minuteKey minuteText
    (tostring requests +:+ ":" +:+ tostring rejects +:+ ":" +:+ tostring peak)%string) in
  write (fun s => fst (PEXPIRE s minuteKey 3660000)).

Inductive RPMKind := RPMAccessKey | RPMCredential.

Definition rpmKeys (prefix : string) (kind : RPMKind) (id : Z) : string * string :=
  let tag := match kind with RPMAccessKey => accessKeyHashTag id | RPMCredential => HealthStore.credentialHashTag id end in
  (Key prefix [tag; "rpm_stats"; "seconds"]%string, Key prefix [tag; "rpm_stats"; "minutes"]%string).

(** [rpmObserveArgs]: the Unix second and the start of its minute. *)
Definition rpmObserveArgs (now : Z) : string * string :=
  let s := now / second in (decimal s, decimal (Z.quot s 60 * 60000)).

(** ** The window *)

Definition windowMS : Z := 60000.

Definition rpmScript (k : string) (stats : string * string) (now limit : Z) (member : string) (args : string * string)
    : Script St (bool * option Z) :=
  do! write (fun s => ZREMRANGEBYSCORE s k (now - windowMS)) in
  let! count := read (fun s => ZCARD s k) in
  if count >=? limit then
    do! observe stats.1 stats.2 args.1 args.2 true in
    let! range := read (fun s => ZRANGE s k) in
    ret (false, snd <$> range !! Z.to_nat (count - limit))
  else
    do! write (fun s => ZADD s k now member) in
    do! write (fun s => fst (PEXPIRE s k windowMS)) in
    do! observe stats.1 stats.2 args.1 args.2 false in
    ret (true, None).

(** ** The limiter of one instance *)

Record AccessKeyRPM := mkRPM {
  rpmPrefix : string;
  memberPrefix : string;
  sequence : Z;
}.

Definition NewAccessKeyRPM (prefix nonce : string) : AccessKeyRPM := mkRPM prefix (nonce +:+ ":")%string 0.

Definition rpmKey (prefix : string) (id : Z) : string := Key prefix [accessKeyHashTag id; "rpm"]%string.

(** One script call of an instance; [None] is an error of the call or of the script. *)
Definition runScript {A} (m : Script St A) (w : World (St := St)) : World (St := St) * option A :=
  match w.(calls) with
  | [] => (w, None)
  | (others, delivery) :: rest =>
    let s := others O w.(store) in
    match delivery with
    | NotDelivered => (mkWorld s rest, None)
    | _ =>
      let '(s, reply) := m s in
      (mkWorld s rest, match delivery, reply with Delivered, Ok a => Some a | _, _ => None end)
    end
  end.

(** [observeRPM]: a lost observation is only logged. *)
Definition observeRPM (prefix : string) (kind : RPMKind) (id now : Z) (w : World (St := St)) : World (St := St) :=
  let stats := rpmKeys prefix kind id in
  let args := rpmObserveArgs now in
  fst (runScript (observe stats.1 stats.2 args.1 args.2 false) w).

Definition RecordCredential (prefix : string) (credentialID now : Z) (w : World (St := St)) : World (St := St) :=
  observeRPM prefix RPMCredential credentialID now w.

(** [Allow]; [None] is the error of an unavailable or malformed store. *)
Definition Allow (limiter : AccessKeyRPM) (id limit now : Z) (w : World (St := St))
    : AccessKeyRPM * World (St := St) * option LimitDecision :=
  let stats := rpmKeys limiter.(rpmPrefix) RPMAccessKey id in
  let args := rpmObserveArgs now in
  if limit <=? 0 then
    (limiter, observeRPM limiter.(rpmPrefix) RPMAccessKey id now w, Some (mkDecision true 0))
  else
    let limiter := limiter <| sequence := wrap_u64 (limiter.(sequence) + 1) |> in
    let member := (limiter.(memberPrefix) +:+ decimal limiter.(sequence))%string in
    let '(w, reply) := runScript (rpmScript (rpmKey limiter.(rpmPrefix) id) stats (now / 1000000) limit member args) w in
    (limiter, w,
     match reply with
     | Some (true, _) => Some (mkDecision true 0)
     | Some (false, Some target) => Some (mkDecision false (RetryAfter (target * 1000000) now))
     | _ => None
     end).

(** ** Reports *)

Record RPMPoint := mkPoint { BucketStartMS : Z; Peak : Z; Requests : Z; Rejected : Z }.

Definition decodePoint (field value : string) (first now : Z) : option (option RPMPoint) :=
  match parseInt field with
  | None => None
  | Some m =>
    if (m <? first) || (m >? now) then Some None
    else match split_on ":" (bytes value) with
    | [q; r; p] =>
      match parseInt (text q), parseInt (text r), parseInt (text p) with
      | Some q, Some r, Some p => Some (Some (mkPoint m p q r))
      | _, _, _ => None
      end
    | _ => None
    end
  end.

Definition byBucket (l r : RPMPoint) : Prop := l.(BucketStartMS) <= r.(BucketStartMS).
#[export] Instance byBucket_dec : RelDecision byBucket.
Proof. intros l r. unfold byBucket. apply _. Defined.

Fixpoint collectPoints (fields : list (string * string)) (first now : Z) : option (list RPMPoint) :=
  match fields with
  | [] => Some []
  | (field, value) :: fields =>
    match decodePoint field value first now, collectPoints fields first now with
    | Some (Some point), Some points => Some (point :: points)
    | Some None, Some points => Some points
    | _, _ => None
    end
  end.

(** [rpmPoints]: the minutes of the last hour, oldest first; [None] is a decode error. *)
Definition rpmPoints (fields : list (string * string)) (now : Z) : option (list RPMPoint) :=
  let nowMS := now / 1000000 in
  let first := Z.quot ((now - 60 * minute) / 1000000 + 60000 - 1) 60000 * 60000 in
  merge_sort byBucket <$> collectPoints fields first nowMS.

(** [rpmCurrent]: the requests and rejections of the last 60 seconds. *)
Fixpoint rpmCurrent (fields : list (string * string)) (now : Z) : option (Z * Z) :=
  match fields with
  | [] => Some (0, 0)
  | (field, value) :: fields =>
    let rejected := match rev (bytes field) with "r"%char :: _ => true | _ => false end in
    let at_ := if rejected : bool then dropLast field else field in
    match parseInt at_ with
    | None => None
    | Some z =>
      if (z <=? now / second - 60) || (z >? now / second) then rpmCurrent fields now
      else match parseInt value, rpmCurrent fields now with
      | Some count, Some (requests, rejects) =>
        Some (if rejected then (requests, wrap_i64 (rejects + count)) else (wrap_i64 (requests + count), rejects))
      | _, _ => None
      end
    end
  end.

Definition peakOf (points : list RPMPoint) : Z := foldl Z.max 0 (map Peak points).

(** The replies of a pipeline of [HGETALL]; [others i] happens before read [i]. *)
Fixpoint hashReads (others : nat -> St -> St) (i : nat) (keys : list string) (s : St) : St * list (list (string * string)) :=
  match keys with
  | [] => (s, [])
  | k :: keys =>
    let s := others i s in
    let reply := HGETALL s k in
    let '(s, replies) := hashReads others (S i) keys s in
    (s, reply :: replies)
  end.

(** The loop of [Peaks] over the replies; a subject without points stays absent. *)
Fixpoint collectPeaks (ids : list Z) (replies : list (list (string * string))) (now : Z) (peaks : gmap Z Z) : option (gmap Z Z) :=
  match ids, replies with
  | id :: ids, reply :: replies =>
    match rpmPoints reply now with
    | None => None
    | Some points =>
      collectPeaks ids replies now
        (foldl (fun peaks point => <[id := Z.max (default 0 (peaks !! id)) point.(Peak)]> peaks) peaks points)
    end
  | _, _ => Some peaks
  end.

(** [Peaks] of a delivered pipeline; [None] is a decode error. *)
Definition Peaks (prefix : string) (kind : RPMKind) (ids : list Z) (now : Z) (others : nat -> St -> St) (s : St)
    : St * option (gmap Z Z) :=
  let '(s, replies) := hashReads others 0 (map (fun id => (rpmKeys prefix kind id).2) ids) s in
  (s, collectPeaks ids replies now ∅).

Record RPMReport := mkReport {
  FromMS : Z; ToMS : Z; ObservedAtMS : Z; BucketWidthMS : Z;
  Current : option (Z * Z); PeakRPM : option Z; TotalRequests : Z; TotalRejected : Z; Points : list RPMPoint;
}.

(** [Report] of a delivered pipeline; [None] is a decode error. *)
Definition ReportOf (prefix : string) (kind : RPMKind) (id now : Z) (others : nat -> St -> St) (s : St)
    : St * option RPMReport :=
  let keys := rpmKeys prefix kind id in
  let '(s, replies) := hashReads others 0 [keys.1; keys.2] s in
  let empty := mkReport ((now - 60 * minute) / 1000000) (now / 1000000) (now / 1000000) 60000 None None 0 0 [] in
  (s, match replies with
      | [seconds; minutes] =>
        match rpmPoints minutes now with
        | None => None
        | Some [] => Some empty
        | Some points =>
          match rpmCurrent seconds now with
          | None => None
          | Some current =>
            Some (empty <| Points := points |> <| Current := Some current |> <| PeakRPM := Some (peakOf points) |>
                    <| TotalRequests := foldl (fun n p => wrap_i64 (n + p.(Requests))) 0 points |>
                    <| TotalRejected := foldl (fun n p => wrap_i64 (n + p.(Rejected))) 0 points |>)
          end
        end
      | _ => None
      end).

End Store.
End RateWindow.
