(* ===== verification/RateWindowProps.v ===== *)
(** * Access-key rate limit: properties

    Over every interleaving of requests, expiry and foreign commands: when the clock
    readings of the instances are at most [skew] away from the server's clock, no window
    of 60 seconds less twice the skew admits more than the limit; the retry hint of a
    rejection is bounded and sufficient. *)

From Stdlib Require Import ZArith Lia Bool String Ascii List Permutation Sorted.
From stdpp Require Import base gmap sets list strings sorting.
From S2P Require Import Prelude GoStrings Redis Lua QuotaStore HealthStore RateWindow.

Local Open Scope Z_scope.
Local Open Scope go_scope.

Module RateWindowProps.
Import Redis Lua LuaNumbers QuotaStore RateWindow.

Section Window.
Context {St : Type} {R : RedisStore St} {ROk : RedisOk St}.
Implicit Types (s : St).
Variable k : string.

(** ** Scripts that leave the window alone *)

Definition untouched s s' : Prop := CLOCK s' = CLOCK s /\ zsetOf s' k = zsetOf s k /\ DEADLINE s' k = DEADLINE s k.
Definition spares {A} (m : Script St A) : Prop := forall s, untouched s (fst (m s)).

Lemma untouched_refl s : untouched s s.
Proof. now split. Qed.

Lemma untouched_trans s1 s2 s3 : untouched s1 s2 -> untouched s2 s3 -> untouched s1 s3.
Proof. unfold untouched. intuition congruence. Qed.

Lemma only_untouched k' s s' : only_key k' s s' -> k <> k' -> untouched s s'.
Proof. intros [C _ Z _ D] H. split_and!; auto. Qed.

Lemma spares_bind {A B} (m : Script St A) (f : A -> Script St B) : spares m -> (forall a, spares (f a)) -> spares (bind m f).
Proof.
  intros Hm Hf s. unfold bind. pose proof (Hm s) as H. destruct (m s) as [s' [a|e]]; cbn in *; [|assumption].
  eapply untouched_trans; [exact H|apply Hf].
Qed.

Lemma spares_ret {A} (a : A) : spares (ret a).
Proof. intros s. apply untouched_refl. Qed.
Lemma spares_raise {A} e : spares (raise (A := A) e).
Proof. intros s. apply untouched_refl. Qed.
Lemma spares_read {A} (f : St -> A) : spares (read f).
Proof. intros s. apply untouched_refl. Qed.
Lemma spares_number t : spares (number t).
Proof. intros s. unfold number. destruct t as [t|]; [destruct (tonumber t)|]; apply untouched_refl. Qed.
Lemma spares_HDEL k' f : k <> k' -> spares (write (fun s => HDEL s k' f)).
Proof. intros H s. apply (only_untouched k'); [apply HDEL_only|assumption]. Qed.
Lemma spares_HSET k' f v : k <> k' -> spares (write (fun s => HSET s k' f v)).
Proof. intros H s. apply (only_untouched k'); [apply HSET_only|assumption]. Qed.
Lemma spares_PEXPIRE k' px : k <> k' -> spares (write (fun s => fst (PEXPIRE s k' px))).
Proof. intros H s. apply (only_untouched k'); [apply PEXPIRE_only|assumption]. Qed.
Lemma spares_HINCRBY k' f n : k <> k' -> spares (call (fun s => HINCRBY s k' f n)).
Proof.
  intros H s. unfold call. pose proof (HINCRBY_only s k' f n) as Ho. destruct (HINCRBY s k' f n) as [s' [v|]]; cbn in *;
    now apply (only_untouched k').
Qed.

Create HintDb spares.
Hint Resolve spares_ret spares_raise spares_read spares_number spares_HDEL spares_HSET spares_PEXPIRE spares_HINCRBY : spares.

Ltac spares_tac := repeat first
  [ progress auto with spares
  | apply spares_bind
  | match goal with
    | |- spares (match ?x with _ => _ end) => destruct x
    | |- forall _, _ => intro
    end ].

Lemma spares_roll k' now all : k <> k' -> spares (rollSeconds k' now all).
Proof. intros H. induction all as [|[f v] all IH]; cbn [rollSeconds]; spares_tac. Qed.

Lemma spares_drop k' oldest names : k <> k' -> spares (dropMinutes k' oldest names).
Proof. intros H. induction names as [|f names IH]; cbn [dropMinutes]; spares_tac. Qed.

Hint Resolve spares_roll spares_drop : spares.

Lemma spares_observe sk mk st mt rejected : k <> sk -> k <> mk -> spares (observe sk mk st mt rejected).
Proof. intros H1 H2. unfold observe. spares_tac. Qed.

(** ** The script on the window *)

Variable stats : string * string.
Hypothesis Hstats : k <> stats.1 /\ k <> stats.2.

Definition recent s (now : Z) : gmap string Z := filter (fun '(_, score) => now - windowMS < score) (zsetOf s k).

(** The window after the script: swept, and with one more entry when there was room. *)
Lemma rpmScript_effect args now limit member s :
  let '(s', reply) := rpmScript k stats now limit member args s in
  CLOCK s' = CLOCK s /\
  if Z.of_nat (size (recent s now)) >=? limit
  then zsetOf s' k = recent s now /\ deadline_kept k s s' /\
       match reply with
       | Ok (admitted, target) => admitted = false /\
           target = snd <$> ZRANGE s' k !! Z.to_nat (Z.of_nat (size (recent s now)) - limit)
       | Err _ => True
       end
  else zsetOf s' k = <[member := now]> (recent s now) /\ DEADLINE s' k = Some (CLOCK s + windowMS).
Proof.
  unfold rpmScript. unfold bind at 1. unfold write at 1. cbn beta iota.
  set (s1 := ZREMRANGEBYSCORE s k (now - windowMS)).
  assert (C1 : CLOCK s1 = CLOCK s) by apply ZREMRANGEBYSCORE_only.
  assert (Z1 : zsetOf s1 k = recent s now) by apply ZREMRANGEBYSCORE_ok.
  unfold bind at 1. unfold read at 1. cbn beta iota. rewrite ZCARD_ok, Z1.
  destruct (Z.of_nat (size (recent s now)) >=? limit).
  - unfold bind at 1. pose proof (spares_observe stats.1 stats.2 args.1 args.2 true (proj1 Hstats) (proj2 Hstats) s1) as Ho.
    destruct (observe stats.1 stats.2 args.1 args.2 true s1) as [s2 [u|e]]; cbn in Ho |- *; destruct Ho as (C2 & Z2 & D2).
    + split; [congruence|]. split_and!; [congruence| |auto|reflexivity].
      destruct (ZREMRANGEBYSCORE_deadline s k (now - windowMS)) as [D|D]; [left|right]; fold s1 in D; congruence.
    + split; [congruence|]. split_and!; [congruence| |exact I].
      destruct (ZREMRANGEBYSCORE_deadline s k (now - windowMS)) as [D|D]; [left|right]; fold s1 in D; congruence.
  - unfold bind at 1. unfold write at 1. cbn beta iota. unfold bind at 1. unfold write at 1. cbn beta iota.
    set (s2 := ZADD s1 k now member). assert (Z2 : zsetOf s2 k = <[member := now]> (recent s now)) by (subst s2; now rewrite ZADD_ok, Z1).
    assert (C2 : CLOCK s2 = CLOCK s1) by apply ZADD_only.
    destruct (PEXPIRE_ok s2 k windowMS) as (_ & D3 & _ & Z3 & _); [reflexivity|right; left; rewrite Z2; apply insert_non_empty|].
    assert (C3 : CLOCK (fst (PEXPIRE s2 k windowMS)) = CLOCK s2) by apply PEXPIRE_only.
    set (s3 := fst (PEXPIRE s2 k windowMS)) in *. unfold bind at 1.
    pose proof (spares_observe stats.1 stats.2 args.1 args.2 false (proj1 Hstats) (proj2 Hstats) s3) as Ho.
    destruct (observe stats.1 stats.2 args.1 args.2 false s3) as [s4 [u|e]]; cbn in Ho |- *; destruct Ho as (C4 & Z4 & D4);
      (split; [congruence|]); split; congruence.
Qed.

(** A script that admits had room. *)
Lemma rpmScript_admits args now limit member s s' t : rpmScript k stats now limit member args s = (s', Ok (true, t)) ->
  Z.of_nat (size (recent s now)) < limit.
Proof.
  intros E. pose proof (rpmScript_effect args now limit member s) as H. rewrite E in H. destruct H as [_ H].
  destruct (Z.geb_spec (Z.of_nat (size (recent s now))) limit); [|assumption]. destruct H as (_ & _ & [H _]). discriminate.
Qed.

(** One that rejects had none. *)
Lemma rpmScript_room args now limit member s s' t : rpmScript k stats now limit member args s = (s', Ok (false, t)) ->
  limit <= Z.of_nat (size (recent s now)).
Proof.
  unfold rpmScript. unfold bind at 1. unfold write at 1. cbn beta iota. unfold bind at 1. unfold read at 1. cbn beta iota.
  rewrite ZCARD_ok, ZREMRANGEBYSCORE_ok. fold (recent s now). destruct (Z.geb_spec (Z.of_nat (size (recent s now))) limit); [auto|].
  unfold bind, write. destruct (observe _ _ _ _ _ _) as [s4 [u|e]]; discriminate.
Qed.

Lemma NoDup_fmap_fst_filter (m : gmap string Z) (P : string * Z -> Prop) `{!forall x, Decision (P x)} :
  NoDup (filter P (map_to_list m)).*1.
Proof.
  apply NoDup_fmap_fst.
  - intros i x y Hx Hy. apply list_elem_of_filter in Hx as [_ Hx]. apply list_elem_of_filter in Hy as [_ Hy].
    apply elem_of_map_to_list in Hx, Hy. congruence.
  - apply NoDup_filter, NoDup_map_to_list.
Qed.

(** ** Every window *)

(** The admissions so far, newest first: the instant of the server at which the script ran and
    the window entry. *)
Abbreviation history := (list (Z * string)).

(** How far the clock reading an instance passes may be from the clock of the server when the
    script runs: skew of the clocks and the way from the reading to the store. *)
Variable skew : Z.
Hypothesis Hskew : 0 <= skew.

(** The interval of [windowMS - 2 * skew] milliseconds that ends at [T]. *)
Definition within (T : Z) (p : Z * string) : bool := (T - (windowMS - 2 * skew) <? p.1) && (p.1 <=? T).
Definition admitted_in (T : Z) (hist : history) : Z := Z.of_nat (length (List.filter (within T) hist)).

(** A request carries the reading [now] of its instance, which others may overtake. *)
Inductive rpm_step (L : Z) : St * history -> St * history -> Prop :=
| RAllow limit member args now s hist : 0 < limit <= L -> zsetOf s k !! member = None -> ~ In member (map snd hist) ->
    CLOCK s - skew <= now <= CLOCK s + skew ->
    rpm_step L (s, hist)
      (let '(s', reply) := rpmScript k stats now limit member args s in
       (s', match reply with Ok (true, _) => (CLOCK s, member) :: hist | _ => hist end))
| RElapse t s hist : CLOCK s <= t -> rpm_step L (s, hist) (ELAPSE s t, hist)
| ROther s s' hist : untouched s s' -> rpm_step L (s, hist) (s', hist).

(** What an admission at [t] has left in the window while it counts. *)
Definition remembered s (p : Z * string) : Prop :=
  (exists score, zsetOf s k !! p.2 = Some score /\ p.1 - skew <= score) /\
  match DEADLINE s k with Some d => p.1 + windowMS <= d | None => True end.

Record rpm_ok (L : Z) s (hist : history) : Prop := {
  ro_members : NoDup (map snd hist);
  ro_past : forall p, In p hist -> p.1 <= CLOCK s;
  ro_kept : forall p, In p hist -> CLOCK s - (windowMS - 2 * skew) < p.1 -> remembered s p;
  ro_limit : forall T, admitted_in T hist <= L;
}.

(** No request sweeps an admission that still counts. *)
Lemma remembered_recent s now p :
  remembered s p -> CLOCK s - (windowMS - 2 * skew) < p.1 -> now <= CLOCK s + skew ->
  exists score, recent s now !! p.2 = Some score /\ p.1 - skew <= score.
Proof. intros [(score & E & Hs) _] Hr Hn. exists score. split; [|assumption]. apply map_lookup_filter_Some. split; [assumption|lia]. Qed.

(** Recent admissions are distinct entries of the window. *)
Lemma admitted_entries L s hist T now :
  rpm_ok L s hist -> CLOCK s <= T -> now <= CLOCK s + skew -> admitted_in T hist <= Z.of_nat (size (recent s now)).
Proof.
  intros [Hn Hp Hk _] HT Hnow. unfold admitted_in. apply inj_le.
  transitivity (length (map snd (List.filter (within T) hist))); [now rewrite length_map|].
  assert (Hnd : NoDup (map snd (List.filter (within T) hist))).
  { clear - Hn. induction hist as [|p hist IH]; [constructor|]. cbn [map List.filter] in *. apply NoDup_cons in Hn as [H1 H2].
    destruct (within T p); [|auto]. cbn [map]. apply NoDup_cons. split; [|auto]. rewrite list_elem_of_In, in_map_iff in *.
    intros (q & E & Hq). apply H1. apply filter_In in Hq as [Hq _]. eauto. }
  rewrite <- (size_list_to_set (C := gset string)) by exact Hnd. rewrite <- size_dom. apply subseteq_size. intros m Hm.
  rewrite elem_of_list_to_set, list_elem_of_In, in_map_iff in Hm. destruct Hm as (p & <- & Hin).
  apply filter_In in Hin as [Hin Hw]. unfold within in Hw. apply andb_true_iff in Hw as [Hw1 Hw2]. apply Z.ltb_lt in Hw1.
  apply elem_of_dom. destruct (remembered_recent s now p) as (score & E & _); [apply Hk; [assumption|lia]|lia|assumption|eauto].
Qed.

Lemma admitted_cons T p hist : admitted_in T (p :: hist) = (if within T p then 1 else 0) + admitted_in T hist.
Proof. unfold admitted_in. cbn [List.filter]. destruct (within T p); cbn [length]; lia. Qed.

Lemma allow_ok L limit member args now s hist :
  0 < limit <= L -> ~ In member (map snd hist) -> CLOCK s - skew <= now <= CLOCK s + skew -> rpm_ok L s hist ->
  let '(s', reply) := rpmScript k stats now limit member args s in
  rpm_ok L s' (match reply with Ok (true, _) => (CLOCK s, member) :: hist | _ => hist end).
Proof.
  intros Hlim Hnew Hnow H. pose proof H as [Hn Hp Hk Hl].
  pose proof (rpmScript_effect args now limit member s) as Hx.
  destruct (rpmScript k stats now limit member args s) as [s1 reply]. destruct Hx as (C & Hx).
  destruct (Z.geb_spec (Z.of_nat (size (recent s now))) limit) as [Hfull|Hroom].
  - destruct Hx as (Z & D & Hr).
    assert (Ehist : match reply with Ok (true, _) => (CLOCK s, member) :: hist | _ => hist end = hist).
    { destruct reply as [[[] t]|]; try reflexivity. destruct Hr as [Hr _]. discriminate. }
    rewrite Ehist. constructor; rewrite ?C; auto. intros p Hin Hr'. destruct (Hk p Hin Hr') as [Hs Hd]. split.
    + rewrite Z. now apply remembered_recent.
    + destruct D as [-> | ->]; auto.
  - destruct Hx as (Z & D).
    assert (Hbase : rpm_ok L s1 hist).
    { constructor; rewrite ?C; auto. intros p Hin Hr. split.
      - rewrite Z. rewrite lookup_insert_ne; [apply remembered_recent; auto; lia|]. intros ->. apply Hnew. now apply in_map.
      - rewrite D. specialize (Hp p Hin). lia. }
    destruct reply as [[[] t]|]; [|exact Hbase..]. destruct Hbase as [B1 B2 B3 B4]. constructor; auto.
    + cbn [map]. apply NoDup_cons. split; [now rewrite list_elem_of_In|assumption].
    + intros p [<-|Hin]; [cbn; lia|auto].
    + intros p [<-|Hin] Hr; [|auto]. split; cbn [fst snd].
      * exists now. rewrite Z, lookup_insert_eq. split; [reflexivity|lia].
      * rewrite D. lia.
    + intros T. rewrite admitted_cons. unfold within. cbn [fst]. destruct (Z.leb_spec (CLOCK s) T) as [HT|HT].
      * pose proof (admitted_entries L s hist T now H HT ltac:(lia)). destruct (_ && _); lia.
      * rewrite andb_false_r. specialize (Hl T). lia.
Qed.

Lemma rpm_step_ok L x y : rpm_step L x y -> rpm_ok L x.1 x.2 -> rpm_ok L y.1 y.2.
Proof.
  intros Hs H. destruct Hs as [limit member args now s hist Hlim Hfresh Hnew Hnow|t s hist Ht|s s' hist (C & Z & D)]; cbn [fst snd] in *.
  - pose proof (allow_ok L limit member args now s hist Hlim Hnew Hnow H) as Ha.
    now destruct (rpmScript k stats now limit member args s).
  - destruct H as [Hn Hp Hk Hl]. constructor; auto; rewrite ?ELAPSE_clock by assumption.
    + intros p Hin. specialize (Hp p Hin). lia.
    + intros p Hin Hr. destruct (Hk p Hin ltac:(lia)) as [Hs Hd]. destruct (ELAPSE_live s t k Ht) as (_ & Z & _ & D).
      * destruct (DEADLINE s k); [lia|exact I].
      * unfold remembered. now rewrite Z, D.
  - destruct H as [Hn Hp Hk Hl]. constructor; auto; rewrite ?C; auto. intros p Hin Hr. unfold remembered. rewrite Z, D. now apply Hk.
Qed.

(** [C38] The rate limit holds, up to the clocks.  Whatever requests the instances interleave, with
    any limits up to [L] and with clock readings up to [skew] milliseconds away from the server's
    clock when their script runs - instances ahead or behind, requests overtaking each other -
    every interval of [60000 - 2 * skew] milliseconds of the server's clock contains at most [L]
    admissions.  With exact clocks that is the whole minute. *)
Theorem rate_limit_holds L s0 s hist T : zsetOf s0 k = ∅ -> 0 <= L -> rtc (rpm_step L) (s0, []) (s, hist) ->
  admitted_in T hist <= L.
Proof.
  intros H0 HL Hs. assert (H : rpm_ok L s0 []).
  { constructor; [apply NoDup_nil_2|intros p []|intros p []|].
    intros T'. unfold admitted_in. cbn [List.filter length]. lia. }
  apply (ro_limit L s hist).
  assert (G : forall x y, rtc (rpm_step L) x y -> rpm_ok L x.1 x.2 -> rpm_ok L y.1 y.2).
  { clear - ROk Hstats Hskew. induction 1 as [|x y z Hxy _ IH]; [auto|]. intros Hx. apply IH. now apply (rpm_step_ok L x). }
  exact (G _ _ Hs H).
Qed.

(** ** The retry hint *)

Lemma sorted_above (l : list Z) (i : nat) (x : Z) : StronglySorted Z.le l -> l !! i = Some x ->
  (length (List.filter (fun y => (x <? y)%Z) l) + S i <= length l)%nat.
Proof.
  revert i. induction l as [|y l IH]; intros i Hs Hi; [discriminate|]. apply StronglySorted_inv in Hs as [Hs Hy].
  cbn [List.filter length]. destruct i as [|i].
  - injection Hi as ->. rewrite Z.ltb_irrefl. pose proof (List.filter_length_le (fun z => x <? z) l). lia.
  - pose proof (IH i Hs Hi). assert (y <= x).
    { rewrite List.Forall_forall in Hy. apply Hy. apply list_elem_of_In. eapply list_elem_of_lookup_2; eauto. }
    rewrite (proj2 (Z.ltb_ge x y)) by lia. cbn in Hi. lia.
Qed.

Lemma filter_map_length {A} (f : A -> Z) (P : Z -> bool) l :
  length (List.filter (fun a => P (f a)) l) = length (List.filter P (map f l)).
Proof. induction l as [|a l IH]; [reflexivity|]. cbn. destruct (P (f a)); cbn; now rewrite IH. Qed.

Lemma ceil_second d : 0 < d -> d <= ceilToSecond d < d + second /\ (exists n, ceilToSecond d = n * second).
Proof.
  intros H. unfold ceilToSecond. rewrite (proj2 (Z.leb_gt d 0)) by lia.
  rewrite Z.quot_div_nonneg by (unfold second; lia). split; [|eauto].
  pose proof (Z.mul_div_le (d + second - 1) second ltac:(reflexivity)).
  pose proof (Z.mul_succ_div_gt (d + second - 1) second ltac:(reflexivity)). lia.
Qed.

(** The hint is a whole number of seconds between one second and one minute, and at
    least the time until the entry at [target] leaves the window. *)
Lemma RetryAfter_spec target now : target <= now ->
  second <= RetryAfter target now <= minute /\ target + minute <= now + RetryAfter target now.
Proof.
  intros H. unfold RetryAfter. set (d := target + minute - now). destruct (Z.le_gt_cases d 0) as [Hd|Hd].
  - assert (E : ceilToSecond d = d) by (unfold ceilToSecond; now rewrite (proj2 (Z.leb_le d 0))). rewrite E.
    rewrite (proj2 (Z.ltb_lt d second)) by (unfold second; lia). subst d. unfold minute, second in *.
    change (1000000000 >? 60 * 1000000000) with false. lia.
  - destruct (ceil_second d Hd) as [[B1 B2] [n En]]. assert (ceilToSecond d <= minute).
    { rewrite En in *. assert (d <= minute) by (subst d; lia). unfold minute in *.
      assert (n <= 60); [|unfold second; nia]. unfold second in *. lia. }
    destruct (Z.ltb_spec (ceilToSecond d) second); rewrite Z.gtb_ltb; [|rewrite (proj2 (Z.ltb_ge _ _)) by lia; subst d; lia].
    rewrite (proj2 (Z.ltb_ge _ _)) by (unfold minute, second; lia). subst d. unfold minute, second in *. lia.
Qed.

(** The retry hint is bounded and sufficient.  A rejection at [now] names an
    instant between one second and one minute later at which, if nothing else is
    admitted meanwhile, fewer than [limit] entries are left in the window. *)
Theorem retry_hint_sufficient args nowNS limit member s s' target :
  0 < limit -> (forall m score, zsetOf s k !! m = Some score -> score <= nowNS / 1000000) ->
  rpmScript k stats (nowNS / 1000000) limit member args s = (s', Ok (false, Some target)) ->
  let wait := RetryAfter (target * 1000000) nowNS in
  second <= wait <= minute /\ Z.of_nat (size (recent s' ((nowNS + wait) / 1000000))) < limit.
Proof.
  intros Hl Hpast E. cbn zeta. set (now := nowNS / 1000000) in *. pose proof (rpmScript_effect args now limit member s) as H.
  pose proof (rpmScript_room args now limit member s s' (Some target) E) as Hfull.
  rewrite E in H. destruct H as [C H]. rewrite (proj2 (Z.geb_le _ _)) in H by lia. destruct H as (Z & _ & _ & Ht).
  symmetry in Ht. destruct (ZRANGE s' k !! _) as [[m score]|] eqn:Ei; cbn in Ht; [|discriminate]. injection Ht as ->.
  assert (Hin : zsetOf s' k !! m = Some target).
  { apply elem_of_map_to_list. rewrite <- (ZRANGE_ok s' k). eapply list_elem_of_lookup_2; eauto. }
  assert (Htn : target <= now) by (rewrite Z in Hin; apply map_lookup_filter_Some in Hin as [Hin _]; eauto).
  assert (Hns : target * 1000000 <= nowNS) by (subst now; pose proof (Z.mul_div_le nowNS 1000000 ltac:(lia)); lia).
  destruct (RetryAfter_spec (target * 1000000) nowNS Hns) as [B1 B2]. split; [assumption|].
  set (later := (nowNS + RetryAfter (target * 1000000) nowNS) / 1000000).
  assert (Hlater : target + windowMS <= later).
  { subst later. apply Z.div_le_lower_bound; [lia|]. unfold windowMS, minute, second in *. lia. }
  assert (Hsize : (size (recent s' later) <= length (List.filter (fun y => (target <? y)%Z) (map snd (ZRANGE s' k))))%nat).
  { rewrite <- filter_map_length. unfold recent. rewrite map_filter_alt, map_size_list_to_map.
    - rewrite (filter_Permutation _ _ _ (Permutation_sym (ZRANGE_ok s' k))). clear - Hlater.
      induction (ZRANGE s' k) as [|[m' y] l IH]; [reflexivity|]. rewrite filter_cons. cbn [List.filter snd].
      case_decide; destruct (Z.ltb_spec target y); cbn [length]; lia.
    - apply NoDup_fmap_fst_filter. }
  assert (Hi : map snd (ZRANGE s' k) !! Z.to_nat (Z.of_nat (size (recent s now)) - limit) = Some target).
  { change (map snd (ZRANGE s' k)) with (snd <$> ZRANGE s' k). now rewrite list_lookup_fmap, Ei. }
  pose proof (sorted_above _ _ _ (ZRANGE_sorted s' k) Hi) as Hs. rewrite length_map in Hs.
  assert (Hlen : length (ZRANGE s' k) = size (recent s now)).
  { rewrite (Permutation_length (ZRANGE_ok s' k)), <- Z. apply length_map_to_list. }
  lia.
Qed.

End Window.
(** ** Witnesses *)

Definition sampleKey : string := rpmKey "gw" 7.
Definition sampleStats : string * string := rpmKeys "gw" RPMAccessKey 7.
Definition sampleArgs : string * string := rpmObserveArgs (70 * second).
Definition sampleWindow : DB := mkDB 70000 ∅.

Lemma sample_stats : sampleKey <> sampleStats.1 /\ sampleKey <> sampleStats.2.
Proof. split; vm_compute; discriminate. Qed.

Definition firstAdmission : DB := fst (rpmScript sampleKey sampleStats 70000 1 "n:1" sampleArgs sampleWindow).
Definition secondRequest : DB := fst (rpmScript sampleKey sampleStats 70400 1 "n:2" sampleArgs firstAdmission).

(** The second request of the minute, from an instance whose clock is 400 milliseconds ahead, is
    rejected under a limit of one. *)
Lemma rate_limit_holds_witness :
  admitted_in 500 70000 [(70000, "n:1"%string)] = 1 /\ admitted_in 500 70000 [(70000, "n:1"%string)] <= 1.
Proof.
  split; [reflexivity|].
  apply (rate_limit_holds sampleKey sampleStats sample_stats 500 ltac:(lia) 1 sampleWindow secondRequest); [reflexivity|lia|].
  apply (rtc_l _ _ (firstAdmission, [(70000, "n:1"%string)])); [|apply rtc_once].
  - exact (RAllow sampleKey sampleStats 500 1 1 "n:1" sampleArgs 70000 sampleWindow [] ltac:(lia) eq_refl (fun H => H) ltac:(cbn; lia)).
  - refine (RAllow sampleKey sampleStats 500 1 1 "n:2" sampleArgs 70400 firstAdmission [(70000, "n:1"%string)] ltac:(lia) _ _ _);
      [vm_compute; reflexivity|cbn; intros [H|[]]; discriminate H|].
    assert (Hc : CLOCK firstAdmission = 70000) by (vm_compute; reflexivity). lia.
Defined.

Lemma retry_hint_sufficient_witness :
  let wait := RetryAfter (70000 * 1000000) (75 * second) in
  wait = 55 * second /\ second <= wait <= minute.
Proof.
  cbn zeta. split; [vm_compute; reflexivity|].
  destruct (rpmScript sampleKey sampleStats (75 * second / 1000000) 1 "n:2" sampleArgs firstAdmission) as [s' r] eqn:E.
  destruct (retry_hint_sufficient sampleKey sampleStats sample_stats sampleArgs (75 * second) 1 "n:2" firstAdmission s' 70000) as [H _].
  - lia.
  - intros m score H. assert (Hz : zsetOf firstAdmission sampleKey = {["n:1"%string := 70000]}) by (vm_compute; reflexivity).
    rewrite Hz in H. apply lookup_singleton_Some in H as [_ <-]. vm_compute. discriminate.
  - rewrite E. f_equal. vm_compute in E. now injection E.
  - exact H.
Defined.

End RateWindowProps.
