(* ===== verification/LockoutProps.v ===== *)
(** * The two forms of the admin lockout agree

    A relation between the entry of a peer in the in-process limiter and its two keys
    in the shared store, kept by every attempt and by the passage of time; equal
    decisions follow. *)

From Stdlib Require Import ZArith Lia Bool String Ascii List Permutation.
From stdpp Require Import base gmap sets list strings sorting.
From coqutil Require Import Datatypes.RecordSettersUsingExistingGetters.
From S2P Require Import Prelude GoStrings Redis Lua QuotaStore QuotaStoreProps Lockout.

Local Open Scope Z_scope.

Module LockoutProps.
Import Redis LuaNumbers QuotaStore Lockout.

Definition ms : Z := 1000000.
Definition windowMS : Z := 30 * 60 * 1000.

(** The scores of a set, as instants. *)
Definition instants (m : gmap string Z) : list Z := map (fun p => p.2 * ms) (map_to_list m).

Lemma NoDup_filter_keys (m : gmap string Z) (P : string * Z -> Prop) `{!forall x, Decision (P x)} :
  NoDup (filter P (map_to_list m)).*1.
Proof.
  apply NoDup_fmap_fst.
  - intros i x y Hx Hy. apply list_elem_of_filter in Hx as [_ Hx]. apply list_elem_of_filter in Hy as [_ Hy].
    apply elem_of_map_to_list in Hx, Hy. congruence.
  - apply NoDup_filter, NoDup_map_to_list.
Qed.

Lemma instants_filter (m : gmap string Z) (c : Z) :
  Permutation (instants (filter (fun '(_, score) => c < score) m)) (retainRecentFailures (instants m) (c * ms)).
Proof.
  unfold instants. rewrite map_filter_alt, map_to_list_to_map by apply NoDup_filter_keys.
  induction (map_to_list m) as [|[k v] l IH]; [constructor|]. rewrite filter_cons. cbn [map retainRecentFailures List.filter snd].
  case_decide as Hv.
  - rewrite Z.gtb_ltb, (proj2 (Z.ltb_lt _ _)) by (unfold ms; lia). cbn [map snd]. now constructor.
  - rewrite Z.gtb_ltb, (proj2 (Z.ltb_ge _ _)) by (unfold ms; lia). exact IH.
Qed.

Lemma instants_insert (m : gmap string Z) k v : m !! k = None -> Permutation (instants (<[k := v]> m)) (instants m ++ [v * ms]).
Proof.
  intros H. unfold instants. rewrite map_to_list_insert by assumption. cbn [map snd].
  apply Permutation_cons_append.
Qed.

Lemma instants_length m : length (instants m) = size m.
Proof. unfold instants. rewrite length_map. apply length_map_to_list. Qed.

Lemma retain_perm l l' c : Permutation l l' -> Permutation (retainRecentFailures l c) (retainRecentFailures l' c).
Proof.
  unfold retainRecentFailures. induction 1; cbn [List.filter]; try reflexivity.
  - destruct (x >? c); [now constructor|assumption].
  - destruct (x >? c), (y >? c); try reflexivity. constructor.
  - etransitivity; eauto.
Qed.

Lemma retain_twice l c c' : c <= c' -> retainRecentFailures (retainRecentFailures l c) c' = retainRecentFailures l c'.
Proof.
  intros H. unfold retainRecentFailures. induction l as [|x l IH]; [reflexivity|]. cbn [List.filter]. rewrite !Z.gtb_ltb.
  destruct (Z.ltb_spec c x); cbn [List.filter]; rewrite ?Z.gtb_ltb, IH; [reflexivity|].
  now rewrite (proj2 (Z.ltb_ge c' x)) by lia.
Qed.

Section Agree.
Context {St : Type} {R : RedisStore St} {ROk : RedisOk St}.
Implicit Types (s : St) (e : authFailureEntry).
Variables (prefix members peer : string).

Definition F : string := (failureKeys prefix peer).1.
Definition K : string := (failureKeys prefix peer).2.

Lemma keys_differ : F <> K.
Proof.
  unfold F, K, failureKeys, Key. cbn [fst snd]. intros H. do 2 apply QuotaStoreProps.append_inv_head in H. cbn in H.
  rewrite ?QuotaStoreProps.append_assoc in H. do 4 (apply QuotaStoreProps.append_inv_head in H || idtac).
  discriminate H.
Qed.

Definition recent s : gmap string Z := filter (fun '(_, score) => CLOCK s - windowMS < score) (zsetOf s F).
Definition cutoff s : Z := CLOCK s * ms - authFailureWindow.

(** The lock key holds nothing but a lock. *)
Definition lock_clean s : Prop := hashOf s K = ∅ /\ zsetOf s K = ∅.

(** The failures recorded in the set: past, covered by its lifetime, and named by
    this instance's sequence. *)
Definition recorded s (sequence : Z) : Prop := forall m score, zsetOf s F !! m = Some score ->
  score <= CLOCK s /\ match DEADLINE s F with Some d => score + windowMS <= d | None => True end /\
  exists n, 0 <= n <= sequence /\ m = (members +:+ decimal n)%string.

(** The two forms of the state of a peer. *)
Inductive agree e s : Prop :=
| agree_open : e.(lockedUntil) = 0 -> GET s K = None ->
    Permutation (instants (recent s)) (retainRecentFailures e.(failures) (cutoff s)) -> agree e s
| agree_locked d : e.(lockedUntil) = d * ms -> 0 < d -> recent s = ∅ ->
    (if decide (CLOCK s < d) then GET s K <> None /\ DEADLINE s K = Some d else GET s K = None) -> agree e s.

Lemma cutoff_ms s : cutoff s = (CLOCK s - windowMS) * ms.
Proof. unfold cutoff, authFailureWindow, windowMS, ms. lia. Qed.

Lemma agree_clean e s : agree e s -> agree (default (mkEntry [] 0) (cleanEntry (CLOCK s * ms) e)) s.
Proof.
  intros H. pose proof H as [L G P|d L Hd Hr Hk]; unfold cleanEntry.
  - rewrite L. cbn [Z.eqb negb]. change (CLOCK s * ms - authFailureWindow) with (cutoff s).
    destruct (retainRecentFailures (failures e) (cutoff s)) as [|x l] eqn:E; cbn [default].
    + apply agree_open; auto.
    + apply agree_open; [exact L|exact G|]. change (failures (id (e <| failures := x :: l |>))) with (x :: l).
      rewrite P, <- E. now rewrite retain_twice by lia.
  - rewrite L. rewrite (proj2 (Z.eqb_neq (d * ms) 0)) by (unfold ms; lia). cbn [negb].
    destruct (Z.ltb_spec (CLOCK s * ms) (d * ms)) as [Hlt|Hge]; cbn [negb default]; [assumption|].
    rewrite decide_False in Hk by (unfold ms in *; lia). apply agree_open; auto. rewrite Hr. reflexivity.
Qed.

Lemma lock_gone s : lock_clean s -> GET s K = None -> key_gone K s.
Proof. intros [H1 H2] G. split_and!; auto. now apply absent_ok. Qed.

Lemma sweep_recent s : zsetOf (ZREMRANGEBYSCORE s F (CLOCK s - windowMS)) F = recent s.
Proof. apply ZREMRANGEBYSCORE_ok. Qed.

(** ** A failed attempt *)

Lemma failed_attempt e s sequence : agree e s -> lock_clean s -> recorded s sequence -> 0 <= sequence -> 0 < CLOCK s ->
  let now := CLOCK s * ms in
  let member := (members +:+ decimal (sequence + 1))%string in
  let '(s', (locked, retry)) := authFailureScript F K (CLOCK s) windowMS authFailureLimit windowMS member s in
  let e1 := if negb (e.(lockedUntil) =? 0) then mkEntry [] 0 else e in
  let fresh := retainRecentFailures e1.(failures) (now - authFailureWindow) ++ [now] in
  CLOCK s' = CLOCK s /\ lock_clean s' /\ recorded s' (sequence + 1) /\
  if now <? e.(lockedUntil)
  then locked = 0 /\ retry * ms = e.(lockedUntil) - now /\ agree e s'
  else if Z.of_nat (length fresh) >=? authFailureLimit
  then locked = 1 /\ retry * ms = authLockDuration /\ agree (mkEntry [] (now + authLockDuration)) s'
  else locked = 0 /\ retry = 0 /\ agree (mkEntry fresh 0) s'.
Proof.
  intros Ha Hc Hrec Hseq Hclk. cbn zeta. unfold authFailureScript.
  assert (Hcase : (exists d, lockedUntil e = d * ms /\ CLOCK s < d /\ PTTL s K = d - CLOCK s) \/
    (PTTL s K = -2 /\ GET s K = None /\ lockedUntil e <= CLOCK s * ms /\
     Permutation (instants (recent s))
       (retainRecentFailures (failures (if negb (lockedUntil e =? 0) then mkEntry [] 0 else e)) (cutoff s)))).
  { destruct Ha as [L G P|d L Hd Hr Hk].
    - right. rewrite L. cbn [Z.eqb negb]. split_and!; auto; [apply PTTL_none; now apply lock_gone|unfold ms; lia].
    - destruct (decide (CLOCK s < d)) as [Hlt|Hge].
      + left. destruct Hk as [G D]. exists d. split_and!; auto. rewrite PTTL_ok by (right; now right). now rewrite D.
      + right. rewrite L, (proj2 (Z.eqb_neq (d * ms) 0)) by (unfold ms; lia). cbn [negb failures].
        split_and!; auto; [apply PTTL_none; now apply lock_gone|unfold ms; lia|]. now rewrite Hr. }
  destruct Hcase as [(d & L & Hlt & ->)|(-> & G & Hle & P)].
  - rewrite (proj2 (Z.gtb_lt _ _)) by lia. rewrite L, (proj2 (Z.ltb_lt _ _)) by (unfold ms; lia).
    split_and!; auto; [|unfold ms; lia]. intros m score E. destruct (Hrec m score E) as (B1 & B2 & n & Hn & ->). split_and!; auto. exists n. split; [lia|reflexivity].
  - change (-2 >? 0) with false. cbn iota. rewrite (proj2 (Z.ltb_ge _ _) Hle).
    change (CLOCK s * ms - authFailureWindow) with (cutoff s). set (e1 := if negb _ then mkEntry [] 0 else e) in *.
    set (member := (members +:+ decimal (sequence + 1))%string). set (s1 := ZREMRANGEBYSCORE s F (CLOCK s - windowMS)).
    set (s2 := ZADD s1 F (CLOCK s) member).
    assert (Z2 : zsetOf s2 F = <[member := CLOCK s]> (recent s)) by (subst s2; rewrite ZADD_ok; subst s1; now rewrite sweep_recent).
    assert (Hfresh : recent s !! member = None).
    { destruct (recent s !! member) as [score|] eqn:E; [|reflexivity]. apply map_lookup_filter_Some in E as [E _].
      destruct (Hrec _ _ E) as (_ & _ & n & Hn & Em). apply QuotaStoreProps.append_inv_head, decimal_inj in Em. lia. }
    assert (C2 : CLOCK s2 = CLOCK s) by (transitivity (CLOCK s1); [apply ZADD_only|apply ZREMRANGEBYSCORE_only]).
    assert (Hother : forall k, k <> F -> hashOf s2 k = hashOf s k /\ zsetOf s2 k = zsetOf s k /\ GET s2 k = GET s k).
    { intros k Hk. pose proof (ZADD_only s1 F (CLOCK s) member) as [_ A1 A2 A3 _].
      pose proof (ZREMRANGEBYSCORE_only s F (CLOCK s - windowMS)) as [_ B1 B2 B3 _]. subst s2 s1.
      rewrite A1, A2, A3, B1, B2, B3 by assumption. auto. }
    pose proof keys_differ as Hne. destruct (Hother K ltac:(congruence)) as (HK1 & HK2 & HK3).
    assert (Hlen : ZCARD s2 F = Z.of_nat (length (retainRecentFailures (failures e1) (cutoff s) ++ [CLOCK s * ms]))).
    { rewrite ZCARD_ok, Z2, <- instants_length, (Permutation_length (instants_insert _ _ _ Hfresh)), !length_app.
      now rewrite (Permutation_length P). }
    rewrite Hlen. destruct (Z.of_nat _ >=? authFailureLimit).
    + set (s3 := DEL s2 F). pose proof (DEL_only s2 F) as [C3 A1 A2 A3 _]. fold s3 in C3, A1, A2, A3.
      pose proof (SETPX_only s3 K "1" windowMS) as [C4 B1 B2 B3 B4]. destruct (DEL_ok s2 F) as (D1 & D2 & D3 & _). fold s3 in D1, D2, D3.
      assert (Z4 : zsetOf (SETPX s3 K "1" windowMS) F = ∅) by (rewrite B2; auto).
      split_and!; [congruence| | | | |].
      * apply SETPX_plain.
      * intros m score E. rewrite Z4, lookup_empty in E. discriminate.
      * reflexivity.
      * reflexivity.
      * apply agree_locked with (d := CLOCK s + windowMS); [unfold authLockDuration, windowMS, ms; cbn; lia|unfold windowMS; lia| |].
        -- unfold recent. now rewrite Z4, map_filter_empty.
        -- rewrite C4, C3, C2, decide_True by (unfold windowMS; lia). split; [rewrite SETPX_ok; discriminate|].
           rewrite SETPX_deadline. congruence.
    + destruct (PEXPIRE_ok s2 F windowMS) as (_ & D3 & _ & Z3 & _); [reflexivity|right; left; rewrite Z2; apply insert_non_empty|].
      pose proof (PEXPIRE_only s2 F windowMS) as [C3 A1 A2 A3 _]. set (s3 := fst (PEXPIRE s2 F windowMS)) in *.
      split_and!; [congruence| | |reflexivity|reflexivity|].
      * split; [rewrite A1 by congruence; rewrite HK1; apply Hc|rewrite A2 by congruence; rewrite HK2; apply Hc].
      * intros m score E. rewrite D3, C3, C2. rewrite Z3, Z2 in E. apply lookup_insert_Some in E as [[<- <-]|[_ E]].
        -- split_and!; [lia|lia|]. exists (sequence + 1). split; [lia|reflexivity].
        -- apply map_lookup_filter_Some in E as [E _]. destruct (Hrec _ _ E) as (B1 & B2 & n & Hn & ->). split_and!; [lia|lia|]. exists n. split; [lia|reflexivity].
      * apply agree_open; [reflexivity|rewrite A3 by congruence; now rewrite HK3|]. cbn [failures].
        unfold recent. rewrite C3, C2, Z3, Z2.
        assert (Er : filter (fun '(_, score) => CLOCK s - windowMS < score) (<[member := CLOCK s]> (recent s)) = <[member := CLOCK s]> (recent s)).
        { apply map_filter_id. intros i x [[_ <-]|[_ E]]%lookup_insert_Some; [unfold windowMS; lia|].
          now apply map_lookup_filter_Some in E. }
        rewrite Er, instants_insert, P by assumption. unfold retainRecentFailures at 2. rewrite List.filter_app.
        change (List.filter (fun v => v >? cutoff s3) ?l) with (retainRecentFailures l (cutoff s3)).
        assert (Ec : cutoff s3 = cutoff s) by (unfold cutoff; congruence). rewrite Ec, retain_twice by lia.
        apply Permutation_app; [reflexivity|]. cbn [retainRecentFailures List.filter].
        rewrite Z.gtb_ltb, (proj2 (Z.ltb_lt _ _)); [reflexivity|]. unfold cutoff, authFailureWindow. lia.
Qed.

(** ** A valid attempt, and time *)

Lemma valid_attempt s sequence : lock_clean s -> let s' := DEL (DEL s F) K in
  CLOCK s' = CLOCK s /\ lock_clean s' /\ recorded s' sequence /\ agree (mkEntry [] 0) s'.
Proof.
  intros Hc. cbn zeta. set (s1 := DEL s F). pose proof keys_differ as Hne.
  pose proof (DEL_only s F) as [C1 _ _ _ _]. pose proof (DEL_only s1 K) as [C2 _ B2 _ _].
  destruct (DEL_ok s F) as (_ & D2 & _). destruct (DEL_ok s1 K) as (E1 & E2 & E3 & _). fold s1 in C1, D2.
  assert (Z : zsetOf (DEL s1 K) F = ∅) by (rewrite B2; auto). split_and!; [congruence|now split| |].
  - intros m score E. rewrite Z, lookup_empty in E. discriminate.
  - apply agree_open; [reflexivity|assumption|]. unfold recent. rewrite Z, map_filter_empty. reflexivity.
Qed.

(** What expiry does to the set of failures: exactly the recent ones can remain. *)
Lemma elapse_recent s t sequence : CLOCK s <= t -> recorded s sequence ->
  recent (ELAPSE s t) = filter (fun '(_, score) => t - windowMS < score) (recent s) /\ recorded (ELAPSE s t) sequence.
Proof.
  intros Ht Hrec. unfold recent. rewrite ELAPSE_clock by assumption. split.
  - destruct (ELAPSE_key s t F Ht) as [(_ & Z & _)|(_ & Z & _)]; rewrite Z.
    + apply map_eq. intros m. apply option_eq. intros x. rewrite !map_lookup_filter_Some. intuition lia.
    + rewrite map_filter_empty. symmetry. apply map_empty. intros m. apply map_lookup_filter_None. right. intros x Hx.
      apply map_lookup_filter_Some in Hx as [Hx _]. destruct (Hrec _ _ Hx) as (_ & B & _).
      destruct (DEADLINE s F) as [d|] eqn:D.
      * destruct (Z.lt_ge_cases t d) as [Hlt|Hge]; [|lia]. destruct (ELAPSE_live s t F Ht) as (_ & Z' & _); [now rewrite D|].
        exfalso. assert (X : zsetOf s F !! m = None) by (rewrite <- Z', Z; apply lookup_empty). congruence.
      * destruct (ELAPSE_live s t F Ht) as (_ & Z' & _); [now rewrite D|]. exfalso.
        assert (X : zsetOf s F !! m = None) by (rewrite <- Z', Z; apply lookup_empty). congruence.
  - intros m score E. rewrite ELAPSE_clock by assumption. destruct (ELAPSE_key s t F Ht) as [(_ & Z & _ & D)|(_ & Z & _)]; rewrite Z in E.
    + rewrite D. destruct (Hrec _ _ E) as (B1 & B2 & B3). split_and!; [lia|assumption|assumption].
    + now rewrite lookup_empty in E.
Qed.

Lemma elapse_lock s t : CLOCK s <= t -> lock_clean s -> lock_clean (ELAPSE s t).
Proof.
  intros Ht [H1 H2]. destruct (ELAPSE_key s t K Ht) as [(E1 & E2 & _)|(E1 & E2 & _)]; split; congruence.
Qed.

Lemma elapse_agree e s t sequence : CLOCK s <= t -> recorded s sequence -> lock_clean s -> agree e s -> agree e (ELAPSE s t).
Proof.
  intros Ht Hrec Hc Ha. destruct (elapse_recent s t sequence Ht Hrec) as [Er _].
  destruct Ha as [L G P|d L Hd Hr Hk].
  - apply agree_open; [assumption| |].
    + destruct (ELAPSE_key s t K Ht) as [(_ & _ & E & _)|(_ & _ & E & _)]; congruence.
    + rewrite Er, instants_filter. assert (Ec : cutoff (ELAPSE s t) = (t - windowMS) * ms) by (rewrite cutoff_ms, ELAPSE_clock; auto).
      rewrite Ec, (retain_perm _ _ _ P), retain_twice; [reflexivity|]. rewrite cutoff_ms. unfold ms. lia.
  - apply agree_locked with (d := d); auto.
    + now rewrite Er, Hr, map_filter_empty.
    + rewrite ELAPSE_clock by assumption. destruct (decide (CLOCK s < d)) as [Hlt|Hge].
      * destruct Hk as [G D]. case_decide as Hd'.
        -- destruct (ELAPSE_live s t K Ht) as (_ & _ & E & E'); [now rewrite D|]. now rewrite E, E'.
        -- now destruct (ELAPSE_dead s t K d Ht D ltac:(lia)) as (_ & _ & E & _).
      * rewrite decide_False by lia. destruct (ELAPSE_key s t K Ht) as [(_ & _ & E & _)|(_ & _ & E & _)]; congruence.
Qed.

(** ** Sequences of attempts *)

Inductive Event := Wait (milliseconds : Z) | Attempt (valid : bool).

(** The decisions of the shared form, and of one process on its own clock. *)
Fixpoint runShared (f : AuthFailures) (s : St) (events : list Event) : list authDecision :=
  match events with
  | [] => []
  | Wait d :: events => runShared f (ELAPSE s (CLOCK s + d)) events
  | Attempt valid :: events =>
    let '(f, _, s, decision) := evaluateAuthFailure f newAuthFailureLimiter peer valid (CLOCK s * ms) Delivered s in
    decision :: runShared f s events
  end.

Fixpoint runLocal (l : authFailureLimiter) (clock : Z) (events : list Event) : list authDecision :=
  match events with
  | [] => []
  | Wait d :: events => runLocal l (clock + d) events
  | Attempt valid :: events =>
    let '(l, decision) := evaluate l (clock * ms) peer valid in decision :: runLocal l clock events
  end.

Definition entryFor (l : authFailureLimiter) : authFailureEntry := default (mkEntry [] 0) (entries l !! peer).

Lemma cleanup_agree l s : agree (entryFor l) s -> agree (entryFor (cleanup l (CLOCK s * ms))) s.
Proof.
  intros H. unfold cleanup. destruct (_ && _); [assumption|]. unfold entryFor. cbn [entries]. rewrite lookup_omap.
  apply agree_clean in H. unfold entryFor in H. now destruct (entries l !! peer).
Qed.

Definition waits_ok (ev : Event) : Prop := match ev with Wait d => 0 <= d | Attempt _ => True end.

(** The rest of a run, from the store [s'] whose clock has not moved. *)
Ltac next_attempt IH C :=
  match goal with |- runShared ?f ?s' _ = runLocal ?l _ _ =>
    let G := fresh in pose proof (IH f s' l) as G; rewrite C in G; apply G; clear G; auto; try (cbn; unfold const; auto; lia)
  end.

Lemma forms_agree events : Forall waits_ok events -> forall (f : AuthFailures) s l,
  failuresPrefix f = prefix -> failureMembers f = members ->
  0 <= failureSequence f -> failureSequence f + Z.of_nat (length events) < two64 -> 0 < CLOCK s ->
  lock_clean s -> recorded s (failureSequence f) -> agree (entryFor l) s ->
  runShared f s events = runLocal l (CLOCK s) events.
Proof.
  induction 1 as [|ev events Hw _ IH]; intros f s l Hp Hm Hs Hlen Hclk Hc Hrec Ha; [reflexivity|]. cbn [length] in Hlen.
  destruct ev as [d|valid]; cbn [runShared runLocal waits_ok] in *.
  - assert (Ht : CLOCK s <= CLOCK s + d) by lia.
    pose proof (IH f (ELAPSE s (CLOCK s + d)) l) as H. rewrite ELAPSE_clock in H by assumption. apply H; auto; try lia.
    + now apply elapse_lock.
    + now apply elapse_recent.
    + now apply elapse_agree with (sequence := failureSequence f).
  - unfold evaluateAuthFailure, EvaluateShared. rewrite Hp.
    change (failureKeys prefix peer) with (F, K). unfold evaluate. set (l1 := cleanup l (CLOCK s * ms)).
    assert (Ha1 : agree (entryFor l1) s) by now apply cleanup_agree. destruct valid.
    + destruct (valid_attempt s (failureSequence f) Hc) as (C & Hc' & Hr' & Ha'). cbn zeta in *. rewrite <- C.
      f_equal. apply IH; auto; try lia. unfold entryFor. cbn. unfold const. rewrite lookup_delete_eq. exact Ha'.
    + assert (Es : wrap_u64 (failureSequence f + 1) = failureSequence f + 1) by (unfold wrap_u64; apply Z.mod_small; lia).
      cbn [failureSequence failureMembers set]. unfold const. rewrite Es, ?Hm.
      assert (En : CLOCK s * ms / 1000000 = CLOCK s) by (apply Z.div_mul; discriminate). rewrite En.
      change (Window sharedAuthFailurePolicy / 1000000) with windowMS. change (LockDuration sharedAuthFailurePolicy / 1000000) with windowMS.
      change (Limit sharedAuthFailurePolicy) with authFailureLimit.
      pose proof (failed_attempt (entryFor l1) s (failureSequence f) Ha1 Hc Hrec Hs Hclk) as H. cbn zeta in H.
      destruct (authFailureScript F K (CLOCK s) windowMS authFailureLimit windowMS _ s) as [s' [locked retry]].
      destruct H as (C & Hc' & Hr' & H). fold (entryFor l1).
      destruct (CLOCK s * ms <? lockedUntil (entryFor l1)) eqn:El; [|destruct (_ >=? authFailureLimit)].
      * destruct H as (-> & Er & Ha'). change (0 =? 1) with false. unfold ms in Er. rewrite Er. f_equal.
        next_attempt IH C.
      * destruct H as (-> & Er & Ha'). change (1 =? 1) with true. unfold ms in Er. rewrite Er. f_equal.
        next_attempt IH C. unfold entryFor. cbn. unfold const. rewrite lookup_insert_eq. exact Ha'.
      * destruct H as (-> & -> & Ha'). change (0 =? 1) with false. cbn [Z.mul]. f_equal.
        next_attempt IH C. unfold entryFor. cbn. unfold const. rewrite lookup_insert_eq. exact Ha'.
Qed.

(** The Redis lockout is the in-process lockout.  For a peer without recorded
    failures, on every sequence of sign-in attempts and pauses, the shared script and
    the limiter of a single process take exactly the same decisions: the same
    attempts are authorised, refused and locked out, with the same retry times. *)
Theorem lockout_forms_agree f s l events :
  failuresPrefix f = prefix -> failureMembers f = members ->
  0 <= failureSequence f -> failureSequence f + Z.of_nat (length events) < two64 -> 0 < CLOCK s ->
  key_gone F s -> key_gone K s -> entries l !! peer = None -> Forall waits_ok events ->
  runShared f s events = runLocal l (CLOCK s) events.
Proof.
  intros Hp Hm Hs Hlen Hclk (_ & ZF & _) (HK & ZK & GK & _) Hl Hw. apply forms_agree; auto.
  - now split.
  - intros m score E. rewrite ZF, lookup_empty in E. discriminate.
  - unfold entryFor. rewrite Hl. apply agree_open; [reflexivity|assumption|]. unfold recent. rewrite ZF, map_filter_empty. reflexivity.
Qed.

End Agree.

(** ** Witness *)

Lemma lockout_forms_agree_witness :
  let events := [Attempt false; Attempt false; Wait 1000; Attempt false; Attempt false; Attempt false; Wait 500; Attempt false; Attempt true] in
  runShared "1.2.3.4" (mkFailures "gw" "n:" 0) (mkDB 5000 ∅) events = runLocal "1.2.3.4" newAuthFailureLimiter 5000 events /\
  runLocal "1.2.3.4" newAuthFailureLimiter 5000 events !! 5%nat = Some (mkAuth false (1799500 * ms) false).
Proof.
  split; [|vm_compute; reflexivity].
  change 5000 with (CLOCK (mkDB 5000 ∅)) at 2.
  apply (lockout_forms_agree "gw" "n:" "1.2.3.4"); try reflexivity; try discriminate; try (split_and!; reflexivity).
  repeat constructor; cbn; lia.
Defined.

End LockoutProps.
