(* ===== verification/Leases.v ===== *)
(** * Leases

    [internal/cluster/refresh_lease.go], [job_lease.go] and the two lease scripts: one
    key per lease holds the token of its owner and expires unless it is renewed.  A
    refresh lease lets one instance refresh a credential; a job claim lets one
    instance run a periodic job. *)

From Stdlib Require Import ZArith Lia Bool String Ascii List.
From stdpp Require Import base gmap sets list strings.
From coqutil Require Import Datatypes.RecordSettersUsingExistingGetters.
From S2P Require Import Prelude GoStrings Redis Lua QuotaStore HealthStore.

Local Open Scope Z_scope.

Module Leases.
Import Redis QuotaStore.

Section Store.
Context {St : Type} {R : RedisStore St}.

(** ** Scripts *)

Definition renewLeaseScript (k token : string) (ttl : Z) (s : St) : St * Z :=
  if bool_decide (GET s k = Some token)
  then let '(s, ok) := PEXPIRE s k ttl in (s, if ok : bool then 1 else 0) else (s, 0).

Definition releaseLeaseScript (k token : string) (s : St) : St * Z :=
  if bool_decide (GET s k = Some token) then (DEL s k, 1) else (s, 0).

(** ** Refresh leases *)

Definition refreshLeaseTTL : Z := 30 * 1000.

Definition refreshKey (prefix : string) (credentialID : Z) : string :=
  Key prefix [HealthStore.credentialHashTag credentialID; "refresh-lease"]%string.

(** [Acquire] on a reachable store; the token is released later. *)
Definition AcquireLease (prefix instance random : string) (credentialID : Z) (s : St) : St * option string :=
  let token := (instance +:+ ":" +:+ random)%string in
  let '(s, acquired) := SETNX s (refreshKey prefix credentialID) token refreshLeaseTTL in
  (s, if acquired : bool then Some token else None).

(** One tick of the renewal goroutine: whether it goes on.  [None] is a call whose
    outcome is unknown. *)
Definition renewTick (k token : string) (reply : option Z) : bool :=
  match reply with
  | Some renewed => renewed =? 1
  | None => true
  end.

(** [Held]: which leases exist. *)
Definition HeldLeases (prefix : string) (ids : list Z) (s : St) : gmap Z bool :=
  list_to_map (map (fun id => (id, negb (bool_decide (GET s (refreshKey prefix id) = None)))) ids).

(** ** Job claims *)

Definition minJobClaim : Z := 1000.

(** Milliseconds of [max(period*9/10, minJobClaim)], for a period in milliseconds. *)
Definition jobClaim (period : Z) : Z := Z.max (Z.quot (period * 9) 10) minJobClaim.

Definition jobKey (prefix job : string) : string := Key prefix ["lease"; job]%string.

(** [RunOncePerPeriod]: [fn] is the job, with the store it leaves and whether it
    failed.  [delivered] tells whether the claim and the release reach the store. *)
Definition RunOncePerPeriod (prefix instance random job : string) (period : Z) (fn : St -> St * bool)
    (delivered released : bool) (s : St) : St * bool :=
  if negb delivered then (s, false)
  else
    let k := jobKey prefix job in
    let token := (instance +:+ ":" +:+ random)%string in
    let '(s, claimed) := SETNX s k token (jobClaim period) in
    if negb claimed then (s, false)
    else
      let '(s, failed) := fn s in
      (if failed && released then fst (releaseLeaseScript k token s) else s, true).

End Store.

(** ** Exclusion *)

Section Exclusion.
Context {St : Type} {R : RedisStore St} {ROk : RedisOk St}.
Implicit Types (s : St).
Variables (k token : string) (ttl : Z).

(** What anyone can do while [token] owns the lease and does not release it; the
    second component is the instant of the last acquisition or renewal, and time
    stays within one lifetime of it. *)
Inductive lease_step : St * Z -> St * Z -> Prop :=
| LAcquire other px s r : lease_step (s, r) (fst (SETNX s k other px), r)
| LRenewOther other px s r : other <> token -> lease_step (s, r) (fst (renewLeaseScript k other px s), r)
| LReleaseOther other s r : other <> token -> lease_step (s, r) (fst (releaseLeaseScript k other s), r)
| LRenew s r : lease_step (s, r) (fst (renewLeaseScript k token ttl s), CLOCK s)
| LElapse t s r : CLOCK s <= t < r + ttl -> lease_step (s, r) (ELAPSE s t, r)
| LOther s s' r : CLOCK s' = CLOCK s -> GET s' k = GET s k -> DEADLINE s' k = DEADLINE s k -> lease_step (s, r) (s', r).

Definition owned (x : St * Z) : Prop := GET x.1 k = Some token /\ DEADLINE x.1 k = Some (x.2 + ttl).

Lemma lease_step_owned x y : 0 < ttl -> lease_step x y -> owned x -> owned y.
Proof.
  intros Ht Hs [G D]. destruct Hs as [other px s r|other px s r Hne|other s r Hne|s r|t s r Hc|s s' r C E1 E2]; cbn in *.
  - rewrite SETNX_ok, G. now split.
  - unfold renewLeaseScript. rewrite bool_decide_eq_false_2 by congruence. now split.
  - unfold releaseLeaseScript. rewrite bool_decide_eq_false_2 by congruence. now split.
  - unfold renewLeaseScript. rewrite bool_decide_eq_true_2 by assumption.
    destruct (PEXPIRE_ok s k ttl Ht) as (E & D' & _ & _ & G'); [right; right; congruence|].
    destruct (PEXPIRE s k ttl) as [s' ok]. cbn in *. split; cbn; congruence.
  - destruct (ELAPSE_live s t k) as (_ & _ & G' & D'); [lia|rewrite D; lia|]. split; cbn; congruence.
  - split; cbn; congruence.
Qed.

(** Leases exclude each other.  Once acquired, a lease stays with its owner
    through every attempt of others to acquire, renew or release it, for one
    lifetime after the last renewal: no other acquisition succeeds meanwhile.  A
    release by the owner frees it at once, and so does expiry. *)
Theorem lease_mutual_exclusion s s1 s2 r : 0 < ttl -> SETNX s k token ttl = (s1, true) ->
  rtc lease_step (s1, CLOCK s) (s2, r) ->
  (forall other px, SETNX s2 k other px = (s2, false)) /\ GET s2 k = Some token /\
  (forall other px, snd (SETNX (fst (releaseLeaseScript k token s2)) k other px) = true) /\
  (forall t other px, CLOCK s2 <= t -> r + ttl <= t -> snd (SETNX (ELAPSE s2 t) k other px) = true).
Proof.
  intros Ht Ha Hs.
  assert (H1 : owned (s1, CLOCK s)).
  { rewrite SETNX_ok in Ha. destruct (GET s k); [discriminate|]. injection Ha as <-. split; cbn; [apply SETPX_ok|apply SETPX_deadline]. }
  assert (H2 : owned (s2, r)).
  { clear Ha. remember (s1, CLOCK s) as x. clear Heqx. remember (s2, r) as y. clear Heqy.
    induction Hs as [|x y z Hxy _ IH]; [assumption|]. apply IH. now apply (lease_step_owned x). }
  destruct H2 as [G D]. cbn in G, D. split_and!; auto.
  - intros other px. now rewrite SETNX_ok, G.
  - intros other px. unfold releaseLeaseScript. rewrite bool_decide_eq_true_2 by assumption. cbn [fst].
    rewrite SETNX_ok. now destruct (DEL_ok s2 k) as (_ & _ & -> & _).
  - intros t other px Hc Hd. rewrite SETNX_ok. now destruct (ELAPSE_dead s2 t k _ Hc D Hd) as (_ & _ & -> & _).
Qed.

(** A periodic job runs once per claim.  After a run that did not fail, no
    instance runs the job again before nine tenths of the period have passed; a
    failed run gives the claim back, so the next attempt of any instance runs it. *)
Theorem job_runs_once_per_claim prefix instance random job period fn s s1 failed t instance' random' fn' d' :
  GET s (jobKey prefix job) = None -> fn (SETPX s (jobKey prefix job) (instance +:+ ":" +:+ random)%string (jobClaim period)) = (s1, failed) ->
  CLOCK s1 = CLOCK s -> GET s1 (jobKey prefix job) = Some (instance +:+ ":" +:+ random)%string ->
  DEADLINE s1 (jobKey prefix job) = Some (CLOCK s + jobClaim period) -> CLOCK s <= t < CLOCK s + jobClaim period ->
  let '(s2, ran) := RunOncePerPeriod prefix instance random job period fn true true s in
  ran = true /\
  snd (RunOncePerPeriod prefix instance' random' job period fn' true d' (ELAPSE s2 t)) = failed.
Proof.
  intros G0 Hf C G D Hc. unfold RunOncePerPeriod. cbn [negb]. rewrite SETNX_ok, G0. cbn [negb]. rewrite Hf.
  destruct failed; cbn [andb]; (split; [reflexivity|]); rewrite SETNX_ok.
  - unfold releaseLeaseScript. rewrite bool_decide_eq_true_2 by assumption. cbn [fst].
    assert (Hc2 : CLOCK (DEL s1 (jobKey prefix job)) <= t) by (rewrite (ok_clock _ _ _ (DEL_only s1 _)); lia).
    destruct (DEL_ok s1 (jobKey prefix job)) as (_ & _ & G' & _).
    destruct (ELAPSE_key _ t (jobKey prefix job) Hc2) as [(_ & _ & E & _)|(_ & _ & E & _)]; rewrite E, ?G'; cbn [negb];
      destruct (fn' _); reflexivity.
  - destruct (ELAPSE_live s1 t (jobKey prefix job)) as (_ & _ & E & _); [lia|rewrite D; lia|]. now rewrite E, G.
Qed.

End Exclusion.

(** ** Witnesses *)

Lemma lease_mutual_exclusion_witness :
  let s1 := fst (SETNX (mkDB 100 ∅) "k" "a" 1000) in
  snd (SETNX (ELAPSE s1 900) "k" "b" 1000) = false /\ snd (SETNX (ELAPSE s1 1200) "k" "b" 1000) = true.
Proof.
  cbn zeta. set (s1 := fst (SETNX (mkDB 100 ∅) "k" "a" 1000)).
  assert (H : rtc (lease_step "k" "a" 1000) (s1, 100) (ELAPSE s1 900, 100)) by (apply rtc_once, LElapse; vm_compute; split; congruence).
  destruct (lease_mutual_exclusion "k" "a" 1000 (mkDB 100 ∅) s1 (ELAPSE s1 900) 100) as (H1 & _); [lia|reflexivity|exact H|].
  destruct (lease_mutual_exclusion "k" "a" 1000 (mkDB 100 ∅) s1 s1 100) as (_ & _ & _ & H2); [lia|reflexivity|apply rtc_refl|].
  split; [now rewrite H1|apply H2; vm_compute; congruence].
Defined.

Lemma job_runs_once_per_claim_witness :
  let '(s2, ran) := RunOncePerPeriod "gw" "i1" "x" "sweep" 60000 (fun s => (s, false)) true true (mkDB 100 ∅) in
  ran = true /\ snd (RunOncePerPeriod "gw" "i2" "y" "sweep" 60000 (fun s => (s, false)) true true (ELAPSE s2 50000)) = false.
Proof.
  refine (job_runs_once_per_claim (St := DB) "gw" "i1" "x" "sweep" 60000 (fun s => (s, false)) (mkDB 100 ∅) _ false 50000
    "i2" "y" (fun s => (s, false)) true _ eq_refl _ _ _ _); try (vm_compute; reflexivity). vm_compute. split; congruence.
Defined.

End Leases.
