(* ===== verification/Ownership.v ===== *)
(** * Affinity and response ownership

    Two shared indexes remember which credential served a client.
    [internal/affinity] derives the key of a prompt prefix and
    [internal/cluster/affinity.go] keeps one soft preference per key, replaced only
    by whoever observed it or once it is older than the policy allows.
    [internal/state/response_bindings.go] and [internal/cluster/response_bindings.go]
    keep the owner of a stored response, the first one recorded.

    The keyed digest, the random nonce and the two JSON codecs of the ownership value
    are arguments of the definitions. *)

From Stdlib Require Import ZArith Lia Bool String Ascii List.
From stdpp Require Import base gmap sets list strings countable.
From coqutil Require Import Datatypes.RecordSettersUsingExistingGetters.
From S2P Require Import Prelude GoStrings Execution Credential Redis Lua QuotaStore HealthStore.

Local Open Scope Z_scope.
Local Open Scope go_scope.

Module Ownership.
Import Execution Credential Redis Lua LuaNumbers QuotaStore.

(** ** Keys *)

(** The text of a protocol constant. *)
Definition protocolText (p : Protocol) : string :=
  match p with
  | OpenAICompletions => "openai-completions"
  | OpenAIResponses => "openai-responses"
  | OpenAIImages => "openai-images"
  | OpenAIEmbeddings => "openai-embeddings"
  | Rerank => "rerank"
  | Decisions => "decisions"
  | Anthropic => "anthropic"
  | Gemini => "gemini"
  | GeminiEmbeddings => "gemini-embeddings"
  | ProtocolOther raw => raw
  end%string.

(** [binary.BigEndian.PutUint64]. *)
Definition bigEndian64 (n : Z) : list ascii :=
  map (fun i => ascii_of_nat (Z.to_nat (Z.shiftr n (8 * i) mod 256))) [7; 6; 5; 4; 3; 2; 1; 0].

Definition writeKeyField (target value : list ascii) : list ascii :=
  target ++ bigEndian64 (Z.of_nat (length value)) ++ value.

Definition keyDomain : string := "gpt-load/affinity/prompt-prefix-hmac/v2".
Definition cacheKeyDomain : string := "gpt-load/affinity/prompt-cache-key/v1".

(** The buffer [deriveKey] fills. *)
Definition keyMaterial (accessKeyID : Z) (clientProtocol : Protocol) (domain : string) (prefix : list ascii) : list ascii :=
  let material := writeKeyField [] (bytes domain) in
  let material := material ++ bigEndian64 accessKeyID in
  let material := writeKeyField material (bytes (protocolText clientProtocol)) in
  writeKeyField material prefix.

(** [None] is a nil hasher; the empty key is invalid. *)
Definition deriveKey (hasher : option (string -> string)) (accessKeyID : Z) (clientProtocol : Protocol)
    (domain : string) (prefix : list ascii) : string :=
  match hasher with
  | None => ""%string
  | Some Hash =>
    if (accessKeyID =? 0) || negb (protocolValid clientProtocol) || (Z.of_nat (length prefix) =? 0) then ""%string
    else Hash (text (keyMaterial accessKeyID clientProtocol domain prefix))
  end.

Definition DeriveKey hasher accessKeyID clientProtocol (prefix : list ascii) : string :=
  deriveKey hasher accessKeyID clientProtocol keyDomain prefix.
Definition DerivePromptCacheKey hasher accessKeyID clientProtocol (key : string) : string :=
  deriveKey hasher accessKeyID clientProtocol cacheKeyDomain (bytes key).

Definition keyValid (key : string) : bool := negb (bool_decide (key = ""%string)).

(** ** Soft affinity *)

Record Target := mkTarget { GroupID : Z; CredentialID : Z; IdentityGeneration : Z }.
Definition noTarget : Target := mkTarget 0 0 0.
Definition targetValid (t : Target) : bool :=
  negb (t.(GroupID) =? 0) && negb (t.(CredentialID) =? 0) && negb (t.(IdentityGeneration) =? 0).

(** [TTL] in nanoseconds. *)
Record Policy := mkPolicy { Revision : Z; Capacity : Z; TTL : Z }.
Definition policyValid (p : Policy) : bool := negb (p.(Revision) =? 0) && (p.(Capacity) >? 0) && (p.(TTL) >? 0).

Record Observation := mkObservation { obs_Target : Target; token : string }.
Definition Found (o : Observation) : bool := negb (bool_decide (o.(token) = ""%string)).
Definition SharedObservation (target : Target) (token : string) : Observation := mkObservation target token.
Definition nothing : Observation := SharedObservation noTarget "".

Definition colon : ascii := ":"%char.

(** [strings.Join] with colons, on bytes. *)
Fixpoint joinColon (parts : list (list ascii)) : list ascii :=
  match parts with
  | [] => []
  | [p] => p
  | p :: parts => p ++ colon :: joinColon parts
  end.

(** [hex.EncodeToString]. *)
Definition hexDigit (n : Z) : ascii := ascii_of_nat (Z.to_nat (if n <? 10 then 48 + n else 87 + n)).
Definition hexText (bs : list ascii) : list ascii :=
  flat_map (fun b => [hexDigit (byte_val b / 16); hexDigit (byte_val b mod 16)]) bs.

(** The value [RecordSuccess] stores. *)
Definition affinityValue (target : Target) (nowMS : Z) (nonce : list ascii) : string :=
  text (joinColon [format_int target.(GroupID); format_int target.(CredentialID);
                   format_int target.(IdentityGeneration); format_int nowMS; hexText nonce]).

(** The target and the instant of learning in milliseconds. *)
Definition decodeAffinityValue (value : string) : option (Target * Z) :=
  match split_on colon (bytes value) with
  | [group; credential; generation; learned; _] =>
    match parse_uint64 group, parse_uint64 credential, parse_uint64 generation, parse_int64 learned with
    | Some groupID, Some credentialID, Some gen, Some learnedMS =>
      let target := mkTarget groupID credentialID gen in
      if targetValid target then Some (target, learnedMS) else None
    | _, _, _, _ => None
    end
  | _ => None
  end.

(** One [%d+:] of the Lua pattern; a digit run is maximal, since no digit is a colon. *)
Fixpoint digitRun (l : list ascii) : list ascii * list ascii :=
  match l with
  | [] => ([], [])
  | c :: rest => if is_digit c then let '(ds, tail) := digitRun rest in (c :: ds, tail) else ([], l)
  end.
Definition matchField (l : list ascii) : option (list ascii * list ascii) :=
  match digitRun l with
  | ((_ :: _) as ds, c :: rest) => if Ascii.eqb c colon then Some (ds, rest) else None
  | _ => None
  end.

(** [string.match(current, '^%d+:%d+:%d+:(%d+):')]. *)
Definition matchLearned (current : string) : option (list ascii) :=
  match matchField (bytes current) with
  | Some (_, l) =>
    match matchField l with
    | Some (_, l) =>
      match matchField l with
      | Some (_, l) => match matchField l with Some (ds, _) => Some ds | None => None end
      | None => None
      end
    | None => None
    end
  | None => None
  end.

Section Store.
Context {St : Type} {R : RedisStore St}.

(** A [SET] with an expiry that is not positive is an error. *)
Definition SETexpire (k v : string) (px : Z) : Script St unit :=
  if px <=? 0 then raise CommandError else write (fun s => SETPX s k v px).

Definition affinityRecordScript (k expected value : string) (nowMS ttlMS : Z) : Script St Z :=
  let! current := read (fun s => GET s k) in
  let keep :=
    match current with
    | Some current =>
      if bool_decide (current = expected) then false
      else match matchLearned current with
           | Some learned => dbl (dbl (digits_value learned) + dbl ttlMS) >? dbl nowMS
           | None => false
           end
    | None => false
    end in
  if keep : bool then ret 0 else do! SETexpire k value ttlMS in ret 1.

Definition affinityKey (prefix key : string) : string := Key prefix ["aff"; key]%string.

(** [Lookup] of a delivered call at the instant [now] (nanoseconds). *)
Definition LookupAffinity (prefix : string) (policy : Policy) (key : string) (now : Z) (s : St) : Observation :=
  if negb (keyValid key) then nothing
  else
    match GET s (affinityKey prefix key) with
    | None => nothing
    | Some token =>
      match decodeAffinityValue token with
      | Some (target, learnedMS) =>
        if learnedMS * 1000000 + policy.(TTL) >? now then SharedObservation target token else nothing
      | None => nothing
      end
    end.

(** [RecordSuccess] of a delivered call; [nonce] are the eight random bytes. *)
Definition RecordSuccess (prefix : string) (policy : Policy) (key : string) (observed : Observation) (target : Target)
    (nonce : list ascii) (now : Z) (s : St) : St * result ScriptError bool :=
  if negb (keyValid key) || negb (targetValid target) || (policy.(TTL) <=? 0) then (s, Ok false)
  else
    let nowMS := now / 1000000 in
    let value := affinityValue target nowMS nonce in
    let '(s, reply) :=
      affinityRecordScript (affinityKey prefix key) observed.(token) value nowMS (Z.quot policy.(TTL) 1000000) s in
    (s, match reply with Ok written => Ok (written =? 1) | Err e => Err e end).

End Store.

(** ** Response ownership *)

(** [automodel.Selection]. *)
Record Selection := mkSelection {
  EntryID : string; EntryName : string; PresetID : string; PresetName : string; TargetModel : string;
  ParameterOverrides : string; ConfigFingerprint : string; TaskFingerprint : string;
}.
Definition zeroSelection : Selection := mkSelection "" "" "" "" "" "" "" "".

Record storedResponseBinding := mkStored {
  st_GroupID : Z; st_CredentialID : Z; st_IdentityGeneration : Z; st_ExpiresAtMS : Z; st_AutoSelection : option Selection;
}.

Record ResponseBinding := mkBinding {
  rb_AutoSelection : option Selection; rb_AccessKeyID : Z; rb_ResponseID : string;
  rb_GroupID : Z; rb_CredentialID : Z; rb_IdentityGeneration : Z; rb_ExpiresAt : Z;
}.

(** [json.Marshal] and [json.Unmarshal] at the two types the code uses them at;
    [None] is an error. *)
Class Json := {
  marshalSelection : Selection -> option string;
  unmarshalSelection : string -> option Selection;
  marshalStored : storedResponseBinding -> option string;
  unmarshalStored : string -> option storedResponseBinding;
}.

Definition MaxResponseIDBytes : Z := Z.shiftl 4 10.

Section Bindings.
Context {J : Json}.

(** [json.Marshal] of the pointer, whose error leaves no bytes. *)
Definition autoBytes (auto : option Selection) : string :=
  match auto with
  | None => "null"
  | Some selection => default "" (marshalSelection selection)
  end%string.

(** The deep copy through JSON; a failed step leaves the new, empty selection. *)
Definition copySelection (selection : Selection) : Selection :=
  default zeroSelection (marshalSelection selection ≫= unmarshalSelection).

Definition NewResponseBinding (accessKeyID : Z) (responseID : string) (ref : CredentialRef)
    (autoSelection : option Selection) (now ttl : Z) : option ResponseBinding :=
  if (accessKeyID =? 0) || bool_decide (responseID = ""%string) || (ref.(ref_ID) =? 0) || (ref.(ref_GroupID) =? 0) ||
     (ref.(ref_IdentityGeneration) =? 0) || (Z.of_nat (String.length responseID) >? MaxResponseIDBytes)
  then None
  else Some (mkBinding (copySelection <$> autoSelection) accessKeyID responseID ref.(ref_GroupID) ref.(ref_ID)
               ref.(ref_IdentityGeneration) (now + ttl)).

Definition SameResponseOwner (existing incoming : ResponseBinding) : bool :=
  (existing.(rb_GroupID) =? incoming.(rb_GroupID)) && (existing.(rb_CredentialID) =? incoming.(rb_CredentialID)) &&
  (existing.(rb_IdentityGeneration) =? incoming.(rb_IdentityGeneration)) &&
  bool_decide (autoBytes existing.(rb_AutoSelection) = autoBytes incoming.(rb_AutoSelection)).

Definition decodeResponseBinding (accessKeyID : Z) (responseID raw : string) : option ResponseBinding :=
  match unmarshalStored raw with
  | None => None
  | Some stored =>
    if (stored.(st_GroupID) =? 0) || (stored.(st_CredentialID) =? 0) || (stored.(st_IdentityGeneration) =? 0) then None
    else Some (mkBinding stored.(st_AutoSelection) accessKeyID responseID stored.(st_GroupID) stored.(st_CredentialID)
                 stored.(st_IdentityGeneration) (stored.(st_ExpiresAtMS) * 1000000))
  end.

Context {St : Type} {R : RedisStore St}.

Inductive BindingError := LookupFailed | EncodeFailed | RecordFailed | ReadFailed.

Definition bindingKey (prefix : string) (accessKeyID : Z) (responseID : string) : string :=
  Key prefix ["rb"; decimal accessKeyID; responseID]%string.

Definition LookupBinding (prefix : string) (accessKeyID : Z) (responseID : string) (net : Delivery) (s : St)
    : result BindingError (option ResponseBinding) :=
  if bool_decide (responseID = ""%string) || (Z.of_nat (String.length responseID) >? MaxResponseIDBytes) then Ok None
  else
    match net with
    | Delivered =>
      match GET s (bindingKey prefix accessKeyID responseID) with
      | None => Ok None
      | Some raw => Ok (decodeResponseBinding accessKeyID responseID raw)
      end
    | _ => Err LookupFailed
    end.

(** One round of the loop of [Record], [None] when it continues.  [others i] is what
    happens to the store before the command [i] of the round, [net i] what happens to
    that command. *)
Definition recordRound (k value : string) (ttlMS : Z) (binding : ResponseBinding) (others : nat -> St -> St)
    (net : nat -> Delivery) (s : St) : St * option (result BindingError bool) :=
  let s := others 0%nat s in
  match net 0%nat with
  | NotDelivered => (s, Some (Err RecordFailed))
  | ReplyLost => (fst (SETNX s k value ttlMS), Some (Err RecordFailed))
  | Delivered =>
    let '(s, created) := SETNX s k value ttlMS in
    if created : bool then (s, Some (Ok true))
    else
      let s := others 1%nat s in
      match net 1%nat with
      | Delivered =>
        match GET s k with
        | None => (s, None)
        | Some raw =>
          (s, Some (Ok (match decodeResponseBinding binding.(rb_AccessKeyID) binding.(rb_ResponseID) raw with
                        | Some existing => SameResponseOwner existing binding
                        | None => false
                        end)))
        end
      | _ => (s, Some (Err ReadFailed))
      end
  end.

Fixpoint recordLoop (rounds : nat) (k value : string) (ttlMS : Z) (binding : ResponseBinding)
    (others : nat -> nat -> St -> St) (net : nat -> nat -> Delivery) (s : St) : St * result BindingError bool :=
  match rounds with
  | O => (s, Ok false)
  | S rounds =>
    match recordRound k value ttlMS binding (others rounds) (net rounds) s with
    | (s, Some r) => (s, r)
    | (s, None) => recordLoop rounds k value ttlMS binding others net s
    end
  end.

(** [Record]; the two rounds are numbered 1 and 0. *)
Definition RecordBinding (prefix : string) (ttl : Z) (accessKeyID : Z) (responseID : string) (ref : CredentialRef)
    (auto : option Selection) (now : Z) (others : nat -> nat -> St -> St) (net : nat -> nat -> Delivery) (s : St)
    : St * result BindingError bool :=
  match NewResponseBinding accessKeyID responseID ref auto now ttl with
  | None => (s, Ok false)
  | Some binding =>
    match marshalStored (mkStored binding.(rb_GroupID) binding.(rb_CredentialID) binding.(rb_IdentityGeneration)
                           (binding.(rb_ExpiresAt) / 1000000) binding.(rb_AutoSelection)) with
    | None => (s, Err EncodeFailed)
    | Some value => recordLoop 2 (bindingKey prefix accessKeyID responseID) value (ttl / 1000000) binding others net s
    end
  end.

End Bindings.

End Ownership.
