(* ===== verification/OwnershipProps.v ===== *)
(** * Affinity and response ownership: theorems

    Keys separate tenants, protocols and namespaces; the first live success of a
    preference and the first recorded owner of a response stay until they expire. *)

From Stdlib Require Import ZArith Lia Bool String Ascii List.
From stdpp Require Import base gmap sets list strings countable.
From coqutil Require Import Datatypes.RecordSettersUsingExistingGetters.
From S2P Require Import Prelude GoStrings Execution Credential Redis Lua QuotaStore HealthStore Ownership.

Local Open Scope Z_scope.
Local Open Scope go_scope.

Module OwnershipProps.
Import Execution Credential Redis Lua LuaNumbers QuotaStore Ownership.

(** ** Keys *)

Definition in_u64 (n : Z) : Prop := 0 <= n <= max_uint64.

Lemma byte_of_inj a b : 0 <= a < 256 -> 0 <= b < 256 ->
  ascii_of_nat (Z.to_nat a) = ascii_of_nat (Z.to_nat b) -> a = b.
Proof.
  intros Ha Hb H%(f_equal nat_of_ascii). rewrite !nat_ascii_embedding in H by lia. lia.
Qed.

Lemma join_byte x y : x / 256 = y / 256 -> x mod 256 = y mod 256 -> x = y.
Proof. intros H1 H2. rewrite (Z.div_mod x 256), (Z.div_mod y 256) by lia. now rewrite H1, H2. Qed.

Lemma shiftr_byte n i : 0 <= i -> Z.shiftr n (8 * (i + 1)) = Z.shiftr n (8 * i) / 256.
Proof.
  intros. replace (8 * (i + 1)) with (8 * i + 8) by lia. rewrite <- Z.shiftr_shiftr by lia.
  now rewrite (Z.shiftr_div_pow2 _ 8) by lia.
Qed.

Lemma bigEndian64_inj n m : in_u64 n -> in_u64 m -> bigEndian64 n = bigEndian64 m -> n = m.
Proof.
  intros Hn Hm H. unfold in_u64, max_uint64 in *.
  assert (B : forall i, 0 <= i < 8 -> Z.shiftr n (8 * i) mod 256 = Z.shiftr m (8 * i) mod 256).
  { intros i Hi. apply byte_of_inj; try (apply Z.mod_pos_bound; lia). unfold bigEndian64 in H. cbn [map] in H.
    injection H as H7 H6 H5 H4 H3 H2 H1 H0.
    assert (i = 0 \/ i = 1 \/ i = 2 \/ i = 3 \/ i = 4 \/ i = 5 \/ i = 6 \/ i = 7) as E by lia.
    repeat destruct E as [->|E]; try assumption. now subst i. }
  assert (T : forall j : nat, (j <= 8)%nat -> Z.shiftr n (8 * (8 - Z.of_nat j)) = Z.shiftr m (8 * (8 - Z.of_nat j))).
  { induction j as [|j IH]; intros Hj.
    - rewrite !Z.shiftr_div_pow2 by lia. cbn -[Z.pow Z.div]. rewrite !Z.div_small; lia.
    - specialize (IH ltac:(lia)). apply join_byte; [|apply B; lia]. rewrite <- !shiftr_byte by lia.
      now replace (8 - Z.of_nat (S j) + 1) with (8 - Z.of_nat j) by lia. }
  specialize (T 8%nat ltac:(lia)). now rewrite !Z.shiftr_0_r in T.
Qed.

Lemma bigEndian64_length n : length (bigEndian64 n) = 8%nat.
Proof. reflexivity. Qed.

Definition fits (l : list ascii) : Prop := in_u64 (Z.of_nat (length l)).

(** A length-prefixed field is read back whatever follows. *)
Lemma field_inj v v' rest rest' : fits v -> fits v' ->
  bigEndian64 (Z.of_nat (length v)) ++ v ++ rest = bigEndian64 (Z.of_nat (length v')) ++ v' ++ rest' -> v = v' /\ rest = rest'.
Proof.
  intros Hv Hv' H. apply app_inj_1 in H as [Hl H]; [|now rewrite !bigEndian64_length].
  apply bigEndian64_inj in Hl; [|assumption..]. apply app_inj_1 in H; [assumption|lia].
Qed.

Lemma protocolText_inj p q : protocolValid p = true -> protocolValid q = true -> protocolText p = protocolText q -> p = q.
Proof. destruct p, q; intros Hp Hq H; (reflexivity || discriminate Hp || discriminate Hq || discriminate H). Qed.

Lemma protocolText_fits p : protocolValid p = true -> fits (bytes (protocolText p)).
Proof. destruct p; intros H; try discriminate H; vm_compute; split; congruence. Qed.

Lemma keyMaterial_shape id p d x : keyMaterial id p d x =
  bigEndian64 (Z.of_nat (length (bytes d))) ++ bytes d ++ bigEndian64 id ++
  bigEndian64 (Z.of_nat (length (bytes (protocolText p)))) ++ bytes (protocolText p) ++
  bigEndian64 (Z.of_nat (length x)) ++ x ++ [].
Proof. unfold keyMaterial, writeKeyField. cbn [app]. now rewrite app_nil_r, <- !app_assoc. Qed.

Lemma bytes_inj s t : bytes s = bytes t -> s = t.
Proof. intros H%(f_equal string_of_list_ascii). now rewrite !string_of_list_ascii_of_string in H. Qed.

Lemma text_inj l m : text l = text m -> l = m.
Proof. intros H%(f_equal list_ascii_of_string). now rewrite !list_ascii_of_string_of_list_ascii in H. Qed.

Lemma keyMaterial_inj id p d x id' p' d' x' : in_u64 id -> in_u64 id' -> protocolValid p = true -> protocolValid p' = true ->
  fits (bytes d) -> fits (bytes d') -> fits x -> fits x' ->
  keyMaterial id p d x = keyMaterial id' p' d' x' -> id = id' /\ p = p' /\ d = d' /\ x = x'.
Proof.
  intros Hi Hi' Hp Hp' Hd Hd' Hx Hx' H. rewrite !keyMaterial_shape in H.
  apply field_inj in H as [E1 H]; [|assumption..].
  apply app_inj_1 in H as [E2 H]; [|now rewrite !bigEndian64_length]. apply bigEndian64_inj in E2; [|assumption..].
  apply field_inj in H as [E3 H]; [|now apply protocolText_fits..].
  apply field_inj in H as [E4 _]; [|assumption..].
  auto using protocolText_inj, bytes_inj.
Qed.

(** Affinity keys separate what they must.  As long as the keyed digest does not
    collide on the two materials, equal valid keys come from the same access key, the
    same protocol, the same namespace and the same bytes: no tenant reaches the
    preference of another one, and a prompt prefix never meets a prompt cache key. *)
Theorem affinity_keys_separate Hash id p d x id' p' d' x' :
  in_u64 id -> in_u64 id' -> fits (bytes d) -> fits (bytes d') -> fits x -> fits x' ->
  (forall m m', m = text (keyMaterial id p d x) -> m' = text (keyMaterial id' p' d' x') -> Hash m = Hash m' -> m = m') ->
  keyValid (deriveKey (Some Hash) id p d x) = true -> deriveKey (Some Hash) id p d x = deriveKey (Some Hash) id' p' d' x' ->
  id = id' /\ p = p' /\ d = d' /\ x = x' /\ id <> 0 /\ x <> [].
Proof.
  intros Hi Hi' Hd Hd' Hx Hx' Hc Hv H. unfold deriveKey in *.
  destruct (_ || _ || _) eqn:G; [discriminate|]. destruct ((id' =? 0) || _ || _) eqn:G'; [rewrite H in Hv; discriminate|].
  rewrite !orb_false_iff in G, G'. destruct G as [[G1 G2] G3]. destruct G' as [[_ G2'] _].
  apply negb_false_iff in G2, G2'. apply Z.eqb_neq in G1, G3.
  apply (Hc _ _ eq_refl eq_refl), text_inj, keyMaterial_inj in H; [|assumption..].
  destruct H as (-> & -> & -> & ->). split_and!; auto. intros ->. now apply G3.
Qed.

(** ** Affinity values *)

Definition colon_free (l : list ascii) : Prop := Forall (fun c => c <> colon) l.

Lemma split_on_free l : colon_free l -> split_on colon l = [l].
Proof.
  induction 1 as [|c l Hc _ IH]; [reflexivity|]. cbn. rewrite IH. now rewrite (proj2 (Ascii.eqb_neq c colon) Hc).
Qed.

Lemma split_on_cons l rest : colon_free l -> split_on colon (l ++ colon :: rest) = l :: split_on colon rest.
Proof.
  induction 1 as [|c l Hc _ IH]; cbn -[colon].
  - destruct (split_on colon rest) eqn:E; [|now rewrite Ascii.eqb_refl].
    destruct rest as [|r rest]; [discriminate E|]. cbn in E. now destruct (split_on colon rest), (Ascii.eqb r colon).
  - rewrite IH. now rewrite (proj2 (Ascii.eqb_neq c colon) Hc).
Qed.

Lemma split_join p ps : Forall colon_free (p :: ps) -> split_on colon (joinColon (p :: ps)) = p :: ps.
Proof.
  revert p. induction ps as [|q ps IH]; intros p H; inversion H as [|? ? Hp Hps]; subst.
  - now apply split_on_free.
  - change (joinColon (p :: q :: ps)) with (p ++ colon :: joinColon (q :: ps)). rewrite split_on_cons by assumption.
    now rewrite IH.
Qed.

Lemma digit_not_colon c : is_digit c = true -> c <> colon.
Proof. intros H ->. discriminate H. Qed.

Lemma digits_free l : all_digits l = true -> colon_free l.
Proof.
  intros H. apply List.Forall_forall. intros c Hc. apply digit_not_colon.
  unfold all_digits in H. rewrite forallb_forall in H. auto.
Qed.

Lemma render_free n : 0 <= n -> colon_free (render n).
Proof. intros H. now apply digits_free, (render_spec n H). Qed.

Lemma format_nonneg n : 0 <= n -> format_int n = render n.
Proof. intros. unfold format_int. now rewrite (proj2 (Z.ltb_ge n 0)) by lia. Qed.

Lemma hexDigit_free n : 0 <= n < 16 -> hexDigit n <> colon.
Proof.
  intros Hn H%(f_equal nat_of_ascii). unfold hexDigit in H.
  rewrite nat_ascii_embedding in H by (destruct (Z.ltb_spec n 10); lia).
  change (nat_of_ascii colon) with 58%nat in H. destruct (Z.ltb_spec n 10); lia.
Qed.

Lemma hexText_free l : colon_free (hexText l).
Proof.
  induction l as [|b l IH]; cbn -[Z.div Z.modulo]; [constructor|].
  assert (0 <= byte_val b < 256) by (unfold byte_val; pose proof (nat_ascii_bounded b); lia).
  assert (0 <= byte_val b / 16 < 16) by (split; [apply Z.div_pos|apply Z.div_lt_upper_bound]; lia).
  pose proof (Z.mod_pos_bound (byte_val b) 16).
  repeat constructor; auto; apply hexDigit_free; lia.
Qed.

(** What [RecordSuccess] writes: a valid target within its machine width, and an
    instant after 1970. *)
Definition legal (t : Target) (nowMS : Z) : Prop :=
  targetValid t = true /\ in_u64 (GroupID t) /\ in_u64 (CredentialID t) /\ in_u64 (IdentityGeneration t) /\ 0 <= nowMS <= max_int64.

Lemma parse_uint_render n : in_u64 n -> parse_uint64 (render n) = Some n.
Proof.
  intros Hn. pose proof (decimal_parseUint n Hn) as H. unfold parseUint in H.
  rewrite decimal_bytes, format_nonneg in H by (destruct Hn; lia). exact H.
Qed.

Lemma parse_int_render n : 0 <= n <= max_int64 -> parse_int64 (render n) = Some n.
Proof.
  intros Hn. pose proof (decimal_parse n ltac:(unfold in_int64, min_int64, max_int64 in *; lia)) as H. unfold parseInt in H.
  rewrite decimal_bytes, format_nonneg in H by lia. exact H.
Qed.

Lemma affinityValue_bytes t ms nonce : legal t ms -> bytes (affinityValue t ms nonce) =
  joinColon [render (GroupID t); render (CredentialID t); render (IdentityGeneration t); render ms; hexText nonce].
Proof.
  intros (_ & [? _] & [? _] & [? _] & ? & _). unfold affinityValue. rewrite list_ascii_of_string_of_list_ascii.
  now rewrite !format_nonneg.
Qed.

(** Round trip of the stored value. *)
Lemma decode_affinityValue t ms nonce : legal t ms -> decodeAffinityValue (affinityValue t ms nonce) = Some (t, ms).
Proof.
  intros H. unfold decodeAffinityValue. rewrite affinityValue_bytes, split_join by
    (auto; destruct H as (_ & [? _] & [? _] & [? _] & ? & _); repeat constructor; auto using render_free, hexText_free).
  destruct H as (Hv & Hg & Hc & Hi & Hms). rewrite !parse_uint_render, parse_int_render by assumption.
  destruct t as [g c i]. cbn [GroupID CredentialID IdentityGeneration] in *. now rewrite Hv.
Qed.

Lemma digitRun_app ds rest : all_digits ds = true -> digitRun (ds ++ colon :: rest) = (ds, colon :: rest).
Proof.
  induction ds as [|c ds IH]; intros H; [reflexivity|]. rewrite all_digits_cons in H. apply andb_true_iff in H as [Hc H].
  cbn -[colon]. now rewrite Hc, IH.
Qed.

Lemma matchField_render n rest : 0 <= n -> matchField (render n ++ colon :: rest) = Some (render n, rest).
Proof.
  intros H. destruct (render_spec n H) as (Hd & _ & Hne). unfold matchField. rewrite digitRun_app by assumption.
  destruct (render n); [congruence|]. now rewrite Ascii.eqb_refl.
Qed.

(** The script reads the same instant as the decoder. *)
Lemma match_affinityValue t ms nonce : legal t ms -> matchLearned (affinityValue t ms nonce) = Some (render ms).
Proof.
  intros H. unfold matchLearned. rewrite affinityValue_bytes by assumption.
  destruct H as (_ & [? _] & [? _] & [? _] & ? & _). unfold joinColon. rewrite !matchField_render by assumption. reflexivity.
Qed.

(** ** The first live success wins *)

Section Affinity.
Context {St : Type} {R : RedisStore St} {ROk : RedisOk St}.
Implicit Types (s : St).
Variables (prefix key : string) (policy : Policy) (ttlMS : Z).

(** A whole number of milliseconds, and instants the scripts compare exactly. *)
Definition whole_ms : Prop := TTL policy = ttlMS * 1000000 /\ 0 < ttlMS <= 2 ^ 51 /\ keyValid key = true.
Definition exact_time (now : Z) : Prop := 0 <= now / 1000000 <= 2 ^ 51.

Definition slot s : option string := GET s (affinityKey prefix key).

Lemma script_keep s expected value t ms nonce nowMS : slot s = Some (affinityValue t ms nonce) -> legal t ms ->
  ms <= 2 ^ 51 -> 0 <= nowMS <= 2 ^ 51 -> 0 < ttlMS <= 2 ^ 51 ->
  affinityRecordScript (affinityKey prefix key) expected value nowMS ttlMS s =
    if negb (bool_decide (affinityValue t ms nonce = expected)) && (ms + ttlMS >? nowMS) then (s, Ok 0)
    else (SETPX s (affinityKey prefix key) value ttlMS, Ok 1).
Proof.
  intros G L Hm Hn Ht. unfold affinityRecordScript, Lua.bind, Lua.read. unfold slot in G. rewrite G, match_affinityValue by assumption.
  destruct L as (_ & _ & _ & _ & Hms). rewrite (proj1 (proj2 (render_spec ms ltac:(lia)))).
  rewrite (dbl_small ms), (dbl_small ttlMS), (dbl_small nowMS), (dbl_small (ms + ttlMS)) by lia.
  unfold SETexpire. rewrite (proj2 (Z.leb_gt _ _)) by lia.
  case_bool_decide; cbn [negb andb]; [reflexivity|]. now destruct (ms + ttlMS >? nowMS).
Qed.

Lemma script_absent s expected value nowMS : slot s = None -> 0 < ttlMS ->
  affinityRecordScript (affinityKey prefix key) expected value nowMS ttlMS s = (SETPX s (affinityKey prefix key) value ttlMS, Ok 1).
Proof.
  intros G Ht. unfold affinityRecordScript, Lua.bind, Lua.read. unfold slot in G. rewrite G. unfold SETexpire.
  now rewrite (proj2 (Z.leb_gt _ _)) by lia.
Qed.

(** Both liveness tests agree on whole milliseconds. *)
Lemma live_tests_agree ms now : (ms * 1000000 + ttlMS * 1000000 >? now) = (ms + ttlMS >? now / 1000000).
Proof.
  rewrite !Z.gtb_ltb. pose proof (Z.div_mod now 1000000). pose proof (Z.mod_pos_bound now 1000000).
  destruct (Z.ltb_spec now (ms * 1000000 + ttlMS * 1000000)), (Z.ltb_spec (now / 1000000) (ms + ttlMS)); lia.
Qed.

Lemma record_unfold obs t nonce now s : whole_ms -> targetValid t = true ->
  RecordSuccess prefix policy key obs t nonce now s =
    let '(s, reply) := affinityRecordScript (affinityKey prefix key) (token obs) (affinityValue t (now / 1000000) nonce) (now / 1000000) ttlMS s in
    (s, match reply with Ok written => Ok (written =? 1) | Err e => Err e end).
Proof.
  intros (HT & Ht & Hk) Hv. unfold RecordSuccess. rewrite Hk, Hv, HT, (proj2 (Z.leb_gt _ _)) by lia. cbn [negb orb].
  now rewrite Z.quot_mul by lia.
Qed.

Lemma lookup_unfold now s t ms nonce : whole_ms -> legal t ms -> slot s = Some (affinityValue t ms nonce) ->
  LookupAffinity prefix policy key now s =
    if ms + ttlMS >? now / 1000000 then SharedObservation t (affinityValue t ms nonce) else nothing.
Proof.
  intros (HT & Ht & Hk) L G. unfold LookupAffinity. rewrite Hk. cbn [negb]. unfold slot in G. rewrite G, decode_affinityValue by assumption.
  now rewrite HT, live_tests_agree.
Qed.

(** The slot is empty or holds a value written by [RecordSuccess]. *)
Definition slot_legal s : Prop := slot s = None \/ exists t ms nonce, slot s = Some (affinityValue t ms nonce) /\ legal t ms /\ ms <= 2 ^ 51.

Lemma record_after_lookup s t0 now t nonce : whole_ms -> slot_legal s -> t0 <= now -> exact_time now -> targetValid t = true ->
  RecordSuccess prefix policy key (LookupAffinity prefix policy key t0 s) t nonce now s =
    (SETPX s (affinityKey prefix key) (affinityValue t (now / 1000000) nonce) ttlMS, Ok true).
Proof.
  intros W HL Hle He Hv. rewrite record_unfold by assumption. pose proof W as (_ & Ht & _).
  destruct HL as [G|(t' & ms & n' & G & L & Hms)]; [now rewrite script_absent by (assumption || lia)|].
  rewrite (script_keep _ _ _ t' ms n') by assumption. rewrite (lookup_unfold _ _ t' ms n') by assumption.
  pose proof (Z.div_le_mono t0 now 1000000 ltac:(lia) Hle). rewrite !Z.gtb_ltb.
  destruct (Z.ltb_spec (t0 / 1000000) (ms + ttlMS)) as [H1|H1]; cbn [token SharedObservation].
  - now rewrite bool_decide_eq_true_2.
  - rewrite (proj2 (Z.ltb_ge (now / 1000000) (ms + ttlMS))) by lia. now rewrite andb_false_r.
Qed.

(** The first live success wins.  Whoever looked the preference up and records
    without interference succeeds, and from then on every lookup within the lifetime
    returns that target and every later one finds nothing.  Any other attempt of the
    lifetime that did not observe this very value, however many instances race, is
    rejected and leaves the store alone; afterwards any attempt succeeds. *)
Theorem first_live_success_wins s t0 now t nonce : whole_ms -> slot_legal s -> t0 <= now -> exact_time now -> legal t (now / 1000000) ->
  let value := affinityValue t (now / 1000000) nonce in
  let '(s1, r) := RecordSuccess prefix policy key (LookupAffinity prefix policy key t0 s) t nonce now s in
  r = Ok true /\
  forall s2, GET s2 (affinityKey prefix key) = GET s1 (affinityKey prefix key) -> forall now2, exact_time now2 ->
  let live := now / 1000000 + ttlMS >? now2 / 1000000 in
  LookupAffinity prefix policy key now2 s2 = (if live then SharedObservation t value else nothing) /\
  forall obs2 t2 nonce2, targetValid t2 = true ->
  RecordSuccess prefix policy key obs2 t2 nonce2 now2 s2 =
    if live && negb (bool_decide (token obs2 = value)) then (s2, Ok false)
    else (SETPX s2 (affinityKey prefix key) (affinityValue t2 (now2 / 1000000) nonce2) ttlMS, Ok true).
Proof.
  intros W HL Hle He L. cbn zeta. rewrite record_after_lookup by (assumption || apply L). split; [reflexivity|].
  intros s2 G2 now2 He2. rewrite SETPX_ok in G2. change (slot s2 = Some (affinityValue t (now / 1000000) nonce)) in G2.
  split; [exact (lookup_unfold _ _ t _ nonce W L G2)|]. intros obs2 t2 nonce2 Hv. rewrite record_unfold by assumption.
  pose proof W as (_ & Ht & _). rewrite (script_keep _ _ _ t (now / 1000000) nonce) by (assumption || apply He).
  rewrite andb_comm. destruct (_ >? _); cbn [andb]; [|reflexivity].
  rewrite (bool_decide_ext (affinityValue t (now / 1000000) nonce = token obs2) (token obs2 = affinityValue t (now / 1000000) nonce)) by (split; congruence).
  now destruct (bool_decide _).
Qed.

End Affinity.

(** ** The first owner of a response wins *)

(** A selection whose encoding decodes to a selection with the same encoding. *)
Definition stable {J : Json} (x : Selection) : Prop :=
  exists raw y, marshalSelection x = Some raw /\ unmarshalSelection raw = Some y /\ marshalSelection y = Some raw.

Definition stored_in_range (b : storedResponseBinding) : Prop :=
  in_u64 (st_GroupID b) /\ in_u64 (st_CredentialID b) /\ in_u64 (st_IdentityGeneration b) /\ in_int64 (st_ExpiresAtMS b).

(** What the code relies on: encoding a decoded value gives the same text again, the
    empty selection can be encoded, and an ownership value decodes to what was
    encoded, up to the encoding of the selection. *)
Class JsonOk {J : Json} : Prop := {
  json_zero : stable zeroSelection;
  json_copy : forall x raw, marshalSelection x = Some raw -> exists y, unmarshalSelection raw = Some y /\ stable y;
  json_stored : forall b, stored_in_range b -> (forall y, st_AutoSelection b = Some y -> stable y) ->
    exists raw auto, marshalStored b = Some raw /\
      unmarshalStored raw = Some (mkStored (st_GroupID b) (st_CredentialID b) (st_IdentityGeneration b) (st_ExpiresAtMS b) auto) /\
      autoBytes auto = autoBytes (st_AutoSelection b);
}.

Section Binding.
Context {J : Json} {JOk : JsonOk} {St : Type} {R : RedisStore St} {ROk : RedisOk St}.
Implicit Types (s : St).
Variables (prefix responseID : string) (ttl accessKeyID : Z).

Definition ownerKey : string := bindingKey prefix accessKeyID responseID.

Lemma copy_stable x : stable (copySelection x).
Proof.
  unfold copySelection. destruct (marshalSelection x) as [raw|] eqn:E; cbn; [|apply json_zero].
  destruct (json_copy x raw E) as (y & Hy & Hs). now rewrite Hy.
Qed.

(** The value [Record] stores for a binding. *)
Definition storedOf (b : ResponseBinding) : storedResponseBinding :=
  mkStored (rb_GroupID b) (rb_CredentialID b) (rb_IdentityGeneration b) (rb_ExpiresAt b / 1000000) (rb_AutoSelection b).

(** The reference and the deadline fit their machine widths. *)
Definition ref_in_range (ref : CredentialRef) (now : Z) : Prop :=
  in_u64 (ref_GroupID ref) /\ in_u64 (ref_ID ref) /\ in_u64 (ref_IdentityGeneration ref) /\ in_int64 ((now + ttl) / 1000000).

Lemma binding_encodes ref auto now b : ref_in_range ref now -> NewResponseBinding accessKeyID responseID ref auto now ttl = Some b ->
  exists raw existing, marshalStored (storedOf b) = Some raw /\
    decodeResponseBinding accessKeyID responseID raw = Some existing /\
    (forall b', SameResponseOwner existing b' = SameResponseOwner b b') /\
    existing = mkBinding (rb_AutoSelection existing) accessKeyID responseID (ref_GroupID ref) (ref_ID ref)
      (ref_IdentityGeneration ref) ((now + ttl) / 1000000 * 1000000).
Proof.
  intros (H1 & H2 & H3 & H4) Hb. unfold NewResponseBinding in Hb. destruct (_ || _) eqn:G in Hb; [discriminate|]. injection Hb as <-.
  rewrite !orb_false_iff in G. destruct G as [[[[[G1 G2] G3] G4] G5] G6].
  destruct (json_stored (storedOf (mkBinding (copySelection <$> auto) accessKeyID responseID (ref_GroupID ref) (ref_ID ref)
    (ref_IdentityGeneration ref) (now + ttl)))) as (raw & auto' & Hm & Hu & Ha).
  - split_and!; assumption.
  - cbn. intros y Hy. destruct auto; [|discriminate]. injection Hy as <-. apply copy_stable.
  - eexists raw, _. split; [exact Hm|]. unfold decodeResponseBinding. rewrite Hu.
    cbn [storedOf st_GroupID st_CredentialID st_IdentityGeneration st_ExpiresAtMS st_AutoSelection rb_GroupID rb_CredentialID
      rb_IdentityGeneration rb_ExpiresAt rb_AutoSelection] in *.
    rewrite G3, G4, G5. cbn [orb]. split; [reflexivity|]. split; [|reflexivity].
    intros b'. unfold SameResponseOwner. cbn. now rewrite Ha.
Qed.

(** The key holds [raw] until [d]. *)
Definition held raw d s : Prop := GET s ownerKey = Some raw /\ DEADLINE s ownerKey = Some d.

(** What other instances and time can do between two commands. *)
Inductive quiet_step (d : Z) : St -> St -> Prop :=
| QElapse t s : CLOCK s <= t < d -> quiet_step d s (ELAPSE s t)
| QSetNX v px s : quiet_step d s (fst (SETNX s ownerKey v px))
| QOther s s' : GET s' ownerKey = GET s ownerKey -> DEADLINE s' ownerKey = DEADLINE s ownerKey -> quiet_step d s s'.

Definition quiet d (others : nat -> nat -> St -> St) : Prop := forall r i s, rtc (quiet_step d) s (others r i s).

(** Further calls of [Record] for this response, by anyone, whatever happens to them. *)
Inductive owner_step (d : Z) : St -> St -> Prop :=
| OQuiet s s' : quiet_step d s s' -> owner_step d s s'
| ORecord ref auto now others net s : quiet d others ->
    owner_step d s (fst (RecordBinding prefix ttl accessKeyID responseID ref auto now others net s)).

Lemma quiet_step_held raw d s s' : quiet_step d s s' -> held raw d s -> held raw d s'.
Proof.
  intros Hs [G D]. destruct Hs as [t s Hc|v px s|s s' E1 E2].
  - destruct (ELAPSE_live s t ownerKey) as (_ & _ & G' & D'); [lia|rewrite D; lia|]. split; congruence.
  - rewrite SETNX_ok, G. now split.
  - split; congruence.
Qed.

Lemma quiet_held raw d s s' : rtc (quiet_step d) s s' -> held raw d s -> held raw d s'.
Proof. induction 1; eauto using quiet_step_held. Qed.

(** A round on a held key keeps it, and decides if its commands are delivered. *)
Lemma round_held raw d value ms b others net s : held raw d s -> (forall i s, rtc (quiet_step d) s (others i s)) ->
  let '(s', r) := recordRound ownerKey value ms b others net s in
  held raw d s' /\ r <> None /\
  ((forall i, net i = Delivered) -> r = Some (Ok (match decodeResponseBinding (rb_AccessKeyID b) (rb_ResponseID b) raw with
    | Some existing => SameResponseOwner existing b | None => false end))).
Proof.
  intros H Hq. unfold recordRound. pose proof (quiet_held _ _ _ _ (Hq 0%nat s) H) as H0.
  pose proof H0 as [G0 _]. rewrite SETNX_ok, G0. cbn [fst].
  destruct (net 0%nat) eqn:N0; [|split_and!; [assumption|discriminate|congruence]..].
  pose proof (quiet_held _ _ _ _ (Hq 1%nat _) H0) as H1. pose proof H1 as [G1 _]. rewrite G1.
  destruct (net 1%nat) eqn:N1; [|split_and!; [assumption|discriminate|congruence]..].
  split_and!; [assumption|discriminate|reflexivity].
Qed.

Lemma record_held raw d ref auto now others net s : held raw d s -> quiet d others ->
  let '(s', r) := RecordBinding prefix ttl accessKeyID responseID ref auto now others net s in
  held raw d s' /\
  ((forall r i, net r i = Delivered) -> ref_in_range ref now ->
   r = Ok (match NewResponseBinding accessKeyID responseID ref auto now ttl, decodeResponseBinding accessKeyID responseID raw with
           | Some b, Some existing => SameResponseOwner existing b | _, _ => false end)).
Proof.
  intros H Hq. unfold RecordBinding. destruct (NewResponseBinding _ _ _ _ _ _) as [b|] eqn:Hb; [|now split].
  change (mkStored _ _ _ _ _) with (storedOf b).
  destruct (marshalStored (storedOf b)) as [value|] eqn:Hm.
  - cbn [recordLoop]. pose proof (round_held raw d value (ttl / 1000000) b (others 1%nat) (net 1%nat) s H (Hq 1%nat)) as Hr.
    fold ownerKey. destruct (recordRound _ _ _ _ _ _ _) as [s' [r|]]; [|now destruct Hr as (_ & Hr & _)].
    destruct Hr as (Hh & _ & Hr). split; [assumption|]. intros Hn _. specialize (Hr (Hn 1%nat)). injection Hr as ->.
    unfold NewResponseBinding in Hb. destruct (_ || _) in Hb; [discriminate|]. now injection Hb as <-.
  - split; [assumption|]. intros _ Hi. destruct (binding_encodes ref auto now b Hi Hb) as (raw' & e & Hm' & _). congruence.
Qed.

Lemma owner_held raw d s s' : rtc (owner_step d) s s' -> held raw d s -> held raw d s'.
Proof.
  induction 1 as [|x y z Hxy _ IH]; [auto|]. intros H. apply IH. destruct Hxy as [x y Hq|ref auto now others net x Hq].
  - now apply (quiet_step_held raw d x).
  - pose proof (record_held raw d ref auto now others net x H Hq) as Hr. now destruct (RecordBinding _ _ _ _ _ _ _ _ _ _).
Qed.

(** The first owner of a response wins.  Once a binding is recorded, then through
    any number of further recordings, lost calls and interleavings and until its
    lifetime ends, every instance that looks the response up gets that owner and the
    access key and response it was recorded for; a delivered recording succeeds exactly
    for the same owner, and never changes what is stored. *)
Theorem first_owner_wins s s1 s2 ref auto now b net others :
  1000000 <= ttl -> ref_in_range ref now -> GET s ownerKey = None ->
  NewResponseBinding accessKeyID responseID ref auto now ttl = Some b ->
  RecordBinding prefix ttl accessKeyID responseID ref auto now (fun _ _ s => s) (fun _ _ => Delivered) s = (s1, Ok true) ->
  rtc (owner_step (CLOCK s + ttl / 1000000)) s1 s2 -> quiet (CLOCK s + ttl / 1000000) others -> (forall r i, net r i = Delivered) ->
  (exists found, LookupBinding prefix accessKeyID responseID Delivered s2 = Ok (Some found) /\
    SameResponseOwner found b = true /\ rb_AccessKeyID found = accessKeyID /\ rb_ResponseID found = responseID /\
    rb_GroupID found = ref_GroupID ref /\ rb_CredentialID found = ref_ID ref /\ rb_IdentityGeneration found = ref_IdentityGeneration ref) /\
  forall ref' auto' now', ref_in_range ref' now' ->
    let '(s3, r) := RecordBinding prefix ttl accessKeyID responseID ref' auto' now' others net s2 in
    GET s3 ownerKey = GET s1 ownerKey /\
    r = Ok (match NewResponseBinding accessKeyID responseID ref' auto' now' ttl with Some b' => SameResponseOwner b b' | None => false end).
Proof.
  intros Ht Hi G Hb Hr Hs Hq Hn. destruct (binding_encodes ref auto now b Hi Hb) as (raw & existing & Hm & Hd & Hsame & He).
  unfold RecordBinding in Hr. rewrite Hb in Hr. change (mkStored _ _ _ _ _) with (storedOf b) in Hr. rewrite Hm in Hr.
  unfold ownerKey in *. cbn [recordLoop] in Hr. unfold recordRound in Hr. rewrite SETNX_ok, G in Hr. injection Hr as <-.
  assert (H1 : held raw (CLOCK s + ttl / 1000000) (SETPX s ownerKey raw (ttl / 1000000))) by (split; [apply SETPX_ok|apply SETPX_deadline]).
  pose proof (owner_held raw _ _ _ Hs H1) as [G2 D2]. fold ownerKey in *. split.
  - exists existing. rewrite Hsame. unfold LookupBinding. fold ownerKey.
    assert (Hv : bool_decide (responseID = ""%string) || (Z.of_nat (String.length responseID) >? MaxResponseIDBytes) = false).
    { unfold NewResponseBinding in Hb. destruct (_ || _) eqn:Gd in Hb; [discriminate|]. rewrite !orb_false_iff in Gd. now destruct Gd as [[[[[_ ->] _] _] _] ->]. }
    rewrite Hv, G2, Hd. split; [reflexivity|]. rewrite He. cbn. split_and!; try reflexivity.
    unfold SameResponseOwner. rewrite !Z.eqb_refl. cbn. now apply bool_decide_eq_true_2.
  - intros ref' auto' now' Hi'. pose proof (record_held raw _ ref' auto' now' others net s2 (conj G2 D2) Hq) as Hr.
    destruct (RecordBinding _ _ _ _ _ _ _ _ _ _) as [s3 r]. destruct Hr as [[G3 _] Hr]. split; [now rewrite G3, SETPX_ok|].
    rewrite Hr by assumption. rewrite Hd. destruct (NewResponseBinding _ _ ref' _ _ _) as [b'|]; [|reflexivity]. now rewrite Hsame.
Qed.

End Binding.

(** ** Witnesses *)

(** A codec that satisfies the laws: the number of the value, in decimal. *)
Definition selectionTuple (x : Selection) :=
  (EntryID x, EntryName x, PresetID x, PresetName x, TargetModel x, ParameterOverrides x, ConfigFingerprint x, TaskFingerprint x).
#[export] Instance Selection_eq_dec : EqDecision Selection.
Proof. solve_decision. Defined.
#[export] Instance Selection_countable : Countable Selection.
Proof.
  refine (inj_countable' selectionTuple (fun '(a, b, c, d, e, f, g, h) => mkSelection a b c d e f g h) _). now intros [].
Defined.
#[export] Instance stored_eq_dec : EqDecision storedResponseBinding.
Proof. solve_decision. Defined.
#[export] Instance stored_countable : Countable storedResponseBinding.
Proof.
  refine (inj_countable' (fun b => (st_GroupID b, st_CredentialID b, st_IdentityGeneration b, st_ExpiresAtMS b, st_AutoSelection b))
    (fun '(a, b, c, d, e) => mkStored a b c d e) _). now intros [].
Defined.

Definition number_text {A} `{Countable A} (x : A) : string := text (render (Z.pos (encode x))).
Definition number_value {A} `{Countable A} (t : string) : option A := decode (Z.to_pos (digits_value (bytes t))).

Lemma number_round {A} `{Countable A} (x : A) : number_value (number_text x) = Some x.
Proof.
  unfold number_value, number_text. rewrite list_ascii_of_string_of_list_ascii.
  destruct (render_spec (Z.pos (encode x)) ltac:(lia)) as (_ & Hv & _). rewrite Hv. apply decode_encode.
Qed.

#[local] Instance numbers : Json := {|
  marshalSelection := fun x => Some (number_text x); unmarshalSelection := number_value;
  marshalStored := fun b => Some (number_text b); unmarshalStored := number_value;
|}.

#[local] Instance numbers_ok : JsonOk (J := numbers).
Proof.
  assert (S : forall x, stable (J := numbers) x) by (intros x; exists (number_text x), x; split_and!; [reflexivity|apply number_round|reflexivity]).
  constructor; [apply S| |].
  - intros x raw H. injection H as <-. exists x. split; [apply number_round|apply S].
  - intros b _ _. exists (number_text b), (st_AutoSelection b). split_and!; [reflexivity| |reflexivity].
    transitivity (Some b); [exact (number_round b)|now destruct b].
Qed.

Lemma affinity_keys_separate_witness :
  DeriveKey (Some (fun m => m)) 7 Anthropic (bytes "hello") <> DerivePromptCacheKey (Some (fun m => m)) 7 Anthropic "hello".
Proof.
  intros H.
  destruct (affinity_keys_separate (fun m => m) 7 Anthropic keyDomain (bytes "hello") 7 Anthropic cacheKeyDomain (bytes "hello"))
    as (_ & _ & E & _); [vm_compute; split; congruence..|intros m m' _ _ E; exact E|reflexivity|exact H|discriminate E].
Defined.

Lemma first_live_success_wins_witness :
  let policy := mkPolicy 1 10 60000000000 in
  let s := mkDB 0 ∅ in
  let '(s1, r) := RecordSuccess "gw" policy "k" (LookupAffinity "gw" policy "k" 1000000000 s) (mkTarget 1 2 3) (bytes "abcdefgh") 2000000000 s in
  r = Ok true /\ LookupAffinity "gw" policy "k" 3000000000 s1 = SharedObservation (mkTarget 1 2 3) "1:2:3:2000:6162636465666768" /\
  RecordSuccess "gw" policy "k" nothing (mkTarget 1 9 3) (bytes "ijklmnop") 3000000000 s1 = (s1, Ok false).
Proof.
  cbn zeta. set (policy := mkPolicy 1 10 60000000000).
  assert (W : whole_ms "k" policy 60000) by (vm_compute; repeat split; congruence).
  assert (E : forall n, 0 <= n <= 3000000000 -> exact_time n).
  { intros n Hn. split; [apply Z.div_pos; lia|]. transitivity (3000000000 / 1000000); [apply Z.div_le_mono; lia|vm_compute; congruence]. }
  pose proof (first_live_success_wins (St := DB) "gw" "k" policy 60000 (mkDB 0 ∅) 1000000000 2000000000 (mkTarget 1 2 3) (bytes "abcdefgh")
    W (or_introl eq_refl) ltac:(lia) (E 2000000000 ltac:(lia)) ltac:(vm_compute; repeat split; congruence)) as H.
  cbn zeta in H. destruct (RecordSuccess _ _ _ _ _ _ _ _) as [s1 r]. destruct H as [-> H]. split; [reflexivity|].
  destruct (H s1 eq_refl 3000000000 (E 3000000000 ltac:(lia))) as [H1 H2]. split; [exact H1|]. rewrite H2 by reflexivity. reflexivity.
Defined.

Definition witnessRef (credential : Z) : CredentialRef := mkRef ("") credential 4 1 5 ("") ("") ("") ("") 0 0 0.

Lemma first_owner_wins_witness :
  let s := mkDB 100 ∅ in
  let record ref := RecordBinding "gw" 60000000000 3 "resp_1" (witnessRef ref) None 100000000 (fun _ _ s => s) (fun _ _ => Delivered) in
  let s1 := fst (record 7 s) in
  (exists found, LookupBinding "gw" 3 "resp_1" Delivered (ELAPSE s1 50000) = Ok (Some found) /\ rb_CredentialID found = 7) /\
  snd (record 8 (ELAPSE s1 50000)) = Ok false /\ snd (record 7 (ELAPSE s1 50000)) = Ok true.
Proof.
  cbv beta zeta.
  set (s1 := fst (RecordBinding "gw" 60000000000 3 "resp_1" (witnessRef 7) None 100000000 (fun _ _ s => s) (fun _ _ => Delivered) (mkDB 100 ∅))).
  destruct (first_owner_wins (St := DB) "gw" "resp_1" 60000000000 3 (mkDB 100 ∅) s1 (ELAPSE s1 50000) (witnessRef 7) None 100000000
    (mkBinding None 3 "resp_1" 4 7 5 60100000000) (fun _ _ => Delivered) (fun _ _ s => s)) as [(found & H1 & _ & _ & _ & _ & H2 & _) H3];
    [lia|vm_compute; repeat split; congruence|reflexivity|reflexivity|reflexivity| | |reflexivity|].
  - apply rtc_once, OQuiet, QElapse. vm_compute. split; congruence.
  - intros r i s. apply rtc_refl.
  - clearbody s1. split; [exists found; exact (conj H1 H2)|]. assert (I : forall c, 0 <= c <= 8 -> ref_in_range 60000000000 (witnessRef c) 100000000)
      by (intros c Hc; unfold ref_in_range, in_u64, in_int64, max_uint64, min_int64, max_int64; cbn -[Z.div]; split_and!; try lia; vm_compute; congruence).
    split.
    + specialize (H3 (witnessRef 8) None 100000000 (I 8 ltac:(lia))). destruct (RecordBinding _ _ _ _ _ _ _ _ _ _). destruct H3 as [_ ->]. reflexivity.
    + specialize (H3 (witnessRef 7) None 100000000 (I 7 ltac:(lia))). destruct (RecordBinding _ _ _ _ _ _ _ _ _ _). destruct H3 as [_ ->]. reflexivity.
Defined.

End OwnershipProps.
