(* ===== verification/Lifecycle.v ===== *)
(** * Shutdown coordination

    [internal/httplifecycle/coordinator.go]: every HTTP handler is counted while it
    runs, data-plane requests register a cancellation handle of their own, and a
    shutdown refuses new work, cancels what is active and waits until the last handler
    has left.

    Requests are identified by their pointer, contexts and channels by a number.  The
    mutex makes each locked section one function; the handlers that run, the handles a
    shutdown still has to cancel and the release functions not yet called are part of
    the world, and [step] interleaves them. *)

From Stdlib Require Import ZArith Lia Bool List.
From stdpp Require Import base gmap sets list.
From coqutil Require Import Datatypes.RecordSettersUsingExistingGetters.
From S2P Require Import Prelude.

Local Open Scope Z_scope.

Module Lifecycle.

(** ** The coordinator *)

Record Coordinator := mkCoordinator {
  closing : bool;
  active : Z;
  zero : nat;
  dataStop : gmap Z nat;
  allStop : gmap Z nat;
}.

(** Why a context ended: its own handler released it, or the shutdown did. *)
Inductive Cause := Released | ErrServerShutdown.

(** Channels that exist have numbers below [channels], contexts below [contexts]. *)
Record Runtime := mkRuntime {
  coordinator : Coordinator;
  channels : nat;
  closed : gset nat;
  contexts : nat;
  causes : gmap nat Cause;
}.

Definition NewCoordinator : Runtime := mkRuntime (mkCoordinator false 0 0 ∅ ∅) 1 {[0%nat]} 0 ∅.

(** The first cancellation decides the cause. *)
Definition cancel (w : Runtime) (ctx : nat) (cause : Cause) : Runtime :=
  match w.(causes) !! ctx with
  | Some _ => w
  | None => w <| causes := <[ctx := cause]> w.(causes) |>
  end.

Definition newContext (w : Runtime) : Runtime * nat := (w <| contexts := S w.(contexts) |>, w.(contexts)).

Definition addActiveLocked (w : Runtime) : Runtime :=
  let c := w.(coordinator) in
  let w := if c.(active) =? 0
           then w <| channels := S w.(channels) |> <| coordinator := c <| zero := w.(channels) |> |> else w in
  w <| coordinator := w.(coordinator) <| active := w.(coordinator).(active) + 1 |> |>.

(** Closing a closed channel panics. *)
Definition closeChannel (w : Runtime) (channel : nat) : option Runtime :=
  if bool_decide (channel ∈ w.(closed)) then None else Some (w <| closed := {[channel]} ∪ w.(closed) |>).

Definition leaveLocked (w : Runtime) : option Runtime :=
  let c := w.(coordinator) in
  if c.(active) =? 0 then Some w
  else
    let w := w <| coordinator := c <| active := c.(active) - 1 |> |> in
    if c.(active) - 1 =? 0 then closeChannel w c.(zero) else Some w.

(** The entry of the middleware; [None] aborts with 503. *)
Definition TrackAll_enter (w : Runtime) (request : Z) : Runtime * option nat :=
  let '(w, ctx) := newContext w in
  if w.(coordinator).(closing) then (cancel w ctx ErrServerShutdown, None)
  else
    let w := addActiveLocked w in
    (w <| coordinator := w.(coordinator) <| allStop := <[request := ctx]> w.(coordinator).(allStop) |> |>, Some ctx).

(** Its deferred function. *)
Definition TrackAll_leave (w : Runtime) (request : Z) (ctx : nat) : option Runtime :=
  let w := cancel w ctx Released in
  leaveLocked (w <| coordinator := w.(coordinator) <| allStop := delete request w.(coordinator).(allStop) |> |>).

Definition BindData (w : Runtime) (request : Z) : Runtime * option nat :=
  let '(w, ctx) := newContext w in
  if w.(coordinator).(closing) then (cancel w ctx ErrServerShutdown, None)
  else
    let w := addActiveLocked w in
    (w <| coordinator := w.(coordinator) <| dataStop := <[request := ctx]> w.(coordinator).(dataStop) |> |>, Some ctx).

(** The body of the release function, run once. *)
Definition releaseData (w : Runtime) (request : Z) (ctx : nat) : option Runtime :=
  let w := cancel w ctx Released in
  leaveLocked (w <| coordinator := w.(coordinator) <| dataStop := delete request w.(coordinator).(dataStop) |> |>).

(** The locked part of [BeginShutdown]: the handles it will cancel. *)
Definition BeginShutdown (w : Runtime) : Runtime * list nat :=
  let c := w.(coordinator) in
  if c.(closing) then (w, [])
  else (w <| coordinator := c <| closing := true |> |>,
        map snd (map_to_list c.(dataStop)) ++ map snd (map_to_list c.(allStop))).

(** [Wait] reads the channel under the lock and returns [nil] once it is closed. *)
Definition waitChannel (w : Runtime) : nat := w.(coordinator).(zero).
Definition waitReturns (w : Runtime) (channel : nat) : bool := bool_decide (channel ∈ w.(closed)).

(** ** Interleavings *)

Inductive Plane := Tracked | Data.
#[export] Instance Plane_eq_dec : EqDecision Plane.
Proof. solve_decision. Defined.

(** The registrations not yet released, by context, and the handles the shutdown still
    has to cancel. *)
Record World := mkWorld {
  runtime : Runtime;
  handlers : gmap nat (Plane * Z);
  stops : list nat;
}.

Definition start : World := mkWorld NewCoordinator ∅ [].

Definition enter (plane : Plane) (w : Runtime) (request : Z) : Runtime * option nat :=
  match plane with Tracked => TrackAll_enter w request | Data => BindData w request end.
Definition leave (plane : Plane) (w : Runtime) (request : Z) (ctx : nat) : option Runtime :=
  match plane with Tracked => TrackAll_leave w request ctx | Data => releaseData w request ctx end.

(** A request pointer is registered once per plane at a time. *)
Inductive step : World -> World -> Prop :=
| SEnter plane request w r ctx :
    (forall ctx', handlers w !! ctx' <> Some (plane, request)) ->
    enter plane (runtime w) request = (r, Some ctx) ->
    step w (mkWorld r (<[ctx := (plane, request)]> (handlers w)) (stops w))
| SRefused plane request w r : enter plane (runtime w) request = (r, None) -> step w (mkWorld r (handlers w) (stops w))
| SLeave plane request ctx w r : handlers w !! ctx = Some (plane, request) ->
    leave plane (runtime w) request ctx = Some r ->
    step w (mkWorld r (delete ctx (handlers w)) (stops w))
| SBegin w r l : BeginShutdown (runtime w) = (r, l) -> step w (mkWorld r (handlers w) (l ++ stops w))
| SCancel ctx l w : stops w = ctx :: l -> step w (mkWorld (cancel (runtime w) ctx ErrServerShutdown) (handlers w) l).

(** ** The invariant *)

Definition registered (plane : Plane) (c : Coordinator) : gmap Z nat :=
  match plane with Tracked => allStop c | Data => dataStop c end.

Record ok (w : World) : Prop := {
  ok_count : active (coordinator (runtime w)) = Z.of_nat (size (handlers w));
  ok_zero : handlers w = ∅ <-> zero (coordinator (runtime w)) ∈ closed (runtime w);
  ok_channel : (zero (coordinator (runtime w)) < channels (runtime w))%nat;
  ok_closed : forall ch, ch ∈ closed (runtime w) -> (ch < channels (runtime w))%nat;
  ok_registered : forall plane request ctx,
    registered plane (coordinator (runtime w)) !! request = Some ctx <-> handlers w !! ctx = Some (plane, request);
  ok_contexts : forall ctx, (contexts (runtime w) <= ctx)%nat -> handlers w !! ctx = None /\ causes (runtime w) !! ctx = None;
  ok_running : forall ctx h, handlers w !! ctx = Some h -> causes (runtime w) !! ctx <> Some Released;
  ok_stops : forall ctx h, closing (coordinator (runtime w)) = true -> handlers w !! ctx = Some h ->
    ctx ∈ stops w \/ causes (runtime w) !! ctx = Some ErrServerShutdown;
  ok_stopped : forall ctx, ctx ∈ stops w -> (ctx < contexts (runtime w))%nat;
}.

Lemma start_ok : ok start.
Proof. split; cbn; try (intros; set_solver); try lia; try tauto. intros [] request ctx; cbn; rewrite !lookup_empty; split; congruence. Qed.

(** ** Entering and leaving *)

Definition other (plane : Plane) : Plane := match plane with Tracked => Data | Data => Tracked end.

(** What an accepted registration changes. *)
Record entered (plane : Plane) (request : Z) (w r : Runtime) : Prop := {
  en_open : closing (coordinator w) = false;
  en_closing : closing (coordinator r) = false;
  en_contexts : contexts r = S (contexts w);
  en_causes : causes r = causes w;
  en_closed : closed r = closed w;
  en_active : active (coordinator r) = active (coordinator w) + 1;
  en_zero : (zero (coordinator r), channels r) =
    if active (coordinator w) =? 0 then (channels w, S (channels w)) else (zero (coordinator w), channels w);
  en_plane : registered plane (coordinator r) = <[request := contexts w]> (registered plane (coordinator w));
  en_other : registered (other plane) (coordinator r) = registered (other plane) (coordinator w);
}.

Lemma enter_spec plane w request r ctx : enter plane w request = (r, Some ctx) -> ctx = contexts w /\ entered plane request w r.
Proof.
  intros H. destruct plane; cbn in H; unfold TrackAll_enter, BindData, newContext in H; cbn in H; unfold const in H;
    destruct (closing (coordinator w)) eqn:E; [discriminate| |discriminate|]; injection H as <- <-;
    (split; [reflexivity|]); unfold addActiveLocked; cbn; unfold const; destruct (active (coordinator w) =? 0) eqn:E0; cbn; (split; cbn; unfold const; rewrite ?E0; auto).
Qed.

Lemma refused_spec plane w request r : enter plane w request = (r, None) ->
  closing (coordinator w) = true /\ coordinator r = coordinator w /\ channels r = channels w /\ closed r = closed w /\
  contexts r = S (contexts w) /\ (forall ctx, ctx <> contexts w -> causes r !! ctx = causes w !! ctx).
Proof.
  intros H. destruct plane; cbn in H; unfold TrackAll_enter, BindData, newContext in H; cbn in H; unfold const in H;
    destruct (closing (coordinator w)) eqn:E; try discriminate; injection H as <-; unfold cancel; cbn; unfold const;
    destruct (causes w !! contexts w) eqn:E2; cbn; unfold const; split_and!; auto; intros ctx Hne; now rewrite ?lookup_insert_ne by congruence.
Qed.

(** What a release changes. *)
Record left (plane : Plane) (request : Z) (ctx : nat) (w r : Runtime) : Prop := {
  lf_closing : closing (coordinator r) = closing (coordinator w);
  lf_contexts : contexts r = contexts w;
  lf_causes : causes r = match causes w !! ctx with Some _ => causes w | None => <[ctx := Released]> (causes w) end;
  lf_active : active (coordinator r) = active (coordinator w) - 1;
  lf_closed : closed r = if active (coordinator w) =? 1 then {[zero (coordinator w)]} ∪ closed w else closed w;
  lf_zero : zero (coordinator r) = zero (coordinator w);
  lf_channels : channels r = channels w;
  lf_plane : registered plane (coordinator r) = delete request (registered plane (coordinator w));
  lf_other : registered (other plane) (coordinator r) = registered (other plane) (coordinator w);
}.

Lemma leave_spec plane w request ctx : 0 < active (coordinator w) -> zero (coordinator w) ∉ closed w ->
  exists r, leave plane w request ctx = Some r /\ left plane request ctx w r.
Proof.
  intros Ha Hz. destruct plane; cbn [leave]; unfold TrackAll_leave, releaseData, leaveLocked, closeChannel, cancel;
    destruct (causes w !! ctx) eqn:E; cbn; unfold const; rewrite (proj2 (Z.eqb_neq _ _)) by lia;
    destruct (Z.eqb_spec (active (coordinator w) - 1) 0) as [H|H]; cbn; unfold const;
    rewrite ?bool_decide_eq_false_2 by assumption; (eexists; split; [reflexivity|]);
    split; cbn; unfold const; rewrite ?E; try reflexivity;
    try (destruct (Z.eqb_spec (active (coordinator w)) 1); [reflexivity || lia..]).
Qed.

(** ** Every step preserves the invariant *)

Lemma planes (P : Plane -> Prop) plane : P plane -> P (other plane) -> forall p, P p.
Proof. destruct plane; intros H1 H2 []; assumption. Qed.

Lemma other_ne plane : other plane <> plane.
Proof. now destruct plane. Qed.

Lemma enter_ok plane request w r : ok w -> (forall ctx', handlers w !! ctx' <> Some (plane, request)) ->
  entered plane request (runtime w) r -> ok (mkWorld r (<[contexts (runtime w) := (plane, request)]> (handlers w)) (stops w)).
Proof.
  intros [C Z0 CH CL RG CX RN ST SP] Hf [E1 E2 E3 E4 E5 E6 E7 E8 E9]. destruct (CX (contexts (runtime w)) ltac:(lia)) as [Hn Hc].
  assert (Zr : zero (coordinator r) ∉ closed r /\ (zero (coordinator r) < channels r)%nat /\ (channels (runtime w) <= channels r)%nat).
  { rewrite E5. destruct (Z.eqb_spec (active (coordinator (runtime w))) 0) as [H|H]; injection E7 as -> ->.
    - split_and!; try lia. intros Hin. specialize (CL _ Hin). lia.
    - split_and!; try lia. intros Hin. apply Z0 in Hin. rewrite Hin, map_size_empty in C. lia. }
  destruct Zr as (Z1 & Z2 & Z3). split; cbn.
  - rewrite E6, C, map_size_insert, Hn. lia.
  - split; [|contradiction]. intros H. exfalso. exact (insert_non_empty _ _ _ H).
  - exact Z2.
  - intros ch Hch. rewrite E5 in Hch. specialize (CL ch Hch). lia.
  - refine (planes (fun p => forall req c, registered p (coordinator r) !! req = Some c <-> _ !! c = Some (p, req)) plane _ _); intros req ctx.
    + rewrite E8. destruct (decide (req = request)) as [->|Hreq].
      * rewrite lookup_insert_eq. split; [intros [= <-]; now rewrite lookup_insert_eq|]. intros H.
        destruct (decide (ctx = contexts (runtime w))) as [->|Hne]; [reflexivity|]. rewrite lookup_insert_ne in H by congruence. now apply Hf in H.
      * rewrite lookup_insert_ne by congruence. rewrite RG. destruct (decide (ctx = contexts (runtime w))) as [->|Hne].
        -- rewrite Hn, lookup_insert_eq. split; congruence.
        -- now rewrite lookup_insert_ne by congruence.
    + rewrite E9, RG. destruct (decide (ctx = contexts (runtime w))) as [->|Hne].
      * rewrite Hn, lookup_insert_eq. pose proof (other_ne plane). split; congruence.
      * now rewrite lookup_insert_ne by congruence.
  - intros ctx Hle. rewrite E3 in Hle. rewrite E4, lookup_insert_ne by lia. apply CX. lia.
  - intros ctx h H. rewrite E4. destruct (decide (ctx = contexts (runtime w))) as [->|Hne]; [congruence|].
    rewrite lookup_insert_ne in H by congruence. exact (RN ctx h H).
  - intros ctx h Hcl. congruence.
  - intros ctx H%SP. lia.
Qed.

Lemma leave_ok plane request ctx w r : ok w -> handlers w !! ctx = Some (plane, request) ->
  left plane request ctx (runtime w) r -> ok (mkWorld r (delete ctx (handlers w)) (stops w)).
Proof.
  intros [C Z0 CH CL RG CX RN ST SP] Hh [L1 L2 L3 L4 L5 L6 L7 L8 L9].
  assert (Hs : size (delete ctx (handlers w)) = pred (size (handlers w))) by (apply map_size_delete_Some; eauto).
  assert (Hp : (0 < size (handlers w))%nat).
  { destruct (size (handlers w)) eqn:E; [|lia]. apply map_size_empty_inv in E. rewrite E in Hh. now rewrite lookup_empty in Hh. }
  assert (K : forall c h, delete ctx (handlers w) !! c = Some h -> c <> ctx /\ handlers w !! c = Some h)
    by (intros c h [H1 H2]%lookup_delete_Some; auto).
  assert (Rc : forall c, c <> ctx -> causes r !! c = causes (runtime w) !! c).
  { intros c Hc. rewrite L3. destruct (causes (runtime w) !! ctx); [reflexivity|]. now rewrite lookup_insert_ne by congruence. }
  split; cbn.
  - rewrite L4, C, Hs. lia.
  - rewrite L5, L6. destruct (Z.eqb_spec (active (coordinator (runtime w))) 1) as [H|H].
    + split; [set_solver|]. intros _. apply map_size_empty_inv. lia.
    + split; [|rewrite <- Z0; intros H0; rewrite H0, map_size_empty in Hp; lia]. intros H0. exfalso.
      rewrite H0, map_size_empty in Hs. lia.
  - now rewrite L6, L7.
  - intros ch Hch. rewrite L7. rewrite L5 in Hch. destruct (_ =? 1); [|auto]. apply elem_of_union in Hch as [->%elem_of_singleton|Hch]; auto.
  - refine (planes (fun p => forall req c, registered p (coordinator r) !! req = Some c <-> _ !! c = Some (p, req)) plane _ _); intros req c.
    + rewrite L8, lookup_delete_Some, lookup_delete_Some, RG. split.
      * intros [H1 H2]. split; [|assumption]. intros <-. congruence.
      * intros [H1 H2]. split; [|assumption]. intros <-. apply RG in Hh, H2. congruence.
    + rewrite L9, RG, lookup_delete_Some. split; [|tauto]. intros H. split; [|assumption]. intros <-. pose proof (other_ne plane). congruence.
  - intros c Hle. rewrite L2 in Hle. destruct (CX c Hle) as [H1 H2]. rewrite lookup_delete_None. split; [now right|].
    rewrite Rc; [assumption|]. intros ->. congruence.
  - intros c h [Hc H]%K. rewrite Rc by assumption. exact (RN c h H).
  - intros c h Hcl [Hc H]%K. rewrite Rc by assumption. apply (ST c h); congruence.
  - intros c H. rewrite L2. auto.
Qed.

(** A registered handler can always leave. *)
Lemma handler_leaves plane request ctx w : ok w -> handlers w !! ctx = Some (plane, request) ->
  exists r, leave plane (runtime w) request ctx = Some r /\ left plane request ctx (runtime w) r.
Proof.
  intros Hok Hh. assert (Hne : handlers w <> ∅) by (intros E; rewrite E in Hh; now rewrite lookup_empty in Hh).
  apply leave_spec; [|now rewrite <- (ok_zero w Hok)]. rewrite (ok_count w Hok).
  pose proof (proj2 (map_size_non_empty_iff (handlers w)) Hne). lia.
Qed.

Lemma lifecycle_step_ok w w' : step w w' -> ok w -> ok w'.
Proof.
  intros Hs Hok. destruct Hs as [plane request w r ctx Hf He|plane request w r He|plane request ctx w r Hh Hl|w r l Hb|ctx l w Hl].
  - apply enter_spec in He as [-> He]. now apply enter_ok.
  - apply refused_spec in He as (H1 & H2 & H3 & H4 & H5 & H6). destruct Hok as [C Z0 CH CL RG CX RN ST SP].
    assert (Q : forall c h, handlers w !! c = Some h -> causes r !! c = causes (runtime w) !! c).
    { intros c h H. apply H6. intros ->. destruct (CX (contexts (runtime w)) ltac:(lia)). congruence. }
    split; cbn; rewrite ?H2, ?H3, ?H4, ?H5; auto.
    + intros c Hc. rewrite H6 by lia. apply CX. lia.
    + intros c h H. rewrite (Q c h H). exact (RN c h H).
    + intros c h Hc H. rewrite (Q c h H). now apply (ST c h).
    + intros c H%SP. lia.
  - destruct (handler_leaves plane request ctx w Hok Hh) as (r' & E & HL). rewrite E in Hl. injection Hl as <-. now apply (leave_ok plane request).
  - unfold BeginShutdown in Hb. destruct (closing (coordinator (runtime w))) eqn:Ec; injection Hb as <- <-; [now destruct w|].
    destruct Hok as [C Z0 CH CL RG CX RN ST SP]. split; cbn; auto.
    + intros c [plane req] _ H. left. apply RG in H. rewrite !elem_of_app, !list_elem_of_fmap. left.
      destruct plane; [right|left]; exists (req, c); (split; [reflexivity|]); now apply elem_of_map_to_list.
    + intros c Hc. destruct (decide (c < contexts (runtime w))%nat) as [|Hge]; [assumption|]. exfalso.
      destruct (CX c ltac:(lia)) as [Hn _]. rewrite !elem_of_app, !list_elem_of_fmap in Hc.
      destruct Hc as [[([req c'] & -> & H%elem_of_map_to_list)|([req c'] & -> & H%elem_of_map_to_list)]|H%SP]; [| |lia]; cbn in Hn.
      * apply (RG Data) in H. congruence.
      * apply (RG Tracked) in H. congruence.
  - destruct Hok as [C Z0 CH CL RG CX RN ST SP].
    assert (Q : forall c, causes (cancel (runtime w) ctx ErrServerShutdown) !! c =
      if decide (c = ctx) then Some (default ErrServerShutdown (causes (runtime w) !! ctx)) else causes (runtime w) !! c).
    { intros c. unfold cancel. destruct (causes (runtime w) !! ctx) eqn:E; cbn; unfold const; case_decide as D; subst; rewrite ?E, ?lookup_insert_eq; auto.
      now rewrite lookup_insert_ne by congruence. }
    assert (P : coordinator (cancel (runtime w) ctx ErrServerShutdown) = coordinator (runtime w) /\
      channels (cancel (runtime w) ctx ErrServerShutdown) = channels (runtime w) /\
      closed (cancel (runtime w) ctx ErrServerShutdown) = closed (runtime w) /\
      contexts (cancel (runtime w) ctx ErrServerShutdown) = contexts (runtime w)) by (unfold cancel; now destruct (causes (runtime w) !! ctx)).
    destruct P as (P1 & P2 & P3 & P4). rewrite Hl in *. split; cbn; rewrite ?P1, ?P2, ?P3, ?P4; auto.
    + intros c Hc. rewrite Q. specialize (SP ctx ltac:(set_solver)). case_decide as D; [lia|auto].
    + intros c h H. rewrite Q. case_decide as D; [subst|exact (RN c h H)]. specialize (RN ctx h H).
      destruct (causes (runtime w) !! ctx) as [[]|]; cbn; congruence.
    + intros c h Hc H. rewrite Q. case_decide as D.
      * subst c. right. specialize (RN ctx h H). destruct (causes (runtime w) !! ctx) as [[]|]; cbn; congruence.
      * destruct (ST c h Hc H) as [[E|E]%elem_of_cons|E]; [congruence|now left|now right].
    + intros c Hc. apply SP. set_solver.
Qed.

Lemma lifecycle_reachable_ok w : rtc step start w -> ok w.
Proof.
  assert (H : forall x y, rtc step x y -> ok x -> ok y) by (induction 1; eauto using lifecycle_step_ok).
  intros Hs. exact (H _ _ Hs start_ok).
Qed.

(** ** Draining *)

Lemma closing_step w w' : ok w -> step w w' -> closing (coordinator (runtime w)) = true ->
  closing (coordinator (runtime w')) = true /\ waitChannel (runtime w') = waitChannel (runtime w) /\ handlers w' ⊆ handlers w.
Proof.
  intros Hok Hs Hc. destruct Hs as [plane request w r ctx Hf He|plane request w r He|plane request ctx w r Hh Hl|w r l Hb|ctx l w Hl]; cbn.
  - apply enter_spec in He as [_ He]. pose proof (en_open _ _ _ _ He). congruence.
  - apply refused_spec in He as (_ & H & _). unfold waitChannel. rewrite H. now split_and!.
  - destruct (handler_leaves plane request ctx w Hok Hh) as (r' & E & HL). rewrite E in Hl. injection Hl as <-.
    split_and!; [rewrite (lf_closing _ _ _ _ _ HL); assumption|exact (lf_zero _ _ _ _ _ HL)|apply delete_subseteq].
  - unfold BeginShutdown in Hb. rewrite Hc in Hb. injection Hb as <- <-. now split_and!.
  - unfold cancel. destruct (causes (runtime w) !! ctx); cbn; now split_and!.
Qed.

Lemma closing_steps w w' : ok w -> rtc step w w' -> closing (coordinator (runtime w)) = true ->
  ok w' /\ closing (coordinator (runtime w')) = true /\ waitChannel (runtime w') = waitChannel (runtime w) /\ handlers w' ⊆ handlers w.
Proof.
  intros Hok Hs. revert Hok. induction Hs as [w|w x y Hxy _ IH]; intros Hok Hc; [now split_and!|].
  destruct (closing_step w x Hok Hxy Hc) as (H1 & H2 & H3). destruct (IH (lifecycle_step_ok _ _ Hxy Hok) H1) as (H4 & H5 & H6 & H7).
  split_and!; auto; [congruence|]. etransitivity; eassumption.
Qed.

(** Shutdown drains.  However requests, releases and the shutdown interleave: no
    release panics, and [Wait] returns exactly when no handler is registered.  From the
    moment the shutdown begins every new request is refused, once its handles are
    called every registered context has ended for the shutdown, and the channel a waiter
    reads then is closed exactly when the last of those handlers has left, after which
    none ever comes back. *)
Theorem shutdown_drains w : rtc step start w ->
  (forall ctx plane request, handlers w !! ctx = Some (plane, request) -> is_Some (leave plane (runtime w) request ctx)) /\
  (waitReturns (runtime w) (waitChannel (runtime w)) = true <-> handlers w = ∅) /\
  (closing (coordinator (runtime w)) = true ->
   (forall plane request, snd (enter plane (runtime w) request) = None) /\
   (stops w = [] -> forall ctx h, handlers w !! ctx = Some h -> causes (runtime w) !! ctx = Some ErrServerShutdown) /\
   forall w', rtc step w w' -> handlers w' ⊆ handlers w /\
     (waitReturns (runtime w') (waitChannel (runtime w)) = true <-> handlers w' = ∅)).
Proof.
  intros Hs. pose proof (lifecycle_reachable_ok w Hs) as Hok.
  assert (W : forall w, ok w -> waitReturns (runtime w) (waitChannel (runtime w)) = true <-> handlers w = ∅).
  { intros x Hx. unfold waitReturns, waitChannel. rewrite bool_decide_eq_true. symmetry. apply (ok_zero x Hx). }
  split_and!.
  - intros ctx plane request Hh. destruct (handler_leaves plane request ctx w Hok Hh) as (r & E & _). rewrite E. eauto.
  - now apply W.
  - intros Hc. split_and!.
    + intros [] request; cbn; unfold TrackAll_enter, BindData; cbn; unfold const; now rewrite Hc.
    + intros Hst ctx h Hh. destruct (ok_stops w Hok ctx h Hc Hh) as [Hin|H]; [|assumption]. rewrite Hst in Hin. now apply elem_of_nil in Hin.
    + intros w' Hs'. destruct (closing_steps w w' Hok Hs' Hc) as (H1 & H2 & H3 & H4). split; [assumption|]. rewrite <- H3. now apply W.
Qed.

(** ** Witness *)

(** One request arrives, the shutdown begins and cancels it. *)
Definition arrived : World := mkWorld (fst (TrackAll_enter NewCoordinator 10)) {[0%nat := (Tracked, 10)]} [].
Definition begun : World := mkWorld (fst (BeginShutdown (runtime arrived))) (handlers arrived) [0%nat].
Definition busy : World := mkWorld (cancel (runtime begun) 0 ErrServerShutdown) (handlers begun) [].

Lemma shutdown_drains_witness : rtc step start busy /\ snd (TrackAll_enter (runtime busy) 11) = None /\
  waitReturns (runtime busy) (waitChannel (runtime busy)) = false /\ is_Some (TrackAll_leave (runtime busy) 10 0).
Proof.
  assert (H : rtc step start busy).
  { apply (rtc_l _ _ arrived); [|apply (rtc_l _ _ begun); [|apply rtc_once]].
    - refine (SEnter Tracked 10 start (runtime arrived) 0%nat _ _); [intros ctx'; cbn; now rewrite lookup_empty|reflexivity].
    - exact (SBegin arrived (runtime begun) [0%nat] eq_refl).
    - exact (SCancel 0%nat [] begun eq_refl). }
  destruct (shutdown_drains busy H) as (H1 & H2 & H3). destruct (H3 eq_refl) as (H4 & _). split_and!.
  - exact H.
  - exact (H4 Tracked 11).
  - reflexivity.
  - exact (H1 0%nat Tracked 10 eq_refl).
Defined.

End Lifecycle.
