(* ===== verification/Boundary.v ===== *)
(** * From an upstream result to a decision

    [internal/gateway/execution_boundary.go] and the classifications around it: the
    result of one forward, its normalisation, the evidence the judge sees, and the
    reason a client is told when no response can be delivered.

    A Go error is what [errors.Is] and [errors.As] can tell about it: the sentinels in
    its chain and the kind of a stream failure. *)

From Stdlib Require Import ZArith Lia Bool String Ascii List.
From stdpp Require Import base gmap sets list strings.
From coqutil Require Import Datatypes.RecordSettersUsingExistingGetters.
From S2P Require Import Prelude GoStrings Execution Health.

Local Open Scope Z_scope.

Module Boundary.
Import Execution Health.

(** ** Errors *)

Inductive Sentinel :=
| Canceled | DeadlineExceeded | ErrUpstreamProtocol | errResponseOwnershipUnavailable | errRedactionStream
| errUnaryRestore | errStreamIdleTimeout | NetworkTimeout.

#[export] Instance Sentinel_eq_dec : EqDecision Sentinel.
Proof. solve_decision. Defined.

Inductive streamFailureKind :=
| streamFailureUpstreamRead | streamFailureProtocol | streamFailureIdle | streamFailureDownstreamWrite
| streamFailureClientCanceled | streamFailureRedaction.

Record GoError := mkError { chain : list Sentinel; failureOf : option streamFailureKind }.

(** [errors.Is]; a nil error is none of the sentinels. *)
Definition Is (err : option GoError) (s : Sentinel) : bool :=
  match err with Some e => bool_decide (s ∈ e.(chain)) | None => false end.

(** [fmt.Errorf("%w: ...", s)]. *)
Definition wrapping (s : Sentinel) : GoError := mkError [s] None.

Definition isTimeoutError (err : option GoError) : bool := Is err DeadlineExceeded || Is err NetworkTimeout.

(** ** Stream observations *)

Inductive StreamEndReason :=
| StreamEndNone | StreamEndCleanEOF | StreamEndSSEError | StreamEndUpstreamTerminated
| StreamEndUpstreamProtocolError | StreamEndIdleTimeout | StreamEndDownstreamWriteFailure
| StreamEndClientCanceled | StreamEndServerShutdown | StreamEndProviderIncomplete | StreamEndRedactionFailed
| StreamEndOther (raw : Z).

#[export] Instance StreamEndReason_eq_dec : EqDecision StreamEndReason.
Proof. solve_decision. Defined.

Record StreamObservation := mkStream { EndReason : StreamEndReason; so_ErrorSummary : string }.

Definition streamErrorCode (reason : StreamEndReason) : string :=
  match reason with
  | StreamEndCleanEOF | StreamEndNone => ""
  | StreamEndSSEError => "upstream_sse_error"
  | StreamEndUpstreamTerminated => "upstream_stream_terminated"
  | StreamEndUpstreamProtocolError => "upstream_protocol_error"
  | StreamEndIdleTimeout => "upstream_stream_idle_timeout"
  | StreamEndDownstreamWriteFailure => "downstream_write_failed"
  | StreamEndClientCanceled => "client_canceled"
  | StreamEndServerShutdown => "server_shutdown"
  | StreamEndProviderIncomplete => "upstream_response_incomplete"
  | StreamEndRedactionFailed => "response_redaction_failed"
  | StreamEndOther _ => "upstream_stream_terminated"
  end%string.

Definition fixedErrorSummary (code : string) : string :=
  if String.eqb code "concurrency_limit_exceeded" then "Concurrency limit exceeded."
  else if String.eqb code "upstream_rate_limited" then "Upstream rate limited the request."
  else if String.eqb code "upstream_model_unavailable" then "The requested upstream model is unavailable."
  else if String.eqb code "upstream_invalid_key" then "The upstream credential was rejected."
  else if String.eqb code "upstream_authentication_required" then "The upstream credential requires authentication."
  else if String.eqb code "upstream_host_error" then "The upstream service returned a server error."
  else if String.eqb code "upstream_client_error" then "The upstream service rejected the request."
  else if String.eqb code "upstream_connect_failed" then "Could not connect to an upstream service."
  else if String.eqb code "upstream_timeout" then "Upstream request timed out."
  else if String.eqb code "upstream_protocol_error" then "Upstream returned an unsupported response."
  else if String.eqb code "protocol_conversion_unsupported" then "No upstream target could preserve or convert the request."
  else if String.eqb code "upstream_sse_error" then "Upstream stream reported an error."
  else if String.eqb code "upstream_stream_terminated" then "Upstream stream terminated before completion."
  else if String.eqb code "upstream_stream_idle_timeout" then "Upstream stream timed out while idle."
  else if String.eqb code EmptyResponseCode then "Upstream completed without producing any content."
  else if String.eqb code "downstream_write_failed" then "The downstream response could not be completed."
  else if String.eqb code "internal_error" then "The request failed due to an internal error."
  else if String.eqb code "client_canceled" then "The client canceled the request."
  else if String.eqb code "server_shutdown" then "The server canceled the request during shutdown."
  else "Upstream request failed."%string.

Definition streamTerminalObservation (reason : StreamEndReason) : StreamObservation :=
  mkStream reason (fixedErrorSummary (streamErrorCode reason)).

(** The request context: still running, cancelled by the client, or by the shutdown. *)
Inductive RequestContext := Running | ClientGone | ShuttingDown.
Definition contextEnded (ctx : RequestContext) : bool := match ctx with Running => false | _ => true end.

Definition prioritizeStreamObservation (ctx : RequestContext) (err : option GoError) (observation : StreamObservation)
    : StreamObservation :=
  match ctx with
  | ShuttingDown => streamTerminalObservation StreamEndServerShutdown
  | _ =>
    if contextEnded ctx || Is err Canceled then streamTerminalObservation StreamEndClientCanceled
    else
      match match err with Some e => e.(failureOf) | None => None end with
      | Some streamFailureClientCanceled => streamTerminalObservation StreamEndClientCanceled
      | Some streamFailureDownstreamWrite => streamTerminalObservation StreamEndDownstreamWriteFailure
      | Some streamFailureIdle => streamTerminalObservation StreamEndIdleTimeout
      | Some streamFailureProtocol => streamTerminalObservation StreamEndUpstreamProtocolError
      | Some streamFailureUpstreamRead => streamTerminalObservation StreamEndUpstreamTerminated
      | Some streamFailureRedaction => streamTerminalObservation StreamEndRedactionFailed
      | None =>
        if Is err ErrUpstreamProtocol then streamTerminalObservation StreamEndUpstreamProtocolError
        else if Is err errStreamIdleTimeout then streamTerminalObservation StreamEndIdleTimeout
        else match err with
             | Some _ => streamTerminalObservation StreamEndUpstreamTerminated
             | None =>
               if bool_decide (observation.(EndReason) = StreamEndNone) then mkStream StreamEndCleanEOF "" else observation
             end
      end
  end.

(** ** Results *)

(** The fields of [UpstreamResult] that decisions depend on; the others are only
    recorded. *)
Record UpstreamResult := mkUpstream {
  u_StatusCode : Z;
  u_Header : Header;
  Body : string;
  u_ErrorSummary : string;
  u_Err : option GoError;
  RequestWritten : bool;
  Committed : bool;
  ProviderErrorBeforeCommit : bool;
  EmptyResponseBeforeCommit : bool;
  Stream : StreamObservation;
  u_DispatchState : DispatchState;
  u_ResponseStarted : bool;
  ExecutionError : option ErrorEvidence;
}.

Definition HasResponse (result : UpstreamResult) : bool :=
  negb (result.(u_StatusCode) =? 0) && match result.(u_Err) with None => true | Some _ => false end.

Definition successful (result : UpstreamResult) : bool :=
  (result.(u_StatusCode) >=? 200) && (result.(u_StatusCode) <? 300).

(** An [ErrorEvidence] literal of this file. *)
Definition evidence (kind : ErrorKind) (origin : ErrorOrigin) (scope : ErrorScope) (status : Z) (code summary : string)
    (safety : ReplaySafety) : ErrorEvidence :=
  mkEvidence kind FailureHintNone origin scope status "" code summary "" 0 safety [].

Definition responseOwnershipEvidence (err : option GoError) : ErrorEvidence :=
  evidence ErrorKindInternal ErrorOriginInternal ErrorScopeRequest 0
    (if Is err errResponseOwnershipUnavailable then "response_binding_unavailable" else "response_binding_conflict")%string
    "Response ownership could not be recorded." ReplaySafetyUnknown.

Definition responseRedactionEvidence (statusCode : Z) : ErrorEvidence :=
  evidence ErrorKindInternal ErrorOriginInternal ErrorScopeRequest statusCode "response_redaction_failed"
    "Response content could not be restored safely." ReplaySafetyUnknown.

(** An upstream failure of the kind named by a stream's end. *)
Definition streamEvidence (kind : ErrorKind) (result : UpstreamResult) (code summary : string) : ErrorEvidence :=
  evidence kind ErrorOriginUpstream ErrorScopeRequest result.(u_StatusCode) code summary ReplaySafetyNone.

(** A write failure downstream, without a sentinel. *)
Definition downstreamWriteFailed : GoError := mkError [] None.

Definition decisionEvidence (result : UpstreamResult) : option ErrorEvidence * option GoError :=
  if Is result.(u_Err) errResponseOwnershipUnavailable then (Some (responseOwnershipEvidence result.(u_Err)), None)
  else
    let summary :=
      if bool_decide (result.(Stream).(so_ErrorSummary) = ""%string)
      then fixedErrorSummary (streamErrorCode result.(Stream).(EndReason)) else result.(Stream).(so_ErrorSummary) in
    match result.(Stream).(EndReason) with
    | StreamEndNone =>
      match result.(ExecutionError) with
      | None =>
        if Is result.(u_Err) ErrUpstreamProtocol
        then (Some (streamEvidence ErrorKindProvider result "upstream_protocol_error"
                      (fixedErrorSummary "upstream_protocol_error")), None)
        else (None, result.(u_Err))
      | e => (e, result.(u_Err))
      end
    | StreamEndCleanEOF => (None, None)
    | StreamEndProviderIncomplete =>
      (Some (streamEvidence ErrorKindProvider result "upstream_response_incomplete" summary), None)
    | StreamEndSSEError =>
      (match result.(ExecutionError) with
       | None => Some (streamEvidence ErrorKindProvider result "upstream_sse_error" summary)
       | e => e
       end, None)
    | StreamEndUpstreamTerminated =>
      (Some (streamEvidence ErrorKindTransport result "upstream_stream_terminated" summary), None)
    | StreamEndUpstreamProtocolError =>
      (Some (streamEvidence ErrorKindProvider result "upstream_protocol_error" summary), None)
    | StreamEndRedactionFailed => (Some (responseRedactionEvidence result.(u_StatusCode)), None)
    | StreamEndIdleTimeout =>
      (Some (streamEvidence ErrorKindTimeout result "upstream_stream_idle_timeout" summary), None)
    | StreamEndDownstreamWriteFailure => (result.(ExecutionError), Some downstreamWriteFailed)
    | StreamEndClientCanceled | StreamEndServerShutdown => (result.(ExecutionError), Some (wrapping Canceled))
    | StreamEndOther _ =>
      (Some (evidence ErrorKindInternal ErrorOriginInternal ErrorScopeNone 0 "attempt_result_contract_invalid"
               "Attempt ended with an invalid terminal state." ReplaySafetyNone), None)
    end.

(** How the judge classifies the downstream error. *)
Definition downstream (err : option GoError) : DownstreamError :=
  match err with
  | None => NoDownstreamError
  | Some _ =>
    if Is err Canceled then ContextCanceled
    else if Is err DeadlineExceeded then ContextDeadlineExceeded else OtherDownstreamError
  end.

(** The attempt [judgeUpstreamResult] hands to the judge. *)
Definition attemptOf (result : UpstreamResult) (now : Z) : ExecutionAttempt :=
  let '(evidence, downstreamErr) := decisionEvidence result in
  let downstreamErr :=
    match evidence with
    | Some _ => if negb result.(Committed) && negb (Is result.(u_Err) Canceled) && negb (Is result.(u_Err) DeadlineExceeded)
                then None else downstreamErr
    | None => downstreamErr
    end in
  mkAttempt result.(u_DispatchState) result.(u_StatusCode) result.(u_Header) evidence result.(Committed)
    (downstream downstreamErr) now.

Section Judge.
Context `{TimeParsers}.

Definition judgeUpstreamResult (result : UpstreamResult) (now : Z) (decisionContext : DecisionContext) : Decision :=
  let decision := JudgeExecution (attemptOf result now) decisionContext in
  if bool_decide (decisionContext.(ctx_Operation) = OperationWebSearch) &&
     negb (bool_decide (decision.(d_Effect) = EffectSkipGroup)) &&
     negb (bool_decide (decision.(d_Category) = FailureCategoryAuthenticationRequired)) &&
     negb (bool_decide (decision.(d_Category) = FailureCategoryInvalidKey))
  then decision <| d_Effect := EffectNone |> <| d_CooldownUntil := 0 |>
  else decision.

End Judge.

Definition noStream : StreamObservation := mkStream StreamEndNone "".

Definition normalizeUpstreamResultContract (result : UpstreamResult) : UpstreamResult :=
  if dispatchValid result.(u_DispatchState) then result
  else
    let dispatchState :=
      if bool_decide (result.(u_DispatchState) = DispatchLocal) then DispatchLocal
      else if bool_decide (result.(u_DispatchState) = DispatchMaybeSent) || result.(RequestWritten) || result.(Committed) ||
              result.(u_ResponseStarted) || negb (result.(u_StatusCode) =? 0) ||
              negb (Z.of_nat (length result.(u_Header)) =? 0) || negb (bool_decide (result.(Body) = ""%string))
           then DispatchMaybeSent else DispatchNotSent in
    let summary := "Attempt forwarder returned an invalid result."%string in
    mkUpstream 0 [] "" summary (Some (wrapping ErrUpstreamProtocol)) (bool_decide (dispatchState = DispatchMaybeSent))
      result.(Committed) false false
      (if result.(Committed) then streamTerminalObservation StreamEndUpstreamProtocolError else noStream)
      dispatchState false
      (Some (evidence ErrorKindInternal ErrorOriginInternal ErrorScopeRequest 0 "attempt_result_contract_invalid" summary
               ReplaySafetyUnknown)).

(** ** Reasons *)

Record reason := mkReason { Status : Z; ReasonCode : string; Message : string }.

Definition reasonInvalidProtocolRequest : reason := mkReason 400 "invalid_protocol_request" "Invalid protocol request.".
Definition reasonModelRequiredByFilter : reason :=
  mkReason 400 "model_required_by_filter" "A model is required by the access key filter.".
Definition reasonNoCandidate : reason := mkReason 503 "no_available_candidate" "No available upstream candidate.".
Definition reasonUpstreamRateLimited : reason := mkReason 429 "upstream_rate_limited" "Upstream rate limit exceeded.".
Definition reasonCredentialConcurrencyLimited : reason :=
  mkReason 429 "credential_concurrency_limited" "Every upstream credential is at its concurrency limit.".
Definition reasonUpstreamConnect : reason :=
  mkReason 502 "upstream_connect_failed" "Could not connect to an upstream service.".
Definition reasonUpstreamTimeout : reason := mkReason 504 "upstream_timeout" "Upstream request timed out.".
Definition reasonUpstreamProtocol : reason :=
  mkReason 502 "upstream_protocol_error" "Upstream returned an unsupported response.".
Definition reasonResponseRedactionFailed : reason :=
  mkReason 502 "response_redaction_failed" "Response content could not be restored safely.".
Definition reasonProtocolConversionUnsupported : reason :=
  mkReason 422 "protocol_conversion_unsupported" "No upstream target could preserve or convert the request.".
Definition reasonRequestTooLarge : reason := mkReason 413 "request_too_large" "Request body is too large.".
Definition reasonAccessKeyCostLimitExceeded : reason :=
  mkReason 429 "access_key_cost_limit_exceeded" "Access key cost limit exceeded.".
Definition reasonConfigurationChanged : reason :=
  mkReason 503 "configuration_changed" "Configuration changed; retry the request.".
Definition reasonClusterStateUnavailable : reason :=
  mkReason 503 "cluster_state_unavailable" "Shared cluster state is unavailable.".
Definition reasonParameterOverrideUnavailable : reason :=
  mkReason 503 "parameter_override_unavailable"
    "No upstream candidate could apply the configured parameter overrides.".
Definition reasonRedactionFailed : reason :=
  mkReason 400 "request_redaction_failed" "Request content could not be redacted safely.".

Definition isConversionUnsupportedResult (result : UpstreamResult) : bool :=
  bool_decide (result.(u_DispatchState) = DispatchNotSent) &&
  match result.(ExecutionError) with
  | Some e => bool_decide (e.(Kind) = ErrorKindConversionUnsupported)
  | None => false
  end.

Definition transportReason (result : UpstreamResult) : reason :=
  if isConversionUnsupportedResult result then reasonProtocolConversionUnsupported
  else if bool_decide (result.(u_DispatchState) = DispatchNotSent) &&
          match result.(ExecutionError) with
          | Some e => bool_decide (e.(Kind) = ErrorKindInvalidRequest)
          | None => false
          end then reasonInvalidProtocolRequest
  else if Is result.(u_Err) errResponseOwnershipUnavailable then reasonClusterStateUnavailable
  else if Is result.(u_Err) ErrUpstreamProtocol then reasonUpstreamProtocol
  else if Is result.(u_Err) errRedactionStream || Is result.(u_Err) errUnaryRestore then reasonResponseRedactionFailed
  else if isTimeoutError result.(u_Err) then reasonUpstreamTimeout
  else reasonUpstreamConnect.

Definition providerErrorReason (result : UpstreamResult) : reason :=
  match result.(ExecutionError) with
  | Some e => if bool_decide (e.(Hint) = FailureHintRateLimited) then reasonUpstreamRateLimited else reasonUpstreamProtocol
  | None => reasonUpstreamProtocol
  end.

Definition refreshCooldownCredentialVersion (result : UpstreamResult) (credentialVersion : Z) : Z :=
  if bool_decide (result.(u_DispatchState) = DispatchNotSent) &&
     match result.(ExecutionError) with
     | Some e => bool_decide (e.(Hint) = FailureHintRefreshUnavailable)
     | None => false
     end then credentialVersion else 0.

(** [int] is 64 bits wide. *)
Definition retryAttemptLimit (retryCount : Z) : Z :=
  if retryCount <=? 0 then 1 else if retryCount >=? max_int64 then max_int64 else retryCount + 1.

End Boundary.
