(* ===== verification/Attempts.v ===== *)
(** * The attempt loop

    [executeAttempts] of [internal/gateway/handler.go]: one client request is forwarded
    to one credential after the other until a response is delivered, the judge refuses
    another attempt, or the candidates are exhausted.  It drives the scheduler's
    iterator, takes the group's and the credential's concurrency slot around each
    forward, admits the request to the cost limits before the first one, applies the
    health effect of each outcome and chooses what the client is told.

    Everything an iteration reads from outside (the credential registry, the clocks,
    decryption, the guardrail, the shared limits, the upstream) is a [Turn], one per
    iteration and otherwise arbitrary; what the loop does is recorded in [events].
    Recording for the request log, debug headers and pricing snapshots do not influence
    the control flow and are left out. *)

From Stdlib Require Import ZArith Lia Bool String Ascii List.
From stdpp Require Import base gmap sets list strings.
From coqutil Require Import Datatypes.RecordSettersUsingExistingGetters.
From S2P Require Import Prelude GoStrings Credential Execution Health Scheduler Ownership Boundary.

Local Open Scope Z_scope.

Module Attempts.
Import Credential Execution Health Scheduler Boundary.

(** ** The request and its environment *)

(** Why [prepareRequest] fails: content that cannot be redacted, a body too large after
    the overrides, or overrides that do not apply. *)
Inductive PrepareError := ErrContent | errRequestTooLarge | ErrOverride.

(** What stays fixed during the loop.  [prepare] is the outbound body for a selection:
    parameter overrides, then redaction. *)
Record Request := mkRequest {
  forwardAttemptLimit : Z;
  allowedCredentialRefs : gmap Z CredentialRef;
  operation : Operation;
  stream : bool;
  method : string;
  continued : bool;
  connectionType : Z -> string;
  prepare : Selection -> result PrepareError string;
  limited : bool;
}.

Inductive AdmitAnswer := QuotaAllowed | QuotaRefused | QuotaFailed (stale : bool).
Inductive GroupAnswer := GroupTaken | GroupRefused (r : reason) | GroupFailed (stale : bool).
Inductive CredentialAnswer := CredentialTaken | CredentialFull | CredentialFailed (stale : bool).

Record Turn (R : Type) := mkTurn {
  t_context : RequestContext;
  t_source : R;
  t_now : Z;
  t_now' : Z;
  t_current : option CredentialRef;
  t_active : bool;
  t_decrypts : bool;
  t_normalizes : bool;
  t_proxy : bool;
  t_auditAdmits : bool;
  t_auditFailure : option reason;
  t_admit : AdmitAnswer;
  t_audited : RequestContext;
  t_group : GroupAnswer;
  t_credential : CredentialAnswer;
  t_result : UpstreamResult;
  t_ownership : option GoError;
  t_after : RequestContext;
  t_attemptNow : Z;
  t_written : bool;
}.
Arguments t_context {R}. Arguments t_source {R}. Arguments t_now {R}. Arguments t_now' {R}. Arguments t_current {R}.
Arguments t_active {R}. Arguments t_decrypts {R}. Arguments t_normalizes {R}. Arguments t_proxy {R}.
Arguments t_auditAdmits {R}. Arguments t_auditFailure {R}. Arguments t_admit {R}. Arguments t_audited {R}.
Arguments t_group {R}. Arguments t_credential {R}. Arguments t_result {R}. Arguments t_ownership {R}.
Arguments t_after {R}. Arguments t_attemptNow {R}. Arguments t_written {R}.

(** ** The candidates of a request *)

Definition captureRefs (captured : list CredentialRef) : gmap Z CredentialRef :=
  foldl (fun refs ref => <[ref.(ref_ID) := ref]> refs) ∅ captured.

(** The only credential a continued response may use. *)
Definition boundRef (binding : Ownership.ResponseBinding) : CredentialRef :=
  mkRef "" binding.(Ownership.rb_CredentialID) binding.(Ownership.rb_GroupID) 0 binding.(Ownership.rb_IdentityGeneration) "" "" "" "" 0 0 0.

(** The query [Handle] hands to the scheduler: the credentials captured when the request
    starts or, for a continued response, its owner. *)
Definition requestQuery (query : Query) (refs : gmap Z CredentialRef) (binding : option Ownership.ResponseBinding)
    (preferred : Z) : Query :=
  match binding with
  | Some binding =>
    query <| AllowedCredentialIDs := Some {[binding.(Ownership.rb_CredentialID)]} |>
          <| AllowedCredentialRefs := Some {[binding.(Ownership.rb_CredentialID) := boundRef binding]} |>
  | None =>
    query <| AllowedCredentialIDs := Some (dom refs) |> <| AllowedCredentialRefs := Some refs |>
          <| PreferredCredentialID := preferred |>
  end.

(** ** What the loop does *)

(** One dispatch: the slots held while it ran, its result as judged, and the decision. *)
Record Forward := mkForward {
  f_selection : Selection;
  f_ref : CredentialRef;
  f_force : bool;
  f_body : string;
  f_slots : Z;
  f_result : UpstreamResult;
  f_attempt : ExecutionAttempt;
  f_context : DecisionContext;
  f_decision : Decision;
}.

Inductive Event :=
| Forwarded (f : Forward)
| CostAdmitted
| EffectApplied (ref : CredentialRef) (version : Z) (decision : Decision) (statusCode attemptNow : Z) (model : string)
| SuccessRecorded (ref : CredentialRef) (attemptNow : Z)
| AffinityRecorded (selection : Selection) (ref : CredentialRef).

Record deferredAttempt := mkDeferred { df_result : UpstreamResult; df_decision : Decision; df_index : Z }.

Inductive Outcome :=
| CompleteCanceled (index : Z)
| CompleteReason (r : reason)
| CompleteLimitState (stale : bool)
| CompleteCostLimit
| CompleteStream (result : UpstreamResult)
| CompleteTransport (r : reason) (attempt : deferredAttempt)
| CompleteEmpty (attempt : deferredAttempt)
| CompleteProviderError (r : reason) (attempt : deferredAttempt)
| CompleteResponse (attempt : deferredAttempt)
| SchedulerPanicked.

(** The variables of the function.  [attemptSlot] and [groupSlot] are the slots the
    functions [attemptRelease] and [groupRelease] free, [held] the ones not freed. *)
Record Loop := mkLoop {
  iterator : Iterator;
  attemptSequence : Z;
  forwardAttempts : Z;
  recorded : Z;
  lastAttemptIndex : Z;
  refreshRetry : option (Selection * CredentialRef);
  authRefreshReplayUsed : bool;
  lastResponse : option deferredAttempt;
  lastTransport : option deferredAttempt;
  lastConversion : option deferredAttempt;
  lastProviderError : option deferredAttempt;
  lastEmptyResponse : option deferredAttempt;
  concurrencySaturated : bool;
  parameterOverrideFailure : option reason;
  preparedGroupID : Z;
  cachedPrepared : option (result PrepareError string);
  admitted : bool;
  attemptSlot : option nat;
  groupSlot : option nat;
  held : gset nat;
  slots : nat;
  events : list Event;
}.

Definition newLoop (it : Iterator) (alreadyAdmitted : bool) : Loop :=
  mkLoop it 0 0 0 (-1) None false None None None None None false None 0 None alreadyAdmitted None None ∅ 0 [].

Definition emit (e : Event) (l : Loop) : Loop := l <| events := l.(events) ++ [e] |>.

(** Release functions run their body once. *)
Definition freeSlot (slot : option nat) (l : Loop) : Loop :=
  match slot with Some s => l <| held := l.(held) ∖ {[s]} |> | None => l end.
Definition attemptRelease (l : Loop) : Loop := freeSlot l.(attemptSlot) l.
Definition groupRelease (l : Loop) : Loop := freeSlot l.(groupSlot) l.
Definition takeSlot (l : Loop) : Loop * nat := (l <| held := {[l.(slots)]} ∪ l.(held) |> <| slots := S l.(slots) |>, l.(slots)).

(** How an iteration ends; the deferred functions run on every return. *)
Inductive Flow := Continue | Break | Return (o : Outcome).
Definition finish (o : Outcome) (l : Loop) : Loop * Flow := (attemptRelease (groupRelease l), Return o).

(** An iteration goes on with a value or ends. *)
Definition Phase (A : Type) : Type := Loop * (A + Flow).
Definition next {A} (l : Loop) (a : A) : Phase A := (l, inl a).
Definition stop {A} (x : Loop * Flow) : Phase A := (x.1, inr x.2).
Definition andThen {A} (p : Phase A) (k : Loop -> A -> Loop * Flow) : Loop * Flow :=
  match p with (l, inl a) => k l a | (l, inr f) => (l, f) end.

Section Loop.
Context `{TimeParsers} {R : Type} `{CredentialSource R} (req : Request).

Definition fixedCooldown : Z := minute.
Definition DefaultRefreshFailureCooldown : Z := 10 * minute.
Definition isSubscription (groupID : Z) : bool :=
  bool_decide (trim_space (bytes (req.(connectionType) groupID)) = bytes "subscription").

Definition decisionContextForSelection (selection : Selection) : DecisionContext :=
  let subscription := isSubscription selection.(sel_GroupID) in
  mkContext (if subscription then DefaultRefreshFailureCooldown else fixedCooldown) subscription req.(method) req.(operation).

Definition modelOf (selection : Selection) : string := default "" selection.(sel_UpstreamModelID).

Definition wantsRetry (d : Decision) : bool := negb (bool_decide (d.(d_Retry) = RetryNone)).

(** [handler.applyGroupDecisionEffect] and the skipped group of the iterator. *)
Definition applyEffect (selection : Selection) (ref : CredentialRef) (version : Z) (d : Decision) (status now : Z)
    (l : Loop) : Loop :=
  emit (EffectApplied ref version d status now (modelOf selection)) l.
Definition skipGroupIf (selection : Selection) (d : Decision) (l : Loop) : Loop :=
  if bool_decide (d.(d_Effect) = EffectSkipGroup)
  then l <| iterator := SkipGroup l.(iterator) selection.(sel_GroupID) |> else l.

(** [recorder.recordAttempt]: the index of the attempt. *)
Definition recordAttempt (l : Loop) : Loop * Z := (l <| recorded := l.(recorded) + 1 |>, l.(recorded)).

Definition zeroRef : CredentialRef := mkRef "" 0 0 0 0 "" "" "" "" 0 0 0.

Definition recordCandidatePreparationFailure (selection : Selection) (code summary : string) (scope : ErrorScope)
    (turn : Turn R) (l : Loop) : Loop * Flow :=
  let l := l <| attemptSequence := l.(attemptSequence) + 1 |> in
  let result :=
    mkUpstream 0 [] "" summary (Some (wrapping ErrUpstreamProtocol)) false false false false noStream DispatchNotSent false
      (Some (evidence ErrorKindInternal ErrorOriginInternal scope 0 code summary ReplaySafetyNone)) in
  let d := judgeUpstreamResult result turn.(t_attemptNow) (decisionContextForSelection selection) in
  let '(l, index) := recordAttempt l in
  let l := l <| lastAttemptIndex := index |> in
  let ref := default zeroRef (req.(allowedCredentialRefs) !! selection.(CredentialID)) in
  let l := applyEffect selection ref 0 d 0 turn.(t_attemptNow) l in
  let l := skipGroupIf selection d l in
  let l := l <| lastTransport := Some (mkDeferred result d index) |> in
  (l, if wantsRetry d then Continue else Break).

(** The selection of an iteration: a pending replay after a credential refresh, or the
    next candidate. *)
Definition choose (turn : Turn R) (l : Loop) : Phase (Selection * CredentialRef * bool) :=
  match l.(refreshRetry) with
  | Some (selection, old) =>
    let l := l <| refreshRetry := None |> in
    match turn.(t_current) with
    | None => stop (l, Continue)
    | Some ref =>
      if negb (ref.(ref_GroupID) =? selection.(sel_GroupID)) ||
         negb (ref.(ref_IdentityGeneration) =? old.(ref_IdentityGeneration)) ||
         negb (bool_decide (ref.(ref_EncryptedProxy) = old.(ref_EncryptedProxy))) ||
         negb (bool_decide (ref.(ref_ProxyFingerprint) = old.(ref_ProxyFingerprint)))
      then stop (l, Continue)
      else
        let l := l <| authRefreshReplayUsed := true |> in
        let '(_, charged) := ChargeReplay turn.(t_source) l.(iterator) selection ref turn.(t_now) in
        if charged then next l (selection, ref, ref.(ref_Version) <=? old.(ref_Version)) else stop (l, Continue)
    end
  | None =>
    match Next turn.(t_source) l.(iterator) turn.(t_now) turn.(t_now') with
    | (_, it, Exhausted) => stop (l <| iterator := it |>, Break)
    | (_, it, Panicked) => stop (finish SchedulerPanicked (l <| iterator := it |>))
    | (_, it, Selected c t) =>
      let l := l <| iterator := it |> in
      let selection := newSelection c t in
      match req.(allowedCredentialRefs) !! selection.(CredentialID) with
      | Some ref =>
        if negb (ref.(ref_GroupID) =? selection.(sel_GroupID)) then stop (l, Continue) else next l (selection, ref, false)
      | None => stop (l, Continue)
      end
    end
  end.

(** [prepareRequest], cached for the group of the last selection. *)
Definition prepareRequest (selection : Selection) (l : Loop) : Loop * result PrepareError string :=
  match l.(cachedPrepared) with
  | Some prepared =>
    if l.(preparedGroupID) =? selection.(sel_GroupID) then (l, prepared)
    else (l <| preparedGroupID := selection.(sel_GroupID) |> <| cachedPrepared := Some (req.(prepare) selection) |>,
          req.(prepare) selection)
  | None =>
    (l <| preparedGroupID := selection.(sel_GroupID) |> <| cachedPrepared := Some (req.(prepare) selection) |>,
     req.(prepare) selection)
  end.

(** The candidate: the body for it, its credential and its proxy. *)
Definition prepareCandidate (turn : Turn R) (selection : Selection) (ref : CredentialRef) (l : Loop) : Phase string :=
  if negb turn.(t_active) then stop (l, Continue)
  else
    let '(l, prepared) := prepareRequest selection l in
    match prepared with
    | Err ErrContent => stop (finish (CompleteReason reasonRedactionFailed) l)
    | Err e =>
      let failure :=
        match e, l.(parameterOverrideFailure) with
        | errRequestTooLarge, Some r => Some r
        | errRequestTooLarge, None => Some reasonRequestTooLarge
        | _, _ => Some reasonParameterOverrideUnavailable
        end in
      stop (l <| parameterOverrideFailure := failure |>
              <| iterator := SkipGroup l.(iterator) selection.(sel_GroupID) |>, Continue)
    | Ok body =>
      if negb turn.(t_decrypts) then
        stop (recordCandidatePreparationFailure selection "credential_decrypt_failed"
                "Stored credential could not be decrypted." ErrorScopeCredential turn l)
      else if negb turn.(t_normalizes) then
        stop (recordCandidatePreparationFailure selection "credential_normalization_failed"
                "Stored credential could not be prepared." ErrorScopeCredential turn l)
      else if negb turn.(t_proxy) then
        stop (if negb (bool_decide (ref.(ref_EncryptedProxy) = ""%string)) ||
                 negb (bool_decide (ref.(ref_ProxyFingerprint) = ""%string))
              then recordCandidatePreparationFailure selection "credential_proxy_prepare_failed"
                     "Credential proxy configuration could not be prepared." ErrorScopeCredential turn l
              else recordCandidatePreparationFailure selection "group_proxy_prepare_failed"
                     "Group proxy configuration could not be prepared." ErrorScopeGroup turn l)
      else next l body
    end.

Definition limitStateFailureReason (stale : bool) : reason :=
  if stale then reasonConfigurationChanged else reasonClusterStateUnavailable.

Definition markAdmitted (l : Loop) : Loop := emit CostAdmitted (l <| admitted := true |>).

(** [admitAutoQuota], which the guardrail calls before it reviews content. *)
Definition admitAutoQuota (turn : Turn R) (l : Loop) : Loop * option reason :=
  if negb req.(limited) || l.(admitted) then (l, None)
  else match turn.(t_admit) with
       | QuotaAllowed => (markAdmitted l, None)
       | QuotaRefused => (l, Some reasonAccessKeyCostLimitExceeded)
       | QuotaFailed stale => (l, Some (limitStateFailureReason stale))
       end.

Definition isCancel : bool := bool_decide (req.(operation) = OperationResponsesCancel).

Definition checkRequestAudit (turn : Turn R) (l : Loop) : Phase unit :=
  if isCancel then next l tt
  else
    let '(l, failure) := if turn.(t_auditAdmits) then admitAutoQuota turn l else (l, None) in
    match failure, turn.(t_auditFailure) with
    | Some r, _ | None, Some r => stop (finish (CompleteReason r) l)
    | None, None => next l tt
    end.

(** The slots and the admission to the cost limits. *)
Definition acquireGroup (turn : Turn R) (l : Loop) : Phase unit :=
  if isCancel then next l tt
  else match turn.(t_group) with
       | GroupFailed stale => stop (finish (CompleteLimitState stale) l)
       | GroupRefused r => stop (finish (CompleteReason r) l)
       | GroupTaken => let '(l, slot) := takeSlot l in next (l <| groupSlot := Some slot |>) tt
       end.

Definition acquireCredential (turn : Turn R) (l : Loop) : Phase unit :=
  match turn.(t_credential) with
  | CredentialFailed stale => stop (finish (CompleteLimitState stale) l)
  | CredentialFull => stop ((groupRelease l) <| concurrencySaturated := true |>, Continue)
  | CredentialTaken => let '(l, slot) := takeSlot l in next (l <| attemptSlot := Some slot |>) tt
  end.

Definition admitCost (turn : Turn R) (l : Loop) : Phase unit :=
  if negb req.(limited) || l.(admitted) then next l tt
  else match turn.(t_admit) with
       | QuotaAllowed => next (markAdmitted l) tt
       | QuotaRefused => stop (finish CompleteCostLimit l)
       | QuotaFailed stale => stop (finish (CompleteLimitState stale) l)
       end.

(** The result of the upstream exchange as the loop goes on with it. *)
Definition receive (turn : Turn R) : UpstreamResult :=
  let result := normalizeUpstreamResultContract turn.(t_result) in
  let result :=
    match turn.(t_ownership) with
    | Some err =>
      if negb req.(stream) && HasResponse result && negb result.(ProviderErrorBeforeCommit) &&
         negb (bool_decide (result.(u_DispatchState) = DispatchLocal)) && successful result
      then result <| u_Err := Some err |> <| ExecutionError := Some (responseOwnershipEvidence (Some err)) |>
      else result
    | None => result
    end in
  if req.(stream) && result.(Committed) && bool_decide (result.(Stream).(EndReason) = StreamEndNone)
  then result <| Stream := prioritizeStreamObservation turn.(t_after) result.(u_Err) result.(Stream) |>
  else result.

Definition resultForDecision (turn : Turn R) (result : UpstreamResult) : UpstreamResult :=
  if contextEnded turn.(t_after) then result <| u_Err := Some (wrapping Canceled) |> else result.

(** The exchange: both slots are freed as soon as it returns. *)
Definition forward (turn : Turn R) (selection : Selection) (ref : CredentialRef) (force : bool) (body : string) (l : Loop)
    : Loop * UpstreamResult * Decision :=
  let l := l <| attemptSequence := l.(attemptSequence) + 1 |> <| forwardAttempts := l.(forwardAttempts) + 1 |> in
  let slots := Z.of_nat (size l.(held)) in
  let result := receive turn in
  let l := groupRelease (attemptRelease l) in
  let ctx := decisionContextForSelection selection in
  let judged := resultForDecision turn result in
  let d := judgeUpstreamResult judged turn.(t_attemptNow) ctx in
  (emit (Forwarded (mkForward selection ref force body slots result (attemptOf judged turn.(t_attemptNow)) ctx d)) l,
   result, d).

(** A committed stream is the client's response whatever its end was. *)
Definition settleCommitted (turn : Turn R) (selection : Selection) (ref : CredentialRef) (result : UpstreamResult)
    (d : Decision) (l : Loop) : Loop * Flow :=
  let '(l, _) := recordAttempt l in
  let l := applyEffect selection ref 0 d result.(u_StatusCode) turn.(t_attemptNow) l in
  let l :=
    if req.(stream) && bool_decide (result.(Stream).(EndReason) = StreamEndCleanEOF)
    then
      let l := emit (SuccessRecorded ref turn.(t_attemptNow)) l in
      if req.(continued) then l else emit (AffinityRecorded selection ref) l
    else l in
  finish (CompleteStream result) l.

(** What an uncommitted result leads to. *)
Definition deliver (turn : Turn R) (selection : Selection) (ref : CredentialRef) (result : UpstreamResult) (d : Decision)
    (attempt : deferredAttempt) (l : Loop) : Loop * Flow :=
  if (result.(u_StatusCode) >=? 100) && (result.(u_StatusCode) <? 200)
  then finish (CompleteTransport reasonUpstreamProtocol attempt) l
  else if result.(EmptyResponseBeforeCommit) then
    if wantsRetry d && (l.(forwardAttempts) <? req.(forwardAttemptLimit))
    then (l <| lastEmptyResponse := Some attempt |>, Continue)
    else finish (CompleteEmpty attempt) l
  else if result.(ProviderErrorBeforeCommit) then
    if wantsRetry d then (l <| lastProviderError := Some attempt |>, Continue)
    else finish (CompleteProviderError (providerErrorReason result) attempt) l
  else if HasResponse result then
    let l := l <| lastResponse := Some attempt |> in
    if wantsRetry d then (l, Continue)
    else
      let l :=
        if turn.(t_written) && negb (bool_decide (result.(u_DispatchState) = DispatchLocal)) && successful result &&
           negb req.(continued)
        then emit (AffinityRecorded selection ref) l else l in
      finish (CompleteResponse attempt) l
  else if Is result.(u_Err) Canceled then finish (CompleteCanceled attempt.(df_index)) l
  else if wantsRetry d then
    (if isConversionUnsupportedResult result then l <| lastConversion := Some attempt |>
     else l <| lastTransport := Some attempt |>, Continue)
  else finish (CompleteTransport (transportReason result) attempt) l.

Definition settle (turn : Turn R) (selection : Selection) (ref : CredentialRef) (result : UpstreamResult) (d : Decision)
    (l : Loop) : Loop * Flow :=
  if result.(Committed) then settleCommitted turn selection ref result d l
  else if contextEnded turn.(t_after) then
    let '(l, index) := recordAttempt l in
    let l := if bool_decide (d.(d_Effect) = EffectCooldownModel)
             then applyEffect selection ref 0 d result.(u_StatusCode) turn.(t_attemptNow) l else l in
    finish (CompleteCanceled index) l
  else
    let l :=
      if negb (bool_decide (req.(operation) = OperationWebSearch)) && negb req.(stream) &&
         negb (bool_decide (result.(u_DispatchState) = DispatchLocal)) && negb result.(ProviderErrorBeforeCommit) &&
         HasResponse result && successful result
      then emit (SuccessRecorded ref turn.(t_attemptNow)) l else l in
    let '(l, index) := recordAttempt l in
    let l := l <| lastAttemptIndex := index |> in
    let l := applyEffect selection ref (refreshCooldownCredentialVersion result ref.(ref_Version)) d result.(u_StatusCode)
               turn.(t_attemptNow) l in
    let l :=
      if bool_decide (d.(d_Retry) = RetryRefreshCredential) && negb l.(authRefreshReplayUsed) &&
         (l.(forwardAttempts) <? req.(forwardAttemptLimit))
      then l <| refreshRetry := Some (selection, ref) |> else l in
    let l := if wantsRetry d then l <| iterator := AdvancePriority l.(iterator) selection |> else l in
    let l := skipGroupIf selection d l in
    deliver turn selection ref result d (mkDeferred result d index) l.

(** One iteration. *)
Definition iteration (turn : Turn R) (l : Loop) : Loop * Flow :=
  if contextEnded turn.(t_context) then finish (CompleteCanceled l.(lastAttemptIndex)) l
  else
    andThen (choose turn l) (fun l chosen =>
      let '(selection, ref, force) := chosen in
      andThen (prepareCandidate turn selection ref l) (fun l body =>
        andThen (checkRequestAudit turn l) (fun l _ =>
          if contextEnded turn.(t_audited) then finish (CompleteCanceled l.(lastAttemptIndex)) l
          else
            andThen (acquireGroup turn l) (fun l _ =>
              andThen (acquireCredential turn l) (fun l _ =>
                andThen (admitCost turn l) (fun l _ =>
                  let '(l, result, d) := forward turn selection ref force body l in
                  settle turn selection ref result d l)))))).

(** What the client is told when no attempt was final. *)
Definition conclude (turn : Turn R) (l : Loop) : Outcome :=
  match l.(lastEmptyResponse), l.(lastProviderError), l.(lastResponse), l.(lastTransport), l.(lastConversion) with
  | Some attempt, _, _, _, _ => CompleteEmpty attempt
  | None, Some attempt, _, _, _ => CompleteProviderError (providerErrorReason attempt.(df_result)) attempt
  | None, None, Some attempt, _, _ => CompleteResponse attempt
  | None, None, None, Some attempt, _ => CompleteTransport (transportReason attempt.(df_result)) attempt
  | None, None, None, None, Some attempt => CompleteTransport reasonProtocolConversionUnsupported attempt
  | None, None, None, None, None =>
    if bool_decide (l.(iterator).(staticReason) = ReasonModelRequiredByFilter) then CompleteReason reasonModelRequiredByFilter
    else match l.(parameterOverrideFailure), l.(lastAttemptIndex) <? 0 with
         | Some r, true => CompleteReason r
         | _, _ =>
           match CooldownUntil turn.(t_source) l.(iterator) turn.(t_now) with
           | Some _ => CompleteReason reasonUpstreamRateLimited
           | None => CompleteReason (if l.(concurrencySaturated) then reasonCredentialConcurrencyLimited else reasonNoCandidate)
           end
         end
  end.

(** The loop; [None] is a lack of fuel. *)
Fixpoint attempts (fuel : nat) (turns : nat -> Turn R) (i : nat) (l : Loop) : option (Loop * Outcome) :=
  if l.(forwardAttempts) <? req.(forwardAttemptLimit) then
    match fuel with
    | O => None
    | S fuel =>
      match iteration (turns i) l with
      | (l, Continue) => attempts fuel turns (S i) l
      | (l, Break) => Some (attemptRelease (groupRelease l), conclude (turns (S i)) l)
      | (l, Return o) => Some (l, o)
      end
    end
  else Some (attemptRelease (groupRelease l), conclude (turns i) l).

(** [executeAttempts]; [cipher] tells whether the redaction cipher could be made. *)
Definition executeAttempts (fuel : nat) (turns : nat -> Turn R) (cipher alreadyAdmitted : bool) (it : Iterator)
    : option (Loop * Outcome) :=
  let l := newLoop it alreadyAdmitted in
  if cipher then attempts fuel turns 0 l else Some (l, CompleteReason reasonRedactionFailed).

End Loop.
End Attempts.
