(* ===== verification/AttemptsProps.v ===== *)
(** * What the attempt loop guarantees

    The loop of [Attempts] as a client of the scheduler and of the judge, for any
    environment: it returns; how often and to whom it forwards; that every repetition
    was safe; and that slots and the admission to the cost limits are accounted for.

    All of it follows from one invariant of the loop head, carried through the phases of
    an iteration. *)

From Stdlib Require Import ZArith Lia Bool String List.
From stdpp Require Import base gmap sets list strings.
From coqutil Require Import Datatypes.RecordSettersUsingExistingGetters.
From S2P Require Import Prelude Credential Execution Health Judgement Registry RegistryFacts RegistryProps Scheduler SchedulerProps Ownership Boundary Attempts.

Local Open Scope Z_scope.

Module AttemptsProps.
Import Credential Execution Health Judgement Scheduler SchedulerProps Boundary Attempts.

(** ** What is observed of a run *)

Definition notable (e : Event) : bool := match e with Forwarded _ | CostAdmitted => true | _ => false end.
Definition trace (l : Loop) : list Event := List.filter notable l.(events).
Definition idOf (f : Forward) : Z := f.(f_selection).(CredentialID).

(** No credential gets the request twice, except one, directly after the judge asked for
    its refresh. *)
Inductive repeats (replayed : bool) : list Forward -> Prop :=
| repeats_none fs : NoDup (idOf <$> fs) -> repeats replayed fs
| repeats_once pre f f' post : replayed = true -> idOf f' = idOf f ->
    f.(f_decision).(d_Retry) = RetryRefreshCredential -> NoDup (idOf <$> pre ++ f :: post) ->
    repeats replayed (pre ++ f :: f' :: post).

Definition retried (f : Forward) : Prop := f.(f_result).(Committed) = false /\ f.(f_decision).(d_Retry) <> RetryNone.

Lemma repeats_fresh u fs f : repeats u fs -> idOf f ∉ (idOf <$> fs) -> repeats u (fs ++ [f]).
Proof.
  intros Hr Hf. inversion Hr as [? Hn|pre g g' post_ Hu Hid Hd Hn E]; subst.
  - apply repeats_none. rewrite fmap_app, NoDup_app. split_and!; [exact Hn|set_solver|apply NoDup_singleton].
  - rewrite <- app_assoc. apply repeats_once; [reflexivity|assumption..|].
    rewrite app_comm_cons, app_assoc, fmap_app, NoDup_app. split_and!; [exact Hn| |apply NoDup_singleton].
    intros x Hx. rewrite !fmap_app, !fmap_cons in *. set_solver.
Qed.

Lemma repeats_replay pre f f' : NoDup (idOf <$> pre ++ [f]) -> idOf f' = idOf f ->
  f.(f_decision).(d_Retry) = RetryRefreshCredential -> repeats true ((pre ++ [f]) ++ [f']).
Proof. intros Hn Hid Hd. rewrite <- app_assoc. exact (repeats_once _ pre f f' [] eq_refl Hid Hd Hn). Qed.

Section Run.
Context `{TimeParsers} {R : Type} `{SourceLaws R} (req : Request).
Context (snapshot : option Config) (query : Query) (ids : gset Z) (already : bool).
Context (Hids : query.(AllowedCredentialIDs) = Some ids).

Definition charged : bool := req.(limited) && negb already.
Definition expectedSlots : Z := if isCancel req then 1 else 2.

(** The decision of a forward is the judge's. *)
Definition judged (f : Forward) : Prop :=
  exists r now, f.(f_attempt) = attemptOf r now /\ f.(f_decision) = judgeUpstreamResult r now f.(f_context) /\
    r.(Committed) = f.(f_result).(Committed) /\ f.(f_context).(ctx_Operation) = req.(operation).

Record core (l : Loop) (fs : list Forward) : Prop := {
  c_it : iterator_ok snapshot query l.(iterator);
  c_tried : l.(iterator).(tried) ⊆ ids;
  c_trace : trace l = (if charged && l.(admitted) then [CostAdmitted] else []) ++ (Forwarded <$> fs);
  c_paid : charged = true -> l.(admitted) = false -> fs = [];
  c_already : already = true -> l.(admitted) = true;
  c_count : l.(forwardAttempts) = Z.of_nat (length fs);
  c_limit : l.(forwardAttempts) <= Z.max 0 req.(forwardAttemptLimit);
  c_slots : Forall (fun f => f.(f_slots) = expectedSlots) fs;
  c_ids : forall f, f ∈ fs -> idOf f ∈ l.(iterator).(tried);
  c_repeats : repeats l.(authRefreshReplayUsed) fs;
  c_judged : Forall judged fs;
}.

(** A pending replay is the one of the last forward. *)
Definition refresh (l : Loop) (fs : list Forward) : Prop :=
  forall selection ref, l.(refreshRetry) = Some (selection, ref) -> l.(authRefreshReplayUsed) = false /\
    exists pre f, fs = pre ++ [f] /\ idOf f = selection.(CredentialID) /\
      f.(f_decision).(d_Retry) = RetryRefreshCredential.

Definition left_ (l : Loop) : nat := size ids - size l.(iterator).(tried).
Definition measure (l : Loop) : nat := 2 * left_ l + match l.(refreshRetry) with Some _ => 1 | None => 0 end.

(** How an iteration that started with measure [n] ends. *)
Definition post (n : nat) (x : Loop * Flow) : Prop :=
  exists fs, core x.1 fs /\ x.1.(held) = ∅ /\ Forall retried (removelast fs) /\
    match x.2 with
    | Continue => refresh x.1 fs /\ Forall retried fs /\ (measure x.1 < n)%nat
    | Break => True
    | Return o => o <> SchedulerPanicked
    end.

(** Between the choice of a candidate and its forward. *)
Record stage (n : nat) (selection : Selection) (l : Loop) (fs : list Forward) : Prop := {
  s_core : core l fs;
  s_retried : Forall retried fs;
  s_refresh : l.(refreshRetry) = None;
  s_budget : (2 * left_ l + (if l.(authRefreshReplayUsed) then 0 else 1) < n)%nat;
  s_guard : l.(forwardAttempts) < req.(forwardAttemptLimit);
  s_tried : selection.(CredentialID) ∈ l.(iterator).(tried);
  s_pick : selection.(CredentialID) ∉ (idOf <$> fs) \/
    l.(authRefreshReplayUsed) = true /\ NoDup (idOf <$> fs) /\
    exists pre f, fs = pre ++ [f] /\ idOf f = selection.(CredentialID) /\
      f.(f_decision).(d_Retry) = RetryRefreshCredential;
}.

(** ** Steps that the invariant does not see *)

Record quiet (l l' : Loop) : Prop := {
  q_it : iterator_ok snapshot query l.(iterator) -> iterator_ok snapshot query l'.(iterator);
  q_tried : l'.(iterator).(tried) = l.(iterator).(tried);
  q_trace : trace l' = trace l;
  q_admitted : l'.(admitted) = l.(admitted);
  q_count : l'.(forwardAttempts) = l.(forwardAttempts);
  q_used : l'.(authRefreshReplayUsed) = l.(authRefreshReplayUsed);
}.

#[local] Instance quiet_preorder : PreOrder quiet.
Proof.
  split; [split; auto|]. intros x y z [] []. split; [auto|etransitivity; eassumption..].
Qed.

Lemma quiet_core l l' fs : quiet l l' -> core l fs -> core l' fs.
Proof. intros [Hi Ht He Ha Hc Hu] []. split; rewrite ?Ht, ?He, ?Ha, ?Hc, ?Hu; auto. Qed.

Lemma quiet_stage n selection l l' fs : quiet l l' -> l'.(refreshRetry) = l.(refreshRetry) ->
  stage n selection l fs -> stage n selection l' fs.
Proof.
  intros Hq Hr []. pose proof Hq as [Hi Ht He Ha Hc Hu].
  split; unfold left_; rewrite ?Ht, ?Hc, ?Hu, ?Hr; eauto using quiet_core.
Qed.

Lemma skip_ok it g : iterator_ok snapshot query it -> iterator_ok snapshot query (SkipGroup it g).
Proof. intros []. unfold SkipGroup. case_if; split; assumption. Qed.

Lemma skip_tried it g : (SkipGroup it g).(tried) = it.(tried).
Proof. unfold SkipGroup. case_if; reflexivity. Qed.

Lemma advance_ok it sel : iterator_ok snapshot query it -> iterator_ok snapshot query (AdvancePriority it sel).
Proof. intros []. unfold AdvancePriority. case_if; split; assumption. Qed.

Lemma advance_tried it sel : (AdvancePriority it sel).(tried) = it.(tried).
Proof. unfold AdvancePriority. case_if; reflexivity. Qed.

Lemma trace_emit e l : trace (emit e l) = trace l ++ (if notable e then [e] else []).
Proof. unfold trace, emit. cbn. rewrite List.filter_app. cbn. case_if; reflexivity. Qed.

Ltac quietly := split; cbn; unfold const; rewrite ?skip_tried, ?advance_tried; auto using skip_ok, advance_ok.

Lemma quiet_emit e l : notable e = false -> quiet l (emit e l).
Proof. intros He. split; try reflexivity; auto. rewrite trace_emit, He. apply app_nil_r. Qed.

Lemma quiet_free slot l : quiet l (freeSlot slot l).
Proof. destruct slot; quietly. Qed.

Lemma quiet_skipGroupIf selection d l : quiet l (skipGroupIf selection d l).
Proof. unfold skipGroupIf. case_if; quietly. Qed.

Lemma quiet_record l : quiet l (recordAttempt l).1.
Proof. quietly. Qed.

Lemma quiet_effect selection ref version d status now l :
  quiet l (applyEffect selection ref version d status now l).
Proof. apply quiet_emit. reflexivity. Qed.

(** ** Slots *)

(** The slots in use are among those the deferred functions free. *)
Definition covered (l : Loop) : Prop :=
  forall s, s ∈ l.(held) -> l.(groupSlot) = Some s \/ l.(attemptSlot) = Some s.

Lemma covered_none l : l.(held) = ∅ -> covered l.
Proof. intros E s. rewrite E. set_solver. Qed.

Lemma free_held slot l : (freeSlot slot l).(held) = l.(held) ∖ (match slot with Some s => {[s]} | None => ∅ end).
Proof. destruct slot; cbn; unfold const; [reflexivity|set_solver]. Qed.

Lemma released l : covered l -> (attemptRelease (groupRelease l)).(held) = ∅ /\ (groupRelease (attemptRelease l)).(held) = ∅.
Proof.
  intros Hc. unfold attemptRelease, groupRelease. rewrite !free_held.
  destruct (groupSlot l) as [g|] eqn:Eg, (attemptSlot l) as [a|] eqn:Ea; cbn [freeSlot]; cbn;
    unfold const; rewrite ?Eg, ?Ea; unfold covered in Hc; rewrite ?Eg, ?Ea in Hc; set_solver.
Qed.

Lemma finish_post n o l fs : core l fs -> Forall retried (removelast fs) -> covered l -> o <> SchedulerPanicked ->
  post n (finish o l).
Proof.
  intros Hc Hr Hs Ho. exists fs. cbn [finish fst snd]. split_and!; [|apply released, Hs|exact Hr|exact Ho].
  eapply quiet_core; [|exact Hc]. unfold attemptRelease, groupRelease. etransitivity; apply quiet_free.
Qed.

Lemma retried_removelast fs : Forall retried fs -> Forall retried (removelast fs).
Proof.
  intros Hf. destruct fs as [|f fs _] using rev_ind; [exact Hf|].
  rewrite removelast_last. apply Forall_app in Hf. apply Hf.
Qed.

(** ** Phases *)

Definition phase {A} (p : Phase A) (P : Loop -> A -> Prop) (Q : Loop * Flow -> Prop) : Prop :=
  match p with (l, inl a) => P l a | (l, inr f) => Q (l, f) end.

Lemma andThen_phase {A} (p : Phase A) k P Q : phase p P Q -> (forall l a, P l a -> Q (k l a)) -> Q (andThen p k).
Proof. destruct p as [l [a|f]]; cbn; auto. Qed.

Lemma stop_phase {A} x (P : Loop -> A -> Prop) (Q : Loop * Flow -> Prop) : Q x -> phase (stop x) P Q.
Proof. destruct x. exact id. Qed.

Lemma stage_flow n selection l fs f : stage n selection l fs -> l.(held) = ∅ ->
  match f with Return _ => False | _ => True end -> post n (l, f).
Proof.
  intros [] Hh Hf. exists fs. cbn [fst snd]. split_and!; auto using retried_removelast. destruct f; [|easy..].
  split; [intros ? ?; congruence|]. split; [assumption|]. unfold measure. rewrite s_refresh0.
  destruct (authRefreshReplayUsed l); lia.
Qed.

Lemma stage_finish n selection l fs o : stage n selection l fs -> covered l -> o <> SchedulerPanicked ->
  post n (finish o l).
Proof. intros [] Hc Ho. eauto using finish_post, retried_removelast. Qed.

(** A candidate is fresh, or it is the one whose refresh was asked for. *)
Lemma choose_phase turn l fs : source_ok turn.(t_source) -> core l fs -> refresh l fs -> l.(held) = ∅ ->
  Forall retried fs -> l.(forwardAttempts) < req.(forwardAttemptLimit) ->
  phase (choose req turn l) (fun l' c => stage (measure l) c.1.1 l' fs /\ l'.(held) = ∅) (post (measure l)).
Proof.
  intros Hok Hc Hr Hh Hf Hg. unfold choose. destruct (refreshRetry l) as [[selection old]|] eqn:Er.
  - destruct (Hr _ _ Er) as (Hu & pre & f & -> & Hid & Hd).
    assert (Hn : NoDup (idOf <$> pre ++ [f])).
    { pose proof (c_repeats _ _ Hc) as Hrep. rewrite Hu in Hrep.
      inversion Hrep as [? Hnd|? ? ? ? Hx]; [exact Hnd|discriminate Hx]. }
    assert (Hm : (2 * left_ l < measure l)%nat) by (unfold measure; rewrite Er; lia).
    assert (Hstop : forall l', core l' (pre ++ [f]) -> l'.(held) = ∅ -> l'.(refreshRetry) = None ->
              left_ l' = left_ l -> post (measure l) (l', Continue)).
    { intros l' Hc' Hh' Hr' Hl. exists (pre ++ [f]). cbn [fst snd]. split_and!; auto using retried_removelast.
      - intros ? ?; congruence.
      - unfold measure at 1. rewrite Hr', Hl. lia. }
    assert (Hq : core (l <| refreshRetry := None |>) (pre ++ [f])) by (eapply quiet_core; [|exact Hc]; quietly).
    destruct (t_current turn) as [ref|]; [|apply stop_phase, Hstop; assumption || reflexivity].
    case_if; [apply stop_phase, Hstop; assumption || reflexivity|].
    destruct (ChargeReplay _ _ _ _ _) as [source charge].
    assert (Hq' : core (l <| refreshRetry := None |> <| authRefreshReplayUsed := true |>) (pre ++ [f])).
    { destruct Hq. split; try assumption. apply repeats_none, Hn. }
    destruct charge; [|apply stop_phase, Hstop; assumption || reflexivity].
    split; [|exact Hh]. split; cbn; auto.
    + unfold left_ in *. cbn. unfold const. rewrite Er. lia.
    + unfold const. rewrite <- Hid. apply (c_ids _ _ Hc). set_solver.
    + right. split; [reflexivity|]. split; [exact Hn|]. exists pre, f. auto.
  - pose proof (Next_no_panic (t_source turn) (iterator l) (t_now turn) (t_now' turn)) as Hp.
    destruct (Next _ _ _ _) as [[source it] [| |c t]] eqn:En; [|exfalso; apply Hp; reflexivity|].
    { apply stop_phase. pose proof (Next_exhausted _ _ _ _ _ _ En) as ->. exists fs. cbn [fst snd].
      split_and!; auto using retried_removelast. eapply quiet_core; [|exact Hc]. quietly. }
    assert (Hst : stage (measure l) (newSelection c t) (l <| iterator := it |>) fs).
    2: { destruct (allowedCredentialRefs _ !! _) as [ref|];
         [case_if; [apply stop_phase; eapply stage_flow; eauto|split; [exact Hst|exact Hh]]
         |apply stop_phase; eapply stage_flow; eauto]. }
    pose proof (Next_tried _ _ _ _ _ _ _ _ En) as Ht. destruct (Next_selected _ _ _ _ _ _ _ _ Hok En) as [Hfresh Hal].
    apply allowed_spec in Hal as [Hal _].
    pose proof (Hal ids ltac:(rewrite (iok_ids _ _ _ (c_it _ _ Hc)); exact Hids)) as Hin.
    assert (Hsz : size (tried it) = S (size (tried (iterator l)))).
    { rewrite Ht, size_union by set_solver. rewrite size_singleton. reflexivity. }
    assert (Hle : (size (tried it) <= size ids)%nat).
    { apply subseteq_size. rewrite Ht. pose proof (c_tried _ _ Hc). set_solver. }
    pose proof (Next_ok (t_source turn) snapshot query (iterator l) (t_now turn) (t_now' turn) (c_it _ _ Hc)) as Hit.
    rewrite En in Hit. cbn in Hit.
    split; cbn; unfold const; auto.
    + destruct Hc. split; cbn; unfold const; auto; rewrite Ht; [set_solver|].
      intros f Hx. apply elem_of_union_r, c_ids0, Hx.
    + unfold measure, left_. cbn. unfold const. rewrite Er. destruct (authRefreshReplayUsed l); lia.
    + rewrite Ht. set_solver.
    + left. intros Hx. apply list_elem_of_fmap in Hx as (f & E & Hx). apply Hfresh. rewrite E.
      apply (c_ids _ _ Hc), Hx.
Qed.

(** Steps before the slots are taken. *)
Definition idle (n : nat) (selection : Selection) (fs : list Forward) (l : Loop) : Prop :=
  stage n selection l fs /\ l.(held) = ∅.

Lemma quiet_idle n selection fs l l' : quiet l l' -> l'.(refreshRetry) = l.(refreshRetry) -> l'.(held) = l.(held) ->
  idle n selection fs l -> idle n selection fs l'.
Proof. intros Hq Hr Hh [Hs He]. split; [eauto using quiet_stage|congruence]. Qed.

Lemma idle_stop {A} n selection fs l f (P : Loop -> A -> Prop) : idle n selection fs l ->
  match f with Return _ => False | _ => True end -> phase (stop (l, f)) P (post n).
Proof. intros [Hs Hh] Hf. apply stop_phase. eauto using stage_flow. Qed.

Lemma idle_finish {A} n selection fs l o (P : Loop -> A -> Prop) : idle n selection fs l -> o <> SchedulerPanicked ->
  phase (stop (finish o l)) P (post n).
Proof. intros [Hs Hh] Ho. apply stop_phase. eauto using stage_finish, covered_none. Qed.

Lemma prepareRequest_idle n selection fs l : idle n selection fs l -> idle n selection fs (prepareRequest req selection l).1.
Proof.
  apply quiet_idle; unfold prepareRequest; destruct (cachedPrepared l); try case_if; try reflexivity; quietly.
Qed.

Lemma failure_idle {A} n selection fs code summary scope (turn : Turn R) l (P : Loop -> A -> Prop) : idle n selection fs l ->
  phase (stop (recordCandidatePreparationFailure req selection code summary scope turn l)) P (post n).
Proof.
  intros Hi. unfold recordCandidatePreparationFailure. set (result := mkUpstream _ _ _ _ _ _ _ _ _ _ _ _ _).
  set (d := judgeUpstreamResult _ _ _). cbn [recordAttempt]. cbn zeta.
  eapply idle_stop; [|case_if; exact I].
  match goal with |- idle _ _ _ (set lastTransport _ (skipGroupIf _ _ ?x)) => assert (Hx : idle n selection fs x) end.
  { eapply quiet_idle; [apply quiet_effect|reflexivity..|]. eapply quiet_idle; [| | |exact Hi]; [quietly|reflexivity..]. }
  revert Hx. unfold skipGroupIf. case_if; apply quiet_idle; try reflexivity; quietly.
Qed.

Lemma prepare_phase n selection fs (turn : Turn R) ref l : idle n selection fs l ->
  phase (prepareCandidate req turn selection ref l) (fun l' _ => idle n selection fs l') (post n).
Proof.
  intros Hi. unfold prepareCandidate. case_if; [eapply idle_stop; eauto|].
  pose proof (prepareRequest_idle _ _ _ _ Hi) as Hp. destruct (prepareRequest req selection l) as [l1 [body|[| |]]]; cbn in Hp.
  2: eapply idle_finish; [eassumption|discriminate].
  2-3: eapply idle_stop; [|exact I]; eapply quiet_idle; [| | |exact Hp]; [quietly|reflexivity..].
  repeat (case_if; [try case_if; eapply failure_idle; eassumption|]). exact Hp.
Qed.

(** ** Admission to the cost limits *)

Lemma core_charge l fs : core l fs -> req.(limited) = true -> l.(admitted) = false -> core (markAdmitted l) fs.
Proof.
  intros Hc Hl Ha. pose proof Hc as [].
  assert (Hy : already = false) by (destruct already; [discriminate (eq_trans (eq_sym Ha) (c_already0 eq_refl))|reflexivity]).
  assert (Hch : charged = true) by (unfold charged; rewrite Hl, Hy; reflexivity).
  pose proof (c_paid0 Hch Ha) as ->.
  assert (Ht : trace (markAdmitted l) = trace l ++ [CostAdmitted]) by exact (trace_emit CostAdmitted (l <| admitted := true |>)).
  split; try assumption; try reflexivity.
  rewrite Ht, c_trace0, Ha, Hch. reflexivity.
Qed.

Lemma stage_charge n selection l fs : stage n selection l fs -> req.(limited) = true -> l.(admitted) = false ->
  stage n selection (markAdmitted l) fs.
Proof. intros [] Hl Ha. split; auto using core_charge. Qed.

Lemma charge_guard l : negb req.(limited) || l.(admitted) = false -> req.(limited) = true /\ l.(admitted) = false.
Proof. destruct (limited req), (admitted l); easy. Qed.

Lemma audit_phase n selection fs (turn : Turn R) l : idle n selection fs l ->
  phase (checkRequestAudit req turn l) (fun l' _ => idle n selection fs l') (post n).
Proof.
  intros Hi. unfold checkRequestAudit. case_if; [exact Hi|].
  assert (Ha : idle n selection fs (admitAutoQuota req turn l).1).
  { unfold admitAutoQuota. destruct (_ || _) eqn:Eg; [exact Hi|]. apply charge_guard in Eg as [? ?].
    destruct (t_admit turn); [|exact Hi..]. destruct Hi. split; [apply stage_charge; assumption|assumption]. }
  destruct (t_auditAdmits turn); [destruct (admitAutoQuota req turn l) as [l1 [r|]]|];
    destruct (t_auditFailure turn); try exact Ha; try exact Hi; eapply idle_finish; eassumption || discriminate.
Qed.

(** ** Taking the slots *)

Definition grouped (n : nat) (selection : Selection) (fs : list Forward) (l : Loop) : Prop :=
  stage n selection l fs /\
  if isCancel req then l.(held) = ∅
  else exists g, l.(groupSlot) = Some g /\ l.(held) = {[g]} /\ (g < l.(slots))%nat.

Definition ready (n : nat) (selection : Selection) (fs : list Forward) (l : Loop) : Prop :=
  stage n selection l fs /\ covered l /\ Z.of_nat (size l.(held)) = expectedSlots.

Lemma group_phase n selection fs (turn : Turn R) l : idle n selection fs l ->
  phase (acquireGroup req turn l) (fun l' _ => grouped n selection fs l') (post n).
Proof.
  intros Hi. unfold acquireGroup, grouped. destruct (isCancel req); [exact Hi|].
  destruct (t_group turn); [|eapply idle_finish; [exact Hi|discriminate]..].
  destruct Hi as [Hs Hh]. split.
  - eapply quiet_stage; [| |exact Hs]; [quietly|reflexivity].
  - exists (slots l). cbn. unfold const. rewrite Hh. split_and!; [reflexivity|set_solver|lia].
Qed.

Lemma grouped_covered n selection fs l : grouped n selection fs l -> covered l.
Proof.
  intros [_ Hg] s. destruct (isCancel req); [rewrite Hg; set_solver|].
  destruct Hg as (g & E & -> & _). rewrite E. set_solver.
Qed.

Lemma credential_phase n selection fs (turn : Turn R) l : grouped n selection fs l ->
  phase (acquireCredential turn l) (fun l' _ => ready n selection fs l') (post n).
Proof.
  intros Hg. pose proof (grouped_covered _ _ _ _ Hg) as Hc. destruct Hg as [Hs Hg]. unfold acquireCredential.
  destruct (t_credential turn).
  - split; [eapply quiet_stage; [| |exact Hs]; [quietly|reflexivity]|]. unfold covered, expectedSlots. cbn. unfold const.
    destruct (isCancel req).
    + rewrite Hg. split; [set_solver|]. rewrite union_empty_r_L, size_singleton. reflexivity.
    + destruct Hg as (g & E & -> & Hlt). rewrite E. split; [set_solver|].
      rewrite size_union by (apply disjoint_singleton_l; rewrite elem_of_singleton; lia).
      rewrite !size_singleton. reflexivity.
  - apply stop_phase. eapply stage_flow; [|..|exact I].
    + apply (quiet_stage _ _ l); [|unfold groupRelease; destruct (groupSlot l); reflexivity|exact Hs].
      transitivity (groupRelease l); [apply quiet_free|quietly].
    + cbn. unfold const, groupRelease. rewrite free_held. destruct (isCancel req); [rewrite Hg; set_solver|].
      destruct Hg as (g & -> & -> & _). set_solver.
  - apply stop_phase. eapply stage_finish; [exact Hs|exact Hc|discriminate].
Qed.

Definition paid (l : Loop) : Prop := charged = true -> l.(admitted) = true.

Lemma cost_phase n selection fs (turn : Turn R) l : ready n selection fs l ->
  phase (admitCost req turn l) (fun l' _ => ready n selection fs l' /\ paid l') (post n).
Proof.
  intros Hr. unfold admitCost, paid, charged. destruct (_ || _) eqn:E.
  - split; [exact Hr|]. revert E. destruct (limited req); cbn; [auto|discriminate].
  - apply charge_guard in E as [Hl Ha]. destruct Hr as (Hs & Hc & Hn).
    destruct (t_admit turn); [|apply stop_phase; eapply stage_finish; [exact Hs|exact Hc|discriminate]..].
    split; [|reflexivity]. split; [apply stage_charge; assumption|]. split; assumption.
Qed.

(** ** The exchange *)

(** After a forward, before its outcome is settled. *)
Record sent (n : nat) (selection : Selection) (fs : list Forward) (f : Forward) (l : Loop) : Prop := {
  x_core : core l (fs ++ [f]);
  x_retried : Forall retried fs;
  x_refresh : l.(refreshRetry) = None;
  x_budget : (2 * left_ l + (if l.(authRefreshReplayUsed) then 0 else 1) < n)%nat;
  x_held : l.(held) = ∅;
  x_id : idOf f = selection.(CredentialID);
}.

Lemma core_forward n selection fs l f l' : ready n selection fs l -> paid l -> judged f -> idOf f = selection.(CredentialID) ->
  f.(f_slots) = Z.of_nat (size l.(held)) ->
  l'.(iterator) = l.(iterator) -> l'.(admitted) = l.(admitted) -> l'.(forwardAttempts) = l.(forwardAttempts) + 1 ->
  l'.(authRefreshReplayUsed) = l.(authRefreshReplayUsed) -> trace l' = trace l ++ [Forwarded f] -> core l' (fs ++ [f]).
Proof.
  intros ([[] _ _ _ Hg Ht Hp] & _ & Hn) Hpaid Hj Hid Hsl Ei Ea Ec Eu Et.
  split; rewrite ?Ei, ?Ea, ?Ec, ?Eu, ?Et; auto.
  - rewrite c_trace0, <- app_assoc, fmap_app. reflexivity.
  - intros Hch Ha. rewrite (Hpaid Hch) in Ha. discriminate Ha.
  - rewrite length_app. cbn. lia.
  - lia.
  - apply Forall_app. split; [assumption|]. constructor; [congruence|constructor].
  - intros g Hx. apply elem_of_app in Hx as [Hx|Hx]; [auto|]. apply list_elem_of_singleton in Hx as ->. congruence.
  - destruct Hp as [Hf|(Hu & Hnd & pre & g & -> & Hg' & Hd)]; [apply repeats_fresh; congruence|].
    rewrite Hu. apply repeats_replay; [exact Hnd|congruence|exact Hd].
  - apply Forall_app. split; [assumption|]. constructor; [assumption|constructor].
Qed.

Lemma forward_sent n selection fs (turn : Turn R) ref force body l : ready n selection fs l -> paid l ->
  let '(l', result, d) := forward req turn selection ref force body l in
  exists f, sent n selection fs f l' /\ f.(f_result) = result /\ f.(f_decision) = d.
Proof.
  intros Hr Hp. unfold forward. set (l1 := l <| attemptSequence := _ |> <| forwardAttempts := _ |>).
  set (f := mkForward _ _ _ _ _ _ _ _ _). exists f. split; [|split; reflexivity].
  set (l2 := groupRelease (attemptRelease l1)).
  assert (Hq : quiet l1 l2) by (etransitivity; apply quiet_free).
  assert (Hf : l2.(refreshRetry) = l.(refreshRetry)).
  { unfold l2, groupRelease, attemptRelease. destruct (attemptSlot l1); cbn [freeSlot];
      destruct (groupSlot _); reflexivity. }
  assert (Hi : l2.(iterator) = l.(iterator)).
  { unfold l2, groupRelease, attemptRelease. destruct (attemptSlot l1); cbn [freeSlot];
      destruct (groupSlot _); reflexivity. }
  assert (Hj : judged f).
  { exists (resultForDecision turn (receive req turn)), turn.(t_attemptNow). split_and!; try reflexivity.
    unfold resultForDecision. case_if; reflexivity. }
  pose proof Hq as [_ _ Ht Ha Hc Hu]. destruct Hr as (Hs & Hcov & Hn). split.
  - apply (core_forward n selection fs l); auto; [split; auto|]. rewrite trace_emit, Ht. reflexivity.
  - apply Hs.
  - cbn. unfold const. rewrite Hf. apply Hs.
  - unfold left_. cbn. rewrite Hi, Hu. apply Hs.
  - apply (released l1), Hcov.
  - reflexivity.
Qed.

(** ** Settling an outcome *)

Lemma finish_sent n fs f o l : core l (fs ++ [f]) -> Forall retried fs -> l.(held) = ∅ -> o <> SchedulerPanicked ->
  post n (finish o l).
Proof. intros Hc Hr Hh Ho. apply (finish_post n o l (fs ++ [f])); [|rewrite removelast_last| |]; auto using covered_none. Qed.

(** What holds when the outcome is not final. *)
Record settled (n : nat) (fs : list Forward) (f : Forward) (l : Loop) : Prop := {
  y_core : core l (fs ++ [f]);
  y_retried : Forall retried fs;
  y_refresh : refresh l (fs ++ [f]);
  y_measure : (measure l < n)%nat;
  y_held : l.(held) = ∅;
}.

Lemma quiet_settled n fs f l l' : quiet l l' -> l'.(refreshRetry) = l.(refreshRetry) -> l'.(held) = l.(held) ->
  settled n fs f l -> settled n fs f l'.
Proof.
  intros Hq Hr Hh []. pose proof Hq as [_ Ht _ _ _ Hu].
  split; unfold refresh, measure, left_ in *; rewrite ?Ht, ?Hr, ?Hh, ?Hu; eauto using quiet_core.
Qed.

Lemma continue_settled n fs f l : settled n fs f l -> retried f -> post n (l, Continue).
Proof.
  intros [] Hf. exists (fs ++ [f]). cbn [fst snd]. rewrite removelast_last.
  split_and!; auto. apply Forall_app. split; [assumption|]. constructor; [exact Hf|constructor].
Qed.

Lemma finish_settled n fs f o l : settled n fs f l -> o <> SchedulerPanicked -> post n (finish o l).
Proof. intros [] Ho. eauto using finish_sent. Qed.

Lemma wantsRetry_not_none d : wantsRetry d = true -> d.(d_Retry) <> RetryNone.
Proof. unfold wantsRetry. intros Hw E. rewrite E in Hw. discriminate Hw. Qed.

Lemma deliver_post n selection fs f (turn : Turn R) ref attempt l : settled n fs f l ->
  f.(f_result).(Committed) = false -> post n (deliver req turn selection ref f.(f_result) f.(f_decision) attempt l).
Proof.
  intros Hs Hc. unfold deliver.
  assert (Hgo : forall l', quiet l l' -> l'.(refreshRetry) = l.(refreshRetry) -> l'.(held) = l.(held) ->
            wantsRetry (f_decision f) = true -> post n (l', Continue)).
  { intros l' Hq Hr Hh Hw. apply (continue_settled n fs f); [eauto using quiet_settled|].
    split; [exact Hc|apply wantsRetry_not_none, Hw]. }
  assert (Hend : forall l' o, quiet l l' -> l'.(held) = l.(held) -> o <> SchedulerPanicked -> post n (finish o l')).
  { intros l' o Hq Hh Ho. destruct Hs. apply (finish_sent n fs f); [eauto using quiet_core|assumption|congruence|exact Ho]. }
  case_if; [apply Hend; easy|]. destruct (wantsRetry (f_decision f)) eqn:Hw; cbn [andb].
  - case_if; [case_if; [apply Hgo; [quietly|easy..]|apply Hend; easy]|].
    case_if; [apply Hgo; [quietly|easy..]|]. case_if; [apply Hgo; [quietly|easy..]|].
    case_if; [apply Hend; easy|]. case_if; apply Hgo; try easy; quietly.
  - case_if; [apply Hend; easy|]. case_if; [apply Hend; easy|]. case_if; [|case_if; apply Hend; easy].
    case_if; apply Hend; try easy. transitivity (l <| lastResponse := Some attempt |>); [quietly|].
    apply quiet_emit. reflexivity.
Qed.

(** A refresh is remembered at most until the next iteration. *)
Lemma remember_settled n selection fs f ref l : sent n selection fs f l -> f.(f_decision).(d_Retry) = RetryRefreshCredential ->
  l.(authRefreshReplayUsed) = false -> settled n fs f (l <| refreshRetry := Some (selection, ref) |>).
Proof.
  intros [] Hd Hu. split; auto.
  - eapply quiet_core; [|exact x_core0]. quietly.
  - intros s r. cbn. unfold const. intros [= <- <-]. split; [exact Hu|]. exists fs, f. auto.
  - unfold measure, left_ in *. cbn. unfold const. rewrite Hu in x_budget0. lia.
Qed.

Lemma sent_settled n selection fs f l : sent n selection fs f l -> settled n fs f l.
Proof.
  intros []. split; auto.
  - intros s r E. congruence.
  - unfold measure. rewrite x_refresh0. revert x_budget0. case_if; lia.
Qed.

Lemma quiet_sent n selection fs f l l' : quiet l l' -> l'.(refreshRetry) = l.(refreshRetry) -> l'.(held) = l.(held) ->
  sent n selection fs f l -> sent n selection fs f l'.
Proof.
  intros Hq Hr Hh []. pose proof Hq as [_ Ht _ _ _ Hu].
  split; unfold left_ in *; rewrite ?Ht, ?Hr, ?Hh, ?Hu; eauto using quiet_core.
Qed.

Lemma sent_finish n selection fs f o l : sent n selection fs f l -> o <> SchedulerPanicked -> post n (finish o l).
Proof. intros []. eauto using finish_sent. Qed.

Lemma settle_post n selection fs f (turn : Turn R) ref l : sent n selection fs f l ->
  post n (settle req turn selection ref f.(f_result) f.(f_decision) l).
Proof.
  intros Hs. unfold settle.
  assert (Hrec : sent n selection fs f (recordAttempt l).1) by (revert Hs; apply quiet_sent; try easy; apply quiet_record).
  assert (Hem : forall e l', notable e = false -> sent n selection fs f l' -> sent n selection fs f (emit e l')).
  { intros e l' He. apply quiet_sent; try easy. apply quiet_emit, He. }
  destruct (Committed _) eqn:Hc.
  { unfold settleCommitted. cbn [recordAttempt]. eapply sent_finish; [|discriminate].
    case_if; [case_if|]; repeat (apply Hem; [reflexivity|]); exact Hrec. }
  case_if.
  { cbn [recordAttempt]. eapply sent_finish; [|discriminate]. case_if; [apply Hem; [reflexivity|]|]; exact Hrec. }
  match goal with |- context [recordAttempt ?x] => set (l1 := x); assert (Hl1 : sent n selection fs f l1) end.
  { unfold l1. case_if; [apply Hem; [reflexivity|]|]; exact Hs. }
  clearbody l1. cbn [recordAttempt]. cbn zeta.
  set (l2 := applyEffect _ _ _ _ _ _ _).
  assert (Hl2 : sent n selection fs f l2).
  { unfold l2. apply Hem; [reflexivity|]. revert Hl1. apply quiet_sent; try easy; quietly. }
  clearbody l2. match goal with |- context [skipGroupIf _ _ ?x] => set (l3 := x) end.
  apply (deliver_post n selection fs f); [|exact Hc].
  assert (Hl3 : settled n fs f l3).
  { unfold l3. match goal with |- context [if wantsRetry _ then set iterator _ ?x else _] => assert (Hx : settled n fs f x) end.
    { destruct (_ && _) eqn:Ex; [|eauto using sent_settled].
      apply andb_true_iff in Ex as [Ex _]. apply andb_true_iff in Ex as [Ed Eu].
      apply bool_decide_eq_true in Ed. apply negb_true_iff in Eu. eapply remember_settled; eauto. }
    case_if; [|exact Hx]. revert Hx. apply quiet_settled; try easy. quietly. }
  revert Hl3. apply quiet_settled; [apply quiet_skipGroupIf|unfold skipGroupIf; case_if; reflexivity..].
Qed.

(** ** An iteration and the loop *)

Lemma iteration_post (turn : Turn R) l fs : source_ok turn.(t_source) -> core l fs -> refresh l fs -> l.(held) = ∅ ->
  Forall retried fs -> l.(forwardAttempts) < req.(forwardAttemptLimit) -> post (measure l) (iteration req turn l).
Proof.
  intros Hok Hc Hr Hh Hf Hg. unfold iteration. case_if.
  { apply (finish_post _ _ _ fs); auto using retried_removelast, covered_none. }
  apply (andThen_phase _ _ _ _ (choose_phase turn l fs Hok Hc Hr Hh Hf Hg)).
  intros l1 [[selection ref] force] Hp1. cbn [fst] in Hp1.
  apply (andThen_phase _ _ _ _ (prepare_phase _ _ _ turn ref _ Hp1)). intros l2 body Hp2.
  apply (andThen_phase _ _ _ _ (audit_phase _ _ _ turn _ Hp2)). intros l3 [] Hp3.
  case_if; [destruct Hp3; eapply stage_finish; [eassumption|apply covered_none; assumption|discriminate]|].
  apply (andThen_phase _ _ _ _ (group_phase _ _ _ turn _ Hp3)). intros l4 [] Hp4.
  apply (andThen_phase _ _ _ _ (credential_phase _ _ _ turn _ Hp4)). intros l5 [] Hp5.
  apply (andThen_phase _ _ _ _ (cost_phase _ _ _ turn _ Hp5)). intros l6 [] [Hp6 Hp].
  pose proof (forward_sent _ _ _ turn ref force body _ Hp6 Hp) as Hx.
  destruct (forward _ _ _ _ _ _ _) as [[l7 result] d]. destruct Hx as (f & Hx & <- & <-).
  apply (settle_post _ _ fs f), Hx.
Qed.

Definition ended (l : Loop) (fs : list Forward) : Prop := core l fs /\ l.(held) = ∅ /\ Forall retried (removelast fs).

Lemma ended_release l fs : core l fs -> l.(held) = ∅ -> Forall retried (removelast fs) ->
  ended (attemptRelease (groupRelease l)) fs.
Proof.
  intros Hc Hh Hr. split; [|split; [apply released, covered_none, Hh|exact Hr]].
  eapply quiet_core; [|exact Hc]. unfold attemptRelease, groupRelease. etransitivity; apply quiet_free.
Qed.

Lemma conclude_no_panic (turn : Turn R) l : conclude turn l <> SchedulerPanicked.
Proof.
  unfold conclude. repeat match goal with |- context [match ?x with Some _ => _ | None => _ end] => destruct x end;
    repeat case_if; discriminate.
Qed.

Lemma attempts_end fuel (turns : nat -> Turn R) : (forall i, source_ok (turns i).(t_source)) -> forall i l fs,
  core l fs -> refresh l fs -> l.(held) = ∅ -> Forall retried fs -> (measure l < fuel)%nat ->
  exists l' o fs', attempts req fuel turns i l = Some (l', o) /\ ended l' fs' /\ o <> SchedulerPanicked.
Proof.
  intros Hok. induction fuel as [|fuel IH]; intros i l fs Hc Hr Hh Hf Hm; [lia|]. cbn [attempts].
  destruct (_ <? _) eqn:Hg.
  - apply Z.ltb_lt in Hg. destruct (iteration_post (turns i) l fs (Hok i) Hc Hr Hh Hf Hg) as (fs' & Hc' & Hh' & Hl & Hx).
    destruct (iteration req (turns i) l) as [l' [| |o]]; cbn [fst snd] in *.
    + destruct Hx as (Hr' & Hf' & Hlt). apply (IH _ _ fs'); auto. lia.
    + eexists _, _, fs'. split; [reflexivity|]. auto using ended_release, conclude_no_panic.
    + exists l', o, fs'. split; [reflexivity|]. split; [split; auto|exact Hx].
  - eexists _, _, fs. split; [reflexivity|]. auto using ended_release, conclude_no_panic, retried_removelast.
Qed.

Lemma execute_end fuel (turns : nat -> Turn R) cipher : (forall i, source_ok (turns i).(t_source)) ->
  (2 * size ids < fuel)%nat ->
  exists l o fs, executeAttempts req fuel turns cipher already (newIterator snapshot query) = Some (l, o) /\ ended l fs /\
    o <> SchedulerPanicked.
Proof.
  intros Hok Hfuel. unfold executeAttempts.
  assert (Hc : core (newLoop (newIterator snapshot query) already) []).
  { split; cbn; auto using Forall_nil_2; try set_solver; try lia.
    - apply newIterator_ok.
    - unfold newIterator. destruct (filterTargetsWithReason _ _). cbn. set_solver.
    - unfold charged. destruct (limited req), already; reflexivity.
    - apply repeats_none, NoDup_nil_2. }
  destruct cipher.
  - eapply attempts_end; eauto; try (intros ? ?; discriminate).
    unfold measure, left_. cbn. lia.
  - eexists _, _, []. split; [reflexivity|]. split; [|discriminate]. split; [exact Hc|]. split; [reflexivity|constructor].
Qed.

End Run.

(** ** The guarantees *)

Definition forwardsOf (es : list Event) : list Forward :=
  omap (fun e => match e with Forwarded f => Some f | _ => None end) es.

(** The credentials a request may use. *)
Definition candidates (refs : gmap Z CredentialRef) (binding : option Ownership.ResponseBinding) : gset Z :=
  match binding with Some b => {[b.(Ownership.rb_CredentialID)]} | None => dom refs end.

Lemma requestQuery_ids query refs binding preferred :
  (requestQuery query refs binding preferred).(AllowedCredentialIDs) = Some (candidates refs binding).
Proof. destruct binding; reflexivity. Qed.

Lemma forwardsOf_trace l : forwardsOf l.(events) = forwardsOf (trace l).
Proof. unfold trace, forwardsOf. induction (events l) as [|[] es IH]; cbn; congruence. Qed.

Lemma forwardsOf_forwarded fs : forwardsOf (Forwarded <$> fs) = fs.
Proof. unfold forwardsOf. induction fs as [|f fs IH]; cbn; congruence. Qed.

Lemma forwardsOf_core `{TimeParsers} req snapshot query ids already l fs :
  core req snapshot query ids already l fs -> forwardsOf l.(events) = fs.
Proof.
  intros Hc. rewrite forwardsOf_trace, (c_trace _ _ _ _ _ _ _ Hc). unfold forwardsOf. rewrite omap_app.
  fold (forwardsOf (Forwarded <$> fs)). rewrite forwardsOf_forwarded. case_if; reflexivity.
Qed.

(** A repetition adds at most one forward to the distinct credentials. *)
Lemma repeats_length u fs (ids : gset Z) : repeats u fs -> (forall f, f ∈ fs -> idOf f ∈ ids) ->
  (length fs <= size ids + 1)%nat.
Proof.
  intros Hr Hin.
  assert (Hd : forall gs, NoDup (idOf <$> gs) -> (forall f, f ∈ gs -> idOf f ∈ ids) -> (length gs <= size ids)%nat).
  { intros gs Hn Hg. rewrite <- (length_fmap idOf gs), <- (size_list_to_set (C := gset Z) _ Hn). apply subseteq_size.
    intros x Hx. apply elem_of_list_to_set, list_elem_of_fmap in Hx as (f & -> & Hf). auto. }
  inversion Hr as [? Hn|pre f f' post_ _ _ _ Hn]; subst.
  - pose proof (Hd fs Hn Hin). lia.
  - specialize (Hd (pre ++ f :: post_) Hn). rewrite length_app in *. cbn in *.
    assert (length pre + S (length post_) <= size ids)%nat; [|lia]. apply Hd. intros g Hg. apply Hin. set_solver.
Qed.

(** The judge's decision on a forward that was retried is safe. *)
Lemma retried_safe `{TimeParsers} req f : judged req f -> retried f ->
  replay_safe f.(f_attempt) f.(f_context) f.(f_decision).(d_Retry) /\ f.(f_attempt).(DownstreamCommitted) = false.
Proof.
  intros (r & now & Ea & Ed & Ec & _) [Hc Hn].
  assert (Er : d_Retry (f_decision f) = d_Retry (JudgeExecution (f_attempt f) (f_context f))).
  { rewrite Ed, Ea. unfold judgeUpstreamResult. case_if; reflexivity. }
  rewrite Er in *. split; [apply retry_replay_safe, Hn|].
  rewrite Ea. unfold attemptOf. destruct (decisionEvidence r). cbn. congruence.
Qed.

Section Guarantees.
Context `{TimeParsers} {R : Type} `{SourceLaws R}.

(** [C4] A request ends.  Whatever the upstreams answer and however the registry changes
    between attempts, the loop returns after at most twice as many iterations as there
    are credentials the request may use, plus one, and never hits an inconsistent
    scheduler state.  It forwards at most [forwardAttemptLimit] times, only to those
    credentials, and to none of them twice, except to one, directly after the judge
    asked for its refresh. *)
Theorem requests_end req snapshot query refs binding preferred already fuel (turns : nat -> Turn R) cipher :
  (forall i, source_ok (turns i).(t_source)) -> (2 * size (candidates refs binding) < fuel)%nat ->
  exists l o,
    executeAttempts req fuel turns cipher already (newIterator snapshot (requestQuery query refs binding preferred)) =
      Some (l, o) /\
    o <> SchedulerPanicked /\
    let fs := forwardsOf l.(events) in
    Z.of_nat (length fs) <= Z.max 0 req.(forwardAttemptLimit) /\
    (length fs <= size (candidates refs binding) + 1)%nat /\
    (forall f, f ∈ fs -> idOf f ∈ candidates refs binding) /\
    repeats true fs.
Proof.
  intros Hok Hfuel.
  destruct (execute_end req snapshot _ _ already (requestQuery_ids query refs binding preferred) fuel turns cipher Hok Hfuel)
    as (l & o & fs & Hrun & (Hc & _) & Ho).
  exists l, o. split; [exact Hrun|]. split; [exact Ho|]. rewrite (forwardsOf_core _ _ _ _ _ _ _ Hc). cbn zeta.
  pose proof Hc as [].
  assert (Hin : forall f, f ∈ fs -> idOf f ∈ candidates refs binding) by (intros f Hf; apply c_tried0, c_ids0, Hf).
  split_and!; [lia|eauto using repeats_length|exact Hin|].
  inversion c_repeats0; [apply repeats_none|apply repeats_once]; auto.
Qed.

(** [C3] A request is sent again only where that is safe.  When a request was forwarded
    after the forward [f], nothing of [f]'s response had reached the client, and the
    judge's conditions for a replay hold of [f]: the client was still there, and either
    the request had not been sent, or the upstream completed without content, or the
    failure is not one of unknown outcome and, for operations billed once, an explicit
    rejection. *)
Theorem replays_are_safe req snapshot query refs binding preferred already fuel (turns : nat -> Turn R) cipher l o
    pre f f' post :
  (forall i, source_ok (turns i).(t_source)) -> (2 * size (candidates refs binding) < fuel)%nat ->
  executeAttempts req fuel turns cipher already (newIterator snapshot (requestQuery query refs binding preferred)) =
    Some (l, o) ->
  forwardsOf l.(events) = pre ++ f :: f' :: post ->
  f.(f_result).(Committed) = false /\ f.(f_context).(ctx_Operation) = req.(operation) /\
  f.(f_attempt).(DownstreamCommitted) = false /\
  replay_safe f.(f_attempt) f.(f_context) f.(f_decision).(d_Retry).
Proof.
  intros Hok Hfuel Hrun Hfs.
  destruct (execute_end req snapshot _ _ already (requestQuery_ids query refs binding preferred) fuel turns cipher Hok Hfuel)
    as (l1 & o1 & fs & Hrun1 & (Hc & _ & Hl) & _).
  rewrite Hrun in Hrun1. injection Hrun1 as <- <-. rewrite (forwardsOf_core _ _ _ _ _ _ _ Hc) in Hfs. subst fs.
  assert (Hr : retried f).
  { rewrite removelast_app in Hl by discriminate. apply Forall_app in Hl as [_ Hl]. inversion Hl; assumption. }
  pose proof (c_judged _ _ _ _ _ _ _ Hc) as Hj. apply Forall_app in Hj as [_ Hj]. inversion Hj as [|? ? Hf _]; subst.
  destruct (retried_safe req f Hf Hr) as [Hs Hd]. destruct Hf as (_ & _ & _ & _ & _ & Hop). destruct Hr. auto.
Qed.


End Guarantees.

(** ** An example: the first upstream cannot be reached, the second one answers *)

Import Registry RegistryFacts RegistryProps.

Definition sampleRefs : gmap Z CredentialRef := captureRefs (CaptureActiveCredentialRefs sampleSource [8; 9]).
Definition unreachable : UpstreamResult :=
  mkUpstream 0 [] "" "" (Some (mkError [] None)) false false false false noStream DispatchNotSent false
    (Some (evidence ErrorKindTransport ErrorOriginUpstream ErrorScopeNone 0 "dial" "" ReplaySafetyNone)).
Definition answer : UpstreamResult :=
  mkUpstream 200 [] "{}" "" None true false false false noStream DispatchMaybeSent true None.
Definition sampleTurns (i : nat) : Turn CredentialRegistry :=
  mkTurn _ Running sampleSource 2000 2000 None true true true true false None QuotaAllowed Running GroupTaken CredentialTaken
    (match i with O => unreachable | S _ => answer end) None Running 2000 true.
Definition sampleRequest : Request :=
  mkRequest 3 sampleRefs OperationChatCompletion false "POST" false (fun _ => "apikey"%string) (fun _ => Ok "{}"%string) true.
Definition sampleRun : option (Loop * Outcome) :=
  @executeAttempts integerOnlyParsers CredentialRegistry _ sampleRequest 7 sampleTurns true false
    (newIterator (Some sampleConfig) (requestQuery sampleQuery sampleRefs None 0)).
Definition sampleLoop : Loop := default (newLoop sampleIterator false) (fst <$> sampleRun).
Definition sampleOutcome : Outcome := default CompleteCostLimit (snd <$> sampleRun).
Definition sampleForward (i : nat) : Forward :=
  List.nth i (forwardsOf sampleLoop.(events))
    (mkForward (newSelection (metaOf (sampleEntry 1 9)) sampleChosen) zeroRef false "" 0 unreachable (attemptOf unreachable 0)
       (mkContext 0 false "" OperationChatCompletion) (judgeUpstreamResult (H := integerOnlyParsers) unreachable 0
       (mkContext 0 false "" OperationChatCompletion))).

Lemma sample_turns_ok i : source_ok (R := CredentialRegistry) (sampleTurns i).(t_source).
Proof. exact (rok_structure _ sample_source_ok). Qed.

Lemma sample_runs :
  @executeAttempts integerOnlyParsers CredentialRegistry _ sampleRequest 7 sampleTurns true false
    (newIterator (Some sampleConfig) (requestQuery sampleQuery sampleRefs None 0)) = Some (sampleLoop, sampleOutcome).
Proof. vm_compute. reflexivity. Qed.

Lemma sample_forwards : forwardsOf sampleLoop.(events) = [] ++ sampleForward 0 :: sampleForward 1 :: [].
Proof. vm_compute. reflexivity. Qed.

Lemma requests_end_witness :
  exists l o, sampleRun = Some (l, o) /\ map idOf (forwardsOf sampleLoop.(events)) = [1; 3] /\
    (length (forwardsOf l.(events)) <= 4)%nat.
Proof.
  destruct (requests_end (H := integerOnlyParsers) (R := CredentialRegistry) sampleRequest (Some sampleConfig) sampleQuery
    sampleRefs None 0 false 7 sampleTurns true sample_turns_ok ltac:(apply Nat.ltb_lt; vm_compute; reflexivity))
    as (l & o & Hrun & _ & _ & Hlen & _).
  exists l, o. split; [exact Hrun|]. split; [vm_compute; reflexivity|].
  assert (E : (size (candidates sampleRefs None) + 1)%nat = 4%nat) by (vm_compute; reflexivity).
  rewrite E in Hlen. exact Hlen.
Defined.

Lemma replays_are_safe_witness :
  (sampleForward 0).(f_decision).(d_Retry) = RetryNextCandidate /\
  replay_safe (sampleForward 0).(f_attempt) (sampleForward 0).(f_context) (sampleForward 0).(f_decision).(d_Retry).
Proof.
  split; [vm_compute; reflexivity|].
  apply (replays_are_safe (H := integerOnlyParsers) (R := CredentialRegistry) sampleRequest (Some sampleConfig) sampleQuery
    sampleRefs None 0 false 7 sampleTurns true sampleLoop sampleOutcome [] (sampleForward 0) (sampleForward 1) []
    sample_turns_ok ltac:(apply Nat.ltb_lt; vm_compute; reflexivity) sample_runs sample_forwards).
Defined.


End AttemptsProps.
