(* ===== verification/Sse.v ===== *)
(** * Server-sent events

    The framing of an upstream's event stream: the boundary scanner and the line parser of
    [internal/gateway/stream_rewrite.go], the buffer that observes complete events without
    changing the wire bytes ([stream_observation.go]), and the buffer that rewrites stored
    responses ([responses_store.go]).

    The observer behind the buffer is a state [Obs] with a step that may fail; decoding a
    JSON error envelope is an argument. *)

From Stdlib Require Import ZArith Lia Bool String Ascii List.
From stdpp Require Import base list strings.
From coqutil Require Import Datatypes.RecordSettersUsingExistingGetters.
From S2P Require Import Prelude GoStrings Execution.

Local Open Scope Z_scope.

Module Sse.
Import Execution.

Abbreviation wire := (list ascii).

Definition CR : ascii := "013".
Definition LF : ascii := "010".

Definition len (data : wire) : Z := Z.of_nat (length data).

(** ** The boundary scanner *)

Record sseRewriteBoundaryScanner := mkScanner {
  scanOffset : nat;
  lineHasContent : bool;
  skipLineFeed : bool;
  optionalLineFeed : bool;
  previousInputBytes : Z;
  previousOutputBytes : Z;
}.

Definition zeroScanner : sseRewriteBoundaryScanner := mkScanner 0 false false false 0 0.

(** The loop of [Find] from [index] on; [data] is what follows. *)
Fixpoint findLoop (s : sseRewriteBoundaryScanner) (data : wire) (index : nat) : sseRewriteBoundaryScanner * option nat :=
  match data with
  | [] => (s, None)
  | value :: rest =>
    let skipped := s.(skipLineFeed) && Ascii.eqb value LF in
    let s := s <| skipLineFeed := false |> in
    if skipped then findLoop (s <| scanOffset := S index |>) rest (S index)
    else if Ascii.eqb value CR then
      let blankLine := negb s.(lineHasContent) in
      let s := s <| lineHasContent := false |> in
      match rest with
      | next :: rest' =>
        if Ascii.eqb next LF then
          let s := s <| scanOffset := S (S index) |> in
          if blankLine then (s, Some (S (S index))) else findLoop s rest' (S (S index))
        else
          let s := s <| skipLineFeed := true |> <| scanOffset := S index |> in
          if blankLine then (s, Some (S index)) else findLoop s rest (S index)
      | [] =>
        let s := s <| skipLineFeed := true |> <| scanOffset := S index |> in
        if blankLine then (s, Some (S index)) else findLoop s rest (S index)
      end
    else if Ascii.eqb value LF then
      let blankLine := negb s.(lineHasContent) in
      let s := s <| lineHasContent := false |> <| scanOffset := S index |> in
      if blankLine then (s, Some (S index)) else findLoop s rest (S index)
    else findLoop (s <| lineHasContent := true |> <| scanOffset := S index |>) rest (S index)
  end.

Definition Find (s : sseRewriteBoundaryScanner) (data : wire) : sseRewriteBoundaryScanner * option nat :=
  let start := Nat.min s.(scanOffset) (length data) in
  findLoop s (drop start data) start.

Definition AfterEvent (s : sseRewriteBoundaryScanner) (inputBytes outputBytes : Z) : sseRewriteBoundaryScanner :=
  mkScanner 0 false false s.(skipLineFeed) inputBytes outputBytes.

Definition clearOptionalLineFeed (s : sseRewriteBoundaryScanner) : sseRewriteBoundaryScanner :=
  s <| optionalLineFeed := false |> <| previousInputBytes := 0 |> <| previousOutputBytes := 0 |>.

Definition ConsumeOptionalLineFeed (s : sseRewriteBoundaryScanner) (data : wire) (final : bool) (maxEventBytes : Z)
    : sseRewriteBoundaryScanner * nat * bool :=
  if negb s.(optionalLineFeed) then (s, 0%nat, false)
  else
    match data with
    | [] => (if final then clearOptionalLineFeed s else s, 0%nat, false)
    | value :: _ =>
      if negb (Ascii.eqb value LF) then (clearOptionalLineFeed s, 0%nat, false)
      else
        (clearOptionalLineFeed s, 1%nat,
         (s.(previousInputBytes) >=? maxEventBytes) || (s.(previousOutputBytes) >=? maxEventBytes))
    end.

(** ** Lines and fields *)

(** [bytes.IndexByte] and the slices around it: field and value of a line. *)
Definition fieldOf (line : wire) : wire * wire := let '(field, value, _) := cut ":"%char line in (field, value).

Definition skipSpace (value : wire) : wire :=
  match value with c :: rest => if Ascii.eqb c " "%char then rest else value | [] => value end.

Definition parseSSEDataLine (line : wire) : option wire :=
  match line with
  | [] => None
  | c :: _ =>
    if Ascii.eqb c ":"%char then None
    else
      let '(field, value) := fieldOf line in
      if bool_decide (field = bytes "data") then Some (skipSpace value) else None
  end.

Definition parseSSEEventName (line : wire) : option wire :=
  let '(field, value) := fieldOf line in
  if bool_decide (field = bytes "event") then Some (skipSpace value) else None.

(** A line with its terminator; [data] is the value of a data line. *)
Record sseEventLine := mkLine { content : wire; terminator : wire; data : option wire }.

Definition newLine (content terminator : wire) : sseEventLine := mkLine content terminator (parseSSEDataLine content).

Fixpoint splitLoop (current event : wire) : list sseEventLine :=
  match event with
  | [] => match current with [] => [] | _ => [newLine current []] end
  | value :: rest =>
    if Ascii.eqb value CR then
      match rest with
      | next :: rest' =>
        if Ascii.eqb next LF then newLine current [CR; LF] :: splitLoop [] rest' else newLine current [CR] :: splitLoop [] rest
      | [] => newLine current [CR] :: splitLoop [] rest
      end
    else if Ascii.eqb value LF then newLine current [LF] :: splitLoop [] rest
    else splitLoop (current ++ [value]) rest
  end.

Definition splitSSEEventLines (event : wire) : list sseEventLine := splitLoop [] event.

(** [bytes.Join] with a line feed. *)
Fixpoint joinLines (values : list wire) : wire :=
  match values with
  | [] => []
  | [value] => value
  | value :: rest => value ++ LF :: joinLines rest
  end.

(** The last event name and the data values, in order. *)
Definition eventName (lines : list sseEventLine) : wire :=
  foldl (fun name line => default name (parseSSEEventName line.(content))) [] lines.
Definition dataValues (lines : list sseEventLine) : list wire := omap data lines.

(** ** The observation buffer *)

Record StreamEvent := mkStreamEvent { Name : wire; Payload : wire }.

(** [json.Unmarshal] into the envelope of [isSSEErrorPayload]: its type and the raw
    error; [None] is an error. *)
Class EnvelopeDecoder := decodeEnvelope : wire -> option (wire * wire).

Definition isSSEErrorPayload `{EnvelopeDecoder} (payload : wire) : bool :=
  match decodeEnvelope payload with
  | None => false
  | Some (type, error) =>
    let errorValue := trim_space error in
    bool_decide (type = bytes "error") ||
    negb (Nat.eqb (length errorValue) 0) && negb (bool_decide (errorValue = bytes "null")) &&
    negb (bool_decide (errorValue = bytes "{}"))
  end.

Inductive SseError (E : Type) := errSSEEventTooLarge | errSSEEventIncomplete | ObserveFailed (e : E).
Arguments errSSEEventTooLarge {E}. Arguments errSSEEventIncomplete {E}. Arguments ObserveFailed {E}.

Record sseEventObservationBuffer := mkBuffer {
  pending : wire;
  pendingTerminal : bool;
  maxEventBytes : Z;
  scanner : sseRewriteBoundaryScanner;
}.

Definition DefaultSSEEventLimitBytes : Z := 10485760.
Definition OpenAIImagesSSEEventLimitBytes : Z := 33554432.
Definition SSEEventLimit (clientProtocol : Protocol) : Z :=
  if bool_decide (clientProtocol = OpenAIImages) then OpenAIImagesSSEEventLimitBytes else DefaultSSEEventLimitBytes.

Definition normalizedSSEEventLimit (limit : Z) : Z := if limit >? 0 then limit else DefaultSSEEventLimitBytes.

Definition newSSEEventObservationBuffer (limit : Z) : sseEventObservationBuffer :=
  mkBuffer [] false (normalizedSSEEventLimit limit) zeroScanner.

Definition discard (b : sseEventObservationBuffer) (count : nat) : sseEventObservationBuffer :=
  b <| pending := drop count b.(pending) |>.

Section Observation.
Context `{EnvelopeDecoder} {Obs E : Type} (observe : Obs -> StreamEvent -> bool -> Obs * result E bool).

Definition observeEvent (o : Obs) (event : wire) : Obs * result E bool :=
  let lines := splitSSEEventLines event in
  match dataValues lines with
  | [] => (o, Ok false)
  | values =>
    let payload := joinLines values in
    match payload with
    | [] => (o, Ok false)
    | _ =>
      observe o (mkStreamEvent (eventName lines) payload)
        (bool_decide (eventName lines = bytes "error") || isSSEErrorPayload payload)
    end
  end.

(** The loop of [push]; every round discards at least one byte, so the number of pending
    bytes bounds the rounds.  The result is how many bytes were consumed, and whether a
    terminal event was among them. *)
Fixpoint pushLoop (fuel : nat) (b : sseEventObservationBuffer) (o : Obs) (consumed : nat) (terminal : bool)
    : sseEventObservationBuffer * Obs * option (result (SseError E) (nat * bool)) :=
  match fuel with
  | O => (b, o, None)
  | S fuel =>
    let waitingTerminal := b.(pendingTerminal) in
    let '(s, optionalLF, overflow) := ConsumeOptionalLineFeed b.(scanner) b.(pending) false b.(maxEventBytes) in
    let b := b <| scanner := s |> in
    if overflow then (b, o, Some (Err errSSEEventTooLarge))
    else
      let settled := waitingTerminal && negb s.(optionalLineFeed) in
      let b := if settled then b <| pendingTerminal := false |> else b in
      let terminal := terminal || settled in
      if (0 <? optionalLF)%nat then pushLoop fuel (discard b optionalLF) o (consumed + optionalLF) terminal
      else
        let '(s, found) := Find b.(scanner) b.(pending) in
        let b := b <| scanner := s |> in
        match found with
        | None =>
          if len b.(pending) >? b.(maxEventBytes) then (b, o, Some (Err errSSEEventTooLarge))
          else (b, o, Some (Ok (consumed, terminal)))
        | Some eventEnd =>
          if Z.of_nat eventEnd >? b.(maxEventBytes) then (b, o, Some (Err errSSEEventTooLarge))
          else
            match observeEvent o (take eventEnd b.(pending)) with
            | (o, Err e) => (b, o, Some (Err (ObserveFailed e)))
            | (o, Ok terminalEvent) =>
              let b := discard b eventEnd in
              let b := b <| scanner := AfterEvent b.(scanner) (Z.of_nat eventEnd) (Z.of_nat eventEnd) |> in
              if terminalEvent && b.(scanner).(optionalLineFeed)
              then pushLoop fuel (b <| pendingTerminal := true |>) o (consumed + eventEnd) terminal
              else pushLoop fuel b o (consumed + eventEnd) (terminal || terminalEvent)
            end
        end
  end.

Definition push (b : sseEventObservationBuffer) (o : Obs) (chunk : wire)
    : sseEventObservationBuffer * Obs * result (SseError E) (wire * bool) :=
  let b := b <| pending := b.(pending) ++ chunk |> in
  let whole := b.(pending) in
  match pushLoop (S (length whole)) b o 0 false with
  | (b, o, Some (Ok (consumed, terminal))) => (b, o, Ok (take consumed whole, terminal))
  | (b, o, Some (Err e)) => (b, o, Err e)
  | (b, o, None) => (b, o, Err errSSEEventTooLarge)
  end.

Definition finish (b : sseEventObservationBuffer) : sseEventObservationBuffer * result (SseError E) unit :=
  let '(s, optionalLF, overflow) := ConsumeOptionalLineFeed b.(scanner) b.(pending) true b.(maxEventBytes) in
  let b := b <| scanner := s |> in
  if overflow then (b, Err errSSEEventTooLarge)
  else
    let b := if (0 <? optionalLF)%nat then discard b optionalLF else b in
    let b := if b.(pendingTerminal) && negb s.(optionalLineFeed) then b <| pendingTerminal := false |> else b in
    match b.(pending) with
    | [] => (b <| scanner := zeroScanner |>, Ok tt)
    | _ => (b, Err errSSEEventIncomplete)
    end.

End Observation.

(** ** Rewriting events *)

Record sseEventRewriteResult := mkRewrite { body : wire; rewriteTerminal : bool }.

(** [bytes.Split] at line feeds. *)
Fixpoint splitLF (current text : wire) : list wire :=
  match text with
  | [] => [current]
  | value :: rest => if Ascii.eqb value LF then current :: splitLF [] rest else splitLF (current ++ [value]) rest
  end.

Fixpoint joinWith (separator : wire) (parts : list wire) : wire :=
  match parts with
  | [] => []
  | [part] => part
  | part :: rest => part ++ separator ++ joinWith separator rest
  end.

(** The lines of an event with the payload in place of the first data line; the other
    data lines are dropped. *)
Fixpoint rewriteLines (placed : bool) (payload : wire) (lines : list sseEventLine) : wire :=
  match lines with
  | [] => []
  | line :: rest =>
    match line.(data), placed with
    | Some _, false =>
      joinWith line.(terminator) (map (app (bytes "data: ")) (splitLF [] payload)) ++ line.(terminator) ++
      rewriteLines true payload rest
    | Some _, true => rewriteLines true payload rest
    | None, _ => line.(content) ++ line.(terminator) ++ rewriteLines placed payload rest
    end
  end.

Section Rewriting.
Context `{EnvelopeDecoder} {E : Type} (rewrite : StreamEvent -> bool -> result E sseEventRewriteResult).

Definition rewriteSSEEventWithMetadata (event : wire) : result E sseEventRewriteResult :=
  let lines := splitSSEEventLines event in
  match dataValues lines with
  | [] => Ok (mkRewrite event false)
  | values =>
    let payload := joinLines values in
    if Nat.eqb (length payload) 0 || bool_decide (payload = bytes "[DONE]") then Ok (mkRewrite event false)
    else
      let errorEvent := bool_decide (eventName lines = bytes "error") || isSSEErrorPayload payload in
      match rewrite (mkStreamEvent (eventName lines) payload) errorEvent with
      | Err e => Err e
      | Ok rewritten =>
        Ok (if bool_decide (rewritten.(body) = payload) then rewritten <| body := event |>
            else rewritten <| body := rewriteLines false rewritten.(body) lines |>)
      end
  end.

(** [statelessResponsesSSEBuffer], with the rewriting of one payload as an argument. *)
Fixpoint rewriteLoop (fuel : nat) (b : sseEventObservationBuffer) (output : wire)
    : sseEventObservationBuffer * option (result (SseError E) wire) :=
  match fuel with
  | O => (b, None)
  | S fuel =>
    let '(s, optionalLF, overflow) := ConsumeOptionalLineFeed b.(scanner) b.(pending) false b.(maxEventBytes) in
    let b := b <| scanner := s |> in
    if overflow then (b, Some (Err errSSEEventTooLarge))
    else if (0 <? optionalLF)%nat then rewriteLoop fuel (discard b optionalLF) (output ++ take optionalLF b.(pending))
    else
      let '(s, found) := Find b.(scanner) b.(pending) in
      let b := b <| scanner := s |> in
      match found with
      | None =>
        if len b.(pending) >? b.(maxEventBytes) then (b, Some (Err errSSEEventTooLarge)) else (b, Some (Ok output))
      | Some eventEnd =>
        if Z.of_nat eventEnd >? b.(maxEventBytes) then (b, Some (Err errSSEEventTooLarge))
        else
          match rewriteSSEEventWithMetadata (take eventEnd b.(pending)) with
          | Err e => (b, Some (Err (ObserveFailed e)))
          | Ok rewritten =>
            if len rewritten.(body) >? b.(maxEventBytes) then (b, Some (Err errSSEEventTooLarge))
            else
              let b := discard b eventEnd in
              rewriteLoop fuel (b <| scanner := AfterEvent b.(scanner) (Z.of_nat eventEnd) (len rewritten.(body)) |>)
                (output ++ rewritten.(body))
          end
      end
  end.

Definition rewritePush (b : sseEventObservationBuffer) (chunk : wire)
    : sseEventObservationBuffer * result (SseError E) wire :=
  let b := b <| pending := b.(pending) ++ chunk |> in
  match rewriteLoop (S (length b.(pending))) b [] with
  | (b, Some r) => (b, r)
  | (b, None) => (b, Err errSSEEventTooLarge)
  end.

Definition rewriteFinish (b : sseEventObservationBuffer) : sseEventObservationBuffer * result (SseError E) unit :=
  let '(s, optionalLF, overflow) := ConsumeOptionalLineFeed b.(scanner) b.(pending) true b.(maxEventBytes) in
  let b := b <| scanner := s |> in
  if overflow then (b, Err errSSEEventTooLarge)
  else
    let b := if (0 <? optionalLF)%nat then discard b optionalLF else b in
    match b.(pending) with
    | [] => (b <| scanner := zeroScanner |>, Ok tt)
    | _ => (b, Err errSSEEventIncomplete)
    end.

End Rewriting.

Definition newStatelessResponsesSSEBuffer : sseEventObservationBuffer :=
  mkBuffer [] false (SSEEventLimit OpenAIResponses) zeroScanner.

End Sse.
