(* ===== verification/SseProps.v ===== *)
(** * Framing of event streams does not depend on the chunks

    What the observation buffer of [Sse] does with a stream that arrives in arbitrary
    pieces is compared with two references on the whole text: a framing that reads one
    byte at a time, for the bytes and sizes of events, and the definition of the
    event-stream format, with its three line terminators, for their contents. *)

From Stdlib Require Import ZArith Lia Bool String Ascii List.
From stdpp Require Import base list strings.
From coqutil Require Import Datatypes.RecordSettersUsingExistingGetters.
From S2P Require Import Prelude GoStrings Execution Sse.

Local Open Scope Z_scope.

Module SseProps.
Import Execution Sse.

(** ** The format *)

(** Line terminators are CRLF, CR and LF; here each of them becomes LF. *)
Fixpoint unify (afterCR : bool) (text : wire) : wire :=
  match text with
  | [] => []
  | c :: text =>
    if Ascii.eqb c CR then LF :: unify true text
    else if Ascii.eqb c LF && afterCR then unify false text
    else c :: unify false text
  end.

(** An event is the lines before an empty line. *)
Fixpoint group (line : wire) (lines : list wire) (text : wire) : list (list wire) :=
  match text with
  | [] => []
  | c :: text =>
    if Ascii.eqb c LF then
      match line with
      | [] => lines :: group [] [] text
      | _ => group [] (lines ++ [line]) text
      end
    else group (line ++ [c]) lines text
  end.

Definition nameOf (lines : list wire) : wire := foldl (fun name line => default name (parseSSEEventName line)) [] lines.

(** An event with a non-empty payload is a message. *)
Definition messageOf (lines : list wire) : option StreamEvent :=
  match joinLines (omap parseSSEDataLine lines) with
  | [] => None
  | payload => Some (mkStreamEvent (nameOf lines) payload)
  end.

Definition messages (text : wire) : list StreamEvent := omap messageOf (group [] [] (unify false text)).

(** ** Byte by byte *)

(** The complete events, the bytes of the open one, whether its last line has content, and
    whether the last byte was a carriage return, whose line feed may follow. *)
Record framing := mkFraming { done : list wire; cur : wire; hasContent : bool; afterCR : bool }.

Definition emptyFraming : framing := mkFraming [] [] false false.

Fixpoint extendLast (es : list wire) : list wire :=
  match es with
  | [] => []
  | [e] => [e ++ [LF]]
  | e :: es => e :: extendLast es
  end.

Definition frameByte (q : framing) (c : ascii) : framing :=
  if q.(afterCR) && Ascii.eqb c LF then
    match q.(cur) with
    | [] => mkFraming (extendLast q.(done)) [] q.(hasContent) false
    | _ => mkFraming q.(done) (q.(cur) ++ [c]) q.(hasContent) false
    end
  else if Ascii.eqb c CR || Ascii.eqb c LF then
    if q.(hasContent) then mkFraming q.(done) (q.(cur) ++ [c]) false (Ascii.eqb c CR)
    else mkFraming (q.(done) ++ [q.(cur) ++ [c]]) [] false (Ascii.eqb c CR)
  else mkFraming q.(done) (q.(cur) ++ [c]) true false.

Definition frame (q : framing) (text : wire) : framing := foldl frameByte q text.

(** All events and the open one are within the limit. *)
Definition fits (limit : Z) (q : framing) : Prop := Forall (fun e => len e <= limit) q.(done) /\ len q.(cur) <= limit.

(** ** Facts about the framing *)

Lemma eqb_true a b : Ascii.eqb a b = true -> a = b.
Proof. apply Ascii.eqb_eq. Qed.

Lemma CR_LF : Ascii.eqb CR LF = false. Proof. reflexivity. Qed.
Lemma LF_CR : Ascii.eqb LF CR = false. Proof. reflexivity. Qed.

Lemma frame_app q a b : frame q (a ++ b) = frame (frame q a) b.
Proof. apply foldl_app. Qed.

Lemma frame_cons q c b : frame q (c :: b) = frame (frameByte q c) b.
Proof. reflexivity. Qed.

Lemma extendLast_snoc es e : extendLast (es ++ [e]) = es ++ [e ++ [LF]].
Proof.
  induction es as [|x es IH]; [reflexivity|]. cbn. rewrite IH. destruct (es ++ [e]) eqn:E; [|reflexivity].
  destruct es; discriminate E.
Qed.

Lemma len_snoc a c : len (a ++ [c]) = len a + 1.
Proof. unfold len. rewrite length_app. cbn. lia. Qed.

Lemma Forall_extendLast limit es : Forall (fun e => len e <= limit) (extendLast es) -> Forall (fun e => len e <= limit) es.
Proof.
  destruct es as [|e es _] using rev_ind; [easy|]. rewrite extendLast_snoc, !Forall_app, !Forall_singleton, len_snoc.
  intros [? ?]. split; [assumption|lia].
Qed.

(** What does not fit never fits again. *)
Lemma fits_byte limit q c : 0 <= limit -> fits limit (frameByte q c) -> fits limit q.
Proof.
  intros H0. unfold fits, frameByte. destruct q as [es e h cr]. cbn [done cur hasContent afterCR].
  destruct (cr && Ascii.eqb c LF); [destruct e as [|x e]|destruct (Ascii.eqb c CR || Ascii.eqb c LF); [destruct h|]];
    cbn [done cur]; rewrite ?Forall_app, ?Forall_singleton, ?len_snoc.
  - intros [Hf _]. split; [apply Forall_extendLast, Hf|]. unfold len. cbn. lia.
  - intros [Hf Hc]. split; [exact Hf|lia].
  - intros [Hf Hc]. split; [exact Hf|lia].
  - intros [[Hf Hc] _]. split; [exact Hf|lia].
  - intros [Hf Hc]. split; [exact Hf|lia].
Qed.

Lemma fits_frame limit text : 0 <= limit -> forall q, fits limit (frame q text) -> fits limit q.
Proof.
  intros H0. induction text as [|c text IH]; intros q; [easy|]. rewrite frame_cons. intros Hf.
  apply (fits_byte _ _ c H0), IH, Hf.
Qed.

(** ** The scanner *)

(** The scanner after the bytes of [q]; a line feed that may follow an event is still
    outstanding exactly when that event ended with a carriage return. *)
Definition isNil (l : wire) : bool := match l with [] => true | _ => false end.

Record scans (s : sseRewriteBoundaryScanner) (q : framing) : Prop := {
  sc_offset : s.(scanOffset) = length q.(cur);
  sc_content : s.(lineHasContent) = q.(hasContent);
  sc_skip : s.(skipLineFeed) = q.(afterCR) && negb (isNil q.(cur));
  sc_optional : s.(optionalLineFeed) = q.(afterCR) && isNil q.(cur);
  sc_previous : s.(optionalLineFeed) = true -> exists es e, q.(done) = es ++ [e] /\
    s.(previousInputBytes) = len e /\ s.(previousOutputBytes) = len e;
}.

Lemma isNil_snoc l c : isNil (l ++ [c]) = false.
Proof. destruct l; reflexivity. Qed.

(** What [Find] reports, in terms of the framing of the bytes it looks at. *)
Definition found_ok (q : framing) (d : wire) (x : sseRewriteBoundaryScanner * option nat) : Prop :=
  match x with
  | (s, None) => let q' := frame q d in q'.(done) = q.(done) /\ q'.(cur) = q.(cur) ++ d /\ scans s q'
  | (s, Some eventEnd) => exists d1 d2, d = d1 ++ d2 /\ eventEnd = length (q.(cur) ++ d1) /\
      frame q d1 = mkFraming (q.(done) ++ [q.(cur) ++ d1]) [] false s.(skipLineFeed)
  end.

Lemma frame_after es e h : e <> [] -> frameByte (mkFraming es e h true) LF = mkFraming es (e ++ [LF]) h false.
Proof. destruct e; [easy|reflexivity]. Qed.

Lemma frame_CR es e h cr : frameByte (mkFraming es e h cr) CR =
  if h then mkFraming es (e ++ [CR]) false true else mkFraming (es ++ [e ++ [CR]]) [] false true.
Proof. unfold frameByte. cbn. rewrite andb_false_r. reflexivity. Qed.

Lemma frame_LF es e h : frameByte (mkFraming es e h false) LF =
  if h then mkFraming es (e ++ [LF]) false false else mkFraming (es ++ [e ++ [LF]]) [] false false.
Proof. reflexivity. Qed.

Lemma frame_other es e h cr c : Ascii.eqb c CR = false -> Ascii.eqb c LF = false ->
  frameByte (mkFraming es e h cr) c = mkFraming es (e ++ [c]) true false.
Proof. unfold frameByte. cbn. intros -> ->. rewrite andb_false_r. reflexivity. Qed.

Lemma frame_CRLF es e h cr : frame (mkFraming es e h cr) [CR; LF] =
  if h then mkFraming es (e ++ [CR; LF]) false false else mkFraming (es ++ [e ++ [CR; LF]]) [] false false.
Proof.
  unfold frame. cbn [foldl]. rewrite frame_CR. destruct h.
  - rewrite frame_after by (destruct e; discriminate). rewrite <- app_assoc. reflexivity.
  - unfold frameByte. cbn. rewrite extendLast_snoc, <- app_assoc. reflexivity.
Qed.

Lemma found_shift q c d x : (frame q c).(done) = q.(done) -> (frame q c).(cur) = q.(cur) ++ c ->
  found_ok (frame q c) d x -> found_ok q (c ++ d) x.
Proof.
  intros Hd Hc. destruct x as [s [e|]]; cbn [found_ok].
  - intros (d1 & d2 & -> & -> & Hf). exists (c ++ d1), d2. rewrite frame_app, Hf, Hd, Hc, <- !app_assoc. auto.
  - rewrite frame_app, Hd, Hc, <- app_assoc. auto.
Qed.

Lemma scans_plain s es e h cr : scanOffset s = length e -> lineHasContent s = h -> skipLineFeed s = cr ->
  optionalLineFeed s = false -> e <> [] -> scans s (mkFraming es e h cr).
Proof.
  intros H1 H2 H3 H4 H5. split; cbn; auto.
  - destruct e; [easy|]. rewrite andb_true_r. exact H3.
  - destruct e; [easy|]. rewrite andb_false_r. exact H4.
  - rewrite H4. discriminate.
Qed.

Lemma length_snoc {A} (l : list A) x : S (length l) = length (l ++ [x]).
Proof. rewrite length_app. cbn. lia. Qed.

Lemma snoc_not_nil {A} (l : list A) x : l ++ [x] <> [].
Proof. destruct l; discriminate. Qed.

Lemma findLoop_ok n : forall d s es e h cr, (length d <= n)%nat -> scans s (mkFraming es e h cr) ->
  s.(optionalLineFeed) = false -> found_ok (mkFraming es e h cr) d (findLoop s d (length e)).
Proof.
  induction n as [|n IH]; intros d s es e h cr Hn Hs Ho.
  { destruct d; [|cbn in Hn; lia]. cbn. rewrite app_nil_r. auto. }
  destruct d as [|c d]; [cbn; rewrite app_nil_r; auto|]. cbn in Hn.
  pose proof Hs as [Hoff Hcon Hsk Hop _]. cbn in Hoff, Hcon, Hsk, Hop. rewrite Ho in Hop.
  assert (He : cr = true -> e <> []) by (intros -> ->; discriminate Hop).
  assert (Hskip : skipLineFeed s = cr) by (rewrite Hsk; destruct cr, e; easy).
  (* one byte that leaves the event open *)
  assert (Hgo : forall s' h' cr', frameByte (mkFraming es e h cr) c = mkFraming es (e ++ [c]) h' cr' ->
            scanOffset s' = S (length e) -> lineHasContent s' = h' -> skipLineFeed s' = cr' -> optionalLineFeed s' = false ->
            found_ok (mkFraming es e h cr) (c :: d) (findLoop s' d (S (length e)))).
  { intros s' h' cr' Hb H1 H2 H3 H4. apply (found_shift _ [c]); cbn [frame foldl]; rewrite ?Hb; try reflexivity.
    rewrite (length_snoc e c) in *. apply IH; [lia| |exact H4]. apply scans_plain; auto using snoc_not_nil. }
  (* one byte that ends it *)
  assert (Hend : forall s', frameByte (mkFraming es e h cr) c = mkFraming (es ++ [e ++ [c]]) [] false (skipLineFeed s') ->
            found_ok (mkFraming es e h cr) (c :: d) (s', Some (S (length e)))).
  { intros s' Hb. exists [c], d. cbn [frame foldl]. rewrite Hb. split_and!; [reflexivity|apply length_snoc|reflexivity]. }
  cbn [findLoop]. rewrite Hskip. destruct (cr && Ascii.eqb c LF) eqn:Esk.
  { apply andb_true_iff in Esk as [-> Ec]. apply eqb_true in Ec as ->.
    eapply Hgo; [apply frame_after, He; reflexivity|cbn; auto..]. }
  destruct (Ascii.eqb c CR) eqn:Ec.
  - apply eqb_true in Ec as ->. cbn [lineHasContent]. cbn. unfold const. rewrite Hcon.
    assert (Halone : found_ok (mkFraming es e h cr) (CR :: d)
      (let s := s <| skipLineFeed := false |> <| lineHasContent := false |> <| skipLineFeed := true |>
                  <| scanOffset := S (length e) |> in
       if negb h then (s, Some (S (length e))) else findLoop s d (S (length e)))).
    { cbn zeta. destruct h; cbn [negb]; [apply (Hgo _ false true); auto; exact (frame_CR es e true cr)|apply Hend; exact (frame_CR es e false cr)]. }
    destruct d as [|c' d]; [exact Halone|]. destruct (Ascii.eqb c' LF) eqn:Ec'; [|exact Halone].
    apply eqb_true in Ec' as ->. clear Halone Hgo Hend. pose proof (frame_CRLF es e h cr) as Hb. destruct h; cbn [negb].
    + apply (found_shift _ [CR; LF] d); rewrite ?Hb; try reflexivity.
      assert (El : S (S (length e)) = length (e ++ [CR; LF])) by (rewrite length_app; cbn; lia). rewrite El.
      apply IH; [cbn in Hn; lia| |exact Ho]. apply scans_plain; auto. destruct e; discriminate.
    + exists [CR; LF], d. rewrite Hb. split_and!; [reflexivity|rewrite length_app; cbn; lia|reflexivity].
  - destruct (Ascii.eqb c LF) eqn:Ec'.
    + apply eqb_true in Ec' as ->. destruct cr; [discriminate Esk|]. cbn. unfold const. rewrite Hcon.
      destruct h; cbn [negb]; [apply (Hgo _ false false); auto; exact (frame_LF es e true)|apply Hend; exact (frame_LF es e false)].
    + eapply Hgo; [apply frame_other; assumption|cbn; auto..].
Qed.

(** ** Contents of events *)

(** The lines of a text, byte by byte: complete lines, the open one, and whether a
    carriage return has just been read. *)
Definition lineByte (x : list wire * wire * bool) (c : ascii) : list wire * wire * bool :=
  let '(lines, line, cr) := x in
  if cr && Ascii.eqb c LF then (lines, line, false)
  else if Ascii.eqb c CR || Ascii.eqb c LF then (lines ++ [line], [], Ascii.eqb c CR)
  else (lines, line ++ [c], false).

Definition linesBy (text : wire) : list wire * wire * bool := foldl lineByte ([], [], false) text.

Definition close (x : list wire * wire * bool) : list wire := x.1.1 ++ (if isNil x.1.2 then [] else [x.1.2]).

Lemma linesBy_snoc text c : linesBy (text ++ [c]) = lineByte (linesBy text) c.
Proof. unfold linesBy. rewrite foldl_app. reflexivity. Qed.

Lemma splitLoop_lines n : forall event line lines, (length event <= n)%nat ->
  lines ++ map content (splitLoop line event) = close (foldl lineByte (lines, line, false) event).
Proof.
  induction n as [|n IH]; intros event line lines Hn.
  { destruct event; [|cbn in Hn; lia]. destruct line; cbn; reflexivity. }
  destruct event as [|c event]; [destruct line; reflexivity|]. cbn [length] in Hn. cbn [splitLoop foldl lineByte andb].
  destruct (Ascii.eqb c CR) eqn:Ec.
  - apply eqb_true in Ec as ->. cbn [orb]. destruct event as [|c' event]; [cbn; rewrite app_nil_r; reflexivity|].
    cbn [foldl]. unfold lineByte at 2. cbn [andb]. destruct (Ascii.eqb c' LF) eqn:Ec'.
    + rewrite <- IH by (cbn in Hn; lia). cbn [map content]. rewrite <- app_assoc. reflexivity.
    + specialize (IH (c' :: event) [] (lines ++ [line]) ltac:(lia)). cbn [foldl] in IH. unfold lineByte at 2 in IH.
      cbn [andb] in IH. rewrite Ec' in IH. rewrite <- IH. cbn [map content]. rewrite <- app_assoc. reflexivity.
  - cbn [orb]. destruct (Ascii.eqb c LF) eqn:Ec'; [|apply IH; lia].
    rewrite <- IH by lia. cbn [map content]. rewrite <- app_assoc. reflexivity.
Qed.

Definition linesOf (event : wire) : list wire := map content (splitSSEEventLines event).

Lemma linesOf_by event : linesOf event = close (linesBy event).
Proof. exact (splitLoop_lines (length event) event [] [] (le_n _)). Qed.

(** The message of an event's bytes. *)
Definition message (event : wire) : option StreamEvent := messageOf (linesOf event).

Lemma message_blank lines : messageOf (lines ++ [[]]) = messageOf lines.
Proof.
  unfold messageOf, nameOf. rewrite omap_app, foldl_app. cbn. rewrite app_nil_r. reflexivity.
Qed.

(** A line feed after a carriage return adds nothing. *)
Lemma message_LF event : (linesBy event).2 = true -> message (event ++ [LF]) = message event.
Proof.
  unfold message. rewrite !linesOf_by, linesBy_snoc. destruct (linesBy event) as [[lines line] cr]. cbn [snd]. intros ->.
  reflexivity.
Qed.

(** The open event of a framing, and the state of its last event. *)
Record framed (q : framing) (lines : list wire) (line : wire) : Prop := {
  fr_cur : linesBy q.(cur) = (lines, line, q.(afterCR) && negb (isNil q.(cur)));
  fr_content : q.(hasContent) = negb (isNil line);
  fr_after : q.(afterCR) = true -> line = [];
  fr_last : q.(afterCR) = true -> q.(cur) = [] -> exists es e, q.(done) = es ++ [e] /\ (linesBy e).2 = true;
}.

Lemma framed_empty : framed emptyFraming [] [].
Proof. split; [reflexivity..|discriminate|discriminate]. Qed.

Lemma framed_closed es e c : framed (mkFraming (es ++ [e]) [] false c) [] [] <-> (c = true -> (linesBy e).2 = true).
Proof.
  split.
  - intros [_ _ _ Hl] ->. destruct (Hl eq_refl eq_refl) as (es' & e' & E & He). apply app_inj_tail in E as [_ ->]. exact He.
  - intros Hc. split; cbn; auto.
    + rewrite andb_false_r. reflexivity.
    + intros -> _. exists es, e. auto.
Qed.

(** One byte: what it adds to the messages, and what is open afterwards. *)
Lemma frame_messages text : forall q lines line, framed q lines line ->
  omap message (frame q text).(done) = omap message q.(done) ++ omap messageOf (group line lines (unify q.(afterCR) text)) /\
  exists lines' line', framed (frame q text) lines' line'.
Proof.
  induction text as [|c text IH]; intros q lines line Hq; [cbn; rewrite app_nil_r; eauto|].
  rewrite frame_cons. destruct q as [es e h cr]. pose proof Hq as [Hcur Hcon Haft Hlast]. cbn [cur hasContent afterCR done] in Hcur, Hcon, Haft, Hlast.
  cbn [afterCR done unify]. destruct (cr && Ascii.eqb c LF) eqn:E1.
  - apply andb_true_iff in E1 as [-> Ec]. apply eqb_true in Ec as ->. pose proof (Haft eq_refl) as ->. cbn [negb] in Hcon.
    rewrite LF_CR. cbn [Ascii.eqb andb]. rewrite Ascii.eqb_refl. cbn [andb]. destruct e as [|x e].
    + destruct (Hlast eq_refl eq_refl) as (es' & e' & -> & He'). subst h.
      assert (Hb : frameByte (mkFraming (es' ++ [e']) [] (negb (isNil [])) true) LF = mkFraming (es' ++ [e' ++ [LF]]) [] false false).
      { unfold frameByte. cbn. rewrite extendLast_snoc. reflexivity. }
      rewrite Hb. specialize (IH (mkFraming (es' ++ [e' ++ [LF]]) [] false false) [] []
        ltac:(apply framed_closed; discriminate)).
      cbn [afterCR done] in IH. rewrite !omap_app in *. cbn [omap list_omap] in *. rewrite message_LF in IH by exact He'.
      unfold linesBy in Hcur. cbn in Hcur. injection Hcur as <-. exact IH.
    + rewrite frame_after by discriminate. apply (IH (mkFraming es ((x :: e) ++ [LF]) h false) lines []).
      split; cbn -[linesBy]; auto; try discriminate.
      change (x :: e ++ [LF]) with ((x :: e) ++ [LF]). rewrite linesBy_snoc, Hcur. reflexivity.
  - destruct (Ascii.eqb c CR || Ascii.eqb c LF) eqn:E2.
    + assert (Hb : frameByte (mkFraming es e h cr) c =
        if h then mkFraming es (e ++ [c]) false (Ascii.eqb c CR) else mkFraming (es ++ [e ++ [c]]) [] false (Ascii.eqb c CR)).
      { unfold frameByte. cbn [afterCR cur hasContent done]. rewrite E1, E2. reflexivity. }
      assert (Hu : (if Ascii.eqb c CR then LF :: unify true text
                    else if Ascii.eqb c LF && cr then unify false text else c :: unify false text) =
                   LF :: unify (Ascii.eqb c CR) text).
      { destruct (Ascii.eqb c CR) eqn:Ec; [reflexivity|]. cbn in E2. rewrite andb_comm, E1. apply eqb_true in E2 as ->. reflexivity. }
      assert (Hx : linesBy (e ++ [c]) = (lines ++ [line], [], Ascii.eqb c CR)).
      { rewrite linesBy_snoc, Hcur. unfold lineByte. rewrite E2. destruct (cr && negb (isNil e) && Ascii.eqb c LF) eqn:E3; [|reflexivity].
        destruct cr; [|discriminate E3]. cbn in E1. rewrite E1, andb_false_r in E3. discriminate E3. }
      rewrite Hb, Hu. cbn [group]. rewrite Ascii.eqb_refl. destruct line as [|x line]; cbn in Hcon; subst h.
      * specialize (IH (mkFraming (es ++ [e ++ [c]]) [] false (Ascii.eqb c CR)) [] []).
        cbn [afterCR done] in IH. destruct IH as [IH1 IH2].
        { apply framed_closed. intros Ec. rewrite Hx. exact Ec. }
        split; [|exact IH2]. rewrite IH1, omap_app. cbn [omap list_omap].
        assert (Hm : message (e ++ [c]) = messageOf lines).
        { unfold message. rewrite linesOf_by, Hx. unfold close. cbn. rewrite app_nil_r. apply message_blank. }
        rewrite Hm. destruct (messageOf lines); rewrite <- ?app_assoc, ?app_nil_r; reflexivity.
      * apply (IH (mkFraming es (e ++ [c]) false (Ascii.eqb c CR)) (lines ++ [x :: line]) []).
        split; cbn -[linesBy]; auto.
        -- rewrite Hx, isNil_snoc, andb_true_r. reflexivity.
        -- intros _ E. destruct e; discriminate E.
    + apply orb_false_iff in E2 as [Ec Ec']. rewrite frame_other by assumption. rewrite Ec, Ec'. cbn [andb].
      cbn [group]. rewrite Ec'.
      apply (IH (mkFraming es (e ++ [c]) true false) lines (line ++ [c])).
      split; cbn -[linesBy]; try discriminate; [|rewrite isNil_snoc; reflexivity].
      rewrite linesBy_snoc, Hcur. unfold lineByte. rewrite Ec, Ec', andb_false_r. reflexivity.
Qed.

(** ** The observation buffer *)

Section Observed.
Context `{EnvelopeDecoder} {Obs E : Type} (observe : Obs -> StreamEvent -> bool -> Obs * result E bool).

Definition isError (m : StreamEvent) : bool := bool_decide (m.(Name) = bytes "error") || isSSEErrorPayload m.(Payload).

(** The observer sees the messages in order, until it refuses one; the flag tells whether
    one of them was terminal. *)
Fixpoint observeAll (o : Obs) (ms : list StreamEvent) : Obs * result E bool :=
  match ms with
  | [] => (o, Ok false)
  | m :: ms =>
    match observe o m (isError m) with
    | (o, Err e) => (o, Err e)
    | (o, Ok t) => match observeAll o ms with (o, Ok t') => (o, Ok (t || t')) | x => x end
    end
  end.

Lemma observeAll_app ms ms' : forall o, observeAll o (ms ++ ms') =
  match observeAll o ms with
  | (o, Err e) => (o, Err e)
  | (o, Ok t) => match observeAll o ms' with (o, Ok t') => (o, Ok (t || t')) | x => x end
  end.
Proof.
  induction ms as [|m ms IH]; intros o; cbn.
  { destruct (observeAll o ms') as [o' [t|e]]; reflexivity. }
  destruct (observe o m (isError m)) as [o' [t|e]]; [|reflexivity]. rewrite IH.
  destruct (observeAll o' ms) as [o'' [t'|e]]; [|reflexivity].
  destruct (observeAll o'' ms') as [o3 [t3|e]]; [|reflexivity]. rewrite orb_assoc. reflexivity.
Qed.

Lemma dataValues_lines lines : Forall (fun l => l.(data) = parseSSEDataLine l.(content)) lines ->
  dataValues lines = omap parseSSEDataLine (map content lines).
Proof. induction 1 as [|l lines Hl _ IH]; [reflexivity|]. cbn. rewrite Hl. unfold dataValues in IH. rewrite IH. reflexivity. Qed.

Lemma splitLoop_data n : forall event line, (length event <= n)%nat ->
  Forall (fun l => l.(data) = parseSSEDataLine l.(content)) (splitLoop line event).
Proof.
  induction n as [|n IH]; intros event line Hn.
  { destruct event; [|cbn in Hn; lia]. destruct line; repeat constructor. }
  destruct event as [|c event]; [destruct line; repeat constructor|]. cbn in Hn. cbn [splitLoop].
  destruct (Ascii.eqb c CR).
  - destruct event as [|c' event]; [repeat constructor|]. case_if; constructor; try reflexivity; apply IH; cbn in *; lia.
  - case_if; [constructor; [reflexivity|]|]; apply IH; lia.
Qed.

Lemma eventName_lines lines : eventName lines = nameOf (map content lines).
Proof. unfold eventName, nameOf. generalize (@nil ascii). induction lines as [|l lines IH]; intros n; [reflexivity|]. apply IH. Qed.

Lemma observeEvent_message o event : observeEvent observe o event =
  match message event with None => (o, Ok false) | Some m => observe o m (isError m) end.
Proof.
  unfold observeEvent, message, messageOf, linesOf.
  rewrite dataValues_lines by (apply (splitLoop_data (length event)); lia). rewrite eventName_lines.
  set (values := omap parseSSEDataLine _). set (name := nameOf _). clearbody values name.
  destruct values as [|v values]; [reflexivity|]. destruct (joinLines (v :: values)); reflexivity.
Qed.

(** The buffer after the bytes of [q]. *)
Record buffers (limit : Z) (b : sseEventObservationBuffer) (q : framing) : Prop := {
  bf_pending : b.(pending) = q.(cur);
  bf_limit : b.(maxEventBytes) = limit;
  bf_scanner : scans b.(scanner) q;
  bf_terminal : b.(pendingTerminal) = true -> q.(afterCR) = true /\ q.(cur) = [];
}.

Definition pushed_ok (limit : Z) (b : sseEventObservationBuffer) (o : Obs) (consumed : nat) (terminal : bool) (q q' : framing)
    (size : nat) (x : sseEventObservationBuffer * Obs * option (result (SseError E) (nat * bool))) : Prop :=
  match x with
  | (_, _, None) => False
  | (b', o', Some (Ok (n, t))) =>
    fits limit q' /\ buffers limit b' q' /\ n = (consumed + (size - length q'.(cur)))%nat /\
    exists ms t', omap message q'.(done) = omap message q.(done) ++ ms /\ observeAll o ms = (o', Ok t') /\
      t || b'.(pendingTerminal) = terminal || b.(pendingTerminal) || t'
  | (_, _, Some (Err errSSEEventTooLarge)) => ~ fits limit q'
  | (_, _, Some (Err errSSEEventIncomplete)) => False
  | (_, o', Some (Err (ObserveFailed e))) =>
    exists ms ms', omap message q'.(done) = omap message q.(done) ++ ms ++ ms' /\ observeAll o ms = (o', Err e)
  end.

Lemma cur_byte q c : (length (frameByte q c).(cur) <= S (length q.(cur)))%nat.
Proof.
  unfold frameByte. destruct (cur q); repeat case_if; cbn [cur]; rewrite ?length_app; cbn; lia.
Qed.

Lemma cur_length d : forall q, (length (frame q d).(cur) <= length (q.(cur) ++ d))%nat.
Proof.
  induction d as [|c d IH]; intros q; [rewrite app_nil_r; reflexivity|]. rewrite frame_cons.
  pose proof (IH (frameByte q c)). pose proof (cur_byte q c). rewrite length_app in *. cbn. lia.
Qed.

Lemma pushed_shift limit b b1 o o1 consumed terminal terminal1 q q1 q' size e ms t x :
  omap message q1.(done) = omap message q.(done) ++ ms -> observeAll o ms = (o1, Ok t) ->
  terminal1 || b1.(pendingTerminal) = terminal || b.(pendingTerminal) || t -> (e + length q'.(cur) <= size)%nat ->
  pushed_ok limit b1 o1 (consumed + e) terminal1 q1 q' (size - e) x -> pushed_ok limit b o consumed terminal q q' size x.
Proof.
  intros Hm Ho Ht Hs. destruct x as [[b' o'] [[[n t']|[| |err]]|]]; cbn; auto.
  - intros (Hf & Hb & Hn & ms' & t2 & Hm' & Ho' & Ht'). split_and!; [exact Hf|exact Hb|lia|]. exists (ms ++ ms'), (t || t2).
    rewrite Hm', Hm, app_assoc. split; [reflexivity|]. split; [rewrite observeAll_app, Ho, Ho'; reflexivity|].
    rewrite Ht', Ht, <- orb_assoc. reflexivity.
  - intros (ms1 & ms2 & Hm' & Ho'). exists (ms ++ ms1), ms2. rewrite Hm', Hm, <- !app_assoc. split; [reflexivity|].
    rewrite observeAll_app, Ho, Ho'. reflexivity.
Qed.

(** A byte other than a line feed does not care for a carriage return before it. *)
Lemma frame_forget es e h cr c d : Ascii.eqb c LF = false -> frame (mkFraming es e h cr) (c :: d) = frame (mkFraming es e h false) (c :: d).
Proof. intros Ec. rewrite !frame_cons. unfold frameByte. cbn [afterCR cur hasContent done]. rewrite Ec, andb_false_r. reflexivity. Qed.

(** The part of a round after the optional line feed. *)
Definition searchRound (fuel : nat) (b : sseEventObservationBuffer) (o : Obs) (consumed : nat) (terminal : bool) :=
  let '(s, found) := Find b.(scanner) b.(pending) in
  let b := b <| scanner := s |> in
  match found with
  | None =>
    if len b.(pending) >? b.(maxEventBytes) then (b, o, Some (Err errSSEEventTooLarge))
    else (b, o, Some (Ok (consumed, terminal)))
  | Some eventEnd =>
    if Z.of_nat eventEnd >? b.(maxEventBytes) then (b, o, Some (Err errSSEEventTooLarge))
    else
      match observeEvent observe o (take eventEnd b.(pending)) with
      | (o, Err e) => (b, o, Some (Err (ObserveFailed e)))
      | (o, Ok terminalEvent) =>
        let b := discard b eventEnd in
        let b := b <| scanner := AfterEvent b.(scanner) (Z.of_nat eventEnd) (Z.of_nat eventEnd) |> in
        if terminalEvent && b.(scanner).(optionalLineFeed)
        then pushLoop observe fuel (b <| pendingTerminal := true |>) o (consumed + eventEnd) terminal
        else pushLoop observe fuel b o (consumed + eventEnd) (terminal || terminalEvent)
      end
  end.

(** What a round starts from. *)
Record rounds (limit : Z) (b : sseEventObservationBuffer) (q : framing) (d : wire) : Prop := {
  rd_pending : b.(pending) = q.(cur) ++ d;
  rd_limit : b.(maxEventBytes) = limit;
  rd_scanner : scans b.(scanner) q;
  rd_terminal : b.(pendingTerminal) = true -> q.(afterCR) = true /\ q.(cur) = [];
  rd_framed : exists lines line, framed q lines line;
  rd_fits : Forall (fun e => len e <= limit) q.(done);
}.

Definition loop_ok (fuel : nat) : Prop := forall limit b o consumed terminal q d, 0 <= limit -> rounds limit b q d ->
  (length (q.(cur) ++ d) < fuel)%nat ->
  pushed_ok limit b o consumed terminal q (frame q d) (length (q.(cur) ++ d)) (pushLoop observe fuel b o consumed terminal).

Lemma Find_ok limit b q d : rounds limit b q d -> b.(scanner).(optionalLineFeed) = false \/ q.(cur) ++ d = [] ->
  found_ok q d (Find b.(scanner) b.(pending)).
Proof.
  intros Hr Ho. destruct q as [es e h cr]. pose proof Hr as [Hp _ Hs _ _ _]. cbn [cur] in *. unfold Find.
  rewrite Hp, (sc_offset _ _ Hs). cbn [cur]. rewrite Nat.min_l by (rewrite length_app; lia).
  rewrite drop_app_length. destruct Ho as [Ho|Hn]; [eapply findLoop_ok; eauto|].
  apply app_eq_nil in Hn as [-> ->]. cbn. auto.
Qed.

Lemma search_ok fuel limit b o consumed terminal q d : loop_ok fuel -> 0 <= limit -> rounds limit b q d ->
  b.(scanner).(optionalLineFeed) = false \/ q.(cur) ++ d = [] -> (length (q.(cur) ++ d) < S fuel)%nat ->
  pushed_ok limit b o consumed terminal q (frame q d) (length (q.(cur) ++ d)) (searchRound fuel b o consumed terminal).
Proof.
  intros IH H0 Hr Hop Hfuel. pose proof (Find_ok _ _ _ _ Hr Hop) as Hf. pose proof Hr as [Hp Hl Hs Ht [lines [line Hfr]] Hd].
  unfold searchRound. destruct (Find (scanner b) (pending b)) as [s [n|]]; cbn [found_ok] in Hf.
  - destruct Hf as (d1 & d2 & -> & -> & Hq). set (ev := cur q ++ d1) in *.
    destruct (frame_messages d1 q lines line Hfr) as [_ Hfr1]. rewrite Hq in Hfr1.
    rewrite app_assoc in *. fold ev in Hp, Hfuel |- *. rewrite frame_app, Hq.
    assert (Hev : ev <> []).
    { intros En. assert (E1 : d1 = []) by (destruct d1; [reflexivity|]; unfold ev in En; destruct (cur q); discriminate En).
      rewrite E1 in Hq. cbn in Hq. apply (f_equal done) in Hq. cbn in Hq. apply (f_equal length) in Hq.
      rewrite length_app in Hq. cbn in Hq. lia. }
    cbn [maxEventBytes pending]. cbn. unfold const. rewrite Hl, Hp.
    set (q1 := mkFraming (done q ++ [ev]) [] false (skipLineFeed s)) in *.
    destruct (Z.of_nat (length ev) >? limit) eqn:Ebig.
    { cbn. intros Hfit. apply fits_frame in Hfit; [|exact H0]. destruct Hfit as [Hfit _]. cbn in Hfit.
      apply Forall_app in Hfit as [_ Hfit]. inversion Hfit as [|? ? Hx _]. unfold len in Hx. lia. }
    rewrite take_app_length, observeEvent_message.
    assert (Hm1 : omap message (done q1) = omap message (done q) ++ omap message [ev]) by apply omap_app.
    assert (Hlen : length (ev ++ d2) = (length ev + length d2)%nat) by apply length_app.
    assert (Hpos : (0 < length ev)%nat) by (destruct ev; [easy|cbn; lia]).
    assert (Hnext : forall b1 o1 t1 ms t, pending b1 = d2 -> maxEventBytes b1 = limit ->
              scanner b1 = AfterEvent s (Z.of_nat (length ev)) (Z.of_nat (length ev)) ->
              (pendingTerminal b1 = true -> skipLineFeed s = true) ->
              omap message [ev] = ms -> observeAll o ms = (o1, Ok t) -> t1 || pendingTerminal b1 = terminal || pendingTerminal b || t ->
              pushed_ok limit b o consumed terminal q (frame q1 d2) (length (ev ++ d2))
                (pushLoop observe fuel b1 o1 (consumed + length ev) t1)).
    { intros b1 o1 t1 ms t B1 B2 B3 B4 B5 B6 B7. subst ms.
      eapply (pushed_shift limit b b1 o o1 consumed terminal t1 q q1 _ _ (length ev)); [exact Hm1|exact B6|exact B7| |].
      - pose proof (cur_length d2 q1). cbn in *. lia.
      - replace (length (ev ++ d2) - length ev)%nat with (length (cur q1 ++ d2)) by (cbn; lia).
        apply IH; [exact H0| |cbn; lia]. split; auto.
        + rewrite B3. unfold AfterEvent, q1. split; cbn; rewrite ?andb_false_r, ?andb_true_r; auto.
          intros _. exists (done q), ev. auto.
        + apply Forall_app. split; [exact Hd|]. constructor; [unfold len; lia|constructor]. }
    assert (Hpt : pendingTerminal b = false).
    { destruct (pendingTerminal b); [|reflexivity]. destruct (Ht eq_refl) as [Ha Hc]. destruct Hop as [Hop|Hop].
      - rewrite (sc_optional _ _ Hs), Ha, Hc in Hop. discriminate Hop.
      - apply (f_equal length) in Hop. rewrite !length_app in Hop. unfold ev in Hpos. rewrite length_app in Hpos. cbn in Hop. lia. }
    assert (Hdr : drop (length ev) (pending b) = d2) by (rewrite Hp; apply drop_app_length).
    destruct (message ev) as [m|] eqn:Em; cbn [omap list_omap] in Hnext; rewrite ?Em in Hnext.
    + destruct (observe o m (isError m)) as [o1 [t1|err]] eqn:Eo.
      * assert (Ho1 : observeAll o [m] = (o1, Ok t1)) by (cbn; rewrite Eo, orb_false_r; reflexivity).
        destruct (t1 && skipLineFeed s) eqn:Et.
        -- apply andb_true_iff in Et as [-> Esk]. eapply Hnext; [exact Hdr|exact Hl|reflexivity|auto|reflexivity|exact Ho1|].
           cbn. unfold const. rewrite !orb_true_r. reflexivity.
        -- eapply Hnext; [exact Hdr|exact Hl|reflexivity| |reflexivity|exact Ho1|]; cbn; unfold const; rewrite Hpt; [discriminate|].
           rewrite !orb_false_r. reflexivity.
      * destruct Hfr1 as (lines1 & line1 & Hfr1). destruct (frame_messages d2 q1 lines1 line1 Hfr1) as [Hm2 _].
        eexists [m], _. rewrite Hm2, Hm1. cbn [omap list_omap]. rewrite Em, <- app_assoc. split; [reflexivity|].
        cbn. rewrite Eo. reflexivity.
    + eapply (Hnext _ _ _ [] false); [exact Hdr|exact Hl|reflexivity| |reflexivity|reflexivity|]; cbn; unfold const; rewrite Hpt;
        [discriminate|].
      rewrite !orb_false_r. reflexivity.
  - destruct Hf as (Hdone & Hcur & Hsc). cbn. unfold const. rewrite Hl, Hp, <- Hcur.
    destruct (len (cur (frame q d)) >? limit) eqn:Ebig; [intros [_ Hc]; lia|].
    split_and!.
    + split; [rewrite Hdone; exact Hd|lia].
    + split; cbn; unfold const; [congruence|exact Hl|exact Hsc|]. intros Hb. destruct (Ht Hb) as [Ha Hc]. destruct Hop as [Hop|Hop].
      * rewrite (sc_optional _ _ Hs), Ha, Hc in Hop. discriminate Hop.
      * apply app_eq_nil in Hop as [_ ->]. auto.
    + lia.
    + exists [], false. rewrite Hdone, app_nil_r, !orb_false_r. auto.
Qed.

(** A round that consumes nothing before it searches. *)
Lemma round_search fuel b o consumed terminal s : ConsumeOptionalLineFeed b.(scanner) b.(pending) false b.(maxEventBytes) = (s, 0%nat, false) ->
  let settled := b.(pendingTerminal) && negb s.(optionalLineFeed) in
  pushLoop observe (S fuel) b o consumed terminal =
  searchRound fuel ((if settled then b <| scanner := s |> <| pendingTerminal := false |> else b <| scanner := s |>)) o consumed
    (terminal || settled).
Proof. intros Hc. cbn zeta. cbn [pushLoop]. rewrite Hc. reflexivity. Qed.

Lemma round_feed fuel b o consumed terminal s : ConsumeOptionalLineFeed b.(scanner) b.(pending) false b.(maxEventBytes) = (s, 1%nat, false) ->
  let settled := b.(pendingTerminal) && negb s.(optionalLineFeed) in
  pushLoop observe (S fuel) b o consumed terminal =
  pushLoop observe fuel (discard (if settled then b <| scanner := s |> <| pendingTerminal := false |> else b <| scanner := s |>) 1) o
    (consumed + 1) (terminal || settled).
Proof. intros Hc. cbn zeta. cbn [pushLoop]. rewrite Hc. reflexivity. Qed.

Lemma pushLoop_ok fuel : loop_ok fuel.
Proof.
  induction fuel as [|fuel IH]; intros limit b o consumed terminal q d H0 Hr Hfuel; [lia|].
  pose proof Hr as [Hp Hl Hs Ht [lines [line Hfr]] Hd]. destruct (optionalLineFeed (scanner b)) eqn:Eop.
  2:{ (* nothing is outstanding *)
    assert (Hpt : pendingTerminal b = false).
    { destruct (pendingTerminal b); [|reflexivity]. destruct (Ht eq_refl) as [Ha Hc].
      rewrite (sc_optional _ _ Hs), Ha, Hc in Eop. discriminate Eop. }
    assert (Hc : ConsumeOptionalLineFeed (scanner b) (pending b) false (maxEventBytes b) = (scanner b, 0%nat, false)).
    { unfold ConsumeOptionalLineFeed. rewrite Eop. reflexivity. }
    rewrite (round_search _ _ _ _ _ _ Hc), Hpt. cbn [andb]. rewrite orb_false_r.
    assert (Eb : b <| scanner := scanner b |> = b) by (destruct b; reflexivity). rewrite Eb.
    apply search_ok; auto. }
  pose proof (sc_optional _ _ Hs) as Eo. rewrite Eop in Eo. symmetry in Eo. apply andb_true_iff in Eo as [Ha Hn].
  destruct q as [es e h cr]. cbn [afterCR cur done] in *. subst cr. destruct e as [|x e]; [|discriminate Hn]. cbn [app] in *.
  destruct (sc_previous _ _ Hs Eop) as (es' & e' & Ees & Hpi & Hpo). cbn [done] in Ees. subst es.
  assert (Hh : h = false).
  { pose proof (fr_content _ _ _ Hfr) as Hc. pose proof (fr_after _ _ _ Hfr eq_refl) as ->. exact Hc. }
  subst h. assert (Hlines : lines = [] /\ line = []).
  { pose proof (fr_cur _ _ _ Hfr) as Hc. cbn in Hc. injection Hc as <- <-. auto. }
  destruct Hlines as [-> ->].
  assert (Hclear : negb (optionalLineFeed (clearOptionalLineFeed (scanner b))) = true) by reflexivity.
  destruct d as [|c d]; [|destruct (Ascii.eqb c LF) eqn:Ec].
  - (* the stream ends here for now *)
    assert (Hc : ConsumeOptionalLineFeed (scanner b) (pending b) false (maxEventBytes b) = (scanner b, 0%nat, false)).
    { unfold ConsumeOptionalLineFeed. rewrite Eop, Hp. reflexivity. }
    rewrite (round_search _ _ _ _ _ _ Hc), Eop, andb_false_r. rewrite orb_false_r.
    assert (Eb : b <| scanner := scanner b |> = b) by (destruct b; reflexivity). rewrite Eb.
    apply search_ok; auto.
  - (* the line feed of the last event *)
    apply eqb_true in Ec as ->. rewrite frame_cons.
    assert (Hb : frameByte (mkFraming (es' ++ [e']) [] false true) LF = mkFraming (es' ++ [e' ++ [LF]]) [] false false).
    { unfold frameByte. cbn. rewrite extendLast_snoc. reflexivity. }
    rewrite Hb.
    assert (Hc : ConsumeOptionalLineFeed (scanner b) (pending b) false (maxEventBytes b) =
                 (clearOptionalLineFeed (scanner b), 1%nat, len e' >=? limit)).
    { unfold ConsumeOptionalLineFeed. rewrite Eop, Hp, Ascii.eqb_refl. cbn [negb]. rewrite Hpi, Hpo, Hl, orb_diag. reflexivity. }
    destruct (len e' >=? limit) eqn:Ebig.
    { cbn [pushLoop]. rewrite Hc. intros Hfit. apply fits_frame in Hfit; [|exact H0]. destruct Hfit as [Hfit _]. cbn [done] in Hfit.
      apply Forall_app in Hfit as [_ Hfit]. rewrite Forall_singleton, len_snoc in Hfit. lia. }
    rewrite (round_feed _ _ _ _ _ _ Hc), Hclear, andb_true_r.
    set (b1 := discard _ 1). set (q1 := mkFraming (es' ++ [e' ++ [LF]]) [] false false).
    assert (Hb1 : pending b1 = d /\ maxEventBytes b1 = limit /\ scanner b1 = clearOptionalLineFeed (scanner b) /\ pendingTerminal b1 = false).
    { unfold b1. destruct (pendingTerminal b) eqn:Ept; cbn; unfold const; rewrite Hp; auto. }
    destruct Hb1 as (B1 & B2 & B3 & B4).
    assert (Hcr : (linesBy e').2 = true) by (apply (proj1 (framed_closed es' e' true) Hfr); reflexivity).
    apply (pushed_shift limit b b1 o o consumed terminal (terminal || pendingTerminal b) _ q1 _ _ 1 [] false).
    + unfold q1. cbn [done]. rewrite !omap_app. cbn [omap list_omap]. rewrite message_LF by exact Hcr. rewrite app_nil_r. reflexivity.
    + reflexivity.
    + rewrite B4, !orb_false_r. reflexivity.
    + pose proof (cur_length d q1). cbn in *. lia.
    + replace (length (LF :: d) - 1)%nat with (length (cur q1 ++ d)) by (cbn; lia).
      apply IH; [exact H0| |cbn in *; lia]. split; auto.
      * rewrite B3. split; cbn; unfold const; [exact (sc_offset _ _ Hs)|exact (sc_content _ _ Hs)|exact (sc_skip _ _ Hs)|reflexivity|discriminate].
      * rewrite B4. discriminate.
      * exists [], []. apply framed_closed. discriminate.
      * cbn [done q1] in *. apply Forall_app in Hd as [Hd _]. apply Forall_app. split; [exact Hd|]. constructor; [rewrite len_snoc; lia|constructor].
  - (* another event begins *)
    assert (Hc : ConsumeOptionalLineFeed (scanner b) (pending b) false (maxEventBytes b) =
                 (clearOptionalLineFeed (scanner b), 0%nat, false)).
    { unfold ConsumeOptionalLineFeed. rewrite Eop, Hp, Ec. reflexivity. }
    rewrite (round_search _ _ _ _ _ _ Hc), Hclear, andb_true_r. rewrite frame_forget by exact Ec.
    set (b1 := if pendingTerminal b then _ else _). set (q1 := mkFraming (es' ++ [e']) [] false false).
    assert (Hb1 : pending b1 = c :: d /\ maxEventBytes b1 = limit /\ scanner b1 = clearOptionalLineFeed (scanner b) /\ pendingTerminal b1 = false).
    { unfold b1. destruct (pendingTerminal b) eqn:Ept; cbn; unfold const; rewrite ?Hp; auto. }
    destruct Hb1 as (B1 & B2 & B3 & B4).
    apply (pushed_shift limit b b1 o o consumed terminal (terminal || pendingTerminal b) _ q1 _ _ 0 [] false).
    + cbn. rewrite app_nil_r. reflexivity.
    + reflexivity.
    + rewrite B4, !orb_false_r. reflexivity.
    + pose proof (cur_length (c :: d) q1). cbn -[frame] in *. lia.
    + rewrite Nat.add_0_r, Nat.sub_0_r. change (c :: d) with (cur q1 ++ c :: d) at 2. apply search_ok; auto.
      * split; auto.
        -- rewrite B3. split; cbn; unfold const; [exact (sc_offset _ _ Hs)|exact (sc_content _ _ Hs)|exact (sc_skip _ _ Hs)|reflexivity|discriminate].
        -- rewrite B4. discriminate.
        -- exists [], []. apply framed_closed. discriminate.
      * left. rewrite B3. reflexivity.
Qed.

(** ** Whole streams *)

Lemma cur_suffix d : forall q, exists pre, q.(cur) ++ d = pre ++ (frame q d).(cur).
Proof.
  induction d as [|c d IH]; intros q; [exists []; rewrite app_nil_r; reflexivity|]. rewrite frame_cons.
  destruct (IH (frameByte q c)) as [pre Hpre].
  assert (Hb : exists pre', q.(cur) ++ [c] = pre' ++ (frameByte q c).(cur)).
  { destruct q as [es e h cr]. unfold frameByte. cbn [cur afterCR hasContent done].
    destruct e; repeat case_if; cbn [cur]; first [exists []; reflexivity|eexists; symmetry; apply app_nil_r]. }
  destruct Hb as [pre' Hb]. exists (pre' ++ pre). rewrite <- app_assoc, <- Hpre, app_assoc, <- Hb, <- app_assoc. reflexivity.
Qed.

Lemma buffers_rounds limit b q c lines line : buffers limit b q -> framed q lines line -> fits limit q ->
  rounds limit (b <| pending := b.(pending) ++ c |>) q c.
Proof.
  intros [Hp Hl Hs Ht] Hf [Hd _]. split; cbn; unfold const; auto; [rewrite Hp; reflexivity|eauto].
Qed.

(** One chunk. *)
Lemma push_ok limit b o c q lines line : 0 <= limit -> buffers limit b q -> framed q lines line -> fits limit q ->
  match push observe b o c with
  | (b', o', Ok (out, t)) =>
    fits limit (frame q c) /\ buffers limit b' (frame q c) /\ q.(cur) ++ c = out ++ (frame q c).(cur) /\
    exists ms t', omap message (frame q c).(done) = omap message q.(done) ++ ms /\ observeAll o ms = (o', Ok t') /\
      t || b'.(pendingTerminal) = b.(pendingTerminal) || t'
  | (_, _, Err errSSEEventTooLarge) => ~ fits limit (frame q c)
  | (_, _, Err errSSEEventIncomplete) => False
  | (_, o', Err (ObserveFailed e)) =>
    exists ms ms', omap message (frame q c).(done) = omap message q.(done) ++ ms ++ ms' /\ observeAll o ms = (o', Err e)
  end.
Proof.
  intros H0 Hb Hf Hfit. pose proof (buffers_rounds limit b q c lines line Hb Hf Hfit) as Hr. unfold push.
  assert (Hp : pending (b <| pending := b.(pending) ++ c |>) = cur q ++ c) by (cbn; unfold const; rewrite (bf_pending _ _ _ Hb); reflexivity).
  rewrite Hp. pose proof (pushLoop_ok (S (length (cur q ++ c))) limit _ o 0%nat false q c H0 Hr ltac:(lia)) as Hx.
  destruct (pushLoop _ _ _ _ _ _) as [[b' o'] [[[n t]|[| |e]]|]]; cbn [pushed_ok] in Hx; auto.
  destruct Hx as (H1 & H2 & -> & ms & t' & H3 & H4 & H5). split; [exact H1|]. split; [exact H2|]. split.
  - destruct (cur_suffix c q) as [pre Hpre]. rewrite Hpre, length_app. replace (0 + _)%nat with (length pre) by lia.
    rewrite take_app_length. reflexivity.
  - exists ms, t'. auto.
Qed.

(** The chunks of a stream, until one of them fails. *)
Fixpoint pushAll (b : sseEventObservationBuffer) (o : Obs) (chunks : list wire)
    : sseEventObservationBuffer * Obs * result (SseError E) (wire * bool) :=
  match chunks with
  | [] => (b, o, Ok ([], false))
  | chunk :: chunks =>
    match push observe b o chunk with
    | (b, o, Err e) => (b, o, Err e)
    | (b, o, Ok (out, t)) =>
      match pushAll b o chunks with
      | (b, o, Ok (out', t')) => (b, o, Ok (out ++ out', t || t'))
      | x => x
      end
    end
  end.

Lemma concat_cons c (cs : list wire) : concat (c :: cs) = c ++ concat cs.
Proof. reflexivity. Qed.

Lemma pushAll_ok limit cs : 0 <= limit -> forall b o q lines line, buffers limit b q -> framed q lines line -> fits limit q ->
  let q' := frame q (concat cs) in
  match pushAll b o cs with
  | (b', o', Ok (out, t)) =>
    fits limit q' /\ buffers limit b' q' /\ q.(cur) ++ concat cs = out ++ q'.(cur) /\
    exists ms t', omap message q'.(done) = omap message q.(done) ++ ms /\ observeAll o ms = (o', Ok t') /\
      t || b'.(pendingTerminal) = b.(pendingTerminal) || t'
  | (_, _, Err errSSEEventTooLarge) => ~ fits limit q'
  | (_, _, Err errSSEEventIncomplete) => False
  | (_, o', Err (ObserveFailed e)) =>
    exists ms ms', omap message q'.(done) = omap message q.(done) ++ ms ++ ms' /\ observeAll o ms = (o', Err e)
  end.
Proof.
  intros H0. induction cs as [|c cs IH]; intros b o q lines line Hb Hf Hfit; cbn zeta.
  { cbn. rewrite !app_nil_r. split_and!; auto. exists [], false. rewrite app_nil_r, orb_false_r. auto. }
  rewrite concat_cons, frame_app. cbn [pushAll]. pose proof (push_ok limit b o c q lines line H0 Hb Hf Hfit) as Hx.
  destruct (frame_messages c q lines line Hf) as [_ (lines1 & line1 & Hf1)].
  destruct (push observe b o c) as [[b1 o1] [[out t]|[| |e]]].
  - destruct Hx as (H1 & H2 & H3 & ms & t1 & H4 & H5 & H6).
    specialize (IH b1 o1 (frame q c) lines1 line1 H2 Hf1 H1). cbn zeta in IH.
    destruct (pushAll b1 o1 cs) as [[b2 o2] [[out2 t2]|[| |e]]]; [|exact IH|exact IH|].
    + destruct IH as (G1 & G2 & G3 & ms2 & t3 & G4 & G5 & G6). split; [exact G1|]. split; [exact G2|]. split.
      * rewrite app_assoc, H3, <- !app_assoc, G3. reflexivity.
      * exists (ms ++ ms2), (t1 || t3). rewrite G4, H4, app_assoc. split; [reflexivity|].
        split; [rewrite observeAll_app, H5, G5; reflexivity|].
        rewrite <- orb_assoc, G6, orb_assoc, H6, orb_assoc. reflexivity.
    + destruct IH as (ms2 & ms3 & G4 & G5). exists (ms ++ ms2), ms3. rewrite G4, H4, <- !app_assoc. split; [reflexivity|].
      rewrite observeAll_app, H5, G5. reflexivity.
  - intros Hx'. apply Hx. exact (fits_frame limit (concat cs) H0 _ Hx').
  - exact Hx.
  - destruct Hx as (ms & ms' & H4 & H5).
    destruct (frame_messages (concat cs) (frame q c) lines1 line1 Hf1) as [Hm _].
    eexists ms, _. rewrite Hm, H4, <- !app_assoc. split; [reflexivity|exact H5].
Qed.

Lemma finish_ok limit b q : buffers limit b q -> fits limit q ->
  snd (finish (E := E) b) = (if isNil q.(cur) then Ok tt else Err errSSEEventIncomplete).
Proof.
  intros [Hp Hl Hs _] _. destruct b as [p pt limit' sc]. cbn [pending maxEventBytes scanner] in *. subst p. unfold finish.
  cbn [scanner pending maxEventBytes]. unfold ConsumeOptionalLineFeed. destruct (optionalLineFeed sc) eqn:Eo; cbn [negb].
  - pose proof (sc_optional _ _ Hs) as Ex. rewrite Eo in Ex. symmetry in Ex. apply andb_true_iff in Ex as [_ Hn].
    destruct (cur q); [|discriminate Hn]. destruct pt; reflexivity.
  - destruct pt, (cur q); cbn; rewrite ?Eo; reflexivity.
Qed.

(** [C5] Framing is exact.  However the upstream's bytes are cut into chunks, the
    observer sees exactly the messages of the event-stream format in the whole text, in
    order, until it refuses one; the buffer hands on the text without the bytes of the
    open event, unchanged; a chunk is refused exactly when an event or the open one
    exceeds the limit; and at the end the stream is complete exactly when no event is
    open.  A terminal message is reported by then unless its line feed is outstanding. *)
Theorem sse_framing_exact limit o chunks :
  let text := concat chunks in
  let q := frame emptyFraming text in
  let within := fits (normalizedSSEEventLimit limit) q in
  match pushAll (newSSEEventObservationBuffer limit) o chunks with
  | (b, o', Ok (out, t)) =>
    within /\ observeAll o (messages text) = (o', Ok (t || b.(pendingTerminal))) /\ text = out ++ q.(cur) /\
    (snd (finish (E := E) b) = Ok tt <-> q.(cur) = [])
  | (_, _, Err errSSEEventTooLarge) => ~ within
  | (_, _, Err errSSEEventIncomplete) => False
  | (_, o', Err (ObserveFailed e)) => exists seen rest, messages text = seen ++ rest /\ observeAll o seen = (o', Err e)
  end.
Proof.
  cbn zeta. set (max := normalizedSSEEventLimit limit).
  assert (H0 : 0 <= max) by (unfold max, normalizedSSEEventLimit, DefaultSSEEventLimitBytes; case_if; lia).
  assert (Hb : buffers max (newSSEEventObservationBuffer limit) emptyFraming).
  { split; cbn; try reflexivity; try discriminate. split; cbn; try reflexivity. discriminate. }
  assert (Hfit : fits max emptyFraming) by (split; [constructor|exact H0]).
  pose proof (pushAll_ok max chunks H0 _ o _ _ _ Hb framed_empty Hfit) as Hx. cbn zeta in Hx.
  destruct (frame_messages (concat chunks) emptyFraming [] [] framed_empty) as [Hm _]. cbn [done emptyFraming] in Hm.
  assert (Hmsg : omap message (frame emptyFraming (concat chunks)).(done) = messages (concat chunks)) by exact Hm.
  rewrite Hmsg in Hx.
  destruct (pushAll _ o chunks) as [[b o'] [[out t]|[| |e]]]; [|exact Hx|exact Hx|exact Hx].
  destruct Hx as (H1 & H2 & H3 & ms & t' & H4 & H5 & H6). cbn in H4. subst ms. cbn in H6. rewrite H6.
  split; [exact H1|]. split; [exact H5|]. split; [exact H3|]. rewrite (finish_ok max b _ H2 H1).
  destruct (cur (frame emptyFraming (concat chunks))); cbn; split; congruence.
Qed.

End Observed.

(** An event whose data lines end differently: putting the new payload on the first data
    line joins its carriage return with the line feed of the blank line, so the rewritten
    event has lost its end. *)
Lemma mixed_terminators_lose_the_end :
  let event := bytes "data: a" ++ [CR] ++ bytes "data: b" ++ [LF; LF] in
  snd (Find zeroScanner event) = Some (length event) /\
  exists rewritten,
    @rewriteSSEEventWithMetadata (fun _ => None) unit (fun _ _ => Ok (mkRewrite (bytes "c") false)) event = Ok rewritten /\
    snd (Find zeroScanner rewritten.(body)) = None.
Proof. split; [reflexivity|]. eexists. split; [vm_compute; reflexivity|reflexivity]. Qed.

End SseProps.
