(* ===== verification/Contracts.v ===== *)
(** * Attempt contracts

    The records an executor receives and returns and the validators the gateway runs on
    them ([internal/execution/contracts.go], [validation.go]), the observer of the first
    response ([first_response.go]) and the recognition of unsupported token counting
    ([count_tokens.go]).

    [json.Valid] and [url.ParseRequestURI] are arguments.  Copying methods ([Clone],
    [Data]) are the identity on values. *)

From Stdlib Require Import ZArith Lia Bool String Ascii List.
From stdpp Require Import base gmap sets list strings.
From coqutil Require Import Datatypes.RecordSettersUsingExistingGetters.
From S2P Require Import Prelude Usage GoStrings Execution.

Local Open Scope Z_scope.

(** ** Runes

    The number of bytes of the first rune of a text; a byte that starts no valid encoding
    is a rune of its own. *)

Definition between (lo hi : Z) (c : ascii) : bool := (lo <=? byte_val c) && (byte_val c <=? hi).

Definition rune_width (l : list ascii) : nat :=
  match l with
  | a :: b :: rest =>
    if between 194 223 a && between 128 191 b then 2
    else
      match rest with
      | c :: rest =>
        if (between 224 224 a && between 160 191 b || between 225 236 a && between 128 191 b ||
            between 237 237 a && between 128 159 b || between 238 239 a && between 128 191 b) && between 128 191 c then 3
        else
          match rest with
          | d :: _ =>
            if (between 240 240 a && between 144 191 b || between 241 243 a && between 128 191 b ||
                between 244 244 a && between 128 143 b) && between 128 191 c && between 128 191 d then 4 else 1
          | [] => 1
          end
      | [] => 1
      end
  | _ => 1
  end%nat.

(** [utf8.RuneCountInString]; every rune has at least one byte, so the length is enough
    fuel. *)
Fixpoint rune_count_fuel (fuel : nat) (l : list ascii) : Z :=
  match fuel, l with
  | S fuel, _ :: _ => 1 + rune_count_fuel fuel (drop (rune_width l) l)
  | _, _ => 0
  end.
Definition rune_count (l : list ascii) : Z := rune_count_fuel (length l) l.

(** ** Canonical header names *)

(** The bytes of a header field name (RFC 7230 tokens). *)
Definition token_byte (c : ascii) : bool :=
  between 48 57 c || between 65 90 c || between 97 122 c ||
  existsb (Ascii.eqb c) (bytes "!#$%&'*+-.^_`|~").

Definition upper_byte (c : ascii) : ascii :=
  if between 97 122 c then ascii_of_nat (nat_of_ascii c - 32) else c.

Fixpoint canonical_loop (upper : bool) (l : list ascii) : list ascii :=
  match l with
  | [] => []
  | c :: rest => (if upper then upper_byte c else lower_byte c) :: canonical_loop (Ascii.eqb c "-"%char) rest
  end.

(** [textproto.CanonicalMIMEHeaderKey]: names with other bytes are left alone. *)
Definition canonical_key (l : list ascii) : list ascii := if forallb token_byte l then canonical_loop true l else l.

Module Contracts.
Import Usage Execution.

(** ** Recognised values *)

Definition kindValid (k : ErrorKind) : bool := match k with ErrorKindOther _ => false | _ => true end.
Definition hintValid (h : FailureHint) : bool := match h with FailureHintOther _ => false | _ => true end.
Definition safetyValid (s : ReplaySafety) : bool := match s with ReplaySafetyOther _ => false | _ => true end.

Inductive StreamEventKind := StreamEventReady | StreamEventData | StreamEventUsage | StreamEventOther (raw : string).

#[export] Instance StreamEventKind_eq_dec : EqDecision StreamEventKind.
Proof. solve_decision. Defined.

Definition eventKindValid (k : StreamEventKind) : bool := match k with StreamEventOther _ => false | _ => true end.

(** ** Records *)

Record CredentialSnapshot := mkCredentialSnapshot {
  cs_ID : Z;
  cs_Version : Z;
  cs_IdentityGeneration : Z;
  cs_data : list ascii;
}.

Record AttemptTimeouts := mkTimeouts { FirstByte : Z; TotalRequest : Z; StreamIdle : Z }.

(** [url.Values] is a map from names to values, as a header is. *)
Record AttemptSpec := mkSpec {
  as_RequestID : string;
  as_AttemptID : string;
  as_Sequence : Z;
  as_ChannelID : string;
  as_RouteMode : RouteMode;
  as_ClientProtocol : Protocol;
  as_Operation : Operation;
  as_RouteRequirement : RouteRequirement;
  as_ResponsesStorePreference : ResponsesStorePreference;
  as_ResponsesStoreDowngraded : bool;
  as_ClientModel : string;
  as_UpstreamModel : string;
  as_Method : string;
  as_Path : string;
  as_Query : Header;
  as_RawQuery : string;
  as_Header : Header;
  as_Body : list ascii;
  as_ConfiguredHeaders : list string;
  as_ConfiguredParameters : list string;
  as_IncludeUsage : bool;
  as_ForceCredentialRefresh : bool;
  as_ContinuityKey : string;
  as_TargetConfig : list ascii;
  as_Timeouts : AttemptTimeouts;
  as_Credential : CredentialSnapshot;
}.

Definition NewAttemptSpec (spec : AttemptSpec) : AttemptSpec :=
  spec <| as_RouteRequirement := normalizeRequirement spec.(as_RouteRequirement) |>.

Record UsageEvidence := mkUsageEvidence { Normalized : Result; ue_Raw : list ascii }.

Record ReasoningConfig := mkReasoning { Mode : string; Effort : string; BudgetTokens : option Z }.

(** [UpstreamProtocol] and [AppliedReasoning] may be absent. *)
Record StreamResult := mkStreamResult {
  sr_DispatchState : DispatchState;
  sr_ResponseStarted : bool;
  sr_UpstreamProtocol : option Protocol;
  sr_AppliedReasoning : option ReasoningConfig;
  sr_StatusCode : Z;
  sr_Header : Header;
  sr_Model : string;
  sr_UpstreamRequestID : string;
  sr_Usage : option UsageEvidence;
  sr_Error : option ErrorEvidence;
}.

(** A unary result is the terminal result of a stream with a body. *)
Record AttemptResult := mkAttemptResult { ar_Result : StreamResult; ar_Body : list ascii }.

(** The header of an event may be nil. *)
Record StreamEvent := mkStreamEvent {
  se_Sequence : Z;
  se_Kind : StreamEventKind;
  se_StatusCode : Z;
  se_Header : option Header;
  se_UpstreamRequestID : string;
  se_Data : list ascii;
  se_Usage : option UsageEvidence;
}.

(** ** Validation *)

Record ValidationError := mkInvalid { Field : string; Reason : string }.

Definition invalid_if (b : bool) (field reason : string) : option ValidationError := err_if b (mkInvalid field reason).

Definition isEmpty {A} (l : list A) : bool := match l with [] => true | _ => false end.
Definition blank (s : string) : bool := isEmpty (trim_space (bytes s)).
Definition emptyText (s : string) : bool := bool_decide (s = ""%string).
Definition containsControl (s : string) : bool := has_control (bytes s).

Definition MaxErrorSummaryLength : Z := 4096.

Definition validHTTPStatus (statusCode : Z) : bool := (statusCode >=? 100) && (statusCode <=? 599).
Definition validOptionalHTTPStatus (statusCode : Z) : bool := (statusCode =? 0) || validHTTPStatus statusCode.

(** Bytes of runes outside ASCII are above 127, so the test is one on bytes. *)
Definition validHTTPToken (value : string) : bool :=
  match bytes value with
  | [] => false
  | l =>
    forallb (fun c => negb ((byte_val c <=? 31) || (byte_val c >=? 127) ||
                            existsb (Ascii.eqb c) (bytes "()<>@,;:\/[]?={} " ++ [ascii_of_nat 34; ascii_of_nat 9]))) l
  end.

(** [strings.ContainsAny(value, "\r\n\x00")]. *)
Definition breaksLine (value : string) : bool :=
  existsb (fun c => (byte_val c =? 13) || (byte_val c =? 10) || (byte_val c =? 0)) (bytes value).

Fixpoint validateHeader (header : Header) : option ValidationError :=
  match header with
  | [] => None
  | (name, values) :: rest =>
    (invalid_if (negb (validHTTPToken name)) "header" "invalid name" ;;!
     invalid_if (existsb breaksLine values) "header" "invalid value" ;;!
     validateHeader rest)%go
  end.

Definition safeEvidenceName (name : string) : bool :=
  let canonical := canonical_key (bytes name) in
  same_text canonical "Retry-After" || same_text canonical "Request-Id" || same_text canonical "X-Request-Id" ||
  same_text canonical "Traceparent" || has_prefix (bytes "Ratelimit-") canonical ||
  has_prefix (bytes "X-Ratelimit-") canonical.

Definition validateSafeEvidenceHeader (header : Header) : option ValidationError :=
  (validateHeader header ;;!
   invalid_if (existsb (fun '(name, _) => negb (safeEvidenceName name)) header) "header" "not allowlisted")%go.

Definition validateCredentialSnapshot (c : CredentialSnapshot) : option ValidationError :=
  (invalid_if (c.(cs_ID) =? 0) "credential.id" "must be greater than zero" ;;!
   invalid_if (c.(cs_Version) =? 0) "credential.version" "must be greater than zero" ;;!
   invalid_if (c.(cs_IdentityGeneration) =? 0) "credential.identity_generation" "must be greater than zero" ;;!
   invalid_if (isEmpty c.(cs_data)) "credential.data" "must not be empty")%go.

Definition validateTimeouts (t : AttemptTimeouts) : option ValidationError :=
  (invalid_if (t.(FirstByte) <? 0) "timeouts.first_byte" "must not be negative" ;;!
   invalid_if (t.(TotalRequest) <? 0) "timeouts.request" "must not be negative" ;;!
   invalid_if (t.(StreamIdle) <? 0) "timeouts.stream_idle" "must not be negative")%go.

Definition operationRequiresModel (o : Operation) : bool :=
  match o with
  | OperationChatCompletion | OperationResponsesCreate | OperationResponsesCompact | OperationResponsesInputTokens
  | OperationWebSearch | OperationCountTokens | OperationImagesGenerate | OperationImagesEdit
  | OperationEmbeddingsCreate | OperationRerank | OperationDecisionsCreate | OperationProbe => true
  | _ => false
  end.

Fixpoint validateValues (values : Header) : option ValidationError :=
  match values with
  | [] => None
  | (key, items) :: rest =>
    (invalid_if (emptyText key || containsControl key) "query" "invalid key" ;;!
     invalid_if (existsb containsControl items) "query" "invalid value" ;;!
     validateValues rest)%go
  end.

(** [json.Valid], and whether [url.ParseRequestURI] yields a relative reference that is
    nothing but a path. *)
Class WireParsers := { jsonValid : list ascii -> bool; plainRequestPath : string -> bool }.

Section Attempt.
Context `{WireParsers}.

Definition validateRequestPath (path : string) : option ValidationError :=
  (invalid_if (negb (has_prefix (bytes "/") (bytes path)) || has_prefix (bytes "//") (bytes path)) "path" "invalid prefix" ;;!
   invalid_if (negb (plainRequestPath path)) "path" "invalid request path")%go.

Definition failed {E} (e : option E) : bool := match e with Some _ => true | None => false end.

Definition validateStorePreference (s : AttemptSpec) : option ValidationError :=
  (invalid_if (negb (storePreferenceValid s.(as_ResponsesStorePreference))) "responses_store_preference" "unsupported value" ;;!
   invalid_if (bool_decide (s.(as_ResponsesStorePreference) = ResponsesStorePreferenceRequireStored) &&
               (negb (bool_decide (s.(as_ClientProtocol) = OpenAIResponses)) ||
                negb (bool_decide (s.(as_Operation) = OperationResponsesCreate)) ||
                negb (bool_decide (normalizeRequirement s.(as_RouteRequirement) = RouteRequirementNative))))
     "responses_store_preference" "requires a native Responses Create request" ;;!
   invalid_if (s.(as_ResponsesStoreDowngraded) &&
               (negb (bool_decide (s.(as_ClientProtocol) = OpenAIResponses)) ||
                negb (bool_decide (s.(as_Operation) = OperationResponsesCreate)) ||
                negb (bool_decide (normalizeRequirement s.(as_RouteRequirement) = RouteRequirementAny))))
     "responses_store_downgraded" "requires a Responses Create stateless route")%go.

Definition validateWireFields (s : AttemptSpec) : option ValidationError :=
  if bool_decide (s.(as_Operation) = OperationProbe)
  then invalid_if (negb (emptyText s.(as_Method)) || negb (emptyText s.(as_Path)) || negb (isEmpty s.(as_Query)) ||
                   negb (emptyText s.(as_RawQuery)) || negb (isEmpty s.(as_Body)))
         "probe" "must not contain provider wire fields"
  else
    (invalid_if (negb (validHTTPToken s.(as_Method))) "method" "must be a valid HTTP method" ;;!
     invalid_if (failed (validateRequestPath s.(as_Path))) "path" "must be an absolute request path without query or fragment" ;;!
     invalid_if (negb (emptyText s.(as_RawQuery)) && negb (isEmpty s.(as_Query))) "raw_query" "must not be combined with query" ;;!
     invalid_if (negb (emptyText s.(as_RawQuery)) &&
                 (existsb (Ascii.eqb "#"%char) (bytes s.(as_RawQuery)) || containsControl s.(as_RawQuery)))
       "raw_query" "contains a fragment or control characters" ;;!
     invalid_if (failed (validateValues s.(as_Query))) "query" "contains invalid control characters")%go.

Definition validateAttemptSpec (s : AttemptSpec) : option ValidationError :=
  (invalid_if (blank s.(as_RequestID)) "request_id" "must not be empty" ;;!
   invalid_if (blank s.(as_AttemptID)) "attempt_id" "must not be empty" ;;!
   invalid_if (s.(as_Sequence) =? 0) "sequence" "must be greater than zero" ;;!
   invalid_if (blank s.(as_ChannelID)) "channel_id" "must not be empty" ;;!
   invalid_if (negb (routeModeValid s.(as_RouteMode))) "route_mode" "unsupported value" ;;!
   invalid_if (negb (protocolValid s.(as_ClientProtocol))) "client_protocol" "unsupported value" ;;!
   invalid_if (negb (operationValid s.(as_Operation))) "operation" "unsupported value" ;;!
   invalid_if (negb (requirementValid s.(as_RouteRequirement))) "route_requirement" "unsupported value" ;;!
   validateStorePreference s ;;!
   invalid_if (operationRequiresModel s.(as_Operation) && blank s.(as_ClientModel)) "client_model" "must not be empty for this operation" ;;!
   invalid_if (operationRequiresModel s.(as_Operation) && blank s.(as_UpstreamModel)) "upstream_model" "must not be empty for this operation" ;;!
   validateWireFields s ;;!
   invalid_if (failed (validateHeader s.(as_Header))) "header" "contains an invalid name or value" ;;!
   invalid_if (negb (isEmpty s.(as_TargetConfig)) && negb (jsonValid s.(as_TargetConfig))) "target_config" "must contain valid JSON" ;;!
   validateTimeouts s.(as_Timeouts) ;;!
   validateCredentialSnapshot s.(as_Credential))%go.

End Attempt.

Definition validateErrorEvidence (e : ErrorEvidence) : option ValidationError :=
  (invalid_if (negb (kindValid e.(Kind))) "error.kind" "unsupported value" ;;!
   invalid_if (negb (hintValid e.(Hint))) "error.hint" "unsupported value" ;;!
   invalid_if (negb (originValid e.(OriginHint))) "error.origin_hint" "unsupported value" ;;!
   invalid_if (negb (scopeValid e.(ScopeHint))) "error.scope_hint" "unsupported value" ;;!
   invalid_if (negb (safetyValid e.(ReplaySafetyOf))) "error.replay_safety" "unsupported value" ;;!
   invalid_if (negb (validOptionalHTTPStatus e.(ev_StatusCode))) "error.status_code" "must be zero or a valid HTTP status" ;;!
   invalid_if (blank e.(Summary)) "error.summary" "must not be empty" ;;!
   invalid_if (rune_count (bytes e.(Summary)) >? MaxErrorSummaryLength) "error.summary" "exceeds maximum length" ;;!
   invalid_if (containsControl e.(Summary)) "error.summary" "must be a single safe line" ;;!
   invalid_if (containsControl e.(Type_)) "error.type" "contains control characters" ;;!
   invalid_if (containsControl e.(Code)) "error.code" "contains control characters" ;;!
   invalid_if (containsControl e.(RequestID)) "error.request_id" "contains control characters" ;;!
   invalid_if (e.(RetryAfter) <? 0) "error.retry_after" "must not be negative" ;;!
   invalid_if (failed (validateSafeEvidenceHeader e.(ev_Header))) "error.header" "contains a non-safe header")%go.

Definition validateEvidenceOf (responseStarted : bool) (statusCode : Z) (error : option ErrorEvidence)
    : option ValidationError :=
  match error with
  | None =>
    invalid_if (negb responseStarted || (statusCode <? 200) || (statusCode >=? 300)) "error"
      "is required unless a started response has a 2xx status"
  | Some e =>
    (validateErrorEvidence e ;;!
     invalid_if ((e.(ev_StatusCode) >? 0) && negb responseStarted) "error.status_code" "requires response_started" ;;!
     invalid_if (responseStarted && negb (e.(ev_StatusCode) =? 0) && negb (e.(ev_StatusCode) =? statusCode))
       "error.status_code" "must match result status_code")%go
  end.

Definition validateResultMetadata (dispatchState : DispatchState) (responseStarted : bool) (statusCode : Z) (header : Header)
    (upstreamRequestID : string) (error : option ErrorEvidence) : option ValidationError :=
  (invalid_if (negb (dispatchValid dispatchState)) "dispatch_state" "unsupported value" ;;!
   invalid_if ((statusCode >? 0) && negb responseStarted) "response_started" "must be true when status_code is present" ;;!
   invalid_if (negb responseStarted && (negb (isEmpty header) || negb (emptyText upstreamRequestID))) "response_started"
     "must be true when upstream response metadata is present" ;;!
   invalid_if (responseStarted && negb (validHTTPStatus statusCode)) "status_code" "response_started requires a valid HTTP status" ;;!
   invalid_if (bool_decide (dispatchState = DispatchNotSent) &&
               (responseStarted || negb (statusCode =? 0) || negb (isEmpty header) || negb (emptyText upstreamRequestID)))
     "dispatch_state" "not_sent cannot contain upstream response metadata" ;;!
   invalid_if (responseStarted && negb (bool_decide (dispatchState = DispatchMaybeSent)) &&
               negb (bool_decide (dispatchState = DispatchLocal)))
     "dispatch_state" "response_started requires maybe_sent or local" ;;!
   invalid_if (failed (validateHeader header)) "header" "contains an invalid name or value" ;;!
   invalid_if (containsControl upstreamRequestID) "upstream_request_id" "contains control characters" ;;!
   validateEvidenceOf responseStarted statusCode error)%go.

Definition upstreamProtocolInvalid (p : option Protocol) : bool :=
  match p with Some p => negb (protocolValid p) | None => false end.

Definition validateStreamResult (r : StreamResult) : option ValidationError :=
  (invalid_if (upstreamProtocolInvalid r.(sr_UpstreamProtocol)) "upstream_protocol" "unsupported value" ;;!
   validateResultMetadata r.(sr_DispatchState) r.(sr_ResponseStarted) r.(sr_StatusCode) r.(sr_Header)
     r.(sr_UpstreamRequestID) r.(sr_Error))%go.

Definition validateAttemptResult (r : AttemptResult) : option ValidationError :=
  (validateStreamResult r.(ar_Result) ;;!
   invalid_if (bool_decide (r.(ar_Result).(sr_DispatchState) = DispatchNotSent) && negb (isEmpty r.(ar_Body)))
     "body" "must be empty when dispatch_state is not_sent" ;;!
   invalid_if (negb r.(ar_Result).(sr_ResponseStarted) && negb (isEmpty r.(ar_Body))) "body" "requires response_started")%go.

Definition hasReadyMetadata (e : StreamEvent) : bool :=
  negb (e.(se_StatusCode) =? 0) || (match e.(se_Header) with Some _ => true | None => false end) ||
  negb (emptyText e.(se_UpstreamRequestID)).

Definition present {A} (o : option A) : bool := match o with Some _ => true | None => false end.

Definition validateStreamEvent (e : StreamEvent) : option ValidationError :=
  (invalid_if (negb (eventKindValid e.(se_Kind))) "stream_event.kind" "unsupported value" ;;!
   invalid_if (e.(se_Sequence) =? 0) "stream_event.sequence" "must be greater than zero" ;;!
   match e.(se_Kind) with
   | StreamEventReady =>
     invalid_if (negb (e.(se_Sequence) =? 1)) "stream_event.sequence" "ready event must be first" ;;!
     invalid_if (negb (validHTTPStatus e.(se_StatusCode))) "stream_event.status_code" "ready event requires a valid HTTP status" ;;!
     match e.(se_Header) with
     | None => Some (mkInvalid "stream_event.header" "ready event requires initial headers")
     | Some header => invalid_if (failed (validateHeader header)) "stream_event.header" "contains an invalid name or value"
     end ;;!
     invalid_if (negb (isEmpty e.(se_Data)) || present e.(se_Usage)) "stream_event.ready" "must not contain data or usage"
   | StreamEventData =>
     invalid_if (e.(se_Sequence) =? 1) "stream_event.sequence" "data must follow a ready event" ;;!
     invalid_if (isEmpty e.(se_Data)) "stream_event.data" "must not be empty" ;;!
     invalid_if (present e.(se_Usage) || hasReadyMetadata e) "stream_event.data" "must not contain ready metadata or usage"
   | StreamEventUsage =>
     invalid_if (e.(se_Sequence) =? 1) "stream_event.sequence" "usage must follow a ready event" ;;!
     invalid_if (negb (present e.(se_Usage))) "stream_event.usage" "must not be empty" ;;!
     invalid_if (negb (isEmpty e.(se_Data)) || hasReadyMetadata e) "stream_event.usage" "must not contain ready metadata or data"
   | StreamEventOther _ => None
   end)%go.

(** ** Token counting *)

Definition UpstreamCountTokensUnsupported (operation : Operation) (status : Z) (typeValue codeValue : string) : bool :=
  if negb (bool_decide (operation = OperationCountTokens)) && negb (bool_decide (operation = OperationResponsesInputTokens))
  then false
  else if (status =? 404) || (status =? 405) || (status =? 501) then true
  else
    existsb
      (fun value =>
         let normalized :=
           map (fun c => if Ascii.eqb c "-" || Ascii.eqb c " " then "_"%char else c) (to_lower (trim_space (bytes value))) in
         same_text normalized "unsupported_operation" || same_text normalized "operation_not_supported" ||
         same_text normalized "not_implemented")
      [typeValue; codeValue].

End Contracts.
