(* ===== verification/Headers.v ===== *)
(** * Header fields

    What of an upstream's header reaches a client and what of a client's header reaches an
    upstream: [internal/platform/httpheader], the header functions of
    [internal/gateway/forward.go], [response_framing.go], [stream.go] and
    [response_representation.go], and the content-coding negotiation of
    [internal/platform/contentcoding].

    A header is a list of fields with distinct names, standing for a Go map; deleting while
    ranging over a map is a filter.  [mime.ParseMediaType] is an argument, and so is the
    folding of two names that are both outside ASCII. *)

From Stdlib Require Import ZArith Lia Bool String Ascii List.
From stdpp Require Import base gmap sets list strings.
From coqutil Require Import Datatypes.RecordSettersUsingExistingGetters.
From S2P Require Import Prelude GoStrings Execution Contracts.

Local Open Scope Z_scope.

(** ** Texts *)

(** [strings.Split] at a one-byte separator. *)
Fixpoint split_at (sep : ascii) (current l : list ascii) : list (list ascii) :=
  match l with
  | [] => [current]
  | c :: rest => if Ascii.eqb c sep then current :: split_at sep [] rest else split_at sep (current ++ [c]) rest
  end.
Definition split_on (sep : ascii) (l : list ascii) : list (list ascii) := split_at sep [] l.

(** [strings.Fields]: the maximal runs without white space. *)
Fixpoint fields_fuel (fuel : nat) (current l : list ascii) : list (list ascii) :=
  let close rest := match current with [] => rest | _ => current :: rest end in
  match fuel, l with
  | _, [] => close []
  | O, _ => close []
  | S fuel, c :: rest =>
    match strip_any space_encodings l with
    | Some rest => close (fields_fuel fuel [] rest)
    | None => fields_fuel fuel (current ++ [c]) rest
    end
  end.
Definition fields (l : list ascii) : list (list ascii) := fields_fuel (length l) [] l.

(** [strings.Index]. *)
Fixpoint index_of (needle l : list ascii) : option nat :=
  if has_prefix needle l then Some 0%nat
  else match l with [] => None | _ :: rest => S <$> index_of needle rest end.

Definition ascii_text (l : list ascii) : bool := forallb (fun c => byte_val c <? 128) l.

(** [strings.EqualFold].  When one text is ASCII, [equal_fold] decides; the folding of two
    texts outside ASCII is an argument. *)
Class UnicodeFold := foldBeyond : list ascii -> list ascii -> bool.

Definition EqualFold `{UnicodeFold} (s t : list ascii) : bool :=
  if ascii_text t then equal_fold s t else if ascii_text s then equal_fold t s else foldBeyond s t.

Definition named `{UnicodeFold} (name : string) (target : string) : bool := EqualFold (bytes name) (bytes target).

Module Headers.
Import Execution Contracts.

(** ** Maps of fields *)

Definition field : Type := string * list string.

Section Fields.
Context `{UnicodeFold}.

(** [delete(headers, name)] and [headers.Del]. *)
Definition delete (headers : Header) (name : string) : Header :=
  List.filter (fun f => negb (String.eqb f.1 name)) headers.
Definition canonicalName (name : string) : string := text (canonical_key (bytes name)).
Definition Del (headers : Header) (name : string) : Header := delete headers (canonicalName name).

Definition Set_ (headers : Header) (name value : string) : Header :=
  Del headers name ++ [(canonicalName name, [value])].

(** [headers[key]] of a missing key is nil. *)
Definition valuesOf (headers : Header) (key : string) : list string :=
  match find (fun f => String.eqb f.1 key) headers with Some f => f.2 | None => [] end.

Definition Add (headers : Header) (name value : string) : Header :=
  Del headers name ++ [(canonicalName name, valuesOf headers (canonicalName name) ++ [value])].

Definition Get (headers : Header) (name : string) : string :=
  match valuesOf headers (canonicalName name) with value :: _ => value | [] => "" end.

Definition deleteHeaderField (headers : Header) (name : string) : Header :=
  List.filter (fun f => negb (named f.1 name)) headers.

Definition deleteAll (headers : Header) (names : list string) : Header := foldl deleteHeaderField headers names.

Definition headerFieldValues (headers : Header) (name : string) : list string :=
  concat (map snd (List.filter (fun f => named f.1 name) headers)).

Definition hasSingleHeaderFieldValue (headers : Header) (name want : string) : bool :=
  match headerFieldValues headers name with [value] => String.eqb value want | _ => false end.

(** ** Policies on names ([httpheader]) *)

Definition normalizeName (name : string) : list ascii :=
  match bytes name with [] => [] | l => to_lower (canonical_key l) end.

Definition oneOf (l : list ascii) (names : list string) : bool := existsb (same_text l) names.

Definition credentialNames : list string :=
  ["authorization"; "proxy-authorization"; "api-key"; "x-api-key"; "x-goog-api-key"]%string.

Definition forbiddenRequestRuleNames : list string :=
  ["connection"; "proxy-connection"; "keep-alive"; "te"; "trailer"; "transfer-encoding"; "upgrade"; "cookie"; "cookie2";
   "accept-encoding"; "content-encoding"]%string.

Definition forbiddenResponseRuleNames : list string :=
  ["connection"; "proxy-connection"; "keep-alive"; "te"; "trailer"; "transfer-encoding"; "upgrade"; "content-encoding";
   "content-length"; "content-range"; "content-type"; "date"; "server"; "set-cookie"; "set-cookie2"; "vary";
   "access-control-allow-origin"; "access-control-allow-methods"; "access-control-allow-headers";
   "access-control-allow-credentials"; "access-control-expose-headers"; "access-control-max-age"]%string.

Definition IsCredentialName (name : string) : bool := oneOf (normalizeName name) credentialNames.

Definition IsForbiddenRequestRuleName (name : string) : bool :=
  has_prefix (bytes "proxy-") (normalizeName name) || oneOf (normalizeName name) forbiddenRequestRuleNames.

Definition IsForbiddenResponseRuleName (name : string) : bool :=
  has_prefix (bytes "proxy-") (normalizeName name) || has_prefix (bytes "x-gptload-") (normalizeName name) ||
  IsCredentialName (text (normalizeName name)) || oneOf (normalizeName name) forbiddenResponseRuleNames.

Definition representationMetadataHeaderNames : list string :=
  ["Content-Encoding"; "Content-Length"; "ETag"; "Digest"; "Content-MD5"; "Content-Range"; "Content-Digest";
   "Repr-Digest"; "Signature"; "Signature-Input"]%string.

Definition StripRepresentationMetadata (headers : Header) : Header := deleteAll headers representationMetadataHeaderNames.

(** ** End-to-end fields *)

Definition hopByHopHeaders : list string :=
  ["Connection"; "Proxy-Connection"; "Keep-Alive"; "Proxy-Authenticate"; "Proxy-Authorization"; "Te"; "Trailer";
   "Transfer-Encoding"; "Upgrade"]%string.
Definition isHopByHopHeader (name : string) : bool := existsb (named name) hopByHopHeaders.

Definition debugHeaderNames : list string :=
  ["X-GPTLoad-Group"; "X-GPTLoad-Key"; "X-GPTLoad-Attempts"; "X-GPTLoad-Request-ID"]%string.
Definition isDebugHeader (name : string) : bool := existsb (named name) debugHeaderNames.

(** The names listed by the [Connection] fields. *)
Definition connectionTokens (headers : Header) : list string :=
  List.filter (fun token => negb (emptyText token))
    (map (fun token => text (trim_space token))
       (concat (map (fun value => split_on ","%char (bytes value)) (headerFieldValues headers "Connection")))).

Definition cloneEndToEndHeaders (source : Header) : Header :=
  List.filter (fun f => negb (isHopByHopHeader f.1 || isDebugHeader f.1)) (deleteAll source (connectionTokens source)).

Definition sanitizeUpstreamRequestHeaders (headers : Header) : Header :=
  List.filter (fun f => negb (isHopByHopHeader f.1 || IsForbiddenRequestRuleName f.1 || isDebugHeader f.1))
    (deleteAll headers (connectionTokens headers)).

Definition removeDownstreamCredentials (headers : Header) : Header :=
  List.filter (fun f => negb (IsCredentialName f.1)) headers.

Definition stripDownstreamResponseSignatures (headers : Header) : Header :=
  deleteAll headers ["Signature"; "Signature-Input"]%string.

Definition invalidateRewrittenBodyHeaders (headers : Header) : Header :=
  deleteAll headers (List.filter (fun name => negb (named name "Content-Encoding")) representationMetadataHeaderNames).

Definition isRepresentationMetadataHeader (name : string) : bool := existsb (named name) representationMetadataHeaderNames.

Definition normalizeStreamResponseHeaders (headers : Header) : Header :=
  Set_ (deleteAll (cloneEndToEndHeaders headers) representationMetadataHeaderNames) "X-Accel-Buffering" "no".

(** ** Response fields *)

Definition headerValuesContainLiteral (values : list string) (literal : string) : bool :=
  negb (emptyText literal) && existsb (fun value => contains (bytes literal) (bytes value)) values.

Definition headerNameContainsLiteral (name literal : string) : bool :=
  negb (emptyText literal) && contains (to_lower (bytes literal)) (to_lower (bytes name)).

Definition originPrefixes : list string := ["access-control-"; "cross-origin-"; "cf-"; "x-codex-"; "x-envoy-"]%string.

Definition originNames : list string :=
  ["alt-svc"; "clear-site-data"; "content-security-policy"; "content-security-policy-report-only"; "date"; "nel";
   "origin-agent-cluster"; "permissions-policy"; "referrer-policy"; "report-to"; "reporting-endpoints"; "server";
   "server-timing"; "strict-transport-security"; "timing-allow-origin"; "via"; "x-cache"; "x-cache-hits";
   "x-content-type-options"; "x-frame-options"; "x-models-etag"; "x-openai-proxy-wasm"; "x-served-by";
   "x-xss-protection"]%string.

Definition isUpstreamOriginResponseHeader (name : string) : bool :=
  existsb (fun prefix => has_prefix (bytes prefix) (lowered name)) originPrefixes || oneOf (lowered name) originNames.

Definition isConvertedResponseHeaderAllowed (name : string) : bool :=
  oneOf (lowered name)
    ["cache-control"; "content-encoding"; "content-length"; "content-range"; "content-type"; "request-id"; "retry-after";
     "x-amzn-requestid"; "x-gpt-load-token-count"; "x-goog-request-id"; "x-oai-request-id"; "x-request-id";
     "anthropic-request-id"; "openai-request-id"]%string.

Definition isRequiredRepresentationFramingHeader (name : string) : bool :=
  named name "Content-Encoding" || named name "Content-Length".

Definition endToEndHeaderCleanupDeletedField (source headers : Header) : bool :=
  existsb (fun f => negb (existsb (fun g => EqualFold (bytes f.1) (bytes g.1)) headers)) source.

(** ** The input of an attempt *)

Record HeaderRules := mkRules { rules_Set : list (string * string); rules_Remove : list string }.

Record ParsedRequest := mkRequest {
  pr_Method : string;
  pr_Path : string;
  pr_RawQuery : string;
  pr_Header : Header;
  pr_Body : list ascii;
}.

(** [ForwardInput] without the dialect, the cipher, the proxy and the callbacks. *)
Record ForwardInput := mkInput {
  in_ObserveUsage : bool;
  in_HeaderRules : HeaderRules;
  in_Timeouts : AttemptTimeouts;
  in_APIKey : string;
  in_CredentialSecrets : list string;
  in_Request : option ParsedRequest;
  in_ConfiguredParameters : list string;
  in_ExternalModel : string;
  in_UpstreamModelID : string;
  in_RequestID : string;
  in_AttemptID : string;
  in_AttemptSequence : Z;
  in_ClientProtocol : Protocol;
  in_Operation : Operation;
  in_RouteRequirement : RouteRequirement;
  in_ResponsesStorePreference : ResponsesStorePreference;
  in_ResponsesStoreDowngraded : bool;
  in_ChannelID : string;
  in_RouteMode : RouteMode;
  in_TargetConfig : list ascii;
  in_Credential : CredentialSnapshot;
  in_ForceCredentialRefresh : bool;
  in_ContinuityKey : string;
  in_EmptyResponseRetry : bool;
}.

Definition needsModelRewrite (input : ForwardInput) : bool :=
  negb (emptyText input.(in_ExternalModel)) && negb (emptyText input.(in_UpstreamModelID)) &&
  negb (String.eqb input.(in_ExternalModel) input.(in_UpstreamModelID)).

(** [mime.ParseMediaType]: the media type, or none when it reports an error. *)
Class MediaTypes := parseMediaType : string -> option string.
Context `{MediaTypes}.

Definition allowedMediaTypes : list string :=
  ["application/json"; "application/problem+json"; "application/x-ndjson"; "text/event-stream"; "text/plain"]%string.

(** The search of [contentTypeContainsDisallowedModel] from [searchFrom] on: some
    occurrence lies outside the media type.  Every round moves past the model, so the
    length of the value bounds the rounds. *)
Fixpoint outsideMediaType (fuel : nat) (value model : list ascii) (mediaStart mediaEnd searchFrom : nat) : bool :=
  match fuel with
  | O => false
  | S fuel =>
    if (searchFrom + length model <=? length value)%nat then
      match index_of model (drop searchFrom value) with
      | None => false
      | Some offset =>
        let index := (searchFrom + offset)%nat in
        ((index <? mediaStart)%nat || (mediaEnd <? index + length model)%nat) ||
        outsideMediaType fuel value model mediaStart mediaEnd (index + length model)
      end
    else false
  end.

Definition valueDisallowsModel (upstreamModel value : string) : bool :=
  if negb (contains (bytes upstreamModel) (bytes value)) then false
  else
    match parseMediaType value with
    | None => true
    | Some mediaType =>
      if negb (oneOf (to_lower (bytes mediaType)) allowedMediaTypes) then true
      else
        let '(rawMediaType, _, _) := cut ";"%char (bytes value) in
        let trimmedMediaType := trim_space rawMediaType in
        let mediaStart := default 0%nat (index_of trimmedMediaType rawMediaType) in
        outsideMediaType (S (length (bytes value))) (bytes value) (bytes upstreamModel) mediaStart
          (mediaStart + length trimmedMediaType) 0
    end.

Definition contentTypeContainsDisallowedModel (values : list string) (upstreamModel : string) : bool :=
  existsb (valueDisallowsModel upstreamModel) values.

(** A field that must not be forwarded, whatever the route. *)
Definition deleteField (input : ForwardInput) (additionalSecrets : list string) (f : field) : bool :=
  let '(actualName, values) := f in
  IsCredentialName actualName || isUpstreamOriginResponseHeader actualName ||
  has_prefix (bytes "x-upstream-") (to_lower (bytes actualName)) || named actualName "Set-Cookie" ||
  named actualName "Set-Cookie2" || headerValuesContainLiteral values "gld1_" ||
  headerValuesContainLiteral values input.(in_APIKey) ||
  existsb (fun secret => negb (emptyText secret) && negb (String.eqb secret input.(in_APIKey)) &&
                         headerValuesContainLiteral values secret) (input.(in_CredentialSecrets) ++ additionalSecrets).

(** A field that names the upstream's model and has to go. *)
Definition exposesModel (input : ForwardInput) (f : field) : bool :=
  let '(name, values) := f in
  let nameContainsModel := headerNameContainsLiteral name input.(in_UpstreamModelID) in
  let valuesContainModel := headerValuesContainLiteral values input.(in_UpstreamModelID) in
  (nameContainsModel || valuesContainModel) && negb (isRequiredRepresentationFramingHeader name) &&
  (negb (named name "Content-Type") ||
   valuesContainModel && contentTypeContainsDisallowedModel values input.(in_UpstreamModelID)).

(** One round of the loop over the fields; a field that an earlier round deleted is not
    visited. *)
Definition rewriteRound (input : ForwardInput) (acc : Header * bool) (f : field) : Header * bool :=
  let '(headers, deleted) := acc in
  if existsb (fun g => String.eqb g.1 f.1) headers && exposesModel input f
  then (deleteHeaderField headers f.1, true) else (headers, deleted).

Definition sanitizeForwardResponseHeaders (source : Header) (input : ForwardInput) (additionalSecrets : list string) : Header :=
  let headers := stripDownstreamResponseSignatures (cloneEndToEndHeaders source) in
  let deleted := endToEndHeaderCleanupDeletedField source headers in
  let namesToDelete := map fst (List.filter (deleteField input additionalSecrets) headers) in
  let deleted := deleted || negb (isEmpty namesToDelete) in
  let headers := deleteAll headers namesToDelete in
  let '(headers, deleted) :=
    if bool_decide (input.(in_RouteMode) = RouteConverted)
    then (List.filter (fun f => isConvertedResponseHeaderAllowed f.1) headers,
          deleted || existsb (fun f => negb (isConvertedResponseHeaderAllowed f.1)) headers)
    else (headers, deleted) in
  let '(headers, deleted) :=
    if needsModelRewrite input then foldl (rewriteRound input) (headers, deleted) headers else (headers, deleted) in
  if deleted then stripDownstreamResponseSignatures headers else headers.

(** ** Framing *)

Record responseBodyPolicy := mkPolicy { readBody : bool; writeBody : bool; preserveContentLength : bool }.

Definition classifyResponseBody (method : string) (status : Z) : responseBodyPolicy :=
  if (status >=? 100) && (status <? 200) then mkPolicy false false false
  else if (status =? 204) || (status =? 205) then mkPolicy false false false
  else if status =? 304 then mkPolicy false false true
  else if named method "HEAD" then mkPolicy false false true
  else mkPolicy true true false.

Definition singleNonNegativeContentLength (headers : Header) : option string :=
  match headerFieldValues headers "Content-Length" with
  | [value] =>
    if negb (emptyText value) && all_digits (bytes value) && present (parse_int64 (bytes value)) then Some value else None
  | _ => None
  end.

(** [strconv.ParseUint(s, 10, 63)] of digits. *)
Definition parse_uint63 (l : list ascii) : option Z :=
  match parse_uint64 l with Some v => if v <=? max_int64 then Some v else None | None => None end.

Definition hasSafeUnsatisfiedContentRange (headers : Header) : bool :=
  match headerFieldValues headers "Content-Range" with
  | [value] =>
    match fields (bytes value) with
    | [unit; range] =>
      EqualFold unit (bytes "bytes") &&
      match split_on "/"%char range with
      | [first; second] => same_text first "*" && negb (isEmpty second) && all_digits second && present (parse_uint63 second)
      | _ => false
      end
    | _ => false
    end
  | _ => false
  end.

Definition isDecimalContentRangeNumber (value : list ascii) : bool := negb (isEmpty value) && all_digits value.

Record satisfiedContentRange := mkRange { range_start : Z; range_end : Z }.

Definition parseSatisfiedContentRange (headers : Header) : option satisfiedContentRange :=
  match headerFieldValues headers "Content-Range" with
  | [value] =>
    match fields (bytes value) with
    | [unit; range] =>
      if negb (EqualFold unit (bytes "bytes")) then None
      else
        match split_on "/"%char range with
        | [first; second] =>
          match split_on "-"%char first with
          | [lo; hi] =>
            if negb (isDecimalContentRangeNumber lo) || negb (isDecimalContentRangeNumber hi) then None
            else
              match parse_int64 lo, parse_int64 hi with
              | Some start, Some stop =>
                if (start <? 0) || (stop <? start) then None
                else if same_text second "*" then Some (mkRange start stop)
                else if negb (isDecimalContentRangeNumber second) then None
                else
                  match parse_int64 second with
                  | Some total => if total <=? stop then None else Some (mkRange start stop)
                  | None => None
                  end
              | _, _ => None
              end
          | _ => None
          end
        | _ => None
        end
    | _ => None
    end
  | _ => None
  end.

Definition hasSafeContentRange (headers : Header) (bodyLength : Z) : bool :=
  if bodyLength <=? 0 then false
  else
    match parseSatisfiedContentRange headers with
    | Some r => r.(range_end) - r.(range_start) =? bodyLength - 1
    | None => false
    end.

Definition hasSafeHeadContentRange (headers : Header) : bool :=
  match parseSatisfiedContentRange headers with
  | None => false
  | Some r =>
    match headerFieldValues headers "Content-Length" with
    | [] => true
    | _ =>
      match singleNonNegativeContentLength headers with
      | None => false
      | Some contentLength =>
        match parse_int64 (bytes contentLength) with
        | Some length => negb (length <=? 0) && (r.(range_end) - r.(range_start) =? length - 1)
        | None => false
        end
      end
    end
  end.

Definition normalizeBufferedContentRange (status : Z) (headers : Header) : Header :=
  if status =? 206 then headers
  else if (status =? 416) && hasSafeUnsatisfiedContentRange headers then headers
  else deleteHeaderField headers "Content-Range".

Definition setContentLength (headers : Header) (value : string) : Header :=
  Set_ (deleteHeaderField headers "Content-Length") "Content-Length" value.

Definition itoa (n : Z) : string := text (format_int n).

(** The switch of [normalizeBufferedResponse]: the length a message declares, and whether
    that changed the representation's fields.  [body] is nil or a text. *)
Definition frameLength (method : string) (status : Z) (normalized : Header) (changed : bool) (body : option (list ascii))
    : Header * bool :=
  let policy := classifyResponseBody method status in
  let bodyLength := itoa (Z.of_nat (length (default [] body))) in
  let lengthGiven := negb (isEmpty (headerFieldValues normalized "Content-Length")) in
  if policy.(writeBody) then
    (setContentLength normalized bodyLength,
     changed || negb (hasSingleHeaderFieldValue normalized "Content-Length" bodyLength))
  else if status =? 205 then
    match singleNonNegativeContentLength normalized with
    | Some contentLength =>
      if String.eqb contentLength "0" then (setContentLength normalized "0", changed)
      else (deleteHeaderField normalized "Content-Length", changed || lengthGiven)
    | None => (deleteHeaderField normalized "Content-Length", changed || lengthGiven)
    end
  else if policy.(preserveContentLength) then
    if named method "HEAD" && negb (status =? 304) && present body then
      (setContentLength normalized bodyLength,
       changed || negb (hasSingleHeaderFieldValue normalized "Content-Length" bodyLength))
    else
      match singleNonNegativeContentLength normalized with
      | Some contentLength => (setContentLength normalized contentLength, changed)
      | None => (deleteHeaderField normalized "Content-Length", changed || lengthGiven)
      end
  else (deleteHeaderField normalized "Content-Length", changed || lengthGiven).

(** The second result is whether a body is written. *)
Definition normalizeBufferedResponse (method : string) (status : Z) (headers : Header) (body : option (list ascii))
    : Header * bool :=
  let normalized := cloneEndToEndHeaders headers in
  let changed := negb (isEmpty (headerFieldValues normalized "Content-Encoding")) in
  let '(normalized, changed) :=
    frameLength method status (deleteHeaderField normalized "Content-Encoding") changed body in
  let normalized := normalizeBufferedContentRange status normalized in
  let normalized := if changed then stripDownstreamResponseSignatures normalized else normalized in
  (stripDownstreamResponseSignatures normalized, (classifyResponseBody method status).(writeBody)).

(** ** Content codings *)

Inductive Encoding := Identity | Gzip | Brotli | Deflate | Zstd.

#[export] Instance Encoding_eq_dec : EqDecision Encoding.
Proof. solve_decision. Defined.

(** [None] is [ErrUnsupportedContentEncoding]. *)
Definition ParseContentEncoding (values : list string) : option Encoding :=
  match values with
  | [] => Some Identity
  | [value] =>
    let value := lowered value in
    if isEmpty value || same_text value "identity" then Some Identity
    else if contains (bytes ",") value then None
    else if same_text value "gzip" then Some Gzip
    else if same_text value "br" then Some Brotli
    else if same_text value "deflate" then Some Deflate
    else if same_text value "zstd" then Some Zstd
    else None
  | _ => None
  end.

(** Whether [validateStreamContentEncoding] reports an error. *)
Definition streamContentEncodingInvalid (headers : Header) : bool :=
  negb (bool_decide (ParseContentEncoding (headerFieldValues headers "Content-Encoding") = Some Identity)).

End Fields.
End Headers.
