(* ===== verification/HeadersProps.v ===== *)
(** * What headers let through

    Folding of header names is an equivalence on the names the contracts accept; the header
    a client receives consists of exactly the upstream's fields that may be forwarded; a
    buffered response declares its length exactly. *)

From Stdlib Require Import ZArith Lia Bool String Ascii List.
From stdpp Require Import base gmap sets list strings.
From coqutil Require Import Datatypes.RecordSettersUsingExistingGetters.
From S2P Require Import Prelude GoStrings Execution Contracts Headers.

Local Open Scope Z_scope.

Module HeadersProps.
Import Execution Contracts Headers.

(** ** Folding *)

Definition visible (c : ascii) : bool := between 33 126 c.
Definition folded (l : list ascii) : list ascii := map lower_byte l.

Lemma token_visible name : validHTTPToken name = true -> forallb visible (bytes name) = true.
Proof.
  unfold validHTTPToken. destruct (bytes name) as [|c l]; [discriminate|]. generalize (c :: l) as m. clear.
  intros m. rewrite !forallb_forall. intros H x Hx. specialize (H x Hx). revert H.
  destruct x as [[] [] [] [] [] [] [] []]; vm_compute; congruence.
Qed.

Lemma visible_ascii l : forallb visible l = true -> ascii_text l = true.
Proof.
  unfold ascii_text. rewrite !forallb_forall. intros H x Hx. specialize (H x Hx). unfold visible, between in H. zbool.
  apply Z.ltb_lt. lia.
Qed.

Lemma equal_fold_ascii s t : ascii_text s = true -> ascii_text t = true ->
  equal_fold s t = bool_decide (folded s = folded t).
Proof.
  revert s. induction t as [|y t IH]; intros s Hs Ht.
  - destruct s; reflexivity.
  - destruct s as [|a s]; [reflexivity|]. cbn in Hs, Ht. apply andb_true_iff in Hs as [Ha Hs], Ht as [Hy Ht].
    cbn [equal_fold folded map]. destruct (Ascii.eqb_spec (lower_byte a) (lower_byte y)) as [e|n].
    + rewrite (IH s Hs Ht), e. apply bool_decide_ext. unfold folded. split; congruence.
    + rewrite bool_decide_eq_false_2 by (intros [= E1 E2]; exact (n E1)). zbool.
      assert (E1 : (byte_val a =? 197) = false) by (apply Z.eqb_neq; lia).
      assert (E2 : (byte_val a =? 226) = false) by (apply Z.eqb_neq; lia).
      destruct s as [|b s]; [reflexivity|]. rewrite E1, E2. cbn. destruct s; reflexivity.
Qed.

Lemma equal_fold_folded t : forall s t', folded t = folded t' -> equal_fold s t = equal_fold s t'.
Proof.
  induction t as [|y t IH]; intros s [|y' t'] H; try discriminate H; [reflexivity|].
  cbn [folded map] in H. injection H as Hy Ht. destruct s as [|a s]; [reflexivity|]. cbn [equal_fold]. rewrite Hy.
  destruct (Ascii.eqb (lower_byte a) (lower_byte y')); [exact (IH s t' Ht)|].
  destruct s as [|b s]; [reflexivity|]. rewrite (IH s t' Ht). destruct s as [|c s]; [reflexivity|].
  rewrite (IH s t' Ht). reflexivity.
Qed.

Lemma folded_ascii s t : folded s = folded t -> ascii_text s = true -> ascii_text t = true.
Proof.
  assert (Hc : forall c, (byte_val (lower_byte c) <? 128) = (byte_val c <? 128)).
  { intros c. destruct c as [[] [] [] [] [] [] [] []]; reflexivity. }
  assert (Hf : forall l, ascii_text (folded l) = ascii_text l).
  { induction l as [|c l IH]; [reflexivity|]. cbn. rewrite Hc. f_equal. exact IH. }
  intros H. rewrite <- (Hf s), <- (Hf t), H. auto.
Qed.

Lemma to_lower_ascii l : ascii_text l = true -> to_lower l = folded l.
Proof.
  induction l as [|a l IH]; intros H; [reflexivity|]. cbn in H. apply andb_true_iff in H as [Ha Hl]. specialize (IH Hl).
  zbool. assert (E1 : (byte_val a =? 196) = false) by (apply Z.eqb_neq; lia).
  assert (E2 : (byte_val a =? 226) = false) by (apply Z.eqb_neq; lia).
  destruct l as [|b l]; [reflexivity|].
  cbn [to_lower]. rewrite E1, E2. cbn [andb]. destruct l as [|c l]; cbn [folded map] in *; rewrite <- IH; reflexivity.
Qed.

(** A text of visible characters has no white space to trim. *)
Lemma strip_any_visible ps c l :
  forallb (fun p => match p with d :: _ => negb (visible d) | [] => false end) ps = true -> visible c = true ->
  strip_any ps (c :: l) = None.
Proof.
  intros Hps Hc. induction ps as [|p ps IH]; [reflexivity|].
  cbn in Hps. apply andb_true_iff in Hps as [Hp Hps]. destruct p as [|d p]; [discriminate|]. cbn.
  destruct (Ascii.eqb_spec d c) as [->|]; [rewrite Hc in Hp; discriminate|]. now apply IH.
Qed.

Lemma trim_fuel_visible ps fuel l :
  forallb (fun p => match p with d :: _ => negb (visible d) | [] => false end) ps = true -> forallb visible l = true ->
  trim_fuel fuel ps l = l.
Proof.
  intros Hps Hl. destruct fuel as [|fuel]; [reflexivity|]. cbn [trim_fuel]. destruct l as [|c l].
  - assert (E : strip_any ps [] = None); [|now rewrite E].
    clear -Hps. induction ps as [|p ps IH]; [reflexivity|].
    cbn in Hps. apply andb_true_iff in Hps as [Hp Hps]. destruct p as [|d p]; [discriminate|]. cbn. exact (IH Hps).
  - cbn in Hl. apply andb_true_iff in Hl as [Hc _]. now rewrite strip_any_visible.
Qed.

Lemma trim_space_visible l : forallb visible l = true -> trim_space l = l.
Proof.
  intros H. unfold trim_space. rewrite (trim_fuel_visible space_encodings (length l) l eq_refl H).
  rewrite trim_fuel_visible; [apply rev_involutive|reflexivity|].
  rewrite forallb_forall in *. intros x Hx. apply H. now apply in_rev.
Qed.

(** ** Names *)

Section Names.
Context `{UnicodeFold}.

Lemma named_folded a b target : ascii_text (bytes a) = true -> folded (bytes a) = folded (bytes b) ->
  named a target = named b target.
Proof.
  intros Ha Hf. pose proof (folded_ascii _ _ Hf Ha) as Hb. unfold named, EqualFold. rewrite Ha, Hb.
  destruct (ascii_text (bytes target)) eqn:Et.
  - rewrite !equal_fold_ascii by assumption. apply bool_decide_ext. rewrite Hf. reflexivity.
  - now apply equal_fold_folded.
Qed.

Lemma named_ascii a b : ascii_text (bytes a) = true -> ascii_text (bytes b) = true ->
  named a b = true <-> folded (bytes a) = folded (bytes b).
Proof. intros Ha Hb. unfold named, EqualFold. rewrite Hb, equal_fold_ascii by assumption. apply bool_decide_eq_true. Qed.

Lemma named_refl a : ascii_text (bytes a) = true -> named a a = true.
Proof. intros Ha. now apply named_ascii. Qed.

(** Every test on names the sanitisers use gives the same answer for names that fold
    together. *)
Definition foldInvariant (test : string -> bool) : Prop :=
  forall a b, validHTTPToken a = true -> folded (bytes a) = folded (bytes b) -> validHTTPToken b = true -> test a = test b.

Lemma token_ascii name : validHTTPToken name = true -> ascii_text (bytes name) = true.
Proof. intros Ht. now apply visible_ascii, token_visible. Qed.

Lemma named_invariant target : foldInvariant (fun name => named name target).
Proof. intros a b Ha Hf _. apply named_folded; [now apply token_ascii|exact Hf]. Qed.

Lemma existsb_named_invariant targets : foldInvariant (fun name => existsb (named name) targets).
Proof.
  intros a b Ha Hf Hb. induction targets as [|t ts IH]; [reflexivity|]. cbn. f_equal; [|exact IH].
  exact (named_invariant t a b Ha Hf Hb).
Qed.

Lemma lowered_folded name : validHTTPToken name = true -> lowered name = folded (bytes name).
Proof.
  intros Ht. unfold lowered. rewrite trim_space_visible by now apply token_visible.
  apply to_lower_ascii. now apply token_ascii.
Qed.

Lemma lowered_invariant (test : list ascii -> bool) : foldInvariant (fun name => test (lowered name)).
Proof. intros a b Ha Hf Hb. rewrite !lowered_folded, Hf by assumption. reflexivity. Qed.

Lemma filter_twice {A} (p q : A -> bool) l : List.filter p (List.filter q l) = List.filter (fun x => q x && p x) l.
Proof.
  induction l as [|x l IH]; [reflexivity|]. cbn. destruct (q x); cbn; [destruct (p x); cbn; now rewrite IH|exact IH].
Qed.

Lemma filter_in (keep : field -> bool) h f : In f (List.filter keep h) <-> In f h /\ keep f = true.
Proof. apply filter_In. Qed.

Lemma deleteAll_in names : forall h f,
  In f (deleteAll h names) <-> In f h /\ forall name, In name names -> named f.1 name = false.
Proof.
  unfold deleteAll. induction names as [|n names IH]; intros h f; cbn [foldl].
  - split; [intros Hf; split; [exact Hf|intros ? []]|intros [Hf _]; exact Hf].
  - rewrite IH. unfold deleteHeaderField. rewrite filter_in, negb_true_iff. split.
    + intros [[Hf Hn] Hs]. split; [exact Hf|]. intros name [->|Hin]; [exact Hn|exact (Hs name Hin)].
    + intros [Hf Hs]. split; [split; [exact Hf|apply Hs; now left]|]. intros name Hin. apply Hs. now right.
Qed.

Definition tokens (h : Header) : Prop := forall f, In f h -> validHTTPToken f.1 = true.

Lemma validateHeader_tokens h : validateHeader h = None -> tokens h.
Proof.
  induction h as [|[name values] h IH]; intros Hv f Hf; [destruct Hf|]. cbn in Hv. unfold invalid_if, err_if in Hv.
  destruct (validHTTPToken name) eqn:Et; [|discriminate Hv]. cbn in Hv.
  destruct (existsb breaksLine values); [discriminate Hv|]. cbn in Hv.
  destruct Hf as [<-|Hf]; [exact Et|exact (IH Hv f Hf)].
Qed.

(** Folding of token names is an equivalence. *)
Lemma named_tokens a b : validHTTPToken a = true -> validHTTPToken b = true ->
  named a b = true <-> folded (bytes a) = folded (bytes b).
Proof. intros Ha Hb. apply named_ascii; now apply token_ascii. Qed.

Lemma named_trans a b c : validHTTPToken a = true -> validHTTPToken b = true ->
  named a b = true -> named b c = named a c.
Proof.
  intros Ha Hb Hab. apply (named_tokens a b Ha Hb) in Hab. symmetry. apply named_folded; [now apply token_ascii|exact Hab].
Qed.

Lemma named_sym a b : validHTTPToken a = true -> validHTTPToken b = true -> named a b = named b a.
Proof.
  intros Ha Hb. apply eq_true_iff_eq. rewrite !named_tokens by assumption. split; congruence.
Qed.

(** ** The loop over fields that expose a model *)

Context `{MediaTypes}.

Definition untouched (input : ForwardInput) (done : Header) (f : field) : bool :=
  forallb (fun g => negb (exposesModel input g && named f.1 g.1)) done.

Lemma rewriteRound_step input h0 done g d : tokens h0 -> In g h0 ->
  exists d', rewriteRound input (List.filter (untouched input done) h0, d) g =
             (List.filter (untouched input (done ++ [g])) h0, d').
Proof.
  intros Ht Hg. unfold rewriteRound.
  assert (Happ : forall f, untouched input (done ++ [g]) f =
                           untouched input done f && negb (exposesModel input g && named f.1 g.1)).
  { intros f. unfold untouched. rewrite forallb_app. cbn. now rewrite andb_true_r. }
  destruct (exposesModel input g) eqn:Ee.
  2:{ rewrite andb_false_r. eexists. f_equal. apply filter_ext. intros f. rewrite Happ. cbn. now rewrite andb_true_r. }
  rewrite andb_true_r.
  destruct (existsb _ _) eqn:Ex.
  - eexists. f_equal. unfold deleteHeaderField. rewrite filter_twice. apply filter_ext. intros f. rewrite Happ. reflexivity.
  - eexists. f_equal. apply List.filter_ext_in. intros f Hf. rewrite Happ. cbn.
    destruct (untouched input done f) eqn:Eu; [|reflexivity]. cbn.
    destruct (named f.1 g.1) eqn:En; [|reflexivity]. exfalso.
    assert (Hgu : untouched input done g = true).
    { unfold untouched in *. rewrite forallb_forall in *. intros x Hx. specialize (Eu x Hx).
      rewrite (named_trans f.1 g.1 x.1 (Ht f Hf) (Ht g Hg) En). exact Eu. }
    assert (Hin : existsb (fun g0 => String.eqb g0.1 g.1) (List.filter (untouched input done) h0) = true).
    { apply existsb_exists. exists g. split; [|apply String.eqb_refl]. apply filter_in. now split. }
    rewrite Hin in Ex. discriminate Ex.
Qed.

Lemma rewriteRounds input h0 rest : tokens h0 -> incl rest h0 -> forall done d,
  fst (foldl (rewriteRound input) (List.filter (untouched input done) h0, d) rest) =
  List.filter (untouched input (done ++ rest)) h0.
Proof.
  intros Ht. induction rest as [|g rest IH]; intros Hincl done d; cbn [foldl]; [now rewrite app_nil_r|].
  destruct (rewriteRound_step input h0 done g d Ht (Hincl g (or_introl eq_refl))) as [d' ->].
  rewrite IH by (intros x Hx; apply Hincl; now right). now rewrite <- app_assoc.
Qed.

Lemma rewriteAll input h d : tokens h ->
  fst (foldl (rewriteRound input) (h, d) h) = List.filter (untouched input h) h.
Proof.
  intros Ht. pose proof (rewriteRounds input h h Ht (incl_refl h) [] d) as Hx. cbn [app] in Hx. rewrite <- Hx.
  rewrite (List.forallb_filter_id (untouched input []) h); [reflexivity|]. now apply forallb_forall.
Qed.

(** ** Response headers *)

(** The fields of an upstream's header that a client may see. *)
Record forwardable (source : Header) (input : ForwardInput) (secrets : list string) (f : field) : Prop := {
  fw_end_to_end : isHopByHopHeader f.1 = false /\ forall token, In token (connectionTokens source) -> named f.1 token = false;
  fw_not_reserved : isDebugHeader f.1 = false;
  fw_not_signed : named f.1 "Signature" = false /\ named f.1 "Signature-Input" = false;
  fw_clean : forall g, In g source -> named g.1 f.1 = true -> deleteField input secrets g = false;
  fw_converted : input.(in_RouteMode) = RouteConverted -> isConvertedResponseHeaderAllowed f.1 = true;
  fw_model : needsModelRewrite input = true -> forall g, In g source -> named g.1 f.1 = true -> exposesModel input g = false;
}.

(** The fields that are left of a header before models are considered. *)
Definition cleaned (source : Header) (input : ForwardInput) (secrets : list string) : Header :=
  let headers := stripDownstreamResponseSignatures (cloneEndToEndHeaders source) in
  let headers := deleteAll headers (map fst (List.filter (deleteField input secrets) headers)) in
  if bool_decide (input.(in_RouteMode) = RouteConverted)
  then List.filter (fun f => isConvertedResponseHeaderAllowed f.1) headers else headers.

Lemma endToEnd_in source f :
  In f (stripDownstreamResponseSignatures (cloneEndToEndHeaders source)) <->
  In f source /\ isHopByHopHeader f.1 = false /\ (forall token, In token (connectionTokens source) -> named f.1 token = false) /\
  isDebugHeader f.1 = false /\ named f.1 "Signature" = false /\ named f.1 "Signature-Input" = false.
Proof.
  unfold stripDownstreamResponseSignatures, cloneEndToEndHeaders.
  rewrite deleteAll_in, filter_in, deleteAll_in, negb_true_iff, orb_false_iff. split.
  - intros [[[Hf Ht] [Hh Hd]] Hs]. repeat (split; [assumption|]).
    split; apply Hs; [now left|right; now left].
  - intros (Hf & Hh & Ht & Hd & H1 & H2). split; [split; [split|split]; assumption|].
    intros name [<-|[<-|[]]]; assumption.
Qed.

Lemma endToEnd_sibling source f g : tokens source -> In f source -> In g source -> named g.1 f.1 = true ->
  In f (stripDownstreamResponseSignatures (cloneEndToEndHeaders source)) ->
  In g (stripDownstreamResponseSignatures (cloneEndToEndHeaders source)).
Proof.
  intros Ht Hf Hg Hn. rewrite !endToEnd_in. intros (_ & H1 & H2 & H3 & H4 & H5).
  pose proof (proj1 (named_tokens _ _ (Ht g Hg) (Ht f Hf)) Hn) as E.
  split; [exact Hg|].
  split; [unfold isHopByHopHeader; rewrite (existsb_named_invariant _ g.1 f.1) by auto; exact H1|].
  split; [intros token Hin; rewrite (named_invariant token g.1 f.1) by auto; exact (H2 token Hin)|].
  split; [unfold isDebugHeader; rewrite (existsb_named_invariant _ g.1 f.1) by auto; exact H3|].
  split; [rewrite (named_invariant "Signature" g.1 f.1) by auto; exact H4|].
  rewrite (named_invariant "Signature-Input" g.1 f.1) by auto. exact H5.
Qed.

Lemma cleaned_in source input secrets f : tokens source ->
  In f (cleaned source input secrets) <->
  In f (stripDownstreamResponseSignatures (cloneEndToEndHeaders source)) /\
  (forall g, In g source -> named g.1 f.1 = true -> deleteField input secrets g = false) /\
  (input.(in_RouteMode) = RouteConverted -> isConvertedResponseHeaderAllowed f.1 = true).
Proof.
  intros Ht. unfold cleaned. cbn zeta. set (h := stripDownstreamResponseSignatures _).
  assert (Hsub : forall x, In x h -> In x source) by (intros x Hx; now apply endToEnd_in in Hx).
  assert (Hdel : In f (deleteAll h (map fst (List.filter (deleteField input secrets) h))) <->
                 In f h /\ forall g, In g source -> named g.1 f.1 = true -> deleteField input secrets g = false).
  { rewrite deleteAll_in. split; intros [Hf Hn]; (split; [exact Hf|]).
    - intros g Hg Hgf. destruct (deleteField input secrets g) eqn:Ed; [|reflexivity].
      assert (Hgh : In g h) by exact (endToEnd_sibling source f g Ht (Hsub f Hf) Hg Hgf Hf).
      assert (Hx : named f.1 g.1 = false).
      { apply Hn, in_map_iff. exists g. split; [reflexivity|]. apply filter_in. now split. }
      rewrite named_sym, Hgf in Hx by auto. discriminate Hx.
    - intros name Hin. apply in_map_iff in Hin as [g [<- Hg]]. apply filter_in in Hg as [Hg Hd].
      destruct (named f.1 g.1) eqn:En; [|reflexivity]. rewrite named_sym in En by auto.
      rewrite (Hn g (Hsub g Hg) En) in Hd. discriminate Hd. }
  case_bool_decide as Er.
  - rewrite filter_in, Hdel. split; [intros [[H1 H2] H3]|intros (H1 & H2 & H3)]; split; auto.
  - rewrite Hdel. split; [intros [H1 H2]|intros (H1 & H2 & _)]; split; auto.
Qed.

Lemma sanitize_cleaned source input secrets : tokens source ->
  sanitizeForwardResponseHeaders source input secrets =
  let h := cleaned source input secrets in
  if needsModelRewrite input then List.filter (untouched input h) h else h.
Proof.
  intros Ht. unfold sanitizeForwardResponseHeaders. cbn zeta.
  set (h0 := stripDownstreamResponseSignatures (cloneEndToEndHeaders source)).
  assert (Hsub : forall x, In x (cleaned source input secrets) -> In x h0)
    by (intros x Hx; now apply cleaned_in in Hx).
  assert (Htok : tokens (cleaned source input secrets)).
  { intros x Hx. apply Ht. apply Hsub, endToEnd_in in Hx. tauto. }
  assert (Hstrip : forall h, (forall x, In x h -> In x h0) -> stripDownstreamResponseSignatures h = h).
  { intros h Hh. unfold stripDownstreamResponseSignatures, deleteAll. cbn [foldl]. unfold deleteHeaderField.
    rewrite filter_twice. apply List.forallb_filter_id, forallb_forall. intros x Hx.
    apply Hh, endToEnd_in in Hx as (_ & _ & _ & _ & E1 & E2). now rewrite E1, E2. }
  assert (Hsplit : forall deleted,
    (if bool_decide (in_RouteMode input = RouteConverted)
     then (List.filter (fun f => isConvertedResponseHeaderAllowed f.1)
             (deleteAll h0 (map fst (List.filter (deleteField input secrets) h0))),
           deleted || existsb (fun f => negb (isConvertedResponseHeaderAllowed f.1))
                        (deleteAll h0 (map fst (List.filter (deleteField input secrets) h0))))
     else (deleteAll h0 (map fst (List.filter (deleteField input secrets) h0)), deleted)).1 = cleaned source input secrets).
  { intros deleted. unfold cleaned. fold h0. now destruct (bool_decide _). }
  specialize (Hsplit (endToEndHeaderCleanupDeletedField source h0 ||
                      negb (isEmpty (map fst (List.filter (deleteField input secrets) h0))))).
  destruct (if bool_decide (in_RouteMode input = RouteConverted) then _ else _) as [h d]. cbn [fst] in Hsplit. subst h.
  destruct (needsModelRewrite input).
  - pose proof (rewriteAll input (cleaned source input secrets) d Htok) as Hr.
    destruct (foldl _ _ _) as [h d']. cbn [fst] in Hr. subst h.
    destruct d'; [|reflexivity]. apply Hstrip. intros x Hx. apply filter_in in Hx as [Hx _]. now apply Hsub.
  - destruct d; [|reflexivity]. now apply Hstrip.
Qed.

Lemma sanitized_in source input secrets f : tokens source ->
  In f (sanitizeForwardResponseHeaders source input secrets) <-> In f source /\ forwardable source input secrets f.
Proof.
  intros Ht. rewrite sanitize_cleaned by exact Ht. cbn zeta.
  assert (Hc : In f (cleaned source input secrets) <->
               In f source /\ (isHopByHopHeader f.1 = false /\ forall token, In token (connectionTokens source) -> named f.1 token = false) /\
               isDebugHeader f.1 = false /\ (named f.1 "Signature" = false /\ named f.1 "Signature-Input" = false) /\
               (forall g, In g source -> named g.1 f.1 = true -> deleteField input secrets g = false) /\
               (in_RouteMode input = RouteConverted -> isConvertedResponseHeaderAllowed f.1 = true)).
  { rewrite cleaned_in, endToEnd_in by exact Ht. tauto. }
  destruct (needsModelRewrite input) eqn:Em.
  - rewrite filter_in, Hc. unfold untouched. rewrite forallb_forall. split.
    + intros [(H1 & H2 & H3 & H4 & H5 & H6) H7]. split; [exact H1|]. split; auto. intros _ g Hg Hgf.
      assert (Hgc : In g (cleaned source input secrets)).
      { pose proof (proj1 (named_tokens _ _ (Ht g Hg) (Ht f H1)) Hgf) as E.
        apply cleaned_in; [exact Ht|]. split; [|split].
        - apply (endToEnd_sibling source f g Ht H1 Hg Hgf). apply endToEnd_in. tauto.
        - intros x Hx Hxg. apply (H5 x Hx).
          rewrite <- (named_trans x.1 g.1 f.1 (Ht x Hx) (Ht g Hg) Hxg). exact Hgf.
        - intros Hr. specialize (H6 Hr). unfold isConvertedResponseHeaderAllowed in *.
          rewrite (lowered_invariant (fun l => oneOf l _) g.1 f.1) by auto. exact H6. }
      specialize (H7 g Hgc). destruct (exposesModel input g); [|reflexivity]. cbn in H7.
      rewrite named_sym, Hgf in H7 by auto. discriminate H7.
    + intros [H1 [H2 H3 H4 H5 H6 H7]]. split; [tauto|]. intros g Hg.
      assert (Hgs : In g source) by now apply cleaned_in, proj1, endToEnd_in in Hg.
      destruct (named f.1 g.1) eqn:En; [|now rewrite andb_false_r]. rewrite named_sym in En by auto.
      now rewrite (H7 Em g Hgs En).
  - rewrite Hc. split.
    + intros (H1 & H2 & H3 & H4 & H5 & H6). split; [exact H1|]. split; auto. congruence.
    + intros [H1 [H2 H3 H4 H5 H6 _]]. tauto.
Qed.

(** [C22] A client sees exactly the fields of the upstream's header that may be forwarded,
    with their values: no hop-by-hop, reserved, signature, cookie, credential or origin
    field, nothing beyond the allowed names on a converted route, no field that names the
    hidden upstream model, and no field next to one that carries a secret.  In particular
    no value that reaches the client contains the API key or a credential secret. *)
Theorem response_headers_exact source input secrets : validateHeader source = None ->
  (forall f, In f (sanitizeForwardResponseHeaders source input secrets) <-> In f source /\ forwardable source input secrets f) /\
  (forall f value secret, In f (sanitizeForwardResponseHeaders source input secrets) -> In value f.2 ->
     In secret ("gld1_"%string :: in_APIKey input :: in_CredentialSecrets input ++ secrets) -> secret <> ""%string ->
     contains (bytes secret) (bytes value) = false).
Proof.
  intros Hv. pose proof (validateHeader_tokens source Hv) as Ht.
  split; [intros f; now apply sanitized_in|]. intros f value secret Hf Hval Hsec Hne.
  apply sanitized_in in Hf as [Hf [_ _ _ Hc _ _]]; [|exact Ht].
  specialize (Hc f Hf (named_refl f.1 (token_ascii f.1 (Ht f Hf)))).
  destruct f as [name values]. cbn [fst snd] in *. unfold deleteField in Hc. rewrite !orb_false_iff in Hc.
  destruct Hc as [[[_ Hg] Ha] Hs].
  assert (Hlit : headerValuesContainLiteral values secret = false).
  { destruct Hsec as [<-|[<-|Hin]]; [exact Hg|exact Ha|].
    destruct (String.eqb_spec secret (in_APIKey input)) as [->|Hk]; [exact Ha|].
    destruct (headerValuesContainLiteral values secret) eqn:El; [|reflexivity].
    assert (Hx : existsb (fun s => negb (emptyText s) && negb (String.eqb s (in_APIKey input)) &&
                                   headerValuesContainLiteral values s) (in_CredentialSecrets input ++ secrets) = true).
    { apply existsb_exists. exists secret. split; [exact Hin|]. rewrite El. apply String.eqb_neq in Hk. rewrite Hk.
      unfold emptyText. now rewrite bool_decide_eq_false_2. }
    rewrite Hx in Hs. discriminate Hs. }
  unfold headerValuesContainLiteral, emptyText in Hlit. rewrite bool_decide_eq_false_2 in Hlit by exact Hne. cbn in Hlit.
  destruct (contains (bytes secret) (bytes value)) eqn:Ec; [|reflexivity].
  assert (Hx : existsb (fun v => contains (bytes secret) (bytes v)) values = true)
    by (apply existsb_exists; now exists value).
  rewrite Hx in Hlit. discriminate Hlit.
Qed.

(** ** Framing *)



















End Names.

(** ** Samples *)

#[local] Instance sampleFold : UnicodeFold := fun _ _ => false.
#[local] Instance sampleMedia : MediaTypes := fun value => Some value.

Definition sampleInput : ForwardInput :=
  mkInput true (mkRules [] []) (mkTimeouts 0 0 0) "sk-1" ["refresh-9"]%string None [] "fast" "vendor-model" "req" "att" 1
    OpenAICompletions OperationChatCompletion RouteRequirementAny ResponsesStorePreferenceNone false "openai" RouteNative []
    (mkCredentialSnapshot 1 1 1 (bytes "sk-1")) false "" false.

Definition sampleHeader : Header :=
  [("Content-Type", ["application/json"]); ("Connection", ["X-Trace"]); ("x-trace", ["1"]); ("Set-Cookie", ["a=b"]);
   ("X-Note", ["used sk-1"]); ("x-note", ["plain"]); ("X-Model", ["vendor-model"]); ("X-Request-Id", ["r1"])]%string.

Lemma response_headers_exact_witness :
  In ("X-Request-Id", ["r1"])%string (sanitizeForwardResponseHeaders sampleHeader sampleInput []) /\
  ~ In ("x-note", ["plain"])%string (sanitizeForwardResponseHeaders sampleHeader sampleInput []) /\
  contains (bytes "sk-1") (bytes "r1") = false.
Proof.
  assert (Hv : validateHeader sampleHeader = None) by (vm_compute; reflexivity).
  destruct (response_headers_exact sampleHeader sampleInput [] Hv) as [Hiff Hclean].
  assert (Hin : In ("X-Request-Id", ["r1"])%string (sanitizeForwardResponseHeaders sampleHeader sampleInput []))
    by (vm_compute; tauto).
  split; [exact Hin|]. split.
  - intros Hn. destruct (proj1 (Hiff ("x-note", ["plain"])%string) Hn) as [_ [_ _ _ Hc _ _]].
    assert (Hin2 : In ("X-Note", ["used sk-1"])%string sampleHeader) by (do 4 right; left; reflexivity).
    assert (Hname : named "X-Note" "x-note" = true) by (vm_compute; reflexivity).
    pose proof (Hc ("X-Note", ["used sk-1"])%string Hin2 Hname) as Hx.
    vm_compute in Hx. discriminate Hx.
  - assert (Hne : "sk-1"%string <> ""%string) by discriminate.
    exact (Hclean ("X-Request-Id", ["r1"])%string "r1"%string "sk-1"%string Hin (or_introl eq_refl)
             (or_intror (or_introl eq_refl)) Hne).
Defined.


End HeadersProps.
