(* ===== verification/Forward.v ===== *)
(** * From an attempt's input to its result

    The forwarder around an executor ([internal/gateway/execution_forward.go]): the attempt
    specification built from a client's request, the stateless form of stored responses
    ([responses_store.go]), and the translation of executor results into the results the
    attempt loop judges.

    JSON objects are maps from keys to raw values; decoding and encoding them are
    arguments.  The dialect's classifiers, redaction and the preparation of buffered bodies
    are arguments of the operations that use them. *)

From Stdlib Require Import ZArith Lia Bool String Ascii List.
From stdpp Require Import base gmap sets list strings.
From coqutil Require Import Datatypes.RecordSettersUsingExistingGetters.
From S2P Require Import Prelude Usage GoStrings Execution Health Boundary Contracts Headers Sse.

Local Open Scope Z_scope.

(** [strings.ReplaceAll] of a text that is not empty; the length bounds the rounds. *)
Fixpoint replace_fuel (fuel : nat) (old new l : list ascii) : list ascii :=
  match fuel, l with
  | S fuel, c :: rest =>
    if has_prefix old l then new ++ replace_fuel fuel old new (drop (length old) l) else c :: replace_fuel fuel old new rest
  | _, _ => l
  end.
Definition replace_all (old new l : list ascii) : list ascii := replace_fuel (length l) old new l.

(** [utf8.Valid]. *)
Fixpoint utf8_valid_fuel (fuel : nat) (l : list ascii) : bool :=
  match fuel, l with
  | S fuel, c :: _ =>
    (negb (rune_width l =? 1)%nat || (byte_val c <? 128)) && utf8_valid_fuel fuel (drop (rune_width l) l)
  | _, _ => true
  end.
Definition utf8_valid (l : list ascii) : bool := utf8_valid_fuel (length l) l.

Module Forward.
Import Usage Execution Health Boundary Contracts Headers Sse.

(** ** Stateless responses *)

(** [json.Unmarshal] into a map of raw values ([None]: an error or null), and the output of
    [json.Encoder], which ends with a line feed. *)
Class JSONObjects := {
  decodeObject : wire -> option (gmap string wire);
  encodeObject : gmap string wire -> option wire;
}.

Section Stateless.
Context `{JSONObjects}.

Definition maxResponsesStoreRewriteGrowthBytes : Z := 64.

Definition decodeResponsesStoreObject (payload : wire) : option (gmap string wire) :=
  if negb (utf8_valid payload) then None else decodeObject payload.

Definition encodeResponsesStoreObject (object : gmap string wire) (sourceSize : Z) : option wire :=
  match encodeObject object with
  | None => None
  | Some output =>
    match rev output with
    | last :: _ =>
      if negb (Ascii.eqb last LF) then None
      else
        let encoded := removelast output in
        if (len encoded >? sourceSize) && (len encoded - sourceSize >? maxResponsesStoreRewriteGrowthBytes)
        then None else Some encoded
    | [] => None
    end
  end.

Definition notStored : wire := bytes "false".

Definition forceStatelessResponsesRequest (payload : wire) : option wire :=
  match decodeResponsesStoreObject payload with
  | None => None
  | Some object => encodeResponsesStoreObject (<["store"%string := notStored]> object) (len payload)
  end.

Definition normalizeStatelessResponsesSuccess (payload : wire) : option wire :=
  match decodeResponsesStoreObject payload with
  | None => Some payload
  | Some object => encodeResponsesStoreObject (<["store"%string := notStored]> object) (len payload)
  end.

(** The payload of an event, rewritten; [Err tt] is an encoding failure. *)
Definition normalizeStatelessResponsesSSEPayload (event : Sse.StreamEvent) (_ : bool) : result unit sseEventRewriteResult :=
  let unchanged := Ok (mkRewrite event.(Payload) false) in
  match decodeResponsesStoreObject event.(Payload) with
  | None => unchanged
  | Some object =>
    match object !! "response"%string with
    | None => unchanged
    | Some rawResponse =>
      if same_text (trim_space rawResponse) "null" then unchanged
      else
        match decodeResponsesStoreObject rawResponse with
        | None => unchanged
        | Some response =>
          match encodeResponsesStoreObject (<["store"%string := notStored]> response) (len rawResponse) with
          | None => Err tt
          | Some encodedResponse =>
            match encodeResponsesStoreObject (<["response"%string := encodedResponse]> object) (len event.(Payload)) with
            | None => Err tt
            | Some rewritten => Ok (mkRewrite rewritten false)
            end
          end
        end
    end
  end.

(** ** Attempt specifications *)

Context `{UnicodeFold} `{WireParsers}.

Inductive SpecError := RequestRequired | StatelessRequestInvalid | SpecInvalid (e : ValidationError).

Definition ConfiguredNames (rules : HeaderRules) : list string := map fst rules.(rules_Set) ++ rules.(rules_Remove).

Definition ruleValue (apiKey value : string) : string :=
  text (replace_all (bytes "${API_KEY}") (bytes apiKey) (bytes value)).

Definition upstreamRequestHeaders (input : ForwardInput) (request : ParsedRequest) : Header :=
  let headers := removeDownstreamCredentials (cloneEndToEndHeaders request.(pr_Header)) in
  let headers :=
    foldl (fun headers rule => Set_ headers rule.1 (ruleValue input.(in_APIKey) rule.2)) headers
      input.(in_HeaderRules).(rules_Set) in
  let headers := foldl Del headers input.(in_HeaderRules).(rules_Remove) in
  Set_ (sanitizeUpstreamRequestHeaders headers) "Accept-Encoding" "identity".

Definition newExecutionAttemptSpec (input : ForwardInput) : result SpecError AttemptSpec :=
  match input.(in_Request) with
  | None => Err RequestRequired
  | Some request =>
    let spec :=
      NewAttemptSpec
        (mkSpec input.(in_RequestID) input.(in_AttemptID) input.(in_AttemptSequence) input.(in_ChannelID)
           input.(in_RouteMode) input.(in_ClientProtocol) input.(in_Operation) input.(in_RouteRequirement)
           input.(in_ResponsesStorePreference) input.(in_ResponsesStoreDowngraded) input.(in_ExternalModel)
           input.(in_UpstreamModelID) request.(pr_Method) request.(pr_Path) [] request.(pr_RawQuery)
           (upstreamRequestHeaders input request) request.(pr_Body) (ConfiguredNames input.(in_HeaderRules))
           input.(in_ConfiguredParameters) input.(in_ObserveUsage) input.(in_ForceCredentialRefresh)
           input.(in_ContinuityKey) input.(in_TargetConfig) input.(in_Timeouts) input.(in_Credential)) in
    let prepared :=
      if spec.(as_ResponsesStoreDowngraded) then
        match forceStatelessResponsesRequest spec.(as_Body) with
        | None => None
        | Some body => Some (spec <| as_Body := body |> <| as_Header := StripRepresentationMetadata spec.(as_Header) |>)
        end
      else Some spec in
    match prepared with
    | None => Err StatelessRequestInvalid
    | Some spec => match validateAttemptSpec spec with Some e => Err (SpecInvalid e) | None => Ok spec end
    end
  end.

End Stateless.

(** ** Results *)

(** [UpstreamResult] with the fields that are only recorded. *)
Record ForwardResult := mkForward {
  core : UpstreamResult;
  ClassificationBody : list ascii;
  UpstreamReportedModel : string;
  ResponseModelObserved : bool;
  fr_Usage : Result;
  fr_UpstreamProtocol : option Protocol;
  fr_AppliedReasoning : option ReasoningConfig;
  fr_UpstreamRequestID : string;
}.

Definition noUsage (state : State) : Result := mkResult zeroTokens state noDiagnostics.

(** A result that carries nothing but a failure. *)
Definition failedForward (err : GoError) (state : DispatchState) (e : ErrorEvidence) (usage : Result) : ForwardResult :=
  mkForward
    (mkUpstream 0 [] "" e.(Summary) (Some err) (bool_decide (state = DispatchMaybeSent)) false false false noStream state
       false (Some e))
    [] "" false usage None None "".

Definition executionInputFailure : ForwardResult :=
  failedForward (wrapping ErrUpstreamProtocol) DispatchNotSent
    (evidence ErrorKindInvalidRequest ErrorOriginNone ErrorScopeNone 0 "" "invalid execution attempt" ReplaySafetyNone)
    (noUsage (StateOther "")).

Definition contractEvidence (status : Z) : ErrorEvidence :=
  evidence ErrorKindInternal ErrorOriginInternal ErrorScopeRequest status "attempt_result_contract_invalid"
    "Attempt executor returned an invalid result." ReplaySafetyUnknown.

Definition invalidExecutionAttemptResult (result : AttemptResult) : ForwardResult :=
  let r := result.(ar_Result) in
  let dispatchState :=
    if bool_decide (r.(sr_DispatchState) = DispatchLocal) then DispatchLocal
    else if bool_decide (r.(sr_DispatchState) = DispatchMaybeSent) || r.(sr_ResponseStarted) ||
            negb (r.(sr_StatusCode) =? 0) || negb (isEmpty r.(sr_Header)) || negb (isEmpty result.(ar_Body))
         then DispatchMaybeSent else DispatchNotSent in
  failedForward (wrapping ErrUpstreamProtocol) dispatchState (contractEvidence 0) (noUsage StateNotApplicable).

Definition invalidExecutionStreamResult (result : StreamResult) (ready : option Contracts.StreamEvent) (committed : bool) : StreamResult :=
  let dispatchState :=
    if bool_decide (result.(sr_DispatchState) = DispatchLocal) && negb committed && negb (present ready) then DispatchLocal
    else if committed || present ready || bool_decide (result.(sr_DispatchState) = DispatchMaybeSent) ||
            result.(sr_ResponseStarted) || negb (result.(sr_StatusCode) =? 0) || negb (isEmpty result.(sr_Header))
         then DispatchMaybeSent else DispatchNotSent in
  match ready with
  | Some ready =>
    mkStreamResult dispatchState true None None ready.(se_StatusCode) (default [] ready.(se_Header)) ""
      ready.(se_UpstreamRequestID) None (Some (contractEvidence ready.(se_StatusCode)))
  | None => mkStreamResult dispatchState false None None 0 [] "" "" None (Some (contractEvidence 0))
  end.

Definition executionFailureError (ctx : RequestContext) (e : ErrorEvidence) : GoError :=
  if contextEnded ctx then wrapping Canceled
  else
    match e.(Kind) with
    | ErrorKindCanceled => wrapping Canceled
    | ErrorKindTimeout => wrapping NetworkTimeout
    | ErrorKindInvalidRequest | ErrorKindProvider | ErrorKindInternal => wrapping ErrUpstreamProtocol
    | _ => mkError [] None
    end.

Section Results.
Context `{UnicodeFold}.

(** [baseExecutionResult], with the fields of the terminal result in one record. *)
Definition baseExecutionResult (input : ForwardInput) (r : StreamResult) (usageEvidence : option UsageEvidence)
    : ForwardResult :=
  let successfulStatus := (r.(sr_StatusCode) >=? 200) && (r.(sr_StatusCode) <? 300) in
  mkForward
    (mkUpstream r.(sr_StatusCode) (cloneEndToEndHeaders r.(sr_Header)) ""
       match r.(sr_Error) with Some e => e.(Summary) | None => "" end None
       (bool_decide (r.(sr_DispatchState) = DispatchMaybeSent)) false
       match r.(sr_Error) with Some _ => r.(sr_ResponseStarted) && successfulStatus | None => false end
       false noStream r.(sr_DispatchState) r.(sr_ResponseStarted) r.(sr_Error))
    [] r.(sr_Model) (negb (emptyText r.(sr_Model)))
    match usageEvidence with
    | Some u => u.(Normalized)
    | None => noUsage (if input.(in_ObserveUsage) then StateMissing else StateNotApplicable)
    end
    r.(sr_UpstreamProtocol) r.(sr_AppliedReasoning) r.(sr_UpstreamRequestID).

(** An error before the response started becomes the result's error. *)
Definition withFailure (ctx : RequestContext) (r : StreamResult) (result : ForwardResult) : ForwardResult :=
  match r.(sr_Error) with
  | Some e =>
    if r.(sr_ResponseStarted) then result
    else result <| core := result.(core) <| u_Err := Some (executionFailureError ctx e) |> |>
  | None => result
  end.

Definition upstreamFromExecutionResult (ctx : RequestContext) (input : ForwardInput) (result : AttemptResult) : ForwardResult :=
  let base := baseExecutionResult input result.(ar_Result) result.(ar_Result).(sr_Usage) in
  withFailure ctx result.(ar_Result)
    (base <| core := base.(core) <| Body := text result.(ar_Body) |> |> <| ClassificationBody := result.(ar_Body) |>).

Definition upstreamFromExecutionStreamResult (ctx : RequestContext) (input : ForwardInput) (result : StreamResult)
    (streamUsage : option UsageEvidence) : ForwardResult :=
  withFailure ctx result
    (baseExecutionResult input result match result.(sr_Usage) with Some u => Some u | None => streamUsage end).

End Results.

Definition maxStreamingErrorBodyBytes : Z := 65536.

Definition appendExecutionErrorBody (current chunk : wire) : wire :=
  let remaining := maxStreamingErrorBodyBytes - len current in
  if remaining <=? 0 then current else current ++ take (Z.to_nat remaining) chunk.

Definition preferCapturedStreamUsage (current captured : Result) : Result :=
  match captured.(ResState) with
  | StateComplete => if bool_decide (current.(ResState) = StateComplete) then current else captured
  | StatePartial =>
    if bool_decide (current.(ResState) = StateMissing) || bool_decide (current.(ResState) = StateOther "")
    then captured else current
  | StateMissing => if bool_decide (current.(ResState) = StateOther "") then captured else current
  | _ => current
  end.

Definition executionRepresentationFailure (result : ForwardResult) (err : GoError) : ForwardResult :=
  let base :=
    if Is (Some err) errUnaryRestore then responseRedactionEvidence 0
    else evidence ErrorKindInternal ErrorOriginInternal ErrorScopeRequest 0 "response_representation_invalid"
           "Upstream response representation could not be processed." ReplaySafetyUnknown in
  let c := result.(core) in
  let e := if c.(u_ResponseStarted) then base <| ev_StatusCode := c.(u_StatusCode) |> else base in
  mkForward
    (mkUpstream c.(u_StatusCode) [] "" e.(Summary) (Some err) c.(RequestWritten) false false false noStream
       c.(u_DispatchState) c.(u_ResponseStarted) (Some e))
    [] "" false result.(fr_Usage) result.(fr_UpstreamProtocol) result.(fr_AppliedReasoning) result.(fr_UpstreamRequestID).

(** ** The error a stream starts with *)

(** A text with every byte that starts no rune replaced by U+FFFD, rune by rune. *)
Fixpoint runes_fuel (fuel : nat) (l : list ascii) : list (list ascii) :=
  match fuel, l with
  | S fuel, c :: _ =>
    (if (rune_width l =? 1)%nat && negb (byte_val c <? 128) then [ascii_of_nat 239; ascii_of_nat 191; ascii_of_nat 189]
     else take (rune_width l) l) :: runes_fuel fuel (drop (rune_width l) l)
  | _, _ => []
  end.
Definition runes (l : list ascii) : list (list ascii) := runes_fuel (length l) l.

Record errorObject := mkErrorObject { eo_Type : string; eo_Code : wire; eo_Status : string; eo_Message : string }.
Record errorEnvelope := mkErrorEnvelope {
  env_Type : string; env_Code : wire; env_Error : errorObject; env_ResponseError : errorObject;
}.

(** [json.Unmarshal] into the envelope, into a text and into a number. *)
Class ErrorDecoder := {
  decodeErrorEnvelope : wire -> option errorEnvelope;
  decodeText : wire -> option string;
  decodeNumber : wire -> option string;
}.

Section FirstError.
Context `{ErrorDecoder} (sanitizeErrorSummary : string -> string).

Definition streamErrorEvidenceScalar (value : wire) : string :=
  let value := trim_space value in
  if isEmpty value || same_text value "null" then ""
  else match decodeText value with
       | Some t => t
       | None => default ""%string (decodeNumber value)
       end.

Definition sanitizeStreamErrorEvidenceValue (value : string) : string :=
  let value := sanitizeErrorSummary value in
  let r := runes (bytes value) in
  if (128 <? length r)%nat then text (concat (take 128 r)) else value.

Definition containsStreamErrorMarker (value : wire) (markers : list string) : bool :=
  existsb (fun marker => contains (bytes marker) value) markers.

Definition streamErrorFailureHint (statusCode : Z) (values : list string) : FailureHint :=
  let markers := to_lower (joinWith (bytes " ") (map (fun v => bytes v) values)) in
  if statusCode =? 401 then FailureHintInvalidCredential
  else if containsStreamErrorMarker markers
            ["model_not_found"; "model not found"; "model_not_available"; "model unavailable"; "deployment_not_found";
             "unsupported_model"]%string then FailureHintModelUnavailable
  else if (statusCode =? 429) ||
          containsStreamErrorMarker markers
            ["rate_limit"; "rate limit"; "too_many_requests"; "quota_exceeded"; "resource_exhausted"; "throttl"]%string
       then FailureHintRateLimited
  else if containsStreamErrorMarker markers
            ["invalid_api_key"; "api_key_invalid"; "authentication_error"; "authentication failed"; "invalid credential";
             "api key not valid"]%string then FailureHintInvalidCredential
  else if (statusCode >=? 500) && (statusCode <=? 599) then FailureHintHostError
  else FailureHintNone.

Definition streamBootstrapCapacityRejection (codeValue : string) : bool :=
  same_text (lowered codeValue) "server_is_overloaded" || same_text (lowered codeValue) "rate_limit_exceeded".

Definition orElse (a b : string) : string := if emptyText a then b else a.

(** The evidence before the payload is looked at. *)
Definition firstErrorBase (existing : option ErrorEvidence) (statusCode : Z) (requestID summary : string) : ErrorEvidence :=
  match existing with
  | None => mkEvidence ErrorKindProvider FailureHintNone ErrorOriginNone ErrorScopeNone statusCode "" "" summary requestID 0
              ReplaySafetyNone []
  | Some e =>
    e <| Kind := ErrorKindProvider |>
      <| ev_StatusCode := if e.(ev_StatusCode) =? 0 then statusCode else e.(ev_StatusCode) |>
      <| Summary := orElse e.(Summary) summary |> <| RequestID := orElse e.(RequestID) requestID |>
  end.

Definition firstStreamErrorEvidence (payload : wire) (existing : option ErrorEvidence) (statusCode : Z)
    (requestID summary : string) : ErrorEvidence :=
  let e := firstErrorBase existing statusCode requestID summary in
  match decodeErrorEnvelope payload with
  | None => e
  | Some envelope =>
    let providerError :=
      let p := envelope.(env_Error) in
      if emptyText p.(eo_Type) && isEmpty p.(eo_Code) && emptyText p.(eo_Status) && emptyText p.(eo_Message)
      then envelope.(env_ResponseError) else p in
    let typeValue :=
      if emptyText providerError.(eo_Type) && negb (equal_fold (bytes envelope.(env_Type)) (bytes "error"))
      then envelope.(env_Type) else providerError.(eo_Type) in
    let codeValue :=
      orElse (orElse (streamErrorEvidenceScalar providerError.(eo_Code)) (streamErrorEvidenceScalar envelope.(env_Code)))
        providerError.(eo_Status) in
    let typeValue := sanitizeStreamErrorEvidenceValue typeValue in
    let codeValue := sanitizeStreamErrorEvidenceValue codeValue in
    let statusValue := sanitizeStreamErrorEvidenceValue providerError.(eo_Status) in
    let e := e <| Type_ := orElse e.(Type_) typeValue |> <| Code := orElse e.(Code) codeValue |> in
    let e :=
      if bool_decide (e.(Hint) = FailureHintNone)
      then e <| Hint := streamErrorFailureHint statusCode [typeValue; codeValue; statusValue; e.(Summary)] |> else e in
    let e := e <| OriginHint := ErrorOriginUpstream |> in
    let e :=
      match e.(Hint) with
      | FailureHintInvalidCredential | FailureHintRefreshRequired | FailureHintReauthorizationRequired =>
        e <| ScopeHint := ErrorScopeCredential |>
      | FailureHintModelUnavailable | FailureHintCandidateUnavailable => e <| ScopeHint := ErrorScopeModel |>
      | FailureHintRequestRejected => e <| ScopeHint := ErrorScopeRequest |>
      | FailureHintHostError => e <| ScopeHint := ErrorScopeGroup |>
      | _ => e
      end in
    if bool_decide (e.(ReplaySafetyOf) = ReplaySafetyNone) && streamBootstrapCapacityRejection e.(Code)
    then e <| ReplaySafetyOf := ReplaySafetyRejectedBeforeProcessing |> else e
  end.

End FirstError.
End Forward.
