(* ===== verification/ForwardProps.v ===== *)
(** * What an attempt sends upstream

    The header of an attempt carries no credential, hop-by-hop or reserved field of the
    client; a downgraded request asks the upstream not to store the response. *)

From Stdlib Require Import ZArith Lia Bool String Ascii List.
From stdpp Require Import base gmap sets list strings.
From coqutil Require Import Datatypes.RecordSettersUsingExistingGetters.
From S2P Require Import Prelude Usage GoStrings Execution Health Boundary Contracts Headers HeadersProps Sse Forward.

Local Open Scope Z_scope.

Module ForwardProps.
Import Usage Execution Boundary Contracts Headers HeadersProps Sse Forward.

Section Requests.
Context `{UnicodeFold} `{WireParsers} `{JSONObjects}.

(** ** Headers *)

Lemma Set_in h name value f :
  In f (Set_ h name value) <-> In f h /\ f.1 <> canonicalName name \/ f = (canonicalName name, [value]).
Proof.
  unfold Set_, Del, delete. rewrite in_app_iff, filter_in, negb_true_iff, String.eqb_neq. cbn. split.
  - intros [Hx|[<-|[]]]; [now left|now right].
  - intros [Hx| ->]; [now left|right; now left].
Qed.

Lemma rules_in apiKey rules : forall h f,
  In f (foldl (fun h rule => Set_ h rule.1 (ruleValue apiKey rule.2)) h rules) ->
  In f h /\ (forall name value, In (name, value) rules -> f.1 <> canonicalName name) \/
  exists name value, In (name, value) rules /\ f = (canonicalName name, [ruleValue apiKey value]).
Proof.
  induction rules as [|[name value] rules IH]; intros h f Hf; cbn [foldl] in Hf; [left; split; [exact Hf|intros ? ? []]|].
  cbn [fst snd] in Hf. destruct (IH _ _ Hf) as [[Hin Hne]|(n & v & Hin & ->)].
  - apply Set_in in Hin as [[Hin Hn]|Heq].
    + left. split; [exact Hin|]. intros n v [[= <- <-]|Hx]; [exact Hn|exact (Hne n v Hx)].
    + right. exists name, value. split; [now left|exact Heq].
  - right. exists n, v. split; [now right|reflexivity].
Qed.

Lemma removed_in names : forall h f, In f (foldl Del h names) -> In f h.
Proof.
  induction names as [|n names IH]; intros h f Hf; [exact Hf|]. apply IH in Hf. now apply filter_in in Hf as [Hf _].
Qed.

(** A field of the client that may go upstream. *)
Record ownField (input : ForwardInput) (request : ParsedRequest) (f : field) : Prop := {
  own_client : In f request.(pr_Header);
  own_secretless : IsCredentialName f.1 = false;
  own_end_to_end : forall token, In token (connectionTokens request.(pr_Header)) -> named f.1 token = false;
  own_unruled : forall name value, In (name, value) input.(in_HeaderRules).(rules_Set) -> f.1 <> canonicalName name;
}.

Definition ruleField (input : ForwardInput) (f : field) : Prop :=
  exists name value, In (name, value) input.(in_HeaderRules).(rules_Set) /\
    f = (canonicalName name, [ruleValue input.(in_APIKey) value]).

Definition identityField : field := ("Accept-Encoding", ["identity"])%string.

Lemma upstream_header_in input request f : In f (upstreamRequestHeaders input request) ->
  isHopByHopHeader f.1 = false /\ isDebugHeader f.1 = false /\
  (f = identityField \/ IsForbiddenRequestRuleName f.1 = false /\ (ownField input request f \/ ruleField input f)).
Proof.
  unfold upstreamRequestHeaders. cbn zeta. rewrite Set_in. intros [[Hf _]| ->].
  2:{ split; [vm_compute; reflexivity|]. split; [vm_compute; reflexivity|]. left. vm_compute. reflexivity. }
  unfold sanitizeUpstreamRequestHeaders in Hf. apply filter_in in Hf as [Hf Hk]. apply deleteAll_in in Hf as [Hf _].
  rewrite negb_true_iff, !orb_false_iff in Hk. destruct Hk as [[Hh Hr] Hd].
  split; [exact Hh|]. split; [exact Hd|]. right. split; [exact Hr|].
  apply removed_in, rules_in in Hf as [[Hf Hne]|Hx]; [left|right; exact Hx].
  apply filter_in in Hf as [Hf Hc]. apply negb_true_iff in Hc. apply filter_in in Hf as [Hf _].
  apply deleteAll_in in Hf as [Hf Ht]. now split.
Qed.

(** ** Stateless requests *)

(** Encoding an object gives a text that ends with a line feed and decodes to the same keys
    with compacted values. *)
Variable compact : wire -> wire.
Hypothesis compact_false : compact notStored = notStored.
Hypothesis encoded_decodes : forall o e, encodeObject o = Some e ->
  exists b, e = b ++ [LF] /\ utf8_valid b = true /\ decodeObject b = Some (compact <$> o).

Lemma encodeResponsesStoreObject_decodes o size body : encodeResponsesStoreObject o size = Some body ->
  decodeResponsesStoreObject body = Some (compact <$> o) /\ len body <= Z.max size (size + maxResponsesStoreRewriteGrowthBytes).
Proof.
  unfold encodeResponsesStoreObject. destruct (encodeObject o) as [e|] eqn:Ee; [|discriminate].
  destruct (encoded_decodes o e Ee) as (b & -> & Hu & Hd). rewrite rev_app_distr. cbn [rev app].
  change (Ascii.eqb LF LF) with true. cbn [negb]. rewrite removelast_last.
  destruct (_ && _) eqn:Eg; [discriminate|]. intros [= <-]. unfold decodeResponsesStoreObject. rewrite Hu. cbn [negb].
  split; [exact Hd|]. unfold maxResponsesStoreRewriteGrowthBytes in *. apply andb_false_iff in Eg.
  rewrite !Z.gtb_ltb, !Z.ltb_ge in Eg. lia.
Qed.

Lemma forced_stateless payload body : forceStatelessResponsesRequest payload = Some body ->
  exists before after, decodeResponsesStoreObject payload = Some before /\ decodeResponsesStoreObject body = Some after /\
    after !! "store"%string = Some notStored /\
    (forall key, key <> "store"%string -> after !! key = compact <$> before !! key) /\
    len body <= len payload + maxResponsesStoreRewriteGrowthBytes.
Proof.
  unfold forceStatelessResponsesRequest. destruct (decodeResponsesStoreObject payload) as [before|]; [|discriminate].
  intros Hb. apply encodeResponsesStoreObject_decodes in Hb as [Hd Hl]. exists before, (compact <$> <["store"%string := notStored]> before).
  split; [reflexivity|]. split; [exact Hd|]. split; [|split].
  - rewrite lookup_fmap, lookup_insert_eq. cbn [fmap option_fmap option_map]. now rewrite compact_false.
  - intros key Hk. now rewrite lookup_fmap, lookup_insert_ne.
  - unfold maxResponsesStoreRewriteGrowthBytes in *. lia.
Qed.

(** [C16] What an attempt sends upstream is clean.  An accepted specification is valid; of
    the client's header it carries only end-to-end fields that are not credentials, not
    reserved, not forbidden and not set by the group's rules, unchanged, and besides those
    the rules' fields and one "Accept-Encoding: identity".  A downgraded request asks not to
    be stored and is otherwise the client's, at most 64 bytes longer; any other body is the
    client's. *)
Theorem attempt_specs_clean input request spec : in_Request input = Some request -> newExecutionAttemptSpec input = Ok spec ->
  validateAttemptSpec spec = None /\
  (forall f, In f spec.(as_Header) ->
     isHopByHopHeader f.1 = false /\ isDebugHeader f.1 = false /\
     (f = identityField \/ IsForbiddenRequestRuleName f.1 = false /\ (ownField input request f \/ ruleField input f))) /\
  (in_ResponsesStoreDowngraded input = false -> spec.(as_Body) = request.(pr_Body)) /\
  (in_ResponsesStoreDowngraded input = true ->
     exists before after, decodeResponsesStoreObject request.(pr_Body) = Some before /\
       decodeResponsesStoreObject spec.(as_Body) = Some after /\ after !! "store"%string = Some notStored /\
       (forall key, key <> "store"%string -> after !! key = compact <$> before !! key) /\
       len spec.(as_Body) <= len request.(pr_Body) + maxResponsesStoreRewriteGrowthBytes).
Proof.
  intros Hr. unfold newExecutionAttemptSpec. rewrite Hr. cbn zeta. unfold NewAttemptSpec. cbn. unfold const.
  destruct (in_ResponsesStoreDowngraded input) eqn:Ed.
  - destruct (forceStatelessResponsesRequest (pr_Body request)) as [body|] eqn:Ef; [|discriminate].
    destruct (validateAttemptSpec _) eqn:Ev; [discriminate|]. intros [= <-]. split; [exact Ev|]. split; [|split; [discriminate|]].
    + intros f Hf. apply upstream_header_in.
      exact (proj1 (proj1 (deleteAll_in representationMetadataHeaderNames (upstreamRequestHeaders input request) f) Hf)).
    + intros _. cbn. unfold const. exact (forced_stateless _ _ Ef).
  - destruct (validateAttemptSpec _) eqn:Ev; [discriminate|]. intros [= <-]. split; [exact Ev|]. split; [|split; [reflexivity|discriminate]].
    intros f Hf. now apply upstream_header_in.
Qed.

End Requests.

(** ** Samples *)

#[local] Instance requestFold : UnicodeFold := fun _ _ => false.
#[local] Instance requestParsers : WireParsers := {| jsonValid := fun _ => true; plainRequestPath := fun _ => true |}.

(** A codec of the objects that hold nothing but the flag. *)
Definition flagText (v : wire) : wire := "S"%char :: v.
#[local] Instance flagObjects : JSONObjects :=
  {| decodeObject := fun l => match l with c :: v => if Ascii.eqb c "S" then Some {["store"%string := v]} else None | [] => None end;
     encodeObject := fun o =>
       match o !! "store"%string with
       | Some v => if bool_decide (o = {["store"%string := v]}) && utf8_valid (flagText v) then Some (flagText v ++ [LF]) else None
       | None => None
       end |}.

Lemma flag_decodes o e : encodeObject o = Some e ->
  exists b, e = b ++ [LF] /\ utf8_valid b = true /\ decodeObject b = Some (id <$> o).
Proof.
  unfold encodeObject, flagObjects. destruct (o !! "store"%string) as [v|]; [|intros Hx; discriminate Hx].
  destruct (bool_decide_reflect (o = {["store"%string := v]})) as [E|]; [|intros Hx; discriminate Hx].
  destruct (utf8_valid (flagText v)) eqn:Eu; [|intros Hx; discriminate Hx]. cbn [andb]. intros [= <-]. exists (flagText v).
  split; [reflexivity|]. split; [exact Eu|]. rewrite map_fmap_id, E. reflexivity.
Qed.

Definition storedRequest : ParsedRequest :=
  mkRequest "POST" "/v1/responses" "" [("Authorization", ["Bearer client"]); ("X-Trace", ["7"])]%string (bytes "Strue").
Definition storedInput : ForwardInput :=
  mkInput true (mkRules [("x-key", "${API_KEY}")]%string []) (mkTimeouts 0 0 0) "sk-1" [] (Some storedRequest) [] "m" "m" "req" "att" 1
    OpenAIResponses OperationResponsesCreate RouteRequirementAny ResponsesStorePreferenceNone true "openai" RouteNative []
    (mkCredentialSnapshot 1 1 1 (bytes "sk-1")) false "" false.

Lemma attempt_specs_clean_witness : exists spec, newExecutionAttemptSpec storedInput = Ok spec /\
  spec.(as_Header) = [("X-Trace", ["7"]); ("X-Key", ["sk-1"]); ("Accept-Encoding", ["identity"])]%string /\
  exists after, decodeResponsesStoreObject spec.(as_Body) = Some after /\ after !! "store"%string = Some notStored.
Proof.
  eexists. assert (Hs : newExecutionAttemptSpec storedInput = Ok ltac:(let x := eval vm_compute in (newExecutionAttemptSpec storedInput) in
    match x with Ok ?s => exact s end)) by (vm_compute; reflexivity).
  split; [exact Hs|]. split; [reflexivity|].
  destruct (attempt_specs_clean id eq_refl flag_decodes storedInput storedRequest _ eq_refl Hs) as (_ & _ & _ & Hd).
  destruct (Hd eq_refl) as (before & after & _ & Ha & Hst & _). exists after. split; [exact Ha|exact Hst].
Defined.

End ForwardProps.
