(* ===== verification/Stream.v ===== *)
(** * Forwarding a stream

    [ForwardStream] of [internal/gateway/execution_forward.go]: the sink that receives an
    executor's events, the observer behind it ([stream_observation.go]), the capture of
    usage ([usage_capture.go]), the buffer that holds a response back while it is still
    empty ([empty_response.go]), the writes to the client ([stream.go]) and the result the
    attempt loop judges.

    The sink, the timer of the empty-response window and the conclusion are serialised by a
    mutex, so each is one function on the state.  What the executor emits, when the timer
    fires and what every write to the client answers are arguments; so are the dialect's
    classifiers, the usage extractor, the recording of response owners and the restoration
    of redacted text, each with a state of its own. *)

From Stdlib Require Import ZArith Lia Bool String Ascii List.
From stdpp Require Import base gmap sets list strings.
From coqutil Require Import Datatypes.RecordSettersUsingExistingGetters.
From S2P Require Import Prelude Usage GoStrings Execution Health Boundary Contracts Headers Sse Forward.

Local Open Scope Z_scope.

Module Stream.
Import Usage Execution Health Boundary Contracts Headers Sse Forward.

(** ** Events *)

Inductive StreamEventDisposition := StreamEventContinue | StreamEventCompleted | StreamEventIncomplete | StreamEventFailed.

#[export] Instance StreamEventDisposition_eq_dec : EqDecision StreamEventDisposition.
Proof. solve_decision. Defined.

Definition IsTerminal (d : StreamEventDisposition) : bool := match d with StreamEventContinue => false | _ => true end.
Definition IsProviderError (d : StreamEventDisposition) : bool := match d with StreamEventFailed => true | _ => false end.

(** The classifiers of a dialect; each may be missing.  [None] as a classification is an
    error, a panic or an unknown disposition; as content it is a panic. *)
Record Dialect := mkDialect {
  ClassifyStreamEvent : option (Sse.StreamEvent -> option StreamEventDisposition);
  RequiresTerminalEvent : bool;
  ClassifyStreamContent : option (Sse.StreamEvent -> option (bool * bool));
}.

Definition safeClassifyStreamContent (classify : Sse.StreamEvent -> option (bool * bool)) (event : Sse.StreamEvent) : bool * bool :=
  default (true, false) (classify event).

(** ** Usage capture *)

Inductive ObserveOutcome := Observed | ObserveFailed | ObservePanicked.

(** A dialect's usage extractor: [None] when there is none or its constructor panics;
    [None] from [uo_finalize] is a panic. *)
Record UsageOps (U : Type) := mkUsageOps {
  uo_new : option U;
  uo_observe : U -> Sse.StreamEvent -> U * ObserveOutcome;
  uo_finalize : U -> option (Result * bool);
}.
Arguments mkUsageOps {U}. Arguments uo_new {U}. Arguments uo_observe {U}. Arguments uo_finalize {U}.

Record streamUsageCapture (U : Type) := mkCapture {
  extractor : option U;
  captureActive : bool;
  captureFinalized : bool;
  captureResult : Result;
}.
Arguments mkCapture {U}. Arguments extractor {U}. Arguments captureActive {U}. Arguments captureFinalized {U}.
Arguments captureResult {U}.

#[export] Instance Tokens_eq_dec : EqDecision Tokens.
Proof. solve_decision. Defined.

Definition missingUsage (invalidPayload : bool) : Result :=
  mkResult zeroTokens StateMissing (if invalidPayload then Usage.Add noDiagnostics DiagnosticInvalidPayload else noDiagnostics).

Definition validCapturedUsage (r : Result) : bool :=
  let t := r.(ResTokens) in
  if (t.(UncachedInput) <? 0) || (t.(CacheRead) <? 0) || (t.(CacheWrite5M) <? 0) || (t.(CacheWrite1H) <? 0) ||
     (t.(CacheWriteUnknown) <? 0) || (t.(Output) <? 0) then false
  else
    match CheckedTotal t with
    | None => false
    | Some _ =>
      match r.(ResState) with
      | StateComplete | StatePartial => true
      | StateMissing => bool_decide (t = zeroTokens)
      | _ => false
      end
    end.

Section Capture.
Context {U : Type} (ops : UsageOps U).

Definition newStreamForRequest (applicable : bool) : streamUsageCapture U :=
  if negb applicable then mkCapture None false false (noUsage StateNotApplicable)
  else match ops.(uo_new) with
       | None => mkCapture None false false (missingUsage false)
       | Some u => mkCapture (Some u) true false (missingUsage false)
       end.

Definition captureEvent (c : streamUsageCapture U) (event : Sse.StreamEvent) : streamUsageCapture U :=
  if negb c.(captureActive) || c.(captureFinalized) then c
  else
    match c.(extractor) with
    | None => c
    | Some u =>
      match ops.(uo_observe) u event with
      | (u, ObservePanicked) => mkCapture (Some u) false c.(captureFinalized) c.(captureResult)
      | (u, _) => mkCapture (Some u) c.(captureActive) c.(captureFinalized) c.(captureResult)
      end
    end.

Definition captureFinalize (c : streamUsageCapture U) : streamUsageCapture U * Result :=
  if c.(captureFinalized) then (c, c.(captureResult))
  else
    let close r := (mkCapture c.(extractor) c.(captureActive) true r, r) in
    match c.(captureActive), c.(extractor) with
    | true, Some u =>
      match ops.(uo_finalize) u with
      | Some (r, true) => if validCapturedUsage r then close r else close (missingUsage false)
      | _ => close (missingUsage false)
      end
    | _, _ => close c.(captureResult)
    end.

End Capture.

(** ** The event observer *)

Record streamEventObserver := mkObserver {
  terminalRequired : bool;
  sawTerminal : bool;
  terminalForwarded : bool;
  terminalDisposition : StreamEventDisposition;
  eventCount : Z;
  contentAttached : bool;
  sawContent : bool;
  sawExplainedStop : bool;
  firstProviderError : bool;
  sawErrorEvent : bool;
  firstSummary : string;
  firstErrorPayload : wire;
}.

Definition newStreamEventObserver (selected : Dialect) : streamEventObserver :=
  mkObserver (present selected.(ClassifyStreamEvent) && selected.(RequiresTerminalEvent)) false false StreamEventContinue 0
    false false false false false "" [].

Definition observeContent (selected : Dialect) (o : streamEventObserver) : streamEventObserver * bool :=
  let ok := present selected.(ClassifyStreamContent) in (if ok then o <| contentAttached := true |> else o, ok).

(** Whether the event is a provider error. *)
Definition classify (selected : Dialect) (o : streamEventObserver) (event : Sse.StreamEvent) (genericProviderError : bool)
    : streamEventObserver * result GoError bool :=
  if o.(sawTerminal) then (o, Ok false)
  else
    match match selected.(ClassifyStreamEvent) with
          | None => Some StreamEventContinue
          | Some f => f event
          end with
    | None => (o, Err (wrapping ErrUpstreamProtocol))
    | Some disposition =>
      let o := if IsTerminal disposition then o <| sawTerminal := true |> <| terminalDisposition := disposition |> else o in
      let o :=
        match o.(contentAttached), selected.(ClassifyStreamContent) with
        | true, Some f =>
          let '(produced, explainedStop) := safeClassifyStreamContent f event in
          o <| sawContent := o.(sawContent) || produced |> <| sawExplainedStop := o.(sawExplainedStop) || explainedStop |>
        | _, _ => o
        end in
      let providerError := genericProviderError || IsProviderError disposition in
      let o := o <| eventCount := o.(eventCount) + 1 |> in
      (if o.(eventCount) =? 1 then o <| firstProviderError := providerError |> else o, Ok providerError)
    end.

Definition endedWithoutContent (o : streamEventObserver) : bool :=
  o.(contentAttached) && o.(sawTerminal) && negb o.(sawContent) && negb o.(sawErrorEvent) && negb o.(sawExplainedStop) &&
  bool_decide (o.(terminalDisposition) = StreamEventCompleted).

Definition observeError (o : streamEventObserver) (payload : wire) (summary : string) : streamEventObserver :=
  let o := o <| sawErrorEvent := true |> in
  if emptyText o.(firstSummary) then o <| firstSummary := summary |> <| firstErrorPayload := payload |> else o.

Definition markTerminalForwarded (o : streamEventObserver) : streamEventObserver :=
  if o.(sawTerminal) then o <| terminalForwarded := true |> else o.

Definition endObservation (o : streamEventObserver) : StreamObservation :=
  if o.(sawErrorEvent) then mkStream StreamEndSSEError o.(firstSummary)
  else if o.(sawTerminal) && bool_decide (o.(terminalDisposition) = StreamEventIncomplete)
       then streamTerminalObservation StreamEndProviderIncomplete
  else mkStream StreamEndCleanEOF "".

Definition protocolFailure : GoError := mkError [ErrUpstreamProtocol] (Some streamFailureProtocol).

Definition validateEOF (o : streamEventObserver) : option GoError :=
  if negb o.(terminalRequired) || o.(sawTerminal) then None else Some protocolFailure.

Definition observeStreamTermination (ctx : RequestContext) (err : option GoError) (o : streamEventObserver) : StreamObservation :=
  let observation := endObservation o in
  if o.(terminalForwarded) && Is err ErrUpstreamProtocol then prioritizeStreamObservation Running err observation
  else if o.(terminalForwarded) && (Is err Canceled || contextEnded ctx) then observation
  else prioritizeStreamObservation ctx err observation.

(** [execution.DispatchState] and kinds of the terminal result, once committed. *)
Definition executionStreamObservation (ctx : RequestContext) (terminal : StreamResult) (downstreamErr : option GoError)
    (o : streamEventObserver) : StreamObservation :=
  match downstreamErr, terminal.(sr_Error) with
  | Some _, _ => observeStreamTermination ctx downstreamErr o
  | None, None => endObservation o
  | None, Some e =>
    match e.(Kind) with
    | ErrorKindCanceled => observeStreamTermination ctx (Some (wrapping Canceled)) o
    | ErrorKindTimeout => streamTerminalObservation StreamEndIdleTimeout
    | ErrorKindProvider | ErrorKindHTTP =>
      let observation := endObservation o in
      if bool_decide (observation.(EndReason) = StreamEndSSEError) then observation else mkStream StreamEndSSEError e.(Summary)
    | ErrorKindInvalidRequest | ErrorKindInternal => streamTerminalObservation StreamEndUpstreamProtocolError
    | _ => streamTerminalObservation StreamEndUpstreamTerminated
    end
  end.

(** ** Holding an empty response back *)

Definition emptyResponsePrereadEvents : Z := 8.
Definition emptyResponsePrereadBytes : Z := 262144.
Definition emptyResponsePrereadWindow : Z := 5000000000.

Record emptyResponsePreread := mkPreread {
  pr_enabled : bool;
  pr_window : Z;
  pr_started : Z;
  pr_pending : wire;
  pr_pendingTerminal : bool;
}.

Definition newEmptyResponsePreread (enabled : bool) (window : Z) : emptyResponsePreread :=
  mkPreread enabled (if window <=? 0 then emptyResponsePrereadWindow else window) 0 [] false.

Definition holding (p : emptyResponsePreread) : bool := negb (isEmpty p.(pr_pending)).

Definition hold (p : emptyResponsePreread) (now : Z) (data : wire) (events : Z) (terminal ended : bool)
    : emptyResponsePreread * bool :=
  if negb p.(pr_enabled) then (p, false)
  else
    let p := if p.(pr_started) =? 0 then p <| pr_started := now |> else p in
    if negb ended && (events >=? emptyResponsePrereadEvents) || (len p.(pr_pending) + len data >=? emptyResponsePrereadBytes) ||
       (now - p.(pr_started) >=? p.(pr_window)) then (p, false)
    else (p <| pr_pending := p.(pr_pending) ++ data |> <| pr_pendingTerminal := p.(pr_pendingTerminal) || terminal |>, true).

Definition flush (p : emptyResponsePreread) : emptyResponsePreread * wire * bool :=
  if negb (holding p) then (p, [], false)
  else (p <| pr_pending := [] |> <| pr_pendingTerminal := false |>, p.(pr_pending), p.(pr_pendingTerminal)).

(** ** Writing to the client *)

(** What a call of the write controller answers: it works, or it fails after some bytes
    (a short write included). *)
Inductive Answer := Works | Fails (accepted : nat) (cause : list Sentinel).

(** What has reached the client: the status and header, the bytes.  [staged] is the header
    map of the writer, [answers] what each call answers and [calls] how many were made. *)
Record Downstream := mkDownstream {
  staged : Header;
  headerSent : option (Z * Header);
  delivered : wire;
  calls : nat;
  answers : nat -> Answer;
}.

Definition answer (d : Downstream) : Downstream * Answer := (d <| calls := S d.(calls) |>, d.(answers) d.(calls)).

Definition downstreamWriteFailure (cause : list Sentinel) : GoError := mkError cause (Some streamFailureDownstreamWrite).

(** The first byte of a response whose header was not written sends the header. *)
Definition sendHeader (d : Downstream) (status : Z) : Downstream :=
  match d.(headerSent) with None => d <| headerSent := Some (status, d.(staged)) |> | Some _ => d end.

Definition writeHeader (d : Downstream) (status : Z) : Downstream * option GoError :=
  match answer d with
  | (d, Works) => (sendHeader d status, None)
  | (d, Fails _ cause) => (d, Some (downstreamWriteFailure cause))
  end.

Definition write (d : Downstream) (body : wire) : Downstream * option GoError :=
  match answer d with
  | (d, Works) => ((sendHeader d 200) <| delivered := d.(delivered) ++ body |>, None)
  | (d, Fails accepted cause) =>
    (if isEmpty (take accepted body) then d else (sendHeader d 200) <| delivered := d.(delivered) ++ take accepted body |>,
     Some (downstreamWriteFailure cause))
  end.

Definition flushDownstream (d : Downstream) : Downstream * option GoError :=
  match answer d with
  | (d, Works) => (d, None)
  | (d, Fails _ cause) => (d, Some (downstreamWriteFailure cause))
  end.

(** A write followed by a flush. *)
Definition writeThrough (d : Downstream) (body : wire) : Downstream * option GoError :=
  match write d body with
  | (d, Some e) => (d, Some e)
  | (d, None) => flushDownstream d
  end.

Section Commit.
Context `{UnicodeFold}.

Definition addFields (headers fields : Header) : Header :=
  foldl (fun headers f => foldl (fun headers value => Headers.Add headers f.1 value) headers f.2) headers fields.

Definition commitStream (d : Downstream) (status : Z) (headers : Header) (prefix : wire) : Downstream * option GoError :=
  let d := d <| staged := addFields d.(staged) (normalizeStreamResponseHeaders headers) |> in
  match writeHeader d status with
  | (d, Some e) => (d, Some e)
  | (d, None) => if isEmpty prefix then flushDownstream d else writeThrough d prefix
  end.

End Commit.

(** ** The forwarder's state *)

Record Observation (U W : Type) := mkObservation {
  events : streamEventObserver;
  capture : streamUsageCapture U;
  world : W;
}.
Arguments mkObservation {U W}. Arguments events {U W}. Arguments capture {U W}. Arguments world {U W}.

Record ForwardState (U W R : Type) := mkState {
  ready : option Contracts.StreamEvent;
  committed : bool;
  downstreamErr : option GoError;
  errorBody : wire;
  streamUsage : option UsageEvidence;
  preread : emptyResponsePreread;
  windowTimer : bool;
  streamBuffer : sseEventObservationBuffer;
  observation : Observation U W;
  responsesStoreBuffer : option sseEventObservationBuffer;
  redactionRestore : option R;
  client : Downstream;
  streamReady : nat;
}.
Arguments mkState {U W R}. Arguments ready {U W R}. Arguments committed {U W R}. Arguments downstreamErr {U W R}.
Arguments errorBody {U W R}. Arguments streamUsage {U W R}. Arguments preread {U W R}. Arguments windowTimer {U W R}.
Arguments streamBuffer {U W R}. Arguments observation {U W R}. Arguments responsesStoreBuffer {U W R}.
Arguments redactionRestore {U W R}. Arguments client {U W R}. Arguments streamReady {U W R}.

(** The restoration of redacted text: pieces of a response, whether the piece released the
    terminal event, and what is left at the end; [None] is a failure. *)
Record RestoreOps (R : Type) := mkRestoreOps {
  ro_push : R -> wire -> R * option wire;
  ro_terminal : R -> bool;
  ro_finish : R -> R * option wire;
}.
Arguments mkRestoreOps {R}. Arguments ro_push {R}. Arguments ro_terminal {R}. Arguments ro_finish {R}.

Section Forwarding.
Context `{EnvelopeDecoder} `{JSONObjects} `{UnicodeFold} `{MediaTypes} `{ErrorDecoder} {U W R : Type}.
Variables (input : ForwardInput) (selected : Dialect) (usageOps : UsageOps U) (restoreOps : RestoreOps R).
(** Recording the owner of a response; [None] when the attempt does not record owners. *)
Variable onResponse : option (W -> wire -> W * option GoError).
(** [imagesCredentialLiteralsRemain], [summarizeErrorBody], [sanitizeErrorSummary] and
    [prepareBufferedResult] with the attempt's secrets. *)
Variables (credentialRemains : wire -> bool) (summarize : wire -> string) (sanitize : string -> string).
Variable prepareBufferedResult : ForwardResult -> ForwardResult.

Definition FState : Type := ForwardState U W R.

(** The callback of the event buffer: whether the event is the first terminal one. *)
Definition observeStreamEvent (o : Observation U W) (event : Sse.StreamEvent) (genericProviderError : bool)
    : Observation U W * result GoError bool :=
  if bool_decide (input.(in_ClientProtocol) = OpenAIImages) && credentialRemains event.(Payload)
  then (o, Err (wrapping ErrUpstreamProtocol))
  else
    let wasTerminal := o.(events).(sawTerminal) in
    match classify selected o.(events) event genericProviderError with
    | (e, Err err) => (mkObservation e o.(capture) o.(world), Err err)
    | (e, Ok providerError) =>
      let o := mkObservation e o.(capture) o.(world) in
      let '(o, failure) :=
        match onResponse with
        | Some record =>
          if negb wasTerminal && negb providerError then
            match decodeResponsesStoreObject event.(Payload) with
            | None => (o, Some (mkError [] None))
            | Some object =>
              match object !! "response"%string with
              | None => (o, None)
              | Some response =>
                let '(w, err) := record o.(world) response in (mkObservation o.(events) o.(capture) w, err)
              end
            end
          else (o, None)
        | None => (o, None)
        end in
      match failure with
      | Some err => (o, Err err)
      | None =>
        let o :=
          if wasTerminal then o
          else
            let c := if same_text (trim_space event.(Payload)) "[DONE]" then o.(capture)
                     else captureEvent usageOps o.(capture) event in
            mkObservation (if providerError then observeError o.(events) event.(Payload) (summarize event.(Payload)) else o.(events))
              c o.(world) in
        (o, Ok (negb wasTerminal && o.(events).(sawTerminal)))
      end
    end.

Definition initialState (window : Z) (w : W) (restore : option R) (d : Downstream) : FState :=
  let '(events, supported) :=
    if input.(in_EmptyResponseRetry) then observeContent selected (newStreamEventObserver selected)
    else (newStreamEventObserver selected, false) in
  mkState None false None [] None (newEmptyResponsePreread supported window) false
    (newSSEEventObservationBuffer (SSEEventLimit input.(in_ClientProtocol)))
    (mkObservation events (newStreamForRequest usageOps input.(in_ObserveUsage)) w)
    (if input.(in_ResponsesStoreDowngraded) then Some newStatelessResponsesSSEBuffer else None)
    restore d 0.

Definition inOK (status : Z) : bool := (status >=? 200) && (status <? 300).

Definition markForwarded (st : FState) : FState :=
  let o := st.(observation) in
  st <| observation := mkObservation (markTerminalForwarded o.(events)) o.(capture) o.(world) |>.

(** Commit the header and the first bytes; on success the client is told and a terminal
    event counts as forwarded. *)
Definition commit (st : FState) (r : Contracts.StreamEvent) (payload : wire) (terminal : bool) : FState * option GoError :=
  let st := st <| committed := true |> in
  match commitStream st.(client) r.(se_StatusCode) (default [] r.(se_Header)) payload with
  | (d, Some e) => (st <| client := d |>, Some e)
  | (d, None) =>
    let st := st <| client := d |> <| streamReady := S st.(streamReady) |> in
    (if terminal then markForwarded st else st, None)
  end.

(** [commitHeld]: what the timer and the conclusion do with held bytes. *)
Definition commitHeld (st : FState) : FState :=
  match st.(ready) with
  | Some r =>
    if st.(committed) || negb (holding st.(preread)) then st
    else
      let '(p, held, heldTerminal) := flush st.(preread) in
      match commit (st <| preread := p |>) r held heldTerminal with
      | (st, Some e) => match st.(downstreamErr) with None => st <| downstreamErr := Some e |> | Some _ => st end
      | (st, None) => st
      end
  | None => st
  end.

(** What becomes of a chunk before it is delivered. *)
Inductive Prepared := Withheld | Forwarded (data : wire) (terminal : bool) | Failed (err : GoError).

Definition redactionFailure : GoError := mkError [errRedactionStream] (Some streamFailureRedaction).

Definition restoreData (st : FState) (data : wire) (terminal : bool) : FState * Prepared :=
  match st.(redactionRestore) with
  | None => (st, Forwarded data terminal)
  | Some r =>
    match restoreOps.(ro_push) r data with
    | (r, None) => (st <| redactionRestore := Some r |>, Failed redactionFailure)
    | (r, Some data) =>
      (st <| redactionRestore := Some r |>,
       if isEmpty data then Withheld else Forwarded data (restoreOps.(ro_terminal) r))
    end
  end.

Definition observeData (st : FState) (observed : wire) : FState * Prepared :=
  match Sse.push observeStreamEvent st.(streamBuffer) st.(observation) observed with
  | (b, o, Err (Sse.ObserveFailed e)) =>
    (st <| streamBuffer := b |> <| observation := o |>,
     Failed (if Is (Some e) errResponseOwnershipUnavailable then e else protocolFailure))
  | (b, o, Err _) => (st <| streamBuffer := b |> <| observation := o |>, Failed protocolFailure)
  | (b, o, Ok (complete, terminal)) =>
    let st := st <| streamBuffer := b |> <| observation := o |> in
    if bool_decide (input.(in_ClientProtocol) = OpenAIImages) || present st.(responsesStoreBuffer) || present onResponse
    then if isEmpty complete then (st, Withheld) else restoreData st complete terminal
    else restoreData st observed terminal
  end.

Definition prepareData (st : FState) (data : wire) : FState * Prepared :=
  match st.(responsesStoreBuffer) with
  | None => observeData st data
  | Some b =>
    match rewritePush normalizeStatelessResponsesSSEPayload b data with
    | (b, Err _) => (st <| responsesStoreBuffer := Some b |>, Failed protocolFailure)
    | (b, Ok rewritten) =>
      let st := st <| responsesStoreBuffer := Some b |> in
      if isEmpty rewritten then (st, Withheld) else observeData st rewritten
    end
  end.

Definition appendError (st : FState) (data : wire) : FState := st <| errorBody := appendExecutionErrorBody st.(errorBody) data |>.

(** Try to hold bytes back while the stream has produced no content. *)
Definition tryHold (st : FState) (now : Z) (data : wire) (terminal : bool) : FState * bool :=
  if st.(observation).(events).(sawContent) then (st, false)
  else
    let '(p, held) := hold st.(preread) now data st.(observation).(events).(eventCount) terminal st.(observation).(events).(sawTerminal) in
    (st <| preread := p |>, held).

Definition deliver (st : FState) (r : Contracts.StreamEvent) (now : Z) (data : wire) (terminal : bool) : FState * option GoError :=
  if st.(committed) then
    match writeThrough st.(client) data with
    | (d, Some e) => (st <| client := d |>, Some e)
    | (d, None) => let st := st <| client := d |> in (if terminal then markForwarded st else st, None)
    end
  else if st.(observation).(events).(firstProviderError) then (appendError st data, None)
  else
    let '(st, held) := tryHold st now data terminal in
    if held then (st <| windowTimer := true |>, None)
    else
      let '(p, pending, heldTerminal) := flush st.(preread) in
      commit (st <| preread := p |>) r (pending ++ data) (terminal || heldTerminal).

(** The sink: a failure is remembered and stops the executor. *)
Definition fail (st : FState) (e : GoError) : FState * option GoError := (st <| downstreamErr := Some e |>, Some e).

Definition sinkData (st : FState) (r : Contracts.StreamEvent) (now : Z) (data : wire) : FState * option GoError :=
  if negb (inOK r.(se_StatusCode)) then (appendError st data, None)
  else
    match prepareData st data with
    | (st, Withheld) => (st, None)
    | (st, Failed e) => fail st e
    | (st, Forwarded data terminal) =>
      match deliver st r now data terminal with
      | (st, Some e) => fail st e
      | (st, None) => (st, None)
      end
    end.

Definition sinkReady (st : FState) (event : Contracts.StreamEvent) : FState * option GoError :=
  let header := default [] event.(se_Header) in
  if inOK event.(se_StatusCode) then
    if streamContentEncodingInvalid header then fail st (wrapping ErrUpstreamProtocol)
    else
      (st <| ready := Some (event <| se_Header :=
                              Some (normalizeStreamResponseHeaders (sanitizeForwardResponseHeaders header input [])) |>) |>, None)
  else (st <| ready := Some (event <| se_Header := Some (sanitizeForwardResponseHeaders header input []) |>) |>, None).

Definition sink (st : FState) (now : Z) (event : Contracts.StreamEvent) : FState * option GoError :=
  match validateStreamEvent event with
  | Some _ => fail st (wrapping ErrUpstreamProtocol)
  | None =>
    match event.(se_Kind) with
    | StreamEventReady => sinkReady st event
    | StreamEventUsage =>
      (match event.(se_Usage) with Some u => st <| streamUsage := Some u |> | None => st end, None)
    | StreamEventData =>
      match st.(ready) with
      | None => fail st (wrapping ErrUpstreamProtocol)
      | Some r => sinkData st r now event.(se_Data)
      end
    | StreamEventOther _ => fail st (wrapping ErrUpstreamProtocol)
    end
  end.

(** What happens while the executor runs: it emits an event, or the timer fires.  The
    executor emits nothing after the sink has refused an event. *)
Inductive Moment := Emits (now : Z) (event : Contracts.StreamEvent) | WindowExpires.

Definition step (run : FState * bool) (m : Moment) : FState * bool :=
  let '(st, stopped) := run in
  match m with
  | Emits now event =>
    if stopped : bool then (st, stopped)
    else match sink st now event with (st, Some _) => (st, true) | (st, None) => (st, false) end
  | WindowExpires => (if st.(windowTimer) then commitHeld st else st, stopped)
  end.

Definition runStream (st : FState) (moments : list Moment) : FState := fst (foldl step (st, false) moments).

(** ** The conclusion *)

(** Bytes the restoration releases at the end of the stream. *)
Definition deliverTail (st : FState) (r : Contracts.StreamEvent) (now : Z) (tail : wire) (terminal : bool) : FState :=
  if negb st.(committed) && st.(observation).(events).(firstProviderError) then appendError st tail
  else
    let '(st, held) := if st.(committed) then (st, false) else tryHold st now tail terminal in
    if held then st
    else if negb st.(committed) then
      let '(p, pending, _) := flush st.(preread) in
      match commit (st <| preread := p |>) r (pending ++ tail) false with
      | (st, e) => st <| downstreamErr := e |>
      end
    else
      match writeThrough st.(client) tail with
      | (d, e) => st <| client := d |> <| downstreamErr := e |>
      end.

(** Only pushed data can be released, so a tail comes after [ready]. *)
Definition finishRestore (st : FState) (now : Z) : FState :=
  match st.(redactionRestore) with
  | None => st
  | Some r =>
    let '(r, tail) := restoreOps.(ro_finish) r in
    let st := st <| redactionRestore := Some r |> in
    let st :=
      match tail, st.(ready) with
      | None, _ => st <| downstreamErr := Some redactionFailure |>
      | Some tail, Some event => if isEmpty tail then st else deliverTail st event now tail (restoreOps.(ro_terminal) r)
      | Some _, None => st
      end in
    if st.(committed) && negb (present st.(downstreamErr)) && restoreOps.(ro_terminal) r then markForwarded st else st
  end.

(** The checks of a stream that ended without an error. *)
Definition finishBuffers (st : FState) : FState :=
  let '(st, failure) :=
    match st.(responsesStoreBuffer) with
    | None => (st, None)
    | Some b =>
      match rewriteFinish (E := unit) b with
      | (b, Err _) => (st <| responsesStoreBuffer := Some b |>, Some protocolFailure)
      | (b, Ok _) => (st <| responsesStoreBuffer := Some b |>, None)
      end
    end in
  match failure with
  | Some e => st <| downstreamErr := Some e |>
  | None =>
    match Sse.finish (E := GoError) st.(streamBuffer) with
    | (b, Err _) => st <| streamBuffer := b |> <| downstreamErr := Some protocolFailure |>
    | (b, Ok _) => st <| streamBuffer := b |> <| downstreamErr := validateEOF st.(observation).(events) |>
    end
  end.

Definition conclude (st : FState) (now : Z) (terminal : StreamResult) : FState :=
  if present st.(downstreamErr) || present terminal.(sr_Error) then st
  else
    let st := finishBuffers st in
    if present st.(downstreamErr) then st else finishRestore st now.

Definition isEmptyResponse (st : FState) (terminal : StreamResult) : bool :=
  negb st.(committed) && negb (present st.(downstreamErr)) && negb (present terminal.(sr_Error)) &&
  match st.(ready) with Some r => inOK r.(se_StatusCode) | None => false end &&
  st.(preread).(pr_enabled) && endedWithoutContent st.(observation).(events).

Definition emptyEvidence (status : Z) : ErrorEvidence :=
  evidence ErrorKindProvider ErrorOriginUpstream ErrorScopeRequest status EmptyResponseCode
    (fixedErrorSummary EmptyResponseCode) ReplaySafetyNone.

Definition streamUsageResult (result captured : Result) : Result :=
  if input.(in_ObserveUsage) && bool_decide (input.(in_ClientProtocol) = Anthropic) &&
     bool_decide (input.(in_RouteMode) = RouteNative) && negb (bool_decide (captured.(ResState) = StateMissing))
  then captured else preferCapturedStreamUsage result captured.

(** The result before errors that precede a commit are described. *)
Definition describe (ctx : RequestContext) (st : FState) (terminal : StreamResult) (captured : Result) : ForwardResult :=
  let result := upstreamFromExecutionStreamResult ctx input terminal st.(streamUsage) in
  let result := result <| fr_Usage := streamUsageResult result.(fr_Usage) captured |> in
  let c := result.(core) <| Committed := st.(committed) |> in
  let c := if isEmpty st.(errorBody) then c else c <| Body := text st.(errorBody) |> in
  let c :=
    match st.(downstreamErr) with
    | None => c
    | Some e =>
      let c := c <| u_Err := Some e |> in
      if Is (Some e) errRedactionStream
      then c <| ExecutionError := Some (responseRedactionEvidence 0) |>
             <| u_ErrorSummary := (responseRedactionEvidence 0).(Summary) |> <| ProviderErrorBeforeCommit := false |>
      else c
    end in
  let result := if isEmpty st.(errorBody) then result else result <| ClassificationBody := st.(errorBody) |> in
  if st.(committed)
  then result <| core := c <| Boundary.Stream :=
                   executionStreamObservation ctx terminal st.(downstreamErr) st.(observation).(events) |> |>
  else
    match st.(ready) with
    | Some r =>
      result <| core := c <| u_StatusCode := r.(se_StatusCode) |> <| u_Header := default [] r.(se_Header) |>
                          <| u_ResponseStarted := true |> |>
             <| fr_UpstreamRequestID := r.(se_UpstreamRequestID) |>
    | None => result <| core := c |>
    end.

(** An empty response: the held bytes stay available for delivery. *)
Definition withEmptyResponse (result : ForwardResult) (held : wire) (status : Z) : ForwardResult :=
  result <| core := result.(core) <| EmptyResponseBeforeCommit := true |> <| Body := text held |>
                      <| u_ErrorSummary := fixedErrorSummary EmptyResponseCode |>
                      <| ExecutionError := Some (emptyEvidence status) |> |>.

(** A stream that starts with a provider error and was not committed. *)
Definition withFirstError (st : FState) (result : ForwardResult) : ForwardResult :=
  let e := st.(observation).(events) in
  if negb st.(committed) && e.(firstProviderError) then
    let summary := orElse e.(firstSummary) (fixedErrorSummary "upstream_sse_error") in
    let c := result.(core) in
    result <| core := c <| ProviderErrorBeforeCommit := true |> <| u_ErrorSummary := summary |>
                        <| ExecutionError := Some (firstStreamErrorEvidence sanitize e.(firstErrorPayload)
                             c.(ExecutionError) c.(u_StatusCode) result.(fr_UpstreamRequestID) summary) |> |>
  else result.

(** A response that can still be delivered from the buffer. *)
Definition prepareUncommitted (st : FState) (result : ForwardResult) : ForwardResult :=
  if negb st.(committed) && HasResponse result.(core) && negb result.(core).(ProviderErrorBeforeCommit) &&
     negb result.(core).(EmptyResponseBeforeCommit)
  then prepareBufferedResult result else result.

Definition finishStream (ctx : RequestContext) (st : FState) (now : Z) (terminal : StreamResult) : FState * ForwardResult :=
  let st := st <| windowTimer := false |> in
  let terminal :=
    if present (validateStreamResult terminal) then invalidExecutionStreamResult terminal st.(ready) st.(committed) else terminal in
  let st := conclude st now terminal in
  let emptyResponse := isEmptyResponse st terminal in
  let st := if emptyResponse then st else commitHeld st in
  let '(c, captured) := captureFinalize usageOps st.(observation).(capture) in
  let st := st <| observation := mkObservation st.(observation).(events) c st.(observation).(world) |> in
  let result := describe ctx st terminal captured in
  let '(st, result) :=
    if emptyResponse then
      let '(p, held, _) := flush st.(preread) in
      let status := match st.(ready) with Some r => r.(se_StatusCode) | None => 0 end in
      (st <| preread := p |>, withEmptyResponse result held status)
    else (st, result) in
  (st, prepareUncommitted st (withFirstError st result)).

(** [ForwardStream], once the attempt specification is valid. *)
Definition ForwardStream (ctx : RequestContext) (window : Z) (w : W) (restore : option R) (d : Downstream)
    (moments : list Moment) (finished : Z) (terminal : StreamResult) : FState * ForwardResult :=
  finishStream ctx (runStream (initialState window w restore d) moments) finished terminal.

End Forwarding.
End Stream.
