(* ===== verification/StreamProps.v ===== *)
(** * What a streaming client receives

    An attempt that was not committed has sent nothing; the bytes a client receives are the
    bytes that were forwarded, in order and without loss; a response that is held back is
    handed on whole.  One exception is exhibited: bytes that are held back when the stream
    turns out to start with a provider error. *)

From Stdlib Require Import ZArith Lia Bool String Ascii List.
From stdpp Require Import base gmap sets list strings.
From coqutil Require Import Datatypes.RecordSettersUsingExistingGetters.
From S2P Require Import Prelude Usage GoStrings Execution Health Boundary Contracts Headers Sse Forward Stream.

Local Open Scope Z_scope.

Module StreamProps.
Import Usage Execution Health Boundary Contracts Headers Sse Forward Stream.

(** ** The buffer's observer *)

Section Buffer.
Context `{EnvelopeDecoder} {Obs E : Type} (observe : Obs -> Sse.StreamEvent -> bool -> Obs * result E bool) (P : Obs -> Prop).
Hypothesis P_observe : forall o event g, P o -> P (fst (observe o event g)).

Lemma observeEvent_preserves o event : P o -> P (fst (observeEvent observe o event)).
Proof.
  intros Ho. unfold observeEvent. destruct (dataValues _) as [|v vs]; [exact Ho|]. cbn zeta.
  destruct (joinLines (v :: vs)); [exact Ho|]. now apply P_observe.
Qed.

Lemma pushLoop_preserves fuel : forall b o consumed terminal, P o ->
  P (snd (fst (pushLoop observe fuel b o consumed terminal))).
Proof.
  induction fuel as [|fuel IH]; intros b o consumed terminal Ho; [exact Ho|]. cbn [pushLoop].
  destruct (ConsumeOptionalLineFeed _ _ _ _) as [[s n] overflow]. destruct overflow; [exact Ho|].
  destruct (0 <? n)%nat; [now apply IH|].
  destruct (Find _ _) as [s' [eventEnd|]]; [|destruct (_ >? _); exact Ho].
  destruct (_ >? _); [exact Ho|].
  match goal with |- context [observeEvent observe o ?e] =>
    pose proof (observeEvent_preserves o e Ho) as Hx; destruct (observeEvent observe o e) as [o' [t|err]] end; [|exact Hx].
  cbn zeta. destruct (_ && _); now apply IH.
Qed.

Lemma push_preserves b o chunk : P o -> P (snd (fst (Sse.push observe b o chunk))).
Proof.
  intros Ho. unfold Sse.push.
  match goal with |- context [pushLoop observe ?f ?b ?o ?c ?t] =>
    pose proof (pushLoop_preserves f b o c t Ho) as Hx; destruct (pushLoop observe f b o c t) as [[b' o'] [[[n t']|e]|]] end;
  exact Hx.
Qed.

End Buffer.

(** ** Writing *)

Definition broken (d : Downstream) : Prop := exists i n cause, (i < d.(calls))%nat /\ d.(answers) i = Fails n cause.

(** A connection that failed accepts nothing more. *)
Definition steady (d : Downstream) : Prop :=
  forall i j n cause, (i < j)%nat -> d.(answers) i = Fails n cause -> exists cause', d.(answers) j = Fails 0 cause'.

Record wrote (d : Downstream) (body : wire) (d' : Downstream) (e : option GoError) : Prop := {
  w_answers : d'.(answers) = d.(answers);
  w_whole : ~ broken d' -> ~ broken d /\ d'.(delivered) = d.(delivered) ++ body;
  w_error : broken d' -> broken d \/ e <> None;
  w_fails : e <> None -> broken d';
  w_keeps : broken d -> broken d';
  w_part : steady d -> exists part, part `prefix_of` body /\ d'.(delivered) = d.(delivered) ++ part;
  w_stuck : steady d -> broken d -> d'.(delivered) = d.(delivered);
}.

Lemma sendHeader_same d status : (sendHeader d status).(answers) = d.(answers) /\ (sendHeader d status).(calls) = d.(calls) /\
  (sendHeader d status).(delivered) = d.(delivered).
Proof. unfold sendHeader. now destruct (headerSent d). Qed.

(** One more call. *)
Lemma broken_next d d' : d'.(answers) = d.(answers) -> d'.(calls) = S d.(calls) ->
  broken d' <-> broken d \/ exists n cause, d.(answers) d.(calls) = Fails n cause.
Proof.
  intros Ha Hc. unfold broken. rewrite Ha, Hc. split.
  - intros (i & n & c & Hi & He). destruct (Nat.eq_dec i d.(calls)) as [->|Hne]; [right; eauto|].
    left. exists i, n, c. split; [lia|exact He].
  - intros [(i & n & c & Hi & He)|(n & c & He)]; [exists i, n, c; split; [lia|exact He]|].
    exists d.(calls), n, c. split; [lia|exact He].
Qed.

Lemma steady_next d : steady d -> broken d -> exists cause, d.(answers) d.(calls) = Fails 0 cause.
Proof. intros Hs (i & n & c & Hi & He). exact (Hs i d.(calls) n c Hi He). Qed.

Definition called (d : Downstream) : Downstream := d <| calls := S d.(calls) |>.

Lemma called_broken d : broken (called d) <-> broken d \/ exists n cause, d.(answers) d.(calls) = Fails n cause.
Proof. apply broken_next; reflexivity. Qed.

Lemma flush_wrote d : wrote d [] (fst (flushDownstream d)) (snd (flushDownstream d)).
Proof.
  unfold flushDownstream, answer. fold (called d). pose proof (called_broken d) as Hb.
  destruct (answers d (calls d)) as [|n cause] eqn:Ea; cbn [fst snd]; split; try reflexivity.
  all: try (intros _; exists []; split; [apply prefix_nil|now rewrite app_nil_r]).
  - intros Hn. split; [intros Hx; apply Hn; rewrite Hb; now left|now rewrite app_nil_r].
  - rewrite Hb. intros [Hx|(n & c & Hx)]; [now left|discriminate Hx].
  - congruence.
  - rewrite Hb. now left.
  - intros Hn. exfalso. apply Hn. rewrite Hb. right. eauto.
  - intros _. right. discriminate.
  - intros _. rewrite Hb. right. eauto.
  - rewrite Hb. now left.
Qed.

Lemma write_wrote d body : wrote d body (fst (write d body)) (snd (write d body)).
Proof.
  unfold write, answer. fold (called d). pose proof (called_broken d) as Hb.
  assert (Hsent : forall l, broken ((sendHeader (called d) 200) <| delivered := l |>) <-> broken (called d)).
  { intros l. destruct (sendHeader_same (called d) 200) as (Ha & Hc & _). unfold broken. cbn. unfold const. now rewrite Ha, Hc. }
  assert (Hans : forall l, answers ((sendHeader (called d) 200) <| delivered := l |>) = answers d).
  { intros l. exact (proj1 (sendHeader_same (called d) 200)). }
  destruct (answers d (calls d)) as [|n cause] eqn:Ea; cbn [fst snd].
  - split; [apply Hans|..]; rewrite ?Hsent, ?Hb.
    + intros Hn. split; [tauto|reflexivity].
    + intros [Hx|(m & c & Hx)]; [now left|discriminate Hx].
    + congruence.
    + now left.
    + intros _. exists body. split; reflexivity.
    + intros Hs Hx. destruct (steady_next d Hs Hx) as [c Hc]. congruence.
  - assert (Hbr : broken (called d)) by (rewrite Hb; right; eauto). destruct (take n body) as [|x l] eqn:Et; cbn [isEmpty].
    + split; [reflexivity|tauto|right; discriminate|tauto|tauto| |reflexivity].
      intros _. exists []. split; [apply prefix_nil|now rewrite app_nil_r].
    + split; [apply Hans|..]; rewrite ?Hsent.
      * tauto.
      * right. discriminate.
      * tauto.
      * tauto.
      * intros _. exists (x :: l). split; [exists (drop n body); rewrite <- Et; now rewrite take_drop|reflexivity].
      * intros Hs Hx. destruct (steady_next d Hs Hx) as [c Hc]. rewrite Ea in Hc. injection Hc as -> _. cbn in Et. discriminate Et.
Qed.

(** Calls in sequence. *)
Lemma broken_dec d : broken d \/ ~ broken d.
Proof.
  unfold broken. induction (calls d) as [|k IH]; [right; intros (i & n & c & Hi & _); lia|].
  destruct IH as [(i & n & c & Hi & He)|Hn]; [left; exists i, n, c; split; [lia|exact He]|].
  destruct (answers d k) as [|n c] eqn:Ek; [right|left; exists k, n, c; split; [lia|exact Ek]].
  intros (i & n & c & Hi & He). destruct (Nat.eq_dec i k) as [->|]; [congruence|].
  apply Hn. exists i, n, c. split; [lia|exact He].
Qed.

Lemma broken_dec_by d e d' body : wrote d body d' e -> e = None -> broken d' -> broken d.
Proof. intros Hw -> Hb. destruct (w_error _ _ _ _ Hw Hb); [assumption|congruence]. Qed.

Lemma steady_same d d' : d'.(answers) = d.(answers) -> steady d -> steady d'.
Proof. unfold steady. now intros ->. Qed.

Lemma not_broken_or d body d' : wrote d body d' None -> steady d -> delivered d' = delivered d ++ body \/ broken d /\ delivered d' = delivered d.
Proof.
  intros Hw Hs. destruct (broken_dec d) as [Hb|Hn]; [right; split; [exact Hb|exact (w_stuck _ _ _ _ Hw Hs Hb)]|left].
  apply (w_whole _ _ _ _ Hw). intros Hb. exact (Hn (broken_dec_by _ _ _ _ Hw eq_refl Hb)).
Qed.

Lemma wrote_then d a d1 b d2 e : wrote d a d1 None -> wrote d1 b d2 e -> wrote d (a ++ b) d2 e.
Proof.
  intros W1 W2. pose proof (w_answers _ _ _ _ W1) as A1. split.
  - rewrite <- A1. exact (w_answers _ _ _ _ W2).
  - intros Hn. destruct (w_whole _ _ _ _ W2 Hn) as [Hn1 Hd2], (w_whole _ _ _ _ W1 (proj1 (w_whole _ _ _ _ W2 Hn))) as [Hn0 Hd1].
    split; [exact Hn0|]. now rewrite Hd2, Hd1, app_assoc.
  - intros Hb. destruct (w_error _ _ _ _ W2 Hb) as [Hb1|He]; [|now right]. left. exact (broken_dec_by _ _ _ _ W1 eq_refl Hb1).
  - exact (w_fails _ _ _ _ W2).
  - intros Hb. exact (w_keeps _ _ _ _ W2 (w_keeps _ _ _ _ W1 Hb)).
  - intros Hs. pose proof (steady_same d d1 A1 Hs) as Hs1. destruct (w_part _ _ _ _ W2 Hs1) as (p & Hp & Hd).
    destruct (not_broken_or _ _ _ W1 Hs) as [Hd1|[Hb Hd1]].
    + exists (a ++ p). split; [now apply prefix_app|]. now rewrite Hd, Hd1, app_assoc.
    + exists []. split; [apply prefix_nil|]. rewrite (w_stuck _ _ _ _ W2 Hs1 (w_keeps _ _ _ _ W1 Hb)), Hd1.
      now rewrite app_nil_r.
  - intros Hs Hb. rewrite (w_stuck _ _ _ _ W2 (steady_same d d1 A1 Hs) (w_keeps _ _ _ _ W1 Hb)).
    exact (w_stuck _ _ _ _ W1 Hs Hb).
Qed.

Lemma wrote_stop d a d1 b e : wrote d a d1 (Some e) -> wrote d (a ++ b) d1 (Some e).
Proof.
  intros [A W E F K P S]. split; try assumption.
  - intros Hn. exfalso. apply Hn, F. discriminate.
  - intros Hs. destruct (P Hs) as (p & Hp & Hd). exists p. split; [now apply prefix_app_r|exact Hd].
Qed.

Lemma through_wrote d body : wrote d body (fst (writeThrough d body)) (snd (writeThrough d body)).
Proof.
  unfold writeThrough. pose proof (write_wrote d body) as Hw. destruct (write d body) as [d1 [e|]]; cbn [fst snd] in Hw |- *; [exact Hw|].
  rewrite <- (app_nil_r body). eapply wrote_then; [exact Hw|apply flush_wrote].
Qed.

Lemma commit_wrote `{UnicodeFold} d status headers prefix :
  wrote d prefix (fst (commitStream d status headers prefix)) (snd (commitStream d status headers prefix)).
Proof.
  unfold commitStream. set (d0 := d <| staged := _ |>). cbn zeta.
  assert (Hstage : forall body d' e, wrote d0 body d' e -> wrote d body d' e) by (intros body d' e [A W E F K P S]; split; assumption).
  apply Hstage. clear Hstage.
  assert (Hh : wrote d0 [] (fst (writeHeader d0 status)) (snd (writeHeader d0 status))).
  { pose proof (flush_wrote d0) as Hf. unfold writeHeader, flushDownstream in *. destruct (answer d0) as [d1 [|n c]]; [|exact Hf].
    cbn [fst snd] in *. destruct (sendHeader_same d1 status) as (Ea & Ec & Ed). destruct Hf as [A W E F K P S].
    assert (Hb : broken (sendHeader d1 status) <-> broken d1) by (unfold broken; now rewrite Ea, Ec).
    split; rewrite ?Ea, ?Ed, ?Hb; assumption. }
  destruct (writeHeader d0 status) as [d1 [e|]]; cbn [fst snd] in Hh |- *; [exact (wrote_stop d0 [] d1 prefix e Hh)|].
  change prefix with ([] ++ prefix) at 1. eapply wrote_then; [exact Hh|].
  destruct prefix as [|c prefix]; cbn [isEmpty]; [apply flush_wrote|apply through_wrote].
Qed.

(** ** The forwarder *)

Section Forwarding.
Context `{EnvelopeDecoder} `{JSONObjects} `{UnicodeFold} `{MediaTypes} `{ErrorDecoder} {U W R : Type}.
Variables (input : ForwardInput) (selected : Dialect) (usageOps : UsageOps U) (restoreOps : RestoreOps R).
Variable onResponse : option (W -> wire -> W * option GoError).
Variables (credentialRemains : wire -> bool) (summarize : wire -> string) (sanitize : string -> string).
Variable prepareBufferedResult : ForwardResult -> ForwardResult.

Local Abbreviation FState := (ForwardState U W R).
Local Abbreviation observe := (observeStreamEvent input selected usageOps onResponse credentialRemains summarize).
Local Abbreviation prepare := (prepareData input selected usageOps restoreOps onResponse credentialRemains summarize).
Local Abbreviation sinkOf := (sink input selected usageOps restoreOps onResponse credentialRemains summarize).
Local Abbreviation stepOf := (step input selected usageOps restoreOps onResponse credentialRemains summarize).

(** A provider error that opens the stream is remembered, and has been reported. *)
Record eventsOk (e : streamEventObserver) : Prop := {
  ev_count : 0 <= e.(eventCount);
  ev_first : e.(firstProviderError) = true -> 1 <= e.(eventCount) /\ e.(sawErrorEvent) = true;
}.

Definition evolves (e e' : streamEventObserver) : Prop :=
  eventsOk e -> eventsOk e' /\ (e.(firstProviderError) = true -> e'.(firstProviderError) = true).

Lemma evolves_refl e : evolves e e.
Proof. intros Ho. auto. Qed.

Lemma evolves_trans e1 e2 e3 : evolves e1 e2 -> evolves e2 e3 -> evolves e1 e3.
Proof. intros H12 H23 H1'. destruct (H12 H1') as [Ho2 Hm]. destruct (H23 Ho2) as [Ho3 Hm']. auto. Qed.

Lemma classify_spec e event g : e.(sawTerminal) = false ->
  match classify selected e event g with
  | (e', Err _) => e' = e
  | (e', Ok providerError) =>
    e'.(eventCount) = e.(eventCount) + 1 /\
    e'.(firstProviderError) = (if e.(eventCount) + 1 =? 1 then providerError else e.(firstProviderError)) /\
    e'.(sawErrorEvent) = e.(sawErrorEvent)
  end.
Proof.
  intros Et. unfold classify. rewrite Et.
  destruct (match ClassifyStreamEvent selected with Some f => f event | None => _ end) as [disposition|]; [|reflexivity].
  cbn zeta. destruct (IsTerminal disposition), (ClassifyStreamContent selected) as [f|]; cbn; unfold const;
    destruct (contentAttached e); try (destruct (safeClassifyStreamContent f event)); cbn; unfold const;
    destruct (eventCount e + 1 =? 1); cbn; unfold const; auto.
Qed.

(** What a counted event does to the observer. *)
Lemma counted_evolves e e' (providerError : bool) :
  e'.(eventCount) = e.(eventCount) + 1 ->
  e'.(firstProviderError) = (if e.(eventCount) + 1 =? 1 then providerError else e.(firstProviderError)) ->
  (e'.(sawErrorEvent) = e.(sawErrorEvent) /\ providerError = false \/ e'.(sawErrorEvent) = true) -> evolves e e'.
Proof.
  intros Hc Hf Hs [Hz H1']. split.
  - split; [lia|]. rewrite Hf, Hc. destruct (Z.eqb_spec (eventCount e + 1) 1) as [E1|E1].
    + intros ->. destruct Hs as [[_ Hx]|Hs]; [discriminate Hx|]. split; [lia|exact Hs].
    + intros Hx. destruct (H1' Hx) as [H2' H3']. split; [lia|]. destruct Hs as [[-> _]|Hs]; assumption.
  - intros Hx. rewrite Hf. destruct (H1' Hx) as [H2' _]. destruct (Z.eqb_spec (eventCount e + 1) 1); [lia|exact Hx].
Qed.

Lemma observeError_reported e payload summary :
  let e' := observeError e payload summary in
  e'.(eventCount) = e.(eventCount) /\ e'.(firstProviderError) = e.(firstProviderError) /\ e'.(sawErrorEvent) = true.
Proof. unfold observeError. cbn. unfold const. destruct (emptyText _); cbn; unfold const; auto. Qed.

Lemma observe_evolves o event g : evolves o.(events) (fst (observe o event g)).(events).
Proof.
  unfold observeStreamEvent. destruct (_ && _); [apply evolves_refl|].
  destruct (sawTerminal (events o)) eqn:Et.
  { unfold classify. rewrite Et. cbn [fst events negb andb]. destruct onResponse; cbn [fst events negb andb]; apply evolves_refl. }
  pose proof (classify_spec (events o) event g Et) as Hc.
  destruct (classify selected (events o) event g) as [e' [providerError|err]]; [|subst e'; apply evolves_refl].
  destruct Hc as (H1' & H2' & H3'). cbn [negb andb]. destruct providerError; cbn [negb].
  - assert (Hx : evolves (events o) (observeError e' (Payload event) (summarize (Payload event)))).
    { destruct (observeError_reported e' (Payload event) (summarize (Payload event))) as (E1 & E2 & E3).
      apply (counted_evolves _ _ true); [congruence|congruence|now right]. }
    destruct onResponse; cbn [fst events]; exact Hx.
  - assert (Hx : evolves (events o) e') by (apply (counted_evolves _ _ false); auto).
    destruct onResponse as [record|]; [|exact Hx].
    destruct (decodeResponsesStoreObject _) as [object|]; [|exact Hx].
    destruct (object !! _) as [response|]; [|exact Hx]. cbn [world]. destruct (record _ _) as [w [err|]]; exact Hx.
Qed.

(** ** Steps that do not concern the client *)

Record quiet (st st' : FState) : Prop := {
  q_committed : st'.(committed) = st.(committed);
  q_ready : st'.(ready) = st.(ready);
  q_err : st'.(downstreamErr) = st.(downstreamErr);
  q_preread : st'.(preread) = st.(preread);
  q_client : st'.(client) = st.(client);
  q_events : evolves st.(observation).(events) st'.(observation).(events);
}.

Lemma quiet_refl st : quiet st st.
Proof. split; try reflexivity. apply evolves_refl. Qed.

Lemma quiet_trans st1 st2 st3 : quiet st1 st2 -> quiet st2 st3 -> quiet st1 st3.
Proof. intros [] []. split; try congruence. eapply evolves_trans; eassumption. Qed.

Lemma markForwarded_quiet st : quiet st (markForwarded st).
Proof.
  split; try reflexivity. unfold markForwarded, markTerminalForwarded. cbn. unfold const.
  destruct (sawTerminal _); [|apply evolves_refl]. intros [H1' H2']. split; [split; assumption|auto].
Qed.

Lemma restoreData_quiet st data terminal : quiet st (fst (restoreData restoreOps st data terminal)).
Proof.
  unfold restoreData. destruct (redactionRestore st) as [r|]; [|apply quiet_refl].
  destruct (ro_push restoreOps r data) as [r' [out|]]; (split; try reflexivity; apply evolves_refl).
Qed.

Lemma observeData_quiet st data :
  quiet st (fst (observeData input selected usageOps restoreOps onResponse credentialRemains summarize st data)).
Proof.
  unfold observeData.
  assert (Hp : evolves (events (observation st))
                 (snd (fst (Sse.push observe (streamBuffer st) (observation st) data))).(events)).
  { apply (push_preserves observe (fun o => evolves (events (observation st)) (events o))); [|apply evolves_refl].
    intros o event g Ho. exact (evolves_trans _ _ _ Ho (observe_evolves o event g)). }
  destruct (Sse.push _ _ _ _) as [[b o] [[complete terminal]|[| |e]]]; cbn [fst snd] in Hp.
  2-4: split; try reflexivity; exact Hp.
  assert (Hq : quiet st (st <| streamBuffer := b |> <| observation := o |>)) by (split; try reflexivity; exact Hp).
  destruct (_ || _); [destruct (isEmpty complete); [exact Hq|]|]; exact (quiet_trans _ _ _ Hq (restoreData_quiet _ _ _)).
Qed.

Lemma prepare_quiet st data : quiet st (fst (prepare st data)).
Proof.
  unfold prepareData. destruct (responsesStoreBuffer st) as [b|]; [|apply observeData_quiet].
  destruct (rewritePush _ b data) as [b' [out|e]]; [|split; try reflexivity; apply evolves_refl].
  assert (Hq : quiet st (st <| responsesStoreBuffer := Some b' |>)) by (split; try reflexivity; apply evolves_refl).
  cbn zeta. destruct (isEmpty out); [exact Hq|exact (quiet_trans _ _ _ Hq (observeData_quiet _ _))].
Qed.

(** ** The invariant

    [sent] is the text handed to the client's side so far: with nothing committed it is what
    is held back, afterwards what was delivered, unless a write failed.  It fails only when
    bytes were held back and the stream then starts with a provider error. *)

Variable d0 : Downstream.
Hypothesis d0_fresh : d0.(calls) = 0%nat /\ d0.(delivered) = [].

Definition startsWithError (st : FState) : bool := st.(observation).(events).(firstProviderError).
Definition pendingOf (st : FState) : wire := st.(preread).(pr_pending).
Definition accountable (st : FState) : Prop := steady d0 /\ (st.(preread).(pr_enabled) = false \/ startsWithError st = false).

Record Inv (st : FState) (sent : wire) : Prop := {
  i_events : eventsOk st.(observation).(events);
  i_unsent : st.(committed) = false -> st.(client) = d0;
  i_answers : st.(client).(answers) = d0.(answers);
  i_held : st.(committed) = true -> pendingOf st = [];
  i_ready : st.(committed) = true \/ pendingOf st <> [] -> st.(ready) <> None;
  i_off : (input.(in_EmptyResponseRetry) = false -> st.(preread).(pr_enabled) = false) /\
          (st.(preread).(pr_enabled) = false -> pendingOf st = []);
  i_text : accountable st ->
    if st.(committed)
    then st.(client).(delivered) `prefix_of` sent /\ (~ broken st.(client) -> st.(client).(delivered) = sent)
    else startsWithError st = false -> pendingOf st = sent;
}.

Definition noticed (st : FState) : Prop := broken st.(client) -> st.(downstreamErr) <> None.

Lemma fresh_not_broken : ~ broken d0.
Proof. intros (i & n & c & Hi & _). destruct d0_fresh as [E _]. rewrite E in Hi. lia. Qed.

Lemma quiet_accountable st st' : eventsOk st.(observation).(events) -> quiet st st' -> accountable st' -> accountable st.
Proof.
  intros He [_ _ _ Hp _ Hv] [Hst [Ha|Ha]]; (split; [exact Hst|]); [left; now rewrite <- Hp|right]. unfold startsWithError in *.
  destruct (Hv He) as [_ Hm]. destruct (firstProviderError (events (observation st))) eqn:Ef; [|reflexivity].
  rewrite (Hm eq_refl) in Ha. discriminate Ha.
Qed.

Lemma quiet_errorless st st' : eventsOk st.(observation).(events) -> quiet st st' ->
  startsWithError st' = false -> startsWithError st = false.
Proof.
  intros He Hq Ha. unfold startsWithError in *. destruct (q_events _ _ Hq He) as [_ Hm].
  destruct (firstProviderError (events (observation st))); [|reflexivity]. rewrite (Hm eq_refl) in Ha. discriminate Ha.
Qed.

Lemma quiet_inv st st' sent : quiet st st' -> Inv st sent -> Inv st' sent.
Proof.
  intros Hq Hi. pose proof (i_events _ _ Hi) as He. pose proof (quiet_accountable st st' He Hq) as Hacc.
  pose proof (quiet_errorless st st' He Hq) as Herr.
  destruct Hq as [Q1 Q2 Q3 Q4 Q5 Q6], Hi as [_ I2 I3 I4 I5 I6 I7]. unfold pendingOf in *.
  split; unfold pendingOf; rewrite ?Q1, ?Q2, ?Q4, ?Q5; auto.
  - exact (proj1 (Q6 He)).
  - intros Ha. specialize (I7 (Hacc Ha)). destruct (committed st); [exact I7|]. intros Hs. exact (I7 (Herr Hs)).
Qed.

Lemma inv_noticed_err st sent e : Inv st sent -> Inv (st <| downstreamErr := e |>) sent.
Proof. intros [I1 I2 I3 I4 I5 I6 I7]. split; assumption. Qed.

(** Committing what is pending, with [data] appended. *)
Lemma commit_inv st r sent data terminal : Inv st sent -> st.(committed) = false -> (accountable st -> startsWithError st = false) ->
  st.(ready) = Some r ->
  let '(p, pending, heldTerminal) := flush st.(preread) in
  let '(st', e) := commit (st <| preread := p |>) r (pending ++ data) (terminal heldTerminal) in
  Inv st' (sent ++ data) /\ st'.(committed) = true /\ st'.(downstreamErr) = st.(downstreamErr) /\
  (broken st'.(client) -> e <> None) /\ quiet (st <| preread := p |> <| committed := true |> <| client := st'.(client) |>) st'.
Proof.
  intros [I1 I2 I3 I4 I5 I6 I7] Hc Hs Hr.
  assert (Hfl : exists p, flush (preread st) = (p, pendingOf st, snd (flush (preread st))) /\ pr_pending p = [] /\
                          pr_enabled p = pr_enabled (preread st)).
  { unfold flush, holding, pendingOf. destruct (pr_pending (preread st)) eqn:Ep; cbn [isEmpty negb snd].
    - exists (preread st). auto.
    - eexists. split; [reflexivity|]. split; reflexivity. }
  destruct Hfl as (p & Hfl & Hp & Hen). rewrite Hfl. set (ht := snd (flush (preread st))). unfold commit.
  pose proof (commit_wrote (st <| preread := p |> <| committed := true |>).(client) r.(se_StatusCode)
                (default [] r.(se_Header)) (pendingOf st ++ data)) as Hw.
  destruct (commitStream _ _ _ _) as [d e]. cbn [fst snd] in Hw. cbn in Hw. unfold const in Hw.
  rewrite (I2 Hc) in Hw. destruct d0_fresh as [_ Hd0].
  assert (Hpend : accountable st -> pendingOf st = sent)
    by (intros Ha; specialize (I7 Ha); rewrite Hc in I7; exact (I7 (Hs Ha))).
  assert (Hbase : forall st2 : FState, quiet (st <| preread := p |> <| committed := true |> <| client := d |>) st2 ->
                  Inv st2 (sent ++ data)).
  { intros st2 Hq. apply (quiet_inv _ _ _ Hq). split; cbn; unfold const, pendingOf; cbn; unfold const.
    - exact I1.
    - discriminate.
    - exact (w_answers _ _ _ _ Hw).
    - intros _. exact Hp.
    - intros _. now rewrite Hr.
    - split; [rewrite Hen; exact (proj1 I6)|intros _; exact Hp].
    - intros Ha. assert (Ha' : accountable st)
        by (destruct Ha as [Hst [Ha|Ha]]; (split; [exact Hst|]); [left|right; exact Ha]; cbn in Ha; unfold const in Ha; congruence).
      rewrite <- (Hpend Ha'). destruct (w_part _ _ _ _ Hw (proj1 Ha)) as (part & Hpart & Hd). rewrite Hd0 in Hd. cbn in Hd.
      split; [now rewrite Hd|]. intros Hn. destruct (w_whole _ _ _ _ Hw Hn) as [_ Hx]. now rewrite Hd0 in Hx. }
  destruct e as [e|].
  - split; [apply Hbase, quiet_refl|]. split; [reflexivity|]. split; [reflexivity|]. split; [discriminate|apply quiet_refl].
  - set (st2 := st <| preread := p |> <| committed := true |> <| client := d |> <| streamReady := _ |>).
    assert (Hq0 : quiet (st <| preread := p |> <| committed := true |> <| client := d |>) st2)
      by (split; try reflexivity; apply evolves_refl).
    assert (Hq : quiet (st <| preread := p |> <| committed := true |> <| client := d |>)
                       (if terminal ht then markForwarded st2 else st2))
      by (destruct (terminal ht); [exact (quiet_trans _ _ _ Hq0 (markForwarded_quiet st2))|exact Hq0]).
    split; [exact (Hbase _ Hq)|].
    split; [exact (q_committed _ _ Hq)|]. split; [exact (q_err _ _ Hq)|].
    assert (Hcl : client (if terminal ht then markForwarded st2 else st2) = d) by exact (q_client _ _ Hq).
    split.
    + intros Hb. exfalso. apply fresh_not_broken. change (broken (client (if terminal ht then markForwarded st2 else st2))) in Hb.
      rewrite Hcl in Hb. exact (broken_dec_by _ _ _ _ Hw eq_refl Hb).
    + change (quiet (st <| preread := p |> <| committed := true |>
                     <| client := client (if terminal ht then markForwarded st2 else st2) |>)
                    (if terminal ht then markForwarded st2 else st2)).
      rewrite Hcl. exact Hq.
Qed.

Lemma commitHeld_inv st sent : Inv st sent -> noticed st -> Inv (commitHeld st) sent /\ noticed (commitHeld st).
Proof.
  intros Hi Hn. unfold commitHeld. destruct (ready st) as [r|] eqn:Er; [|now split].
  destruct (committed st) eqn:Ec; [now split|]. cbn [orb]. destruct (holding (preread st)) eqn:Eh; [|now split]. cbn [negb].
  assert (Hs : accountable st -> startsWithError st = false).
  { intros [_ [Ha|Ha]]; [|exact Ha]. pose proof (proj2 (i_off _ _ Hi) Ha) as Hp. unfold holding, pendingOf in *. rewrite Hp in Eh. discriminate Eh. }
  pose proof (commit_inv st r sent [] (fun t => t) Hi Ec Hs Er) as Hx.
  destruct (flush (preread st)) as [[p held] ht]. rewrite !app_nil_r in Hx.
  destruct (commit _ r held ht) as [st' e]. destruct Hx as (Hi' & _ & He & Hb & _). destruct e as [e|].
  - destruct (downstreamErr st') eqn:Ed; [split; [exact Hi'|intros _; now rewrite Ed]|].
    split; [now apply inv_noticed_err|]. intros _. discriminate.
  - split; [exact Hi'|]. intros Hbr. exfalso. exact (Hb Hbr eq_refl).
Qed.

Lemma appendError_inv st sent data : Inv st sent -> st.(committed) = false -> startsWithError st = true ->
  Inv (appendError st data) (sent ++ data).
Proof.
  intros [I1 I2 I3 I4 I5 I6 I7] Hc Hs. split; try assumption. intros _. cbn. unfold const. rewrite Hc.
  intros Hx. unfold startsWithError in *. cbn in Hx. unfold const in Hx. congruence.
Qed.

Lemma tryHold_inv st sent now data terminal : Inv st sent -> st.(committed) = false -> startsWithError st = false ->
  st.(ready) <> None -> let '(st', held) := tryHold st now data terminal in
  Inv st' (if held then sent ++ data else sent) /\ st'.(committed) = false /\ startsWithError st' = false /\ st'.(ready) = st.(ready) /\
  st'.(downstreamErr) = st.(downstreamErr) /\ st'.(client) = st.(client).
Proof.
  intros Hi Hc Hs Hr. unfold tryHold. destruct (sawContent _); [now auto 8|].
  unfold hold. destruct (pr_enabled (preread st)) eqn:Een; cbn [negb].
  2:{ split; [|auto]. destruct Hi as [I1 I2 I3 I4 I5 I6 I7]. split; assumption. }
  set (p0 := if pr_started (preread st) =? 0 then _ else _).
  assert (Hp0 : pr_pending p0 = pr_pending (preread st) /\ pr_enabled p0 = true)
    by (unfold p0; destruct (_ =? _); cbn; unfold const; auto). destruct Hp0 as [Hp0 He0].
  destruct Hi as [I1 I2 I3 I4 I5 I6 I7]. unfold pendingOf in *.
  destruct (_ || _).
  - split; [|auto]. split; cbn; unfold const, pendingOf; cbn; unfold const; rewrite ?Hp0; auto.
    + split; [rewrite He0, <- Een; exact (proj1 I6)|intros Hx; congruence].
    + intros [Hst _]. exact (I7 (conj Hst (or_intror Hs))).
  - split; [|auto]. split; cbn; unfold const, pendingOf; cbn; unfold const; auto.
    + intros Hx. congruence.
    + split; [rewrite He0, <- Een; exact (proj1 I6)|intros Hx; congruence].
    + intros [Hst _]. specialize (I7 (conj Hst (or_intror Hs))). rewrite Hc in *. intros _. rewrite Hp0, (I7 Hs). reflexivity.
Qed.

Lemma write_inv st sent data : Inv st sent -> st.(committed) = true ->
  Inv (st <| client := fst (writeThrough st.(client) data) |>) (sent ++ data).
Proof.
  intros [I1 I2 I3 I4 I5 I6 I7] Ec. pose proof (through_wrote (client st) data) as Hw.
  destruct (writeThrough (client st) data) as [d e]. cbn [fst snd] in *. split; cbn; unfold const; auto.
  - congruence.
  - now rewrite (w_answers _ _ _ _ Hw).
  - rewrite Ec. intros Ha. specialize (I7 Ha). rewrite Ec in I7. destruct I7 as [Hp Hd].
    assert (Hst : steady (client st)) by exact (steady_same d0 _ I3 (proj1 Ha)).
    destruct (broken_dec (client st)) as [Hb|Hnb].
    + rewrite (w_stuck _ _ _ _ Hw Hst Hb). split; [now apply prefix_app_r|].
      intros Hx. exfalso. exact (Hx (w_keeps _ _ _ _ Hw Hb)).
    + destruct (w_part _ _ _ _ Hw Hst) as (part & Hpart & Hdd). rewrite Hdd, (Hd Hnb).
      split; [now apply prefix_app|]. intros Hx. destruct (w_whole _ _ _ _ Hw Hx) as [_ Hxx].
      rewrite Hdd, (Hd Hnb) in Hxx. exact Hxx.
Qed.

Lemma deliver_inv st r sent now data terminal : Inv st sent -> noticed st -> st.(ready) = Some r ->
  let '(st', e) := deliver st r now data terminal in
  Inv st' (sent ++ data) /\ st'.(downstreamErr) = st.(downstreamErr) /\ (e = None -> noticed st').
Proof.
  intros Hi Hn Hr. unfold deliver. destruct (committed st) eqn:Ec.
  - pose proof (through_wrote (client st) data) as Hw. pose proof (write_inv st sent data Hi Ec) as Hbase.
    destruct (writeThrough (client st) data) as [d e]. cbn [fst snd] in Hw, Hbase.
    destruct e as [e|].
    + split; [exact Hbase|]. split; [reflexivity|discriminate].
    + assert (Hq : quiet (st <| client := d |>) (if terminal then markForwarded (st <| client := d |>) else st <| client := d |>))
        by (destruct terminal; [apply markForwarded_quiet|apply quiet_refl]).
      split; [exact (quiet_inv _ _ _ Hq Hbase)|]. split; [exact (q_err _ _ Hq)|]. intros _ Hb.
      assert (Hb' : broken d) by (rewrite <- (q_client _ _ Hq : _ = d); exact Hb).
      intros Hx. exact (Hn (broken_dec_by _ _ _ _ Hw eq_refl Hb') (eq_trans (eq_sym (q_err _ _ Hq)) Hx)).
  - destruct (firstProviderError _) eqn:Ef.
    { split; [now apply appendError_inv|]. split; [reflexivity|]. intros _. exact Hn. }
    assert (Hrn : ready st <> None) by congruence.
    pose proof (tryHold_inv st sent now data terminal Hi Ec Ef Hrn) as Hx.
    destruct (tryHold st now data terminal) as [st1 held]. destruct Hx as (Hi1 & Hc1 & Hs1 & Hr1 & He1 & Hcl1).
    destruct held.
    + split; [destruct Hi1 as [I1 I2 I3 I4 I5 I6 I7]; split; assumption|]. split; [exact He1|].
      intros _ Hb. cbn in Hb |- *. unfold const in *. rewrite Hcl1 in Hb. rewrite He1. exact (Hn Hb).
    + rewrite Hr in Hr1. pose proof (commit_inv st1 r sent data (fun t => terminal || t) Hi1 Hc1 (fun _ => Hs1) Hr1) as Hx.
      destruct (flush (preread st1)) as [[p pend] ht]. destruct (commit _ r _ _) as [st2 e].
      destruct Hx as (Hi2 & _ & He2 & Hb2 & _). split; [exact Hi2|]. split; [congruence|].
      intros -> Hb. exfalso. exact (Hb2 Hb eq_refl).
Qed.

(** The text a moment hands to the client's side. *)
Definition piece (run : FState * bool) (m : Moment) : wire :=
  match m with
  | Emits now event =>
    if run.2 || present (validateStreamEvent event) || negb (bool_decide (event.(se_Kind) = StreamEventData)) then []
    else
      match run.1.(ready) with
      | Some r =>
        if negb (inOK r.(se_StatusCode)) then []
        else match snd (prepare run.1 event.(se_Data)) with Forwarded data _ => data | _ => [] end
      | None => []
      end
  | WindowExpires => []
  end.

Fixpoint pieces (run : FState * bool) (moments : list Moment) : wire :=
  match moments with
  | [] => []
  | m :: rest => piece run m ++ pieces (stepOf run m) rest
  end.

Lemma inv_kept st st' sent : Inv st sent -> st'.(committed) = st.(committed) -> st'.(client) = st.(client) ->
  st'.(preread) = st.(preread) -> st'.(observation) = st.(observation) -> (st.(ready) <> None -> st'.(ready) <> None) -> Inv st' sent.
Proof.
  intros [I1 I2 I3 I4 I5 I6 I7] E1 E2 E3 E4 E5.
  unfold pendingOf, accountable, startsWithError in *. split; unfold pendingOf, accountable, startsWithError;
    rewrite ?E1, ?E2, ?E3, ?E4; auto.
Qed.

Lemma fail_inv st sent e : Inv st sent -> Inv (fst (fail st e)) sent /\ noticed (fst (fail st e)).
Proof. intros Hi. split; [now apply inv_noticed_err|]. intros _. discriminate. Qed.

Lemma sinkData_inv st r sent now data : Inv st sent -> noticed st -> st.(ready) = Some r ->
  let '(st', e) := sinkData input selected usageOps restoreOps onResponse credentialRemains summarize st r now data in
  Inv st' (sent ++ (if negb (inOK r.(se_StatusCode)) then []
                    else match snd (prepare st data) with Forwarded data _ => data | _ => [] end)) /\ noticed st'.
Proof.
  intros Hi Hn Hr. unfold sinkData. destruct (inOK (se_StatusCode r)); cbn [negb].
  2:{ rewrite app_nil_r. split; [|exact Hn]. apply (inv_kept st); auto. }
  pose proof (prepare_quiet st data) as Hq. destruct (prepare st data) as [st1 [|out terminal|err]]; cbn [fst snd] in *.
  - rewrite app_nil_r. split; [exact (quiet_inv _ _ _ Hq Hi)|]. intros Hb. rewrite (q_client _ _ Hq) in Hb.
    rewrite (q_err _ _ Hq). exact (Hn Hb).
  - assert (Hn1 : noticed st1) by (intros Hb; rewrite (q_client _ _ Hq) in Hb; rewrite (q_err _ _ Hq); exact (Hn Hb)).
    pose proof (deliver_inv st1 r sent now out terminal (quiet_inv _ _ _ Hq Hi) Hn1 (eq_trans (q_ready _ _ Hq) Hr)) as Hd.
    destruct (deliver st1 r now out terminal) as [st2 [e|]]; destruct Hd as (Hi2 & He2 & Hn2).
    + exact (fail_inv st2 _ e Hi2).
    + split; [exact Hi2|exact (Hn2 eq_refl)].
  - rewrite app_nil_r. exact (fail_inv st1 sent err (quiet_inv _ _ _ Hq Hi)).
Qed.

Lemma sink_inv st sent now event : Inv st sent -> noticed st ->
  Inv (fst (sinkOf st now event)) (sent ++ piece (st, false) (Emits now event)) /\ noticed (fst (sinkOf st now event)).
Proof.
  intros Hi Hn. unfold sink, piece. cbn [fst snd orb]. destruct (validateStreamEvent event) as [v|]; cbn [present orb].
  { rewrite app_nil_r. exact (fail_inv st sent _ Hi). }
  destruct (se_Kind event) eqn:Ek.
  - rewrite bool_decide_eq_false_2 by discriminate. cbn [negb]. rewrite app_nil_r. unfold sinkReady. cbn zeta.
    destruct (inOK _); [destruct (streamContentEncodingInvalid _)|].
    + exact (fail_inv st sent _ Hi).
    + split; [|exact Hn]. apply (inv_kept st); try reflexivity; [exact Hi|discriminate].
    + split; [|exact Hn]. apply (inv_kept st); try reflexivity; [exact Hi|discriminate].
  - rewrite bool_decide_eq_true_2 by reflexivity. cbn [negb]. destruct (ready st) as [r|] eqn:Er.
    + pose proof (sinkData_inv st r sent now (se_Data event) Hi Hn Er) as Hx.
      destruct (sinkData _ _ _ _ _ _ _ _ _ _ _) as [st' e]. exact Hx.
    + rewrite app_nil_r. exact (fail_inv st sent _ Hi).
  - rewrite bool_decide_eq_false_2 by discriminate. cbn [negb fst]. rewrite app_nil_r. destruct (se_Usage event); [|now split].
    split; [|exact Hn]. apply (inv_kept st); auto.
  - rewrite bool_decide_eq_false_2 by discriminate. cbn [negb]. rewrite app_nil_r. exact (fail_inv st sent _ Hi).
Qed.

Lemma step_inv run m sent : Inv run.1 sent -> noticed run.1 ->
  Inv (stepOf run m).1 (sent ++ piece run m) /\ noticed (stepOf run m).1.
Proof.
  destruct run as [st stopped]. cbn [fst]. intros Hi Hn. destruct m as [now event|]; cbn [step].
  - destruct stopped.
    + unfold piece. cbn [snd orb fst]. rewrite app_nil_r. now split.
    + pose proof (sink_inv st sent now event Hi Hn) as Hx. destruct (sinkOf st now event) as [st' [e|]]; exact Hx.
  - cbn [fst piece]. rewrite app_nil_r. destruct (windowTimer st); [now apply commitHeld_inv|now split].
Qed.

Lemma run_inv moments : forall run sent, Inv run.1 sent -> noticed run.1 ->
  Inv (foldl stepOf run moments).1 (sent ++ pieces run moments) /\ noticed (foldl stepOf run moments).1.
Proof.
  induction moments as [|m moments IH]; intros run sent Hi Hn; cbn [foldl pieces]; [rewrite app_nil_r; now split|].
  destruct (step_inv run m sent Hi Hn) as [Hi' Hn']. rewrite app_assoc. exact (IH _ _ Hi' Hn').
Qed.

(** ** The end of the stream *)

Lemma deliverTail_inv st r sent now tail terminal : Inv st sent -> noticed st -> st.(downstreamErr) = None -> st.(ready) = Some r ->
  Inv (deliverTail st r now tail terminal) (sent ++ tail) /\ noticed (deliverTail st r now tail terminal).
Proof.
  intros Hi Hn He Hr. unfold deliverTail. destruct (committed st) eqn:Ec; cbn [negb andb].
  - pose proof (through_wrote (client st) tail) as Hw. pose proof (write_inv st sent tail Hi Ec) as Hbase. rewrite Ec. cbn [negb].
    destruct (writeThrough (client st) tail) as [d e]. cbn [fst snd] in Hw, Hbase.
    split; [now apply inv_noticed_err|]. intros Hb. cbn in Hb |- *. unfold const in *.
    destruct (w_error _ _ _ _ Hw Hb) as [Hx|Hx]; [exfalso; exact (Hn Hx He)|exact Hx].
  - destruct (firstProviderError _) eqn:Ef; [split; [now apply appendError_inv|exact Hn]|].
    assert (Hrn : ready st <> None) by congruence.
    pose proof (tryHold_inv st sent now tail terminal Hi Ec Ef Hrn) as Hx.
    destruct (tryHold st now tail terminal) as [st1 held]. destruct Hx as (Hi1 & Hc1 & Hs1 & Hr1 & He1 & Hcl1).
    assert (Hn1 : noticed st1) by (intros Hb; rewrite Hcl1 in Hb; rewrite He1; exact (Hn Hb)).
    destruct held; [now split|]. rewrite Hc1. cbn [negb].
    pose proof (commit_inv st1 r sent tail (fun _ => false) Hi1 Hc1 (fun _ => Hs1) (eq_trans Hr1 Hr)) as Hx.
    destruct (flush (preread st1)) as [[p pend] ht]. destruct (commit _ r _ _) as [st2 e].
    destruct Hx as (Hi2 & _ & _ & Hb2 & _). split; [now apply inv_noticed_err|exact Hb2].
Qed.

(** The text the restoration releases at the end. *)
Definition tailOf (st : FState) (terminal : StreamResult) : wire :=
  if present st.(downstreamErr) || present terminal.(sr_Error) then []
  else
    let st := finishBuffers st in
    if present st.(downstreamErr) then []
    else
      match st.(redactionRestore), st.(ready) with
      | Some r, Some _ => default [] (snd (restoreOps.(ro_finish) r))
      | _, _ => []
      end.

Lemma finishBuffers_inv st sent : Inv st sent -> Inv (finishBuffers st) sent /\ (finishBuffers st).(client) = st.(client).
Proof.
  intros Hi. unfold finishBuffers.
  assert (Hrest : forall st1, Inv st1 sent -> client st1 = client st ->
    Inv (match Sse.finish (E := GoError) st1.(streamBuffer) with
         | (b, Err _) => st1 <| streamBuffer := b |> <| downstreamErr := Some protocolFailure |>
         | (b, Ok _) => st1 <| streamBuffer := b |> <| downstreamErr := validateEOF st1.(observation).(events) |>
         end) sent /\
    client (match Sse.finish (E := GoError) st1.(streamBuffer) with
         | (b, Err _) => st1 <| streamBuffer := b |> <| downstreamErr := Some protocolFailure |>
         | (b, Ok _) => st1 <| streamBuffer := b |> <| downstreamErr := validateEOF st1.(observation).(events) |>
         end) = client st).
  { intros st1 Hi1 Hc1. destruct (Sse.finish (streamBuffer st1)) as [b [u|e]]; (split; [apply (inv_kept st1); auto|exact Hc1]). }
  destruct (responsesStoreBuffer st) as [b|]; [|now apply Hrest].
  destruct (rewriteFinish b) as [b' [u|e]].
  - apply Hrest; [apply (inv_kept st); auto|reflexivity].
  - split; [apply (inv_kept st); auto|reflexivity].
Qed.

Lemma conclude_inv st sent now terminal : Inv st sent -> noticed st ->
  Inv (conclude restoreOps st now terminal) (sent ++ tailOf st terminal) /\ noticed (conclude restoreOps st now terminal).
Proof.
  intros Hi Hn. unfold conclude, tailOf. destruct (downstreamErr st) as [e|] eqn:Ee; cbn [present orb].
  { rewrite app_nil_r. now split. }
  destruct (sr_Error terminal); cbn [present]; [rewrite app_nil_r; now split|]. cbn zeta.
  destruct (finishBuffers_inv st sent Hi) as [Hi1 Hc1].
  assert (Hnb : ~ broken (client (finishBuffers st))) by (rewrite Hc1; intros Hb; exact (Hn Hb Ee)).
  assert (Hsafe : noticed (finishBuffers st)) by (intros Hb; destruct (Hnb Hb)).
  destruct (downstreamErr (finishBuffers st)) as [e|] eqn:Ee1; cbn [present].
  { rewrite app_nil_r. split; [exact Hi1|]. intros _. congruence. }
  unfold finishRestore. destruct (redactionRestore (finishBuffers st)) as [r|]; [|rewrite app_nil_r; split; [exact Hi1|exact Hsafe]].
  destruct (ro_finish restoreOps r) as [r' tail]. cbn [snd].
  set (st1 := (finishBuffers st) <| redactionRestore := Some r' |>).
  assert (Hi1' : Inv st1 sent) by (apply (inv_kept (finishBuffers st)); auto).
  match goal with |- context [markForwarded ?x] => set (st2 := x) end.
  assert (Hst2 : Inv st2 (sent ++ match ready (finishBuffers st) with Some _ => default [] tail | None => [] end) /\ noticed st2).
  { unfold st2. change (ready st1) with (ready (finishBuffers st)).
    destruct tail as [tail|]; cbn [default]; destruct (ready (finishBuffers st)) as [event|] eqn:Er.
    - destruct tail as [|c tail]; cbn [isEmpty]; [rewrite app_nil_r; split; [exact Hi1'|exact Hsafe]|].
      apply deliverTail_inv; [exact Hi1'|exact Hsafe|exact Ee1|exact Er].
    - rewrite app_nil_r. split; [exact Hi1'|exact Hsafe].
    - rewrite app_nil_r. split; [now apply inv_noticed_err|discriminate].
    - rewrite app_nil_r. split; [now apply inv_noticed_err|discriminate]. }
  destruct (_ && _); [|exact Hst2].
  destruct Hst2 as [Hi2 Hn2]. pose proof (markForwarded_quiet st2) as Hq. split; [exact (quiet_inv _ _ _ Hq Hi2)|].
  intros Hb. rewrite (q_client _ _ Hq) in Hb. rewrite (q_err _ _ Hq). exact (Hn2 Hb).
Qed.

(** ** Results *)

(** [prepareBufferedResult] neither commits a response nor declares it empty. *)
Hypothesis prepare_keeps : forall r, r.(core).(Committed) = false -> r.(core).(EmptyResponseBeforeCommit) = false ->
  (prepareBufferedResult r).(core).(Committed) = false /\ (prepareBufferedResult r).(core).(EmptyResponseBeforeCommit) = false.

Lemma describe_core ctx (st : FState) terminal captured (c := (describe input ctx st terminal captured).(core)) :
  c.(Committed) = st.(committed) /\ c.(EmptyResponseBeforeCommit) = false /\
  (forall e, st.(downstreamErr) = Some e -> c.(u_Err) = Some e).
Proof.
  unfold c, describe, upstreamFromExecutionStreamResult, withFailure.
  destruct (sr_Error terminal) as [te|]; [destruct (sr_ResponseStarted terminal)|]; cbn zeta;
    destruct (isEmpty (errorBody st)), (downstreamErr st) as [e|]; try destruct (Is (Some e) errRedactionStream);
    destruct (committed st), (ready st); cbn; unfold const; (split; [reflexivity|split; [reflexivity|congruence]]).
Qed.

Lemma empty_holds st terminal sent : Inv st sent -> isEmptyResponse st terminal = true ->
  st.(committed) = false /\ startsWithError st = false /\ st.(downstreamErr) = None.
Proof.
  intros Hi. unfold isEmptyResponse, endedWithoutContent. rewrite !andb_true_iff, !negb_true_iff.
  intros (((((Hc & Hd) & _) & _) & _) & (((((_ & _) & _) & Hs) & _) & _)). split; [exact Hc|].
  split; [|now destruct (downstreamErr st)]. unfold startsWithError.
  destruct (firstProviderError _) eqn:Ef; [|reflexivity]. destruct (ev_first _ (i_events _ _ Hi) Ef) as [_ Hx]. congruence.
Qed.

Lemma flush_pending p : exists p', flush p = (p', pr_pending p, snd (flush p)) /\ pr_pending p' = [] /\
  pr_enabled p' = pr_enabled p.
Proof.
  unfold flush, holding. destruct (pr_pending p) eqn:Ep; cbn [isEmpty negb snd]; [now exists p|].
  eexists. split; [reflexivity|]. split; reflexivity.
Qed.

(** The timer has nothing left to do. *)
Definition idle (st : FState) : Prop := st.(ready) = None \/ st.(committed) = true \/ holding st.(preread) = false.

Lemma idle_commitHeld st : idle st -> commitHeld st = st.
Proof.
  unfold commitHeld. intros [->|[->|Hh]]; [reflexivity|now destruct (ready st)|]. destruct (ready st); [|reflexivity].
  rewrite Hh. cbn [negb]. now rewrite orb_true_r.
Qed.

Lemma commit_committed (st : FState) r payload terminal : (fst (commit st r payload terminal)).(committed) = true.
Proof. unfold commit. destruct (commitStream _ _ _ _) as [d [e|]]; [reflexivity|]. cbn [fst]. now destruct terminal. Qed.

Lemma commitHeld_settles (st : FState) : idle (commitHeld st).
Proof.
  unfold commitHeld, idle. destruct (ready st) as [r|] eqn:Er; [|now left]. right.
  destruct (committed st) eqn:Ec; [now left|]. cbn [orb]. destruct (holding (preread st)) eqn:Eh; [|now right]. cbn [negb]. left.
  destruct (flush (preread st)) as [[p held] ht]. pose proof (commit_committed (st <| preread := p |>) r held ht) as Hc.
  destruct (commit _ r held ht) as [st1 [e|]]; cbn [fst] in Hc; [destruct (downstreamErr st1)|]; exact Hc.
Qed.

Lemma commitHeld_keeps_error (st : FState) : st.(downstreamErr) <> None -> (commitHeld st).(downstreamErr) <> None.
Proof.
  intros He. unfold commitHeld. destruct (ready st) as [r|]; [|exact He]. destruct (_ || _); [exact He|].
  destruct (flush (preread st)) as [[p held] ht].
  assert (Hc : downstreamErr (fst (commit (st <| preread := p |>) r held ht)) = downstreamErr st)
    by (unfold commit; destruct (commitStream _ _ _ _) as [d [e|]]; [reflexivity|cbn [fst]; destruct ht; reflexivity]).
  destruct (commit _ r held ht) as [st1 [e|]]; cbn [fst] in Hc; [destruct (downstreamErr st1) eqn:Ed|]; congruence.
Qed.

(** The terminal result after the contract check. *)
Definition checkedTerminal (st : FState) (terminal : StreamResult) : StreamResult :=
  if present (validateStreamResult terminal) then invalidExecutionStreamResult terminal st.(ready) st.(committed) else terminal.

Local Abbreviation settled st result :=
  (prepareUncommitted prepareBufferedResult st (withFirstError sanitize st result)).

Lemma withFirstError_core (st : FState) result :
  let c := (withFirstError sanitize st result).(core) in
  c.(Committed) = result.(core).(Committed) /\ c.(EmptyResponseBeforeCommit) = result.(core).(EmptyResponseBeforeCommit) /\
  c.(u_Err) = result.(core).(u_Err) /\ c.(Body) = result.(core).(Body).
Proof. unfold withFirstError. cbn zeta. destruct (_ && _); auto. Qed.

Lemma settled_core (st : FState) result : result.(core).(Committed) = st.(committed) ->
  (settled st result).(core).(Committed) = st.(committed) /\
  (st.(committed) = true -> (settled st result).(core).(u_Err) = result.(core).(u_Err)) /\
  (settled st result).(core).(EmptyResponseBeforeCommit) = result.(core).(EmptyResponseBeforeCommit) /\
  (result.(core).(EmptyResponseBeforeCommit) = true -> (settled st result).(core).(Body) = result.(core).(Body)).
Proof.
  intros Hc. destruct (withFirstError_core st result) as (E1 & E2 & E3 & E4). unfold prepareUncommitted.
  destruct (committed st) eqn:Ec; cbn [negb andb]; [rewrite E1, E2, E3, E4; auto|].
  destruct (EmptyResponseBeforeCommit (core result)) eqn:Ee.
  - rewrite E2. cbn [negb]. rewrite andb_false_r, E1, E2, E4. split; [exact Hc|]. split; [discriminate|]. split; auto.
  - destruct (_ && _); [|rewrite E1, E2; repeat split; [exact Hc|discriminate|discriminate]].
    destruct (prepare_keeps (withFirstError sanitize st result)) as [P1 P2]; [congruence|congruence|].
    rewrite P1, P2. repeat split; discriminate.
Qed.

Lemma finish_spec ctx st sent now terminal : Inv st sent -> noticed st ->
  let st1 := st <| windowTimer := false |> in
  let text' := sent ++ tailOf st1 (checkedTerminal st1 terminal) in
  let '(final, r) := finishStream input usageOps restoreOps sanitize prepareBufferedResult ctx st now terminal in
  exists st3, Inv st3 text' /\ noticed st3 /\ idle final /\
    final.(committed) = st3.(committed) /\ final.(client) = st3.(client) /\ final.(downstreamErr) = st3.(downstreamErr) /\
    final.(observation).(events) = st3.(observation).(events) /\ pr_enabled final.(preread) = pr_enabled st3.(preread) /\
    r.(core).(Committed) = final.(committed) /\
    (final.(committed) = true -> r.(core).(u_Err) = None -> final.(downstreamErr) = None) /\
    (st.(downstreamErr) <> None -> final.(downstreamErr) <> None) /\
    (r.(core).(EmptyResponseBeforeCommit) = true ->
       st3.(committed) = false /\ startsWithError st3 = false /\ r.(core).(Body) = text (pendingOf st3)).
Proof.
  intros Hi Hn. cbn zeta. unfold finishStream. cbn zeta. set (st1 := st <| windowTimer := false |>).
  fold (checkedTerminal st1 terminal). set (terminal' := checkedTerminal st1 terminal).
  assert (Hi1 : Inv st1 sent) by (apply (inv_kept st); auto).
  destruct (conclude_inv st1 sent now terminal' Hi1 Hn) as [Hi2 Hn2].
  assert (Herr : downstreamErr st <> None -> conclude restoreOps st1 now terminal' = st1)
    by (intros Hx; unfold conclude; change (downstreamErr st1) with (downstreamErr st); now destruct (downstreamErr st)).
  set (st2 := conclude restoreOps st1 now terminal') in *.
  destruct (isEmptyResponse st2 terminal') eqn:Ee.
  - destruct (captureFinalize usageOps (capture (observation st2))) as [c captured].
    set (st4 := st2 <| observation := _ |>).
    destruct (flush_pending (preread st4)) as (p & Hf & Hp & Hpe). rewrite Hf.
    set (held := withEmptyResponse _ _ _). set (final := st4 <| preread := p |>).
    destruct (empty_holds st2 terminal' _ Hi2 Ee) as (Hc & Hs & _).
    destruct (describe_core ctx st4 terminal' captured) as (Hd1 & Hd2 & Hd3).
    destruct (settled_core final held Hd1) as (S1 & S2 & S3 & S4).
    exists st2. split; [exact Hi2|]. split; [exact Hn2|].
    split; [right; right; unfold holding; change (preread final) with p; now rewrite Hp|].
    do 4 (split; [reflexivity|]). split; [exact Hpe|]. split; [exact S1|].
    split; [intros Hx; change (committed st2 = true) in Hx; congruence|].
    split; [intros Hx; change (downstreamErr st2 <> None); now rewrite (Herr Hx)|].
    intros _. split; [exact Hc|]. split; [exact Hs|]. rewrite S4 by reflexivity. reflexivity.
  - destruct (commitHeld_inv st2 _ Hi2 Hn2) as [Hi3 Hn3]. pose proof (commitHeld_settles st2) as Hidle.
    set (st3 := commitHeld st2) in *. destruct (captureFinalize usageOps (capture (observation st3))) as [c captured].
    set (final := st3 <| observation := _ |>).
    destruct (describe_core ctx final terminal' captured) as (Hd1 & Hd2 & Hd3).
    destruct (settled_core final (describe input ctx final terminal' captured) Hd1) as (S1 & S2 & S3 & S4).
    exists st3. split; [exact Hi3|]. split; [exact Hn3|]. split; [exact Hidle|].
    do 5 (split; [reflexivity|]). split; [exact S1|]. split.
    + intros Hc Hu. rewrite (S2 Hc) in Hu. destruct (downstreamErr final) as [e|]; [|reflexivity].
      rewrite (Hd3 e eq_refl) in Hu. discriminate Hu.
    + split; [intros Hx; change (downstreamErr st3 <> None); unfold st3; rewrite (Herr Hx); now apply commitHeld_keeps_error|].
      intros Hx. rewrite S3, Hd2 in Hx. discriminate Hx.
Qed.

Lemma initial_inv window w restore : Inv (initialState input selected usageOps window w restore d0) [] /\
  noticed (initialState input selected usageOps window w restore d0).
Proof.
  destruct d0_fresh as [Hc Hd]. unfold initialState.
  set (o := if in_EmptyResponseRetry input then _ else _).
  assert (Ho : eventsOk o.1 /\ firstProviderError o.1 = false /\ (in_EmptyResponseRetry input = false -> o.2 = false)).
  { unfold o, observeContent. destruct (in_EmptyResponseRetry input); [destruct (ClassifyStreamContent selected)|];
      (split; [split; [cbn; lia|discriminate]|split; [reflexivity|first [discriminate|reflexivity]]]). }
  destruct o as [e supported]. cbn [fst snd] in Ho. destruct Ho as (Ho & Hf & Hsup).
  split; [|intros Hb; exfalso; exact (fresh_not_broken Hb)].
  split; unfold pendingOf, startsWithError; cbn; auto; try discriminate. intros [Hx|Hx]; [discriminate|congruence].
Qed.

(** ** Plain streams *)

(** No rewriting and no restoration. *)
Definition plain (st : FState) : Prop := st.(redactionRestore) = None /\ st.(responsesStoreBuffer) = None.
Definition unframed : Prop := input.(in_ClientProtocol) <> OpenAIImages /\ onResponse = None.

(** The data of the events after a successful status. *)
Fixpoint dataAfter (ok : bool) (moments : list Moment) : wire :=
  match moments with
  | [] => []
  | WindowExpires :: rest => dataAfter ok rest
  | Emits _ event :: rest =>
    match event.(se_Kind) with
    | StreamEventReady => dataAfter (inOK event.(se_StatusCode)) rest
    | StreamEventData => (if ok then event.(se_Data) else []) ++ dataAfter ok rest
    | _ => dataAfter ok rest
    end
  end.

Definition statusOK (st : FState) : bool := match st.(ready) with Some r => inOK r.(se_StatusCode) | None => false end.

(** What the steps leave alone. *)
Record untouched (st st' : FState) : Prop := {
  t_restore : st'.(redactionRestore) = st.(redactionRestore);
  t_store : st'.(responsesStoreBuffer) = st.(responsesStoreBuffer);
  t_ready : st'.(ready) = st.(ready);
}.

Lemma commit_untouched (st : FState) r payload terminal : untouched st (fst (commit st r payload terminal)).
Proof. unfold commit. destruct (commitStream _ _ _ _) as [d [e|]]; [|cbn [fst]; destruct terminal]; split; reflexivity. Qed.

Lemma commitHeld_untouched (st : FState) : untouched st (commitHeld st).
Proof.
  unfold commitHeld. destruct (ready st) as [r|] eqn:Er; [|split; congruence]. destruct (_ || _); [split; congruence|].
  destruct (flush (preread st)) as [[p held] ht]. destruct (commit_untouched (st <| preread := p |>) r held ht) as [T1 T2 T3].
  destruct (commit _ r held ht) as [st1 [e|]]; cbn [fst] in *; [destruct (downstreamErr st1)|]; split; assumption.
Qed.

Lemma deliver_untouched (st : FState) r now data terminal : untouched st (fst (deliver st r now data terminal)).
Proof.
  unfold deliver. destruct (committed st).
  - destruct (writeThrough _ _) as [d [e|]]; [|cbn [fst]; destruct terminal]; split; reflexivity.
  - destruct (firstProviderError _); [split; reflexivity|]. unfold tryHold.
    destruct (sawContent _); [|destruct (hold _ _ _ _ _ _) as [p [|]]; [split; reflexivity|]];
      (destruct (flush _) as [[p' pend] ht];
       match goal with |- untouched _ (fst (commit ?a ?b ?c ?d)) => destruct (commit_untouched a b c d) as [T1 T2 T3] end;
       split; assumption).
Qed.

(** A plain chunk is forwarded as it is, or refused. *)
Lemma plain_prepare st data : unframed -> plain st ->
  untouched st (fst (prepare st data)) /\
  ((exists terminal, snd (prepare st data) = Forwarded data terminal) \/ exists e, snd (prepare st data) = Failed e).
Proof.
  intros [Hu1 Hu2] [Hp1 Hp2]. unfold prepareData. rewrite Hp2. unfold observeData.
  destruct (Sse.push _ _ _ _) as [[b o] [[complete terminal]|[| |e]]].
  2-4: split; [split; reflexivity|right; eexists; reflexivity].
  cbn [responsesStoreBuffer]. rewrite bool_decide_eq_false_2 by exact Hu1. rewrite Hu2.
  assert (Hx : present (responsesStoreBuffer (st <| streamBuffer := b |> <| observation := o |>)) = false)
    by (cbn; unfold const; now rewrite Hp2).
  cbn zeta. rewrite Hx. cbn [orb present]. unfold restoreData.
  assert (Hr : redactionRestore (st <| streamBuffer := b |> <| observation := o |>) = None) by (cbn; unfold const; exact Hp1).
  rewrite Hr. cbn [fst snd]. split; [split; reflexivity|left; now exists terminal].
Qed.

(** After a refusal nothing more is forwarded and the error stays. *)
Lemma stopped_run moments : forall st, st.(downstreamErr) <> None ->
  pieces (st, true) moments = [] /\ (foldl stepOf (st, true) moments).1.(downstreamErr) <> None.
Proof.
  induction moments as [|m moments IH]; intros st He; [now split|]. cbn [pieces foldl].
  destruct m as [now event|]; cbn [step piece fst snd orb app].
  - exact (IH st He).
  - apply IH. destruct (windowTimer st); [now apply commitHeld_keeps_error|exact He].
Qed.

Lemma refused st moments e :
  pieces (fst (fail st e), true) moments = [] /\ (foldl stepOf (fst (fail st e), true) moments).1.(downstreamErr) <> None.
Proof. apply stopped_run. discriminate. Qed.

Lemma prefix_skip (a b : wire) : a = [] -> a `prefix_of` b.
Proof. intros ->. apply prefix_nil. Qed.

Lemma plain_pieces moments : unframed -> forall st, plain st ->
  pieces (st, false) moments `prefix_of` dataAfter (statusOK st) moments /\
  ((foldl stepOf (st, false) moments).1.(downstreamErr) = None ->
   pieces (st, false) moments = dataAfter (statusOK st) moments).
Proof.
  intros Hu. induction moments as [|m moments IH]; intros st Hp; [split; reflexivity|]. cbn [pieces foldl].
  assert (Hsame : forall st', untouched st st' -> pieces (st', false) moments `prefix_of` dataAfter (statusOK st) moments /\
            ((foldl stepOf (st', false) moments).1.(downstreamErr) = None ->
             pieces (st', false) moments = dataAfter (statusOK st) moments)).
  { intros st' [T1 T2 T3]. replace (statusOK st) with (statusOK st') by (unfold statusOK; now rewrite T3).
    apply IH. destruct Hp. split; congruence. }
  destruct m as [now event|].
  2:{ cbn [piece app dataAfter step]. apply Hsame. destruct (windowTimer st); [apply commitHeld_untouched|split; reflexivity]. }
  unfold piece. cbn [fst snd orb step dataAfter]. unfold sink.
  destruct (validateStreamEvent event) as [v|]; cbn [present orb app].
  { destruct (refused st moments (wrapping ErrUpstreamProtocol)) as [E1 E2]. unfold fail in E1, E2. cbn [fst] in E1, E2.
    cbn [fail fst]. unfold fail. rewrite E1. split; [apply prefix_nil|intros Hx; contradiction]. }
  destruct (se_Kind event) eqn:Ek.
  - rewrite bool_decide_eq_false_2 by discriminate. cbn [negb app]. unfold sinkReady. cbn zeta.
    assert (Hready : forall h, pieces (st <| ready := Some (event <| se_Header := h |>) |>, false) moments `prefix_of`
                  dataAfter (inOK (se_StatusCode event)) moments /\
               ((foldl stepOf (st <| ready := Some (event <| se_Header := h |>) |>, false) moments).1.(downstreamErr) = None ->
                pieces (st <| ready := Some (event <| se_Header := h |>) |>, false) moments =
                dataAfter (inOK (se_StatusCode event)) moments)).
    { intros h. assert (Hp' : plain (st <| ready := Some (event <| se_Header := h |>) |>)) by (destruct Hp; split; assumption).
      pose proof (IH _ Hp') as Hx. exact Hx. }
    destruct (inOK (se_StatusCode event)) eqn:Eo; [destruct (streamContentEncodingInvalid _)|].
    + destruct (refused st moments (wrapping ErrUpstreamProtocol)) as [E1 E2]. unfold fail in *. cbn [fst] in *.
      rewrite E1. split; [apply prefix_nil|intros Hx; contradiction].
    + apply Hready.
    + apply Hready.
  - rewrite bool_decide_eq_true_2 by reflexivity. cbn [negb].
    destruct (ready st) as [r|] eqn:Er.
    2:{ destruct (refused st moments (wrapping ErrUpstreamProtocol)) as [E1 E2]. unfold fail in *. cbn [fst] in *.
        cbn [app]. rewrite E1. split; [apply prefix_nil|intros Hx; contradiction]. }
    assert (Hok : statusOK st = inOK (se_StatusCode r)) by (unfold statusOK; now rewrite Er).
    unfold sinkData. rewrite Hok in *. destruct (inOK (se_StatusCode r)) eqn:Eo; cbn [negb].
    2:{ cbn [app]. apply Hsame. split; reflexivity. }
    destruct (plain_prepare st (se_Data event) Hu Hp) as [Ht Hx].
    destruct (prepare st (se_Data event)) as [st1 q]. cbn [fst snd] in *. destruct Hx as [[terminal ->]|[e ->]].
    + pose proof (deliver_untouched st1 r now (se_Data event) terminal) as Ht2.
      destruct (deliver st1 r now (se_Data event) terminal) as [st2 [e|]]; cbn [fst] in Ht2.
      * destruct (refused st2 moments e) as [E1 E2]. unfold fail in *. cbn [fst] in *. rewrite E1, app_nil_r.
        split; [now apply prefix_app_r|intros Hx; contradiction].
      * assert (Ht3 : untouched st st2) by (destruct Ht, Ht2; split; congruence).
        destruct (Hsame st2 Ht3) as [P1 P2]. split; [now apply prefix_app|intros Hx; f_equal; exact (P2 Hx)].
    + destruct (refused st1 moments e) as [E1 E2]. unfold fail in *. cbn [fst] in *. cbn [app]. rewrite E1.
      split; [apply prefix_nil|intros Hx; contradiction].
  - rewrite bool_decide_eq_false_2 by discriminate. cbn [negb app]. apply Hsame. destruct (se_Usage event); split; reflexivity.
  - rewrite bool_decide_eq_false_2 by discriminate. cbn [negb app].
    destruct (refused st moments (wrapping ErrUpstreamProtocol)) as [E1 E2]. unfold fail in *. cbn [fst] in *.
    rewrite E1. split; [apply prefix_nil|intros Hx; contradiction].
Qed.

Lemma untouched_plain st st' : untouched st st' -> plain st -> plain st'.
Proof. intros [T1 T2 _] [P1 P2]. split; congruence. Qed.

Lemma sink_plain st now event : unframed -> plain st -> plain (fst (sinkOf st now event)).
Proof.
  intros Hu Hp. unfold sink. destruct (validateStreamEvent event); [exact Hp|]. destruct (se_Kind event).
  - unfold sinkReady. cbn zeta. destruct (inOK _); [destruct (streamContentEncodingInvalid _)|]; exact Hp.
  - destruct (ready st) as [r|]; [|exact Hp]. unfold sinkData. destruct (negb _); [exact Hp|].
    destruct (plain_prepare st (se_Data event) Hu Hp) as [Ht _]. pose proof (untouched_plain _ _ Ht Hp) as Hp1.
    destruct (prepare st (se_Data event)) as [st1 [|data terminal|e]]; cbn [fst] in Hp1; try exact Hp1.
    pose proof (untouched_plain _ _ (deliver_untouched st1 r now data terminal) Hp1) as Hp2.
    destruct (deliver st1 r now data terminal) as [st2 [e|]]; exact Hp2.
  - destruct (se_Usage event); exact Hp.
  - exact Hp.
Qed.

Lemma run_plain moments : unframed -> forall run, plain run.1 -> plain (foldl stepOf run moments).1.
Proof.
  intros Hu. induction moments as [|m moments IH]; intros [st stopped] Hp; [exact Hp|]. cbn [foldl]. apply IH.
  destruct m as [now event|]; cbn [step].
  - destruct stopped; [exact Hp|]. pose proof (sink_plain st now event Hu Hp) as Hx. destruct (sinkOf st now event) as [st' [e|]]; exact Hx.
  - cbn [fst] in *. destruct (windowTimer st); [exact (untouched_plain _ _ (commitHeld_untouched st) Hp)|exact Hp].
Qed.

Lemma plain_tail st terminal : st.(redactionRestore) = None -> tailOf st terminal = [].
Proof.
  intros Hr. unfold tailOf. destruct (_ || _); [reflexivity|]. cbn zeta. destruct (present _); [reflexivity|].
  assert (E : redactionRestore (finishBuffers st) = None); [|now rewrite E].
  unfold finishBuffers. destruct (responsesStoreBuffer st) as [b|]; [destruct (rewriteFinish b) as [b' [u|e]]|];
    try (destruct (Sse.finish _) as [b2 [u2|e2]]); exact Hr.
Qed.

(** ** The theorems *)

Local Abbreviation init window w restore := (initialState input selected usageOps window w restore d0).
Local Abbreviation forwards ctx window w restore moments now terminal :=
  (ForwardStream input selected usageOps restoreOps onResponse credentialRemains summarize sanitize prepareBufferedResult
     ctx window w restore d0 moments now terminal).

(** [C7] Until a stream is committed the client has received nothing: neither a header nor
    a byte, whatever the executor emitted, however the writes would have gone and whenever
    the timer fired.  A response that counts as empty was not committed, and a timer that
    fires late does nothing. *)
Theorem uncommitted_streams_are_silent ctx window w restore moments now terminal :
  let '(st, r) := forwards ctx window w restore moments now terminal in
  (r.(core).(Committed) = false -> st.(client) = d0) /\
  (r.(core).(EmptyResponseBeforeCommit) = true -> r.(core).(Committed) = false) /\
  commitHeld st = st.
Proof.
  unfold ForwardStream, runStream.
  destruct (initial_inv window w restore) as [Hi Hn].
  destruct (run_inv moments (init window w restore, false) [] Hi Hn) as [Hi1 Hn1].
  pose proof (finish_spec ctx _ _ now terminal Hi1 Hn1) as Hx. cbn zeta in Hx.
  destruct (finishStream _ _ _ _ _ _ _ _ _) as [st r].
  destruct Hx as (st3 & Hi3 & Hn3 & Hid & Hc & Hcl & He & _ & _ & Hrc & _ & _ & Hem).
  split; [|split].
  - intros Hu. rewrite Hcl. apply (i_unsent _ _ Hi3). congruence.
  - intros Hem'. destruct (Hem Hem') as [Hx _]. congruence.
  - exact (idle_commitHeld st Hid).
Qed.

(** The text handed to the client's side over a whole attempt. *)
Definition forwardedText window w restore moments terminal : wire :=
  let st := (foldl stepOf (init window w restore, false) moments).1 <| windowTimer := false |> in
  pieces (init window w restore, false) moments ++ tailOf st (checkedTerminal st terminal).

(** [C6] Streams are delivered exactly.  Unless bytes are held back in front of a provider
    error, what a committed stream delivered is a prefix of the forwarded text, all of it
    when the attempt reports no error; a response found empty keeps all of it for a later
    delivery.  Without restoration, rewriting and framing the forwarded text is the data
    the executor emitted after a successful status, up to the event that was refused. *)
Theorem stream_bytes_exact ctx window w restore moments now terminal : steady d0 ->
  let sent := forwardedText window w restore moments terminal in
  let '(st, r) := forwards ctx window w restore moments now terminal in
  (in_EmptyResponseRetry input = false \/ startsWithError st = false ->
     (r.(core).(Committed) = true -> st.(client).(delivered) `prefix_of` sent /\
        (r.(core).(u_Err) = None -> st.(client).(delivered) = sent)) /\
     (r.(core).(EmptyResponseBeforeCommit) = true -> r.(core).(Body) = text sent)) /\
  (unframed -> restore = None -> in_ResponsesStoreDowngraded input = false ->
     sent `prefix_of` dataAfter false moments /\
     (r.(core).(Committed) = true -> r.(core).(u_Err) = None -> sent = dataAfter false moments)).
Proof.
  intros Hst. cbn zeta. unfold ForwardStream, runStream.
  destruct (initial_inv window w restore) as [Hi Hn].
  destruct (run_inv moments (init window w restore, false) [] Hi Hn) as [Hi1 Hn1].
  pose proof (finish_spec ctx _ _ now terminal Hi1 Hn1) as Hx. cbn zeta in Hx.
  destruct (finishStream _ _ _ _ _ _ _ _ _) as [st r].
  destruct Hx as (st3 & Hi3 & Hn3 & _ & Hc & Hcl & He & Hev & Hen & Hrc & Hu & Hkeep & Hem).
  change (Inv st3 (forwardedText window w restore moments terminal)) in Hi3.
  assert (Hse : startsWithError st = startsWithError st3) by (unfold startsWithError; now rewrite Hev).
  split.
  - intros Hacc. assert (Ha : accountable st3).
    { split; [exact Hst|]. destruct Hacc as [Hacc|Hacc]; [left; exact (proj1 (i_off _ _ Hi3) Hacc)|right; congruence]. }
    pose proof (i_text _ _ Hi3 Ha) as Ht. split.
    + intros Hcm. assert (Hc3 : committed st3 = true) by congruence. rewrite Hc3 in Ht. destruct Ht as [Hp Hd]. rewrite Hcl.
      split; [exact Hp|]. intros Hue. apply Hd. intros Hb. apply (Hn3 Hb). rewrite <- He. apply Hu; [congruence|exact Hue].
    + intros Hempty. destruct (Hem Hempty) as (Hc3 & Hs3 & Hbody). rewrite Hc3 in Ht. rewrite Hbody, (Ht Hs3). reflexivity.
  - intros Huf -> Hdg. assert (Hp0 : plain (init window w None)).
    { unfold initialState. rewrite Hdg. destruct (if in_EmptyResponseRetry input then _ else _). now split. }
    pose proof (run_plain moments Huf (init window w None, false) Hp0) as Hpr.
    destruct (plain_pieces moments Huf (init window w None) Hp0) as [P1 P2].
    assert (Hok : statusOK (init window w None) = false)
      by (unfold initialState; destruct (if in_EmptyResponseRetry input then _ else _); reflexivity).
    rewrite Hok in P1, P2. unfold forwardedText. cbn zeta. rewrite plain_tail by exact (proj1 Hpr). rewrite app_nil_r.
    split; [exact P1|]. intros Hcm Hue. apply P2.
    destruct (downstreamErr (foldl stepOf (init window w None, false) moments).1) eqn:Ed; [|exact Ed].
    exfalso. apply Hkeep; [discriminate|]. apply Hu; [congruence|exact Hue].
Qed.

End Forwarding.

(** ** Samples *)

#[local] Instance sampleEnvelope : EnvelopeDecoder := fun payload => if contains (bytes "oops") payload then Some (bytes "error", []) else None.
#[local] Instance sampleObjects : JSONObjects := {| decodeObject := fun _ => None; encodeObject := fun _ => None |}.
#[local] Instance sampleFolding : UnicodeFold := fun _ _ => false.
#[local] Instance sampleMediaTypes : MediaTypes := fun value => Some value.
#[local] Instance sampleErrors : ErrorDecoder :=
  {| decodeErrorEnvelope := fun _ => None; decodeText := fun _ => None; decodeNumber := fun _ => None |}.

Definition sampleDialect : Dialect :=
  mkDialect (Some (fun e => Some (if same_text e.(Payload) "end" then StreamEventCompleted else StreamEventContinue))) false
    (Some (fun e => Some (same_text e.(Payload) "hi", false))).

Definition sampleUsage : UsageOps unit := mkUsageOps None (fun u _ => (u, Observed)) (fun _ => None).
Definition sampleRestore : RestoreOps unit := mkRestoreOps (fun r w => (r, Some w)) (fun _ => false) (fun r => (r, Some [])).
Definition sampleClient : Downstream := mkDownstream [] None [] 0 (fun _ => Works).

Definition streamInput (retry : bool) : ForwardInput :=
  mkInput true (mkRules [] []) (mkTimeouts 0 0 0) "sk-1" [] None [] "m" "m" "req" "att" 1 OpenAICompletions
    OperationChatCompletion RouteRequirementAny ResponsesStorePreferenceNone false "openai" RouteNative []
    (mkCredentialSnapshot 1 1 1 (bytes "sk-1")) false "" retry.

Definition readyEvent : Contracts.StreamEvent :=
  Contracts.mkStreamEvent 1 StreamEventReady 200 (Some [("Content-Type", ["text/event-stream"])]%string) "" [] None.
Definition dataEvent (n : Z) (data : wire) : Contracts.StreamEvent := Contracts.mkStreamEvent n StreamEventData 0 None "" data None.
Definition line (l : string) : wire := bytes l ++ [LF; LF].

Definition cleanEnd : StreamResult :=
  mkStreamResult DispatchMaybeSent true None None 200 [("Content-Type", ["text/event-stream"])]%string "" "" None None.

Local Notation sampleForward retry moments :=
  (ForwardStream (streamInput retry) sampleDialect sampleUsage sampleRestore None (fun _ => false) (fun _ => "bad"%string)
     (fun s => s) (fun r => r) Running 0 tt None sampleClient moments 5 cleanEnd).

Definition errorAfterComment : list Moment :=
  [Emits 1 readyEvent; Emits 2 (dataEvent 2 (line ": ping")); Emits 3 (dataEvent 3 (line "data: oops"))].

(** A comment line in front of a stream that starts with a provider error.  Without the
    detection of empty responses the client receives both.  With it the comment is held
    back, the error is set aside for a retry, and then the comment alone is committed: the
    error reaches neither the client nor the retry. *)
Lemma held_bytes_defeat_the_error :
  delivered (client (fst (sampleForward false errorAfterComment))) = line ": ping" ++ line "data: oops" /\
  delivered (client (fst (sampleForward true errorAfterComment))) = line ": ping" /\
  Committed (core (snd (sampleForward true errorAfterComment))) = true.
Proof. vm_compute. auto. Qed.

Definition helloMoments : list Moment :=
  [Emits 1 readyEvent; Emits 2 (dataEvent 2 (line ": ping")); WindowExpires; Emits 3 (dataEvent 3 (line "data: hi"))].
Definition emptyMoments : list Moment := [Emits 1 readyEvent; Emits 2 (dataEvent 2 (line "data: end"))].

Lemma sampleClient_fresh : calls sampleClient = 0%nat /\ delivered sampleClient = [].
Proof. split; reflexivity. Qed.

Lemma identity_keeps (r : ForwardResult) : r.(core).(Committed) = false -> r.(core).(EmptyResponseBeforeCommit) = false ->
  r.(core).(Committed) = false /\ r.(core).(EmptyResponseBeforeCommit) = false.
Proof. auto. Qed.

Lemma uncommitted_streams_are_silent_witness :
  Committed (core (snd (sampleForward true emptyMoments))) = false /\ client (fst (sampleForward true emptyMoments)) = sampleClient.
Proof.
  pose proof (uncommitted_streams_are_silent (streamInput true) sampleDialect sampleUsage sampleRestore None (fun _ => false)
                (fun _ => "bad"%string) (fun s => s) (fun r => r) sampleClient sampleClient_fresh identity_keeps
                Running 0 tt None emptyMoments 5 cleanEnd) as Hx.
  assert (Hc : Committed (core (snd (sampleForward true emptyMoments))) = false) by (vm_compute; reflexivity).
  destruct (sampleForward _ _) as [st r]. cbn [fst snd] in *.
  destruct Hx as [Hx _]. split; [exact Hc|exact (Hx Hc)].
Defined.

Lemma sampleClient_steady : steady sampleClient.
Proof. intros i j n c _ Hx. discriminate Hx. Qed.

Lemma stream_bytes_exact_witness :
  delivered (client (fst (sampleForward true helloMoments))) = line ": ping" ++ line "data: hi".
Proof.
  pose proof (stream_bytes_exact (streamInput true) sampleDialect sampleUsage sampleRestore None (fun _ => false)
                (fun _ => "bad"%string) (fun s => s) (fun r => r) sampleClient sampleClient_fresh identity_keeps
                Running 0 tt None helloMoments 5 cleanEnd sampleClient_steady) as Hx. cbn zeta in Hx.
  assert (Hc : Committed (core (snd (sampleForward true helloMoments))) = true) by (vm_compute; reflexivity).
  assert (Hu : u_Err (core (snd (sampleForward true helloMoments))) = None) by (vm_compute; reflexivity).
  assert (Hs : startsWithError (fst (sampleForward true helloMoments)) = false) by (vm_compute; reflexivity).
  destruct (sampleForward _ _) as [st r]. cbn [fst snd] in *.
  destruct Hx as [Hx Hy]. destruct (Hx (or_intror Hs)) as [Hd _]. destruct (Hd Hc) as [_ He]. rewrite (He Hu).
  assert (Hun : unframed (streamInput true) (@None (unit -> wire -> unit * option GoError))) by (split; [discriminate|reflexivity]).
  destruct (Hy Hun eq_refl eq_refl) as [_ Hz]. rewrite (Hz Hc Hu). vm_compute. reflexivity.
Defined.

End StreamProps.
