(* ===== verification/Settings.v ===== *)
(** * Runtime settings

    [internal/state/runtime_settings.go] and [cors.go]: the settings an administrator edits
    as JSON, their parsers, and the typed settings the gateway and every group run with.

    A value of type [any] is [AnyValue], with the dynamic types the parsers distinguish; a
    map is a list of entries with distinct keys, in the order one iteration visits them.
    [url.Parse], [net.ParseIP], the IDNA mapping and [strings.ToLower] are arguments (class
    [UrlParsers]), and so is the compiler of parameter overrides. *)

From Stdlib Require Import ZArith Lia Bool String Ascii List.
From stdpp Require Import base gmap sets list strings.
From coqutil Require Import Datatypes.RecordSettersUsingExistingGetters.
From S2P Require Import Prelude GoStrings Money Execution Contracts Headers.

Local Open Scope Z_scope.
Local Open Scope go_scope.

Module Settings.
Import Execution Contracts Headers.

(** ** Values of type [any] *)

(** A [float64]: a NaN or an infinity, or [mantissa * 2^exponent]. *)
Inductive Float64 := FloatSpecial | FloatFinite (mantissa exponent : Z).

Inductive AnyValue :=
| ANull
| ABool (b : bool)
| AString (s : string)
| AInt (n : Z)
| AInt64 (n : Z)
| AFloat (f : Float64)
| ANumber (literal : string)
| AArray (l : list AnyValue)
| AObject (entries : list (string * AnyValue)).

Inductive SettingError :=
| Invalid (path : string)
| InvalidAt (path : string) (index : nat)
| DuplicateIn (path : string)
| UnknownKey (key : string)
| RateWithUSD
| RateRequired.

Abbreviation parsed := (result SettingError).

(** ** Numbers *)

(** [m * base^e] when it is whole. *)
Definition scaled (base m e : Z) : option Z :=
  if 0 <=? e then Some (m * base ^ e)
  else if m mod base ^ (- e) =? 0 then Some (m / base ^ (- e)) else None.

Definition float_whole (f : Float64) : option Z :=
  match f with FloatSpecial => None | FloatFinite m e => scaled 2 m e end.

Fixpoint take_digits (l : list ascii) : list ascii * list ascii :=
  match l with
  | c :: rest => if is_digit c then let '(ds, r) := take_digits rest in (c :: ds, r) else ([], l)
  | [] => ([], [])
  end.

(** The part after a radix point, if there is one. *)
Definition number_fraction (l : list ascii) : option (list ascii * list ascii) :=
  match l with
  | "."%char :: rest => match take_digits rest with ([], _) => None | (ds, r) => Some (ds, r) end
  | _ => Some ([], l)
  end.

(** The exponent at the end, an [int64]. *)
Definition number_exponent (l : list ascii) : option Z :=
  match l with
  | [] => Some 0
  | c :: rest =>
    if Ascii.eqb c "e" || Ascii.eqb c "E" then
      match rest with
      | "-"%char :: ds => parse_int64 rest
      | "+"%char :: ds => match ds with "-"%char :: _ | "+"%char :: _ => None | _ => parse_int64 ds end
      | _ => parse_int64 rest
      end
    else None
  end.

(** A JSON number as mantissa and decimal exponent. *)
Definition json_number (l : list ascii) : option (Z * Z) :=
  let '(negative, l) := match l with "-"%char :: r => (true, r) | _ => (false, l) end in
  let '(whole, l) := take_digits l in
  match whole with
  | [] => None
  | "0"%char :: _ :: _ => None
  | _ =>
    match number_fraction l with
    | None => None
    | Some (fraction, l) =>
      match number_exponent l with
      | None => None
      | Some e =>
        let m := digits_value (whole ++ fraction) in
        Some (if negative : bool then - m else m, e - Z.of_nat (length fraction))
      end
    end
  end.

(** [big.Rat.SetString] of a valid JSON number, when the value is whole; exponents beyond
    a million are refused, except for zero. *)
Definition number_whole (literal : string) : option Z :=
  match json_number (bytes literal) with
  | None => None
  | Some (m, e) => if m =? 0 then Some 0 else if 1000000 <? Z.abs e then None else scaled 10 m e
  end.

Definition maxJSONSafeInteger : Z := 9007199254740991.

Definition nonNegativeWholeNumber (path : string) (value : AnyValue) : parsed Z :=
  match match value with
        | AInt n | AInt64 n => Some n
        | AFloat f => float_whole f
        | ANumber literal => number_whole literal
        | _ => None
        end with
  | None => Err (Invalid path)
  | Some n => if (n <? 0) || (maxJSONSafeInteger <? n) then Err (Invalid path) else Ok n
  end.

Definition wholeNumberInRange (path : string) (value : AnyValue) (minimum maximum : Z) : parsed Z :=
  match match value with
        | AInt n | AInt64 n => Some n
        | AFloat f =>
          match float_whole f with
          | Some n => if (n <? minimum) || (maximum <? n) then None else Some n
          | None => None
          end
        | ANumber literal =>
          match number_whole literal with Some n => if is_int64 n then Some n else None | None => None end
        | _ => None
        end with
  | None => Err (Invalid path)
  | Some n => if (n <? minimum) || (maximum <? n) then Err (Invalid path) else Ok n
  end.

Definition maxTimeoutSeconds : Z := 9223372036.

(** The conversion of a negative [float64] below the range of [int64] gives the least one. *)
Definition positiveWholeSeconds (path : string) (value : AnyValue) : parsed Z :=
  match match value with
        | AInt n | AInt64 n => Some n
        | AFloat f =>
          match float_whole f with
          | Some n => if maxTimeoutSeconds <? n then None else Some (Z.max min_int64 n)
          | None => None
          end
        | ANumber literal =>
          match number_whole literal with Some n => if is_int64 n then Some n else None | None => None end
        | _ => None
        end with
  | None => Err (Invalid path)
  | Some n => if (n <=? 0) || (maxTimeoutSeconds <? n) then Err (Invalid path) else Ok n
  end.

Definition strictBoolean (path : string) (value : AnyValue) : parsed bool :=
  match value with ABool b => Ok b | _ => Err (Invalid path) end.

(** ** Header rules *)

Definition validHTTPHeaderName (name : string) : bool :=
  match bytes name with [] => false | l => forallb token_byte l end.

Definition validHTTPHeaderValue (value : string) : bool :=
  forallb (fun c => negb (((byte_val c <? 32) && negb (byte_val c =? 9)) || (byte_val c =? 127))) (bytes value).

Definition lowered (name : string) : list ascii := to_lower (bytes name).

Definition seenName (seen : list (list ascii)) (name : string) : bool := bool_decide (lowered name ∈ seen).

Fixpoint parseSet (path : string) (forbidden : string -> bool) (seen : list (list ascii))
    (entries : list (string * AnyValue)) : parsed (list (list ascii) * list (string * string)) :=
  match entries with
  | [] => Ok (seen, [])
  | (name, rawValue) :: rest =>
    if negb (validHTTPHeaderName name) then Err (Invalid path)
    else if forbidden (canonicalName name) then Err (Invalid path)
    else if seenName seen name then Err (DuplicateIn path)
    else
      match rawValue with
      | AString text =>
        if validHTTPHeaderValue text then
          let? (seen, parsedRest) := parseSet path forbidden (lowered name :: seen) rest in
          Ok (seen, (canonicalName name, text) :: parsedRest)
        else Err (Invalid path)
      | _ => Err (Invalid path)
      end
  end.

Fixpoint parseRemove (path : string) (forbidden : string -> bool) (seen : list (list ascii)) (index : nat)
    (values : list AnyValue) : parsed (list string) :=
  match values with
  | [] => Ok []
  | AString name :: rest =>
    if negb (validHTTPHeaderName name) then Err (InvalidAt path index)
    else if forbidden (canonicalName name) then Err (Invalid path)
    else if seenName seen name then Err (DuplicateIn path)
    else
      let? parsedRest := parseRemove path forbidden (lowered name :: seen) (S index) rest in
      Ok (canonicalName name :: parsedRest)
  | _ :: _ => Err (InvalidAt path index)
  end.

Definition entry (key : string) (entries : list (string * AnyValue)) : option AnyValue :=
  snd <$> find (fun e => String.eqb e.1 key) entries.

Definition unknownEntry (known : list string) (entries : list (string * AnyValue)) : option string :=
  fst <$> find (fun e => negb (existsb (String.eqb e.1) known)) entries.

Definition parseHeaderRulesWithPolicy (value : AnyValue) (settingName : string) (forbidden : string -> bool)
    : parsed HeaderRules :=
  match value with
  | AObject object =>
    match unknownEntry ["set"; "remove"]%string object with
    | Some key => Err (UnknownKey key)
    | None =>
      let? (seen, set) :=
        match entry "set" object with
        | None => Ok ([], [])
        | Some (AObject set) => parseSet settingName forbidden [] set
        | Some _ => Err (Invalid settingName)
        end in
      let? remove :=
        match entry "remove" object with
        | None => Ok []
        | Some (AArray remove) => parseRemove settingName forbidden seen 0 remove
        | Some _ => Err (Invalid settingName)
        end in
      Ok (mkRules set remove)
    end
  | _ => Err (Invalid settingName)
  end.

Definition forbiddenRequestName (name : string) : bool := IsForbiddenRequestRuleName name || IsCredentialName name.

Definition parseHeaderRules (value : AnyValue) : parsed HeaderRules :=
  parseHeaderRulesWithPolicy value "header_rules" forbiddenRequestName.

Definition parseResponseHeaderRules (value : AnyValue) : parsed HeaderRules :=
  parseHeaderRulesWithPolicy value "response_header_rules" IsForbiddenResponseRuleName.

(** ** Simple texts *)

Inductive RouteStrategy := RouteStrategyNativeFirst | RouteStrategyWeightedMix.

Definition parseRouteStrategy (value : AnyValue) : parsed RouteStrategy :=
  match value with
  | AString "native_first" => Ok RouteStrategyNativeFirst
  | AString "weighted_mix" => Ok RouteStrategyWeightedMix
  | _ => Err (Invalid "route_strategy")
  end.

Definition alphanumeric (c : ascii) : bool := between 48 57 c || between 65 90 c || between 97 122 c.

(** [^[A-Za-z0-9][A-Za-z0-9_-]{0,63}$] *)
Definition gatewayNamePattern (l : list ascii) : bool :=
  match l with
  | [] => false
  | c :: rest =>
    alphanumeric c && (Nat.leb (length rest) 63) &&
    forallb (fun c => alphanumeric c || Ascii.eqb c "_" || Ascii.eqb c "-") rest
  end.

Definition parseGatewayName (value : AnyValue) : parsed string :=
  match value with
  | AString name => if gatewayNamePattern (bytes name) then Ok name else Err (Invalid "gateway_name")
  | _ => Err (Invalid "gateway_name")
  end.

Definition parseCurrencySetting (value : AnyValue) : parsed string :=
  match value with
  | AString name => match Money.ParseCurrencyCode name with Ok code => Ok code | Err _ => Err (Invalid "currency") end
  | _ => Err (Invalid "currency")
  end.

Definition parseExchangeRateSetting (value : AnyValue) : parsed Z :=
  match value with
  | AString text => match Money.ParseExchangeRate text with Ok rate => Ok rate | Err _ => Err (Invalid "exchange_rate") end
  | _ => Err (Invalid "exchange_rate")
  end.

(** ** Cross-origin access *)

Record URL := mkURL {
  Scheme : string;
  Host : string;
  User : option (string * option string);  (* user name, password *)
  Path : string;
  RawPath : string;
  RawQuery : string;
  ForceQuery : bool;
  Fragment : string;
  RawFragment : string;
  Opaque : string;
}.

(** [url.Parse] and [URL.String], [net.ParseIP], the IDNA mapping and [strings.ToLower]. *)
Class UrlParsers := {
  urlParse : string -> option URL;
  urlString : URL -> string;
  parseIP : string -> option string;
  idnaToASCII : string -> option string;
  lowerText : string -> string;
}.

(** The text before and after the last colon. *)
Fixpoint last_colon (before : list ascii) (l : list ascii) : option (list ascii * list ascii) :=
  match l with
  | [] => None
  | c :: rest =>
    match last_colon (before ++ [c]) rest with
    | Some found => Some found
    | None => if Ascii.eqb c ":" then Some (before, rest) else None
    end
  end.

(** [URL.Hostname] and [URL.Port]: a port is the digits after the last colon, and brackets
    around the rest are removed. *)
Definition splitHostPort (hostPort : string) : string * string :=
  let '(host, port) :=
    match last_colon [] (bytes hostPort) with
    | Some (host, port) => if all_digits port then (host, port) else (bytes hostPort, [])
    | None => (bytes hostPort, [])
    end in
  let host :=
    match host with
    | "["%char :: rest =>
      match rev rest with "]"%char :: inner => rev inner | _ => host end
    | _ => host
    end in
  (text host, text port).

Definition Hostname (u : URL) : string := fst (splitHostPort u.(Host)).
Definition Port (u : URL) : string := snd (splitHostPort u.(Host)).

Record CORSConfig := mkCORS {
  Enabled : bool;
  AllowedOrigins : list string;
  AllowedMethods : list string;
  AllowedHeaders : list string;
  ExposedHeaders : list string;
  AllowCredentials : bool;
  MaxAgeSeconds : Z;
}.

Definition defaultCORSMethods : list string := ["GET"; "POST"; "PUT"; "PATCH"; "DELETE"; "HEAD"; "OPTIONS"]%string.

Definition defaultCORSConfig : CORSConfig := mkCORS false [] defaultCORSMethods ["*"%string] [] false 600.

Definition containsExact (values : list string) (target : string) : bool := existsb (String.eqb target) values.

(** [strings.ToUpper], as far as the result is ASCII: besides the ASCII letters two runes
    have an ASCII capital, the dotless i and the long s. *)
Fixpoint to_upper (l : list ascii) : list ascii :=
  match l with
  | a :: ((b :: rest) as tl) =>
    if Ascii.eqb a (byte_of 196) && Ascii.eqb b (byte_of 177) then "I"%char :: to_upper rest
    else if Ascii.eqb a (byte_of 197) && Ascii.eqb b (byte_of 191) then "S"%char :: to_upper rest
    else upper_byte a :: to_upper tl
  | [a] => [upper_byte a]
  | [] => []
  end.

Definition trimmedText (s : string) : string := text (trim_space (bytes s)).

(** The elements of an array of texts, each normalised, with distinct identities. *)
Fixpoint parseNames (path : string) (normalize : string -> option (string * list ascii)) (seen : list (list ascii)) (index : nat)
    (values : list AnyValue) : parsed (list string) :=
  match values with
  | [] => Ok []
  | AString raw :: rest =>
    match normalize raw with
    | None => Err (InvalidAt path index)
    | Some (name, identity) =>
      if bool_decide (identity ∈ seen) then Err (DuplicateIn path)
      else let? parsedRest := parseNames path normalize (identity :: seen) (S index) rest in Ok (name :: parsedRest)
    end
  | _ :: _ => Err (InvalidAt path index)
  end.

Definition arrayOf (path : string) (value : AnyValue) : parsed (list AnyValue) :=
  match value with AArray l => Ok l | _ => Err (Invalid path) end.

(** A wildcard stands alone. *)
Definition soleWildcard (path : string) (names : list string) : parsed (list string) :=
  if Nat.ltb 1 (length names) && containsExact names "*" then Err (Invalid path) else Ok names.

Definition methodName (raw : string) : option (string * list ascii) :=
  let method := text (to_upper (trim_space (bytes raw))) in
  if String.eqb method "*" || negb (validHTTPHeaderName method) then None else Some (method, bytes method).

Definition parseCORSMethods (value : AnyValue) : parsed (list string) :=
  let? values := arrayOf "cors.allowed_methods" value in
  parseNames "cors.allowed_methods" methodName [] 0 values.

Definition corsHeaderName (raw : string) : option (string * list ascii) :=
  let name := trimmedText raw in
  if negb (String.eqb name "*") && negb (validHTTPHeaderName name) then None
  else Some (if String.eqb name "*" then name else canonicalName name, lowered name).

Definition parseCORSHeaderNames (path : string) (value : AnyValue) : parsed (list string) :=
  let? values := arrayOf path value in
  let? names := parseNames path corsHeaderName [] 0 values in
  soleWildcard path names.

Section Urls.
Context `{UrlParsers}.

(** [net.JoinHostPort]. *)
Definition JoinHostPort (host port : string) : string :=
  if existsb (fun c => Ascii.eqb c ":" || Ascii.eqb c "%") (bytes host) then ("[" ++ host ++ "]:" ++ port)%string
  else (host ++ ":" ++ port)%string.

(** [strconv.ParseUint(port, 10, 16)] printed again; an empty port stays empty. *)
Definition canonicalPort (port : string) : option string :=
  if emptyText port then Some ""%string
  else match parse_uint64 (bytes port) with
       | Some n => if n <=? 65535 then Some (text (format_int n)) else None
       | None => None
       end.

Definition originHost (hostname : string) : option string :=
  match parseIP hostname with
  | Some ip => Some ip
  | None => match idnaToASCII hostname with Some host => Some (text (to_lower (bytes host))) | None => None end
  end.

Definition canonicalCORSOrigin (origin : string) : option string :=
  if String.eqb origin "*" || String.eqb origin "null" then Some origin
  else if emptyText origin || existsb (fun c => existsb (Ascii.eqb c) (map byte_of [32; 9; 13; 10; 44]%nat)) (bytes origin) ||
          negb (validHTTPHeaderValue origin) then None
  else
    match urlParse origin with
    | None => None
    | Some u =>
      if emptyText u.(Scheme) || emptyText u.(Host) || present u.(User) || negb (emptyText u.(Path)) || negb (emptyText u.(RawQuery)) ||
         negb (emptyText u.(Fragment)) || negb (emptyText u.(Opaque)) || emptyText (Hostname u) then None
      else
        match originHost (Hostname u), canonicalPort (Port u) with
        | Some host, Some port =>
          let scheme := text (to_lower (bytes u.(Scheme))) in
          let port := if (String.eqb scheme "http" && String.eqb port "80") || (String.eqb scheme "https" && String.eqb port "443")
                      then ""%string else port in
          let host :=
            if negb (emptyText port) then JoinHostPort host port
            else if existsb (Ascii.eqb ":") (bytes host) then ("[" ++ host ++ "]")%string else host in
          Some (scheme ++ "://" ++ host)%string
        | _, _ => None
        end
    end.

Definition originName (raw : string) : option (string * list ascii) :=
  match canonicalCORSOrigin (trimmedText raw) with Some origin => Some (origin, bytes origin) | None => None end.

Definition parseCORSOrigins (value : AnyValue) : parsed (list string) :=
  let? values := arrayOf "cors.allowed_origins" value in
  let? origins := parseNames "cors.allowed_origins" originName [] 0 values in
  soleWildcard "cors.allowed_origins" origins.

Definition corsKeys : list string :=
  ["enabled"; "allowed_origins"; "allowed_methods"; "allowed_headers"; "exposed_headers"; "allow_credentials"; "max_age"]%string.

(** An optional entry: its parsed value, or the default. *)
Definition parseEntry {A} (entries : list (string * AnyValue)) (key : string) (parse : AnyValue -> parsed A) (otherwise : A) : parsed A :=
  match entry key entries with None => Ok otherwise | Some raw => parse raw end.

(** The combinations an enabled policy, or one with credentials, must not have. *)
Definition corsConflict (c : CORSConfig) : option SettingError :=
  err_if (c.(Enabled) && isEmpty c.(AllowedOrigins)) (Invalid "cors.allowed_origins") ;;!
  err_if (c.(Enabled) && isEmpty c.(AllowedMethods)) (Invalid "cors.allowed_methods") ;;!
  err_if (c.(Enabled) && isEmpty c.(AllowedHeaders)) (Invalid "cors.allowed_headers") ;;!
  err_if (c.(AllowCredentials) && containsExact c.(AllowedOrigins) "*") (Invalid "cors.allow_credentials") ;;!
  err_if (c.(AllowCredentials) && containsExact c.(ExposedHeaders) "*") (Invalid "cors.allow_credentials").

Definition parseCORSConfig (value : AnyValue) : parsed CORSConfig :=
  match value with
  | AObject object =>
    match unknownEntry corsKeys object with
    | Some key => Err (UnknownKey key)
    | None =>
      let base := defaultCORSConfig in
      let? enabled := parseEntry object "enabled" (strictBoolean "cors.enabled") base.(Enabled) in
      let? origins := parseEntry object "allowed_origins" parseCORSOrigins base.(AllowedOrigins) in
      let? methods := parseEntry object "allowed_methods" parseCORSMethods base.(AllowedMethods) in
      let? headers := parseEntry object "allowed_headers" (parseCORSHeaderNames "cors.allowed_headers") base.(AllowedHeaders) in
      let? exposed := parseEntry object "exposed_headers" (parseCORSHeaderNames "cors.exposed_headers") base.(ExposedHeaders) in
      let? credentials := parseEntry object "allow_credentials" (strictBoolean "cors.allow_credentials") base.(AllowCredentials) in
      let? maxAge := parseEntry object "max_age" (nonNegativeWholeNumber "cors.max_age") base.(MaxAgeSeconds) in
      let c := mkCORS enabled origins methods headers exposed credentials maxAge in
      match corsConflict c with Some e => Err e | None => Ok c end
    end
  | _ => Err (Invalid "cors")
  end.

(** [strings.TrimRight(s, "/")]. *)
Fixpoint drop_slashes (l : list ascii) : list ascii :=
  match l with "/"%char :: rest => drop_slashes rest | _ => l end.
Definition trimSlashes (s : string) : string := text (rev (drop_slashes (rev (bytes s)))).

Definition NormalizeBaseURL (value : string) : option string :=
  let value := trimmedText value in
  if emptyText value then None
  else
    match urlParse value with
    | None => None
    | Some u =>
      if negb (emptyText u.(Opaque)) || present u.(User) || emptyText u.(Host) || negb (emptyText u.(Fragment)) then None
      else
        let u := u <| Scheme := text (to_lower (bytes u.(Scheme))) |> in
        if negb (String.eqb u.(Scheme) "http") && negb (String.eqb u.(Scheme) "https") then None
        else if negb (emptyText u.(RawQuery)) || u.(ForceQuery) then None
        else
          let u := u <| Host := lowerText u.(Host) |> in
          let u :=
            if (String.eqb u.(Scheme) "https" && String.eqb (Port u) "443") ||
               (String.eqb u.(Scheme) "http" && String.eqb (Port u) "80")
            then u <| Host := if existsb (Ascii.eqb ":") (bytes (Hostname u)) then ("[" ++ Hostname u ++ "]")%string else Hostname u |>
            else u in
          Some (urlString (u <| Path := trimSlashes u.(Path) |> <| RawPath := trimSlashes u.(RawPath) |> <| ForceQuery := false |>))
    end.

Definition parsePublicBaseURL (value : AnyValue) : parsed string :=
  match value with
  | AString text => match NormalizeBaseURL text with Some url => Ok url | None => Err (Invalid "public_base_url") end
  | _ => Err (Invalid "public_base_url")
  end.

(** ** The settings of the process *)

(** The keys of settings, by their constants. *)
Inductive SettingKey :=
| SettingGlobalConcurrencyLimit | SettingDefaultAccessKeyConcurrencyLimit | SettingDefaultGroupConcurrencyLimit
| SettingConcurrencyLimit | SettingFirstByteTimeout | SettingRequestTimeout | SettingStreamIdleTimeout | SettingHeaderRules
| SettingCORS | SettingResponseHeaderRules | SettingRetryCount | SettingRouteStrategy | SettingBlacklistThreshold
| SettingAffinityEnabled | SettingResponsesWebsocketEnabled | SettingEmptyResponseRetry | SettingAffinityTTL
| SettingAffinityCapacity | SettingValidationInterval | SettingRequestLogRetentionDays | SettingModelsDevAutoSyncEnabled
| SettingParameterOverrides | SettingPublicBaseURL | SettingGatewayName | SettingCurrency | SettingExchangeRate
| SettingOther (raw : string).

#[export] Instance SettingKey_eq_dec : EqDecision SettingKey.
Proof. solve_decision. Defined.

Definition keyText (k : SettingKey) : string :=
  match k with
  | SettingGlobalConcurrencyLimit => "global_concurrency_limit"
  | SettingDefaultAccessKeyConcurrencyLimit => "default_access_key_concurrency_limit"
  | SettingDefaultGroupConcurrencyLimit => "default_group_concurrency_limit"
  | SettingConcurrencyLimit => "concurrency_limit"
  | SettingFirstByteTimeout => "first_byte_timeout"
  | SettingRequestTimeout => "request_timeout"
  | SettingStreamIdleTimeout => "stream_idle_timeout"
  | SettingHeaderRules => "header_rules"
  | SettingCORS => "cors"
  | SettingResponseHeaderRules => "response_header_rules"
  | SettingRetryCount => "retry_count"
  | SettingRouteStrategy => "route_strategy"
  | SettingBlacklistThreshold => "blacklist_threshold"
  | SettingAffinityEnabled => "affinity_enabled"
  | SettingResponsesWebsocketEnabled => "responses_websocket_enabled"
  | SettingEmptyResponseRetry => "empty_response_retry"
  | SettingAffinityTTL => "affinity_ttl"
  | SettingAffinityCapacity => "affinity_capacity"
  | SettingValidationInterval => "validation_interval"
  | SettingRequestLogRetentionDays => "request_log_retention_days"
  | SettingModelsDevAutoSyncEnabled => "models_dev_auto_sync_enabled"
  | SettingParameterOverrides => "parameter_overrides"
  | SettingPublicBaseURL => "public_base_url"
  | SettingGatewayName => "gateway_name"
  | SettingCurrency => "currency"
  | SettingExchangeRate => "exchange_rate"
  | SettingOther raw => raw
  end.

Definition Settings : Type := list (SettingKey * AnyValue).

Record RuntimeSettings := mkSettings {
  GlobalConcurrencyLimit : Z;
  DefaultAccessKeyConcurrencyLimit : Z;
  DefaultGroupConcurrencyLimit : Z;
  FirstByteTimeout : Z;
  RequestTimeout : Z;
  StreamIdleTimeout : Z;
  rs_HeaderRules : HeaderRules;
  CORS : CORSConfig;
  ResponseHeaderRules : HeaderRules;
  RetryCount : Z;
  rs_RouteStrategy : RouteStrategy;
  rs_BlacklistThreshold : Z;
  rs_AffinityEnabled : bool;
  rs_ResponsesWebsocketEnabled : bool;
  rs_EmptyResponseRetry : bool;
  AffinityTTL : Z;
  AffinityCapacity : Z;
  ValidationInterval : Z;
  RequestLogRetentionDays : Z;
  ModelsDevAutoSyncEnabled : bool;
  PublicBaseURL : string;
  GatewayName : string;
  rs_Currency : Money.Currency;
}.

Definition second : Z := 1000000000.
Definition maxAffinityCapacity : Z := 1000000.
Definition minRequestLogRetentionDays : Z := 1.
Definition maxRequestLogRetentionDays : Z := 365.

Definition DefaultRuntimeSettings : RuntimeSettings :=
  mkSettings 0 0 0 (120 * second) (600 * second) (300 * second) (mkRules [] []) defaultCORSConfig (mkRules [] []) 2
    RouteStrategyNativeFirst 3 true true false (3600 * second) 10000 (600 * second) 7 true "" "GPT-Load" Money.USDCurrency.

Definition IsRuntimeSettingKey (k : SettingKey) : bool :=
  match k with SettingConcurrencyLimit | SettingParameterOverrides | SettingOther _ => false | _ => true end.

(** A setting of seconds is kept as a duration: [time.Duration(seconds) * time.Second]. *)
Definition durationOf (key : SettingKey) (value : AnyValue) : parsed Z :=
  let? seconds := positiveWholeSeconds (keyText key) value in Ok (wrap_i64 (seconds * second)).

(** One round of the loop over the settings. *)
Definition applySetting (resolved : RuntimeSettings) (key : SettingKey) (value : AnyValue) : parsed RuntimeSettings :=
  let path := keyText key in
  match key with
  | SettingGlobalConcurrencyLimit =>
    let? limit := nonNegativeWholeNumber path value in Ok (resolved <| GlobalConcurrencyLimit := limit |>)
  | SettingDefaultAccessKeyConcurrencyLimit =>
    let? limit := nonNegativeWholeNumber path value in Ok (resolved <| DefaultAccessKeyConcurrencyLimit := limit |>)
  | SettingDefaultGroupConcurrencyLimit =>
    let? limit := nonNegativeWholeNumber path value in Ok (resolved <| DefaultGroupConcurrencyLimit := limit |>)
  | SettingFirstByteTimeout => let? d := durationOf key value in Ok (resolved <| FirstByteTimeout := d |>)
  | SettingRequestTimeout => let? d := durationOf key value in Ok (resolved <| RequestTimeout := d |>)
  | SettingStreamIdleTimeout => let? d := durationOf key value in Ok (resolved <| StreamIdleTimeout := d |>)
  | SettingHeaderRules => let? rules := parseHeaderRules value in Ok (resolved <| rs_HeaderRules := rules |>)
  | SettingCORS => let? cors := parseCORSConfig value in Ok (resolved <| CORS := cors |>)
  | SettingResponseHeaderRules =>
    let? rules := parseResponseHeaderRules value in Ok (resolved <| ResponseHeaderRules := rules |>)
  | SettingRetryCount => let? count := nonNegativeWholeNumber path value in Ok (resolved <| RetryCount := count |>)
  | SettingRouteStrategy => let? strategy := parseRouteStrategy value in Ok (resolved <| rs_RouteStrategy := strategy |>)
  | SettingBlacklistThreshold =>
    let? threshold := nonNegativeWholeNumber path value in Ok (resolved <| rs_BlacklistThreshold := threshold |>)
  | SettingAffinityEnabled => let? b := strictBoolean path value in Ok (resolved <| rs_AffinityEnabled := b |>)
  | SettingResponsesWebsocketEnabled =>
    let? b := strictBoolean path value in Ok (resolved <| rs_ResponsesWebsocketEnabled := b |>)
  | SettingEmptyResponseRetry => let? b := strictBoolean path value in Ok (resolved <| rs_EmptyResponseRetry := b |>)
  | SettingAffinityTTL => let? d := durationOf key value in Ok (resolved <| AffinityTTL := d |>)
  | SettingAffinityCapacity =>
    let? capacity := wholeNumberInRange path value 1 maxAffinityCapacity in Ok (resolved <| AffinityCapacity := capacity |>)
  | SettingValidationInterval => let? d := durationOf key value in Ok (resolved <| ValidationInterval := d |>)
  | SettingRequestLogRetentionDays =>
    let? days := wholeNumberInRange path value minRequestLogRetentionDays maxRequestLogRetentionDays in
    Ok (resolved <| RequestLogRetentionDays := days |>)
  | SettingModelsDevAutoSyncEnabled =>
    let? b := strictBoolean path value in Ok (resolved <| ModelsDevAutoSyncEnabled := b |>)
  | SettingPublicBaseURL => let? url := parsePublicBaseURL value in Ok (resolved <| PublicBaseURL := url |>)
  | SettingGatewayName => let? name := parseGatewayName value in Ok (resolved <| GatewayName := name |>)
  | SettingCurrency | SettingExchangeRate => Ok resolved
  | SettingConcurrencyLimit | SettingParameterOverrides | SettingOther _ => Err (UnknownKey path)
  end.

Fixpoint resolveLoop (resolved : RuntimeSettings) (settings : Settings) : parsed RuntimeSettings :=
  match settings with
  | [] => Ok resolved
  | (key, value) :: rest => let? resolved := applySetting resolved key value in resolveLoop resolved rest
  end.

Definition setting (settings : Settings) (key : SettingKey) : option AnyValue :=
  snd <$> find (fun e => bool_decide (e.1 = key)) settings.

Definition ResolveCurrency (settings : Settings) : parsed Money.Currency :=
  let? code :=
    match setting settings SettingCurrency with None => Ok Money.CurrencyUSD | Some value => parseCurrencySetting value end in
  let? rate :=
    match setting settings SettingExchangeRate with
    | None => Ok None
    | Some value => let? rate := parseExchangeRateSetting value in Ok (Some rate)
    end in
  if String.eqb code Money.CurrencyUSD then
    match rate with Some _ => Err RateWithUSD | None => Ok Money.USDCurrency end
  else
    match rate with
    | None => Err RateRequired
    | Some rate => match Money.NewCurrency code rate with Ok currency => Ok currency | Err _ => Err (Invalid "exchange_rate") end
    end.

Definition ResolveRuntimeSettings (settings : Settings) : parsed RuntimeSettings :=
  let? resolved := resolveLoop DefaultRuntimeSettings settings in
  let? currency := ResolveCurrency settings in
  Ok (resolved <| rs_Currency := currency |>).

Definition discard {A} (r : parsed A) : option SettingError := match r with Ok _ => None | Err e => Some e end.

(** The check of one setting before it is stored. *)
Definition ValidateRuntimeSetting (key : SettingKey) (value : AnyValue) : option SettingError :=
  let path := keyText key in
  match key with
  | SettingFirstByteTimeout | SettingRequestTimeout | SettingStreamIdleTimeout | SettingValidationInterval =>
    discard (positiveWholeSeconds path value)
  | SettingHeaderRules => discard (parseHeaderRules value)
  | SettingCORS => discard (parseCORSConfig value)
  | SettingResponseHeaderRules => discard (parseResponseHeaderRules value)
  | SettingGlobalConcurrencyLimit | SettingDefaultAccessKeyConcurrencyLimit | SettingDefaultGroupConcurrencyLimit
  | SettingRetryCount | SettingBlacklistThreshold => discard (nonNegativeWholeNumber path value)
  | SettingRouteStrategy => discard (parseRouteStrategy value)
  | SettingAffinityEnabled | SettingResponsesWebsocketEnabled | SettingEmptyResponseRetry => discard (strictBoolean path value)
  | SettingAffinityTTL => discard (positiveWholeSeconds path value)
  | SettingAffinityCapacity => discard (wholeNumberInRange path value 1 maxAffinityCapacity)
  | SettingRequestLogRetentionDays =>
    discard (wholeNumberInRange path value minRequestLogRetentionDays maxRequestLogRetentionDays)
  | SettingModelsDevAutoSyncEnabled => discard (strictBoolean path value)
  | SettingPublicBaseURL => discard (parsePublicBaseURL value)
  | SettingGatewayName => discard (parseGatewayName value)
  | SettingCurrency => discard (parseCurrencySetting value)
  | SettingExchangeRate => discard (parseExchangeRateSetting value)
  | SettingConcurrencyLimit | SettingParameterOverrides | SettingOther _ => Some (UnknownKey path)
  end.

End Urls.

(** ** The settings of a group *)

Record TimeoutConfig := mkTimeouts { FirstByte : Z; Request : Z; StreamIdle : Z }.

Record ResolvedGroupSettings (P : Type) := mkGroupSettings {
  rg_ConcurrencyLimit : Z;
  rg_Timeouts : TimeoutConfig;
  rg_HeaderRules : HeaderRules;
  rg_BlacklistThreshold : Z;
  rg_AffinityEnabled : bool;
  rg_ResponsesWebsocketEnabled : bool;
  rg_EmptyResponseRetry : bool;
  rg_ParameterOverrides : P;
}.
Arguments mkGroupSettings {P}. Arguments rg_ConcurrencyLimit {P}. Arguments rg_Timeouts {P}. Arguments rg_HeaderRules {P}.
Arguments rg_BlacklistThreshold {P}. Arguments rg_AffinityEnabled {P}. Arguments rg_ResponsesWebsocketEnabled {P}.
Arguments rg_EmptyResponseRetry {P}. Arguments rg_ParameterOverrides {P}.

Section Groups.
Context {P : Type} (noOverrides : P) (compileOverrides : AnyValue -> parsed P).

Definition inherited (base : RuntimeSettings) : ResolvedGroupSettings P :=
  mkGroupSettings base.(DefaultGroupConcurrencyLimit)
    (mkTimeouts base.(FirstByteTimeout) base.(RequestTimeout) base.(StreamIdleTimeout))
    base.(rs_HeaderRules) base.(rs_BlacklistThreshold) base.(rs_AffinityEnabled) base.(rs_ResponsesWebsocketEnabled)
    base.(rs_EmptyResponseRetry) noOverrides.

Definition applyGroupSetting (r : ResolvedGroupSettings P) (key : SettingKey) (value : AnyValue)
    : parsed (ResolvedGroupSettings P) :=
  let path := keyText key in
  match key with
  | SettingConcurrencyLimit => let? limit := nonNegativeWholeNumber path value in Ok (r <| rg_ConcurrencyLimit := limit |>)
  | SettingFirstByteTimeout =>
    let? d := durationOf key value in Ok (r <| rg_Timeouts := r.(rg_Timeouts) <| FirstByte := d |> |>)
  | SettingRequestTimeout =>
    let? d := durationOf key value in Ok (r <| rg_Timeouts := r.(rg_Timeouts) <| Request := d |> |>)
  | SettingStreamIdleTimeout =>
    let? d := durationOf key value in Ok (r <| rg_Timeouts := r.(rg_Timeouts) <| StreamIdle := d |> |>)
  | SettingHeaderRules => let? rules := parseHeaderRules value in Ok (r <| rg_HeaderRules := rules |>)
  | SettingRetryCount => Ok r
  | SettingBlacklistThreshold =>
    let? threshold := nonNegativeWholeNumber path value in Ok (r <| rg_BlacklistThreshold := threshold |>)
  | SettingAffinityEnabled => let? b := strictBoolean path value in Ok (r <| rg_AffinityEnabled := b |>)
  | SettingResponsesWebsocketEnabled => let? b := strictBoolean path value in Ok (r <| rg_ResponsesWebsocketEnabled := b |>)
  | SettingEmptyResponseRetry => let? b := strictBoolean path value in Ok (r <| rg_EmptyResponseRetry := b |>)
  | SettingParameterOverrides => let? rules := compileOverrides value in Ok (r <| rg_ParameterOverrides := rules |>)
  | _ => Err (UnknownKey path)
  end.

Fixpoint groupLoop (r : ResolvedGroupSettings P) (settings : Settings) : parsed (ResolvedGroupSettings P) :=
  match settings with
  | [] => Ok r
  | (key, value) :: rest => let? r := applyGroupSetting r key value in groupLoop r rest
  end.

Definition ResolveGroupRuntimeSettings (base : RuntimeSettings) (settings : Settings) : parsed (ResolvedGroupSettings P) :=
  groupLoop (inherited base) settings.

End Groups.

End Settings.
