(* ===== verification/SettingsProps.v ===== *)
(** * Runtime settings, theorems

    The loop over the settings computes exactly the record of the parsed values over the
    defaults, whatever order the map is visited in; a configuration is accepted exactly when
    every setting passes the check made before it is stored and currency and rate fit
    together; and what is accepted is within its bounds. *)

From Stdlib Require Import ZArith Lia Bool String Ascii List Permutation.
From stdpp Require Import base gmap sets list strings.
From coqutil Require Import Datatypes.RecordSettersUsingExistingGetters.
From S2P Require Import Prelude GoStrings Money Execution Contracts Headers HeadersProps Settings.

Local Open Scope Z_scope.

Module SettingsProps.
Import Execution Contracts Headers HeadersProps Settings.

Section Resolution.
Context `{UrlParsers}.

(** ** The settings as a record *)

(** The parsed value of a setting, or what holds without it. *)
Definition chosen {A} (settings : Settings) (key : SettingKey) (parse : AnyValue -> parsed A) (otherwise : A) : A :=
  match setting settings key with
  | Some value => match parse value with Ok a => a | Err _ => otherwise end
  | None => otherwise
  end.

Definition number (settings : Settings) (key : SettingKey) : Z -> Z := chosen settings key (nonNegativeWholeNumber (keyText key)).
Definition duration (settings : Settings) (key : SettingKey) : Z -> Z := chosen settings key (durationOf key).
Definition switch (settings : Settings) (key : SettingKey) : bool -> bool := chosen settings key (strictBoolean (keyText key)).

Definition overlay (settings : Settings) (base : RuntimeSettings) : RuntimeSettings := {|
  GlobalConcurrencyLimit := number settings SettingGlobalConcurrencyLimit base.(GlobalConcurrencyLimit);
  DefaultAccessKeyConcurrencyLimit :=
    number settings SettingDefaultAccessKeyConcurrencyLimit base.(DefaultAccessKeyConcurrencyLimit);
  DefaultGroupConcurrencyLimit := number settings SettingDefaultGroupConcurrencyLimit base.(DefaultGroupConcurrencyLimit);
  FirstByteTimeout := duration settings SettingFirstByteTimeout base.(FirstByteTimeout);
  RequestTimeout := duration settings SettingRequestTimeout base.(RequestTimeout);
  StreamIdleTimeout := duration settings SettingStreamIdleTimeout base.(StreamIdleTimeout);
  rs_HeaderRules := chosen settings SettingHeaderRules parseHeaderRules base.(rs_HeaderRules);
  CORS := chosen settings SettingCORS parseCORSConfig base.(CORS);
  ResponseHeaderRules := chosen settings SettingResponseHeaderRules parseResponseHeaderRules base.(ResponseHeaderRules);
  RetryCount := number settings SettingRetryCount base.(RetryCount);
  rs_RouteStrategy := chosen settings SettingRouteStrategy parseRouteStrategy base.(rs_RouteStrategy);
  rs_BlacklistThreshold := number settings SettingBlacklistThreshold base.(rs_BlacklistThreshold);
  rs_AffinityEnabled := switch settings SettingAffinityEnabled base.(rs_AffinityEnabled);
  rs_ResponsesWebsocketEnabled := switch settings SettingResponsesWebsocketEnabled base.(rs_ResponsesWebsocketEnabled);
  rs_EmptyResponseRetry := switch settings SettingEmptyResponseRetry base.(rs_EmptyResponseRetry);
  AffinityTTL := duration settings SettingAffinityTTL base.(AffinityTTL);
  AffinityCapacity :=
    chosen settings SettingAffinityCapacity
      (fun v => wholeNumberInRange (keyText SettingAffinityCapacity) v 1 maxAffinityCapacity) base.(AffinityCapacity);
  ValidationInterval := duration settings SettingValidationInterval base.(ValidationInterval);
  RequestLogRetentionDays :=
    chosen settings SettingRequestLogRetentionDays
      (fun v => wholeNumberInRange (keyText SettingRequestLogRetentionDays) v minRequestLogRetentionDays
                  maxRequestLogRetentionDays) base.(RequestLogRetentionDays);
  ModelsDevAutoSyncEnabled := switch settings SettingModelsDevAutoSyncEnabled base.(ModelsDevAutoSyncEnabled);
  PublicBaseURL := chosen settings SettingPublicBaseURL parsePublicBaseURL base.(PublicBaseURL);
  GatewayName := chosen settings SettingGatewayName parseGatewayName base.(GatewayName);
  rs_Currency := base.(rs_Currency);
|}.

Lemma setting_cons k v settings key :
  setting ((k, v) :: settings) key = if decide (k = key) then Some v else setting settings key.
Proof.
  unfold setting. cbn [find fst]. destruct (decide (k = key)) as [E|E].
  - now rewrite bool_decide_eq_true_2.
  - now rewrite bool_decide_eq_false_2.
Qed.

Lemma setting_absent settings key : key ∉ map fst settings -> setting settings key = None.
Proof.
  induction settings as [|[k v] settings IH]; intros Hn; [reflexivity|].
  rewrite setting_cons. cbn in Hn. rewrite not_elem_of_cons in Hn. destruct Hn as [Hk Hn].
  destruct (decide (k = key)); [congruence|auto].
Qed.

Lemma setting_in settings key v : NoDup (map fst settings) -> setting settings key = Some v <-> In (key, v) settings.
Proof.
  induction settings as [|[k w] settings IH]; [easy|]. cbn [map fst In]. rewrite NoDup_cons, setting_cons. intros [Hn Hd].
  destruct (decide (k = key)) as [->|Hk].
  - split; [intros [= ->]; now left|]. intros [[= ->]|Hin]; [reflexivity|].
    destruct Hn. apply list_elem_of_In. apply in_map_iff. now exists (key, v).
  - rewrite IH by assumption. split; [auto|]. intros [[= -> ->]|Hin]; congruence.
Qed.

Lemma chosen_same {A} key v settings (p : AnyValue -> parsed A) a d : p v = Ok a -> chosen ((key, v) :: settings) key p d = a.
Proof. intros E. unfold chosen. rewrite setting_cons, decide_True by reflexivity. now rewrite E. Qed.

Lemma chosen_other {A} k key v settings (p : AnyValue -> parsed A) d :
  k <> key -> chosen ((k, v) :: settings) key p d = chosen settings key p d.
Proof. intros E. unfold chosen. now rewrite setting_cons, decide_False. Qed.

Lemma chosen_absent {A} key settings (p : AnyValue -> parsed A) d : key ∉ map fst settings -> chosen settings key p d = d.
Proof. intros E. unfold chosen. now rewrite setting_absent. Qed.

(** Split a chain of parsers that succeeded into its steps. *)
Ltac parsed_steps :=
  repeat match goal with
  | H : match ?e with Ok _ => _ | Err _ => _ end = Ok _ |- _ => let E := fresh "E" in destruct e eqn:E; [|discriminate H]
  | H : Ok _ = Ok _ |- _ => injection H as H
  end.

(** One round sets the field its key stands for and no other. *)
Lemma apply_overlay base k v rest r : applySetting base k v = Ok r -> k ∉ map fst rest ->
  overlay rest r = overlay ((k, v) :: rest) base.
Proof.
  intros Ha Hn. destruct k; cbn [applySetting] in Ha; parsed_steps; try discriminate; subst r;
    unfold overlay, number, duration, switch; cbn; unfold const; f_equal;
    first [ symmetry; apply chosen_other; discriminate
          | rewrite (chosen_absent _ _ _ _ Hn); symmetry; now apply chosen_same ].
Qed.

Lemma loop_overlay settings : forall base r, NoDup (map fst settings) -> resolveLoop base settings = Ok r -> r = overlay settings base.
Proof.
  induction settings as [|[k v] settings IH]; cbn [resolveLoop]; intros base r Hd Hr.
  - injection Hr as <-. now destruct base.
  - cbn in Hd. apply NoDup_cons in Hd as [Hn Hd]. destruct (applySetting base k v) as [b|] eqn:E; [|discriminate].
    rewrite (IH _ _ Hd Hr). now apply apply_overlay.
Qed.

(** ** Acceptance *)

(** Currency and rate are checked together, after the loop. *)
Definition deferred (k : SettingKey) : bool := match k with SettingCurrency | SettingExchangeRate => true | _ => false end.

Lemma duration_discard key v : discard (durationOf key v) = discard (positiveWholeSeconds (keyText key) v).
Proof. unfold durationOf. now destruct (positiveWholeSeconds _ v). Qed.

Lemma discard_ok {A B} (p : parsed A) (f : A -> B) :
  (exists r, match p with Ok a => Ok (f a) | Err e => Err e end = Ok r :> parsed B) <-> discard p = None.
Proof. destruct p; cbn; split; intros Hx; [reflexivity|eauto|now destruct Hx|discriminate]. Qed.

Lemma apply_accepts base k v :
  (exists r, applySetting base k v = Ok r) <-> deferred k = true \/ ValidateRuntimeSetting k v = None.
Proof.
  assert (Hnd : forall P : Prop, false = true \/ P <-> P) by (intros P; split; [intros [|]; [discriminate|assumption]|auto]).
  destruct k; cbn [applySetting deferred ValidateRuntimeSetting]; rewrite ?Hnd;
    first [ rewrite <- ?duration_discard; apply discard_ok
          | split; [intros _; now left|intros _; now eexists]
          | split; [intros [r Hr]; discriminate Hr|discriminate] ].
Qed.

Definition accepted (settings : Settings) : Prop :=
  forall k v, In (k, v) settings -> deferred k = true \/ ValidateRuntimeSetting k v = None.

Lemma loop_accepts settings : forall base, (exists r, resolveLoop base settings = Ok r) <-> accepted settings.
Proof.
  induction settings as [|[k v] settings IH]; intros base; cbn [resolveLoop].
  - split; [intros _ k v []|intros _; now eexists].
  - unfold accepted in *. cbn [In]. split.
    + intros [r Hr]. destruct (applySetting base k v) as [b|] eqn:E; [|discriminate].
      intros k' v' [[= <- <-]|Hin]; [apply (apply_accepts base); eauto|].
      apply (proj1 (IH b)); eauto.
    + intros Hall. destruct (proj2 (apply_accepts base k v)) as [b ->]; [apply Hall; now left|].
      apply IH. eauto.
Qed.

(** ** Currency and rate *)

Definition currencyName (settings : Settings) : string :=
  match setting settings SettingCurrency with Some (AString code) => code | _ => Money.CurrencyUSD end.

Definition currencyOf (settings : Settings) : Money.Currency :=
  Money.mkCurrency (currencyName settings) (chosen settings SettingExchangeRate parseExchangeRateSetting Money.ExchangeRateScale).

(** A rate is configured exactly for a currency other than the dollar. *)
Definition coherent (settings : Settings) : Prop :=
  present (setting settings SettingExchangeRate) = negb (String.eqb (currencyName settings) Money.CurrencyUSD).

Lemma currency_code v code : parseCurrencySetting v = Ok code ->
  v = AString code /\ Money.ParseCurrencyCode code = Ok code.
Proof.
  destruct v as [| |name| | | | | |]; cbn [parseCurrencySetting]; try discriminate.
  destruct (Money.ParseCurrencyCode name) as [c|] eqn:E; [|discriminate]. intros [= ->].
  assert (name = code) as ->; [|auto]. unfold Money.ParseCurrencyCode in E.
  destruct (find _ _) as [c|] eqn:Ef; [|discriminate]. injection E as ->.
  apply find_some in Ef as [_ Hc]. apply bool_decide_eq_true in Hc. congruence.
Qed.

Lemma rate_positive v rate : parseExchangeRateSetting v = Ok rate -> 0 < rate.
Proof.
  destruct v as [| |s| | | | | |]; cbn [parseExchangeRateSetting]; try discriminate.
  unfold Money.ParseExchangeRate. destruct (Money.parseScaledDecimal _ _) as [r|]; [|discriminate].
  destruct (Z.leb_spec r 0); [discriminate|]. intros [= <-]. lia.
Qed.

Definition checkedAt (settings : Settings) (key : SettingKey) : Prop :=
  forall v, setting settings key = Some v -> ValidateRuntimeSetting key v = None.

Lemma discarded {A} (p : parsed A) : discard p = None -> exists a, p = Ok a.
Proof. destruct p; [eauto|discriminate]. Qed.

Lemma new_currency code rate : Money.ParseCurrencyCode code = Ok code -> 0 < rate ->
  String.eqb code Money.CurrencyUSD = false -> Money.NewCurrency code rate = Ok (Money.mkCurrency code rate).
Proof.
  intros Hc Hr Hne. unfold Money.NewCurrency. rewrite Hc. destruct (Z.leb_spec rate 0); [lia|].
  apply String.eqb_neq in Hne. now rewrite bool_decide_eq_false_2.
Qed.

Lemma currency_resolved settings c : ResolveCurrency settings = Ok c <->
  checkedAt settings SettingCurrency /\ checkedAt settings SettingExchangeRate /\ coherent settings /\ c = currencyOf settings.
Proof.
  unfold ResolveCurrency, coherent, currencyOf, currencyName, checkedAt, chosen. cbn [ValidateRuntimeSetting].
  destruct (setting settings SettingCurrency) as [cv|] eqn:Ec, (setting settings SettingExchangeRate) as [rv|] eqn:Er; cbn [present].
  - destruct (parseCurrencySetting cv) as [code|e] eqn:Ep.
    + apply currency_code in Ep as [-> Hcode]. destruct (parseExchangeRateSetting rv) as [rate|e] eqn:Err.
      * destruct (String.eqb_spec code Money.CurrencyUSD) as [->|Hne]; cbn [negb].
        -- split; [discriminate|intros (_ & _ & ? & _); discriminate].
        -- rewrite new_currency by (eauto using rate_positive; now apply String.eqb_neq).
           split; [intros [= <-]|intros (_ & _ & _ & ->); reflexivity].
           repeat split; intros v [= <-]; [cbn [parseCurrencySetting]; now rewrite Hcode|now rewrite Err].
      * split; [discriminate|]. intros (_ & Hx & _). specialize (Hx _ eq_refl). now rewrite Err in Hx.
    + split; [discriminate|]. intros (Hx & _). specialize (Hx _ eq_refl). now rewrite Ep in Hx.
  - destruct (parseCurrencySetting cv) as [code|e] eqn:Ep.
    + apply currency_code in Ep as [-> Hcode]. destruct (String.eqb_spec code Money.CurrencyUSD) as [->|Hne]; cbn [negb].
      * split; [intros [= <-]|intros (_ & _ & _ & ->); reflexivity].
        repeat split; [intros v [= <-]; cbn [parseCurrencySetting]; now rewrite Hcode|discriminate].
      * split; [discriminate|intros (_ & _ & ? & _); discriminate].
    + split; [discriminate|]. intros (Hx & _). specialize (Hx _ eq_refl). now rewrite Ep in Hx.
  - rewrite String.eqb_refl. cbn [negb]. split; [|intros (_ & _ & ? & _); discriminate].
    destruct (parseExchangeRateSetting rv); discriminate.
  - rewrite String.eqb_refl. cbn [negb]. split; [intros [= <-]|intros (_ & _ & _ & ->); reflexivity].
    repeat split; discriminate.
Qed.

(** ** Exactness *)

Lemma setting_permuted settings permuted key : Permutation settings permuted -> NoDup (map fst settings) ->
  setting permuted key = setting settings key.
Proof.
  intros Hp Hd. assert (Hd' : NoDup (map fst permuted)) by now rewrite <- Hp.
  apply option_eq. intros v. rewrite !setting_in by assumption.
  split; apply Permutation_in; [now symmetry|assumption].
Qed.

Lemma resolved_exactly settings : NoDup (map fst settings) -> forall r,
  ResolveRuntimeSettings settings = Ok r <->
  (forall k v, In (k, v) settings -> ValidateRuntimeSetting k v = None) /\ coherent settings /\
  r = (overlay settings DefaultRuntimeSettings) <| rs_Currency := currencyOf settings |>.
Proof.
  intros Hd r. unfold ResolveRuntimeSettings. split.
  - destruct (resolveLoop _ settings) as [b|] eqn:El; [|discriminate].
    destruct (ResolveCurrency settings) as [c|] eqn:Ec; [|discriminate]. intros [= <-].
    apply currency_resolved in Ec as (Hc & Hr & Hco & ->). split; [|split; [exact Hco|]].
    + intros k v Hin. destruct (proj1 (loop_accepts settings DefaultRuntimeSettings) (ex_intro _ b El) k v Hin) as [Hdef|]; [|assumption].
      apply setting_in in Hin; [|exact Hd]. destruct k; try discriminate; auto.
    + now rewrite (loop_overlay _ _ _ Hd El).
  - intros (Hall & Hco & ->).
    destruct (proj2 (loop_accepts settings DefaultRuntimeSettings)) as [b Hb].
    { intros k v Hin. right. now apply Hall. }
    rewrite Hb, (loop_overlay _ _ _ Hd Hb).
    assert (Hat : forall key, checkedAt settings key) by (intros key v Hv; apply setting_in in Hv; auto).
    rewrite (proj2 (currency_resolved settings (currencyOf settings))); [reflexivity|auto].
Qed.

(** [C31] Runtime settings are resolved exactly.  A configuration is accepted exactly when
    every entry passes the check that guards its storage and a rate is configured exactly
    for a currency other than the dollar; the settings are then the defaults overlaid with
    the parsed values, field by field, and the order in which the map is visited does not
    matter. *)
Theorem settings_resolved_exactly settings : NoDup (map fst settings) ->
  (forall r, ResolveRuntimeSettings settings = Ok r <->
     (forall k v, In (k, v) settings -> ValidateRuntimeSetting k v = None) /\ coherent settings /\
     r = (overlay settings DefaultRuntimeSettings) <| rs_Currency := currencyOf settings |>) /\
  (forall permuted r, Permutation settings permuted ->
     ResolveRuntimeSettings permuted = Ok r <-> ResolveRuntimeSettings settings = Ok r).
Proof.
  intros Hd. split; [now apply resolved_exactly|]. intros permuted r Hp.
  assert (Hd' : NoDup (map fst permuted)) by now rewrite <- Hp.
  assert (Hs : forall key, setting permuted key = setting settings key) by now intros; apply setting_permuted.
  rewrite !resolved_exactly by assumption.
  unfold coherent, currencyOf, currencyName, overlay, number, duration, switch, chosen. rewrite !Hs.
  split; intros (Hall & Hrest); (split; [|exact Hrest]); intros k v Hin; apply Hall.
  - now apply (Permutation_in _ Hp).
  - now apply (Permutation_in _ (Permutation_sym Hp)).
Qed.

(** ** Header rules *)

Lemma header_byte c : token_byte c = true ->
  token_byte (upper_byte c) = true /\ token_byte (lower_byte c) = true /\
  lower_byte (upper_byte c) = lower_byte c /\ lower_byte (lower_byte c) = lower_byte c /\
  upper_byte (upper_byte c) = upper_byte c /\ Ascii.eqb (upper_byte c) "-" = Ascii.eqb c "-" /\
  Ascii.eqb (lower_byte c) "-" = Ascii.eqb c "-" /\ byte_val c <? 128 = true.
Proof. destruct c as [[] [] [] [] [] [] [] []]; vm_compute; intuition congruence. Qed.

Lemma canonical_loop_tokens l : forall u, forallb token_byte l = true ->
  forallb token_byte (canonical_loop u l) = true /\ folded (canonical_loop u l) = folded l /\
  canonical_loop u (canonical_loop u l) = canonical_loop u l.
Proof.
  induction l as [|c l IH]; intros u Hl; [auto|]. cbn [forallb] in Hl. apply andb_true_iff in Hl as [Hc Hl].
  destruct (header_byte c Hc) as (H1 & H2 & H3 & H4 & H5 & H6 & H7 & _).
  destruct (IH (Ascii.eqb c "-") Hl) as (Ht & Hf & Hi). cbn [canonical_loop forallb folded map].
  unfold folded in *. destruct u; cbn [map]; rewrite ?H1, ?H2, ?H3, ?H4, ?H5, ?H6, ?H7, Hf, Hi; auto.
Qed.

Lemma header_name name : validHTTPHeaderName name = true ->
  validHTTPHeaderName (canonicalName name) = true /\ canonicalName (canonicalName name) = canonicalName name /\
  lowered (canonicalName name) = lowered name.
Proof.
  intros Hv. assert (Hl : forallb token_byte (bytes name) = true) by (unfold validHTTPHeaderName in Hv; now destruct (bytes name)).
  destruct (canonical_loop_tokens (bytes name) true Hl) as (Ht & Hf & Hi).
  assert (Ha : forall l, forallb token_byte l = true -> ascii_text l = true).
  { intros l. unfold ascii_text. rewrite !forallb_forall. intros Hx c Hc. now apply header_byte, Hx. }
  unfold canonicalName, canonical_key, lowered. rewrite Hl, !list_ascii_of_string_of_list_ascii, Ht, Hi.
  split; [|split; [reflexivity|]].
  - unfold validHTTPHeaderName in *. rewrite list_ascii_of_string_of_list_ascii.
    destruct (bytes name); [discriminate|]. exact Ht.
  - rewrite !to_lower_ascii by auto. exact Hf.
Qed.

(** What the gateway may rely on in header rules: canonical permitted names, no name twice
    (in whatever case, set or removed), values that fit on one line. *)
Record rulesSound (forbidden : string -> bool) (rules : HeaderRules) : Prop := {
  rules_distinct : NoDup (map lowered (map fst rules.(rules_Set) ++ rules.(rules_Remove)));
  rules_names : forall name, In name (map fst rules.(rules_Set) ++ rules.(rules_Remove)) ->
    validHTTPHeaderName name = true /\ canonicalName name = name /\ forbidden name = false;
  rules_values : forall name value, In (name, value) rules.(rules_Set) -> validHTTPHeaderValue value = true;
}.

Definition soundName (forbidden : string -> bool) (name : string) : Prop :=
  validHTTPHeaderName name = true /\ canonicalName name = name /\ forbidden name = false.

Lemma canonical_sound forbidden name : validHTTPHeaderName name = true -> forbidden (canonicalName name) = false ->
  soundName forbidden (canonicalName name) /\ lowered (canonicalName name) = lowered name.
Proof. intros Hv Hf. destruct (header_name name Hv) as (H1 & H2 & H3). now repeat split. Qed.

Lemma parseSet_sound path forbidden entries : forall seen seen' set, NoDup seen ->
  parseSet path forbidden seen entries = Ok (seen', set) ->
  NoDup seen' /\ Permutation seen' (map lowered (map fst set) ++ seen) /\
  Forall (soundName forbidden) (map fst set) /\ (forall name value, In (name, value) set -> validHTTPHeaderValue value = true).
Proof.
  induction entries as [|[name raw] entries IH]; intros seen seen' set Hd; cbn [parseSet].
  { intros [= <- <-]. cbn. now split; [|split; [|split; [constructor|]]]. }
  destruct (validHTTPHeaderName name) eqn:Hv; cbn [negb]; [|discriminate].
  destruct (forbidden (canonicalName name)) eqn:Hf; [discriminate|]. unfold seenName.
  case_bool_decide as Hs; [discriminate|]. destruct raw as [| |value| | | | | |]; try discriminate.
  destruct (validHTTPHeaderValue value) eqn:Hval; [|discriminate].
  destruct (parseSet _ _ _ entries) as [[seen1 set1]|] eqn:E; [|discriminate]. intros [= <- <-].
  apply IH in E as (H1 & H2 & H3 & H4); [|now apply NoDup_cons].
  destruct (canonical_sound forbidden name Hv Hf) as [Hn Hlow].
  split; [exact H1|]. cbn [map fst app]. rewrite Hlow. split; [|split].
  - rewrite H2. symmetry. apply Permutation_middle.
  - now constructor.
  - intros n v [[= <- <-]|Hin]; eauto.
Qed.

Lemma parseRemove_sound path forbidden values : forall seen index names, NoDup seen ->
  parseRemove path forbidden seen index values = Ok names ->
  NoDup (map lowered names ++ seen) /\ Forall (soundName forbidden) names.
Proof.
  induction values as [|raw values IH]; intros seen index names Hd; cbn [parseRemove].
  { now intros [= <-]. }
  destruct raw as [| |name| | | | | |]; try discriminate.
  destruct (validHTTPHeaderName name) eqn:Hv; cbn [negb]; [|discriminate].
  destruct (forbidden (canonicalName name)) eqn:Hf; [discriminate|]. unfold seenName.
  case_bool_decide as Hs; [discriminate|].
  destruct (parseRemove _ _ _ _ values) as [rest|] eqn:E; [|discriminate]. intros [= <-].
  apply IH in E as [H1 H2]; [|now apply NoDup_cons].
  destruct (canonical_sound forbidden name Hv Hf) as [Hn Hlow]. cbn [map app]. rewrite Hlow.
  split; [|now constructor]. now rewrite Permutation_middle.
Qed.

Lemma parseHeaderRules_sound value settingName forbidden rules :
  parseHeaderRulesWithPolicy value settingName forbidden = Ok rules -> rulesSound forbidden rules.
Proof.
  unfold parseHeaderRulesWithPolicy. destruct value as [| | | | | | | |object]; try discriminate.
  destruct (unknownEntry _ _); [discriminate|].
  match goal with |- match ?s with _ => _ end = _ -> _ => destruct s as [[seen set]|] eqn:Es; [|discriminate] end.
  match goal with |- match ?s with _ => _ end = _ -> _ => destruct s as [remove|] eqn:Er; [|discriminate] end.
  intros [= <-].
  assert (Hset : NoDup seen /\ Permutation seen (map lowered (map fst set)) /\ Forall (soundName forbidden) (map fst set) /\
                 (forall name value, In (name, value) set -> validHTTPHeaderValue value = true)).
  { destruct (entry "set" object) as [[| | | | | | | |entries]|]; try discriminate.
    - apply parseSet_sound in Es; [|constructor]. now rewrite app_nil_r in Es.
    - injection Es as <- <-. cbn. now split; [constructor|split; [|split; [constructor|]]]. }
  destruct Hset as (H1 & H2 & H3 & H4).
  assert (Hrem : NoDup (map lowered remove ++ seen) /\ Forall (soundName forbidden) remove).
  { destruct (entry "remove" object) as [[| | | | | | |values|]|]; try discriminate.
    - now apply parseRemove_sound in Er.
    - injection Er as <-. split; [exact H1|constructor]. }
  destruct Hrem as [H5 H6]. split; cbn [rules_Set rules_Remove].
  - rewrite map_app. now rewrite Permutation_app_comm, <- H2.
  - intros name Hin. apply list_elem_of_In in Hin. revert name Hin. apply Forall_forall. now apply Forall_app.
  - exact H4.
Qed.

(** ** Bounds *)

(** A wildcard stands alone. *)
Definition sole (l : list string) : Prop := In "*"%string l -> l = ["*"%string].

Record corsSound (c : CORSConfig) : Prop := {
  cors_complete : c.(Enabled) = true -> c.(AllowedOrigins) <> [] /\ c.(AllowedMethods) <> [] /\ c.(AllowedHeaders) <> [];
  cors_credentials : c.(AllowCredentials) = true -> ~ In "*"%string c.(AllowedOrigins) /\ ~ In "*"%string c.(ExposedHeaders);
  cors_wildcard : Forall sole [c.(AllowedOrigins); c.(AllowedHeaders); c.(ExposedHeaders)];
  cors_age : 0 <= c.(MaxAgeSeconds) <= maxJSONSafeInteger;
}.

Lemma nonNegative_bounds path v n : nonNegativeWholeNumber path v = Ok n -> 0 <= n <= maxJSONSafeInteger.
Proof.
  unfold nonNegativeWholeNumber.
  match goal with |- match ?o with _ => _ end = _ -> _ => destruct o as [m|]; [|discriminate] end.
  case_if; [discriminate|]. intros [= <-]. zbool. lia.
Qed.

Lemma inRange_bounds path v lo hi n : wholeNumberInRange path v lo hi = Ok n -> lo <= n <= hi.
Proof.
  unfold wholeNumberInRange.
  match goal with |- match ?o with _ => _ end = _ -> _ => destruct o as [m|]; [|discriminate] end.
  case_if; [discriminate|]. intros [= <-]. zbool. lia.
Qed.

(** The product of seconds and nanoseconds never overflows. *)
Lemma duration_bounds key v d : durationOf key v = Ok d ->
  exists seconds, positiveWholeSeconds (keyText key) v = Ok seconds /\ d = seconds * second /\ second <= d <= max_int64.
Proof.
  unfold durationOf. destruct (positiveWholeSeconds _ v) as [s|] eqn:E; [|discriminate]. intros [= <-].
  exists s. split; [reflexivity|]. unfold positiveWholeSeconds in E.
  match type of E with match ?o with _ => _ end = _ => destruct o as [m|]; [|discriminate] end.
  case_if_in E; [discriminate|]. injection E as <-. zbool. unfold maxTimeoutSeconds in *.
  rewrite wrap_i64_small; unfold in_int64, min_int64, max_int64, second in *; lia.
Qed.

Lemma containsExact_in values target : containsExact values target = true <-> In target values.
Proof.
  unfold containsExact. rewrite existsb_exists. split; [intros (x & Hx & E); now apply String.eqb_eq in E as <-|].
  intros Hin. exists target. now rewrite String.eqb_refl.
Qed.

Lemma soleWildcard_sole path names out : soleWildcard path names = Ok out -> In "*"%string out -> out = ["*"%string].
Proof.
  unfold soleWildcard. case_if; [discriminate|]. intros [= <-] Hin. apply containsExact_in in Hin as Hc. rewrite Hc, andb_true_r in E.
  apply Nat.ltb_ge in E. destruct names as [|a [|b names]]; cbn in *; [easy| |lia]. destruct Hin as [->|[]]. reflexivity.
Qed.

Lemma parseEntry_holds {A} (P : A -> Prop) entries key parse otherwise a :
  parseEntry entries key parse otherwise = Ok a -> P otherwise -> (forall v a, parse v = Ok a -> P a) -> P a.
Proof. unfold parseEntry. destruct (entry key entries); [eauto|intros [= <-]; auto]. Qed.

Lemma headerNames_sole path v l : parseCORSHeaderNames path v = Ok l -> sole l.
Proof. unfold parseCORSHeaderNames, sole. intros El. parsed_steps. now apply soleWildcard_sole with (1 := El). Qed.

Lemma parseCORS_sound value c : parseCORSConfig value = Ok c -> corsSound c.
Proof.
  unfold parseCORSConfig. destruct value as [| | | | | | | |object]; try discriminate.
  destruct (unknownEntry _ _); [discriminate|]. intros Hc. cbn zeta in Hc. parsed_steps.
  destruct (corsConflict _) as [|] eqn:Ec; [discriminate|]. injection Hc as <-. unfold corsConflict in Ec.
  repeat match goal with Hx : first_error _ _ = None |- _ => apply first_error_None in Hx as [? ?] end.
  repeat match goal with Hx : err_if _ _ = None |- _ => apply err_if_None in Hx end.
  cbn [Enabled AllowedOrigins AllowedMethods AllowedHeaders AllowCredentials ExposedHeaders] in *.
  split; cbn [Enabled AllowedOrigins AllowedMethods AllowedHeaders AllowCredentials ExposedHeaders MaxAgeSeconds].
  - intros ->. cbn [andb] in *. repeat split; intros ->; discriminate.
  - intros ->. cbn [andb] in *. rewrite <- !containsExact_in. repeat split; congruence.
  - apply Forall_cons; split; [|apply Forall_cons; split; [|apply Forall_singleton]].
    + apply (parseEntry_holds sole) with (1 := E0); [easy|]. unfold parseCORSOrigins. intros v l El. parsed_steps.
      intros Hin. now apply soleWildcard_sole with (1 := El).
    + apply (parseEntry_holds sole) with (1 := E2); [easy|]. apply headerNames_sole.
    + apply (parseEntry_holds sole) with (1 := E3); [easy|]. apply headerNames_sole.
  - apply (parseEntry_holds (fun n => 0 <= n <= maxJSONSafeInteger)) with (1 := E5); [now vm_compute|apply nonNegative_bounds].
Qed.

Definition limitSound (n : Z) : Prop := 0 <= n <= maxJSONSafeInteger.
Definition durationSound (d : Z) : Prop := exists seconds, 1 <= seconds /\ d = seconds * second /\ d <= max_int64.

(** What the rest of the gateway relies on. *)
Record settingsSound (r : RuntimeSettings) : Prop := {
  sound_limits : Forall limitSound [r.(GlobalConcurrencyLimit); r.(DefaultAccessKeyConcurrencyLimit);
                   r.(DefaultGroupConcurrencyLimit); r.(RetryCount); r.(rs_BlacklistThreshold)];
  sound_durations : Forall durationSound [r.(FirstByteTimeout); r.(RequestTimeout); r.(StreamIdleTimeout); r.(AffinityTTL);
                      r.(ValidationInterval)];
  sound_capacity : 1 <= r.(AffinityCapacity) <= maxAffinityCapacity;
  sound_days : minRequestLogRetentionDays <= r.(RequestLogRetentionDays) <= maxRequestLogRetentionDays;
  sound_rules : rulesSound forbiddenRequestName r.(rs_HeaderRules);
  sound_response_rules : rulesSound IsForbiddenResponseRuleName r.(ResponseHeaderRules);
  sound_cors : corsSound r.(CORS);
  sound_name : gatewayNamePattern (bytes r.(GatewayName)) = true;
  sound_currency : Money.CurrencyValid r.(rs_Currency) = true;
}.

Record groupSound {P} (g : ResolvedGroupSettings P) : Prop := {
  group_limits : Forall limitSound [g.(rg_ConcurrencyLimit); g.(rg_BlacklistThreshold)];
  group_durations : Forall durationSound [g.(rg_Timeouts).(FirstByte); g.(rg_Timeouts).(Request); g.(rg_Timeouts).(StreamIdle)];
  group_rules : rulesSound forbiddenRequestName g.(rg_HeaderRules);
}.

Lemma no_rules_sound forbidden : rulesSound forbidden (mkRules [] []).
Proof. split; cbn; [constructor|easy|easy]. Qed.

Lemma default_sound : settingsSound DefaultRuntimeSettings.
Proof.
  split; try apply no_rules_sound; try reflexivity; cbn.
  - repeat constructor; now vm_compute.
  - assert (Hd : forall d, 1 <= d / second /\ d = d / second * second /\ d <= max_int64 -> durationSound d)
      by (intros d Hx; now exists (d / second)).
    repeat (apply Forall_cons; split; [apply Hd; now vm_compute|]). apply Forall_nil. exact I.
  - now vm_compute.
  - now vm_compute.
  - split; cbn; [discriminate|discriminate| |now vm_compute]. unfold sole. repeat constructor; intros Hx; cbn in Hx; intuition.
Qed.

Lemma duration_sound key v d : durationOf key v = Ok d -> durationSound d.
Proof. intros E. apply duration_bounds in E as (s & _ & -> & Hd). exists s. unfold second in *. lia. Qed.

Lemma limit_sound path v n : nonNegativeWholeNumber path v = Ok n -> limitSound n.
Proof. apply nonNegative_bounds. Qed.

Lemma name_sound v name : parseGatewayName v = Ok name -> gatewayNamePattern (bytes name) = true.
Proof. destruct v; try discriminate. cbn [parseGatewayName]. case_if; [|discriminate]. now intros [= <-]. Qed.

(** Split facts about lists of fields into their elements. *)
Ltac fields :=
  repeat match goal with Hx : Forall _ (_ :: _) |- _ => apply Forall_cons in Hx as [? ?] end;
  repeat match goal with |- Forall _ (_ :: _) => apply Forall_cons; split | |- Forall _ [] => apply Forall_nil; exact I end; auto.

Lemma apply_sound r k v r' : settingsSound r -> applySetting r k v = Ok r' -> settingsSound r'.
Proof.
  intros [] Ha. destruct k; cbn [applySetting] in Ha; parsed_steps; try discriminate; subst r';
    (split; cbn; unfold const; auto; fields);
    eauto using limit_sound, duration_sound, inRange_bounds, parseHeaderRules_sound, parseCORS_sound, name_sound.
Qed.

Lemma loop_sound settings : forall r r', settingsSound r -> resolveLoop r settings = Ok r' -> settingsSound r'.
Proof.
  induction settings as [|[k v] settings IH]; cbn [resolveLoop]; intros r r' Hs Hr; [now injection Hr as <-|].
  destruct (applySetting r k v) eqn:E; [|discriminate]. eauto using apply_sound.
Qed.

Lemma currency_valid settings c : ResolveCurrency settings = Ok c -> Money.CurrencyValid c = true.
Proof.
  unfold ResolveCurrency. intros Hc. parsed_steps. case_if_in Hc.
  - destruct a0; [discriminate|]. now injection Hc as <-.
  - destruct a0 as [rate|]; [|discriminate]. destruct (Money.NewCurrency a rate) as [c'|] eqn:En; [|discriminate].
    injection Hc as ->. unfold Money.NewCurrency in En. destruct (Money.ParseCurrencyCode a) eqn:Ep; [|discriminate].
    case_if_in En; [discriminate|]. case_if_in En; [discriminate|]. injection En as <-.
    unfold Money.CurrencyValid, Money.NewCurrency. cbn. now rewrite Ep, E2, E3.
Qed.

Lemma resolved_settings_sound settings r : ResolveRuntimeSettings settings = Ok r -> settingsSound r.
Proof.
  unfold ResolveRuntimeSettings. intros Hr. parsed_steps. subst r.
  apply (loop_sound _ _ _ default_sound) in E. destruct E. split; auto. cbn. unfold const. now apply currency_valid in E0.
Qed.

Section Group.
Context {P : Type} (noOverrides : P) (compileOverrides : AnyValue -> parsed P).

Lemma inherited_sound base : settingsSound base -> groupSound (inherited noOverrides base).
Proof. intros []. split; cbn; auto; fields. Qed.

Lemma applyGroup_sound g k v g' : groupSound g -> applyGroupSetting compileOverrides g k v = Ok g' -> groupSound g'.
Proof.
  intros [] Ha. destruct k; cbn [applyGroupSetting] in Ha; parsed_steps; try discriminate; subst g';
    (split; cbn; unfold const; auto; fields);
    eauto using limit_sound, duration_sound, parseHeaderRules_sound.
Qed.

Lemma groupLoop_sound settings : forall g g', groupSound g -> groupLoop compileOverrides g settings = Ok g' -> groupSound g'.
Proof.
  induction settings as [|[k v] settings IH]; cbn [groupLoop]; intros g g' Hs Hr; [now injection Hr as <-|].
  destruct (applyGroupSetting compileOverrides g k v) eqn:E; [|discriminate]. eauto using applyGroup_sound.
Qed.

(** [C40] Accepted settings are within their bounds: limits are non-negative and exact in
    JavaScript; durations are a positive number of whole seconds that fits the 64 bits of
    nanoseconds; rules name each permitted header at most once and in canonical form; an
    enabled cross-origin policy has origins, methods and headers, its wildcard stands alone
    in the list it is in (origins, allowed headers or exposed headers), and one that allows
    credentials has no wildcard among its origins or its exposed headers - a wildcard among
    the allowed headers, the default, remains possible; and the limits, timeouts and header
    rules of a group are within the same bounds, whatever it overrides. *)
Theorem settings_in_bounds settings r group : ResolveRuntimeSettings settings = Ok r ->
  settingsSound r /\
  forall g, ResolveGroupRuntimeSettings noOverrides compileOverrides r group = Ok g -> groupSound g.
Proof.
  intros Hr. apply resolved_settings_sound in Hr as Hs. split; [exact Hs|]. intros g Hg.
  eapply groupLoop_sound; [|exact Hg]. now apply inherited_sound.
Qed.

End Group.
End Resolution.

(** ** Witnesses *)

#[local] Instance plainUrls : UrlParsers := {|
  urlParse := fun _ => None; urlString := Host; parseIP := fun _ => None; idnaToASCII := fun _ => None; lowerText := id;
|}.

(** Two settings that belong together, a timeout written as a JSON number and header rules. *)
Local Notation sampleSettings :=
  [(SettingRequestTimeout, ANumber "3e1"); (SettingCurrency, AString "CNY"); (SettingExchangeRate, AString "7.25");
   (SettingHeaderRules, AObject [("set", AObject [("x-team", AString "core")]); ("remove", AArray [AString "X-Debug"])]%string);
   (SettingAffinityCapacity, AFloat (FloatFinite 5 2))].

Local Notation sampleResolved :=
  (DefaultRuntimeSettings <| RequestTimeout := 30000000000 |> <| rs_Currency := Money.mkCurrency "CNY" 7250000 |>
     <| rs_HeaderRules := mkRules [("X-Team", "core")]%string ["X-Debug"%string] |> <| AffinityCapacity := 20 |>).

Lemma settings_resolved_exactly_witness :
  NoDup (map fst sampleSettings) /\ ResolveRuntimeSettings sampleSettings = Ok sampleResolved /\
  ResolveRuntimeSettings (rev sampleSettings) = Ok sampleResolved.
Proof.
  assert (Hd : NoDup (map fst sampleSettings)) by (apply (bool_decide_eq_true_1 _); vm_compute; reflexivity).
  assert (Hr : ResolveRuntimeSettings sampleSettings = Ok sampleResolved) by (vm_compute; reflexivity).
  split; [exact Hd|]. split; [exact Hr|].
  apply (proj2 (settings_resolved_exactly sampleSettings Hd) (rev sampleSettings) _ (Permutation_rev _)). exact Hr.
Defined.

Local Notation sampleGroup := [(SettingConcurrencyLimit, AInt64 4); (SettingFirstByteTimeout, AInt 9223372036)].

Lemma settings_in_bounds_witness :
  exists g, ResolveGroupRuntimeSettings tt (fun _ => Ok tt) sampleResolved sampleGroup = Ok g /\
            g.(rg_Timeouts).(FirstByte) = 9223372036000000000 /\ groupSound g.
Proof.
  assert (Hr : ResolveRuntimeSettings sampleSettings = Ok sampleResolved) by (vm_compute; reflexivity).
  eexists. split; [vm_compute; reflexivity|]. split; [vm_compute; reflexivity|].
  apply (proj2 (settings_in_bounds tt (fun _ => Ok tt) sampleSettings sampleResolved sampleGroup Hr)). vm_compute. reflexivity.
Defined.

End SettingsProps.
