(* ===== verification/Channel.v ===== *)
(** * Channels

    [internal/channel]: the vocabulary of channel modules ([spec/definition.go],
    [spec/normalize.go]), their compilation into definitions ([compiler.go]), the immutable
    registry of channels and the execution targets it resolves ([channel.go]).

    Texts of JSON objects are parsed and printed by arguments (class [ObjectCodec]); a field
    whose value is [null] decodes to the empty text.  Extension functions of modules are
    fields of their records.  A Go map is a list of entries with distinct keys. *)

From Stdlib Require Import ZArith Lia Bool String Ascii List.
From stdpp Require Import base gmap sets list strings sorting.
From coqutil Require Import Datatypes.RecordSettersUsingExistingGetters.
From S2P Require Import Prelude GoStrings Execution Contracts Headers Scheduler Settings.

Local Open Scope Z_scope.
Local Open Scope go_scope.

Module Channel.
Import Execution Contracts Headers Scheduler Settings.

(** ** Vocabulary *)

Inductive ProviderKind :=
| ProviderOpenAI | ProviderCodex | ProviderClaude | ProviderAntigravity | ProviderGrok | ProviderAnthropic | ProviderGemini
| ProviderMultiProtocolGateway | ProviderOpenAICompatible | ProviderCline | ProviderAzureOpenAI | ProviderAWSBedrock
| ProviderGoogleVertex | ProviderDeepSeek | ProviderOpenRouter | ProviderJev | ProviderGroq | ProviderXAI
| ProviderOther (raw : string).

Definition providerValid (kind : ProviderKind) : bool := match kind with ProviderOther _ => false | _ => true end.

Definition SupportsOutboundProxyKind (kind : ProviderKind) : bool :=
  match kind with ProviderOther _ | ProviderAzureOpenAI | ProviderAWSBedrock | ProviderGoogleVertex => false | _ => true end.

Inductive InputKind := InputText | InputURL | InputSecret | InputOther (raw : string).
#[export] Instance InputKind_eq_dec : EqDecision InputKind.
Proof. solve_decision. Defined.

Definition inputValid (k : InputKind) : bool := match k with InputOther _ => false | _ => true end.

Inductive NoticeID := NoticeClaudeOAuthRisk | NoticeAntigravityOAuthRisk | NoticeOther (raw : string).
#[export] Instance NoticeID_eq_dec : EqDecision NoticeID.
Proof. solve_decision. Defined.
Inductive NoticeTone := NoticeToneWarning | NoticeToneOther (raw : string).

Definition noticeValid (id : NoticeID) : bool := match id with NoticeOther _ => false | _ => true end.
Definition toneValid (tone : NoticeTone) : bool := match tone with NoticeToneOther _ => false | _ => true end.

Record Notice := mkNotice { notice_ID : NoticeID; Tone : NoticeTone }.

Inductive AuthorizationMethod := AuthorizationBrowserOAuth | AuthorizationDeviceOAuth | AuthorizationOAuthFile
| AuthorizationOther (raw : string).
#[export] Instance AuthorizationMethod_eq_dec : EqDecision AuthorizationMethod.
Proof. solve_decision. Defined.

Definition methodValid (m : AuthorizationMethod) : bool := match m with AuthorizationOther _ => false | _ => true end.

Inductive ConnectionType := ConnectionAPIKey | ConnectionSubscription | ConnectionOther (raw : string).
#[export] Instance ConnectionType_eq_dec : EqDecision ConnectionType.
Proof. solve_decision. Defined.

Definition connectionText (t : ConnectionType) : string :=
  match t with ConnectionAPIKey => "api_key" | ConnectionSubscription => "subscription" | ConnectionOther raw => raw end.

Record Connection := mkConnection {
  conn_Type : ConnectionType;
  CredentialInput : string;
  AuthorizationMethods : list AuthorizationMethod;
}.

Inductive EndpointPolicy := EndpointSDKDefault | EndpointFixedWithOverride | EndpointRequiredBaseURL | EndpointCloudParams
| EndpointNone | EndpointOther (raw : string).
#[export] Instance EndpointPolicy_eq_dec : EqDecision EndpointPolicy.
Proof. solve_decision. Defined.

Record ProviderBinding := mkProvider {
  pb_ProviderKind : ProviderKind;
  pb_CatalogProviderID : string;
  pb_EndpointPolicy : EndpointPolicy;
  FixedBaseURL : string;
  pb_DefaultBaseURLs : list string;
}.

Record ResponseScrub := mkScrub { AnyKeys : list string; UsageKeys : list string; HeaderPrefixes : list string }.

Record CapabilityBindings := mkCapabilities {
  SubscriptionDriver : string;
  ModelDiscovery : string;
  QuotaObservation : string;
  ResetCreditAction : string;
}.

Definition storeHandlingValid (h : ResponsesStoreHandling) : bool :=
  match h with ResponsesStoreHandlingOther _ => false | _ => true end.

(** ** Modules *)

Definition ValueNormalizer : Type := string -> option string.
Abbreviation Values := (gmap string string).

Record Field := mkField {
  f_Key : string;
  f_Label : string;
  f_InputKind : InputKind;
  f_Required : bool;
  f_Sensitive : bool;
  f_Default : string;
  f_Normalizer : option ValueNormalizer;
}.

Record Route := mkModuleRoute {
  r_ClientProtocol : Protocol;
  r_Operation : Operation;
  r_Mode : RouteMode;
  r_StoreHandling : ResponsesStoreHandling;
  r_Resolver : string;
  r_PossibleModes : list RouteMode;
}.

Definition NewRoute (clientProtocol : Protocol) (operation : Operation) (mode : RouteMode) : Route :=
  mkModuleRoute clientProtocol operation mode ResponsesStoreHandlingNone "" [].

Definition NewResponsesCreateRoute (mode : RouteMode) (handling : ResponsesStoreHandling) : Route :=
  mkModuleRoute OpenAIResponses OperationResponsesCreate mode handling "" [].

Record ModuleDefinition := mkDefinition {
  md_ResponsesWebsocket : WebsocketCapabilities;
  md_ID : string;
  md_Name : string;
  md_Mark : string;
  md_Icon : string;
  md_SearchTerms : list string;
  md_Description : string;
  md_Notices : list Notice;
  md_Connection : Connection;
  md_Params : list Field;
  md_ParamsNormalizer : string;
  md_Credentials : list Field;
  md_CredentialValidator : string;
  md_Provider : ProviderBinding;
  md_ResponseScrub : ResponseScrub;
  md_Routes : list Route;
  md_Capabilities : CapabilityBindings;
}.

(** Extension functions; a nil function is [None].  Validators answer whether they reject. *)
Record Extensions := mkExtensions {
  ParamsNormalizers : list (string * option (list ascii -> option Values));
  CredentialValidators : list (string * option (Values -> bool));
  RouteResolvers : list (string * option (string -> RouteMode -> RouteMode));
}.

Definition noExtensions : Extensions := mkExtensions [] [] [].

Record ModuleSource := mkModule { mod_Definition : ModuleDefinition; mod_Extensions : Extensions }.

(** ** Normalisers *)

Definition NormalizeNonEmpty (value : string) : option string :=
  let value := trimmedText value in if emptyText value then None else Some value.

(** No byte of a text up to 255 bytes is white space or a control byte; characters outside
    ASCII are allowed. *)
Definition NormalizeCloudIdentifier (value : string) : option string :=
  let value := trimmedText value in
  if emptyText value || Nat.ltb 255 (length (bytes value)) then None
  else if existsb (fun c => (byte_val c <=? 32) || (byte_val c =? 127)) (bytes value) then None
  else Some value.

Section Urls.
Context `{UrlParsers}.

Definition NormalizeHTTPSBaseURL (value : string) : option string :=
  match NormalizeBaseURL value with
  | None => None
  | Some normalized =>
    match urlParse normalized with
    | Some u => if String.eqb u.(Scheme) "https" then Some normalized else None
    | None => None
    end
  end.

Definition NormalizeOptionalHTTPSBaseURL (value : string) : option string :=
  if emptyText (trimmedText value) then Some ""%string else NormalizeHTTPSBaseURL value.

End Urls.

(** ** Compiled definitions *)

Record FieldDescriptor := mkFieldDescriptor {
  Key : string;
  Label : string;
  fd_InputKind : InputKind;
  Required : bool;
  Sensitive : bool;
  DefaultValue : option string;
}.

Record fieldSpec := mkFieldSpec { descriptor : FieldDescriptor; defaultValue : string; normalize : ValueNormalizer }.

Definition objectSchema : Type := list fieldSpec.

Record RouteDescriptor := mkRouteDescriptor {
  rd_ClientProtocol : Protocol;
  rd_Operation : Operation;
  rd_RouteMode : RouteMode;
  ModelDependent : bool;
  rd_PossibleModes : list RouteMode;
}.

Record CapabilityDescriptor := mkCapabilityDescriptor {
  cd_ModelDiscovery : bool;
  cd_QuotaObservation : bool;
  ResetCredit : bool;
  OutboundProxy : bool;
}.

Record Descriptor := mkDescriptor {
  ID : string;
  Name : string;
  Mark : string;
  Icon : string;
  SearchTerms : list string;
  Description : string;
  Notices : list Notice;
  ParamFields : list FieldDescriptor;
  CredentialFields : list FieldDescriptor;
  d_Connection : Connection;
  Capabilities : CapabilityDescriptor;
  Routes : list RouteDescriptor;
  ClientProtocols : list Protocol;
  DefaultBaseURLs : list string;
}.

Definition routeKey : Type := Protocol * Operation.

Record definition := mkCompiled {
  responsesWebsocket : WebsocketCapabilities;
  def_descriptor : Descriptor;
  params : objectSchema;
  validateParams : option (list ascii -> option Values);
  credentials : objectSchema;
  validateCredential : option (Values -> bool);
  catalogProviderID : string;
  providerKind : ProviderKind;
  capabilities : CapabilityBindings;
  responseScrub : ResponseScrub;
  endpointPolicy : EndpointPolicy;
  fixedBaseURL : string;
  fixedTargetConfig : list ascii;
  def_modes : list (routeKey * RouteMode);
  def_resolvers : list (routeKey * (string -> RouteMode -> RouteMode));
  def_storeHandlings : list (routeKey * ResponsesStoreHandling);
}.

Inductive ChannelError := InvalidModule (channel what : string) | DuplicateChannel (channel : string)
| FieldError (field reason : string).

Abbreviation compiled := (result ChannelError).

(** ** Compiling a module *)

(** Every registered extension is named, defined and referenced. *)
Definition extensionsValid {F} (referenced : string -> bool) (extensions : list (string * option F)) : bool :=
  forallb (fun e => negb (emptyText e.1) && present e.2 && referenced e.1) extensions.

Definition compileModuleExtensions (m : ModuleSource) : option ChannelError :=
  let d := m.(mod_Definition) in
  let e := m.(mod_Extensions) in
  err_if (negb (extensionsValid (String.eqb d.(md_ParamsNormalizer)) e.(ParamsNormalizers)))
    (InvalidModule d.(md_ID) "params normalizer") ;;!
  err_if (negb (extensionsValid (String.eqb d.(md_CredentialValidator)) e.(CredentialValidators)))
    (InvalidModule d.(md_ID) "credential validator") ;;!
  err_if (negb (extensionsValid (fun id => existsb (fun r => String.eqb r.(r_Resolver) id) d.(md_Routes)) e.(RouteResolvers)))
    (InvalidModule d.(md_ID) "route resolver").

(** The function registered under an id. *)
Definition extension {F} (extensions : list (string * option F)) (id : string) : option F := mjoin (assoc id extensions).

Definition idByte (c : ascii) : bool := between 97 122 c || between 48 57 c || Ascii.eqb c "_".

(** [strings.Trim] by the permitted bytes leaves nothing exactly when every byte is
    permitted. *)
Definition channelIDValid (id : string) : bool :=
  match bytes id with
  | [] => false
  | c :: rest => forallb idByte (c :: rest) && negb (Ascii.eqb c "_") && negb (Ascii.eqb (List.last (c :: rest) c) "_")
  end.

Fixpoint noticesValid (seen : list NoticeID) (notices : list Notice) : bool :=
  match notices with
  | [] => true
  | n :: rest => noticeValid n.(notice_ID) && toneValid n.(Tone) && negb (bool_decide (n.(notice_ID) ∈ seen)) &&
                 noticesValid (n.(notice_ID) :: seen) rest
  end.

Fixpoint methodsValid (seen : list AuthorizationMethod) (methods : list AuthorizationMethod) : bool :=
  match methods with
  | [] => true
  | m :: rest => methodValid m && negb (bool_decide (m ∈ seen)) && methodsValid (m :: seen) rest
  end.

Definition validateConnection (source : ModuleDefinition) : option ChannelError :=
  let c := source.(md_Connection) in
  let b := source.(md_Capabilities) in
  let invalid := InvalidModule source.(md_ID) "connection" in
  (match c.(conn_Type) with
   | ConnectionAPIKey =>
     err_if (negb (String.eqb c.(CredentialInput) "entries") || negb (isEmpty c.(AuthorizationMethods))) invalid ;;!
     err_if (negb (emptyText b.(SubscriptionDriver)) || negb (emptyText b.(ModelDiscovery)) ||
             negb (emptyText b.(QuotaObservation)) || negb (emptyText b.(ResetCreditAction))) invalid
   | ConnectionSubscription =>
     err_if (negb (String.eqb c.(CredentialInput) "authorization") || isEmpty c.(AuthorizationMethods)) invalid ;;!
     err_if (emptyText b.(SubscriptionDriver)) invalid
   | ConnectionOther _ => Some invalid
   end) ;;!
  err_if (negb (methodsValid [] c.(AuthorizationMethods))) invalid.

Fixpoint compileSchema (channelID name : string) (seen : list string) (fields : list Field) : compiled objectSchema :=
  match fields with
  | [] => Ok []
  | f :: rest =>
    let invalid := InvalidModule channelID name in
    match f.(f_Normalizer) with
    | None => Err invalid
    | Some normalizer =>
      if emptyText f.(f_Key) || bool_decide (f.(f_Key) ∈ seen) || negb (inputValid f.(f_InputKind)) ||
         negb (Bool.eqb f.(f_Sensitive) (bool_decide (f.(f_InputKind) = InputSecret))) ||
         (f.(f_Sensitive) && negb (emptyText f.(f_Default))) then Err invalid
      else
        let? fallback :=
          if emptyText f.(f_Default) then Ok None
          else match normalizer f.(f_Default) with Some v => Ok (Some v) | None => Err invalid end in
        let? schema := compileSchema channelID name (f.(f_Key) :: seen) rest in
        Ok (mkFieldSpec (mkFieldDescriptor f.(f_Key) f.(f_Label) f.(f_InputKind) f.(f_Required) f.(f_Sensitive) fallback)
              (default ""%string fallback) normalizer :: schema)
    end
  end.

Definition resolveParamsNormalizer (channelID id : string) (e : Extensions) : compiled (option (list ascii -> option Values)) :=
  if emptyText id then Ok None
  else match extension e.(ParamsNormalizers) id with
       | Some f => Ok (Some f)
       | None => Err (InvalidModule channelID "params normalizer")
       end.

Definition resolveCredentialValidator (channelID id : string) (e : Extensions) : compiled (option (Values -> bool)) :=
  if emptyText id then Ok None
  else match extension e.(CredentialValidators) id with
       | Some f => Ok (Some f)
       | None => Err (InvalidModule channelID "credential validator")
       end.

Definition validProtocolOperation (p : Protocol) (o : Operation) : bool :=
  match o with
  | OperationChatCompletion =>
    match p with
    | OpenAIResponses | OpenAIImages | OpenAIEmbeddings | Rerank | Decisions | GeminiEmbeddings => false
    | _ => true
    end
  | OperationCountTokens => match p with Anthropic | Gemini => true | _ => false end
  | OperationResponsesCreate | OperationResponsesRetrieve | OperationResponsesDelete | OperationResponsesCancel
  | OperationResponsesInputItems | OperationResponsesCompact | OperationResponsesInputTokens | OperationWebSearch
  | OperationResponsesPassthrough => bool_decide (p = OpenAIResponses)
  | OperationImagesGenerate | OperationImagesEdit => bool_decide (p = OpenAIImages)
  | OperationRerank => bool_decide (p = Rerank)
  | OperationDecisionsCreate => bool_decide (p = Decisions)
  | OperationEmbeddingsCreate => match p with OpenAIEmbeddings | GeminiEmbeddings => true | _ => false end
  | OperationListModels =>
    match p with OpenAIResponses | OpenAIImages | OpenAIEmbeddings | Rerank | GeminiEmbeddings => false | _ => true end
  | OperationProbe => negb (bool_decide (p = OpenAIImages))
  | OperationOther _ => false
  end.

Definition isResponsesLifecycle (o : Operation) : bool :=
  match o with
  | OperationResponsesRetrieve | OperationResponsesDelete | OperationResponsesCancel | OperationResponsesInputItems
  | OperationResponsesCompact | OperationResponsesPassthrough => true
  | _ => false
  end.

Definition containsRouteMode (modes : list RouteMode) (want : RouteMode) : bool := existsb (fun m => bool_decide (m = want)) modes.

Definition isResponsesCreate (r : Route) : bool :=
  bool_decide (r.(r_ClientProtocol) = OpenAIResponses) && bool_decide (r.(r_Operation) = OperationResponsesCreate).

(** What one route must satisfy, after the routes [seen]. *)
Definition routeProblem (channelID : string) (seen : list routeKey) (r : Route) : option ChannelError :=
  let invalid := InvalidModule channelID "route" in
  err_if (negb (protocolValid r.(r_ClientProtocol)) || negb (operationValid r.(r_Operation)) || negb (routeModeValid r.(r_Mode)))
    invalid ;;!
  err_if (negb (validProtocolOperation r.(r_ClientProtocol) r.(r_Operation))) invalid ;;!
  err_if (bool_decide ((r.(r_ClientProtocol), r.(r_Operation)) ∈ seen)) (InvalidModule channelID "duplicate route") ;;!
  err_if (isResponsesLifecycle r.(r_Operation) && negb (bool_decide (r.(r_Mode) = RouteNative))) invalid ;;!
  err_if (negb (storeHandlingValid r.(r_StoreHandling))) invalid ;;!
  err_if (isResponsesCreate r && bool_decide (r.(r_StoreHandling) = ResponsesStoreHandlingNone)) invalid ;;!
  err_if (negb (isResponsesCreate r) && negb (bool_decide (r.(r_StoreHandling) = ResponsesStoreHandlingNone))) invalid ;;!
  err_if (bool_decide (r.(r_StoreHandling) = ResponsesStoreHandlingUpstreamManaged) &&
          (negb (bool_decide (r.(r_Mode) = RouteNative)) || containsRouteMode r.(r_PossibleModes) RouteConverted)) invalid.

(** A resolver confined to the declared modes; the empty mode stands for none. *)
Definition confined (allowed : list RouteMode) (resolver : string -> RouteMode -> RouteMode) (model : string) (mode : RouteMode)
    : RouteMode :=
  let resolved := resolver model mode in
  if containsRouteMode allowed resolved then resolved else RouteModeOther "".

(** The resolver of a route, if it has one. *)
Definition routeResolver (channelID : string) (r : Route) (e : Extensions) : compiled (option (string -> RouteMode -> RouteMode)) :=
  let invalid := Err (InvalidModule channelID "route resolver") in
  if emptyText r.(r_Resolver) then if isEmpty r.(r_PossibleModes) then Ok None else invalid
  else
    match extension e.(RouteResolvers) r.(r_Resolver) with
    | None => invalid
    | Some resolver =>
      if isEmpty r.(r_PossibleModes) || negb (forallb routeModeValid r.(r_PossibleModes)) ||
         negb (containsRouteMode r.(r_PossibleModes) r.(r_Mode)) then invalid
      else Ok (Some (confined r.(r_PossibleModes) resolver))
    end.

Record compiledRoutes := mkRoutes {
  cr_modes : list (routeKey * RouteMode);
  cr_resolvers : list (routeKey * (string -> RouteMode -> RouteMode));
  cr_storeHandlings : list (routeKey * ResponsesStoreHandling);
  cr_public : list RouteDescriptor;
}.

Fixpoint routeLoop (channelID : string) (e : Extensions) (seen : list routeKey) (routes : list Route) : compiled compiledRoutes :=
  match routes with
  | [] => Ok (mkRoutes [] [] [] [])
  | r :: rest =>
    let key := (r.(r_ClientProtocol), r.(r_Operation)) in
    match routeProblem channelID seen r with
    | Some problem => Err problem
    | None =>
      let? resolver := routeResolver channelID r e in
      let? rest := routeLoop channelID e (key :: seen) rest in
      Ok (mkRoutes ((key, r.(r_Mode)) :: rest.(cr_modes))
            (match resolver with Some f => (key, f) :: rest.(cr_resolvers) | None => rest.(cr_resolvers) end)
            (if isResponsesCreate r then (key, r.(r_StoreHandling)) :: rest.(cr_storeHandlings) else rest.(cr_storeHandlings))
            (mkRouteDescriptor r.(r_ClientProtocol) r.(r_Operation) r.(r_Mode) (negb (emptyText r.(r_Resolver))) r.(r_PossibleModes)
               :: rest.(cr_public)))
    end
  end.

Definition compileRoutes (channelID : string) (routes : list Route) (e : Extensions) : compiled compiledRoutes :=
  if isEmpty routes then Err (InvalidModule channelID "no routes") else routeLoop channelID e [] routes.

Definition schemaHasField (schema : objectSchema) (key : string) (required : bool) : bool :=
  existsb (fun f => String.eqb f.(descriptor).(Key) key && Bool.eqb f.(descriptor).(Required) required) schema.

Definition validateTargetPolicy (source : ModuleDefinition) (schema : objectSchema) : option ChannelError :=
  let fixed := negb (emptyText source.(md_Provider).(FixedBaseURL)) in
  let invalid := InvalidModule source.(md_ID) "endpoint policy" in
  match source.(md_Provider).(pb_EndpointPolicy) with
  | EndpointSDKDefault => err_if fixed invalid
  | EndpointFixedWithOverride => err_if (negb fixed || negb (schemaHasField schema "base_url" false)) invalid
  | EndpointRequiredBaseURL => err_if (fixed || negb (schemaHasField schema "base_url" true)) invalid
  | EndpointCloudParams => err_if (fixed || isEmpty schema) invalid
  | EndpointNone => err_if (fixed || negb (isEmpty schema)) invalid
  | EndpointOther _ => Some invalid
  end.

Definition scrubEntryValid (value : string) : bool :=
  negb (emptyText (trimmedText value)) && String.eqb (trimmedText value) value.

Definition compileResponseScrub (channelID : string) (s : ResponseScrub) : compiled ResponseScrub :=
  if forallb scrubEntryValid (s.(AnyKeys) ++ s.(UsageKeys) ++ s.(HeaderPrefixes)) then Ok s
  else Err (InvalidModule channelID "response scrub").

Definition publicCapabilities (source : CapabilityBindings) (routes : list Route) (kind : ProviderKind) : CapabilityDescriptor :=
  mkCapabilityDescriptor
    (negb (emptyText source.(ModelDiscovery)) || existsb (fun r => bool_decide (r.(r_Operation) = OperationListModels)) routes)
    (negb (emptyText source.(QuotaObservation))) (negb (emptyText source.(ResetCreditAction))) (SupportsOutboundProxyKind kind).

Definition DataPlaneProtocols : list Protocol :=
  [OpenAICompletions; OpenAIResponses; OpenAIImages; OpenAIEmbeddings; Rerank; Decisions; Anthropic; Gemini; GeminiEmbeddings].

Definition orderedProtocols (modes : list (routeKey * RouteMode)) : list Protocol :=
  List.filter (fun p => existsb (fun e => bool_decide (e.1.1 = p)) modes) DataPlaneProtocols.

(** ** Parameter objects *)

(** Parsing of a JSON object without repeated members or trailing data, and printing of a
    non-empty map of texts. *)
Class ObjectCodec := {
  parseObject : list ascii -> option (list (string * AnyValue));
  printValues : Values -> list ascii;
}.

Definition canonicalJSON `{ObjectCodec} (values : Values) : list ascii :=
  if decide (values = ∅) then bytes "{}" else printValues values.

Section Registry.
Context `{UrlParsers} `{ObjectCodec}.

Definition decodeStrictObject (raw : list ascii) : option (list (string * AnyValue)) :=
  match trim_space raw with
  | [] => Some []
  | c :: rest => if Ascii.eqb c "{" then parseObject (c :: rest) else None
  end.

(** [json.Unmarshal] into a string: [null] leaves it empty. *)
Definition stringField (raw : AnyValue) : option string :=
  match raw with AString s => Some s | ANull => Some ""%string | _ => None end.

Definition fieldError {A} (prefix : string) (f : fieldSpec) (reason : string) : compiled A :=
  Err (FieldError (prefix ++ "." ++ f.(descriptor).(Key)) reason).

(** The value of a field that is given as a text. *)
Definition givenValue (prefix : string) (f : fieldSpec) (value : string) : compiled (option string) :=
  if emptyText (trimmedText value) && negb (emptyText f.(defaultValue)) then Ok (Some f.(defaultValue))
  else
    match f.(normalize) value with
    | None => fieldError prefix f "invalid"
    | Some normalized => Ok (if emptyText normalized && negb f.(descriptor).(Required) then None else Some normalized)
    end.

(** The value of one field of the schema, if it has one. *)
Definition fieldValue (prefix : string) (object : list (string * AnyValue)) (f : fieldSpec) : compiled (option string) :=
  match entry f.(descriptor).(Key) object with
  | None =>
    if negb (emptyText f.(defaultValue)) then Ok (Some f.(defaultValue))
    else if f.(descriptor).(Required) then fieldError prefix f "required" else Ok None
  | Some raw =>
    match stringField raw with
    | None => fieldError prefix f "must be a string"
    | Some value => givenValue prefix f value
    end
  end.

Fixpoint fieldLoop (prefix : string) (object : list (string * AnyValue)) (schema : objectSchema) (values : Values) : compiled Values :=
  match schema with
  | [] => Ok values
  | f :: rest =>
    let? value := fieldValue prefix object f in
    fieldLoop prefix object rest (match value with Some v => <[f.(descriptor).(Key) := v]> values | None => values end)
  end.

Definition validateObject (s : objectSchema) (prefix : string) (raw : list ascii) : compiled Values :=
  match decodeStrictObject raw with
  | None => Err (FieldError prefix "invalid JSON object")
  | Some object =>
    match unknownEntry (map (fun f => f.(descriptor).(Key)) s) object with
    | Some key => Err (FieldError (prefix ++ "." ++ key) "unknown field")
    | None => fieldLoop prefix object s ∅
    end
  end.

(** ** Compiling a module, continued *)

Definition NormalizeBaseURLs (channelID : string) (urls : list string) : compiled (list string) :=
  foldr (fun raw rest =>
    let? rest := rest in
    match NormalizeHTTPSBaseURL raw with Some url => Ok (url :: rest) | None => Err (InvalidModule channelID "default URL") end)
    (Ok []) urls.

Definition compileModule (source : ModuleDefinition) (e : Extensions) : compiled definition :=
  let id := source.(md_ID) in
  if negb (channelIDValid id) then Err (InvalidModule id "id")
  else if emptyText (trimmedText source.(md_Name)) || emptyText (trimmedText source.(md_Mark)) then Err (InvalidModule id "metadata")
  else if negb (noticesValid [] source.(md_Notices)) then Err (InvalidModule id "notice")
  else if negb (providerValid source.(md_Provider).(pb_ProviderKind)) then Err (InvalidModule id "provider kind")
  else
    match validateConnection source with
    | Some problem => Err problem
    | None =>
      let? schema := compileSchema id "params" [] source.(md_Params) in
      let? credentialSchema := compileSchema id "credential" [] source.(md_Credentials) in
      let? normalizer := resolveParamsNormalizer id source.(md_ParamsNormalizer) e in
      let? validator := resolveCredentialValidator id source.(md_CredentialValidator) e in
      let? routes := compileRoutes id source.(md_Routes) e in
      match validateTargetPolicy source schema with
      | Some problem => Err problem
      | None =>
        if negb (emptyText source.(md_Capabilities).(ResetCreditAction)) && emptyText source.(md_Capabilities).(QuotaObservation)
        then Err (InvalidModule id "reset credit")
        else
          let? scrub := compileResponseScrub id source.(md_ResponseScrub) in
          let? fixed :=
            if emptyText source.(md_Provider).(FixedBaseURL) then Ok (""%string, [])
            else match NormalizeBaseURL source.(md_Provider).(FixedBaseURL) with
                 | Some url => Ok (url, canonicalJSON {["base_url"%string := url]})
                 | None => Err (InvalidModule id "fixed base URL")
                 end in
          let? urls := NormalizeBaseURLs id source.(md_Provider).(pb_DefaultBaseURLs) in
          let icon := trimmedText source.(md_Icon) in
          Ok {|
            responsesWebsocket := source.(md_ResponsesWebsocket);
            def_descriptor := {|
              ID := id; Name := source.(md_Name); Mark := source.(md_Mark); Icon := if emptyText icon then id else icon;
              SearchTerms := source.(md_SearchTerms); Description := source.(md_Description); Notices := source.(md_Notices);
              ParamFields := map descriptor schema; CredentialFields := map descriptor credentialSchema;
              d_Connection := source.(md_Connection);
              Capabilities := publicCapabilities source.(md_Capabilities) source.(md_Routes) source.(md_Provider).(pb_ProviderKind);
              Routes := routes.(cr_public); ClientProtocols := orderedProtocols routes.(cr_modes); DefaultBaseURLs := urls |};
            params := schema; validateParams := normalizer; credentials := credentialSchema; validateCredential := validator;
            catalogProviderID := source.(md_Provider).(pb_CatalogProviderID);
            providerKind := source.(md_Provider).(pb_ProviderKind); capabilities := source.(md_Capabilities);
            responseScrub := scrub; endpointPolicy := source.(md_Provider).(pb_EndpointPolicy);
            fixedBaseURL := fixed.1; fixedTargetConfig := fixed.2;
            def_modes := routes.(cr_modes); def_resolvers := routes.(cr_resolvers);
            def_storeHandlings := routes.(cr_storeHandlings) |}
      end
    end.

Fixpoint compileBuiltInModules (modules : list ModuleSource) : compiled (list definition) :=
  match modules with
  | [] => Ok []
  | m :: rest =>
    match compileModuleExtensions m with
    | Some problem => Err problem
    | None =>
      let? d := compileModule m.(mod_Definition) m.(mod_Extensions) in
      let? rest := compileBuiltInModules rest in
      Ok (d :: rest)
    end
  end.

(** ** The registry *)

Definition channelID (d : definition) : string := d.(def_descriptor).(ID).

Fixpoint distinctKeys (seen : list string) (schema : objectSchema) : bool :=
  match schema with
  | [] => true
  | f :: rest =>
    negb (emptyText f.(descriptor).(Key)) && inputValid f.(descriptor).(fd_InputKind) &&
    negb (bool_decide (f.(descriptor).(Key) ∈ seen)) && distinctKeys (f.(descriptor).(Key) :: seen) rest
  end.

(** The fixed target is valid JSON when it is an object. *)
Definition validateDefinition (d : definition) : option ChannelError :=
  let id := channelID d in
  err_if (negb (channelIDValid id)) (InvalidModule id "id") ;;!
  err_if (emptyText (trimmedText d.(def_descriptor).(Name))) (InvalidModule id "name") ;;!
  err_if (negb (providerValid d.(providerKind))) (InvalidModule id "provider kind") ;;!
  err_if (match d.(def_descriptor).(d_Connection).(conn_Type) with ConnectionOther _ => true | _ => false end)
    (InvalidModule id "connection type") ;;!
  err_if (emptyText d.(def_descriptor).(d_Connection).(CredentialInput)) (InvalidModule id "credential input") ;;!
  err_if (negb (isEmpty d.(fixedTargetConfig)) && negb (present (parseObject d.(fixedTargetConfig)))) (InvalidModule id "fixed target") ;;!
  err_if (negb (distinctKeys [] d.(params)) || negb (distinctKeys [] d.(credentials))) (InvalidModule id "field") ;;!
  err_if (isEmpty d.(def_modes)) (InvalidModule id "no client protocols") ;;!
  err_if (negb (forallb (fun e => protocolValid e.1.1 && operationValid e.1.2 && routeModeValid e.2) d.(def_modes)))
    (InvalidModule id "route mode").

(** Definitions in product order; the map by id finds the one with that id. *)
Definition Registry : Type := list definition.

Definition lookup (r : Registry) (id : string) : option definition := find (fun d => String.eqb (channelID d) id) r.

Fixpoint registryLoop (seen : list string) (definitions : list definition) : compiled Registry :=
  match definitions with
  | [] => Ok []
  | d :: rest =>
    match validateDefinition d with
    | Some problem => Err problem
    | None =>
      if bool_decide (channelID d ∈ seen) then Err (DuplicateChannel (channelID d))
      else let? rest := registryLoop (channelID d :: seen) rest in Ok (d :: rest)
    end
  end.

Definition newRegistry (definitions : list definition) : compiled Registry := registryLoop [] definitions.

Definition CompileRegistry (modules : list ModuleSource) : compiled Registry :=
  let? definitions := compileBuiltInModules modules in newRegistry definitions.

Definition Get (r : Registry) (id : string) : option Descriptor := def_descriptor <$> lookup r id.

Definition ListChannels (r : Registry) : list Descriptor := map def_descriptor r.

Definition matches (d : definition) (query : list ascii) : bool :=
  existsb (fun value => contains query (bytes (lowerText value)))
    (channelID d :: d.(def_descriptor).(Name) :: d.(def_descriptor).(Description) :: d.(def_descriptor).(SearchTerms)).

Definition Search (r : Registry) (query : string) : list Descriptor :=
  let normalized := lowerText (trimmedText query) in
  map def_descriptor (List.filter (fun d => emptyText normalized || matches d (bytes normalized)) r).

Definition SupportsConnectionType (r : Registry) (id connectionType : string) : bool :=
  match Get r id with
  | Some d => String.eqb (connectionText d.(d_Connection).(conn_Type)) (trimmedText connectionType)
  | None => false
  end.

Definition ConnectionTypeOf (r : Registry) (id : string) : option string :=
  match Get r id with
  | Some d => let t := connectionText d.(d_Connection).(conn_Type) in if emptyText t then None else Some t
  | None => None
  end.

Definition SupportsOutboundProxy (r : Registry) (id : string) : bool :=
  match lookup r id with Some d => SupportsOutboundProxyKind d.(providerKind) | None => false end.

Definition SupportsAuthorizationMethod (r : Registry) (id : string) (method : AuthorizationMethod) : bool :=
  match Get r id with
  | Some d => methodValid method && existsb (fun m => bool_decide (m = method)) d.(d_Connection).(AuthorizationMethods)
  | None => false
  end.

Definition FixedBaseURLOf (r : Registry) (id : string) : option string :=
  match lookup r id with
  | Some d =>
    if negb (bool_decide (d.(endpointPolicy) = EndpointFixedWithOverride)) || emptyText d.(fixedBaseURL) then None
    else Some d.(fixedBaseURL)
  | None => None
  end.

Definition unknownChannel {A} : compiled A := Err (FieldError "channel_id" "unknown channel").

Definition validateParamsOf (d : definition) (raw : list ascii) : compiled Values :=
  match d.(validateParams) with
  | Some f => match f raw with Some values => Ok values | None => Err (FieldError "params" "invalid") end
  | None => validateObject d.(params) "params" raw
  end.

Definition ValidateParams (r : Registry) (id : string) (raw : list ascii) : compiled Values :=
  match lookup r id with None => unknownChannel | Some d => validateParamsOf d raw end.

Definition ValidateCredential (r : Registry) (id : string) (raw : list ascii) : compiled Values :=
  match lookup r id with
  | None => unknownChannel
  | Some d =>
    let? values := validateObject d.(credentials) "credential" raw in
    match d.(validateCredential) with
    | Some rejects => if rejects values then Err (FieldError "credential" "invalid") else Ok values
    | None => Ok values
    end
  end.

(** ** Execution targets *)

Record Target := mkTarget {
  t_ResponsesWebsocket : WebsocketCapabilities;
  t_ChannelID : string;
  t_ProviderKind : ProviderKind;
  t_TargetConfig : list ascii;
  t_CatalogProviderID : string;
  t_modes : list (routeKey * RouteMode);
  t_resolvers : list (routeKey * (string -> RouteMode -> RouteMode));
  t_storeHandlings : list (routeKey * ResponsesStoreHandling);
}.

Definition resolvedTargetConfig (d : definition) (values : Values) : list ascii :=
  if negb (isEmpty d.(fixedTargetConfig)) then
    match values !! "base_url"%string with
    | Some baseURL => canonicalJSON {["base_url"%string := baseURL]}
    | None => d.(fixedTargetConfig)
    end
  else if negb (isEmpty d.(params)) then canonicalJSON values
  else bytes "{}".

Definition targetOf (id : string) (d : definition) (values : Values) : Target :=
  mkTarget d.(responsesWebsocket) id d.(providerKind) (resolvedTargetConfig d values) d.(catalogProviderID)
    d.(def_modes) d.(def_resolvers) d.(def_storeHandlings).

Definition Resolve (r : Registry) (id : string) (raw : list ascii) : compiled Target :=
  match lookup r id with
  | None => unknownChannel
  | Some d => let? values := ValidateParams r id raw in Ok (targetOf id d values)
  end.

Definition ResolveExecutionTarget (r : Registry) (id : string) (raw : list ascii) : compiled Target :=
  match lookup r id with
  | None => unknownChannel
  | Some d =>
    if negb (isEmpty d.(fixedTargetConfig)) then
      if bool_decide (trim_space raw = d.(fixedTargetConfig)) then Resolve r id []
      else
        let? values := ValidateParams r id raw in
        match values !! "base_url"%string with
        | None => Err (FieldError "target_config" "does not match channel preset")
        | Some _ => Resolve r id (canonicalJSON values)
        end
    else Resolve r id raw
  end.

End Registry.

Definition TargetMode (t : Target) (p : Protocol) (o : Operation) : option RouteMode := assoc (p, o) t.(t_modes).

Definition TargetStoreHandling (t : Target) (p : Protocol) (o : Operation) : ResponsesStoreHandling :=
  default ResponsesStoreHandlingNone (assoc (p, o) t.(t_storeHandlings)).

Definition ModeForModel (t : Target) (p : Protocol) (o : Operation) (upstreamModel : string) : option RouteMode :=
  match TargetMode t p o with
  | None => None
  | Some mode =>
    match assoc (p, o) t.(t_resolvers) with
    | Some resolver => let resolved := resolver upstreamModel mode in if routeModeValid resolved then Some resolved else None
    | None => Some mode
    end
  end.

(** The first protocol, in canonical order, whose route mode satisfies a test. *)
Fixpoint firstRoute (t : Target) (o : Operation) (model : string) (test : RouteMode -> bool) (protocols : list Protocol)
    : option (Protocol * RouteMode) :=
  match protocols with
  | [] => None
  | p :: rest =>
    match ModeForModel t p o model with
    | Some mode => if test mode then Some (p, mode) else firstRoute t o model test rest
    | None => firstRoute t o model test rest
    end
  end.

Definition PreferredRoute (t : Target) (o : Operation) (model : string) : option (Protocol * RouteMode) :=
  match firstRoute t o model (fun m => bool_decide (m = RouteNative)) DataPlaneProtocols with
  | Some found => Some found
  | None => firstRoute t o model (fun _ => true) DataPlaneProtocols
  end.

Definition operationText (o : Operation) : string :=
  match o with
  | OperationChatCompletion => "chat_completion"
  | OperationResponsesCreate => "responses_create"
  | OperationResponsesRetrieve => "responses_retrieve"
  | OperationResponsesDelete => "responses_delete"
  | OperationResponsesCancel => "responses_cancel"
  | OperationResponsesInputItems => "responses_input_items"
  | OperationResponsesCompact => "responses_compact"
  | OperationResponsesInputTokens => "responses_input_tokens"
  | OperationCountTokens => "count_tokens"
  | OperationResponsesPassthrough => "responses_passthrough"
  | OperationWebSearch => "web_search"
  | OperationImagesGenerate => "images_generate"
  | OperationImagesEdit => "images_edit"
  | OperationEmbeddingsCreate => "embeddings_create"
  | OperationRerank => "rerank"
  | OperationDecisionsCreate => "decisions_create"
  | OperationListModels => "list_models"
  | OperationProbe => "probe"
  | OperationOther raw => raw
  end.

Definition operationBefore (a b : Operation) : Prop := String.leb (operationText a) (operationText b) = true.
#[export] Instance operationBefore_dec : RelDecision operationBefore := fun a b => decide (String.leb _ _ = true).

Definition Operations (t : Target) (p : Protocol) : list Operation :=
  merge_sort operationBefore (map (fun e => e.1.2) (List.filter (fun e => bool_decide (e.1.1 = p)) t.(t_modes))).

(** What the scheduler reads of a target. *)
Definition schedulerTarget (t : Target) : ResolvedTarget :=
  mkResolved t.(t_ResponsesWebsocket) t.(t_ChannelID) (text t.(t_TargetConfig)) (TargetMode t) (TargetStoreHandling t).

End Channel.
