(* ===== verification/ChannelModules.v ===== *)
(** * The built-in channels

    [internal/channel/modules], one definition per module in product order, with the
    credential validators and the route resolver some of them bring along, and the list of
    [builtins.go].  Decoding and printing of service-account files are arguments. *)

From Stdlib Require Import ZArith Lia Bool String Ascii List.
From stdpp Require Import base gmap sets list strings.
From S2P Require Import Prelude GoStrings Execution Contracts Headers Scheduler Settings Channel.

Local Open Scope Z_scope.

(** The first JSON object of a text, and the printing of an object. *)
Class AccountCodec := {
  firstObject : list ascii -> option (list (string * Settings.AnyValue));
  printObject : list (string * Settings.AnyValue) -> string;
}.

Module ChannelModules.
Import Execution Contracts Headers Scheduler Settings Channel.
Local Open Scope string_scope.

(** ** Extensions *)

Definition given (values : Values) (key : string) : bool := negb (emptyText (default "" (values !! key))).

(** Whether the validator rejects. *)
Definition validateAzureCredential (values : Values) : bool :=
  let hasAPIKey := given values "api_key" in
  let entraCount := length (List.filter (given values) ["client_id"; "client_secret"; "tenant_id"]) in
  (hasAPIKey && negb (Nat.eqb entraCount 0)) || (negb hasAPIKey && negb (Nat.eqb entraCount 3)).

Definition validateBedrockCredential (values : Values) : bool :=
  let hasAPIKey := given values "api_key" in
  let hasAccessKey := given values "access_key" in
  let hasSecretKey := given values "secret_key" in
  let hasRole := given values "role_arn" in
  let hasSigV4Fields :=
    hasAccessKey || hasSecretKey || hasRole || given values "session_token" || given values "external_id" ||
    given values "session_name" in
  if hasAPIKey && hasSigV4Fields then true
  else if hasAPIKey then false
  else if negb (Bool.eqb hasAccessKey hasSecretKey) then true
  else if negb hasAccessKey && negb hasRole then true
  else if given values "session_token" && negb hasAccessKey then true
  else (given values "external_id" || given values "session_name") && negb hasRole.

(** The text without the first of the prefixes it has, compared in lower case. *)
Definition stripModelPrefix (model : list ascii) : list ascii :=
  match find (fun prefix => has_prefix (bytes prefix) (to_lower model)) ["publishers/google/models/"; "google/"] with
  | Some prefix => skipn (String.length prefix) model
  | None => model
  end.

Definition NormalizeVertexGeminiModel (upstreamModel : string) : option string :=
  let model := stripModelPrefix (trim_space (bytes upstreamModel)) in
  if isEmpty model || existsb (fun c => existsb (Ascii.eqb c) (bytes "/\:?#")) model then None
  else if all_digits model || contains (bytes "gemini") (to_lower model) || contains (bytes "gemma") (to_lower model)
  then Some (text model) else None.

Definition resolveVertexGeminiRoute (upstreamModel : string) (defaultMode : RouteMode) : RouteMode :=
  if present (NormalizeVertexGeminiModel upstreamModel) then RouteNative else defaultMode.

Section Modules.
Context `{UrlParsers} `{AccountCodec}.

Definition accountFields : list string := ["type"; "project_id"; "client_email"; "private_key"].

Definition NormalizeServiceAccountJSON (value : string) : option string :=
  match firstObject (trim_space (bytes value)) with
  | None => None
  | Some object =>
    if forallb (fun key =>
         match entry key object with
         | Some raw => match stringField raw with Some s => negb (emptyText (trimmedText s)) | None => false end
         | None => false
         end) accountFields
    then Some (printObject object) else None
  end.

(** ** Modules *)

Definition OpenAIModule : ModuleSource := mkModule {|
  md_ResponsesWebsocket := mkWebsocket true true true true true;
  md_ID := "openai"; md_Name := "OpenAI"; md_Mark := "OA";
  md_Icon := "openai";
  md_SearchTerms := ["gpt"];
  md_Description := "OpenAI official API";
  md_Notices := [];
  md_Connection := mkConnection ConnectionAPIKey "entries" [];
  md_Params := [mkField "base_url" "Base URL" InputURL false false "" (Some NormalizeBaseURL)];
  md_ParamsNormalizer := "";
  md_Credentials := [mkField "api_key" "API Key" InputSecret true true "" (Some NormalizeNonEmpty)];
  md_CredentialValidator := "";
  md_Provider := mkProvider ProviderOpenAI "openai" EndpointSDKDefault "" [];
  md_ResponseScrub := mkScrub [] [] [];
  md_Routes :=
    [NewRoute OpenAICompletions OperationChatCompletion RouteNative;
     NewRoute OpenAIEmbeddings OperationEmbeddingsCreate RouteNative;
     NewRoute OpenAIEmbeddings OperationProbe RouteNative;
     NewRoute OpenAIImages OperationImagesGenerate RouteNative;
     NewRoute OpenAIImages OperationImagesEdit RouteNative;
     NewRoute OpenAICompletions OperationListModels RouteNative;
     NewRoute OpenAICompletions OperationProbe RouteNative;
     NewResponsesCreateRoute RouteNative ResponsesStoreHandlingUpstreamManaged;
     NewRoute OpenAIResponses OperationProbe RouteNative;
     NewRoute Anthropic OperationChatCompletion RouteConverted;
     NewRoute Anthropic OperationCountTokens RouteConverted;
     NewRoute Anthropic OperationListModels RouteConverted;
     NewRoute Anthropic OperationProbe RouteConverted;
     NewRoute Gemini OperationChatCompletion RouteConverted;
     NewRoute Gemini OperationCountTokens RouteConverted;
     NewRoute Gemini OperationListModels RouteConverted;
     NewRoute Gemini OperationProbe RouteConverted;
     NewRoute OpenAIResponses OperationResponsesRetrieve RouteNative;
     NewRoute OpenAIResponses OperationResponsesDelete RouteNative;
     NewRoute OpenAIResponses OperationResponsesCancel RouteNative;
     NewRoute OpenAIResponses OperationResponsesInputItems RouteNative;
     NewRoute OpenAIResponses OperationResponsesCompact RouteNative;
     NewRoute OpenAIResponses OperationResponsesInputTokens RouteNative;
     NewRoute OpenAIResponses OperationResponsesPassthrough RouteNative];
  md_Capabilities := mkCapabilities "" "" "" "";
|} noExtensions.

Definition CodexModule : ModuleSource := mkModule {|
  md_ResponsesWebsocket := mkWebsocket true true false true false;
  md_ID := "codex"; md_Name := "Codex"; md_Mark := "CX";
  md_Icon := "codex";
  md_SearchTerms := ["subscription"; "oauth"; "chatgpt"];
  md_Description := "OpenAI Codex subscription";
  md_Notices := [];
  md_Connection := mkConnection ConnectionSubscription "authorization" [AuthorizationBrowserOAuth; AuthorizationOAuthFile];
  md_Params := [mkField "base_url" "Base URL" InputURL false false "" (Some NormalizeOptionalHTTPSBaseURL)];
  md_ParamsNormalizer := "";
  md_Credentials := [];
  md_CredentialValidator := "";
  md_Provider := mkProvider ProviderCodex "" EndpointSDKDefault "" ["https://chatgpt.com"];
  md_ResponseScrub := mkScrub [] [] [];
  md_Routes :=
    [NewRoute OpenAICompletions OperationChatCompletion RouteConverted;
     NewRoute OpenAIImages OperationImagesGenerate RouteNative;
     NewRoute OpenAIImages OperationImagesEdit RouteNative;
     NewResponsesCreateRoute RouteNative ResponsesStoreHandlingStateless;
     NewRoute OpenAIResponses OperationResponsesInputTokens RouteNative;
     NewRoute OpenAIResponses OperationWebSearch RouteNative;
     NewRoute Anthropic OperationChatCompletion RouteConverted;
     NewRoute Anthropic OperationCountTokens RouteConverted;
     NewRoute Gemini OperationChatCompletion RouteConverted;
     NewRoute Gemini OperationCountTokens RouteConverted];
  md_Capabilities := mkCapabilities "codex" "codex_models" "codex_quota" "codex_reset_credit";
|} noExtensions.

Definition ClaudeModule : ModuleSource := mkModule {|
  md_ResponsesWebsocket := mkWebsocket false false false false false;
  md_ID := "claude"; md_Name := "Claude"; md_Mark := "CL";
  md_Icon := "claude";
  md_SearchTerms := ["subscription"; "oauth"; "claude"; "anthropic"];
  md_Description := "Anthropic Claude subscription";
  md_Notices := [];
  md_Connection := mkConnection ConnectionSubscription "authorization" [AuthorizationBrowserOAuth; AuthorizationOAuthFile];
  md_Params := [mkField "base_url" "API root URL" InputURL false false "" (Some NormalizeOptionalHTTPSBaseURL)];
  md_ParamsNormalizer := "";
  md_Credentials := [];
  md_CredentialValidator := "";
  md_Provider := mkProvider ProviderClaude "" EndpointSDKDefault "" ["https://api.anthropic.com"];
  md_ResponseScrub := mkScrub [] [] [];
  md_Routes :=
    [NewRoute Anthropic OperationChatCompletion RouteNative;
     NewRoute Anthropic OperationCountTokens RouteNative;
     NewRoute OpenAICompletions OperationChatCompletion RouteConverted;
     NewResponsesCreateRoute RouteConverted ResponsesStoreHandlingStateless;
     NewRoute OpenAIResponses OperationResponsesInputTokens RouteConverted;
     NewRoute Gemini OperationChatCompletion RouteConverted;
     NewRoute Gemini OperationCountTokens RouteConverted];
  md_Capabilities := mkCapabilities "claude" "claude_models" "claude_quota" "";
|} noExtensions.

Definition AntigravityModule : ModuleSource := mkModule {|
  md_ResponsesWebsocket := mkWebsocket false false false false false;
  md_ID := "antigravity"; md_Name := "Antigravity"; md_Mark := "AG";
  md_Icon := "antigravity";
  md_SearchTerms := ["subscription"; "oauth"; "google"; "antigravity"];
  md_Description := "Google Antigravity subscription";
  md_Notices := [];
  md_Connection := mkConnection ConnectionSubscription "authorization" [AuthorizationBrowserOAuth; AuthorizationOAuthFile];
  md_Params := [mkField "base_url" "API root URL" InputURL false false "" (Some NormalizeOptionalHTTPSBaseURL)];
  md_ParamsNormalizer := "";
  md_Credentials := [];
  md_CredentialValidator := "";
  md_Provider := mkProvider ProviderAntigravity "" EndpointSDKDefault "" ["https://daily-cloudcode-pa.googleapis.com"; "https://cloudcode-pa.googleapis.com"];
  md_ResponseScrub := mkScrub [] [] [];
  md_Routes :=
    [NewRoute Gemini OperationChatCompletion RouteNative;
     NewRoute Gemini OperationCountTokens RouteNative;
     NewRoute Anthropic OperationChatCompletion RouteConverted;
     NewRoute Anthropic OperationCountTokens RouteConverted;
     NewRoute OpenAICompletions OperationChatCompletion RouteConverted;
     NewRoute OpenAIImages OperationImagesGenerate RouteConverted;
     NewResponsesCreateRoute RouteConverted ResponsesStoreHandlingStateless;
     NewRoute OpenAIResponses OperationResponsesInputTokens RouteConverted];
  md_Capabilities := mkCapabilities "antigravity" "antigravity_models" "antigravity_quota" "";
|} noExtensions.

Definition GrokModule : ModuleSource := mkModule {|
  md_ResponsesWebsocket := mkWebsocket false false false false false;
  md_ID := "grok"; md_Name := "Grok"; md_Mark := "GR";
  md_Icon := "xai";
  md_SearchTerms := ["subscription"; "oauth"; "xai"; "grok"];
  md_Description := "xAI Grok subscription";
  md_Notices := [];
  md_Connection := mkConnection ConnectionSubscription "authorization" [AuthorizationDeviceOAuth; AuthorizationOAuthFile];
  md_Params := [mkField "base_url" "API root URL" InputURL false false "" (Some NormalizeOptionalHTTPSBaseURL)];
  md_ParamsNormalizer := "";
  md_Credentials := [];
  md_CredentialValidator := "";
  md_Provider := mkProvider ProviderGrok "" EndpointSDKDefault "" ["https://cli-chat-proxy.grok.com"];
  md_ResponseScrub := mkScrub [] [] [];
  md_Routes :=
    [NewResponsesCreateRoute RouteNative ResponsesStoreHandlingStateless;
     NewRoute OpenAIResponses OperationResponsesInputTokens RouteNative;
     NewRoute OpenAICompletions OperationChatCompletion RouteConverted;
     NewRoute Anthropic OperationChatCompletion RouteConverted;
     NewRoute Anthropic OperationCountTokens RouteConverted;
     NewRoute Gemini OperationChatCompletion RouteConverted;
     NewRoute Gemini OperationCountTokens RouteConverted];
  md_Capabilities := mkCapabilities "grok" "grok_models" "grok_quota" "";
|} noExtensions.

Definition AnthropicModule : ModuleSource := mkModule {|
  md_ResponsesWebsocket := mkWebsocket false false false false false;
  md_ID := "anthropic"; md_Name := "Anthropic"; md_Mark := "AN";
  md_Icon := "anthropic";
  md_SearchTerms := ["claude"];
  md_Description := "Anthropic official API";
  md_Notices := [];
  md_Connection := mkConnection ConnectionAPIKey "entries" [];
  md_Params := [mkField "base_url" "Base URL" InputURL false false "" (Some NormalizeBaseURL)];
  md_ParamsNormalizer := "";
  md_Credentials := [mkField "api_key" "API Key" InputSecret true true "" (Some NormalizeNonEmpty)];
  md_CredentialValidator := "";
  md_Provider := mkProvider ProviderAnthropic "anthropic" EndpointSDKDefault "" [];
  md_ResponseScrub := mkScrub [] [] [];
  md_Routes :=
    [NewRoute OpenAICompletions OperationChatCompletion RouteConverted;
     NewRoute OpenAICompletions OperationListModels RouteConverted;
     NewRoute OpenAICompletions OperationProbe RouteConverted;
     NewResponsesCreateRoute RouteConverted ResponsesStoreHandlingStateless;
     NewRoute OpenAIResponses OperationResponsesInputTokens RouteConverted;
     NewRoute OpenAIResponses OperationProbe RouteConverted;
     NewRoute Anthropic OperationChatCompletion RouteNative;
     NewRoute Anthropic OperationCountTokens RouteNative;
     NewRoute Anthropic OperationListModels RouteNative;
     NewRoute Anthropic OperationProbe RouteNative;
     NewRoute Gemini OperationChatCompletion RouteConverted;
     NewRoute Gemini OperationCountTokens RouteConverted;
     NewRoute Gemini OperationListModels RouteConverted;
     NewRoute Gemini OperationProbe RouteConverted];
  md_Capabilities := mkCapabilities "" "" "" "";
|} noExtensions.

Definition GeminiModule : ModuleSource := mkModule {|
  md_ResponsesWebsocket := mkWebsocket false false false false false;
  md_ID := "gemini"; md_Name := "Google Gemini"; md_Mark := "GE";
  md_Icon := "gemini";
  md_SearchTerms := ["google"];
  md_Description := "Google Gemini official API";
  md_Notices := [];
  md_Connection := mkConnection ConnectionAPIKey "entries" [];
  md_Params := [mkField "base_url" "Base URL" InputURL false false "" (Some NormalizeBaseURL)];
  md_ParamsNormalizer := "";
  md_Credentials := [mkField "api_key" "API Key" InputSecret true true "" (Some NormalizeNonEmpty)];
  md_CredentialValidator := "";
  md_Provider := mkProvider ProviderGemini "google" EndpointSDKDefault "" [];
  md_ResponseScrub := mkScrub [] [] [];
  md_Routes :=
    [NewRoute OpenAIImages OperationImagesGenerate RouteConverted;
     NewRoute OpenAIEmbeddings OperationEmbeddingsCreate RouteConverted;
     NewRoute OpenAICompletions OperationChatCompletion RouteConverted;
     NewRoute OpenAICompletions OperationListModels RouteConverted;
     NewRoute OpenAICompletions OperationProbe RouteConverted;
     NewResponsesCreateRoute RouteConverted ResponsesStoreHandlingStateless;
     NewRoute OpenAIResponses OperationResponsesInputTokens RouteConverted;
     NewRoute OpenAIResponses OperationProbe RouteConverted;
     NewRoute Anthropic OperationChatCompletion RouteConverted;
     NewRoute Anthropic OperationCountTokens RouteConverted;
     NewRoute Anthropic OperationListModels RouteConverted;
     NewRoute Anthropic OperationProbe RouteConverted;
     NewRoute Gemini OperationChatCompletion RouteNative;
     NewRoute Gemini OperationCountTokens RouteNative;
     NewRoute Gemini OperationListModels RouteNative;
     NewRoute Gemini OperationProbe RouteNative;
     NewRoute GeminiEmbeddings OperationEmbeddingsCreate RouteNative;
     NewRoute GeminiEmbeddings OperationProbe RouteNative];
  md_Capabilities := mkCapabilities "" "" "" "";
|} noExtensions.

Definition AzureOpenAIModule : ModuleSource := mkModule {|
  md_ResponsesWebsocket := mkWebsocket false false false false false;
  md_ID := "azure_openai"; md_Name := "Azure OpenAI"; md_Mark := "AZ";
  md_Icon := "azure";
  md_SearchTerms := ["azure"; "foundry"; "entra"];
  md_Description := "Azure OpenAI and Microsoft Foundry";
  md_Notices := [];
  md_Connection := mkConnection ConnectionAPIKey "entries" [];
  md_Params := [mkField "endpoint" "Azure endpoint" InputURL true false "" (Some NormalizeBaseURL)];
  md_ParamsNormalizer := "";
  md_Credentials := [mkField "api_key" "API Key" InputSecret false true "" (Some NormalizeNonEmpty); mkField "client_id" "Entra client ID" InputSecret false true "" (Some NormalizeNonEmpty); mkField "client_secret" "Entra client secret" InputSecret false true "" (Some NormalizeNonEmpty); mkField "tenant_id" "Entra tenant ID" InputSecret false true "" (Some NormalizeNonEmpty)];
  md_CredentialValidator := "azure_credential";
  md_Provider := mkProvider ProviderAzureOpenAI "azure" EndpointCloudParams "" [];
  md_ResponseScrub := mkScrub [] [] [];
  md_Routes :=
    [NewRoute OpenAICompletions OperationChatCompletion RouteConverted;
     NewRoute OpenAICompletions OperationListModels RouteConverted;
     NewRoute OpenAICompletions OperationProbe RouteConverted;
     NewResponsesCreateRoute RouteConverted ResponsesStoreHandlingStateless;
     NewRoute OpenAIResponses OperationProbe RouteConverted;
     NewRoute Anthropic OperationChatCompletion RouteConverted;
     NewRoute Anthropic OperationListModels RouteConverted;
     NewRoute Anthropic OperationProbe RouteConverted;
     NewRoute Gemini OperationChatCompletion RouteConverted;
     NewRoute Gemini OperationListModels RouteConverted;
     NewRoute Gemini OperationProbe RouteConverted];
  md_Capabilities := mkCapabilities "" "" "" "";
|} (mkExtensions [] [("azure_credential", Some validateAzureCredential)] []).

Definition AWSBedrockModule : ModuleSource := mkModule {|
  md_ResponsesWebsocket := mkWebsocket false false false false false;
  md_ID := "aws_bedrock"; md_Name := "AWS Bedrock"; md_Mark := "BR";
  md_Icon := "bedrock";
  md_SearchTerms := ["aws"; "amazon"; "sigv4"; "iam"];
  md_Description := "Amazon Bedrock";
  md_Notices := [];
  md_Connection := mkConnection ConnectionAPIKey "entries" [];
  md_Params := [mkField "region" "AWS region" InputText true false "" (Some NormalizeCloudIdentifier)];
  md_ParamsNormalizer := "";
  md_Credentials := [mkField "api_key" "Bedrock API Key" InputSecret false true "" (Some NormalizeNonEmpty); mkField "access_key" "AWS access key" InputSecret false true "" (Some NormalizeNonEmpty); mkField "secret_key" "AWS secret key" InputSecret false true "" (Some NormalizeNonEmpty); mkField "session_token" "AWS session token" InputSecret false true "" (Some NormalizeNonEmpty); mkField "role_arn" "AWS role ARN" InputSecret false true "" (Some NormalizeNonEmpty); mkField "external_id" "AWS external ID" InputSecret false true "" (Some NormalizeNonEmpty); mkField "session_name" "AWS role session name" InputSecret false true "" (Some NormalizeNonEmpty)];
  md_CredentialValidator := "bedrock_credential";
  md_Provider := mkProvider ProviderAWSBedrock "amazon-bedrock" EndpointCloudParams "" [];
  md_ResponseScrub := mkScrub [] [] [];
  md_Routes :=
    [NewRoute OpenAICompletions OperationChatCompletion RouteConverted;
     NewRoute OpenAICompletions OperationListModels RouteConverted;
     NewRoute OpenAICompletions OperationProbe RouteConverted;
     NewResponsesCreateRoute RouteConverted ResponsesStoreHandlingStateless;
     NewRoute OpenAIResponses OperationProbe RouteConverted;
     NewRoute Anthropic OperationChatCompletion RouteConverted;
     NewRoute Anthropic OperationListModels RouteConverted;
     NewRoute Anthropic OperationProbe RouteConverted;
     NewRoute Gemini OperationChatCompletion RouteConverted;
     NewRoute Gemini OperationListModels RouteConverted;
     NewRoute Gemini OperationProbe RouteConverted];
  md_Capabilities := mkCapabilities "" "" "" "";
|} (mkExtensions [] [("bedrock_credential", Some validateBedrockCredential)] []).

Definition GoogleVertexModule : ModuleSource := mkModule {|
  md_ResponsesWebsocket := mkWebsocket false false false false false;
  md_ID := "google_vertex"; md_Name := "Google Vertex AI"; md_Mark := "VX";
  md_Icon := "vertexai";
  md_SearchTerms := ["google"; "gcp"; "vertex"];
  md_Description := "Google Cloud Vertex AI";
  md_Notices := [];
  md_Connection := mkConnection ConnectionAPIKey "entries" [];
  md_Params := [mkField "location" "Vertex location" InputText false false "global" (Some NormalizeCloudIdentifier)];
  md_ParamsNormalizer := "";
  md_Credentials := [mkField "service_account_json" "Service account JSON" InputSecret true true "" (Some NormalizeServiceAccountJSON)];
  md_CredentialValidator := "";
  md_Provider := mkProvider ProviderGoogleVertex "google-vertex" EndpointCloudParams "" [];
  md_ResponseScrub := mkScrub [] [] [];
  md_Routes :=
    [NewRoute OpenAICompletions OperationChatCompletion RouteConverted;
     NewRoute OpenAICompletions OperationListModels RouteConverted;
     NewRoute OpenAICompletions OperationProbe RouteConverted;
     NewResponsesCreateRoute RouteConverted ResponsesStoreHandlingStateless;
     NewRoute OpenAIResponses OperationProbe RouteConverted;
     NewRoute Anthropic OperationChatCompletion RouteConverted;
     NewRoute Anthropic OperationListModels RouteConverted;
     NewRoute Anthropic OperationProbe RouteConverted;
     mkModuleRoute Gemini OperationChatCompletion RouteConverted ResponsesStoreHandlingNone "vertex_gemini_native" [RouteConverted; RouteNative];
     NewRoute Gemini OperationListModels RouteConverted;
     mkModuleRoute Gemini OperationProbe RouteConverted ResponsesStoreHandlingNone "vertex_gemini_native" [RouteConverted; RouteNative]];
  md_Capabilities := mkCapabilities "" "" "" "";
|} (mkExtensions [] [] [("vertex_gemini_native", Some resolveVertexGeminiRoute)]).

Definition DeepSeekModule : ModuleSource := mkModule {|
  md_ResponsesWebsocket := mkWebsocket false false false false false;
  md_ID := "deepseek"; md_Name := "DeepSeek"; md_Mark := "DS";
  md_Icon := "deepseek";
  md_SearchTerms := ["deep seek"];
  md_Description := "Managed API preset";
  md_Notices := [];
  md_Connection := mkConnection ConnectionAPIKey "entries" [];
  md_Params := [mkField "base_url" "Base URL" InputURL false false "" (Some NormalizeBaseURL)];
  md_ParamsNormalizer := "";
  md_Credentials := [mkField "api_key" "API Key" InputSecret true true "" (Some NormalizeNonEmpty)];
  md_CredentialValidator := "";
  md_Provider := mkProvider ProviderDeepSeek "deepseek" EndpointSDKDefault "" [];
  md_ResponseScrub := mkScrub [] [] [];
  md_Routes :=
    [NewRoute OpenAICompletions OperationChatCompletion RouteNative;
     NewRoute OpenAICompletions OperationListModels RouteNative;
     NewRoute OpenAICompletions OperationProbe RouteNative;
     NewResponsesCreateRoute RouteNative ResponsesStoreHandlingStateless;
     NewRoute OpenAIResponses OperationProbe RouteNative;
     NewRoute Anthropic OperationChatCompletion RouteNative;
     NewRoute Anthropic OperationListModels RouteConverted;
     NewRoute Anthropic OperationProbe RouteNative;
     NewRoute Gemini OperationChatCompletion RouteConverted;
     NewRoute Gemini OperationListModels RouteConverted;
     NewRoute Gemini OperationProbe RouteConverted];
  md_Capabilities := mkCapabilities "" "" "" "";
|} noExtensions.

Definition MoonshotAIModule : ModuleSource := mkModule {|
  md_ResponsesWebsocket := mkWebsocket false false false false false;
  md_ID := "moonshotai"; md_Name := "Moonshot AI"; md_Mark := "MS";
  md_Icon := "moonshot";
  md_SearchTerms := ["kimi"; "moonshot"];
  md_Description := "Managed API preset";
  md_Notices := [];
  md_Connection := mkConnection ConnectionAPIKey "entries" [];
  md_Params := [mkField "base_url" "Base URL" InputURL false false "" (Some NormalizeBaseURL)];
  md_ParamsNormalizer := "";
  md_Credentials := [mkField "api_key" "API Key" InputSecret true true "" (Some NormalizeNonEmpty)];
  md_CredentialValidator := "";
  md_Provider := mkProvider ProviderOpenAICompatible "moonshotai" EndpointFixedWithOverride "https://api.moonshot.cn/v1" [];
  md_ResponseScrub := mkScrub [] [] [];
  md_Routes :=
    [NewRoute OpenAICompletions OperationChatCompletion RouteNative;
     NewRoute OpenAICompletions OperationListModels RouteNative;
     NewRoute OpenAICompletions OperationProbe RouteNative;
     NewResponsesCreateRoute RouteConverted ResponsesStoreHandlingStateless;
     NewRoute OpenAIResponses OperationProbe RouteConverted;
     NewRoute Anthropic OperationChatCompletion RouteConverted;
     NewRoute Anthropic OperationListModels RouteConverted;
     NewRoute Anthropic OperationProbe RouteConverted;
     NewRoute Gemini OperationChatCompletion RouteConverted;
     NewRoute Gemini OperationListModels RouteConverted;
     NewRoute Gemini OperationProbe RouteConverted];
  md_Capabilities := mkCapabilities "" "" "" "";
|} noExtensions.

Definition SiliconFlowModule : ModuleSource := mkModule {|
  md_ResponsesWebsocket := mkWebsocket false false false false false;
  md_ID := "siliconflow"; md_Name := "SiliconFlow"; md_Mark := "SF";
  md_Icon := "siliconcloud";
  md_SearchTerms := ["silicon flow"];
  md_Description := "Managed API preset";
  md_Notices := [];
  md_Connection := mkConnection ConnectionAPIKey "entries" [];
  md_Params := [mkField "base_url" "Base URL" InputURL false false "" (Some NormalizeBaseURL)];
  md_ParamsNormalizer := "";
  md_Credentials := [mkField "api_key" "API Key" InputSecret true true "" (Some NormalizeNonEmpty)];
  md_CredentialValidator := "";
  md_Provider := mkProvider ProviderOpenAICompatible "siliconflow" EndpointFixedWithOverride "https://api.siliconflow.cn/v1" [];
  md_ResponseScrub := mkScrub [] [] [];
  md_Routes :=
    [NewRoute OpenAICompletions OperationChatCompletion RouteNative;
     NewRoute OpenAICompletions OperationListModels RouteNative;
     NewRoute OpenAICompletions OperationProbe RouteNative;
     NewResponsesCreateRoute RouteConverted ResponsesStoreHandlingStateless;
     NewRoute OpenAIResponses OperationProbe RouteConverted;
     NewRoute Anthropic OperationChatCompletion RouteConverted;
     NewRoute Anthropic OperationListModels RouteConverted;
     NewRoute Anthropic OperationProbe RouteConverted;
     NewRoute Gemini OperationChatCompletion RouteConverted;
     NewRoute Gemini OperationListModels RouteConverted;
     NewRoute Gemini OperationProbe RouteConverted];
  md_Capabilities := mkCapabilities "" "" "" "";
|} noExtensions.

Definition ZhipuAIModule : ModuleSource := mkModule {|
  md_ResponsesWebsocket := mkWebsocket false false false false false;
  md_ID := "zhipuai"; md_Name := "Zhipu AI"; md_Mark := "ZP";
  md_Icon := "zhipu";
  md_SearchTerms := ["glm"; "bigmodel"];
  md_Description := "Managed API preset";
  md_Notices := [];
  md_Connection := mkConnection ConnectionAPIKey "entries" [];
  md_Params := [mkField "base_url" "Base URL" InputURL false false "" (Some NormalizeBaseURL)];
  md_ParamsNormalizer := "";
  md_Credentials := [mkField "api_key" "API Key" InputSecret true true "" (Some NormalizeNonEmpty)];
  md_CredentialValidator := "";
  md_Provider := mkProvider ProviderOpenAICompatible "zhipuai" EndpointFixedWithOverride "https://open.bigmodel.cn/api/paas/v4" [];
  md_ResponseScrub := mkScrub [] [] [];
  md_Routes :=
    [NewRoute OpenAICompletions OperationChatCompletion RouteNative;
     NewRoute OpenAICompletions OperationListModels RouteNative;
     NewRoute OpenAICompletions OperationProbe RouteNative;
     NewResponsesCreateRoute RouteConverted ResponsesStoreHandlingStateless;
     NewRoute OpenAIResponses OperationProbe RouteConverted;
     NewRoute Anthropic OperationChatCompletion RouteConverted;
     NewRoute Anthropic OperationListModels RouteConverted;
     NewRoute Anthropic OperationProbe RouteConverted;
     NewRoute Gemini OperationChatCompletion RouteConverted;
     NewRoute Gemini OperationListModels RouteConverted;
     NewRoute Gemini OperationProbe RouteConverted];
  md_Capabilities := mkCapabilities "" "" "" "";
|} noExtensions.

Definition AlibabaModule : ModuleSource := mkModule {|
  md_ResponsesWebsocket := mkWebsocket false false false false false;
  md_ID := "alibaba"; md_Name := "Alibaba Cloud Bailian"; md_Mark := "BL";
  md_Icon := "alibabacloud";
  md_SearchTerms := ["dashscope"; "qwen"; "bailian"];
  md_Description := "Managed API preset";
  md_Notices := [];
  md_Connection := mkConnection ConnectionAPIKey "entries" [];
  md_Params := [mkField "base_url" "Base URL" InputURL false false "" (Some NormalizeBaseURL)];
  md_ParamsNormalizer := "";
  md_Credentials := [mkField "api_key" "API Key" InputSecret true true "" (Some NormalizeNonEmpty)];
  md_CredentialValidator := "";
  md_Provider := mkProvider ProviderOpenAICompatible "alibaba" EndpointFixedWithOverride "https://dashscope.aliyuncs.com/compatible-mode/v1" [];
  md_ResponseScrub := mkScrub [] [] [];
  md_Routes :=
    [NewRoute OpenAICompletions OperationChatCompletion RouteNative;
     NewRoute OpenAICompletions OperationListModels RouteNative;
     NewRoute OpenAICompletions OperationProbe RouteNative;
     NewResponsesCreateRoute RouteConverted ResponsesStoreHandlingStateless;
     NewRoute OpenAIResponses OperationProbe RouteConverted;
     NewRoute Anthropic OperationChatCompletion RouteConverted;
     NewRoute Anthropic OperationListModels RouteConverted;
     NewRoute Anthropic OperationProbe RouteConverted;
     NewRoute Gemini OperationChatCompletion RouteConverted;
     NewRoute Gemini OperationListModels RouteConverted;
     NewRoute Gemini OperationProbe RouteConverted];
  md_Capabilities := mkCapabilities "" "" "" "";
|} noExtensions.

Definition VolcengineModule : ModuleSource := mkModule {|
  md_ResponsesWebsocket := mkWebsocket false false false false false;
  md_ID := "volcengine"; md_Name := "Volcengine Ark"; md_Mark := "VE";
  md_Icon := "volcengine";
  md_SearchTerms := ["doubao"; "ark"];
  md_Description := "Managed API preset";
  md_Notices := [];
  md_Connection := mkConnection ConnectionAPIKey "entries" [];
  md_Params := [mkField "base_url" "Base URL" InputURL false false "" (Some NormalizeBaseURL)];
  md_ParamsNormalizer := "";
  md_Credentials := [mkField "api_key" "API Key" InputSecret true true "" (Some NormalizeNonEmpty)];
  md_CredentialValidator := "";
  md_Provider := mkProvider ProviderOpenAICompatible "volcengine" EndpointFixedWithOverride "https://ark.cn-beijing.volces.com/api/v3" [];
  md_ResponseScrub := mkScrub [] [] [];
  md_Routes :=
    [NewRoute OpenAICompletions OperationChatCompletion RouteNative;
     NewRoute OpenAICompletions OperationListModels RouteNative;
     NewRoute OpenAICompletions OperationProbe RouteNative;
     NewResponsesCreateRoute RouteConverted ResponsesStoreHandlingStateless;
     NewRoute OpenAIResponses OperationProbe RouteConverted;
     NewRoute Anthropic OperationChatCompletion RouteConverted;
     NewRoute Anthropic OperationListModels RouteConverted;
     NewRoute Anthropic OperationProbe RouteConverted;
     NewRoute Gemini OperationChatCompletion RouteConverted;
     NewRoute Gemini OperationListModels RouteConverted;
     NewRoute Gemini OperationProbe RouteConverted];
  md_Capabilities := mkCapabilities "" "" "" "";
|} noExtensions.

Definition JevModule : ModuleSource := mkModule {|
  md_ResponsesWebsocket := mkWebsocket false false false false false;
  md_ID := "jev"; md_Name := "Jev"; md_Mark := "JV";
  md_Icon := "jev";
  md_SearchTerms := ["typesafe"; "system one"; "decisions"];
  md_Description := "TypeSafe Jev official API";
  md_Notices := [];
  md_Connection := mkConnection ConnectionAPIKey "entries" [];
  md_Params := [mkField "base_url" "Base URL" InputURL false false "" (Some NormalizeBaseURL)];
  md_ParamsNormalizer := "";
  md_Credentials := [mkField "api_key" "API Key" InputSecret true true "" (Some NormalizeNonEmpty)];
  md_CredentialValidator := "";
  md_Provider := mkProvider ProviderJev "jev" EndpointFixedWithOverride "https://api.typesafe.ai/v1" ["https://api.typesafe.ai/v1"];
  md_ResponseScrub := mkScrub [] [] [];
  md_Routes :=
    [NewRoute Decisions OperationDecisionsCreate RouteNative;
     NewRoute Decisions OperationListModels RouteNative;
     NewRoute Decisions OperationProbe RouteNative];
  md_Capabilities := mkCapabilities "" "" "" "";
|} noExtensions.

Definition OpenRouterModule : ModuleSource := mkModule {|
  md_ResponsesWebsocket := mkWebsocket false false false false false;
  md_ID := "openrouter"; md_Name := "OpenRouter"; md_Mark := "OR";
  md_Icon := "openrouter";
  md_SearchTerms := ["router"];
  md_Description := "Managed API preset";
  md_Notices := [];
  md_Connection := mkConnection ConnectionAPIKey "entries" [];
  md_Params := [mkField "base_url" "Base URL" InputURL false false "" (Some NormalizeBaseURL)];
  md_ParamsNormalizer := "";
  md_Credentials := [mkField "api_key" "API Key" InputSecret true true "" (Some NormalizeNonEmpty)];
  md_CredentialValidator := "";
  md_Provider := mkProvider ProviderOpenRouter "openrouter" EndpointSDKDefault "" [];
  md_ResponseScrub := mkScrub [] [] [];
  md_Routes :=
    [NewRoute Decisions OperationDecisionsCreate RouteNative;
     NewRoute Decisions OperationProbe RouteNative;
     NewRoute OpenAICompletions OperationChatCompletion RouteNative;
     NewRoute OpenAIEmbeddings OperationEmbeddingsCreate RouteNative;
     NewRoute OpenAIEmbeddings OperationProbe RouteNative;
     NewRoute OpenAICompletions OperationListModels RouteNative;
     NewRoute OpenAICompletions OperationProbe RouteNative;
     NewResponsesCreateRoute RouteNative ResponsesStoreHandlingStateless;
     NewRoute OpenAIResponses OperationProbe RouteNative;
     NewRoute Anthropic OperationChatCompletion RouteConverted;
     NewRoute Anthropic OperationListModels RouteConverted;
     NewRoute Anthropic OperationProbe RouteConverted;
     NewRoute Gemini OperationChatCompletion RouteConverted;
     NewRoute Gemini OperationListModels RouteConverted;
     NewRoute Gemini OperationProbe RouteConverted];
  md_Capabilities := mkCapabilities "" "" "" "";
|} noExtensions.

Definition ClineModule : ModuleSource := mkModule {|
  md_ResponsesWebsocket := mkWebsocket false false false false false;
  md_ID := "cline"; md_Name := "Cline"; md_Mark := "CL";
  md_Icon := "cline";
  md_SearchTerms := ["clinepass"; "cline pass"];
  md_Description := "Managed API preset";
  md_Notices := [];
  md_Connection := mkConnection ConnectionAPIKey "entries" [];
  md_Params := [mkField "base_url" "Base URL" InputURL false false "" (Some NormalizeBaseURL)];
  md_ParamsNormalizer := "";
  md_Credentials := [mkField "api_key" "API Key" InputSecret true true "" (Some NormalizeNonEmpty)];
  md_CredentialValidator := "";
  md_Provider := mkProvider ProviderCline "" EndpointFixedWithOverride "https://api.cline.bot/api/v1" [];
  md_ResponseScrub := mkScrub [] [] [];
  md_Routes :=
    [NewRoute OpenAICompletions OperationChatCompletion RouteNative;
     NewRoute OpenAICompletions OperationListModels RouteNative;
     NewRoute OpenAICompletions OperationProbe RouteNative;
     NewResponsesCreateRoute RouteConverted ResponsesStoreHandlingStateless;
     NewRoute OpenAIResponses OperationProbe RouteConverted;
     NewRoute Anthropic OperationChatCompletion RouteConverted;
     NewRoute Anthropic OperationListModels RouteConverted;
     NewRoute Anthropic OperationProbe RouteConverted;
     NewRoute Gemini OperationChatCompletion RouteConverted;
     NewRoute Gemini OperationListModels RouteConverted;
     NewRoute Gemini OperationProbe RouteConverted];
  md_Capabilities := mkCapabilities "" "" "" "";
|} noExtensions.

Definition GroqModule : ModuleSource := mkModule {|
  md_ResponsesWebsocket := mkWebsocket false false false false false;
  md_ID := "groq"; md_Name := "Groq"; md_Mark := "GQ";
  md_Icon := "groq";
  md_SearchTerms := ["groqcloud"];
  md_Description := "Managed API preset";
  md_Notices := [];
  md_Connection := mkConnection ConnectionAPIKey "entries" [];
  md_Params := [mkField "base_url" "Base URL" InputURL false false "" (Some NormalizeBaseURL)];
  md_ParamsNormalizer := "";
  md_Credentials := [mkField "api_key" "API Key" InputSecret true true "" (Some NormalizeNonEmpty)];
  md_CredentialValidator := "";
  md_Provider := mkProvider ProviderGroq "groq" EndpointSDKDefault "" [];
  md_ResponseScrub := mkScrub [] [] [];
  md_Routes :=
    [NewRoute OpenAICompletions OperationChatCompletion RouteNative;
     NewRoute OpenAICompletions OperationListModels RouteNative;
     NewRoute OpenAICompletions OperationProbe RouteNative;
     NewResponsesCreateRoute RouteConverted ResponsesStoreHandlingStateless;
     NewRoute OpenAIResponses OperationProbe RouteConverted;
     NewRoute Anthropic OperationChatCompletion RouteConverted;
     NewRoute Anthropic OperationListModels RouteConverted;
     NewRoute Anthropic OperationProbe RouteConverted;
     NewRoute Gemini OperationChatCompletion RouteConverted;
     NewRoute Gemini OperationListModels RouteConverted;
     NewRoute Gemini OperationProbe RouteConverted];
  md_Capabilities := mkCapabilities "" "" "" "";
|} noExtensions.

Definition VercelModule : ModuleSource := mkModule {|
  md_ResponsesWebsocket := mkWebsocket true true false true true;
  md_ID := "vercel"; md_Name := "Vercel AI Gateway"; md_Mark := "VC";
  md_Icon := "vercel";
  md_SearchTerms := ["ai gateway"];
  md_Description := "Managed API preset";
  md_Notices := [];
  md_Connection := mkConnection ConnectionAPIKey "entries" [];
  md_Params := [mkField "base_url" "Base URL" InputURL false false "" (Some NormalizeBaseURL)];
  md_ParamsNormalizer := "";
  md_Credentials := [mkField "api_key" "API Key" InputSecret true true "" (Some NormalizeNonEmpty)];
  md_CredentialValidator := "";
  md_Provider := mkProvider ProviderMultiProtocolGateway "vercel" EndpointFixedWithOverride "https://ai-gateway.vercel.sh" [];
  md_ResponseScrub := mkScrub ["provider_metadata"; "generationId"] ["cost"; "market_cost"; "gateway_cost"; "is_byok"; "cost_details"] ["X-Vercel-"; "X-Matched-Path"];
  md_Routes :=
    [NewRoute OpenAICompletions OperationChatCompletion RouteNative;
     NewRoute OpenAICompletions OperationListModels RouteNative;
     NewRoute OpenAICompletions OperationProbe RouteNative;
     NewResponsesCreateRoute RouteNative ResponsesStoreHandlingStateless;
     NewRoute OpenAIResponses OperationProbe RouteNative;
     NewRoute OpenAIEmbeddings OperationEmbeddingsCreate RouteNative;
     NewRoute OpenAIEmbeddings OperationProbe RouteNative;
     NewRoute Anthropic OperationChatCompletion RouteNative;
     NewRoute Anthropic OperationCountTokens RouteNative;
     NewRoute Anthropic OperationProbe RouteNative];
  md_Capabilities := mkCapabilities "" "" "" "";
|} noExtensions.

Definition XAIModule : ModuleSource := mkModule {|
  md_ResponsesWebsocket := mkWebsocket true true true true false;
  md_ID := "xai"; md_Name := "xAI"; md_Mark := "XA";
  md_Icon := "xai";
  md_SearchTerms := ["grok"];
  md_Description := "Managed API preset";
  md_Notices := [];
  md_Connection := mkConnection ConnectionAPIKey "entries" [];
  md_Params := [mkField "base_url" "Base URL" InputURL false false "" (Some NormalizeBaseURL)];
  md_ParamsNormalizer := "";
  md_Credentials := [mkField "api_key" "API Key" InputSecret true true "" (Some NormalizeNonEmpty)];
  md_CredentialValidator := "";
  md_Provider := mkProvider ProviderXAI "xai" EndpointSDKDefault "" [];
  md_ResponseScrub := mkScrub [] [] [];
  md_Routes :=
    [NewRoute OpenAICompletions OperationChatCompletion RouteNative;
     NewRoute OpenAICompletions OperationListModels RouteNative;
     NewRoute OpenAICompletions OperationProbe RouteNative;
     NewResponsesCreateRoute RouteNative ResponsesStoreHandlingUpstreamManaged;
     NewRoute OpenAIResponses OperationProbe RouteNative;
     NewRoute Anthropic OperationChatCompletion RouteConverted;
     NewRoute Anthropic OperationListModels RouteConverted;
     NewRoute Anthropic OperationProbe RouteConverted;
     NewRoute Gemini OperationChatCompletion RouteConverted;
     NewRoute Gemini OperationListModels RouteConverted;
     NewRoute Gemini OperationProbe RouteConverted];
  md_Capabilities := mkCapabilities "" "" "" "";
|} noExtensions.

Definition CerebrasModule : ModuleSource := mkModule {|
  md_ResponsesWebsocket := mkWebsocket false false false false false;
  md_ID := "cerebras"; md_Name := "Cerebras"; md_Mark := "CB";
  md_Icon := "cerebras";
  md_SearchTerms := ["cerebras inference"];
  md_Description := "Managed API preset";
  md_Notices := [];
  md_Connection := mkConnection ConnectionAPIKey "entries" [];
  md_Params := [mkField "base_url" "Base URL" InputURL false false "" (Some NormalizeBaseURL)];
  md_ParamsNormalizer := "";
  md_Credentials := [mkField "api_key" "API Key" InputSecret true true "" (Some NormalizeNonEmpty)];
  md_CredentialValidator := "";
  md_Provider := mkProvider ProviderOpenAICompatible "cerebras" EndpointFixedWithOverride "https://api.cerebras.ai/v1" [];
  md_ResponseScrub := mkScrub [] [] [];
  md_Routes :=
    [NewRoute OpenAICompletions OperationChatCompletion RouteNative;
     NewRoute OpenAICompletions OperationListModels RouteNative;
     NewRoute OpenAICompletions OperationProbe RouteNative;
     NewResponsesCreateRoute RouteConverted ResponsesStoreHandlingStateless;
     NewRoute OpenAIResponses OperationProbe RouteConverted;
     NewRoute Anthropic OperationChatCompletion RouteConverted;
     NewRoute Anthropic OperationListModels RouteConverted;
     NewRoute Anthropic OperationProbe RouteConverted;
     NewRoute Gemini OperationChatCompletion RouteConverted;
     NewRoute Gemini OperationListModels RouteConverted;
     NewRoute Gemini OperationProbe RouteConverted];
  md_Capabilities := mkCapabilities "" "" "" "";
|} noExtensions.

Definition MistralModule : ModuleSource := mkModule {|
  md_ResponsesWebsocket := mkWebsocket false false false false false;
  md_ID := "mistral"; md_Name := "Mistral"; md_Mark := "MI";
  md_Icon := "mistral";
  md_SearchTerms := ["mistral ai"; "codestral"];
  md_Description := "Managed API preset";
  md_Notices := [];
  md_Connection := mkConnection ConnectionAPIKey "entries" [];
  md_Params := [mkField "base_url" "Base URL" InputURL false false "" (Some NormalizeBaseURL)];
  md_ParamsNormalizer := "";
  md_Credentials := [mkField "api_key" "API Key" InputSecret true true "" (Some NormalizeNonEmpty)];
  md_CredentialValidator := "";
  md_Provider := mkProvider ProviderOpenAICompatible "mistral" EndpointFixedWithOverride "https://api.mistral.ai/v1" [];
  md_ResponseScrub := mkScrub [] [] [];
  md_Routes :=
    [NewRoute OpenAICompletions OperationChatCompletion RouteNative;
     NewRoute OpenAICompletions OperationListModels RouteNative;
     NewRoute OpenAICompletions OperationProbe RouteNative;
     NewRoute OpenAIEmbeddings OperationEmbeddingsCreate RouteNative;
     NewRoute OpenAIEmbeddings OperationProbe RouteNative;
     NewResponsesCreateRoute RouteConverted ResponsesStoreHandlingStateless;
     NewRoute OpenAIResponses OperationProbe RouteConverted;
     NewRoute Anthropic OperationChatCompletion RouteConverted;
     NewRoute Anthropic OperationListModels RouteConverted;
     NewRoute Anthropic OperationProbe RouteConverted;
     NewRoute Gemini OperationChatCompletion RouteConverted;
     NewRoute Gemini OperationListModels RouteConverted;
     NewRoute Gemini OperationProbe RouteConverted];
  md_Capabilities := mkCapabilities "" "" "" "";
|} noExtensions.

Definition NebiusModule : ModuleSource := mkModule {|
  md_ResponsesWebsocket := mkWebsocket false false false false false;
  md_ID := "nebius"; md_Name := "Nebius"; md_Mark := "NB";
  md_Icon := "nebius";
  md_SearchTerms := ["nebius ai"; "token factory"];
  md_Description := "Managed API preset";
  md_Notices := [];
  md_Connection := mkConnection ConnectionAPIKey "entries" [];
  md_Params := [mkField "base_url" "Base URL" InputURL false false "" (Some NormalizeBaseURL)];
  md_ParamsNormalizer := "";
  md_Credentials := [mkField "api_key" "API Key" InputSecret true true "" (Some NormalizeNonEmpty)];
  md_CredentialValidator := "";
  md_Provider := mkProvider ProviderOpenAICompatible "nebius" EndpointFixedWithOverride "https://api.tokenfactory.nebius.com/v1" [];
  md_ResponseScrub := mkScrub [] [] [];
  md_Routes :=
    [NewRoute OpenAICompletions OperationChatCompletion RouteNative;
     NewRoute OpenAICompletions OperationListModels RouteNative;
     NewRoute OpenAICompletions OperationProbe RouteNative;
     NewRoute OpenAIEmbeddings OperationEmbeddingsCreate RouteNative;
     NewRoute OpenAIEmbeddings OperationProbe RouteNative;
     NewResponsesCreateRoute RouteConverted ResponsesStoreHandlingStateless;
     NewRoute OpenAIResponses OperationProbe RouteConverted;
     NewRoute Anthropic OperationChatCompletion RouteConverted;
     NewRoute Anthropic OperationListModels RouteConverted;
     NewRoute Anthropic OperationProbe RouteConverted;
     NewRoute Gemini OperationChatCompletion RouteConverted;
     NewRoute Gemini OperationListModels RouteConverted;
     NewRoute Gemini OperationProbe RouteConverted];
  md_Capabilities := mkCapabilities "" "" "" "";
|} noExtensions.

Definition ParasailModule : ModuleSource := mkModule {|
  md_ResponsesWebsocket := mkWebsocket false false false false false;
  md_ID := "parasail"; md_Name := "Parasail"; md_Mark := "PS";
  md_Icon := "parasail";
  md_SearchTerms := ["parasail ai"];
  md_Description := "Managed API preset";
  md_Notices := [];
  md_Connection := mkConnection ConnectionAPIKey "entries" [];
  md_Params := [mkField "base_url" "Base URL" InputURL false false "" (Some NormalizeBaseURL)];
  md_ParamsNormalizer := "";
  md_Credentials := [mkField "api_key" "API Key" InputSecret true true "" (Some NormalizeNonEmpty)];
  md_CredentialValidator := "";
  md_Provider := mkProvider ProviderOpenAICompatible "" EndpointFixedWithOverride "https://api.parasail.io/v1" [];
  md_ResponseScrub := mkScrub [] [] [];
  md_Routes :=
    [NewRoute OpenAICompletions OperationChatCompletion RouteNative;
     NewRoute OpenAICompletions OperationListModels RouteNative;
     NewRoute OpenAICompletions OperationProbe RouteNative;
     NewResponsesCreateRoute RouteConverted ResponsesStoreHandlingStateless;
     NewRoute OpenAIResponses OperationProbe RouteConverted;
     NewRoute Anthropic OperationChatCompletion RouteConverted;
     NewRoute Anthropic OperationListModels RouteConverted;
     NewRoute Anthropic OperationProbe RouteConverted;
     NewRoute Gemini OperationChatCompletion RouteConverted;
     NewRoute Gemini OperationListModels RouteConverted;
     NewRoute Gemini OperationProbe RouteConverted];
  md_Capabilities := mkCapabilities "" "" "" "";
|} noExtensions.

Definition WaferModule : ModuleSource := mkModule {|
  md_ResponsesWebsocket := mkWebsocket false false false false false;
  md_ID := "wafer"; md_Name := "Wafer"; md_Mark := "WF";
  md_Icon := "wafer";
  md_SearchTerms := ["wafer pass"];
  md_Description := "Managed API preset";
  md_Notices := [];
  md_Connection := mkConnection ConnectionAPIKey "entries" [];
  md_Params := [mkField "base_url" "Base URL" InputURL false false "" (Some NormalizeBaseURL)];
  md_ParamsNormalizer := "";
  md_Credentials := [mkField "api_key" "API Key" InputSecret true true "" (Some NormalizeNonEmpty)];
  md_CredentialValidator := "";
  md_Provider := mkProvider ProviderOpenAICompatible "" EndpointFixedWithOverride "https://pass.wafer.ai/v1" [];
  md_ResponseScrub := mkScrub [] [] [];
  md_Routes :=
    [NewRoute OpenAICompletions OperationChatCompletion RouteNative;
     NewRoute OpenAICompletions OperationListModels RouteNative;
     NewRoute OpenAICompletions OperationProbe RouteNative;
     NewResponsesCreateRoute RouteConverted ResponsesStoreHandlingStateless;
     NewRoute OpenAIResponses OperationProbe RouteConverted;
     NewRoute Anthropic OperationChatCompletion RouteConverted;
     NewRoute Anthropic OperationListModels RouteConverted;
     NewRoute Anthropic OperationProbe RouteConverted;
     NewRoute Gemini OperationChatCompletion RouteConverted;
     NewRoute Gemini OperationListModels RouteConverted;
     NewRoute Gemini OperationProbe RouteConverted];
  md_Capabilities := mkCapabilities "" "" "" "";
|} noExtensions.

Definition HuggingFaceModule : ModuleSource := mkModule {|
  md_ResponsesWebsocket := mkWebsocket false false false false false;
  md_ID := "huggingface"; md_Name := "Hugging Face"; md_Mark := "HF";
  md_Icon := "huggingface";
  md_SearchTerms := ["hugging face"; "hf"; "inference providers"];
  md_Description := "Managed API preset";
  md_Notices := [];
  md_Connection := mkConnection ConnectionAPIKey "entries" [];
  md_Params := [mkField "base_url" "Base URL" InputURL false false "" (Some NormalizeBaseURL)];
  md_ParamsNormalizer := "";
  md_Credentials := [mkField "api_key" "API Key" InputSecret true true "" (Some NormalizeNonEmpty)];
  md_CredentialValidator := "";
  md_Provider := mkProvider ProviderOpenAICompatible "huggingface" EndpointFixedWithOverride "https://router.huggingface.co/v1" [];
  md_ResponseScrub := mkScrub [] [] [];
  md_Routes :=
    [NewRoute OpenAICompletions OperationChatCompletion RouteNative;
     NewRoute OpenAICompletions OperationListModels RouteNative;
     NewRoute OpenAICompletions OperationProbe RouteNative;
     NewResponsesCreateRoute RouteConverted ResponsesStoreHandlingStateless;
     NewRoute OpenAIResponses OperationProbe RouteConverted;
     NewRoute Anthropic OperationChatCompletion RouteConverted;
     NewRoute Anthropic OperationListModels RouteConverted;
     NewRoute Anthropic OperationProbe RouteConverted;
     NewRoute Gemini OperationChatCompletion RouteConverted;
     NewRoute Gemini OperationListModels RouteConverted;
     NewRoute Gemini OperationProbe RouteConverted];
  md_Capabilities := mkCapabilities "" "" "" "";
|} noExtensions.

Definition CohereModule : ModuleSource := mkModule {|
  md_ResponsesWebsocket := mkWebsocket false false false false false;
  md_ID := "cohere"; md_Name := "Cohere"; md_Mark := "CO";
  md_Icon := "cohere";
  md_SearchTerms := ["cohere ai"; "rerank"];
  md_Description := "Cohere text rerank API";
  md_Notices := [];
  md_Connection := mkConnection ConnectionAPIKey "entries" [];
  md_Params := [mkField "base_url" "Base URL" InputURL false false "" (Some NormalizeBaseURL)];
  md_ParamsNormalizer := "";
  md_Credentials := [mkField "api_key" "API Key" InputSecret true true "" (Some NormalizeNonEmpty)];
  md_CredentialValidator := "";
  md_Provider := mkProvider ProviderOpenAICompatible "cohere" EndpointFixedWithOverride "https://api.cohere.ai/v2" [];
  md_ResponseScrub := mkScrub [] [] [];
  md_Routes :=
    [NewRoute Rerank OperationRerank RouteNative;
     NewRoute Rerank OperationProbe RouteNative];
  md_Capabilities := mkCapabilities "" "" "" "";
|} noExtensions.

Definition OpenCodeGoModule : ModuleSource := mkModule {|
  md_ResponsesWebsocket := mkWebsocket false false false false false;
  md_ID := "opencode_go"; md_Name := "OpenCode Go"; md_Mark := "OG";
  md_Icon := "opencode";
  md_SearchTerms := [];
  md_Description := "Native multi-protocol API gateway";
  md_Notices := [];
  md_Connection := mkConnection ConnectionAPIKey "entries" [];
  md_Params := [mkField "base_url" "Base URL" InputURL false false "" (Some NormalizeBaseURL)];
  md_ParamsNormalizer := "";
  md_Credentials := [mkField "api_key" "API Key" InputSecret true true "" (Some NormalizeNonEmpty)];
  md_CredentialValidator := "";
  md_Provider := mkProvider ProviderMultiProtocolGateway "opencode-go" EndpointFixedWithOverride "https://opencode.ai/zen/go" [];
  md_ResponseScrub := mkScrub [] [] [];
  md_Routes :=
    [NewRoute OpenAICompletions OperationChatCompletion RouteNative;
     NewRoute OpenAICompletions OperationListModels RouteNative;
     NewRoute OpenAICompletions OperationProbe RouteNative;
     NewResponsesCreateRoute RouteNative ResponsesStoreHandlingStateless;
     NewRoute OpenAIResponses OperationProbe RouteNative;
     NewRoute Anthropic OperationChatCompletion RouteNative;
     NewRoute Anthropic OperationProbe RouteNative];
  md_Capabilities := mkCapabilities "" "" "" "";
|} noExtensions.

Definition OpenCodeZenModule : ModuleSource := mkModule {|
  md_ResponsesWebsocket := mkWebsocket false false false false false;
  md_ID := "opencode_zen"; md_Name := "OpenCode Zen"; md_Mark := "OZ";
  md_Icon := "opencode";
  md_SearchTerms := [];
  md_Description := "Native multi-protocol API gateway";
  md_Notices := [];
  md_Connection := mkConnection ConnectionAPIKey "entries" [];
  md_Params := [mkField "base_url" "Base URL" InputURL false false "" (Some NormalizeBaseURL)];
  md_ParamsNormalizer := "";
  md_Credentials := [mkField "api_key" "API Key" InputSecret true true "" (Some NormalizeNonEmpty)];
  md_CredentialValidator := "";
  md_Provider := mkProvider ProviderMultiProtocolGateway "opencode" EndpointFixedWithOverride "https://opencode.ai/zen" [];
  md_ResponseScrub := mkScrub [] [] [];
  md_Routes :=
    [NewRoute OpenAICompletions OperationChatCompletion RouteNative;
     NewRoute OpenAICompletions OperationListModels RouteNative;
     NewRoute OpenAICompletions OperationProbe RouteNative;
     NewResponsesCreateRoute RouteNative ResponsesStoreHandlingStateless;
     NewRoute OpenAIResponses OperationProbe RouteNative;
     NewRoute Anthropic OperationChatCompletion RouteNative;
     NewRoute Anthropic OperationProbe RouteNative];
  md_Capabilities := mkCapabilities "" "" "" "";
|} noExtensions.

Definition GPTLoadModule : ModuleSource := mkModule {|
  md_ResponsesWebsocket := mkWebsocket true true true true true;
  md_ID := "gpt_load"; md_Name := "GPT-Load"; md_Mark := "GL";
  md_Icon := "gpt-load";
  md_SearchTerms := ["gpt-load"; "gptload"; "gpt load"; "gl"; "gpt-load v2"];
  md_Description := "GPT-Load multi-protocol gateway";
  md_Notices := [];
  md_Connection := mkConnection ConnectionAPIKey "entries" [];
  md_Params := [mkField "base_url" "Base URL" InputURL true false "" (Some NormalizeBaseURL)];
  md_ParamsNormalizer := "";
  md_Credentials := [mkField "api_key" "AccessKey" InputSecret true true "" (Some NormalizeNonEmpty)];
  md_CredentialValidator := "";
  md_Provider := mkProvider ProviderMultiProtocolGateway "" EndpointRequiredBaseURL "" [];
  md_ResponseScrub := mkScrub [] [] [];
  md_Routes :=
    [NewRoute Rerank OperationRerank RouteNative;
     NewRoute Rerank OperationProbe RouteNative;
     NewRoute OpenAICompletions OperationChatCompletion RouteNative;
     NewRoute OpenAICompletions OperationListModels RouteNative;
     NewRoute OpenAICompletions OperationProbe RouteNative;
     NewResponsesCreateRoute RouteNative ResponsesStoreHandlingUpstreamManaged;
     NewRoute OpenAIResponses OperationProbe RouteNative;
     NewRoute OpenAIResponses OperationResponsesRetrieve RouteNative;
     NewRoute OpenAIResponses OperationResponsesDelete RouteNative;
     NewRoute OpenAIResponses OperationResponsesCancel RouteNative;
     NewRoute OpenAIResponses OperationResponsesInputItems RouteNative;
     NewRoute OpenAIResponses OperationResponsesCompact RouteNative;
     NewRoute OpenAIResponses OperationResponsesInputTokens RouteNative;
     NewRoute OpenAIResponses OperationResponsesPassthrough RouteNative;
     NewRoute OpenAIImages OperationImagesGenerate RouteNative;
     NewRoute OpenAIImages OperationImagesEdit RouteNative;
     NewRoute OpenAIEmbeddings OperationEmbeddingsCreate RouteNative;
     NewRoute OpenAIEmbeddings OperationProbe RouteNative;
     NewRoute Anthropic OperationChatCompletion RouteNative;
     NewRoute Anthropic OperationProbe RouteNative;
     NewRoute Anthropic OperationCountTokens RouteNative;
     NewRoute Anthropic OperationListModels RouteNative;
     NewRoute Gemini OperationChatCompletion RouteNative;
     NewRoute Gemini OperationProbe RouteNative;
     NewRoute Gemini OperationCountTokens RouteNative;
     NewRoute Gemini OperationListModels RouteNative;
     NewRoute GeminiEmbeddings OperationEmbeddingsCreate RouteNative;
     NewRoute GeminiEmbeddings OperationProbe RouteNative];
  md_Capabilities := mkCapabilities "" "" "" "";
|} noExtensions.

Definition NewAPIModule : ModuleSource := mkModule {|
  md_ResponsesWebsocket := mkWebsocket false false false false false;
  md_ID := "newapi"; md_Name := "New API"; md_Mark := "NA";
  md_Icon := "new-api";
  md_SearchTerms := [];
  md_Description := "New API multi-protocol gateway";
  md_Notices := [];
  md_Connection := mkConnection ConnectionAPIKey "entries" [];
  md_Params := [mkField "base_url" "Base URL" InputURL true false "" (Some NormalizeBaseURL)];
  md_ParamsNormalizer := "";
  md_Credentials := [mkField "api_key" "API Key" InputSecret true true "" (Some NormalizeNonEmpty)];
  md_CredentialValidator := "";
  md_Provider := mkProvider ProviderMultiProtocolGateway "" EndpointRequiredBaseURL "" [];
  md_ResponseScrub := mkScrub [] [] [];
  md_Routes :=
    [NewRoute Rerank OperationRerank RouteNative;
     NewRoute Rerank OperationProbe RouteNative;
     NewRoute OpenAICompletions OperationChatCompletion RouteNative;
     NewRoute OpenAICompletions OperationListModels RouteNative;
     NewRoute OpenAICompletions OperationProbe RouteNative;
     NewResponsesCreateRoute RouteNative ResponsesStoreHandlingUpstreamManaged;
     NewRoute OpenAIResponses OperationProbe RouteNative;
     NewRoute OpenAIResponses OperationResponsesCompact RouteNative;
     NewRoute OpenAIImages OperationImagesGenerate RouteNative;
     NewRoute OpenAIImages OperationImagesEdit RouteNative;
     NewRoute OpenAIEmbeddings OperationEmbeddingsCreate RouteNative;
     NewRoute OpenAIEmbeddings OperationProbe RouteNative;
     NewRoute Anthropic OperationChatCompletion RouteNative;
     NewRoute Anthropic OperationProbe RouteNative;
     NewRoute Gemini OperationChatCompletion RouteNative;
     NewRoute Gemini OperationProbe RouteNative;
     NewRoute GeminiEmbeddings OperationEmbeddingsCreate RouteNative;
     NewRoute GeminiEmbeddings OperationProbe RouteNative];
  md_Capabilities := mkCapabilities "" "" "" "";
|} noExtensions.

Definition CLIProxyAPIModule : ModuleSource := mkModule {|
  md_ResponsesWebsocket := mkWebsocket true true false true false;
  md_ID := "cliproxyapi"; md_Name := "CLIProxyAPI"; md_Mark := "CPA";
  md_Icon := "cpa";
  md_SearchTerms := ["cpa"; "cli proxy api"];
  md_Description := "CLIProxyAPI multi-protocol gateway";
  md_Notices := [];
  md_Connection := mkConnection ConnectionAPIKey "entries" [];
  md_Params := [mkField "base_url" "Base URL" InputURL true false "" (Some NormalizeBaseURL)];
  md_ParamsNormalizer := "";
  md_Credentials := [mkField "api_key" "API Key" InputSecret true true "" (Some NormalizeNonEmpty)];
  md_CredentialValidator := "";
  md_Provider := mkProvider ProviderMultiProtocolGateway "" EndpointRequiredBaseURL "" [];
  md_ResponseScrub := mkScrub [] [] [];
  md_Routes :=
    [NewRoute OpenAICompletions OperationChatCompletion RouteNative;
     NewRoute OpenAICompletions OperationListModels RouteNative;
     NewRoute OpenAICompletions OperationProbe RouteNative;
     NewResponsesCreateRoute RouteNative ResponsesStoreHandlingUpstreamManaged;
     NewRoute OpenAIResponses OperationProbe RouteNative;
     NewRoute OpenAIResponses OperationResponsesCompact RouteNative;
     NewRoute OpenAIImages OperationImagesGenerate RouteNative;
     NewRoute OpenAIImages OperationImagesEdit RouteNative;
     NewRoute Anthropic OperationChatCompletion RouteNative;
     NewRoute Anthropic OperationProbe RouteNative;
     NewRoute Anthropic OperationCountTokens RouteNative;
     NewRoute Gemini OperationChatCompletion RouteNative;
     NewRoute Gemini OperationProbe RouteNative;
     NewRoute Gemini OperationCountTokens RouteNative];
  md_Capabilities := mkCapabilities "" "" "" "";
|} noExtensions.

Definition Sub2APIModule : ModuleSource := mkModule {|
  md_ResponsesWebsocket := mkWebsocket true true false true false;
  md_ID := "sub2api"; md_Name := "Sub2API"; md_Mark := "S2A";
  md_Icon := "sub2api";
  md_SearchTerms := ["sub 2 api"; "s2a"];
  md_Description := "Sub2API multi-protocol gateway";
  md_Notices := [];
  md_Connection := mkConnection ConnectionAPIKey "entries" [];
  md_Params := [mkField "base_url" "Base URL" InputURL true false "" (Some NormalizeBaseURL)];
  md_ParamsNormalizer := "";
  md_Credentials := [mkField "api_key" "API Key" InputSecret true true "" (Some NormalizeNonEmpty)];
  md_CredentialValidator := "";
  md_Provider := mkProvider ProviderMultiProtocolGateway "" EndpointRequiredBaseURL "" [];
  md_ResponseScrub := mkScrub [] [] [];
  md_Routes :=
    [NewRoute OpenAICompletions OperationChatCompletion RouteNative;
     NewRoute OpenAICompletions OperationListModels RouteNative;
     NewRoute OpenAICompletions OperationProbe RouteNative;
     NewResponsesCreateRoute RouteNative ResponsesStoreHandlingUpstreamManaged;
     NewRoute OpenAIResponses OperationProbe RouteNative;
     NewRoute OpenAIResponses OperationResponsesCompact RouteNative;
     NewRoute OpenAIImages OperationImagesGenerate RouteNative;
     NewRoute OpenAIImages OperationImagesEdit RouteNative;
     NewRoute Anthropic OperationChatCompletion RouteNative;
     NewRoute Anthropic OperationProbe RouteNative;
     NewRoute Anthropic OperationCountTokens RouteNative;
     NewRoute Gemini OperationChatCompletion RouteNative;
     NewRoute Gemini OperationProbe RouteNative;
     NewRoute Gemini OperationCountTokens RouteNative];
  md_Capabilities := mkCapabilities "" "" "" "";
|} noExtensions.

Definition OpenAICompatibleModule : ModuleSource := mkModule {|
  md_ResponsesWebsocket := mkWebsocket false false false false false;
  md_ID := "openai_compatible"; md_Name := "OpenAI Compatible"; md_Mark := "OC";
  md_Icon := "compatible";
  md_SearchTerms := ["custom"; "proxy"; "gateway"];
  md_Description := "Custom OpenAI-compatible API";
  md_Notices := [];
  md_Connection := mkConnection ConnectionAPIKey "entries" [];
  md_Params := [mkField "base_url" "Base URL" InputURL true false "" (Some NormalizeBaseURL)];
  md_ParamsNormalizer := "";
  md_Credentials := [mkField "api_key" "API Key" InputSecret true true "" (Some NormalizeNonEmpty)];
  md_CredentialValidator := "";
  md_Provider := mkProvider ProviderOpenAICompatible "" EndpointRequiredBaseURL "" [];
  md_ResponseScrub := mkScrub [] [] [];
  md_Routes :=
    [NewRoute Rerank OperationRerank RouteNative;
     NewRoute Rerank OperationProbe RouteNative;
     NewRoute OpenAICompletions OperationChatCompletion RouteNative;
     NewRoute OpenAIEmbeddings OperationEmbeddingsCreate RouteNative;
     NewRoute OpenAIEmbeddings OperationProbe RouteNative;
     NewRoute OpenAIImages OperationImagesGenerate RouteNative;
     NewRoute OpenAIImages OperationImagesEdit RouteNative;
     NewRoute OpenAICompletions OperationListModels RouteNative;
     NewRoute OpenAICompletions OperationProbe RouteNative;
     NewResponsesCreateRoute RouteConverted ResponsesStoreHandlingStateless;
     NewRoute OpenAIResponses OperationProbe RouteConverted;
     NewRoute Anthropic OperationChatCompletion RouteConverted;
     NewRoute Anthropic OperationListModels RouteConverted;
     NewRoute Anthropic OperationProbe RouteConverted;
     NewRoute Gemini OperationChatCompletion RouteConverted;
     NewRoute Gemini OperationListModels RouteConverted;
     NewRoute Gemini OperationProbe RouteConverted];
  md_Capabilities := mkCapabilities "" "" "" "";
|} noExtensions.

Definition builtInModules : list ModuleSource :=
  [OpenAIModule; CodexModule; ClaudeModule; AntigravityModule; GrokModule; AnthropicModule; GeminiModule;
   AzureOpenAIModule; AWSBedrockModule; GoogleVertexModule; DeepSeekModule; MoonshotAIModule; SiliconFlowModule;
   ZhipuAIModule; AlibabaModule; VolcengineModule; JevModule; OpenRouterModule; ClineModule; GroqModule; VercelModule;
   XAIModule; CerebrasModule; MistralModule; NebiusModule; ParasailModule; WaferModule; HuggingFaceModule;
   CohereModule; OpenCodeGoModule; OpenCodeZenModule; GPTLoadModule; NewAPIModule; CLIProxyAPIModule; Sub2APIModule;
   OpenAICompatibleModule].

End Modules.
End ChannelModules.
