(* ===== verification/ChannelProps.v ===== *)
(** * Channels, theorems

    What the compiler of channel modules guarantees of every target, that the built-in
    modules compile, and that a frozen target is resolved again to itself. *)

From Stdlib Require Import ZArith Lia Bool String Ascii List Permutation.
From stdpp Require Import base gmap sets list strings sorting.
From coqutil Require Import Datatypes.RecordSettersUsingExistingGetters.
From S2P Require Import Prelude GoStrings Execution Contracts Headers HeadersProps Scheduler Settings Channel ChannelModules.

Local Open Scope Z_scope.

Module ChannelProps.
Import Execution Contracts Headers HeadersProps Scheduler Settings Channel ChannelModules.

(** ** Texts *)

Lemma strip_prefix_app p : forall l rest, strip_prefix p l = Some rest <-> l = p ++ rest.
Proof.
  induction p as [|c p IH]; intros l rest; cbn [strip_prefix app]; [split; [now intros [= ->]|now intros ->]|].
  destruct l as [|d l]; [split; discriminate|]. destruct (Ascii.eqb_spec c d) as [->|Hn].
  - rewrite IH. split; congruence.
  - split; [discriminate|]. intros [= ->]. congruence.
Qed.

Lemma strip_any_none ps l : strip_any ps l = None <-> forall p rest, In p ps -> l <> p ++ rest.
Proof.
  induction ps as [|p ps IH]; cbn [strip_any]; [split; [easy|reflexivity]|].
  destruct (strip_prefix p l) as [rest|] eqn:E.
  - split; [discriminate|]. intros Hx. apply strip_prefix_app in E. now destruct (Hx p rest (or_introl eq_refl)).
  - rewrite IH. split; [|intros Hx q rest Hq; apply Hx; now right]. intros Hx q rest [<-|Hq]; [|auto].
    intros El. apply strip_prefix_app in El. congruence.
Qed.

Lemma strip_any_shorter ps l rest : Forall (fun p => p <> []) ps -> strip_any ps l = Some rest ->
  exists p, l = p ++ rest /\ p <> [].
Proof.
  induction 1 as [|p ps Hp _ IH]; cbn [strip_any]; [discriminate|]. destruct (strip_prefix p l) eqn:E; [|exact IH].
  intros [= ->]. apply strip_prefix_app in E. eauto.
Qed.

Lemma trim_fuel_spec ps : Forall (fun p => p <> []) ps -> forall fuel l, (length l <= fuel)%nat ->
  strip_any ps (trim_fuel fuel ps l) = None /\ exists pre, l = pre ++ trim_fuel fuel ps l.
Proof.
  intros Hps. induction fuel as [|fuel IH]; intros l Hl; cbn [trim_fuel].
  - destruct l; [|cbn in Hl; lia]. split; [|now exists []].
    apply strip_any_none. intros p rest Hp E. rewrite Forall_forall in Hps. apply (Hps p); [now apply list_elem_of_In|].
    now destruct p.
  - destruct (strip_any ps l) as [rest|] eqn:E; [|split; [exact E|now exists []]].
    destruct (strip_any_shorter _ _ _ Hps E) as (p & -> & Hp). destruct (IH rest) as [Hd [pre Hpre]].
    { rewrite length_app in Hl. destruct p; [easy|]. cbn in Hl. lia. }
    split; [exact Hd|]. exists (p ++ pre). now rewrite <- app_assoc, <- Hpre.
Qed.

Lemma trim_fuel_done ps fuel l : strip_any ps l = None -> trim_fuel fuel ps l = l.
Proof. destruct fuel; [reflexivity|]. cbn [trim_fuel]. now intros ->. Qed.

Lemma trim_space_idem l : trim_space (trim_space l) = trim_space l.
Proof.
  assert (Hl : Forall (fun p : list ascii => p <> []) space_encodings) by (vm_compute; repeat constructor; discriminate).
  assert (Hr : Forall (fun p : list ascii => p <> []) (map (@rev ascii) space_encodings)) by (vm_compute; repeat constructor; discriminate).
  unfold trim_space at 2 3. set (a := trim_fuel (length l) space_encodings l).
  destruct (trim_fuel_spec _ Hl (length l) l (le_n _)) as [Ha _]. fold a in Ha.
  set (b := trim_fuel (length a) (map (@rev ascii) space_encodings) (rev a)).
  destruct (trim_fuel_spec _ Hr (length a) (rev a)) as [Hb [pre Hpre]]; [now rewrite length_rev|]. fold b in Hb, Hpre.
  assert (Hd : strip_any space_encodings (rev b) = None).
  { apply strip_any_none. intros p rest Hp E. rewrite strip_any_none in Ha. apply (Ha p (rest ++ rev pre) Hp).
    rewrite app_assoc, <- E, <- rev_app_distr, <- Hpre. symmetry. apply rev_involutive. }
  unfold trim_space. rewrite (trim_fuel_done _ _ _ Hd), rev_involutive. now rewrite trim_fuel_done.
Qed.

Lemma trimmedText_idem s : trimmedText (trimmedText s) = trimmedText s.
Proof. unfold trimmedText. now rewrite list_ascii_of_string_of_list_ascii, trim_space_idem. Qed.

(** ** Compiled routes *)

Lemma assoc_in {K V} `{EqDecision K} (k : K) (l : list (K * V)) v : assoc k l = Some v -> In (k, v) l.
Proof.
  induction l as [|[k' v'] l IH]; [discriminate|]. cbn [assoc]. destruct (decide (k' = k)) as [->|]; [|auto using in_cons].
  intros [= ->]. now left.
Qed.

Lemma assoc_none {K V} `{EqDecision K} (k : K) (l : list (K * V)) : assoc k l = None <-> ~ In k (map fst l).
Proof.
  induction l as [|[k' v'] l IH]; cbn [assoc map fst In]; [intuition|].
  destruct (decide (k' = k)) as [->|Hn]; [intuition congruence|]. rewrite IH. tauto.
Qed.

Lemma in_assoc {K V} `{EqDecision K} (k : K) (l : list (K * V)) v : NoDup (map fst l) -> In (k, v) l -> assoc k l = Some v.
Proof.
  induction l as [|[k' v'] l IH]; [easy|]. cbn [assoc map fst]. rewrite NoDup_cons. intros [Hn Hd] [[= -> ->]|Hin].
  - now rewrite decide_True.
  - destruct (decide (k' = k)) as [->|]; [|auto]. destruct Hn. apply list_elem_of_In. apply in_map_iff. now exists (k, v).
Qed.

Definition keyOf (r : Route) : routeKey := (r.(r_ClientProtocol), r.(r_Operation)).

(** What the compiler has established of one route. *)
Record routeSound (e : Extensions) (r : Route) : Prop := {
  route_valid : protocolValid r.(r_ClientProtocol) = true /\ operationValid r.(r_Operation) = true /\ routeModeValid r.(r_Mode) = true;
  route_pair : validProtocolOperation r.(r_ClientProtocol) r.(r_Operation) = true;
  route_lifecycle : isResponsesLifecycle r.(r_Operation) = true -> r.(r_Mode) = RouteNative;
  route_store : isResponsesCreate r = negb (bool_decide (r.(r_StoreHandling) = ResponsesStoreHandlingNone));
  route_managed : r.(r_StoreHandling) = ResponsesStoreHandlingUpstreamManaged ->
    r.(r_Mode) = RouteNative /\ containsRouteMode r.(r_PossibleModes) RouteConverted = false;
}.

Lemma routeProblem_sound id seen e r : routeProblem id seen r = None -> routeSound e r /\ keyOf r ∉ seen.
Proof.
  unfold routeProblem. intros Hp. repeat (apply first_error_None in Hp as [?%err_if_None Hp]). apply err_if_None in Hp.
  split; [|match goal with Hx : bool_decide (_ ∈ seen) = false |- _ => now apply bool_decide_eq_false in Hx end].
  zbool. split; auto.
  - intros Hl. match goal with Hx : (isResponsesLifecycle _ && _) = false |- _ => rewrite Hl in Hx; apply negb_false_iff in Hx end.
    eapply bool_decide_eq_true. eassumption.
  - destruct (isResponsesCreate r), (bool_decide (r_StoreHandling r = ResponsesStoreHandlingNone)); cbn [andb negb] in *; congruence.
  - intros Hm. rewrite bool_decide_eq_true_2 in Hp by assumption. cbn [andb] in Hp. apply orb_false_iff in Hp as [Hn Hc].
    split; [|exact Hc]. apply negb_false_iff in Hn. now apply bool_decide_eq_true in Hn.
Qed.

Definition resolverEntry (e : Extensions) (r : Route) : option (string -> RouteMode -> RouteMode) :=
  if emptyText r.(r_Resolver) then None
  else match extension e.(RouteResolvers) r.(r_Resolver) with
       | Some f => Some (confined r.(r_PossibleModes) f)
       | None => None
       end.

Lemma routeResolver_entry id r e resolver : routeResolver id r e = Ok resolver -> resolver = resolverEntry e r /\
  (resolver = None <-> emptyText r.(r_Resolver) = true) /\ (emptyText r.(r_Resolver) = true -> r.(r_PossibleModes) = []).
Proof.
  unfold routeResolver, resolverEntry. destruct (emptyText _).
  - destruct (r_PossibleModes r); cbn; [|discriminate]. intros [= <-]. now repeat split.
  - destruct (extension _ _); [|discriminate]. case_if; [discriminate|]. intros [= <-]. repeat split; easy.
Qed.

(** The compiled maps are the routes, field by field. *)
Lemma routeLoop_exact id e routes : forall seen c, routeLoop id e seen routes = Ok c ->
  Forall (routeSound e) routes /\
  NoDup (map keyOf routes) /\ (forall r, In r routes -> keyOf r ∉ seen) /\
  c.(cr_modes) = map (fun r => (keyOf r, r.(r_Mode))) routes /\
  c.(cr_resolvers) = omap (fun r => f ← resolverEntry e r; Some (keyOf r, f)) routes /\
  c.(cr_storeHandlings) = map (fun r => (keyOf r, r.(r_StoreHandling))) (List.filter isResponsesCreate routes) /\
  Forall (fun r => emptyText r.(r_Resolver) = true -> r.(r_PossibleModes) = []) routes /\
  Forall (fun r => resolverEntry e r = None <-> emptyText r.(r_Resolver) = true) routes.
Proof.
  induction routes as [|r routes IH]; intros seen c; cbn [routeLoop].
  { intros [= <-]. repeat split; constructor || easy. }
  destruct (routeProblem id seen r) eqn:Ep; [discriminate|]. apply (routeProblem_sound id seen e) in Ep as [Hsound Hs].
  destruct (routeResolver id r e) as [resolver|] eqn:Er; [|discriminate].
  destruct (routeLoop _ _ _ routes) as [c'|] eqn:El; [|discriminate]. intros [= <-].
  apply IH in El as (H1 & H2 & H3 & H4 & H5 & H6 & H7 & H8). apply routeResolver_entry in Er as (-> & Hr1 & Hr2).
  cbn [cr_modes cr_resolvers cr_storeHandlings map]. repeat split.
  - now constructor.
  - apply NoDup_cons. split; [|assumption]. intros Hin. apply list_elem_of_In, in_map_iff in Hin as (r' & E & Hin).
    apply (H3 r' Hin). rewrite E. now left.
  - intros r' [<-|Hin]; [exact Hs|]. specialize (H3 r' Hin). rewrite not_elem_of_cons in H3. tauto.
  - now rewrite H4.
  - rewrite H5. cbn [omap list_omap]. now destruct (resolverEntry e r).
  - cbn [List.filter]. rewrite H6. now destruct (isResponsesCreate r).
  - now constructor.
  - now constructor.
Qed.

Lemma Forall2_in_r {A B} (P : A -> B -> Prop) l k y : Forall2 P l k -> In y k -> exists x, In x l /\ P x y.
Proof.
  induction 1 as [|x z l k Hp _ IH]; [easy|]. intros [<-|Hin]; [exists x; cbn; auto|].
  destruct (IH Hin) as (x' & Hx & Hy). exists x'. cbn. auto.
Qed.

Section Registries.
Context `{UrlParsers} `{ObjectCodec}.

(** Open the chain of steps of a compiler that succeeded. *)
Ltac compiled_steps Hx :=
  repeat match type of Hx with
  | (if ?b then _ else _) = Ok _ => let E := fresh "E" in destruct b eqn:E; [discriminate Hx|]
  | match ?e with Some _ => Err _ | None => _ end = Ok _ => let E := fresh "E" in destruct e eqn:E; [discriminate Hx|]
  | match ?e with Ok _ => _ | Err _ => _ end = Ok _ => let E := fresh "E" in destruct e eqn:E; [|discriminate Hx]
  end.

(** What a compiled definition is made of. *)
Record compiledFrom (source : ModuleDefinition) (e : Extensions) (d : definition) : Prop := {
  from_id : channelID d = source.(md_ID);
  from_params : compileSchema source.(md_ID) "params" [] source.(md_Params) = Ok d.(params);
  from_normalizer : resolveParamsNormalizer source.(md_ID) source.(md_ParamsNormalizer) e = Ok d.(validateParams);
  from_fixed : d.(fixedTargetConfig) = [] \/ d.(fixedTargetConfig) = canonicalJSON {["base_url"%string := d.(fixedBaseURL)]};
  from_policy : d.(fixedTargetConfig) <> [] -> source.(md_Provider).(FixedBaseURL) <> ""%string;
  from_protocols : d.(def_descriptor).(ClientProtocols) = orderedProtocols d.(def_modes);
  from_routes : exists c, compileRoutes source.(md_ID) source.(md_Routes) e = Ok c /\ d.(def_modes) = c.(cr_modes) /\
                          d.(def_resolvers) = c.(cr_resolvers) /\ d.(def_storeHandlings) = c.(cr_storeHandlings);
}.

Lemma compileModule_from source e d : compileModule source e = Ok d -> compiledFrom source e d.
Proof.
  unfold compileModule. intros Hc. cbn zeta in Hc. compiled_steps Hc. injection Hc as <-. split; cbn; try assumption; try reflexivity.
  - destruct (emptyText (FixedBaseURL _)); [injection E12 as <-; now left|].
    destruct (NormalizeBaseURL _); [|discriminate]. injection E12 as <-. now right.
  - destruct (emptyText (FixedBaseURL _)) eqn:Ef; [injection E12 as <-; easy|]. intros _ Hx.
    unfold emptyText in Ef. rewrite Hx in Ef. discriminate.
  - eauto.
Qed.

Lemma compileModules_from modules : forall ds, compileBuiltInModules modules = Ok ds ->
  Forall2 (fun m d => compiledFrom m.(mod_Definition) m.(mod_Extensions) d) modules ds.
Proof.
  induction modules as [|m modules IH]; intros ds Hc; cbn [compileBuiltInModules] in Hc; [injection Hc as <-; constructor|].
  compiled_steps Hc. injection Hc as <-. constructor; [now apply compileModule_from|auto].
Qed.

Lemma registryLoop_same ds : forall seen r, registryLoop seen ds = Ok r ->
  r = ds /\ NoDup (map channelID ds) /\ (forall d, In d ds -> channelID d ∉ seen /\ validateDefinition d = None).
Proof.
  induction ds as [|d ds IH]; intros seen r Hr; cbn [registryLoop] in Hr; [injection Hr as <-; repeat split; constructor || easy|].
  destruct (validateDefinition d) eqn:Ev; [discriminate|]. case_bool_decide as Hs; [discriminate|]. compiled_steps Hr. injection Hr as <-.
  apply IH in E as (-> & Hd & Hall). split; [reflexivity|]. split.
  - cbn [map]. apply NoDup_cons. split; [|exact Hd]. intros Hin. apply list_elem_of_In, in_map_iff in Hin as (d' & E & Hin).
    apply (proj1 (Hall d' Hin)). rewrite E. now left.
  - intros d' [<-|Hin]; [auto|]. destruct (Hall d' Hin) as [H1 H2]. rewrite not_elem_of_cons in H1. tauto.
Qed.

Lemma registry_from modules r : CompileRegistry modules = Ok r ->
  Forall2 (fun m d => compiledFrom m.(mod_Definition) m.(mod_Extensions) d) modules r /\ NoDup (map channelID r) /\
  Forall (fun d => validateDefinition d = None) r.
Proof.
  unfold CompileRegistry. intros Hr. compiled_steps Hr. apply registryLoop_same in Hr as (-> & Hd & Hall).
  split; [now apply compileModules_from|]. split; [exact Hd|]. apply Forall_forall. intros d Hin%list_elem_of_In. now apply Hall.
Qed.

Lemma lookup_in r id d : lookup r id = Some d -> In d r /\ channelID d = id.
Proof. intros Hl. apply find_some in Hl as [Hin E]. now apply String.eqb_eq in E. Qed.

Lemma registry_module modules r id d : CompileRegistry modules = Ok r -> lookup r id = Some d ->
  exists m, In m modules /\ m.(mod_Definition).(md_ID) = id /\ compiledFrom m.(mod_Definition) m.(mod_Extensions) d /\
            validateDefinition d = None.
Proof.
  intros Hr Hl. apply registry_from in Hr as (Hf & _ & Hv). apply lookup_in in Hl as [Hin Hid].
  destruct (Forall2_in_r _ _ _ _ Hf Hin) as (m & Hm & Hc).
  exists m. split; [exact Hm|]. rewrite <- (from_id _ _ _ Hc). split; [exact Hid|]. split; [exact Hc|].
  rewrite Forall_forall in Hv. now apply Hv, list_elem_of_In.
Qed.

(** ** Targets *)

Lemma resolve_target r id raw t : Resolve r id raw = Ok t ->
  exists d values, lookup r id = Some d /\ ValidateParams r id raw = Ok values /\ t = targetOf id d values.
Proof.
  unfold Resolve. destruct (lookup r id) as [d|] eqn:El; [|discriminate].
  destruct (ValidateParams r id raw) as [values|] eqn:Ev; [|discriminate]. intros [= <-]. eauto.
Qed.

(** The routes a module declares. *)
Definition declared (m : ModuleSource) (p : Protocol) (o : Operation) (route : Route) : Prop :=
  In route m.(mod_Definition).(md_Routes) /\ keyOf route = (p, o).

Record targetSound (m : ModuleSource) (t : Target) (protocols : list Protocol) : Prop := {
  sound_modes : forall p o mode, TargetMode t p o = Some mode <-> exists route, declared m p o route /\ route.(r_Mode) = mode;
  sound_pairs : forall p o mode, TargetMode t p o = Some mode ->
    protocolValid p = true /\ operationValid o = true /\ validProtocolOperation p o = true;
  sound_models : forall p o model mode, ModeForModel t p o model = Some mode ->
    routeModeValid mode = true /\
    exists route, declared m p o route /\ (mode = route.(r_Mode) \/ In mode route.(r_PossibleModes));
  sound_lifecycle : forall p o mode, isResponsesLifecycle o = true -> TargetMode t p o = Some mode -> mode = RouteNative;
  sound_managed : TargetStoreHandling t OpenAIResponses OperationResponsesCreate = ResponsesStoreHandlingUpstreamManaged ->
    forall model mode, ModeForModel t OpenAIResponses OperationResponsesCreate model = Some mode -> mode = RouteNative;
  sound_protocols : forall p, In p protocols <-> exists o mode, TargetMode t p o = Some mode;
  sound_operations : forall p o, In o (Operations t p) <-> exists mode, TargetMode t p o = Some mode;
}.

Lemma modes_declared routes p o mode : NoDup (map keyOf routes) ->
  assoc (p, o) (map (fun r => (keyOf r, r.(r_Mode))) routes) = Some mode <->
  exists route, (In route routes /\ keyOf route = (p, o)) /\ route.(r_Mode) = mode.
Proof.
  intros Hd. split.
  - intros Ha%assoc_in. apply in_map_iff in Ha as (r & E & Hin). exists r.
    split; [split; [exact Hin|]|]; congruence.
  - intros (r & [Hin Ek] & <-). apply in_assoc; [now rewrite map_map|]. apply in_map_iff. exists r. now rewrite Ek.
Qed.

Lemma protocols_listed modes p : (forall e, In e modes -> protocolValid e.1.1 = true) ->
  In p (orderedProtocols modes) <-> exists o mode, In ((p, o), mode) modes.
Proof.
  intros Hv. unfold orderedProtocols. rewrite filter_In, existsb_exists. split.
  - intros (_ & [[p' o] mode] & Hin & E). apply bool_decide_eq_true in E. cbn in E. subst. eauto.
  - intros (o & mode & Hin). split; [|exists ((p, o), mode); split; [exact Hin|now apply bool_decide_eq_true]].
    specialize (Hv _ Hin). cbn in Hv. destruct p; cbn; try discriminate; tauto.
Qed.

Lemma operations_listed (modes : list (routeKey * RouteMode)) p o :
  In o (merge_sort operationBefore (map (fun e => e.1.2) (List.filter (fun e => bool_decide (e.1.1 = p)) modes))) <->
  exists mode, In ((p, o), mode) modes.
Proof.
  rewrite <- list_elem_of_In, merge_sort_Permutation, list_elem_of_In, in_map_iff. split.
  - intros ([[p' o'] mode] & E & Hin). apply filter_In in Hin as [Hin Ep]. apply bool_decide_eq_true in Ep. cbn in *. subst. eauto.
  - intros (mode & Hin). exists ((p, o), mode). split; [reflexivity|]. apply filter_In. split; [exact Hin|now apply bool_decide_eq_true].
Qed.

Lemma containsMode_in modes mode : containsRouteMode modes mode = true <-> In mode modes.
Proof.
  unfold containsRouteMode. rewrite existsb_exists. split; [intros (m & Hin & E); now apply bool_decide_eq_true in E as <-|].
  intros Hin. exists mode. split; [exact Hin|now apply bool_decide_eq_true].
Qed.

Lemma resolver_declared e routes p o f :
  assoc (p, o) (omap (fun r => f ← resolverEntry e r; Some (keyOf r, f)) routes) = Some f ->
  exists route, (In route routes /\ keyOf route = (p, o)) /\ resolverEntry e route = Some f.
Proof.
  intros Ha%assoc_in. apply list_elem_of_In in Ha. apply list_elem_of_omap in Ha as (r & Hin & E).
  destruct (resolverEntry e r) as [g|] eqn:Er; [|discriminate]. cbn in E.
  exists r. split; [split; [now apply list_elem_of_In|]|]; congruence.
Qed.

Lemma confined_in allowed f model mode : routeModeValid (confined allowed f model mode) = true -> In (confined allowed f model mode) allowed.
Proof. unfold confined. destruct (containsRouteMode _ _) eqn:E; [intros _; now apply containsMode_in|discriminate]. Qed.

Section Sound.
Context (m : ModuleSource) (d : definition) (Hd : compiledFrom m.(mod_Definition) m.(mod_Extensions) d).
Context (id : string) (values : Values).
Local Abbreviation routes := m.(mod_Definition).(md_Routes).
Local Abbreviation t := (targetOf id d values).

Lemma routes_exact :
  Forall (routeSound m.(mod_Extensions)) routes /\ NoDup (map keyOf routes) /\
  d.(def_modes) = map (fun r => (keyOf r, r.(r_Mode))) routes /\
  d.(def_resolvers) = omap (fun r => f ← resolverEntry m.(mod_Extensions) r; Some (keyOf r, f)) routes /\
  d.(def_storeHandlings) = map (fun r => (keyOf r, r.(r_StoreHandling))) (List.filter isResponsesCreate routes).
Proof.
  destruct (from_routes _ _ _ Hd) as (c & Hc & -> & -> & ->). unfold compileRoutes in Hc. destruct (isEmpty _); [discriminate|].
  apply routeLoop_exact in Hc as (H1 & H2 & _ & H4 & H5 & H6 & _). auto.
Qed.

Lemma target_modes p o mode : TargetMode t p o = Some mode <-> exists route, declared m p o route /\ route.(r_Mode) = mode.
Proof. destruct routes_exact as (_ & Hn & Hm & _). unfold TargetMode, targetOf. cbn. rewrite Hm. now apply modes_declared. Qed.

Lemma declared_sound p o route : declared m p o route -> routeSound m.(mod_Extensions) route.
Proof.
  intros [Hin _]. destruct routes_exact as (Hs & _). rewrite Forall_forall in Hs. now apply Hs, list_elem_of_In.
Qed.

Lemma declared_unique p o route route' : declared m p o route -> declared m p o route' -> route = route'.
Proof.
  intros [H1 E1] [H2 E2]. destruct routes_exact as (_ & Hn & _). apply (NoDup_map_inj keyOf routes); congruence.
Qed.

Lemma target_models p o model mode : ModeForModel t p o model = Some mode ->
  routeModeValid mode = true /\ exists route, declared m p o route /\ (mode = route.(r_Mode) \/ In mode route.(r_PossibleModes)).
Proof.
  unfold ModeForModel. destruct (TargetMode t p o) as [base|] eqn:Em; [|discriminate].
  apply target_modes in Em as (route & Hr & <-). destruct (assoc (p, o) (t_resolvers t)) as [f|] eqn:Ef.
  - unfold targetOf in Ef. cbn in Ef. destruct routes_exact as (_ & _ & _ & Hres & _). rewrite Hres in Ef.
    apply resolver_declared in Ef as (route' & Hr' & Ef). destruct (routeModeValid (f _ _)) eqn:Ev; [|discriminate]. intros [= <-].
    split; [exact Ev|]. exists route'. split; [exact Hr'|]. right. unfold resolverEntry in Ef.
    destruct (emptyText _); [discriminate|]. destruct (extension _ _) as [g|]; [|discriminate]. injection Ef as <-. now apply confined_in.
  - intros [= <-]. destruct (declared_sound _ _ _ Hr) as [(_ & _ & Hv)]. eauto.
Qed.

Lemma target_mode_in p o mode : In (p, o, mode) d.(def_modes) <-> TargetMode t p o = Some mode.
Proof.
  destruct routes_exact as (_ & Hn & Hm & _). unfold TargetMode, targetOf. cbn.
  split; [|apply assoc_in]. apply in_assoc. now rewrite Hm, map_map.
Qed.

Lemma target_sound : targetSound m t d.(def_descriptor).(ClientProtocols).
Proof.
  destruct routes_exact as (Hs & Hn & Hm & Hres & Hst). split; try exact target_modes; try exact target_models.
  - intros p o mode (route & Hr & _)%target_modes. destruct (declared_sound _ _ _ Hr) as [(H1 & H2 & _) H3].
    destruct Hr as [_ [= <- <-]]. auto.
  - intros p o mode Hl (route & Hr & <-)%target_modes. destruct (declared_sound _ _ _ Hr) as [_ _ H3].
    destruct Hr as [_ [= <- <-]]. auto.
  - intros Hh model mode Hmode. apply target_models in Hmode as [Hv (route & Hr & Hcase)].
    assert (Hx : exists route', declared m OpenAIResponses OperationResponsesCreate route' /\
                                route'.(r_StoreHandling) = ResponsesStoreHandlingUpstreamManaged).
    { unfold TargetStoreHandling, targetOf in Hh. cbn in Hh. rewrite Hst in Hh.
      destruct (assoc _ _) as [h|] eqn:Ea; cbn in Hh; [subst h|discriminate]. apply assoc_in, in_map_iff in Ea as (r & E & Hin).
      apply filter_In in Hin as [Hin _]. exists r. split; [split; [exact Hin|]|]; congruence. }
    destruct Hx as (route' & Hr' & Hh'). rewrite (declared_unique _ _ _ _ Hr Hr') in *.
    destruct (declared_sound _ _ _ Hr') as [_ _ _ _ Hman]. destruct (Hman Hh') as [Hnat Hconv].
    destruct Hcase as [->|Hin]; [exact Hnat|]. apply containsMode_in in Hin. destruct mode; congruence || discriminate.
  - intros p. rewrite (from_protocols _ _ _ Hd), protocols_listed.
    + split; intros (o & mode & Hin); exists o, mode; now apply target_mode_in.
    + intros e He. rewrite Hm in He. apply in_map_iff in He as (r & <- & Hin).
      rewrite Forall_forall in Hs. apply list_elem_of_In in Hin. now destruct (Hs r Hin) as [(? & _)].
  - intros p o. unfold Operations, targetOf. cbn [t_modes]. rewrite operations_listed.
    split; intros (mode & Hin); exists mode; now apply target_mode_in.
Qed.

End Sound.

Lemma resolved_sound modules r id raw t : CompileRegistry modules = Ok r -> Resolve r id raw = Ok t ->
  exists m d, In m modules /\ m.(mod_Definition).(md_ID) = id /\ Get r id = Some d /\ targetSound m t d.(ClientProtocols).
Proof.
  intros Hr Ht. apply resolve_target in Ht as (d & values & Hl & _ & ->).
  destruct (registry_module _ _ _ _ Hr Hl) as (m & Hm & Hid & Hc & _). exists m, d.(def_descriptor).
  split; [exact Hm|]. split; [exact Hid|]. split; [unfold Get; now rewrite Hl|]. now apply target_sound.
Qed.

(** [C30] Compiled channels keep what their modules declare.  A resolved target offers exactly
    the declared routes; every route pairs a protocol with an operation it supports, stored
    responses are only reached natively, a model-dependent route stays within its declared
    modes, a channel that leaves storing to the upstream never converts the request, and the
    advertised protocols and operations are exactly those with a route. *)
Theorem channel_targets_sound modules r id raw t : CompileRegistry modules = Ok r -> Resolve r id raw = Ok t ->
  exists m d, In m modules /\ m.(mod_Definition).(md_ID) = id /\ Get r id = Some d /\ targetSound m t d.(ClientProtocols).
Proof. exact (resolved_sound modules r id raw t). Qed.

(** ** The built-in channels *)

Definition isOk {E A} (r : result E A) : bool := match r with Ok _ => true | Err _ => false end.

(** The tests of a module that involve no URL. *)
Definition staticOK (m : ModuleSource) : bool :=
  let d := m.(mod_Definition) in
  let e := m.(mod_Extensions) in
  let id := d.(md_ID) in
  match compileSchema id "params" [] d.(md_Params) with
  | Err _ => false
  | Ok schema =>
    channelIDValid id && negb (emptyText (trimmedText d.(md_Name)) || emptyText (trimmedText d.(md_Mark))) &&
    noticesValid [] d.(md_Notices) && providerValid d.(md_Provider).(pb_ProviderKind) && negb (present (validateConnection d)) &&
    isOk (compileSchema id "credential" [] d.(md_Credentials)) && isOk (resolveParamsNormalizer id d.(md_ParamsNormalizer) e) &&
    isOk (resolveCredentialValidator id d.(md_CredentialValidator) e) && isOk (compileRoutes id d.(md_Routes) e) &&
    negb (present (validateTargetPolicy d schema)) &&
    negb (negb (emptyText d.(md_Capabilities).(ResetCreditAction)) && emptyText d.(md_Capabilities).(QuotaObservation)) &&
    isOk (compileResponseScrub id d.(md_ResponseScrub)) && negb (present (compileModuleExtensions m))
  end.

(** What the URL package has to accept: the fixed address, and the hints as HTTPS addresses. *)
Definition urlsOK (m : ModuleSource) : Prop :=
  (m.(mod_Definition).(md_Provider).(FixedBaseURL) <> ""%string ->
     exists u, NormalizeBaseURL m.(mod_Definition).(md_Provider).(FixedBaseURL) = Some u) /\
  (forall raw, In raw m.(mod_Definition).(md_Provider).(pb_DefaultBaseURLs) -> exists u, NormalizeHTTPSBaseURL raw = Some u).

Lemma isOk_some {E A} (r : result E A) : isOk r = true -> exists a, r = Ok a.
Proof. destruct r; [eauto|discriminate]. Qed.

Lemma absent_none {A} (o : option A) : present o = false -> o = None.
Proof. destruct o; [discriminate|auto]. Qed.

Lemma defaults_normalize id urls : (forall raw, In raw urls -> exists u, NormalizeHTTPSBaseURL raw = Some u) ->
  exists us, NormalizeBaseURLs id urls = Ok us.
Proof.
  induction urls as [|raw urls IH]; intros Hall; [now eexists|]. cbn [NormalizeBaseURLs foldr].
  destruct IH as [us Hus]; [intros; apply Hall; now right|]. unfold NormalizeBaseURLs in Hus. rewrite Hus.
  destruct (Hall raw (or_introl eq_refl)) as [u ->]. eauto.
Qed.

Lemma static_compiles m : staticOK m = true -> urlsOK m ->
  compileModuleExtensions m = None /\ exists d, compileModule m.(mod_Definition) m.(mod_Extensions) = Ok d.
Proof.
  unfold staticOK. intros Hs [Hf Hu]. destruct (compileSchema _ "params" _ _) as [schema|] eqn:E0; [|discriminate]. zbool.
  repeat match goal with
  | Hx : isOk _ = true |- _ => apply isOk_some in Hx as [? Hx]
  | Hx : present _ = false |- _ => apply absent_none in Hx
  end.
  split; [assumption|]. unfold compileModule. cbn zeta.
  repeat match goal with Hx : ?a = _ |- context [?a] => rewrite Hx end. cbn [negb orb].
  destruct (defaults_normalize (md_ID (mod_Definition m)) _ Hu) as [us ->].
  destruct (emptyText (FixedBaseURL _)) eqn:Ef; [eauto|].
  destruct Hf as [u ->]; [|eauto]. intros Hx. unfold emptyText in Ef. rewrite Hx in Ef. discriminate.
Qed.

(** The printer writes one object, without surrounding space, that the parser reads back. *)
Class CodecLaws : Prop := {
  parse_empty : parseObject (bytes "{}") = Some [];
  print_shape : forall values, values <> ∅ -> exists rest, printValues values = "{"%char :: rest;
  print_trimmed : forall values, values <> ∅ -> trim_space (printValues values) = printValues values;
  parse_print : forall values, values <> ∅ -> exists object, parseObject (printValues values) = Some object /\
    (forall k, entry k object = AString <$> values !! k) /\ (forall k, In k (map fst object) -> is_Some (values !! k));
}.

Context `{!CodecLaws}.

Lemma canonical_parses values : exists object, parseObject (canonicalJSON values) = Some object /\
  (forall k, entry k object = AString <$> values !! k) /\ (forall k, In k (map fst object) -> is_Some (values !! k)).
Proof.
  unfold canonicalJSON. destruct (decide (values = ∅)) as [->|Hn]; [|now apply parse_print].
  exists []. split; [exact parse_empty|]. split; [|easy]. intros k. now rewrite lookup_empty.
Qed.

Lemma canonical_decodes values : decodeStrictObject (canonicalJSON values) = parseObject (canonicalJSON values) /\
  trim_space (canonicalJSON values) = canonicalJSON values.
Proof.
  assert (Ht : trim_space (canonicalJSON values) = canonicalJSON values).
  { unfold canonicalJSON. destruct (decide (values = ∅)); [vm_compute; reflexivity|now apply print_trimmed]. }
  split; [|exact Ht]. unfold decodeStrictObject. rewrite Ht. unfold canonicalJSON.
  destruct (decide (values = ∅)) as [->|Hn]; [vm_compute; reflexivity|]. destruct (print_shape values Hn) as [rest ->]. reflexivity.
Qed.

Lemma schema_distinct id name fields : forall seen schema, compileSchema id name seen fields = Ok schema ->
  distinctKeys seen schema = true.
Proof.
  induction fields as [|f fields IH]; intros seen schema Hc; cbn [compileSchema] in Hc; [now injection Hc as <-|].
  destruct (f_Normalizer f); [|discriminate]. compiled_steps Hc. injection Hc as <-. zbool. apply IH in E1.
  cbn [distinctKeys descriptor Key fd_InputKind].
  repeat match goal with Hx : ?a = _ |- context [?a] => rewrite Hx end. reflexivity.
Qed.

Lemma compiled_validates source e d : compileModule source e = Ok d -> validateDefinition d = None.
Proof.
  intros Hc. pose proof (compileModule_from _ _ _ Hc) as Hf. destruct (from_routes _ _ _ Hf) as (c & Hr & Hm & _).
  unfold compileRoutes in Hr. destruct (isEmpty (md_Routes source)) eqn:Ene; [discriminate|].
  apply routeLoop_exact in Hr as (Hs & _ & _ & Hmodes & _).
  assert (Hvalid : isEmpty (def_modes d) = false /\
    forallb (fun e => protocolValid e.1.1 && operationValid e.1.2 && routeModeValid e.2) (def_modes d) = true).
  { rewrite Hm, Hmodes. split; [now destruct (md_Routes source)|]. apply forallb_forall. intros x Hx.
    apply in_map_iff in Hx as (r & <- & Hin). rewrite Forall_forall in Hs. apply list_elem_of_In in Hin.
    destruct (Hs r Hin) as [(Hp & Ho & Hr)]. cbn. now rewrite Hp, Ho, Hr. }
  assert (Hfix : negb (isEmpty (fixedTargetConfig d)) && negb (present (parseObject (fixedTargetConfig d))) = false).
  { destruct (from_fixed _ _ _ Hf) as [->| ->]; [reflexivity|]. destruct (canonical_parses {["base_url"%string := fixedBaseURL d]}) as (o & -> & _).
    apply andb_false_r. }
  unfold compileModule in Hc. cbn zeta in Hc. compiled_steps Hc. injection Hc as <-.
  apply schema_distinct in E4, E5. apply orb_false_iff in E0 as [E0 _]. apply negb_false_iff in E, E2.
  unfold validateDefinition, channelID. cbn zeta. cbn [def_descriptor ID Name providerKind d_Connection fixedTargetConfig params credentials def_modes] in *.
  destruct Hvalid as [Hv1 Hv2]. rewrite E, E0, E2, E4, E5, Hv1, Hv2, Hfix. cbn [negb orb err_if first_error]. unfold validateConnection in E3. cbn zeta in E3.
  destruct (conn_Type (md_Connection source)); cbn [err_if first_error]; [| |discriminate];
    apply first_error_None in E3 as [[E3 _]%first_error_None _]; apply err_if_None, orb_false_iff in E3 as [E3 _];
    apply negb_false_iff, String.eqb_eq in E3; now rewrite E3.
Qed.

Lemma registry_builds ds : (forall d, In d ds -> validateDefinition d = None) -> NoDup (map channelID ds) ->
  forall seen, (forall d, In d ds -> channelID d ∉ seen) -> registryLoop seen ds = Ok ds.
Proof.
  induction ds as [|d ds IH]; intros Hv Hd seen Hs; cbn [registryLoop]; [reflexivity|].
  rewrite (Hv d (or_introl eq_refl)), bool_decide_eq_false_2 by (apply Hs; now left).
  cbn [map] in Hd. apply NoDup_cons in Hd as [Hn Hd]. rewrite IH; auto using in_cons.
  intros d' Hin. rewrite not_elem_of_cons. split; [|apply Hs; now right]. intros E. apply Hn.
  apply list_elem_of_In, in_map_iff. exists d'. auto.
Qed.

Lemma modules_compile modules : forallb staticOK modules = true -> (forall m, In m modules -> urlsOK m) ->
  exists ds, compileBuiltInModules modules = Ok ds /\ (forall d, In d ds -> validateDefinition d = None) /\
             map channelID ds = map (fun m => m.(mod_Definition).(md_ID)) modules.
Proof.
  induction modules as [|m modules IH]; intros Hs Hu; [now exists []|]. cbn [forallb] in Hs. apply andb_true_iff in Hs as [Hs1 Hs2].
  destruct (static_compiles m Hs1 (Hu m (or_introl eq_refl))) as (He & d & Hc).
  destruct IH as (ds & Hds & Hv & Hid); [exact Hs2|intros; apply Hu; now right|].
  exists (d :: ds). cbn [compileBuiltInModules map]. rewrite He, Hc, Hds, Hid, (from_id _ _ _ (compileModule_from _ _ _ Hc)).
  split; [reflexivity|]. split; [|reflexivity]. intros d' [<-|Hin]; [now apply compiled_validates in Hc|auto].
Qed.

Section BuiltIn.
Context `{AccountCodec}.

Lemma builtins_static : forallb staticOK builtInModules = true.
Proof. vm_compute. reflexivity. Qed.

Lemma builtins_distinct : NoDup (map (fun m => m.(mod_Definition).(md_ID)) builtInModules).
Proof. apply (bool_decide_eq_true_1 _). vm_compute. reflexivity. Qed.

(** The built-in channel modules compile.  Provided the URL package accepts the 17
    fixed addresses and the address hints they contain, the registry of all 36 channels is
    built, in product order and without a repeated id, so the constructor that panics on an
    invalid module never does. *)
Theorem builtin_channels_compile : (forall m, In m builtInModules -> urlsOK m) ->
  exists r, CompileRegistry builtInModules = Ok r /\
            map channelID r = map (fun m => m.(mod_Definition).(md_ID)) builtInModules /\ length r = 36%nat.
Proof.
  intros Hu. destruct (modules_compile _ builtins_static Hu) as (ds & Hc & Hv & Hid). exists ds.
  unfold CompileRegistry, newRegistry. rewrite Hc. split.
  - apply registry_builds; [exact Hv|rewrite Hid; exact builtins_distinct|]. intros d _. apply not_elem_of_nil.
  - split; [exact Hid|]. rewrite <- (length_map channelID), Hid. reflexivity.
Qed.

End BuiltIn.

(** ** Frozen targets *)

(** A normalised value is either absent or normalises to itself. *)
Definition stableNormalizer (required : bool) (f : ValueNormalizer) : Prop :=
  forall v u, f v = Some u ->
    (u = ""%string /\ required = false /\ emptyText (trimmedText v) = true) \/ (f u = Some u /\ emptyText (trimmedText u) = false).

Lemma cloud_stable required : stableNormalizer required NormalizeCloudIdentifier.
Proof.
  intros v u. unfold NormalizeCloudIdentifier.
  destruct (emptyText (trimmedText v)) eqn:E1; cbn [orb]; [discriminate|]. destruct (Nat.ltb 255 _) eqn:E2; [discriminate|].
  destruct (existsb _ _) eqn:E3; [discriminate|]. intros [= <-]. right. rewrite trimmedText_idem, E1. cbn [orb]. now rewrite E2, E3.
Qed.

(** Parsing reads back what printing writes: normalising a normalised URL changes nothing. *)
Class UrlLaws : Prop := base_url_stable : forall v u, NormalizeBaseURL v = Some u -> NormalizeBaseURL u = Some u.

Section Stable.
Context `{!UrlLaws}.

Lemma base_nonempty v u : NormalizeBaseURL v = Some u -> emptyText (trimmedText v) = false.
Proof. unfold NormalizeBaseURL. destruct (emptyText (trimmedText v)); [discriminate|reflexivity]. Qed.

Lemma base_stable required : stableNormalizer required NormalizeBaseURL.
Proof. intros v u E%base_url_stable. right. split; [exact E|now apply base_nonempty in E]. Qed.

Lemma optional_stable : stableNormalizer false NormalizeOptionalHTTPSBaseURL.
Proof.
  intros v u. unfold NormalizeOptionalHTTPSBaseURL. destruct (emptyText (trimmedText v)) eqn:Ev; [intros [= <-]; now left|].
  unfold NormalizeHTTPSBaseURL at 1. destruct (NormalizeBaseURL v) as [n|] eqn:En; [|discriminate].
  destruct (urlParse n) as [p|] eqn:Ep; [|discriminate]. destruct (String.eqb (Scheme p) "https") eqn:Es; [|discriminate]. intros [= <-].
  apply base_url_stable in En. right. rewrite (base_nonempty _ _ En). split; [|reflexivity].
  unfold NormalizeHTTPSBaseURL. now rewrite En, Ep, Es.
Qed.

End Stable.

Definition keyName (f : fieldSpec) : string := f.(descriptor).(Key).

(** A field as the schema compiler leaves it, with a stable normaliser. *)
Definition fieldStable (f : fieldSpec) : Prop :=
  stableNormalizer f.(descriptor).(Required) f.(normalize) /\
  (f.(defaultValue) = ""%string \/ exists x, f.(normalize) x = Some f.(defaultValue)).

Lemma emptyText_spec s : emptyText s = true <-> s = ""%string.
Proof. unfold emptyText. apply bool_decide_eq_true. Qed.

Lemma nonblank u : emptyText (trimmedText u) = false -> emptyText u = false.
Proof. destruct (emptyText u) eqn:E; [|reflexivity]. apply emptyText_spec in E as ->. discriminate. Qed.

Lemma given_default prefix f : fieldStable f -> emptyText f.(defaultValue) = false ->
  givenValue prefix f f.(defaultValue) = Ok (Some f.(defaultValue)).
Proof.
  intros [Hs Hd] Hne. unfold givenValue. rewrite Hne. cbn [negb]. rewrite andb_true_r.
  destruct (emptyText (trimmedText _)); [reflexivity|]. destruct Hd as [E|[x Hx]]; [rewrite E in Hne; discriminate|].
  destruct (Hs _ _ Hx) as [(E & _)|[-> _]]; [rewrite E in Hne; discriminate|]. now rewrite Hne.
Qed.

Lemma given_again prefix f x u : fieldStable f -> givenValue prefix f x = Ok (Some u) -> givenValue prefix f u = Ok (Some u).
Proof.
  intros Hf Hv. unfold givenValue in Hv. case_if_in Hv.
  - injection Hv as <-. apply given_default; [exact Hf|]. zbool. assumption.
  - destruct (normalize f x) as [n|] eqn:En; [|discriminate]. destruct (proj1 Hf _ _ En) as [(-> & Hr & _)|[Hn Hne]].
    + rewrite Hr in Hv. discriminate.
    + rewrite (nonblank _ Hne) in Hv. injection Hv as <-. unfold givenValue. now rewrite Hne, Hn, (nonblank _ Hne).
Qed.

Lemma given_absent prefix f x : fieldStable f -> givenValue prefix f x = Ok None ->
  emptyText f.(defaultValue) = true /\ f.(descriptor).(Required) = false.
Proof.
  intros Hf Hv. unfold givenValue in Hv. case_if_in Hv; [discriminate|].
  destruct (normalize f x) as [n|] eqn:En; [|discriminate]. destruct (proj1 Hf _ _ En) as [(-> & Hr & Hx)|[_ Hne]].
  - rewrite Hx in E. zbool. split; [now apply negb_false_iff|exact Hr].
  - rewrite (nonblank _ Hne) in Hv. discriminate.
Qed.

(** A field of an object that holds the values themselves. *)
Lemma fieldValue_again prefix object object' f v : fieldStable f -> fieldValue prefix object f = Ok v ->
  entry (keyName f) object' = AString <$> v -> fieldValue prefix object' f = Ok v.
Proof.
  intros Hf Hv He. unfold fieldValue in *. unfold keyName in He. rewrite He. destruct v as [u|]; cbn.
  - destruct (entry _ object) as [raw|]; [destruct (stringField raw); [eauto using given_again|discriminate]|].
    destruct (emptyText (defaultValue f)) eqn:Ed; cbn [negb] in Hv; [destruct (Required _); discriminate|].
    injection Hv as <-. now apply given_default.
  - assert (Hx : emptyText (defaultValue f) = true /\ Required (descriptor f) = false); [|destruct Hx as [-> ->]; reflexivity].
    destruct (entry _ object) as [raw|]; [destruct (stringField raw); [eauto using given_absent|discriminate]|].
    destruct (emptyText (defaultValue f)); cbn [negb] in Hv; [|discriminate]. destruct (Required _); [discriminate|auto].
Qed.

Lemma distinct_keys schema : forall seen, distinctKeys seen schema = true ->
  NoDup (map keyName schema) /\ (forall f, In f schema -> keyName f ∉ seen).
Proof.
  induction schema as [|f schema IH]; intros seen Hd; [split; [constructor|easy]|]. cbn [distinctKeys] in Hd. zbool.
  destruct (IH _ ltac:(eassumption)) as [Hn Hs]. match goal with Hx : bool_decide _ = false |- _ => apply bool_decide_eq_false in Hx; rename Hx into Hnew end. split.
  - cbn [map]. apply NoDup_cons. split; [|exact Hn]. intros Hin. apply list_elem_of_In, in_map_iff in Hin as (g & E & Hin).
    apply (Hs g Hin). rewrite E. now left.
  - intros g [<-|Hin]; [exact Hnew|]. specialize (Hs g Hin). rewrite not_elem_of_cons in Hs. tauto.
Qed.

(** The loop sets the key of every field to its value and nothing else. *)
Lemma fieldLoop_exact prefix object schema : NoDup (map keyName schema) -> forall acc values,
  (forall f, In f schema -> acc !! keyName f = None) ->
  fieldLoop prefix object schema acc = Ok values <->
  (forall f, In f schema -> fieldValue prefix object f = Ok (values !! keyName f)) /\
  (forall k, ~ In k (map keyName schema) -> values !! k = acc !! k).
Proof.
  induction schema as [|f schema IH]; intros Hd acc values Hacc; cbn [fieldLoop map In].
  { split; [intros [= ->]; now split|]. intros [_ Hk]. f_equal. apply map_eq. intros k. now rewrite Hk. }
  cbn [map] in Hd. apply NoDup_cons in Hd as [Hn Hd].
  destruct (fieldValue prefix object f) as [v|e] eqn:Ev.
  2:{ split; [discriminate|]. intros [Hx _]. specialize (Hx f (or_introl eq_refl)). congruence. }
  assert (Hother : forall g, In g schema -> keyName g <> keyName f).
  { intros g Hg E. apply Hn. apply list_elem_of_In, in_map_iff. eauto. }
  set (acc' := match v with Some x => <[Key (descriptor f) := x]> acc | None => acc end).
  assert (Hk : forall k, acc' !! k = if decide (k = keyName f) then v else acc !! k).
  { intros k. unfold acc'. destruct (decide (k = keyName f)) as [->|Hne].
    - destruct v; [now rewrite lookup_insert_eq|]. apply Hacc. now left.
    - destruct v; [|reflexivity]. rewrite lookup_insert_ne; [reflexivity|]. now apply not_eq_sym. }
  rewrite IH; [|exact Hd|].
  2:{ intros g Hg. rewrite Hk, decide_False by auto. apply Hacc. now right. }
  split.
  - intros [Hf Hrest]. split.
    + intros g [<-|Hg]; [|auto]. rewrite Ev, Hrest, Hk, decide_True; [reflexivity..|].
      intros Hin. apply Hn. now apply list_elem_of_In.
    + intros k Hnk. rewrite Hrest, Hk, decide_False; [reflexivity|..]; [intros ->; tauto|tauto].
  - intros [Hf Hrest]. split; [auto|]. intros k Hnk. rewrite Hk. destruct (decide (k = keyName f)) as [->|Hne].
    + specialize (Hf f (or_introl eq_refl)). congruence.
    + apply Hrest. intros [E|Hin]; [congruence|tauto].
Qed.

Lemma unknown_none known entries : unknownEntry known entries = None <-> forall k, In k (map fst entries) -> In k known.
Proof.
  unfold unknownEntry. split.
  - intros Hn k Hin. apply in_map_iff in Hin as (e & <- & Hin).
    destruct (find _ entries) eqn:Ef; [discriminate|]. pose proof (find_none _ _ Ef e Hin) as Hx. cbn in Hx.
    apply negb_false_iff, existsb_exists in Hx as (x & Hx & E). now apply String.eqb_eq in E as <-.
  - intros Hall. destruct (find _ entries) as [e|] eqn:Ef; [|reflexivity]. apply find_some in Ef as [Hin Hx].
    apply negb_true_iff, not_true_iff_false in Hx. destruct Hx. apply existsb_exists. exists e.1.
    split; [apply Hall, in_map_iff; eauto|apply String.eqb_refl].
Qed.

(** Validating validated values changes nothing. *)
Lemma validate_again s prefix raw values : distinctKeys [] s = true -> Forall fieldStable s ->
  validateObject s prefix raw = Ok values -> validateObject s prefix (canonicalJSON values) = Ok values.
Proof.
  intros Hd Hs Hv. destruct (distinct_keys s [] Hd) as [Hn _]. unfold validateObject in *.
  destruct (decodeStrictObject raw) as [object|]; [|discriminate]. destruct (unknownEntry _ object); [discriminate|].
  apply (fieldLoop_exact prefix object s Hn) in Hv as [Hf Hk]; [|intros; apply lookup_empty].
  destruct (canonical_decodes values) as [-> _]. destruct (canonical_parses values) as (object' & -> & He & Hin).
  change (map (fun f => Key (descriptor f)) s) with (map keyName s).
  rewrite (proj2 (unknown_none (map keyName s) object')).
  - apply (fieldLoop_exact prefix object' s Hn); [intros; apply lookup_empty|]. split; [|exact Hk].
    intros f Hfin. eapply fieldValue_again; [|now apply Hf|apply He].
    rewrite Forall_forall in Hs. now apply Hs, list_elem_of_In.
  - intros k Hkin. destruct (in_dec string_dec k (map keyName s)) as [|Hx]; [assumption|].
    destruct (Hin k Hkin) as [x E]. rewrite (Hk k Hx), lookup_empty in E. discriminate.
Qed.

(** A definition whose targets can be frozen: stable fields, and a fixed address that only
    the optional base URL overrides. *)
Record freezable (d : definition) : Prop := {
  freeze_normalizer : d.(validateParams) = None;
  freeze_keys : distinctKeys [] d.(params) = true;
  freeze_fields : Forall fieldStable d.(params);
  freeze_fixed : d.(fixedTargetConfig) = [] \/
    d.(fixedTargetConfig) = canonicalJSON {["base_url"%string := d.(fixedBaseURL)]} /\
    exists f, d.(params) = [f] /\ keyName f = "base_url"%string /\ f.(descriptor).(Required) = false /\ f.(defaultValue) = ""%string;
}.

Lemma sole_values (values : Values) : (forall k, k <> "base_url"%string -> values !! k = None) ->
  values = ∅ \/ exists u, values = {["base_url"%string := u]}.
Proof.
  intros Hk. destruct (values !! "base_url"%string) as [u|] eqn:E; [right; exists u|left]; apply map_eq; intros k;
    destruct (decide (k = "base_url"%string)) as [->|Hne].
  - now rewrite lookup_singleton_eq.
  - rewrite lookup_singleton_ne by congruence. auto.
  - now rewrite lookup_empty.
  - rewrite lookup_empty. auto.
Qed.

Lemma resolve_values r id d raw values : lookup r id = Some d -> ValidateParams r id raw = Ok values ->
  Resolve r id raw = Ok (targetOf id d values).
Proof. intros Hl Hv. unfold Resolve. now rewrite Hl, Hv. Qed.

Lemma target_config id d values values' : resolvedTargetConfig d values = resolvedTargetConfig d values' ->
  targetOf id d values = targetOf id d values'.
Proof. unfold targetOf. now intros ->. Qed.

(** What a definition with a fixed address does: only the base URL matters. *)
Section FixedAddress.
Context (r : Registry) (id : string) (d : definition) (f : fieldSpec).
Context (Hl : lookup r id = Some d) (Hn : d.(validateParams) = None) (Hk : distinctKeys [] d.(params) = true).
Context (Hfixed : d.(fixedTargetConfig) = canonicalJSON {["base_url"%string := d.(fixedBaseURL)]}).
Context (Hp : d.(params) = [f]) (Hkey : keyName f = "base_url"%string).
Context (Hreq : f.(descriptor).(Required) = false) (Hdef : f.(defaultValue) = ""%string).

Lemma validate_params raw : ValidateParams r id raw = validateObject d.(params) "params" raw.
Proof. unfold ValidateParams, validateParamsOf. now rewrite Hl, Hn. Qed.

Lemma fixed_nonempty : isEmpty (fixedTargetConfig d) = false.
Proof.
  rewrite Hfixed. unfold canonicalJSON. rewrite decide_False by apply map_non_empty_singleton.
  destruct (print_shape {["base_url"%string := fixedBaseURL d]}) as [rest ->]; [apply map_non_empty_singleton|reflexivity].
Qed.

Lemma fixed_config values : resolvedTargetConfig d values =
  match values !! "base_url"%string with Some u => canonicalJSON {["base_url"%string := u]} | None => fixedTargetConfig d end.
Proof. unfold resolvedTargetConfig. now rewrite fixed_nonempty. Qed.

Lemma fixed_preset : Resolve r id [] = Ok (targetOf id d ∅).
Proof. apply resolve_values; [exact Hl|]. rewrite validate_params, Hp. cbn. unfold fieldValue. now rewrite Hreq, Hdef. Qed.

Lemma fixed_values raw values : ValidateParams r id raw = Ok values -> values = ∅ \/ exists u, values = {["base_url"%string := u]}.
Proof.
  intros Hv. apply sole_values. intros k Hkne. rewrite validate_params in Hv. destruct (distinct_keys _ _ Hk) as [Hnd _].
  unfold validateObject in Hv. destruct (decodeStrictObject raw) as [o|]; [|discriminate]. destruct (unknownEntry _ o); [discriminate|].
  apply (fieldLoop_exact "params" o (params d) Hnd) in Hv as [_ Hv]; [|intros; apply lookup_empty].
  rewrite Hv; [apply lookup_empty|]. rewrite Hp. cbn. rewrite Hkey. intros [E|[]]. congruence.
Qed.

Lemma fixed_frozen raw values : ValidateParams r id raw = Ok values -> ValidateParams r id (canonicalJSON values) = Ok values ->
  ResolveExecutionTarget r id (resolvedTargetConfig d values) = Ok (targetOf id d values).
Proof.
  intros Hv Hagain. unfold ResolveExecutionTarget. rewrite Hl, fixed_nonempty. cbn [negb].
  assert (Htrim : trim_space (fixedTargetConfig d) = fixedTargetConfig d) by (rewrite Hfixed; apply canonical_decodes).
  destruct (fixed_values raw values Hv) as [->|[u ->]]; rewrite fixed_config.
  - rewrite lookup_empty, Htrim, bool_decide_eq_true_2 by reflexivity. exact fixed_preset.
  - rewrite lookup_singleton_eq, (proj2 (canonical_decodes {["base_url"%string := u]})). case_bool_decide as Hb.
    + rewrite fixed_preset. f_equal. apply target_config. rewrite !fixed_config, lookup_empty, lookup_singleton_eq. auto.
    + rewrite Hagain, lookup_singleton_eq. now apply resolve_values.
Qed.

End FixedAddress.

Lemma frozen_target r id d raw t : lookup r id = Some d -> freezable d -> Resolve r id raw = Ok t ->
  ResolveExecutionTarget r id t.(t_TargetConfig) = Ok t.
Proof.
  intros Hl [Hn Hk Hs Hfix] Ht. apply resolve_target in Ht as (d' & values & Hl' & Hv & ->). rewrite Hl in Hl'. injection Hl' as <-.
  assert (Hagain : ValidateParams r id (canonicalJSON values) = Ok values).
  { rewrite (validate_params r id d Hl Hn) in *. now apply validate_again in Hv. }
  destruct Hfix as [Hempty|(Hfixed & f & Hp & Hkey & Hreq & Hdef)]; [|now apply (fixed_frozen r id d f) with raw].
  unfold ResolveExecutionTarget. rewrite Hl, Hempty. cbn [isEmpty negb t_TargetConfig targetOf].
  unfold resolvedTargetConfig at 1. rewrite Hempty. cbn [isEmpty negb].
  destruct (isEmpty (params d)) eqn:Ep; cbn [negb]; [|now apply resolve_values].
  assert (values = ∅) as ->; [|rewrite <- (resolve_values r id d _ ∅ Hl Hagain); reflexivity].
  rewrite (validate_params r id d Hl Hn) in Hv. destruct (params d); [|discriminate]. unfold validateObject in Hv.
  destruct (decodeStrictObject raw); [|discriminate]. destruct (unknownEntry _ _); [discriminate|]. now injection Hv as <-.
Qed.

(** ** Which modules can be frozen *)

Definition fieldGood (f : Field) : Prop := exists n, f.(f_Normalizer) = Some n /\ stableNormalizer f.(f_Required) n.

Definition freezableModule (m : ModuleSource) : Prop :=
  m.(mod_Definition).(md_ParamsNormalizer) = ""%string /\ Forall fieldGood m.(mod_Definition).(md_Params) /\
  (m.(mod_Definition).(md_Provider).(FixedBaseURL) = ""%string \/
   exists f, m.(mod_Definition).(md_Params) = [f] /\ f.(f_Key) = "base_url"%string /\ f.(f_Required) = false /\ f.(f_Default) = ""%string).

Lemma schema_stable id name fields : forall seen schema, compileSchema id name seen fields = Ok schema ->
  Forall fieldGood fields -> Forall fieldStable schema /\
  Forall2 (fun f s => keyName s = f.(f_Key) /\ s.(descriptor).(Required) = f.(f_Required) /\
                      (f.(f_Default) = ""%string -> s.(defaultValue) = ""%string)) fields schema.
Proof.
  induction fields as [|f fields IH]; intros seen schema Hc Hg; cbn [compileSchema] in Hc; [injection Hc as <-; split; constructor|].
  apply Forall_cons in Hg as [(n & En & Hstable) Hg]. rewrite En in Hc. compiled_steps Hc. injection Hc as <-.
  destruct (IH _ _ E1 Hg) as [H1' H2']. split; constructor; auto; cbn.
  - split; [exact Hstable|]. destruct (emptyText (f_Default f)) eqn:Ee; [injection E0 as <-; now left|].
    destruct (n (f_Default f)) eqn:Enf; [|discriminate]. injection E0 as <-. right. eauto.
  - split; [reflexivity|]. split; [reflexivity|]. intros Ed. rewrite Ed in E0. injection E0 as <-. reflexivity.
Qed.

Lemma module_freezable m d : compiledFrom m.(mod_Definition) m.(mod_Extensions) d -> freezableModule m -> freezable d.
Proof.
  intros Hc (Hn & Hg & Hfix). pose proof (from_params _ _ _ Hc) as Hp. destruct (schema_stable _ _ _ _ _ Hp Hg) as [Hs Hf2].
  split; [|now apply schema_distinct in Hp|exact Hs|].
  - pose proof (from_normalizer _ _ _ Hc) as Hx. rewrite Hn in Hx. now injection Hx as <-.
  - destruct (from_fixed _ _ _ Hc) as [E|E]; [now left|]. destruct (decide (d.(fixedTargetConfig) = [])) as [|Hne]; [now left|].
    right. split; [exact E|]. destruct Hfix as [Hx|(f & Ef & Hkey & Hreq & Hd)]; [now destruct (from_policy _ _ _ Hc Hne)|].
    rewrite Ef in Hf2. inversion Hf2 as [|? s ? ? (K1 & K2 & K3) Hnil]; subst. inversion Hnil; subst.
    exists s. split; [auto|]. split; [congruence|]. split; [congruence|auto].
Qed.

Section Frozen.
Context `{AccountCodec} `{!UrlLaws}.

Lemma builtins_freezable : Forall freezableModule builtInModules.
Proof.
  repeat (apply Forall_cons; split); try apply Forall_nil; try exact I;
    (split; [reflexivity|split; [|first [left; reflexivity|right; eexists; split; [reflexivity|]; repeat split; reflexivity]]]);
    repeat (apply Forall_cons; split); try apply Forall_nil; try exact I;
    (eexists; split; [reflexivity|]; first [exact (base_stable _)|exact (cloud_stable _)|exact optional_stable]).
Qed.

(** Frozen targets are stable.  The configuration of a target, as it is recorded for an
    attempt, is resolved by the executor to the very same target, for every built-in channel
    and whatever parameters the group was configured with. *)
Theorem frozen_targets_revalidate r id raw t : CompileRegistry builtInModules = Ok r -> Resolve r id raw = Ok t ->
  ResolveExecutionTarget r id t.(t_TargetConfig) = Ok t.
Proof.
  intros Hr Ht. pose proof Ht as Ht'. apply resolve_target in Ht' as (d & values & Hl & _ & _).
  destruct (registry_module _ _ _ _ Hr Hl) as (m & Hm & _ & Hc & _).
  apply (frozen_target r id d raw t Hl); [|exact Ht]. apply (module_freezable m); [exact Hc|].
  pose proof builtins_freezable as Hf. rewrite Forall_forall in Hf. now apply Hf, list_elem_of_In.
Qed.

End Frozen.

End Registries.

(** ** Witnesses *)

(** The addresses the built-in modules contain. *)
Definition knownAddresses : list string :=
  let modules := @builtInModules (Build_UrlParsers (fun _ => None) Host (fun _ => None) (fun _ => None) id)
                                 (Build_AccountCodec (fun _ => None) (fun _ => ""%string)) in
  List.filter (fun u => negb (emptyText u))
    (map (fun m => m.(mod_Definition).(md_Provider).(FixedBaseURL)) modules ++
     concat (map (fun m => m.(mod_Definition).(md_Provider).(pb_DefaultBaseURLs)) modules)).

(** A parser that knows a list of addresses, each its own host. *)
Definition listedUrls (known : list string) : UrlParsers := {|
  urlParse := fun s => if existsb (String.eqb s) known then Some (mkURL "https" s None "" "" "" false "" "" "") else None;
  urlString := Host; parseIP := fun _ => None; idnaToASCII := fun _ => None; lowerText := id;
|}.

Definition normalAddress `{UrlParsers} (s : string) : bool :=
  bool_decide (NormalizeBaseURL s = Some s) && bool_decide (NormalizeHTTPSBaseURL s = Some s).

Lemma listed_known known v u : @NormalizeBaseURL (listedUrls known) v = Some u -> In (trimmedText v) known.
Proof.
  unfold NormalizeBaseURL. cbv zeta. destruct (emptyText (trimmedText v)); [discriminate|]. cbn [urlParse listedUrls].
  destruct (existsb (String.eqb (trimmedText v)) known) eqn:E; [|discriminate].
  intros _. apply existsb_exists in E as (s & Hs & Es). apply String.eqb_eq in Es. now rewrite Es.
Qed.

Lemma base_trimmed `{UrlParsers} v : NormalizeBaseURL (trimmedText v) = NormalizeBaseURL v.
Proof. unfold NormalizeBaseURL. now rewrite trimmedText_idem. Qed.

Lemma listed_laws known : forallb (@normalAddress (listedUrls known)) known = true -> @UrlLaws (listedUrls known).
Proof.
  intros Hall v u Hv. pose proof (listed_known known v u Hv) as Hin. rewrite forallb_forall in Hall.
  specialize (Hall _ Hin). apply andb_true_iff in Hall as [E _]. apply bool_decide_eq_true in E.
  rewrite base_trimmed, Hv in E. injection E as E. rewrite E at 1. rewrite base_trimmed, Hv. reflexivity.
Qed.

#[local] Instance sampleUrls : UrlParsers := listedUrls knownAddresses.

#[local] Instance sampleAccounts : AccountCodec := Build_AccountCodec (fun _ => None) (fun _ => ""%string).

Lemma known_normal : forallb normalAddress knownAddresses = true.
Proof. vm_compute. reflexivity. Qed.

#[local] Instance sampleUrlLaws : UrlLaws := listed_laws knownAddresses known_normal.

(** A codec that writes the number of a map in binary. *)
Fixpoint positive_bits (p : positive) : list ascii :=
  match p with xH => [] | xO p => "0"%char :: positive_bits p | xI p => "1"%char :: positive_bits p end.

Fixpoint bits_positive (l : list ascii) : positive :=
  match l with
  | "0"%char :: l => xO (bits_positive l)
  | "1"%char :: l => xI (bits_positive l)
  | _ => xH
  end.

Lemma bits_positive_app p : bits_positive (positive_bits p ++ ["}"%char]) = p.
Proof. induction p as [p IH|p IH|]; cbn; [now rewrite IH|now rewrite IH|reflexivity]. Qed.

Definition members (values : Values) : list (string * AnyValue) := map (fun kv => (kv.1, AString kv.2)) (map_to_list values).

#[local] Instance sampleCodec : ObjectCodec := {|
  parseObject := fun l =>
    if bool_decide (l = ["{"; "}"]%char) then Some []
    else if bool_decide (take 2 l = ["{"; "#"]%char) then members <$> decode (bits_positive (drop 2 l))
    else None;
  printValues := fun values => "{"%char :: "#"%char :: positive_bits (encode values) ++ ["}"%char];
|}.

Lemma sample_reads values : parseObject (printValues values) = Some (members values).
Proof.
  cbn [parseObject printValues sampleCodec]. rewrite bool_decide_eq_false_2 by discriminate.
  rewrite bool_decide_eq_true_2 by reflexivity. cbn [drop].
  rewrite drop_0. now rewrite bits_positive_app, decode_encode.
Qed.

Lemma members_entry (values : Values) k : entry k (members values) = AString <$> values !! k.
Proof.
  unfold entry. destruct (find _ (members values)) as [e|] eqn:Ef; cbn.
  - apply find_some in Ef as [Hin E]. apply String.eqb_eq in E. apply in_map_iff in Hin as ([k' v] & <- & Hin). cbn in *. subst k'.
    apply list_elem_of_In, elem_of_map_to_list in Hin. now rewrite Hin.
  - destruct (values !! k) as [v|] eqn:Ek; [|reflexivity]. apply elem_of_map_to_list, list_elem_of_In in Ek.
    assert (Hin : In (k, AString v) (members values)) by (apply in_map_iff; exists (k, v); auto).
    pose proof (find_none _ _ Ef _ Hin) as Hx. cbn in Hx. now rewrite String.eqb_refl in Hx.
Qed.

Lemma bits_visible p : forallb visible (positive_bits p ++ ["}"%char]) = true.
Proof. induction p as [p IH|p IH|]; cbn [positive_bits app forallb]; [now rewrite IH|now rewrite IH|reflexivity]. Qed.

#[local] Instance sampleCodecLaws : CodecLaws.
Proof.
  split.
  - reflexivity.
  - intros values _. eauto.
  - intros values _. apply trim_space_visible. cbn [printValues sampleCodec forallb]. now rewrite bits_visible.
  - intros values Hne. exists (members values). split; [|split].
    + apply sample_reads.
    + intros k. apply members_entry.
    + intros k Hin. unfold members in Hin. rewrite map_map in Hin. apply in_map_iff in Hin as ([k' v] & <- & Hin).
      apply list_elem_of_In, elem_of_map_to_list in Hin. eauto.
Qed.

(** Every address of a module is listed. *)
Definition addressesListed (m : ModuleSource) : bool :=
  forallb (fun u => emptyText u || normalAddress u)
    (m.(mod_Definition).(md_Provider).(FixedBaseURL) :: m.(mod_Definition).(md_Provider).(pb_DefaultBaseURLs)) &&
  forallb (fun u => negb (emptyText u)) m.(mod_Definition).(md_Provider).(pb_DefaultBaseURLs).

Lemma normal_address u : normalAddress u = true -> NormalizeBaseURL u = Some u /\ NormalizeHTTPSBaseURL u = Some u.
Proof. unfold normalAddress. intros [E1 E2]%andb_true_iff. split; eapply bool_decide_eq_true_1; eassumption. Qed.

Lemma listed_urls m : addressesListed m = true -> urlsOK m.
Proof.
  unfold addressesListed. cbn [forallb]. intros [[Hf Hd]%andb_true_iff Hn]%andb_true_iff. rewrite forallb_forall in Hd, Hn. split.
  - intros Hne. apply orb_true_iff in Hf as [E|E]; [now apply emptyText_spec in E|]. apply normal_address in E as [E _]. eauto.
  - intros raw Hin. specialize (Hd raw Hin). specialize (Hn raw Hin). apply negb_true_iff in Hn. rewrite Hn in Hd.
    apply normal_address in Hd as [_ E]. eauto.
Qed.

Lemma builtins_listed : forallb addressesListed builtInModules = true.
Proof. vm_compute. reflexivity. Qed.

Lemma builtin_channels_compile_witness : exists r, CompileRegistry builtInModules = Ok r /\ length r = 36%nat.
Proof.
  destruct builtin_channels_compile as (r & Hr & _ & Hl).
  - intros m Hm. apply listed_urls. pose proof builtins_listed as Hb. rewrite forallb_forall in Hb. now apply Hb.
  - exists r. exact (conj Hr Hl).
Defined.

(** Whether the channels of [modules] resolve [id] with the given parameters. *)
Definition resolves (modules : list ModuleSource) (id : string) (raw : list ascii) : bool :=
  match CompileRegistry modules with Ok r => isOk (Resolve r id raw) | Err _ => false end.

Lemma resolves_some modules id raw : resolves modules id raw = true ->
  exists r t, CompileRegistry modules = Ok r /\ Resolve r id raw = Ok t.
Proof.
  unfold resolves. destruct (CompileRegistry modules) as [r|]; [|discriminate].
  intros [t Ht]%isOk_some. exists r, t. auto.
Qed.

Lemma sample_resolves : resolves [GoogleVertexModule] "google_vertex" (bytes "{}") &&
  resolves builtInModules "google_vertex" (bytes "{}") = true.
Proof. vm_compute. reflexivity. Qed.

Lemma channel_targets_sound_witness : exists r t m d,
  CompileRegistry [GoogleVertexModule] = Ok r /\ Resolve r "google_vertex" (bytes "{}") = Ok t /\
  m.(mod_Definition).(md_ID) = "google_vertex"%string /\ targetSound m t d.(ClientProtocols).
Proof.
  pose proof sample_resolves as [(r & t & Hr & Ht)%resolves_some _]%andb_true_iff.
  destruct (channel_targets_sound [GoogleVertexModule] r "google_vertex" (bytes "{}") t Hr Ht) as (m & d & _ & Hid & _ & Hs).
  exists r, t, m, d. exact (conj Hr (conj Ht (conj Hid Hs))).
Defined.

Lemma frozen_targets_revalidate_witness : exists r t,
  CompileRegistry builtInModules = Ok r /\ Resolve r "google_vertex" (bytes "{}") = Ok t /\
  ResolveExecutionTarget r "google_vertex" t.(t_TargetConfig) = Ok t.
Proof.
  pose proof sample_resolves as [_ (r & t & Hr & Ht)%resolves_some]%andb_true_iff.
  exists r, t. split; [exact Hr|]. split; [exact Ht|]. exact (frozen_targets_revalidate r "google_vertex" (bytes "{}") t Hr Ht).
Defined.

End ChannelProps.
