(* ===== verification/Proxy.v ===== *)
(** * Outbound proxies

    [internal/outboundproxy]: the proxy override of a credential, a group or the system, its
    normal form, and which of them an attempt uses.  [url.Parse] and [URL.String] are those
    of class [UrlParsers]; the escaping of a user name and the JSON codec of a
    configuration are arguments (class [ProxyText]). *)

From Stdlib Require Import ZArith Lia Bool String Ascii List.
From stdpp Require Import base gmap sets list strings.
From coqutil Require Import Datatypes.RecordSettersUsingExistingGetters.
From S2P Require Import Prelude GoStrings Money Execution Contracts Headers Settings.

Local Open Scope Z_scope.
Local Open Scope go_scope.

Module Proxy.
Import Execution Contracts Headers Settings.

Inductive Mode := ModeInherit | ModeDirect | ModeCustom | ModeEnvironment | ModeOther (raw : string).
#[export] Instance Mode_eq_dec : EqDecision Mode.
Proof. solve_decision. Defined.

Inductive Source := SourceCredential | SourceGroup | SourceGlobal | SourceEnvironment | SourceDefault | SourceOther (raw : string).
#[export] Instance Source_eq_dec : EqDecision Source.
Proof. solve_decision. Defined.

Record ProxyConfig := mkProxy { px_Mode : Mode; px_URL : string; px_ProxyID : Z }.
#[export] Instance ProxyConfig_eq_dec : EqDecision ProxyConfig.
Proof. solve_decision. Defined.

Record Effective := mkEffective { eff_Config : ProxyConfig; eff_Source : Source }.
#[export] Instance Effective_eq_dec : EqDecision Effective.
Proof. solve_decision. Defined.

Record ProxyView := mkProxyView {
  ConfiguredMode : Mode;
  EffectiveMode : Mode;
  EffectiveSource : Source;
  DisplayURL : string;
  HasAuth : bool;
  pv_ProxyID : Z;
}.

Inductive ProxyError := ErrInvalidConfig.
Abbreviation checked := (result ProxyError).

Definition ofMode (m : Mode) : ProxyConfig := mkProxy m "" 0.

(** The process environment: whether one of the standard variables is set. *)
Definition Environment (getenv : string -> string) : option ProxyConfig :=
  if existsb (fun key => negb (emptyText (trimmedText (getenv key)))) ["HTTPS_PROXY"; "https_proxy"; "HTTP_PROXY"; "http_proxy"]%string
  then Some (ofMode ModeEnvironment) else None.

(** [url.User(name).String()], and the codec of a configuration. *)
Class ProxyText := {
  escapeUser : string -> string;
  marshalProxy : ProxyConfig -> string;
  unmarshalProxy : string -> option ProxyConfig;
}.

Section Proxies.
Context `{UrlParsers} `{ProxyText}.

(** The port has to be absent, or a number from 1 to 65535. *)
Definition portValid (port : string) : bool :=
  emptyText port ||
  match parse_uint64 (bytes port) with Some n => (n <=? 65535) && negb (n =? 0) | None => false end.

Definition userValid (user : option (string * option string)) : bool :=
  match user with
  | None => true
  | Some (name, password) => negb (emptyText name) && negb (emptyText (default ""%string password))
  end.

Definition endsWithColon (host : string) : bool :=
  match rev (bytes host) with c :: _ => Ascii.eqb c ":" | [] => false end.

Definition normalizeCustom (endpoint : string) : checked ProxyConfig :=
  let endpoint := trimmedText endpoint in
  if emptyText endpoint then Err ErrInvalidConfig
  else
    match urlParse endpoint with
    | None => Err ErrInvalidConfig
    | Some u =>
      if negb (emptyText u.(Opaque)) || emptyText (Hostname u) then Err ErrInvalidConfig
      else
        let u := u <| Scheme := text (to_lower (bytes u.(Scheme))) |> in
        let port := Port u in
        let socks := String.eqb u.(Scheme) "socks5" in
        if negb (String.eqb u.(Scheme) "http" || socks) then Err ErrInvalidConfig
        else if endsWithColon u.(Host) || (socks && emptyText port) then Err ErrInvalidConfig
        else if negb (portValid port) then Err ErrInvalidConfig
        else if negb (emptyText u.(Path)) && negb (String.eqb u.(Path) "/") then Err ErrInvalidConfig
        else if negb (emptyText u.(RawQuery)) || u.(ForceQuery) || negb (emptyText u.(Fragment)) || negb (emptyText u.(RawFragment))
        then Err ErrInvalidConfig
        else if negb (userValid u.(User)) then Err ErrInvalidConfig
        else Ok (mkProxy ModeCustom (urlString (u <| Path := ""%string |> <| RawPath := ""%string |>)) 0)
    end.

Definition NormalizeProxy (input : ProxyConfig) : checked ProxyConfig :=
  match input.(px_Mode) with
  | ModeInherit | ModeDirect =>
    if negb (emptyText input.(px_URL)) || negb (input.(px_ProxyID) =? 0) then Err ErrInvalidConfig else Ok (ofMode input.(px_Mode))
  | ModeCustom =>
    if negb (input.(px_ProxyID) =? 0) then
      if negb (emptyText input.(px_URL)) then Err ErrInvalidConfig else Ok (mkProxy ModeCustom "" input.(px_ProxyID))
    else normalizeCustom input.(px_URL)
  | _ => Err ErrInvalidConfig
  end.

(** The form under which the management plane finds duplicates. *)
Definition CanonicalConnection (input : ProxyConfig) : checked ProxyConfig :=
  let? config := NormalizeProxy input in
  if negb (bool_decide (config.(px_Mode) = ModeCustom)) || negb (config.(px_ProxyID) =? 0) then Err ErrInvalidConfig
  else
    match urlParse config.(px_URL) with
    | None => Err ErrInvalidConfig
    | Some u =>
      let host := lowerText (Hostname u) in
      let host := default host (parseIP host) in
      match canonicalPort (Port u) with
      | None => Err ErrInvalidConfig
      | Some port =>
        let port := if String.eqb u.(Scheme) "http" && String.eqb port "80" then ""%string else port in
        let host :=
          if negb (emptyText port) then JoinHostPort host port
          else if existsb (Ascii.eqb ":") (bytes host) then ("[" ++ host ++ "]")%string else host in
        Ok (config <| px_URL := urlString (u <| Host := host |>) |>)
      end
    end.

(** What the user interface shows: never a password. *)
Definition Display (config : ProxyConfig) : checked (string * bool) :=
  let? normalized := NormalizeProxy config in
  if negb (bool_decide (normalized.(px_Mode) = ModeCustom)) then Ok (""%string, false)
  else
    match urlParse normalized.(px_URL) with
    | None => Err ErrInvalidConfig
    | Some u =>
      match u.(User) with
      | None => Ok (urlString u, false)
      | Some (name, password) =>
        let userinfo := (escapeUser name ++ if present password then ":******" else "")%string in
        Ok ((u.(Scheme) ++ "://" ++ userinfo ++ "@" ++ u.(Host))%string, true)
      end
    end.

(** One round over the candidates: an inherited one is passed over. *)
Fixpoint resolveProxies (candidates : list (option ProxyConfig * Source)) : checked Effective :=
  match candidates with
  | [] => Ok (mkEffective (ofMode ModeDirect) SourceDefault)
  | (None, _) :: rest => resolveProxies rest
  | (Some config, source) :: rest =>
    if bool_decide (source = SourceEnvironment) && bool_decide (config.(px_Mode) = ModeEnvironment) && emptyText config.(px_URL)
    then Ok (mkEffective config source)
    else
      match NormalizeProxy config with
      | Err e => Err e
      | Ok normalized =>
        if negb (normalized.(px_ProxyID) =? 0) then Err ErrInvalidConfig
        else if bool_decide (normalized.(px_Mode) = ModeInherit) then resolveProxies rest
        else Ok (mkEffective normalized source)
      end
  end.

Definition ResolveProxy (credential group global environment : option ProxyConfig) : checked Effective :=
  resolveProxies [(credential, SourceCredential); (group, SourceGroup); (global, SourceGlobal); (environment, SourceEnvironment)].

Definition NormalizeEffective (input : Effective) : checked Effective :=
  if bool_decide (input.(eff_Config).(px_Mode) = ModeOther "") then Ok (mkEffective (ofMode ModeDirect) SourceDefault)
  else if bool_decide (input.(eff_Config).(px_Mode) = ModeEnvironment) then
    if negb (emptyText input.(eff_Config).(px_URL)) then Err ErrInvalidConfig
    else Ok (mkEffective (ofMode ModeEnvironment) SourceEnvironment)
  else
    let? config := NormalizeProxy input.(eff_Config) in
    if bool_decide (config.(px_Mode) = ModeInherit) || negb (config.(px_ProxyID) =? 0) then Err ErrInvalidConfig
    else
      let source := if bool_decide (input.(eff_Source) = SourceOther "") then SourceDefault else input.(eff_Source) in
      Ok (mkEffective config source).

Definition NewView (configured : option ProxyConfig) (effective : Effective) : checked ProxyView :=
  let? configured :=
    match configured with
    | None => Ok (ModeInherit, 0)
    | Some config => let? normalized := NormalizeProxy config in Ok (normalized.(px_Mode), normalized.(px_ProxyID))
    end in
  let? display :=
    if bool_decide (effective.(eff_Config).(px_Mode) = ModeEnvironment) then Ok (""%string, false)
    else Display effective.(eff_Config) in
  Ok (mkProxyView configured.1 effective.(eff_Config).(px_Mode) effective.(eff_Source) display.1 display.2 configured.2).

Definition EncodeProxy (config : ProxyConfig) : checked string :=
  let? normalized := NormalizeProxy config in Ok (marshalProxy normalized).

Definition DecodeProxy (encoded : string) : checked ProxyConfig :=
  match unmarshalProxy encoded with Some config => NormalizeProxy config | None => Err ErrInvalidConfig end.

End Proxies.

(** ** Which proxy is used *)

Section Precedence.
Context `{UrlParsers}.

Lemma normalized_mode config normalized : NormalizeProxy config = Ok normalized ->
  normalized.(px_Mode) = config.(px_Mode) /\ normalized.(px_Mode) <> ModeEnvironment.
Proof.
  unfold NormalizeProxy, normalizeCustom. destruct (px_Mode config) eqn:E; try discriminate; cbv zeta;
    repeat case_match; intros Hx; try discriminate; injection Hx as <-; cbn; auto; split; congruence.
Qed.

(** An override that leaves the decision to the next one. *)
Definition passes (candidate : option ProxyConfig * Source) : Prop :=
  match candidate.1 with
  | None => True
  | Some config => exists normalized, NormalizeProxy config = Ok normalized /\ normalized.(px_Mode) = ModeInherit
  end.

(** An override that decides for the proxy [eff]. *)
Definition decides (candidate : option ProxyConfig * Source) (eff : Effective) : Prop :=
  eff.(eff_Source) = candidate.2 /\ exists config, candidate.1 = Some config /\
  ((candidate.2 = SourceEnvironment /\ config.(px_Mode) = ModeEnvironment /\ eff.(eff_Config) = config) \/
   (NormalizeProxy config = Ok eff.(eff_Config) /\ eff.(eff_Config).(px_ProxyID) = 0 /\ eff.(eff_Config).(px_Mode) <> ModeInherit)).

Lemma proxies_decided candidates eff : resolveProxies candidates = Ok eff ->
  (Forall passes candidates /\ eff = mkEffective (ofMode ModeDirect) SourceDefault) \/
  exists before candidate after, candidates = before ++ candidate :: after /\ Forall passes before /\ decides candidate eff.
Proof.
  induction candidates as [|[[config|] source] rest IH]; cbn [resolveProxies].
  - intros [= <-]. left. auto.
  - case_match eqn:Ee.
    + apply andb_true_iff in Ee as [[Es Em]%andb_true_iff _]. apply bool_decide_eq_true in Es, Em. intros [= <-].
      right. exists [], (Some config, source), rest. split; [reflexivity|]. split; [constructor|]. split; [reflexivity|]. eauto 6.
    + destruct (NormalizeProxy config) as [n|] eqn:En; [|discriminate]. destruct (px_ProxyID n =? 0) eqn:Ei; [|discriminate].
      cbn [negb]. apply Z.eqb_eq in Ei. destruct (bool_decide_reflect (px_Mode n = ModeInherit)) as [Hm|Hm].
      * intros [[Hall ->]|(before & c & after & -> & Hb & Hd)]%IH.
        -- left. split; [|reflexivity]. constructor; [|exact Hall]. exists n. auto.
        -- right. exists ((Some config, source) :: before), c, after. split; [reflexivity|]. split; [|exact Hd].
           constructor; [|exact Hb]. exists n. auto.
      * intros [= <-]. right. exists [], (Some config, source), rest. split; [reflexivity|]. split; [constructor|].
        split; [reflexivity|]. eauto 6.
  - intros [[Hall ->]|(before & c & after & -> & Hb & Hd)]%IH.
    + left. split; [|reflexivity]. constructor; [exact I|exact Hall].
    + right. exists ((None, source) :: before), c, after. split; [reflexivity|]. split; [|exact Hd]. constructor; [exact I|exact Hb].
Qed.

(** A resolved proxy never asks to inherit, and is a direct one unless some override decided. *)
Lemma resolved_mode credential group global environment eff : ResolveProxy credential group global environment = Ok eff ->
  eff.(eff_Config).(px_Mode) <> ModeInherit.
Proof.
  intros [[_ ->]|(before & c & after & _ & _ & _ & config & _ & [(_ & Em & ->)|(_ & _ & Hm)])]%proxies_decided;
    [discriminate|congruence|exact Hm].
Qed.

End Precedence.

End Proxy.
