(* ===== verification/Overrides.v ===== *)
(** * Parameter overrides

    [internal/parameteroverride]: the rules of a group that set and remove parameters of a
    request body, their compilation from JSON and the choice of the rules that match.

    A JSON value decoded with [UseNumber] is [Json]; an object is the list of its entries in
    the order one iteration visits them.  [json.Marshal], the decoder and [strconv]'s
    conversion of floats are arguments (class [OverrideJson]). *)

From Stdlib Require Import ZArith Lia Bool String Ascii List.
From stdpp Require Import base gmap sets list strings option.
From coqutil Require Import Datatypes.RecordSettersUsingExistingGetters.
From S2P Require Import Prelude GoStrings Execution Contracts Headers Ownership Settings.

Local Open Scope Z_scope.
Local Open Scope go_scope.

Module Overrides.
Import Execution Contracts Headers Ownership Settings.

(** ** JSON values *)

Inductive Json :=
| JNull
| JBool (b : bool)
| JNumber (literal : string)
| JString (s : string)
| JArray (l : list Json)
| JObject (entries : list (string * Json)).

(** [json.Marshal] of a value of type [any]; the decoding of one whole text into a tree;
    [strconv.ParseFloat] with its sign bit, and [strconv.FormatFloat(f, 'g', -1, 64)]. *)
Class OverrideJson := {
  marshalAny : AnyValue -> option (list ascii);
  decodeTree : list ascii -> option Json;
  parseFloat : string -> option (bool * Float64);
  formatFloat : bool * Float64 -> string;
}.

Definition field (key : string) (entries : list (string * Json)) : option Json :=
  snd <$> find (fun e => String.eqb e.1 key) entries.

Definition maxRules : nat := 100.
Definition maxConfigBytes : Z := 262144.
Definition maxRemovePaths : Z := 256.
Definition maxJSONDepth : nat := 64.
Definition forbiddenRootFields : list string := ["model"; "stream"; "store"]%string.

(** ** Rules *)

Record rule := mkRule {
  clientProtocol : Protocol;  (* [ProtocolOther ""]: any *)
  model : string;
  modelPrefix : bool;
  set : list (string * Json);
  remove : list (list string);
}.

Definition Rules : Type := list rule.

Inductive OverrideError :=
| NotEncodable | TooLarge | NotArray | TooManyRules | TooManyPaths
| RuleError (index : nat) (what : string).

Abbreviation compiledRule := (result string).

Definition anyProtocol : Protocol := ProtocolOther "".

Definition protocols : list Protocol :=
  [OpenAICompletions; OpenAIResponses; OpenAIImages; OpenAIEmbeddings; Rerank; Decisions; Anthropic; Gemini; GeminiEmbeddings].

(** The protocol a text names. *)
Definition protocolNamed (value : string) : option Protocol := find (fun p => String.eqb (protocolText p) value) protocols.

Definition count (c : ascii) (l : list ascii) : nat := length (List.filter (Ascii.eqb c) l).

Definition forbiddenRootField (value : string) : bool := existsb (fun f => equal_fold (bytes value) (bytes f)) forbiddenRootFields.

(** *** JSON pointers *)

Fixpoint decodePointerSegment (l : list ascii) : option (list ascii) :=
  match l with
  | [] => Some []
  | c :: rest =>
    if Ascii.eqb c "~" then
      match rest with
      | d :: rest =>
        if Ascii.eqb d "0" then cons "~"%char <$> decodePointerSegment rest
        else if Ascii.eqb d "1" then cons "/"%char <$> decodePointerSegment rest
        else None
      | [] => None
      end
    else cons c <$> decodePointerSegment rest
  end.

Definition pointerSegment (raw : list ascii) : option string :=
  match decodePointerSegment raw with
  | None => None
  | Some decoded =>
    if isEmpty decoded || bool_decide (decoded = ["-"%char]) || present (parse_uint64 decoded) then None else Some (text decoded)
  end.

Fixpoint pointerSegments (l : list (list ascii)) : option (list string) :=
  match l with
  | [] => Some []
  | raw :: rest => match pointerSegment raw, pointerSegments rest with Some s, Some ss => Some (s :: ss) | _, _ => None end
  end.

Definition parsePointer (value : string) : option (list string) :=
  match bytes value with
  | c :: rest =>
    if negb (Ascii.eqb c "/") then None
    else if (maxJSONDepth <? count "/" (bytes value))%nat then None
    else pointerSegments (split_on "/" rest)
  | [] => None
  end.

Section Compile.
Context `{OverrideJson}.

(** *** Values a rule may set *)

(** Whether two decimal literals denote the same number: [m1 * 10^e1 = m2 * 10^e2]. *)
Definition sameNumber (a b : Z * Z) : bool :=
  let '(m1, e1) := a in let '(m2, e2) := b in
  let e := Z.min e1 e2 in m1 * 10 ^ (e1 - e) =? m2 * 10 ^ (e2 - e).

(** The literal is written exactly by the shortest text of its nearest float. *)
Definition validateJSONNumber (literal : string) : bool :=
  match parseFloat literal with
  | None | Some (_, FloatSpecial) => false
  | Some (negative, FloatFinite m e) =>
    negb ((m =? 0) && negative) &&
    match json_number (bytes literal) with
    | None => false
    | Some exact =>
      (match scaled 10 exact.1 exact.2 with Some n => Z.abs n <=? maxJSONSafeInteger | None => true end) &&
      match json_number (bytes (formatFloat (negative, FloatFinite m e))) with
      | Some roundTrip => sameNumber exact roundTrip
      | None => false
      end
    end
  end.

Fixpoint validateSetValue (value : Json) (depth : nat) : bool :=
  (depth <=? maxJSONDepth)%nat &&
  match value with
  | JObject entries => forallb (fun e => negb (emptyText e.1) && validateSetValue e.2 (S depth)) entries
  | JArray l => forallb (fun v => validateSetValue v (S depth)) l
  | JNumber literal => validateJSONNumber literal
  | _ => true
  end.

(** *** One rule *)

Definition jsonText (j : Json) : option string := match j with JString s => Some s | JNull => Some ""%string | _ => None end.

(** The model pattern: a name, or a prefix before one trailing star. *)
Definition modelPattern (value : string) : option (string * bool) :=
  let l := bytes value in
  match count "*" l with
  | O => Some (value, false)
  | S O =>
    match rev l with
    | c :: (_ :: _) as r => if Ascii.eqb c "*" then Some (text (rev (tail r)), true) else None
    | _ => None
    end
  | _ => None
  end.

Definition compileMatch (raw : Json) : compiledRule (Protocol * string * bool) :=
  match raw with
  | JObject values =>
    if existsb (fun e => negb (bool_decide (e.1 ∈ ["protocol"; "model"]%string))) values then Err "match field"%string
    else
      let? protocol :=
        match field "protocol" values with
        | None => Ok anyProtocol
        | Some j =>
          match jsonText j with
          | None => Err "match.protocol"%string
          | Some value =>
            if emptyText value || negb (String.eqb (trimmedText value) value) then Err "match.protocol"%string
            else match protocolNamed value with Some p => Ok p | None => Err "match.protocol"%string end
          end
        end in
      let? pattern :=
        match field "model" values with
        | None => Ok (""%string, false)
        | Some j =>
          match jsonText j with
          | None => Err "match.model"%string
          | Some value =>
            if emptyText value || negb (String.eqb (trimmedText value) value) then Err "match.model"%string
            else match modelPattern value with Some p => Ok p | None => Err "match.model"%string end
          end
        end in
      Ok (protocol, pattern.1, pattern.2)
  | _ => Err "match"%string
  end.

Definition compileSet (raw : Json) : compiledRule (list (string * Json)) :=
  match raw with
  | JObject entries =>
    if negb (validateSetValue raw 1) then Err "set value"%string
    else if existsb (fun e => forbiddenRootField e.1) entries then Err "set field"%string
    else Ok entries
  | _ => Err "set"%string
  end.

Fixpoint pathTexts (l : list Json) : option (list string) :=
  match l with
  | [] => Some []
  | j :: rest => match jsonText j, pathTexts rest with Some s, Some ss => Some (s :: ss) | _, _ => None end
  end.

Fixpoint removeLoop (seen : list string) (paths : list string) : compiledRule (list (list string)) :=
  match paths with
  | [] => Ok []
  | path :: rest =>
    if bool_decide (path ∈ seen) then Err "remove duplicate"%string
    else
      match parsePointer path with
      | None => Err "remove path"%string
      | Some segments =>
        if forbiddenRootField (default ""%string (head segments)) then Err "remove field"%string
        else let? more := removeLoop (path :: seen) rest in Ok (segments :: more)
      end
  end.

Definition compileRule (raw : list (string * Json)) : compiledRule (rule * Z) :=
  if existsb (fun e => negb (bool_decide (e.1 ∈ ["match"; "set"; "remove"]%string))) raw then Err "unknown field"%string
  else
    let? m := match field "match" raw with None => Ok (anyProtocol, ""%string, false) | Some j => compileMatch j end in
    let? entries := match field "set" raw with None => Ok [] | Some j => compileSet j end in
    let? paths :=
      match field "remove" raw with
      | None => Ok []
      | Some (JArray l) => match pathTexts l with Some paths => Ok paths | None => Err "remove"%string end
      | Some _ => Err "remove"%string
      end in
    let? pointers := removeLoop [] paths in
    if isEmpty entries && isEmpty pointers then Err "empty"%string
    else Ok (mkRule m.1.1 m.1.2 m.2 entries pointers, Z.of_nat (length paths)).

(** *** The rule set *)

(** [null] in the array decodes to an empty object. *)
Fixpoint rawRules (l : list Json) : option (list (list (string * Json))) :=
  match l with
  | [] => Some []
  | JObject entries :: rest => cons entries <$> rawRules rest
  | JNull :: rest => cons [] <$> rawRules rest
  | _ :: _ => None
  end.

Fixpoint ruleLoop (index : nat) (total : Z) (raws : list (list (string * Json))) : result OverrideError Rules :=
  match raws with
  | [] => Ok []
  | raw :: rest =>
    match compileRule raw with
    | Err what => Err (RuleError (S index) what)
    | Ok (entry, removed) =>
      let total := total + removed in
      if maxRemovePaths <? total then Err TooManyPaths
      else let? more := ruleLoop (S index) total rest in Ok (entry :: more)
    end
  end.

Definition CompileOverrides (value : AnyValue) : result OverrideError Rules :=
  match marshalAny value with
  | None => Err NotEncodable
  | Some encoded =>
    if maxConfigBytes <? Z.of_nat (length encoded) then Err TooLarge
    else
      match decodeTree encoded with
      | Some (JArray l) =>
        match rawRules l with
        | None => Err NotArray
        | Some raws => if (maxRules <? length raws)%nat then Err TooManyRules else ruleLoop 0 0 raws
        end
      | _ => Err NotArray
      end
  end.

End Compile.

(** ** Matching *)

Definition EmptyRules (rules : Rules) : bool := isEmpty rules.

Definition ruleMatches (entry : rule) (p : Protocol) (clientModel : string) : bool :=
  if negb (bool_decide (entry.(clientProtocol) = anyProtocol)) && negb (bool_decide (entry.(clientProtocol) = p)) then false
  else if emptyText entry.(model) then true
  else if entry.(modelPrefix) then present (strip_prefix (bytes entry.(model)) (bytes clientModel))
  else String.eqb clientModel entry.(model).

Definition supports (p : Protocol) (o : Operation) : bool :=
  match p with
  | OpenAICompletions | Anthropic | Gemini => bool_decide (o = OperationChatCompletion)
  | OpenAIResponses => bool_decide (o = OperationResponsesCreate)
  | OpenAIImages => bool_decide (o = OperationImagesGenerate)
  | Rerank => bool_decide (o = OperationRerank)
  | Decisions => bool_decide (o = OperationDecisionsCreate)
  | OpenAIEmbeddings | GeminiEmbeddings => bool_decide (o = OperationEmbeddingsCreate)
  | ProtocolOther _ => false
  end.

(** The root fields that matching rules set, as a set. *)
Definition ConfiguredFields (rules : Rules) (p : Protocol) (o : Operation) (clientModel : string) : gset string :=
  if negb (supports p o) then ∅
  else list_to_set (concat (map (fun r => map fst r.(set)) (List.filter (fun r => ruleMatches r p clientModel) rules))).

Definition continuationField (name : string) : bool := equal_fold (bytes name) (bytes "previous_response_id").

(** The check when a configuration is saved: no rule that may see a Responses request names
    the continuation. *)
Definition ValidateResponsesContinuation (rules : Rules) : bool :=
  forallb (fun r =>
    negb (bool_decide (r.(clientProtocol) = anyProtocol) || bool_decide (r.(clientProtocol) = OpenAIResponses)) ||
    (forallb (fun e => negb (continuationField e.1)) r.(set) &&
     forallb (fun path => negb (continuationField (default ""%string (head path)))) r.(remove))) rules.

End Overrides.
