(* ===== verification/ClientModels.v ===== *)
(** * Client model profiles

    [internal/catalog/client_model.go]: what the gateway tells a client about a model, and
    the overrides an administrator may give, with their validation.  Copies of values are
    the values themselves. *)

From Stdlib Require Import ZArith Lia Bool String Ascii List.
From stdpp Require Import base gmap sets list strings.
From coqutil Require Import Datatypes.RecordSettersUsingExistingGetters.
From S2P Require Import Prelude GoStrings Execution Contracts Headers Sse Forward Settings.

Local Open Scope Z_scope.
Local Open Scope go_scope.

Module ClientModels.
Import Contracts Settings.

Record ClientModelProfile := mkProfile {
  DisplayName : string;
  pf_Description : string;
  ContextWindow : option Z;
  AutoCompactTokenLimit : option Z;
  SupportedReasoningLevels : list string;
  DefaultReasoningLevel : string;
  InputModalities : list string;
  ServiceTiers : list string;
}.

Record ClientModelOverrides := mkOverrides {
  CatalogEnabled : option bool;
  CatalogOrder : option Z;
  o_DisplayName : option string;
  o_Description : option string;
  o_ContextWindow : option Z;
  o_AutoCompactTokenLimit : option Z;
  o_SupportedReasoningLevels : option (list string);
  o_DefaultReasoningLevel : option string;
  o_InputModalities : option (list string);
  o_ServiceTiers : option (list string);
}.

Definition reasoningLevels : list string :=
  ["none"; "minimal"; "low"; "medium"; "high"; "xhigh"; "max"; "ultra"; "persistent"]%string.

Definition has (values : list string) (v : string) : bool := existsb (String.eqb v) values.

(** Whether a given value fails a test. *)
Definition given {A} (o : option A) (bad : A -> bool) : bool := match o with Some v => bad v | None => false end.

Fixpoint profileChoices (allowed seen values : list string) : bool :=
  match values with
  | [] => true
  | v :: rest => has allowed v && negb (bool_decide (v ∈ seen)) && profileChoices allowed (v :: seen) rest
  end.

Definition validateProfileChoices (values allowed : list string) : bool := profileChoices allowed [] values.

Definition unsafeFrom (least n : Z) : bool := (n <? least) || (maxJSONSafeInteger <? n).

Definition longText (limit : Z) (s : string) : bool := negb (utf8_valid (bytes s)) || (limit <? Z.of_nat (length (bytes s))).

(** The name of the first field that is rejected. *)
Definition ValidateOverrides (o : ClientModelOverrides) : option string :=
  err_if (given o.(CatalogOrder) (unsafeFrom 0)) "catalog_order"%string ;;!
  err_if (given o.(o_DisplayName) (fun s => longText 512 s || emptyText (trimmedText s))) "display_name"%string ;;!
  err_if (given o.(o_Description) (longText 4096)) "description"%string ;;!
  err_if (given o.(o_ContextWindow) (unsafeFrom 1)) "context_window"%string ;;!
  err_if (given o.(o_AutoCompactTokenLimit) (unsafeFrom 1)) "auto_compact_token_limit"%string ;;!
  err_if (given o.(o_SupportedReasoningLevels) (fun l => isEmpty l || negb (validateProfileChoices l reasoningLevels)))
    "supported_reasoning_levels"%string ;;!
  err_if (given o.(o_DefaultReasoningLevel) (fun d =>
            negb (has reasoningLevels d) || given o.(o_SupportedReasoningLevels) (fun l => negb (has l d))))
    "default_reasoning_level"%string ;;!
  err_if (given o.(o_InputModalities) (fun l =>
            negb (validateProfileChoices l ["text"; "image"; "audio"]%string) || negb (has l "text"))) "input_modalities"%string ;;!
  err_if (given o.(o_ServiceTiers) (fun l => negb (validateProfileChoices l ["priority"; "ultrafast"]%string))) "service_tiers"%string.

Definition OverridesEmpty (o : ClientModelOverrides) : bool :=
  negb (present o.(CatalogEnabled) || present o.(CatalogOrder) || present o.(o_DisplayName) || present o.(o_Description) ||
        present o.(o_ContextWindow) || present o.(o_AutoCompactTokenLimit) || present o.(o_SupportedReasoningLevels) ||
        present o.(o_DefaultReasoningLevel) || present o.(o_InputModalities) || present o.(o_ServiceTiers)).

Definition resolveDefaultReasoningLevel (levels : list string) (preferred : string) : string :=
  if has levels preferred then preferred else if has levels "medium" then "medium"%string else default ""%string (head levels).

Definition orElse {A} (o : option A) (otherwise : option A) : option A := match o with Some v => Some v | None => otherwise end.

Definition ApplyProfile (profile : ClientModelProfile) (o : ClientModelOverrides) : ClientModelProfile :=
  let levels := default profile.(SupportedReasoningLevels) o.(o_SupportedReasoningLevels) in
  mkProfile (default profile.(DisplayName) o.(o_DisplayName)) (default profile.(pf_Description) o.(o_Description))
    (orElse o.(o_ContextWindow) profile.(ContextWindow)) (orElse o.(o_AutoCompactTokenLimit) profile.(AutoCompactTokenLimit))
    levels (resolveDefaultReasoningLevel levels (default profile.(DefaultReasoningLevel) o.(o_DefaultReasoningLevel)))
    (default profile.(InputModalities) o.(o_InputModalities)) (default profile.(ServiceTiers) o.(o_ServiceTiers)).

(** The overrides without the selection and order of the catalog. *)
Definition Metadata (o : ClientModelOverrides) : ClientModelOverrides := o <| CatalogEnabled := None |> <| CatalogOrder := None |>.

End ClientModels.
