(* ===== verification/Redact.v ===== *)
(** * Request redaction

    [internal/requestredact/redact.go]: the redaction rules, their validation, and the
    rewriting of one text, with replacement or authenticated encryption of what a rule
    matches.  Positions are byte offsets.  [regexp] (class [Regexps]), the token cipher
    ([TokenCipher]) and the length of the encoded rules are arguments. *)

From Stdlib Require Import ZArith Lia Bool String Ascii List Permutation Sorted.
From stdpp Require Import base gmap sets list strings sorting.
From coqutil Require Import Datatypes.RecordSettersUsingExistingGetters.
From S2P Require Import Prelude GoStrings Execution Contracts Headers Sse Forward Settings.

Local Open Scope go_scope.

Module Redact.
Import Execution Contracts Headers Sse Settings.

Record Rule := mkRule { Pattern : string; Replacement : string; rd_Mode : string }.

Record Issue := mkIssue { Index : Z; issue_Error : string; Warning : string }.

(** Compiled expressions, and the non-overlapping matches of one in a text. *)
Class Regexps := {
  Regexp : Type;
  compileRegexp : string -> result string Regexp;
  findAll : Regexp -> list ascii -> list (nat * nat);
}.

Definition ModeReplace : string := "replace".
Definition ModeEncrypt : string := "encrypt".
Definition maxTextBytes : Z := 134217728.
Definition maxDocumentPatches : Z := 65536.

Definition encrypts (r : Rule) : bool := String.eqb r.(rd_Mode) ModeEncrypt.

(** The texts on which a rule is tried for being too broad. *)
Definition samples : list string :=
  ["A normal message with several words."; "这是一段普通的请求内容。"; text (bytes "alpha 123" ++ [LF] ++ bytes "beta 456")]%string.

Definition spanLength (spans : list (nat * nat)) : nat := fold_right (fun s n => (s.2 - s.1 + n)%nat) 0%nat spans.

Section Rules.
Context `{Regexps} (rulesSize : list Rule -> option Z).

Definition broad (p : Regexp) : bool :=
  negb (isEmpty (findAll p [])) ||
  (2 <=? length (List.filter (fun s => (length (bytes s) * 8 <=? spanLength (findAll p (bytes s)) * 10)%nat) samples))%nat.

Definition ruleIssue (index : Z) (r : Rule) : Issue :=
  let failed what := mkIssue index what "" in
  if negb (emptyText r.(rd_Mode)) && negb (String.eqb r.(rd_Mode) ModeReplace) && negb (encrypts r) then failed "invalid_mode"%string
  else if emptyText r.(Pattern) then failed "empty_pattern"%string
  else if (4096 <? Z.of_nat (length (bytes r.(Pattern))))%Z || (4096 <? Z.of_nat (length (bytes r.(Replacement))))%Z ||
          negb (utf8_valid (bytes r.(Pattern))) || negb (utf8_valid (bytes r.(Replacement))) then failed "invalid_length"%string
  else match compileRegexp r.(Pattern) with
       | Err code => failed code
       | Ok p => mkIssue index "" (if broad p then "broad_pattern" else "")
       end.

Fixpoint ruleIssues (index : Z) (rules : list Rule) : list Issue :=
  match rules with
  | [] => []
  | r :: rest =>
    let issue := ruleIssue index r in
    (if negb (emptyText issue.(issue_Error)) || negb (emptyText issue.(Warning)) then [issue] else []) ++ ruleIssues (index + 1) rest
  end.

Definition ValidateRules (rules : list Rule) : list Issue :=
  if (64 <? Z.of_nat (length rules))%Z then [mkIssue (-1) "too_many_rules" ""]
  else match rulesSize rules with
       | None => [mkIssue (-1) "configuration_too_large" ""]
       | Some size => if (32768 <? size)%Z then [mkIssue (-1) "configuration_too_large" ""] else ruleIssues 0 rules
       end.

(** The rules with their expressions, in order. *)
Definition Compiled : Type := list (Rule * Regexp).

Fixpoint compilePatterns (rules : list Rule) : option Compiled :=
  match rules with
  | [] => Some []
  | r :: rest =>
    match compileRegexp r.(Pattern), compilePatterns rest with
    | Ok p, Some more => Some ((r, p) :: more)
    | _, _ => None
    end
  end.

Definition CompileRules (rules : list Rule) : option Compiled :=
  if existsb (fun i => negb (emptyText i.(issue_Error))) (ValidateRules rules) then None else compilePatterns rules.

Definition Reversible (c : Compiled) : bool := existsb (fun r => encrypts r.1) c.

End Rules.

(** ** Rewriting a text *)

(** The cipher of an access key: [EncryptToken]; where a token that starts at a position
    may end, if it is complete; and where an authentic one ends. *)
Record TokenCipher := mkCipher {
  EncryptToken : list ascii -> option (list ascii);
  TokenCandidateEnd : list ascii -> nat -> option nat;
  ValidTokenAt : list ascii -> nat -> option nat;
}.

Record tokenSpan := mkSpan { sp_start : nat; sp_end : nat }.

Definition tokenPrefix : list ascii := bytes "gld1_".

Definition slice (l : list ascii) (i j : nat) : list ascii := take (j - i) (drop i l).

(** The authentic tokens of a text, left to right.  [scan] advances in every round, so the
    length of the text bounds their number. *)
Fixpoint tokenLoop (fuel : nat) (value : list ascii) (cipher : TokenCipher) (scan : nat) (attempts remaining : Z) (protected : list tokenSpan)
    : option (list tokenSpan) :=
  match fuel with
  | O => Some protected
  | S fuel =>
    if (length value <=? scan)%nat then Some protected
    else
      match index_of tokenPrefix (drop scan value) with
      | None => Some protected
      | Some relative =>
        let start := (scan + relative)%nat in
        let attempts := (attempts + 1)%Z in
        if (maxDocumentPatches <? attempts)%Z then None
        else
          match cipher.(TokenCandidateEnd) value start with
          | None => tokenLoop fuel value cipher (start + 5) attempts remaining protected
          | Some candidateEnd =>
            let size := (Z.of_nat candidateEnd - Z.of_nat start)%Z in
            if (candidateEnd <=? start)%nat || (length value <? candidateEnd)%nat || (remaining <? size)%Z then None
            else
              let remaining := (remaining - size)%Z in
              match cipher.(ValidTokenAt) value start with
              | None => tokenLoop fuel value cipher (start + 5) attempts remaining protected
              | Some ends =>
                let protected := protected ++ [mkSpan start ends] in
                if (maxDocumentPatches <? Z.of_nat (length protected))%Z then None
                else tokenLoop fuel value cipher ends attempts remaining protected
              end
          end
      end
  end.

Definition authenticatedTokenSpans (value : list ascii) (cipher : TokenCipher) : option (list tokenSpan) :=
  tokenLoop (S (length value)) value cipher 0 0 (Z.of_nat (length value)) [].

(** [sort.Search] over spans with increasing ends finds the first that ends later. *)
Definition protectedMatch (spans : list tokenSpan) (start ends : nat) : bool * bool :=
  match find (fun s => (start <? s.(sp_end))%nat) spans with
  | None => (false, false)
  | Some s =>
    if (ends <=? s.(sp_start))%nat then (false, false)
    else if (s.(sp_start) <=? start)%nat && (ends <=? s.(sp_end))%nat then (true, false) else (false, true)
  end.

(** The length of a token: its prefix, the length of its body in decimal, a separator and
    the body, 16 bytes more than the plaintext, in unpadded base64. *)
Definition encryptedTokenLength (plaintextBytes : Z) : Z :=
  let n := (plaintextBytes + 16)%Z in
  let encoded := (n / 3 * 4 + (n mod 3 * 8 + 5) / 6)%Z in
  (5 + Z.of_nat (length (format_int encoded)) + 1 + encoded)%Z.

Record textMatch := mkMatch { m_start : nat; m_end : nat; m_rule : nat }.

Section Rewrite.
Context `{Regexps}.

(** The matches of every rule that are not empty; [total] counts the earlier ones. *)
Fixpoint collectMatches (value : list ascii) (ciphered : bool) (index : nat) (total : Z) (c : Compiled) : option (list textMatch) :=
  match c with
  | [] => Some []
  | (r, p) :: rest =>
    let matches := findAll p value in
    if (maxDocumentPatches <? Z.of_nat (length matches))%Z then None
    else
      let spans := map (fun s => mkMatch s.1 s.2 index) (List.filter (fun s => negb (s.1 =? s.2)%nat) matches) in
      if negb (isEmpty spans) && encrypts r && negb ciphered then None
      else
        let total := (total + Z.of_nat (length spans))%Z in
        if (maxDocumentPatches <? total)%Z then None
        else match collectMatches value ciphered (S index) total rest with Some more => Some (spans ++ more) | None => None end
  end.

(** The matches outside the protected tokens; one that crosses a border is an error. *)
Fixpoint outside (protected : list tokenSpan) (spans : list textMatch) : option (list textMatch) :=
  match spans with
  | [] => Some []
  | s :: rest =>
    let '(inside, crossing) := protectedMatch protected s.(m_start) s.(m_end) in
    if crossing then None
    else match outside protected rest with Some more => Some (if inside then more else s :: more) | None => None end
  end.

Definition matchBefore (a b : textMatch) : Prop :=
  (a.(m_start) < b.(m_start))%nat \/ (a.(m_start) = b.(m_start) /\ (a.(m_rule) <= b.(m_rule))%nat).
#[export] Instance matchBefore_dec : RelDecision matchBefore.
Proof. intros a b. unfold matchBefore. apply or_dec; [|apply and_dec]; apply _. Defined.

(** A match absorbs the later ones that start before it ends. *)
Fixpoint mergeFrom (span : textMatch) (rest : list textMatch) : list textMatch :=
  match rest with
  | [] => [span]
  | s :: rest =>
    if (s.(m_start) <? span.(m_end))%nat
    then mergeFrom (mkMatch span.(m_start) (Nat.max span.(m_end) s.(m_end)) (Nat.min span.(m_rule) s.(m_rule))) rest
    else span :: mergeFrom s rest
  end.

Definition mergeMatches (spans : list textMatch) : list textMatch :=
  match spans with [] => [] | s :: rest => mergeFrom s rest end.

Definition ruleOf (c : Compiled) (index : nat) : Rule :=
  match c !! index with Some (r, _) => r | None => mkRule "" "" "" end.

(** The bytes by which one replacement changes the length. *)
Definition growth (c : Compiled) (s : textMatch) : Z :=
  let size := (Z.of_nat s.(m_end) - Z.of_nat s.(m_start))%Z in
  ((if encrypts (ruleOf c s.(m_rule)) then encryptedTokenLength size else Z.of_nat (length (bytes (ruleOf c s.(m_rule)).(Replacement)))) - size)%Z.

Definition replacementOf (c : Compiled) (cipher : option TokenCipher) (plaintext : list ascii) (rule : nat) : option (list ascii) :=
  let r := ruleOf c rule in
  if encrypts r then match cipher with Some k => k.(EncryptToken) plaintext | None => None end else Some (bytes r.(Replacement)).

(** Writing the output; a nil cipher is only reached when no rule encrypts. *)
Fixpoint writeSpans (c : Compiled) (cipher : option TokenCipher) (value : list ascii) (pos : nat) (out : list ascii) (spans : list textMatch)
    : option (list ascii) :=
  match spans with
  | [] =>
    if (maxTextBytes <? Z.of_nat (length out) + Z.of_nat (length value) - Z.of_nat pos)%Z then None else Some (out ++ drop pos value)
  | s :: rest =>
    match replacementOf c cipher (slice value s.(m_start) s.(m_end)) s.(m_rule) with
    | None => None
    | Some r =>
      if (maxTextBytes <? Z.of_nat (length out) + Z.of_nat s.(m_start) - Z.of_nat pos + Z.of_nat (length r))%Z then None
      else writeSpans c cipher value s.(m_end) (out ++ slice value pos s.(m_start) ++ r) rest
    end
  end.

(** [rewriteText] of a text that is not JSON. *)
Definition rewriteText (c : Compiled) (value : list ascii) (cipher : option TokenCipher) (protected : list tokenSpan) : option (list ascii) :=
  match collectMatches value (present cipher) 0 0 c with
  | None => None
  | Some spans =>
    match outside protected spans with
    | None => None
    | Some [] => Some value
    | Some spans =>
      let merged := mergeMatches (merge_sort matchBefore spans) in
      let finalBytes := (Z.of_nat (length value) + fold_right (fun s n => growth c s + n) 0 merged)%Z in
      if (maxTextBytes <? finalBytes)%Z || (finalBytes <? 0)%Z then None else writeSpans c cipher value 0 [] merged
    end
  end.

Definition TextWithCipher (c : Compiled) (value : list ascii) (cipher : option TokenCipher) : option (list ascii) :=
  if isEmpty c then Some value
  else match cipher with
       | None => rewriteText c value None []
       | Some k => match authenticatedTokenSpans value k with None => None | Some protected => rewriteText c value cipher protected end
       end.

End Rewrite.

End Redact.
