(* ===== verification/RedactProps.v ===== *)
(** * Request redaction, theorems

    The scan for authentic tokens finds what trying every position finds, and the rewriting
    of a text replaces exactly the bytes that a rule matches outside these tokens, piece by
    piece, and copies every other byte. *)

From Stdlib Require Import ZArith Lia Bool String Ascii List Permutation Sorted.
From stdpp Require Import base gmap sets list strings sorting.
From coqutil Require Import Datatypes.RecordSettersUsingExistingGetters.
From S2P Require Import Prelude GoStrings Execution Contracts Headers Sse Forward Settings Redact.

Local Open Scope go_scope.

Module RedactProps.
Import Execution Contracts Headers Settings Redact.

(** Matches lie in the text, in order. *)
Class RegexpLaws `{Regexps} : Prop := {
  match_bounds : forall p l s, In s (findAll p l) -> (s.1 <= s.2 <= length l)%nat;
}.

(** A part of the text: copied, or replaced under a rule. *)
Inductive piece := Kept (bytes : list ascii) | Redacted (rule : nat) (plaintext replacement : list ascii).

Definition original (p : piece) : list ascii := match p with Kept b => b | Redacted _ b _ => b end.
Definition rewritten (p : piece) : list ascii := match p with Kept b => b | Redacted _ _ r => r end.

(** Whether the byte at an offset of the original text is in a replaced part. *)
Fixpoint redactedAt (pieces : list piece) (i : nat) : bool :=
  match pieces with
  | [] => false
  | p :: rest =>
    if (i <? length (original p))%nat then match p with Redacted _ _ _ => true | Kept _ => false end
    else redactedAt rest (i - length (original p))
  end.

(** How many parts are replaced. *)
Fixpoint redactedCount (pieces : list piece) : nat :=
  match pieces with [] => 0%nat | Redacted _ _ _ :: rest => S (redactedCount rest) | Kept _ :: rest => redactedCount rest end.

(** ** Searching *)

Lemma has_prefix_true p : forall l, has_prefix p l = true -> l = p ++ drop (length p) l.
Proof.
  induction p as [|c p IH]; intros [|d l] H; cbn in *; try easy. apply andb_true_iff in H as [E H].
  apply Ascii.eqb_eq in E as ->. now rewrite <- IH.
Qed.

(** No occurrence of the prefix starts before the first one. *)
Lemma index_of_none needle l : index_of needle l = None -> forall i, has_prefix needle (drop i l) = false.
Proof.
  induction l as [|c l IH]; cbn [index_of]; intros H i.
  - destruct (has_prefix needle []) eqn:E; [discriminate|]. now rewrite drop_nil.
  - destruct (has_prefix needle (c :: l)) eqn:E; [discriminate|]. destruct (index_of needle l); [discriminate|].
    destruct i; [exact E|]. now apply IH.
Qed.

Lemma index_of_some needle l : forall n, index_of needle l = Some n ->
  (n <= length l)%nat /\ has_prefix needle (drop n l) = true /\ forall i, (i < n)%nat -> has_prefix needle (drop i l) = false.
Proof.
  induction l as [|c l IH]; cbn [index_of]; intros n H.
  - destruct (has_prefix needle []) eqn:E; [|discriminate]. injection H as <-. split; [cbn; lia|]. split; [exact E|lia].
  - destruct (has_prefix needle (c :: l)) eqn:E; [injection H as <-; split; [lia|]; split; [exact E|lia]|].
    destruct (index_of needle l) as [m|] eqn:Em; [|discriminate]. injection H as <-. destruct (IH m eq_refl) as (H1 & H2 & H3).
    split; [cbn; lia|]. split; [exact H2|]. intros [|i] Hi; [exact E|]. apply H3. lia.
Qed.

Section Facts.
Context `{RegexpLaws}.

Definition covers (s : textMatch) (i : nat) : Prop := (s.(m_start) <= i < s.(m_end))%nat.
Definition covered (l : list textMatch) (i : nat) : Prop := exists s, In s l /\ covers s i.

(** A match of a rule of [c], counted from [index]. *)
Definition matchOf (c : Compiled) (index : nat) (value : list ascii) (s : textMatch) : Prop :=
  exists j r p, c !! j = Some (r, p) /\ s.(m_rule) = (index + j)%nat /\ In (s.(m_start), s.(m_end)) (findAll p value) /\
    s.(m_start) <> s.(m_end).

Lemma matchOf_bounds c index value s : matchOf c index value s -> (s.(m_start) < s.(m_end) <= length value)%nat.
Proof. intros (j & r & p & _ & _ & Hin & Hne). apply match_bounds in Hin. cbn in Hin. lia. Qed.

Lemma collected c value ciphered : forall index total spans, collectMatches value ciphered index total c = Some spans ->
  forall s, In s spans <-> matchOf c index value s.
Proof.
  induction c as [|[r p] c IH]; cbn [collectMatches]; intros index total spans Hc s.
  { injection Hc as <-. split; [easy|]. now intros (j & ? & ? & Hj & _). }
  destruct (_ <? _)%Z; [discriminate|]. destruct (_ && _); [discriminate|]. destruct (_ <? _)%Z; [discriminate|].
  destruct (collectMatches _ _ _ _ c) as [more|] eqn:Em; [|discriminate]. injection Hc as <-.
  rewrite in_app_iff, (IH _ _ _ Em), in_map_iff. unfold matchOf. split.
  - intros [([a b] & <- & [Hin Hne]%filter_In)|(j & r' & p' & Hj & Hr & Hrest)].
    + exists 0%nat, r, p. apply negb_true_iff, Nat.eqb_neq in Hne. split; [reflexivity|]. split; [cbn [m_rule]; lia|]. auto.
    + exists (S j), r', p'. split; [exact Hj|]. split; [lia|exact Hrest].
  - intros ([|j] & r' & p' & Hj & Hr & Hin & Hne).
    + cbn in Hj. injection Hj as -> ->. left. exists (s.(m_start), s.(m_end)). split; [destruct s; cbn in *; f_equal; lia|].
      apply filter_In. split; [exact Hin|]. now apply negb_true_iff, Nat.eqb_neq.
    + right. exists j, r', p'. split; [exact Hj|]. split; [lia|auto].
Qed.

(** Whether a match lies inside a protected token. *)
Definition protectedIn (protected : list tokenSpan) (s : textMatch) : bool := (protectedMatch protected s.(m_start) s.(m_end)).1.

Lemma outside_exact protected spans : forall out, outside protected spans = Some out ->
  out = List.filter (fun s => negb (protectedIn protected s)) spans.
Proof.
  unfold protectedIn. induction spans as [|s spans IH]; cbn [outside List.filter]; intros out Ho; [now injection Ho as <-|].
  destruct (protectedMatch _ _ _) as [inside crossing] eqn:Ep. cbn [fst]. destruct crossing; [discriminate|].
  destruct (outside protected spans) as [more|] eqn:Em; [|discriminate]. injection Ho as <-. rewrite (IH _ eq_refl).
  now destruct inside.
Qed.

(** ** Merging *)

(** Spans that follow each other from an offset on. *)
Fixpoint separated (pos : nat) (l : list textMatch) : Prop :=
  match l with [] => True | s :: rest => (pos <= s.(m_start) < s.(m_end))%nat /\ separated s.(m_end) rest end.

Lemma separated_weaken pos pos' l : (pos' <= pos)%nat -> separated pos l -> separated pos' l.
Proof. destruct l; cbn; [auto|]. intros Hp [H1 H2]. split; [lia|exact H2]. Qed.

Lemma mergeFrom_exact rest : forall span, (span.(m_start) < span.(m_end))%nat ->
  StronglySorted (fun a b => (a.(m_start) <= b.(m_start))%nat) (span :: rest) -> Forall (fun s => (s.(m_start) < s.(m_end))%nat) rest ->
  separated span.(m_start) (mergeFrom span rest) /\ (forall i, covered (mergeFrom span rest) i <-> covered (span :: rest) i).
Proof.
  induction rest as [|s rest IH]; intros span Hspan Hsorted Hall; cbn [mergeFrom].
  { split; [cbn; lia|reflexivity]. }
  inversion Hsorted as [|? ? Hs1 Hs2]; subst. inversion Hs1 as [|? ? Hs3 Hs4]; subst. inversion Hs2 as [|? ? Hs5 Hs6]; subst.
  inversion Hall as [|? ? Hse Hall']; subst. destruct (Nat.ltb_spec s.(m_start) span.(m_end)) as [El|El].
  - destruct (IH (mkMatch span.(m_start) (Nat.max span.(m_end) s.(m_end)) (Nat.min span.(m_rule) s.(m_rule)))) as [H1' H2'].
    + cbn [m_start m_end]. lia.
    + constructor; [exact Hs3|exact Hs6].
    + exact Hall'.
    + split; [exact H1'|]. intros i. rewrite H2'. unfold covered, covers. split.
      * intros (x & [<-|Hin] & Hx); [|exists x; cbn; auto]. cbn [m_start m_end] in Hx.
        destruct (decide (i < span.(m_end))%nat); [exists span|exists s]; (split; [cbn; auto|lia]).
      * intros (x & [<-|[<-|Hin]] & Hx); [eexists; split; [now left|cbn [m_start m_end]; lia]..|exists x; cbn; auto].
  - destruct (IH s Hse Hs1 Hall') as [H1' H2']. split.
    + cbn [separated]. split; [lia|]. apply (separated_weaken s.(m_start)); [lia|exact H1'].
    + intros i. split.
      * intros (x & [<-|Hin] & Hx); [exists span; cbn; auto|].
        destruct (proj1 (H2' i)) as (y & Hy & Hc); [exists x; auto|]. exists y. cbn in *. tauto.
      * intros (x & [<-|Hin] & Hx); [exists span; cbn; auto|].
        destruct (proj2 (H2' i)) as (y & Hy & Hc); [exists x; auto|]. exists y. cbn. auto.
Qed.

#[local] Instance matchBefore_total : Total matchBefore.
Proof. intros a b. unfold matchBefore. lia. Qed.
#[local] Instance matchBefore_trans : Transitive matchBefore.
Proof. intros a b c. unfold matchBefore. lia. Qed.

Lemma merged_exact spans : Forall (fun s => (s.(m_start) < s.(m_end))%nat) spans ->
  separated 0 (mergeMatches (merge_sort matchBefore spans)) /\
  (forall i, covered (mergeMatches (merge_sort matchBefore spans)) i <-> covered spans i).
Proof.
  intros Hall. pose proof (merge_sort_Permutation matchBefore spans) as Hp.
  pose proof (StronglySorted_merge_sort matchBefore spans) as Hs.
  assert (Hcov : forall i, covered (merge_sort matchBefore spans) i <-> covered spans i).
  { intros i. unfold covered. split; intros (s & Hin & Hc); exists s; (split; [|exact Hc]);
      apply list_elem_of_In; apply list_elem_of_In in Hin; [now rewrite <- Hp|now rewrite Hp]. }
  assert (Hall' : Forall (fun s => (s.(m_start) < s.(m_end))%nat) (merge_sort matchBefore spans)) by now rewrite Hp.
  destruct (merge_sort matchBefore spans) as [|s rest] eqn:E; [split; [exact I|exact Hcov]|]. cbn [mergeMatches].
  inversion Hall' as [|? ? Hs1 Hs2]; subst.
  destruct (mergeFrom_exact rest s Hs1) as [H1' H2']; [|exact Hs2|].
  - eapply (StronglySorted_ind (fun l => StronglySorted (fun a b => (a.(m_start) <= b.(m_start))%nat) l)); [constructor| |exact Hs].
    intros a l _ IHl Hf. constructor; [exact IHl|]. eapply Forall_impl; [exact Hf|]. intros b Hb. unfold matchBefore in Hb. lia.
  - split; [apply (separated_weaken s.(m_start)); [lia|exact H1']|]. intros i. now rewrite H2'.
Qed.

(** ** Writing *)

Lemma slice_app (l : list ascii) i j k : (i <= j <= k)%nat -> slice l i j ++ slice l j k = slice l i k.
Proof.
  intros Hb. unfold slice. replace (k - i)%nat with ((j - i) + (k - j))%nat by lia.
  rewrite <- (take_take_drop (drop i l) (j - i) (k - j)), drop_drop. do 2 f_equal. f_equal. lia.
Qed.

Lemma slice_length (l : list ascii) i j : (i <= j <= length l)%nat -> length (slice l i j) = (j - i)%nat.
Proof. intros Hb. unfold slice. rewrite length_take, length_drop. lia. Qed.

(** The parts of [value] from [pos] on, for separated spans. *)
Record writes (c : Compiled) (cipher : option TokenCipher) (value : list ascii) (pos : nat) (spans : list textMatch) (pieces : list piece) (tail : list ascii)
    : Prop := {
  writes_original : concat (map original pieces) = drop pos value;
  writes_rewritten : concat (map rewritten pieces) = tail;
  writes_rules : forall rule b r, In (Redacted rule b r) pieces -> replacementOf c cipher b rule = Some r;
  writes_from : forall rule b r, In (Redacted rule b r) pieces -> exists s, In s spans /\ s.(m_rule) = rule;
  writes_count : redactedCount pieces = length spans;
  writes_at : forall i, (pos <= i < length value)%nat -> redactedAt pieces (i - pos) = true <-> covered spans i;
}.

Lemma writeSpans_exact c cipher value spans : forall pos out result, writeSpans c cipher value pos out spans = Some result ->
  separated pos spans -> Forall (fun s => (s.(m_end) <= length value)%nat) spans ->
  exists pieces tail, result = out ++ tail /\ writes c cipher value pos spans pieces tail.
Proof.
  induction spans as [|s spans IH]; cbn [writeSpans]; intros pos out result Hw Hsep Hall.
  - destruct (_ <? _)%Z; [discriminate|]. injection Hw as <-. exists [Kept (drop pos value)], (drop pos value). split; [reflexivity|]. split.
    + cbn. apply app_nil_r.
    + cbn. apply app_nil_r.
    + intros rule b r [Hx|[]]. discriminate.
    + intros rule b r [Hx|[]]. discriminate.
    + reflexivity.
    + intros i Hi. cbn [redactedAt original]. destruct (Nat.ltb _ _); (split; [discriminate|now intros (x & [] & _)]).
  - destruct (replacementOf _ _ _ _) as [r|] eqn:Er; [|discriminate]. destruct (_ <? _)%Z; [discriminate|].
    destruct Hsep as [Hs Hsep]. inversion Hall as [|? ? Hse Hall']; subst.
    destruct (IH _ _ _ Hw Hsep Hall') as (pieces & tail & -> & [W1 W2 W3 W6 W5 W4]).
    exists (Kept (slice value pos s.(m_start)) :: Redacted s.(m_rule) (slice value s.(m_start) s.(m_end)) r :: pieces).
    exists (slice value pos s.(m_start) ++ r ++ tail). split; [now rewrite <- !app_assoc|].
    assert (L1 : length (slice value pos s.(m_start)) = (s.(m_start) - pos)%nat) by (apply slice_length; lia).
    assert (L2 : length (slice value s.(m_start) s.(m_end)) = (s.(m_end) - s.(m_start))%nat) by (apply slice_length; lia).
    split.
    + cbn [map concat original]. rewrite W1, app_assoc, slice_app by lia. unfold slice.
      rewrite <- (take_drop (m_end s - pos) (drop pos value)) at 2. rewrite drop_drop. do 2 f_equal. lia.
    + cbn [map concat rewritten]. now rewrite W2.
    + intros rule b r' [Hx|[Hx|Hin]]; [discriminate|injection Hx as <- <- <-; exact Er|now apply W3].
    + intros rule b r' [Hx|[Hx|Hin]]; [discriminate|injection Hx as <- _ _; exists s; cbn; auto|].
      destruct (W6 _ _ _ Hin) as (x & Hx & Hr). exists x. cbn. auto.
    + cbn [redactedCount length]. now rewrite W5.
    + intros i Hi. cbn [redactedAt original]. rewrite L1, L2. destruct (Nat.ltb_spec (i - pos) (s.(m_start) - pos)) as [E1|E1].
      { split; [discriminate|]. intros (x & Hin & Hx). exfalso. unfold covers in Hx. destruct Hin as [<-|Hin]; [lia|].
        assert (Hlow : forall l p, separated p l -> forall y, In y l -> (p <= y.(m_start))%nat).
        { induction l as [|y l IHl]; cbn; [easy|]. intros p [Hp Hl] z [<-|Hz]; [lia|]. specialize (IHl _ Hl z Hz). lia. }
        specialize (Hlow _ _ Hsep _ Hin). lia. }
      destruct (Nat.ltb_spec (i - pos - (s.(m_start) - pos)) (s.(m_end) - s.(m_start))) as [E2|E2].
      { split; [|reflexivity]. intros _. exists s. split; [now left|]. unfold covers. lia. }
      replace (i - pos - (m_start s - pos) - (m_end s - m_start s))%nat with (i - m_end s)%nat by lia.
      rewrite W4 by lia. split; intros (x & Hin & Hx); [exists x; cbn; auto|].
      destruct Hin as [<-|Hin]; [unfold covers in Hx; lia|exists x; auto].
Qed.

(** ** Tokens *)

(** An authentic token ends after it starts, within the text. *)
Definition cipherLaw (k : TokenCipher) : Prop :=
  forall value start ends, k.(ValidTokenAt) value start = Some ends -> (start < ends <= length value)%nat.

Fixpoint tokensFrom (pos : nat) (l : list tokenSpan) : Prop :=
  match l with [] => True | s :: rest => (pos <= s.(sp_start) < s.(sp_end))%nat /\ tokensFrom s.(sp_end) rest end.

(** The rounds of the scan: more of them change nothing. *)
Lemma tokenLoop_fuel k value : cipherLaw k -> forall fuel fuel' scan attempts remaining protected,
  (length value - scan < fuel)%nat -> (length value - scan < fuel')%nat ->
  tokenLoop fuel value k scan attempts remaining protected = tokenLoop fuel' value k scan attempts remaining protected.
Proof.
  intros Hk. induction fuel as [|fuel IH]; intros [|fuel'] scan attempts remaining protected H1' H2'; [lia..|]. cbn [tokenLoop].
  destruct (Nat.leb_spec (length value) scan); [reflexivity|]. destruct (index_of _ _) as [relative|]; [|reflexivity].
  destruct (Z.ltb _ _); [reflexivity|]. destruct (TokenCandidateEnd _ _ _) as [candidate|]; [|apply IH; lia].
  destruct (_ || _ || _); [reflexivity|]. destruct (ValidTokenAt k value (scan + relative)) as [ends|] eqn:Ev; [|apply IH; lia].
  destruct (Z.ltb _ _); [reflexivity|]. pose proof (Hk _ _ _ Ev). apply IH; lia.
Qed.

(** Where a token starts: the prefix stands there, the token is complete, and it is
    authentic under the key. *)
Definition authenticAt (k : TokenCipher) (value : list ascii) (start : nat) : option nat :=
  if has_prefix tokenPrefix (drop start value)
  then match k.(TokenCandidateEnd) value start with Some _ => k.(ValidTokenAt) value start | None => None end
  else None.

(** The authentic tokens of a text: every position is tried, and one inside the token
    before it ([pos < next]) is passed over.  [n] positions are left. *)
Fixpoint authenticFrom (k : TokenCipher) (value : list ascii) (n pos next : nat) : list tokenSpan :=
  match n with
  | O => []
  | S n =>
    if (pos <? next)%nat then authenticFrom k value n (S pos) next
    else match authenticAt k value pos with
         | Some ends => mkSpan pos ends :: authenticFrom k value n (S pos) ends
         | None => authenticFrom k value n (S pos) next
         end
  end.

Definition tokensIn (cipher : option TokenCipher) (value : list ascii) : list tokenSpan :=
  match cipher with Some k => authenticFrom k value (length value) 0 0 | None => [] end.

Section Authentic.
Context (k : TokenCipher) (value : list ascii) (Hk : cipherLaw k).

Lemma authenticAt_bounds start ends : authenticAt k value start = Some ends -> (start < ends <= length value)%nat.
Proof. unfold authenticAt. destruct (has_prefix _ _), (TokenCandidateEnd k value start); try discriminate. apply Hk. Qed.

Lemma authentic_skip d : forall n pos next,
  (forall i, (pos <= i < pos + d)%nat -> (i < next)%nat \/ authenticAt k value i = None) ->
  authenticFrom k value (d + n) pos next = authenticFrom k value n (pos + d) next.
Proof.
  induction d as [|d IH]; intros n pos next Hno; [now rewrite Nat.add_0_r|]. cbn [Nat.add authenticFrom].
  rewrite <- Nat.add_succ_comm.
  destruct (Nat.ltb_spec pos next) as [Hl|Hl]; [|destruct (Hno pos) as [Hx|Hx]; [lia|lia|rewrite Hx]];
    apply IH; intros i Hi; apply Hno; lia.
Qed.

Lemma authentic_next n : forall pos next next', (next <= pos)%nat -> (next' <= pos)%nat ->
  authenticFrom k value n pos next = authenticFrom k value n pos next'.
Proof.
  induction n as [|n IH]; intros pos next next' H1' H2'; [reflexivity|]. cbn [authenticFrom].
  rewrite (proj2 (Nat.ltb_ge pos next)), (proj2 (Nat.ltb_ge pos next')) by lia.
  destruct (authenticAt k value pos); [reflexivity|]. apply IH; lia.
Qed.

(** The tokens stand in order, each of them authentic, and a token that is not among
    them starts inside one that is. *)
Lemma authentic_spec n : forall pos next, (pos + n = length value)%nat ->
  tokensFrom (Nat.max pos next) (authenticFrom k value n pos next) /\
  (forall t, In t (authenticFrom k value n pos next) -> authenticAt k value t.(sp_start) = Some t.(sp_end)) /\
  (forall start ends, authenticAt k value start = Some ends -> (Nat.max pos next <= start)%nat ->
     In (mkSpan start ends) (authenticFrom k value n pos next) \/
     exists t, In t (authenticFrom k value n pos next) /\ (t.(sp_start) < start < t.(sp_end))%nat).
Proof.
  induction n as [|n IH]; intros pos next Hn; cbn [authenticFrom].
  { split; [exact I|]. split; [easy|]. intros start ends Ha Hs. apply authenticAt_bounds in Ha. lia. }
  destruct (Nat.ltb_spec pos next) as [Hl|Hl].
  { replace (Nat.max pos next) with (Nat.max (S pos) next) by lia. apply IH. lia. }
  destruct (authenticAt k value pos) as [e|] eqn:Ea.
  - pose proof (authenticAt_bounds _ _ Ea) as Hb. destruct (IH (S pos) e ltac:(lia)) as (I1 & I2 & I3).
    replace (Nat.max (S pos) e) with e in * by lia. cbn [tokensFrom sp_start sp_end]. split; [split; [lia|exact I1]|].
    split; [intros t [<-|Ht]; [exact Ea|now apply I2]|]. intros start ends Hs Hge.
    destruct (Nat.eq_dec start pos) as [->|Hne]; [left; left; congruence|].
    destruct (Nat.lt_ge_cases start e) as [Hin|Hout]; [right; exists (mkSpan pos e); cbn; split; [now left|lia]|].
    destruct (I3 start ends Hs Hout) as [Hx|(t & Ht & Hx)]; [left; now right|right; exists t; split; [now right|exact Hx]].
  - destruct (IH (S pos) next ltac:(lia)) as (I1 & I2 & I3). split; [|split; [exact I2|]].
    + destruct (authenticFrom k value n (S pos) next) as [|t l]; [exact I|]. destruct I1 as [I1 I1']. split; [lia|exact I1'].
    + intros start ends Hs Hge. apply I3; [exact Hs|]. destruct (Nat.eq_dec start pos) as [->|Hne]; [congruence|lia].
Qed.

(** The prefix does not overlap itself. *)
Lemma prefix_alone start d : has_prefix tokenPrefix (drop start value) = true -> (0 < d < 5)%nat ->
  has_prefix tokenPrefix (drop (start + d) value) = false.
Proof.
  intros Hp Hd. apply has_prefix_true in Hp. rewrite <- drop_drop, Hp.
  destruct d as [|[|[|[|[|d]]]]]; try lia; reflexivity.
Qed.

(** The scan of the code, which jumps from prefix to prefix, finds exactly these. *)
Lemma tokenLoop_authentic : forall fuel scan attempts remaining protected spans, (length value - scan < fuel)%nat ->
  tokenLoop fuel value k scan attempts remaining protected = Some spans ->
  spans = protected ++ authenticFrom k value (length value - scan) scan scan.
Proof.
  assert (Hjump : forall scan to, (scan <= to <= length value)%nat ->
    (forall i, (scan <= i < to)%nat -> authenticAt k value i = None) ->
    authenticFrom k value (length value - scan) scan scan = authenticFrom k value (length value - to) to to).
  { intros scan to Hto Hno. replace (length value - scan)%nat with ((to - scan) + (length value - to))%nat by lia.
    rewrite authentic_skip by (intros i Hi; right; apply Hno; lia). replace (scan + (to - scan))%nat with to by lia.
    apply authentic_next; lia. }
  induction fuel as [|fuel IH]; intros scan attempts remaining protected spans Hf; [lia|]. cbn [tokenLoop].
  destruct (Nat.leb_spec (length value) scan) as [Hend|Hin].
  { intros [= <-]. replace (length value - scan)%nat with 0%nat by lia. now rewrite app_nil_r. }
  destruct (index_of tokenPrefix (drop scan value)) as [r|] eqn:Ei.
  2:{ intros [= <-]. rewrite (Hjump scan (length value)); [|lia|].
      - rewrite Nat.sub_diag. now rewrite app_nil_r.
      - intros i Hi. pose proof (index_of_none _ _ Ei (i - scan)) as Hn. rewrite drop_drop in Hn.
        unfold authenticAt. now replace (scan + (i - scan))%nat with i in Hn by lia; rewrite Hn. }
  apply index_of_some in Ei as (_ & Hpre & Hno). rewrite drop_drop in Hpre. set (start := (scan + r)%nat) in *.
  assert (Hlen : (start + 5 <= length value)%nat).
  { apply has_prefix_true in Hpre. apply (f_equal length) in Hpre. rewrite length_app, !length_drop in Hpre. cbn in Hpre. lia. }
  assert (Hto : forall to, (start <= to <= length value)%nat -> (forall i, (start <= i < to)%nat -> authenticAt k value i = None) ->
    authenticFrom k value (length value - scan) scan scan = authenticFrom k value (length value - to) to to).
  { intros to Hb Hnone. apply Hjump; [lia|]. intros i Hi. destruct (Nat.lt_ge_cases i start) as [Hlt|Hge]; [|apply Hnone; lia].
    specialize (Hno (i - scan)%nat ltac:(lia)). rewrite drop_drop in Hno. unfold authenticAt.
    now replace (scan + (i - scan))%nat with i in Hno by lia; rewrite Hno. }
  assert (Hmiss : authenticAt k value start = None ->
    authenticFrom k value (length value - scan) scan scan = authenticFrom k value (length value - (start + 5)) (start + 5) (start + 5)).
  { intros Hn. apply Hto; [lia|]. intros i Hi. destruct (Nat.eq_dec i start) as [->|Hne]; [exact Hn|].
    pose proof (prefix_alone start (i - start) Hpre ltac:(lia)) as Hx. unfold authenticAt.
    now replace (start + (i - start))%nat with i in Hx by lia; rewrite Hx. }
  destruct (Z.ltb _ _); [discriminate|]. unfold authenticAt at 1 in Hmiss. rewrite Hpre in Hmiss.
  destruct (TokenCandidateEnd k value start) as [ce|] eqn:Ece; [|rewrite Hmiss by reflexivity; apply IH; lia].
  destruct (_ || _ || _); [discriminate|].
  destruct (ValidTokenAt k value start) as [ends|] eqn:Ev; [|rewrite Hmiss by reflexivity; apply IH; lia].
  destruct (Z.ltb _ _); [discriminate|]. pose proof (Hk _ _ _ Ev) as Hb. intros Hl. apply IH in Hl; [|lia]. rewrite Hl.
  rewrite <- app_assoc. f_equal. rewrite (Hto start) by (lia || (intros; lia)).
  replace (length value - start)%nat with (S ((ends - S start) + (length value - ends)))%nat by lia. cbn [authenticFrom app].
  rewrite Nat.ltb_irrefl. unfold authenticAt. rewrite Hpre, Ece, Ev. f_equal.
  rewrite authentic_skip by (intros i Hi; left; lia). f_equal; lia.
Qed.

Lemma authenticated_exact spans : authenticatedTokenSpans value k = Some spans -> spans = tokensIn (Some k) value.
Proof. intros Hs. apply tokenLoop_authentic in Hs; [|lia]. now rewrite Nat.sub_0_r in Hs. Qed.

End Authentic.

Lemma tokensFrom_after pos l t : tokensFrom pos l -> In t l -> (pos <= t.(sp_start))%nat /\ (t.(sp_start) < t.(sp_end))%nat.
Proof.
  revert pos. induction l as [|u l IH]; cbn [tokensFrom]; intros pos Hl Hin; [easy|]. destruct Hl as [Hu Hl].
  destruct Hin as [<-|Hin]; [lia|]. destruct (IH _ Hl Hin). lia.
Qed.

(** A match beside the protected tokens shares no byte with any of them. *)
Lemma protected_disjoint protected pos a b t : tokensFrom pos protected -> protectedMatch protected a b = (false, false) -> In t protected ->
  (t.(sp_end) <= a)%nat \/ (b <= t.(sp_start))%nat.
Proof.
  revert pos. induction protected as [|u l IH]; cbn [tokensFrom]; intros pos Hl Hm Hin; [easy|]. destruct Hl as [Hu Hl].
  unfold protectedMatch in *. cbn [find] in Hm. destruct (Nat.ltb_spec a u.(sp_end)) as [Ea|Ea].
  - destruct (Nat.leb_spec b u.(sp_start)) as [Eb|Eb]; [|destruct (_ && _); discriminate]. right.
    destruct Hin as [<-|Hin]; [exact Eb|]. destruct (tokensFrom_after _ _ _ Hl Hin). lia.
  - destruct Hin as [<-|Hin]; [now left|]. now apply (IH _ Hl Hm).
Qed.

(** A match inside a token. *)
Definition insideOf (tokens : list tokenSpan) (s : textMatch) : Prop :=
  exists t, In t tokens /\ (t.(sp_start) <= s.(m_start) /\ s.(m_end) <= t.(sp_end))%nat.

(** The search for the first token that ends later decides it. *)
Lemma protectedIn_iff protected pos s : tokensFrom pos protected -> (s.(m_start) < s.(m_end))%nat ->
  protectedIn protected s = true <-> insideOf protected s.
Proof.
  intros Hl Hs. unfold protectedIn, insideOf. revert pos Hl.
  induction protected as [|u l IH]; cbn [tokensFrom]; intros pos Hl; [split; [discriminate|now intros (t & [] & _)]|].
  destruct Hl as [Hu Hl]. unfold protectedMatch in *. cbn [find].
  destruct (Nat.ltb_spec (m_start s) (sp_end u)) as [Ea|Ea].
  - assert (Hlater : forall t, In t l -> ~ (sp_start t <= m_start s)%nat).
    { intros t Ht. destruct (tokensFrom_after _ _ _ Hl Ht). lia. }
    assert (Hiff : (exists t, In t (u :: l) /\ (sp_start t <= m_start s /\ m_end s <= sp_end t)%nat) <->
      (sp_start u <= m_start s /\ m_end s <= sp_end u)%nat).
    { split; [|intros Hx; exists u; split; [now left|exact Hx]]. intros (t & [<-|Ht] & Hx); [exact Hx|].
      destruct (Hlater t Ht). lia. }
    rewrite Hiff. destruct (Nat.leb_spec (m_end s) (sp_start u)); [cbn; split; [discriminate|lia]|].
    destruct (Nat.leb_spec (sp_start u) (m_start s)), (Nat.leb_spec (m_end s) (sp_end u)); cbn; split; (discriminate || lia || auto).
  - rewrite (IH _ Hl). split; intros (t & Ht & Hx); [exists t; split; [now right|exact Hx]|].
    destruct Ht as [<-|Ht]; [lia|]. exists t. auto.
Qed.

Lemma outside_plain protected spans out : outside protected spans = Some out -> forall s, In s out ->
  protectedMatch protected s.(m_start) s.(m_end) = (false, false).
Proof.
  revert out. induction spans as [|s spans IH]; cbn [outside]; intros out Ho x Hx; [injection Ho as <-; easy|].
  destruct (protectedMatch _ (m_start s) _) as [inside crossing] eqn:Ep. destruct crossing; [discriminate|].
  destruct (outside protected spans) as [more|] eqn:Em; [|discriminate]. injection Ho as <-.
  destruct inside; [now apply (IH more)|]. destruct Hx as [<-|Hx]; [exact Ep|now apply (IH more)].
Qed.

Lemma kept_all value : forall i, redactedAt [Kept value] i = false.
Proof. intros i. cbn [redactedAt original]. now destruct (Nat.ltb _ _). Qed.

(** There are at most [maxDocumentPatches] matches, and no more after merging. *)
Lemma collected_count c value ciphered : forall index total spans, collectMatches value ciphered index total c = Some spans ->
  c = [] \/ (total + Z.of_nat (length spans) <= maxDocumentPatches)%Z.
Proof.
  induction c as [|[r p] c IH]; cbn [collectMatches]; intros index total spans Hc; [now left|right].
  destruct (_ <? _)%Z; [discriminate|]. destruct (_ && _); [discriminate|].
  destruct (Z.ltb_spec maxDocumentPatches (total + Z.of_nat (length (map (fun s => mkMatch s.1 s.2 index) (List.filter (fun s => negb (s.1 =? s.2)%nat) (findAll p value)))))%Z) as [|Hle];
    [discriminate|].
  destruct (collectMatches _ _ _ _ c) as [more|] eqn:Em; [|discriminate]. injection Hc as <-. rewrite length_app.
  destruct (IH _ _ _ Em) as [->|Hm]; [|lia]. injection Em as <-. cbn [length]. lia.
Qed.

Lemma mergeFrom_length rest : forall span, (length (mergeFrom span rest) <= S (length rest))%nat.
Proof.
  induction rest as [|s rest IH]; intros span; cbn [mergeFrom length]; [lia|]. destruct (Nat.ltb _ _); [|cbn [length]; specialize (IH s); lia].
  etransitivity; [apply IH|lia].
Qed.

Lemma merged_length spans : (length (mergeMatches (merge_sort matchBefore spans)) <= length spans)%nat.
Proof.
  rewrite <- (Permutation_length (merge_sort_Permutation matchBefore spans)). destruct (merge_sort matchBefore spans) as [|s rest]; [cbn; lia|].
  apply mergeFrom_length.
Qed.

(** A merged match carries the rule of one of the matches. *)
Lemma mergeFrom_rules rest : forall span x, In x (mergeFrom span rest) -> exists y, In y (span :: rest) /\ y.(m_rule) = x.(m_rule).
Proof.
  induction rest as [|s rest IH]; intros span x Hx; cbn [mergeFrom] in Hx; [exists span; destruct Hx as [<-|[]]; cbn; auto|].
  destruct (Nat.ltb _ _).
  - destruct (IH _ _ Hx) as (y & [<-|Hy] & <-); [|exists y; cbn; auto]. cbn [m_rule].
    destruct (Nat.min_dec span.(m_rule) s.(m_rule)) as [->| ->]; [exists span|exists s]; cbn; auto.
  - destruct Hx as [<-|Hx]; [exists span; cbn; auto|]. destruct (IH _ _ Hx) as (y & Hy & <-). exists y. cbn in *. tauto.
Qed.

Lemma merged_rules spans x : In x (mergeMatches (merge_sort matchBefore spans)) -> exists y, In y spans /\ y.(m_rule) = x.(m_rule).
Proof.
  intros Hx. pose proof (merge_sort_Permutation matchBefore spans) as Hp. destruct (merge_sort matchBefore spans) as [|s rest] eqn:E; [easy|].
  cbn [mergeMatches] in Hx. apply mergeFrom_rules in Hx as (y & Hy & <-). exists y. split; [|reflexivity].
  apply list_elem_of_In. rewrite <- Hp. now apply list_elem_of_In.
Qed.

Lemma filter_length_le {A} (f : A -> bool) l : (length (List.filter f l) <= length l)%nat.
Proof. induction l as [|x l IH]; cbn; [lia|]. destruct (f x); cbn; lia. Qed.

Lemma rewriteText_exact c value cipher protected out : rewriteText c value cipher protected = Some out ->
  exists pieces, concat (map original pieces) = value /\ concat (map rewritten pieces) = out /\
    (forall rule b r, In (Redacted rule b r) pieces -> (rule < length c)%nat /\ replacementOf c cipher b rule = Some r) /\
    (forall i, (i < length value)%nat -> redactedAt pieces i = true <->
       exists s, matchOf c 0 value s /\ protectedIn protected s = false /\ covers s i) /\
    (forall s, matchOf c 0 value s -> protectedIn protected s = false -> protectedMatch protected s.(m_start) s.(m_end) = (false, false)) /\
    (Z.of_nat (redactedCount pieces) <= maxDocumentPatches)%Z.
Proof.
  unfold rewriteText. destruct (collectMatches _ _ _ _ _) as [spans|] eqn:Ec; [|discriminate].
  destruct (outside protected spans) as [kept|] eqn:Eo; [|discriminate]. intros Hw.
  assert (Hcount : (Z.of_nat (length spans) <= maxDocumentPatches)%Z).
  { destruct (collected_count _ _ _ _ _ _ Ec) as [->|Hc]; [injection Ec as <-; now vm_compute|]. lia. }
  pose proof (collected _ _ _ _ _ _ Ec) as Hspans. pose proof (outside_plain _ _ _ Eo) as Hplain. apply outside_exact in Eo.
  assert (Hin : forall s, In s kept <-> matchOf c 0 value s /\ protectedIn protected s = false).
  { intros s. rewrite Eo, filter_In, Hspans, negb_true_iff. reflexivity. }
  assert (Hlast : forall s, matchOf c 0 value s -> protectedIn protected s = false ->
                   protectedMatch protected s.(m_start) s.(m_end) = (false, false)) by (intros s Hm Hp; apply Hplain, Hin; auto).
  destruct kept as [|s0 kept0] eqn:Ek.
  - injection Hw as <-. exists [Kept value]. cbn [map concat original rewritten]. rewrite app_nil_r. split; [reflexivity|].
    split; [reflexivity|]. split; [intros rule b r [Hx|[]]; discriminate|]. split; [|split; [exact Hlast|now vm_compute]].
    intros i Hi. rewrite kept_all. split; [discriminate|]. intros (s & Hm & Hp & _). now destruct (proj2 (Hin s) (conj Hm Hp)).
  - rewrite <- Ek in *. clear Ek s0 kept0. cbv zeta in Hw. destruct (_ || _); [discriminate|].
    assert (Hall : Forall (fun s => (s.(m_start) < s.(m_end))%nat) kept).
    { apply Forall_forall. intros s Hs. apply list_elem_of_In, Hin in Hs as [Hm _]. apply matchOf_bounds in Hm. lia. }
    destruct (merged_exact kept Hall) as [Hsep Hcov].
    destruct (writeSpans_exact _ _ _ _ _ _ _ Hw Hsep) as (pieces & tail & -> & [W1 W2 W3 W6 W5 W4]).
    + apply Forall_forall. intros s Hs. destruct (Nat.le_gt_cases s.(m_end) (length value)) as [Hle|Hgt]; [exact Hle|exfalso].
      assert (Hlt : forall l p, separated p l -> forall y, In y l -> (y.(m_start) < y.(m_end))%nat).
      { induction l as [|y l IHl]; cbn [separated]; [easy|]. intros p [Hp Hl] z [<-|Hz]; [lia|now apply (IHl _ Hl)]. }
      apply list_elem_of_In in Hs. specialize (Hlt _ _ Hsep _ Hs).
      destruct (proj1 (Hcov (m_end s - 1)%nat)) as (x & Hx & Hc); [exists s; split; [exact Hs|unfold covers; lia]|].
      apply Hin in Hx as [Hm _]. apply matchOf_bounds in Hm. unfold covers in Hc. lia.
    + exists pieces. split; [exact W1|]. split; [exact W2|]. split.
      { intros rule b r Hr. split; [|now apply (W3 _ _ _ Hr)]. destruct (W6 _ _ _ Hr) as (x & Hx & <-).
        apply merged_rules in Hx as (y & Hy & <-). apply Hin in Hy as [(j & r' & p & Hj & -> & _) _]. apply lookup_lt_Some in Hj. lia. }
      assert (Hk : (Z.of_nat (redactedCount pieces) <= maxDocumentPatches)%Z).
      { rewrite W5. pose proof (merged_length kept). rewrite Eo in *. pose proof (filter_length_le (fun s => negb (protectedIn protected s)) spans). lia. }
      split; [|split; [exact Hlast|exact Hk]]. intros i Hi.
      specialize (W4 i ltac:(lia)). rewrite Nat.sub_0_r in W4. rewrite W4, Hcov. unfold covered.
      split; [intros (s & Hs & Hc); exists s; apply Hin in Hs; tauto|intros (s & Hm & Hp & Hc); exists s; rewrite Hin; auto].
Qed.

(** [C9] Redaction is exact.  The tokens of a text are the authentic ones found by trying
    every position from the left: each is a complete token that is authentic under the
    key, and every authentic token of the text is one of them or starts inside one of
    them.  When a text is rewritten, it splits into parts that are either copied or
    replaced: a byte is in a replaced part exactly when it belongs to a match of some rule
    that does not lie inside one of these tokens; each replaced part becomes the literal
    text of a rule, or the encryption of the part under the key; and every byte of a token
    is copied.  So nothing a rule matches reaches the upstream, and no authentic token is
    encrypted again. *)
Theorem text_redaction_exact c value cipher out :
  (forall k, cipher = Some k -> cipherLaw k) -> TextWithCipher c value cipher = Some out ->
  let tokens := tokensIn cipher value in
  exists pieces, concat (map original pieces) = value /\ concat (map rewritten pieces) = out /\
    (forall rule b r, In (Redacted rule b r) pieces -> (rule < length c)%nat /\ replacementOf c cipher b rule = Some r) /\
    (forall i, (i < length value)%nat -> redactedAt pieces i = true <->
       exists s, matchOf c 0 value s /\ ~ insideOf tokens s /\ covers s i) /\
    (forall t i, In t tokens -> (t.(sp_start) <= i < t.(sp_end))%nat -> redactedAt pieces i = false) /\
    (forall k, cipher = Some k ->
       (forall t, In t tokens -> authenticAt k value t.(sp_start) = Some t.(sp_end)) /\
       forall start ends, authenticAt k value start = Some ends ->
         In (mkSpan start ends) tokens \/ exists t, In t tokens /\ (t.(sp_start) < start < t.(sp_end))%nat).
Proof.
  intros Hk Ht tokens.
  assert (Htok : tokensFrom 0 tokens /\ forall k, cipher = Some k ->
    (forall t, In t tokens -> authenticAt k value t.(sp_start) = Some t.(sp_end)) /\
    forall start ends, authenticAt k value start = Some ends ->
      In (mkSpan start ends) tokens \/ exists t, In t tokens /\ (t.(sp_start) < start < t.(sp_end))%nat).
  { subst tokens. destruct cipher as [k|]; [|split; [exact I|discriminate]].
    destruct (authentic_spec k value (Hk k eq_refl) (length value) 0 0 eq_refl) as (T1 & T2 & T3).
    split; [exact T1|]. intros k' [= <-]. split; [exact T2|]. intros start ends Ha. apply (T3 _ _ Ha). lia. }
  destruct Htok as [Hfrom Hcomplete].
  enough (exists pieces, concat (map original pieces) = value /\ concat (map rewritten pieces) = out /\
    (forall rule b r, In (Redacted rule b r) pieces -> (rule < length c)%nat /\ replacementOf c cipher b rule = Some r) /\
    (forall i, (i < length value)%nat -> redactedAt pieces i = true <->
       exists s, matchOf c 0 value s /\ protectedIn tokens s = false /\ covers s i) /\
    (forall s, matchOf c 0 value s -> protectedIn tokens s = false -> protectedMatch tokens s.(m_start) s.(m_end) = (false, false)))
    as (pieces & P1 & P2 & P3 & P4 & P5).
  { exists pieces. split; [exact P1|]. split; [exact P2|]. split; [exact P3|]. split; [|split; [|exact Hcomplete]].
    - intros i Hi. rewrite (P4 i Hi). split; intros (s & Hm & Hp & Hc); exists s; (split; [exact Hm|]); (split; [|exact Hc]);
        apply matchOf_bounds in Hm; pose proof (protectedIn_iff tokens 0 s Hfrom ltac:(lia)) as Hiff.
      + rewrite <- Hiff, Hp. discriminate.
      + rewrite <- Hiff in Hp. now apply not_true_is_false.
    - intros t i Hin Hi. destruct (redactedAt pieces i) eqn:Er; [exfalso|reflexivity].
      assert (Hb : (sp_end t <= length value)%nat).
      { destruct cipher as [k|]; [|easy]. destruct (Hcomplete k eq_refl) as [Hv _].
        apply (authenticAt_bounds k value (Hk k eq_refl) _ _ (Hv t Hin)). }
      apply P4 in Er as (s & Hm & Hp & Hc); [|lia]. unfold covers in Hc.
      destruct (protected_disjoint _ _ _ _ _ Hfrom (P5 s Hm Hp) Hin); lia. }
  unfold TextWithCipher in Ht. destruct (isEmpty c) eqn:Ee.
  { injection Ht as <-. assert (Hno : forall s, ~ matchOf c 0 value s).
    { intros s (j & r & p & Hj & _). destruct c; [destruct j; discriminate|discriminate]. }
    exists [Kept value]. cbn [map concat original rewritten]. rewrite app_nil_r. split; [reflexivity|]. split; [reflexivity|].
    split; [intros rule b r [Hx|[]]; discriminate|]. split; [|intros s Hm; destruct (Hno s Hm)].
    intros i Hi. rewrite kept_all. split; [discriminate|]. intros (s & Hm & _). destruct (Hno s Hm). }
  destruct cipher as [k|].
  - destruct (authenticatedTokenSpans value k) as [protected|] eqn:Ea; [|discriminate].
    apply (authenticated_exact k value (Hk k eq_refl)) in Ea. subst protected.
    apply rewriteText_exact in Ht as (pieces & H1' & H2' & H3' & H4' & H5' & _). exists pieces. auto.
  - apply rewriteText_exact in Ht as (pieces & H1' & H2' & H3' & H4' & H5' & _). exists pieces. auto.
Qed.

End Facts.

(** ** Witness *)

(** Expressions that match one byte wherever it stands, and a cipher whose tokens are the
    prefix followed by a digit. *)
Fixpoint occurrences (c : ascii) (at_ : nat) (l : list ascii) : list (nat * nat) :=
  match l with
  | [] => []
  | x :: rest => (if Ascii.eqb x c then [(at_, S at_)] else []) ++ occurrences c (S at_) rest
  end.

Lemma occurrences_bounds c l : forall at_ s, In s (occurrences c at_ l) -> (s.1 <= s.2 <= at_ + length l)%nat.
Proof.
  induction l as [|x l IH]; cbn [occurrences length]; intros at_ s Hin; [easy|]. apply in_app_iff in Hin as [Hin|Hin].
  - destruct (Ascii.eqb x c); [|easy]. destruct Hin as [<-|[]]. cbn. lia.
  - apply IH in Hin. lia.
Qed.

#[local] Instance byteExpressions : Regexps :=
  Build_Regexps ascii (fun s => match bytes s with [c] => Ok c | _ => Err "unsupported"%string end) (fun c l => occurrences c 0 l).
#[local] Instance byteExpressions_laws : RegexpLaws.
Proof. split. intros p l s Hin. exact (occurrences_bounds p l 0 s Hin). Qed.

Definition digitToken (value : list ascii) (start : nat) : option nat :=
  match drop start value with
  | a :: b :: c :: d :: e :: f :: _ => if is_digit f then Some (start + 6)%nat else None
  | _ => None
  end.

Definition sampleCipher : TokenCipher := mkCipher (fun l => Some (tokenPrefix ++ l)) digitToken digitToken.

Lemma sampleCipher_law : cipherLaw sampleCipher.
Proof.
  intros value start ends Hv. cbn in Hv. unfold digitToken in Hv. pose proof (length_drop value start) as Hl.
  destruct (drop start value) as [|a [|b [|c [|d [|e [|f rest]]]]]]; try discriminate. destruct (is_digit f); [|discriminate].
  injection Hv as <-. cbn in Hl. lia.
Qed.

Definition sampleRules : Compiled := [(mkRule "x" "***" ModeReplace, "x"%char); (mkRule "1" "" ModeEncrypt, "1"%char)].

Lemma text_redaction_exact_witness : TextWithCipher sampleRules (bytes "ax gld1_1 1b") (Some sampleCipher) = Some (bytes "a*** gld1_1 gld1_1b") /\
  exists pieces : list piece, concat (map original pieces) = bytes "ax gld1_1 1b" /\
    concat (map rewritten pieces) = bytes "a*** gld1_1 gld1_1b".
Proof.
  assert (E : TextWithCipher sampleRules (bytes "ax gld1_1 1b") (Some sampleCipher) = Some (bytes "a*** gld1_1 gld1_1b"))
    by (vm_compute; reflexivity).
  split; [exact E|].
  destruct (text_redaction_exact sampleRules _ (Some sampleCipher) _ (fun k Hk => eq_ind _ cipherLaw sampleCipher_law k (Some_inj _ _ Hk)) E)
    as (pieces & H1 & H2 & _).
  exists pieces. split; [exact H1|exact H2].
Defined.

End RedactProps.
