(* ===== verification/Tokens.v ===== *)
(** * Redaction tokens

    [internal/platform/encryption/redaction.go]: the encryption of a text into a token under
    the key of an access key, the search for candidates in a text, and the restoration of
    the tokens that authenticate.

    Base64url of [encoding/base64] is written out.  AES-SIV and HKDF are the class
    [TokenKeys]; a cipher is deterministic encryption with the token's header as associated
    data. *)

From Stdlib Require Import ZArith Lia Bool String Ascii List.
From stdpp Require Import base gmap sets list strings.
From coqutil Require Import Datatypes.RecordSettersUsingExistingGetters.
From S2P Require Import Prelude GoStrings Execution Contracts Headers Ownership Redact.

Local Open Scope Z_scope.
Local Open Scope go_scope.

Module Tokens.
Import Execution Contracts Headers Redact.

(** ** Base64url without padding *)

Definition alphabet : list ascii := bytes "ABCDEFGHIJKLMNOPQRSTUVWXYZabcdefghijklmnopqrstuvwxyz0123456789-_".

Definition sextetChar (v : Z) : ascii := nth (Z.to_nat v) alphabet "A"%char.

Definition redactionBase64URLByte (c : ascii) : bool :=
  between 65 90 c || between 97 122 c || is_digit c || Ascii.eqb c "-" || Ascii.eqb c "_".

Definition sextet (c : ascii) : option Z :=
  let v := byte_val c in
  if between 65 90 c then Some (v - 65)
  else if between 97 122 c then Some (v - 71)
  else if is_digit c then Some (v + 4)
  else if Ascii.eqb c "-" then Some 62
  else if Ascii.eqb c "_" then Some 63 else None.

(** [RawURLEncoding.EncodeToString]. *)
Fixpoint encode64 (l : list ascii) : list ascii :=
  match l with
  | a :: b :: c :: rest =>
    let v := byte_val a * 65536 + byte_val b * 256 + byte_val c in
    sextetChar (v / 262144) :: sextetChar (v / 4096 mod 64) :: sextetChar (v / 64 mod 64) :: sextetChar (v mod 64) :: encode64 rest
  | [a; b] =>
    let v := byte_val a * 65536 + byte_val b * 256 in
    [sextetChar (v / 262144); sextetChar (v / 4096 mod 64); sextetChar (v / 64 mod 64)]
  | [a] => let v := byte_val a * 65536 in [sextetChar (v / 262144); sextetChar (v / 4096 mod 64)]
  | [] => []
  end.

Definition byteOf (v : Z) : ascii := ascii_of_nat (Z.to_nat v).

(** [RawURLEncoding.Strict().DecodeString] of alphabet characters: the bits after the last
    whole byte have to be zero. *)
Fixpoint decode64 (l : list ascii) : option (list ascii) :=
  match l with
  | a :: b :: c :: d :: rest =>
    match sextet a, sextet b, sextet c, sextet d, decode64 rest with
    | Some a, Some b, Some c, Some d, Some more =>
      let v := a * 262144 + b * 4096 + c * 64 + d in
      Some (byteOf (v / 65536) :: byteOf (v / 256 mod 256) :: byteOf (v mod 256) :: more)
    | _, _, _, _, _ => None
    end
  | [a; b; c] =>
    match sextet a, sextet b, sextet c with
    | Some a, Some b, Some c =>
      let v := a * 262144 + b * 4096 + c * 64 in
      if v mod 256 =? 0 then Some [byteOf (v / 65536); byteOf (v / 256 mod 256)] else None
    | _, _, _ => None
    end
  | [a; b] =>
    match sextet a, sextet b with
    | Some a, Some b => let v := a * 262144 + b * 4096 in if v mod 65536 =? 0 then Some [byteOf (v / 65536)] else None
    | _, _ => None
    end
  | [_] => None
  | [] => Some []
  end.

(** [RawURLEncoding.EncodedLen]. *)
Definition EncodedLen (n : Z) : Z := n / 3 * 4 + (n mod 3 * 8 + 5) / 6.

(** ** Ciphers *)

Definition maxRedactionPlaintextBytes : Z := 16777216.
Definition maxRedactionTokensPerText : Z := 65536.
Definition redactionCiphertextOverhead : Z := 16.

(** Deterministic authenticated encryption of a text with a header. *)
Record Siv := mkSiv {
  EncryptDeterministically : list ascii -> list ascii -> option (list ascii);
  DecryptDeterministically : list ascii -> list ascii -> option (list ascii);
}.

(** [hkdf.Key] of the root key with an info text, and the cipher of a derived key. *)
Class TokenKeys := {
  derivedKey : list ascii -> option (list ascii);
  newAESSIV : list ascii -> option Siv;
}.

Definition redactionKeyDomain : list ascii := bytes "gpt-load/request-redaction/aes-siv/v1/".

Definition keyInfo (accessKeyID : Z) : list ascii := redactionKeyDomain ++ Ownership.bigEndian64 accessKeyID.

Definition NewRedactionCipher `{TokenKeys} (accessKeyID : Z) : option Siv :=
  if accessKeyID =? 0 then None
  else match derivedKey (keyInfo accessKeyID) with Some key => newAESSIV key | None => None end.

Definition tokenHeader (encodedLen : Z) : list ascii := tokenPrefix ++ format_int encodedLen ++ ["_"%char].

Definition EncryptToken (k : Siv) (plaintext : list ascii) : option (list ascii) :=
  if maxRedactionPlaintextBytes <? Z.of_nat (length plaintext) then None
  else
    let header := tokenHeader (EncodedLen (Z.of_nat (length plaintext) + redactionCiphertextOverhead)) in
    match k.(EncryptDeterministically) plaintext header with
    | None => None
    | Some ciphertext =>
      if negb (Z.of_nat (length ciphertext) =? Z.of_nat (length plaintext) + redactionCiphertextOverhead) then None
      else Some (header ++ encode64 ciphertext)
    end.

(** ** Candidates *)

Record tokenCandidate := mkCandidate { headerEnd : nat; cd_end : Z; found : bool; malformed : bool; badHeader : bool }.

Definition noCandidate : tokenCandidate := mkCandidate 0 0 false false false.

(** The digits at the start of a text: how many, and their value unless it exceeds the limit. *)
Fixpoint digitLoop (limit : Z) (l : list ascii) (count : nat) (size : Z) (oversize : bool) : nat * Z * bool :=
  match l with
  | c :: rest =>
    if is_digit c then
      if oversize || ((limit - digit_val c) / 10 <? size) then digitLoop limit rest (S count) size true
      else digitLoop limit rest (S count) (size * 10 + digit_val c) false
    else (count, size, oversize)
  | [] => (count, size, oversize)
  end.

Definition maxEncodedLen : Z := EncodedLen (maxRedactionPlaintextBytes + redactionCiphertextOverhead).

Definition parseRedactionCandidate (value : list ascii) (start : nat) : tokenCandidate :=
  if negb (has_prefix tokenPrefix (drop start value)) then noCandidate
  else
    let digitsAt := (start + 5)%nat in
    match drop digitsAt value with
    | [] => noCandidate
    | first :: _ =>
      if negb (is_digit first) then noCandidate
      else
        let '(count, size, oversize) := digitLoop maxEncodedLen (drop digitsAt value) 0 0 false in
        match drop (digitsAt + count) value with
        | c :: _ =>
          if negb (Ascii.eqb c "_") then noCandidate
          else
            let headerEnd := (digitsAt + count + 1)%nat in
            if oversize || (size =? 0) || ((1 <? count)%nat && Ascii.eqb first "0")
            then mkCandidate headerEnd 0 true true true
            else
              let short := (size <? EncodedLen redactionCiphertextOverhead) || (Z.of_nat (length value) - Z.of_nat headerEnd <? size) in
              mkCandidate headerEnd (Z.of_nat headerEnd + size) true short false
        | [] => noCandidate
        end
    end.

Fixpoint leading {A} (f : A -> bool) (l : list A) : nat :=
  match l with x :: rest => if f x then S (leading f rest) else 0%nat | [] => 0%nat end.

(** Where the search goes on behind a candidate that is not restored. *)
Definition unrestoredCandidateEnd (value : list ascii) (c : tokenCandidate) : nat :=
  if c.(badHeader) then c.(headerEnd)
  else
    let ends := Z.to_nat (Z.min c.(cd_end) (Z.of_nat (length value))) in
    (c.(headerEnd) + leading redactionBase64URLByte (slice value c.(headerEnd) ends))%nat.

Definition decryptCandidate (k : Siv) (value : list ascii) (start : nat) (c : tokenCandidate) : option (list ascii) :=
  if negb c.(found) || c.(malformed) then None
  else
    let encoded := slice value c.(headerEnd) (Z.to_nat c.(cd_end)) in
    if negb (forallb redactionBase64URLByte encoded) then None
    else
      match decode64 encoded with
      | None => None
      | Some data =>
        if Z.of_nat (length data) <? redactionCiphertextOverhead then None
        else k.(DecryptDeterministically) data (slice value start c.(headerEnd))
      end.

Definition TokenCandidateEndAt (value : list ascii) (start : nat) : option nat :=
  let c := parseRedactionCandidate value start in
  if c.(found) && negb c.(malformed) then Some (Z.to_nat c.(cd_end)) else None.

Definition ValidToken (k : Siv) (value : list ascii) (start : nat) : option nat :=
  let c := parseRedactionCandidate value start in
  match decryptCandidate k value start c with Some _ => Some (Z.to_nat c.(cd_end)) | None => None end.

(** ** Restoration *)

(** One round per candidate; [scan] advances in each.  The state is the offset up to which
    the text is copied, the candidates met, the candidates left as they are, and the
    output. *)
Fixpoint restoreLoop (fuel : nat) (k : Siv) (value : list ascii) (scan last : nat) (tokens unrestored : Z) (out : list ascii)
    : Z * option (nat * list ascii) :=
  match fuel with
  | O => (unrestored, Some (last, out))
  | S fuel =>
    if (length value <=? scan)%nat then (unrestored, Some (last, out))
    else
      match index_of tokenPrefix (drop scan value) with
      | None => (unrestored, Some (last, out))
      | Some relative =>
        let start := (scan + relative)%nat in
        let c := parseRedactionCandidate value start in
        if negb c.(found) then restoreLoop fuel k value (start + 5) last tokens unrestored out
        else
          let tokens := (tokens + 1) in
          if maxRedactionTokensPerText <? tokens then (unrestored, None)
          else
            match decryptCandidate k value start c with
            | None => restoreLoop fuel k value (unrestoredCandidateEnd value c) last tokens (unrestored + 1) out
            | Some plaintext =>
              let ends := Z.to_nat c.(cd_end) in
              restoreLoop fuel k value ends ends tokens unrestored (out ++ slice value last start ++ plaintext)
            end
      end
  end.

(** [RestoreText]: how many candidates are counted as unrestored, and the text. *)
Definition RestoreText (k : Siv) (value : list ascii) : Z * option (list ascii) :=
  let '(unrestored, result) := restoreLoop (S (length value)) k value 0 0 0 0 [] in
  (unrestored,
   match result with
   | None => None
   | Some (last, out) => Some (if (last =? 0)%nat && isEmpty out then value else out ++ drop last value)
   end).

(** The cipher as redaction uses it. *)
Definition redactionCipher (k : Siv) : TokenCipher := mkCipher (EncryptToken k) TokenCandidateEndAt (ValidToken k).

End Tokens.
