(* ===== verification/TokenStream.v ===== *)
(** * Restoration of a streamed text

    [internal/gateway/redaction_restore_token_stream.go]: a text that arrives in pieces is
    restored as it arrives.  Only what may still turn out to be a token is held back.

    The restoration of one candidate is an argument, as it is in the source; JSON quoting of
    a restored text is the class [JsonText]. *)

From Stdlib Require Import ZArith Lia Bool String Ascii List.
From stdpp Require Import base gmap sets list strings.
From coqutil Require Import Datatypes.RecordSettersUsingExistingGetters.
From S2P Require Import Prelude GoStrings Execution Contracts Headers Redact Tokens.

Local Open Scope Z_scope.
Local Open Scope go_scope.

Module TokenStream.
Import Execution Contracts Headers Redact Tokens.

Definition maxRedactionStreamPendingBytes : Z := 33554432.

(** [json.Marshal] of a string, without the quotes around it. *)
Class JsonText := { jsonQuoted : list ascii -> list ascii }.

(** A candidate as far as it has arrived: its bytes as they were written and as they are
    decoded, how much of the prefix and how many digits it has, the declared length, and
    how much of the body is missing. *)
Record redactionTokenStream := mkTokenStream {
  ts_raw : list ascii;
  ts_decoded : list ascii;
  ts_prefix : nat;
  ts_digits : nat;
  ts_length : Z;
  ts_remaining : Z;
  leadingZero : bool;
  ts_oversize : bool;
  ts_body : bool;
  ts_changed : bool;
  ts_limit : Z;
}.

Definition emptyStream (limit : Z) : redactionTokenStream := mkTokenStream [] [] 0 0 0 0 false false false false limit.

Inductive StreamError := errRedactionStream.
Abbreviation streamed := (result StreamError).

Definition pending (t : redactionTokenStream) : bool := negb (isEmpty t.(ts_raw)).

Definition reset (t : redactionTokenStream) : redactionTokenStream :=
  mkTokenStream [] [] 0 0 0 0 false false false t.(ts_changed) t.(ts_limit).

(** [append]. *)
Definition appendToken (t : redactionTokenStream) (raw decoded : list ascii) : streamed redactionTokenStream :=
  let limit := if t.(ts_limit) =? 0 then maxRedactionStreamPendingBytes else t.(ts_limit) in
  if limit - Z.of_nat (length t.(ts_raw)) <? Z.of_nat (length raw) then Err errRedactionStream
  else Ok (t <| ts_raw := t.(ts_raw) ++ raw |> <| ts_decoded := t.(ts_decoded) ++ decoded |>).

Section Stream.
Context `{JsonText} (restore : list ascii -> option (list ascii)).

(** A candidate that cannot authenticate is left to [restore] to judge and written back. *)
Definition keep (t : redactionTokenStream) (out : list ascii) : streamed (redactionTokenStream * list ascii) :=
  match restore t.(ts_decoded) with
  | Some restored => if bool_decide (restored = t.(ts_decoded)) then Ok (reset t, out ++ t.(ts_raw)) else Err errRedactionStream
  | None => Err errRedactionStream
  end.

(** The prefix character that is expected next; [None] behind the prefix. *)
Definition expected (t : redactionTokenStream) : option ascii := nth_error tokenPrefix t.(ts_prefix).

Definition single (decoded : list ascii) (f : ascii -> bool) : bool := match decoded with [c] => f c | _ => false end.

(** [pushUnit] of a stream that holds nothing back. *)
Definition pushFresh (t : redactionTokenStream) (raw decoded : list ascii) (out : list ascii) : streamed (redactionTokenStream * list ascii) :=
  if single decoded (fun c => bool_decide (expected t = Some c)) then
    let? t := appendToken t raw decoded in Ok (t <| ts_prefix := S t.(ts_prefix) |>, out)
  else Ok (t, out ++ raw).

(** One more digit of the length field. *)
Definition pushDigit (t : redactionTokenStream) (c : ascii) : redactionTokenStream :=
  let t := if (t.(ts_digits) =? 0)%nat then t <| leadingZero := Ascii.eqb c "0" |> else t in
  let t := t <| ts_digits := S t.(ts_digits) |> in
  if t.(ts_oversize) then t
  else if (maxRedactionStreamPendingBytes - digit_val c) / 10 <? t.(ts_length) then t <| ts_oversize := true |>
  else t <| ts_length := t.(ts_length) * 10 + digit_val c |>.

(** The last character of a body: the candidate is complete. *)
Definition concludeToken (t : redactionTokenStream) (quoted : bool) (out : list ascii) : streamed (redactionTokenStream * list ascii) :=
  match restore t.(ts_decoded) with
  | None => Err errRedactionStream
  | Some restored =>
    if bool_decide (restored = t.(ts_decoded)) then Ok (reset t, out ++ t.(ts_raw))
    else Ok (reset (t <| ts_changed := true |>), out ++ if quoted then jsonQuoted restored else restored)
  end.

(** One character, as written and as decoded.  A stream that was reset holds nothing back,
    so the recursive calls of the source are [pushFresh]. *)
Definition pushUnit (t : redactionTokenStream) (raw decoded : list ascii) (quoted : bool) (out : list ascii)
    : streamed (redactionTokenStream * list ascii) :=
  if (t.(ts_prefix) <? length tokenPrefix)%nat then
    if single decoded (fun c => bool_decide (expected t = Some c)) then
      let? t := appendToken t raw decoded in Ok (t <| ts_prefix := S t.(ts_prefix) |>, out)
    else if pending t then pushFresh (reset t) raw decoded (out ++ t.(ts_raw))
    else Ok (t, out ++ raw)
  else if negb t.(ts_body) then
    match decoded with
    | [c] =>
      if is_digit c then let? t := appendToken (pushDigit t c) raw decoded in Ok (t, out)
      else if Ascii.eqb c "_" && (0 <? t.(ts_digits))%nat then
        let? t := appendToken t raw decoded in
        if t.(ts_oversize) || (t.(ts_length) =? 0) || (t.(leadingZero) && (1 <? t.(ts_digits))%nat) then keep t out
        else Ok (t <| ts_body := true |> <| ts_remaining := t.(ts_length) |>, out)
      else pushFresh (reset t) raw decoded (out ++ t.(ts_raw))
    | _ => pushFresh (reset t) raw decoded (out ++ t.(ts_raw))
    end
  else if negb (single decoded redactionBase64URLByte) then
    let? kept := keep t out in pushFresh kept.1 raw decoded kept.2
  else
    let? t := appendToken t raw decoded in
    let t := t <| ts_remaining := t.(ts_remaining) - 1 |> in
    if negb (t.(ts_remaining) =? 0) then Ok (t, out) else concludeToken t quoted out.

Definition hasSuffix (s l : list ascii) : bool := bool_decide (drop (length l - length s) l = s).

(** How many bytes at the end of a text may start a token. *)
Definition tailLength (value : list ascii) : nat :=
  default 0%nat (find (fun n => hasSuffix (take n tokenPrefix) value) [4; 3; 2; 1]%nat).

(** Whether a held-back header cannot go on with this character. *)
Definition mismatch (t : redactionTokenStream) (c : ascii) : bool :=
  negb (match expected t with
        | Some e => Ascii.eqb c e
        | None => (t.(ts_prefix) =? length tokenPrefix)%nat && (is_digit c || (Ascii.eqb c "_" && (0 <? t.(ts_digits))%nat))
        end).

(** [pushString]: every round but one that resets a mismatch takes at least one byte, so
    twice the length bounds the rounds. *)
Fixpoint pieceLoop (fuel : nat) (t : redactionTokenStream) (value : list ascii) (quoted : bool) (out : list ascii)
    : streamed (redactionTokenStream * list ascii) :=
  match fuel with
  | O => Ok (t, out)
  | S fuel =>
    match value with
    | [] => Ok (t, out)
    | first :: _ =>
      if pending t && negb t.(ts_body) && mismatch t first then pieceLoop fuel (reset t) value quoted (out ++ t.(ts_raw))
      else
        let unit t value out :=
          match value with
          | [] => Ok (t, out)
          | c :: rest => let? r := pushUnit t [c] [c] quoted out in pieceLoop fuel r.1 rest quoted r.2
          end in
        if pending t then unit t value out
        else
          match index_of tokenPrefix value with
          | Some index =>
            let? t := appendToken t tokenPrefix tokenPrefix in
            pieceLoop fuel (t <| ts_prefix := length tokenPrefix |>) (drop (index + 5) value) quoted (out ++ take index value)
          | None =>
            let cut := (length value - tailLength value)%nat in unit t (drop cut value) (out ++ take cut value)
          end
    end
  end.

Definition pushString (t : redactionTokenStream) (value : list ascii) (quoted : bool) (out : list ascii)
    : streamed (redactionTokenStream * list ascii) := pieceLoop (2 * length value + 1) t value quoted out.

Definition finish (t : redactionTokenStream) : streamed (redactionTokenStream * list ascii) :=
  if t.(ts_body) then keep t [] else Ok (reset t, t.(ts_raw)).

End Stream.

End TokenStream.
