(* ===== verification/TokensProps.v ===== *)
(** * Redaction tokens, theorems

    Base64url round-trips, a token authenticates where it stands, the cipher satisfies what
    redaction relies on, and restoring a redacted text gives the text back. *)

From Stdlib Require Import ZArith Lia Bool String Ascii List.
From stdpp Require Import base gmap sets list strings.
From S2P Require Import Prelude GoStrings Execution Contracts Headers Ownership OwnershipProps Redact RedactProps Tokens TokenStream.

Local Open Scope Z_scope.
Local Open Scope go_scope.

Module TokensProps.
Import Execution Contracts Headers Redact RedactProps Tokens TokenStream.

(** ** Base64url *)

Section Base64.

Lemma byte_val_range c : 0 <= byte_val c < 256.
Proof. unfold byte_val. pose proof (nat_ascii_bounded c). lia. Qed.

Lemma byteOf_val c : byteOf (byte_val c) = c.
Proof. unfold byteOf, byte_val. rewrite Nat2Z.id. apply ascii_nat_embedding. Qed.

(** The values of an alphabet character and the alphabet agree. *)
Lemma sextet_char v : 0 <= v < 64 -> sextet (sextetChar v) = Some v /\ redactionBase64URLByte (sextetChar v) = true.
Proof.
  intros Hv.
  assert (Hall : forallb (fun n => bool_decide (sextet (sextetChar (Z.of_nat n)) = Some (Z.of_nat n)) &&
                                   redactionBase64URLByte (sextetChar (Z.of_nat n))) (seq 0 64) = true) by (vm_compute; reflexivity).
  rewrite forallb_forall in Hall. specialize (Hall (Z.to_nat v) ltac:(apply in_seq; lia)). rewrite Z2Nat.id in Hall by lia.
  apply andb_true_iff in Hall as [H1 H2]. split; [now apply bool_decide_eq_true in H1|exact H2].
Qed.

Lemma three_step {A} (P : list A -> Prop) : P [] -> (forall a, P [a]) -> (forall a b, P [a; b]) ->
  (forall a b c l, P l -> P (a :: b :: c :: l)) -> forall l, P l.
Proof.
  intros H0 H1 H2 H3. assert (H : forall n l, (length l <= n)%nat -> P l); [|intros l; now apply (H (length l))].
  induction n as [|n IH]; intros [|a [|b [|c l]]] Hl; cbn in Hl; auto; try lia. apply H3, IH. lia.
Qed.

Ltac Zify.zify_post_hook ::= Z.to_euclidean_division_equations.

(** The digits of a number below 2^24 in base 64 and in base 256. *)
Lemma sextets_of v : 0 <= v < 16777216 ->
  0 <= v / 262144 < 64 /\ 0 <= v / 4096 mod 64 < 64 /\ 0 <= v / 64 mod 64 < 64 /\ 0 <= v mod 64 < 64 /\
  v / 262144 * 262144 + v / 4096 mod 64 * 4096 + v / 64 mod 64 * 64 + v mod 64 = v.
Proof. intros Hv. repeat split; lia. Qed.

Lemma base64_roundtrip l : decode64 (encode64 l) = Some l.
Proof.
  induction l as [|a|a b|a b c l IH] using three_step; cbn [encode64]; [reflexivity|cbv zeta..].
  - pose proof (byte_val_range a) as Ha. destruct (sextets_of (byte_val a * 65536) ltac:(lia)) as (R1 & R2 & R3 & R4 & E).
    cbn [decode64]. rewrite (proj1 (sextet_char _ R1)), (proj1 (sextet_char _ R2)). cbv zeta.
    replace (_ + _) with (byte_val a * 65536) by lia. rewrite Z.mod_mul, Z.eqb_refl, Z.div_mul by lia. now rewrite byteOf_val.
  - pose proof (byte_val_range a) as Ha. pose proof (byte_val_range b) as Hb.
    destruct (sextets_of (byte_val a * 65536 + byte_val b * 256) ltac:(lia)) as (R1 & R2 & R3 & R4 & E).
    cbn [decode64]. rewrite (proj1 (sextet_char _ R1)), (proj1 (sextet_char _ R2)), (proj1 (sextet_char _ R3)). cbv zeta.
    replace (_ + _ * 64) with (byte_val a * 65536 + byte_val b * 256) by lia.
    replace ((byte_val a * 65536 + byte_val b * 256) mod 256) with 0 by lia. cbn [Z.eqb].
    replace ((byte_val a * 65536 + byte_val b * 256) / 65536) with (byte_val a) by lia.
    replace ((byte_val a * 65536 + byte_val b * 256) / 256 mod 256) with (byte_val b) by lia. now rewrite !byteOf_val.
  - pose proof (byte_val_range a) as Ha. pose proof (byte_val_range b) as Hb. pose proof (byte_val_range c) as Hc.
    set (v := byte_val a * 65536 + byte_val b * 256 + byte_val c).
    destruct (sextets_of v ltac:(unfold v; lia)) as (R1 & R2 & R3 & R4 & E).
    cbn [decode64]. rewrite (proj1 (sextet_char _ R1)), (proj1 (sextet_char _ R2)), (proj1 (sextet_char _ R3)), (proj1 (sextet_char _ R4)), IH.
    cbv zeta. rewrite E. unfold v. do 2 f_equal; [|f_equal; [|f_equal]]; rewrite <- byteOf_val; f_equal; lia.
Qed.

Lemma base64_bytes l : forallb redactionBase64URLByte (encode64 l) = true.
Proof.
  induction l as [|a|a b|a b c l IH] using three_step; cbn [encode64 forallb]; [reflexivity|cbv zeta..].
  - pose proof (byte_val_range a). destruct (sextets_of (byte_val a * 65536) ltac:(lia)) as (R1 & R2 & R3 & R4 & E).
    now rewrite (proj2 (sextet_char _ R1)), (proj2 (sextet_char _ R2)).
  - pose proof (byte_val_range a). pose proof (byte_val_range b).
    destruct (sextets_of (byte_val a * 65536 + byte_val b * 256) ltac:(lia)) as (R1 & R2 & R3 & R4 & E).
    now rewrite (proj2 (sextet_char _ R1)), (proj2 (sextet_char _ R2)), (proj2 (sextet_char _ R3)).
  - pose proof (byte_val_range a). pose proof (byte_val_range b). pose proof (byte_val_range c).
    destruct (sextets_of (byte_val a * 65536 + byte_val b * 256 + byte_val c) ltac:(lia)) as (R1 & R2 & R3 & R4 & E).
    now rewrite (proj2 (sextet_char _ R1)), (proj2 (sextet_char _ R2)), (proj2 (sextet_char _ R3)), (proj2 (sextet_char _ R4)), IH.
Qed.

Lemma base64_length l : Z.of_nat (length (encode64 l)) = EncodedLen (Z.of_nat (length l)).
Proof.
  unfold EncodedLen. induction l as [|a|a b|a b c l IH] using three_step; [reflexivity..|]. cbn [encode64 length]. lia.
Qed.

Lemma EncodedLen_bounds n : 0 <= n <= maxRedactionPlaintextBytes ->
  22 <= EncodedLen (n + redactionCiphertextOverhead) <= maxEncodedLen.
Proof. unfold maxEncodedLen, EncodedLen, maxRedactionPlaintextBytes, redactionCiphertextOverhead. intros Hn. lia. Qed.

Lemma EncodedLen_least n : 0 <= n -> 22 <= EncodedLen n -> 16 <= n.
Proof. unfold EncodedLen. intros. lia. Qed.

(** A positive number is written without a leading zero. *)
Lemma render_fuel_head fuel : forall n acc, 1 <= n < 2 ^ Z.of_nat fuel -> exists c l, render_fuel fuel n acc = c :: l /\ c <> "0"%char.
Proof.
  induction fuel as [|fuel IH]; intros n acc Hn; [cbn in Hn; lia|]. cbn [render_fuel]. destruct (Z.ltb_spec n 10) as [Hs|Hs].
  - exists (digit_char (n mod 10)), acc. split; [reflexivity|]. intros E. apply (f_equal digit_val) in E.
    rewrite digit_char_val in E by lia. change (digit_val "0") with 0 in E. lia.
  - apply IH. rewrite Nat2Z.inj_succ, Z.pow_succ_r in Hn by lia. split; lia.
Qed.

Lemma format_int_field n : 1 <= n -> exists c l, format_int n = c :: l /\ c <> "0"%char /\
  all_digits (c :: l) = true /\ digits_value (c :: l) = n.
Proof.
  intros Hn. unfold format_int. rewrite (proj2 (Z.ltb_ge n 0)) by lia. destruct (render_spec n ltac:(lia)) as (Hd & Hv & _).
  unfold render in *. destruct (render_fuel_head (S (Z.to_nat (Z.log2 n))) n []) as (c & l & E & Hc).
  - split; [lia|]. rewrite Nat2Z.inj_succ, Z2Nat.id by apply Z.log2_nonneg. apply Z.log2_spec. lia.
  - exists c, l. rewrite E in *. auto.
Qed.

(** Distinct access keys derive their keys from distinct texts. *)
Lemma keyInfo_injective a b : OwnershipProps.in_u64 a -> OwnershipProps.in_u64 b -> keyInfo a = keyInfo b -> a = b.
Proof. intros Ha Hb E. apply app_inv_head in E. now apply OwnershipProps.bigEndian64_inj in E. Qed.

End Base64.

(** ** Searching *)

Lemma has_prefix_app p l : has_prefix p (p ++ l) = true.
Proof. induction p as [|c p IH]; cbn; [reflexivity|]. now rewrite Ascii.eqb_refl. Qed.

(** Skipping a stretch in which no occurrence starts. *)
Lemma index_of_skip needle n : forall l, (n <= length l)%nat -> (forall i, (i < n)%nat -> has_prefix needle (drop i l) = false) ->
  index_of needle l = (fun m => (n + m)%nat) <$> index_of needle (drop n l).
Proof.
  induction n as [|n IH]; intros l Hn Hno; [rewrite drop_0; now destruct (index_of needle l)|].
  destruct l as [|c l]; [cbn in Hn; lia|]. cbn [index_of drop].
  rewrite (Hno 0%nat ltac:(lia) : has_prefix needle (c :: l) = false).
  rewrite IH; [|cbn in Hn; lia|intros i Hi; exact (Hno (S i) ltac:(lia))]. now destruct (index_of needle (drop n l)).
Qed.

(** A stretch without the first byte of the prefix. *)
Lemma no_prefix_at a l i : ~ In "g"%char a -> (i < length a)%nat -> has_prefix tokenPrefix (drop i (a ++ l)) = false.
Proof.
  revert i. induction a as [|c a IH]; intros i Hg Hi; [cbn in Hi; lia|]. destruct i as [|i].
  - cbn -[Ascii.eqb]. destruct (Ascii.eqb_spec "g" c) as [<-|]; [exfalso; apply Hg; now left|reflexivity].
  - apply IH; [intros H; apply Hg; now right|cbn in Hi; lia].
Qed.

(** ** Length fields *)

Lemma digitLoop_over limit ds rest : all_digits ds = true -> forall count size,
  match rest with c :: _ => is_digit c = false | [] => True end ->
  exists size', digitLoop limit (ds ++ rest) count size true = ((count + length ds)%nat, size', true).
Proof.
  induction ds as [|c ds IH]; intros Hd count size Hr.
  - cbn [app length]. exists size. destruct rest as [|c rest]; cbn [digitLoop]; [f_equal; f_equal; lia|]. rewrite Hr. f_equal. f_equal. lia.
  - rewrite all_digits_cons in Hd. apply andb_true_iff in Hd as [Hc Hd]. cbn [app digitLoop]. rewrite Hc. cbn [orb].
    destruct (IH Hd (S count) size Hr) as (size' & ->). exists size'. f_equal. f_equal. cbn. lia.
Qed.

Lemma digitLoop_exact limit ds rest : all_digits ds = true -> match rest with c :: _ => is_digit c = false | [] => True end ->
  forall count size, 0 <= size <= limit ->
  exists size', digitLoop limit (ds ++ rest) count size false =
                  ((count + length ds)%nat, size', limit <? size * 10 ^ Z.of_nat (length ds) + digits_value ds) /\
                (size * 10 ^ Z.of_nat (length ds) + digits_value ds <= limit ->
                 size' = size * 10 ^ Z.of_nat (length ds) + digits_value ds).
Proof.
  intros Hd Hr. induction ds as [|c ds IH]; intros count size Hs.
  - exists size. cbn [app length]. change (digits_value []) with 0. rewrite Z.pow_0_r, Z.mul_1_r, Z.add_0_r.
    rewrite (proj2 (Z.ltb_ge limit size)) by lia. split; [|auto]. rewrite Nat.add_0_r.
    destruct rest as [|c rest]; cbn [digitLoop]; [reflexivity|]. now rewrite Hr.
  - rewrite all_digits_cons in Hd. apply andb_true_iff in Hd as [Hc Hd]. specialize (IH Hd). cbn [app digitLoop]. rewrite Hc. cbn [orb].
    apply is_digit_range in Hc. pose proof (digits_value_range ds Hd) as Hv. rewrite digits_value_cons. cbn [length].
    rewrite Nat2Z.inj_succ, Z.pow_succ_r by lia.
    replace (size * (10 * 10 ^ Z.of_nat (length ds)) + (digit_val c * 10 ^ Z.of_nat (length ds) + digits_value ds))
      with ((size * 10 + digit_val c) * 10 ^ Z.of_nat (length ds) + digits_value ds) by ring.
    assert (Hp : 1 <= 10 ^ Z.of_nat (length ds)) by (pose proof (Z.pow_pos_nonneg 10 (Z.of_nat (length ds))); lia).
    destruct (Z.ltb_spec ((limit - digit_val c) / 10) size) as [Ho|Ho].
    + destruct (digitLoop_over limit ds rest Hd (S count) size Hr) as (size' & ->). exists size'.
      assert (limit < size * 10 + digit_val c).
      { pose proof (Z.mod_pos_bound (limit - digit_val c) 10 ltac:(lia)). pose proof (Z.div_mod (limit - digit_val c) 10 ltac:(lia)). lia. }
      rewrite (proj2 (Z.ltb_lt _ _)) by nia. split; [f_equal; f_equal; lia|nia].
    + pose proof (Z.mod_pos_bound (limit - digit_val c) 10 ltac:(lia)). pose proof (Z.div_mod (limit - digit_val c) 10 ltac:(lia)).
      destruct (IH (S count) (size * 10 + digit_val c) ltac:(lia)) as (size' & -> & Hx). exists size'. split; [f_equal; f_equal; lia|exact Hx].
Qed.

(** ** Candidates *)

Definition headerOf (ds : list ascii) : list ascii := tokenPrefix ++ ds ++ ["_"%char].

(** A length field no token has. *)
Definition fieldBad (limit : Z) (ds : list ascii) : bool :=
  (limit <? digits_value ds) || (digits_value ds =? 0) ||
  ((1 <? length ds)%nat && match ds with c :: _ => Ascii.eqb c "0" | [] => false end).

Lemma headerOf_length ds : length (headerOf ds) = (6 + length ds)%nat.
Proof. unfold headerOf. rewrite !length_app. cbn. lia. Qed.

Lemma drop_suffix {A} start (value a rest : list A) : drop start value = a ++ rest -> a <> [] ->
  length value = (start + length a + length rest)%nat /\ drop (start + length a) value = rest.
Proof.
  intros E Ha. pose proof (length_drop value start) as Hl. rewrite E, length_app in Hl.
  assert (length a <> 0%nat) by (now destruct a). split; [lia|]. rewrite <- drop_drop, E. now rewrite drop_app_length.
Qed.

(** Bytes that end a run of digits. *)
Definition digitsEnd (l : list ascii) : Prop := match l with c :: _ => is_digit c = false | [] => True end.

Lemma maxEncodedLen_pos : 0 <= maxEncodedLen.
Proof. now vm_compute. Qed.

Lemma digits_scanned ds rest : all_digits ds = true -> digitsEnd rest -> exists size,
  digitLoop maxEncodedLen (ds ++ rest) 0 0 false = (length ds, size, maxEncodedLen <? digits_value ds) /\
  (digits_value ds <= maxEncodedLen -> size = digits_value ds).
Proof.
  intros Hd Hr. destruct (digitLoop_exact maxEncodedLen ds rest Hd Hr 0%nat 0) as (size & E & Hs).
  { pose proof maxEncodedLen_pos. lia. }
  exists size. cbn [Z.mul] in *. rewrite Z.add_0_l in *. auto.
Qed.

Lemma parse_header value start ds rest : drop start value = headerOf ds ++ rest -> all_digits ds = true -> ds <> [] ->
  parseRedactionCandidate value start =
    let headerEnd := (start + length (headerOf ds))%nat in
    if fieldBad maxEncodedLen ds then mkCandidate headerEnd 0 true true true
    else mkCandidate headerEnd (Z.of_nat headerEnd + digits_value ds) true
           ((digits_value ds <? 22) || (Z.of_nat (length rest) <? digits_value ds)) false.
Proof.
  intros E Hd Hne. unfold parseRedactionCandidate. rewrite E. unfold headerOf at 1. rewrite <- app_assoc, has_prefix_app. cbn [negb].
  destruct (drop_suffix start value (headerOf ds) rest E ltac:(easy)) as [Hl _].
  destruct (drop_suffix start value tokenPrefix (ds ++ "_"%char :: rest)) as [_ E5].
  { rewrite E. unfold headerOf. now rewrite <- !app_assoc. } { easy. }
  change (length tokenPrefix) with 5%nat in E5. rewrite E5.
  destruct (drop_suffix (start + 5) value ds ("_"%char :: rest) E5 Hne) as [_ E6].
  destruct (digits_scanned ds ("_"%char :: rest) Hd eq_refl) as (size & Es & Hs). cbv zeta. rewrite Es, E6.
  rewrite headerOf_length in *. unfold fieldBad. destruct ds as [|c ds]; [easy|]. cbn [app]. pose proof Hd as Hd'.
  rewrite all_digits_cons in Hd'. apply andb_true_iff in Hd' as [Hc _]. rewrite Hc. cbn [negb]. rewrite Ascii.eqb_refl. cbn [negb].
  replace (start + 5 + length (c :: ds) + 1)%nat with (start + (6 + length (c :: ds)))%nat by lia.
  destruct (Z.ltb_spec maxEncodedLen (digits_value (c :: ds))) as [Ho|Ho]; [reflexivity|]. rewrite (Hs Ho). cbn [orb].
  change (EncodedLen redactionCiphertextOverhead) with 22.
  replace (Z.of_nat (length value) - Z.of_nat (start + (6 + length (c :: ds)))) with (Z.of_nat (length rest)) by lia. reflexivity.
Qed.

(** Nothing that starts like a token but is not one. *)
Lemma parse_none value start ds rest : drop start value = tokenPrefix ++ ds ++ rest -> all_digits ds = true -> digitsEnd rest ->
  ds = [] \/ match rest with c :: _ => c <> "_"%char | [] => True end -> parseRedactionCandidate value start = noCandidate.
Proof.
  intros E Hd Hr Hcase. unfold parseRedactionCandidate. rewrite E, has_prefix_app. cbn [negb].
  destruct (drop_suffix start value tokenPrefix (ds ++ rest) E ltac:(easy)) as [_ E5]. change (length tokenPrefix) with 5%nat in E5.
  rewrite E5. destruct (digits_scanned ds rest Hd Hr) as (size & Es & _). cbv zeta. destruct ds as [|c ds].
  { cbn [app]. destruct rest as [|c rest]; [reflexivity|]. now rewrite (Hr : is_digit c = false). }
  destruct (drop_suffix (start + 5) value (c :: ds) rest E5 ltac:(easy)) as [_ E6]. rewrite Es, E6. cbn [app].
  rewrite all_digits_cons in Hd. apply andb_true_iff in Hd as [Hc _]. rewrite Hc. cbn [negb].
  destruct rest as [|d rest]; [reflexivity|]. destruct Hcase as [Hcase|Hcase]; [easy|]. now rewrite (proj2 (Ascii.eqb_neq d "_") Hcase).
Qed.

(** What the token with this header opens to, when enough of the text follows. *)
Definition openToken (k : Siv) (ds rest : list ascii) : option (list ascii) :=
  let size := digits_value ds in
  if fieldBad maxEncodedLen ds || (size <? 22) || (Z.of_nat (length rest) <? size) then None
  else
    let encoded := take (Z.to_nat size) rest in
    if negb (forallb redactionBase64URLByte encoded) then None
    else match decode64 encoded with
         | None => None
         | Some data => if Z.of_nat (length data) <? redactionCiphertextOverhead then None else k.(DecryptDeterministically) data (headerOf ds)
         end.

(** How many bytes behind the header are left as they are when it does not open. *)
Definition keptBytes (ds rest : list ascii) : nat :=
  if fieldBad maxEncodedLen ds then 0%nat else leading redactionBase64URLByte (take (Z.to_nat (digits_value ds)) rest).

Section Opened.
Context (k : Siv) (value : list ascii) (start : nat) (ds rest : list ascii).
Context (Hat : drop start value = headerOf ds ++ rest) (Hd : all_digits ds = true) (Hne : ds <> []).

Lemma decrypt_header : decryptCandidate k value start (parseRedactionCandidate value start) = openToken k ds rest.
Proof using Hat Hd Hne.
  rewrite (parse_header _ _ _ _ Hat Hd Hne). cbv zeta. unfold decryptCandidate, openToken.
  destruct (fieldBad maxEncodedLen ds); [reflexivity|]. cbn [found malformed negb orb].
  destruct (_ || _); [reflexivity|]. cbn [headerEnd cd_end]. pose proof (digits_value_range ds Hd).
  unfold slice. replace (Z.to_nat _ - _)%nat with (Z.to_nat (digits_value ds)) by lia.
  rewrite (proj2 (drop_suffix _ _ _ _ Hat ltac:(easy))), Hat.
  replace (start + length (headerOf ds) - start)%nat with (length (headerOf ds)) by lia. now rewrite take_app_length.
Qed.

Lemma kept_header : unrestoredCandidateEnd value (parseRedactionCandidate value start) = (start + length (headerOf ds) + keptBytes ds rest)%nat.
Proof using Hat Hd Hne.
  rewrite (parse_header _ _ _ _ Hat Hd Hne). cbv zeta. unfold unrestoredCandidateEnd, keptBytes.
  destruct (fieldBad maxEncodedLen ds); cbn [badHeader headerEnd]; [lia|]. cbn [cd_end]. do 2 f_equal.
  pose proof (digits_value_range ds Hd). destruct (drop_suffix _ _ _ _ Hat ltac:(easy)) as [Hl Hr].
  unfold slice. rewrite Hr. destruct (Z.le_ge_cases (digits_value ds) (Z.of_nat (length rest))).
  - f_equal. lia.
  - rewrite !take_ge by lia. reflexivity.
Qed.
End Opened.

(** ** The restored text *)

(** The digits at the start of a text and the rest. *)
Definition splitDigits (l : list ascii) : list ascii * list ascii := (take (leading is_digit l) l, drop (leading is_digit l) l).

Lemma splitDigits_spec l ds rest : splitDigits l = (ds, rest) -> l = ds ++ rest /\ all_digits ds = true /\ digitsEnd rest.
Proof.
  intros [= <- <-]. rewrite take_drop. split; [reflexivity|]. induction l as [|c l IH]; [easy|]. cbn [leading].
  destruct (is_digit c) eqn:Ec; cbn [take drop]; [|easy]. now rewrite all_digits_cons, Ec.
Qed.

Lemma splitDigits_app ds rest : all_digits ds = true -> digitsEnd rest -> splitDigits (ds ++ rest) = (ds, rest).
Proof.
  intros Hd Hr. unfold splitDigits. assert (leading is_digit (ds ++ rest) = length ds) as ->.
  { induction ds as [|c ds IH]; cbn [app leading].
    - destruct rest as [|c rest]; [reflexivity|]. cbn [leading]. now rewrite (Hr : is_digit c = false).
    - rewrite all_digits_cons in Hd. apply andb_true_iff in Hd as [Hc Hd]. rewrite Hc. cbn. now rewrite IH. }
  now rewrite take_app_length, drop_app_length.
Qed.

(** What becomes of a text: the restored text, how many candidates were met and how many
    were left as they are, and whether a length field is valid only for a stream. *)
Record outcome := mkOutcome { o_text : list ascii; o_tokens : Z; o_unrestored : Z; o_gap : bool }.

Definition join (a b : outcome) : outcome :=
  mkOutcome (a.(o_text) ++ b.(o_text)) (a.(o_tokens) + b.(o_tokens)) (a.(o_unrestored) + b.(o_unrestored)) (a.(o_gap) || b.(o_gap)).

Definition plain (l : list ascii) : outcome := mkOutcome l 0 0 false.

Definition fieldGap (ds : list ascii) : bool :=
  negb (Bool.eqb (fieldBad maxEncodedLen ds) (fieldBad maxRedactionStreamPendingBytes ds)).

(** One candidate: its outcome, and the bytes behind its header that belong to it. *)
Definition candidate (k : Siv) (ds rest : list ascii) : outcome * nat :=
  match openToken k ds rest with
  | Some p => (mkOutcome p 1 0 (fieldGap ds), Z.to_nat (digits_value ds))
  | None => (mkOutcome (headerOf ds ++ take (keptBytes ds rest) rest) 1 1 (fieldGap ds), keptBytes ds rest)
  end.

Fixpoint restoredLoop (fuel : nat) (k : Siv) (l : list ascii) : outcome :=
  match fuel with
  | O => plain l
  | S fuel =>
    match index_of tokenPrefix l with
    | None => plain l
    | Some r =>
      let body := drop (r + 5) l in
      match splitDigits body with
      | (d :: ds, c :: rest) =>
        if Ascii.eqb c "_" then
          let '(o, n) := candidate k (d :: ds) rest in join (join (plain (take r l)) o) (restoredLoop fuel k (drop n rest))
        else join (plain (take (r + 5) l)) (restoredLoop fuel k body)
      | _ => join (plain (take (r + 5) l)) (restoredLoop fuel k body)
      end
    end
  end.

Definition restored (k : Siv) (l : list ascii) : outcome := restoredLoop (S (length l)) k l.

Lemma outcome_eq a b : a.(o_text) = b.(o_text) -> a.(o_tokens) = b.(o_tokens) -> a.(o_unrestored) = b.(o_unrestored) ->
  a.(o_gap) = b.(o_gap) -> a = b.
Proof. destruct a, b. cbn. now intros -> -> -> ->. Qed.

Lemma join_assoc a b c : join (join a b) c = join a (join b c).
Proof. apply outcome_eq; cbn; [now rewrite app_assoc|lia|lia|now rewrite orb_assoc]. Qed.

Lemma join_plain a b : join (plain a) (plain b) = plain (a ++ b).
Proof. reflexivity. Qed.

Lemma join_nil o : join (plain []) o = o.
Proof. now apply outcome_eq. Qed.

Lemma restoredLoop_fuel k : forall fuel fuel' l, (length l < fuel)%nat -> (length l < fuel')%nat ->
  restoredLoop fuel k l = restoredLoop fuel' k l.
Proof.
  induction fuel as [|fuel IH]; intros [|fuel'] l H1 H2; [lia..|]. cbn [restoredLoop].
  destruct (index_of tokenPrefix l) as [r|] eqn:Er; [|reflexivity]. apply index_of_some in Er as (Hr & Hp & _).
  apply has_prefix_true in Hp. apply (f_equal length) in Hp. rewrite length_app, !length_drop in Hp. change (length tokenPrefix) with 5%nat in Hp.
  cbv zeta. destruct (splitDigits (drop (r + 5) l)) as [ds rest] eqn:Es. apply splitDigits_spec in Es as (Es & _ & _).
  apply (f_equal length) in Es. rewrite length_drop, length_app in Es.
  assert (Hb : restoredLoop fuel k (drop (r + 5) l) = restoredLoop fuel' k (drop (r + 5) l)) by (apply IH; rewrite length_drop; lia).
  destruct ds as [|d ds]; [now rewrite Hb|]. destruct rest as [|c rest]; [now rewrite Hb|]. destruct (Ascii.eqb c "_"); [|now rewrite Hb].
  destruct (candidate k (d :: ds) rest) as [o n]. f_equal. cbn [length] in Es. apply IH; rewrite length_drop; lia.
Qed.

(** One round of the search, as an equation. *)
Lemma restored_unfold k l : restored k l =
  match index_of tokenPrefix l with
  | None => plain l
  | Some r =>
    let body := drop (r + 5) l in
    match splitDigits body with
    | (d :: ds, c :: rest) =>
      if Ascii.eqb c "_" then let '(o, n) := candidate k (d :: ds) rest in join (join (plain (take r l)) o) (restored k (drop n rest))
      else join (plain (take (r + 5) l)) (restored k body)
    | _ => join (plain (take (r + 5) l)) (restored k body)
    end
  end.
Proof.
  unfold restored at 1. cbn [restoredLoop]. destruct (index_of tokenPrefix l) as [r|] eqn:Er; [|reflexivity].
  apply index_of_some in Er as (Hr & Hp & _).
  apply has_prefix_true in Hp. apply (f_equal length) in Hp. rewrite length_app, !length_drop in Hp. change (length tokenPrefix) with 5%nat in Hp.
  cbv zeta. destruct (splitDigits (drop (r + 5) l)) as [ds rest] eqn:Es. apply splitDigits_spec in Es as (Es & _ & _).
  apply (f_equal length) in Es. rewrite length_drop, length_app in Es. unfold restored.
  assert (Hb : restoredLoop (length l) k (drop (r + 5) l) = restoredLoop (S (length (drop (r + 5) l))) k (drop (r + 5) l))
    by (apply restoredLoop_fuel; rewrite length_drop; lia).
  destruct ds as [|d ds]; [now rewrite Hb|]. destruct rest as [|c rest]; [now rewrite Hb|]. destruct (Ascii.eqb c "_"); [|now rewrite Hb].
  destruct (candidate k (d :: ds) rest) as [o n]. f_equal. cbn [length] in Es. apply restoredLoop_fuel; rewrite length_drop; lia.
Qed.

Lemma restored_none k l : index_of tokenPrefix l = None -> restored k l = plain l.
Proof. intros H. now rewrite restored_unfold, H. Qed.

(** A stretch in which no candidate starts is copied. *)
Lemma restored_skip k n l : (n <= length l)%nat -> (forall i, (i < n)%nat -> has_prefix tokenPrefix (drop i l) = false) ->
  restored k l = join (plain (take n l)) (restored k (drop n l)).
Proof.
  intros Hn Hno. rewrite (restored_unfold k l), (restored_unfold k (drop n l)), (index_of_skip tokenPrefix n l Hn Hno).
  destruct (index_of tokenPrefix (drop n l)) as [r|] eqn:Er; cbn [fmap option_fmap option_map]; [|now rewrite join_plain, take_drop].
  cbv zeta. rewrite <- Nat.add_assoc, <- drop_drop, <- !take_take_drop, <- !join_plain.
  destruct (splitDigits _) as [[|d ds] [|c rest]]; rewrite ?join_assoc; try reflexivity.
  destruct (Ascii.eqb c "_"); [|reflexivity]. destruct (candidate _ _ _). now rewrite !join_assoc.
Qed.

(** The same with the copied part in front. *)
Lemma restored_plain k a l : (forall i, (i < length a)%nat -> has_prefix tokenPrefix (drop i (a ++ l)) = false) ->
  restored k (a ++ l) = join (plain a) (restored k l).
Proof.
  intros Hno. rewrite (restored_skip k (length a)); [|rewrite length_app; lia|exact Hno]. now rewrite take_app_length, drop_app_length.
Qed.

(** The rounds at a header and at something like one. *)
Lemma index_at_prefix l : index_of tokenPrefix (tokenPrefix ++ l) = Some 0%nat.
Proof. destruct l; reflexivity. Qed.

Lemma restored_header k ds rest : all_digits ds = true -> ds <> [] ->
  restored k (headerOf ds ++ rest) = join (candidate k ds rest).1 (restored k (drop (candidate k ds rest).2 rest)).
Proof.
  intros Hd Hne. rewrite restored_unfold. unfold headerOf at 1. rewrite <- app_assoc, index_at_prefix. cbv zeta.
  replace (drop (0 + 5) (headerOf ds ++ rest)) with (ds ++ "_"%char :: rest) by (unfold headerOf; now rewrite <- !app_assoc).
  rewrite splitDigits_app by easy. destruct ds as [|d ds]; [easy|]. cbn [take]. rewrite Ascii.eqb_refl.
  destruct (candidate k (d :: ds) rest). now rewrite join_nil.
Qed.

Lemma digit_not_g c : is_digit c = true -> c <> "g"%char.
Proof. intros Hc ->. discriminate. Qed.

Lemma restored_no_header k ds rest : all_digits ds = true -> digitsEnd rest ->
  ds = [] \/ match rest with c :: _ => c <> "_"%char | [] => True end ->
  restored k (tokenPrefix ++ ds ++ rest) = join (plain (tokenPrefix ++ ds)) (restored k rest).
Proof.
  intros Hd Hr Hcase. rewrite restored_unfold, index_at_prefix. cbv zeta.
  change (drop (0 + 5) (tokenPrefix ++ ds ++ rest)) with (ds ++ rest). change (take (0 + 5) (tokenPrefix ++ ds ++ rest)) with tokenPrefix.
  assert (Hplain : restored k (ds ++ rest) = join (plain ds) (restored k rest)).
  { apply restored_plain. intros i Hi. apply no_prefix_at; [|exact Hi]. intros Hin. unfold all_digits in Hd. rewrite forallb_forall in Hd.
    now apply (digit_not_g _ (Hd _ Hin)). }
  rewrite splitDigits_app by easy. rewrite <- join_plain, join_assoc, <- Hplain.
  destruct ds as [|d ds]; [reflexivity|]. destruct rest as [|c rest]; [reflexivity|].
  destruct Hcase as [Hcase|Hcase]; [easy|]. now rewrite (proj2 (Ascii.eqb_neq c "_") Hcase).
Qed.

(** ** [RestoreText] *)

Lemma candidate_tokens k ds rest : 0 <= (candidate k ds rest).1.(o_tokens).
Proof. unfold candidate. destruct (openToken k ds rest); cbn; lia. Qed.

Lemma restored_tokens k : forall n l, (length l < n)%nat -> 0 <= (restored k l).(o_tokens).
Proof.
  induction n as [|n IH]; intros l Hl; [lia|]. rewrite restored_unfold. destruct (index_of tokenPrefix l) as [r|] eqn:Er; [|cbn; lia].
  apply index_of_some in Er as (Hr & Hp & _).
  apply has_prefix_true in Hp. apply (f_equal length) in Hp. rewrite length_app, !length_drop in Hp. change (length tokenPrefix) with 5%nat in Hp.
  cbv zeta. destruct (splitDigits (drop (r + 5) l)) as [ds rest] eqn:Es. apply splitDigits_spec in Es as (Es & _ & _).
  apply (f_equal length) in Es. rewrite length_drop, length_app in Es.
  assert (Hb : 0 <= (restored k (drop (r + 5) l)).(o_tokens)) by (apply IH; rewrite length_drop; lia).
  destruct ds as [|d ds]; [cbn [join plain o_tokens]; lia|]. destruct rest as [|c rest]; [cbn [join plain o_tokens]; lia|].
  destruct (Ascii.eqb c "_"); [|cbn [join plain o_tokens]; lia].
  pose proof (candidate_tokens k (d :: ds) rest). destruct (candidate k (d :: ds) rest) as [o m]. cbn [length] in Es.
  assert (0 <= (restored k (drop m rest)).(o_tokens)) by (apply IH; rewrite length_drop; lia).
  cbn [join plain o_tokens fst] in *. lia.
Qed.

Lemma slice_rest (l : list ascii) i j : (i <= j)%nat -> slice l i j ++ drop j l = drop i l.
Proof.
  intros Hij. unfold slice. rewrite <- (take_drop (j - i) (drop i l)) at 2. rewrite drop_drop. do 2 f_equal. lia.
Qed.

Lemma openToken_size k ds rest p : openToken k ds rest = Some p ->
  fieldBad maxEncodedLen ds = false /\ 22 <= digits_value ds <= Z.of_nat (length rest).
Proof.
  unfold openToken. cbv zeta. destruct (fieldBad maxEncodedLen ds); [discriminate|]. cbn [orb].
  destruct (Z.ltb_spec (digits_value ds) 22); [discriminate|]. destruct (Z.ltb_spec (Z.of_nat (length rest)) (digits_value ds)); [discriminate|].
  intros _. split; [reflexivity|lia].
Qed.

Lemma keptBytes_le ds rest : (keptBytes ds rest <= length rest)%nat.
Proof.
  unfold keptBytes. destruct (fieldBad _ _); [lia|].
  assert (Hl : forall l : list ascii, (leading redactionBase64URLByte l <= length l)%nat)
    by (induction l as [|c l IH]; cbn; [lia|]; destruct (redactionBase64URLByte c); lia).
  etransitivity; [apply Hl|]. rewrite length_take. lia.
Qed.

Lemma slice_split (l : list ascii) i j n : (i <= j <= n)%nat -> slice l i j ++ slice l j n = slice l i n.
Proof. apply slice_app. Qed.

(** What the loop of the source gives at a position for the outcome of the rest of the text. *)
Definition loopGives (value : list ascii) (res : Z * option (nat * list ascii)) (scan last : nat) (tokens unrestored : Z) (out : list ascii)
    (o : outcome) : Prop :=
  if tokens + o.(o_tokens) <=? maxRedactionTokensPerText
  then exists last' out', res = (unrestored + o.(o_unrestored), Some (last', out')) /\
         out' ++ drop last' value = out ++ slice value last scan ++ o.(o_text)
  else res.2 = None.

Lemma gives_copied value res scan scan' last tokens unrestored out t u g o : (last <= scan <= scan')%nat ->
  loopGives value res scan' last (tokens + t) (unrestored + u) out o ->
  loopGives value res scan last tokens unrestored out (join (mkOutcome (slice value scan scan') t u g) o).
Proof.
  intros Hs. unfold loopGives. cbn [join o_tokens o_unrestored o_text]. rewrite !Z.add_assoc. destruct (_ <=? _); [|auto].
  intros (last' & out' & E1 & E2). exists last', out'. split; [exact E1|]. rewrite E2, <- (slice_split value last scan scan') by lia.
  now rewrite <- app_assoc.
Qed.

Lemma gives_token value res scan start ends last tokens unrestored out p g o : (last <= scan <= start)%nat ->
  loopGives value res ends ends (tokens + 1) unrestored (out ++ slice value last start ++ p) o ->
  loopGives value res scan last tokens unrestored out (join (join (plain (slice value scan start)) (mkOutcome p 1 0 g)) o).
Proof.
  intros Hs. unfold loopGives. cbn [join plain o_tokens o_unrestored o_text]. rewrite !Z.add_0_l, Z.add_assoc. destruct (_ <=? _); [|auto].
  intros (last' & out' & E1 & E2). exists last', out'. split; [exact E1|]. rewrite E2, <- (slice_split value last scan start) by lia.
  replace (slice value ends ends) with (@nil ascii) by (unfold slice; now rewrite Nat.sub_diag). now rewrite <- !app_assoc.
Qed.

Lemma slice_at value scan r : slice value scan (scan + r) = take r (drop scan value).
Proof. unfold slice. f_equal. lia. Qed.

(** The loop of the source computes the outcome, from any position on. *)
Lemma restoreLoop_exact k value : forall fuel scan last tokens unrestored out,
  (last <= scan <= length value)%nat -> (length value - scan < fuel)%nat -> tokens <= maxRedactionTokensPerText ->
  loopGives value (restoreLoop fuel k value scan last tokens unrestored out) scan last tokens unrestored out (restored k (drop scan value)).
Proof.
  induction fuel as [|fuel IH]; intros scan last tokens unrestored out Hscan Hfuel Htok; [lia|].
  assert (Hcopy : loopGives value (unrestored, Some (last, out)) scan last tokens unrestored out (plain (drop scan value))).
  { unfold loopGives. cbn [plain o_tokens o_unrestored o_text]. rewrite !Z.add_0_r, (proj2 (Z.leb_le _ _)) by exact Htok.
    exists last, out. split; [reflexivity|]. f_equal. symmetry. apply slice_rest. lia. }
  destruct (Nat.leb_spec (length value) scan) as [Hend|Hend].
  { cbn [restoreLoop]. rewrite (proj2 (Nat.leb_le _ _) Hend). rewrite drop_ge in * by lia. now rewrite restored_none. }
  rewrite restored_unfold. destruct (index_of tokenPrefix (drop scan value)) as [r|] eqn:Er0;
    [|cbn [restoreLoop]; now rewrite (proj2 (Nat.leb_gt _ _) Hend), Er0]. clear Hcopy.
  pose proof Er0 as (Hr & Hp & _)%index_of_some. rewrite drop_drop in Hp. apply has_prefix_true in Hp. rewrite drop_drop in Hp.
  change (length tokenPrefix) with 5%nat in Hp. cbv zeta. rewrite drop_drop, Nat.add_assoc.
  destruct (drop_suffix _ _ _ _ Hp ltac:(easy)) as [Hlen _]. change (length tokenPrefix) with 5%nat in Hlen.
  rewrite length_drop in Hlen. rewrite <- !slice_at. rewrite Nat.add_assoc.
  destruct (splitDigits (drop (scan + r + 5) value)) as [ds rest] eqn:Es. apply splitDigits_spec in Es as (Es & Hd & Hde).
  rewrite Es in Hp.
  assert (Hplain : ds = [] \/ match rest with c :: _ => c <> "_"%char | [] => True end ->
    loopGives value (restoreLoop (S fuel) k value scan last tokens unrestored out) scan last tokens unrestored out
      (join (plain (slice value scan (scan + r + 5))) (restored k (drop (scan + r + 5) value)))).
  { intros Hcase. cbn [restoreLoop]. rewrite (proj2 (Nat.leb_gt _ _) Hend), Er0, (parse_none _ _ _ _ Hp Hd Hde Hcase).
    cbn [found noCandidate negb]. apply gives_copied; [lia|]. rewrite !Z.add_0_r. apply IH; lia. }
  destruct ds as [|d ds]; [exact (Hplain (or_introl eq_refl))|]. destruct rest as [|c rest]; [exact (Hplain (or_intror I))|].
  destruct (Ascii.eqb_spec c "_") as [->|Hc]; [|exact (Hplain (or_intror Hc))]. clear Hplain Hde.
  assert (Hh : drop (scan + r) value = headerOf (d :: ds) ++ rest) by (rewrite Hp; unfold headerOf; now rewrite <- !app_assoc).
  destruct (drop_suffix _ _ _ _ Hh ltac:(easy)) as [Hl2 Hrest].
  cbn [restoreLoop]. rewrite (proj2 (Nat.leb_gt _ _) Hend), Er0.
  rewrite (decrypt_header k _ _ _ _ Hh Hd ltac:(easy)), (kept_header _ _ _ _ Hh Hd ltac:(easy)), (parse_header _ _ _ _ Hh Hd ltac:(easy)).
  cbv zeta. set (bad := fieldBad maxEncodedLen (d :: ds)) in *.
  replace (found _) with true by (now destruct bad). cbn [negb]. unfold candidate.
  destruct (openToken k (d :: ds) rest) as [p|] eqn:Eo.
  - apply openToken_size in Eo as [Hbad Hsize]. fold bad in Hbad. rewrite Hbad. cbn [cd_end].
    set (ends := (scan + r + length (headerOf (d :: ds)) + Z.to_nat (digits_value (d :: ds)))%nat).
    replace (Z.to_nat _) with ends by (unfold ends; lia).
    replace (drop (Z.to_nat (digits_value (d :: ds))) rest) with (drop ends value) by (unfold ends; rewrite <- drop_drop; now rewrite Hrest).
    destruct (Z.ltb_spec maxRedactionTokensPerText (tokens + 1)) as [Hm|Hm].
    + unfold loopGives. pose proof (restored_tokens k _ (drop ends value) (Nat.lt_succ_diag_r _)).
      cbn [join plain o_tokens]. rewrite (proj2 (Z.leb_gt _ _)) by lia. reflexivity.
    + apply gives_token with (ends := ends); [lia|]. apply IH; unfold ends; lia.
  - pose proof (keptBytes_le (d :: ds) rest) as Hkb. set (n := keptBytes (d :: ds) rest) in *.
    set (ends := (scan + r + length (headerOf (d :: ds)) + n)%nat).
    replace (drop n rest) with (drop ends value) by (unfold ends; rewrite <- drop_drop; now rewrite Hrest).
    replace (headerOf (d :: ds) ++ take n rest) with (slice value (scan + r) ends).
    2:{ rewrite <- (slice_split value (scan + r) (scan + r + length (headerOf (d :: ds))) ends) by (unfold ends; lia).
        rewrite slice_at, Hh, take_app_length. f_equal. unfold ends. now rewrite slice_at, Hrest. }
    replace (join (plain (slice value scan (scan + r))) (mkOutcome (slice value (scan + r) ends) 1 1 (fieldGap (d :: ds))))
      with (mkOutcome (slice value scan ends) 1 1 (fieldGap (d :: ds))).
    2:{ apply outcome_eq; cbn; [now rewrite slice_split by (unfold ends; lia)|reflexivity..]. }
    destruct (Z.ltb_spec maxRedactionTokensPerText (tokens + 1)) as [Hm|Hm].
    + unfold loopGives. pose proof (restored_tokens k _ (drop ends value) (Nat.lt_succ_diag_r _)).
      cbn [join plain o_tokens]. rewrite (proj2 (Z.leb_gt _ _)) by lia. reflexivity.
    + pose proof (headerOf_length (d :: ds)). apply gives_copied; [unfold ends; lia|]. apply IH; unfold ends; lia.
Qed.

(** [RestoreText] is the restored text, unless there are too many candidates. *)
Lemma RestoreText_exact k value :
  if (restored k value).(o_tokens) <=? maxRedactionTokensPerText
  then RestoreText k value = ((restored k value).(o_unrestored), Some (restored k value).(o_text))
  else (RestoreText k value).2 = None.
Proof.
  pose proof (restoreLoop_exact k value (S (length value)) 0 0 0 0 [] ltac:(lia) ltac:(lia) ltac:(now vm_compute)) as H.
  unfold loopGives in H. rewrite drop_0, !Z.add_0_l in H. unfold RestoreText. destruct (_ <=? _).
  - destruct H as (last & out & -> & E). cbn [app] in E. change (slice value 0 0) with (@nil ascii) in E. cbn [app] in E.
    f_equal. f_equal. rewrite <- E. destruct ((last =? 0)%nat && isEmpty out) eqn:El; [|reflexivity].
    apply andb_true_iff in El as [->%Nat.eqb_eq Ho]. now destruct out.
  - destruct (restoreLoop _ _ _ _ _ _ _ _) as [u [[last out]|]]; cbn in *; [discriminate|reflexivity].
Qed.

(** ** Tokens *)

(** What is encrypted under a header decrypts under it. *)
Definition sivLaw (k : Siv) : Prop :=
  forall plaintext header ciphertext, k.(EncryptDeterministically) plaintext header = Some ciphertext ->
    k.(DecryptDeterministically) ciphertext header = Some plaintext.

Lemma maxEncodedLen_value : maxEncodedLen = 22369643.
Proof. now vm_compute. Qed.

Lemma fieldBad_false limit c l : c <> "0"%char -> 1 <= digits_value (c :: l) <= limit -> fieldBad limit (c :: l) = false.
Proof.
  intros Hc Hv. unfold fieldBad. rewrite (proj2 (Z.ltb_ge _ _)), (proj2 (Z.eqb_neq _ _)), (proj2 (Ascii.eqb_neq _ _) Hc) by lia. apply andb_false_r.
Qed.

(** The token of a text stands for the text, whatever follows. *)
Lemma token_opens k plaintext token : sivLaw k -> EncryptToken k plaintext = Some token ->
  exists ds body, token = headerOf ds ++ body /\ all_digits ds = true /\ ds <> [] /\
    forall rest, candidate k ds (body ++ rest) = (mkOutcome plaintext 1 0 false, length body).
Proof.
  intros Hlaw. unfold EncryptToken. destruct (Z.ltb_spec maxRedactionPlaintextBytes (Z.of_nat (length plaintext))) as [|Hmax]; [discriminate|].
  cbv zeta. destruct (EncodedLen_bounds (Z.of_nat (length plaintext)) ltac:(lia)) as [Hlo Hhi].
  set (n := EncodedLen _) in *. destruct (format_int_field n ltac:(lia)) as (c & l & Ef & Hc & Hd & Hv).
  destruct (EncryptDeterministically k plaintext (tokenHeader n)) as [ciphertext|] eqn:Ec; [|discriminate].
  destruct (Z.eqb_spec (Z.of_nat (length ciphertext)) (Z.of_nat (length plaintext) + redactionCiphertextOverhead)) as [El|]; [|discriminate].
  cbn [negb]. intros [= <-]. exists (c :: l), (encode64 ciphertext).
  assert (Eh : tokenHeader n = headerOf (c :: l)) by (unfold tokenHeader, headerOf; now rewrite Ef).
  split; [rewrite <- Eh; reflexivity|]. split; [exact Hd|]. split; [easy|]. intros rest.
  pose proof (base64_length ciphertext) as Hlen. rewrite El in Hlen. fold n in Hlen.
  unfold candidate, openToken, fieldGap. rewrite Hv. rewrite !fieldBad_false by (rewrite ?Hv, ?maxEncodedLen_value in *; unfold maxRedactionStreamPendingBytes; auto; lia).
  rewrite (proj2 (Z.ltb_ge _ _)), (proj2 (Z.ltb_ge _ _)) by (rewrite ?length_app; lia). cbn [orb].
  replace (Z.to_nat n) with (length (encode64 ciphertext)) by lia.
  rewrite take_app_length, base64_bytes, base64_roundtrip. cbn [negb]. rewrite (proj2 (Z.ltb_ge _ _)) by (unfold redactionCiphertextOverhead in *; lia).
  rewrite <- Eh, (Hlaw _ _ _ Ec). reflexivity.
Qed.

Lemma restored_token k plaintext token rest : sivLaw k -> EncryptToken k plaintext = Some token ->
  restored k (token ++ rest) = join (mkOutcome plaintext 1 0 false) (restored k rest).
Proof.
  intros Hlaw He. destruct (token_opens _ _ _ Hlaw He) as (ds & body & -> & Hd & Hne & Ho).
  rewrite <- app_assoc, (restored_header k ds (body ++ rest) Hd Hne), (Ho rest). cbn [fst snd]. now rewrite drop_app_length.
Qed.

(** The cipher ends tokens inside the text, as redaction relies on. *)
Lemma redactionCipher_law k : cipherLaw (redactionCipher k).
Proof.
  intros value start ends. cbn [ValidTokenAt redactionCipher]. unfold ValidToken. cbv zeta.
  destruct (has_prefix tokenPrefix (drop start value)) eqn:Hp.
  2:{ unfold parseRedactionCandidate. rewrite Hp. discriminate. }
  apply has_prefix_true in Hp. destruct (splitDigits (drop (length tokenPrefix) (drop start value))) as [ds rest] eqn:Es.
  apply splitDigits_spec in Es as (Es & Hd & Hde). rewrite Es in Hp.
  assert (Hnone : ds = [] \/ match rest with c :: _ => c <> "_"%char | [] => True end ->
    decryptCandidate k value start (parseRedactionCandidate value start) = None) by (intros Hc; now rewrite (parse_none _ _ _ _ Hp Hd Hde Hc)).
  destruct ds as [|d ds]; [rewrite (Hnone (or_introl eq_refl)); discriminate|].
  destruct rest as [|c rest]; [rewrite (Hnone (or_intror I)); discriminate|].
  destruct (Ascii.eqb_spec c "_") as [->|Hc]; [|rewrite (Hnone (or_intror Hc)); discriminate]. clear Hnone.
  assert (Hh : drop start value = headerOf (d :: ds) ++ rest) by (rewrite Hp; unfold headerOf; now rewrite <- !app_assoc).
  rewrite (decrypt_header k _ _ _ _ Hh Hd ltac:(easy)). destruct (openToken k (d :: ds) rest) as [p|] eqn:Eo; [|discriminate].
  apply openToken_size in Eo as [Hbad Hsize]. rewrite (parse_header _ _ _ _ Hh Hd ltac:(easy)). cbv zeta. rewrite Hbad. cbn [cd_end].
  intros Hx. apply Some_inj in Hx as <-. destruct (drop_suffix _ _ _ _ Hh ltac:(easy)) as [Hl _]. pose proof (headerOf_length (d :: ds)). lia.
Qed.

(** ** Redaction and restoration *)

Section RoundTrip.
Context `{RegexpLaws} (k : Siv) (Hlaw : sivLaw k).

(** Every replaced part is the token of its text. *)
Definition encryptedPieces (pieces : list piece) : Prop := forall rule b r, In (Redacted rule b r) pieces -> EncryptToken k b = Some r.

(** No token starts in [a], which the text does not contain, when a token follows. *)
Lemma token_after a token rest i : index_of tokenPrefix a = None -> (exists ds body, token = headerOf ds ++ body) ->
  (i < length a)%nat -> has_prefix tokenPrefix (drop i (a ++ token ++ rest)) = false.
Proof.
  intros Hno (ds & body & ->) Hi. destruct (has_prefix tokenPrefix (drop i (a ++ _))) eqn:E; [|reflexivity]. exfalso.
  pose proof (index_of_none _ _ Hno i) as Hn. rewrite drop_app_le in E by lia.
  assert (Hlen : (0 < length (drop i a))%nat) by (rewrite length_drop; lia). unfold headerOf in E. rewrite <- !app_assoc in E.
  change tokenPrefix with ["g"; "l"; "d"; "1"; "_"]%char in *.
  destruct (drop i a) as [|c1 [|c2 [|c3 [|c4 [|c5 l]]]]]; cbn -[Ascii.eqb] in E, Hn, Hlen; [lia|..]; 
    repeat (apply andb_true_iff in E as [? E]); try discriminate; congruence || (repeat match goal with Hx : Ascii.eqb _ _ = true |- _ => rewrite Hx in Hn; clear Hx end; discriminate).
Qed.

Lemma pieces_restored pieces : forall a, encryptedPieces pieces -> index_of tokenPrefix (a ++ concat (map original pieces)) = None ->
  restored k (a ++ concat (map rewritten pieces)) =
    mkOutcome (a ++ concat (map original pieces)) (Z.of_nat (redactedCount pieces)) 0 false.
Proof.
  induction pieces as [|[b|rule b r] pieces IH]; intros a He Hno; cbn [map concat original rewritten redactedCount] in *.
  - rewrite app_nil_r in *. now rewrite restored_none.
  - rewrite !app_assoc in *. apply IH; [|exact Hno]. intros rule b' r Hin. apply (He rule). now right.
  - assert (Er : EncryptToken k b = Some r) by (apply (He rule); now left).
    assert (Hsub : forall a b : list ascii, index_of tokenPrefix (a ++ b) = None -> index_of tokenPrefix a = None /\ index_of tokenPrefix b = None).
    { intros a' b' Hx. pose proof (index_of_none _ _ Hx) as Hn. split.
      - destruct (index_of tokenPrefix a') as [n|] eqn:En; [exfalso|reflexivity]. apply index_of_some in En as (Hle & Hp & _).
        specialize (Hn n). rewrite drop_app_le in Hn by lia. apply has_prefix_true in Hp. rewrite Hp, <- app_assoc, has_prefix_app in Hn. discriminate.
      - destruct (index_of tokenPrefix b') as [n|] eqn:En; [exfalso|reflexivity]. apply index_of_some in En as (_ & Hp & _).
        specialize (Hn (length a' + n)%nat). rewrite <- drop_drop, drop_app_length, Hp in Hn. discriminate. }
    destruct (Hsub _ _ Hno) as [Ha Hb]. destruct (Hsub _ _ Hb) as [_ Hb'].
    destruct (token_opens _ _ _ Hlaw Er) as (ds & body & Et & _).
    rewrite restored_plain by (intros i Hi; apply token_after; [exact Ha|now exists ds, body|exact Hi]).
    rewrite (restored_token _ _ _ _ Hlaw Er).
    assert (He' : encryptedPieces pieces) by (intros rule' b' r' Hin; apply (He rule'); now right).
    specialize (IH [] He' Hb'). cbn [app] in IH. rewrite IH. apply outcome_eq; cbn [join plain o_text o_tokens o_unrestored o_gap]; try reflexivity. lia.
Qed.

(** The outcome of a redacted text: the text, with one token per replaced part. *)
Lemma redacted_outcome c value out : Forall (fun r => encrypts r.1 = true) c -> index_of tokenPrefix value = None ->
  TextWithCipher c value (Some (redactionCipher k)) = Some out ->
  exists n, Z.of_nat n <= maxRedactionTokensPerText /\ restored k out = mkOutcome value (Z.of_nat n) 0 false.
Proof using Hlaw H0.
  intros Hall Hno Hw.
  assert (Hp : exists pieces, concat (map original pieces) = value /\ concat (map rewritten pieces) = out /\ encryptedPieces pieces /\
                 Z.of_nat (redactedCount pieces) <= maxDocumentPatches).
  { unfold TextWithCipher in Hw. destruct (isEmpty c) eqn:Ec.
    { injection Hw as <-. exists [Kept value]. cbn. rewrite app_nil_r. repeat split; [now intros rule b r [|]|now vm_compute]. }
    destruct (authenticatedTokenSpans _ _); [|discriminate].
    apply rewriteText_exact in Hw as (pieces & H1' & H2' & H3' & _ & _ & H6'). exists pieces. repeat split; auto. intros rule b r Hin.
    destruct (H3' _ _ _ Hin) as [Hr Hrep]. unfold replacementOf, ruleOf in Hrep.
    destruct (lookup_lt_is_Some_2 c rule Hr) as [[r' p] Hl]. change (@lookup nat _ Compiled _ rule c = Some (r', p)) in Hl. rewrite Hl in Hrep.
    rewrite Forall_lookup in Hall. pose proof (Hall rule (r', p) Hl) as He. cbn [fst] in He. rewrite He in Hrep. exact Hrep. }
  destruct Hp as (pieces & H1' & H2' & H3' & H4'). pose proof (pieces_restored pieces [] H3') as Hr. cbn [app] in Hr.
  rewrite H1', H2' in Hr. exists (redactedCount pieces). split; [exact H4'|now apply Hr].
Qed.

(** [C10] Redaction that encrypts is undone by restoration.  When every rule encrypts and the
    text holds nothing that looks like a token, restoring the redacted text under the same
    key gives the text back byte for byte, and no candidate is left unrestored. *)
Theorem redacted_text_restores c value out : Forall (fun r => encrypts r.1 = true) c -> index_of tokenPrefix value = None ->
  TextWithCipher c value (Some (redactionCipher k)) = Some out -> RestoreText k out = (0, Some value).
Proof using Hlaw H0.
  intros Hall Hno Hw. destruct (redacted_outcome c value out Hall Hno Hw) as (n & Hn & Ho). pose proof (RestoreText_exact k out) as He.
  rewrite Ho in He. cbn [o_tokens o_unrestored o_text] in He. now rewrite (proj2 (Z.leb_le _ _)) in He.
Qed.
End RoundTrip.

(** ** Witness *)

(** A cipher that marks its ciphertexts. *)
Definition mark : list ascii := repeat "000"%char 16.
Definition sampleSiv : Siv :=
  mkSiv (fun plaintext _ => Some (mark ++ plaintext)) (fun data _ => if bool_decide (take 16 data = mark) then Some (drop 16 data) else None).

Lemma sampleSiv_law : sivLaw sampleSiv.
Proof. intros p h c [= <-]. cbn [sampleSiv DecryptDeterministically]. now rewrite bool_decide_eq_true_2. Qed.

#[local] Existing Instances byteExpressions byteExpressions_laws.

Definition encryptX : Compiled := [(mkRule "x" "" ModeEncrypt, "x"%char)].
Definition redactedX : list ascii := bytes "agld1_23_AAAAAAAAAAAAAAAAAAAAAHgb".

Lemma redacted_text_restores_witness : TextWithCipher encryptX (bytes "axb") (Some (redactionCipher sampleSiv)) = Some redactedX /\
  RestoreText sampleSiv redactedX = (0, Some (bytes "axb")).
Proof.
  assert (E : TextWithCipher encryptX (bytes "axb") (Some (redactionCipher sampleSiv)) = Some redactedX) by (vm_compute; reflexivity).
  split; [exact E|]. apply (redacted_text_restores sampleSiv sampleSiv_law encryptX (bytes "axb") redactedX).
  - constructor; [reflexivity|constructor].
  - reflexivity.
  - exact E.
Defined.

End TokensProps.
