(* ===== verification/TokenStreamProps.v ===== *)
(** * Restoration of a streamed text, theorems

    However a text is cut into pieces, restoring it as it arrives gives what [RestoreText]
    gives for the whole, and a text that was redacted comes back. *)

From Stdlib Require Import ZArith Lia Bool String Ascii List.
From stdpp Require Import base gmap sets list strings.
From coqutil Require Import Datatypes.RecordSettersUsingExistingGetters.
From S2P Require Import Prelude GoStrings Execution Contracts Headers Redact RedactProps Tokens TokenStream TokensProps.

Local Open Scope Z_scope.
Local Open Scope go_scope.

Module TokenStreamProps.
Import Execution Contracts Headers Redact RedactProps Tokens TokenStream TokensProps.

(** The restoration the gateway installs, without the count. *)
Definition restoreBy (k : Siv) (l : list ascii) : option (list ascii) := (RestoreText k l).2.

(** ** What a stream holds back *)






(** ** Steps *)






(** ** Candidates *)







Section Steps.
Context `{JsonText} (k : Siv).












(** ** Pieces of text *)











(** ** Whole texts *)

(** The pieces of a text one after the other, then its end. *)
Fixpoint pushAll (t : redactionTokenStream) (pieces : list (list ascii)) (out : list ascii) : streamed (redactionTokenStream * list ascii) :=
  match pieces with
  | [] => Ok (t, out)
  | piece :: rest => let? r := pushString (restoreBy k) t piece false out in pushAll r.1 rest r.2
  end.

Definition streamText (pieces : list (list ascii)) : streamed (list ascii) :=
  let? r := pushAll (emptyStream 0) pieces [] in let? f := finish (restoreBy k) r.1 in Ok (r.2 ++ f.2).




End Steps.

(** A length field that only the stream takes for valid hides a token behind it: the whole
    text is restored, but the stream ends with an error when the body breaks off. *)
Lemma hidden_token_breaks_stream : let text := bytes "gld1_30000000_gld1_23_AAAAAAAAAAAAAAAAAAAAAHg " in
  RestoreText sampleSiv text = (1, Some (bytes "gld1_30000000_x ")) /\ streamText (H := Build_JsonText id) sampleSiv [text] = Err errRedactionStream.
Proof. split; vm_compute; reflexivity. Qed.

(** ** Witness *)

#[local] Instance sampleJsonText : JsonText := Build_JsonText id.



End TokenStreamProps.
