(* ===== verification/Snapshot.v ===== *)
(** * Configuration snapshots

    [internal/state/snapshot.go]: the compiler of a published configuration, with its
    validation, the index of execution candidates, the views of groups and access keys, and
    the sort orders; and [internal/state/manager.go]: publication, revisions and the update
    channel.

    Maps of the result are finite maps, the candidate index is the nested association list
    the scheduler reads.  A map of the input is the list of its entries in the order one
    iteration visits them.  Copies of values are the values themselves. *)

From Stdlib Require Import ZArith Lia Bool String Ascii List Permutation Sorted.
From stdpp Require Import base gmap sets list strings sorting.
From coqutil Require Import Datatypes.RecordSettersUsingExistingGetters.
From S2P Require Import Prelude GoStrings Money Credential Ledger Quota Execution Contracts Headers Scheduler Forward Settings Channel.
From S2P Require Import Proxy Overrides AutoModel ClientModels Redact.

Local Open Scope Z_scope.
Local Open Scope go_scope.

Module Snapshot.
Import Execution Contracts Headers Ledger Scheduler Settings Channel Proxy.

(** ** Input *)

Record GroupConfig := mkGroupConfig {
  gc_Priority : Z;
  gc_PriceMultiplier : option Z;
  gc_ID : Z;
  gc_Name : string;
  gc_ChannelID : string;
  gc_ConnectionType : string;
  gc_Params : list ascii;
  gc_ValidationProtocol : Protocol;  (* [ProtocolOther ""]: none *)
  gc_ValidationModel : string;
  gc_Models : list ModelConfig;
  gc_Settings : Settings;
  gc_WeightManual : option Z;
  gc_Enabled : bool;
  gc_Proxy : option ProxyConfig;
}.

Record CredentialConfig := mkCredentialConfig {
  cc_ID : Z;
  cc_GroupID : Z;
  cc_Status : Credential.CredentialStatus;
  cc_WeightManual : option Z;
  cc_Version : Z;
  cc_IdentityGeneration : Z;
  cc_Fingerprint : string;
}.

(** [netip.Prefix]: an address of 32 or 128 bits (of width 0 when invalid) and a length. *)
Record Prefix := mkPrefix { pf_Width : Z; pf_Address : Z; pf_Bits : Z }.
#[export] Instance Prefix_eq_dec : EqDecision Prefix.
Proof. solve_decision. Defined.

Record AccessKeyConfig := mkAccessKeyConfig {
  kc_ConcurrencyLimit : option Z;
  kc_KeyPrefix : string;
  kc_PriceMultiplier : option Z;
  kc_ID : Z;
  kc_Name : string;
  kc_KeyHash : string;
  kc_KeySuffix : string;
  kc_Status : AccessKeyStatus;
  kc_Filters : FilterSet;
  kc_ExpiresAtMS : option Z;
  kc_AllowedPeerCIDRs : list Prefix;
  kc_RPMLimit : Z;
  kc_CostLimitRules : list Quota.Rule;
  kc_Note : string;
}.

Record CompileInput := mkInput {
  RequestRedaction : list Redact.Rule;
  in_Jev : option AutoModel.JevConfig;
  in_RequestAudit : option AutoModel.AuditConfig;
  in_AutoModel : option AutoModel.AutoConfig;
  SystemSettings : Settings;
  ChannelRegistry : option Registry;
  in_Groups : list GroupConfig;
  in_Credentials : list CredentialConfig;
  in_AccessKeys : list AccessKeyConfig;
  in_ClientModelOverrides : list (string * ClientModels.ClientModelOverrides);
  in_GlobalProxy : option ProxyConfig;
  EnvironmentProxy : option ProxyConfig;
}.

(** ** Output *)

Record GroupView := mkGroupView {
  sg_Priority : Z;
  sg_ConcurrencyLimit : Z;
  sg_PriceMultiplier : Z;
  sg_ID : Z;
  sg_Name : string;
  sg_ChannelID : string;
  sg_ConnectionType : string;
  sg_Params : list ascii;
  sg_ResolvedTarget : Target;
  sg_ValidationProtocol : Protocol;
  sg_ValidationModel : string;
  sg_ClientProtocols : list Protocol;
  sg_Models : list ModelConfig;
  sg_Timeouts : TimeoutConfig;
  sg_HeaderRules : HeaderRules;
  sg_BlacklistThreshold : Z;
  sg_AffinityEnabled : bool;
  sg_ResponsesWebsocketEnabled : bool;
  sg_EmptyResponseRetry : bool;
  sg_WeightManual : option Z;
  sg_Proxy : Effective;
  sg_ParameterOverrides : Overrides.Rules;
}.

Record GroupCatalogEntry := mkCatalogEntry {
  ge_Priority : Z;
  ge_ID : Z;
  ge_Name : string;
  ge_ChannelID : string;
  ge_ConnectionType : string;
  ge_Enabled : bool;
  ge_WeightManual : option Z;
}.

Record AccessKeyView := mkKeyView {
  kv_ConcurrencyLimit : Z;
  kv_KeyPrefix : string;
  kv_PriceMultiplier : Z;
  kv_ID : Z;
  kv_Name : string;
  kv_KeySuffix : string;
  kv_Status : AccessKeyStatus;
  kv_Filters : FilterSet;
  kv_ExpiresAtMS : option Z;
  kv_AllowedPeerCIDRs : list Prefix;
  kv_RPMLimit : Z;
  kv_CostLimitRules : list Quota.Rule;
}.

Inductive SnapshotError :=
| InvalidInput (what : string) (id : Z)
| UnknownGroupChannel (group : Z)
| GroupChannel (group : Z) (e : ChannelError)
| UnsupportedRoute (group : Z)
| SettingsInvalid (e : SettingError)
| GroupSettingsInvalid (group : Z) (e : SettingError)
| QuotaInvalid (e : Quota.QuotaError)
| CurrencyMismatch (key rule : Z)
| RedactionInvalid | JevInvalid | AuditInvalid
| DependencyBroken (e : AutoModel.DependencyError)
| AutoModelInvalid (e : AutoModel.AutoError)
| ProxyInvalid (group : Z).

Abbreviation snapshotted := (result SnapshotError).

(** The result of one part, its error wrapped. *)
Definition wrapped {E A} (f : E -> SnapshotError) (r : result E A) : snapshotted A := match r with Ok a => Ok a | Err e => Err (f e) end.
Definition required {A} (e : SnapshotError) (o : option A) : snapshotted A := match o with Some a => Ok a | None => Err e end.

(** ** Validation *)

Definition maxSafeAccessKeyEpochMS : Z := 9007199254740991.

(** Where a prefix is valid, is not an IPv4 address mapped into IPv6, and has no bit set
    beyond its length. *)
Definition prefixAccepted (p : Prefix) : bool :=
  ((p.(pf_Width) =? 32) || (p.(pf_Width) =? 128)) && (0 <=? p.(pf_Bits)) && (p.(pf_Bits) <=? p.(pf_Width)) &&
  negb ((p.(pf_Width) =? 128) && (Z.shiftr p.(pf_Address) 32 =? 65535)) &&
  (let host := p.(pf_Width) - p.(pf_Bits) in Z.shiftl (Z.shiftr p.(pf_Address) host) host =? p.(pf_Address)).

Fixpoint prefixesAccepted (seen : list Prefix) (prefixes : list Prefix) : bool :=
  match prefixes with
  | [] => true
  | p :: rest => prefixAccepted p && negb (bool_decide (p ∈ seen)) && prefixesAccepted (p :: seen) rest
  end.

Definition validateAllowedPeerCIDRs (prefixes : list Prefix) : bool := (length prefixes <=? 64)%nat && prefixesAccepted [] prefixes.

Definition validateFilterSet (filters : FilterSet) : bool :=
  forallb protocolValid filters.(filter_Protocols) && forallb (fun m => negb (emptyText (trimmedText m))) (elements filters.(filter_Models)).

Definition validateClientModel (entry : string * ClientModels.ClientModelOverrides) : option SnapshotError :=
  let '(name, o) := entry in
  err_if (negb (utf8_valid (bytes name)) || emptyText name || negb (String.eqb (trimmedText name) name)) (InvalidInput "client model name" 0) ;;!
  err_if (present (ClientModels.ValidateOverrides o)) (InvalidInput "client model override" 0) ;;!
  err_if (ClientModels.OverridesEmpty o) (InvalidInput "client model override is empty" 0).

Definition invalidMultiplier (m : option Z) : bool := match m with Some v => negb (Money.MultiplierValid v) | None => false end.

(** The pairs of external and upstream name a group maps. *)
Definition mapping (m : ModelConfig) : string * string := (externalModelName m, trimmedText m.(model_ID)).

Fixpoint validateModels (group : Z) (seen : list (string * string)) (models : list ModelConfig) : option SnapshotError :=
  match models with
  | [] => None
  | m :: rest =>
    err_if (emptyText (trimmedText m.(model_ID))) (InvalidInput "model id" group) ;;!
    err_if (bool_decide (mapping m ∈ seen)) (InvalidInput "duplicate model" group) ;;!
    validateModels group (mapping m :: seen) rest
  end.

Section Validate.
Context `{UrlParsers} `{ObjectCodec}.

(** The check of one group against the channel registry. *)
Definition validateGroupChannel (registry : option Registry) (g : GroupConfig) : option SnapshotError :=
  let id := g.(gc_ID) in
  let connectionType := trimmedText g.(gc_ConnectionType) in
  match registry with
  | None => Some (InvalidInput "channel registry" id)
  | Some registry =>
    err_if (emptyText g.(gc_ChannelID)) (InvalidInput "channel id" id) ;;!
    err_if (negb (present (Channel.Get registry g.(gc_ChannelID)))) (UnknownGroupChannel id) ;;!
    err_if (negb (SupportsConnectionType registry g.(gc_ChannelID) connectionType)) (InvalidInput "connection type" id) ;;!
    match Channel.Resolve registry g.(gc_ChannelID) g.(gc_Params) with
    | Err e => Some (GroupChannel id e)
    | Ok target =>
      err_if (negb (bool_decide (g.(gc_ValidationProtocol) = ProtocolOther "")) &&
              (negb (present (TargetMode target g.(gc_ValidationProtocol) OperationProbe)) || String.eqb connectionType "subscription"))
        (InvalidInput "validation protocol" id)
    end
  end.

Fixpoint validateGroups (registry : option Registry) (seen : list Z) (groups : list GroupConfig) : option SnapshotError :=
  match groups with
  | [] => None
  | g :: rest =>
    let id := g.(gc_ID) in
    err_if (id =? 0) (InvalidInput "group id" id) ;;!
    err_if (bool_decide (id ∈ seen)) (InvalidInput "duplicate group id" id) ;;!
    err_if (invalidMultiplier g.(gc_PriceMultiplier)) (InvalidInput "price multiplier" id) ;;!
    validateGroupChannel registry g ;;!
    err_if (Credential.manualWeightInvalid g.(gc_WeightManual)) (InvalidInput "weight" id) ;;!
    validateModels id [] g.(gc_Models) ;;!
    validateGroups registry (id :: seen) rest
  end.

Fixpoint validateCredentials (groupIDs seen : list Z) (credentials : list CredentialConfig) : option SnapshotError :=
  match credentials with
  | [] => None
  | c :: rest =>
    let id := c.(cc_ID) in
    err_if (id =? 0) (InvalidInput "credential id" id) ;;!
    err_if (bool_decide (id ∈ seen)) (InvalidInput "duplicate credential id" id) ;;!
    err_if (c.(cc_GroupID) =? 0) (InvalidInput "credential group" id) ;;!
    err_if (negb (bool_decide (c.(cc_GroupID) ∈ groupIDs))) (InvalidInput "unknown credential group" id) ;;!
    err_if (negb (Credential.statusValid c.(cc_Status))) (InvalidInput "credential status" id) ;;!
    err_if (Credential.manualWeightInvalid c.(cc_WeightManual)) (InvalidInput "credential weight" id) ;;!
    err_if (c.(cc_Version) =? 0) (InvalidInput "credential version" id) ;;!
    err_if (c.(cc_IdentityGeneration) =? 0) (InvalidInput "credential generation" id) ;;!
    err_if (emptyText (trimmedText c.(cc_Fingerprint))) (InvalidInput "credential fingerprint" id) ;;!
    validateCredentials groupIDs (id :: seen) rest
  end.

Definition outOfRange (o : option Z) (greatest : Z) : bool := match o with Some v => (v <? 0) || (greatest <? v) | None => false end.

Fixpoint validateAccessKeys (seen : list Z) (hashes : list string) (keys : list AccessKeyConfig) : option SnapshotError :=
  match keys with
  | [] => None
  | k :: rest =>
    let id := k.(kc_ID) in
    err_if (id =? 0) (InvalidInput "access key id" id) ;;!
    err_if (bool_decide (id ∈ seen)) (InvalidInput "duplicate access key id" id) ;;!
    err_if (invalidMultiplier k.(kc_PriceMultiplier)) (InvalidInput "access key multiplier" id) ;;!
    err_if (outOfRange k.(kc_ConcurrencyLimit) maxJSONSafeInteger) (InvalidInput "access key concurrency" id) ;;!
    err_if (k.(kc_RPMLimit) <? 0) (InvalidInput "access key rpm" id) ;;!
    err_if (outOfRange k.(kc_ExpiresAtMS) maxSafeAccessKeyEpochMS) (InvalidInput "access key expiry" id) ;;!
    err_if (negb (validateAllowedPeerCIDRs k.(kc_AllowedPeerCIDRs))) (InvalidInput "access key peers" id) ;;!
    err_if (match k.(kc_Status) with AccessKeyStatusOther _ => true | _ => false end) (InvalidInput "access key status" id) ;;!
    err_if (emptyText (trimmedText k.(kc_KeyHash))) (InvalidInput "access key hash" id) ;;!
    err_if (bool_decide (k.(kc_KeyHash) ∈ hashes)) (InvalidInput "duplicate access key hash" id) ;;!
    err_if (negb (validateFilterSet k.(kc_Filters))) (InvalidInput "access key filters" id) ;;!
    validateAccessKeys (id :: seen) (k.(kc_KeyHash) :: hashes) rest
  end.

(** The rules of the keys that have any. *)
Definition quotaDefinitions (keys : list AccessKeyConfig) : list (Z * list Quota.Rule) :=
  map (fun k => (k.(kc_ID), k.(kc_CostLimitRules))) (List.filter (fun k => negb (isEmpty k.(kc_CostLimitRules))) keys).

Fixpoint first_of {A E} (f : A -> option E) (l : list A) : option E :=
  match l with [] => None | a :: rest => f a ;;! first_of f rest end.

Definition validateCompileInput (input : CompileInput) : option SnapshotError :=
  first_of validateClientModel input.(in_ClientModelOverrides) ;;!
  validateGroups input.(ChannelRegistry) [] input.(in_Groups) ;;!
  validateCredentials (map gc_ID input.(in_Groups)) [] input.(in_Credentials) ;;!
  validateAccessKeys [] [] input.(in_AccessKeys) ;;!
  QuotaInvalid <$> Quota.ValidateDefinitions (quotaDefinitions input.(in_AccessKeys)).

End Validate.

Definition validateCostLimitCurrency (keys : list AccessKeyConfig) (currency : string) : option SnapshotError :=
  first_of (fun k => first_of (fun r => err_if (negb (String.eqb r.(Quota.Currency) currency)) (CurrencyMismatch k.(kc_ID) r.(Quota.ID)))
                       k.(kc_CostLimitRules)) keys.

(** ** The candidate index *)

(** [m[k] = f(m[k])], a missing entry reading as [zero]. *)
Fixpoint alterKey {K V} `{EqDecision K} (k : K) (zero : V) (f : V -> V) (l : list (K * V)) : list (K * V) :=
  match l with
  | [] => [(k, f zero)]
  | (k', v) :: rest => if decide (k' = k) then (k', f v) :: rest else (k', v) :: alterKey k zero f rest
  end.

Definition appendExecutionTarget (index : ExecutionCandidateIndex) (p : Protocol) (o : Operation) (externalModel : string) (t : RouteTarget)
    : ExecutionCandidateIndex :=
  alterKey p [] (alterKey o [] (alterKey externalModel [] (fun targets => targets ++ [t]))) index.

(** How an operation is routed: not at all, without a model, by model, or both ways. *)
Inductive Routing := NotRouted | WithoutModel | ByModel | BothWays | Unroutable.

Definition routingOf (o : Operation) : Routing :=
  match o with
  | OperationListModels | OperationProbe => NotRouted
  | OperationResponsesRetrieve | OperationResponsesDelete | OperationResponsesCancel | OperationResponsesInputItems => WithoutModel
  | OperationResponsesPassthrough => BothWays
  | OperationChatCompletion | OperationResponsesCreate | OperationResponsesCompact | OperationResponsesInputTokens
  | OperationWebSearch | OperationCountTokens | OperationImagesGenerate | OperationImagesEdit | OperationEmbeddingsCreate
  | OperationRerank | OperationDecisionsCreate => ByModel
  | OperationOther _ => Unroutable
  end.

(** One target to append: protocol, operation, external model. *)
Definition placed : Type := Protocol * Operation * string * RouteTarget.

Definition resourceTarget (g : GroupConfig) (t : Target) (mode : RouteMode) : RouteTarget :=
  mkRoute g.(gc_ID) "" mode (schedulerTarget t).

Fixpoint modelTargets (g : GroupConfig) (t : Target) (p : Protocol) (o : Operation) (models : list ModelConfig) : snapshotted (list placed) :=
  match models with
  | [] => Ok []
  | m :: rest =>
    match ModeForModel t p o m.(model_ID) with
    | None => Err (UnsupportedRoute g.(gc_ID))
    | Some mode =>
      let? more := modelTargets g t p o rest in
      Ok ((p, o, externalModelName m, mkRoute g.(gc_ID) (trimmedText m.(model_ID)) mode (schedulerTarget t)) :: more)
    end
  end.

(** The targets of one operation of one protocol. *)
Definition operationTargets (g : GroupConfig) (t : Target) (p : Protocol) (o : Operation) : snapshotted (list placed) :=
  match routingOf o with
  | NotRouted => Ok []
  | routing =>
    match TargetMode t p o with
    | None => Err (UnsupportedRoute g.(gc_ID))
    | Some mode =>
      let resource := [(p, o, NoModelRouteKey, resourceTarget g t mode)] in
      match routing with
      | WithoutModel => Ok resource
      | BothWays => let? models := modelTargets g t p o g.(gc_Models) in Ok (resource ++ models)
      | ByModel => modelTargets g t p o g.(gc_Models)
      | _ => Err (UnsupportedRoute g.(gc_ID))
      end
    end
  end.

Fixpoint concatOk {A B E} (f : A -> result E (list B)) (l : list A) : result E (list B) :=
  match l with [] => Ok [] | a :: rest => let? b := f a in let? more := concatOk f rest in Ok (b ++ more) end.

Section Index.
Context `{UrlParsers} `{ObjectCodec}.

(** Everything [appendExecutionTargets] appends for a group, in order. *)
Definition groupTargets (registry : Registry) (g : GroupConfig) : snapshotted (list placed) :=
  let? target := wrapped (GroupChannel g.(gc_ID)) (Channel.Resolve registry g.(gc_ChannelID) g.(gc_Params)) in
  let? descriptor := required (UnknownGroupChannel g.(gc_ID)) (Channel.Get registry g.(gc_ChannelID)) in
  if isEmpty g.(gc_Models) then Ok []
  else concatOk (fun p => concatOk (operationTargets g target p) (Operations target p)) descriptor.(ClientProtocols).

Definition place (index : ExecutionCandidateIndex) (e : placed) : ExecutionCandidateIndex :=
  let '(p, o, m, t) := e in appendExecutionTarget index p o m t.

Definition appendExecutionTargets (index : ExecutionCandidateIndex) (registry : Registry) (g : GroupConfig)
    : snapshotted ExecutionCandidateIndex :=
  let? targets := groupTargets registry g in Ok (foldl place index targets).

(** Native targets first, then by group and upstream model. *)
Definition routeLess (left right : RouteTarget) : bool :=
  if negb (bool_decide (left.(route_Mode) = right.(route_Mode))) then bool_decide (left.(route_Mode) = RouteNative)
  else if negb (left.(route_GroupID) =? right.(route_GroupID)) then left.(route_GroupID) <? right.(route_GroupID)
  else String.ltb left.(UpstreamModelID) right.(UpstreamModelID).

Definition routeOrder (left right : RouteTarget) : Prop := routeLess right left = false.
#[export] Instance routeOrder_dec : RelDecision routeOrder.
Proof. intros l r. unfold routeOrder. apply _. Defined.

Definition sortExecutionRouteIndex (index : ExecutionCandidateIndex) : ExecutionCandidateIndex :=
  map (fun e => (e.1, map (fun e => (e.1, map (fun e => (e.1, merge_sort routeOrder e.2)) e.2)) e.2)) index.

(** ** Access keys *)

Definition newAccessKeyView (k : AccessKeyConfig) (defaultConcurrencyLimit : Z) : AccessKeyView := {|
  kv_ConcurrencyLimit := default defaultConcurrencyLimit k.(kc_ConcurrencyLimit);
  kv_KeyPrefix := k.(kc_KeyPrefix);
  kv_PriceMultiplier := default Money.DefaultPriceMultiplier k.(kc_PriceMultiplier);
  kv_ID := k.(kc_ID); kv_Name := k.(kc_Name); kv_KeySuffix := k.(kc_KeySuffix); kv_Status := k.(kc_Status);
  kv_Filters := k.(kc_Filters); kv_ExpiresAtMS := k.(kc_ExpiresAtMS); kv_AllowedPeerCIDRs := k.(kc_AllowedPeerCIDRs);
  kv_RPMLimit := k.(kc_RPMLimit); kv_CostLimitRules := Quota.sortRules k.(kc_CostLimitRules) |}.

Definition UserDefaultKeyNamePrefix : string := "ly:default:".

Definition addUserDefaultKey (index : gmap string Z) (k : AccessKeyConfig) : gmap string Z :=
  if negb (has_prefix (bytes UserDefaultKeyNamePrefix) (bytes k.(kc_Name))) || emptyText k.(kc_Note) then index
  else <[k.(kc_Note) := k.(kc_ID)]> index.

Record keyIndexes := mkKeyIndexes { byID : gmap Z AccessKeyView; byHash : gmap string AccessKeyView; userDefaults : gmap string Z }.

Definition addAccessKey (defaultLimit : Z) (s : keyIndexes) (k : AccessKeyConfig) : keyIndexes :=
  let view := newAccessKeyView k defaultLimit in
  let s := s <| byID := <[k.(kc_ID) := view]> s.(byID) |> in
  if bool_decide (k.(kc_Status) = AccessKeyStatusActive)
  then s <| byHash := <[k.(kc_KeyHash) := view]> s.(byHash) |> <| userDefaults := addUserDefaultKey s.(userDefaults) k |>
  else s.

(** ** Compiling *)

Record ConfigSnapshot := mkConfigSnapshot {
  sn_RequestRedaction : list Redact.Rule;
  sn_Jev : AutoModel.JevConfig;
  sn_RequestAudit : AutoModel.AuditConfig;
  sn_AutoModels : AutoModel.CompiledAuto;
  sn_Revision : Z;
  sn_Settings : RuntimeSettings;
  sn_ExecutionCandidates : ExecutionCandidateIndex;
  sn_ExecutionRouteCatalog : ExecutionCandidateIndex;
  sn_Groups : gmap Z GroupView;
  sn_AccessKeysByHash : gmap string AccessKeyView;
  sn_GroupCatalog : gmap Z GroupCatalogEntry;
  sn_AccessKeysByID : gmap Z AccessKeyView;
  sn_ClientModelOverrides : list (string * ClientModels.ClientModelOverrides);
  sn_GlobalProxy : Effective;
  sn_UserDefaultKeys : gmap string Z;
}.

Context `{Redact.Regexps} `{AutoModel.ConfigJson} `{Overrides.OverrideJson} (redactionSize : list Redact.Rule -> option Z).

(** The compiler of parameter overrides, as a parser of one setting. *)
Definition overridesSetting (value : AnyValue) : parsed Overrides.Rules :=
  match Overrides.CompileOverrides value with Ok rules => Ok rules | Err _ => Err (Invalid "parameter_overrides") end.

(** The models of enabled groups that the decision route serves, by external name. *)
Definition decisionModelsOf (registry : Registry) (g : GroupConfig) : list string :=
  if negb g.(gc_Enabled) then []
  else match Channel.Resolve registry g.(gc_ChannelID) g.(gc_Params) with
       | Err _ => []
       | Ok target =>
         map externalModelName (List.filter (fun m => present (ModeForModel target Decisions OperationDecisionsCreate m.(model_ID))) g.(gc_Models))
       end.

Definition ordinaryModels (groups : list GroupConfig) : gset string :=
  list_to_set (concat (map (fun g => map externalModelName g.(gc_Models)) groups)).
Definition decisionModels (registry : Registry) (groups : list GroupConfig) : gset string :=
  list_to_set (concat (map (decisionModelsOf registry) groups)).

(** Whether the shared decision route exists: an enabled group of that id serves it. *)
Definition jevAvailable (registry : Registry) (groups : list GroupConfig) (shared : AutoModel.JevConfig) : bool :=
  existsb (fun g => (g.(gc_ID) =? shared.(AutoModel.jev_GroupID)) && existsb (String.eqb shared.(AutoModel.jev_Model)) (decisionModelsOf registry g))
    groups.

(** The check of the decision connection against the features that need it. *)
Definition jevDependency (registry : Registry) (groups : list GroupConfig) (shared : AutoModel.JevConfig) (auto audit : bool) : option SnapshotError :=
  let broken reason features :=
    DependencyBroken (AutoModel.mkDependency reason features shared.(AutoModel.jev_GroupID) shared.(AutoModel.jev_Model) "" "") in
  err_if (audit && ((shared.(AutoModel.jev_GroupID) =? 0) || emptyText shared.(AutoModel.jev_Model)))
    (broken AutoModel.JevRouteRequired ["request_audit"]%string) ;;!
  err_if ((auto || audit) && negb (shared.(AutoModel.jev_GroupID) =? 0) && negb (jevAvailable registry groups shared))
    (broken AutoModel.JevRouteUnavailable
       ((if auto then ["auto_model"%string] else []) ++ (if audit then ["request_audit"%string] else []))).

Definition catalogEntry (g : GroupConfig) : GroupCatalogEntry :=
  mkCatalogEntry g.(gc_Priority) g.(gc_ID) g.(gc_Name) g.(gc_ChannelID) (trimmedText g.(gc_ConnectionType)) g.(gc_Enabled) g.(gc_WeightManual).

Record groupIndexes := mkGroupIndexes {
  gi_Catalog : gmap Z GroupCatalogEntry;
  gi_RouteCatalog : ExecutionCandidateIndex;
  gi_Groups : gmap Z GroupView;
  gi_Candidates : ExecutionCandidateIndex;
}.

(** The view of an enabled group. *)
Definition groupView (registry : Registry) (g : GroupConfig) (resolved : ResolvedGroupSettings Overrides.Rules) (proxy : Effective)
    : snapshotted GroupView :=
  let? params := wrapped (GroupChannel g.(gc_ID)) (ValidateParams registry g.(gc_ChannelID) g.(gc_Params)) in
  let? target := wrapped (GroupChannel g.(gc_ID)) (Channel.Resolve registry g.(gc_ChannelID) g.(gc_Params)) in
  let protocols := match Channel.Get registry g.(gc_ChannelID) with Some d => d.(ClientProtocols) | None => [] end in
  Ok {| sg_Priority := g.(gc_Priority); sg_ConcurrencyLimit := resolved.(rg_ConcurrencyLimit);
        sg_PriceMultiplier := default Money.DefaultPriceMultiplier g.(gc_PriceMultiplier); sg_ID := g.(gc_ID); sg_Name := g.(gc_Name);
        sg_ChannelID := g.(gc_ChannelID); sg_ConnectionType := trimmedText g.(gc_ConnectionType); sg_Params := canonicalJSON params;
        sg_ResolvedTarget := target; sg_ValidationProtocol := g.(gc_ValidationProtocol);
        sg_ValidationModel := trimmedText g.(gc_ValidationModel); sg_ClientProtocols := protocols; sg_Models := g.(gc_Models);
        sg_Timeouts := resolved.(rg_Timeouts); sg_HeaderRules := resolved.(rg_HeaderRules);
        sg_BlacklistThreshold := resolved.(rg_BlacklistThreshold); sg_AffinityEnabled := resolved.(rg_AffinityEnabled);
        sg_ResponsesWebsocketEnabled := resolved.(rg_ResponsesWebsocketEnabled); sg_EmptyResponseRetry := resolved.(rg_EmptyResponseRetry);
        sg_WeightManual := g.(gc_WeightManual); sg_Proxy := proxy; sg_ParameterOverrides := resolved.(rg_ParameterOverrides) |}.

(** One round of the loop over the groups. *)
Definition addGroup (registry : Registry) (input : CompileInput) (settings : RuntimeSettings) (s : groupIndexes) (g : GroupConfig)
    : snapshotted groupIndexes :=
  let s := s <| gi_Catalog := <[g.(gc_ID) := catalogEntry g]> s.(gi_Catalog) |> in
  let? routes := appendExecutionTargets s.(gi_RouteCatalog) registry g in
  let s := s <| gi_RouteCatalog := routes |> in
  let? resolved := wrapped (GroupSettingsInvalid g.(gc_ID)) (ResolveGroupRuntimeSettings [] overridesSetting settings g.(gc_Settings)) in
  let? proxy := wrapped (fun _ => ProxyInvalid g.(gc_ID)) (ResolveProxy None g.(gc_Proxy) input.(in_GlobalProxy) input.(EnvironmentProxy)) in
  if negb g.(gc_Enabled) then Ok s
  else
    let? view := groupView registry g resolved proxy in
    let? candidates := appendExecutionTargets s.(gi_Candidates) registry g in
    Ok (s <| gi_Candidates := candidates |> <| gi_Groups := <[g.(gc_ID) := view]> s.(gi_Groups) |>).

Fixpoint groupsLoop (registry : Registry) (input : CompileInput) (settings : RuntimeSettings) (s : groupIndexes) (groups : list GroupConfig)
    : snapshotted groupIndexes :=
  match groups with
  | [] => Ok s
  | g :: rest => let? s := addGroup registry input settings s g in groupsLoop registry input settings s rest
  end.

(** Without groups a nil registry is never read. *)
Definition CompileSnapshot (input : CompileInput) : snapshotted ConfigSnapshot :=
  match validateCompileInput input with
  | Some e => Err e
  | None =>
    let registry := default [] input.(ChannelRegistry) in
    let? settings := wrapped SettingsInvalid (ResolveRuntimeSettings input.(SystemSettings)) in
    match validateCostLimitCurrency input.(in_AccessKeys) settings.(rs_Currency).(Money.Code) with
    | Some e => Err e
    | None =>
      let? _ := required RedactionInvalid (Redact.CompileRules redactionSize input.(RequestRedaction)) in
      let auto := default AutoModel.autoDefault input.(in_AutoModel) in
      let? shared := required JevInvalid (AutoModel.jevDecode (default AutoModel.jevDefault input.(in_Jev))) in
      let auto := AutoModel.mkAuto auto.(AutoModel.auto_Enabled) shared.(AutoModel.jev_Model) shared.(AutoModel.jev_TimeoutSeconds) auto.(AutoModel.Models) in
      let? audit := required AuditInvalid (AutoModel.auditDecode (default AutoModel.auditDefault input.(in_RequestAudit))) in
      match jevDependency registry input.(in_Groups) shared auto.(AutoModel.auto_Enabled) audit.(AutoModel.au_Enabled) with
      | Some e => Err e
      | None =>
        let? autoModels :=
          wrapped AutoModelInvalid (AutoModel.CompileAuto auto (ordinaryModels input.(in_Groups)) (decisionModels registry input.(in_Groups))) in
        let? globalProxy := wrapped (fun _ => ProxyInvalid 0) (ResolveProxy None None input.(in_GlobalProxy) input.(EnvironmentProxy)) in
        let? groups := groupsLoop registry input settings (mkGroupIndexes ∅ [] ∅ []) input.(in_Groups) in
        let keys := foldl (addAccessKey settings.(DefaultAccessKeyConcurrencyLimit)) (mkKeyIndexes ∅ ∅ ∅) input.(in_AccessKeys) in
        Ok {| sn_RequestRedaction := input.(RequestRedaction); sn_Jev := shared; sn_RequestAudit := audit; sn_AutoModels := autoModels;
              sn_Revision := 0; sn_Settings := settings; sn_ExecutionCandidates := sortExecutionRouteIndex groups.(gi_Candidates);
              sn_ExecutionRouteCatalog := sortExecutionRouteIndex groups.(gi_RouteCatalog); sn_Groups := groups.(gi_Groups);
              sn_AccessKeysByHash := keys.(byHash); sn_GroupCatalog := groups.(gi_Catalog); sn_AccessKeysByID := keys.(byID);
              sn_ClientModelOverrides := input.(in_ClientModelOverrides); sn_GlobalProxy := globalProxy;
              sn_UserDefaultKeys := keys.(userDefaults) |}
      end
    end
  end.

(** The rules of every key that has some, for the quota runtime. *)
Definition AccessQuotaDefinitions (s : option ConfigSnapshot) : gmap Z (list Quota.Rule) :=
  match s with
  | None => ∅
  | Some s => omap (fun v => if isEmpty v.(kv_CostLimitRules) then None else Some v.(kv_CostLimitRules)) s.(sn_AccessKeysByID)
  end.

(** What the scheduler reads of a snapshot. *)
Definition schedulerConfig (s : ConfigSnapshot) : Config :=
  mkConfig s.(sn_Revision)
    (match s.(sn_Settings).(rs_RouteStrategy) with
     | Settings.RouteStrategyWeightedMix => Scheduler.RouteStrategyWeightedMix
     | Settings.RouteStrategyNativeFirst => RouteStrategyOther "native_first"
     end)
    s.(sn_ExecutionCandidates) s.(sn_ExecutionRouteCatalog)
    ((fun v => mkGroup v.(sg_Priority) v.(sg_Models) v.(sg_ResponsesWebsocketEnabled) v.(sg_WeightManual)) <$> s.(sn_Groups))
    ((fun e => mkCatalogView e.(ge_ID) e.(ge_Name) e.(ge_Priority) e.(ge_Enabled) e.(ge_WeightManual)) <$> s.(sn_GroupCatalog)).

(** ** Publication *)

(** [Manager]: the current snapshot, the channel the next publication closes, and the
    channels closed so far.  A channel is a number; [nextChannel] is the next fresh one.
    The reconciler, when installed, may refuse a compiled snapshot. *)
Record Manager := mkManager {
  mg_scheduling : option SchedulingLedger;
  mg_reconciler : option (ConfigSnapshot -> option SnapshotError);
  mg_current : option ConfigSnapshot;
  mg_updates : nat;
  mg_closed : list nat;
  nextChannel : nat;
}.

Definition NewManager : Manager := mkManager None None None 0 [] 1.

Definition SetSnapshotReconciler (m : Manager) (reconciler : option (ConfigSnapshot -> option SnapshotError)) : Manager :=
  m <| mg_reconciler := reconciler |>.

(** The reconciler's verdict on a snapshot. *)
Definition verdict (m : Manager) (next : ConfigSnapshot) : option SnapshotError :=
  match m.(mg_reconciler) with Some f => f next | None => None end.

Definition CurrentWithUpdates (m : Manager) : option ConfigSnapshot * nat := (m.(mg_current), m.(mg_updates)).

Definition publishCompiledLocked (m : Manager) (next : ConfigSnapshot) : Manager * ConfigSnapshot :=
  let next := next <| sn_Revision := match m.(mg_current) with Some c => wrap_u64 (c.(sn_Revision) + 1) | None => 1 end |> in
  let m := m <| mg_scheduling := (fun d => SyncGroups d (Some (ledgerSnapshot (schedulerConfig next)))) <$> m.(mg_scheduling) |>
             <| mg_current := Some next |>
             <| mg_closed := m.(mg_updates) :: m.(mg_closed) |>
             <| mg_updates := m.(nextChannel) |>
             <| nextChannel := S m.(nextChannel) |> in
  (m, next).

(** A failure of the compiler or of the reconciler keeps the published snapshot. *)
Definition Publish (m : Manager) (input : CompileInput) : Manager * snapshotted ConfigSnapshot :=
  match CompileSnapshot input with
  | Err e => (m, Err e)
  | Ok next =>
    match verdict m next with
    | Some e => (m, Err e)
    | None => let '(m, next) := publishCompiledLocked m next in (m, Ok next)
    end
  end.

Definition SetSchedulingState (m : Manager) (scheduling : option SchedulingLedger) : Manager :=
  m <| mg_scheduling := (fun d => SyncGroups d ((fun s => ledgerSnapshot (schedulerConfig s)) <$> m.(mg_current))) <$> scheduling |>.

End Index.

End Snapshot.
