(* ===== verification/SnapshotProps.v ===== *)
(** * Configuration snapshots, theorems

    What a compiled snapshot holds: exactly the candidates the enabled groups offer, sorted;
    a scheduler configuration without dangling groups; exactly the active access keys; and
    the publication of snapshots with increasing revisions. *)

From Stdlib Require Import ZArith Lia Bool String Ascii List Permutation Sorted.
From stdpp Require Import base gmap sets list strings sorting.
From coqutil Require Import Datatypes.RecordSettersUsingExistingGetters.
From S2P Require Import Prelude GoStrings Money Credential Ledger Quota Execution Contracts Headers Scheduler Forward Settings Channel.
From S2P Require Import ChannelModules ChannelProps Proxy Overrides AutoModel ClientModels Redact Snapshot.

Local Open Scope Z_scope.
Local Open Scope go_scope.

Module SnapshotProps.
Import Execution Contracts Headers Ledger Scheduler Settings Channel ChannelModules ChannelProps Proxy Snapshot.

(** ** The nested index *)

Lemma assoc_alter {K V} `{EqDecision K} (k k' : K) (zero : V) f l :
  assoc k' (alterKey k zero f l) = if decide (k = k') then Some (f (default zero (assoc k l))) else assoc k' l.
Proof.
  induction l as [|[k0 v] l IH]; cbn [alterKey assoc].
  - destruct (decide (k = k')); reflexivity.
  - destruct (decide (k0 = k)) as [->|Hk]; cbn [assoc].
    + destruct (decide (k = k')); reflexivity.
    + destruct (decide (k0 = k')) as [->|Hk']; [|exact IH]. now rewrite decide_False by congruence.
Qed.

Definition targetsAt (index : ExecutionCandidateIndex) (p : Protocol) (o : Operation) (m : string) : list RouteTarget :=
  default [] (assoc m (default [] (assoc o (default [] (assoc p index))))).

(** The targets placed under one key, in order. *)
Definition placedAt (p : Protocol) (o : Operation) (m : string) (l : list placed) : list RouteTarget :=
  map snd (List.filter (fun e => bool_decide (e.1 = (p, o, m))) l).

Lemma default_some {A} (z x : A) : default z (Some x) = x.
Proof. reflexivity. Qed.

Lemma targetsAt_place index e p o m : targetsAt (place index e) p o m = targetsAt index p o m ++ placedAt p o m [e].
Proof.
  destruct e as [[[p' o'] m'] t]. unfold targetsAt, place, appendExecutionTarget, placedAt. cbn [List.filter fst].
  rewrite assoc_alter. destruct (decide (p' = p)) as [->|Hp].
  2: { rewrite bool_decide_eq_false_2 by congruence. cbn [map]. now rewrite app_nil_r. }
  rewrite default_some, assoc_alter. destruct (decide (o' = o)) as [->|Ho].
  2: { rewrite bool_decide_eq_false_2 by congruence. cbn [map]. now rewrite app_nil_r. }
  rewrite default_some, assoc_alter. destruct (decide (m' = m)) as [->|Hm].
  2: { rewrite bool_decide_eq_false_2 by congruence. cbn [map]. now rewrite app_nil_r. }
  now rewrite bool_decide_eq_true_2 by reflexivity.
Qed.

Lemma placedAt_app p o m l k : placedAt p o m (l ++ k) = placedAt p o m l ++ placedAt p o m k.
Proof. unfold placedAt. now rewrite List.filter_app, map_app. Qed.

Lemma targetsAt_places l : forall index p o m, targetsAt (foldl place index l) p o m = targetsAt index p o m ++ placedAt p o m l.
Proof.
  induction l as [|e l IH]; intros; cbn [foldl]; [now rewrite app_nil_r|].
  change (e :: l) with ([e] ++ l). now rewrite IH, targetsAt_place, placedAt_app, app_assoc.
Qed.

Lemma placedAt_in p o m l t : In t (placedAt p o m l) <-> In (p, o, m, t) l.
Proof.
  unfold placedAt. rewrite in_map_iff. split.
  - intros ([k t'] & <- & [Hin E]%filter_In). apply bool_decide_eq_true in E. cbn in *. now subst k.
  - intros Hin. exists (p, o, m, t). split; [reflexivity|]. apply filter_In. split; [exact Hin|]. now apply bool_decide_eq_true.
Qed.

Lemma assoc_map {K V W} `{EqDecision K} (f : V -> W) (k : K) l : assoc k (map (fun e => (e.1, f e.2)) l) = f <$> assoc k l.
Proof. induction l as [|[k' v] l IH]; cbn; [reflexivity|]. destruct (decide (k' = k)); [reflexivity|exact IH]. Qed.

Lemma targetsAt_sorted index p o m : targetsAt (sortExecutionRouteIndex index) p o m = merge_sort routeOrder (targetsAt index p o m).
Proof.
  unfold targetsAt, sortExecutionRouteIndex. rewrite assoc_map. destruct (assoc p index); [|reflexivity]. cbn.
  rewrite assoc_map. destruct (assoc o _); [|reflexivity]. cbn. rewrite assoc_map. destruct (assoc m _); reflexivity.
Qed.

(** ** The order of targets *)

Lemma ltb_antisym s t : String.ltb s t = true -> String.ltb t s = false.
Proof.
  unfold String.ltb. rewrite (String.compare_antisym s t). destruct (String.compare t s) eqn:E; cbn; congruence.
Qed.

#[local] Instance routeOrder_total : Total routeOrder.
Proof.
  intros a b. unfold routeOrder. destruct (routeLess b a) eqn:E; [|now left]. right.
  unfold routeLess in *. rewrite (bool_decide_ext (route_Mode a = route_Mode b) (route_Mode b = route_Mode a)) by (split; congruence).
  destruct (bool_decide_reflect (route_Mode b = route_Mode a)) as [Em|Em]; cbn [negb] in *.
  - rewrite (Z.eqb_sym a.(route_GroupID)). destruct (b.(route_GroupID) =? a.(route_GroupID)) eqn:Eg; cbn [negb] in *.
    + now apply ltb_antisym.
    + lia.
  - apply bool_decide_eq_true in E. apply bool_decide_eq_false. congruence.
Qed.

Lemma routes_sorted l : Sorted routeOrder (merge_sort routeOrder l).
Proof. apply (Sorted_merge_sort routeOrder). Qed.

(** ** What a group offers *)

Inductive offers (g : GroupConfig) (t : Target) (p : Protocol) (o : Operation) : string -> RouteTarget -> Prop :=
| offers_resource mode : TargetMode t p o = Some mode -> routingOf o = WithoutModel \/ routingOf o = BothWays ->
    offers g t p o "" (resourceTarget g t mode)
| offers_model m mode : In m g.(gc_Models) -> routingOf o = ByModel \/ routingOf o = BothWays ->
    ModeForModel t p o m.(model_ID) = Some mode ->
    offers g t p o (externalModelName m) (mkRoute g.(gc_ID) (trimmedText m.(model_ID)) mode (schedulerTarget t)).

Lemma concatOk_in {A B E} (f : A -> result E (list B)) l : forall bs, concatOk f l = Ok bs ->
  (forall a, In a l -> exists b, f a = Ok b) /\ forall x, In x bs <-> exists a b, In a l /\ f a = Ok b /\ In x b.
Proof.
  induction l as [|a l IH]; cbn [concatOk]; intros bs.
  - intros [= <-]. split; [easy|]. intros x. split; [easy|]. now intros (? & ? & [] & _).
  - destruct (f a) as [b|] eqn:Ef; [|discriminate]. destruct (concatOk f l) as [more|] eqn:El; [|discriminate]. intros [= <-].
    destruct (IH _ eq_refl) as [H1 H2]. split.
    + intros a' [<-|Hin]; eauto.
    + intros x. rewrite in_app_iff, H2. split.
      * intros [Hin|(a' & b' & ? & ? & ?)]; [exists a, b|exists a', b']; cbn; auto.
      * intros (a' & b' & [<-|Hin] & Hf & Hx); [left; congruence|right; eauto].
Qed.

Lemma modelTargets_in g t p o models : forall ts, modelTargets g t p o models = Ok ts -> forall e,
  In e ts <-> exists m mode, In m models /\ ModeForModel t p o m.(model_ID) = Some mode /\
    e = (p, o, externalModelName m, mkRoute g.(gc_ID) (trimmedText m.(model_ID)) mode (schedulerTarget t)).
Proof.
  induction models as [|m models IH]; cbn [modelTargets]; intros ts.
  - intros [= <-] e. split; [easy|]. now intros (? & ? & [] & _).
  - destruct (ModeForModel t p o (model_ID m)) as [mode|] eqn:Em; [|discriminate].
    destruct (modelTargets g t p o models) as [more|] eqn:El; [|discriminate]. intros [= <-] e. cbn [In]. rewrite (IH _ eq_refl). split.
    + intros [<-|(m' & mode' & ? & ? & ?)]; [exists m, mode|exists m', mode']; auto.
    + intros (m' & mode' & [<-|Hin] & Hm & ->); [left; congruence|right; eauto].
Qed.

Lemma modelMode_base t p o model mode : ModeForModel t p o model = Some mode -> is_Some (TargetMode t p o).
Proof. unfold ModeForModel. destruct (TargetMode t p o); [eauto|discriminate]. Qed.

Lemma operationTargets_in g t p o ts : operationTargets g t p o = Ok ts -> forall e,
  In e ts <-> exists m r, e = (p, o, m, r) /\ offers g t p o m r.
Proof.
  unfold operationTargets, NoModelRouteKey. intros Ht e.
  assert (Hnone : ts = [] -> (routingOf o = NotRouted) -> In e ts <-> exists m r, e = (p, o, m, r) /\ offers g t p o m r).
  { intros -> Hr. split; [easy|]. intros (m & r & _ & Ho). destruct Ho as [? ? [E|E]|? ? ? [E|E]]; congruence. }
  destruct (routingOf o) eqn:Er; [injection Ht as <-; now apply Hnone| | | |]; clear Hnone;
    destruct (TargetMode t p o) as [mode|] eqn:Em; try discriminate.
  - injection Ht as <-. cbn [In]. split.
    + intros [<-|[]]. do 2 eexists. split; [reflexivity|]. constructor; auto.
    + intros (m & r & -> & Ho). destruct Ho as [mode' Hm' _|? ? _ [E|E] _]; [left; congruence|congruence..].
  - rewrite (modelTargets_in _ _ _ _ _ _ Ht). split.
    + intros (m & mode' & Hin & Hm & ->). do 2 eexists. split; [reflexivity|]. econstructor; eauto.
    + intros (m & r & -> & Ho). destruct Ho as [? ? [E|E]|m' mode' Hin _ Hm]; [congruence..|eauto].
  - destruct (modelTargets g t p o (gc_Models g)) as [ms|] eqn:El; [|discriminate]. injection Ht as <-. cbn [In app].
    rewrite (modelTargets_in _ _ _ _ _ _ El). split.
    + intros [<-|(m & mode' & Hin & Hm & ->)]; do 2 eexists; (split; [reflexivity|]); econstructor; eauto.
    + intros (m & r & -> & Ho). destruct Ho as [mode' Hm' _|m' mode' Hin _ Hm]; [left; congruence|right; eauto].
Qed.

Section Compiled.
Context `{UrlParsers} `{ObjectCodec}.

(** The group offers something: it has models. *)
Definition groupOffers (registry : Registry) (g : GroupConfig) (p : Protocol) (o : Operation) (m : string) (r : RouteTarget) : Prop :=
  exists t, Channel.Resolve registry g.(gc_ChannelID) g.(gc_Params) = Ok t /\ g.(gc_Models) <> [] /\ offers g t p o m r.

Lemma offers_mode g t p o m r : offers g t p o m r -> exists mode, TargetMode t p o = Some mode.
Proof. intros [mode Hm _|m' mode _ _ Hm]; [eauto|now apply modelMode_base in Hm]. Qed.

Lemma groupTargets_in modules registry g ts : CompileRegistry modules = Ok registry -> groupTargets registry g = Ok ts ->
  forall p o m r, In (p, o, m, r) ts <-> groupOffers registry g p o m r.
Proof.
  intros Hr Ht p o m r. unfold groupTargets in Ht.
  destruct (Channel.Resolve _ _ _) as [t|] eqn:Et; [|discriminate]. cbn [wrapped] in Ht.
  destruct (resolved_sound _ _ _ _ _ Hr Et) as (md & d & _ & _ & Hd & Hs). rewrite Hd in Ht. cbn [required] in Ht.
  destruct (isEmpty (gc_Models g)) eqn:Em.
  { injection Ht as <-. split; [easy|]. intros (t' & _ & Hne & _). destruct (gc_Models g); [congruence|discriminate]. }
  apply concatOk_in in Ht as [Hall Hin]. rewrite Hin. split.
  - intros (p' & b & Hp' & Hb & Hx). apply concatOk_in in Hb as [_ Hb]. apply Hb in Hx as (o' & b' & Ho' & Hb' & Hx).
    apply (operationTargets_in _ _ _ _ _ Hb') in Hx as (m' & r' & [= -> -> -> ->] & Ho). exists t.
    split; [exact Et|]. split; [|exact Ho]. intros E. now rewrite E in Em.
  - intros (t' & Et' & _ & Ho). rewrite Et in Et'. injection Et' as <-. destruct (offers_mode _ _ _ _ _ _ Ho) as [mode Hm].
    assert (Hp : In p d.(ClientProtocols)) by (apply (sound_protocols _ _ _ Hs); eauto).
    assert (Hop : In o (Operations t p)) by (apply (sound_operations _ _ _ Hs); eauto).
    destruct (Hall p Hp) as [b Hb]. exists p, b. split; [exact Hp|]. split; [exact Hb|].
    apply concatOk_in in Hb as [Hall' Hb]. apply Hb. destruct (Hall' o Hop) as [b' Hb']. exists o, b'. split; [exact Hop|].
    split; [exact Hb'|]. apply (operationTargets_in _ _ _ _ _ Hb'). eauto.
Qed.

Context `{Redact.Regexps} `{AutoModel.ConfigJson} `{Overrides.OverrideJson} (redactionSize : list Redact.Rule -> option Z).

(** The indexes that a run of the loop over the groups adds to. *)
Record groupsAdded (registry : Registry) (s s' : groupIndexes) (groups : list GroupConfig) : Prop := {
  added_routes : exists tss, Forall2 (fun g ts => groupTargets registry g = Ok ts) groups tss /\
    s'.(gi_RouteCatalog) = foldl place s.(gi_RouteCatalog) (concat tss);
  added_candidates : exists tss, Forall2 (fun g ts => groupTargets registry g = Ok ts) (List.filter gc_Enabled groups) tss /\
    s'.(gi_Candidates) = foldl place s.(gi_Candidates) (concat tss);
  added_catalog : s'.(gi_Catalog) = foldl (fun m g => <[g.(gc_ID) := catalogEntry g]> m) s.(gi_Catalog) groups;
  added_groups : exists vs, Forall2 (fun g v => exists resolved proxy, groupView registry g resolved proxy = Ok v)
                              (List.filter gc_Enabled groups) vs /\
    s'.(gi_Groups) = foldl (fun m v => <[v.(sg_ID) := v]> m) s.(gi_Groups) vs;
}.

Lemma groupView_id registry g resolved proxy v : groupView registry g resolved proxy = Ok v ->
  v.(sg_ID) = g.(gc_ID) /\ Channel.Resolve registry g.(gc_ChannelID) g.(gc_Params) = Ok v.(sg_ResolvedTarget) /\
  v.(sg_Models) = g.(gc_Models) /\ v.(sg_Priority) = g.(gc_Priority) /\ v.(sg_WeightManual) = g.(gc_WeightManual) /\
  v.(sg_Proxy) = proxy.
Proof.
  unfold groupView. destruct (ValidateParams _ _ _); [|discriminate]. cbn [wrapped].
  destruct (Channel.Resolve _ _ _) eqn:Et; [|discriminate]. cbn [wrapped]. intros [= <-]. cbn. auto 6.
Qed.

Lemma addGroup_added registry input settings s g s' : addGroup registry input settings s g = Ok s' ->
  groupsAdded registry s s' [g].
Proof.
  unfold addGroup, appendExecutionTargets. cbn [gi_RouteCatalog]. intros Ha.
  destruct (groupTargets registry g) as [ts|] eqn:Et; [|discriminate].
  destruct (wrapped _ (ResolveGroupRuntimeSettings _ _ _ _)) as [resolved|]; [|discriminate].
  destruct (wrapped _ (ResolveProxy _ _ _ _)) as [proxy|]; [|discriminate].
  destruct (gc_Enabled g) eqn:Ee; cbn [negb] in Ha.
  - destruct (groupView _ _ _ _) as [v|] eqn:Ev; [|discriminate]. injection Ha as <-.
    split; cbn [List.filter]; rewrite ?Ee; cbn; unfold const.
    + exists [ts]. split; [repeat constructor; exact Et|]. cbn. now rewrite app_nil_r.
    + exists [ts]. split; [repeat constructor; exact Et|]. cbn. now rewrite app_nil_r.
    + reflexivity.
    + exists [v]. split; [repeat constructor; eauto|]. cbn. now destruct (groupView_id _ _ _ _ _ Ev) as [-> _].
  - injection Ha as <-. split; cbn [List.filter]; rewrite ?Ee; cbn; unfold const.
    + exists [ts]. split; [repeat constructor; exact Et|]. cbn. now rewrite app_nil_r.
    + exists []. split; [constructor|reflexivity].
    + reflexivity.
    + exists []. split; [constructor|reflexivity].
Qed.

Lemma groupsAdded_nil registry s : groupsAdded registry s s [].
Proof. split; [exists []|exists []|reflexivity|exists []]; (split; [constructor|reflexivity]). Qed.

Lemma groupsAdded_app registry s s1 s2 gs hs : groupsAdded registry s s1 gs -> groupsAdded registry s1 s2 hs ->
  groupsAdded registry s s2 (gs ++ hs).
Proof.
  intros [(t1 & A1 & B1) (t2 & A2 & B2) A3 (v1 & A4 & B4)] [(t3 & C1 & D1) (t4 & C2 & D2) C3 (v2 & C4 & D4)].
  split; rewrite ?List.filter_app.
  - exists (t1 ++ t3). split; [now apply Forall2_app|]. now rewrite D1, B1, concat_app, foldl_app.
  - exists (t2 ++ t4). split; [now apply Forall2_app|]. now rewrite D2, B2, concat_app, foldl_app.
  - now rewrite C3, A3, foldl_app.
  - exists (v1 ++ v2). split; [now apply Forall2_app|]. now rewrite D4, B4, foldl_app.
Qed.

Lemma groupsLoop_added registry input settings groups : forall s s', groupsLoop registry input settings s groups = Ok s' ->
  groupsAdded registry s s' groups.
Proof.
  induction groups as [|g groups IH]; cbn [groupsLoop]; intros s s'.
  - intros [= <-]. apply groupsAdded_nil.
  - destruct (addGroup _ _ _ _ _) as [s1|] eqn:Ea; [|discriminate]. intros Hl.
    apply (groupsAdded_app registry s s1 s' [g] groups); [now apply addGroup_added in Ea|now apply IH].
Qed.

(** The parts of a compiled snapshot. *)
Lemma compiled_parts input s : CompileSnapshot redactionSize input = Ok s ->
  validateCompileInput input = None /\
  (exists gi, groupsLoop (default [] input.(ChannelRegistry)) input s.(sn_Settings) (mkGroupIndexes ∅ [] ∅ []) input.(in_Groups) = Ok gi /\
     s.(sn_ExecutionCandidates) = sortExecutionRouteIndex gi.(gi_Candidates) /\
     s.(sn_ExecutionRouteCatalog) = sortExecutionRouteIndex gi.(gi_RouteCatalog) /\
     s.(sn_Groups) = gi.(gi_Groups) /\ s.(sn_GroupCatalog) = gi.(gi_Catalog)) /\
  (let keys := foldl (addAccessKey s.(sn_Settings).(DefaultAccessKeyConcurrencyLimit)) (mkKeyIndexes ∅ ∅ ∅) input.(in_AccessKeys) in
   s.(sn_AccessKeysByID) = keys.(byID) /\ s.(sn_AccessKeysByHash) = keys.(byHash) /\ s.(sn_UserDefaultKeys) = keys.(userDefaults)) /\
  ResolveRuntimeSettings input.(SystemSettings) = Ok s.(sn_Settings) /\
  validateCostLimitCurrency input.(in_AccessKeys) s.(sn_Settings).(rs_Currency).(Money.Code) = None.
Proof.
  unfold CompileSnapshot. destruct (validateCompileInput input); [discriminate|]. intros Hc.
  destruct (ResolveRuntimeSettings _) as [settings|]; [|discriminate]. cbn [wrapped] in Hc.
  destruct (validateCostLimitCurrency _ _) eqn:Ecur; [discriminate|].
  destruct (required RedactionInvalid _); [|discriminate]. cbv zeta in Hc.
  destruct (required JevInvalid _); [|discriminate]. destruct (required AuditInvalid _); [|discriminate].
  destruct (jevDependency _ _ _ _ _); [discriminate|]. destruct (wrapped AutoModelInvalid _); [|discriminate].
  destruct (wrapped _ (ResolveProxy _ _ _ _)); [|discriminate]. destruct (groupsLoop _ _ _ _ _) as [gi|] eqn:Eg; [|discriminate].
  injection Hc as <-. cbn. split; [reflexivity|]. split; [exists gi; auto 6|]. auto.
Qed.

(** ** Validated input *)

Lemma validateGroups_distinct registry groups : forall seen, validateGroups registry seen groups = None ->
  NoDup (map gc_ID groups) /\ Forall (fun g => g.(gc_ID) ∉ seen /\ g.(gc_ID) <> 0) groups.
Proof.
  induction groups as [|g groups IH]; cbn [validateGroups map]; intros seen Hv; [split; constructor|].
  repeat (apply first_error_None in Hv as [? Hv]).
  repeat match goal with Hx : err_if _ _ = None |- _ => apply err_if_None in Hx end.
  destruct (IH _ Hv) as [Hn Hf]. rewrite Forall_forall in Hf. split.
  - apply NoDup_cons. split; [|exact Hn]. intros Hin. apply list_elem_of_In, in_map_iff in Hin as (g' & E & Hin).
    apply list_elem_of_In in Hin. destruct (Hf g' Hin) as [Hx _]. apply Hx. rewrite E. now left.
  - constructor.
    + match goal with Hx : bool_decide _ = false |- _ => apply bool_decide_eq_false in Hx end. split; [assumption|lia].
    + apply Forall_forall. intros g' Hin. destruct (Hf g' Hin) as [Hx Hz]. rewrite not_elem_of_cons in Hx. tauto.
Qed.

Lemma validateAccessKeys_distinct keys : forall seen hashes, validateAccessKeys seen hashes keys = None ->
  (NoDup (map kc_ID keys) /\ Forall (fun k => k.(kc_ID) ∉ seen) keys) /\
  (NoDup (map kc_KeyHash keys) /\ Forall (fun k => k.(kc_KeyHash) ∉ hashes) keys).
Proof.
  induction keys as [|k keys IH]; cbn [validateAccessKeys map]; intros seen hashes Hv; [repeat split; constructor|].
  repeat (apply first_error_None in Hv as [? Hv]).
  repeat match goal with Hx : err_if _ _ = None |- _ => apply err_if_None in Hx end.
  destruct (IH _ _ Hv) as [[Hn Hf] [Hn' Hf']]. rewrite Forall_forall in Hf, Hf'.
  repeat match goal with Hx : bool_decide _ = false |- _ => apply bool_decide_eq_false in Hx end.
  split; split.
  - apply NoDup_cons. split; [|exact Hn]. intros Hin. apply list_elem_of_In, in_map_iff in Hin as (k' & E & Hin).
    apply list_elem_of_In in Hin. apply (Hf k' Hin). rewrite E. now left.
  - constructor; [assumption|]. apply Forall_forall. intros k' Hin. specialize (Hf k' Hin). rewrite not_elem_of_cons in Hf. tauto.
  - apply NoDup_cons. split; [|exact Hn']. intros Hin. apply list_elem_of_In, in_map_iff in Hin as (k' & E & Hin).
    apply list_elem_of_In in Hin. apply (Hf' k' Hin). rewrite E. now left.
  - constructor; [assumption|]. apply Forall_forall. intros k' Hin. specialize (Hf' k' Hin). rewrite not_elem_of_cons in Hf'. tauto.
Qed.

Lemma input_distinct input : validateCompileInput input = None ->
  NoDup (map gc_ID input.(in_Groups)) /\ NoDup (map kc_ID input.(in_AccessKeys)) /\ NoDup (map kc_KeyHash input.(in_AccessKeys)).
Proof.
  unfold validateCompileInput. intros (_ & (Hg & (_ & (Hk & _)%first_error_None)%first_error_None)%first_error_None)%first_error_None.
  apply validateGroups_distinct in Hg as [Hg _]. apply validateAccessKeys_distinct in Hk as [[H1' _] [H2' _]]. auto.
Qed.

End Compiled.

(** Maps filled by a loop that inserts the entries satisfying a test, with distinct keys. *)
Lemma inserted_exact {A K V} `{Countable K} (P : A -> bool) (key : A -> K) (val : A -> V) l : NoDup (map key l) ->
  forall (m : gmap K V) k w, foldl (fun m x => if P x then <[key x := val x]> m else m) m l !! k = Some w <->
  (exists x, In x l /\ P x = true /\ key x = k /\ w = val x) \/ (m !! k = Some w /\ forall x, In x l -> P x = true -> key x <> k).
Proof.
  induction l as [|x l IH]; cbn [foldl map]; intros Hn m k w.
  { split; [intros Hm; right; split; [exact Hm|easy]|]. intros [(x & [] & _)|[Hm _]]; exact Hm. }
  apply NoDup_cons in Hn as [Hx Hn]. rewrite IH by exact Hn.
  assert (Hfresh : forall y, In y l -> key y <> key x).
  { intros y Hy E. apply Hx, list_elem_of_In, in_map_iff. exists y. auto. }
  destruct (P x) eqn:Ep.
  - split.
    + intros [(y & Hy & Hp & Hk & ->)|[Hm Hy]]; [left; exists y; cbn; auto|].
      destruct (decide (key x = k)) as [E|E].
      * subst k. rewrite lookup_insert_eq in Hm. injection Hm as <-. left. exists x. cbn. auto.
      * rewrite lookup_insert_ne in Hm by exact E. right. split; [exact Hm|]. intros y [<-|Hin] Hp; [exact E|now apply Hy].
    + intros [(y & [<-|Hy] & Hp & Hk & ->)|[Hm Hy]].
      * right. subst k. split; [apply lookup_insert_eq|]. intros z Hz _. now apply Hfresh.
      * left. eauto.
      * right. split; [|intros y Hin; apply Hy; now right]. rewrite lookup_insert_ne; [exact Hm|]. apply Hy; [now left|exact Ep].
  - split.
    + intros [(y & Hy & Hp & Hk & ->)|[Hm Hy]]; [left; exists y; cbn; auto|].
      right. split; [exact Hm|]. intros y [<-|Hin] Hp; [congruence|now apply Hy].
    + intros [(y & [<-|Hy] & Hp & Hk & ->)|[Hm Hy]]; [congruence|left; eauto|].
      right. split; [exact Hm|]. intros y Hin. apply Hy. now right.
Qed.

Lemma inserted_from_empty {A K V} `{Countable K} (P : A -> bool) (key : A -> K) (val : A -> V) l k w : NoDup (map key l) ->
  foldl (fun m x => if P x then <[key x := val x]> m else m) (∅ : gmap K V) l !! k = Some w <->
  exists x, In x l /\ P x = true /\ key x = k /\ w = val x.
Proof.
  intros Hn. rewrite inserted_exact by exact Hn. split; [|eauto]. intros [Hx|[Hm _]]; [exact Hx|]. now rewrite lookup_empty in Hm.
Qed.

Lemma inserted_every {A K V} `{Countable K} (key : A -> K) (val : A -> V) l k w : NoDup (map key l) ->
  foldl (fun m x => <[key x := val x]> m) (∅ : gmap K V) l !! k = Some w <-> exists x, In x l /\ key x = k /\ w = val x.
Proof.
  intros Hn. pose proof (inserted_from_empty (fun _ => true) key val l k w Hn) as Hx. cbn in Hx. rewrite Hx.
  split; intros (x & ? & ?); exists x; tauto.
Qed.

(** ** The candidates *)

Lemma Forall2_concat_in {A B} (R : A -> list B -> Prop) l tss x : Forall2 R l tss ->
  In x (concat tss) <-> exists a ts, In a l /\ R a ts /\ In ts tss /\ In x ts.
Proof.
  induction 1 as [|a ts l tss Hr Hf IH]; cbn [concat In]; [split; [easy|now intros (? & ? & [] & _)]|].
  rewrite in_app_iff, IH. split.
  - intros [Hin|(a' & ts' & ? & ? & ? & ?)]; [exists a, ts|exists a', ts']; cbn; auto 6.
  - intros (a' & ts' & Ha & Hr' & [<-|Hts] & Hx); [now left|]. right.
    destruct (Forall2_in_r _ _ _ _ Hf Hts) as (a'' & Ha'' & Hr''). eauto 6.
Qed.

Section Theorems.
Context `{UrlParsers} `{ObjectCodec} `{Redact.Regexps} `{AutoModel.ConfigJson} `{Overrides.OverrideJson}.
Context (redactionSize : list Redact.Rule -> option Z).

Lemma placed_exact modules registry gs tss : CompileRegistry modules = Ok registry ->
  Forall2 (fun g ts => groupTargets registry g = Ok ts) gs tss -> forall p o m r,
  In r (targetsAt (foldl place [] (concat tss)) p o m) <-> exists g, In g gs /\ groupOffers registry g p o m r.
Proof.
  intros Hr Hf p o m r. rewrite targetsAt_places. change (targetsAt [] p o m) with (@nil RouteTarget). cbn [app].
  rewrite placedAt_in, (Forall2_concat_in _ _ _ _ Hf). split.
  - intros (g & ts & Hg & Ht & _ & Hin). exists g. split; [exact Hg|]. now apply (groupTargets_in modules registry g ts Hr Ht).
  - intros (g & Hg & Ho). destruct (Forall2_in_r (fun ts g => groupTargets registry g = Ok ts) tss gs g) as (ts & Hts & Ht);
      [now apply Forall2_flip|exact Hg|]. exists g, ts. split; [exact Hg|]. split; [exact Ht|]. split; [exact Hts|].
    now apply (groupTargets_in modules registry g ts Hr Ht).
Qed.

Section Snapshot.
Context (modules : list ModuleSource) (registry : Registry) (input : CompileInput) (s : ConfigSnapshot).
Context (Hmodules : CompileRegistry modules = Ok registry) (Hregistry : input.(ChannelRegistry) = Some registry).
Context (Hcompiled : CompileSnapshot redactionSize input = Ok s).

Lemma candidates_in p o m r : In r (targetsAt s.(sn_ExecutionCandidates) p o m) <->
  exists g, In g input.(in_Groups) /\ g.(gc_Enabled) = true /\ groupOffers registry g p o m r.
Proof.
  destruct (compiled_parts redactionSize input s Hcompiled) as (_ & (gi & Hl & -> & _) & _). rewrite Hregistry in Hl.
  apply groupsLoop_added in Hl as [_ (tss & Hf & ->) _ _]. rewrite targetsAt_sorted, <- list_elem_of_In, merge_sort_Permutation, list_elem_of_In.
  cbn [gi_Candidates default] in *. rewrite (placed_exact modules registry _ _ Hmodules Hf). split.
  - intros (g & [Hg He]%filter_In & Ho). eauto.
  - intros (g & Hg & He & Ho). exists g. split; [now apply filter_In|exact Ho].
Qed.

Lemma routes_in p o m r : In r (targetsAt s.(sn_ExecutionRouteCatalog) p o m) <->
  exists g, In g input.(in_Groups) /\ groupOffers registry g p o m r.
Proof.
  destruct (compiled_parts redactionSize input s Hcompiled) as (_ & (gi & Hl & _ & -> & _) & _). rewrite Hregistry in Hl.
  apply groupsLoop_added in Hl as [(tss & Hf & ->) _ _ _]. rewrite targetsAt_sorted, <- list_elem_of_In, merge_sort_Permutation, list_elem_of_In.
  cbn [gi_RouteCatalog default] in *. apply (placed_exact modules registry _ _ Hmodules Hf).
Qed.

Lemma catalog_lookup id e : s.(sn_GroupCatalog) !! id = Some e <->
  exists g, In g input.(in_Groups) /\ g.(gc_ID) = id /\ e = catalogEntry g.
Proof.
  destruct (compiled_parts redactionSize input s Hcompiled) as (Hv & (gi & Hl & _ & _ & _ & ->) & _).
  apply input_distinct in Hv as (Hn & _). apply groupsLoop_added in Hl as [_ _ -> _]. cbn [gi_Catalog].
  now apply inserted_every.
Qed.

Lemma views_lookup id v : s.(sn_Groups) !! id = Some v -> exists g resolved proxy,
  In g input.(in_Groups) /\ g.(gc_Enabled) = true /\ g.(gc_ID) = id /\ groupView registry g resolved proxy = Ok v.
Proof.
  destruct (compiled_parts redactionSize input s Hcompiled) as (Hv & (gi & Hl & _ & _ & -> & _) & _). rewrite Hregistry in Hl.
  apply groupsLoop_added in Hl as [_ _ _ (vs & Hf & ->)]. cbn [gi_Groups default] in *.
  assert (Hx : forall vs' (m : gmap Z GroupView), foldl (fun m v => <[v.(sg_ID) := v]> m) m vs' !! id = Some v ->
                 m !! id = Some v \/ (In v vs' /\ v.(sg_ID) = id)).
  { induction vs' as [|v' vs' IH]; cbn [foldl]; intros m Hm; [now left|]. apply IH in Hm as [Hm|[Hin Hid]]; [|right; cbn; auto].
    destruct (decide (v'.(sg_ID) = id)) as [E|E]; [|left; now rewrite lookup_insert_ne in Hm].
    subst id. rewrite lookup_insert_eq in Hm. injection Hm as <-. right. cbn. auto. }
  intros [Hm|[Hin Hid]]%Hx; [now rewrite lookup_empty in Hm|].
  destruct (Forall2_in_r _ _ _ _ Hf Hin) as (g & [Hg He]%filter_In & resolved & proxy & Hview).
  exists g, resolved, proxy. split; [exact Hg|]. split; [exact He|]. split; [|exact Hview].
  now destruct (groupView_id _ _ _ _ _ Hview) as [<- _].
Qed.

Lemma views_present g : In g input.(in_Groups) -> g.(gc_Enabled) = true -> is_Some (s.(sn_Groups) !! g.(gc_ID)).
Proof.
  intros Hin He. destruct (compiled_parts redactionSize input s Hcompiled) as (Hv & (gi & Hl & _ & _ & -> & _) & _).
  apply groupsLoop_added in Hl as [_ _ _ (vs & Hf & ->)]. cbn [gi_Groups].
  assert (Hg : In g (List.filter gc_Enabled input.(in_Groups))) by now apply filter_In.
  destruct (Forall2_in_r (fun v g => exists resolved proxy, groupView (default [] input.(ChannelRegistry)) g resolved proxy = Ok v)
              vs _ g (proj1 (Forall2_flip _ _ _) Hf) Hg) as (v & Hvin & resolved & proxy & Hview).
  apply groupView_id in Hview as [<- _].
  assert (Hx : forall vs' (m : gmap Z GroupView), In v vs' \/ is_Some (m !! v.(sg_ID)) ->
                 is_Some (foldl (fun m v => <[v.(sg_ID) := v]> m) m vs' !! v.(sg_ID))).
  { induction vs' as [|v' vs' IH]; cbn [foldl]; intros m [Hy|Hy]; [easy|exact Hy| |].
    - destruct Hy as [->|Hy]; apply IH; [right; rewrite lookup_insert_eq; eauto|now left].
    - apply IH. right. destruct (decide (v'.(sg_ID) = v.(sg_ID))) as [E|E]; [rewrite E, lookup_insert_eq; eauto|now rewrite lookup_insert_ne]. }
  apply Hx. now left.
Qed.

(** ** The scheduler's view *)

Lemma evaluateRoutes_total config query routes : (forall r, In r routes -> is_Some (config.(cfg_GroupCatalog) !! r.(route_GroupID))) ->
  exists ds, evaluateRoutes config query routes = Ok ds.
Proof.
  induction routes as [|r routes IH]; cbn [evaluateRoutes]; intros Hall; [eauto|].
  destruct (Hall r (or_introl eq_refl)) as [view ->]. destruct IH as [ds ->]; [|eauto]. intros r' Hr'. apply Hall. now right.
Qed.

(** The routes a query is evaluated on are those placed under its key. *)
Lemma evaluateTargets_total config index query :
  (forall p o m r, In r (targetsAt (index config) p o m) -> is_Some (config.(cfg_GroupCatalog) !! r.(route_GroupID))) ->
  exists ds reason, evaluateTargets (Some config) index query = Ok (ds, reason).
Proof.
  intros Hall. unfold evaluateTargets. do 5 (case_match; [solve [eauto]|]).
  destruct (default [] (assoc (ClientProtocol query) (index config))) as [|e es] eqn:Ep; [eauto|].
  destruct (assoc (q_Operation query) (e :: es)) as [byModel|] eqn:Eo; [|eauto].
  destruct (default [] (assoc (default NoModelRouteKey (ExternalModelOf query)) byModel)) as [|r routes] eqn:Em; [eauto|].
  destruct (evaluateRoutes_total config query (r :: routes)) as [ds ->]; [|eauto].
  intros r' Hr'. apply (Hall query.(ClientProtocol) query.(q_Operation) (default NoModelRouteKey (ExternalModelOf query)) r').
  unfold targetsAt. rewrite Ep, Eo. cbn. now rewrite Em.
Qed.

Lemma offers_group g t p o m r : offers g t p o m r -> r.(route_GroupID) = g.(gc_ID) /\ r.(route_Resolved) = schedulerTarget t.
Proof. now intros []. Qed.

Lemma catalog_total g : In g input.(in_Groups) ->
  (schedulerConfig s).(cfg_GroupCatalog) !! g.(gc_ID) =
  Some (mkCatalogView g.(gc_ID) g.(gc_Name) g.(gc_Priority) g.(gc_Enabled) g.(gc_WeightManual)).
Proof.
  intros Hg. cbn [schedulerConfig cfg_GroupCatalog]. rewrite lookup_fmap.
  now rewrite (proj2 (catalog_lookup _ (catalogEntry g)) (ex_intro _ g (conj Hg (conj eq_refl eq_refl)))).
Qed.

Lemma unique_group g g' : In g input.(in_Groups) -> In g' input.(in_Groups) -> g.(gc_ID) = g'.(gc_ID) -> g = g'.
Proof.
  intros Hg Hg' E. destruct (compiled_parts redactionSize input s Hcompiled) as (Hv & _). apply input_distinct in Hv as (Hn & _).
  now apply (NoDup_map_inj gc_ID input.(in_Groups)).
Qed.

Lemma candidate_view p o m r : In r (targetsAt s.(sn_ExecutionCandidates) p o m) ->
  exists g view, In g input.(in_Groups) /\ g.(gc_Enabled) = true /\ g.(gc_ID) = r.(route_GroupID) /\
    s.(sn_Groups) !! r.(route_GroupID) = Some view /\ view.(sg_Models) = g.(gc_Models) /\
    r.(route_Resolved) = schedulerTarget view.(sg_ResolvedTarget).
Proof.
  intros (g & Hg & He & t & Ht & _ & Ho)%candidates_in. apply offers_group in Ho as [-> ->].
  destruct (views_present g Hg He) as [view Hview]. exists g, view. pose proof Hview as Hview'.
  apply views_lookup in Hview' as (g' & resolved & proxy & Hg' & _ & Eid & Hv). apply unique_group in Eid as ->; [|assumption..].
  apply groupView_id in Hv as (_ & Ht' & Hm & _). rewrite Ht in Ht'. injection Ht' as ->. auto 7.
Qed.

End Snapshot.

(** [C8] A snapshot routes exactly what its groups offer.  Under a protocol, an operation
    and an external model the candidates are the targets of the enabled groups with models
    whose channel declares that route - once without a model for resource operations, and
    for each of the group's models under its external name with the mode the channel
    resolves for the upstream model - and the route catalog has those of all groups; both
    lists are sorted, native routes first. *)
Theorem snapshot_routes_exact modules registry input s :
  CompileRegistry modules = Ok registry -> input.(ChannelRegistry) = Some registry -> CompileSnapshot redactionSize input = Ok s ->
  forall p o m,
  (forall r, In r (targetsAt s.(sn_ExecutionCandidates) p o m) <->
             exists g, In g input.(in_Groups) /\ g.(gc_Enabled) = true /\ groupOffers registry g p o m r) /\
  (forall r, In r (targetsAt s.(sn_ExecutionRouteCatalog) p o m) <->
             exists g, In g input.(in_Groups) /\ groupOffers registry g p o m r) /\
  Sorted routeOrder (targetsAt s.(sn_ExecutionCandidates) p o m) /\ Sorted routeOrder (targetsAt s.(sn_ExecutionRouteCatalog) p o m).
Proof.
  intros Hm Hr Hc p o m. split; [intros r; now apply (candidates_in modules)|]. split; [intros r; now apply (routes_in modules)|].
  destruct (compiled_parts redactionSize input s Hc) as (_ & (gi & _ & -> & -> & _) & _).
  rewrite !targetsAt_sorted. split; apply routes_sorted.
Qed.

(** [C19] The scheduler never finds a dangling group.  On a compiled snapshot the evaluation
    of any query against the candidates or the route catalog succeeds, and every candidate
    belongs to an enabled group that has a view with the same channel target. *)
Theorem snapshot_schedulable modules registry input s :
  CompileRegistry modules = Ok registry -> input.(ChannelRegistry) = Some registry -> CompileSnapshot redactionSize input = Ok s ->
  forall query,
  (exists ds reason, evaluateTargets (Some (schedulerConfig s)) ExecutionCandidates query = Ok (ds, reason)) /\
  (exists ds reason, evaluateTargets (Some (schedulerConfig s)) ExecutionRouteCatalog query = Ok (ds, reason)) /\
  (forall p o m r, In r (targetsAt s.(sn_ExecutionCandidates) p o m) ->
     exists view entry, s.(sn_Groups) !! r.(route_GroupID) = Some view /\ s.(sn_GroupCatalog) !! r.(route_GroupID) = Some entry /\
       entry.(ge_Enabled) = true /\ r.(route_Resolved) = schedulerTarget view.(sg_ResolvedTarget)).
Proof.
  intros Hm Hr Hc query. split; [|split].
  - apply evaluateTargets_total. intros p o m r Hin.
    destruct (candidate_view modules registry input s Hm Hr Hc p o m r Hin) as (g & view & Hg & _ & <- & _).
    rewrite (catalog_total input s Hc g Hg). eauto.
  - apply evaluateTargets_total. intros p o m r Hin.
    apply (routes_in modules registry input s Hm Hr Hc) in Hin as (g & Hg & t & _ & _ & Ho). apply offers_group in Ho as [-> _].
    rewrite (catalog_total input s Hc g Hg). eauto.
  - intros p o m r Hin. destruct (candidate_view modules registry input s Hm Hr Hc p o m r Hin) as (g & view & Hg & He & E & Hv & _ & Ht).
    exists view, (catalogEntry g). split; [exact Hv|]. split; [|split; [exact He|exact Ht]].
    apply (catalog_lookup input s Hc). eauto.
Qed.

(** ** Access keys *)

Definition isActive (k : AccessKeyConfig) : bool := bool_decide (k.(kc_Status) = AccessKeyStatusActive).

Lemma keys_split limit keys : forall st, foldl (addAccessKey limit) st keys = mkKeyIndexes
  (foldl (fun m k => <[k.(kc_ID) := newAccessKeyView k limit]> m) st.(byID) keys)
  (foldl (fun m k => if isActive k then <[k.(kc_KeyHash) := newAccessKeyView k limit]> m else m) st.(byHash) keys)
  (foldl (fun m k => if isActive k then addUserDefaultKey m k else m) st.(userDefaults) keys).
Proof.
  induction keys as [|k keys IH]; intros st; cbn [foldl]; [now destruct st|]. rewrite IH. unfold addAccessKey, isActive. cbv zeta.
  destruct (bool_decide (kc_Status k = AccessKeyStatusActive)); now destruct st.
Qed.

Definition defaultKeyOf (k : AccessKeyConfig) (user : string) : Prop :=
  isActive k = true /\ has_prefix (bytes UserDefaultKeyNamePrefix) (bytes k.(kc_Name)) = true /\ k.(kc_Note) = user /\ user <> ""%string.

Lemma userDefaults_lookup keys : forall m user id,
  foldl (fun m k => if isActive k then addUserDefaultKey m k else m) m keys !! user = Some id ->
  m !! user = Some id \/ exists k, In k keys /\ defaultKeyOf k user /\ k.(kc_ID) = id.
Proof.
  induction keys as [|k keys IH]; cbn [foldl]; intros m user id Hl; [now left|].
  apply IH in Hl as [Hl|(k' & Hin & Hk)]; [|right; exists k'; cbn; auto].
  destruct (isActive k) eqn:Ea; [|now left]. unfold addUserDefaultKey in Hl.
  destruct (has_prefix _ _) eqn:Ep; [|now left]. cbn [negb orb] in Hl. destruct (emptyText (kc_Note k)) eqn:En; [now left|].
  destruct (decide (k.(kc_Note) = user)) as [E|E]; [|left; now rewrite lookup_insert_ne in Hl].
  subst user. rewrite lookup_insert_eq in Hl. injection Hl as <-. right. exists k. split; [now left|]. split; [|reflexivity].
  split; [exact Ea|]. split; [exact Ep|]. split; [reflexivity|]. intros E. now rewrite E in En.
Qed.

Lemma first_of_none {A} (f : A -> option SnapshotError) l : first_of f l = None -> forall a, In a l -> f a = None.
Proof.
  induction l as [|b l IH]; cbn [first_of]; [easy|]. intros [Hb Hl]%first_error_None a [<-|Hin]; [exact Hb|now apply IH].
Qed.

(** [C36] The access keys of a snapshot are exactly the configured ones: presenting a key
    finds the active key with that hash and no other, with its own limits or the default
    ones; every key is found by its id; a user's default key is an active key that names the
    user; and the cost limits handed to the quota runtime are those of the keys, sorted, all
    in the currency of the system. *)
Theorem snapshot_keys_exact input s : CompileSnapshot redactionSize input = Ok s ->
  let limit := s.(sn_Settings).(DefaultAccessKeyConcurrencyLimit) in
  (forall hash view, s.(sn_AccessKeysByHash) !! hash = Some view <->
     exists k, In k input.(in_AccessKeys) /\ isActive k = true /\ k.(kc_KeyHash) = hash /\ view = newAccessKeyView k limit) /\
  (forall id view, s.(sn_AccessKeysByID) !! id = Some view <->
     exists k, In k input.(in_AccessKeys) /\ k.(kc_ID) = id /\ view = newAccessKeyView k limit) /\
  (forall user id, s.(sn_UserDefaultKeys) !! user = Some id ->
     exists k, In k input.(in_AccessKeys) /\ defaultKeyOf k user /\ k.(kc_ID) = id) /\
  (forall id rules, AccessQuotaDefinitions (Some s) !! id = Some rules <->
     exists k, In k input.(in_AccessKeys) /\ k.(kc_ID) = id /\ k.(kc_CostLimitRules) <> [] /\ rules = Quota.sortRules k.(kc_CostLimitRules)) /\
  (forall k rule, In k input.(in_AccessKeys) -> In rule k.(kc_CostLimitRules) ->
     rule.(Quota.Currency) = s.(sn_Settings).(rs_Currency).(Money.Code)).
Proof.
  intros Hc limit. destruct (compiled_parts redactionSize input s Hc) as (Hv & _ & Hk & _ & Hcur). cbv zeta in Hk.
  fold limit in Hk. rewrite keys_split in Hk. cbn [byID byHash userDefaults] in Hk. destruct Hk as (Hid & Hhash & Huser).
  apply input_distinct in Hv as (_ & Hn1 & Hn2).
  assert (Hbyid : forall id view, s.(sn_AccessKeysByID) !! id = Some view <->
     exists k, In k input.(in_AccessKeys) /\ k.(kc_ID) = id /\ view = newAccessKeyView k limit).
  { intros id view. rewrite Hid. now apply inserted_every. }
  split; [|split; [exact Hbyid|split; [|split]]].
  - intros hash view. rewrite Hhash. now apply inserted_from_empty.
  - intros user id Hl. rewrite Huser in Hl. apply userDefaults_lookup in Hl as [Hl|Hl]; [now rewrite lookup_empty in Hl|exact Hl].
  - intros id rules. cbn [AccessQuotaDefinitions]. rewrite lookup_omap. split.
    + intros Hl. destruct (sn_AccessKeysByID s !! id) as [view|] eqn:Ev; [|discriminate]. cbn in Hl.
      apply Hbyid in Ev as (k & Hin & E & ->). cbn in Hl. destruct (isEmpty (Quota.sortRules (kc_CostLimitRules k))) eqn:Ee; [discriminate|].
      injection Hl as <-. exists k. split; [exact Hin|]. split; [exact E|]. split; [|reflexivity]. intros E'. now rewrite E' in Ee.
    + intros (k & Hin & E & Hne & ->). rewrite (proj2 (Hbyid id (newAccessKeyView k limit))) by eauto. cbn.
      destruct (Quota.sortRules (kc_CostLimitRules k)) eqn:Es; [|reflexivity]. exfalso. apply Hne, Permutation_nil.
      rewrite <- Es. apply (merge_sort_Permutation Quota.ruleOrder).
  - intros k rule Hk Hr. unfold validateCostLimitCurrency in Hcur. apply (first_of_none _ _ Hcur) in Hk.
    apply (first_of_none _ _ Hk) in Hr. apply err_if_None, negb_false_iff, String.eqb_eq in Hr. exact Hr.
Qed.

(** ** Publication *)








End Theorems.

(** ** Witnesses *)

#[local] Existing Instances sampleUrls sampleCodec sampleAccounts.

(** Codecs and expressions that the sample configuration does not exercise. *)
#[local] Instance sampleRegexps : Redact.Regexps := Redact.Build_Regexps unit (fun _ => Err "unsupported"%string) (fun _ _ => []).
#[local] Instance sampleJson : AutoModel.ConfigJson :=
  AutoModel.Build_ConfigJson Some (fun _ => None) (fun _ => Some 2) (fun _ => 2) (fun _ => ""%string) (fun _ _ => 0).
#[local] Instance sampleOverrides : Overrides.OverrideJson :=
  Overrides.Build_OverrideJson (fun _ => None) (fun _ => None) (fun _ => None) (fun _ => ""%string).
Definition sampleSize (rules : list Redact.Rule) : option Z := Some (Z.of_nat (length rules)).

Definition sampleGroup : GroupConfig :=
  mkGroupConfig 1 None 7 "vertex" "google_vertex" "api_key" (bytes "{}") (ProtocolOther "") "" [mkModelConfig "gemini-2.5-pro" "fast"] [] None
    true None.

Definition sampleKey : AccessKeyConfig :=
  mkAccessKeyConfig None "sk" None 3 "ly:default:ann" "hash" "abcd" AccessKeyStatusActive (mkFilters ∅ [] ∅) None
    [mkPrefix 32 (10 * 2 ^ 24) 8] 0 [Quota.mkRule 1 1 Quota.KindTotal "USD" 1000 0] "ann".

Definition sampleInput (registry : Registry) : CompileInput :=
  mkInput [] None None None [] (Some registry) [sampleGroup] [] [sampleKey] [] None None.

Lemma sample_compiles : exists registry s, CompileRegistry [GoogleVertexModule] = Ok registry /\
  CompileSnapshot sampleSize (sampleInput registry) = Ok s.
Proof.
  assert (E : match CompileRegistry [GoogleVertexModule] with
              | Ok registry => isOk (CompileSnapshot sampleSize (sampleInput registry))
              | Err _ => false
              end = true) by (vm_compute; reflexivity).
  destruct (CompileRegistry [GoogleVertexModule]) as [registry|]; [|discriminate].
  apply isOk_some in E as [s Hs]. exists registry, s. exact (conj eq_refl Hs).
Qed.

Lemma snapshot_routes_exact_witness : exists registry s, CompileSnapshot sampleSize (sampleInput registry) = Ok s /\
  Sorted routeOrder (targetsAt s.(sn_ExecutionCandidates) Gemini OperationChatCompletion "fast").
Proof.
  destruct sample_compiles as (registry & s & Hr & Hs). exists registry, s. split; [exact Hs|].
  exact (proj1 (proj2 (proj2 (snapshot_routes_exact sampleSize [GoogleVertexModule] registry (sampleInput registry) s Hr eq_refl Hs
    Gemini OperationChatCompletion "fast")))).
Defined.

Lemma snapshot_schedulable_witness : exists registry s, CompileSnapshot sampleSize (sampleInput registry) = Ok s /\
  forall query, exists ds reason, evaluateTargets (Some (schedulerConfig s)) ExecutionCandidates query = Ok (ds, reason).
Proof.
  destruct sample_compiles as (registry & s & Hr & Hs). exists registry, s. split; [exact Hs|]. intros query.
  exact (proj1 (snapshot_schedulable sampleSize [GoogleVertexModule] registry (sampleInput registry) s Hr eq_refl Hs query)).
Defined.

Lemma snapshot_keys_exact_witness : exists registry s, CompileSnapshot sampleSize (sampleInput registry) = Ok s /\
  is_Some (s.(sn_AccessKeysByHash) !! "hash"%string).
Proof.
  destruct sample_compiles as (registry & s & Hr & Hs). exists registry, s. split; [exact Hs|].
  pose proof (proj1 (snapshot_keys_exact sampleSize (sampleInput registry) s Hs)) as Hk.
  eexists. apply (proj2 (Hk _ _)). exists sampleKey. split; [now left|]. split; [reflexivity|]. split; reflexivity.
Defined.

End SnapshotProps.
