(* ===== verification/LogEvent.v ===== *)
(** * Request events and request log rows

    [internal/telemetry/requestlog.go], [auto_model_cost.go], [platform/epochms] and the
    rows of [storage/models/request.go].  [Telemetry.RequestEvent] is what the gateway
    emits when a request ends, [LogRow.RequestLog] the row it is stored as.

    Columns of enumerated types keep the type of the constant they hold; a conversion such
    as [string(attempt.Operation)] is then the identity. *)

From Stdlib Require Import ZArith Lia Bool String Ascii List.
From stdpp Require Import base list strings gmap.
From S2P Require Import Prelude GoStrings Usage Money Pricing Execution Contracts.

Local Open Scope Z_scope.

(** ** Epoch milliseconds *)

Module Epochms.

Definition MillisecondsPerHour : Z := 3600000.
Definition MillisecondsPerDay : Z := 86400000.

(** [FromTime]; the zero time lies before the epoch. *)
Definition FromTime (value : Z) : option Z :=
  let milliseconds := if value =? 0 then -62135596800000 else value / 1000000 in
  if milliseconds <? 0 then None else Some milliseconds.

Inductive AlignError := InvalidEpochMilliseconds | WidthNotPositive | CountNotPositive
| BucketEndOverflows | WindowWidthOverflows | WindowBeforeEpoch.

Definition AlignDown (value width : Z) : result AlignError Z :=
  if value <? 0 then Err InvalidEpochMilliseconds
  else if width <=? 0 then Err WidthNotPositive
  else Ok (value - Z.rem value width).

Definition WindowEndingAt (observedAt width count : Z) : result AlignError (Z * Z) :=
  if count <=? 0 then Err CountNotPositive
  else match AlignDown observedAt width with
       | Err e => Err e
       | Ok start =>
           if start >? max_int64 - width then Err BucketEndOverflows
           else let to := start + width in
                if width >? Z.quot max_int64 count then Err WindowWidthOverflows
                else let windowWidth := count * width in
                     if windowWidth >? to then Err WindowBeforeEpoch else Ok (to - windowWidth, to)
       end.

(** The bucket of an instant: the multiple of the width at or before it, less than one
    width away. *)
Lemma AlignDown_spec value width :
  0 <= value -> 0 < width ->
  exists start, AlignDown value width = Ok start /\ start = width * (value / width) /\
    0 <= start /\ start <= value /\ value < start + width.
Proof.
  intros Hv Hw. unfold AlignDown. destruct (Z.ltb_spec value 0); [lia|]. destruct (Z.leb_spec width 0); [lia|].
  eexists. split; [reflexivity|]. rewrite Z.rem_mod_nonneg by lia.
  pose proof (Z.div_mod value width ltac:(lia)) as Hd. pose proof (Z.mod_pos_bound value width ltac:(lia)) as Hm.
  assert (0 <= value / width) by (apply Z.div_pos; lia). repeat split; nia.
Qed.

Lemma AlignDown_hour value start : AlignDown value MillisecondsPerHour = Ok start -> 0 <= value /\ start = MillisecondsPerHour * (value / MillisecondsPerHour).
Proof.
  intros Ha. destruct (Z.ltb_spec value 0) as [Hv|Hv].
  - unfold AlignDown in Ha. destruct (Z.ltb_spec value 0); [discriminate|lia].
  - destruct (AlignDown_spec value MillisecondsPerHour Hv) as (s & Hs & -> & _); [reflexivity|].
    rewrite Hs in Ha. injection Ha as <-. auto.
Qed.

End Epochms.

(** ** Events *)

Module Telemetry.
Import Usage Money Pricing Execution Contracts.

Inductive RequestStatus := RequestStatusSuccess | RequestStatusError | RequestStatusIncomplete | RequestStatusCanceled
| RequestStatusOther (raw : string).

Inductive ModelConsistency := ModelConsistencyNotApplicable | ModelConsistencyMatch | ModelConsistencyUnknown
| ModelConsistencyMismatch | ModelConsistencyOther (raw : string).

Inductive FailureCategory := FailureCategoryOK | FailureCategoryRateLimited | FailureCategoryModelUnavailable
| FailureCategoryInvalidKey | FailureCategoryUpstreamHost | FailureCategoryClientError
| FailureCategoryConversionUnsupported | FailureCategoryDownstreamCancel | FailureCategoryAuthenticationRequired
| FailureCategoryAmbiguous | FailureCategoryOther (raw : string).

Inductive RetryDirective := RetryNone | RetryRefreshCredential | RetryNextCandidate | RetryOther (raw : string).

Inductive Effect := EffectNone | EffectCooldownCredential | EffectCooldownModel | EffectRecordCredentialFailure
| EffectSkipGroup | EffectOther (raw : string).

Inductive Action := ActionTerminate | ActionRetry | ActionCooldownCredential | ActionFailCredential | ActionSkipGroup
| ActionOther (raw : string).

#[global] Instance RequestStatus_eq_dec : EqDecision RequestStatus.
Proof. solve_decision. Defined.
#[global] Instance ModelConsistency_eq_dec : EqDecision ModelConsistency.
Proof. solve_decision. Defined.
#[global] Instance FailureCategory_eq_dec : EqDecision FailureCategory.
Proof. solve_decision. Defined.
#[global] Instance Effect_eq_dec : EqDecision Effect.
Proof. solve_decision. Defined.

Record Attempt := mkAttempt {
  Sequence : Z;
  CompletedAt : Z;
  GroupID : Z;
  GroupName : string;
  ChannelID : string;
  CredentialID : Z;
  at_Operation : Operation;
  at_RouteMode : RouteMode;
  UpstreamModel : string;
  UpstreamRequestID : string;
  at_DispatchState : DispatchState;
  ResponseStarted : bool;
  UpstreamProtocol : option Protocol;
  Reasoning : ReasoningConfig;
  StatusCode : Z;
  DurationMs : Z;
  at_FailureCategory : FailureCategory;
  FailureOrigin : ErrorOrigin;
  FailureScope : ErrorScope;
  at_RetryDirective : RetryDirective;
  at_Effect : Effect;
  CooldownUntil : Z;
  RuleID : string;
  at_Action : Action;
  WillRetry : bool;
  ErrorCode : string;
  ErrorSummary : string;
  Committed : bool;
}.

Record PricingObservation := mkPricing {
  po_ClientModel : string;
  po_UpstreamModel : string;
  po_CostState : CostState;
  po_Completeness : Completeness;
  po_CostNanoUSD : Z;
  ReceiptJSON : string;
  UpstreamCostState : CostState;
  UpstreamPricingCompleteness : Completeness;
  UpstreamCostNanoUSD : Z;
  UpstreamReceiptJSON : string;
}.

Record UsageObservation := mkUsageObservation {
  uo_Result : Result;
  uo_GroupID : Z;
  uo_ChannelID : string;
  uo_CredentialID : Z;
  AttemptSequence : Z;
  uo_Pricing : PricingObservation;
}.

(** [jev.Observation]: one internal call of the decision service. *)
Record Observation := mkObservation {
  Reason : string;
  Provider : string;
  ob_GroupID : Z;
  ob_GroupName : string;
  ob_ChannelID : string;
  ChannelName : string;
  ob_CredentialID : Z;
  RequestedModel : string;
  ob_UpstreamModel : string;
  ReportedModel : string;
  ob_RequestID : string;
  ob_DurationMs : Z;
  Called : bool;
  InputTokens : option Z;
  OutputTokens : option Z;
  ProviderCostUSD : string;
  ob_CostState : CostState;
  ob_Completeness : Completeness;
  ob_CostNanoUSD : Z;
  ob_Receipt : string;
}.

(** [requestaudit.Finding] and [Result]. *)
Record Finding := mkFinding { fi_RuleID : string; Name : string; fi_Action : string }.

Record AuditResult := mkAuditResult {
  Status : string;
  au_Reason : string;
  Findings : list Finding;
  Calls : list Observation;
}.

(** [automodel.Selection] and [Decision]; the call a decision made is an [Observation]. *)
Record Selection := mkSelection {
  EntryID : string;
  EntryName : string;
  PresetID : string;
  PresetName : string;
  TargetModel : string;
  ParameterOverrides : option string;
  ConfigFingerprint : string;
  TaskFingerprint : string;
}.

Record AutoDecision := mkAutoDecision {
  PresetReasoning : ReasoningConfig;
  AnswerFirstResponseMs : option Z;
  de_Selection : Selection;
  Source : string;
  de_Status : string;
  PromptVersion : string;
  ExecutionPhase : string;
  Choice : string;
  Confidence : option string;
  ContextTruncated : bool;
  de_Call : Observation;
}.

Record RequestEvent := mkEvent {
  RequestAudit : option AuditResult;
  ev_AutoDecision : option AutoDecision;
  RequestID : string;
  ev_CompletedAt : Z;
  AccessKeyID : Z;
  ev_Protocol : Protocol;
  ev_Operation : Operation;
  ClientIP : string;
  ClientModel : string;
  ev_UpstreamModel : string;
  UpstreamReportedModel : string;
  ev_ModelConsistency : ModelConsistency;
  ev_Status : RequestStatus;
  ev_StatusCode : Z;
  ev_ErrorCode : string;
  ev_ErrorSummary : string;
  Stream : bool;
  FirstResponseMs : option Z;
  ev_DurationMs : Z;
  AffinityHit : bool;
  AffinityKind : string;
  ev_Reasoning : ReasoningConfig;
  Attempts : list Attempt;
  ev_Usage : UsageObservation;
  ev_Currency : Currency;
}.

(** ** The price of a request with its internal calls ([auto_model_cost.go]) *)

Definition observed (costState : CostState) (completeness : Completeness) (cost : Z) : PricingObservation :=
  mkPricing "" "" costState completeness cost "" (CostStateOther "") (CompletenessOther "") 0 "".

(** One call added to an answer. *)
Definition addCall (answer : PricingObservation) (costState : CostState) (completeness : Completeness) (cost : Z) : PricingObservation :=
  match CheckedAddNanoUSD answer.(po_CostNanoUSD) cost with
  | None => observed CostStateUnpriced CompletenessUnavailable 0
  | Some amount =>
      let known := bool_decide (answer.(po_CostState) = CostStatePriced) || bool_decide (costState = CostStatePriced) in
      let unknown := bool_decide (answer.(po_CostState) = CostStateUnpriced) || bool_decide (costState = CostStateUnpriced) in
      let partial := bool_decide (answer.(po_Completeness) = CompletenessPartial) || bool_decide (completeness = CompletenessPartial) in
      if known then observed CostStatePriced (if unknown || partial then CompletenessPartial else CompletenessComplete) amount
      else if unknown then observed CostStateUnpriced CompletenessUnavailable amount
      else observed CostStateNotApplicable CompletenessNotApplicable amount
  end.

Definition addObservation (answer : PricingObservation) (call : Observation) : PricingObservation :=
  addCall answer call.(ob_CostState) call.(ob_Completeness) call.(ob_CostNanoUSD).

Definition TotalPricing (answer : PricingObservation) (decision : option AutoDecision) (audits : list (option AuditResult)) : PricingObservation :=
  let answer := fold_left (fun answer audit =>
    match audit with None => answer | Some audit => fold_left addObservation audit.(Calls) answer end) audits answer in
  match decision with None => answer | Some decision => addObservation answer decision.(de_Call) end.

End Telemetry.

(** ** Rows *)

Module LogRow.
Import Usage Money Pricing Execution Contracts.
Import Telemetry(RequestStatus, ModelConsistency, FailureCategory, RetryDirective, Effect, Action).

Record RequestLogAttempt := mkAttemptRow {
  RequestID : string;
  Sequence : Z;
  CompletedAtMS : Z;
  GroupID : Z;
  GroupName : string;
  ChannelID : string;
  CredentialID : Z;
  ra_Operation : Operation;
  ra_RouteMode : RouteMode;
  ra_UpstreamModel : string;
  UpstreamRequestID : string;
  ra_DispatchState : DispatchState;
  ResponseStarted : bool;
  UpstreamProtocol : option Protocol;
  ra_Reasoning : ReasoningConfig;
  ra_StatusCode : Z;
  ra_DurationMs : Z;
  ra_FailureCategory : FailureCategory;
  FailureOrigin : ErrorOrigin;
  FailureScope : ErrorScope;
  ra_RetryDirective : RetryDirective;
  ra_Effect : Effect;
  CooldownUntilMS : option Z;
  RuleID : string;
  ra_Action : Action;
  WillRetry : bool;
  ra_ErrorCode : string;
  ra_ErrorSummary : string;
  Committed : bool;
  PricingReceipt : option string;
  UpstreamPricingReceipt : option string;
}.

(** The columns a call of the decision service is attributed by. *)
Record CallColumns := mkCallColumns {
  cc_Model : string;
  cc_GroupID : Z;
  cc_ChannelID : string;
  cc_CredentialID : Z;
  cc_CostNanoUSD : Z;
  cc_CostNano : Z;
  cc_Completeness : Completeness;
}.

Record RequestLog := mkRow {
  RequestAudit : option string;
  Audit : CallColumns;
  AutoDecision : option string;
  Decision : CallColumns;
  rl_Currency : string;
  ExchangeRateMicros : Z;
  EstimatedCostNano : Z;
  ID : string;
  rl_CompletedAtMS : Z;
  AccessKeyID : Z;
  rl_GroupID : Z;
  rl_ChannelID : string;
  rl_CredentialID : Z;
  rl_Protocol : Protocol;
  rl_Operation : Operation;
  ClientIP : option string;
  ClientModel : string;
  UpstreamModel : string;
  UpstreamReportedModel : string;
  rl_ModelConsistency : ModelConsistency;
  Status : RequestStatus;
  StatusCode : Z;
  Stream : bool;
  FirstResponseMs : option Z;
  DurationMs : Z;
  AttemptCount : Z;
  ErrorCode : string;
  ErrorSummary : string;
  AffinityHit : bool;
  AffinityKind : string;
  Reasoning : ReasoningConfig;
  UncachedInputTokens : Z;
  OutputTokens : Z;
  CacheReadTokens : Z;
  CacheWrite5MTokens : Z;
  CacheWrite1HTokens : Z;
  CacheWriteUnknownTokens : Z;
  EstimatedCostNanoUSD : Z;
  UsageState : State;
  rl_CostState : CostState;
  PricingCompleteness : Completeness;
  AttemptRows : list RequestLogAttempt;
  UpstreamCostNanoUSD : Z;
  UpstreamCostState : CostState;
  UpstreamPricingCompleteness : Completeness;
}.

End LogRow.
