(* ===== verification/LogMapper.v ===== *)
(** * From request events to request log rows

    [internal/requestlog/mapper.go] and [platform/redact/redactor.go]: the texts of an event
    are made storable and cleared of credentials, its observations are checked against each
    other, and the row is filled in. *)

From Stdlib Require Import ZArith Lia Bool String Ascii List.
From stdpp Require Import base list strings gmap.
From S2P Require Import Prelude GoStrings Usage Money Pricing Receipt Execution Contracts Headers Forward LogEvent.

Local Open Scope Z_scope.
Local Open Scope go_scope.

(** ** Texts *)

Definition replacementRune : list ascii := [ascii_of_nat 239; ascii_of_nat 191; ascii_of_nat 189].

(** [strings.ToValidUTF8(s, "\uFFFD")]: every maximal run of bytes that start no rune becomes
    one replacement. *)
Fixpoint to_valid_fuel (fuel : nat) (inRun : bool) (l : list ascii) : list ascii :=
  match fuel, l with
  | S fuel, c :: rest =>
    if (rune_width l =? 1)%nat && negb (byte_val c <? 128)
    then (if inRun then [] else replacementRune) ++ to_valid_fuel fuel true rest
    else take (rune_width l) l ++ to_valid_fuel fuel false (drop (rune_width l) l)
  | _, _ => []
  end.
Definition to_valid (l : list ascii) : list ascii := to_valid_fuel (length l) false l.

(** [strings.Join] with a space. *)
Fixpoint join_words (words : list (list ascii)) : list ascii :=
  match words with
  | [] => []
  | [w] => w
  | w :: rest => w ++ " "%char :: join_words rest
  end.

(** ** Redaction of credentials ([redactor.go]) *)

Module Redactor.

(** The regular expressions of the package, in the order they are applied; [Locator] matches
    the names of access keys, which are kept. *)
Inductive Pattern := Locator | RedactionToken | PrefixedKey | AuthorizationDoubleQuoted | AuthorizationSingleQuoted
| AuthorizationBare | KeyField | SecretField | BearerOrBasic | QueryString.

Definition Placeholder : string := "[REDACTED]".

(** [MatchString] and [ReplaceAllString] with the replacement that goes with the pattern. *)
Class Patterns := {
  matchString : Pattern -> list ascii -> bool;
  replaceAllString : Pattern -> list ascii -> list ascii;
}.

Definition replacements : list Pattern :=
  [RedactionToken; PrefixedKey; AuthorizationDoubleQuoted; AuthorizationSingleQuoted; AuthorizationBare;
   KeyField; SecretField; BearerOrBasic; QueryString].

(** A redactor is its list of replacements; [None] is the nil pointer. *)
Definition New : option (list Pattern) := Some replacements.

Section Redactor.
Context `{Patterns}.

Definition String (r : option (list Pattern)) (value : list ascii) (knownSecrets : list (list ascii)) : list ascii :=
  match r, value with
  | None, _ | _, [] => value
  | Some patterns, _ =>
    let result := fold_left (fun result secret =>
      match secret with [] => result | _ => replace_all secret (bytes Placeholder) result end) knownSecrets value in
    if matchString Locator result then result
    else fold_left (fun result p => replaceAllString p result) patterns result
  end.

End Redactor.

End Redactor.

Module LogMapper.
Import Usage Money Pricing Receipt Execution Contracts Telemetry.
Import Redactor(Patterns).

Definition maxSummaryBytes : nat := 4096.
Definition maxModelBytes : nat := 255.
Definition truncatedMarker : list ascii := bytes "...[truncated]".

(** The longest prefix of at most [n] bytes that is valid, or nothing. *)
Fixpoint validPrefix (n : nat) (l : list ascii) : list ascii :=
  match n with
  | O => []
  | S m => if utf8_valid (take n l) then take n l else validPrefix m l
  end.

Definition truncated (limit : nat) (l : list ascii) : list ascii :=
  if (length l <=? limit)%nat then l else validPrefix (limit - length truncatedMarker) l ++ truncatedMarker.

Definition projectModel (model : list ascii) : list ascii := truncated maxModelBytes (to_valid model).

Definition validRawModel (model : string) : bool :=
  (length (bytes model) <=? maxModelBytes)%nat && utf8_valid (bytes model) &&
  bool_decide (to_valid (bytes model) = bytes model) && bool_decide (trim_space (bytes model) = bytes model) &&
  negb (has_control (bytes model)).

Definition validRawModelOrEmpty (model : string) : bool := emptyText model || validRawModel model.

Definition validChannelID (channelID : string) : bool :=
  negb (emptyText channelID) && (length (bytes channelID) <=? 64)%nat && validRawModel channelID.

Section Text.
Context `{Patterns}.

Definition redactIdentityValue (r : option (list Redactor.Pattern)) (value : list ascii) : list ascii := Redactor.String r value [].

Definition sanitizeSummaryLimit (r : option (list Redactor.Pattern)) (summary : list ascii) (limit : nat) : list ascii :=
  truncated limit (Redactor.String r (join_words (Headers.fields (to_valid summary))) []).

Definition sanitizeSummary (r : option (list Redactor.Pattern)) (summary : list ascii) : list ascii :=
  sanitizeSummaryLimit r summary maxSummaryBytes.

End Text.

(** ** Checks *)

Inductive MapError := CompletionTime | InvalidClientIP | ModelConsistencyInvalid (what : string) | UsagePricing (what : string)
| PricingReceiptInvalid (what : string) | UpstreamReceiptInvalid (what : string) | AttemptCompletionTime (sequence : Z)
| AttemptCooldown | NegativeDecisionCost | AuditInvalid (what : string) | InvalidCurrency.

Definition normalizeModelObservation (event : RequestEvent) : RequestEvent :=
  if negb (bool_decide (event.(ev_Status) = RequestStatusSuccess)) || emptyText event.(ev_UpstreamModel) then
    mkEvent event.(RequestAudit) event.(ev_AutoDecision) event.(RequestID) event.(ev_CompletedAt) event.(AccessKeyID)
      event.(ev_Protocol) event.(ev_Operation) event.(ClientIP) event.(ClientModel) event.(ev_UpstreamModel) ""
      ModelConsistencyNotApplicable event.(ev_Status) event.(ev_StatusCode) event.(ev_ErrorCode) event.(ev_ErrorSummary)
      event.(Stream) event.(FirstResponseMs) event.(ev_DurationMs) event.(AffinityHit) event.(AffinityKind)
      event.(ev_Reasoning) event.(Attempts) event.(ev_Usage) event.(ev_Currency)
  else event.

Definition validateModelObservation (event : RequestEvent) : option string :=
  let modeled := bool_decide (event.(ev_Status) = RequestStatusSuccess) && negb (emptyText event.(ev_UpstreamModel)) in
  let reported := negb (emptyText event.(UpstreamReportedModel)) in
  let same := bool_decide (event.(UpstreamReportedModel) = event.(ev_UpstreamModel)) in
  match event.(ev_ModelConsistency) with
  | ModelConsistencyNotApplicable =>
      err_if reported "not-applicable observation must not carry a reported model"%string ;;!
      err_if modeled "successful modeled request requires a model consistency result"%string
  | ModelConsistencyUnknown => err_if (negb modeled || reported) "unknown observation"%string
  | ModelConsistencyMatch => err_if (negb modeled || negb reported || negb same) "matching observation"%string
  | ModelConsistencyMismatch => err_if (negb modeled || negb reported || same) "mismatching observation"%string
  | ModelConsistencyOther _ => Some "invalid model consistency state"%string
  end.

Definition validateFrozenPricingState (usageState : State) (costState : CostState) (completeness : Completeness) (cost : Z) : option string :=
  if cost <? 0 then Some "invalid estimated cost"%string
  else match usageState with
       | StateNotApplicable =>
           err_if (negb (bool_decide (costState = CostStateNotApplicable)) ||
                   negb (bool_decide (completeness = CompletenessNotApplicable)) || negb (cost =? 0))
                  "invalid not-applicable pricing observation"%string
       | StateMissing =>
           err_if (negb (bool_decide (costState = CostStateUnpriced)) ||
                   negb (bool_decide (completeness = CompletenessUnavailable)) || negb (cost =? 0))
                  "invalid missing-usage pricing observation"%string
       | StateComplete | StatePartial =>
           match costState with
           | CostStateUnpriced =>
               err_if (negb (bool_decide (completeness = CompletenessUnavailable)) || negb (cost =? 0))
                      "invalid unpriced pricing observation"%string
           | CostStatePriced =>
               err_if (negb (bool_decide (completeness = CompletenessComplete)) && negb (bool_decide (completeness = CompletenessPartial)))
                      "invalid priced completeness"%string
           | _ => Some "invalid billable cost state"%string
           end
       | StateOther _ => Some "invalid usage state"%string
       end.

Definition validatedAttemptObservation (attempt : Attempt) : option string :=
  err_if (bool_decide (attempt.(at_Effect) = EffectCooldownModel) &&
          ((attempt.(CooldownUntil) =? 0) || negb (bool_decide (attempt.(FailureScope) = ErrorScopeModel)) ||
           emptyText attempt.(UpstreamModel))) "invalid model cooldown attempt"%string ;;!
  err_if (negb (Bool.eqb (attempt.(CredentialID) =? 0) (emptyText attempt.(ChannelID)))) "invalid attempt identity"%string ;;!
  err_if (negb (validRawModelOrEmpty attempt.(UpstreamRequestID))) "invalid attempt upstream request ID"%string ;;!
  err_if ((negb (attempt.(CredentialID) =? 0) || negb (emptyText attempt.(ChannelID))) &&
          (negb (validChannelID attempt.(ChannelID)) || negb (operationValid attempt.(at_Operation)) ||
           negb (routeModeValid attempt.(at_RouteMode)) || negb (dispatchValid attempt.(at_DispatchState))))
         "invalid attempt execution observation"%string ;;!
  err_if (match attempt.(UpstreamProtocol) with Some p => negb (protocolValid p) | None => false end)
         "invalid attempt upstream protocol"%string.

(** The attempt the usage of an event is attributed to. *)
Definition attributedTo (observation : UsageObservation) (attempt : Attempt) : bool :=
  (attempt.(Sequence) =? observation.(AttemptSequence)) && (attempt.(GroupID) =? observation.(uo_GroupID)) &&
  String.eqb attempt.(ChannelID) observation.(uo_ChannelID) && (attempt.(CredentialID) =? observation.(uo_CredentialID)).

Definition validateAttribution (event : RequestEvent) : option string :=
  let observation := event.(ev_Usage) in
  let pricing := observation.(uo_Pricing) in
  let usageBound := negb (observation.(uo_GroupID) =? 0) || negb (observation.(uo_CredentialID) =? 0) ||
                    negb (emptyText observation.(uo_ChannelID)) || negb (observation.(AttemptSequence) =? 0) in
  if negb usageBound then
    err_if (negb (bool_decide (observation.(uo_Result).(ResState) = StateNotApplicable))) "billable usage requires attempt attribution"%string ;;!
    err_if (negb (emptyText pricing.(po_UpstreamModel))) "unbound no-model usage must not carry pricing identity"%string
  else
    err_if ((observation.(uo_GroupID) =? 0) || (observation.(uo_CredentialID) =? 0) || (observation.(AttemptSequence) <? 1))
           "partial usage attribution"%string ;;!
    err_if (negb (validChannelID observation.(uo_ChannelID))) "invalid usage channel ID"%string ;;!
    let matching := List.filter (attributedTo observation) event.(Attempts) in
    match matching with
    | [attempt] =>
        err_if (negb (validRawModelOrEmpty attempt.(UpstreamModel)) || negb (validRawModelOrEmpty event.(ev_UpstreamModel)))
               "invalid selected upstream model"%string ;;!
        err_if (negb (bool_decide (event.(ev_UpstreamModel) = attempt.(UpstreamModel))) ||
                negb (bool_decide (pricing.(po_UpstreamModel) = attempt.(UpstreamModel)))) "inconsistent bound upstream model"%string
    | _ => Some "usage attribution must match exactly one attempt"%string
    end.

Fixpoint firstFailure {A} (f : A -> option string) (l : list A) : option string :=
  match l with [] => None | a :: rest => f a ;;! firstFailure f rest end.

Definition validateFrozenObservation (event : RequestEvent) : option string :=
  let result := event.(ev_Usage).(uo_Result) in
  let pricing := event.(ev_Usage).(uo_Pricing) in
  err_if (event.(ev_DurationMs) <? 0) "negative request duration"%string ;;!
  err_if (match event.(FirstResponseMs) with
          | Some ms => negb event.(Stream) || (ms <? 0) || (ms >? event.(ev_DurationMs))
          | None => false end) "invalid first response duration"%string ;;!
  err_if (existsb (fun v => v <? 0) (tokenList result.(ResTokens))) "negative usage token value"%string ;;!
  err_if (match CheckedTotal result.(ResTokens) with None => true | Some _ => false end) "usage token total overflows int64"%string ;;!
  validateFrozenPricingState result.(ResState) pricing.(po_CostState) pricing.(po_Completeness) pricing.(po_CostNanoUSD) ;;!
  validateFrozenPricingState result.(ResState) pricing.(UpstreamCostState) pricing.(UpstreamPricingCompleteness)
    pricing.(UpstreamCostNanoUSD) ;;!
  err_if (negb (emptyText pricing.(po_UpstreamModel)) && negb (validRawModel pricing.(po_UpstreamModel))) "invalid pricing upstream model"%string ;;!
  err_if (negb (emptyText pricing.(po_ClientModel)) && negb (validRawModel pricing.(po_ClientModel))) "invalid pricing client model"%string ;;!
  err_if (bool_decide (pricing.(po_CostState) = CostStatePriced) && emptyText pricing.(po_ClientModel))
         "priced observation requires a client model"%string ;;!
  err_if (bool_decide (pricing.(UpstreamCostState) = CostStatePriced) && emptyText pricing.(po_UpstreamModel))
         "priced upstream cost requires exact identity"%string ;;!
  firstFailure validatedAttemptObservation event.(Attempts) ;;!
  validateAttribution event.

(** [mapAuditCall]: the calls of a guardrail folded into one attribution. *)
Record mappedAudit := mkMappedAudit {
  model : string;
  groupID : Z;
  channelID : string;
  credentialID : Z;
  costNanoUSD : Z;
  completeness : Completeness;
}.

Definition noAudit : mappedAudit := mkMappedAudit "" 0 "" 0 0 CompletenessNotApplicable.

Fixpoint mapAuditLoop (called : bool) (audit : mappedAudit) (calls : list Observation) : result string mappedAudit :=
  match calls with
  | [] => Ok audit
  | call :: rest =>
    if call.(ob_CostNanoUSD) <? 0 then Err "negative guardrail cost"%string
    else if negb call.(Called) then mapAuditLoop called audit rest
    else if negb called then
      mapAuditLoop true (mkMappedAudit call.(ob_UpstreamModel) call.(ob_GroupID) call.(ob_ChannelID) call.(ob_CredentialID)
                           call.(ob_CostNanoUSD) call.(ob_Completeness)) rest
    else match CheckedAdd audit.(costNanoUSD) call.(ob_CostNanoUSD) with
         | None => Err "guardrail cost overflows int64"%string
         | Some cost =>
             mapAuditLoop called
               (mkMappedAudit audit.(model) audit.(groupID) audit.(channelID) audit.(credentialID) cost
                  (if bool_decide (call.(ob_Completeness) = audit.(completeness)) then audit.(completeness) else CompletenessPartial)) rest
         end
  end.

Definition mapAuditCall (calls : list Observation) : result string mappedAudit := mapAuditLoop false noAudit calls.

(** ** The row *)

(** [netip.ParseAddr] with [Zone] and [Unmap().String()], and the JSON codec. *)
Class LogCodec := {
  parseAddr : list ascii -> option (string * string);
  unmarshalReceipt : string -> option Pricing.Receipt;
  marshalReceipt : Pricing.Receipt -> option string;
  marshalDecision : AutoDecision -> option string;
  marshalAudit : AuditResult -> option string;
}.

#[export] Instance ReceiptRule_eq_dec : EqDecision ReceiptRule.
Proof. solve_decision. Defined.

Section Map.
Context `{Patterns} `{LogCodec} (redactor : option (list Redactor.Pattern)).

Definition NormalizeIP (value : string) : option string :=
  match parseAddr (trim_space (bytes value)) with
  | Some (zone, address) => if emptyText zone then Some address else None
  | None => None
  end.

Definition canonicalPricingReceipt (receiptJSON : string) (schemaVersion : Z) (rule : ReceiptRule) (totalNanoUSD : Z) : result string (option string) :=
  if emptyText receiptJSON then Ok None
  else match unmarshalReceipt receiptJSON with
       | None => Err "decode receipt"%string
       | Some receipt =>
           match ValidateReceipt receipt with
           | Some _ => Err "invalid receipt"%string
           | None =>
               if negb (receipt.(SchemaVersion) =? schemaVersion) || negb (bool_decide (receipt.(ReceiptRuleOf) = rule)) ||
                  negb (receipt.(TotalNanoUSD) =? totalNanoUSD)
               then Err "receipt does not match frozen pricing observation"%string
               else match marshalReceipt receipt with
                    | None => Err "encode receipt"%string
                    | Some encoded => Ok (Some encoded)
                    end
           end
       end.

Definition redacted (value : string) : string := text (redactIdentityValue redactor (bytes value)).
Definition redactedModel (value : string) : string := text (redactIdentityValue redactor (projectModel (bytes value))).
Definition summaryOf (value : string) : string := text (sanitizeSummary redactor (bytes value)).

Definition mapAttempt (event : RequestEvent) (completedAtMS : Z) (receipt upstreamReceipt : option string) (attempt : Attempt)
  : result MapError LogRow.RequestLogAttempt :=
  let? attemptCompletedAtMS :=
    if attempt.(CompletedAt) =? 0 then Ok completedAtMS
    else match Epochms.FromTime attempt.(CompletedAt) with
         | Some ms => Ok ms
         | None => Err (AttemptCompletionTime attempt.(Sequence))
         end in
  let? cooldownUntilMS :=
    if attempt.(CooldownUntil) =? 0 then Ok None
    else match Epochms.FromTime attempt.(CooldownUntil) with Some ms => Ok (Some ms) | None => Err AttemptCooldown end in
  let bound := attempt.(Sequence) =? event.(ev_Usage).(AttemptSequence) in
  Ok (LogRow.mkAttemptRow event.(RequestID) attempt.(Sequence) attemptCompletedAtMS attempt.(GroupID) (redacted attempt.(GroupName))
        attempt.(ChannelID) attempt.(CredentialID) attempt.(at_Operation) attempt.(at_RouteMode)
        (redactedModel attempt.(UpstreamModel)) (redactedModel attempt.(UpstreamRequestID)) attempt.(at_DispatchState)
        attempt.(ResponseStarted) attempt.(UpstreamProtocol) attempt.(Reasoning) attempt.(StatusCode) attempt.(DurationMs)
        attempt.(at_FailureCategory) attempt.(FailureOrigin) attempt.(FailureScope) attempt.(at_RetryDirective)
        attempt.(at_Effect) cooldownUntilMS attempt.(RuleID) attempt.(at_Action) attempt.(WillRetry) attempt.(ErrorCode)
        (summaryOf attempt.(ErrorSummary)) attempt.(Committed)
        (if bound then receipt else None) (if bound then upstreamReceipt else None)).

Fixpoint mapAttempts (event : RequestEvent) (completedAtMS : Z) (receipt upstreamReceipt : option string) (attempts : list Attempt)
  : result MapError (list LogRow.RequestLogAttempt) :=
  match attempts with
  | [] => Ok []
  | attempt :: rest =>
    let? row := mapAttempt event completedAtMS receipt upstreamReceipt attempt in
    let? rows := mapAttempts event completedAtMS receipt upstreamReceipt rest in
    Ok (row :: rows)
  end.

(** The decision as it is stored: without the overrides and the fingerprint of the task. *)
Definition storedDecision (decision : AutoDecision) : AutoDecision :=
  let s := decision.(de_Selection) in
  mkAutoDecision decision.(PresetReasoning) decision.(AnswerFirstResponseMs)
    (mkSelection s.(EntryID) s.(EntryName) s.(PresetID) (redacted s.(PresetName)) s.(TargetModel) None s.(ConfigFingerprint) "")
    decision.(Source) decision.(de_Status) decision.(PromptVersion) decision.(ExecutionPhase) decision.(Choice)
    decision.(Confidence) decision.(ContextTruncated) decision.(de_Call).

Definition decisionColumns (event : RequestEvent) : result MapError (option string * LogRow.CallColumns) :=
  match event.(ev_AutoDecision) with
  | None => Ok (None, LogRow.mkCallColumns "" 0 "" 0 0 (Settle event.(ev_Currency) 0) CompletenessNotApplicable)
  | Some decision =>
    let call := decision.(de_Call) in
    if call.(ob_CostNanoUSD) <? 0 then Err NegativeDecisionCost
    else
      let columns model group channel credential :=
        LogRow.mkCallColumns model group channel credential call.(ob_CostNanoUSD) (Settle event.(ev_Currency) call.(ob_CostNanoUSD))
          call.(ob_Completeness) in
      Ok (marshalDecision (storedDecision decision),
          if call.(Called) then columns call.(ob_UpstreamModel) call.(ob_GroupID) call.(ob_ChannelID) call.(ob_CredentialID)
          else columns ""%string 0 ""%string 0)
  end.

Definition storedAudit (audit : AuditResult) : AuditResult :=
  mkAuditResult audit.(Status) audit.(au_Reason)
    (map (fun f => mkFinding f.(fi_RuleID) (redacted f.(Name)) f.(fi_Action)) audit.(Findings)) audit.(Calls).

Definition auditColumns (event : RequestEvent) : result MapError (option string * mappedAudit) :=
  match event.(RequestAudit) with
  | None => Ok (None, noAudit)
  | Some audit =>
    match mapAuditCall audit.(Calls) with
    | Err e => Err (AuditInvalid e)
    | Ok mapped =>
        match marshalAudit (storedAudit audit) with
        | None => Err (AuditInvalid "encode audit")
        | Some encoded => Ok (Some encoded, mapped)
        end
    end
  end.

Definition mapEvent (original : RequestEvent) : result MapError LogRow.RequestLog :=
  let? completedAtMS := match Epochms.FromTime original.(ev_CompletedAt) with Some ms => Ok ms | None => Err CompletionTime end in
  let? clientIP := if emptyText original.(ClientIP) then Ok None
                   else match NormalizeIP original.(ClientIP) with Some address => Ok (Some address) | None => Err InvalidClientIP end in
  let event := normalizeModelObservation original in
  let? _ := match validateModelObservation event with Some e => Err (ModelConsistencyInvalid e) | None => Ok tt end in
  let? _ := match validateFrozenObservation event with Some e => Err (UsagePricing e) | None => Ok tt end in
  let observation := event.(ev_Usage) in
  let pricing := observation.(uo_Pricing) in
  let? receipt := match canonicalPricingReceipt pricing.(ReceiptJSON) ClientModelReceiptSchemaVersion
                          (mkReceiptRule "" "" "" pricing.(po_ClientModel)) pricing.(po_CostNanoUSD) with
                  | Ok r => Ok r | Err e => Err (PricingReceiptInvalid e) end in
  let? upstreamReceipt := match canonicalPricingReceipt pricing.(UpstreamReceiptJSON) UpstreamReceiptSchemaVersion
                                  (mkReceiptRule "" observation.(uo_ChannelID) pricing.(po_UpstreamModel) "") pricing.(UpstreamCostNanoUSD) with
                          | Ok r => Ok r | Err e => Err (UpstreamReceiptInvalid e) end in
  let? attempts := mapAttempts event completedAtMS receipt upstreamReceipt event.(Attempts) in
  let? (autoJSON, decision) := decisionColumns event in
  let? (auditJSON, audit) := auditColumns event in
  if negb (CurrencyValid event.(ev_Currency)) then Err InvalidCurrency
  else
    let settle := Settle event.(ev_Currency) in
    let tokens := observation.(uo_Result).(ResTokens) in
    Ok (LogRow.mkRow auditJSON
          (LogRow.mkCallColumns audit.(model) audit.(groupID) audit.(channelID) audit.(credentialID) audit.(costNanoUSD)
             (settle audit.(costNanoUSD)) audit.(completeness))
          autoJSON decision event.(ev_Currency).(Money.Code) event.(ev_Currency).(RateMicros) (settle pricing.(po_CostNanoUSD))
          event.(RequestID) completedAtMS event.(AccessKeyID) observation.(uo_GroupID) observation.(uo_ChannelID)
          observation.(uo_CredentialID) event.(ev_Protocol) event.(ev_Operation) clientIP
          (redactedModel event.(ClientModel)) (redactedModel event.(ev_UpstreamModel)) (redactedModel event.(UpstreamReportedModel))
          event.(ev_ModelConsistency) event.(ev_Status) event.(ev_StatusCode) event.(Stream) event.(FirstResponseMs)
          event.(ev_DurationMs) (Z.of_nat (length attempts)) event.(ev_ErrorCode) (summaryOf event.(ev_ErrorSummary))
          event.(AffinityHit) event.(AffinityKind) event.(ev_Reasoning) tokens.(UncachedInput) tokens.(Output) tokens.(CacheRead)
          tokens.(CacheWrite5M) tokens.(CacheWrite1H) tokens.(CacheWriteUnknown) pricing.(po_CostNanoUSD)
          observation.(uo_Result).(ResState) pricing.(po_CostState) pricing.(po_Completeness) attempts
          pricing.(UpstreamCostNanoUSD) pricing.(UpstreamCostState) pricing.(UpstreamPricingCompleteness)).

End Map.

End LogMapper.
