(* ===== verification/LogStore.v ===== *)
(** * The request log in the database

    [internal/requestlog/worker.go] (the batch writer), [increment_upsert.go],
    [auto_decision_usage.go] and [retention.go] with the tables of
    [storage/models/request.go]: a batch is inserted with its hourly aggregates in one
    transaction, and expired rows are swept.

    A table is a finite map from its primary key.  A statement fails on a duplicate key or
    when a CHECK constraint of its table rejects the row; a failed statement fails the
    transaction, which then leaves the database as it was.  Anything else that makes a
    transaction fail is the argument [fault] of the transaction. *)

From Stdlib Require Import ZArith Lia Bool String Ascii List Permutation.
From stdpp Require Import base gmap list strings sorting.
From coqutil Require Import Datatypes.RecordSettersUsingExistingGetters.
From S2P Require Import Prelude GoStrings Usage Money Pricing Execution Contracts LogEvent LogMapper.

Local Open Scope Z_scope.
Local Open Scope go_scope.

Module LogStore.
Import Usage Money Pricing Execution Contracts.
Import Telemetry(RequestStatus, RequestStatusSuccess, RequestStatusError, RequestStatusIncomplete, RequestStatusCanceled,
  RequestStatusOther, FailureCategory, FailureCategoryOK, FailureCategoryDownstreamCancel, FailureCategoryOther,
  ModelConsistencyOther, RetryOther, EffectCooldownModel, EffectOther, ActionOther).
Import LogRow.

(** ** Hourly aggregates *)

Record usageStatKey := mkStatKey {
  BucketStartMS : Z;
  k_AccessKeyID : Z;
  k_ChannelID : string;
  k_GroupID : Z;
  k_CredentialID : Z;
  k_Model : string;
  k_Currency : string;
}.

#[export] Instance usageStatKey_eq_dec : EqDecision usageStatKey.
Proof. solve_decision. Defined.
#[export] Instance usageStatKey_countable : Countable usageStatKey.
Proof.
  refine (inj_countable' (fun k => (k.(BucketStartMS), k.(k_AccessKeyID), k.(k_ChannelID), k.(k_GroupID), k.(k_CredentialID), k.(k_Model), k.(k_Currency)))
            (fun '(b, a, c, g, d, m, u) => mkStatKey b a c g d m u) _).
  now intros [].
Defined.

Record usageStatDelta := mkDelta {
  RequestCount : Z;
  SuccessCount : Z;
  FailureCount : Z;
  d_UncachedInputTokens : Z;
  d_OutputTokens : Z;
  d_CacheReadTokens : Z;
  d_CacheWrite5MTokens : Z;
  d_CacheWrite1HTokens : Z;
  d_CacheWriteUnknownTokens : Z;
  d_EstimatedCostNanoUSD : Z;
  d_EstimatedCostNano : Z;
  UsageMissingCount : Z;
  PartialCount : Z;
  UnpricedRequestCount : Z;
  PricingPartialCount : Z;
}.

Definition zeroDelta : usageStatDelta := mkDelta 0 0 0 0 0 0 0 0 0 0 0 0 0 0 0.

(** [columnAmounts], in the order of the columns. *)
Definition columnAmounts (d : usageStatDelta) : list Z :=
  [d.(RequestCount); d.(SuccessCount); d.(FailureCount); d.(d_UncachedInputTokens); d.(d_OutputTokens);
   d.(d_CacheReadTokens); d.(d_CacheWrite5MTokens); d.(d_CacheWrite1HTokens); d.(d_CacheWriteUnknownTokens);
   d.(d_EstimatedCostNanoUSD); d.(d_EstimatedCostNano); d.(UsageMissingCount); d.(PartialCount);
   d.(UnpricedRequestCount); d.(PricingPartialCount)].

Inductive AggregateError := CheckedAddition (field : string) | InvalidStatus | InvalidUsageState | InvalidPricingState (what : string)
| InvalidCompletionTime | ZeroCredential | InvalidFailureCategory.

Definition checkedInt64Add (target value : Z) (field : string) : result AggregateError Z :=
  match CheckedAdd target value with Some total => Ok total | None => Err (CheckedAddition field) end.

Definition rowTokens (row : RequestLog) : Tokens :=
  mkTokens row.(UncachedInputTokens) row.(CacheReadTokens) row.(CacheWrite5MTokens) row.(CacheWrite1HTokens)
    row.(CacheWriteUnknownTokens) row.(OutputTokens).

Definition validatePersistedPricingState (row : RequestLog) : option string :=
  err_if (existsb (fun v => v <? 0)
            [row.(UncachedInputTokens); row.(OutputTokens); row.(CacheReadTokens); row.(CacheWrite5MTokens);
             row.(CacheWrite1HTokens); row.(CacheWriteUnknownTokens)]) "negative token value"%string ;;!
  err_if (match CheckedTotal (rowTokens row) with None => true | Some _ => false end) "token total overflows int64"%string ;;!
  LogMapper.validateFrozenPricingState row.(UsageState) row.(rl_CostState) row.(PricingCompleteness) row.(EstimatedCostNanoUSD).

Definition billable (s : State) : bool := bool_decide (s = StateComplete) || bool_decide (s = StatePartial).

(** [addRow]: the first failing addition or check ends it. *)
Definition addRow (delta : usageStatDelta) (row : RequestLog) : result AggregateError usageStatDelta :=
  let? requests := checkedInt64Add delta.(RequestCount) 1 "request_count" in
  let? (success, failure) :=
    match row.(Status) with
    | RequestStatusSuccess => let? s := checkedInt64Add delta.(SuccessCount) 1 "success_count" in Ok (s, delta.(FailureCount))
    | RequestStatusError | RequestStatusIncomplete | RequestStatusCanceled =>
        let? f := checkedInt64Add delta.(FailureCount) 1 "failure_count" in Ok (delta.(SuccessCount), f)
    | RequestStatusOther _ => Err InvalidStatus
    end in
  let? (missing, partial) :=
    match row.(UsageState) with
    | StateMissing => let? m := checkedInt64Add delta.(UsageMissingCount) 1 "usage_missing_count" in Ok (m, delta.(PartialCount))
    | StatePartial => let? p := checkedInt64Add delta.(PartialCount) 1 "partial_count" in Ok (delta.(UsageMissingCount), p)
    | StateComplete | StateNotApplicable => Ok (delta.(UsageMissingCount), delta.(PartialCount))
    | StateOther _ => Err InvalidUsageState
    end in
  let? unpriced :=
    if billable row.(UsageState) && bool_decide (row.(rl_CostState) = CostStateUnpriced)
    then checkedInt64Add delta.(UnpricedRequestCount) 1 "unpriced_request_count" else Ok delta.(UnpricedRequestCount) in
  let? pricingPartial :=
    if bool_decide (row.(rl_CostState) = CostStatePriced) && bool_decide (row.(PricingCompleteness) = CompletenessPartial)
    then checkedInt64Add delta.(PricingPartialCount) 1 "pricing_partial_count" else Ok delta.(PricingPartialCount) in
  match validatePersistedPricingState row with
  | Some e => Err (InvalidPricingState e)
  | None =>
    let counted := delta <| RequestCount := requests |> <| SuccessCount := success |> <| FailureCount := failure |>
                     <| UsageMissingCount := missing |> <| PartialCount := partial |> <| UnpricedRequestCount := unpriced |>
                     <| PricingPartialCount := pricingPartial |> in
    if negb (billable row.(UsageState)) then Ok counted
    else
      let? input := checkedInt64Add delta.(d_UncachedInputTokens) row.(UncachedInputTokens) "uncached_input_tokens" in
      let? output := checkedInt64Add delta.(d_OutputTokens) row.(OutputTokens) "output_tokens" in
      let? cacheRead := checkedInt64Add delta.(d_CacheReadTokens) row.(CacheReadTokens) "cache_read_tokens" in
      let? write5m := checkedInt64Add delta.(d_CacheWrite5MTokens) row.(CacheWrite5MTokens) "cache_write_5m_tokens" in
      let? write1h := checkedInt64Add delta.(d_CacheWrite1HTokens) row.(CacheWrite1HTokens) "cache_write_1h_tokens" in
      let? unknown := checkedInt64Add delta.(d_CacheWriteUnknownTokens) row.(CacheWriteUnknownTokens) "cache_write_unknown_tokens" in
      let metered := counted <| d_UncachedInputTokens := input |> <| d_OutputTokens := output |> <| d_CacheReadTokens := cacheRead |>
                       <| d_CacheWrite5MTokens := write5m |> <| d_CacheWrite1HTokens := write1h |>
                       <| d_CacheWriteUnknownTokens := unknown |> in
      if negb (bool_decide (row.(rl_CostState) = CostStatePriced)) then Ok metered
      else
        match CheckedAddNanoUSD delta.(d_EstimatedCostNanoUSD) row.(EstimatedCostNanoUSD) with
        | None => Err (CheckedAddition "estimated_cost_nano_usd")
        | Some cost =>
            let? settled := checkedInt64Add delta.(d_EstimatedCostNano) row.(EstimatedCostNano) "estimated_cost_nano" in
            Ok (metered <| d_EstimatedCostNanoUSD := cost |> <| d_EstimatedCostNano := settled |>)
        end
  end.

(** Unforwarded requests and web searches are logged but not aggregated. *)
Definition aggregated (row : RequestLog) : bool :=
  negb ((row.(AttemptCount) =? 0) || bool_decide (row.(rl_Operation) = OperationWebSearch)).

Definition usageAggregationRows (rows : list RequestLog) : list RequestLog := List.filter aggregated rows.

Definition hourOf (ms : Z) : result AggregateError Z :=
  match Epochms.AlignDown ms Epochms.MillisecondsPerHour with Ok start => Ok start | Err _ => Err InvalidCompletionTime end.

Definition statKey (bucket : Z) (row : RequestLog) : usageStatKey :=
  mkStatKey bucket row.(AccessKeyID) row.(rl_ChannelID) row.(rl_GroupID) row.(rl_CredentialID) row.(UpstreamModel) row.(rl_Currency).

Fixpoint usageDeltasFrom (deltas : gmap usageStatKey usageStatDelta) (rows : list RequestLog)
  : result AggregateError (gmap usageStatKey usageStatDelta) :=
  match rows with
  | [] => Ok deltas
  | row :: rest =>
    let? bucket := hourOf row.(rl_CompletedAtMS) in
    let key := statKey bucket row in
    let? delta := addRow (default zeroDelta (deltas !! key)) row in
    usageDeltasFrom (<[key := delta]> deltas) rest
  end.

Definition buildUsageStatDeltas (rows : list RequestLog) : result AggregateError (gmap usageStatKey usageStatDelta) := usageDeltasFrom ∅ rows.

(** ** Outcomes of attempts *)

Record attemptStat := mkAttemptStat { a_SuccessCount : Z; a_FailureCount : Z }.

Abbreviation credentialAttemptStatKey := (Z * Z)%type.

Fixpoint attemptDeltasFrom (deltas : gmap credentialAttemptStatKey attemptStat) (attempts : list RequestLogAttempt)
  : result AggregateError (gmap credentialAttemptStatKey attemptStat) :=
  match attempts with
  | [] => Ok deltas
  | attempt :: rest =>
    if attempt.(CredentialID) =? 0 then Err ZeroCredential
    else if bool_decide (attempt.(ra_DispatchState) = DispatchLocal) then attemptDeltasFrom deltas rest
    else if bool_decide (attempt.(ra_FailureCategory) = FailureCategoryDownstreamCancel) then attemptDeltasFrom deltas rest
    else
      let? bucket := hourOf attempt.(CompletedAtMS) in
      let key := (attempt.(CredentialID), bucket) in
      let delta := default (mkAttemptStat 0 0) (deltas !! key) in
      let? delta :=
        match attempt.(ra_FailureCategory) with
        | FailureCategoryOK =>
            let? s := checkedInt64Add delta.(a_SuccessCount) 1 "credential attempt success_count" in
            Ok (mkAttemptStat s delta.(a_FailureCount))
        | FailureCategoryOther _ | FailureCategoryDownstreamCancel => Err InvalidFailureCategory
        | _ =>
            let? f := checkedInt64Add delta.(a_FailureCount) 1 "credential attempt failure_count" in
            Ok (mkAttemptStat delta.(a_SuccessCount) f)
        end in
      attemptDeltasFrom (<[key := delta]> deltas) rest
  end.

Definition buildCredentialAttemptStatDeltas (attempts : list RequestLogAttempt) : result AggregateError (gmap credentialAttemptStatKey attemptStat) :=
  attemptDeltasFrom ∅ attempts.

(** ** Decision and guardrail calls *)

Record autoKey := mkAutoKey {
  ak_Bucket : Z;
  ak_AccessKeyID : Z;
  ak_GroupID : Z;
  ak_ChannelID : string;
  ak_CredentialID : Z;
  ak_Model : string;
  ak_Currency : string;
}.

#[export] Instance autoKey_eq_dec : EqDecision autoKey.
Proof. solve_decision. Defined.
#[export] Instance autoKey_countable : Countable autoKey.
Proof.
  refine (inj_countable' (fun k => (k.(ak_Bucket), k.(ak_AccessKeyID), k.(ak_GroupID), k.(ak_ChannelID), k.(ak_CredentialID), k.(ak_Model), k.(ak_Currency)))
            (fun '(b, a, g, c, d, m, u) => mkAutoKey b a g c d m u) _).
  now intros [].
Defined.

Record autoStat := mkAutoStat { au_CostNanoUSD : Z; au_CostNano : Z; au_Unpriced : Z; au_Partial : Z }.

Definition flag (b : bool) : Z := if b then 1 else 0.

(** The call of a row that is accounted, if it has a model and is priced in some way. *)
Definition accounted (c : CallColumns) : bool :=
  negb (emptyText c.(cc_Model)) && negb (bool_decide (c.(cc_Completeness) = CompletenessNotApplicable)).

Definition autoStatOf (row : RequestLog) (bucket : Z) (c : CallColumns) (unpriced partial : bool) : autoKey * autoStat :=
  (mkAutoKey bucket row.(AccessKeyID) c.(cc_GroupID) c.(cc_ChannelID) c.(cc_CredentialID) c.(cc_Model) row.(rl_Currency),
   mkAutoStat c.(cc_CostNanoUSD) c.(cc_CostNano) (flag unpriced) (flag partial)).

Definition is_completeness (c : CallColumns) (v : Completeness) : bool := bool_decide (c.(cc_Completeness) = v).

Definition autoStatsOfRow (row : RequestLog) : list (autoKey * autoStat) :=
  let bucket := row.(rl_CompletedAtMS) - Z.rem row.(rl_CompletedAtMS) Epochms.MillisecondsPerHour in
  let answerUnpriced := bool_decide (row.(rl_CostState) = CostStateUnpriced) && billable row.(UsageState) in
  let answerPartial := bool_decide (row.(PricingCompleteness) = CompletenessPartial) in
  let d := row.(Decision) in
  let a := row.(Audit) in
  (if accounted d then
     [autoStatOf row bucket d (is_completeness d CompletenessUnavailable && negb answerUnpriced)
        (is_completeness d CompletenessPartial && negb answerPartial)]
   else []) ++
  (if accounted a then
     [autoStatOf row bucket a
        (is_completeness a CompletenessUnavailable && negb (is_completeness d CompletenessUnavailable) && negb answerUnpriced)
        (is_completeness a CompletenessPartial && negb (is_completeness d CompletenessPartial) && negb answerPartial)]
   else []).

(** ** Tables *)

Record DB := mkDB {
  request_logs : gmap string RequestLog;
  request_log_attempts : gmap (string * Z) RequestLogAttempt;
  usage_stats : gmap usageStatKey usageStatDelta;
  credential_attempt_stats : gmap credentialAttemptStatKey attemptStat;
  auto_decision_usage_stats : gmap autoKey autoStat;
}.

Definition emptyDB : DB := mkDB ∅ ∅ ∅ ∅ ∅.

(** *** CHECK constraints *)

(** Which states, completeness and cost go together. *)
Definition pricingChecks (usage : State) (costState : CostState) (completeness : Completeness) (cost : Z) : bool :=
  let state s := bool_decide (costState = s) in
  let complete c := bool_decide (completeness = c) in
  match usage with
  | StateNotApplicable => state CostStateNotApplicable && complete CompletenessNotApplicable && (cost =? 0)
  | StateMissing => state CostStateUnpriced && complete CompletenessUnavailable && (cost =? 0)
  | StateComplete | StatePartial =>
      state CostStateUnpriced && complete CompletenessUnavailable && (cost =? 0) ||
      state CostStatePriced && (complete CompletenessComplete || complete CompletenessPartial)
  | StateOther _ => false
  end.

Definition requestLogChecks (row : RequestLog) : bool :=
  (0 <=? row.(rl_CompletedAtMS)) &&
  match row.(rl_ModelConsistency) with ModelConsistencyOther _ => false | _ => true end &&
  match row.(Status) with RequestStatusOther _ => false | _ => true end &&
  match row.(FirstResponseMs) with Some ms => 0 <=? ms | None => true end &&
  (0 <=? row.(DurationMs)) && (0 <=? row.(AttemptCount)) &&
  (0 <=? row.(UncachedInputTokens)) && (0 <=? row.(OutputTokens)) && (0 <=? row.(CacheReadTokens)) &&
  (0 <=? row.(CacheWrite5MTokens)) && (0 <=? row.(CacheWrite1HTokens)) && (0 <=? row.(CacheWriteUnknownTokens)) &&
  (0 <=? row.(EstimatedCostNanoUSD)) &&
  pricingChecks row.(UsageState) row.(rl_CostState) row.(PricingCompleteness) row.(EstimatedCostNanoUSD).

(** [currency ~ '^[A-Z]{3}$']. *)
Definition currencyChecks (currency : string) : bool :=
  (String.length currency =? 3)%nat && forallb (fun c => (65 <=? byte_val c) && (byte_val c <=? 90)) (bytes currency).

(** The constraints the later migrations add. *)
Definition migratedChecks (row : RequestLog) : bool :=
  currencyChecks row.(rl_Currency) &&
  (0 <? row.(ExchangeRateMicros)) && (0 <=? row.(EstimatedCostNano)) && (0 <=? row.(Decision).(cc_CostNano)) &&
  (0 <=? row.(Audit).(cc_CostNanoUSD)) && (0 <=? row.(Audit).(cc_CostNano)) && (0 <=? row.(UpstreamCostNanoUSD)) &&
  pricingChecks row.(UsageState) row.(UpstreamCostState) row.(UpstreamPricingCompleteness) row.(UpstreamCostNanoUSD).

Definition attemptChecks (a : RequestLogAttempt) : bool :=
  (0 <? a.(Sequence)) && (0 <=? a.(CompletedAtMS)) && (0 <? a.(GroupID)) && (0 <? a.(CredentialID)) && (0 <=? a.(ra_DurationMs)) &&
  match a.(ra_FailureCategory) with FailureCategoryOther _ => false | _ => true end &&
  match a.(FailureOrigin) with ErrorOriginOther _ => false | _ => true end &&
  match a.(FailureScope) with ErrorScopeOther _ => false | _ => true end &&
  match a.(ra_RetryDirective) with RetryOther raw => emptyText raw | _ => true end &&
  match a.(ra_Effect) with EffectOther raw => emptyText raw | EffectCooldownModel => bool_decide (is_Some a.(CooldownUntilMS)) | _ => true end &&
  match a.(CooldownUntilMS) with Some ms => 0 <=? ms | None => true end &&
  match a.(ra_Action) with ActionOther _ => false | _ => true end.

Definition statChecks (d : usageStatDelta) : bool :=
  forallb (fun v => 0 <=? v) (columnAmounts d) && (d.(RequestCount) =? d.(SuccessCount) + d.(FailureCount)).

(** *** Statements *)

(** [CASE WHEN column > max - amount THEN -1 ELSE column + amount END]. *)
Definition increment (column amount : Z) : Z := if column >? max_int64 - amount then -1 else column + amount.

Definition incremented (old d : usageStatDelta) : usageStatDelta :=
  mkDelta (increment old.(RequestCount) d.(RequestCount)) (increment old.(SuccessCount) d.(SuccessCount))
    (increment old.(FailureCount) d.(FailureCount)) (increment old.(d_UncachedInputTokens) d.(d_UncachedInputTokens))
    (increment old.(d_OutputTokens) d.(d_OutputTokens)) (increment old.(d_CacheReadTokens) d.(d_CacheReadTokens))
    (increment old.(d_CacheWrite5MTokens) d.(d_CacheWrite5MTokens)) (increment old.(d_CacheWrite1HTokens) d.(d_CacheWrite1HTokens))
    (increment old.(d_CacheWriteUnknownTokens) d.(d_CacheWriteUnknownTokens))
    (increment old.(d_EstimatedCostNanoUSD) d.(d_EstimatedCostNanoUSD)) (increment old.(d_EstimatedCostNano) d.(d_EstimatedCostNano))
    (increment old.(UsageMissingCount) d.(UsageMissingCount)) (increment old.(PartialCount) d.(PartialCount))
    (increment old.(UnpricedRequestCount) d.(UnpricedRequestCount)) (increment old.(PricingPartialCount) d.(PricingPartialCount)).

(** The statements of a list, in order, until one fails. *)
Fixpoint foldM {A B} (f : B -> A -> option B) (b : B) (l : list A) : option B :=
  match l with [] => Some b | a :: rest => b ← f b a; foldM f b rest end.

Definition insertRow (t : gmap string RequestLog) (row : RequestLog) : option (gmap string RequestLog) :=
  if bool_decide (is_Some (t !! row.(ID))) || negb (requestLogChecks row && migratedChecks row) then None
  else Some (<[row.(ID) := row]> t).

Definition insertAttempt (t : gmap (string * Z) RequestLogAttempt) (a : RequestLogAttempt) : option (gmap (string * Z) RequestLogAttempt) :=
  let key := (a.(RequestID), a.(Sequence)) in
  if bool_decide (is_Some (t !! key)) || negb (attemptChecks a) then None else Some (<[key := a]> t).

Definition upsertUsageStat (t : gmap usageStatKey usageStatDelta) (entry : usageStatKey * usageStatDelta) : option (gmap usageStatKey usageStatDelta) :=
  let '(key, delta) := entry in
  let row := match t !! key with Some old => incremented old delta | None => delta end in
  if (0 <=? key.(BucketStartMS)) && currencyChecks key.(k_Currency) && statChecks row then Some (<[key := row]> t) else None.

Definition upsertAttemptStat (t : gmap credentialAttemptStatKey attemptStat) (entry : credentialAttemptStatKey * attemptStat)
  : option (gmap credentialAttemptStatKey attemptStat) :=
  let '(key, d) := entry in
  let row := match t !! key with
             | Some old => mkAttemptStat (increment old.(a_SuccessCount) d.(a_SuccessCount)) (increment old.(a_FailureCount) d.(a_FailureCount))
             | None => d end in
  if (0 <? key.1) && (0 <=? key.2) && (0 <=? row.(a_SuccessCount)) && (0 <=? row.(a_FailureCount)) then Some (<[key := row]> t) else None.

Definition upsertAutoStat (t : gmap autoKey autoStat) (entry : autoKey * autoStat) : option (gmap autoKey autoStat) :=
  let '(key, d) := entry in
  let row := match t !! key with
             | Some old => mkAutoStat (increment old.(au_CostNanoUSD) d.(au_CostNanoUSD)) (increment old.(au_CostNano) d.(au_CostNano))
                             (increment old.(au_Unpriced) d.(au_Unpriced)) (increment old.(au_Partial) d.(au_Partial))
             | None => d end in
  if currencyChecks key.(ak_Currency) && (0 <=? row.(au_CostNanoUSD)) && (0 <=? row.(au_CostNano)) && (0 <=? row.(au_Unpriced)) && (0 <=? row.(au_Partial))
  then Some (<[key := row]> t) else None.

(** The order in which keys are visited, the same on every instance.  The comparisons of the
    sources are chains of [if left.X != right.X { return left.X < right.X }]. *)
Definition by_int (l r : Z) (rest : bool) : bool := if negb (l =? r) then (l <? r) else rest.
Definition by_text (l r : string) (rest : bool) : bool := if negb (String.eqb l r) then String.ltb l r else rest.

Definition usageKeyLess (l r : usageStatKey) : bool :=
  by_int l.(BucketStartMS) r.(BucketStartMS) (by_int l.(k_AccessKeyID) r.(k_AccessKeyID)
    (by_text l.(k_ChannelID) r.(k_ChannelID) (by_int l.(k_GroupID) r.(k_GroupID)
      (by_int l.(k_CredentialID) r.(k_CredentialID) (by_text l.(k_Model) r.(k_Model) (String.ltb l.(k_Currency) r.(k_Currency))))))).

Definition attemptKeyLess (l r : credentialAttemptStatKey) : bool := by_int l.1 r.1 (l.2 <? r.2).

Definition autoKeyLess (l r : autoKey) : bool :=
  by_int l.(ak_Bucket) r.(ak_Bucket) (by_int l.(ak_AccessKeyID) r.(ak_AccessKeyID)
    (by_int l.(ak_GroupID) r.(ak_GroupID) (by_text l.(ak_ChannelID) r.(ak_ChannelID)
      (by_int l.(ak_CredentialID) r.(ak_CredentialID) (by_text l.(ak_Model) r.(ak_Model) (String.ltb l.(ak_Currency) r.(ak_Currency))))))).

Definition entryOrder {K V} (less : K -> K -> bool) (l r : K * V) : Prop := less r.1 l.1 = false.
#[export] Instance entryOrder_dec {K V} (less : K -> K -> bool) : RelDecision (@entryOrder K V less).
Proof. intros l r. unfold entryOrder. apply _. Defined.

Definition sortedEntries {K V} (less : K -> K -> bool) (entries : list (K * V)) : list (K * V) := merge_sort (entryOrder less) entries.

Definition applyUsageStatDeltas (t : gmap usageStatKey usageStatDelta) (deltas : gmap usageStatKey usageStatDelta) :=
  foldM upsertUsageStat t (sortedEntries usageKeyLess (map_to_list deltas)).

Definition applyCredentialAttemptStats (t : gmap credentialAttemptStatKey attemptStat) (deltas : gmap credentialAttemptStatKey attemptStat) :=
  foldM upsertAttemptStat t (sortedEntries attemptKeyLess (map_to_list deltas)).

Definition writeAutoDecisionUsage (t : gmap autoKey autoStat) (rows : list RequestLog) :=
  foldM upsertAutoStat t (sortedEntries autoKeyLess (concat (map autoStatsOfRow rows))).

Definition writeRequestLogBatch (db : DB) (rows : list RequestLog) : option DB :=
  if isEmpty rows then Some db
  else
    logs ← foldM insertRow db.(request_logs) rows;
    auto ← writeAutoDecisionUsage db.(auto_decision_usage_stats) rows;
    attempts ← foldM insertAttempt db.(request_log_attempts) (concat (map AttemptRows rows));
    Some (db <| request_logs := logs |> <| auto_decision_usage_stats := auto |> <| request_log_attempts := attempts |>).

(** ** Writing a batch *)

Inductive WriteError := QueryFailed | Aggregation (e : AggregateError) | TransactionFailed.

(** The first row of every identifier. *)
Fixpoint uniqueRows (seen : gset string) (rows : list RequestLog) : list RequestLog :=
  match rows with
  | [] => []
  | row :: rest => if bool_decide (row.(ID) ∈ seen) then uniqueRows seen rest else row :: uniqueRows ({[row.(ID)]} ∪ seen) rest
  end.

(** [prepareNewRequestLogRows], [existing] being the answer of the query. *)
Definition prepareNewRequestLogRows (existing : gset string) (rows : list RequestLog) : list RequestLog :=
  List.filter (fun row => negb (bool_decide (row.(ID) ∈ existing))) (uniqueRows ∅ rows).

(** The transaction of a batch that was aggregated. *)
Definition transaction (fault : bool) (db : DB) (rows : list RequestLog) (attemptDeltas : gmap credentialAttemptStatKey attemptStat)
    (usageDeltas : gmap usageStatKey usageStatDelta) : option DB :=
  db ← writeRequestLogBatch db rows;
  attempts ← applyCredentialAttemptStats db.(credential_attempt_stats) attemptDeltas;
  stats ← applyUsageStatDeltas db.(usage_stats) usageDeltas;
  if fault then None else Some (db <| credential_attempt_stats := attempts |> <| usage_stats := stats |>).

(** [WriteBatch]: the identifiers are queried first ([None] when that fails), outside the
    transaction. *)
Definition WriteBatch (existing : option (gset string)) (fault : bool) (db : DB) (rows : list RequestLog) : result WriteError DB :=
  match existing with
  | None => Err QueryFailed
  | Some existing =>
    match prepareNewRequestLogRows existing rows with
    | [] => Ok db
    | newRows =>
      let usageRows := usageAggregationRows newRows in
      match buildUsageStatDeltas usageRows with
      | Err e => Err (Aggregation e)
      | Ok usageDeltas =>
        match buildCredentialAttemptStatDeltas (concat (map AttemptRows usageRows)) with
        | Err e => Err (Aggregation e)
        | Ok attemptDeltas =>
          match transaction fault db newRows attemptDeltas usageDeltas with
          | None => Err TransactionFailed
          | Some db => Ok db
          end
        end
      end
    end
  end.

(** What a failed call leaves is what it found. *)
Definition written (db : DB) (r : result WriteError DB) : DB := match r with Ok db' => db' | Err _ => db end.

(** ** Retention *)

Definition retentionBatchSize : nat := 1000.

Definition retentionCutoffMS (nowMS days : Z) : option Z :=
  if days <? 0 then None
  else let retentionMS := days * Epochms.MillisecondsPerDay in
       Some (if retentionMS >? nowMS then 0 else nowMS - retentionMS).

(** [ORDER BY completed_at_ms ASC, id ASC]. *)
Definition expiryOrder (l r : string * RequestLog) : Prop :=
  by_int r.2.(rl_CompletedAtMS) l.2.(rl_CompletedAtMS) (String.ltb r.1 l.1) = false.
#[export] Instance expiryOrder_dec : RelDecision expiryOrder.
Proof. intros l r. unfold expiryOrder. apply _. Defined.

Definition expired (cutoffMS : Z) (db : DB) : list (string * RequestLog) :=
  merge_sort expiryOrder (filter (fun e => e.2.(rl_CompletedAtMS) < cutoffMS) (map_to_list db.(request_logs))).

(** Deleting rows deletes their attempts with them. *)
Definition deleteRows (ids : gset string) (db : DB) : DB :=
  db <| request_logs := filter (fun e => e.1 ∉ ids) db.(request_logs) |>
     <| request_log_attempts := filter (fun e => e.1.1 ∉ ids) db.(request_log_attempts) |>.

(** Batches are deleted until one is short; [fuel] bounds the rounds. *)
Fixpoint deleteExpiredRequestLogs (fuel : nat) (cutoffMS : Z) (db : DB) : option DB :=
  match fuel with
  | O => None
  | S fuel =>
    let ids := take retentionBatchSize (map fst (expired cutoffMS db)) in
    if isEmpty ids then Some db
    else let db := deleteRows (list_to_set ids) db in
         if (length ids <? retentionBatchSize)%nat then Some db else deleteExpiredRequestLogs fuel cutoffMS db
  end.

End LogStore.
