(* ===== verification/UsageReport.v ===== *)
(** * Usage reports

    [internal/requestlog/usage_query.go], [usage_query_window.go], [usage_query_minute.go],
    [group_usage.go], [access_key_total_cost.go] and [credential_window_usage.go]: what the
    database holds is read back as totals, series, distributions and rankings.

    A query is the list of rows its SELECT yields; rows without an ORDER BY come in the order
    of [map_to_list], and no result depends on it.  [SUM] is exact and a sum that no [int64]
    holds fails the scan.  The order of texts in the database is an argument. *)

From Stdlib Require Import ZArith Lia Bool String Ascii List Permutation.
From stdpp Require Import base gmap list strings sorting.
From coqutil Require Import Datatypes.RecordSettersUsingExistingGetters.
From S2P Require Import Prelude GoStrings Usage Money Pricing Execution Contracts LogEvent LogMapper LogStore.

Local Open Scope Z_scope.
Local Open Scope go_scope.

Module UsageReport.
Import Usage Money Pricing Execution Contracts.
Import Telemetry(RequestStatus, RequestStatusSuccess, RequestStatusError, RequestStatusIncomplete, RequestStatusCanceled,
  FailureCategory, FailureCategoryOK, FailureCategoryDownstreamCancel).
Import LogRow LogStore.

Definition UsageFiveMinuteBucketMS : Z := 5 * 60 * 1000.
Definition hourMS : Z := Epochms.MillisecondsPerHour.
Definition dayMS : Z := Epochms.MillisecondsPerDay.

(** ** Queries *)

Inductive UsageGranularity := GranularityMinute | GranularityHour | GranularityDay.

Definition ResolveUsageTimeBucket (fromMS toMS : Z) : option (UsageGranularity * Z) :=
  if (fromMS <? 0) || (toMS <=? fromMS) || (toMS >? 2 ^ 53 - 1) then None
  else
    let spanMS := toMS - fromMS in
    Some (if spanMS <=? 6 * hourMS then (GranularityMinute, UsageFiveMinuteBucketMS)
          else if spanMS <=? dayMS then (GranularityHour, hourMS)
          else if spanMS <=? 3 * dayMS then (GranularityHour, 3 * hourMS)
          else if spanMS <=? 7 * dayMS then (GranularityHour, 6 * hourMS)
          else if spanMS <=? 15 * dayMS then (GranularityHour, 12 * hourMS)
          else (GranularityDay, (Z.quot (spanMS - 1) (30 * dayMS) + 1) * dayMS)).

Record UsageQuery := mkQuery {
  SelfScoped : bool;
  FromMS : Z;
  ToMS : Z;
  q_AccessKeyID : option Z;
  q_GroupID : option Z;
  q_ChannelID : string;
  q_CredentialID : option Z;
  q_UpstreamModel : string;
  q_Currency : string;
}.

Definition zeroID (id : option Z) : bool := match id with Some id => id =? 0 | None => false end.

Definition validateUsageQuery (input : UsageQuery) : option Z :=
  match ResolveUsageTimeBucket input.(FromMS) input.(ToMS) with
  | None => None
  | Some (_, width) =>
      if zeroID input.(q_AccessKeyID) ||
         (negb (emptyText input.(q_ChannelID)) && negb (LogMapper.validChannelID input.(q_ChannelID))) ||
         zeroID input.(q_CredentialID) ||
         match ParseCurrencyCode input.(q_Currency) with Ok _ => false | Err _ => true end
      then None else Some width
  end.

Definition idFilter (wanted : option Z) (id : Z) : bool := match wanted with Some w => id =? w | None => true end.
Definition textFilter (wanted value : string) : bool := emptyText wanted || String.eqb value wanted.

(** The conditions a scope adds for a query and for the groups of a page. *)
Definition selected (input : UsageQuery) (groupIDs : list Z) (accessKey : Z) (channel : string) (group credential : Z) (model : string) : bool :=
  (isEmpty groupIDs || existsb (Z.eqb group) groupIDs) && idFilter input.(q_GroupID) group && textFilter input.(q_ChannelID) channel &&
  idFilter input.(q_CredentialID) credential && idFilter input.(q_AccessKeyID) accessKey && textFilter input.(q_UpstreamModel) model.

Definition within (fromMS toMS t : Z) : bool := (fromMS <=? t) && (t <? toMS).

(** ** Rows *)

(** A row of [usage_rows]: [usageWindowColumns] and the width of the bucket it comes from. *)
Record UsageRow := mkUsageRow {
  u_Bucket : Z;
  u_GroupID : Z;
  u_AccessKeyID : Z;
  u_Model : string;
  u_Currency : string;
  u_Amounts : usageStatDelta;
  u_Alignment : Z;
}.

(** [usageRequestLogProjection]. *)
Definition projectedAmounts (row : RequestLog) : usageStatDelta :=
  let metered v := if billable row.(UsageState) then v else 0 in
  mkDelta 1 (flag (bool_decide (row.(Status) = RequestStatusSuccess)))
    (flag (match row.(Status) with RequestStatusError | RequestStatusIncomplete | RequestStatusCanceled => true | _ => false end))
    (metered row.(UncachedInputTokens)) (metered row.(OutputTokens)) (metered row.(CacheReadTokens))
    (metered row.(CacheWrite5MTokens)) (metered row.(CacheWrite1HTokens)) (metered row.(CacheWriteUnknownTokens))
    row.(EstimatedCostNanoUSD) row.(EstimatedCostNano)
    (flag (bool_decide (row.(UsageState) = StateMissing))) (flag (bool_decide (row.(UsageState) = StatePartial)))
    (flag (billable row.(UsageState) && bool_decide (row.(rl_CostState) = CostStateUnpriced)))
    (flag (bool_decide (row.(rl_CostState) = CostStatePriced) && bool_decide (row.(PricingCompleteness) = CompletenessPartial))).

(** [decisionUsageProjection]: a call is a cost, never a request. *)
Definition callAmounts (s : autoStat) : usageStatDelta :=
  mkDelta 0 0 0 0 0 0 0 0 0 s.(au_CostNanoUSD) s.(au_CostNano) 0 0 s.(au_Unpriced) s.(au_Partial).

Definition fiveMinutes (t : Z) : Z := t - Z.rem t UsageFiveMinuteBucketMS.

Definition unbound (group : Z) (model : string) : bool := (group =? 0) && emptyText model.

Section Scopes.
Variables (db : DB) (input : UsageQuery) (groupIDs : list Z).

Definition decisionUsageScope : list UsageRow :=
  map (fun '(k, s) => mkUsageRow k.(ak_Bucket) k.(ak_GroupID) k.(ak_AccessKeyID) k.(ak_Model) k.(ak_Currency) (callAmounts s) hourMS)
    (List.filter (fun '(k, s) =>
       within input.(FromMS) input.(ToMS) k.(ak_Bucket) &&
       selected input groupIDs k.(ak_AccessKeyID) k.(ak_ChannelID) k.(ak_GroupID) k.(ak_CredentialID) k.(ak_Model))
       (map_to_list db.(auto_decision_usage_stats))).

Definition usageStatScope : list UsageRow :=
  map (fun '(k, d) => mkUsageRow k.(BucketStartMS) k.(k_GroupID) k.(k_AccessKeyID) k.(k_Model) k.(k_Currency) d hourMS)
    (List.filter (fun '(k, d) =>
       within input.(FromMS) input.(ToMS) k.(BucketStartMS) && negb (unbound k.(k_GroupID) k.(k_Model)) &&
       selected input groupIDs k.(k_AccessKeyID) k.(k_ChannelID) k.(k_GroupID) k.(k_CredentialID) k.(k_Model))
       (map_to_list db.(usage_stats))) ++ decisionUsageScope.

(** [decisionRequestScope] and [auditRequestScope] select the columns of one call; the
    projection counts what [autoStatsOfRow] claims for it. *)
Definition callRow (row : RequestLog) (call : autoKey * autoStat) : UsageRow :=
  mkUsageRow (fiveMinutes row.(rl_CompletedAtMS)) call.1.(ak_GroupID) call.1.(ak_AccessKeyID) call.1.(ak_Model) call.1.(ak_Currency)
    (callAmounts call.2) UsageFiveMinuteBucketMS.

Definition callSelected (call : autoKey * autoStat) : bool :=
  selected input groupIDs call.1.(ak_AccessKeyID) call.1.(ak_ChannelID) call.1.(ak_GroupID) call.1.(ak_CredentialID) call.1.(ak_Model).

Definition decisionRequestScope (rows : list RequestLog) : list UsageRow :=
  concat (map (fun row =>
    let d := row.(Decision) in
    let answerUnpriced := bool_decide (row.(rl_CostState) = CostStateUnpriced) && billable row.(UsageState) in
    let call := autoStatOf row 0 d (is_completeness d CompletenessUnavailable && negb answerUnpriced)
                  (is_completeness d CompletenessPartial && negb (bool_decide (row.(PricingCompleteness) = CompletenessPartial))) in
    if within input.(FromMS) input.(ToMS) row.(rl_CompletedAtMS) && accounted d && callSelected call then [callRow row call] else []) rows).

Definition auditRequestScope (rows : list RequestLog) : list UsageRow :=
  concat (map (fun row =>
    let a := row.(Audit) in
    let d := row.(Decision) in
    let answerUnpriced := bool_decide (row.(rl_CostState) = CostStateUnpriced) && billable row.(UsageState) in
    let call := autoStatOf row 0 a
                  (is_completeness a CompletenessUnavailable && negb (is_completeness d CompletenessUnavailable) && negb answerUnpriced)
                  (is_completeness a CompletenessPartial && negb (is_completeness d CompletenessPartial) &&
                   negb (bool_decide (row.(PricingCompleteness) = CompletenessPartial))) in
    if within input.(FromMS) input.(ToMS) row.(rl_CompletedAtMS) && accounted a && callSelected call then [callRow row call] else []) rows).

Definition requestSelected (row : RequestLog) : bool :=
  within input.(FromMS) input.(ToMS) row.(rl_CompletedAtMS) && (0 <? row.(AttemptCount)) &&
  negb (unbound row.(rl_GroupID) row.(UpstreamModel)) && negb (bool_decide (row.(rl_Operation) = OperationWebSearch)) &&
  selected input groupIDs row.(AccessKeyID) row.(rl_ChannelID) row.(rl_GroupID) row.(rl_CredentialID) row.(UpstreamModel).

Definition requestRow (row : RequestLog) : UsageRow :=
  mkUsageRow (fiveMinutes row.(rl_CompletedAtMS)) row.(rl_GroupID) row.(AccessKeyID) row.(UpstreamModel) row.(rl_Currency)
    (projectedAmounts row) UsageFiveMinuteBucketMS.

(** [usageRequestLogScope], over the rows of the table. *)
Definition requestScopeOf (rows : list RequestLog) : list UsageRow :=
  map requestRow (List.filter requestSelected rows) ++ decisionRequestScope rows ++ auditRequestScope rows.

Definition usageRequestLogScope : list UsageRow := requestScopeOf (map snd (map_to_list db.(request_logs))).

End Scopes.

Definition windowOf (input : UsageQuery) (fromMS toMS : Z) : UsageQuery := input <| FromMS := fromMS |> <| ToMS := toMS |>.

(** The hours that lie completely in a window. *)
Definition fullFrom (fromMS : Z) : Z := let r := Z.rem fromMS hourMS in if r =? 0 then fromMS else fromMS + (hourMS - r).
Definition fullTo (toMS : Z) : Z := toMS - Z.rem toMS hourMS.

Definition usageWindowScope (db : DB) (input : UsageQuery) (groupIDs : list Z) : list UsageRow :=
  if input.(ToMS) - input.(FromMS) <=? hourMS then usageRequestLogScope db input groupIDs
  else
    let full_from := fullFrom input.(FromMS) in
    let full_to := fullTo input.(ToMS) in
    let boundary a b := if b <=? a then [] else usageRequestLogScope db (windowOf input a b) groupIDs in
    usageStatScope db (windowOf input full_from full_to) groupIDs ++ boundary input.(FromMS) full_from ++ boundary full_to input.(ToMS).

(** ** Sums *)

Definition addDelta (a b : usageStatDelta) : usageStatDelta :=
  mkDelta (a.(RequestCount) + b.(RequestCount)) (a.(SuccessCount) + b.(SuccessCount)) (a.(FailureCount) + b.(FailureCount))
    (a.(d_UncachedInputTokens) + b.(d_UncachedInputTokens)) (a.(d_OutputTokens) + b.(d_OutputTokens))
    (a.(d_CacheReadTokens) + b.(d_CacheReadTokens)) (a.(d_CacheWrite5MTokens) + b.(d_CacheWrite5MTokens))
    (a.(d_CacheWrite1HTokens) + b.(d_CacheWrite1HTokens)) (a.(d_CacheWriteUnknownTokens) + b.(d_CacheWriteUnknownTokens))
    (a.(d_EstimatedCostNanoUSD) + b.(d_EstimatedCostNanoUSD)) (a.(d_EstimatedCostNano) + b.(d_EstimatedCostNano))
    (a.(UsageMissingCount) + b.(UsageMissingCount)) (a.(PartialCount) + b.(PartialCount))
    (a.(UnpricedRequestCount) + b.(UnpricedRequestCount)) (a.(PricingPartialCount) + b.(PricingPartialCount)).

(** [CASE WHEN currency = ? THEN estimated_cost_nano ELSE 0 END]. *)
Definition settledIn (currency : string) (row : UsageRow) : usageStatDelta :=
  if String.eqb row.(u_Currency) currency then row.(u_Amounts) else row.(u_Amounts) <| d_EstimatedCostNano := 0 |>.

(** [usageAggregateSelect]; [UsageAggregate] has the fields of [usageStatDelta]. *)
Definition sumRows (currency : string) (rows : list UsageRow) : usageStatDelta :=
  fold_right (fun row total => addDelta (settledIn currency row) total) zeroDelta rows.

Definition scanned (d : usageStatDelta) : bool := forallb is_int64 (columnAmounts d).

Definition usageAggregateTotalTokens (a : usageStatDelta) : option Z :=
  checkedLoop 0 [a.(d_UncachedInputTokens); a.(d_CacheReadTokens); a.(d_CacheWrite5MTokens); a.(d_CacheWrite1HTokens);
                 a.(d_CacheWriteUnknownTokens); a.(d_OutputTokens)].

Definition validateUsageAggregate (a : usageStatDelta) : bool :=
  forallb (fun v => 0 <=? v)
    [a.(RequestCount); a.(SuccessCount); a.(FailureCount); a.(d_UncachedInputTokens); a.(d_CacheReadTokens); a.(d_CacheWrite5MTokens);
     a.(d_CacheWrite1HTokens); a.(d_CacheWriteUnknownTokens); a.(d_OutputTokens); a.(UsageMissingCount); a.(PartialCount);
     a.(UnpricedRequestCount); a.(PricingPartialCount)] &&
  bool_decide (CheckedAdd a.(SuccessCount) a.(FailureCount) = Some a.(RequestCount)) &&
  bool_decide (is_Some (usageAggregateTotalTokens a)) && (0 <=? a.(d_EstimatedCostNanoUSD)) && (0 <=? a.(d_EstimatedCostNano)).

(** A total read from the database. *)
Definition aggregate (currency : string) (rows : list UsageRow) : option usageStatDelta :=
  let total := sumRows currency rows in
  if scanned total && validateUsageAggregate total then Some total else None.

Definition rowIntact (alignment : Z) (row : UsageRow) : bool :=
  let a := row.(u_Amounts) in
  (0 <=? row.(u_Bucket)) && (Z.rem row.(u_Bucket) alignment =? 0) &&
  forallb (fun v => 0 <=? v)
    [a.(RequestCount); a.(SuccessCount); a.(FailureCount); a.(UsageMissingCount); a.(PartialCount); a.(UnpricedRequestCount); a.(PricingPartialCount)] &&
  (a.(SuccessCount) <=? a.(RequestCount)) && (a.(RequestCount) - a.(SuccessCount) =? a.(FailureCount)) &&
  forallb (fun v => 0 <=? v)
    [a.(d_UncachedInputTokens); a.(d_OutputTokens); a.(d_CacheReadTokens); a.(d_CacheWrite5MTokens); a.(d_CacheWrite1HTokens); a.(d_CacheWriteUnknownTokens)] &&
  (0 <=? a.(d_EstimatedCostNanoUSD)).

(** [validateUsageIntegrity]: width 0 takes the one each row carries. *)
Definition validateUsageIntegrity (rows : list UsageRow) (width : Z) : bool :=
  forallb (fun row => rowIntact (if width =? 0 then row.(u_Alignment) else width) row) rows.

(** ** Reports *)

(** [GROUP BY]: the distinct keys with their rows. *)
Definition groupBy {K} `{EqDecision K} (key : UsageRow -> K) (rows : list UsageRow) : list (K * list UsageRow) :=
  map (fun k => (k, List.filter (fun row => bool_decide (key row = k)) rows)) (remove_dups (map key rows)).

Definition intLess (l r : Z) : Prop := l <= r.
#[export] Instance intLess_dec : RelDecision intLess.
Proof. intros l r. unfold intLess. apply _. Defined.

Record UsageSeriesPoint := mkPoint { p_BucketStartMS : Z; p_BucketEndMS : Z; p_Aggregate : usageStatDelta }.

Definition byFirst {A} (l r : Z * A) : Prop := l.1 <= r.1.
#[export] Instance byFirst_dec {A} : RelDecision (@byFirst A).
Proof. intros l r. unfold byFirst. apply _. Defined.

Definition seriesPoint (input : UsageQuery) (widthMS : Z) (bucket : Z * list UsageRow) : option UsageSeriesPoint :=
  total ← aggregate input.(q_Currency) bucket.2;
  let endMS := if input.(ToMS) - bucket.1 >? widthMS then bucket.1 + widthMS else input.(ToMS) in
  Some (mkPoint (Z.max bucket.1 input.(FromMS)) endMS total).

Definition queryUsageWindowSeries (scope : list UsageRow) (input : UsageQuery) (widthMS : Z) : option (list UsageSeriesPoint) :=
  mapM (seriesPoint input widthMS)
    (merge_sort byFirst (groupBy (fun row => row.(u_Bucket) - Z.rem row.(u_Bucket) widthMS) scope)).

Inductive Dimension := DimensionGroup | DimensionModel | DimensionAccessKey.
Inductive Metric := MetricRequests | MetricTokens | MetricCost.

Record DistributionAggregate := mkShare { s_RequestCount : Z; s_TotalTokens : Z; s_CostNanoUSD : Z; s_CostNano : Z }.

Record DistributionItem := mkItem { i_GroupID : Z; i_AccessKeyID : Z; i_Model : string; i_Share : DistributionAggregate }.

Record UsageDistribution := mkDistribution { Items : list DistributionItem; Other : option DistributionAggregate }.

Definition shareOf (currency : string) (rows : list UsageRow) : DistributionAggregate :=
  let a := sumRows currency rows in
  mkShare a.(RequestCount)
    (a.(d_UncachedInputTokens) + a.(d_CacheReadTokens) + a.(d_CacheWrite5MTokens) + a.(d_CacheWrite1HTokens) +
     a.(d_CacheWriteUnknownTokens) + a.(d_OutputTokens))
    a.(d_EstimatedCostNanoUSD) a.(d_EstimatedCostNano).

Definition shareScanned (s : DistributionAggregate) : bool :=
  is_int64 s.(s_RequestCount) && is_int64 s.(s_TotalTokens) && is_int64 s.(s_CostNanoUSD) && is_int64 s.(s_CostNano).

Definition addShares (l r : DistributionAggregate) : option DistributionAggregate :=
  requests ← CheckedAdd l.(s_RequestCount) r.(s_RequestCount);
  tokens ← CheckedAdd l.(s_TotalTokens) r.(s_TotalTokens);
  cost ← CheckedAddNanoUSD l.(s_CostNanoUSD) r.(s_CostNanoUSD);
  settled ← CheckedAdd l.(s_CostNano) r.(s_CostNano);
  Some (mkShare requests tokens cost settled).

Definition subtractShare (total : usageStatDelta) (part : DistributionAggregate) : option DistributionAggregate :=
  tokens ← usageAggregateTotalTokens total;
  if (part.(s_RequestCount) <? 0) || (part.(s_RequestCount) >? total.(RequestCount)) ||
     (part.(s_TotalTokens) <? 0) || (part.(s_TotalTokens) >? tokens) ||
     (part.(s_CostNanoUSD) <? 0) || (part.(s_CostNanoUSD) >? total.(d_EstimatedCostNanoUSD)) ||
     (part.(s_CostNano) <? 0) || (part.(s_CostNano) >? total.(d_EstimatedCostNano))
  then None
  else Some (mkShare (total.(RequestCount) - part.(s_RequestCount)) (tokens - part.(s_TotalTokens))
               (total.(d_EstimatedCostNanoUSD) - part.(s_CostNanoUSD)) (total.(d_EstimatedCostNano) - part.(s_CostNano))).

Definition usageDistributionLimit : nat := 5.

(** The groups and access keys that exist, and the order of texts. *)
Record Catalog := mkCatalog { knownGroups : gset Z; knownKeys : gset Z; textLess : string -> string -> bool }.

Definition dimensionKey (dimension : Dimension) (row : UsageRow) : Z * Z * string :=
  match dimension with
  | DimensionGroup => (row.(u_GroupID), 0, ""%string)
  | DimensionModel => (0, 0, row.(u_Model))
  | DimensionAccessKey => (0, row.(u_AccessKeyID), ""%string)
  end.

Definition known (c : Catalog) (dimension : Dimension) (row : UsageRow) : bool :=
  match dimension with
  | DimensionGroup => bool_decide (row.(u_GroupID) ∈ c.(knownGroups))
  | DimensionModel => true
  | DimensionAccessKey => bool_decide (row.(u_AccessKeyID) ∈ c.(knownKeys))
  end.

Definition shareRanks (metric : Metric) (s : DistributionAggregate) : list Z :=
  match metric with
  | MetricRequests => [s.(s_RequestCount); s.(s_CostNanoUSD)]
  | MetricTokens => [s.(s_TotalTokens); s.(s_RequestCount); s.(s_CostNanoUSD)]
  | MetricCost => [s.(s_CostNanoUSD); s.(s_RequestCount)]
  end.

(** Larger ranks come first, then the key decides. *)
Fixpoint ranksBefore (l r : list Z) (tie : bool) : bool :=
  match l, r with
  | a :: l, b :: r => if a =? b then ranksBefore l r tie else b <? a
  | _, _ => tie
  end.

Definition itemBefore (c : Catalog) (dimension : Dimension) (metric : Metric) (l r : DistributionItem) : bool :=
  ranksBefore (shareRanks metric l.(i_Share)) (shareRanks metric r.(i_Share))
    (match dimension with
     | DimensionGroup => l.(i_GroupID) <? r.(i_GroupID)
     | DimensionModel => c.(textLess) l.(i_Model) r.(i_Model)
     | DimensionAccessKey => l.(i_AccessKeyID) <? r.(i_AccessKeyID)
     end).

Definition itemOrder (c : Catalog) (dimension : Dimension) (metric : Metric) (l r : DistributionItem) : Prop :=
  itemBefore c dimension metric r l = false.
#[export] Instance itemOrder_dec c dimension metric : RelDecision (itemOrder c dimension metric).
Proof. intros l r. unfold itemOrder. apply _. Defined.

Definition distributionItems (c : Catalog) (scope : list UsageRow) (dimension : Dimension) (metric : Metric) (currency : string) : list DistributionItem :=
  take usageDistributionLimit (merge_sort (itemOrder c dimension metric)
    (map (fun '((g, k, m), rows) => mkItem g k m (shareOf currency rows))
       (groupBy (dimensionKey dimension) (List.filter (known c dimension) scope)))).

Definition queryUsageDistribution (c : Catalog) (scope : list UsageRow) (summary : usageStatDelta) (dimension : Dimension) (metric : Metric)
    (currency : string) : option UsageDistribution :=
  '(scope, summary) ←
    match dimension with
    | DimensionGroup =>
        let scope := List.filter (fun row => 0 <? row.(u_GroupID)) scope in
        summary ← aggregate currency scope; Some (scope, summary)
    | _ => Some (scope, summary)
    end;
  let items := distributionItems c scope dimension metric currency in
  if negb (forallb (fun i => shareScanned i.(i_Share)) items) then None
  else
    visible ← foldM addShares (mkShare 0 0 0 0) (map i_Share items);
    other ← subtractShare summary visible;
    Some (mkDistribution items
            (if (0 <? other.(s_RequestCount)) || (0 <? other.(s_TotalTokens)) || (0 <? other.(s_CostNanoUSD)) || (0 <? other.(s_CostNano))
             then Some other else None)).

Definition queryUsageDistributions (c : Catalog) (scope : list UsageRow) (summary : usageStatDelta) (input : UsageQuery)
  : option (list (Dimension * Metric * UsageDistribution)) :=
  mapM (fun '(dimension, metric) => d ← queryUsageDistribution c scope summary dimension metric input.(q_Currency); Some (dimension, metric, d))
    (list_prod (if input.(SelfScoped) then [DimensionModel] else [DimensionGroup; DimensionModel; DimensionAccessKey])
       [MetricRequests; MetricTokens; MetricCost]).

Definition otherCurrency (currency : string) (row : UsageRow) : bool :=
  negb (String.eqb row.(u_Currency) currency) && (0 <? row.(u_Amounts).(d_EstimatedCostNanoUSD)).

Definition textOrder (c : Catalog) (l r : string) : Prop := c.(textLess) r l = false.
#[export] Instance textOrder_dec c : RelDecision (textOrder c).
Proof. intros l r. unfold textOrder. apply _. Defined.

Definition queryOtherCurrencies (c : Catalog) (scope : list UsageRow) (currency : string) : list string :=
  merge_sort (textOrder c) (remove_dups (map u_Currency (List.filter (otherCurrency currency) scope))).

Record Report := mkReport {
  Summary : usageStatDelta;
  Series : list UsageSeriesPoint;
  Distributions : list (Dimension * Metric * UsageDistribution);
  OtherCurrencies : list string;
}.

Definition QueryUsage (c : Catalog) (db : DB) (input : UsageQuery) : option Report :=
  width ← validateUsageQuery input;
  let scope := if width =? UsageFiveMinuteBucketMS then usageRequestLogScope db input [] else usageWindowScope db input [] in
  if negb (validateUsageIntegrity scope 0) then None
  else
    summary ← aggregate input.(q_Currency) scope;
    series ← queryUsageWindowSeries scope input width;
    distributions ← queryUsageDistributions c scope summary input;
    Some (mkReport summary series distributions (queryOtherCurrencies c scope input.(q_Currency))).

(** ** Groups of a page *)

Definition MaxGroupUsageBatchSize : nat := 100.

(** [requestLogWindowRetained]: the policy may be absent. *)
Definition requestLogWindowRetained (policyDays : option Z) (nowMS fromMS : Z) : bool :=
  match policyDays with
  | None => false
  | Some days => match retentionCutoffMS nowMS days with Some cutoff => cutoff <=? fromMS | None => false end
  end.

Definition QueryGroupUsage (policyDays : option Z) (nowMS : Z) (db : DB) (groupIDs : list Z) (fromMS toMS : Z) (currency : string)
  : option (gmap Z usageStatDelta * bool) :=
  let input := mkQuery false fromMS toMS None None "" None "" currency in
  _ ← validateUsageQuery input;
  if isEmpty groupIDs || (MaxGroupUsageBatchSize <? length groupIDs)%nat || existsb (Z.eqb 0) groupIDs || negb (bool_decide (NoDup groupIDs)) then None
  else
    let scope := usageWindowScope db input groupIDs in
    if negb (validateUsageIntegrity scope 0) then None
    else
      rows ← mapM (fun '(g, rows) => total ← aggregate currency rows; Some (g, total)) (groupBy u_GroupID scope);
      Some (list_to_map rows ∪ list_to_map (map (fun g => (g, zeroDelta)) groupIDs),
            ((hourMS <? toMS - fromMS) && (Z.rem fromMS hourMS =? 0) && (Z.rem toMS hourMS =? 0)) ||
            requestLogWindowRetained policyDays nowMS fromMS).

(** ** The cost of an access key since it exists *)

Definition QueryAccessKeyTotalCost (db : DB) (accessKeyID : Z) (currency : string) : option Z :=
  if accessKeyID =? 0 then None
  else
    let scope := usageStatScope db (mkQuery false 0 max_int64 (Some accessKeyID) None "" None "" "") [] in
    if negb (validateUsageIntegrity scope hourMS) then None
    else summary ← aggregate currency scope; Some summary.(d_EstimatedCostNano).

(** ** The window of a credential *)

Record CredentialWindowUsage := mkCredentialWindow { cw_Aggregate : usageStatDelta; DataComplete : bool; LastUsedAtMS : option Z }.

(** [credentialRequestLogUsageSelect]: every column as it is stored, without the cost in the
    settlement currency. *)
Definition credentialAmounts (row : RequestLog) : usageStatDelta :=
  let success := bool_decide (row.(Status) = RequestStatusSuccess) in
  mkDelta 1 (flag success) (flag (negb success)) row.(UncachedInputTokens) row.(OutputTokens) row.(CacheReadTokens)
    row.(CacheWrite5MTokens) row.(CacheWrite1HTokens) row.(CacheWriteUnknownTokens) row.(EstimatedCostNanoUSD) 0
    (flag (bool_decide (row.(UsageState) = StateMissing))) (flag (bool_decide (row.(UsageState) = StatePartial)))
    (flag (bool_decide (row.(rl_CostState) = CostStateUnpriced))) (flag (bool_decide (row.(PricingCompleteness) = CompletenessPartial))).

Definition sumDeltas (ds : list usageStatDelta) : usageStatDelta := fold_right addDelta zeroDelta ds.

Definition latest (times : list Z) : option Z :=
  match times with [] => None | t :: rest => Some (fold_left Z.max rest t) end.

Definition credentialRows (db : DB) (credentialID fromMS toMS : Z) : list RequestLog :=
  List.filter (fun row => (row.(rl_CredentialID) =? credentialID) && negb (bool_decide (row.(rl_Operation) = OperationWebSearch)) &&
                          within fromMS toMS row.(rl_CompletedAtMS)) (map snd (map_to_list db.(request_logs))).

Definition queryCredentialRequestLogUsage (policyDays : option Z) (nowMS : Z) (db : DB) (credentialID fromMS toMS : Z) : option CredentialWindowUsage :=
  let rows := credentialRows db credentialID fromMS toMS in
  let total := sumDeltas (map credentialAmounts rows) in
  if scanned total && validateUsageAggregate total
  then Some (mkCredentialWindow total (requestLogWindowRetained policyDays nowMS fromMS) (latest (map rl_CompletedAtMS rows)))
  else None.

Definition alignHourUp (value : Z) : option Z :=
  match Epochms.AlignDown value hourMS with
  | Err _ => None
  | Ok aligned => if aligned =? value then Some value
                  else if aligned >? max_int64 - hourMS then None else Some (aligned + hourMS)
  end.

Definition addUsageAggregates (l r : usageStatDelta) : option usageStatDelta :=
  let checked (f : usageStatDelta -> Z) := CheckedAdd (f l) (f r) in
  requests ← checked RequestCount; successes ← checked SuccessCount; failures ← checked FailureCount;
  input ← checked d_UncachedInputTokens; cacheRead ← checked d_CacheReadTokens; write5m ← checked d_CacheWrite5MTokens;
  write1h ← checked d_CacheWrite1HTokens; unknown ← checked d_CacheWriteUnknownTokens; output ← checked d_OutputTokens;
  missing ← checked UsageMissingCount; partial ← checked PartialCount; unpriced ← checked UnpricedRequestCount;
  pricingPartial ← checked PricingPartialCount;
  cost ← CheckedAddNanoUSD l.(d_EstimatedCostNanoUSD) r.(d_EstimatedCostNanoUSD);
  settled ← checked d_EstimatedCostNano;
  let sum := mkDelta requests successes failures input output cacheRead write5m write1h unknown cost settled missing partial unpriced pricingPartial in
  if validateUsageAggregate sum then Some sum else None.

Definition laterOf (l r : option Z) : option Z :=
  match l, r with Some a, Some b => Some (if b >? a then b else a) | None, r => r | l, None => l end.

Definition mergeBoundary (policyDays : option Z) (nowMS : Z) (db : DB) (credentialID fromMS toMS : Z) (result : CredentialWindowUsage)
  : option CredentialWindowUsage :=
  if toMS <=? fromMS then Some result
  else
    boundary ← queryCredentialRequestLogUsage policyDays nowMS db credentialID fromMS toMS;
    total ← addUsageAggregates result.(cw_Aggregate) boundary.(cw_Aggregate);
    Some (mkCredentialWindow total (result.(DataComplete) && boundary.(DataComplete)) (laterOf result.(LastUsedAtMS) boundary.(LastUsedAtMS))).

(** The aggregates of a credential in a range of hours. *)
Definition credentialHours (db : DB) (credentialID fromMS toMS : Z) : list UsageRow :=
  map (fun '(k, d) => mkUsageRow k.(BucketStartMS) k.(k_GroupID) k.(k_AccessKeyID) k.(k_Model) k.(k_Currency) d hourMS)
    (List.filter (fun '(k, d) => (k.(k_CredentialID) =? credentialID) && within fromMS toMS k.(BucketStartMS)) (map_to_list db.(usage_stats))).

Definition queryCredentialHourlyUsage (policyDays : option Z) (nowMS : Z) (db : DB) (credentialID fromMS toMS : Z) : option CredentialWindowUsage :=
  full_from ← alignHourUp fromMS;
  full_to ← (match Epochms.AlignDown toMS hourMS with Ok v => Some v | Err _ => None end);
  result ← (if full_from <? full_to then
              let rows := credentialHours db credentialID full_from full_to in
              if negb (validateUsageIntegrity rows hourMS) then None
              else total ← aggregate CurrencyUSD rows; Some (mkCredentialWindow total true (latest (map u_Bucket rows)))
            else Some (mkCredentialWindow zeroDelta true None));
  let startTo := if full_from >? toMS then toMS else full_from in
  result ← mergeBoundary policyDays nowMS db credentialID fromMS startTo result;
  let endFrom := if full_to <? startTo then startTo else full_to in
  mergeBoundary policyDays nowMS db credentialID endFrom toMS result.

Inductive WindowSource := SourceRequestLogs | SourceHourlyStats | SourceOther (raw : string).

Definition QueryCredentialWindowUsage (policyDays : option Z) (nowMS : Z) (db : DB) (credentialID fromMS toMS : Z) (source : WindowSource)
  : option CredentialWindowUsage :=
  if (credentialID =? 0) || (fromMS <? 0) || (toMS <=? fromMS) then None
  else match source with
       | SourceRequestLogs => queryCredentialRequestLogUsage policyDays nowMS db credentialID fromMS toMS
       | SourceHourlyStats => queryCredentialHourlyUsage policyDays nowMS db credentialID fromMS toMS
       | SourceOther _ => None
       end.

End UsageReport.
