(* ===== verification/LogStoreProps.v ===== *)
(** * Amounts, tables of amounts and the statements of a batch

    A commutative monoid of amounts ([Amounts]) with its tables; what one row and one batch of
    the request log add to the hourly aggregates ([LogStore]). *)

From Stdlib Require Import ZArith Lia Bool String Ascii List Permutation.
From stdpp Require Import base gmap list strings sorting.
From coqutil Require Import Datatypes.RecordSettersUsingExistingGetters.
From S2P Require Import Prelude GoStrings Usage Money Pricing Execution Contracts LogEvent LogMapper LogStore UsageReport.

Local Open Scope Z_scope.
Local Open Scope go_scope.

(** ** Tables of amounts

    What is counted is a commutative monoid; a table of amounts is a finite map into it, and
    [bump] adds to one entry. *)

Class Amounts (V : Type) := { aadd : V -> V -> V; azero : V }.
Class AmountsLaws (V : Type) `{Amounts V} : Prop := {
  aadd_assoc : forall a b c, aadd a (aadd b c) = aadd (aadd a b) c;
  aadd_comm : forall a b, aadd a b = aadd b a;
  aadd_zero : forall a, aadd azero a = a;
}.

Definition bump {K V} `{Countable K} `{Amounts V} (t : gmap K V) (entry : K * V) : gmap K V :=
  <[entry.1 := match t !! entry.1 with Some old => aadd old entry.2 | None => entry.2 end]> t.

(** The table of a list of entries, and the sum of a list of amounts. *)
Definition tally {K V} `{Countable K} `{Amounts V} (entries : list (K * V)) : gmap K V := fold_left bump entries ∅.
Definition asum {V} `{Amounts V} (l : list V) : V := fold_right aadd azero l.

Section Tables.
Context {K V : Type} `{Countable K} `{AmountsLaws V}.
Implicit Types (t u : gmap K V) (e : K * V) (k : K).

Definition plus t u : gmap K V := union_with (fun a b => Some (aadd a b)) t u.

Lemma lookup_bump t e k :
  bump t e !! k = if decide (e.1 = k) then Some (match t !! k with Some old => aadd old e.2 | None => e.2 end) else t !! k.
Proof. unfold bump. destruct (decide (e.1 = k)) as [<-|Hne]; [apply lookup_insert_eq|now apply lookup_insert_ne]. Qed.

Lemma bump_comm t e e' : bump (bump t e) e' = bump (bump t e') e.
Proof.
  apply map_eq. intros k. rewrite !lookup_bump.
  destruct (decide (e.1 = k)), (decide (e'.1 = k)); try reflexivity. f_equal.
  destruct (t !! k); [|apply aadd_comm]. now rewrite <- !aadd_assoc, (aadd_comm e.2).
Qed.

Lemma fold_bump_permutation t l l' : l ≡ₚ l' -> fold_left bump l t = fold_left bump l' t.
Proof.
  intros Hp. revert t. induction Hp as [|e l l' Hp IH|e e' l|l l1 l2 H1' IH1 H2' IH2]; intros t; cbn.
  - reflexivity.
  - apply IH.
  - now rewrite bump_comm.
  - now rewrite IH1.
Qed.

Lemma bump_plus t u e : bump (plus t u) e = plus t (bump u e).
Proof.
  apply map_eq. intros k. unfold plus. rewrite lookup_bump, !lookup_union_with, lookup_bump.
  destruct (decide (e.1 = k)); [|reflexivity].
  destruct (t !! k), (u !! k); cbn; try reflexivity. now rewrite aadd_assoc.
Qed.

Lemma fold_bump_plus t l : fold_left bump l t = plus t (tally l).
Proof.
  unfold tally. assert (Hg : forall u, fold_left bump l (plus t u) = plus t (fold_left bump l u)).
  { induction l as [|e l IH]; intros u; cbn; [reflexivity|]. now rewrite bump_plus, IH. }
  rewrite <- Hg. f_equal. apply map_eq. intros k. unfold plus. rewrite lookup_union_with, lookup_empty. now destruct (t !! k).
Qed.

Lemma plus_nil t : plus t (tally []) = t.
Proof. rewrite <- fold_bump_plus. reflexivity. Qed.

Lemma tally_app l l' : tally (l ++ l') = plus (tally l) (tally l').
Proof. unfold tally at 1. rewrite fold_left_app. apply fold_bump_plus. Qed.

(** Adding the entries of a table, in whatever order, adds the table. *)
Lemma tally_map_to_list u : tally (map_to_list u) = u.
Proof.
  induction u as [|k v u Hk IH] using map_ind; [reflexivity|].
  assert (Ht : tally (map_to_list (<[k:=v]> u)) = plus (tally [(k, v)]) (tally (map_to_list u))).
  { rewrite <- tally_app. unfold tally. apply fold_bump_permutation. now apply map_to_list_insert. }
  rewrite Ht, IH.
  apply map_eq. intros j. unfold plus. rewrite lookup_union_with. unfold tally. cbn [fold_left].
  rewrite lookup_bump, lookup_empty. cbn [fst snd].
  destruct (decide (k = j)) as [<-|Hne].
  - rewrite Hk, lookup_insert_eq. reflexivity.
  - rewrite lookup_insert_ne by exact Hne. now destruct (u !! j).
Qed.

(** *** Sums over a table *)

Lemma asum_cons (a : V) l : asum (a :: l) = aadd a (asum l).
Proof. reflexivity. Qed.

Lemma asum_app (l l' : list V) : asum (l ++ l') = aadd (asum l) (asum l').
Proof.
  induction l as [|a l IH]; [symmetry; apply aadd_zero|]. rewrite <- app_comm_cons, !asum_cons, IH. apply aadd_assoc.
Qed.

Lemma asum_permutation (l l' : list V) : l ≡ₚ l' -> asum l = asum l'.
Proof.
  induction 1 as [|a l l' Hp IH|a b l|l l1 l2 _ IH1 _ IH2]; rewrite ?asum_cons.
  - reflexivity.
  - now rewrite IH.
  - now rewrite !aadd_assoc, (aadd_comm a).
  - now rewrite IH1.
Qed.

End Tables.

(** The sum of a weight over a table is its sum over the entries the table was made from. *)
Section Weights.
Context {K V W : Type} `{Countable K} `{AmountsLaws V} `{AmountsLaws W}.
Variable w : K -> V -> W.
Hypothesis w_add : forall k a b, w k (aadd a b) = aadd (w k a) (w k b).

Definition weigh (e : K * V) : W := w e.1 e.2.

Lemma weigh_bump (t : gmap K V) e : asum (map weigh (map_to_list (bump t e))) = aadd (weigh e) (asum (map weigh (map_to_list t))).
Proof.
  unfold bump. destruct e as [k a]. cbn [fst snd]. destruct (t !! k) as [old|] eqn:Hk.
  - rewrite <- (insert_delete_id t k old Hk) at 2. rewrite <- insert_delete_eq.
    rewrite (asum_permutation _ _ (Permutation_map weigh (map_to_list_insert (delete k t) k (aadd old a) (lookup_delete_eq t k)))).
    rewrite (asum_permutation _ _ (Permutation_map weigh (map_to_list_insert (delete k t) k old (lookup_delete_eq t k)))).
    cbn [map]. rewrite !asum_cons. unfold weigh at 1 3 4. cbn [fst snd].
    rewrite w_add, (aadd_comm (w k old)). symmetry. apply aadd_assoc.
  - rewrite (asum_permutation _ _ (Permutation_map weigh (map_to_list_insert t k a Hk))). reflexivity.
Qed.

Lemma weigh_tally (l : list (K * V)) : asum (map weigh (map_to_list (tally l))) = asum (map weigh l).
Proof.
  unfold tally. assert (Hg : forall t, asum (map weigh (map_to_list (fold_left bump l t))) = aadd (asum (map weigh l)) (asum (map weigh (map_to_list t)))).
  { induction l as [|e l IH]; intros t; [symmetry; apply aadd_zero|]. cbn [fold_left map]. rewrite IH, weigh_bump, asum_cons.
    now rewrite aadd_assoc, (aadd_comm _ (weigh e)). }
  rewrite Hg, map_to_list_empty. cbn [map]. rewrite aadd_comm. apply aadd_zero.
Qed.

End Weights.

(** ** The amounts of the log *)

Module LogStoreProps.
Import Usage Money Pricing Execution Contracts.
Import Telemetry(RequestStatus, RequestStatusSuccess, RequestStatusError, RequestStatusIncomplete, RequestStatusCanceled,
  FailureCategory, FailureCategoryOK, FailureCategoryDownstreamCancel).
Import LogRow LogStore UsageReport.

#[export] Instance delta_amounts : Amounts usageStatDelta := { aadd := addDelta; azero := zeroDelta }.
#[export] Instance delta_laws : AmountsLaws usageStatDelta.
Proof.
  split; repeat intros []; unfold aadd, azero, delta_amounts, addDelta, zeroDelta; cbn -[Z.add]; f_equal; lia.
Qed.

#[export] Instance attempt_amounts : Amounts attemptStat :=
  { aadd := fun a b => mkAttemptStat (a.(a_SuccessCount) + b.(a_SuccessCount)) (a.(a_FailureCount) + b.(a_FailureCount));
    azero := mkAttemptStat 0 0 }.
#[export] Instance attempt_laws : AmountsLaws attemptStat.
Proof. split; repeat intros []; unfold aadd, azero, attempt_amounts; cbn -[Z.add]; f_equal; lia. Qed.

#[export] Instance auto_amounts : Amounts autoStat :=
  { aadd := fun a b => mkAutoStat (a.(au_CostNanoUSD) + b.(au_CostNanoUSD)) (a.(au_CostNano) + b.(au_CostNano))
                         (a.(au_Unpriced) + b.(au_Unpriced)) (a.(au_Partial) + b.(au_Partial));
    azero := mkAutoStat 0 0 0 0 }.
#[export] Instance auto_laws : AmountsLaws autoStat.
Proof. split; repeat intros []; unfold aadd, azero, auto_amounts; cbn -[Z.add]; f_equal; lia. Qed.

Lemma sumDeltas_asum l : sumDeltas l = asum l.
Proof. reflexivity. Qed.

(** *** One row *)

Definition hourStart (ms : Z) : Z := hourMS * (ms / hourMS).

(** What a row contributes to the hourly aggregates. *)
Definition usageEntry (row : RequestLog) : usageStatKey * usageStatDelta := (statKey (hourStart row.(rl_CompletedAtMS)) row, projectedAmounts row).

Lemma checked_inv a b f v : checkedInt64Add a b f = Ok v -> v = a + b.
Proof. unfold checkedInt64Add, CheckedAdd. destruct (_ || _ || _); [discriminate|]. now injection 1. Qed.

Lemma checkedUSD_inv a b v : CheckedAddNanoUSD a b = Some v -> v = a + b.
Proof. unfold CheckedAddNanoUSD. destruct (_ || _ || _); [discriminate|]. now injection 1. Qed.

(** The cost of a row that is not priced is zero, in dollars. *)
Lemma unpriced_free us cs c cost :
  LogMapper.validateFrozenPricingState us cs c cost = None -> cs <> CostStatePriced \/ billable us = false -> cost = 0.
Proof.
  unfold LogMapper.validateFrozenPricingState. intros Hv Hn. destruct (cost <? 0); [discriminate|].
  assert (Hz : forall b (w : string), err_if (b || negb (cost =? 0)) w = None -> cost = 0).
  { intros b w Hw. apply err_if_None, orb_false_iff in Hw as [_ Hw]. destruct (Z.eqb_spec cost 0); [assumption|discriminate]. }
  destruct us; try (destruct cs); try discriminate; try (eapply Hz; exact Hv); destruct Hn as [Hn|Hn]; discriminate || congruence.
Qed.

(** A row whose dollars are zero has no settled cost either; rows of events are such. *)
Definition sound (row : RequestLog) : Prop := row.(EstimatedCostNanoUSD) = 0 -> row.(EstimatedCostNano) = 0.

Lemma Settle_zero c : CurrencyValid c = true -> Settle c 0 = 0.
Proof.
  unfold CurrencyValid, NewCurrency. intros Hc. unfold Settle, FromNanoUSD, scaleRoundHalfUp.
  destruct (Z.leb_spec c.(RateMicros) 0) as [Hr|Hr].
  - exfalso. destruct (ParseCurrencyCode _); [|discriminate]. destruct (Z.leb_spec c.(RateMicros) 0); [discriminate|lia].
  - cbn [orb Z.ltb Z.compare Z.mul]. reflexivity.
Qed.

(** Invert the successful steps of a computation, one at a time. *)
Ltac step_ok Ha :=
  match type of Ha with
  | context [checkedInt64Add ?a ?b ?f] =>
      let E := fresh "Hadd" in destruct (checkedInt64Add a b f) eqn:E; [apply checked_inv in E|discriminate Ha]
  | context [CheckedAddNanoUSD ?a ?b] =>
      let E := fresh "Hadd" in destruct (CheckedAddNanoUSD a b) eqn:E; [apply checkedUSD_inv in E|discriminate Ha]
  end.

(** Evaluate the decisions about constants. *)
Ltac decide_constants :=
  repeat match goal with
  | H : context [@bool_decide ?P ?dec] |- _ =>
      let b := eval vm_compute in (@bool_decide P dec) in
      match b with true => idtac | false => idtac end; change (@bool_decide P dec) with b in H
  | |- context [@bool_decide ?P ?dec] =>
      let b := eval vm_compute in (@bool_decide P dec) in
      match b with true => idtac | false => idtac end; change (@bool_decide P dec) with b
  end.

Lemma delta_eq (d e : usageStatDelta) : columnAmounts d = columnAmounts e -> d = e.
Proof. destruct d, e. unfold columnAmounts. cbn. now intros [= -> -> -> -> -> -> -> -> -> -> -> -> -> -> ->]. Qed.

(** [addRow] adds exactly what the minute report projects. *)
Lemma addRow_exact d row d' : sound row -> addRow d row = Ok d' -> d' = addDelta d (projectedAmounts row).
Proof.
  intros Hs Ha. unfold addRow in Ha. destruct (validatePersistedPricingState row) eqn:Hv.
  { exfalso. repeat (step_ok Ha || match type of Ha with context [match ?x with _ => _ end] => destruct x; try discriminate Ha end). }
  unfold validatePersistedPricingState in Hv. no_error.
  pose proof (fun h => unpriced_free _ _ _ _ H1 h) as Hfree. unfold sound in Hs.
  unfold projectedAmounts.
  destruct row.(UsageState) eqn:Eu; try discriminate Ha;
    destruct row.(rl_CostState) eqn:Ec; try discriminate H1;
    destruct row.(Status) eqn:Es;
    destruct (bool_decide (row.(PricingCompleteness) = CompletenessPartial)) eqn:Ep;
    unfold billable in *; decide_constants; cbn -[checkedInt64Add CheckedAddNanoUSD] in Ha;
    repeat step_ok Ha; try discriminate Ha; apply (f_equal (fun r => match r with Ok v => v | Err _ => zeroDelta end)) in Ha; subst d';
    cbn in Hfree; try (rewrite Hfree in * by (first [now left|now right])); try (rewrite Hs by reflexivity);
    apply delta_eq; unfold columnAmounts; cbn -[Z.add]; subst; rewrite ?Z.add_0_r; reflexivity.
Qed.

Lemma addDelta_zero d : addDelta zeroDelta d = d.
Proof. exact (aadd_zero (V := usageStatDelta) d). Qed.

(** *** A batch *)

Lemma hourOf_start ms start : hourOf ms = Ok start -> start = hourStart ms.
Proof.
  unfold hourOf. destruct (Epochms.AlignDown ms Epochms.MillisecondsPerHour) eqn:E; [|discriminate].
  injection 1 as <-. now apply Epochms.AlignDown_hour in E as [_ ->].
Qed.

Lemma usageDeltasFrom_spec rows t t' :
  Forall sound rows -> usageDeltasFrom t rows = Ok t' -> t' = fold_left bump (map usageEntry rows) t.
Proof.
  intros Hs. revert t. induction Hs as [|row rows Hrow _ IH]; intros t Ht; cbn [usageDeltasFrom] in Ht.
  - now injection Ht as <-.
  - destruct (hourOf row.(rl_CompletedAtMS)) as [bucket|] eqn:Eb; [|discriminate Ht]. apply hourOf_start in Eb as ->.
    destruct (addRow _ row) as [d|] eqn:Ea; [|discriminate Ht]. apply addRow_exact in Ea; [|exact Hrow].
    apply IH in Ht as ->. cbn [map fold_left]. f_equal. unfold bump, usageEntry. cbn [fst snd]. subst d.
    destruct (t !! _) eqn:Et; cbn [default]; [reflexivity|]. now rewrite addDelta_zero.
Qed.

Lemma buildUsageStatDeltas_spec rows t : Forall sound rows -> buildUsageStatDeltas rows = Ok t -> t = tally (map usageEntry rows).
Proof. apply usageDeltasFrom_spec. Qed.

(** What an attempt contributes to the outcomes of its credential. *)
Definition attemptEntries (a : RequestLogAttempt) : list (credentialAttemptStatKey * attemptStat) :=
  if bool_decide (a.(ra_DispatchState) = DispatchLocal) || bool_decide (a.(ra_FailureCategory) = FailureCategoryDownstreamCancel) then []
  else let ok := bool_decide (a.(ra_FailureCategory) = FailureCategoryOK) in
       [((a.(CredentialID), hourStart a.(CompletedAtMS)), mkAttemptStat (flag ok) (flag (negb ok)))].

Lemma attemptDeltasFrom_spec attempts t t' :
  attemptDeltasFrom t attempts = Ok t' -> t' = fold_left bump (concat (map attemptEntries attempts)) t.
Proof.
  revert t. induction attempts as [|a rest IH]; intros t Ht; cbn [attemptDeltasFrom] in Ht.
  - now injection Ht as <-.
  - cbn [map concat]. rewrite fold_left_app. destruct (_ =? 0); [discriminate Ht|]. unfold attemptEntries at 2.
    destruct (bool_decide (a.(ra_DispatchState) = DispatchLocal)); cbn [orb fold_left]; [now apply IH|].
    destruct (bool_decide (a.(ra_FailureCategory) = FailureCategoryDownstreamCancel)) eqn:Ed; cbn [fold_left]; [now apply IH|].
    destruct (hourOf a.(CompletedAtMS)) as [bucket|] eqn:Eb; [|discriminate Ht]. apply hourOf_start in Eb as ->.
    set (key := (a.(CredentialID), hourStart a.(CompletedAtMS))) in *. unfold bump at 2. cbn [fst snd].
    destruct a.(ra_FailureCategory); try discriminate Ht; unfold aadd, attempt_amounts; destruct (t !! key) as [[s f]|]; cbn [default] in Ht;
      repeat step_ok Ht; apply IH in Ht as ->; do 2 f_equal; cbn -[Z.add]; subst; f_equal; decide_constants; cbn; lia.
Qed.

Lemma buildAttempts_spec attempts t : buildCredentialAttemptStatDeltas attempts = Ok t -> t = tally (concat (map attemptEntries attempts)).
Proof. apply attemptDeltasFrom_spec. Qed.

(** *** Upserts *)

Lemma increment_nonneg a b : 0 <= increment a b -> increment a b = a + b.
Proof. unfold increment. destruct (_ >? _); lia. Qed.

(** A stored increment is exact: an overflowing column is rejected. *)
Lemma upsertUsageStat_bump t e t' : upsertUsageStat t e = Some t' -> t' = bump t e.
Proof.
  destruct e as [k d]. unfold upsertUsageStat, bump. cbn [fst snd]. destruct (_ && _) eqn:Ec; [|discriminate]. intros [= <-]. f_equal.
  apply andb_true_iff in Ec as [_ Ec]. destruct (t !! k) as [old|]; [|reflexivity].
  unfold statChecks in Ec. apply andb_true_iff in Ec as [Ec _]. unfold columnAmounts in Ec. cbn [forallb incremented
    RequestCount SuccessCount FailureCount d_UncachedInputTokens d_OutputTokens d_CacheReadTokens d_CacheWrite5MTokens d_CacheWrite1HTokens
    d_CacheWriteUnknownTokens d_EstimatedCostNanoUSD d_EstimatedCostNano UsageMissingCount PartialCount UnpricedRequestCount PricingPartialCount] in Ec.
  zbool. unfold incremented, aadd, delta_amounts, addDelta. f_equal; now apply increment_nonneg.
Qed.

Lemma upsertAttemptStat_bump t e t' : upsertAttemptStat t e = Some t' -> t' = bump t e.
Proof.
  destruct e as [k d]. unfold upsertAttemptStat, bump. cbn [fst snd]. destruct (_ && _) eqn:Ec; [|discriminate]. intros [= <-]. f_equal.
  destruct (t !! k) as [old|]; [|reflexivity]. cbn [a_SuccessCount a_FailureCount] in Ec. zbool.
  unfold aadd, attempt_amounts. f_equal; now apply increment_nonneg.
Qed.

Lemma upsertAutoStat_bump t e t' : upsertAutoStat t e = Some t' -> t' = bump t e.
Proof.
  destruct e as [k d]. unfold upsertAutoStat, bump. cbn [fst snd]. destruct (_ && _) eqn:Ec; [|discriminate]. intros [= <-]. f_equal.
  destruct (t !! k) as [old|]; [|reflexivity]. cbn [au_CostNanoUSD au_CostNano au_Unpriced au_Partial] in Ec. zbool.
  unfold aadd, auto_amounts. f_equal; now apply increment_nonneg.
Qed.

Lemma foldM_bump {K V} `{Countable K} `{AmountsLaws V} (f : gmap K V -> K * V -> option (gmap K V)) :
  (forall t e t', f t e = Some t' -> t' = bump t e) -> forall l t t', foldM f t l = Some t' -> t' = plus t (tally l).
Proof.
  intros Hf l t t' Ht. rewrite <- fold_bump_plus. revert t Ht. induction l as [|e l IH]; intros t Ht; cbn [foldM fold_left] in *.
  - now injection Ht as <-.
  - destruct (f t e) as [u|] eqn:Ef; [|discriminate Ht]. apply Hf in Ef as ->. now apply IH.
Qed.

Lemma tally_permutation {K V} `{Countable K} `{AmountsLaws V} (l l' : list (K * V)) : l ≡ₚ l' -> tally l = tally l'.
Proof. apply fold_bump_permutation. Qed.

(** Whatever order the keys are visited in, the table grows by the table of the batch. *)
Lemma applied_sorted {K V} `{Countable K} `{AmountsLaws V} (f : gmap K V -> K * V -> option (gmap K V)) less l t t' :
  (forall t e t', f t e = Some t' -> t' = bump t e) -> foldM f t (sortedEntries less l) = Some t' -> t' = plus t (tally l).
Proof.
  intros Hf Ht. apply foldM_bump in Ht as ->; [|exact Hf]. f_equal. apply tally_permutation. unfold sortedEntries. apply merge_sort_Permutation.
Qed.

(** ** Sweeps *)

Lemma elem_of_expired cutoff db id :
  id ∈ map fst (expired cutoff db) <-> exists row, db.(request_logs) !! id = Some row /\ row.(rl_CompletedAtMS) < cutoff.
Proof.
  unfold expired. rewrite list_elem_of_fmap. split.
  - intros ([i row] & -> & Hin). rewrite merge_sort_Permutation in Hin. apply list_elem_of_filter in Hin as [Hc Hin].
    apply elem_of_map_to_list in Hin. now exists row.
  - intros (row & Hl & Hc). exists (id, row). split; [reflexivity|]. rewrite merge_sort_Permutation. apply list_elem_of_filter. split; [exact Hc|].
    now apply elem_of_map_to_list.
Qed.

Definition unexpired (cutoff : Z) (t : gmap string RequestLog) : gmap string RequestLog :=
  filter (fun e => ~ e.2.(rl_CompletedAtMS) < cutoff) t.

(** Sweeping ends, and leaves exactly the rows that have not expired. *)
Lemma deleteExpiredRequestLogs_exact fuel cutoff db :
  (size db.(request_logs) < fuel)%nat ->
  exists db', deleteExpiredRequestLogs fuel cutoff db = Some db' /\ db'.(request_logs) = unexpired cutoff db.(request_logs).
Proof.
  revert db. induction fuel as [|fuel IH]; intros db Hf; [lia|]. cbn [deleteExpiredRequestLogs].
  set (all := map fst (expired cutoff db)). set (ids := take retentionBatchSize all).
  assert (Hsub : forall id, id ∈ ids -> exists row, db.(request_logs) !! id = Some row /\ row.(rl_CompletedAtMS) < cutoff).
  { intros id Hid. apply elem_of_expired. unfold ids in Hid. eapply elem_of_subseteq; [|exact Hid]. intros x. apply subseteq_take. }
  destruct (isEmpty ids) eqn:He.
  { exists db. split; [reflexivity|]. symmetry. apply map_filter_id. intros id row Hl Hc.
    assert (Hin : id ∈ all) by (apply elem_of_expired; now exists row).
    unfold ids in He. destruct all; [now apply not_elem_of_nil in Hin|discriminate He]. }
  set (db1 := deleteRows (list_to_set ids) db).
  assert (Hrows : db1.(request_logs) = filter (fun e => e.1 ∉ (list_to_set ids : gset string)) db.(request_logs)) by reflexivity.
  assert (Hun : unexpired cutoff db1.(request_logs) = unexpired cutoff db.(request_logs)).
  { rewrite Hrows. unfold unexpired. apply map_eq. intros id. apply option_eq. intros row. rewrite !map_lookup_filter_Some. cbn.
    split; [tauto|]. intros [Hl Hc]. split; [|exact Hc]. split; [exact Hl|]. rewrite elem_of_list_to_set. intros Hin.
    apply Hsub in Hin as (row' & Hl' & Hc'). rewrite Hl in Hl'. now injection Hl' as <-. }
  destruct (Nat.ltb_spec (length ids) retentionBatchSize) as [Hshort|Hlong].
  - exists db1. split; [reflexivity|]. rewrite <- Hun. symmetry. apply map_filter_id. intros id row Hl Hc.
    rewrite Hrows in Hl. apply map_lookup_filter_Some in Hl as [Hl Hni]. apply Hni. cbn. rewrite elem_of_list_to_set.
    unfold ids in *. rewrite length_take in Hshort. assert (length all <= retentionBatchSize)%nat by (destruct (Nat.min_spec retentionBatchSize (length all)); lia). rewrite take_ge by assumption. apply elem_of_expired. now exists row.
  - destruct (IH db1) as (db' & Hd & Hr); [|exists db'; split; [exact Hd|congruence]].
    destruct ids as [|id rest] eqn:Eids; [discriminate He|]. destruct (Hsub id) as (row & Hl & Hc); [left|].
    enough (size db1.(request_logs) < size db.(request_logs))%nat by lia. rewrite Hrows.
    apply map_subset_size. apply map_subset_alt. split; [apply map_filter_subseteq|]. exists id. split; [|now exists row].
    apply map_lookup_filter_None. right. intros row' _ Hni. apply Hni. apply elem_of_list_to_set. left.
Qed.

End LogStoreProps.
