(* ===== verification/LogMapperProps.v ===== *)
(** * What a mapped row satisfies

    The rows [LogMapper.mapEvent] produces are accepted by the CHECK constraints of the table
    and by the aggregation, their texts are storable, and the forms of a model are bounded. *)

From Stdlib Require Import ZArith Lia Bool String Ascii List.
From stdpp Require Import base list strings gmap.
From S2P Require Import Prelude GoStrings Usage Money Pricing Receipt Execution Contracts Headers Forward LogEvent LogMapper LogStore UsageReport LogStoreProps.

Local Open Scope Z_scope.
Local Open Scope go_scope.

Module LogMapperProps.
Import Usage Money Pricing Execution Contracts Telemetry LogMapper.

Section Map.
Context `{Redactor.Patterns} `{LogCodec} (redactor : option (list Redactor.Pattern)).

(** The observations a row keeps from its event. *)
Record mapped (event : RequestEvent) (row : LogRow.RequestLog) : Prop := {
  mapped_time : 0 <= row.(LogRow.rl_CompletedAtMS);
  mapped_models : validateModelObservation (normalizeModelObservation event) = None;
  mapped_frozen : validateFrozenObservation (normalizeModelObservation event) = None;
  mapped_currency : CurrencyValid event.(ev_Currency) = true;
  mapped_code : row.(LogRow.rl_Currency) = event.(ev_Currency).(Money.Code);
  mapped_rate : row.(LogRow.ExchangeRateMicros) = event.(ev_Currency).(RateMicros);
  mapped_status : row.(LogRow.Status) = event.(ev_Status);
  mapped_consistency : row.(LogRow.rl_ModelConsistency) = (normalizeModelObservation event).(ev_ModelConsistency);
  mapped_first : row.(LogRow.FirstResponseMs) = event.(FirstResponseMs);
  mapped_duration : row.(LogRow.DurationMs) = event.(ev_DurationMs);
  mapped_tokens : LogStore.rowTokens row = event.(ev_Usage).(uo_Result).(ResTokens);
  mapped_usage : row.(LogRow.UsageState) = event.(ev_Usage).(uo_Result).(ResState);
  mapped_cost_state : row.(LogRow.rl_CostState) = event.(ev_Usage).(uo_Pricing).(po_CostState);
  mapped_completeness : row.(LogRow.PricingCompleteness) = event.(ev_Usage).(uo_Pricing).(po_Completeness);
  mapped_cost : row.(LogRow.EstimatedCostNanoUSD) = event.(ev_Usage).(uo_Pricing).(po_CostNanoUSD);
  mapped_settled : row.(LogRow.EstimatedCostNano) = Settle event.(ev_Currency) event.(ev_Usage).(uo_Pricing).(po_CostNanoUSD);
  mapped_upstream_state : row.(LogRow.UpstreamCostState) = event.(ev_Usage).(uo_Pricing).(UpstreamCostState);
  mapped_upstream_completeness : row.(LogRow.UpstreamPricingCompleteness) = event.(ev_Usage).(uo_Pricing).(UpstreamPricingCompleteness);
  mapped_upstream_cost : row.(LogRow.UpstreamCostNanoUSD) = event.(ev_Usage).(uo_Pricing).(UpstreamCostNanoUSD);
  mapped_attempts : row.(LogRow.AttemptCount) = Z.of_nat (length row.(LogRow.AttemptRows));
  mapped_decision_cost : row.(LogRow.Decision).(LogRow.cc_CostNano) = Settle event.(ev_Currency) row.(LogRow.Decision).(LogRow.cc_CostNanoUSD);
  mapped_audit_cost : row.(LogRow.Audit).(LogRow.cc_CostNano) = Settle event.(ev_Currency) row.(LogRow.Audit).(LogRow.cc_CostNanoUSD);
  mapped_audit_nonneg : 0 <= row.(LogRow.Audit).(LogRow.cc_CostNanoUSD);
}.

Lemma FromTime_nonneg t ms : Epochms.FromTime t = Some ms -> 0 <= ms.
Proof. unfold Epochms.FromTime. destruct (Z.ltb_spec (if t =? 0 then -62135596800000 else t / 1000000) 0); [discriminate|]. now intros [= <-]. Qed.

(** Normalisation keeps everything but the reported model. *)
Lemma normalize_keeps event :
  let n := normalizeModelObservation event in
  n.(ev_Status) = event.(ev_Status) /\ n.(ev_Usage) = event.(ev_Usage) /\ n.(ev_Currency) = event.(ev_Currency) /\
  n.(FirstResponseMs) = event.(FirstResponseMs) /\ n.(ev_DurationMs) = event.(ev_DurationMs) /\ n.(Attempts) = event.(Attempts) /\
  n.(RequestID) = event.(RequestID) /\ n.(Stream) = event.(Stream).
Proof. cbn zeta. unfold normalizeModelObservation. destruct (_ || _); cbn; auto 10. Qed.

Lemma decisionColumns_cost event json d : decisionColumns redactor event = Ok (json, d) -> d.(LogRow.cc_CostNano) = Settle event.(ev_Currency) d.(LogRow.cc_CostNanoUSD).
Proof.
  unfold decisionColumns. destruct event.(ev_AutoDecision) as [decision|]; [|intros [= _ <-]; reflexivity].
  destruct (_ <? 0); [discriminate|]. intros [= _ <-]. now destruct (Called _).
Qed.

Lemma mapAuditLoop_nonneg calls called audit m : 0 <= audit.(costNanoUSD) -> mapAuditLoop called audit calls = Ok m -> 0 <= m.(costNanoUSD).
Proof.
  revert called audit. induction calls as [|call calls IH]; intros called audit Ha; cbn [mapAuditLoop]; [now intros [= <-]|].
  destruct (Z.ltb_spec call.(ob_CostNanoUSD) 0); [discriminate|]. destruct call.(Called); cbn [negb]; [|now apply IH].
  destruct called; cbn [negb]; [|now apply IH]. destruct (CheckedAdd _ _) as [cost|] eqn:E; [|discriminate]. apply IH. cbn [costNanoUSD].
  unfold CheckedAdd in E. destruct (_ || _ || _); [discriminate|]. injection E as <-. lia.
Qed.

Lemma auditColumns_nonneg event json m : auditColumns redactor event = Ok (json, m) -> 0 <= m.(costNanoUSD).
Proof.
  unfold auditColumns. destruct event.(RequestAudit) as [audit|]; [|intros [= _ <-]; reflexivity].
  destruct (mapAuditCall _) as [mapped'|] eqn:E; [|discriminate]. destruct (marshalAudit _); [|discriminate]. intros [= _ <-].
  eapply mapAuditLoop_nonneg; [|exact E]. reflexivity.
Qed.

Lemma mapEvent_mapped event row : mapEvent redactor event = Ok row -> mapped event row.
Proof.
  unfold mapEvent. destruct (Epochms.FromTime event.(ev_CompletedAt)) as [ms|] eqn:Et; [|discriminate].
  apply FromTime_nonneg in Et.
  set (ip := if emptyText event.(ClientIP) then _ else _). destruct ip as [address|]; [|discriminate].
  pose proof (normalize_keeps event) as (Hst & Hus & Hcu & Hfr & Hdu & Hat & _). cbn zeta in *.
  set (n := normalizeModelObservation event) in *.
  destruct (validateModelObservation n) eqn:Em; [discriminate|]. destruct (validateFrozenObservation n) eqn:Ef; [discriminate|].
  destruct (canonicalPricingReceipt _ ClientModelReceiptSchemaVersion _ _) as [receipt|]; [|discriminate].
  destruct (canonicalPricingReceipt _ UpstreamReceiptSchemaVersion _ _) as [upstream|]; [|discriminate].
  destruct (mapAttempts _ _ _ _ _ _) as [attempts|]; [|discriminate].
  destruct (decisionColumns redactor n) as [[json d]|] eqn:Ed; [|discriminate].
  destruct (auditColumns redactor n) as [[auditJSON audit]|] eqn:Ea; [|discriminate]. apply auditColumns_nonneg in Ea.
  destruct (CurrencyValid n.(ev_Currency)) eqn:Ec; [|discriminate]. cbn [negb]. intros Hr.
  apply (f_equal (fun r => match r with Ok v => v | Err _ => row end)) in Hr. subst row.
  apply decisionColumns_cost in Ed. rewrite Hcu in Ed, Ec.
  constructor; cbn; rewrite ?Hst, ?Hus, ?Hcu, ?Hfr, ?Hdu; try reflexivity; auto.
  now destruct event.(ev_Usage).(uo_Result).(ResTokens).
Qed.

(** The settled cost of a row follows its dollars. *)
Lemma mapEvent_sound event row : mapEvent redactor event = Ok row -> LogStoreProps.sound row.
Proof.
  intros Hm. apply mapEvent_mapped in Hm. unfold LogStoreProps.sound.
  rewrite (mapped_settled _ _ Hm), (mapped_cost _ _ Hm). intros ->. apply LogStoreProps.Settle_zero, (mapped_currency _ _ Hm).
Qed.

(** *** Constraints *)

Lemma validateFrozen_facts event :
  validateFrozenObservation event = None ->
  let result := event.(ev_Usage).(uo_Result) in let pricing := event.(ev_Usage).(uo_Pricing) in
  0 <= event.(ev_DurationMs) /\ (forall ms, event.(FirstResponseMs) = Some ms -> 0 <= ms) /\
  Forall (fun v => 0 <= v) (tokenList result.(ResTokens)) /\ is_Some (CheckedTotal result.(ResTokens)) /\
  validateFrozenPricingState result.(ResState) pricing.(po_CostState) pricing.(po_Completeness) pricing.(po_CostNanoUSD) = None /\
  validateFrozenPricingState result.(ResState) pricing.(UpstreamCostState) pricing.(UpstreamPricingCompleteness) pricing.(UpstreamCostNanoUSD) = None.
Proof.
  unfold validateFrozenObservation. intros Hv. cbn zeta in *. do 6 (apply first_error_None in Hv as [? Hv]). no_error.
  zbool. split; [assumption|]. split; [|split; [|split; [|split; assumption]]].
  - intros ms Hms. rewrite Hms in *. zbool. assumption.
  - apply List.Forall_forall. intros v Hv'. destruct (Z.ltb_spec v 0) as [Hn|]; [|assumption]. exfalso.
    match goal with Hx : existsb _ _ = false |- _ => rewrite <- not_true_iff_false in Hx; apply Hx end. apply existsb_exists. exists v. split; [exact Hv'|].
    now apply Z.ltb_lt.
  - match goal with Hx : match CheckedTotal _ with _ => _ end = false |- _ => destruct (CheckedTotal _); [eauto|discriminate Hx] end.
Qed.

Lemma Settle_range c v : 0 <= Settle c v <= max_int64.
Proof.
  unfold Settle, FromNanoUSD, scaleRoundHalfUp. destruct (_ || _ || _) eqn:E; [unfold max_int64; lia|]. zbool.
  destruct (is_int64 _) eqn:Ei; cbn [negb]; [|unfold max_int64; lia].
  assert (0 <= roundHalfUp (v * c.(RateMicros)) ExchangeRateScale) by (apply roundHalfUp_nonneg; [nia|reflexivity]).
  unfold is_int64 in Ei. zbool. lia.
Qed.

Lemma CurrencyValid_rate c : CurrencyValid c = true -> 0 < c.(RateMicros).
Proof.
  unfold CurrencyValid, NewCurrency. destruct (ParseCurrencyCode _); [|discriminate]. destruct (Z.leb_spec c.(RateMicros) 0); [discriminate|auto].
Qed.

(** A consistent observation passes the constraint on usage and pricing states. *)
Lemma frozen_constraint us cs c cost :
  validateFrozenPricingState us cs c cost = None ->
  0 <= cost /\ LogStore.pricingChecks us cs c cost = true.
Proof.
  unfold validateFrozenPricingState. destruct (Z.ltb_spec cost 0); [discriminate|]. intros Hv. split; [assumption|].
  destruct us; try discriminate Hv; try (destruct cs; try discriminate Hv); apply err_if_None in Hv;
    destruct c; cbn in Hv |- *; destruct (cost =? 0); try discriminate Hv; reflexivity.
Qed.

Lemma CurrencyValid_code c : CurrencyValid c = true -> LogStore.currencyChecks c.(Money.Code) = true.
Proof.
  unfold CurrencyValid, NewCurrency, ParseCurrencyCode. cbn [find SupportedCurrencyCodes].
  destruct (bool_decide_reflect (CurrencyUSD = c.(Money.Code))) as [<-|]; [reflexivity|].
  destruct (bool_decide_reflect (CurrencyCNY = c.(Money.Code))) as [<-|]; [reflexivity|discriminate].
Qed.

Lemma consistency_known event :
  validateModelObservation event = None -> match event.(ev_ModelConsistency) with ModelConsistencyOther _ => false | _ => true end = true.
Proof. unfold validateModelObservation. now destruct event.(ev_ModelConsistency). Qed.

Lemma checkedLoop_bounds vs t total : 0 <= t -> Usage.checkedLoop t vs = Some total -> Forall (fun v => 0 <= v <= max_int64 - t) vs.
Proof.
  revert t. induction vs as [|v vs IH]; intros t Ht Hl; [constructor|]. cbn [checkedLoop] in Hl. unfold CheckedAdd in Hl.
  destruct (_ || _ || _) eqn:E; [discriminate Hl|]. zbool. constructor; [lia|].
  apply IH in Hl; [|lia]. eapply List.Forall_impl; [|exact Hl]. cbn. lia.
Qed.

Lemma addRow_zero row :
  0 <= row.(LogRow.EstimatedCostNanoUSD) <= max_int64 -> 0 <= row.(LogRow.EstimatedCostNano) <= max_int64 -> LogStoreProps.sound row ->
  Forall (fun v => 0 <= v) (tokenList (LogStore.rowTokens row)) -> is_Some (CheckedTotal (LogStore.rowTokens row)) ->
  validateFrozenPricingState row.(LogRow.UsageState) row.(LogRow.rl_CostState) row.(LogRow.PricingCompleteness) row.(LogRow.EstimatedCostNanoUSD) = None ->
  match row.(LogRow.Status) with RequestStatusOther _ => False | _ => True end ->
  LogStore.addRow LogStore.zeroDelta row = Ok (UsageReport.projectedAmounts row).
Proof.
  intros Hc Hn Hs Ht [total Htotal] Hv Hst.
  assert (Hadd : forall v f, 0 <= v <= max_int64 -> LogStore.checkedInt64Add 0 v f = Ok v).
  { intros v f Hr. unfold LogStore.checkedInt64Add, CheckedAdd. destruct (Z.ltb_spec v 0); [lia|]. rewrite Z.gtb_ltb.
    destruct (Z.ltb_spec (max_int64 - v) 0); [lia|]. reflexivity. }
  assert (Husd : CheckedAddNanoUSD 0 row.(LogRow.EstimatedCostNanoUSD) = Some row.(LogRow.EstimatedCostNanoUSD)).
  { unfold CheckedAddNanoUSD. destruct (Z.ltb_spec row.(LogRow.EstimatedCostNanoUSD) 0); [lia|]. rewrite Z.gtb_ltb.
    destruct (Z.ltb_spec (max_int64 - row.(LogRow.EstimatedCostNanoUSD)) 0); [lia|]. reflexivity. }
  assert (Hb := checkedLoop_bounds _ _ _ (Z.le_refl 0) Htotal). rewrite Z.sub_0_r in Hb.
  assert (Hp : LogStore.validatePersistedPricingState row = None).
  { unfold LogStore.validatePersistedPricingState. rewrite Htotal, Hv. apply first_error_None. split; [apply err_if_None, not_true_iff_false; intros Hx|reflexivity].
    apply existsb_exists in Hx as (v & Hin & Hneg). apply Z.ltb_lt in Hneg. rewrite List.Forall_forall in Ht.
    assert (0 <= v); [|lia]. apply Ht. cbn in Hin |- *. tauto. }
  destruct (LogStore.addRow LogStore.zeroDelta row) as [d|e] eqn:Ea.
  { f_equal. rewrite (LogStoreProps.addRow_exact _ _ _ Hs Ea). apply LogStoreProps.addDelta_zero. }
  exfalso. cbn in Hb. repeat (apply Forall_cons in Hb as [? Hb]).
  assert (Hone : 0 <= 1 <= max_int64) by (unfold max_int64; lia).
  unfold LogStore.addRow in Ea. rewrite Hp in Ea. cbn [LogStore.zeroDelta LogStore.RequestCount LogStore.SuccessCount LogStore.FailureCount
    LogStore.UsageMissingCount LogStore.PartialCount LogStore.UnpricedRequestCount LogStore.PricingPartialCount LogStore.d_UncachedInputTokens
    LogStore.d_OutputTokens LogStore.d_CacheReadTokens LogStore.d_CacheWrite5MTokens LogStore.d_CacheWrite1HTokens LogStore.d_CacheWriteUnknownTokens
    LogStore.d_EstimatedCostNanoUSD LogStore.d_EstimatedCostNano] in Ea.
  rewrite Husd, !(Hadd 1) in Ea by exact Hone.
  apply frozen_constraint in Hv as [_ Hv].
  destruct row.(LogRow.Status); [..|destruct Hst]; destruct row.(LogRow.UsageState); try discriminate Hv;
    repeat (rewrite !Hadd in Ea by assumption);
    repeat match type of Ea with context [if ?b then _ else _] => destruct b; try discriminate Ea end.
Qed.

(** [C14] The row of a mapped event with one of the four statuses is accepted by the CHECK
    constraints of the table, those of later migrations included, and by the aggregation, to
    which it adds exactly what the minute report projects from it. *)
Theorem mapped_rows_are_accepted event row :
  mapEvent redactor event = Ok row ->
  match event.(ev_Status) with RequestStatusOther _ => False | _ => True end ->
  event.(ev_Usage).(uo_Pricing).(po_CostNanoUSD) <= max_int64 ->
  LogStore.requestLogChecks row = true /\ LogStore.migratedChecks row = true /\
  LogStore.addRow LogStore.zeroDelta row = Ok (UsageReport.projectedAmounts row).
Proof.
  intros Hm Hst Hmax. pose proof (mapEvent_sound _ _ Hm) as Hs. apply mapEvent_mapped in Hm. destruct Hm.
  pose proof (normalize_keeps event) as (_ & Hus & _ & Hfr & Hdu & _). cbn zeta in *.
  destruct (validateFrozen_facts _ mapped_frozen0) as (Hd & Hf & Htok & Htot & Hpr & Hup). rewrite Hus in Htok, Htot, Hpr, Hup.
  destruct (frozen_constraint _ _ _ _ Hup) as [Hucost Hustate]. rewrite Hdu in Hd. rewrite Hfr in Hf.
  destruct (frozen_constraint _ _ _ _ Hpr) as [Hcost Hstate]. pose proof (Settle_range event.(ev_Currency) event.(ev_Usage).(uo_Pricing).(po_CostNanoUSD)) as Hr.
  rewrite <- mapped_tokens0 in Htok, Htot.
  pose proof Htok as Htl. cbn in Htl. repeat (apply Forall_cons in Htl as [? Htl]).
  split; [|split].
  - unfold LogStore.requestLogChecks. cbv zeta. rewrite mapped_usage0, mapped_cost_state0, mapped_completeness0, mapped_cost0, mapped_status0,
      mapped_consistency0, mapped_first0, mapped_duration0, mapped_attempts0, Hstate, andb_true_r. rewrite !andb_true_iff, !Z.leb_le.
    split_and!; try assumption; try lia.
    + now apply consistency_known.
    + now destruct event.(ev_Status).
    + destruct event.(FirstResponseMs); [now apply Z.leb_le, Hf|reflexivity].
  - unfold LogStore.migratedChecks. rewrite mapped_code0, mapped_usage0, mapped_upstream_state0, mapped_upstream_completeness0, mapped_upstream_cost0,
      Hustate, andb_true_r, (CurrencyValid_code _ mapped_currency0), mapped_rate0, mapped_settled0, mapped_decision_cost0, mapped_audit_cost0.
    rewrite !andb_true_iff, !Z.leb_le, Z.ltb_lt. pose proof (CurrencyValid_rate _ mapped_currency0).
    pose proof (Settle_range event.(ev_Currency) row.(LogRow.Decision).(LogRow.cc_CostNanoUSD)).
    pose proof (Settle_range event.(ev_Currency) row.(LogRow.Audit).(LogRow.cc_CostNanoUSD)). split_and!; lia.
  - apply addRow_zero; rewrite ?mapped_cost0, ?mapped_settled0, ?mapped_usage0, ?mapped_cost_state0, ?mapped_completeness0, ?mapped_status0; auto.
Qed.

End Map.

(** ** A sample

    One request that was served without usage, answered in the second hour of the epoch, with
    no redaction rules. *)

Definition plainPatterns : Redactor.Patterns := {| Redactor.matchString _ _ := false; Redactor.replaceAllString _ l := l |}.
Definition plainCodec : LogMapper.LogCodec :=
  {| LogMapper.parseAddr _ := None; LogMapper.unmarshalReceipt _ := None; LogMapper.marshalReceipt _ := None;
     LogMapper.marshalDecision _ := Some "{}"%string; LogMapper.marshalAudit _ := Some "{}"%string |}.

Definition sampleAttempt : Telemetry.Attempt :=
  Telemetry.mkAttempt 1 0 7 "group" "openai" 3 OperationChatCompletion RouteNative "gpt" "" DispatchMaybeSent true (Some OpenAICompletions)
    (mkReasoning "" "" None) 200 10 FailureCategoryOK ErrorOriginNone ErrorScopeNone Telemetry.RetryNone Telemetry.EffectNone 0 ""
    Telemetry.ActionTerminate false "" "" true.

Definition sampleEvent : Telemetry.RequestEvent :=
  Telemetry.mkEvent None None "request-1" 5400000000000 9 OpenAICompletions OperationChatCompletion "" "gpt" "gpt" "gpt"
    Telemetry.ModelConsistencyMatch RequestStatusSuccess 200 "" "" false None 12 false "" (mkReasoning "" "" None) [sampleAttempt]
    (Telemetry.mkUsageObservation (mkResult zeroTokens StateMissing noDiagnostics) 7 "openai" 3 1
       (Telemetry.mkPricing "gpt" "gpt" CostStateUnpriced CompletenessUnavailable 0 "" CostStateUnpriced CompletenessUnavailable 0 ""))
    USDCurrency.

Lemma mapped_rows_are_accepted_witness :
  match @mapEvent plainPatterns plainCodec None sampleEvent with
  | Ok row => row.(LogRow.ID) = "request-1"%string /\ LogStore.requestLogChecks row = true
  | Err _ => False
  end.
Proof.
  destruct (@mapEvent plainPatterns plainCodec None sampleEvent) as [row|e] eqn:Em.
  - split; [vm_compute in Em; injection Em as <-; reflexivity|].
    apply (@mapped_rows_are_accepted plainPatterns plainCodec None sampleEvent row Em); [exact I|vm_compute; discriminate].
  - vm_compute in Em. discriminate Em.
Defined.

End LogMapperProps.
