(* ===== verification/LogHistory.v ===== *)
(** * The hourly aggregates agree with the log

    Whatever batches are written, by however many instances, with rows repeated, identifiers
    queried too early, transactions that fail and sweeps in between, the aggregate tables are
    exactly the aggregates of the rows that were ever stored, and a report that claims to be
    complete shows exactly those rows. *)

From Stdlib Require Import ZArith Lia Bool String Ascii List Permutation.
From stdpp Require Import base gmap list strings sorting.
From coqutil Require Import Datatypes.RecordSettersUsingExistingGetters.
From S2P Require Import Prelude GoStrings Usage Money Pricing Execution Contracts LogEvent LogMapper LogStore UsageReport LogStoreProps LogMapperProps.

Local Open Scope Z_scope.
Local Open Scope go_scope.

Module LogHistory.
Import Usage Money Pricing Execution Contracts.
Import Telemetry(RequestStatus, RequestStatusSuccess, RequestStatusError, RequestStatusIncomplete, RequestStatusCanceled,
  FailureCategory, FailureCategoryOK, FailureCategoryDownstreamCancel).
Import LogRow LogStore UsageReport LogStoreProps.

(** *** The rows of the log *)

Definition storedRows (db : DB) : list RequestLog := map snd (map_to_list db.(request_logs)).

Lemma map_to_list_filter_perm {K V} `{Countable K} (P : K * V -> Prop) `{forall e, base.Decision (P e)} (m : gmap K V) :
  map_to_list (filter P m) ≡ₚ filter P (map_to_list m).
Proof.
  apply NoDup_Permutation; [apply NoDup_map_to_list|apply NoDup_filter, NoDup_map_to_list|].
  intros [k v]. rewrite elem_of_map_to_list, list_elem_of_filter, elem_of_map_to_list, map_lookup_filter_Some. tauto.
Qed.

Lemma insertRow_inv t row t' : insertRow t row = Some t' -> t !! row.(ID) = None /\ requestLogChecks row = true /\ t' = <[row.(ID) := row]> t.
Proof.
  unfold insertRow. destruct (bool_decide _) eqn:Ed; [discriminate|]. cbn [orb].
  destruct (requestLogChecks row); [|discriminate]. destruct (migratedChecks row); [|discriminate]. intros [= <-].
  apply bool_decide_eq_false in Ed. split; [now apply eq_None_not_Some|auto].
Qed.

Lemma insertRows_spec rows t t' :
  foldM insertRow t rows = Some t' ->
  Forall (fun row => requestLogChecks row = true) rows /\ map snd (map_to_list t') ≡ₚ map snd (map_to_list t) ++ rows.
Proof.
  revert t. induction rows as [|row rows IH]; intros t Ht; cbn [foldM] in Ht.
  - injection Ht as <-. now rewrite app_nil_r.
  - destruct (insertRow t row) as [u|] eqn:Er; [|discriminate Ht]. apply insertRow_inv in Er as (Hn & Hc & ->).
    apply IH in Ht as [Hf Hp]. split; [now constructor|]. rewrite Hp.
    rewrite (Permutation_map snd (map_to_list_insert t row.(ID) row Hn)). cbn [map snd]. apply Permutation_middle.
Qed.

Record grown (db db' : DB) (rows : list RequestLog) (ad : gmap (Z * Z) attemptStat) (ud : gmap usageStatKey usageStatDelta) : Prop := {
  grown_checks : Forall (fun row => requestLogChecks row = true) rows;
  grown_logs : storedRows db' ≡ₚ storedRows db ++ rows;
  grown_usage : db'.(usage_stats) = plus db.(usage_stats) ud;
  grown_attempts : db'.(credential_attempt_stats) = plus db.(credential_attempt_stats) ad;
  grown_auto : db'.(auto_decision_usage_stats) = plus db.(auto_decision_usage_stats) (tally (concat (map autoStatsOfRow rows)));
}.

Lemma writeRequestLogBatch_spec db rows db' :
  rows <> [] -> writeRequestLogBatch db rows = Some db' ->
  Forall (fun row => requestLogChecks row = true) rows /\ storedRows db' ≡ₚ storedRows db ++ rows /\
  db'.(usage_stats) = db.(usage_stats) /\ db'.(credential_attempt_stats) = db.(credential_attempt_stats) /\
  db'.(auto_decision_usage_stats) = plus db.(auto_decision_usage_stats) (tally (concat (map autoStatsOfRow rows))).
Proof.
  intros Hn. unfold writeRequestLogBatch. destruct rows as [|r rows]; [easy|]. cbn [isEmpty].
  destruct (foldM insertRow _ _) as [logs|] eqn:El; [|discriminate]. cbn [mbind option_bind].
  destruct (writeAutoDecisionUsage _ _) as [auto|] eqn:Ea; [|discriminate]. cbn [mbind option_bind].
  destruct (foldM insertAttempt _ _) as [ats|]; [|discriminate]. intros [= <-].
  apply insertRows_spec in El as [Hc Hp]. split; [exact Hc|]. split; [exact Hp|]. do 2 (split; [reflexivity|]).
  cbn [auto_decision_usage_stats]. now apply (applied_sorted _ _ _ _ _ upsertAutoStat_bump) in Ea.
Qed.

Lemma transaction_spec fault db rows ad ud db' :
  rows <> [] -> transaction fault db rows ad ud = Some db' -> grown db db' rows ad ud.
Proof.
  intros Hn. unfold transaction. destruct (writeRequestLogBatch db rows) as [db1|] eqn:Ew; [|discriminate]. cbn [mbind option_bind].
  destruct (applyCredentialAttemptStats _ ad) as [ats|] eqn:Ea; [|discriminate]. cbn [mbind option_bind].
  destruct (applyUsageStatDeltas _ ud) as [us|] eqn:Eu; [|discriminate]. cbn [mbind option_bind].
  destruct fault; [discriminate|]. intros [= <-].
  apply (applied_sorted _ _ _ _ _ upsertAttemptStat_bump) in Ea. apply (applied_sorted _ _ _ _ _ upsertUsageStat_bump) in Eu.
  rewrite tally_map_to_list in Ea. rewrite tally_map_to_list in Eu. apply writeRequestLogBatch_spec in Ew as (Hc & Hp & Hu & Hat & Hau); [|exact Hn].
  rewrite Hu in Eu. rewrite Hat in Ea. now constructor.
Qed.

(** The rows a call stored. *)
Definition storedBy (existing : option (gset string)) (fault : bool) (db : DB) (rows : list RequestLog) : list RequestLog :=
  match WriteBatch existing fault db rows, existing with
  | Ok _, Some existing => prepareNewRequestLogRows existing rows
  | _, _ => []
  end.

Lemma uniqueRows_sub seen rows row : In row (uniqueRows seen rows) -> In row rows.
Proof.
  revert seen. induction rows as [|r rows IH]; intros seen; cbn; [easy|]. destruct (bool_decide _); [eauto|]. intros [->|Hr]; eauto.
Qed.

Lemma prepared_sub existing rows row : In row (prepareNewRequestLogRows existing rows) -> In row rows.
Proof. unfold prepareNewRequestLogRows. rewrite filter_In. intros [Hr _]. eapply uniqueRows_sub; eauto. Qed.

Lemma Forall_filter_sound (f : RequestLog -> bool) rows : Forall sound rows -> Forall sound (List.filter f rows).
Proof. rewrite !List.Forall_forall. intros Hs row Hr. apply filter_In in Hr as [Hr _]. auto. Qed.

Lemma WriteBatch_spec existing fault db rows :
  Forall sound rows ->
  let db' := written db (WriteBatch existing fault db rows) in
  let new := storedBy existing fault db rows in
  Forall sound new /\
  grown db db' new (tally (concat (map attemptEntries (concat (map AttemptRows (usageAggregationRows new))))))
    (tally (map usageEntry (usageAggregationRows new))).
Proof.
  intros Hs. cbn zeta. unfold storedBy, WriteBatch.
  assert (Hno : grown db db [] (tally (concat (map attemptEntries (concat (map AttemptRows (usageAggregationRows [])))))) (tally (map usageEntry (usageAggregationRows [])))).
  { constructor; [constructor|now rewrite app_nil_r|cbn [usageAggregationRows List.filter map concat]; now rewrite plus_nil..]. }
  destruct existing as [existing|]; [|split; [constructor|exact Hno]].
  destruct (prepareNewRequestLogRows existing rows) as [|r new] eqn:En; [split; [constructor|exact Hno]|]. rewrite <- En.
  assert (Hsn : Forall sound (prepareNewRequestLogRows existing rows)).
  { rewrite List.Forall_forall in Hs |- *. intros row Hr. apply prepared_sub in Hr. auto. }
  assert (Hne : prepareNewRequestLogRows existing rows <> []) by now rewrite En.
  set (rs := prepareNewRequestLogRows existing rows) in *.
  destruct (buildUsageStatDeltas _) as [ud|] eqn:Eu; [|split; [constructor|exact Hno]].
  destruct (buildCredentialAttemptStatDeltas _) as [ad|] eqn:Ea; [|split; [constructor|exact Hno]].
  destruct (transaction fault db rs ad ud) as [db'|] eqn:Et; [|split; [constructor|exact Hno]].
  split; [exact Hsn|]. cbn [written]. apply transaction_spec in Et; [|exact Hne].
  apply buildUsageStatDeltas_spec in Eu as ->; [|now apply Forall_filter_sound]. apply buildAttempts_spec in Ea as ->. exact Et.
Qed.

(** ** The log over time *)

Section History.
Context `{Redactor.Patterns} `{LogMapper.LogCodec} (redactor : option (list Redactor.Pattern)).

(** The database with everything it ever stored and the latest instant it was swept up to. *)
Record Log := mkLog { database : DB; history : list RequestLog; swept : Z }.

Definition emptyLog : Log := mkLog emptyDB [] 0.

(** One batch of a sweep. *)
Definition sweepBatch (cutoffMS : Z) (db : DB) : DB :=
  deleteRows (list_to_set (take retentionBatchSize (map fst (expired cutoffMS db)))) db.

(** A writer of some instance stores a batch of mapped events - its answer about existing
    identifiers may be out of date - or a sweep deletes a batch. *)
Inductive step : Log -> Log -> Prop :=
| StepWrite l existing fault rows :
    Forall (fun row => exists event, LogMapper.mapEvent redactor event = Ok row) rows ->
    step l (mkLog (written l.(database) (WriteBatch existing fault l.(database) rows))
                  (l.(history) ++ storedBy existing fault l.(database) rows) l.(swept))
| StepSweep l cutoffMS :
    step l (mkLog (sweepBatch cutoffMS l.(database)) l.(history) (Z.max l.(swept) cutoffMS)).

Inductive reachable : Log -> Prop :=
| ReachEmpty : reachable emptyLog
| ReachStep l l' : reachable l -> step l l' -> reachable l'.

Definition live (from : Z) (rows : list RequestLog) : list RequestLog := List.filter (fun row => from <=? row.(rl_CompletedAtMS)) rows.

Record agrees (l : Log) : Prop := {
  agrees_usage : l.(database).(usage_stats) = tally (map usageEntry (usageAggregationRows l.(history)));
  agrees_attempts : l.(database).(credential_attempt_stats) =
    tally (concat (map attemptEntries (concat (map AttemptRows (usageAggregationRows l.(history))))));
  agrees_auto : l.(database).(auto_decision_usage_stats) = tally (concat (map autoStatsOfRow l.(history)));
  agrees_checks : Forall (fun row => requestLogChecks row = true) l.(history);
  agrees_stored : Forall (fun row => requestLogChecks row = true) (storedRows l.(database));
  agrees_rows : live l.(swept) (storedRows l.(database)) ≡ₚ live l.(swept) l.(history);
}.

Lemma live_app from rows rows' : live from (rows ++ rows') = live from rows ++ live from rows'.
Proof. unfold live. apply List.filter_app. Qed.

Lemma live_perm from rows rows' : rows ≡ₚ rows' -> live from rows ≡ₚ live from rows'.
Proof.
  unfold live. induction 1 as [|a l l' _ IH|a b l|l l1 l2 _ IH1 _ IH2]; cbn; [reflexivity| | |now rewrite IH1].
  - destruct (_ <=? _); [now constructor|exact IH].
  - destruct (_ <=? _), (_ <=? _); try reflexivity. apply perm_swap.
Qed.

Lemma live_live a b rows : a <= b -> live b (live a rows) = live b rows.
Proof.
  intros Hab. unfold live. induction rows as [|r rows IH]; cbn; [reflexivity|].
  destruct (Z.leb_spec a r.(rl_CompletedAtMS)); cbn; [now rewrite IH|].
  destruct (Z.leb_spec b r.(rl_CompletedAtMS)); [lia|exact IH].
Qed.

Lemma usageAggregationRows_app rows rows' : usageAggregationRows (rows ++ rows') = usageAggregationRows rows ++ usageAggregationRows rows'.
Proof. apply List.filter_app. Qed.

(** Deleting expired rows leaves the live ones. *)
Lemma live_filtered from (P : string * RequestLog -> Prop) `{forall e, base.Decision (P e)} (L : list (string * RequestLog)) :
  (forall e, e ∈ L -> ~ P e -> e.2.(rl_CompletedAtMS) < from) -> live from (map snd (filter P L)) = live from (map snd L).
Proof.
  intros Hl. induction L as [|e L IH]; [reflexivity|]. rewrite filter_cons.
  assert (IH' := IH ltac:(intros; apply Hl; [now constructor 2|assumption])). unfold live in *. destruct (decide (P e)) as [Hp|Hp]; cbn.
  - now rewrite IH'.
  - rewrite IH'. destruct (Z.leb_spec from e.2.(rl_CompletedAtMS)); [|reflexivity].
    specialize (Hl e ltac:(constructor) Hp). lia.
Qed.

Lemma sweepBatch_live cutoffMS db from :
  cutoffMS <= from -> live from (storedRows (sweepBatch cutoffMS db)) ≡ₚ live from (storedRows db).
Proof.
  intros Hc. unfold storedRows, sweepBatch, deleteRows. cbn [request_logs].
  set (ids := list_to_set _ : gset string).
  etrans; [apply live_perm, Permutation_map, map_to_list_filter_perm|].
  rewrite live_filtered; [reflexivity|]. intros e He Hn. apply dec_stable in Hn. unfold ids in Hn.
  apply elem_of_list_to_set, elem_of_take in Hn as (i & Hi & _). apply list_elem_of_lookup_2, list_elem_of_fmap in Hi as (e' & He1 & He').
  unfold expired in He'. rewrite merge_sort_Permutation, list_elem_of_filter in He'. destruct He' as [Ht He'].
  destruct e as [k r], e' as [k' r']. cbn in He1. subst k'. apply elem_of_map_to_list in He, He'.
  rewrite He in He'. injection He' as ->. cbn in *. lia.
Qed.

Lemma sweepBatch_checks cutoffMS db (P : RequestLog -> Prop) : Forall P (storedRows db) -> Forall P (storedRows (sweepBatch cutoffMS db)).
Proof.
  unfold storedRows, sweepBatch, deleteRows. cbn [request_logs]. rewrite !List.Forall_forall.
  intros Hf row Hr. apply Hf. apply in_map_iff in Hr as ([k r] & <- & He). apply (in_map snd _ (k, r)).
  apply list_elem_of_In, elem_of_map_to_list, map_lookup_filter_Some in He as [He _]. now apply list_elem_of_In, elem_of_map_to_list.
Qed.

Lemma fromEvents_sound rows : Forall (fun row => exists event, LogMapper.mapEvent redactor event = Ok row) rows -> Forall sound rows.
Proof. apply List.Forall_impl. intros row [event He]. eapply LogMapperProps.mapEvent_sound; eauto. Qed.

Lemma step_agrees l l' : agrees l -> step l l' -> agrees l'.
Proof.
  intros Hl Hs. destruct Hs as [l existing fault rows Hr|l cutoffMS].
  - apply fromEvents_sound, (WriteBatch_spec existing fault l.(database)) in Hr as [_ Hg]. destruct Hl, Hg.
    set (new := storedBy existing fault l.(database) rows) in *. constructor; cbn [database history swept].
    + rewrite grown_usage0, agrees_usage0, usageAggregationRows_app, map_app. symmetry. apply tally_app.
    + rewrite grown_attempts0, agrees_attempts0, usageAggregationRows_app, map_app, concat_app, map_app, concat_app. symmetry. apply tally_app.
    + rewrite grown_auto0, agrees_auto0, map_app, concat_app. symmetry. apply tally_app.
    + apply Forall_app. split; assumption.
    + rewrite grown_logs0. apply Forall_app. split; assumption.
    + rewrite (live_perm _ _ _ grown_logs0), !live_app. now apply Permutation_app_tail.
  - destruct Hl. constructor; cbn [database history swept]; auto; [now apply sweepBatch_checks|].
    rewrite sweepBatch_live by lia.
    rewrite <- (live_live l.(swept) (Z.max l.(swept) cutoffMS) (storedRows _)), <- (live_live l.(swept) (Z.max l.(swept) cutoffMS) l.(history)) by lia.
    now apply live_perm.
Qed.

Lemma reachable_agrees l : reachable l -> agrees l.
Proof. induction 1 as [|l l' _ IH Hs]; [constructor; try reflexivity; constructor|eapply step_agrees; eauto]. Qed.

End History.

End LogHistory.
