(* ===== verification/UsageReportProps.v ===== *)
(** * Reports are exact

    A report over a window adds whole hours from the aggregates and the cut hours at both ends
    from the log.  It shows exactly the requests of the window, as if every row ever stored
    were still there to be added up, when the log has not been swept into the window - or when
    the window has no cut hour. *)

From Stdlib Require Import ZArith Lia Bool String Ascii List Permutation.
From stdpp Require Import base gmap list strings sorting.
From coqutil Require Import Datatypes.RecordSettersUsingExistingGetters.
From S2P Require Import Prelude GoStrings Usage Money Pricing Execution Contracts LogEvent LogMapper LogStore UsageReport LogStoreProps LogMapperProps LogHistory.

Local Open Scope Z_scope.
Local Open Scope go_scope.

Module UsageReportProps.
Import Usage Money Pricing Execution Contracts.
Import Telemetry(RequestStatus, RequestStatusSuccess, RequestStatusError, RequestStatusIncomplete, RequestStatusCanceled,
  FailureCategory, FailureCategoryOK, FailureCategoryDownstreamCancel).
Import LogRow LogStore UsageReport LogStoreProps LogHistory.
Import LogMapperProps(plainPatterns, plainCodec, sampleAttempt, sampleEvent).

(** ** Selections

    A selection of rows that looks at the hour, the group, the access key, the model and the
    currency of a row only. *)

Definition coarse (select : UsageRow -> bool) : Prop :=
  forall r r', hourStart r.(u_Bucket) = hourStart r'.(u_Bucket) -> r.(u_GroupID) = r'.(u_GroupID) ->
    r.(u_AccessKeyID) = r'.(u_AccessKeyID) -> r.(u_Model) = r'.(u_Model) -> r.(u_Currency) = r'.(u_Currency) -> select r = select r'.

Section Select.
Variables (currency : string) (select : UsageRow -> bool) (input : UsageQuery) (groupIDs : list Z).
Hypothesis Hcoarse : coarse select.

(** What one row adds to the sum of the selection. *)
Definition part (r : UsageRow) : usageStatDelta := if select r then settledIn currency r else azero.

Definition selectedSum (rows : list UsageRow) : usageStatDelta := asum (map part rows).

Lemma selectedSum_sumRows rows : sumRows currency (List.filter select rows) = selectedSum rows.
Proof.
  unfold selectedSum, part. induction rows as [|r rows IH]; [reflexivity|]. cbn [List.filter map]. rewrite asum_cons.
  destruct (select r); cbn [sumRows fold_right]; fold (sumRows currency (List.filter select rows)); rewrite IH; [reflexivity|].
  symmetry. apply (aadd_zero (V := usageStatDelta)).
Qed.

Lemma selectedSum_app rows rows' : selectedSum (rows ++ rows') = aadd (selectedSum rows) (selectedSum rows').
Proof. unfold selectedSum. rewrite map_app. apply asum_app. Qed.

Lemma selectedSum_concat {A} (f : A -> list UsageRow) l : selectedSum (concat (map f l)) = asum (map (fun a => selectedSum (f a)) l).
Proof. induction l as [|a l IH]; [reflexivity|]. cbn [map concat]. now rewrite selectedSum_app, asum_cons, IH. Qed.

Lemma selectedSum_one r : selectedSum [r] = part r.
Proof. unfold selectedSum. cbn [map]. rewrite asum_cons. rewrite aadd_comm. apply aadd_zero. Qed.

(** *** Contributions *)

Definition orZero (b : bool) (d : usageStatDelta) : usageStatDelta := if b then d else azero.

Definition statSelected (k : usageStatKey) : bool :=
  negb (unbound k.(k_GroupID) k.(k_Model)) &&
  selected input groupIDs k.(k_AccessKeyID) k.(k_ChannelID) k.(k_GroupID) k.(k_CredentialID) k.(k_Model).

Definition statRow (k : usageStatKey) (d : usageStatDelta) : UsageRow :=
  mkUsageRow k.(BucketStartMS) k.(k_GroupID) k.(k_AccessKeyID) k.(k_Model) k.(k_Currency) d hourMS.

Definition autoRow (k : autoKey) (s : autoStat) : UsageRow :=
  mkUsageRow k.(ak_Bucket) k.(ak_GroupID) k.(ak_AccessKeyID) k.(ak_Model) k.(ak_Currency) (callAmounts s) hourMS.

Definition autoSelected (k : autoKey) : bool :=
  selected input groupIDs k.(ak_AccessKeyID) k.(ak_ChannelID) k.(ak_GroupID) k.(ak_CredentialID) k.(ak_Model).

Definition entryPart (e : usageStatKey * usageStatDelta) : usageStatDelta := orZero (statSelected e.1) (part (statRow e.1 e.2)).
Definition callPart (e : autoKey * autoStat) : usageStatDelta := orZero (autoSelected e.1) (part (autoRow e.1 e.2)).

(** What one request adds: itself, and the calls made for it. *)
Definition requestPart (row : RequestLog) : usageStatDelta :=
  aadd (orZero (aggregated row) (entryPart (usageEntry row))) (asum (map callPart (autoStatsOfRow row))).

Definition requestPartIn (fromMS toMS : Z) (row : RequestLog) : usageStatDelta :=
  orZero (within fromMS toMS row.(rl_CompletedAtMS)) (requestPart row).

Lemma orZero_add b d e : orZero b (aadd d e) = aadd (orZero b d) (orZero b e).
Proof. destruct b; [reflexivity|]. symmetry. apply aadd_zero. Qed.

Lemma part_add b g k m c a d d' :
  part (mkUsageRow b g k m c (aadd d d') a) = aadd (part (mkUsageRow b g k m c d a)) (part (mkUsageRow b g k m c d' a)).
Proof.
  unfold part. rewrite (Hcoarse (mkUsageRow b g k m c (aadd d d') a) (mkUsageRow b g k m c d a)) by reflexivity.
  rewrite (Hcoarse (mkUsageRow b g k m c d' a) (mkUsageRow b g k m c d a)) by reflexivity.
  destruct (select _); [|symmetry; apply aadd_zero]. unfold settledIn. cbn [u_Currency u_Amounts]. destruct (String.eqb c currency); reflexivity.
Qed.

Lemma part_same_hour r r' :
  hourStart r.(u_Bucket) = hourStart r'.(u_Bucket) -> r.(u_GroupID) = r'.(u_GroupID) -> r.(u_AccessKeyID) = r'.(u_AccessKeyID) ->
  r.(u_Model) = r'.(u_Model) -> r.(u_Currency) = r'.(u_Currency) -> r.(u_Amounts) = r'.(u_Amounts) -> part r = part r'.
Proof. intros. unfold part, settledIn. rewrite (Hcoarse r r') by assumption. destruct (select r'); [|reflexivity]. now rewrite H3, H4. Qed.

(** *** Hours *)

Lemma hourStart_bounds t : hourStart t <= t < hourStart t + hourMS.
Proof. unfold hourStart. pose proof (Z.div_mod t hourMS ltac:(discriminate)). pose proof (Z.mod_pos_bound t hourMS ltac:(reflexivity)). lia. Qed.

Lemma hourStart_unique t q : hourMS * q <= t < hourMS * q + hourMS -> hourStart t = hourMS * q.
Proof. intros. unfold hourStart. f_equal. symmetry. apply (Z.div_unique t hourMS q (t - hourMS * q)); [left|]; lia. Qed.

Lemma hourStart_idem t : hourStart (hourStart t) = hourStart t.
Proof. apply hourStart_unique. unfold hourStart, hourMS, Epochms.MillisecondsPerHour. lia. Qed.

Lemma fiveMinutes_hour t : 0 <= t -> hourStart (fiveMinutes t) = hourStart t.
Proof.
  intros Ht. apply hourStart_unique. unfold fiveMinutes. rewrite Z.rem_mod_nonneg by (unfold UsageFiveMinuteBucketMS; lia).
  pose proof (hourStart_bounds t) as Hb. unfold hourStart in Hb.
  pose proof (Z.div_mod t UsageFiveMinuteBucketMS ltac:(discriminate)) as Hd.
  pose proof (Z.mod_pos_bound t UsageFiveMinuteBucketMS ltac:(reflexivity)) as Hm.
  unfold hourMS, Epochms.MillisecondsPerHour, UsageFiveMinuteBucketMS in *. lia.
Qed.

(** A window of whole hours contains an instant exactly when it contains its hour. *)
Lemma within_hours f t x : within (hourMS * f) (hourMS * t) (hourStart x) = within (hourMS * f) (hourMS * t) x.
Proof.
  pose proof (hourStart_bounds x) as Hb. unfold hourStart in *. set (q := x / hourMS) in *. clearbody q. unfold within, hourMS, Epochms.MillisecondsPerHour in *.
  apply eq_true_iff_eq. rewrite !andb_true_iff, !Z.leb_le, !Z.ltb_lt. lia.
Qed.

(** *** A scope is the sum of its requests *)

Lemma orZero_and b c d : orZero (b && c) d = orZero b (orZero c d).
Proof. now destruct b, c. Qed.

Lemma asum_map_add {A} (f g : A -> usageStatDelta) l : aadd (asum (map f l)) (asum (map g l)) = asum (map (fun a => aadd (f a) (g a)) l).
Proof.
  induction l as [|a l IH]; [apply aadd_zero|]. cbn [map]. rewrite !asum_cons, <- IH, !aadd_assoc. f_equal.
  rewrite <- !aadd_assoc. f_equal. apply aadd_comm.
Qed.

Lemma selectedSum_filter {A} (f : A -> UsageRow) (c : A -> bool) l :
  selectedSum (map f (List.filter c l)) = asum (map (fun a => orZero (c a) (part (f a))) l).
Proof.
  induction l as [|a l IH]; [reflexivity|]. cbn [List.filter map]. rewrite asum_cons, <- IH. unfold orZero at 1.
  destruct (c a); cbn [map]; [reflexivity|symmetry; apply aadd_zero].
Qed.

Lemma selectedSum_if (b : bool) r : selectedSum (if b then [r] else []) = orZero b (part r).
Proof. destruct b; [apply selectedSum_one|reflexivity]. Qed.

Lemma selected_window a b : selected (windowOf input a b) groupIDs = selected input groupIDs.
Proof. reflexivity. Qed.

Definition storable (row : RequestLog) : Prop := 0 <= row.(rl_CompletedAtMS) /\ 0 <= row.(AttemptCount).

Lemma checks_storable row : requestLogChecks row = true -> storable row.
Proof. unfold requestLogChecks, storable. intros Hc. zbool. auto. Qed.

Lemma hourStart_rem t : 0 <= t -> t - Z.rem t hourMS = hourStart t.
Proof. intros Ht. unfold hourStart. rewrite Z.rem_mod_nonneg by (unfold hourMS, Epochms.MillisecondsPerHour; lia). rewrite Z.mod_eq by discriminate. lia. Qed.

Lemma request_entry row :
  storable row -> orZero (aggregated row) (entryPart (usageEntry row)) =
    orZero ((0 <? row.(AttemptCount)) && negb (unbound row.(rl_GroupID) row.(UpstreamModel)) &&
            negb (bool_decide (row.(rl_Operation) = OperationWebSearch)) &&
            selected input groupIDs row.(AccessKeyID) row.(rl_ChannelID) row.(rl_GroupID) row.(rl_CredentialID) row.(UpstreamModel))
           (part (requestRow row)).
Proof.
  intros [Ht Ha]. assert (Hag : aggregated row = (0 <? row.(AttemptCount)) && negb (bool_decide (row.(rl_Operation) = OperationWebSearch))).
  { unfold aggregated. rewrite negb_orb. f_equal. destruct (Z.eqb_spec row.(AttemptCount) 0), (Z.ltb_spec 0 row.(AttemptCount)); cbn; lia. }
  rewrite Hag. unfold entryPart, usageEntry, statSelected. cbn [fst snd statKey k_GroupID k_Model k_AccessKeyID k_ChannelID k_CredentialID].
  rewrite (part_same_hour (statRow _ _) (requestRow row)); [|cbn; rewrite hourStart_idem; symmetry; now apply fiveMinutes_hour|reflexivity..].
  rewrite <- !orZero_and. f_equal. rewrite <- !andb_assoc. f_equal. rewrite andb_comm, <- !andb_assoc. f_equal. apply andb_comm.
Qed.

Lemma call_entry row c u p :
  storable row -> callPart (autoStatOf row (row.(rl_CompletedAtMS) - Z.rem row.(rl_CompletedAtMS) hourMS) c u p) =
    orZero (callSelected input groupIDs (autoStatOf row 0 c u p)) (part (callRow row (autoStatOf row 0 c u p))).
Proof.
  intros [Ht _]. unfold callPart. f_equal. apply part_same_hour; try reflexivity. cbn. rewrite hourStart_rem by exact Ht.
  rewrite hourStart_idem. symmetry. now apply fiveMinutes_hour.
Qed.

Lemma calls_entry row :
  storable row ->
  let d := row.(Decision) in let a := row.(Audit) in
  let answerUnpriced := bool_decide (row.(rl_CostState) = CostStateUnpriced) && billable row.(UsageState) in
  let answerPartial := bool_decide (row.(PricingCompleteness) = CompletenessPartial) in
  let decision := autoStatOf row 0 d (is_completeness d CompletenessUnavailable && negb answerUnpriced)
                    (is_completeness d CompletenessPartial && negb answerPartial) in
  let audit := autoStatOf row 0 a
                 (is_completeness a CompletenessUnavailable && negb (is_completeness d CompletenessUnavailable) && negb answerUnpriced)
                 (is_completeness a CompletenessPartial && negb (is_completeness d CompletenessPartial) && negb answerPartial) in
  asum (map callPart (autoStatsOfRow row)) =
    aadd (orZero (accounted d && callSelected input groupIDs decision) (part (callRow row decision)))
         (orZero (accounted a && callSelected input groupIDs audit) (part (callRow row audit))).
Proof.
  intros Hs. cbn zeta. unfold autoStatsOfRow. fold hourMS. rewrite map_app, asum_app, !orZero_and. f_equal.
  all: destruct (accounted _); [|reflexivity]; cbn [map orZero]; rewrite asum_cons, call_entry by exact Hs; rewrite aadd_comm; apply aadd_zero.
Qed.

Lemma requestScope_sum fromMS toMS rows :
  Forall storable rows ->
  selectedSum (requestScopeOf (windowOf input fromMS toMS) groupIDs rows) = asum (map (requestPartIn fromMS toMS) rows).
Proof.
  intros Hs. unfold requestScopeOf. rewrite !selectedSum_app. unfold decisionRequestScope, auditRequestScope.
  rewrite selectedSum_filter, !selectedSum_concat, !asum_map_add. f_equal. apply map_ext_Forall.
  eapply List.Forall_impl; [|exact Hs]. intros row Hrow. cbn beta zeta. rewrite !selectedSum_if.
  unfold requestPartIn, requestPart. rewrite calls_entry, request_entry by exact Hrow. rewrite !orZero_add, <- !orZero_and.
  unfold requestSelected, callSelected. cbn [windowOf FromMS ToMS]. rewrite selected_window, !andb_assoc. reflexivity.
Qed.

(** *** The aggregates of whole hours are the sum of their requests *)

Lemma selectedSum_entries {A} (f : A -> UsageRow) (c : A -> bool) (l : list A) :
  selectedSum (map f (List.filter c l)) = asum (map (fun e => orZero (c e) (part (f e))) l).
Proof. apply selectedSum_filter. Qed.

Lemma orZero_within f t k d : orZero (within f t k) d = if within f t k then d else azero.
Proof. reflexivity. Qed.

Lemma asum_concat {A} (f : A -> list usageStatDelta) l : asum (concat (map f l)) = asum (map (fun a => asum (f a)) l).
Proof. induction l as [|a l IH]; [reflexivity|]. cbn [map concat]. now rewrite asum_app, asum_cons, IH. Qed.

Lemma callAmounts_add s s' : callAmounts (aadd s s') = aadd (callAmounts s) (callAmounts s').
Proof. reflexivity. Qed.

Lemma asum_filter_map {A} (c : A -> bool) (f : A -> usageStatDelta) l : asum (map f (List.filter c l)) = asum (map (fun a => orZero (c a) (f a)) l).
Proof. induction l as [|a l IH]; [reflexivity|]. cbn [List.filter map]. rewrite asum_cons, <- IH. unfold orZero. destruct (c a); [reflexivity|symmetry; apply aadd_zero]. Qed.

Lemma orZero_asum b l : orZero b (asum l) = asum (map (orZero b) l).
Proof. induction l as [|d l IH]; [now destruct b|]. cbn [map]. now rewrite !asum_cons, orZero_add, IH. Qed.

Lemma usageStatScope_sum db rows f t :
  db.(usage_stats) = tally (map usageEntry (usageAggregationRows rows)) ->
  db.(auto_decision_usage_stats) = tally (concat (map autoStatsOfRow rows)) ->
  Forall storable rows ->
  selectedSum (usageStatScope db (windowOf input (hourMS * f) (hourMS * t)) groupIDs) =
    asum (map (requestPartIn (hourMS * f) (hourMS * t)) rows).
Proof.
  intros Hu Ha Hs. unfold usageStatScope, decisionUsageScope. rewrite selectedSum_app. rewrite Hu, Ha.
  set (inW := within (hourMS * f) (hourMS * t)).
  pose (w1 := fun (k : usageStatKey) (d : usageStatDelta) => orZero (inW k.(BucketStartMS) && statSelected k) (part (statRow k d))).
  pose (w2 := fun (k : autoKey) (s : autoStat) => orZero (inW k.(ak_Bucket) && autoSelected k) (part (autoRow k s))).
  assert (H1' : forall k a b, w1 k (aadd a b) = aadd (w1 k a) (w1 k b)) by (intros; unfold w1, statRow; rewrite part_add; apply orZero_add).
  assert (H2' : forall k a b, w2 k (aadd a b) = aadd (w2 k a) (w2 k b)).
  { intros. unfold w2, autoRow. rewrite callAmounts_add, part_add. apply orZero_add. }
  transitivity (aadd (asum (map (weigh w1) (map_to_list (tally (map usageEntry (usageAggregationRows rows))))))
                     (asum (map (weigh w2) (map_to_list (tally (concat (map autoStatsOfRow rows))))))).
  { f_equal.
    - rewrite (map_ext _ (fun e => statRow e.1 e.2)) by (now intros []). rewrite selectedSum_filter. f_equal. apply map_ext. intros [k d].
      unfold weigh, w1, statSelected. cbn [fst snd]. f_equal. unfold inW. cbn [windowOf FromMS ToMS]. now rewrite andb_assoc.
    - rewrite (map_ext _ (fun e => autoRow e.1 e.2)) by (now intros []). rewrite selectedSum_filter. f_equal. apply map_ext. intros [k d]. reflexivity. }
  rewrite (weigh_tally w1 H1'), (weigh_tally w2 H2').
  unfold usageAggregationRows. rewrite !map_map, asum_filter_map, concat_map, map_map, asum_concat, asum_map_add.
  f_equal. apply map_ext_Forall. eapply List.Forall_impl; [|exact Hs]. intros row [Ht _]. unfold requestPartIn, requestPart. rewrite orZero_add. f_equal.
  - unfold weigh, w1, usageEntry. cbn [fst snd statKey BucketStartMS]. unfold inW. rewrite within_hours, orZero_and.
    unfold entryPart. cbn [fst snd statKey]. destruct (aggregated row), (within _ _ row.(rl_CompletedAtMS)); reflexivity.
  - rewrite orZero_asum, map_map. f_equal. apply map_ext_in. intros e He. unfold weigh, w2, callPart. rewrite orZero_and. f_equal.
    assert (Hb : e.1.(ak_Bucket) = hourStart row.(rl_CompletedAtMS)).
    { rewrite <- hourStart_rem by exact Ht. unfold autoStatsOfRow in He. fold hourMS in He. apply in_app_or in He.
      destruct He as [He|He]; destruct (accounted _) in He; (destruct He as [<-|[]] || destruct He); reflexivity. }
    rewrite Hb. unfold inW. apply within_hours.
Qed.

(** *** The log and the history *)

Lemma requestPartIn_live fromMS toMS a rows :
  a <= fromMS -> asum (map (requestPartIn fromMS toMS) (live a rows)) = asum (map (requestPartIn fromMS toMS) rows).
Proof.
  intros Ha. unfold live. rewrite asum_filter_map. f_equal. apply map_ext. intros row. unfold requestPartIn, within.
  destruct (Z.leb_spec a row.(rl_CompletedAtMS)); [reflexivity|]. destruct (Z.leb_spec fromMS row.(rl_CompletedAtMS)); [lia|reflexivity].
Qed.

Lemma requestPartIn_split a b c rows :
  a <= b -> b <= c ->
  asum (map (requestPartIn a c) rows) = aadd (asum (map (requestPartIn a b) rows)) (asum (map (requestPartIn b c) rows)).
Proof.
  intros Hab Hbc. rewrite asum_map_add. f_equal. apply map_ext. intros row. unfold requestPartIn, within. set (x := row.(rl_CompletedAtMS)).
  destruct (Z.leb_spec a x), (Z.ltb_spec x c), (Z.leb_spec b x), (Z.ltb_spec x b); cbn [andb orZero]; try lia; symmetry;
    first [apply aadd_zero | rewrite aadd_comm; apply aadd_zero].
Qed.

Lemma requestPartIn_empty a b rows : b <= a -> asum (map (requestPartIn a b) rows) = azero.
Proof.
  intros Hab. induction rows as [|row rows IH]; [reflexivity|]. cbn [map]. rewrite asum_cons, IH. unfold requestPartIn, within.
  destruct (Z.leb_spec a row.(rl_CompletedAtMS)), (Z.ltb_spec row.(rl_CompletedAtMS) b); cbn [andb orZero]; try lia; apply aadd_zero.
Qed.

Section Reachable.
Context `{Redactor.Patterns} `{LogMapper.LogCodec} (redactor : option (list Redactor.Pattern)).

Lemma history_storable l : agrees l -> Forall storable l.(history).
Proof. intros Hl. eapply List.Forall_impl; [|exact (agrees_checks _ Hl)]. intros row. apply checks_storable. Qed.

Lemma stored_storable l : agrees l -> Forall storable (storedRows l.(database)).
Proof. intros Hl. eapply List.Forall_impl; [|exact (agrees_stored _ Hl)]. intros row. apply checks_storable. Qed.

(** Requests that were not swept are still in the log. *)
Lemma logScope_sum l fromMS toMS :
  agrees l -> l.(swept) <= fromMS ->
  selectedSum (usageRequestLogScope l.(database) (windowOf input fromMS toMS) groupIDs) = asum (map (requestPartIn fromMS toMS) l.(history)).
Proof.
  intros Hl Hs. unfold usageRequestLogScope. fold (storedRows l.(database)). rewrite requestScope_sum by now apply stored_storable.
  rewrite <- (requestPartIn_live fromMS toMS l.(swept) (storedRows _)), <- (requestPartIn_live fromMS toMS l.(swept) l.(history)) by exact Hs.
  apply asum_permutation, Permutation_map, (agrees_rows _ Hl).
Qed.

Lemma fullFrom_spec t : 0 <= t -> exists q, fullFrom t = hourMS * q /\ t <= fullFrom t < t + hourMS /\ (Z.rem t hourMS = 0 -> fullFrom t = t).
Proof.
  intros Ht. unfold fullFrom. rewrite Z.rem_mod_nonneg by (unfold hourMS, Epochms.MillisecondsPerHour; lia).
  pose proof (Z.div_mod t hourMS ltac:(discriminate)) as Hd. pose proof (Z.mod_pos_bound t hourMS ltac:(reflexivity)) as Hm.
  destruct (Z.eqb_spec (t mod hourMS) 0) as [E|E]; [exists (t / hourMS)|exists (t / hourMS + 1)];
    unfold hourMS, Epochms.MillisecondsPerHour in *; lia.
Qed.

Lemma fullTo_spec t : 0 <= t -> exists q, fullTo t = hourMS * q /\ fullTo t <= t < fullTo t + hourMS /\ (Z.rem t hourMS = 0 -> fullTo t = t).
Proof.
  intros Ht. unfold fullTo. rewrite Z.rem_mod_nonneg by (unfold hourMS, Epochms.MillisecondsPerHour; lia).
  pose proof (Z.div_mod t hourMS ltac:(discriminate)) as Hd. pose proof (Z.mod_pos_bound t hourMS ltac:(reflexivity)) as Hm.
  exists (t / hourMS). unfold hourMS, Epochms.MillisecondsPerHour in *. lia.
Qed.

(** A window longer than an hour contains the boundary between two of them. *)
Lemma fullFrom_fullTo fromMS toMS : 0 <= fromMS -> hourMS < toMS - fromMS -> fullFrom fromMS <= fullTo toMS.
Proof.
  intros Hf Hs. assert (Hp : 0 <= toMS) by (unfold hourMS, Epochms.MillisecondsPerHour in Hs; lia).
  destruct (fullFrom_spec fromMS Hf) as (a & Ha & Hb & _). destruct (fullTo_spec toMS Hp) as (b & Hc & Hd & _).
  unfold hourMS, Epochms.MillisecondsPerHour in *. lia.
Qed.

(** The window was not swept, or it has no cut hour. *)
Definition covered (sweptTo fromMS toMS : Z) : Prop :=
  sweptTo <= fromMS \/ (hourMS < toMS - fromMS /\ Z.rem fromMS hourMS = 0 /\ Z.rem toMS hourMS = 0).

Lemma windowScope_sum l :
  agrees l -> 0 <= input.(FromMS) -> input.(FromMS) < input.(ToMS) -> covered l.(swept) input.(FromMS) input.(ToMS) ->
  selectedSum (usageWindowScope l.(database) input groupIDs) = asum (map (requestPartIn input.(FromMS) input.(ToMS)) l.(history)).
Proof.
  intros Hl Hf Ht Hc. unfold usageWindowScope. destruct (Z.leb_spec (input.(ToMS) - input.(FromMS)) hourMS) as [Hspan|Hspan].
  - destruct Hc as [Hc|[Hc _]]; [|lia]. rewrite <- (logScope_sum l _ _ Hl Hc). reflexivity.
  - pose proof (fullFrom_fullTo _ _ Hf Hspan) as Hft.
    destruct (fullFrom_spec _ Hf) as (a & Ha & Hb & Hfz). destruct (fullTo_spec input.(ToMS) ltac:(lia)) as (b & Hd & He & Htz).
    assert (Hbound : forall x y, input.(FromMS) <= x -> (l.(swept) <= input.(FromMS) \/ y <= x) ->
      selectedSum (if y <=? x then [] else usageRequestLogScope l.(database) (windowOf input x y) groupIDs) =
      asum (map (requestPartIn x y) l.(history))).
    { intros x y Hx Hy. destruct (Z.leb_spec y x) as [Hyx|Hyx]; [symmetry; now apply requestPartIn_empty|]. apply logScope_sum; [exact Hl|lia]. }
    rewrite !selectedSum_app, Hbound, Hbound by (destruct Hc as [?|(_ & Hc1 & Hc2)]; [|specialize (Hfz Hc1); specialize (Htz Hc2)]; lia).
    rewrite (requestPartIn_split input.(FromMS) (fullFrom input.(FromMS)) input.(ToMS) l.(history)) by lia.
    rewrite (requestPartIn_split (fullFrom input.(FromMS)) (fullTo input.(ToMS)) input.(ToMS) l.(history)) by lia.
    rewrite Ha, Hd, (usageStatScope_sum _ l.(history)); [|apply agrees_usage; exact Hl|apply agrees_auto; exact Hl|now apply history_storable].
    rewrite !aadd_assoc. f_equal. apply aadd_comm.
Qed.

(** What the log alone would show, had nothing been deleted. *)
Lemma history_sum l :
  agrees l -> selectedSum (requestScopeOf input groupIDs l.(history)) = asum (map (requestPartIn input.(FromMS) input.(ToMS)) l.(history)).
Proof. intros Hl. rewrite <- requestScope_sum by now apply history_storable. reflexivity. Qed.

End Reachable.

End Select.

(** ** Totals of a page of groups *)

Lemma coarse_group g : coarse (fun r => bool_decide (r.(u_GroupID) = g)).
Proof. intros r r' _ Hg _ _ _. now rewrite Hg. Qed.

Lemma validateUsageQuery_range input width : validateUsageQuery input = Some width -> 0 <= input.(FromMS) < input.(ToMS).
Proof.
  unfold validateUsageQuery, ResolveUsageTimeBucket. destruct (_ || _ || _) eqn:E; [discriminate|]. intros _. zbool. lia.
Qed.

Lemma groupBy_keys {K} `{EqDecision K} (key : UsageRow -> K) rows : map fst (groupBy key rows) = remove_dups (map key rows).
Proof. unfold groupBy. rewrite map_map. apply map_id. Qed.

(** The entry of a key is the total of its rows, if it has any. *)
Lemma grouped_lookup currency (rows : list UsageRow) (totals : list (Z * usageStatDelta)) g :
  mapM (fun '(g, rows) => total ← aggregate currency rows; Some (g, total)) (groupBy u_GroupID rows) = Some totals ->
  (list_to_map totals : gmap Z usageStatDelta) !! g =
    if decide (g ∈ map u_GroupID rows) then Some (sumRows currency (List.filter (fun r => bool_decide (r.(u_GroupID) = g)) rows)) else None.
Proof.
  intros Hm. apply mapM_Some in Hm.
  assert (Hk : map fst totals = map fst (groupBy u_GroupID rows)).
  { revert Hm. generalize (groupBy u_GroupID rows). induction 1 as [|[k rs] e l l' He _ IH]; [reflexivity|]. cbn [map]. rewrite <- IH. f_equal.
    destruct (aggregate currency rs); [|discriminate He]. now injection He as <-. }
  destruct (decide (g ∈ map u_GroupID rows)) as [Hg|Hg].
  - assert (He : (g, List.filter (fun r => bool_decide (r.(u_GroupID) = g)) rows) ∈ groupBy u_GroupID rows).
    { unfold groupBy. apply list_elem_of_In, in_map_iff. exists g. split; [reflexivity|]. now apply list_elem_of_In, elem_of_remove_dups. }
    apply list_elem_of_lookup in He as (i & Hi). destruct (Forall2_lookup_l _ _ _ _ _ Hm Hi) as ([k t] & Ht & Hat).
    cbv beta iota in Hat. unfold aggregate in Hat. cbv zeta in Hat. destruct (scanned _ && _); [|discriminate Hat].
    cbn [mbind option_bind] in Hat. apply Some_inj in Hat as [= <- <-].
    apply elem_of_list_to_map_1; [|eapply list_elem_of_lookup_2; exact Ht]. change (NoDup (map fst totals)). rewrite Hk, groupBy_keys. apply NoDup_remove_dups.
  - apply not_elem_of_list_to_map_1. change (g ∉ map fst totals). rewrite Hk, groupBy_keys, elem_of_remove_dups. exact Hg.
Qed.

Lemma filter_none {A} (f : A -> bool) l : (forall a, In a l -> f a = false) -> List.filter f l = [].
Proof. induction l as [|a l IH]; intros Hf; cbn; [reflexivity|]. rewrite (Hf a) by now left. apply IH. intros; apply Hf; now right. Qed.

Section Reports.
Context `{Redactor.Patterns} `{LogMapper.LogCodec} (redactor : option (list Redactor.Pattern)).

(** [C34] A page of groups that reports complete data shows, for every group asked for, exactly
    the requests and calls of the window that were ever stored - whole hours are read from the
    aggregates, cut hours from the log - provided no sweep went further than the policy in
    force says: batches may have been repeated, failed or raced each other. *)
Theorem complete_group_usage_is_exact l policyDays nowMS groupIDs fromMS toMS currency items g :
  reachable redactor l ->
  (forall days cutoff, policyDays = Some days -> retentionCutoffMS nowMS days = Some cutoff -> l.(swept) <= cutoff) ->
  QueryGroupUsage policyDays nowMS l.(database) groupIDs fromMS toMS currency = Some (items, true) ->
  g ∈ groupIDs ->
  items !! g =
    Some (sumRows currency (List.filter (fun r => bool_decide (r.(u_GroupID) = g))
            (requestScopeOf (mkQuery false fromMS toMS None None "" None "" currency) groupIDs l.(history)))).
Proof.
  intros Hr Hswept Hq Hg. unfold QueryGroupUsage in Hq.
  set (input := mkQuery false fromMS toMS None None "" None "" currency) in *.
  destruct (validateUsageQuery input) as [width|] eqn:Hv; [|discriminate Hq]. cbn [mbind option_bind] in Hq.
  apply validateUsageQuery_range in Hv. destruct (_ || _ || _ || _); [discriminate Hq|].
  destruct (negb (validateUsageIntegrity _ 0)); [discriminate Hq|].
  destruct (mapM _ (groupBy u_GroupID _)) as [totals|] eqn:Em; [|discriminate Hq]. cbn [mbind option_bind] in Hq.
  injection Hq as <- Hc. pose proof (grouped_lookup _ _ _ g Em) as Hl.
  assert (Hsum : sumRows currency (List.filter (fun r => bool_decide (r.(u_GroupID) = g)) (usageWindowScope l.(database) input groupIDs)) =
                 sumRows currency (List.filter (fun r => bool_decide (r.(u_GroupID) = g)) (requestScopeOf input groupIDs l.(history)))).
  { apply reachable_agrees in Hr. rewrite !selectedSum_sumRows, history_sum by (exact Hr || apply coarse_group).
    apply windowScope_sum; [apply coarse_group|exact Hr|apply Hv|apply Hv|]. unfold covered. cbn [input FromMS ToMS].
    apply orb_true_iff in Hc as [Hc|Hc]; [right; zbool; lia|]. unfold requestLogWindowRetained in Hc.
    destruct policyDays as [days|]; [|discriminate Hc]. destruct (retentionCutoffMS nowMS days) as [cutoff|] eqn:Ec; [|discriminate Hc].
    left. specialize (Hswept days cutoff eq_refl Ec). zbool. lia. }
  rewrite <- Hsum. destruct (decide (g ∈ map u_GroupID (usageWindowScope l.(database) input groupIDs))) as [Hin|Hin].
  - apply lookup_union_Some_l. exact Hl.
  - rewrite lookup_union_r by exact Hl. rewrite filter_none.
    + cbn [sumRows fold_right]. apply elem_of_list_to_map_1'.
      * intros d Hd. apply list_elem_of_In, in_map_iff in Hd as (? & [= <- <-] & _). reflexivity.
      * apply list_elem_of_In, in_map_iff. exists g. split; [reflexivity|]. now apply list_elem_of_In.
    + intros r Hrow. apply bool_decide_eq_false. intros <-. apply Hin, list_elem_of_In, in_map, Hrow.
Qed.

End Reports.

(** ** Series *)

Lemma asum_indicator {K} `{EqDecision K} (k : K) (d : usageStatDelta) ks :
  NoDup ks -> k ∈ ks -> asum (map (fun k' => orZero (bool_decide (k = k')) d) ks) = d.
Proof.
  assert (Hz : forall ks, k ∉ ks -> asum (map (fun k' => orZero (bool_decide (k = k')) d) ks) = azero).
  { induction ks0 as [|k' ks0 IH]; intros Hk; [reflexivity|]. cbn [map]. rewrite asum_cons, IH by (intros Hi; apply Hk; now constructor).
    rewrite bool_decide_eq_false_2 by (intros ->; apply Hk; constructor). apply aadd_zero. }
  induction 1 as [|k' ks Hn _ IH]; intros Hk; [now apply elem_of_nil in Hk|]. cbn [map]. rewrite asum_cons. apply elem_of_cons in Hk as [->|Hk].
  - rewrite bool_decide_eq_true_2 by reflexivity. rewrite Hz by exact Hn. rewrite aadd_comm. apply aadd_zero.
  - rewrite IH by exact Hk. rewrite bool_decide_eq_false_2 by (intros ->; contradiction). apply aadd_zero.
Qed.

(** The totals of the groups add up to the total. *)
Lemma groupBy_total {K} `{EqDecision K} (key : UsageRow -> K) currency rows ks :
  NoDup ks -> (forall r, In r rows -> key r ∈ ks) ->
  asum (map (fun k => sumRows currency (List.filter (fun r => bool_decide (key r = k)) rows)) ks) = sumRows currency rows.
Proof.
  intros Hnd. induction rows as [|r rows IH]; intros Hk; cbn [List.filter].
  - clear. induction ks as [|k ks IH]; [reflexivity|]. cbn [map]. rewrite asum_cons, IH. exact (aadd_zero (V := usageStatDelta) _).
  - cbn [sumRows fold_right]. fold (sumRows currency rows). rewrite <- IH by (intros; apply Hk; now right).
    rewrite <- (asum_indicator (key r) (settledIn currency r) ks Hnd) by (apply Hk; now left).
    change addDelta with (@aadd usageStatDelta _). rewrite asum_map_add. f_equal. apply map_ext. intros k. unfold orZero.
    destruct (bool_decide (key r = k)); [reflexivity|symmetry; apply aadd_zero].
Qed.

(** The instant a row of a scope stands for. *)
Definition stands (input : UsageQuery) (r : UsageRow) : Prop :=
  exists t, input.(FromMS) <= t < input.(ToMS) /\ r.(u_Bucket) <= t < r.(u_Bucket) + UsageFiveMinuteBucketMS.

Lemma within_iff f t x : within f t x = true <-> f <= x < t.
Proof. unfold within. rewrite andb_true_iff, Z.leb_le, Z.ltb_lt. reflexivity. Qed.

Lemma fiveMinutes_bounds t : 0 <= t -> fiveMinutes t <= t < fiveMinutes t + UsageFiveMinuteBucketMS.
Proof.
  intros Ht. unfold fiveMinutes. rewrite Z.rem_mod_nonneg by (unfold UsageFiveMinuteBucketMS; lia).
  pose proof (Z.mod_pos_bound t UsageFiveMinuteBucketMS ltac:(reflexivity)). lia.
Qed.

Lemma stands_at input r t : 0 <= input.(FromMS) -> within input.(FromMS) input.(ToMS) t = true -> r.(u_Bucket) = fiveMinutes t -> stands input r.
Proof. intros Hf Ht Hr. apply within_iff in Ht. exists t. split; [exact Ht|]. rewrite Hr. apply fiveMinutes_bounds. lia. Qed.

Lemma requestScope_stands input groupIDs rows r : 0 <= input.(FromMS) -> In r (requestScopeOf input groupIDs rows) -> stands input r.
Proof.
  intros Hf Hr. unfold requestScopeOf in Hr. apply in_app_or in Hr as [Hr|Hr]; [|apply in_app_or in Hr as [Hr|Hr]].
  - apply in_map_iff in Hr as (row & <- & Hr). apply filter_In in Hr as [_ Hr]. unfold requestSelected in Hr.
    apply (stands_at input _ row.(rl_CompletedAtMS) Hf); [now zbool|reflexivity].
  - apply in_concat in Hr as (l & Hl & Hr). apply in_map_iff in Hl as (row & <- & _). cbv zeta in Hr. destruct (_ && _) eqn:E in Hr; [|easy].
    destruct Hr as [<-|[]]. apply (stands_at input _ row.(rl_CompletedAtMS) Hf); [now zbool|reflexivity].
  - apply in_concat in Hr as (l & Hl & Hr). apply in_map_iff in Hl as (row & <- & _). cbv zeta in Hr. destruct (_ && _) eqn:E in Hr; [|easy].
    destruct Hr as [<-|[]]. apply (stands_at input _ row.(rl_CompletedAtMS) Hf); [now zbool|reflexivity].
Qed.

Lemma statScope_bucket db input groupIDs r : In r (usageStatScope db input groupIDs) -> input.(FromMS) <= r.(u_Bucket) < input.(ToMS).
Proof.
  intros Hr. unfold usageStatScope, decisionUsageScope in Hr. apply in_app_or in Hr as [Hr|Hr];
    apply in_map_iff in Hr as ([k d] & <- & Hr); apply filter_In in Hr as [_ Hr]; zbool; cbn [u_Bucket]; now apply within_iff.
Qed.

Lemma windowScope_stands db input groupIDs r :
  0 <= input.(FromMS) -> In r (usageWindowScope db input groupIDs) -> stands input r.
Proof.
  intros Hf Hr. unfold usageWindowScope in Hr. destruct (Z.leb_spec (input.(ToMS) - input.(FromMS)) hourMS) as [Hs|Hs].
  { eapply requestScope_stands; eauto. }
  pose proof (fullFrom_fullTo _ _ Hf Hs) as Hft. destruct (fullFrom_spec _ Hf) as (a & _ & Ha & _).
  destruct (fullTo_spec input.(ToMS) ltac:(unfold hourMS, Epochms.MillisecondsPerHour in Hs; lia)) as (b & _ & Hb & _).
  assert (Hbound : forall x y, input.(FromMS) <= x -> y <= input.(ToMS) ->
    In r (if y <=? x then [] else usageRequestLogScope db (windowOf input x y) groupIDs) -> stands input r).
  { intros x y Hx Hy Hin. destruct (y <=? x); [easy|]. apply requestScope_stands in Hin as (t & Ht & Hr'); [|cbn; lia]. exists t. cbn in Ht. split; [lia|exact Hr']. }
  apply in_app_or in Hr as [Hr|Hr]; [|apply in_app_or in Hr as [Hr|Hr]; revert Hr; apply Hbound; lia].
  apply statScope_bucket in Hr. cbn in Hr. exists r.(u_Bucket). unfold UsageFiveMinuteBucketMS. lia.
Qed.

(** The widths of the trend are whole numbers of five minutes. *)
Lemma resolved_width fromMS toMS g width :
  ResolveUsageTimeBucket fromMS toMS = Some (g, width) -> exists n, 0 < n /\ width = UsageFiveMinuteBucketMS * n.
Proof.
  unfold ResolveUsageTimeBucket. set (bad := _ || _ || _). destruct bad eqn:E; [discriminate|]. unfold bad in E. zbool.
  set (span := toMS - fromMS) in *.
  assert (Hq : 0 <= Z.quot (span - 1) (30 * dayMS)) by (apply Z.quot_pos; unfold dayMS, Epochms.MillisecondsPerDay; lia).
  set (q := Z.quot _ _) in *. clearbody q. intros Hs. apply Some_inj in Hs. revert Hs.
  repeat (match goal with |- context [if ?b then _ else _] => destruct b end); intros [= _ <-];
    unfold hourMS, dayMS, Epochms.MillisecondsPerHour, Epochms.MillisecondsPerDay, UsageFiveMinuteBucketMS.
  - exists 1. lia.
  - exists 12. lia.
  - exists 36. lia.
  - exists 72. lia.
  - exists 144. lia.
  - exists (288 * (q + 1)). lia.
Qed.

Lemma bucket_width input width : validateUsageQuery input = Some width -> exists n, 0 < n /\ width = UsageFiveMinuteBucketMS * n.
Proof.
  unfold validateUsageQuery. destruct (ResolveUsageTimeBucket _ _) as [[g w]|] eqn:E; [|discriminate].
  match goal with |- context [if ?b then _ else _] => destruct b end; [discriminate|]. intros [= <-]. eapply resolved_width, E.
Qed.

(** The points of a series follow one another inside the window. *)
Inductive consecutive (toMS : Z) : Z -> list UsageSeriesPoint -> Prop :=
| consecutive_nil from : consecutive toMS from []
| consecutive_cons from p rest :
    from <= p.(p_BucketStartMS) -> p.(p_BucketStartMS) < p.(p_BucketEndMS) -> p.(p_BucketEndMS) <= toMS ->
    consecutive toMS p.(p_BucketEndMS) rest -> consecutive toMS from (p :: rest).

Definition bucketStart (width : Z) (r : UsageRow) : Z := r.(u_Bucket) - Z.rem r.(u_Bucket) width.

(** A bucket of the trend: a multiple of its width, with a row of the window inside. *)
Definition goodBucket (input : UsageQuery) (width b : Z) : Prop :=
  0 <= b /\ Z.rem b width = 0 /\ b < input.(ToMS) /\ input.(FromMS) < b + width.

Lemma bucketStart_good input width r :
  (exists n, 0 < n /\ width = UsageFiveMinuteBucketMS * n) -> stands input r -> rowIntact r.(u_Alignment) r = true ->
  (r.(u_Alignment) = hourMS \/ r.(u_Alignment) = UsageFiveMinuteBucketMS) -> goodBucket input width (bucketStart width r).
Proof.
  intros (n & Hn & Hw) (t & Ht & Hb) Hi Ha. unfold rowIntact in Hi. zbool. unfold bucketStart, goodBucket.
  assert (Hw' : 0 < width) by (unfold UsageFiveMinuteBucketMS in Hw; lia).
  assert (Hfive : exists m, r.(u_Bucket) = UsageFiveMinuteBucketMS * m).
  { destruct Ha as [Ha|Ha]; rewrite Ha in *; rewrite Z.rem_mod_nonneg in * by (unfold hourMS, Epochms.MillisecondsPerHour, UsageFiveMinuteBucketMS; lia);
      [exists (12 * (r.(u_Bucket) / hourMS))|exists (r.(u_Bucket) / UsageFiveMinuteBucketMS)];
      [pose proof (Z.div_mod r.(u_Bucket) hourMS ltac:(discriminate))|pose proof (Z.div_mod r.(u_Bucket) UsageFiveMinuteBucketMS ltac:(discriminate))];
      unfold hourMS, Epochms.MillisecondsPerHour, UsageFiveMinuteBucketMS in *; lia. }
  destruct Hfive as [m Hm]. rewrite (Z.rem_mod_nonneg r.(u_Bucket)) by lia.
  pose proof (Z.div_mod r.(u_Bucket) width ltac:(lia)) as Hd. pose proof (Z.mod_pos_bound r.(u_Bucket) width Hw') as Hr.
  set (q := r.(u_Bucket) / width) in *. replace (r.(u_Bucket) - r.(u_Bucket) mod width) with (width * q) by lia.
  assert (Hq : 0 <= q) by (apply Z.div_pos; lia).
  split; [nia|]. split; [rewrite Z.mul_comm; apply Z.rem_mul; lia|]. split; [lia|].
  assert (n * q <= m < n * q + n); [|unfold UsageFiveMinuteBucketMS in *; nia]. unfold UsageFiveMinuteBucketMS in *. subst width. nia.
Qed.

Lemma series_consecutive input width buckets points from :
  0 < width -> input.(FromMS) < input.(ToMS) ->
  StronglySorted byFirst buckets -> NoDup (map fst buckets) -> Forall (fun b => goodBucket input width b.1 /\ from <= Z.max b.1 input.(FromMS)) buckets ->
  mapM (seriesPoint input width) buckets = Some points -> consecutive input.(ToMS) from points.
Proof.
  intros Hw Hft Hs. revert points from. induction Hs as [|b buckets Hs IH Hb]; intros points from Hnd Hg Hm.
  - injection Hm as <-. constructor.
  - cbn in Hm. destruct (seriesPoint input width b) as [p|] eqn:Ep; [|discriminate Hm]. cbn in Hm.
    destruct (mapM (seriesPoint input width) buckets) as [ps|] eqn:Em; [|discriminate Hm]. injection Hm as <-.
    unfold seriesPoint in Ep. destruct (aggregate _ b.2); [|discriminate Ep]. cbn [mbind option_bind] in Ep. apply Some_inj in Ep as <-.
    apply Forall_cons in Hg as [[(Hb0 & Hbw & Hbt & Hbf) Hfr] Hg]. cbn [map] in Hnd. apply NoDup_cons in Hnd as [Hn Hnd].
    rewrite Z.gtb_ltb. constructor; cbn [p_BucketStartMS p_BucketEndMS]; [exact Hfr|destruct (Z.ltb_spec width (input.(ToMS) - b.1)); lia..|].
    apply IH; [exact Hnd| |reflexivity]. apply List.Forall_forall. intros b' Hb'.
    rewrite List.Forall_forall in Hg, Hb. destruct (Hg b' Hb') as [Hg' _]. split; [exact Hg'|]. specialize (Hb b' Hb'). unfold byFirst in Hb.
    assert (b.1 <> b'.1) by (intros He; apply Hn; rewrite He; now apply list_elem_of_In, in_map).
    destruct Hg' as (H0' & Hr' & Ht' & _). rewrite Z.rem_mod_nonneg in Hbw, Hr' by lia.
    pose proof (Z.div_mod b.1 width ltac:(lia)) as Hd1. pose proof (Z.div_mod b'.1 width ltac:(lia)) as Hd2.
    assert (b.1 / width < b'.1 / width) by nia. assert (b.1 + width <= b'.1) by nia.
    destruct (Z.ltb_spec width (input.(ToMS) - b.1)); lia.
Qed.

Definition aligned (r : UsageRow) : Prop := r.(u_Alignment) = hourMS \/ r.(u_Alignment) = UsageFiveMinuteBucketMS.

Lemma requestScope_aligned input groupIDs rows r : In r (requestScopeOf input groupIDs rows) -> aligned r.
Proof.
  unfold requestScopeOf. intros Hr. right. apply in_app_or in Hr as [Hr|Hr]; [|apply in_app_or in Hr as [Hr|Hr]].
  - apply in_map_iff in Hr as (row & <- & _). reflexivity.
  - apply in_concat in Hr as (l & Hl & Hr). apply in_map_iff in Hl as (row & <- & _). cbv zeta in Hr. destruct (_ && _) in Hr; [|easy].
    now destruct Hr as [<-|[]].
  - apply in_concat in Hr as (l & Hl & Hr). apply in_map_iff in Hl as (row & <- & _). cbv zeta in Hr. destruct (_ && _) in Hr; [|easy].
    now destruct Hr as [<-|[]].
Qed.

Lemma windowScope_aligned db input groupIDs r : In r (usageWindowScope db input groupIDs) -> aligned r.
Proof.
  unfold usageWindowScope. destruct (_ <=? hourMS); [apply requestScope_aligned|]. intros Hr. apply in_app_or in Hr as [Hr|Hr].
  - left. unfold usageStatScope, decisionUsageScope in Hr. apply in_app_or in Hr as [Hr|Hr]; apply in_map_iff in Hr as ([k d] & <- & _); reflexivity.
  - apply in_app_or in Hr as [Hr|Hr]; revert Hr; case_if; try easy; apply requestScope_aligned.
Qed.

(** The rows a report reads. *)
Definition reportScope (db : DB) (input : UsageQuery) (width : Z) : list UsageRow :=
  if width =? UsageFiveMinuteBucketMS then usageRequestLogScope db input [] else usageWindowScope db input [].

Lemma mapM_aggregates input width buckets points :
  mapM (seriesPoint input width) buckets = Some points -> map p_Aggregate points = map (fun b => sumRows input.(q_Currency) b.2) buckets.
Proof.
  intros Hm. apply mapM_Some in Hm. induction Hm as [|b p buckets points Hp _ IH]; [reflexivity|]. cbn [map]. rewrite IH. f_equal.
  unfold seriesPoint, aggregate in Hp. cbv zeta in Hp. destruct (scanned _ && _); [|discriminate Hp]. cbn [mbind option_bind] in Hp.
  now apply Some_inj in Hp as <-.
Qed.

Lemma mapM_perm_total input (l l' : list (Z * list UsageRow)) :
  l ≡ₚ l' -> asum (map (fun b => sumRows input.(q_Currency) b.2) l) = asum (map (fun b => sumRows input.(q_Currency) b.2) l').
Proof. intros Hp. apply asum_permutation, Permutation_map, Hp. Qed.

Lemma series_spec db input width scope points :
  scope = reportScope db input width -> validateUsageQuery input = Some width -> validateUsageIntegrity scope 0 = true ->
  queryUsageWindowSeries scope input width = Some points ->
  asum (map p_Aggregate points) = sumRows input.(q_Currency) scope /\ consecutive input.(ToMS) input.(FromMS) points.
Proof.
  intros Hsc Hv Hi Hq. pose proof (validateUsageQuery_range _ _ Hv) as Hr. pose proof (bucket_width _ _ Hv) as Hw.
  unfold queryUsageWindowSeries in Hq. fold (bucketStart width) in Hq. set (gs := groupBy (bucketStart width) scope) in *.
  assert (Hp : merge_sort byFirst gs ≡ₚ gs) by apply merge_sort_Permutation. split.
  - rewrite (mapM_aggregates _ _ _ _ Hq), (mapM_perm_total _ _ _ Hp). unfold gs, groupBy. rewrite map_map.
    apply groupBy_total; [apply NoDup_remove_dups|]. intros r Hin. apply elem_of_remove_dups, list_elem_of_In, in_map, Hin.
  - assert (Hpos : 0 < width) by (destruct Hw as (n & Hn & ->); unfold UsageFiveMinuteBucketMS; lia).
    eapply series_consecutive; [exact Hpos|apply Hr| | | |exact Hq].
    + apply StronglySorted_merge_sort; [intros a b c; unfold byFirst; lia|intros a b; unfold byFirst; lia].
    + rewrite (Permutation_map fst Hp). unfold gs. unfold groupBy. rewrite map_map, map_id. apply NoDup_remove_dups.
    + rewrite Hp. apply List.Forall_forall. intros b Hb. split; [|lia]. unfold gs, groupBy in Hb. apply in_map_iff in Hb as (k & <- & Hk).
      apply list_elem_of_In, elem_of_remove_dups, list_elem_of_In, in_map_iff in Hk as (r & <- & Hin). cbn [fst].
      apply bucketStart_good; [exact Hw| | |].
      * subst scope. unfold reportScope in Hin. destruct (width =? _);
          [eapply requestScope_stands; [lia|exact Hin]|eapply windowScope_stands; [lia|exact Hin]].
      * unfold validateUsageIntegrity in Hi. cbn [Z.eqb] in Hi. rewrite forallb_forall in Hi. now apply Hi.
      * subst scope. unfold reportScope in Hin. destruct (width =? _); [eapply requestScope_aligned|eapply windowScope_aligned]; exact Hin.
Qed.

Section Usage.
Context `{Redactor.Patterns} `{LogMapper.LogCodec} (redactor : option (list Redactor.Pattern)).

(** [C13] A usage report over a window that no sweep has reached counts exactly the requests and
    calls of the window that were ever stored; its trend is a sequence of intervals that
    follow one another inside the window and whose totals add up to the summary. *)
Theorem usage_report_exact l c input report :
  reachable redactor l -> l.(swept) <= input.(FromMS) -> QueryUsage c l.(database) input = Some report ->
  report.(Summary) = sumRows input.(q_Currency) (requestScopeOf input [] l.(history)) /\
  sumDeltas (map p_Aggregate report.(Series)) = report.(Summary) /\
  consecutive input.(ToMS) input.(FromMS) report.(Series).
Proof.
  intros Hr Hs Hq. apply reachable_agrees in Hr. unfold QueryUsage in Hq.
  destruct (validateUsageQuery input) as [width|] eqn:Hv; [|discriminate Hq]. cbn [mbind option_bind] in Hq.
  fold (reportScope l.(database) input width) in Hq. set (scope := reportScope _ _ _) in *.
  destruct (validateUsageIntegrity scope 0) eqn:Hi; [|discriminate Hq]. cbn [negb] in Hq.
  destruct (aggregate _ scope) as [summary|] eqn:Ha; [|discriminate Hq]. cbn [mbind option_bind] in Hq.
  destruct (queryUsageWindowSeries scope input width) as [points|] eqn:Ep; [|discriminate Hq]. cbn [mbind option_bind] in Hq.
  destruct (queryUsageDistributions _ _ _ _); [|discriminate Hq]. cbn [mbind option_bind] in Hq. apply Some_inj in Hq as <-.
  cbn [Summary Series]. unfold aggregate in Ha. cbv zeta in Ha. destruct (scanned _ && _) in Ha; [|discriminate Ha]. apply Some_inj in Ha as <-.
  pose proof (validateUsageQuery_range _ _ Hv) as Hf.
  destruct (series_spec l.(database) input width scope points eq_refl Hv Hi Ep) as [Hsum Hc].
  split; [|split; [exact Hsum|exact Hc]].
  assert (Hall : forall rows, sumRows input.(q_Currency) rows = selectedSum input.(q_Currency) (fun _ => true) rows).
  { intros rows. rewrite <- selectedSum_sumRows. f_equal. symmetry. now apply forallb_filter_id, forallb_forall. }
  assert (Hco : coarse (fun _ => true)) by easy.
  rewrite !Hall, history_sum by assumption. unfold scope, reportScope. destruct (width =? _).
  - rewrite <- (logScope_sum _ _ _ _ Hco l _ _ Hr Hs). reflexivity.
  - apply windowScope_sum; [exact Hco|exact Hr|lia|lia|left; exact Hs].
Qed.

End Usage.

(** ** A small history

    One request that was served without usage, answered in the second hour of the epoch. *)

Definition sampleRow : RequestLog :=
  match @LogMapper.mapEvent plainPatterns plainCodec None sampleEvent with Ok row => row
  | Err _ => mkRow None (mkCallColumns "" 0 "" 0 0 0 CompletenessNotApplicable) None (mkCallColumns "" 0 "" 0 0 0 CompletenessNotApplicable)
      "" 0 0 "" 0 0 0 "" 0 OpenAICompletions OperationProbe None "" "" "" Telemetry.ModelConsistencyMatch RequestStatusSuccess 0 false None 0 0 ""
      "" false "" (mkReasoning "" "" None) 0 0 0 0 0 0 0 StateMissing CostStatePriced CompletenessPartial [] 0 CostStatePriced CompletenessPartial
  end.

Definition sampleDB : DB := written emptyDB (WriteBatch (Some ∅) false emptyDB [sampleRow]).
Definition sampleLog : Log := mkLog sampleDB ([] ++ storedBy (Some ∅) false emptyDB [sampleRow]) 0.

Lemma sampleLog_reachable : @reachable plainPatterns plainCodec None sampleLog.
Proof.
  apply (@ReachStep plainPatterns plainCodec None emptyLog); [constructor|].
  apply (@StepWrite plainPatterns plainCodec None emptyLog (Some ∅) false [sampleRow]).
  constructor; [|constructor]. exists sampleEvent. vm_compute. reflexivity.
Qed.

Definition sampleItems : gmap Z usageStatDelta :=
  match QueryGroupUsage (Some 7) 90000000 sampleDB [7; 8] 3600000 9000000 "USD" with Some (items, _) => items | None => ∅ end.

Lemma complete_group_usage_is_exact_witness :
  sampleItems !! 7 = Some (mkDelta 1 1 0 0 0 0 0 0 0 0 0 1 0 0 0) /\
  sampleItems !! 7 =
    Some (sumRows "USD" (List.filter (fun r => bool_decide (r.(u_GroupID) = 7))
            (requestScopeOf (mkQuery false 3600000 9000000 None None "" None "" "USD") [7; 8] sampleLog.(history)))).
Proof.
  split; [vm_compute; reflexivity|].
  apply (@complete_group_usage_is_exact plainPatterns plainCodec None sampleLog (Some 7) 90000000 [7; 8] 3600000 9000000 "USD").
  - exact sampleLog_reachable.
  - intros days cutoff [= <-]. vm_compute. intros [= <-]. discriminate.
  - vm_compute. reflexivity.
  - constructor.
Defined.

Definition sampleCatalog : Catalog := mkCatalog {[7]} {[9]} String.ltb.

Lemma usage_report_exact_witness :
  let input := mkQuery false 5000000 30000000 None None "" None "" "USD" in
  match QueryUsage sampleCatalog sampleDB input with
  | Some report => report.(Summary).(RequestCount) = 1 /\ consecutive 30000000 5000000 report.(Series)
  | None => False
  end.
Proof.
  cbv zeta. destruct (QueryUsage sampleCatalog sampleDB (mkQuery false 5000000 30000000 None None "" None "" "USD")) as [report|] eqn:Eq.
  - destruct (@usage_report_exact plainPatterns plainCodec None sampleLog sampleCatalog
      (mkQuery false 5000000 30000000 None None "" None "" "USD") report sampleLog_reachable ltac:(vm_compute; discriminate) Eq) as (Hs & _ & Hc).
    split; [rewrite Hs; vm_compute; reflexivity|exact Hc].
  - vm_compute in Eq. discriminate Eq.
Defined.

(** Raising the retention declares swept windows complete: a sweep that kept one day has
    deleted a request, a policy of seven days answers that the window has all of them. *)
Definition sweptLog : Log := mkLog (sweepBatch 5500000 sampleDB) sampleLog.(history) 5500000.

Lemma raised_retention_claims_complete :
  @reachable plainPatterns plainCodec None sweptLog /\
  retentionCutoffMS 91900000 1 = Some 5500000 /\
  QueryGroupUsage (Some 7) 91900000 sweptLog.(database) [7] 3600001 9000000 "USD" = Some ({[7 := zeroDelta]}, true) /\
  requestScopeOf (mkQuery false 3600001 9000000 None None "" None "" "USD") [7] sweptLog.(history) <> [].
Proof.
  split; [|split; [reflexivity|split; [vm_compute; reflexivity|vm_compute; discriminate]]].
  apply (@ReachStep plainPatterns plainCodec None sampleLog); [apply sampleLog_reachable|].
  change sweptLog with (mkLog (sweepBatch 5500000 sampleLog.(database)) sampleLog.(history) (Z.max sampleLog.(swept) 5500000)). constructor.
Qed.

(** The two sources of a credential's window disagree about requests without usage: the log
    counts them as unpriced, the hourly aggregates do not. *)
Lemma credential_sources_disagree :
  exists log hours,
    QueryCredentialWindowUsage (Some 7) 90000000 sampleDB 3 3600000 7200000 SourceRequestLogs = Some log /\
    QueryCredentialWindowUsage (Some 7) 90000000 sampleDB 3 3600000 7200000 SourceHourlyStats = Some hours /\
    log.(cw_Aggregate).(UnpricedRequestCount) = 1 /\ hours.(cw_Aggregate).(UnpricedRequestCount) = 0.
Proof. do 2 eexists. split; [vm_compute; reflexivity|]. split; [vm_compute; reflexivity|]. split; reflexivity. Qed.

End UsageReportProps.
