(* ===== verification/RequestLog.v ===== *)
(** * The request log service

    [internal/requestlog/service.go] and [worker.go]: handlers put the events of finished
    requests into a bounded queue without waiting, one worker collects them into batches and
    writes them, checkpoints changed cost limits on the way, and a shutdown drains the queue
    until its deadline.

    Calls under [stateMu] and steps of the worker between two blocking operations are one step
    each; [step] interleaves them.  A [select] with several ready cases takes any of them.
    Timers fire at any time, the database is [LogStore.WriteBatch], and what the checkpoint
    source and the flusher answer is part of the step.  The source reports a change by setting
    its flag and then calling the notifier, which are two steps. *)

From Stdlib Require Import ZArith Lia Bool String Ascii List.
From stdpp Require Import base gmap list strings.
From coqutil Require Import Datatypes.RecordSettersUsingExistingGetters.
From S2P Require Import Prelude GoStrings LogEvent LogMapper LogStore.

Local Open Scope Z_scope.

Module RequestLog.
Import LogStore(DB, WriteBatch, written).

Definition queueCapacity : nat := 4096.
Definition batchSize : nat := 500.

Definition event : Type := Telemetry.RequestEvent.

Inductive lifecycleState := LifecycleNew | LifecycleRunning | LifecycleStopping | LifecycleStopped.

#[export] Instance lifecycleState_eq_dec : EqDecision lifecycleState.
Proof. solve_decision. Defined.

(** Where the worker is. *)
Inductive after := ToWaiting | ToDraining | ToFinal | InFinal.

Inductive position :=
| NotStarted
| Waiting                              (* the select of [runWorker] *)
| Collecting (batch : list event)      (* the loop of [collectAndWrite] *)
| Draining (batch : list event)        (* the loop of [drain] *)
| Dropping (dropped : Z)               (* the loop of [dropUnattempted] *)
| Writing (batch : list event) (next : after)
| Checkpointing (next : after)         (* before [DirtySnapshots] *)
| WritingSnapshots (next : after)
| Acknowledging (next : after)
| Acknowledged (next : after)          (* before [HasDirty] *)
| FlushingPassive (failed : bool) (next : after)
| FinalCheck                           (* the loop at the end of [drain] *)
| FinalPassive                         (* [drainPassiveQuotaObservations] *)
| Finished.

Inductive ShutdownError := StopCanceled | FinalCheckpointFailed.

Record Service := mkService {
  misconfigured : bool;                (* [startErr], or no writer *)
  state : lifecycleState;
  queue : list event;
  stopRequested : bool;
  canceled : bool;                     (* the context of the worker *)
  shutdownDone : option bool;
  shutdownErr : option ShutdownError;
  hasQuota : bool;                     (* [accessQuota] and [quotaWriter] *)
  hasPassive : bool;
  quotaWake : option bool;             (* nil, or whether the token is there *)
  worker : position;
  enqueuedTotal : Z;
  persistedTotal : Z;
  droppedNotRunningTotal : Z;
  droppedQueueFullTotal : Z;
  droppedStoppingTotal : Z;
  droppedPersistFailedTotal : Z;
  droppedShutdownTotal : Z;
  writeFailureTotal : Z;
  checkpointFailureTotal : Z;
  degraded : bool;
}.

(** [newService] with the sources installed before [Start]. *)
Definition newService (misconfigured hasQuota hasPassive : bool) : Service :=
  mkService misconfigured LifecycleNew [] false false None None hasQuota hasPassive
    (if hasQuota || hasPassive then Some false else None) NotStarted 0 0 0 0 0 0 0 0 0 false.

Definition bumped (counter n : Z) : Z := wrap_u64 (counter + n).

Definition wakeAccessQuotaCheckpoint (s : Service) : Service :=
  match s.(quotaWake) with Some _ => s <| quotaWake := Some true |> | None => s end.

(** ** Calls *)

Inductive StartError := ErrAlreadyStarted | ErrNotRestartable | ErrStart.

Definition Start (dirty : bool) (s : Service) : Service * option StartError :=
  match s.(state) with
  | LifecycleRunning => (s, Some ErrAlreadyStarted)
  | LifecycleStopping | LifecycleStopped => (s, Some ErrNotRestartable)
  | LifecycleNew =>
    if s.(misconfigured) then (s <| state := LifecycleStopped |>, Some ErrStart)
    else
      let s := s <| worker := Waiting |> <| state := LifecycleRunning |> in
      (if s.(hasQuota) && dirty then wakeAccessQuotaCheckpoint s else s, None)
  end.

(** [Emit]: the flag tells whether the event was taken. *)
Definition Emit (s : Service) (e : event) : Service * bool :=
  match s.(state) with
  | LifecycleNew => (s <| droppedNotRunningTotal := bumped s.(droppedNotRunningTotal) 1 |>, false)
  | LifecycleStopping | LifecycleStopped => (s <| droppedStoppingTotal := bumped s.(droppedStoppingTotal) 1 |>, false)
  | LifecycleRunning =>
    if (length s.(queue) <? queueCapacity)%nat
    then (s <| queue := s.(queue) ++ [e] |> <| enqueuedTotal := bumped s.(enqueuedTotal) 1 |>, true)
    else (s <| droppedQueueFullTotal := bumped s.(droppedQueueFullTotal) 1 |>, false)
  end.

(** What a call of [Stop] does before it waits: an immediate answer, or none. *)
Definition Stop (s : Service) : Service * option (option ShutdownError) :=
  match s.(state) with
  | LifecycleNew => (s <| state := LifecycleStopped |> <| shutdownDone := Some true |>, Some None)
  | LifecycleRunning =>
      (s <| state := LifecycleStopping |> <| stopRequested := true |> <| shutdownDone := Some false |>, None)
  | LifecycleStopping => (s, None)
  | LifecycleStopped => (s, Some s.(shutdownErr))
  end.

(** [cancelShutdown]: the deadline of a waiting [Stop] has passed. *)
Definition cancelShutdown (s : Service) : Service * option ShutdownError :=
  if negb (bool_decide (s.(state) = LifecycleStopping)) then (s, s.(shutdownErr))
  else match s.(shutdownErr) with
       | None => (s <| shutdownErr := Some StopCanceled |> <| canceled := true |>, Some StopCanceled)
       | Some err => (s, Some err)
       end.

Definition finishShutdown (s : Service) : Service := s <| state := LifecycleStopped |> <| shutdownDone := Some true |>.

Definition recordFinalQuotaCheckpointFailure (s : Service) : Service :=
  match s.(shutdownErr) with None => s <| shutdownErr := Some FinalCheckpointFailed |> | Some _ => s end.

Record Stats := mkStats { DroppedTotal : Z; QueueDepth : nat; QueueCapacity : nat }.

(** [Stats]; the other fields are the counters themselves. *)
Definition statsOf (s : Service) : Stats :=
  mkStats (bumped (bumped (bumped (bumped s.(droppedNotRunningTotal) s.(droppedQueueFullTotal)) s.(droppedStoppingTotal))
             s.(droppedPersistFailedTotal)) s.(droppedShutdownTotal))
    (length s.(queue)) queueCapacity.

(** ** The worker *)

Definition recordPersistFailure (count : nat) (s : Service) : Service :=
  s <| writeFailureTotal := bumped s.(writeFailureTotal) 1 |>
    <| droppedPersistFailedTotal := bumped s.(droppedPersistFailedTotal) (Z.of_nat count) |>.

Definition recordAccessQuotaCheckpointFailure (s : Service) : Service :=
  s <| checkpointFailureTotal := bumped s.(checkpointFailureTotal) 1 |>.

(** A failed checkpoint is retried at the next wake. *)
Definition checkpointFailed (s : Service) : Service :=
  wakeAccessQuotaCheckpoint (recordAccessQuotaCheckpointFailure (s <| degraded := true |>)).

Definition checkpointSettled (dirty : bool) (s : Service) : Service :=
  if dirty then wakeAccessQuotaCheckpoint s else s <| degraded := false |>.

(** Where a flush returns to, with or without an error. *)
Definition flushed (failed : bool) (next : after) (s : Service) : Service :=
  match next with
  | InFinal => if failed then (recordFinalQuotaCheckpointFailure s) <| worker := Finished |> else s <| worker := FinalCheck |>
  | _ => s <| worker := FlushingPassive failed next |>
  end.

(** Where [writeBatch] returns to. *)
Definition returned (failed : bool) (next : after) (s : Service) : Service :=
  match next with
  | ToWaiting => s <| worker := Waiting |>
  | ToDraining => s <| worker := Draining [] |>
  | ToFinal | InFinal => if failed then (recordFinalQuotaCheckpointFailure s) <| worker := Finished |> else s <| worker := FinalCheck |>
  end.

Section Worker.
Context `{Redactor.Patterns} `{LogMapper.LogCodec} (redactor : option (list Redactor.Pattern)).

(** The rows of a batch and the number of events that have none. *)
Fixpoint projected (batch : list event) : list LogRow.RequestLog * nat :=
  match batch with
  | [] => ([], 0%nat)
  | e :: rest =>
    let '(rows, failures) := projected rest in
    match LogMapper.mapEvent redactor e with Ok row => (row :: rows, failures) | Err _ => (rows, S failures) end
  end.

(** The part of [writeBatch] before the checkpoints. *)
Definition writeRows (existing : option (gset string)) (fault : bool) (db : DB) (batch : list event) (s : Service) : Service * DB :=
  let '(rows, failures) := projected batch in
  let s := if (0 <? failures)%nat then recordPersistFailure failures s else s in
  match rows with
  | [] => (s, db)
  | _ => match WriteBatch existing fault db rows with
         | Err _ => (recordPersistFailure (length rows) s, db)
         | Ok db' => (s <| persistedTotal := bumped s.(persistedTotal) (Z.of_nat (length rows)) |>, db')
         end
  end.

(** ** The service over time

    [dirty] is the flag of the source and [notices] the notifier calls still to be made;
    [accepted], [attempted] and [lost] record which events were taken, were passed to
    [writeBatch], and were given up, in order. *)
Record World := mkWorld {
  service : Service;
  database : DB;
  dirty : bool;
  notices : nat;
  accepted : list event;
  attempted : list event;
  lost : list event;
}.

Definition initial (misconfigured hasQuota hasPassive : bool) (db : DB) : World :=
  mkWorld (newService misconfigured hasQuota hasPassive) db false 0 [] [] [].

Definition at_ (w : World) (p : position) : Prop := w.(service).(worker) = p.

Definition moved (w : World) (p : position) : World := w <| service := w.(service) <| worker := p |> |>.

(** Steps of the worker. *)
Inductive works : World -> World -> Prop :=
| WaitCanceled w : at_ w Waiting -> w.(service).(canceled) = true -> works w (moved w (Dropping 0))
| WaitStop w : at_ w Waiting -> w.(service).(stopRequested) = true -> works w (moved w (Draining []))
| WaitWake w : at_ w Waiting -> w.(service).(quotaWake) = Some true ->
    works w (w <| service := w.(service) <| quotaWake := Some false |> <| worker := Collecting [] |> |>)
| WaitEvent w e rest : at_ w Waiting -> w.(service).(queue) = e :: rest ->
    works w (w <| service := w.(service) <| queue := rest |> <| worker := Collecting [e] |> |>)
| CollectCanceled w batch : at_ w (Collecting batch) -> w.(service).(canceled) = true ->
    works w ((moved w (Dropping (Z.of_nat (length batch)))) <| lost := w.(lost) ++ batch |>)
| CollectStop w batch : at_ w (Collecting batch) -> (length batch < batchSize)%nat -> w.(service).(stopRequested) = true ->
    works w (moved w (Draining batch))
| CollectEvent w batch e rest : at_ w (Collecting batch) -> (length batch < batchSize)%nat -> w.(service).(queue) = e :: rest ->
    works w (w <| service := w.(service) <| queue := rest |> <| worker := Collecting (batch ++ [e]) |> |>)
| CollectWake w batch : at_ w (Collecting batch) -> (length batch < batchSize)%nat -> w.(service).(quotaWake) = Some true ->
    works w (w <| service := w.(service) <| quotaWake := Some false |> |>)
| CollectTimer w batch : at_ w (Collecting batch) -> (length batch < batchSize)%nat -> works w (moved w (Writing batch ToWaiting))
| CollectFull w batch : at_ w (Collecting batch) -> length batch = batchSize -> w.(service).(canceled) = false ->
    works w (moved w (Writing batch ToWaiting))
| DrainCanceled w batch : at_ w (Draining batch) -> w.(service).(canceled) = true ->
    works w ((moved w (Dropping (Z.of_nat (length batch)))) <| lost := w.(lost) ++ batch |>)
| DrainFull w batch : at_ w (Draining batch) -> w.(service).(canceled) = false -> length batch = batchSize ->
    works w (moved w (Writing batch ToDraining))
| DrainEvent w batch e rest : at_ w (Draining batch) -> w.(service).(canceled) = false -> (length batch < batchSize)%nat ->
    w.(service).(queue) = e :: rest ->
    works w (w <| service := w.(service) <| queue := rest |> <| worker := Draining (batch ++ [e]) |> |>)
| DrainLast w batch : at_ w (Draining batch) -> w.(service).(canceled) = false -> (length batch < batchSize)%nat ->
    w.(service).(queue) = [] ->
    works w (moved w (if (0 <? length batch)%nat || w.(service).(hasQuota) then Writing batch ToFinal else FinalCheck))
| DropEvent w n e rest : at_ w (Dropping n) -> w.(service).(queue) = e :: rest ->
    works w (w <| service := w.(service) <| queue := rest |> <| worker := Dropping (n + 1) |> |> <| lost := w.(lost) ++ [e] |>)
| DropDone w n : at_ w (Dropping n) -> w.(service).(queue) = [] ->
    works w (w <| service := w.(service) <| droppedShutdownTotal := bumped w.(service).(droppedShutdownTotal) n |> <| worker := Finished |> |>)
| WriteRows w batch next existing fault : at_ w (Writing batch next) ->
    works w (w <| service := (writeRows existing fault w.(database) batch w.(service)).1 <| worker := Checkpointing next |> |>
               <| database := (writeRows existing fault w.(database) batch w.(service)).2 |> <| attempted := w.(attempted) ++ batch |>)
| CheckpointNone w next : at_ w (Checkpointing next) -> w.(service).(hasQuota) = false ->
    works w (w <| service := flushed false next w.(service) |>)
| CheckpointUnread w next : at_ w (Checkpointing next) -> w.(service).(hasQuota) = true ->
    works w (w <| service := flushed true next (checkpointFailed w.(service)) |>)
| CheckpointEmpty w next left : at_ w (Checkpointing next) -> w.(service).(hasQuota) = true -> (left = true -> w.(dirty) = true) ->
    works w ((moved w (Acknowledged next)) <| dirty := left |>)
| CheckpointRead w next left : at_ w (Checkpointing next) -> w.(service).(hasQuota) = true -> (left = true -> w.(dirty) = true) ->
    works w ((moved w (WritingSnapshots next)) <| dirty := left |>)
| SnapshotsFailed w next : at_ w (WritingSnapshots next) ->
    works w (w <| service := flushed true next (checkpointFailed w.(service)) |>)
| SnapshotsWritten w next : at_ w (WritingSnapshots next) -> works w (moved w (Acknowledging next))
| SnapshotsAcked w next left : at_ w (Acknowledging next) -> (left = true -> w.(dirty) = true) ->
    works w ((moved w (Acknowledged next)) <| dirty := left |>)
| CheckpointSettled w next : at_ w (Acknowledged next) ->
    works w (w <| service := flushed false next (checkpointSettled w.(dirty) w.(service)) |>)
| PassiveNone w failed next : at_ w (FlushingPassive failed next) -> w.(service).(hasPassive) = false ->
    works w (w <| service := returned failed next w.(service) |>)
| PassiveFlushed w failed next again : at_ w (FlushingPassive failed next) -> w.(service).(hasPassive) = true ->
    works w (w <| service := returned failed next (if again : bool then wakeAccessQuotaCheckpoint w.(service) else w.(service)) |>)
| FinalDirty w : at_ w FinalCheck -> w.(service).(hasQuota) && w.(dirty) = true ->
    works w (moved w (if w.(service).(canceled) then Finished else Checkpointing InFinal))
| FinalClean w : at_ w FinalCheck -> w.(service).(hasQuota) && w.(dirty) = false -> works w (moved w FinalPassive)
| FinalPassiveOver w : at_ w FinalPassive -> works w (moved w Finished)
| FinalPassiveAgain w : at_ w FinalPassive -> w.(service).(hasPassive) = true -> w.(service).(canceled) = false -> works w w.

(** Calls and other goroutines. *)
Inductive calls : World -> World -> Prop :=
| CallStart w : calls w (w <| service := (Start w.(dirty) w.(service)).1 |>)
| CallEmit w e : calls w (w <| service := (Emit w.(service) e).1 |>
                            <| accepted := if (Emit w.(service) e).2 then w.(accepted) ++ [e] else w.(accepted) |>)
| CallStop w : calls w (w <| service := (Stop w.(service)).1 |>)
| CallCancel w : calls w (w <| service := (cancelShutdown w.(service)).1 |>)
| CallFinish w : at_ w Finished -> w.(service).(state) = LifecycleStopping -> calls w (w <| service := finishShutdown w.(service) |>)
| SourceDirty w : w.(service).(hasQuota) = true -> calls w (w <| dirty := true |> <| notices := S w.(notices) |>)
| SourceNotify w n : w.(notices) = S n -> calls w (w <| service := wakeAccessQuotaCheckpoint w.(service) |> <| notices := n |>)
| PassiveNotify w : w.(service).(hasPassive) = true -> calls w (w <| service := wakeAccessQuotaCheckpoint w.(service) |>).

Definition step (w w' : World) : Prop := works w w' \/ calls w w'.

Inductive reachable : World -> Prop :=
| ReachInitial misconfigured hasQuota hasPassive db : reachable (initial misconfigured hasQuota hasPassive db)
| ReachStep w w' : reachable w -> step w w' -> reachable w'.

End Worker.

End RequestLog.
