(* ===== verification/RequestLogProps.v ===== *)
(** * No event is lost unaccounted for

    Every event that was taken is written once, in order, in batches of bounded size, or is
    counted as dropped; a changed cost limit is checkpointed without waiting for traffic; a
    shutdown whose deadline has passed ends. *)

From Stdlib Require Import ZArith Lia Bool String Ascii List.
From stdpp Require Import base gmap list strings.
From coqutil Require Import Datatypes.RecordSettersUsingExistingGetters.
From S2P Require Import Prelude GoStrings LogEvent LogMapper LogStore LogMapperProps RequestLog.

Local Open Scope Z_scope.

Module RequestLogProps.
Import RequestLog.
Import LogMapperProps(plainPatterns, plainCodec, sampleEvent).

(** ** Positions *)

Definition heldBatch (p : position) : list event :=
  match p with Collecting batch | Draining batch | Writing batch _ => batch | _ => [] end.

Definition nextOf (p : position) : option after :=
  match p with
  | Writing _ n | Checkpointing n | WritingSnapshots n | Acknowledging n | Acknowledged n | FlushingPassive _ n => Some n
  | _ => None
  end.

(** The worker has left its main loop for good. *)
Definition leaving (p : position) : bool :=
  match p with
  | Draining _ | Dropping _ | FinalCheck | FinalPassive | Finished => true
  | _ => match nextOf p with Some ToWaiting | None => false | Some _ => true end
  end.

(** The worker has seen the queue empty and does not look again. *)
Definition emptied (p : position) : bool :=
  match p with
  | FinalCheck | FinalPassive | Finished => true
  | _ => match nextOf p with Some ToFinal | Some InFinal => true | _ => false end
  end.

(** The worker is on its way to read the changed cost limits. *)
Definition flushing (p : position) : bool :=
  match p with
  | Collecting _ | Writing _ _ | Checkpointing _ | WritingSnapshots _ | Acknowledging _ | Acknowledged _ => true
  | _ => false
  end.

Section Props.
Context `{Redactor.Patterns} `{LogMapper.LogCodec} (redactor : option (list Redactor.Pattern)).

Abbreviation works := (RequestLog.works redactor).
Abbreviation step := (RequestLog.step redactor).
Abbreviation reachable := (RequestLog.reachable redactor).

(** ** What holds throughout *)

Record lifecycle_ok (s : Service) : Prop := {
  new_idle : s.(state) = LifecycleNew -> s.(worker) = NotStarted;
  idle_fresh : s.(worker) = NotStarted -> s.(queue) = [] /\ s.(stopRequested) = false;
  idle_stopped : s.(worker) = NotStarted -> s.(state) = LifecycleNew \/ s.(state) = LifecycleStopped;
  running_open : s.(state) = LifecycleRunning -> s.(stopRequested) = false;
  cancel_stops : s.(canceled) = true -> s.(stopRequested) = true;
  leave_stops : leaving s.(worker) = true -> s.(stopRequested) = true;
  stopping_asked : s.(state) = LifecycleStopping -> s.(stopRequested) = true;
  stopped_done : s.(state) = LifecycleStopped -> s.(worker) = NotStarted \/ s.(worker) = Finished;
  wake_made : s.(quotaWake) = None -> s.(hasQuota) = false /\ s.(hasPassive) = false;
}.

Record bounded (s : Service) : Prop := {
  queue_bound : (length s.(queue) <= queueCapacity)%nat;
  batch_bound : (length (heldBatch s.(worker)) <= batchSize)%nat;
  empty_bound : emptied s.(worker) = true -> s.(queue) = [];
}.

(** The history of the events. *)
Record ordered (w : World) : Prop := {
  in_order : w.(accepted) = w.(attempted) ++ w.(lost) ++ heldBatch w.(service).(worker) ++ w.(service).(queue);
  lost_late : match w.(service).(worker) with Dropping n => n = Z.of_nat (length w.(lost)) | Finished => True | _ => w.(lost) = [] end;
}.

(** Events are given up only once the shutdown has been cancelled. *)
Definition kept_until_canceled (w : World) : Prop :=
  w.(service).(canceled) = true \/ (w.(lost) = [] /\ match w.(service).(worker) with Dropping _ => False | _ => True end).

Record counted (w : World) : Prop := {
  taken_count : w.(service).(enqueuedTotal) = wrap_u64 (Z.of_nat (length w.(accepted)));
  written_count : wrap_u64 (w.(service).(persistedTotal) + w.(service).(droppedPersistFailedTotal)) = wrap_u64 (Z.of_nat (length w.(attempted)));
  lost_count : w.(service).(worker) = Finished -> w.(service).(droppedShutdownTotal) = wrap_u64 (Z.of_nat (length w.(lost)));
  shutdown_zero : w.(service).(worker) <> Finished -> w.(service).(droppedShutdownTotal) = 0;
}.

(** A changed cost limit is announced, or about to be looked at. *)
Definition announced (w : World) : Prop :=
  w.(dirty) = true -> w.(service).(hasQuota) = true ->
  w.(service).(quotaWake) = Some true \/ (0 < w.(notices))%nat \/ flushing w.(service).(worker) = true \/ leaving w.(service).(worker) = true.

Lemma bumped_wrap a n : bumped (wrap_u64 a) n = wrap_u64 (a + n).
Proof. unfold bumped, wrap_u64. now rewrite Zplus_mod_idemp_l. Qed.

Lemma wrap_plus a b c d : wrap_u64 (a + b) = wrap_u64 c -> wrap_u64 (bumped a d + b) = wrap_u64 (c + d).
Proof.
  unfold bumped, wrap_u64. intros He. rewrite Zplus_mod_idemp_l. replace (a + d + b) with (a + b + d) by ring.
  rewrite Z.add_mod by discriminate. rewrite He, <- Z.add_mod by discriminate. reflexivity.
Qed.

Lemma projected_length batch : (length (projected redactor batch).1 + (projected redactor batch).2 = length batch)%nat.
Proof.
  induction batch as [|e batch IH]; [reflexivity|]. cbn [projected]. destruct (projected redactor batch) as [rows failures]. cbn in IH.
  destruct (LogMapper.mapEvent redactor e); cbn; lia.
Qed.

(** Writing changes the counters by the events of the batch, and nothing else. *)
Lemma writeRows_spec existing fault db batch s c :
  wrap_u64 (s.(persistedTotal) + s.(droppedPersistFailedTotal)) = wrap_u64 c ->
  let s' := (writeRows redactor existing fault db batch s).1 in
  wrap_u64 (s'.(persistedTotal) + s'.(droppedPersistFailedTotal)) = wrap_u64 (c + Z.of_nat (length batch)) /\
  s'.(state) = s.(state) /\ s'.(queue) = s.(queue) /\ s'.(stopRequested) = s.(stopRequested) /\ s'.(canceled) = s.(canceled) /\
  s'.(hasQuota) = s.(hasQuota) /\ s'.(hasPassive) = s.(hasPassive) /\ s'.(quotaWake) = s.(quotaWake) /\ s'.(enqueuedTotal) = s.(enqueuedTotal) /\
  s'.(droppedShutdownTotal) = s.(droppedShutdownTotal) /\ s'.(shutdownErr) = s.(shutdownErr).
Proof.
  intros Hc. cbn zeta. unfold writeRows. pose proof (projected_length batch) as Hl. destruct (projected redactor batch) as [rows failures]. cbn in Hl.
  set (s1 := if (0 <? failures)%nat then recordPersistFailure failures s else s).
  assert (H1' : wrap_u64 (s1.(persistedTotal) + s1.(droppedPersistFailedTotal)) = wrap_u64 (c + Z.of_nat failures)).
  { unfold s1. destruct (Nat.ltb_spec 0 failures) as [Hf|Hf].
    - cbn; unfold const. rewrite Z.add_comm. apply wrap_plus. now rewrite Z.add_comm.
    - replace failures with 0%nat by lia. now rewrite Z.add_0_r. }
  assert (Hs1 : s1.(state) = s.(state) /\ s1.(queue) = s.(queue) /\ s1.(stopRequested) = s.(stopRequested) /\ s1.(canceled) = s.(canceled) /\
    s1.(hasQuota) = s.(hasQuota) /\ s1.(hasPassive) = s.(hasPassive) /\ s1.(quotaWake) = s.(quotaWake) /\ s1.(enqueuedTotal) = s.(enqueuedTotal) /\
    s1.(droppedShutdownTotal) = s.(droppedShutdownTotal) /\ s1.(shutdownErr) = s.(shutdownErr)).
  { unfold s1. destruct (0 <? failures)%nat; cbn; repeat split; reflexivity. }
  clearbody s1. replace (Z.of_nat (length batch)) with (Z.of_nat failures + Z.of_nat (length rows)) by lia.
  destruct rows as [|row rows]; [cbn [fst length]; rewrite Z.add_0_r; auto|].
  destruct (LogStore.WriteBatch _ _ _ _); cbn; unfold const; (split; [|exact Hs1]); rewrite Z.add_assoc.
  - now apply wrap_plus.
  - rewrite Z.add_comm. apply wrap_plus. now rewrite Z.add_comm.
Qed.

(** ** Preservation *)

Lemma flushed_worker failed next s :
  (flushed failed next s).(worker) = match next with InFinal => if failed then Finished else FinalCheck | _ => FlushingPassive failed next end.
Proof. destruct next; try reflexivity. now destruct failed. Qed.

Lemma returned_worker failed next s :
  (returned failed next s).(worker) =
    match next with ToWaiting => Waiting | ToDraining => Draining [] | _ => if failed then Finished else FinalCheck end.
Proof. destruct next; try reflexivity; now destruct failed. Qed.

(** What the helpers of the worker leave alone. *)
Record quiet (s s' : Service) : Prop := {
  quiet_state : s'.(state) = s.(state);
  quiet_queue : s'.(queue) = s.(queue);
  quiet_stop : s'.(stopRequested) = s.(stopRequested);
  quiet_cancel : s'.(canceled) = s.(canceled);
  quiet_quota : s'.(hasQuota) = s.(hasQuota);
  quiet_passive : s'.(hasPassive) = s.(hasPassive);
  quiet_enqueued : s'.(enqueuedTotal) = s.(enqueuedTotal);
  quiet_persisted : s'.(persistedTotal) = s.(persistedTotal);
  quiet_failed : s'.(droppedPersistFailedTotal) = s.(droppedPersistFailedTotal);
  quiet_shutdown : s'.(droppedShutdownTotal) = s.(droppedShutdownTotal);
  quiet_wake : s.(quotaWake) = Some true -> s'.(quotaWake) = Some true;
  quiet_nil : s'.(quotaWake) = None -> s.(quotaWake) = None;
}.

Lemma quiet_self s : quiet s s.
Proof. constructor; auto. Qed.

Lemma quiet_then s s' s'' : quiet s s' -> quiet s' s'' -> quiet s s''.
Proof. intros [] []. constructor; try congruence; auto. Qed.

Lemma wake_quiet s : quiet s (wakeAccessQuotaCheckpoint s).
Proof. unfold wakeAccessQuotaCheckpoint. destruct (quotaWake s) eqn:E; [|apply quiet_self]. constructor; cbn; congruence || auto. Qed.

Lemma wake_token s : s.(quotaWake) <> None -> (wakeAccessQuotaCheckpoint s).(quotaWake) = Some true.
Proof. unfold wakeAccessQuotaCheckpoint. now destruct (quotaWake s). Qed.

Lemma wake_worker s : (wakeAccessQuotaCheckpoint s).(worker) = s.(worker).
Proof. unfold wakeAccessQuotaCheckpoint. now destruct (quotaWake s). Qed.

Lemma checkpointFailed_quiet s : quiet s (checkpointFailed s).
Proof. unfold checkpointFailed. eapply quiet_then; [|apply wake_quiet]. constructor; cbn; auto. Qed.

Lemma checkpointSettled_quiet dirty s : quiet s (checkpointSettled dirty s).
Proof. unfold checkpointSettled. destruct dirty; [apply wake_quiet|]. constructor; cbn; auto. Qed.

Lemma record_quiet s : quiet s (recordFinalQuotaCheckpointFailure s).
Proof. unfold recordFinalQuotaCheckpointFailure. destruct s.(shutdownErr); [apply quiet_self|]. constructor; cbn; auto. Qed.

Lemma flushed_quiet failed next s : quiet s (flushed failed next s).
Proof.
  assert (Hm : forall s p, quiet s (s <| worker := p |>)) by (intros; constructor; cbn; auto).
  unfold flushed. destruct next; try apply Hm. destruct failed; [|apply Hm]. eapply quiet_then; [apply record_quiet|apply Hm].
Qed.

Lemma returned_quiet failed next s : quiet s (returned failed next s).
Proof.
  assert (Hm : forall s p, quiet s (s <| worker := p |>)) by (intros; constructor; cbn; auto).
  unfold returned. destruct next; try apply Hm; (destruct failed; [|apply Hm]); (eapply quiet_then; [apply record_quiet|apply Hm]).
Qed.

(** What a step of the worker never changes. *)
Record steady (s s' : Service) : Prop := {
  steady_state : s'.(state) = s.(state);
  steady_stop : s'.(stopRequested) = s.(stopRequested);
  steady_cancel : s'.(canceled) = s.(canceled);
  steady_quota : s'.(hasQuota) = s.(hasQuota);
  steady_passive : s'.(hasPassive) = s.(hasPassive);
  steady_enqueued : s'.(enqueuedTotal) = s.(enqueuedTotal);
  steady_nil : s'.(quotaWake) = None -> s.(quotaWake) = None;
}.

Lemma quiet_steady s s' : quiet s s' -> steady s s'.
Proof. intros []. now constructor. Qed.

Ltac works_cases Hw :=
  destruct Hw as [w Ha Hc|w Ha Hc|w Ha Hc|w e rest Ha Hc|w batch Ha Hc|w batch Ha Hb Hc|w batch e rest Ha Hb Hc|w batch Ha Hb Hc
    |w batch Ha Hb|w batch Ha Hb Hc|w batch Ha Hc|w batch Ha Hc Hb|w batch e rest Ha Hc Hb Hq|w batch Ha Hc Hb Hq|w n e rest Ha Hq|w n Ha Hq
    |w batch next existing fault Ha|w next Ha Hq|w next Ha Hq|w next left Ha Hq Hd|w next left Ha Hq Hd|w next Ha|w next Ha|w next left Ha Hd|w next Ha
    |w failed next Ha Hp|w failed next again Ha Hp|w Ha Hd|w Ha Hd|w Ha|w Ha Hp Hc]; unfold at_ in Ha.

Lemma again_quiet (again : bool) s : quiet s (if again then wakeAccessQuotaCheckpoint s else s).
Proof. destruct again; [apply wake_quiet|apply quiet_self]. Qed.

Ltac solve_quiet :=
  eapply quiet_then; [|first [apply flushed_quiet | apply returned_quiet]];
  first [apply quiet_self | apply checkpointFailed_quiet | apply checkpointSettled_quiet | apply again_quiet].

(** The facts about the service that a helper has produced. *)
Ltac quiet_facts :=
  try match goal with
  | w : World |- context [flushed ?f ?n ?s] => assert (Hk : quiet (service w) (flushed f n s)) by solve_quiet; destruct Hk
  | w : World |- context [returned ?f ?n ?s] => assert (Hk : quiet (service w) (returned f n s)) by solve_quiet; destruct Hk
  | w : World |- context [writeRows ?r ?e ?f ?d ?b ?s] =>
      destruct (writeRows_spec e f d b s _ eq_refl) as (_ & ? & ? & ? & ? & ? & ? & ? & ? & ? & ?)
  end.

Lemma works_steady w w' : works w w' -> steady w.(service) w'.(service).
Proof. intros Hw. works_cases Hw; cbn; unfold const; quiet_facts; constructor; cbn; unfold const; first [congruence | solve [auto]]. Qed.

Lemma works_lifecycle w w' : lifecycle_ok w.(service) -> works w w' -> lifecycle_ok w'.(service).
Proof.
  intros Hl Hw. pose proof (works_steady _ _ Hw) as Hs.
  assert (Hp : w.(service).(worker) <> NotStarted /\ w.(service).(worker) <> Finished /\ w'.(service).(worker) <> NotStarted /\ (leaving w'.(service).(worker) = true -> leaving w.(service).(worker) = true \/ w.(service).(canceled) = true \/ w.(service).(stopRequested) = true)).
  { clear Hs. works_cases Hw; cbn; unfold const; rewrite ?flushed_worker, ?returned_worker, Ha; repeat split; auto; try discriminate;
      try (destruct next as [| | |]); try (destruct failed); try discriminate; auto.
    - destruct (_ || hasQuota (service w)); discriminate.
    - destruct (canceled (service w)); discriminate. }
  destruct Hl, Hs, Hp as (Hn & Hf & Hn' & Hp).
  constructor; rewrite ?steady_state0, ?steady_stop0, ?steady_cancel0, ?steady_quota0, ?steady_passive0; auto; tauto.
Qed.


Ltac calls_cases Hw :=
  destruct Hw as [w|w e|w|w|w Ha Hs|w Hq|w n Hn|w Hp]; unfold at_ in *.

(** What a call does to the service. *)
Lemma Start_cases dirty s :
  (Start dirty s).1 = s \/ (s.(state) = LifecycleNew /\ (Start dirty s).1 = s <| state := LifecycleStopped |>) \/
  (s.(state) = LifecycleNew /\ exists s', (Start dirty s).1 = s' /\ quiet (s <| worker := Waiting |> <| state := LifecycleRunning |>) s' /\
     s'.(worker) = Waiting /\ (dirty = true -> s.(hasQuota) = true -> s.(quotaWake) <> None -> s'.(quotaWake) = Some true)).
Proof.
  unfold Start. destruct (state s); auto. destruct (misconfigured s); auto. right; right. split; [reflexivity|]. eexists. split; [reflexivity|].
  cbn; unfold const. destruct (hasQuota s && dirty) eqn:E; cbn.
  - split_and!; [apply wake_quiet|now rewrite wake_worker|]. intros _ _ Hn. now apply wake_token.
  - split_and!; [apply quiet_self|reflexivity|]. intros -> Hq. now rewrite Hq in E.
Qed.

Lemma calls_lifecycle w w' : lifecycle_ok w.(service) -> RequestLog.calls w w' -> lifecycle_ok w'.(service).
Proof.
  intros [] Hw. calls_cases Hw; cbn; unfold const.
  - destruct (Start_cases (dirty w) (service w)) as [->|[[Hn ->]|(Hn & s' & -> & [] & Hw & _)]]; [now constructor|..].
    + constructor; cbn; unfold const; auto; discriminate.
    + cbn in *; unfold const in *. destruct (idle_fresh0 (new_idle0 Hn)) as [_ Hst].
      constructor; rewrite ?Hw, ?quiet_state0, ?quiet_stop0, ?quiet_cancel0; try discriminate; auto.
      rewrite quiet_quota0, quiet_passive0. auto.
  - unfold Emit. destruct (state (service w)) eqn:Hs; [|destruct (_ <? _)%nat|..]; constructor; cbn; unfold const; auto; rewrite ?Hs; auto; try discriminate.
    intros Hn. destruct (idle_stopped0 Hn); congruence.
  - unfold Stop. destruct (state (service w)) eqn:Hs; constructor; cbn; unfold const; auto; rewrite ?Hs; auto; try discriminate.
    all: intros Hn; now destruct (idle_stopped0 Hn).
  - unfold cancelShutdown. destruct (bool_decide_reflect (state (service w) = LifecycleStopping)) as [Hs|Hs]; cbn; [|now constructor].
    destruct (shutdownErr (service w)); constructor; cbn; unfold const; auto.
  - unfold finishShutdown. constructor; cbn; unfold const; auto; discriminate.
  - now constructor.
  - pose proof (wake_quiet (service w)) as []. constructor; rewrite ?wake_worker, ?quiet_state0, ?quiet_queue0, ?quiet_stop0, ?quiet_cancel0, ?quiet_quota0, ?quiet_passive0; auto.
  - pose proof (wake_quiet (service w)) as []. constructor; rewrite ?wake_worker, ?quiet_state0, ?quiet_queue0, ?quiet_stop0, ?quiet_cancel0, ?quiet_quota0, ?quiet_passive0; auto.
Qed.

(** *** Bounds *)

Lemma emptied_leaving p : emptied p = true -> leaving p = true.
Proof. destruct p as [| | | | |? []|[]|[]|[]|[]|? []| | |]; now cbn. Qed.

Lemma works_bounded w w' : bounded w.(service) -> works w w' -> bounded w'.(service).
Proof.
  assert (Hz : (1 <= batchSize)%nat) by (unfold batchSize; lia).
  intros [] Hw. works_cases Hw; rewrite ?Ha in *; constructor; cbn in *; unfold const in *; quiet_facts;
    rewrite ?flushed_worker, ?returned_worker, ?length_app, ?quiet_queue0, ?Ha in *; auto.
  all: try congruence; try (rewrite ?Hc, ?Hq in *; cbn in *; lia).
  all: try (repeat match goal with |- context [if ?b then _ else _] => destruct b end; cbn; auto; lia).
  all: destruct next as [| | |]; cbn in *; auto; try lia; try congruence; intros; try discriminate.
  all: try (etransitivity; [eassumption|auto]); destruct failed; cbn; lia.
Qed.

Lemma calls_bounded w w' : lifecycle_ok w.(service) -> bounded w.(service) -> RequestLog.calls w w' -> bounded w'.(service).
Proof.
  intros Hl [] Hw. calls_cases Hw; cbn; unfold const; try (now constructor); try (pose proof (wake_quiet (service w)) as [];
    solve [constructor; rewrite ?wake_worker, ?quiet_queue0; auto]).
  - destruct (Start_cases (dirty w) (service w)) as [->|[[Hn ->]|(Hn & s' & -> & [] & Hw & _)]]; [now constructor|now constructor|].
    constructor; rewrite ?Hw, ?quiet_queue0; cbn; unfold batchSize; auto; discriminate || lia.
  - unfold Emit. destruct (state (service w)) eqn:Hs; [now constructor| |now constructor..].
    destruct (Nat.ltb_spec (length (queue (service w))) queueCapacity); [|now constructor].
    constructor; cbn; unfold const; rewrite ?length_app; cbn; auto; [lia|].
    intros He. apply emptied_leaving, (leave_stops _ Hl) in He. now rewrite (running_open _ Hl Hs) in He.
  - unfold Stop. destruct (state (service w)); now constructor.
  - unfold cancelShutdown. destruct (negb _); [now constructor|]. destruct (shutdownErr _); now constructor.
Qed.

(** *** The history *)

Lemma works_ordered w w' : ordered w -> works w w' -> ordered w'.
Proof.
  intros [] Hw. works_cases Hw; rewrite ?Ha in *; constructor; cbn in *; unfold const in *; quiet_facts;
    rewrite ?flushed_worker, ?returned_worker, ?length_app, ?quiet_queue0, ?Ha in *; auto.
  all: try (repeat match goal with |- context [if ?b then _ else _] => destruct b | |- context [match ?n with ToWaiting => _ | _ => _ end] => destruct n end; cbn; auto;
    rewrite ?lost_late0, ?Hc, ?Hq, ?app_nil_r, ?length_app in *; cbn in *; rewrite <- ?app_assoc; cbn; solve [auto | congruence | lia]).
  destruct batch; cbn; [|exact in_order0]. destruct (hasQuota (service w)); exact in_order0.
Qed.

(** A call keeps the place of the worker, once it has one. *)
Lemma calls_worker w w' :
  lifecycle_ok w.(service) -> RequestLog.calls w w' ->
  w'.(service).(worker) = w.(service).(worker) \/ (w.(service).(worker) = NotStarted /\ w'.(service).(worker) = Waiting).
Proof.
  intros Hl Hw. calls_cases Hw; cbn; unfold const; rewrite ?wake_worker; auto.
  - destruct (Start_cases (dirty w) (service w)) as [->|[[Hn ->]|(Hn & s' & -> & _ & Hw & _)]]; auto. right. split; [now apply new_idle|exact Hw].
  - left. unfold Emit. destruct (state (service w)); [| destruct (_ <? _)%nat | |]; reflexivity.
  - left. unfold Stop. now destruct (state (service w)).
  - left. unfold cancelShutdown. destruct (negb _); [reflexivity|]. now destruct (shutdownErr (service w)).
Qed.

(** The queue and the counters of the events. *)
Record untouched (s s' : Service) : Prop := {
  same_persisted : s'.(persistedTotal) = s.(persistedTotal);
  same_failed : s'.(droppedPersistFailedTotal) = s.(droppedPersistFailedTotal);
  same_shutdown : s'.(droppedShutdownTotal) = s.(droppedShutdownTotal);
  same_queue : s'.(queue) = s.(queue);
  same_enqueued : s'.(enqueuedTotal) = s.(enqueuedTotal);
}.

Lemma quiet_untouched s s' : quiet s s' -> untouched s s'.
Proof. intros []. now constructor. Qed.

(** What [taken] adds to the service and to the history. *)
Record took (w w' : World) (taken : list event) : Prop := {
  took_attempted : w'.(attempted) = w.(attempted);
  took_lost : w'.(lost) = w.(lost);
  took_persisted : w'.(service).(persistedTotal) = w.(service).(persistedTotal);
  took_failed : w'.(service).(droppedPersistFailedTotal) = w.(service).(droppedPersistFailedTotal);
  took_shutdown : w'.(service).(droppedShutdownTotal) = w.(service).(droppedShutdownTotal);
  took_accepted : w'.(accepted) = w.(accepted) ++ taken;
  took_queue : w'.(service).(queue) = w.(service).(queue) ++ taken;
  took_enqueued : w'.(service).(enqueuedTotal) =
    match taken with [] => w.(service).(enqueuedTotal) | _ => bumped w.(service).(enqueuedTotal) (Z.of_nat (length taken)) end;
}.

Lemma untouched_took w w' :
  untouched w.(service) w'.(service) -> w'.(accepted) = w.(accepted) -> w'.(attempted) = w.(attempted) -> w'.(lost) = w.(lost) -> took w w' [].
Proof. intros [] ? ? ?. constructor; rewrite ?app_nil_r; auto. Qed.

Lemma calls_took w w' : RequestLog.calls w w' -> exists taken, took w w' taken.
Proof.
  assert (Hsame : forall s, untouched s s) by now constructor.
  intros Hw. calls_cases Hw.
  2:{ unfold Emit. destruct (state (service w)); try (exists []; now apply untouched_took).
      destruct (_ <? _)%nat; [exists [e]|exists []; now apply untouched_took]. constructor; reflexivity. }
  all: exists []; apply untouched_took; try reflexivity; cbn; unfold const; try now constructor.
  - destruct (Start_cases (dirty w) (service w)) as [->|[[Hn ->]|(Hn & s' & -> & Hq & _)]]; [now constructor|now constructor|].
    apply quiet_untouched in Hq. destruct Hq. now constructor.
  - unfold Stop. destruct (state (service w)); now constructor.
  - unfold cancelShutdown. destruct (negb _); [now constructor|]. destruct (shutdownErr (service w)); now constructor.
  - apply quiet_untouched, wake_quiet.
  - apply quiet_untouched, wake_quiet.
Qed.

Lemma calls_ordered w w' : lifecycle_ok w.(service) -> ordered w -> RequestLog.calls w w' -> ordered w'.
Proof.
  intros Hl [] Hw. destruct (calls_took _ _ Hw) as (taken & [Ha Hlo _ _ _ Hacc Hq _]).
  constructor; rewrite ?Hacc, ?Ha, ?Hlo, ?Hq, ?in_order0.
  - destruct (calls_worker _ _ Hl Hw) as [->|[Hn ->]]; [|rewrite Hn]; now rewrite <- !app_assoc.
  - destruct (calls_worker _ _ Hl Hw) as [->|[Hn ->]]; [assumption|now rewrite Hn in lost_late0].
Qed.

Lemma calls_counted w w' : lifecycle_ok w.(service) -> counted w -> RequestLog.calls w w' -> counted w'.
Proof.
  intros Hl [] Hw. destruct (calls_took _ _ Hw) as (taken & [Ha Hlo Hp Hf Hd Hacc _ Hen]).
  constructor; rewrite ?Hp, ?Hf, ?Hd, ?Ha, ?Hlo, ?Hacc; auto.
  - rewrite Hen. destruct taken; [now rewrite app_nil_r|]. rewrite taken_count0, bumped_wrap, length_app. f_equal. lia.
  - destruct (calls_worker _ _ Hl Hw) as [->|[Hn ->]]; [auto|discriminate].
  - destruct (calls_worker _ _ Hl Hw) as [->|[Hn ->]]; [auto|]. rewrite Hn in shutdown_zero0. intros _. now apply shutdown_zero0.
Qed.

Lemma works_counted w w' : ordered w -> counted w -> works w w' -> counted w'.
Proof.
  intros [_ Hlost] [] Hw. works_cases Hw; rewrite ?Ha in *; constructor; cbn in *; unfold const in *; quiet_facts;
    rewrite ?flushed_worker, ?returned_worker, ?quiet_enqueued0, ?quiet_persisted0, ?quiet_failed0, ?quiet_shutdown0, ?Ha in *; auto; try discriminate.
  all: try (intros _; rewrite Hlost, shutdown_zero0 by discriminate; reflexivity).
  - contradiction.
  - congruence.
  - destruct (writeRows_spec existing fault (database w) batch (service w) _ written_count0) as [Hw _]. rewrite Hw, length_app. f_equal. lia.
  - rewrite shutdown_zero0 in * by discriminate. auto.
Qed.

(** *** The announcement *)

Lemma wakes_again w next failed s' :
  lifecycle_ok w.(service) -> quiet (w.(service)) s' -> w.(service).(hasQuota) = true ->
  (flushed failed next (wakeAccessQuotaCheckpoint s')).(quotaWake) = Some true.
Proof.
  intros Hl Hq Hquota. apply (quiet_wake _ _ (flushed_quiet _ _ _)), wake_token. intros Hn. apply (quiet_nil _ _ Hq), (wake_made _ Hl) in Hn.
  now rewrite Hquota in Hn.
Qed.

Lemma works_announced w w' : lifecycle_ok w.(service) -> announced w -> works w w' -> announced w'.
Proof.
  unfold announced. intros Hl Hann Hw. pose proof (works_steady _ _ Hw) as [_ _ _ Hsq _ _ _].
  works_cases Hw; rewrite ?Ha in *; cbn in *; unfold const in *; intros Hdirty Hquota; rewrite ?Hsq in Hquota; quiet_facts;
    rewrite ?flushed_worker, ?returned_worker, ?Ha in *; auto.
  - destruct batch; [destruct (hasQuota (service w))|]; cbn; auto.
  - congruence.
  - left. apply (wakes_again w); [assumption| |assumption]. constructor; cbn; auto.
  - left. apply (wakes_again w); [assumption| |assumption]. constructor; cbn; auto.
  - left. rewrite Hdirty. apply (wakes_again w); [assumption|apply quiet_self|assumption].
  - destruct (Hann Hdirty Hquota) as [?|[?|[?|?]]]; auto; [discriminate|]. right; right; right. destruct next; [discriminate|..]; now destruct failed.
  - destruct (Hann Hdirty Hquota) as [?|[?|[?|?]]]; auto; [discriminate|]. right; right; right. destruct next; [discriminate|..]; now destruct failed.
  - destruct (canceled (service w)); cbn; auto.
Qed.

Lemma calls_announced w w' :
  lifecycle_ok w.(service) -> announced w -> RequestLog.calls w w' -> announced w'.
Proof.
  unfold announced. intros Hl Hann Hw. calls_cases Hw; cbn in *; unfold const in *; intros Hdirty Hquota; auto.
  - destruct (Start_cases (dirty w) (service w)) as [He|[[Hn He]|(Hn & s' & He & Hq & Hw & Ht)]]; rewrite He in *; auto.
    left. destruct Hq. cbn in *; unfold const in *. apply Ht; [assumption|congruence|].
    intros Hnil. apply (wake_made _ Hl) in Hnil. destruct Hnil. congruence.
  - unfold Emit in *. destruct (state (service w)); auto. destruct (_ <? _)%nat; auto.
  - unfold Stop in *. destruct (state (service w)); auto.
  - unfold cancelShutdown in *. destruct (negb _); auto. destruct (shutdownErr (service w)); auto.
  - right; left. lia.
  - left. apply wake_token. intros Hnil. apply (wake_made _ Hl) in Hnil. destruct (wake_quiet (service w)), Hnil. congruence.
  - left. apply wake_token. intros Hnil. apply (wake_made _ Hl) in Hnil. destruct Hnil. congruence.
Qed.

Lemma works_kept w w' : kept_until_canceled w -> works w w' -> kept_until_canceled w'.
Proof.
  unfold kept_until_canceled. intros Hk Hw. pose proof (works_steady _ _ Hw) as [_ _ Hsc _ _ _ _].
  rewrite Hsc. destruct Hk as [?|[Hlost Hpos]]; [now left|].
  works_cases Hw; cbn in *; unfold const in *; rewrite ?flushed_worker, ?returned_worker, ?Ha in *; auto; try contradiction.
  all: right; split; [assumption|].
  all: repeat match goal with |- context [if ?b then _ else _] => destruct b | n : after |- _ => destruct n end; exact I.
Qed.

Lemma calls_canceled w w' : lifecycle_ok w.(service) -> w.(service).(canceled) = true -> RequestLog.calls w w' -> w'.(service).(canceled) = true.
Proof.
  intros Hl Hc Hw. calls_cases Hw; cbn; unfold const; auto.
  - destruct (Start_cases (dirty w) (service w)) as [->|[[Hn ->]|(Hn & s' & -> & [] & _)]]; [assumption|assumption|]. cbn in *. congruence.
  - unfold Emit. destruct (state (service w)); auto. now destruct (_ <? _)%nat.
  - unfold Stop. now destruct (state (service w)).
  - unfold cancelShutdown. destruct (negb _); [assumption|]. now destruct (shutdownErr (service w)).
  - destruct (wake_quiet (service w)). congruence.
  - destruct (wake_quiet (service w)). congruence.
Qed.

Lemma calls_kept w w' : lifecycle_ok w.(service) -> kept_until_canceled w -> RequestLog.calls w w' -> kept_until_canceled w'.
Proof.
  unfold kept_until_canceled. intros Hl Hk Hw. destruct Hk as [Hc|[Hlost Hpos]]; [left; eauto using calls_canceled|].
  right. destruct (calls_took _ _ Hw) as (taken & []). split; [congruence|].
  destruct (calls_worker _ _ Hl Hw) as [->|[_ ->]]; auto.
Qed.

Record invariant (w : World) : Prop := {
  inv_kept : kept_until_canceled w;
  inv_lifecycle : lifecycle_ok w.(service);
  inv_bounded : bounded w.(service);
  inv_ordered : ordered w;
  inv_counted : counted w;
  inv_announced : announced w;
}.

Lemma reachable_invariant w : reachable w -> invariant w.
Proof.
  induction 1 as [misconfigured hasQuota hasPassive db|w w' _ [] [Hw|Hw]].
  - constructor.
    + right. split; [reflexivity|exact I].
    + constructor; cbn; auto; try discriminate. destruct hasQuota, hasPassive; cbn; auto; discriminate.
    + constructor; cbn; unfold batchSize; auto; lia.
    + now constructor.
    + now constructor.
    + discriminate.
  - constructor; eauto using works_kept, works_lifecycle, works_bounded, works_ordered, works_counted, works_announced.
  - constructor; eauto using calls_kept, calls_lifecycle, calls_bounded, calls_ordered, calls_counted, calls_announced.
Qed.

(** ** Events *)

(** [C12] Every event is accounted for.  At any time the events that were taken are, in the order
    they came, those passed to a write, those given up at a cancelled shutdown, the batch in the
    hands of the worker and the queue; queue and batch stay within their bounds, and nothing is
    given up before the worker stops.  When the worker has stopped nothing is left, and the
    counters, which wrap at 64 bits, split the events taken into those stored, those that could
    not be stored and those given up. *)
Theorem every_event_is_accounted w :
  reachable w ->
  let s := w.(service) in
  w.(accepted) = w.(attempted) ++ w.(lost) ++ heldBatch s.(worker) ++ s.(queue) /\
  (length s.(queue) <= queueCapacity)%nat /\ (length (heldBatch s.(worker)) <= batchSize)%nat /\
  (w.(lost) = [] \/ s.(canceled) = true) /\
  s.(enqueuedTotal) = wrap_u64 (Z.of_nat (length w.(accepted))) /\
  (s.(worker) = Finished ->
   w.(accepted) = w.(attempted) ++ w.(lost) /\
   s.(enqueuedTotal) = wrap_u64 (s.(persistedTotal) + s.(droppedPersistFailedTotal) + s.(droppedShutdownTotal))).
Proof.
  intros Hr. destruct (reachable_invariant _ Hr) as [Hk _ [] [] [] _]. cbv zeta. split_and!; auto.
  - destruct Hk as [|[]]; auto.
  - intros Hf. rewrite Hf in *. rewrite empty_bound0 in in_order0 by reflexivity. cbn in in_order0. rewrite app_nil_r in in_order0.
    split; [exact in_order0|]. rewrite lost_count0, taken_count0, in_order0, length_app, Nat2Z.inj_add by reflexivity.
    unfold wrap_u64 in *. now rewrite Zplus_mod_idemp_r, <- Zplus_mod_idemp_l, <- written_count0, Zplus_mod_idemp_l.
Qed.

(** ** Checkpoints *)

(** [C33] No changed cost limit is forgotten.  While the worker waits, a change whose notifier has
    returned has left its token, so that the worker can go on to a write, which checkpoints, without
    any event arriving. *)
Theorem no_checkpoint_is_forgotten w :
  reachable w -> w.(service).(worker) = Waiting -> w.(service).(hasQuota) = true -> w.(dirty) = true -> w.(notices) = 0%nat ->
  w.(service).(quotaWake) = Some true /\
  exists w1 w2 w3, works w w1 /\ works w1 w2 /\ works w2 w3 /\ w3.(service).(worker) = Checkpointing ToWaiting /\
    w3.(attempted) = w.(attempted) /\ w3.(service).(queue) = w.(service).(queue).
Proof.
  intros Hr Hw Hq Hd Hn. destruct (reachable_invariant _ Hr) as [_ _ _ _ _ Ha].
  assert (Ht : w.(service).(quotaWake) = Some true).
  { destruct (Ha Hd Hq) as [?|[?|[Hf|Hf]]]; [assumption|lia|rewrite Hw in Hf; discriminate..]. }
  split; [exact Ht|]. do 3 eexists. split; [now apply WaitWake|].
  split; [eapply (CollectTimer _ _ []); [reflexivity|unfold batchSize; cbn; lia]|]. split; [now apply (WriteRows _ _ [] ToWaiting (Some ∅) false)|].
  cbn; unfold const. rewrite app_nil_r. split_and!; reflexivity.
Qed.

(** ** Shutdown

    How many steps a cancelled worker can still take. *)

Definition rank (pending : nat) (next : after) : nat :=
  match next with ToWaiting | ToDraining => 2 + pending | ToFinal | InFinal => 2 end.

Definition outstanding (s : Service) : nat :=
  let base := rank (length s.(queue)) in
  match s.(worker) with
  | Finished => 0
  | FinalPassive => 1
  | FinalCheck => 2
  | Dropping _ => 1 + length s.(queue)
  | Draining _ => 2 + length s.(queue)
  | FlushingPassive _ next => 1 + base next
  | Acknowledged next => 2 + base next
  | Acknowledging next => 3 + base next
  | WritingSnapshots next => 4 + base next
  | Checkpointing next => 5 + base next
  | Writing _ next => 6 + base next
  | _ => 0
  end.

Lemma outstanding_flushed failed next s :
  (outstanding (flushed failed next s) <= 1 + rank (length s.(queue)) next)%nat.
Proof.
  pose proof (quiet_queue _ _ (flushed_quiet failed next s)) as Hq. unfold outstanding. rewrite flushed_worker, Hq. destruct next; cbn; try lia. destruct failed; lia.
Qed.

Lemma outstanding_returned failed next s :
  next <> ToWaiting -> (outstanding (returned failed next s) <= rank (length s.(queue)) next)%nat.
Proof.
  pose proof (quiet_queue _ _ (returned_quiet failed next s)) as Hq. unfold outstanding. rewrite returned_worker, Hq. intros Hn.
  destruct next; try contradiction; try destruct failed; cbn; lia.
Qed.

Lemma works_outstanding w w' :
  w.(service).(canceled) = true -> leaving w.(service).(worker) = true -> works w w' -> (outstanding w'.(service) < outstanding w.(service))%nat.
Proof.
  intros Hca Hl Hw. works_cases Hw; rewrite ?Ha in *; try discriminate Hl; try congruence; cbn in Hl.
  all: match goal with |- (_ < outstanding ?s)%nat => unfold outstanding at 2; rewrite Ha end.
  all: try (cbn -[rank]; unfold const; rewrite ?Hq; cbn -[rank]; lia).
  - destruct (writeRows_spec existing fault (database w) batch (service w) _ eq_refl) as (_ & _ & Hq & _).
    cbn -[rank writeRows]. unfold const. rewrite Hq. lia.
  - pose proof (outstanding_flushed false next (service w)). cbn -[rank flushed outstanding]. unfold const. lia.
  - pose proof (outstanding_flushed true next (checkpointFailed (service w))) as Ho.
    rewrite (quiet_queue _ _ (checkpointFailed_quiet _)) in Ho. cbn -[rank flushed outstanding]. unfold const. lia.
  - pose proof (outstanding_flushed true next (checkpointFailed (service w))) as Ho.
    rewrite (quiet_queue _ _ (checkpointFailed_quiet _)) in Ho. cbn -[rank flushed outstanding]. unfold const. lia.
  - pose proof (outstanding_flushed false next (checkpointSettled (dirty w) (service w))) as Ho.
    rewrite (quiet_queue _ _ (checkpointSettled_quiet _ _)) in Ho. cbn -[rank flushed outstanding]. unfold const. lia.
  - assert (Hn : next <> ToWaiting) by (intros ->; discriminate Hl).
    pose proof (outstanding_returned failed next (service w) Hn). cbn -[rank returned outstanding]. unfold const. lia.
  - assert (Hn : next <> ToWaiting) by (intros ->; discriminate Hl).
    pose proof (outstanding_returned failed next (if again then wakeAccessQuotaCheckpoint (service w) else service w) Hn) as Ho.
    rewrite (quiet_queue _ _ (again_quiet _ _)) in Ho. cbn -[rank returned outstanding]. unfold const. lia.
  - cbn -[rank]. unfold const. rewrite Hca. cbn. lia.
Qed.

Lemma stopping_refuses w : lifecycle_ok w.(service) -> w.(service).(canceled) = true -> w.(service).(state) <> LifecycleRunning.
Proof. intros Hok Hc Hs. apply (cancel_stops _ Hok) in Hc. rewrite (running_open _ Hok Hs) in Hc. discriminate. Qed.

Lemma calls_outstanding w w' :
  lifecycle_ok w.(service) -> w.(service).(canceled) = true -> leaving w.(service).(worker) = true ->
  RequestLog.calls w w' -> outstanding w'.(service) = outstanding w.(service).
Proof.
  intros Hok Hc Hl Hw. pose proof (stopping_refuses _ Hok Hc) as Hrun. pose proof (calls_worker _ _ Hok Hw) as [Hpos|[Hpos _]]; [|now rewrite Hpos in Hl].
  assert (Hqueue : w'.(service).(queue) = w.(service).(queue)); [|unfold outstanding; now rewrite Hpos, Hqueue].
  clear Hpos. calls_cases Hw; cbn; unfold const; try reflexivity; try apply (quiet_queue _ _ (wake_quiet _)).
  - destruct (Start_cases (dirty w) (service w)) as [->|[[Hn ->]|(Hn & s' & -> & Hq & _)]]; [reflexivity|reflexivity|exact (quiet_queue _ _ Hq)].
  - unfold Emit. destruct (state (service w)); try reflexivity. contradiction.
  - unfold Stop. now destruct (state (service w)).
  - unfold cancelShutdown. destruct (negb _); [reflexivity|]. now destruct (shutdownErr (service w)).
Qed.

Lemma works_stays w w' :
  w.(service).(canceled) = true -> leaving w.(service).(worker) = true -> works w w' ->
  w'.(service).(canceled) = true /\ leaving w'.(service).(worker) = true.
Proof.
  intros Hca Hl Hw. pose proof (works_steady _ _ Hw) as [_ _ Hsc _ _ _ _]. rewrite Hsc. split; [assumption|].
  works_cases Hw; rewrite ?Ha in *; try discriminate Hl; try congruence; cbn in Hl |- *; unfold const; rewrite ?flushed_worker, ?returned_worker; auto.
  all: try (destruct next as [| | |]; try discriminate Hl; try destruct failed; reflexivity). now rewrite Hca.
Qed.

Lemma calls_stays w w' :
  lifecycle_ok w.(service) -> w.(service).(canceled) = true -> leaving w.(service).(worker) = true -> RequestLog.calls w w' ->
  w'.(service).(canceled) = true /\ leaving w'.(service).(worker) = true.
Proof.
  intros Hok Hc Hl Hw. split; [eauto using calls_canceled|]. destruct (calls_worker _ _ Hok Hw) as [->|[Hp _]]; [assumption|now rewrite Hp in Hl].
Qed.

Lemma canceled_goes_on w :
  w.(service).(canceled) = true -> leaving w.(service).(worker) = true -> w.(service).(worker) <> Finished -> exists w', works w w'.
Proof.
  intros Hc Hl Hf. destruct (worker (service w)) as [| | |batch|n|batch next|next|next|next|next|failed next| | |] eqn:Ha; try discriminate Hl; try contradiction.
  - eexists. eapply DrainCanceled; eassumption.
  - destruct (queue (service w)) eqn:Hq; eexists; [eapply DropDone; eassumption|eapply DropEvent; eassumption].
  - eexists. eapply (WriteRows _ _ batch next (Some ∅) false); eassumption.
  - destruct (hasQuota (service w)) eqn:Hq; eexists; [eapply CheckpointUnread; eassumption|eapply CheckpointNone; eassumption].
  - eexists. eapply SnapshotsFailed; eassumption.
  - eexists. eapply (SnapshotsAcked _ _ next false); [eassumption|discriminate].
  - eexists. eapply CheckpointSettled; eassumption.
  - destruct (hasPassive (service w)) eqn:Hq; eexists; [eapply (PassiveFlushed _ _ failed next false); eassumption|eapply PassiveNone; eassumption].
  - destruct (hasQuota (service w) && dirty w) eqn:Hq; eexists; [eapply FinalDirty; eassumption|eapply FinalClean; eassumption].
  - eexists. eapply FinalPassiveOver; eassumption.
Qed.

(** [C15] A cancelled shutdown ends.  Once the deadline has passed and the worker has left its
    main loop, every step of it brings it closer to the end, whatever the database, the source
    of cost limits and the flusher answer; no call sets it back, and it can always go on until it
    has finished. *)
Theorem canceled_shutdown_ends w :
  reachable w -> w.(service).(canceled) = true -> leaving w.(service).(worker) = true ->
  (forall w', works w w' -> (outstanding w'.(service) < outstanding w.(service))%nat) /\
  (forall w', RequestLog.calls w w' -> outstanding w'.(service) = outstanding w.(service)) /\
  (w.(service).(worker) <> Finished -> exists w', works w w') /\
  (forall w', step w w' -> w'.(service).(canceled) = true /\ leaving w'.(service).(worker) = true).
Proof.
  intros Hr Hc Hl. destruct (reachable_invariant _ Hr) as [_ Hok _ _ _ _]. split_and!.
  - intros w' Hw. now apply (works_outstanding w).
  - intros w' Hw. now apply (calls_outstanding w).
  - now apply canceled_goes_on.
  - intros w' [Hw|Hw]; [now apply (works_stays w)|now apply (calls_stays w)].
Qed.

End Props.

(** ** A short life

    One request, then a shutdown in time. *)

Abbreviation reached := (@RequestLog.reachable plainPatterns plainCodec None).

Tactic Notation "walk" tactic(t) :=
  match goal with Hr : reached _ |- _ =>
    let Hn := fresh in eassert (Hn : reached _) by (eapply ReachStep; [exact Hr|t]); clear Hr; rename Hn into Hr
  end.
Tactic Notation "call" uconstr(c) := walk (right; eapply c; reflexivity).
Tactic Notation "work" uconstr(c) := walk (left; eapply c; reflexivity).

Lemma one_request_stored :
  exists w, reached w /\ w.(accepted) = [sampleEvent] /\ w.(service).(worker) = Finished /\ w.(service).(persistedTotal) = 1.
Proof.
  pose proof (ReachInitial (H := plainPatterns) (H0 := plainCodec) None false false false LogStore.emptyDB) as Hr.
  walk (right; apply CallStart). walk (right; apply (CallEmit _ sampleEvent)). walk (right; apply CallStop). work WaitStop.
  walk (left; eapply (DrainEvent _ _ []); first [reflexivity | apply Nat.ltb_lt; reflexivity]).
  walk (left; eapply (DrainLast _ _ [_]); first [reflexivity | apply Nat.ltb_lt; reflexivity]).
  work (WriteRows _ _ _ _ (Some ∅) false). work CheckpointNone. work PassiveNone. work FinalClean. work FinalPassiveOver.
  eexists. split; [exact Hr|]. split_and!; vm_compute; reflexivity.
Qed.

Lemma every_event_is_accounted_witness :
  exists w, reached w /\ w.(accepted) = [sampleEvent] /\ w.(attempted) ++ w.(lost) = [sampleEvent] /\ w.(service).(enqueuedTotal) = 1.
Proof.
  destruct one_request_stored as (w & Hr & Ha & Hf & _). exists w.
  destruct (every_event_is_accounted None w Hr) as (_ & _ & _ & _ & He & Hd). destruct (Hd Hf) as [Hall _].
  split; [exact Hr|]. split; [exact Ha|]. split; [congruence|]. rewrite He, Ha. reflexivity.
Defined.

Lemma no_checkpoint_is_forgotten_witness :
  exists w, reached w /\ w.(service).(quotaWake) = Some true.
Proof.
  pose proof (ReachInitial (H := plainPatterns) (H0 := plainCodec) None false true false LogStore.emptyDB) as Hr.
  walk (right; apply CallStart). call SourceDirty. call SourceNotify.
  eexists. split; [exact Hr|]. eapply (no_checkpoint_is_forgotten None); [exact Hr|reflexivity..].
Defined.

Lemma canceled_shutdown_ends_witness :
  exists w, reached w /\ outstanding w.(service) = 3%nat /\ exists w', RequestLog.works (H := plainPatterns) (H0 := plainCodec) None w w'.
Proof.
  pose proof (ReachInitial (H := plainPatterns) (H0 := plainCodec) None false false false LogStore.emptyDB) as Hr.
  walk (right; apply CallStart). walk (right; apply (CallEmit _ sampleEvent)). walk (right; apply CallStop). work WaitStop. walk (right; apply CallCancel).
  eexists. split; [exact Hr|]. split; [reflexivity|]. eapply (canceled_shutdown_ends None); [exact Hr|reflexivity|reflexivity|discriminate].
Defined.

End RequestLogProps.
